(* ===== verification/_CoqProject ===== *)
-Q . S2P
Prelude.v
FabricTypes.v
Budget.v
BudgetInv.v
BudgetSpec.v
BudgetPrincipal.v
Lease.v
Admission.v
AdmissionInv.v
AdmissionSpec.v
ToolStream.v
Capability.v
Space.v
Process.v
Operation.v
Supervision.v
Mailbox.v
BudgetGrow.v
Runtime.v
RuntimeInv.v
RuntimeSpec.v
KernelRun.v
Disconnect.v
EmergencyStop.v
Device.v
DeviceSpec.v
Broker.v
BrokerSpec.v
StdModel.v
Selector.v
Fallible.v
Database.v
AgoraTypes.v
TaskGraph.v
Workspace.v
WorkspaceRun.v
WorkspaceReplay.v
WorkspaceSafety.v
AgoraRegistry.v
RegistrySpec.v
StdText.v
ExecPolicy.v
CommandEffect.v
StructuredPatch.v
PatchSpec.v
PatchApply.v
FabricPolicy.v
LoopGuard.v
AuditLog.v
StdFloat.v
Candidate.v
Competition.v
CompetitionSpec.v
Broadcast.v
BroadcastSpec.v
BroadcastLive.v
DaseinTypes.v
Temporality.v
DaseinSelf.v
SelfLedger.v
SelfEngine.v
SelfEngineSpec.v
ApprovalTypes.v
GoalTypes.v
GoalStore.v
GoalFlow.v
GoalSpec.v
GoalLive.v
Approvals.v
ApprovalSpec.v
ApprovalRun.v
ApprovalSafety.v
Genome.v
MetaRuntime.v
Governance.v
GovernanceSpec.v
ProblemLedger.v
Evaluation.v
ChangeTransaction.v
AgentAdmission.v
