(* ===== verification/Prelude.v ===== *)
(** * Aletheon: a verification development of its core

    Aletheon runs autonomous agents.  Its kernel ([crates/kernel]) owns the
    authority the other crates act with: which processes exist, which operations
    they run, what budget and which exclusive resources they may use, who may
    invoke a capability, and what is taken back when a process ends.  The data
    and contracts it shares with the other crates are in [crates/fabric].  Around
    it are the shared workspace of the cognitive processes with the competition
    for it and the broadcast of what wins ([crates/agora]), the durable self of an
    agent ([crates/dasein]), the governed devices ([crates/hardware]), the
    selection of an agent runtime ([crates/runtime]), the gates a tool call passes
    before it touches the machine ([crates/corpus], [crates/platform] and the
    policies of fabric), the daemon's records of what a user wants and allows:
    goals with their attempts, approvals, and which agents may run
    ([crates/executive]), and the governed
    mutation of the agent's own description ([crates/metacog]).  This library
    models these parts and proves the properties the rest of the system relies on.

    ** Parts, files and sources

    The kernel:
    - [Prelude]: the environment, the error and state monad [M] with its
      weakest-precondition rules and tactics, machine integers, maps and lists.
    - [FabricTypes]: fabric/src/types ([time], [admission], [process],
      [operation], [space]): identifiers, requests, the process and operation
      state machines, permits, context bindings.
    - [Budget], [BudgetInv], [BudgetSpec], [BudgetPrincipal], [BudgetGrow]:
      kernel/src/admission/budget.rs.  The forest of budget scopes
      ([BudgetState]), the controller with its durable file ([Controller]), the
      principal-based adapter.
    - [Lease]: kernel/src/admission/lease.rs.
    - [Admission], [AdmissionInv], [AdmissionSpec]: the trait of
      fabric/src/include/admission.rs as the class [AdmissionController] with its
      laws [AdmissionLaws], and its implementations, kernel/src/admission/mod.rs
      ([AllowAll]) and production.rs ([Production]), over budgets and leases.
      ([admit] is spelled [admit_].)
    - [ToolStream], [Capability]: fabric/src/types/tool_stream.rs and
      kernel/src/capability/mod.rs.  The invoker is written and verified against
      the class; the production controller discharges its laws.
    - [Space], [Process], [Operation], [Supervision]: kernel/src/space/manager.rs,
      process/table.rs, operation/table.rs, supervision/tree.rs.
    - [Mailbox]: fabric/src/ipc/mailbox.rs and envelope_v2.rs.
    - [Runtime], [RuntimeInv], [RuntimeSpec], [KernelRun], [Disconnect]:
      kernel/src/runtime.rs.  [KernelRuntime] holds the states of all the
      components above, and its methods run on their parts; spawning, the phases
      of the terminal transaction with restarts, reaping, and the cleanup after a
      disconnected connection.

    Devices and runtimes:
    - [EmergencyStop], [Device], [DeviceSpec], [Broker], [BrokerSpec]:
      hardware/src (emergency_stop.rs; device.rs, lease.rs, command.rs, safety.rs
      and simulator.rs with deployment_gate.rs; registry.rs, broker.rs, skill.rs
      and observation.rs) with fabric/src/types/embodiment.rs.
    - [StdModel], [Selector]: runtime/src/manifest.rs and selector.rs, over the
      sorted sets and the stable sort of the standard library.

    The shared workspace:
    - [Fallible]: the [Result] monad of functions without state and its rules;
      paths of the standard library.  [StdFloat]: IEEE numbers as the sources use
      them, with bounds on sums and products.  [Database]: a SQLite connection, of
      which every statement may fail, and its transactions.
    - [AgoraTypes], [TaskGraph]: fabric/src/types/cognitive_workflow.rs and
      fabric/src/include/agora.rs; agora/src/task_graph.
    - [Workspace], [WorkspaceRun], [WorkspaceReplay], [WorkspaceSafety]:
      agora/src/workspace with the blackboard, attention,
      scratchpad and trace it is made of: proposals, the validation and
      application of every operation, commits, replay.
    - [AgoraRegistry], [RegistrySpec]: agora/src/persistence and
      agora/src/ops.  The log is the class [AgoraPersistence] with its laws, the
      in-memory log an instance; the registry of sessions over it is verified
      against the class.
    - [Candidate], [Competition], [CompetitionSpec]:
      fabric/src/types/workspace.rs and agora/src/competition, the pool of
      candidates and the selection of a coalition.
    - [Broadcast], [BroadcastSpec], [BroadcastLive]:
      agora/src/broadcast, the store of epochs, the delivery
      to the processors and the coordinator over the pool.

    The self:
    - [DaseinTypes], [Temporality], [DaseinSelf]: fabric/src/dasein and
      dasein/src/dasein, the transitions and the state of the self.
    - [SelfLedger], [SelfEngine], [SelfEngineSpec]: the hash-chained ledger of events with its checkpoints, and the engine that accepts,
      evaluates and persists a transition.

    Gates on tool calls:
    - [StdText]: Rust's [str] as a list of code points, with what the sources use
      of it (splitting, trimming, prefixes, line iteration, number parsing).
    - [ExecPolicy], [CommandEffect]: corpus/src/security (exec_policy.rs,
      command_effect.rs).
    - [StructuredPatch], [PatchSpec], [PatchApply]:
      platform/src/structured_patch.rs, the three patch formats and applying
      hunks.
    - [FabricPolicy]: fabric/src (policy/execpolicy.rs, types/network_policy.rs,
      types/permission.rs, security/policy.rs).
    - [LoopGuard]: fabric/src/security (risk_classifier.rs, circuit_breaker.rs,
      loop_detector.rs) and corpus/src/security/storm_breaker.rs.
    - [AuditLog]: fabric/src/security/audit.rs, the redaction of texts and of JSON
      values and the hash-chained audit log.
    - [ChangeTransaction]: corpus/src/tools/tools/change_transaction.rs (the
      registry) and change_transaction/validation.rs with
      fabric/src/types/change_transaction.rs and repository.rs: changing a
      workspace with a baseline, review, validation and acceptance or rollback.

    Goals, approvals and agents (executive/src/application):
    - [ApprovalTypes], [Approvals], [ApprovalSpec], [ApprovalRun],
      [ApprovalSafety]: fabric/src/types/approval.rs and
      approval/repository.rs, every method over its tables.
    - [GoalTypes], [GoalStore], [GoalFlow], [GoalSpec], [GoalLive]:
      fabric/src/types (goal.rs, attempt.rs, objective.rs), goal (store.rs,
      transition.rs, budget.rs, attempt.rs and retry.rs; frame.rs, coordinator.rs,
      attempt_coordinator.rs and worker.rs) and goal_service.rs: the objective
      store, the retry policy, the coordinators and the scheduler.
    - [AgentAdmission]: agent_control/admission.rs with its configuration
      (cognit/src/config/mod.rs): the queue, the slots and the leases of agents,
      whose shares are reserved with the kernel's [Budget].

    Self-modification (metacog/src):
    - [Genome]: fabric/src/types/genome.rs, evolution/candidate.rs,
      sandbox_runner.rs and candidate_evaluator.rs: the genome, the candidate made
      of it by an intent, its tests and their evaluation.
    - [MetaRuntime]: the trait of fabric/src/include/meta.rs as the class
      [MetaRuntimeOps], the pipeline over it, and its implementation
      governance/runtime.rs with the genome file, the snapshots and the lineage
      (genome/loader.rs, evolution/rollback.rs, lineage.rs and migration.rs).
    - [Governance], [GovernanceSpec]: governance/service.rs, verified against the
      class; the default runtime is an instance.
    - [ProblemLedger]: problem (model.rs, fingerprint.rs, projection.rs and
      ledger.rs), the append-only ledger of problems and its projection.
    - [Evaluation]: evaluation/engine.rs and rubric.rs, evolution/experiment.rs and
      the reports and evidence of fabric/src/types: scoring against a rubric,
      backing by evidence, and the decision on an experiment.

    A structure of the source is a record with prefixed fields, an enumeration a
    module or an inductive type, a [HashMap] or a table with a key a [gmap], a
    method a definition of the monad [M] (or a function on the state where it
    cannot fail) with the source's name.  Integers are [N] with the source's
    saturation or wrap-around written out, where the source has [u64]; [f64] is
    [F64], a binary64 number of the standard library's [SpecFloat].

    ** The environment

    Code outside the repository is the class [Env]: random identifiers, the two
    clocks, the outcome of each write of the budget file, the iteration order of
    hash maps.  Each answer is indexed by the number of external calls so far,
    which [M] threads.  [EnvOk] states what the program relies on: identifiers
    do not repeat, the monotonic clock does not go back and fits [u64], a hash
    map iterates over each entry once.  [sample_env] satisfies it and evaluates
    the witnesses.  Further parameters are the tool executor of the invoker, the
    injected lifecycle faults of the runtime, JSON values and floating-point
    numbers of the devices ([DeviceJson]), the encoding of the workspace's
    artifacts ([AgoraEnv]), the case tables of Unicode ([UnicodeCase]), the
    directory and TOML readers of the policies, what each statement of SQLite
    answers ([Sqlite]), the encodings and digests of candidates and broadcasts
    ([CandidateEnv], [BroadcastCodec], [BroadcastEnv] with [BroadcastLaws]), of the
    self ([NameUuid], [SelfCodec] with [SelfLaws]), of approvals ([ApprovalDigest],
    [ApprovalCodec] with [ApprovalLaws]) and of the audit log ([AuditCodec],
    [AuditFile] with [AuditLaws]), the texts and clocks of the goals' tables
    ([GoalEnv], [ConditionCodec]), the agent runtimes ([AttemptExecutor]), and the
    numbers, encodings and files of metacog ([JsonNumbers], [TextFormat],
    [MetaFiles] with [MetaFilesOk], [GovernanceCodec] with [GovernanceLaws],
    [LedgerCodec] and [LedgerFile] with [LedgerLaws], [PayloadDigest]), and the
    workspace of a change transaction with the files of its repository
    ([Workspace], [RepositoryFiles]).

    ** Concurrency

    A method that holds its mutex throughout is one atomic step.  Where a method
    drops a lock in between, the sections are separate definitions and the
    interleavings that matter are stated: [Lease.release], [Operation.submit],
    [Runtime.spawn_process], [Broker.execute_skill_sim],
    [AgoraRegistry.recover_session], the accepting and the finishing of a
    transition of the self, the sections of [accept], [rollback] and
    [record_shell_terminal] of a change transaction, the readings and the insertion
    of a goal's budget reservation.  Approvals and goals are reached over several
    connections to one database: a reading and a transaction are separate steps of
    a step relation, the theorems hold over every interleaving of them, and every
    method is shown to be a run of such steps.  A task that waits ([wait], [recv],
    [request]) is a poll of the condition it re-checks; wake-ups and timers are
    not modelled, but for how often [AgentAdmission] notifies those that wait.
    There [reserve] is resumed section by section and may be dropped wherever it
    waits, and a method of a lease is two
    steps, the call of the budget controller and the release of its place.

    ** What the theorems show

    - Budgets (C1, C5): capacity is conserved over every run of calls; a call of a
      durable controller whose file agrees with its memory is on disk or has not
      happened, but for a root that cannot be written, which panics.
    - Invocation (C16): no permit outlives an invocation that returns, for every
      controller that satisfies the laws and every executor; one that panics leaves
      its permit live.
    - Operations and mailboxes (C23, C28): cancellation ends and reaches the whole
      subtree; what is received is a prefix of what was accepted, and all of it while
      the mailbox is open.
    - The composed kernel (C32, C33): terminating a process releases everything it
      held and is idempotent; from boot no sequence of calls panics (with the
      in-memory budget) or breaks an invariant of a component.
    - Admission of agents (C24, C34): over every interleaving the counters, slots
      and queue are exactly those of the agents and within the limits, also when a
      waiting call is dropped; the agents of a root are paid from one scope and together stay within its budget.
    - Devices (C4, C36): the broker executes a skill exactly when every authority
      in the chain agrees; no run of a device moves it outside a valid permit and
      lease.
    - The workspace (C8, C20, C39, C40): reachable workspaces are well formed; a
      replay of the committed log rebuilds the workspace; commits respect task
      ownership; the registry over the in-memory log implements a store of commit
      histories.
    - Competition and broadcast (C19, C29): a broadcast happens wholly or not at
      all, and it reaches the processors when nothing fails.
    - The self (C18, C22): an event is lived once, and the state is what its
      history says, as long as the numbers of the events survive their JSON text and
      the ledger is replayed only when a process starts.
    - Gates (C6, C17, C25, C27): the command policy equals a reference
      that does not depend on the order of its rules; the commands that run without
      a transaction are exactly those of a grammar of texts; the parsers of patches
      end and accept no path outside the workspace; applying hunks replaces exactly
      the lines at the first place in the order of the search.
    - Change transactions (C21): an accepted change was reviewed and passed every
      required validation on exactly the accepted version, which includes the check
      and the tests of every changed crate, when no other call changes the
      transaction between the sections of one.
    - The audit log (C7): over failures that leave whole lines, and restarts, it is
      one chain of exactly the acknowledged records, without the credentials the
      redaction recognises.
    - Approvals (C9, C12, C26): an approval is decided once, by its owner and in
      time; it is consumed once; the audit events are its history.
    - Goals (C11, C13, C38): the events of a goal are its history and a terminal
      state is final; its attempts stay within the budget, when one connection
      reserves at a time, and keep their outcome; when nothing fails an attempt
      that is not a coding job invokes its runtime once, is carried through, and the
      goal ends up where the retry policy says.
    - Self-modification (C2, C10, C14, C15, C31): over calls, failures and crashes
      each mutation is migrated once and only under valid evidence bound to it; a
      receipt is final; a migration can be undone; a sound genome stays sound under
      modest intents.
    - Evaluation and problems (C3, C30, C35, C37): the evaluator computes its
      reference in fixed-width integers; after its window a candidate is promoted
      exactly when it improved, and then on evidence; the ledger of problems is
      durable over failures that leave whole lines and over restarts, and its records
      say what was observed.
    - Lemmas without a number state further properties of leases, permits, spaces,
      processes (an agent has one live process at most), the selection of a
      coalition (the best one by its total), supervision, the revocation of budgets, the cleanup of a connection, the
      bounds of the pool, the emergency stop, the circuit breaker, the hunks of a
      patch, fingerprints, the ledger of the self and the selection of a runtime.
      Those in
      [BudgetSpec], [AdmissionSpec], [Lease], [Mailbox], [Operation],
      [Disconnect], [BrokerSpec], [WorkspaceSafety], [RegistrySpec],
      [ExecPolicy], [CommandEffect], [PatchApply],
      [FabricPolicy], [LoopGuard], [AuditLog], [BroadcastLive],
      [SelfEngineSpec], [ApprovalSafety], [GoalLive], [GovernanceSpec],
      [ProblemLedger], [Evaluation], [ChangeTransaction] and [AgentAdmission] also
      exhibit runs where the code falls short of its documentation or of what one
      would expect.

    ** Fuel

    Recursion that is not structural runs on fuel, and every theorem about it
    shows that the fuel suffices.  The walk of [revoke_scope_tree] has depth 4:
    a child's kind is below its parent's, and there are four kinds.
    [collect_descendants] has the size of the operation table plus one: each
    turn records another operation.  The phase loop of [terminate_process] has
    four turns, one per phase.  The loop of [request] has the length of the
    queues plus one.  A command segment recurses into the words after [xargs],
    with the number of words as fuel.  The loops of the patch parsers have the
    length of the input or the number of its lines: each turn consumes some.

    ** Not modelled

    Serialisation (serde), tracing, poisoned mutexes, allocation; the system
    clock and the timers of kernel/src/chronos; the task wrappers
    (operation/task_group.rs, process/handle.rs).  Of agora, the views, snapshots
    and task projections, the SQLite log, and the integration, response,
    projection and modulation records of a broadcast; of dasein, the start and
    stop of the care loop, the snapshots and the injection of context, negativity,
    the core and the perception; of the approvals, the coordinator that applies a
    patch; of the goals, the verification of coding jobs, the storage quota, the
    summaries and the projection into memory; of corpus, the runner, the sandboxes and the tools
    (of the change transactions, capturing and restoring a workspace with git); of
    hardware, the gRPC provider; of platform, the operating system.  Next in order are the apply
    coordinator and the verification of coding jobs, the rest of the agent control
    of [crates/executive] (execution, settlement, recovery), the contracts of evaluation and the ledgers of
    improvements and learning of [crates/metacog] and the dispatch of
    [crates/gateway].  The crates that are mostly I/O, user interface, model
    providers or stores are not planned. *)
From Stdlib Require Export NArith ZArith Lia.
From stdpp Require Export base tactics decidable option list gmap strings pretty fin_maps numbers.
From stdpp Require Export list.

Open Scope N_scope.

(** ** External code as parameters

    Every effect of the program that leaves the repository (drawing a random
    identifier, reading a clock, an I/O step that may fail, the iteration order
    of a hash map) is answered by a field of [Env], indexed by the number of
    external calls made so far.  The index is threaded by the monad [M] below,
    so two calls never share an answer by accident. *)

Abbreviation Uuid := N (only parsing).

Inductive PersistIo :=
| IoOk
| IoFailBeforeRename (error : string)
| IoFailAfterRename (error : string).

Class Env := {
  uuid_v4 : N → Uuid;
  uuid_display : Uuid → string;
  mono_now : N → N;
  wall_now : N → Z;
  persist_io : N → PersistIo;
  hash_order : N → ∀ A : Type, list A → list A;
}.

(** What the program relies on: version-4 identifiers do not repeat, the
    monotonic clock does not go backwards and fits a [u64], and a hash map
    iterates over each of its entries exactly once. *)
Class EnvOk `{Env} : Prop := {
  uuid_v4_inj : ∀ i j, uuid_v4 i = uuid_v4 j → i = j;
  mono_now_mono : ∀ i j, i ≤ j → mono_now i ≤ mono_now j;
  mono_now_u64 : ∀ i, mono_now i ≤ 18446744073709551615;
  hash_order_perm : ∀ i A (l : list A), hash_order i A l ≡ₚ l;
}.

(** A concrete environment, used by the witnesses and the examples. *)
Definition sample_env : Env := {|
  uuid_v4 := N.succ;
  uuid_display := λ u, pretty u;
  mono_now := λ _, 1000;
  wall_now := λ _, 0%Z;
  persist_io := λ _, IoOk;
  hash_order := λ _ _ l, l;
|}.

(** ** Machine integers *)

Definition u64_max : N := 18446744073709551615.

Definition is_u64 (x : N) : Prop := x ≤ u64_max.

(** [u64::saturating_add] and [u64::saturating_sub]. *)
Definition saturating_add (a b : N) : N := N.min (a + b) u64_max.

Definition saturating_sub (a b : N) : N := a - b.

(** [a - b] on [u64] with the release profile's wrap-around. *)
Definition wrapping_sub (a b : N) : N := (a + (u64_max + 1) - b) mod (u64_max + 1).

Definition wrapping_add (a b : N) : N := (a + b) mod (u64_max + 1).

(** ** Results and the effect monad

    A step returns a value, an error (the [?] operator) or a panic, together
    with the state it leaves behind: a Rust method that fails after a mutation
    keeps the mutation, so the state is returned on every outcome. *)

Inductive Result (E A : Type) : Type :=
| Ok (a : A)
| Err (e : E)
| Panic.
Arguments Ok {E A} _.
Arguments Err {E A} _.
Arguments Panic {E A}.

Definition M (S E A : Type) : Type := S → N → Result E A * S * N.

Section Monad.
Context {S E : Type}.

#[global] Instance M_ret : MRet (M S E) := λ A a s n, (Ok a, s, n).

#[global] Instance M_bind : MBind (M S E) := λ A B k m s n,
  match m s n with
  | (Ok a, s', n') => k a s' n'
  | (Err e, s', n') => (Err e, s', n')
  | (Panic, s', n') => (Panic, s', n')
  end.

Definition throw {A} (e : E) : M S E A := λ s n, (Err e, s, n).

Definition panic {A} : M S E A := λ s n, (Panic, s, n).

Definition get_state : M S E S := λ s n, (Ok s, s, n).

Definition put_state (s' : S) : M S E unit := λ _ n, (Ok tt, s', n).

Definition modify (f : S → S) : M S E unit := λ s n, (Ok tt, f s, n).

(** The index of the next external call, consumed. *)
Definition tick : M S E N := λ s n, (Ok n, s, n + 1).

(** [let _ = m;]: the error is dropped, the state is kept. *)
Definition ignore {A} (m : M S E A) : M S E unit := λ s n,
  match m s n with
  | (Panic, s', n') => (Panic, s', n')
  | (_, s', n') => (Ok tt, s', n')
  end.

(** [m.is_err()] and matching on a result without propagating it. *)
Definition try_ {A} (m : M S E A) : M S E (E + A) := λ s n,
  match m s n with
  | (Ok a, s', n') => (Ok (inr a), s', n')
  | (Err e, s', n') => (Ok (inl e), s', n')
  | (Panic, s', n') => (Panic, s', n')
  end.

(** [option.ok_or(e)?] and [anyhow::ensure!(b, e)]. *)
Definition ok_or {A} (o : option A) (e : E) : M S E A :=
  match o with Some a => mret a | None => throw e end.

Definition ensure (b : bool) (e : E) : M S E unit :=
  if b then mret tt else throw e.

(** [option.expect(..)]. *)
Definition expect {A} (o : option A) : M S E A :=
  match o with Some a => mret a | None => panic end.

(** [for x in l { body }]: an error or a panic of the body leaves the loop. *)
Fixpoint for_each {A} (l : list A) (body : A → M S E unit) : M S E unit :=
  match l with
  | [] => mret tt
  | x :: l' => body x ;; for_each l' body
  end.

(** The weakest precondition of a step: [Q] holds of its outcome, of the state
    it leaves and of the external-call index it reaches. *)
Definition wp {A} (m : M S E A) (Q : Result E A → S → N → Prop) (s : S) (n : N) : Prop :=
  match m s n with (r, s', n') => Q r s' n' end.

End Monad.

(** Running a step of a component inside a larger state. *)
Definition zoom {S T E A} (view : T → S) (update : S → T → T) (m : M S E A) : M T E A :=
  λ t n, match m (view t) n with (r, s', n') => (r, update s' t, n') end.

(** [map_err]. *)
Definition map_err {S E F A} (f : E → F) (m : M S E A) : M S F A := λ s n,
  match m s n with
  | (Ok a, s', n') => (Ok a, s', n')
  | (Err e, s', n') => (Err (f e), s', n')
  | (Panic, s', n') => (Panic, s', n')
  end.

(** [Uuid::new_v4()], one reading of each clock, one attempt of durable I/O. *)
Definition new_uuid `{Env} {S E} : M S E Uuid := n ← tick; mret (uuid_v4 n).

Definition read_mono `{Env} {S E} : M S E N := n ← tick; mret (mono_now n).

Definition read_wall `{Env} {S E} : M S E Z := n ← tick; mret (wall_now n).

Definition read_io `{Env} {S E} : M S E PersistIo := n ← tick; mret (persist_io n).

(** The entries of a hash map in the order the [i]-th external call finds them. *)
Definition hash_values `{Env} `{Countable K} {V} (i : N) (m : gmap K V) : list V :=
  hash_order i V (map_to_list m).*2.

Definition hash_entries `{Env} `{Countable K} {V} (i : N) (m : gmap K V) : list (K * V) :=
  hash_order i (K * V) (map_to_list m).

(** ** Sums over finite maps *)

Definition msum `{Countable K} {V} (f : K → V → N) (m : gmap K V) : N :=
  map_fold (λ k v acc, f k v + acc) 0 m.

(** An identifier drawn by one of the first [n] external calls. *)
Definition drawn `{Env} (n : N) (u : Uuid) : Prop := ∃ i, i < n ∧ u = uuid_v4 i.

(** ** Lemmas *)

Create HintDb aletheon discriminated.

Section WpRules.
Context {S E : Type}.
Implicit Types (s : S) (n : N).

Lemma wp_mono {A} (m : M S E A) (P Q : Result E A → S → N → Prop) s n :
  wp m P s n → (∀ r s' n', P r s' n' → Q r s' n') → wp m Q s n.
Proof. unfold wp. destruct (m s n) as [[r s'] n']. auto. Qed.

Lemma wp_bind {A B} (m : M S E A) (k : A → M S E B) Q s n :
  wp m (λ r s' n', match r with
                   | Ok a => wp (k a) Q s' n'
                   | Err e => Q (Err e) s' n'
                   | Panic => Q Panic s' n'
                   end) s n →
  wp (m ≫= k) Q s n.
Proof. unfold wp, mbind, M_bind. destruct (m s n) as [[[a|e|] s'] n']; auto. Qed.

Lemma wp_ret {A} (a : A) (Q : Result E A → S → N → Prop) s n :
  Q (Ok a) s n → wp (mret a) Q s n.
Proof. auto. Qed.

Lemma wp_get (Q : Result E S → S → N → Prop) s n : Q (Ok s) s n → wp get_state Q s n.
Proof. auto. Qed.

Lemma wp_put s' (Q : Result E unit → S → N → Prop) s n : Q (Ok tt) s' n → wp (put_state s') Q s n.
Proof. auto. Qed.

Lemma wp_modify f (Q : Result E unit → S → N → Prop) s n : Q (Ok tt) (f s) n → wp (modify f) Q s n.
Proof. auto. Qed.

Lemma wp_throw {A} e (Q : Result E A → S → N → Prop) s n : Q (Err e) s n → wp (throw e) Q s n.
Proof. auto. Qed.

Lemma wp_panic {A} (Q : Result E A → S → N → Prop) s n : Q Panic s n → wp panic Q s n.
Proof. auto. Qed.

Lemma wp_tick (Q : Result E N → S → N → Prop) s n : Q (Ok n) s (n + 1) → wp tick Q s n.
Proof. auto. Qed.

Lemma wp_new_uuid `{Env} (Q : Result E N → S → N → Prop) s n :
  Q (Ok (uuid_v4 n)) s (n + 1) → wp new_uuid Q s n.
Proof. auto. Qed.

Lemma wp_read_mono `{Env} (Q : Result E N → S → N → Prop) s n :
  Q (Ok (mono_now n)) s (n + 1) → wp read_mono Q s n.
Proof. auto. Qed.

Lemma wp_read_wall `{Env} (Q : Result E Z → S → N → Prop) s n :
  Q (Ok (wall_now n)) s (n + 1) → wp read_wall Q s n.
Proof. auto. Qed.

Lemma wp_read_io `{Env} (Q : Result E PersistIo → S → N → Prop) s n :
  Q (Ok (persist_io n)) s (n + 1) → wp read_io Q s n.
Proof. auto. Qed.

Lemma wp_try {A} (m : M S E A) (Q : Result E (E + A) → S → N → Prop) s n :
  wp m (λ r s' n', match r with
                   | Ok a => Q (Ok (inr a)) s' n'
                   | Err e => Q (Ok (inl e)) s' n'
                   | Panic => Q Panic s' n'
                   end) s n →
  wp (try_ m) Q s n.
Proof. unfold wp, try_. destruct (m s n) as [[[a|e|] s'] n']; auto. Qed.

Lemma wp_ok_or {A} (o : option A) (e : E) Q s n :
  (∀ a, o = Some a → Q (Ok a) s n) → (o = None → Q (Err e) s n) →
  wp (ok_or o e) Q s n.
Proof. destruct o; cbn; auto. Qed.

Lemma wp_ensure (b : bool) (e : E) Q s n :
  (b = true → Q (Ok tt) s n) → (b = false → Q (Err e) s n) →
  wp (ensure b e) Q s n.
Proof. destruct b; cbn; auto. Qed.

Lemma wp_ignore {A} (m : M S E A) Q s n :
  wp m (λ r s' n', match r with Panic => Q Panic s' n' | _ => Q (Ok tt) s' n' end) s n →
  wp (ignore m) Q s n.
Proof. unfold wp, ignore. destruct (m s n) as [[[a|e|] s'] n']; auto. Qed.

(** The loop rule: [I l s n] holds before the iteration over the rest [l]. *)
Lemma wp_for_each {A} (I : list A → S → N → Prop) (body : A → M S E unit) Q l s n :
  (∀ x l' s n, I (x :: l') s n →
     wp (body x) (λ r s' n', match r with
                             | Ok _ => I l' s' n'
                             | Err e => Q (Err e) s' n'
                             | Panic => Q Panic s' n'
                             end) s n) →
  (∀ s n, I [] s n → Q (Ok tt) s n) →
  I l s n → wp (for_each l body) Q s n.
Proof.
  intros Hbody Hend. revert s n. induction l as [|x l IH]; intros s n HI; [by apply Hend|].
  cbn. apply wp_bind. eapply wp_mono; [by apply Hbody|].
  intros [[]|e|] s' n'; auto.
Qed.

Lemma for_each_app {A} (l1 l2 : list A) (body : A → M S E unit) s n :
  for_each (l1 ++ l2) body s n = (for_each l1 body ;; for_each l2 body) s n.
Proof.
  revert s n. induction l1 as [|x l1 IH]; intros s n; [done|]. cbn.
  unfold mbind, M_bind. destruct (body x s n) as [[[a|e|] s'] n']; eauto.
Qed.

Lemma wp_zoom {T A} (view : T → S) (update : S → T → T) (m : M S E A) Q t n :
  wp m (λ r s' n', Q r (update s' t) n') (view t) n → wp (zoom view update m) Q t n.
Proof. unfold wp, zoom. destruct (m (view t) n) as [[r s'] n']. done. Qed.

Lemma wp_map_err {F A} (f : E → F) (m : M S E A) Q s n :
  wp m (λ r s' n', match r with
                   | Ok a => Q (Ok a) s' n'
                   | Err e => Q (Err (f e)) s' n'
                   | Panic => Q Panic s' n'
                   end) s n →
  wp (map_err f m) Q s n.
Proof. unfold wp, map_err. destruct (m s n) as [[[a|e|] s'] n']; auto. Qed.

End WpRules.

(** Symbolic execution of the monad's primitives in a [wp] goal. *)
Ltac wp_step :=
  lazymatch goal with
  | |- wp (_ ≫= _) _ _ _ => apply wp_bind
  | |- wp (mret _) _ _ _ => apply wp_ret
  | |- wp (ok_or _ _) _ _ _ => apply wp_ok_or
  | |- wp (ensure _ _) _ _ _ => apply wp_ensure
  | |- wp (ignore _) _ _ _ => apply wp_ignore
  | |- wp (zoom _ _ _) _ _ _ => apply wp_zoom
  | |- wp (map_err _ _) _ _ _ => apply wp_map_err
  | |- wp get_state _ _ _ => apply wp_get
  | |- wp (put_state _) _ _ _ => apply wp_put
  | |- wp (modify _) _ _ _ => apply wp_modify
  | |- wp (throw _) _ _ _ => apply wp_throw
  | |- wp panic _ _ _ => apply wp_panic
  | |- wp tick _ _ _ => apply wp_tick
  | |- wp new_uuid _ _ _ => apply wp_new_uuid
  | |- wp read_mono _ _ _ => apply wp_read_mono
  | |- wp read_wall _ _ _ => apply wp_read_wall
  | |- wp read_io _ _ _ => apply wp_read_io
  | |- wp (try_ _) _ _ _ => apply wp_try
  end.

Ltac wp_steps := repeat (wp_step; intros; cbn beta iota).

(** Case analysis on the lookups of updated maps among the hypotheses. *)
Ltac split_lookup :=
  repeat match goal with
  | H : <[_:=_]> _ !! _ = Some _ |- _ =>
      apply lookup_insert_Some in H as [[? ?]|[? H]]; subst
  | H : delete _ _ !! _ = Some _ |- _ => apply lookup_delete_Some in H as [? H]
  end.

(** ** Machine integers *)

Lemma saturating_add_exact a b : a + b ≤ u64_max → saturating_add a b = a + b.
Proof. unfold saturating_add. lia. Qed.

Lemma saturating_add_le a b : saturating_add a b ≤ a + b.
Proof. unfold saturating_add. lia. Qed.

Lemma saturating_add_u64 a b : is_u64 (saturating_add a b).
Proof. unfold saturating_add, is_u64. lia. Qed.

Lemma wrapping_sub_exact a b : b ≤ a → a ≤ u64_max → wrapping_sub a b = a - b.
Proof.
  intros Hb Ha. unfold wrapping_sub, u64_max in *.
  replace (a + (18446744073709551615 + 1) - b)
    with ((a - b) + 1 * (18446744073709551615 + 1)) by lia.
  rewrite N.Div0.mod_add. apply N.mod_small. lia.
Qed.

#[export] Hint Resolve saturating_add_le saturating_add_u64 : aletheon.

(** ** Sums over finite maps *)

Section Msum.
Context `{Countable K} {V : Type}.
Implicit Types (f g : K → V → N) (m : gmap K V).

Lemma msum_empty f : msum f ∅ = 0.
Proof. apply map_fold_empty. Qed.

Lemma msum_insert f m k v : m !! k = None → msum f (<[k:=v]> m) = f k v + msum f m.
Proof.
  intros Hk. unfold msum.
  apply (map_fold_insert_L (λ k v acc, f k v + acc)); [|done]. intros. lia.
Qed.

Lemma msum_delete f m k v : m !! k = Some v → msum f m = f k v + msum f (delete k m).
Proof.
  intros Hk. rewrite <- (insert_delete_id m k v) at 1 by done.
  apply msum_insert, lookup_delete_eq.
Qed.

Lemma msum_update f m k v w :
  m !! k = Some v → msum f (<[k:=w]> m) + f k v = msum f m + f k w.
Proof.
  intros Hk. rewrite (msum_delete f m k v) by done.
  rewrite <- insert_delete_eq, msum_insert by apply lookup_delete_eq. lia.
Qed.

Lemma msum_ext f g m : (∀ k v, m !! k = Some v → f k v = g k v) → msum f m = msum g m.
Proof.
  induction m as [|k v m Hk IH] using map_ind; intros Hfg; [by rewrite !msum_empty|].
  rewrite !msum_insert by done. rewrite (Hfg k v) by apply lookup_insert_eq.
  rewrite IH; [done|]. intros k' v' Hk'. apply Hfg.
  rewrite lookup_insert_ne; [done|]. congruence.
Qed.

Lemma msum_zero f m : (∀ k v, m !! k = Some v → f k v = 0) → msum f m = 0.
Proof.
  intros Hf. rewrite (msum_ext f (λ _ _, 0)) by done.
  clear. induction m using map_ind; [by rewrite msum_empty|].
  rewrite msum_insert by done. lia.
Qed.

Lemma msum_elem_le f m k v : m !! k = Some v → f k v ≤ msum f m.
Proof. intros Hk. rewrite (msum_delete f m k v Hk). lia. Qed.

Lemma msum_add f g m : msum (λ k v, f k v + g k v) m = msum f m + msum g m.
Proof.
  induction m as [|k v m Hk IH] using map_ind; [by rewrite !msum_empty|].
  rewrite !msum_insert by done. lia.
Qed.

End Msum.

Lemma alter_as_insert `{Countable K} {V} (f : V → V) (m : gmap K V) k v :
  m !! k = Some v → alter f k m = <[k := f v]> m.
Proof.
  intros Hk. apply map_eq. intros j. rewrite lookup_alter, lookup_insert.
  case_decide; subst; [by rewrite Hk|done].
Qed.

Lemma rev_case {A} (l : list A) : l = [] ∨ ∃ l' x, l = l' ++ [x].
Proof. induction l using rev_ind; eauto. Qed.

(** ** Fresh identifiers and iteration order *)

Section EnvLemmas.
Context `{HEnv : Env} {HOk : EnvOk}.

Lemma drawn_mono n n' u : n ≤ n' → drawn n u → drawn n' u.
Proof. intros ? (i & ? & ->). exists i. lia. Qed.

Lemma drawn_fresh n : ¬ drawn n (uuid_v4 n).
Proof. intros (i & Hi & Heq). apply uuid_v4_inj in Heq. lia. Qed.

Lemma drawn_here n n' : n < n' → drawn n' (uuid_v4 n).
Proof. intros. by exists n. Qed.

Lemma elem_of_hash_values `{Countable K} {V} i (m : gmap K V) v :
  v ∈ hash_values i m ↔ ∃ k, m !! k = Some v.
Proof.
  unfold hash_values. rewrite hash_order_perm, list_elem_of_fmap. split.
  - intros ([k v'] & -> & Hk%elem_of_map_to_list). eauto.
  - intros [k Hk%elem_of_map_to_list]. by exists (k, v).
Qed.

Lemma elem_of_hash_entries `{Countable K} {V} i (m : gmap K V) k v :
  (k, v) ∈ hash_entries i m ↔ m !! k = Some v.
Proof. unfold hash_entries. by rewrite hash_order_perm, elem_of_map_to_list. Qed.

Lemma NoDup_hash_entries `{Countable K} {V} i (m : gmap K V) :
  NoDup (hash_entries i m).*1.
Proof. unfold hash_entries. rewrite hash_order_perm. apply NoDup_fst_map_to_list. Qed.

End EnvLemmas.

Lemma sample_env_ok : @EnvOk sample_env.
Proof.
  split; cbn; intros; [lia|lia|done|done].
Qed.

#[export] Hint Resolve drawn_mono drawn_here sample_env_ok : aletheon.
