(* ===== verification/FabricTypes.v ===== *)
(** * Fabric types: the data shared by the kernel components

    Translates [crates/fabric/src/types/time.rs], [admission.rs], [process.rs],
    [operation.rs] and [space.rs]: identifiers, the process and operation state
    machines with their transition tables, permits and their validity, budget
    scopes and requests, context bindings.  An enumeration is a module named
    after it, so [ProcessState::Ready] reads [ProcessState.Ready]; the fields of
    a structure carry a short prefix.  Identifier newtypes over a UUID are the
    number of that UUID.  The lemmas at the end describe the two lifecycle
    automata and the permit validity rule. *)
From S2P Require Import Prelude.

(** ** Time *)

Abbreviation MonoTime := N (only parsing).
Abbreviation MonoDeadline := N (only parsing).
Abbreviation WallTime := Z (only parsing).

Definition deadline_after (base : MonoTime) (millis : N) : MonoDeadline :=
  saturating_add base millis.

Definition deadline_is_expired_at (d : MonoDeadline) (now : MonoTime) : bool := d <=? now.

(** ** Identifiers *)

Abbreviation PermitId := N (only parsing).
Abbreviation BudgetReservationId := N (only parsing).
Abbreviation BudgetScopeId := N (only parsing).
Abbreviation ResourceLeaseId := N (only parsing).
Abbreviation OperationId := N (only parsing).
Abbreviation ProcessId := N (only parsing).
Abbreviation AgentId := N (only parsing).
Abbreviation SpaceId := N (only parsing).
Abbreviation MailboxId := N (only parsing).
Abbreviation SpaceSnapshotId := N (only parsing).
Abbreviation AuditEventId := N (only parsing).
Abbreviation PrincipalId := string (only parsing).
Abbreviation CapabilityId := string (only parsing).
Abbreviation AgentProfileId := string (only parsing).
Abbreviation NamespaceId := string (only parsing).
Abbreviation ConnectionId := string (only parsing).
Abbreviation ThreadId := string (only parsing).
Abbreviation OsProcessId := N (only parsing).

(** [PermitId::default()] is the nil UUID. *)
Definition PermitId_default : PermitId := 0.

(** ** Admission *)

Module RiskLevel.
Inductive t := ReadOnly | Sandboxed | SystemModify | Destructive.
End RiskLevel.

Record CapabilityScope := {
  cs_allowed_paths : list string;
  cs_allowed_targets : list string;
  cs_max_runtime_ms : option N;
  cs_max_output_bytes : option N;
}.

Module SandboxRequirement.
Inductive t := NotRequired | Required | RequiredThenPromote.
End SandboxRequirement.

Module SandboxDecision.
Inductive t := NotApplicable | Required | Passed | Failed (reason : string) | Unavailable.
End SandboxDecision.

Definition BUDGET_SCOPE_SCHEMA_VERSION : N := 1.

Module BudgetScopeKind.
Inductive t := Rollout | Process | Operation | Capability.
Definition accepts_child (self child : t) : bool :=
  match self, child with
  | Rollout, Process => true
  | Process, Operation => true
  | Operation, Capability => true
  | _, _ => false
  end.
End BudgetScopeKind.

Record BudgetRequest := {
  max_tokens : option N;
  max_cost_micro : option N;
}.

Record BudgetScope := {
  bs_schema_version : N;
  bs_id : BudgetScopeId;
  bs_parent : option BudgetScopeId;
  bs_kind : BudgetScopeKind.t;
  bs_owner : string;
  bs_limit : BudgetRequest;
}.

Record BudgetReservationReceipt := {
  br_reservation_id : BudgetReservationId;
  br_scope_id : BudgetScopeId;
  br_parent_scope_id : BudgetScopeId;
  br_request : BudgetRequest;
}.

Record BudgetTransferReceipt := {
  bt_child_reservation_id : BudgetReservationId;
  bt_parent_reservation_id : BudgetReservationId;
  bt_accepted : BudgetRequest;
}.

Record LeaseRequest := {
  lr_resource : string;
  lr_duration_ms : N;
}.

Record AdmissionRequest := {
  ar_operation_id : OperationId;
  ar_process_id : ProcessId;
  ar_principal : PrincipalId;
  ar_capability : CapabilityId;
  ar_action : string;
  ar_input_summary : string;
  ar_risk : RiskLevel.t;
  ar_requested_scope : CapabilityScope;
  ar_budget : option BudgetRequest;
  ar_lease : option LeaseRequest;
  ar_sandbox : SandboxRequirement.t;
}.

Record ExecutionPermit := {
  ep_id : PermitId;
  ep_operation_id : OperationId;
  ep_process_id : ProcessId;
  ep_capability : CapabilityId;
  ep_granted_scope : CapabilityScope;
  ep_expires_at : MonoDeadline;
  ep_sandbox : SandboxDecision.t;
  ep_budget_reservation : option BudgetReservationId;
  ep_lease : option ResourceLeaseId;
}.

Definition permit_is_expired_at (self : ExecutionPermit) (now : MonoTime) : bool :=
  deadline_is_expired_at (ep_expires_at self) now.

Definition permit_is_valid_at (self : ExecutionPermit) (now : MonoTime) : bool :=
  if permit_is_expired_at self now then false
  else match ep_sandbox self with
       | SandboxDecision.Failed _ | SandboxDecision.Unavailable | SandboxDecision.Required => false
       | _ => true
       end.

Record UsageReport := {
  ur_permit_id : PermitId;
  ur_tokens_used : N;
  ur_cost_micro : N;
  ur_wall_time_ms : N;
  ur_output_bytes : N;
  ur_exit_code : option Z;
}.

(** [UsageReport::default()]. *)
Definition UsageReport_default : UsageReport :=
  {| ur_permit_id := PermitId_default; ur_tokens_used := 0; ur_cost_micro := 0;
     ur_wall_time_ms := 0; ur_output_bytes := 0; ur_exit_code := None |}.

Module AdmissionError.
Inductive t :=
| Denied (reason : string)
| ApprovalRequired (prompt : string)
| SandboxRequiredUnavailable
| BudgetExceeded
| QuotaExceeded
| LeaseUnavailable
| InvalidScope (reason : string)
| PermitExpired
| AlreadySettled.
Definition display (self : t) : string :=
  match self with
  | Denied reason => "admission denied: " ++ reason
  | ApprovalRequired prompt => "approval required: " ++ prompt
  | SandboxRequiredUnavailable => "sandbox required but unavailable"
  | BudgetExceeded => "budget exceeded"
  | QuotaExceeded => "quota exceeded"
  | LeaseUnavailable => "lease unavailable"
  | InvalidScope reason => "invalid scope: " ++ reason
  | PermitExpired => "permit expired"
  | AlreadySettled => "permit already settled"
  end.
End AdmissionError.

Module RevokeReason.
Inductive t := OperationCancelled | LeaseExpired | BudgetDepleted | PolicyChange | AdminAction.
End RevokeReason.

(** ** Processes *)

Module ProcessState.
Inductive t := Created | Ready | Running | Waiting | Stopping | Exited | Failed.
Definition can_transition_to (self next : t) : bool :=
  match self, next with
  | Created, Ready | Ready, Running | Running, Waiting | Waiting, Running
  | Running, Stopping | Waiting, Stopping | Created, Stopping | Ready, Stopping
  | Stopping, Exited
  | Created, Failed | Ready, Failed | Running, Failed | Waiting, Failed | Stopping, Failed => true
  | _, _ => false
  end.
Definition is_terminal (self : t) : bool :=
  match self with Exited | Failed => true | _ => false end.
#[global] Instance eq_dec : EqDecision t.
Proof. solve_decision. Defined.
End ProcessState.

Module ExitReason.
Inductive t :=
| Completed
| Cancelled (why : string)
| Failed (why : string)
| Panic (why : string)
| DeadlineExceeded.
End ExitReason.

Record ExitStatus := {
  es_reason : ExitReason.t;
  es_at : MonoTime;
}.

Module ProcessOwnership.
Inductive t :=
| Unowned
| ConnectionForeground (connection_id : ConnectionId)
| ThreadBackground (thread_id : ThreadId).
End ProcessOwnership.

Record ProcessRecord := {
  pr_process_id : ProcessId;
  pr_agent_id : AgentId;
  pr_parent : option ProcessId;
  pr_profile : AgentProfileId;
  pr_state : ProcessState.t;
  pr_space : SpaceId;
  pr_mailbox : MailboxId;
  pr_namespace : NamespaceId;
  pr_created_at : WallTime;
  pr_last_heartbeat : MonoTime;
  pr_exit : option ExitStatus;
  pr_ownership : ProcessOwnership.t;
}.

Module OperationKind.
Inductive t :=
| Turn | Evaluation | ModelCall | CapabilityCall | MemoryConsolidation
| SubAgent | ConsciousCycle | ApprovedApply.
End OperationKind.

Record SpawnSpec := {
  ss_agent_id : AgentId;
  ss_parent : option ProcessId;
  ss_profile : AgentProfileId;
  ss_namespace : NamespaceId;
  ss_initial_operation : option OperationKind.t;
  ss_deadline : option MonoDeadline;
  ss_ownership : ProcessOwnership.t;
}.

Module ProcessSignal.
Inductive t := Start | Wait | Resume | Terminate | Kill.
End ProcessSignal.

Record ProcessSnapshot := {
  sn_process_id : ProcessId;
  sn_space : SpaceId;
  sn_agent_id : AgentId;
  sn_parent : option ProcessId;
  sn_profile : AgentProfileId;
  sn_state : ProcessState.t;
  sn_exit : option ExitStatus;
  sn_active_operation : option OperationId;
  sn_ownership : ProcessOwnership.t;
}.

Record ProcessIdentity := {
  pi_agent_id : AgentId;
  pi_process_id : ProcessId;
  pi_generation : N;
  pi_os_pid : option OsProcessId;
}.

(** ** Operations *)

Module OperationState.
Inductive t := Submitted | Running | Cancelling | Succeeded | Failed | Cancelled.
Definition can_transition_to (self next : t) : bool :=
  match self, next with
  | Submitted, Running | Submitted, Cancelling | Running, Cancelling
  | Running, Succeeded | Running, Failed | Cancelling, Cancelled => true
  | _, _ => false
  end.
Definition is_terminal (self : t) : bool :=
  match self with Succeeded | Failed | Cancelled => true | _ => false end.
#[global] Instance eq_dec : EqDecision t.
Proof. solve_decision. Defined.
End OperationState.

Module CancelReason.
Inductive t := User | ParentCancelled | DeadlineExceeded | Shutdown | Other (why : string).
End CancelReason.

Module OperationExitReason.
Inductive t :=
| Completed
| Cancelled (reason : CancelReason.t)
| Failed (message : string)
| Panic (message : string)
| DeadlineExceeded.
End OperationExitReason.

Record OperationRecord := {
  op_id : OperationId;
  op_owner : ProcessId;
  op_parent : option OperationId;
  op_kind : OperationKind.t;
  op_state : OperationState.t;
  op_submitted_at : MonoTime;
  op_deadline : option MonoDeadline;
  op_exit : option OperationExitReason.t;
}.

Record OperationRequest := {
  oq_owner : ProcessId;
  oq_parent : option OperationId;
  oq_kind : OperationKind.t;
  oq_deadline : option MonoDeadline;
}.

Record OperationResult := {
  or_id : OperationId;
  or_state : OperationState.t;
  or_exit : option OperationExitReason.t;
}.

(** ** Context spaces *)

Module AccessMode.
Inductive t := ReadOnly | ReadWrite.
End AccessMode.

Module ContextBinding.
Inductive t :=
| Session (session : string)
| Agora (space : string) (version : N)
| MemoryView (view : string)
| Artifact (artifact : string) (mode : AccessMode.t)
| WorldProjection (projection : string) (version : N).
Definition fork_inherited (self : t) : t :=
  match self with
  | Artifact id AccessMode.ReadWrite => Artifact id AccessMode.ReadOnly
  | other => other
  end.
(** [std::mem::discriminant]. *)
Definition discriminant (self : t) : N :=
  match self with
  | Session _ => 0
  | Agora _ _ => 1
  | MemoryView _ => 2
  | Artifact _ _ => 3
  | WorldProjection _ _ => 4
  end.
End ContextBinding.

(** Overlay values are [serde_json] documents; they are stored and returned
    unchanged, so the type is a parameter of the record. *)
Record ContextSpace (Json : Type) := {
  cx_id : SpaceId;
  cx_owner : ProcessId;
  cx_parent_snapshot : option SpaceSnapshotId;
  cx_bindings : list ContextBinding.t;
  cx_overlay : gmap string Json;
  cx_namespace : NamespaceId;
}.
Arguments cx_id {Json}.
Arguments cx_owner {Json}.
Arguments cx_parent_snapshot {Json}.
Arguments cx_bindings {Json}.
Arguments cx_overlay {Json}.
Arguments cx_namespace {Json}.

(** ** Reachability in the lifecycle automata *)

(** One allowed transition, and any number of them. *)
Definition process_step (a b : ProcessState.t) : Prop := ProcessState.can_transition_to a b = true.

Definition operation_step (a b : OperationState.t) : Prop :=
  OperationState.can_transition_to a b = true.

(** How many transitions a process can still make once it is stopping, and how
    many an operation can make from each of its states. *)
Definition operation_rank (a : OperationState.t) : nat :=
  match a with
  | OperationState.Submitted => 3
  | OperationState.Running => 2
  | OperationState.Cancelling => 1
  | _ => 0
  end%nat.

(** ** Lemmas *)

Lemma process_terminal_final a b :
  ProcessState.is_terminal a = true → ¬ process_step a b.
Proof. destruct a, b; discriminate || (intros _ H; discriminate H). Qed.

Lemma process_can_stop a :
  ProcessState.is_terminal a = false →
  a = ProcessState.Stopping ∨ process_step a ProcessState.Stopping.
Proof. destruct a; intros H; try discriminate H; auto; right; reflexivity. Qed.

Lemma process_can_fail a :
  ProcessState.is_terminal a = false → process_step a ProcessState.Failed.
Proof. destruct a; intros H; try discriminate H; reflexivity. Qed.

Lemma operation_terminal_final a b :
  OperationState.is_terminal a = true → ¬ operation_step a b.
Proof. destruct a, b; discriminate || (intros _ H; discriminate H). Qed.

Lemma operation_step_rank a b :
  operation_step a b → (operation_rank b < operation_rank a)%nat.
Proof. destruct a, b; intros H; try discriminate H; cbn; lia. Qed.

Lemma operation_rank_terminal a : operation_rank a = 0%nat ↔ OperationState.is_terminal a = true.
Proof. destruct a; cbn; split; congruence || lia. Qed.

#[export] Hint Resolve process_terminal_final process_can_stop process_can_fail
  operation_terminal_final operation_step_rank : aletheon.
