(* ===== verification/Budget.v ===== *)
(** * The hierarchical budget controller

    Translates [crates/kernel/src/admission/budget.rs].  [BudgetState] is the
    structure behind the controller's mutex; the [_locked] helpers run on it,
    and the public methods run on [Controller], which adds the durable file.
    A method that takes the mutex is one atomic step, as in the source.

    The invariant [wf] ties the six maps together (the scopes form a forest of
    depth four, a reservation is live exactly while its scope is open, every
    identifier was drawn before) and states conservation: in each dimension the
    remaining capacity of a scope, what its open children hold and what its
    children were given by transfers never exceed its limit plus the transfers
    it accepted. *)
From S2P Require Import Prelude FabricTypes.

(** ** Amounts *)

Record Amount := {
  am_tokens : option N;
  am_cost_micro : option N;
}.

Definition from_request (request : BudgetRequest) : Amount :=
  {| am_tokens := max_tokens request; am_cost_micro := max_cost_micro request |}.

(** [wanted.zip(remaining).is_none_or(|(w, r)| w <= r)]. *)
Definition affords (wanted remaining : option N) : bool :=
  match wanted, remaining with
  | Some w, Some r => w <=? r
  | _, _ => true
  end.

Definition can_afford (self : Amount) (request : BudgetRequest) : bool :=
  affords (max_tokens request) (am_tokens self)
  && affords (max_cost_micro request) (am_cost_micro self).

Definition sub_dim (remaining wanted : option N) : option N :=
  match remaining, wanted with
  | Some r, Some w => Some (wrapping_sub r w)
  | _, _ => remaining
  end.

Definition subtract (self : Amount) (request : BudgetRequest) : Amount :=
  {| am_tokens := sub_dim (am_tokens self) (max_tokens request);
     am_cost_micro := sub_dim (am_cost_micro self) (max_cost_micro request) |}.

Definition add_dim (remaining value : option N) : option N :=
  match remaining, value with
  | Some r, Some v => Some (saturating_add r v)
  | _, _ => remaining
  end.

Definition add (self amount : Amount) : Amount :=
  {| am_tokens := add_dim (am_tokens self) (am_tokens amount);
     am_cost_micro := add_dim (am_cost_micro self) (am_cost_micro amount) |}.

Definition unused (self : Amount) (usage : UsageReport) : Amount :=
  {| am_tokens := (λ reserved, saturating_sub reserved (ur_tokens_used usage)) <$> am_tokens self;
     am_cost_micro := (λ reserved, saturating_sub reserved (ur_cost_micro usage)) <$> am_cost_micro self |}.

(** ** State *)

Record ScopeState := {
  sc_view : BudgetScope;
  sc_remaining : Amount;
  sc_reservation_id : option BudgetReservationId;
  sc_closed : bool;
}.

Record BudgetState := {
  scopes : gmap BudgetScopeId ScopeState;
  reservations : gmap BudgetReservationId BudgetScopeId;
  principal_roots : gmap string BudgetScopeId;
  legacy_chains : gmap BudgetReservationId (list BudgetReservationId);
  operation_scopes : gmap OperationId BudgetScopeId;
  transfers : gmap BudgetReservationId BudgetTransferReceipt;
}.

Definition BudgetState_default : BudgetState :=
  {| scopes := ∅; reservations := ∅; principal_roots := ∅;
     legacy_chains := ∅; operation_scopes := ∅; transfers := ∅ |}.

(** Field updates. *)
Definition with_scopes (f : gmap BudgetScopeId ScopeState → gmap BudgetScopeId ScopeState)
    (st : BudgetState) : BudgetState :=
  {| scopes := f (scopes st); reservations := reservations st;
     principal_roots := principal_roots st; legacy_chains := legacy_chains st;
     operation_scopes := operation_scopes st; transfers := transfers st |}.

Definition with_reservations f (st : BudgetState) : BudgetState :=
  {| scopes := scopes st; reservations := f (reservations st);
     principal_roots := principal_roots st; legacy_chains := legacy_chains st;
     operation_scopes := operation_scopes st; transfers := transfers st |}.

Definition with_principal_roots f (st : BudgetState) : BudgetState :=
  {| scopes := scopes st; reservations := reservations st;
     principal_roots := f (principal_roots st); legacy_chains := legacy_chains st;
     operation_scopes := operation_scopes st; transfers := transfers st |}.

Definition with_legacy_chains f (st : BudgetState) : BudgetState :=
  {| scopes := scopes st; reservations := reservations st;
     principal_roots := principal_roots st; legacy_chains := f (legacy_chains st);
     operation_scopes := operation_scopes st; transfers := transfers st |}.

Definition with_operation_scopes f (st : BudgetState) : BudgetState :=
  {| scopes := scopes st; reservations := reservations st;
     principal_roots := principal_roots st; legacy_chains := legacy_chains st;
     operation_scopes := f (operation_scopes st); transfers := transfers st |}.

Definition with_transfers f (st : BudgetState) : BudgetState :=
  {| scopes := scopes st; reservations := reservations st;
     principal_roots := principal_roots st; legacy_chains := legacy_chains st;
     operation_scopes := operation_scopes st; transfers := f (transfers st) |}.

Definition set_remaining (sc : ScopeState) (a : Amount) : ScopeState :=
  {| sc_view := sc_view sc; sc_remaining := a;
     sc_reservation_id := sc_reservation_id sc; sc_closed := sc_closed sc |}.

Definition set_closed (sc : ScopeState) : ScopeState :=
  {| sc_view := sc_view sc; sc_remaining := sc_remaining sc;
     sc_reservation_id := sc_reservation_id sc; sc_closed := true |}.

Definition parent_of (sc : ScopeState) : option BudgetScopeId := bs_parent (sc_view sc).

Definition limit_of (sc : ScopeState) : BudgetRequest := bs_limit (sc_view sc).

Definition kind_of (sc : ScopeState) : BudgetScopeKind.t := bs_kind (sc_view sc).

(** [!scope.closed && scope.view.parent == Some(p)]. *)
Definition open_child_of (p : BudgetScopeId) (sc : ScopeState) : bool :=
  negb (sc_closed sc) && bool_decide (parent_of sc = Some p).

Definition mk_scope (id : BudgetScopeId) (parent : option BudgetScopeId)
    (kind : BudgetScopeKind.t) (owner : string) (limit : BudgetRequest)
    (reservation : option BudgetReservationId) : ScopeState :=
  {| sc_view := {| bs_schema_version := BUDGET_SCOPE_SCHEMA_VERSION; bs_id := id;
                   bs_parent := parent; bs_kind := kind; bs_owner := owner;
                   bs_limit := limit |};
     sc_remaining := from_request limit;
     sc_reservation_id := reservation;
     sc_closed := false |}.

Section Ops.
Context `{Env}.

Abbreviation B := (M BudgetState AdmissionError.t).

(** ** The operations under the lock *)

Definition create_root_locked (owner : string) (limit : BudgetRequest) : B BudgetScopeId :=
  id ← new_uuid;
  modify (with_scopes (insert id (mk_scope id None BudgetScopeKind.Rollout owner limit None))) ;;
  mret id.

Definition reserve_child_locked (parent : BudgetScopeId) (kind : BudgetScopeKind.t)
    (owner : string) (request : BudgetRequest) : B BudgetReservationReceipt :=
  st ← get_state;
  parent_state ← ok_or (scopes st !! parent) AdmissionError.BudgetExceeded;
  if sc_closed parent_state
     || negb (BudgetScopeKind.accepts_child (kind_of parent_state) kind)
     || negb (can_afford (sc_remaining parent_state) request)
  then throw AdmissionError.BudgetExceeded
  else
    modify (with_scopes (insert parent
      (set_remaining parent_state (subtract (sc_remaining parent_state) request)))) ;;
    scope_id ← new_uuid;
    reservation_id ← new_uuid;
    modify (with_scopes (insert scope_id
      (mk_scope scope_id (Some parent) kind owner request (Some reservation_id)))) ;;
    modify (with_reservations (insert reservation_id scope_id)) ;;
    mret {| br_reservation_id := reservation_id; br_scope_id := scope_id;
            br_parent_scope_id := parent; br_request := request |}.

Definition close_locked (reservation : BudgetReservationId) (usage : option UsageReport) : B unit :=
  st ← get_state;
  scope_id ← ok_or (reservations st !! reservation) AdmissionError.AlreadySettled;
  if existsb (open_child_of scope_id) (map_to_list (scopes st)).*2
  then throw AdmissionError.BudgetExceeded
  else
    scope ← ok_or (scopes st !! scope_id) AdmissionError.AlreadySettled;
    if sc_closed scope then throw AdmissionError.AlreadySettled
    else
      modify (with_scopes (insert scope_id (set_closed scope))) ;;
      let allocated := from_request (limit_of scope) in
      parent ← expect (parent_of scope);
      let returned := match usage with None => allocated | Some value => unused allocated value end in
      st1 ← get_state;
      (match scopes st1 !! parent with
       | Some parent_scope =>
           modify (with_scopes (insert parent
             (set_remaining parent_scope (add (sc_remaining parent_scope) returned))))
       | None => mret tt
       end) ;;
      modify (with_reservations (delete reservation)).

(** The body of [transfer_remaining_reservation] before [persist]; the boolean
    of the result tells whether the receipt is a replay, in which case the
    method returns without persisting. *)
Definition transfer_locked (child parent : BudgetReservationId) (usage : UsageReport)
    : B (bool * BudgetTransferReceipt) :=
  st ← get_state;
  match transfers st !! child with
  | Some receipt =>
      if bt_parent_reservation_id receipt =? parent then mret (true, receipt)
      else throw AdmissionError.BudgetExceeded
  | None =>
      child_scope_id ← ok_or (reservations st !! child) AdmissionError.AlreadySettled;
      parent_scope_id ← ok_or (reservations st !! parent) AdmissionError.AlreadySettled;
      scope ← ok_or (scopes st !! child_scope_id) AdmissionError.AlreadySettled;
      if sc_closed scope then throw AdmissionError.AlreadySettled
      else
        let accepted := unused (from_request (limit_of scope)) usage in
        parent_state ← ok_or (scopes st !! parent_scope_id) AdmissionError.AlreadySettled;
        if sc_closed parent_state || (child =? parent)
           || negb (bool_decide (parent_of parent_state = parent_of scope))
        then throw AdmissionError.BudgetExceeded
        else
          modify (with_scopes (alter set_closed child_scope_id)) ;;
          modify (with_scopes (alter (λ sc, set_remaining sc (add (sc_remaining sc) accepted))
                                     parent_scope_id)) ;;
          modify (with_reservations (delete child)) ;;
          let receipt := {| bt_child_reservation_id := child;
                            bt_parent_reservation_id := parent;
                            bt_accepted := {| max_tokens := am_tokens accepted;
                                              max_cost_micro := am_cost_micro accepted |} |} in
          modify (with_transfers (insert child receipt)) ;;
          mret (false, receipt)
  end.

(** The recursion follows open children only.  Its depth is bounded by the four
    scope kinds; [None] is an exhausted stack. *)
Fixpoint descendants_post_order (fuel : nat) (i : N) (st : BudgetState)
    (parent : BudgetScopeId) : option (list BudgetScopeId) :=
  match fuel with
  | O => None
  | S fuel' =>
      let children := (λ sc, bs_id (sc_view sc)) <$>
                      filter (λ sc, open_child_of parent sc = true) (hash_values i (scopes st)) in
      mjoin <$> mapM (λ child, (λ sub, sub ++ [child]) <$>
                                descendants_post_order fuel' i st child) children
  end.

Definition stack_depth : nat := 4.

Definition reservation_of (st : BudgetState) (id : BudgetScopeId) : option BudgetReservationId :=
  scopes st !! id ≫= sc_reservation_id.

(** One iteration of the revoking loop. *)
Definition revoke_one (child : BudgetScopeId) : B unit :=
  st ← get_state;
  match reservation_of st child with
  | Some reservation => close_locked reservation None
  | None => mret tt
  end.

Definition revoke_scope_tree (scope_id : BudgetScopeId) : B unit :=
  st ← get_state;
  if match scopes st !! scope_id with None => true | Some scope => sc_closed scope end
  then mret tt
  else
    i ← tick;
    descendants ← expect (descendants_post_order stack_depth i st scope_id);
    let post_order := match reservation_of st scope_id with
                      | Some _ => descendants ++ [scope_id]
                      | None => descendants
                      end in
    for_each post_order revoke_one.

(** ** Operation scopes and the principal-based compatibility adapter *)

Definition bind_operation_scope (operation : OperationId) (scope : BudgetScopeId) : B unit :=
  modify (with_operation_scopes (insert operation scope)).

Definition has_operation_scope (operation : OperationId) : B bool :=
  st ← get_state; mret (bool_decide (is_Some (operation_scopes st !! operation))).

Definition reserve_capability_for_operation (operation : OperationId) (permit : PermitId)
    (request : BudgetRequest) : B BudgetReservationReceipt :=
  st ← get_state;
  parent ← ok_or (operation_scopes st !! operation) AdmissionError.BudgetExceeded;
  reserve_child_locked parent BudgetScopeKind.Capability
    ("permit:" ++ uuid_display permit) request.

Definition set_budget (principal : string) (tokens cost_micro : option N) : B unit :=
  root ← create_root_locked ("principal:" ++ principal)
           {| max_tokens := tokens; max_cost_micro := cost_micro |};
  modify (with_principal_roots (insert principal root)).

Definition unlimited : BudgetRequest := {| max_tokens := None; max_cost_micro := None |}.

(** The principal's root, created without limits on first use. *)
Definition principal_root (principal : string) : B BudgetScopeId :=
  st ← get_state;
  match principal_roots st !! principal with
  | Some root => mret root
  | None =>
      root ← create_root_locked ("principal:" ++ principal) unlimited;
      modify (with_principal_roots (insert principal root)) ;;
      mret root
  end.

Definition reserve (principal : string) (request : BudgetRequest) : B BudgetReservationId :=
  root ← principal_root principal;
  process ← reserve_child_locked root BudgetScopeKind.Process
              ("compat-process:" ++ principal) request;
  operation ← reserve_child_locked (br_scope_id process) BudgetScopeKind.Operation
                ("compat-operation:" ++ principal) request;
  capability ← reserve_child_locked (br_scope_id operation) BudgetScopeKind.Capability
                 ("compat-capability:" ++ principal) request;
  modify (with_legacy_chains (insert (br_reservation_id capability)
    [br_reservation_id capability; br_reservation_id operation; br_reservation_id process])) ;;
  mret (br_reservation_id capability).

(** [settle] (with usage) and [revoke] (without) share this body. *)
Definition close_legacy (reservation : BudgetReservationId) (usage : option UsageReport) : B unit :=
  st ← get_state;
  match legacy_chains st !! reservation with
  | Some chain =>
      modify (with_legacy_chains (delete reservation)) ;;
      for_each chain (λ id, ignore (close_locked id usage))
  | None => ignore (close_locked reservation usage)
  end.

Definition settle (principal : string) (reservation : BudgetReservationId)
    (usage : UsageReport) : B unit :=
  close_legacy reservation (Some usage).

Definition revoke (principal : string) (reservation : BudgetReservationId) : B unit :=
  close_legacy reservation None.

(** ** Queries *)

Definition scope (st : BudgetState) (id : BudgetScopeId) : option BudgetScope :=
  sc_view <$> scopes st !! id.

Definition remaining (st : BudgetState) (id : BudgetScopeId) : option BudgetRequest :=
  sc ← scopes st !! id;
  if sc_closed sc then None
  else Some {| max_tokens := am_tokens (sc_remaining sc);
               max_cost_micro := am_cost_micro (sc_remaining sc) |}.

Definition active_reservation_count (st : BudgetState) : nat := size (reservations st).

Definition remaining_tokens (st : BudgetState) (principal : string) : option (option N) :=
  root ← principal_roots st !! principal;
  sc ← scopes st !! root;
  Some (am_tokens (sc_remaining sc)).

Definition remaining_cost (st : BudgetState) (principal : string) : option (option N) :=
  root ← principal_roots st !! principal;
  sc ← scopes st !! root;
  Some (am_cost_micro (sc_remaining sc)).

Definition reservation_for_owner (i : N) (st : BudgetState) (owner : string)
    : option BudgetReservationId :=
  sc ← List.find (λ sc, bool_decide (bs_owner (sc_view sc) = owner)) (hash_values i (scopes st));
  sc_reservation_id sc.

Definition transfer_for_child (st : BudgetState) (child : BudgetReservationId)
    : option BudgetTransferReceipt := transfers st !! child.

(** ** The controller with its durable file

    [ct_durable] is [durable_path.is_some()]; [ct_disk] is the state the file
    decodes to.  A write that fails before the rename leaves the file as it was;
    one that fails after it (syncing the directory) has already replaced it. *)

Record Controller := {
  ct_state : BudgetState;
  ct_durable : bool;
  ct_disk : option BudgetState;
}.

Abbreviation C := (M Controller AdmissionError.t).

Definition set_state (st : BudgetState) (c : Controller) : Controller :=
  {| ct_state := st; ct_durable := ct_durable c; ct_disk := ct_disk c |}.

Definition set_disk (d : option BudgetState) (c : Controller) : Controller :=
  {| ct_state := ct_state c; ct_durable := ct_durable c; ct_disk := d |}.

Definition locked {A} (m : B A) : C A := zoom ct_state set_state m.

Definition durable_error (error : string) : AdmissionError.t :=
  AdmissionError.Denied ("durable budget persistence failed: " ++ error).

Definition persist : C unit :=
  c ← get_state;
  if ct_durable c then
    io ← read_io;
    match io with
    | IoOk => modify (set_disk (Some (ct_state c)))
    | IoFailBeforeRename error => throw (durable_error error)
    | IoFailAfterRename error =>
        modify (set_disk (Some (ct_state c))) ;; throw (durable_error error)
    end
  else mret tt.

(** [if let Err(error) = self.persist(&state) { *state = before; return Err(error); }] *)
Definition persist_or_restore (before : BudgetState) : C unit :=
  r ← try_ persist;
  match r with
  | inr _ => mret tt
  | inl error => modify (set_state before) ;; throw error
  end.

Definition new_controller : Controller :=
  {| ct_state := BudgetState_default; ct_durable := false; ct_disk := None |}.

(** What [std::fs::read] and the decoder make of the file. *)
Inductive FileRead :=
| FileNotFound
| FileDecoded (st : BudgetState)
| FileInvalid (error : string)
| FileError (error : string).

Definition open_durable (file : FileRead) : Result string Controller :=
  let opened d := {| ct_state := default BudgetState_default d; ct_durable := true; ct_disk := d |} in
  match file with
  | FileNotFound => Ok (opened None)
  | FileDecoded st => Ok (opened (Some st))
  | FileInvalid error | FileError error => Err error
  end.

(** Reading back the file a controller wrote. *)
Definition read_back (c : Controller) : FileRead :=
  match ct_disk c with None => FileNotFound | Some st => FileDecoded st end.

Definition create_root (owner : string) (limit : BudgetRequest) : C BudgetScopeId :=
  id ← locked (create_root_locked owner limit);
  r ← try_ persist;
  match r with
  | inr _ => mret id
  | inl _ => panic
  end.

Definition reserve_child (parent : BudgetScopeId) (kind : BudgetScopeKind.t) (owner : string)
    (request : BudgetRequest) : C BudgetReservationReceipt :=
  c ← get_state;
  receipt ← locked (reserve_child_locked parent kind owner request);
  persist_or_restore (ct_state c) ;;
  mret receipt.

Definition settle_reservation (reservation : BudgetReservationId) (usage : UsageReport) : C unit :=
  c ← get_state;
  locked (close_locked reservation (Some usage)) ;;
  persist_or_restore (ct_state c).

Definition revoke_reservation (reservation : BudgetReservationId) : C unit :=
  c ← get_state;
  locked (close_locked reservation None) ;;
  persist_or_restore (ct_state c).

Definition transfer_remaining_reservation (child parent : BudgetReservationId)
    (usage : UsageReport) : C BudgetTransferReceipt :=
  c ← get_state;
  '(replay, receipt) ← locked (transfer_locked child parent usage);
  if replay : bool then mret receipt
  else persist_or_restore (ct_state c) ;; mret receipt.

End Ops.

(** ** The invariant *)

Inductive Dim := Tokens | Cost.

Definition req_dim (d : Dim) (r : BudgetRequest) : option N :=
  match d with Tokens => max_tokens r | Cost => max_cost_micro r end.

Definition am_dim (d : Dim) (a : Amount) : option N :=
  match d with Tokens => am_tokens a | Cost => am_cost_micro a end.

Definition usage_dim (d : Dim) (u : UsageReport) : N :=
  match d with Tokens => ur_tokens_used u | Cost => ur_cost_micro u end.

Definition amount (o : option N) : N := default 0 o.

(** Capacity held by the open children of [p]. *)
Definition held (d : Dim) (st : BudgetState) (p : BudgetScopeId) : N :=
  msum (λ _ sc, if open_child_of p sc then amount (req_dim d (limit_of sc)) else 0) (scopes st).

(** Capacity the reservation [r] accepted through transfers. *)
Definition credit (d : Dim) (st : BudgetState) (r : option BudgetReservationId) : N :=
  msum (λ _ rc, if bool_decide (Some (bt_parent_reservation_id rc) = r)
                then amount (req_dim d (bt_accepted rc)) else 0) (transfers st).

(** Capacity the children of [p] accepted through transfers. *)
Definition gifted (d : Dim) (st : BudgetState) (p : BudgetScopeId) : N :=
  msum (λ _ sc, if bool_decide (parent_of sc = Some p)
                then credit d st (sc_reservation_id sc) else 0) (scopes st).

Definition conserved (d : Dim) (st : BudgetState) (k : BudgetScopeId) (sc : ScopeState) : Prop :=
  match req_dim d (limit_of sc), am_dim d (sc_remaining sc) with
  | Some limit, Some r =>
      is_u64 r ∧ r + held d st k + gifted d st k ≤ limit + credit d st (sc_reservation_id sc)
  | None, None => True
  | _, _ => False
  end.

(** The links between the maps, in a state reached after [n] external calls. *)
Record linked `{Env} (st : BudgetState) (n : N) : Prop := {
  lk_id : ∀ k sc, scopes st !! k = Some sc → bs_id (sc_view sc) = k;
  lk_drawn : ∀ k sc, scopes st !! k = Some sc → drawn n k;
  lk_root : ∀ k sc, scopes st !! k = Some sc → parent_of sc = None →
    kind_of sc = BudgetScopeKind.Rollout ∧ sc_reservation_id sc = None ∧ sc_closed sc = false;
  lk_child : ∀ k sc p, scopes st !! k = Some sc → parent_of sc = Some p →
    ∃ psc r, scopes st !! p = Some psc
             ∧ BudgetScopeKind.accepts_child (kind_of psc) (kind_of sc) = true
             ∧ sc_reservation_id sc = Some r;
  lk_res_drawn : ∀ k sc r, scopes st !! k = Some sc → sc_reservation_id sc = Some r → drawn n r;
  lk_res_inj : ∀ k1 k2 sc1 sc2 r, scopes st !! k1 = Some sc1 → scopes st !! k2 = Some sc2 →
    sc_reservation_id sc1 = Some r → sc_reservation_id sc2 = Some r → k1 = k2;
  lk_live : ∀ r k, reservations st !! r = Some k ↔
    ∃ sc, scopes st !! k = Some sc ∧ sc_reservation_id sc = Some r ∧ sc_closed sc = false;
  lk_transfer : ∀ c rc, transfers st !! c = Some rc →
    drawn n c ∧ drawn n (bt_parent_reservation_id rc) ∧ reservations st !! c = None
    ∧ bt_child_reservation_id rc = c;
  lk_chain : ∀ r chain, legacy_chains st !! r = Some chain → head chain = Some r ∧ drawn n r;
}.

Record wf `{Env} (st : BudgetState) (n : N) : Prop := {
  wf_linked : linked st n;
  wf_conserved : ∀ d k sc, scopes st !! k = Some sc → conserved d st k sc;
}.

(** No open scope hangs below a closed one. *)
Definition no_orphans (st : BudgetState) : Prop :=
  ∀ k p sc psc, scopes st !! k = Some sc → parent_of sc = Some p → scopes st !! p = Some psc →
    sc_closed psc = true → sc_closed sc = true.

Definition u64_request (r : BudgetRequest) : Prop :=
  ∀ d x, req_dim d r = Some x → is_u64 x.

(** What is known of some reservations: [R r None] says that [r] is dead, and
    [R r (Some kind)] that it is dead or stands for a scope of that kind. *)
Definition Fate : Type := BudgetReservationId → option BudgetScopeKind.t → Prop.

Definition no_fate : Fate := λ _ _, False.

Definition dead_fate (r : BudgetReservationId) : Fate := λ r' o, r' = r ∧ o = None.

(** The invariant of a run: [wf], the fates of [R], and, when [tree] is set, no
    open scope has a closed parent. *)
Record inv `{Env} (R : Fate) (tree : bool) (st : BudgetState) (n : N) : Prop := {
  inv_wf : wf st n;
  inv_fate : ∀ r o, R r o → drawn n r ∧ ∀ k, reservations st !! r = Some k →
    ∃ sc, scopes st !! k = Some sc ∧ o = Some (kind_of sc);
  inv_tree : tree = true → no_orphans st;
}.

(** [m] keeps the invariant and does not panic. *)
Definition keeps `{Env} (R : Fate) (tree : bool) {A}
    (m : M BudgetState AdmissionError.t A) : Prop :=
  ∀ st n, inv R tree st n → wp m (λ r st' n', inv R tree st' n' ∧ n ≤ n' ∧ r ≠ Panic) st n.

(** [x] is strictly below [p] in the scope forest. *)
Inductive below (st : BudgetState) (p : BudgetScopeId) : BudgetScopeId → Prop :=
| below_child x sc : scopes st !! x = Some sc → parent_of sc = Some p → below st p x
| below_step x sc y : scopes st !! x = Some sc → parent_of sc = Some y → below st p y → below st p x.

Definition kind_rank (k : BudgetScopeKind.t) : nat :=
  match k with
  | BudgetScopeKind.Rollout => 0
  | BudgetScopeKind.Process => 1
  | BudgetScopeKind.Operation => 2
  | BudgetScopeKind.Capability => 3
  end%nat.

(** Every scope of [l] is open and has a reservation, and its open children come before it. *)
Definition closable (st : BudgetState) (l : list BudgetScopeId) : Prop :=
  NoDup l ∧ ∀ l1 x l2, l = l1 ++ x :: l2 →
    ∃ sc r, scopes st !! x = Some sc ∧ sc_closed sc = false ∧ sc_reservation_id sc = Some r
            ∧ ∀ c csc, scopes st !! c = Some csc → open_child_of x csc = true → c ∈ l1.

(** The contribution of one scope to the sums. *)
Definition held_of (d : Dim) (p : BudgetScopeId) (sc : ScopeState) : N :=
  if open_child_of p sc then amount (req_dim d (limit_of sc)) else 0.

Definition gifted_of (d : Dim) (st : BudgetState) (p : BudgetScopeId) (sc : ScopeState) : N :=
  if bool_decide (parent_of sc = Some p) then credit d st (sc_reservation_id sc) else 0.

(** The state after a successful reservation. *)
Definition reserved_state `{Env} (st : BudgetState) (n : N) (parent : BudgetScopeId)
    (psc : ScopeState) (kind : BudgetScopeKind.t) (owner : string) (request : BudgetRequest)
    : BudgetState :=
  with_reservations (insert (uuid_v4 (n + 1)) (uuid_v4 n))
    (with_scopes (λ m,
       <[uuid_v4 n := mk_scope (uuid_v4 n) (Some parent) kind owner request (Some (uuid_v4 (n + 1)))]>
         (<[parent := set_remaining psc (subtract (sc_remaining psc) request)]> m)) st).

Definition returned_of (sc : ScopeState) (usage : option UsageReport) : Amount :=
  match usage with
  | None => from_request (limit_of sc)
  | Some value => unused (from_request (limit_of sc)) value
  end.

(** The state after the scope [k] below [p] is closed and [returned] given back. *)
Definition closed_state (st : BudgetState) (r : BudgetReservationId) (k p : BudgetScopeId)
    (sc psc : ScopeState) (returned : Amount) : BudgetState :=
  with_reservations (delete r)
    (with_scopes (λ m, <[p := set_remaining psc (add (sc_remaining psc) returned)]>
                         (<[k := set_closed sc]> m)) st).

(** The state after the scope [k] hands its unused capacity to its sibling [q]. *)
Definition transferred_state (st : BudgetState) (child parent : BudgetReservationId)
    (k q : BudgetScopeId) (sc qsc : ScopeState) (accepted : Amount) : BudgetState :=
  with_transfers (insert child
      {| bt_child_reservation_id := child; bt_parent_reservation_id := parent;
         bt_accepted := {| max_tokens := am_tokens accepted;
                           max_cost_micro := am_cost_micro accepted |} |})
    (with_reservations (delete child)
      (with_scopes (λ m, <[q := set_remaining qsc (add (sc_remaining qsc) accepted)]>
                           (<[k := set_closed sc]> m)) st)).

(** The children list of one level of the recursion. *)
Definition children_at `{Env} (st : BudgetState) (i : N) (p : BudgetScopeId) : list BudgetScopeId :=
  (λ sc, bs_id (sc_view sc)) <$>
  filter (λ sc, open_child_of p sc = true) (hash_values i (scopes st)).

(** What closing scopes never changes. *)
Definition same_forest (st st' : BudgetState) : Prop :=
  ∀ x, (λ sc, (sc_view sc, sc_reservation_id sc)) <$> scopes st' !! x
     = (λ sc, (sc_view sc, sc_reservation_id sc)) <$> scopes st !! x.

(** ** Runs of the controller *)

Inductive BudgetCall :=
| CreateRoot (owner : string) (limit : BudgetRequest)
| ReserveChild (parent : BudgetScopeId) (kind : BudgetScopeKind.t) (owner : string)
    (request : BudgetRequest)
| SettleReservation (reservation : BudgetReservationId) (usage : UsageReport)
| RevokeReservation (reservation : BudgetReservationId)
| TransferRemaining (child parent : BudgetReservationId) (usage : UsageReport)
| RevokeScopeTree (scope : BudgetScopeId)
| BindOperationScope (operation : OperationId) (scope : BudgetScopeId)
| ReserveCapability (operation : OperationId) (permit : PermitId) (request : BudgetRequest)
| SetBudget (principal : string) (tokens cost_micro : option N)
| Reserve (principal : string) (request : BudgetRequest)
| Settle (principal : string) (reservation : BudgetReservationId) (usage : UsageReport)
| Revoke (principal : string) (reservation : BudgetReservationId).

(** The request a call carries, whose amounts are [u64] values. *)
Definition call_request (call : BudgetCall) : BudgetRequest :=
  match call with
  | CreateRoot _ limit => limit
  | ReserveChild _ _ _ request | ReserveCapability _ _ request | Reserve _ request => request
  | SetBudget _ t c => {| max_tokens := t; max_cost_micro := c |}
  | _ => unlimited
  end.

Definition is_transfer (call : BudgetCall) : bool :=
  match call with TransferRemaining _ _ _ => true | _ => false end.

Definition void {S E A} (m : M S E A) : M S E unit := m ;; mret tt.

Definition run_call `{Env} (call : BudgetCall) : M Controller AdmissionError.t unit :=
  match call with
  | CreateRoot owner limit => void (create_root owner limit)
  | ReserveChild parent kind owner request => void (reserve_child parent kind owner request)
  | SettleReservation r usage => settle_reservation r usage
  | RevokeReservation r => revoke_reservation r
  | TransferRemaining child parent usage => void (transfer_remaining_reservation child parent usage)
  | RevokeScopeTree s => locked (revoke_scope_tree s)
  | BindOperationScope operation s => locked (bind_operation_scope operation s)
  | ReserveCapability operation permit request =>
      void (locked (reserve_capability_for_operation operation permit request))
  | SetBudget principal t c => locked (set_budget principal t c)
  | Reserve principal request => void (locked (reserve principal request))
  | Settle principal r usage => locked (settle principal r usage)
  | Revoke principal r => locked (revoke principal r)
  end.

(** A run: the callers may fail, the controller goes on with the state they left. *)
Fixpoint run_calls `{Env} (calls : list BudgetCall) (c : Controller) (n : N) : Controller * N :=
  match calls with
  | [] => (c, n)
  | call :: calls' => match run_call call c n with (_, c', n') => run_calls calls' c' n' end
  end.
