(* ===== verification/BudgetInv.v ===== *)
(** * The budget controller: invariants

    Lemmas about [Budget]: what each operation does on every branch, how the
    capacity sums move, that every operation keeps the invariant [inv], and that
    the post-order walk of [revoke_scope_tree] visits exactly the open
    descendants, children before parents, within its stack. *)
From S2P Require Import Prelude FabricTypes Budget.

(** ** What each locked operation does *)

Lemma existsb_open_child (st : BudgetState) p :
  existsb (open_child_of p) (map_to_list (scopes st)).*2 = true ↔
  ∃ k sc, scopes st !! k = Some sc ∧ open_child_of p sc = true.
Proof.
  rewrite existsb_exists. split.
  - intros (sc & ([k sc'] & -> & Hk%elem_of_map_to_list)%list_elem_of_In%list_elem_of_fmap & Ho).
    eauto.
  - intros (k & sc & Hk & Ho). exists sc. split; [|done].
    apply list_elem_of_In, list_elem_of_fmap. exists (k, sc). split; [done|].
    by apply elem_of_map_to_list.
Qed.

Lemma open_child_of_true p sc :
  open_child_of p sc = true ↔ sc_closed sc = false ∧ parent_of sc = Some p.
Proof.
  unfold open_child_of. rewrite andb_true_iff, negb_true_iff, bool_decide_eq_true. done.
Qed.

Section Behaviour.
Context `{HEnv : Env}.

Lemma reserve_child_locked_cases st n parent kind owner request :
  (∃ psc, scopes st !! parent = Some psc ∧ sc_closed psc = false
     ∧ BudgetScopeKind.accepts_child (kind_of psc) kind = true
     ∧ can_afford (sc_remaining psc) request = true
     ∧ reserve_child_locked parent kind owner request st n =
       (Ok {| br_reservation_id := uuid_v4 (n + 1); br_scope_id := uuid_v4 n;
              br_parent_scope_id := parent; br_request := request |},
        reserved_state st n parent psc kind owner request, n + 1 + 1))
  ∨ reserve_child_locked parent kind owner request st n = (Err AdmissionError.BudgetExceeded, st, n).
Proof.
  unfold reserve_child_locked. unfold mbind, M_bind, get_state, ok_or. cbn.
  destruct (scopes st !! parent) as [psc|] eqn:Hp; cbn; [|by right].
  destruct (sc_closed psc) eqn:Hc; cbn; [by right|].
  destruct (BudgetScopeKind.accepts_child (kind_of psc) kind) eqn:Ha; cbn; [|by right].
  destruct (can_afford (sc_remaining psc) request) eqn:Haff; cbn; [|by right].
  left. exists psc. split_and!; done.
Qed.

Lemma close_locked_cases st n r usage :
  (∃ k sc p, reservations st !! r = Some k ∧ scopes st !! k = Some sc ∧ sc_closed sc = false
     ∧ parent_of sc = Some p
     ∧ (∀ k' sc', scopes st !! k' = Some sc' → open_child_of k sc' = false)
     ∧ close_locked r usage st n =
       (Ok tt,
        match scopes (with_scopes (insert k (set_closed sc)) st) !! p with
        | Some psc => closed_state st r k p sc psc (returned_of sc usage)
        | None => with_reservations (delete r) (with_scopes (insert k (set_closed sc)) st)
        end, n))
  ∨ (∃ e, close_locked r usage st n = (Err e, st, n)
     ∧ (e = AdmissionError.AlreadySettled ∨ e = AdmissionError.BudgetExceeded)
     ∧ (e = AdmissionError.BudgetExceeded → ∃ k k' sc', reservations st !! r = Some k
          ∧ scopes st !! k' = Some sc' ∧ open_child_of k sc' = true))
  ∨ (∃ k sc, reservations st !! r = Some k ∧ scopes st !! k = Some sc ∧ parent_of sc = None
     ∧ close_locked r usage st n = (Panic, with_scopes (insert k (set_closed sc)) st, n)).
Proof.
  unfold close_locked. unfold mbind, M_bind, get_state, ok_or. cbn.
  destruct (reservations st !! r) as [k|] eqn:Hr; cbn;
    [|right; left; eexists; split_and!; eauto; discriminate].
  destruct (existsb _ _) eqn:Hex.
  { right; left. eexists; split_and!; eauto. intros _.
    apply existsb_open_child in Hex as (k' & sc' & ? & ?). eauto 10. }
  assert (Hno : ∀ k' sc', scopes st !! k' = Some sc' → open_child_of k sc' = false).
  { intros k' sc' Hk'. apply not_true_iff_false. intros Ho.
    apply not_true_iff_false in Hex. apply Hex, existsb_open_child. eauto. }
  destruct (scopes st !! k) as [sc|] eqn:Hk; cbn;
    [|right; left; eexists; split_and!; eauto; discriminate].
  destruct (sc_closed sc) eqn:Hc; cbn;
    [right; left; eexists; split_and!; eauto; discriminate|].
  unfold expect. destruct (parent_of sc) as [p|] eqn:Hp; cbn; [|right; right; eauto 10].
  left. exists k, sc, p. split_and!; try done.
  unfold closed_state, with_scopes; cbn.
  destruct (<[k:=set_closed sc]> (scopes st) !! p) as [psc|] eqn:Hpp; cbn; [|done].
  by destruct usage.
Qed.

End Behaviour.

(** ** How the sums move *)

Section Sums.
Context (d : Dim).
Implicit Types (st : BudgetState) (sc psc : ScopeState) (p k : BudgetScopeId).

Lemma held_fresh f g st p k sc :
  scopes st !! k = None →
  held d (with_reservations f (with_transfers g (with_scopes (insert k sc) st))) p
  = held_of d p sc + held d st p.
Proof. intros Hk. apply (msum_insert (λ _ sc, held_of d p sc)), Hk. Qed.

Lemma held_of_set_remaining p sc a : held_of d p (set_remaining sc a) = held_of d p sc.
Proof. done. Qed.

Lemma held_of_set_closed p sc : held_of d p (set_closed sc) = 0.
Proof. done. Qed.

Lemma held_of_open p sc :
  sc_closed sc = false → parent_of sc = Some p →
  held_of d p sc = amount (req_dim d (limit_of sc)).
Proof. intros Hc Hp. unfold held_of. by rewrite (proj2 (open_child_of_true p sc)). Qed.

Lemma held_of_other p sc : parent_of sc ≠ Some p → held_of d p sc = 0.
Proof.
  intros Hp. unfold held_of, open_child_of. rewrite bool_decide_eq_false_2 by done.
  by rewrite andb_false_r.
Qed.

Lemma gifted_of_other st p sc : parent_of sc ≠ Some p → gifted_of d st p sc = 0.
Proof. intros Hp. unfold gifted_of. by rewrite bool_decide_eq_false_2. Qed.

Lemma childless_sums st p :
  (∀ k sc, scopes st !! k = Some sc → parent_of sc ≠ Some p) →
  held d st p = 0 ∧ gifted d st p = 0.
Proof.
  intros Hno. split; apply msum_zero; intros k sc Hk.
  - by apply (held_of_other p sc), (Hno k).
  - by apply (gifted_of_other st p sc), (Hno k).
Qed.

Lemma credit_fresh st r :
  (∀ c rc, transfers st !! c = Some rc → bt_parent_reservation_id rc ≠ r) →
  credit d st (Some r) = 0.
Proof.
  intros Hno. apply msum_zero. intros c rc Hc.
  rewrite bool_decide_eq_false_2; [done|]. intros [= Heq]. by eapply Hno.
Qed.

Lemma credit_None st : credit d st None = 0.
Proof. apply msum_zero. intros c rc Hc. by rewrite bool_decide_eq_false_2. Qed.

(** A request no larger than what is left leaves no wrap-around. *)
Lemma sub_dim_exact r w :
  is_u64 r → affords (Some w) (Some r) = true → sub_dim (Some r) (Some w) = Some (r - w).
Proof.
  unfold affords, sub_dim, is_u64. intros Hr Hw%N.leb_le. by rewrite wrapping_sub_exact.
Qed.

Lemma can_afford_dim a request :
  can_afford a request = true → affords (req_dim d request) (am_dim d a) = true.
Proof. unfold can_afford. rewrite andb_true_iff. by destruct d; intros []. Qed.

Lemma am_dim_subtract a request :
  am_dim d (subtract a request) = sub_dim (am_dim d a) (req_dim d request).
Proof. by destruct d. Qed.

Lemma am_dim_add a b : am_dim d (add a b) = add_dim (am_dim d a) (am_dim d b).
Proof. by destruct d. Qed.

Lemma am_dim_from_request r : am_dim d (from_request r) = req_dim d r.
Proof. by destruct d. Qed.

Lemma returned_of_dim sc usage :
  match usage with
  | None => am_dim d (returned_of sc usage) = req_dim d (limit_of sc)
  | Some u => am_dim d (returned_of sc usage) = (λ x, x - usage_dim d u) <$> req_dim d (limit_of sc)
  end.
Proof. by destruct usage, d. Qed.

Lemma returned_of_le sc usage :
  amount (am_dim d (returned_of sc usage)) ≤ amount (req_dim d (limit_of sc)).
Proof.
  pose proof (returned_of_dim sc usage) as Hr. destruct usage as [u|]; rewrite Hr; [|done].
  destruct (req_dim d (limit_of sc)); cbn; lia.
Qed.

(** Giving back [v] never lifts the remaining capacity above its exact sum. *)
Lemma conserved_add st st' k sc v extra :
  conserved d st k sc →
  credit d st' (sc_reservation_id sc) = credit d st (sc_reservation_id sc) + extra →
  held d st' k + gifted d st' k + amount v ≤ held d st k + gifted d st k + extra →
  ∀ a, am_dim d a = add_dim (am_dim d (sc_remaining sc)) v →
  conserved d st' k (set_remaining sc a).
Proof.
  unfold conserved. cbn. intros Hc Hcr Hle a ->. cbn.
  change (limit_of (set_remaining sc a)) with (limit_of sc). rewrite Hcr.
  destruct (req_dim d (limit_of sc)) as [L|], (am_dim d (sc_remaining sc)) as [r|], v as [v|];
    cbn in *; try done.
  all: destruct Hc as [Hu Hc]; split; auto with aletheon; try lia.
  pose proof (saturating_add_le r v). lia.
Qed.

(** A scope whose own record is unchanged stays conserved when its sums do not grow. *)
Lemma conserved_mono st st' k sc :
  conserved d st k sc →
  credit d st' (sc_reservation_id sc) = credit d st (sc_reservation_id sc) →
  held d st' k + gifted d st' k ≤ held d st k + gifted d st k →
  conserved d st' k sc.
Proof.
  unfold conserved. intros Hc -> Hle.
  destruct (req_dim d (limit_of sc)), (am_dim d (sc_remaining sc)); try done.
  destruct Hc; split; [done|lia].
Qed.

End Sums.

(** ** Preservation of the links *)

Section Links.
Context `{HEnv : Env} {HOk : EnvOk}.
Implicit Types (st : BudgetState) (n : N).

Lemma linked_mono st n n' : n ≤ n' → linked st n → linked st n'.
Proof.
  intros Hn Hl. split; try apply Hl.
  - eauto using drawn_mono, lk_drawn.
  - eauto using drawn_mono, lk_res_drawn.
  - intros c rc Hc. destruct (lk_transfer _ _ Hl c rc Hc) as (? & ? & ? & ?).
    split_and!; eauto using drawn_mono.
  - intros r chain Hc. destruct (lk_chain _ _ Hl r chain Hc). eauto using drawn_mono.
Qed.

Lemma linked_scope_fresh st n k : linked st n → ¬ drawn n k → scopes st !! k = None.
Proof.
  intros Hl Hk. destruct (scopes st !! k) as [sc|] eqn:E; [|done].
  destruct Hk. by eapply lk_drawn.
Qed.

Lemma linked_childless st n k :
  linked st n → scopes st !! k = None →
  ∀ k' sc, scopes st !! k' = Some sc → parent_of sc ≠ Some k.
Proof. intros Hl Hk k' sc Hk' Hp. destruct (lk_child _ _ Hl _ _ _ Hk' Hp) as (? & ? & ? & _). congruence. Qed.

Lemma linked_parent_ne st n k sc p :
  linked st n → scopes st !! k = Some sc → parent_of sc = Some p → p ≠ k.
Proof.
  intros Hl Hk Hp ->. destruct (lk_child _ _ Hl _ _ _ Hk Hp) as (psc & r & Hk' & Ha & _).
  simplify_eq. by destruct (kind_of sc).
Qed.

Lemma linked_open_live st n k sc r :
  linked st n → scopes st !! k = Some sc → sc_closed sc = false →
  sc_reservation_id sc = Some r → reservations st !! r = Some k.
Proof. intros Hl Hk Hc Hr. apply (lk_live _ _ Hl). eauto. Qed.

Lemma linked_set_remaining st n p psc a :
  linked st n → scopes st !! p = Some psc →
  linked (with_scopes (insert p (set_remaining psc a)) st) n.
Proof.
  intros Hl Hp. split; cbn.
  - intros k sc Hk. split_lookup; [by apply (lk_id _ _ Hl _ psc)|eauto using lk_id].
  - intros k sc Hk. split_lookup; eauto using lk_drawn.
  - intros k sc Hk Hr. split_lookup; [by eapply (lk_root _ _ Hl _ psc)|by eapply lk_root].
  - intros k sc q Hk Hq.
    assert (∃ sc0, scopes st !! k = Some sc0 ∧ parent_of sc0 = Some q ∧ kind_of sc0 = kind_of sc
                   ∧ sc_reservation_id sc0 = sc_reservation_id sc) as (sc0 & Hk0 & Hq0 & <- & <-).
    { split_lookup; eauto. }
    destruct (lk_child _ _ Hl _ _ _ Hk0 Hq0) as (qsc & r & Hqs & Ha & Hr).
    destruct (decide (p = q)) as [->|Hne]; simplify_eq.
    + eexists _, r. split_and!; [apply lookup_insert_eq|done|done].
    + eexists qsc, r. rewrite lookup_insert_ne by done. done.
  - intros k sc r Hk Hr. split_lookup; eapply (lk_res_drawn _ _ Hl); eauto.
  - intros k1 k2 sc1 sc2 r Hk1 Hk2 Hr1 Hr2. split_lookup; try done;
      eapply (lk_res_inj _ _ Hl); eauto.
  - intros r k. rewrite (lk_live _ _ Hl). split.
    + intros (sc & Hk & Hr & Hc). destruct (decide (p = k)) as [->|Hne]; simplify_eq.
      * eexists. split_and!; [apply lookup_insert_eq|done|done].
      * exists sc. by rewrite lookup_insert_ne.
    + intros (sc & Hk & Hr & Hc). split_lookup; eauto.
  - apply (lk_transfer _ _ Hl).
  - apply (lk_chain _ _ Hl).
Qed.

(** A new scope under a fresh identifier, with a fresh live reservation if it is a child. *)
Lemma linked_add_child st n p psc kind owner request s r :
  linked st n → ¬ drawn n s → ¬ drawn n r → scopes st !! p = Some psc →
  BudgetScopeKind.accepts_child (kind_of psc) kind = true →
  ∀ n', n ≤ n' → drawn n' s → drawn n' r →
  linked (with_reservations (insert r s)
            (with_scopes (insert s (mk_scope s (Some p) kind owner request (Some r))) st)) n'.
Proof.
  intros Hl Hs Hr Hp Ha n' Hn Hsd Hrd. pose proof (linked_scope_fresh _ _ _ Hl Hs) as Hs0.
  apply (linked_mono _ _ _ Hn) in Hl as Hl'.
  assert (Hrs : ∀ k sc, scopes st !! k = Some sc → sc_reservation_id sc ≠ Some r).
  { intros k sc Hk Heq. apply Hr. by eapply (lk_res_drawn _ _ Hl). }
  split; cbn.
  - intros k sc Hk. split_lookup; [done|eauto using lk_id].
  - intros k sc Hk. split_lookup; eauto using lk_drawn.
  - intros k sc Hk Hnone. split_lookup; [done|by eapply lk_root].
  - intros k sc q Hk Hq. split_lookup.
    + injection Hq as <-. exists psc, r. rewrite lookup_insert_ne by congruence. done.
    + destruct (lk_child _ _ Hl' _ _ _ Hk Hq) as (qsc & r' & Hqs & ? & ?).
      exists qsc, r'. rewrite lookup_insert_ne by congruence. done.
  - intros k sc r' Hk Hr'. split_lookup; [cbn in *; by simplify_eq|].
    eapply (lk_res_drawn _ _ Hl'); eauto.
  - intros k1 k2 sc1 sc2 r' Hk1 Hk2 Hr1 Hr2. split_lookup; try done; cbn in *; simplify_eq;
      try (exfalso; by eapply Hrs). eapply (lk_res_inj _ _ Hl'); eauto.
  - intros r' k. split.
    + intros Hk. split_lookup.
      * eexists. split_and!; [apply lookup_insert_eq|done|done].
      * apply (lk_live _ _ Hl') in Hk as (sc & Hk & ? & ?). exists sc.
        rewrite lookup_insert_ne by congruence. done.
    + intros (sc & Hk & Hr' & Hc). split_lookup.
      * cbn in Hr'. simplify_eq. apply lookup_insert_eq.
      * rewrite lookup_insert_ne; [apply (lk_live _ _ Hl'); eauto|].
        intros ->. by eapply Hrs.
  - intros c rc Hc. destruct (lk_transfer _ _ Hl _ _ Hc) as (Hd1 & Hd2 & Hn1 & ?).
    split_and!; eauto with aletheon. rewrite lookup_insert_ne; [done|]. by intros ->.
  - apply (lk_chain _ _ Hl').
Qed.

Lemma linked_add_root st n owner limit s :
  linked st n → ¬ drawn n s → ∀ n', n ≤ n' → drawn n' s →
  linked (with_scopes (insert s (mk_scope s None BudgetScopeKind.Rollout owner limit None)) st) n'.
Proof.
  intros Hl Hs n' Hn Hsd. pose proof (linked_scope_fresh _ _ _ Hl Hs) as Hs0.
  apply (linked_mono _ _ _ Hn) in Hl. split; cbn.
  - intros k sc Hk. split_lookup; [done|eauto using lk_id].
  - intros k sc Hk. split_lookup; eauto using lk_drawn.
  - intros k sc Hk Hnone. split_lookup; [done|by eapply lk_root].
  - intros k sc q Hk Hq. split_lookup; [done|].
    destruct (lk_child _ _ Hl _ _ _ Hk Hq) as (qsc & r' & Hqs & ? & ?).
    exists qsc, r'. rewrite lookup_insert_ne by congruence. done.
  - intros k sc r' Hk Hr'. split_lookup; [done|]. eapply (lk_res_drawn _ _ Hl); eauto.
  - intros k1 k2 sc1 sc2 r' Hk1 Hk2 Hr1 Hr2. split_lookup; try done.
    eapply (lk_res_inj _ _ Hl); eauto.
  - intros r' k. rewrite (lk_live _ _ Hl). split.
    + intros (sc & Hk & ? & ?). exists sc. rewrite lookup_insert_ne by congruence. done.
    + intros (sc & Hk & ? & ?). split_lookup; [done|eauto].
  - apply (lk_transfer _ _ Hl).
  - apply (lk_chain _ _ Hl).
Qed.

Lemma linked_close st n k sc p r :
  linked st n → scopes st !! k = Some sc → parent_of sc = Some p → reservations st !! r = Some k →
  linked (with_reservations (delete r) (with_scopes (insert k (set_closed sc)) st)) n.
Proof.
  intros Hl Hk0 Hp Hr0.
  assert (Hr : sc_reservation_id sc = Some r).
  { apply (lk_live _ _ Hl) in Hr0 as (sc' & ? & ? & ?). congruence. }
  split; cbn.
  - intros k' sc' Hk. split_lookup; [by apply (lk_id _ _ Hl _ sc)|eauto using lk_id].
  - intros k' sc' Hk. split_lookup; eauto using lk_drawn.
  - intros k' sc' Hk Hnone. split_lookup; [change (parent_of sc = None) in Hnone; congruence|by eapply lk_root].
  - intros k' sc' q Hk Hq.
    assert (∃ sc0, scopes st !! k' = Some sc0 ∧ parent_of sc0 = Some q ∧ kind_of sc0 = kind_of sc'
             ∧ sc_reservation_id sc0 = sc_reservation_id sc') as (sc0 & Hk1 & Hq1 & <- & <-).
    { split_lookup; eauto. }
    destruct (lk_child _ _ Hl _ _ _ Hk1 Hq1) as (qsc & r' & Hqs & Ha & Hr').
    destruct (decide (k = q)) as [->|Hne]; simplify_eq.
    + eexists _, r'. split_and!; [apply lookup_insert_eq|done|done].
    + exists qsc, r'. rewrite lookup_insert_ne by done. done.
  - intros k' sc' r' Hk Hr'. split_lookup; eapply (lk_res_drawn _ _ Hl); eauto.
  - intros k1 k2 sc1 sc2 r' Hk1 Hk2 Hr1 Hr2. split_lookup; try done;
      eapply (lk_res_inj _ _ Hl); eauto.
  - intros r' k'. split.
    + intros [Hne Hk]%lookup_delete_Some. apply (lk_live _ _ Hl) in Hk as (sc' & Hk & ? & ?).
      exists sc'. rewrite lookup_insert_ne; [done|]. intros ->. congruence.
    + intros (sc' & Hk & Hr' & Hc). split_lookup; [done|].
      rewrite lookup_delete_ne; [apply (lk_live _ _ Hl); eauto|].
      intros ->. assert (k = k') by (eapply (lk_res_inj _ _ Hl); eauto). done.
  - intros c rc Hc. destruct (lk_transfer _ _ Hl _ _ Hc) as (? & ? & Hn & ?).
    split_and!; auto. by rewrite lookup_delete_None; right.
  - apply (lk_chain _ _ Hl).
Qed.

Lemma linked_record_transfer st n c q accepted :
  linked st n → drawn n c → drawn n q → reservations st !! c = None →
  linked (with_transfers (insert c {| bt_child_reservation_id := c; bt_parent_reservation_id := q;
                                      bt_accepted := accepted |}) st) n.
Proof.
  intros Hl Hc Hq Hn. split; cbn; try apply Hl.
  intros c' rc Hc'. split_lookup; [done|]. by eapply lk_transfer.
Qed.

End Links.

(** ** Preservation of conservation *)

Section SumMoves.
Context (d : Dim) (st : BudgetState).

Lemma held_msum st' q : held d st' q = msum (λ _ sc, held_of d q sc) (scopes st').
Proof. done. Qed.

Lemma gifted_msum st' q : gifted d st' q = msum (λ _ sc, gifted_of d st' q sc) (scopes st').
Proof. done. Qed.

Lemma sums_set_remaining p psc a q :
  scopes st !! p = Some psc →
  held d (with_scopes (insert p (set_remaining psc a)) st) q = held d st q
  ∧ gifted d (with_scopes (insert p (set_remaining psc a)) st) q = gifted d st q.
Proof.
  intros Hp. rewrite !held_msum, !gifted_msum. cbn -[held_of gifted_of]. split.
  - pose proof (msum_update (λ _ sc, held_of d q sc) _ _ _ (set_remaining psc a) Hp) as Hm.
    cbv beta in Hm. rewrite held_of_set_remaining in Hm. lia.
  - pose proof (msum_update (λ _ sc, gifted_of d st q sc) _ _ _ (set_remaining psc a) Hp) as Hm.
    cbv beta in Hm. change (gifted_of d st q (set_remaining psc a)) with (gifted_of d st q psc) in Hm.
    change (gifted_of d (with_scopes _ st)) with (gifted_of d st). lia.
Qed.

Lemma sums_set_closed k sc q :
  scopes st !! k = Some sc →
  held d (with_scopes (insert k (set_closed sc)) st) q + held_of d q sc = held d st q
  ∧ gifted d (with_scopes (insert k (set_closed sc)) st) q = gifted d st q.
Proof.
  intros Hk. rewrite !held_msum, !gifted_msum. cbn -[held_of gifted_of]. split.
  - pose proof (msum_update (λ _ sc, held_of d q sc) _ _ _ (set_closed sc) Hk) as Hm.
    cbv beta in Hm. rewrite held_of_set_closed in Hm. lia.
  - pose proof (msum_update (λ _ sc, gifted_of d st q sc) _ _ _ (set_closed sc) Hk) as Hm.
    cbv beta in Hm. change (gifted_of d st q (set_closed sc)) with (gifted_of d st q sc) in Hm.
    change (gifted_of d (with_scopes _ st)) with (gifted_of d st). lia.
Qed.

Lemma sums_add s sc q :
  scopes st !! s = None →
  held d (with_scopes (insert s sc) st) q = held_of d q sc + held d st q
  ∧ gifted d (with_scopes (insert s sc) st) q = gifted_of d st q sc + gifted d st q.
Proof.
  intros Hs. split.
  - apply (msum_insert (λ _ sc, held_of d q sc)), Hs.
  - apply (msum_insert (λ _ sc, gifted_of d st q sc)), Hs.
Qed.

Lemma credit_record c rc r :
  transfers st !! c = None →
  credit d (with_transfers (insert c rc) st) r =
  credit d st r + (if bool_decide (Some (bt_parent_reservation_id rc) = r)
                   then amount (req_dim d (bt_accepted rc)) else 0).
Proof.
  intros Hc. unfold credit. cbn. rewrite msum_insert by done. apply N.add_comm.
Qed.

(** Recording a transfer to the scope [k] adds its amount to the gifts of [k]'s parent. *)
Lemma gifted_record `{Env} n c rc k ksc q :
  linked st n → transfers st !! c = None → scopes st !! k = Some ksc →
  sc_reservation_id ksc = Some (bt_parent_reservation_id rc) →
  gifted d (with_transfers (insert c rc) st) q =
  gifted d st q + (if bool_decide (parent_of ksc = Some q)
                   then amount (req_dim d (bt_accepted rc)) else 0).
Proof.
  intros Hl Hc Hk Hr. set (a := amount (req_dim d (bt_accepted rc))).
  pose (here := λ (k' : N) sc, if decide (k' = k) then
                   (if bool_decide (parent_of sc = Some q) then a else 0) else 0).
  transitivity (msum (λ k' sc, gifted_of d st q sc + here k' sc) (scopes st)).
  - apply msum_ext. intros k' sc Hk'. cbn. unfold here, gifted_of.
    rewrite credit_record by done. fold a.
    destruct (decide (k' = k)) as [->|Hne].
    + simplify_eq. rewrite Hr, (bool_decide_eq_true_2 (Some (bt_parent_reservation_id rc) = Some _)) by done.
      by destruct (bool_decide _).
    + rewrite (bool_decide_eq_false_2 (Some (bt_parent_reservation_id rc) = _));
        [destruct (bool_decide _); lia|].
      intros Heq. apply Hne. symmetry in Heq. eapply (lk_res_inj _ _ Hl); eauto.
  - rewrite msum_add. change (msum _ (scopes st)) with (gifted d st q) at 1. f_equal.
    rewrite (msum_delete here _ k ksc) by done. unfold here at 1.
    rewrite decide_True by done. rewrite (msum_zero here); [lia|].
    intros k' sc Hk'. split_lookup. unfold here. by rewrite decide_False.
Qed.

End SumMoves.

Section Wf.
Context `{HEnv : Env} {HOk : EnvOk}.
Implicit Types (st : BudgetState) (n : N).

Lemma wf_mono st n n' : n ≤ n' → wf st n → wf st n'.
Proof. intros Hn [Hl Hc]. split; eauto using linked_mono. Qed.

Lemma wf_default n : wf BudgetState_default n.
Proof.
  split.
  - split; cbn; try (intros; simplify_map_eq; fail).
    intros r k. split; [by rewrite lookup_empty|]. by intros (sc & ? & _); simplify_map_eq.
  - intros d k sc Hk. cbn in Hk. by simplify_map_eq.
Qed.

Lemma conserved_new d st s parent kind owner request resv :
  u64_request request →
  held d st s = 0 → gifted d st s = 0 →
  conserved d st s (mk_scope s parent kind owner request resv).
Proof.
  intros Hu H1 H2. unfold conserved. cbn -[req_dim am_dim].
  change (limit_of _) with request. rewrite am_dim_from_request.
  destruct (req_dim d request) as [x|] eqn:E; [|done].
  split; [by eapply Hu|lia].
Qed.

Lemma wf_add_root st n owner limit s :
  wf st n → ¬ drawn n s → u64_request limit → ∀ n', n ≤ n' → drawn n' s →
  wf (with_scopes (insert s (mk_scope s None BudgetScopeKind.Rollout owner limit None)) st) n'.
Proof.
  intros [Hl Hc] Hs Hu n' Hn Hsd. split; [by eapply linked_add_root|].
  pose proof (linked_scope_fresh _ _ _ Hl Hs) as Hs0. intros d k sc Hk.
  set (new := mk_scope s None BudgetScopeKind.Rollout owner limit None).
  pose proof (λ q, sums_add d st s new q Hs0) as Hsum.
  assert (Hz : ∀ q, held_of d q new = 0 ∧ gifted_of d st q new = 0).
  { intros q. split; [by apply held_of_other|by apply gifted_of_other]. }
  cbn in Hk. split_lookup.
  - destruct (childless_sums d st k) as [H1 H2]; [by eapply linked_childless|].
    destruct (Hz k), (Hsum k). apply conserved_new; [done| |]; lia.
  - eapply conserved_mono; [by apply Hc|done|]. destruct (Hz k), (Hsum k). lia.
Qed.

Lemma wf_reserved st n parent psc kind owner request :
  wf st n → scopes st !! parent = Some psc → sc_closed psc = false →
  BudgetScopeKind.accepts_child (kind_of psc) kind = true →
  can_afford (sc_remaining psc) request = true → u64_request request →
  wf (reserved_state st n parent psc kind owner request) (n + 1 + 1).
Proof.
  intros [Hl Hcons] Hp Hopen Ha Haff Hu.
  set (a := subtract (sc_remaining psc) request).
  set (st1 := with_scopes (insert parent (set_remaining psc a)) st).
  assert (Hs : ¬ drawn n (uuid_v4 n)) by apply drawn_fresh.
  assert (Hr : ¬ drawn n (uuid_v4 (n + 1))).
  { intros Hd. eapply drawn_fresh, drawn_mono; [|exact Hd]. lia. }
  assert (Hl1 : linked st1 n) by by apply linked_set_remaining.
  split.
  { eapply (linked_add_child st1 n parent (set_remaining psc a)); try done;
      [apply lookup_insert_eq|lia|apply drawn_here; lia|apply drawn_here; lia]. }
  intros d k sc Hk. set (new := mk_scope (uuid_v4 n) (Some parent) kind owner request
                                 (Some (uuid_v4 (n + 1)))).
  pose proof (linked_scope_fresh _ _ _ Hl1 Hs) as Hs1.
  assert (Hsum : ∀ q, held d (reserved_state st n parent psc kind owner request) q
                      = held_of d q new + held d st q
              ∧ gifted d (reserved_state st n parent psc kind owner request) q = gifted d st q).
  { intros q. destruct (sums_add d st1 (uuid_v4 n) new q Hs1) as [E1 E2].
    destruct (sums_set_remaining d st parent psc a q Hp) as [F1 F2].
    fold st1 in F1, F2. rewrite F1 in E1. rewrite F2 in E2. split; [exact E1|].
    etransitivity; [exact E2|]. unfold gifted_of. cbn.
    rewrite (credit_fresh d st1); [by destruct (bool_decide _)|].
    intros c rc Hc Heq. destruct (lk_transfer _ _ Hl _ _ Hc) as (_ & Hd & _).
    by rewrite Heq in Hd. }
  cbn in Hk. split_lookup.
  - destruct (Hsum (uuid_v4 n)) as [E1 E2].
    destruct (childless_sums d st (uuid_v4 n)) as [H1 H2].
    { eapply linked_childless; [done|]. by eapply linked_scope_fresh. }
    apply conserved_new; [done| |lia]. rewrite E1, held_of_other; [lia|].
    cbn. intros [= ->]. apply Hs. by eapply (lk_drawn _ _ Hl).
  - pose proof (Hcons d k psc Hp) as Hc. apply can_afford_dim with (d := d) in Haff.
    destruct (Hsum k) as [E1 E2]. rewrite held_of_open in E1 by done.
    unfold conserved in *. cbn -[req_dim am_dim].
    change (limit_of (set_remaining psc (subtract (sc_remaining psc) request)))
      with (limit_of psc).
    change (credit d (reserved_state _ _ _ _ _ _ _)) with (credit d st). rewrite E1, E2.
    rewrite am_dim_subtract. change (limit_of new) with request.
    destruct (req_dim d (limit_of psc)) as [L|], (am_dim d (sc_remaining psc)) as [r|]; try done.
    destruct Hc as [Hru Hc], (req_dim d request) as [w|].
    + rewrite sub_dim_exact by done. cbn in Haff. apply N.leb_le in Haff.
      split; [unfold is_u64 in *; lia|]. cbn. lia.
    + cbn. split; [done|]. lia.
  - destruct (Hsum k) as [E1 E2]. eapply conserved_mono; [by apply Hcons|done|].
    rewrite E1, E2, held_of_other; [lia|]. cbn. congruence.
Qed.

Lemma close_locked_linked st n r usage :
  linked st n →
  (∃ k sc p psc, reservations st !! r = Some k ∧ scopes st !! k = Some sc ∧ sc_closed sc = false
     ∧ parent_of sc = Some p ∧ p ≠ k ∧ scopes st !! p = Some psc
     ∧ (∀ k' sc', scopes st !! k' = Some sc' → open_child_of k sc' = false)
     ∧ close_locked r usage st n =
       (Ok tt, closed_state st r k p sc psc (returned_of sc usage), n))
  ∨ (reservations st !! r = None
     ∧ close_locked r usage st n = (Err AdmissionError.AlreadySettled, st, n))
  ∨ (∃ k k' sc', reservations st !! r = Some k ∧ scopes st !! k' = Some sc'
     ∧ open_child_of k sc' = true
     ∧ close_locked r usage st n = (Err AdmissionError.BudgetExceeded, st, n)).
Proof.
  intros Hl. destruct (reservations st !! r) as [k|] eqn:Hr.
  2: { right; left. split; [done|]. unfold close_locked, mbind, M_bind, get_state, ok_or. cbn.
       by rewrite Hr. }
  destruct (proj1 (lk_live _ _ Hl r k) Hr) as (sc & Hk & Hsr & Hopen).
  destruct (close_locked_cases st n r usage)
    as [(k1 & sc1 & p & Hr1 & Hk1 & Hc1 & Hp & Hno & Heq)|[(e & Heq & He & Hchild)|
        (k1 & sc1 & Hr1 & Hk1 & Hp & Heq)]].
  - assert (k1 = k) as -> by congruence. assert (sc1 = sc) as -> by congruence.
    left. destruct (lk_child _ _ Hl _ _ _ Hk Hp) as (psc & ? & Hpp & _).
    pose proof (linked_parent_ne _ _ _ _ _ Hl Hk Hp) as Hne.
    exists k, sc, p, psc. split_and!; try done. rewrite Heq.
    change (scopes (with_scopes (insert k (set_closed sc)) st))
      with (<[k:=set_closed sc]> (scopes st)).
    by rewrite lookup_insert_ne, Hpp.
  - destruct He as [->| ->].
    + exfalso. revert Heq. unfold close_locked, mbind, M_bind, get_state, ok_or. cbn.
      rewrite Hr. cbn. destruct (existsb _ _); [done|]. rewrite Hk. cbn. rewrite Hopen. cbn.
      unfold expect. destruct (parent_of sc) as [p|]; cbn; [|done].
      by destruct (<[k:=set_closed sc]> (scopes st) !! p).
    + destruct (Hchild eq_refl) as (k1 & k' & sc' & ? & ? & ?). simplify_eq.
      right; right. eauto 10.
  - destruct (lk_root _ _ Hl _ _ Hk1 Hp) as (_ & ? & _). congruence.
Qed.

Lemma closed_state_eq st r k p sc psc v :
  closed_state st r k p sc psc v =
  with_scopes (insert p (set_remaining psc (add (sc_remaining psc) v)))
    (with_reservations (delete r) (with_scopes (insert k (set_closed sc)) st)).
Proof. reflexivity. Qed.

Lemma closed_state_sums d st r k p sc psc v q :
  scopes st !! k = Some sc → scopes st !! p = Some psc → p ≠ k →
  held d (closed_state st r k p sc psc v) q + held_of d q sc = held d st q
  ∧ gifted d (closed_state st r k p sc psc v) q = gifted d st q.
Proof.
  intros Hk Hpp Hne. set (st1 := with_scopes (insert k (set_closed sc)) st).
  assert (Hpp1 : scopes st1 !! p = Some psc) by (cbn; by rewrite lookup_insert_ne).
  destruct (sums_set_remaining d st1 p psc (add (sc_remaining psc) v) q Hpp1) as [E1 E2].
  destruct (sums_set_closed d st k sc q Hk) as [F1 F2]. fold st1 in F1, F2.
  rewrite closed_state_eq. fold st1.
  change (held d (with_scopes (insert p (set_remaining psc (add (sc_remaining psc) v)))
                  (with_reservations (delete r) st1)) q)
    with (held d (with_scopes (insert p (set_remaining psc (add (sc_remaining psc) v))) st1) q).
  change (gifted d (with_scopes (insert p (set_remaining psc (add (sc_remaining psc) v)))
                    (with_reservations (delete r) st1)) q)
    with (gifted d (with_scopes (insert p (set_remaining psc (add (sc_remaining psc) v))) st1) q).
  split; congruence.
Qed.

Lemma linked_closed st n r k sc up p psc v :
  linked st n → reservations st !! r = Some k → scopes st !! k = Some sc →
  parent_of sc = Some up → p ≠ k → scopes st !! p = Some psc →
  linked (closed_state st r k p sc psc v) n.
Proof.
  intros Hl Hr Hk Hup Hne Hpp. rewrite closed_state_eq.
  apply linked_set_remaining; [by eapply linked_close|].
  cbn. by rewrite lookup_insert_ne.
Qed.

Lemma wf_closed st n r k sc p psc usage :
  wf st n → reservations st !! r = Some k → scopes st !! k = Some sc → sc_closed sc = false →
  parent_of sc = Some p → p ≠ k → scopes st !! p = Some psc →
  wf (closed_state st r k p sc psc (returned_of sc usage)) n.
Proof.
  intros [Hl Hcons] Hr Hk Hopen Hp Hne Hpp.
  set (v := returned_of sc usage).
  split; [by eapply linked_closed|].
  intros d q qsc Hq.
  pose proof (λ q, closed_state_sums d st r k p sc psc v q Hk Hpp Hne) as Hsum.
  destruct (Hsum q) as [E1 E2]. cbn in Hq. split_lookup.
  - eapply (conserved_add d st _ q psc (am_dim d v) 0); [by apply Hcons|by rewrite N.add_0_r| |apply am_dim_add].
    rewrite held_of_open in E1 by done. pose proof (returned_of_le d sc usage) as Hv. fold v in Hv. lia.
  - assert (Hc : conserved d (closed_state st r q p sc psc v) q sc).
    { eapply conserved_mono; [by apply Hcons|done|lia]. }
    exact Hc.
  - eapply conserved_mono; [by apply Hcons|done|lia].
Qed.

Lemma transfer_locked_linked st n child parent usage :
  linked st n →
  (∃ k q sc qsc, transfers st !! child = None
     ∧ reservations st !! child = Some k ∧ reservations st !! parent = Some q
     ∧ scopes st !! k = Some sc ∧ sc_closed sc = false
     ∧ scopes st !! q = Some qsc ∧ sc_closed qsc = false ∧ k ≠ q
     ∧ parent_of qsc = parent_of sc
     ∧ let accepted := returned_of sc (Some usage) in
       transfer_locked child parent usage st n =
       (Ok (false, {| bt_child_reservation_id := child; bt_parent_reservation_id := parent;
                      bt_accepted := {| max_tokens := am_tokens accepted;
                                        max_cost_micro := am_cost_micro accepted |} |}),
        transferred_state st child parent k q sc qsc accepted, n))
  ∨ (∃ rc, transfers st !! child = Some rc ∧ bt_parent_reservation_id rc = parent
     ∧ transfer_locked child parent usage st n = (Ok (true, rc), st, n))
  ∨ (∃ e, transfer_locked child parent usage st n = (Err e, st, n)).
Proof.
  intros Hl. unfold transfer_locked, mbind, M_bind, get_state, ok_or. cbn.
  destruct (transfers st !! child) as [rc|] eqn:Ht.
  { destruct (N.eqb_spec (bt_parent_reservation_id rc) parent); [|eauto].
    right; left. eauto. }
  destruct (reservations st !! child) as [k|] eqn:Hk; cbn; [|eauto].
  destruct (reservations st !! parent) as [q|] eqn:Hq; cbn; [|eauto].
  destruct (proj1 (lk_live _ _ Hl child k) Hk) as (sc & Hks & Hcr & Hc).
  destruct (proj1 (lk_live _ _ Hl parent q) Hq) as (qsc & Hqs & Hqr & Hqc).
  rewrite Hks; cbn. rewrite Hc, Hqs; cbn. rewrite Hqc; cbn.
  destruct (N.eqb_spec child parent) as [->|Hne]; cbn; [eauto|].
  destruct (bool_decide _) eqn:Hb; cbn; [|eauto]. apply bool_decide_eq_true in Hb.
  assert (Hkq : k ≠ q) by congruence.
  left. exists k, q, sc, qsc. split_and!; try done.
  unfold transferred_state, with_scopes, with_reservations, with_transfers; cbn.
  rewrite (alter_as_insert _ _ k sc) by done.
  rewrite (alter_as_insert _ _ q qsc) by (by rewrite lookup_insert_ne). done.
Qed.

Lemma transferred_state_eq st child parent k q sc qsc a :
  transferred_state st child parent k q sc qsc a =
  with_transfers (insert child
      {| bt_child_reservation_id := child; bt_parent_reservation_id := parent;
         bt_accepted := {| max_tokens := am_tokens a; max_cost_micro := am_cost_micro a |} |})
    (closed_state st child k q sc qsc a).
Proof. reflexivity. Qed.

(** A transfer between siblings moves [accepted] from what the closed child held
    to the gifts of the common parent, and credits the accepting sibling. *)
Lemma transferred_sums d st n child parent k q sc qsc v x :
  linked st n → transfers st !! child = None → reservations st !! child = Some k →
  scopes st !! k = Some sc → sc_closed sc = false → scopes st !! q = Some qsc →
  sc_reservation_id qsc = Some parent → k ≠ q → parent_of qsc = parent_of sc →
  let st' := transferred_state st child parent k q sc qsc v in
  let a := amount (am_dim d v) in
  held d st' x + held_of d x sc = held d st x
  ∧ gifted d st' x = gifted d st x + (if bool_decide (parent_of sc = Some x) then a else 0)
  ∧ ∀ r, credit d st' r = credit d st r + (if bool_decide (Some parent = r) then a else 0).
Proof.
  intros Hl Ht Hchild Hk Hopen Hq Hqr Hne Hpar st' a.
  destruct (parent_of sc) as [up|] eqn:Hup.
  2: { destruct (lk_root _ _ Hl _ _ Hk Hup) as (_ & Hn & _).
       apply (lk_live _ _ Hl) in Hchild as (sc' & ? & ? & ?). congruence. }
  set (st2 := closed_state st child k q sc qsc v).
  assert (Hl2 : linked st2 n) by (by eapply linked_closed).
  destruct (closed_state_sums d st child k q sc qsc v x Hk Hq) as [E1 E2]; [done|].
  fold st2 in E1, E2.
  set (rc := {| bt_child_reservation_id := child; bt_parent_reservation_id := parent;
                bt_accepted := {| max_tokens := am_tokens v;
                                  max_cost_micro := am_cost_micro v |} |}).
  assert (Ha : amount (req_dim d (bt_accepted rc)) = a) by (by destruct d).
  assert (Est : st' = with_transfers (insert child rc) st2) by reflexivity.
  rewrite Est. split_and!.
  - exact E1.
  - rewrite (gifted_record d st2 n child rc q (set_remaining qsc (add (sc_remaining qsc) v)) x);
      [|done|done| |done].
    + rewrite E2, Ha. change (parent_of (set_remaining qsc _)) with (parent_of qsc).
      by rewrite Hpar.
    + apply lookup_insert_eq.
  - intros r. rewrite credit_record by done. by rewrite Ha.
Qed.

Lemma wf_transferred st n child parent k q sc qsc usage :
  wf st n → transfers st !! child = None →
  reservations st !! child = Some k → reservations st !! parent = Some q →
  scopes st !! k = Some sc → sc_closed sc = false → scopes st !! q = Some qsc →
  k ≠ q → parent_of qsc = parent_of sc →
  wf (transferred_state st child parent k q sc qsc (returned_of sc (Some usage))) n.
Proof.
  intros [Hl Hcons] Ht Hchild Hparent Hk Hopen Hq Hne Hpar.
  assert (Hqr : sc_reservation_id qsc = Some parent).
  { apply (lk_live _ _ Hl) in Hparent as (? & ? & ? & ?). congruence. }
  assert (Hkr : sc_reservation_id sc = Some child).
  { apply (lk_live _ _ Hl) in Hchild as (? & ? & ? & ?). congruence. }
  destruct (parent_of sc) as [up|] eqn:Hup.
  2: { destruct (lk_root _ _ Hl _ _ Hk Hup) as (_ & ? & _). congruence. }
  set (v := returned_of sc (Some usage)). split.
  { rewrite transferred_state_eq. apply linked_record_transfer.
    - by eapply linked_closed.
    - by eapply (lk_res_drawn _ _ Hl k).
    - by eapply (lk_res_drawn _ _ Hl q).
    - apply lookup_delete_eq. }
  intros d x xsc Hx.
  destruct (transferred_sums d st n child parent k q sc qsc v x) as (E1 & E2 & E3);
    try done; [by rewrite Hpar|].
  pose proof (returned_of_le d sc (Some usage)) as Hv. fold v in Hv. rewrite Hup in E2.
  pose proof (linked_parent_ne _ _ _ _ _ Hl Hk Hup) as Hupk.
  pose proof (linked_parent_ne _ _ _ _ _ Hl Hq Hpar) as Hupq.
  cbn in Hx. split_lookup.
  - eapply (conserved_add d st _ x qsc (am_dim d v) (amount (am_dim d v)));
      [by apply Hcons| | |apply am_dim_add].
    + by rewrite E3, Hqr, bool_decide_eq_true_2.
    + rewrite bool_decide_eq_false_2 in E2 by congruence. lia.
  - assert (Hc : conserved d (transferred_state st child parent x q sc qsc v) x sc).
    { eapply conserved_mono; [by apply Hcons| |].
      - rewrite E3, Hkr, bool_decide_eq_false_2; [apply N.add_0_r|].
        intros [= ->]. congruence.
      - rewrite bool_decide_eq_false_2 in E2 by congruence. lia. }
    exact Hc.
  - eapply conserved_mono; [by apply Hcons| |].
    + rewrite E3, bool_decide_eq_false_2; [apply N.add_0_r|].
      intros Heq. symmetry in Heq. assert (q = x); [|done]. by eapply (lk_res_inj _ _ Hl).
    + destruct (decide (up = x)) as [->|Hux].
      * rewrite bool_decide_eq_true_2 in E2 by done. rewrite held_of_open in E1 by done. lia.
      * rewrite bool_decide_eq_false_2 in E2 by congruence. lia.
Qed.

End Wf.

(** ** Every operation keeps the invariant *)

Section Keeps.
Context `{HEnv : Env} {HOk : EnvOk} (R : Fate) (tree : bool).
Abbreviation B := (M BudgetState AdmissionError.t).

Lemma inv_mono st n n' : n ≤ n' → inv R tree st n → inv R tree st n'.
Proof.
  intros Hn [Hw Hd Ht]. split; eauto using wf_mono.
  intros r o Hr. destruct (Hd r o Hr). eauto using drawn_mono.
Qed.

Lemma inv_dead st n r : inv R tree st n → R r None → drawn n r ∧ reservations st !! r = None.
Proof.
  intros [_ Hd _] Hr. destruct (Hd _ _ Hr) as [Hdr Hk]. split; [done|].
  destruct (reservations st !! r) as [k|]; [|done]. by destruct (Hk k eq_refl) as (? & _ & ?).
Qed.

(** Fates carry over to a state that revives no drawn reservation and keeps the
    kinds of the scopes. *)
Lemma fate_keeps st n st' n' :
  inv R tree st n → n ≤ n' →
  (∀ r k, drawn n r → reservations st' !! r = Some k → reservations st !! r = Some k) →
  (∀ k sc, scopes st !! k = Some sc → ∃ sc', scopes st' !! k = Some sc' ∧ kind_of sc' = kind_of sc) →
  ∀ r o, R r o → drawn n' r ∧ ∀ k, reservations st' !! r = Some k →
    ∃ sc, scopes st' !! k = Some sc ∧ o = Some (kind_of sc).
Proof.
  intros [_ Hd _] Hn Hres Hsc r o Hr. destruct (Hd r o Hr) as [Hdr Hk].
  split; [by eapply drawn_mono|]. intros k Hk'. apply Hres in Hk'; [|done].
  destruct (Hk k Hk') as (sc & Hs & ->). destruct (Hsc _ _ Hs) as (sc' & ? & <-). eauto.
Qed.

Lemma keeps_ret {A} (a : A) : keeps R tree (mret a : B A).
Proof. intros st n Hi. apply wp_ret. split_and!; [done|lia|done]. Qed.

Lemma keeps_throw {A} e : keeps R tree (throw e : B A).
Proof. intros st n Hi. wp_step. split_and!; [done|lia|done]. Qed.

Lemma keeps_get : keeps R tree (get_state : B BudgetState).
Proof. intros st n Hi. wp_step. split_and!; [done|lia|done]. Qed.

Lemma keeps_bind {A C} (m : B A) (k : A → B C) :
  keeps R tree m → (∀ a, keeps R tree (k a)) → keeps R tree (m ≫= k).
Proof.
  intros Hm Hk st n Hi. apply wp_bind. eapply wp_mono; [by apply Hm|].
  intros [a|e|] st' n' (Hi' & Hn & Hp); try done.
  eapply wp_mono; [by apply Hk|]. intros r st'' n'' (? & ? & ?). split_and!; [done|lia|done].
Qed.

Lemma keeps_ignore {A} (m : B A) : keeps R tree m → keeps R tree (ignore m).
Proof.
  intros Hm st n Hi. apply wp_ignore. eapply wp_mono; [by apply Hm|].
  intros [a|e|] st' n' (Hi' & Hn & Hp); by split_and!.
Qed.

Lemma keeps_for_each {A} (l : list A) (body : A → B unit) :
  (∀ x, keeps R tree (body x)) → keeps R tree (for_each l body).
Proof.
  intros Hb. induction l as [|x l IH]; [apply keeps_ret|]. cbn. by apply keeps_bind.
Qed.

Lemma keeps_ok_or {A} (o : option A) e : keeps R tree (ok_or o e : B A).
Proof. destruct o; [apply keeps_ret|apply keeps_throw]. Qed.

(** The maps that only index scopes do not take part in the invariant, but for
    the first element of each chain. *)
Lemma inv_same st st' n :
  inv R tree st n → scopes st' = scopes st → reservations st' = reservations st →
  transfers st' = transfers st →
  (∀ r chain, legacy_chains st' !! r = Some chain → head chain = Some r ∧ drawn n r) →
  inv R tree st' n.
Proof.
  destruct st, st'. cbn. intros [[Hl Hc] Hd Ht] -> -> -> Hch.
  split; [split; [by destruct Hl; split|]|done|done].
  intros d k sc Hk. apply (Hc d k sc Hk).
Qed.

Lemma keeps_index (f : BudgetState → BudgetState) :
  (∀ st, scopes (f st) = scopes st ∧ reservations (f st) = reservations st
         ∧ transfers (f st) = transfers st ∧ legacy_chains (f st) = legacy_chains st) →
  keeps R tree (modify f).
Proof.
  intros Hf st n Hi. wp_step. destruct (Hf st) as (? & ? & ? & Hlc).
  split_and!; [|lia|done]. eapply inv_same; eauto. rewrite Hlc.
  apply (lk_chain _ _ (wf_linked _ _ (inv_wf _ _ _ _ Hi))).
Qed.

Lemma inv_chain_insert st n r chain :
  inv R tree st n → head chain = Some r → drawn n r →
  inv R tree (with_legacy_chains (insert r chain) st) n.
Proof.
  intros Hi Hr Hd. eapply inv_same; eauto. cbn. intros r' ch Hch. split_lookup; [done|].
  by apply (lk_chain _ _ (wf_linked _ _ (inv_wf _ _ _ _ Hi))).
Qed.

Lemma keeps_chain_delete r : keeps R tree (modify (with_legacy_chains (delete r))).
Proof.
  intros st n Hi. wp_step. split_and!; [|lia|done]. eapply inv_same; eauto. cbn.
  intros r' ch Hch. split_lookup. by apply (lk_chain _ _ (wf_linked _ _ (inv_wf _ _ _ _ Hi))).
Qed.

Lemma no_orphans_set_remaining st p psc a :
  no_orphans st → scopes st !! p = Some psc →
  no_orphans (with_scopes (insert p (set_remaining psc a)) st).
Proof.
  intros Ht Hp k q sc qsc Hk Hq Hqs Hc.
  assert (Hold : ∀ x xsc, scopes (with_scopes (insert p (set_remaining psc a)) st) !! x = Some xsc →
            ∃ xsc0, scopes st !! x = Some xsc0 ∧ parent_of xsc0 = parent_of xsc
                    ∧ sc_closed xsc0 = sc_closed xsc).
  { cbn. intros x xsc Hx. split_lookup; eauto. }
  destruct (Hold _ _ Hk) as (sc0 & Hk0 & Hp0 & <-).
  destruct (Hold _ _ Hqs) as (qsc0 & Hq0 & _ & Hc0).
  eapply (Ht k q); eauto; congruence.
Qed.

Lemma keeps_create_root owner limit :
  u64_request limit → keeps R tree (create_root_locked owner limit).
Proof.
  intros Hu st n Hi. pose proof Hi as [Hw _ Ht]. unfold create_root_locked. wp_steps.
  split_and!; [|lia|done]. split.
  - eapply wf_add_root; [done|apply drawn_fresh|done|lia|apply drawn_here; lia].
  - eapply fate_keeps; [done|lia|done|]. cbn. intros k sc Hk.
    rewrite lookup_insert_ne; [eauto|]. intros <-. apply (drawn_fresh n).
    by eapply (lk_drawn _ _ (wf_linked _ _ Hw)).
  - intros Htree%Ht k p sc psc Hk Hp Hps Hc. cbn in *. split_lookup; try done.
    by eapply (Htree k p).
Qed.

Lemma keeps_reserve_child parent kind owner request :
  u64_request request → keeps R tree (reserve_child_locked parent kind owner request).
Proof.
  intros Hu st n Hi. unfold wp.
  destruct (reserve_child_locked_cases st n parent kind owner request)
    as [(psc & Hp & Hopen & Ha & Haff & ->)| ->]; [|split_and!; [done|lia|done]].
  pose proof Hi as [Hw _ Ht]. split_and!; [|lia|done]. split.
  - by apply wf_reserved.
  - eapply fate_keeps; [done|lia|..]; cbn.
    + intros r k Hdr Hk. rewrite lookup_insert_ne in Hk; [done|]. intros <-.
      eapply drawn_fresh, drawn_mono; [|exact Hdr]. lia.
    + intros k sc Hk. rewrite lookup_insert_ne.
      * destruct (decide (k = parent)) as [->|]; [|rewrite lookup_insert_ne by done; eauto].
        rewrite lookup_insert_eq. simplify_eq. eauto.
      * intros <-. apply (drawn_fresh n). by eapply (lk_drawn _ _ (wf_linked _ _ Hw)).
  - intros Htree k p sc psc' Hk Hpk Hps Hc. cbn in *.
    pose proof (no_orphans_set_remaining st parent psc
                  (subtract (sc_remaining psc) request) (Ht Htree) Hp) as Ht1.
    apply lookup_insert_Some in Hk as [[<- <-]|[? Hk]].
    + cbn in Hpk. injection Hpk as <-.
      apply lookup_insert_Some in Hps as [[Heq Hps]|[? Hps]]; [by subst|].
      rewrite lookup_insert_eq in Hps. injection Hps as <-. cbn in Hc. congruence.
    + apply lookup_insert_Some in Hps as [[<- <-]|[? Hps]]; [done|].
      by eapply (Ht1 k p).
Qed.

Lemma keeps_close r usage : keeps R tree (close_locked r usage).
Proof.
  intros st n Hi. pose proof Hi as [Hw _ Ht]. unfold wp.
  destruct (close_locked_linked st n r usage (wf_linked _ _ Hw))
    as [(k & sc & p & psc & Hr & Hk & Hopen & Hp & Hne & Hpp & Hno & ->)|[[_ ->]|
        (? & ? & ? & _ & _ & _ & ->)]]; try (split_and!; [done|lia|done]).
  split_and!; [|lia|done]. split.
  - by eapply wf_closed.
  - eapply fate_keeps; [done|lia|..]; cbn.
    + intros r' k' _ Hk'. by split_lookup.
    + intros k' sc' Hk'. destruct (decide (k' = p)) as [->|];
        [rewrite lookup_insert_eq; simplify_eq; eauto|rewrite lookup_insert_ne by done].
      destruct (decide (k' = k)) as [->|];
        [rewrite lookup_insert_eq; simplify_eq; eauto|rewrite lookup_insert_ne by done; eauto].
  - intros Htree%Ht x q xsc qsc Hx Hq Hqs Hc.
    assert (Hxo : sc_closed xsc = true ∨ scopes st !! x = Some xsc ∨
                  (x = p ∧ xsc = set_remaining psc (add (sc_remaining psc) (returned_of sc usage)))).
    { cbn in Hx. split_lookup; eauto. }
    destruct (sc_closed xsc) eqn:Hxc; [done|]. exfalso.
    assert (Hx0 : ∃ xsc0, scopes st !! x = Some xsc0 ∧ sc_closed xsc0 = false
                          ∧ parent_of xsc0 = Some q).
    { destruct Hxo as [|[|[-> ->]]]; [done|eauto|]. eauto. }
    destruct Hx0 as (xsc0 & Hx0 & Hxc0 & Hq0). cbn in Hqs. split_lookup.
    + by specialize (Htree x q xsc0 psc Hx0 Hq0 Hpp Hc); congruence.
    + specialize (Hno x xsc0 Hx0). apply not_true_iff_false in Hno. apply Hno.
      by apply open_child_of_true.
    + by specialize (Htree x q xsc0 qsc Hx0 Hq0 Hqs Hc); congruence.
Qed.

Lemma keeps_transfer child parent usage :
  tree = false → keeps R tree (transfer_locked child parent usage).
Proof.
  intros Hf st n Hi. pose proof Hi as [Hw _ Ht]. unfold wp.
  destruct (transfer_locked_linked st n child parent usage (wf_linked _ _ Hw))
    as [(k & q & sc & qsc & Htr & Hc & Hp & Hk & Hkc & Hq & Hqc & Hne & Hpar & ->)|[
        (rc & _ & _ & ->)|(e & ->)]]; try (split_and!; [done|lia|done]).
  split_and!; [|lia|done]. split; [by apply wf_transferred| |congruence].
  eapply fate_keeps; [done|lia|..]; cbn.
  - intros r' k' _ Hk'. by split_lookup.
  - intros k' sc' Hk'. destruct (decide (k' = q)) as [->|];
      [rewrite lookup_insert_eq; simplify_eq; eauto|rewrite lookup_insert_ne by done].
    destruct (decide (k' = k)) as [->|];
      [rewrite lookup_insert_eq; simplify_eq; eauto|rewrite lookup_insert_ne by done; eauto].
Qed.

End Keeps.

#[export] Hint Resolve keeps_ret keeps_throw keeps_get keeps_bind keeps_ignore keeps_ok_or
  keeps_for_each keeps_create_root keeps_reserve_child keeps_close keeps_index
  keeps_chain_delete : aletheon.

(** ** Walking the scope forest *)

Section Forest.
Context `{HEnv : Env} {HOk : EnvOk} (st : BudgetState) (n : N) (Hl : linked st n).

Lemma accepts_child_rank a b :
  BudgetScopeKind.accepts_child a b = true → kind_rank b = S (kind_rank a).
Proof. by destruct a, b. Qed.

Lemma child_rank k sc p :
  scopes st !! k = Some sc → parent_of sc = Some p →
  ∃ psc, scopes st !! p = Some psc ∧ kind_rank (kind_of sc) = S (kind_rank (kind_of psc)).
Proof.
  intros Hk Hp. destruct (lk_child _ _ Hl _ _ _ Hk Hp) as (psc & ? & Hps & Ha & _).
  eauto using accepts_child_rank.
Qed.

Lemma below_rank p x psc xsc :
  below st p x → scopes st !! p = Some psc → scopes st !! x = Some xsc →
  (kind_rank (kind_of psc) < kind_rank (kind_of xsc))%nat.
Proof.
  intros Hb Hp. revert xsc. induction Hb as [x sc Hx Hpar|x sc y Hx Hpar Hb IH]; intros xsc Hx'.
  - simplify_eq. destruct (child_rank _ _ _ Hx Hpar) as (? & ? & ->). simplify_eq. lia.
  - simplify_eq. destruct (child_rank _ _ _ Hx Hpar) as (ysc & Hy & ->).
    specialize (IH _ Hy). lia.
Qed.

(** Two siblings have no common descendant. *)
Lemma below_siblings c1 c2 p sc1 sc2 x :
  scopes st !! c1 = Some sc1 → scopes st !! c2 = Some sc2 →
  parent_of sc1 = Some p → parent_of sc2 = Some p →
  below st c1 x → below st c2 x → c1 = c2.
Proof.
  intros H1 H2 Hp1 Hp2.
  destruct (child_rank _ _ _ H1 Hp1) as (psc & Hp & Hr1).
  destruct (child_rank _ _ _ H2 Hp2) as (psc' & Hp' & Hr2). simplify_eq.
  assert (Hno : ∀ a asc b bsc, scopes st !! a = Some asc → scopes st !! b = Some bsc →
            kind_rank (kind_of asc) = kind_rank (kind_of bsc) → ¬ below st a b).
  { intros a asc b bsc Ha Hb Heq Hbe. pose proof (below_rank _ _ _ _ Hbe Ha Hb). lia. }
  induction 1 as [x sc Hx Hpar|x sc y Hx Hpar Hb IH]; intros Hb2.
  - inversion Hb2 as [? sc' Hx' Hpar'|? sc' y Hx' Hpar' Hb']; simplify_eq; [done|].
    exfalso. eapply Hno; [exact H2|exact H1|congruence|done].
  - inversion Hb2 as [? sc' Hx' Hpar'|? sc' y' Hx' Hpar' Hb']; simplify_eq; [|auto].
    exfalso. eapply Hno; [exact H1|exact H2|congruence|done].
Qed.

Lemma elem_of_children_at i p c :
  c ∈ children_at st i p ↔ ∃ csc, scopes st !! c = Some csc ∧ open_child_of p csc = true.
Proof.
  unfold children_at. rewrite list_elem_of_fmap. split.
  - intros (sc & -> & [Ho Hv]%list_elem_of_filter).
    apply elem_of_hash_values in Hv as [k Hk]. rewrite (lk_id _ _ Hl _ _ Hk). eauto.
  - intros (csc & Hc & Ho). exists csc. split; [by rewrite (lk_id _ _ Hl _ _ Hc)|].
    apply list_elem_of_filter. split; [done|]. apply elem_of_hash_values. eauto.
Qed.

Lemma NoDup_children_at i p : NoDup (children_at st i p).
Proof.
  unfold children_at. eapply sublist_NoDup; [|apply fmap_sublist, sublist_filter].
  unfold hash_values. rewrite hash_order_perm.
  replace ((λ sc, bs_id (sc_view sc)) <$> (map_to_list (scopes st)).*2)
    with (map_to_list (scopes st)).*1; [apply NoDup_fst_map_to_list|].
  rewrite <- list_fmap_compose. apply list_fmap_ext. intros j [k sc] Hj. cbn.
  symmetry. apply (lk_id _ _ Hl), elem_of_map_to_list. by eapply list_elem_of_lookup_2.
Qed.

Lemma closable_nil : closable st [].
Proof using st. split; [constructor|]. intros l1 x l2 Heq. by destruct l1. Qed.

Lemma closable_app l1 l2 :
  closable st l1 → closable st l2 → (∀ x, x ∈ l1 → x ∉ l2) → closable st (l1 ++ l2).
Proof using st.
  intros [Hn1 H1] [Hn2 H2] Hdis. split; [by apply NoDup_app|].
  intros l x l' Heq. apply app_eq_inv in Heq as [(k & -> & Hk)|(k & -> & ->)].
  - destruct k as [|y k]; cbn in Hk.
    + destruct (H2 [] x l') as (sc & r & ? & ? & ? & Hc); [done|].
      exists sc, r. split_and!; try done. intros c csc Hcs Ho.
      by apply (Hc _ _ Hcs) in Ho; apply not_elem_of_nil in Ho.
    + injection Hk as <- ->. destruct (H1 l x k) as (sc & r & ? & ? & ? & Hc); [done|].
      exists sc, r. by split_and!.
  - destruct (H2 k x l') as (sc & r & ? & ? & ? & Hc); [done|].
    exists sc, r. split_and!; try done. intros c csc Hcs Ho. apply elem_of_app. right. eauto.
Qed.

Lemma closable_snoc l x sc r :
  closable st l → x ∉ l → scopes st !! x = Some sc → sc_closed sc = false →
  sc_reservation_id sc = Some r →
  (∀ c csc, scopes st !! c = Some csc → open_child_of x csc = true → c ∈ l) →
  closable st (l ++ [x]).
Proof using st.
  intros [Hn Hc] Hx Hsc Hopen Hr Hch. split.
  - apply NoDup_app. split_and!; [done| |apply NoDup_singleton].
    intros y Hy Heq%list_elem_of_singleton. by subst.
  - intros l1 y l2 Heq. destruct (rev_case l2) as [->|(l2' & z & ->)].
    + apply app_inj_tail in Heq as [<- <-]. eauto 10.
    + rewrite app_comm_cons, app_assoc in Heq. apply app_inj_tail in Heq as [-> _].
      by apply (Hc l1 y l2').
Qed.

(** One level of the recursion, given that the recursion is right on each child. *)
Lemma descend_children (rec : BudgetScopeId → option (list BudgetScopeId)) p cs :
  NoDup cs →
  (∀ c, c ∈ cs → ∃ csc, scopes st !! c = Some csc ∧ open_child_of p csc = true) →
  (∀ c, c ∈ cs → ∃ L, rec c = Some L ∧ (∀ x, x ∈ L → below st c x) ∧ closable st L
     ∧ ∀ x xsc, scopes st !! x = Some xsc → open_child_of c xsc = true → x ∈ L) →
  ∃ lls, mapM (λ c, (λ sub, sub ++ [c]) <$> rec c) cs = Some lls
    ∧ (∀ x, x ∈ mjoin lls → ∃ c, c ∈ cs ∧ (x = c ∨ below st c x))
    ∧ closable st (mjoin lls) ∧ ∀ c, c ∈ cs → c ∈ mjoin lls.
Proof.
  induction cs as [|c cs IH]; intros Hnd Hch Hrec.
  { exists []. split_and!; [done|set_solver|apply closable_nil|set_solver]. }
  apply NoDup_cons in Hnd as [Hc Hnd].
  destruct IH as (lls & Hm & Hbel & Hclos & Hin); [done|set_solver|intros; apply Hrec; set_solver|].
  destruct (Hrec c) as (L & HL & HbL & HcL & HchL); [set_solver|].
  destruct (Hch c) as (csc & Hcs & [Hopen Hp]%open_child_of_true); [set_solver|].
  destruct (lk_child _ _ Hl _ _ _ Hcs Hp) as (psc & r & _ & _ & Hr).
  exists ((L ++ [c]) :: lls). cbn. rewrite HL. cbn. rewrite Hm. cbn. split_and!; [done| | |].
  - intros x. rewrite elem_of_app. intros [[Hx|Hx%list_elem_of_singleton]%elem_of_app|Hx].
    + exists c. split; [set_solver|auto].
    + exists c. set_solver.
    + destruct (Hbel x Hx) as (c' & ? & ?). exists c'. set_solver.
  - assert (HcnL : c ∉ L).
    { intros HcL'%HbL. pose proof (below_rank _ _ _ _ HcL' Hcs Hcs). lia. }
    apply closable_app; [by eapply closable_snoc|done|].
    intros x Hx Hx'. destruct (Hbel x Hx') as (c' & Hc' & Hxc').
    destruct (Hch c') as (csc' & Hcs' & [_ Hp']%open_child_of_true); [set_solver|].
    assert (Hne : c ≠ c') by congruence.
    destruct (child_rank _ _ _ Hcs Hp) as (q1 & Hq1 & Hk1).
    destruct (child_rank _ _ _ Hcs' Hp') as (q2 & Hq2 & Hk2).
    assert (Hrank : kind_rank (kind_of csc) = kind_rank (kind_of csc')) by congruence.
    apply elem_of_app in Hx as [Hx%HbL|Hx%list_elem_of_singleton]; destruct Hxc' as [Hxc'|Hb']; subst.
    + pose proof (below_rank _ _ _ _ Hx Hcs Hcs'). lia.
    + apply Hne. by eapply below_siblings.
    + done.
    + pose proof (below_rank _ _ _ _ Hb' Hcs' Hcs). lia.
  - intros c'. rewrite elem_of_cons, !elem_of_app, list_elem_of_singleton.
    intros [->|Hc']; [auto|]. right. by apply Hin.
Qed.

(** The recursion needs no more stack than the kinds below the scope's own. *)
Lemma descendants_ok i fuel : ∀ p psc,
  scopes st !! p = Some psc → (4 ≤ kind_rank (kind_of psc) + fuel)%nat →
  ∃ L, descendants_post_order fuel i st p = Some L ∧ (∀ x, x ∈ L → below st p x)
    ∧ closable st L ∧ ∀ c csc, scopes st !! c = Some csc → open_child_of p csc = true → c ∈ L.
Proof.
  induction fuel as [|fuel IH]; intros p psc Hp Hf.
  { destruct (kind_of psc); cbn in Hf; lia. }
  destruct (descend_children (descendants_post_order fuel i st) p (children_at st i p))
    as (lls & Hm & Hbel & Hclos & Hin).
  - apply NoDup_children_at.
  - intros c Hc. by apply elem_of_children_at in Hc.
  - intros c (csc & Hcs & [_ Hpar]%open_child_of_true)%elem_of_children_at.
    apply (IH c csc Hcs). destruct (child_rank _ _ _ Hcs Hpar) as (? & ? & Hk).
    simplify_eq. lia.
  - exists (mjoin lls). cbn. unfold children_at in Hm. rewrite Hm. cbn. split_and!; [done| |done|].
    + intros x Hx. destruct (Hbel x Hx) as (c & Hc & Hx').
      apply elem_of_children_at in Hc as (csc & Hcs & [_ Hpar]%open_child_of_true).
      destruct Hx' as [->|Hb]; [by eapply below_child|].
      clear -Hb Hcs Hpar. induction Hb as [x sc Hx Hp|x sc y Hx Hp Hb IH].
      * eapply below_step; [done|done|]. by eapply below_child.
      * by eapply below_step.
    + intros c csc Hcs Ho. apply Hin, elem_of_children_at. eauto.
Qed.

End Forest.

(** ** Revoking a subtree *)

Section RevokeTree.
Context `{HEnv : Env} {HOk : EnvOk} (R : Fate) (tree : bool).

Lemma same_forest_lookup st st' x sc :
  same_forest st st' → scopes st !! x = Some sc →
  ∃ sc', scopes st' !! x = Some sc' ∧ sc_view sc' = sc_view sc
         ∧ sc_reservation_id sc' = sc_reservation_id sc.
Proof.
  intros Hs Hx. specialize (Hs x). rewrite Hx in Hs.
  destruct (scopes st' !! x) as [sc'|]; cbn in Hs; [|done]. exists sc'. split_and!; congruence.
Qed.

Lemma same_forest_below st st' s x : same_forest st st' → below st s x → below st' s x.
Proof.
  intros Hs. induction 1 as [x sc Hx Hp|x sc y Hx Hp Hb IH];
    destruct (same_forest_lookup _ _ _ _ Hs Hx) as (sc' & Hx' & Hv & _).
  - eapply below_child; [done|]. unfold parent_of in *. congruence.
  - eapply below_step; [done| |done]. unfold parent_of in *. congruence.
Qed.

Lemma same_forest_closed st r k p sc psc v :
  scopes st !! k = Some sc → scopes st !! p = Some psc → p ≠ k →
  same_forest st (closed_state st r k p sc psc v).
Proof.
  intros Hk Hp Hne x. cbn. rewrite !lookup_insert. repeat case_decide; subst; try done.
  - by rewrite Hp.
  - by rewrite Hk.
Qed.

Lemma closed_state_closed st r k p sc psc v x :
  scopes st !! p = Some psc → p ≠ k → x ≠ k →
  sc_closed <$> scopes (closed_state st r k p sc psc v) !! x = sc_closed <$> scopes st !! x.
Proof.
  intros Hp Hne Hx. cbn. destruct (decide (x = p)) as [->|Hxp].
  - by rewrite lookup_insert_eq, Hp.
  - by rewrite !lookup_insert_ne.
Qed.

(** The first scope of a closable list closes, and the rest stays closable. *)
Lemma revoke_one_closable st n x l :
  inv R tree st n → closable st (x :: l) →
  ∃ sc p psc r, scopes st !! x = Some sc ∧ parent_of sc = Some p ∧ p ≠ x
    ∧ scopes st !! p = Some psc ∧ sc_reservation_id sc = Some r
    ∧ let st' := closed_state st r x p sc psc (from_request (limit_of sc)) in
      revoke_one x st n = (Ok tt, st', n) ∧ inv R tree st' n ∧ closable st' l.
Proof.
  intros Hi [Hnd Hc]. apply NoDup_cons in Hnd as [Hxl Hnd].
  destruct (Hc [] x l eq_refl) as (sc & r & Hx & Hopen & Hr & Hch).
  pose proof (wf_linked _ _ (inv_wf _ _ _ _ Hi)) as Hl.
  pose proof (linked_open_live _ _ _ _ _ Hl Hx Hopen Hr) as Hlive.
  pose proof (keeps_close R tree r None st n Hi) as Hkeep. unfold wp in Hkeep.
  destruct (close_locked_linked st n r None Hl)
    as [(k & sc' & p & psc & Hk & Hks & _ & Hp & Hne & Hpp & Hno & Heq)|[[? _]|
        (k & k' & sc' & Hk & Hk' & Ho & _)]]; simplify_eq.
  - rewrite Heq in Hkeep. destruct Hkeep as (Hi' & _ & _).
    exists sc, p, psc, r. do 5 (split; [done|]). cbv zeta. split_and!; [|done|].
    + unfold revoke_one, mbind, M_bind, get_state, reservation_of. cbn. rewrite Hx. cbn.
      rewrite Hr. exact Heq.
    + split; [done|]. intros l1 y l2 ->.
      destruct (Hc (x :: l1) y l2 eq_refl) as (ysc & yr & Hy & Hyo & Hyr & Hyc).
      assert (Hyk : y ≠ x) by set_solver.
      destruct (same_forest_lookup _ _ _ _ (same_forest_closed st r x p sc psc
                  (from_request (limit_of sc)) Hx Hpp Hne) Hy) as (ysc' & Hy' & _ & Hr').
      exists ysc', yr. split_and!; [done| |congruence|].
      * pose proof (closed_state_closed st r x p sc psc (from_request (limit_of sc)) y Hpp Hne Hyk)
          as Hcl. rewrite Hy', Hy in Hcl. cbn in Hcl. congruence.
      * intros c csc Hcs [Hco Hcp]%open_child_of_true.
        assert (Hck : c ≠ x). { intros ->. cbn in Hcs. rewrite lookup_insert_ne in Hcs by done.
          rewrite lookup_insert_eq in Hcs. by simplify_eq. }
        pose proof (closed_state_closed st r x p sc psc (from_request (limit_of sc)) c Hpp Hne Hck)
          as Hcl. pose proof (same_forest_closed st r x p sc psc
                  (from_request (limit_of sc)) Hx Hpp Hne c) as Hsf.
        rewrite Hcs in Hcl, Hsf. destruct (scopes st !! c) as [csc0|] eqn:Hc0; [|done].
        cbn in Hcl, Hsf. specialize (Hyc c csc0 Hc0).
        rewrite elem_of_cons in Hyc. destruct Hyc as [|?]; [|done|done].
        apply open_child_of_true. unfold parent_of in *. split; congruence.
  - exfalso. apply (not_elem_of_nil k'). by eapply Hch.
Qed.

Lemma revoke_loop s l : ∀ st n,
  inv R tree st n → closable st l → (∀ x, x ∈ l → below st s x) →
  ∃ st', for_each l revoke_one st n = (Ok tt, st', n) ∧ inv R tree st' n ∧ same_forest st st'
    ∧ (∀ x, x ∈ l → sc_closed <$> scopes st' !! x = Some true)
    ∧ (∀ x, x ∉ l → sc_closed <$> scopes st' !! x = sc_closed <$> scopes st !! x)
    ∧ (∀ x, x ≠ s → ¬ below st s x → scopes st' !! x = scopes st !! x).
Proof.
  induction l as [|x l IH]; intros st n Hi Hc Hb.
  { exists st. split_and!; try done. set_solver. }
  destruct (revoke_one_closable st n x l Hi Hc)
    as (sc & p & psc & r & Hx & Hp & Hne & Hpp & _ & Heq & Hi' & Hc').
  set (st1 := closed_state st r x p sc psc (from_request (limit_of sc))) in *.
  pose proof (same_forest_closed st r x p sc psc (from_request (limit_of sc)) Hx Hpp Hne) as Hsf.
  fold st1 in Hsf.
  assert (Hsf' : same_forest st1 st) by (intros y; symmetry; apply Hsf).
  destruct (IH st1 n Hi' Hc') as (st' & Hloop & Hi2 & Hsf2 & Hin & Hout & Hoth).
  { intros y Hy. eapply same_forest_below; [done|]. apply Hb. set_solver. }
  assert (Hxl : x ∉ l) by (destruct Hc as [Hnd _]; by apply NoDup_cons in Hnd as [? _]).
  assert (Hx1 : sc_closed <$> scopes st1 !! x = Some true).
  { cbn. rewrite lookup_insert_ne by done. by rewrite lookup_insert_eq. }
  exists st'. split_and!; try done.
  - cbn. unfold mbind, M_bind. by rewrite Heq.
  - intros y. by rewrite (Hsf2 y).
  - intros y [->|Hy]%elem_of_cons; [|auto]. by rewrite Hout.
  - intros y [Hyx Hyl]%not_elem_of_cons. rewrite Hout by done.
    by apply closed_state_closed.
  - intros y Hys Hyb. rewrite Hoth; [|done|].
    2: { intros Hyb'. apply Hyb. by eapply same_forest_below. }
    assert (Hbx : below st s x) by (apply Hb; set_solver).
    assert (y ≠ x) by congruence.
    assert (y ≠ p). { intros ->. inversion Hbx as [? sc' Hx' Hp'|? sc' z Hx' Hp' Hz]; simplify_eq; done. }
    cbn. by rewrite !lookup_insert_ne.
Qed.

End RevokeTree.

(** ** What the walk covers *)

Section Walk.
Context `{HEnv : Env} {HOk : EnvOk}.

(** Without orphans, every scope below [s] is walked or closed already. *)
Lemma below_in_walk st s L :
  no_orphans st → closable st L →
  (∀ c csc, scopes st !! c = Some csc → open_child_of s csc = true → c ∈ L) →
  ∀ x, below st s x → x ∈ L ∨ sc_closed <$> scopes st !! x = Some true.
Proof.
  intros Ht [_ Hc] Hch. induction 1 as [x sc Hx Hp|x sc y Hx Hp Hb IH]; rewrite Hx; cbn;
    (destruct (sc_closed sc) eqn:Hxc; [by right|left]).
  - eapply Hch; [done|]. by apply open_child_of_true.
  - destruct IH as [Hy|Hy].
    + apply list_elem_of_split in Hy as (l1 & l2 & ->).
      destruct (Hc l1 y l2 eq_refl) as (? & ? & _ & _ & _ & Hyc).
      apply elem_of_app. left. eapply Hyc; [done|]. by apply open_child_of_true.
    + apply fmap_Some in Hy as (ysc & Hy & Hyc).
      specialize (Ht x y sc ysc Hx Hp Hy (eq_sym Hyc)). congruence.
Qed.

Lemma revoke_walk st n s sc :
  wf st n → no_orphans st → scopes st !! s = Some sc → sc_closed sc = false →
  ∃ L st1, descendants_post_order stack_depth n st s = Some L ∧ s ∉ L
    ∧ for_each L revoke_one st (n + 1) = (Ok tt, st1, n + 1)
    ∧ inv no_fate true st1 (n + 1) ∧ same_forest st st1
    ∧ (∀ x, below st s x → sc_closed <$> scopes st1 !! x = Some true)
    ∧ sc_closed <$> scopes st1 !! s = Some false
    ∧ (∀ x, x ≠ s → ¬ below st s x → scopes st1 !! x = scopes st !! x).
Proof.
  intros Hw Ht Hs Hopen. pose proof (wf_linked _ _ Hw) as Hl.
  assert (Hi : inv no_fate true st (n + 1)).
  { split; [|done|done]. eapply wf_mono; [|done]. lia. }
  destruct (descendants_ok st n Hl n stack_depth s sc Hs) as (L & HL & HLb & HLc & HLch);
    [unfold stack_depth; lia|].
  destruct (revoke_loop _ _ s L st (n + 1) Hi HLc HLb)
    as (st1 & Hloop & Hi1 & Hsf & Hin & Hout & Hoth).
  assert (HsL : s ∉ L).
  { intros HsL%HLb. pose proof (below_rank st n Hl _ _ _ _ HsL Hs Hs). lia. }
  exists L, st1. split_and!; try done.
  - intros x Hx. destruct (below_in_walk st s L Ht HLc HLch x Hx) as [?|Hxc]; [auto|].
    destruct (decide (x ∈ L)); [auto|]. by rewrite Hout.
  - rewrite Hout, Hs by done. cbn. by rewrite Hopen.
Qed.

End Walk.

(** ** The remaining operations and runs *)

Section Runs.
Context `{HEnv : Env} {HOk : EnvOk} (R : Fate) (tree : bool).

Lemma unlimited_u64 : u64_request unlimited.
Proof. by intros []. Qed.

Lemma keeps_revoke_one x : keeps R tree (revoke_one x).
Proof.
  apply keeps_bind; [apply keeps_get|]. intros st.
  destruct (reservation_of st x); auto with aletheon.
Qed.

Lemma keeps_revoke_scope_tree s : keeps R tree (revoke_scope_tree s).
Proof.
  intros st n Hi. unfold revoke_scope_tree. apply wp_bind. wp_step.
  destruct (scopes st !! s) as [sc|] eqn:Hs; [|by apply keeps_ret].
  destruct (sc_closed sc); [by apply keeps_ret|]. apply wp_bind. wp_step.
  destruct (descendants_ok st n (wf_linked _ _ (inv_wf _ _ _ _ Hi)) n stack_depth s sc Hs)
    as (L & HL & _); [unfold stack_depth; lia|].
  rewrite HL. cbn. apply wp_bind, wp_ret. eapply wp_mono.
  - apply (keeps_for_each R tree _ revoke_one (keeps_revoke_one)).
    eapply inv_mono; [|done]. lia.
  - cbn. intros r st' n' (? & ? & ?). split_and!; [done|lia|done].
Qed.

Lemma keeps_reserve_capability op permit request :
  u64_request request → keeps R tree (reserve_capability_for_operation op permit request).
Proof. intros. apply keeps_bind; auto 10 with aletheon. Qed.

Lemma keeps_set_budget principal t c :
  u64_request {| max_tokens := t; max_cost_micro := c |} → keeps R tree (set_budget principal t c).
Proof. intros. apply keeps_bind; auto 10 with aletheon. Qed.

Lemma keeps_principal_root principal : keeps R tree (principal_root principal).
Proof.
  apply keeps_bind; [auto 10 with aletheon|]. intros st.
  destruct (principal_roots st !! principal); auto 10 using unlimited_u64 with aletheon.
Qed.

Lemma keeps_reserve principal request : u64_request request → keeps R tree (reserve principal request).
Proof.
  intros. apply keeps_bind; [apply keeps_principal_root|intros root].
  do 2 (apply keeps_bind; [by apply keeps_reserve_child|intros ?]).
  intros st n Hi. apply wp_bind. unfold wp at 1.
  pose proof (keeps_reserve_child R tree (br_scope_id a0) BudgetScopeKind.Capability
    ("compat-capability:" ++ principal) request) as Hk.
  specialize (Hk ltac:(done) st n Hi). unfold wp in Hk.
  destruct (reserve_child_locked_cases st n (br_scope_id a0) BudgetScopeKind.Capability
    ("compat-capability:" ++ principal) request) as [(psc & _ & _ & _ & _ & Heq)|Heq];
    rewrite Heq in Hk |- *; destruct Hk as (Hi' & Hn & _); [|by split_and!].
  apply wp_bind, wp_modify, wp_ret. split_and!; [|done|done].
  apply inv_chain_insert; [done|done|]. cbn. apply drawn_here. lia.
Qed.

Lemma keeps_close_legacy r usage : keeps R tree (close_legacy r usage).
Proof.
  apply keeps_bind; [auto 10 with aletheon|]. intros st.
  destruct (legacy_chains st !! r); auto 10 with aletheon.
Qed.

(** Persisting leaves the memory alone; it succeeds only if the file holds it. *)
Lemma wp_persist (Q : Result AdmissionError.t unit → Controller → N → Prop) c n :
  (∀ r d n', n ≤ n' →
     match r with
     | Ok _ => d = if ct_durable c then Some (ct_state c) else ct_disk c
     | Err _ => True
     | Panic => False
     end → Q r (set_disk d c) n') →
  wp persist Q c n.
Proof.
  intros HQ. assert (Hc : c = set_disk (ct_disk c) c) by by destruct c.
  unfold persist. do 2 wp_step. cbv beta iota. destruct (ct_durable c).
  - do 2 wp_step. cbv beta iota.
    destruct (persist_io n); wp_steps; try (apply HQ; [lia|done]).
    rewrite Hc. apply HQ; [lia|done].
  - wp_step. rewrite Hc. apply HQ; [lia|by destruct c].
Qed.

(** A call whose locked part keeps the invariant keeps it, whatever the disk does. *)
Lemma wp_locked {A} (m : M BudgetState AdmissionError.t A) c n Q :
  keeps R tree m → inv R tree (ct_state c) n →
  (∀ r st' n', inv R tree st' n' → n ≤ n' → r ≠ Panic → Q r (set_state st' c) n') →
  wp (locked m) Q c n.
Proof.
  intros Hm Hi HQ. apply wp_zoom. eapply wp_mono; [by apply Hm|].
  intros r st' n' (? & ? & ?). by apply HQ.
Qed.

Lemma wp_persist_or_restore before c n Q :
  (∀ r d st' n', n ≤ n' →
     match r with
     | Ok _ => st' = ct_state c ∧ d = if ct_durable c then Some (ct_state c) else ct_disk c
     | Err _ => st' = before
     | Panic => False
     end → Q r (set_disk d (set_state st' c)) n') →
  wp (persist_or_restore before) Q c n.
Proof.
  intros HQ. unfold persist_or_restore. do 2 wp_step. apply wp_persist.
  intros [[]|e|] d n' Hn Hr; [| |done]; wp_steps.
  - replace (set_disk d c) with (set_disk d (set_state (ct_state c) c)) by by destruct c. auto.
  - replace (set_state before (set_disk d c)) with (set_disk d (set_state before c))
      by by destruct c. auto.
Qed.

Lemma run_call_keeps call c n :
  inv R tree (ct_state c) n → u64_request (call_request call) →
  (is_transfer call = true → tree = false) →
  wp (run_call call) (λ _ c' n', inv R tree (ct_state c') n' ∧ n ≤ n') c n.
Proof.
  intros Hi Hu Ht.
  assert (Hvoid : ∀ A (m : M Controller AdmissionError.t A),
            wp m (λ _ c' n', inv R tree (ct_state c') n' ∧ n ≤ n') c n →
            wp (void m) (λ _ c' n', inv R tree (ct_state c') n' ∧ n ≤ n') c n).
  { intros A m Hm. apply wp_bind. eapply wp_mono; [done|]. intros [a|e|] c' n'; auto. }
  assert (Hrestore : ∀ st' n' c' k, inv R tree st' n' → n ≤ n' → c' = set_state st' c →
            k = ct_state c →
            wp (persist_or_restore k) (λ _ c' n', inv R tree (ct_state c') n' ∧ n ≤ n') c' n').
  { intros st' n' c' k Hi' Hn -> ->. apply wp_persist_or_restore.
    intros [[]|e|] d st'' n'' Hn'' Hr; [destruct Hr as [-> _]|subst|done]; cbn; (split; [|lia]).
    - eapply inv_mono; [|exact Hi']. lia.
    - eapply inv_mono; [|exact Hi]. lia. }
  destruct call; cbn [run_call call_request is_transfer] in *; try apply Hvoid;
    try (eapply wp_locked; [|done|done];
         auto using keeps_revoke_scope_tree, keeps_reserve_capability, keeps_set_budget,
           keeps_reserve, keeps_close_legacy, keeps_index).
  - apply wp_bind. eapply wp_locked; [by apply keeps_create_root|done|].
    intros [id|e|] st' n' Hi' Hn _; try done. do 2 wp_step. apply wp_persist.
    intros [[]|e|] d k Hk Hr; try done; wp_step; cbn;
      (split; [eapply inv_mono; [|done]; lia|lia]).
  - apply wp_bind. wp_step. apply wp_bind. eapply wp_locked; [by apply keeps_reserve_child|done|].
    intros [receipt|e|] st' n' Hi' Hn _; try done. apply wp_bind.
    eapply wp_mono; [by eapply (Hrestore st')|]. intros [[]|e|] c' k; auto.
  - apply wp_bind. wp_step. apply wp_bind. eapply wp_locked; [by apply keeps_close|done|].
    intros [[]|e|] st' n' Hi' Hn _; try done. by eapply (Hrestore st').
  - apply wp_bind. wp_step. apply wp_bind. eapply wp_locked; [by apply keeps_close|done|].
    intros [[]|e|] st' n' Hi' Hn _; try done. by eapply (Hrestore st').
  - apply wp_bind. wp_step. apply wp_bind.
    eapply wp_locked; [by apply keeps_transfer, Ht|done|].
    intros [[replay receipt]|e|] st' n' Hi' Hn _; try done. destruct replay; [done|].
    apply wp_bind. eapply wp_mono; [by eapply (Hrestore st')|]. intros [[]|e|] c' k; auto.
  - by apply keeps_index.
  - apply keeps_close_legacy.
  - apply keeps_close_legacy.
Qed.

Lemma run_calls_keeps calls : ∀ c n,
  inv R tree (ct_state c) n → Forall (λ call, u64_request (call_request call)) calls →
  Forall (λ call, is_transfer call = true → tree = false) calls →
  inv R tree (ct_state (run_calls calls c n).1) (run_calls calls c n).2.
Proof.
  induction calls as [|call calls IH]; intros c n Hi Hu Ht; [done|].
  apply Forall_cons in Hu as [Hu Hus]. apply Forall_cons in Ht as [Ht Hts]. cbn.
  pose proof (run_call_keeps call c n Hi Hu Ht) as Hk. unfold wp in Hk.
  destruct (run_call call c n) as [[r c'] n']. destruct Hk as [Hi' _]. by apply IH.
Qed.

End Runs.
