(* ===== verification/BudgetSpec.v ===== *)
(** * The budget controller: properties

    Conservation over every run, exactly-once settlement, revocation of whole
    subtrees, durability with rollback, transfers, and the principal adapter. *)
From S2P Require Import Prelude FabricTypes Budget BudgetInv.

(** What a durable method promises: after a success, reopening the file yields
    this very controller; after a failure the memory is unchanged. *)
Definition durable_outcome {A} (c : Controller) (o : Result AdmissionError.t A * Controller * N)
    : Prop :=
  match o with
  | (Ok _, c', _) => open_durable (read_back c') = Ok c'
  | (Err _, c', _) => ct_state c' = ct_state c
  | (Panic, _, _) => False
  end.

(** The capacity a scope can still hand out or spend, in one dimension. *)
Definition spendable (d : Dim) (st : BudgetState) (k : BudgetScopeId) : option N :=
  sc ← scopes st !! k; if sc_closed sc then None else am_dim d (sc_remaining sc).

(** The example used by the witnesses: a rollout of 100 tokens with two process
    scopes of 50 and an operation scope of 50 below the first. *)
Definition lim (t : N) : BudgetRequest := {| max_tokens := Some t; max_cost_micro := None |}.

Definition used (t : N) : UsageReport :=
  {| ur_permit_id := 0; ur_tokens_used := t; ur_cost_micro := 0; ur_wall_time_ms := 0;
     ur_output_bytes := 0; ur_exit_code := None |}.

Definition sample_calls_below (a : BudgetScopeId) : list BudgetCall :=
  [CreateRoot "rollout" (lim 100);
   ReserveChild 1 BudgetScopeKind.Process "a" (lim 50);
   ReserveChild 1 BudgetScopeKind.Process "b" (lim 50);
   ReserveChild a BudgetScopeKind.Operation "op" (lim 50)].

Definition sample_calls : list BudgetCall := sample_calls_below 2.

(** On a durable controller every call also draws an I/O outcome, so the scope
    [a] has another identifier. *)
Definition durable_calls : list BudgetCall := sample_calls_below 3.

Definition durable_new : Controller :=
  {| ct_state := BudgetState_default; ct_durable := true; ct_disk := None |}.

Definition sample_run : Controller * N := run_calls (H := sample_env) sample_calls new_controller 0.

Definition sample_durable : Controller * N :=
  run_calls (H := sample_env) durable_calls durable_new 0.

(** The shared body of [settle_reservation] and [revoke_reservation]. *)
Definition close_and_persist `{Env} (r : BudgetReservationId) (usage : option UsageReport)
    : M Controller AdmissionError.t unit :=
  c ← get_state; locked (close_locked r usage) ;; persist_or_restore (ct_state c).

Section Properties.
Context `{HEnv : Env} {HOk : EnvOk}.

Lemma wf_inv st n : wf st n → inv no_fate false st n.
Proof. by split. Qed.

Lemma wf_tree_inv st n : wf st n → no_orphans st → inv no_fate true st n.
Proof. by split. Qed.

(** Settling and revoking through the controller: success closes the scope and
    has persisted it, failure leaves the memory as it was. *)
Lemma wp_close_and_persist r usage c n Q :
  wf (ct_state c) n →
  (∀ k sc p psc d n', reservations (ct_state c) !! r = Some k →
     scopes (ct_state c) !! k = Some sc → parent_of sc = Some p →
     scopes (ct_state c) !! p = Some psc → n ≤ n' →
     let st' := closed_state (ct_state c) r k p sc psc (returned_of sc usage) in
     d = (if ct_durable c then Some st' else ct_disk c) →
     Q (Ok tt) (set_disk d (set_state st' c)) n') →
  (∀ e d n', n ≤ n' → Q (Err e) (set_disk d c) n') →
  wp (close_and_persist r usage) Q c n.
Proof.
  intros Hw Hok Herr. unfold close_and_persist. do 3 wp_step. apply wp_zoom. unfold wp at 1.
  assert (Hsame : ∀ d, set_disk d (set_state (ct_state c) c) = set_disk d c)
    by (intros; by destruct c).
  assert (Hid : set_state (ct_state c) c = set_disk (ct_disk c) c) by by destruct c.
  destruct (close_locked_linked (ct_state c) n r usage (wf_linked _ _ Hw))
    as [(k & sc & p & psc & Hr & Hk & _ & Hp & _ & Hpp & _ & ->)|[[_ ->]|
        (? & ? & ? & _ & _ & _ & ->)]];
    [|rewrite Hid; apply Herr; lia..].
  apply wp_persist_or_restore. intros [[]|e|] d st' n' Hn Hres; [| |done].
  - destruct Hres as [-> ->]. cbn. by eapply Hok.
  - subst st'. cbn. replace (set_disk d _) with (set_disk d c) by by destruct c. by apply Herr.
Qed.

Lemma settled_dead r c n usage :
  reservations (ct_state c) !! r = None →
  close_and_persist r usage c n = (Err AdmissionError.AlreadySettled, c, n).
Proof.
  intros Hr. unfold close_and_persist, locked, zoom, close_locked, mbind, M_bind, get_state, ok_or.
  cbn. rewrite Hr. cbn. by destruct c.
Qed.

Lemma revoke_scope_tree_spec st n s sc :
  wf st n → no_orphans st → scopes st !! s = Some sc → sc_closed sc = false →
  ∃ st', revoke_scope_tree s st n = (Ok tt, st', n + 1) ∧ wf st' (n + 1) ∧ no_orphans st'
    ∧ same_forest st st'
    ∧ (∀ x, below st s x → sc_closed <$> scopes st' !! x = Some true)
    ∧ match parent_of sc with
      | None => sc_closed <$> scopes st' !! s = Some false
      | Some p => sc_closed <$> scopes st' !! s = Some true
          ∧ (∀ psc, scopes st !! p = Some psc → scopes st' !! p =
               Some (set_remaining psc (add (sc_remaining psc) (from_request (limit_of sc)))))
          ∧ (∀ r, sc_reservation_id sc = Some r → reservations st' !! r = None)
      end
    ∧ (∀ x, x ≠ s → Some x ≠ parent_of sc → ¬ below st s x → scopes st' !! x = scopes st !! x).
Proof.
  intros Hw Ht Hs Hopen. pose proof (wf_linked _ _ Hw) as Hl.
  destruct (revoke_walk st n s sc Hw Ht Hs Hopen)
    as (L & st1 & HL & HsL & Hloop & Hi1 & Hsf & Hin & Hs1 & Hoth).
  assert (Hrun : revoke_scope_tree s st n =
            for_each (match sc_reservation_id sc with Some _ => L ++ [s] | None => L end)
              revoke_one st (n + 1)).
  { unfold revoke_scope_tree, mbind, M_bind, get_state, tick, reservation_of.
    rewrite Hs, Hopen, HL. done. }
  destruct (parent_of sc) as [p|] eqn:Hp.
  2: { destruct (lk_root _ _ Hl _ _ Hs Hp) as (_ & Hr & _). rewrite Hr in Hrun.
       exists st1. destruct Hi1 as [? _ ?]. split_and!; try done; [congruence|auto|].
       intros x Hx _. by apply Hoth. }
  destruct (lk_child _ _ Hl _ _ _ Hs Hp) as (psc & r & Hpp & Ha & Hr). rewrite Hr in Hrun.
  destruct (same_forest_lookup _ _ _ _ Hsf Hs) as (sc1 & Hsc1 & Hv1 & Hr1).
  assert (Hopen1 : sc_closed sc1 = false) by (rewrite Hsc1 in Hs1; cbn in Hs1; congruence).
  assert (Hc1 : closable st1 [s]).
  { apply (closable_snoc st1 [] s sc1 r); [apply closable_nil|set_solver|done|done|congruence|].
    intros c csc Hc [Hco Hcp]%open_child_of_true. exfalso.
    assert (Hb : below st s c).
    { specialize (Hsf c). rewrite Hc in Hsf. destruct (scopes st !! c) as [csc0|] eqn:Hc0; [|done].
      cbn in Hsf. eapply below_child; [done|]. unfold parent_of in *. congruence. }
    apply Hin in Hb. rewrite Hc in Hb. cbn in Hb. congruence. }
  destruct (revoke_one_closable _ _ st1 (n + 1) s [] Hi1 Hc1)
    as (sc1' & p' & psc1 & r' & Hs1' & Hp1 & Hne & Hpp1 & Hr' & Heq & Hi2 & _).
  assert (sc1' = sc1) as -> by congruence.
  assert (p' = p) as -> by (unfold parent_of in *; congruence).
  assert (Hnb : ¬ below st s p).
  { intros Hb. pose proof (below_rank st n Hl _ _ _ _ Hb Hs Hpp).
    apply accepts_child_rank in Ha. lia. }
  assert (psc1 = psc) as -> by (rewrite Hoth in Hpp1; [congruence|done|done]).
  assert (r' = r) as -> by congruence.
  eexists. rewrite Hrun, for_each_app. split_and!.
  - cbn. unfold mbind, M_bind. rewrite Hloop, Heq. reflexivity.
  - apply Hi2.
  - by apply Hi2.
  - intros x. rewrite (same_forest_closed st1 r s p sc1 psc _ Hsc1 Hpp1 Hne x). apply Hsf.
  - intros x Hx. cbn. assert (x ≠ p) by congruence.
    rewrite lookup_insert_ne by done. destruct (decide (x = s)) as [->|Hxs].
    + by rewrite lookup_insert_eq.
    + rewrite lookup_insert_ne by done. auto.
  - cbn. rewrite lookup_insert_ne by done. by rewrite lookup_insert_eq.
  - intros psc' Hpp'. cbn. rewrite lookup_insert_eq. unfold limit_of. congruence.
  - intros r0 Hr0. cbn. rewrite Hr in Hr0. injection Hr0 as <-. apply lookup_delete_eq.
  - intros x Hxs Hxp Hxb. cbn. rewrite !lookup_insert_ne by congruence. by apply Hoth.
Qed.

(** A locked step followed by [persist_or_restore]. *)
Lemma wp_persisted Q c n p kind owner request :
  match reserve_child_locked p kind owner request (ct_state c) n with
  | (Ok receipt, st1, n1) =>
      ∀ (o : Result AdmissionError.t unit) d st' n', n1 ≤ n' →
        match o with
        | Ok _ => st' = st1 ∧ d = if ct_durable c then Some st1 else ct_disk c
        | Err _ => st' = ct_state c
        | Panic => False
        end →
        Q (match o with Ok _ => Ok receipt | Err e => Err e | Panic => Panic end)
          (set_disk d (set_state st' c)) n'
  | (Err e, st1, n1) => Q (Err e) (set_state st1 c) n1
  | (Panic, st1, n1) => Q Panic (set_state st1 c) n1
  end → wp (reserve_child p kind owner request) Q c n.
Proof.
  intros HQ. unfold reserve_child. do 3 wp_step. apply wp_zoom. unfold wp at 1.
  destruct (reserve_child_locked _ _ _ _ _ _) as [[[receipt|e|] st1] n1]; [|done|done].
  wp_step. apply wp_persist_or_restore. intros [[]|e|] d st' n' Hn Hres; [| |done].
  - wp_step. exact (HQ (Ok tt) d st' n' Hn Hres).
  - exact (HQ (Err e) d st' n' Hn Hres).
Qed.

Lemma wp_transferred Q c n child parent usage :
  match transfer_locked child parent usage (ct_state c) n with
  | (Ok (false, receipt), st1, n1) =>
      ∀ (o : Result AdmissionError.t unit) d st' n', n1 ≤ n' →
        match o with
        | Ok _ => st' = st1 ∧ d = if ct_durable c then Some st1 else ct_disk c
        | Err _ => st' = ct_state c
        | Panic => False
        end →
        Q (match o with Ok _ => Ok receipt | Err e => Err e | Panic => Panic end)
          (set_disk d (set_state st' c)) n'
  | (Ok (true, receipt), st1, n1) => Q (Ok receipt) (set_state st1 c) n1
  | (Err e, st1, n1) => Q (Err e) (set_state st1 c) n1
  | (Panic, st1, n1) => Q Panic (set_state st1 c) n1
  end → wp (transfer_remaining_reservation child parent usage) Q c n.
Proof.
  intros HQ. unfold transfer_remaining_reservation. do 3 wp_step. apply wp_zoom. unfold wp at 1.
  destruct (transfer_locked _ _ _ _ _) as [[[[replay receipt]|e|] st1] n1]; [|done|done].
  destruct replay; [by wp_step|].
  wp_step. apply wp_persist_or_restore. intros [[]|e|] d st' n' Hn Hres; [| |done].
  - wp_step. exact (HQ (Ok tt) d st' n' Hn Hres).
  - exact (HQ (Err e) d st' n' Hn Hres).
Qed.

(** C1. Conservation: after any sequence of controller calls (creating roots,
    reserving, settling, revoking, transferring, revoking subtrees) of a controller
    without a durable file, for every scope with a limit the remaining capacity is a [u64] and, together with what its open children hold
    and what its children received by transfers, it does not exceed the limit
    plus what the scope itself accepted by transfers. *)
Theorem budget_conservation calls n :
  Forall (λ call, u64_request (call_request call)) calls →
  let st := ct_state (run_calls calls new_controller n).1 in
  ∀ d k sc limit, scopes st !! k = Some sc → req_dim d (limit_of sc) = Some limit →
  ∃ r, am_dim d (sc_remaining sc) = Some r ∧ is_u64 r
       ∧ r + held d st k + gifted d st k ≤ limit + credit d st (sc_reservation_id sc).
Proof.
  intros Hu st d k sc limit Hk Hlim.
  assert (Hi : inv no_fate false st (run_calls calls new_controller n).2).
  { apply run_calls_keeps; [apply wf_inv, wf_default|done|].
    by apply Forall_true. }
  pose proof (wf_conserved _ _ (inv_wf _ _ _ _ Hi) d k sc Hk) as Hc.
  unfold conserved in Hc. rewrite Hlim in Hc.
  destruct (am_dim d (sc_remaining sc)) as [r|]; [|done]. exists r. by destruct Hc.
Qed.

(** Exactly once: once a reservation was settled, every later attempt to
    settle or revoke it, after any further calls, fails with [AlreadySettled]
    and changes nothing. *)
Theorem settled_exactly_once c n r usage c1 n1 calls usage' :
  wf (ct_state c) n → settle_reservation r usage c n = (Ok tt, c1, n1) →
  Forall (λ call, u64_request (call_request call)) calls →
  let c2 := (run_calls calls c1 n1).1 in
  let n2 := (run_calls calls c1 n1).2 in
  settle_reservation r usage' c2 n2 = (Err AdmissionError.AlreadySettled, c2, n2)
  ∧ revoke_reservation r c2 n2 = (Err AdmissionError.AlreadySettled, c2, n2).
Proof.
  intros Hw Hs Hu c2 n2.
  assert (Hi : inv (dead_fate r) false (ct_state c1) n1).
  { pose proof (run_call_keeps no_fate false (SettleReservation r usage) c n) as Hk.
    assert (Hd : wp (settle_reservation r usage) (λ res c' n', res = Ok tt →
              drawn n r ∧ reservations (ct_state c') !! r = None) c n).
    { apply (wp_close_and_persist r (Some usage)); [done| |by intros].
      intros k sc p psc d n' Hr Hk' Hp Hpp Hn st' Hd Hok.
      split; [|apply lookup_delete_eq].
      apply (lk_live _ _ (wf_linked _ _ Hw)) in Hr as (sc' & ? & ? & _).
      by eapply (lk_res_drawn _ _ (wf_linked _ _ Hw) k sc'). }
    unfold wp in Hk, Hd. cbn [run_call] in Hk. rewrite Hs in Hk, Hd.
    destruct Hk as [[Hw1 _ _] Hn]; [by apply wf_inv|by intros []|done|].
    destruct Hd as [Hd1 Hd2]; [done|].
    split; [done| |done]. intros r' o [-> ->].
    split; [by eapply drawn_mono|]. intros k Hk'. congruence. }
  assert (Hi2 : inv (dead_fate r) false (ct_state c2) n2).
  { apply run_calls_keeps; [done|done|]. by apply Forall_true. }
  destruct (inv_dead _ _ _ _ r Hi2) as [_ Hdead]; [done|].
  split; by apply settled_dead.
Qed.

(** Revoking a live scope never fails: it closes every scope below it and,
    unless it is a rollout, the scope itself, gives the whole allocation back to
    the direct parent, leaves every scope outside the subtree alone, and keeps
    the invariant and the identity of every scope.  The hash map may be walked in
    any order. *)
Theorem revoke_scope_tree_complete st n s sc :
  wf st n → no_orphans st → scopes st !! s = Some sc → sc_closed sc = false →
  ∃ st', revoke_scope_tree s st n = (Ok tt, st', n + 1) ∧ wf st' (n + 1) ∧ no_orphans st'
    ∧ same_forest st st'
    ∧ (∀ x, below st s x → sc_closed <$> scopes st' !! x = Some true)
    ∧ match parent_of sc with
      | None => sc_closed <$> scopes st' !! s = Some false
      | Some p => sc_closed <$> scopes st' !! s = Some true
          ∧ (∀ psc, scopes st !! p = Some psc → scopes st' !! p =
               Some (set_remaining psc (add (sc_remaining psc) (from_request (limit_of sc)))))
          ∧ (∀ r, sc_reservation_id sc = Some r → reservations st' !! r = None)
      end
    ∧ (∀ x, x ≠ s → Some x ≠ parent_of sc → ¬ below st s x → scopes st' !! x = scopes st !! x).
Proof. apply revoke_scope_tree_spec. Qed.

(** Revoking a subtree again is a successful no-op. *)
Theorem revoke_scope_tree_idempotent st n s st' n' :
  wf st n → no_orphans st → revoke_scope_tree s st n = (Ok tt, st', n') →
  ∃ n'', revoke_scope_tree s st' n' = (Ok tt, st', n'').
Proof.
  intros Hw Ht Hrev.
  assert (Hclosed : match scopes st' !! s with None => true | Some sc => sc_closed sc end = true →
            ∃ n'', revoke_scope_tree s st' n' = (Ok tt, st', n'')).
  { intros Hc. exists n'. unfold revoke_scope_tree, mbind, M_bind, get_state. by rewrite Hc. }
  assert (Hnop : match scopes st !! s with None => true | Some sc => sc_closed sc end = true →
            st' = st).
  { intros Hc. unfold revoke_scope_tree, mbind, M_bind, get_state in Hrev. rewrite Hc in Hrev.
    by injection Hrev. }
  destruct (scopes st !! s) as [sc|] eqn:Hs; [|rewrite Hnop in * by done; apply Hclosed; by rewrite Hs].
  destruct (sc_closed sc) eqn:Hopen; [rewrite Hnop in * by done; apply Hclosed; by rewrite Hs|].
  destruct (revoke_scope_tree_spec st n s sc Hw Ht Hs Hopen)
    as (st2 & Heq & Hw2 & Ht2 & Hsf & Hbelow & Hself & _).
  rewrite Hrev in Heq. injection Heq as Hst Hn. subst st2 n'.
  destruct (parent_of sc) as [p|] eqn:Hp.
  - apply Hclosed. destruct Hself as [Hc _]. apply fmap_Some in Hc as (sc' & -> & <-). done.
  - destruct (scopes st' !! s) as [sc'|] eqn:Hs'; [|done]. cbn in Hself.
    exists (n + 1 + 1).
    destruct (revoke_walk st' (n + 1) s sc' Hw2 Ht2 Hs') as (L & st3 & HL & _ & Hloop & _);
      [congruence|].
    assert (HLnil : L = []).
    { destruct (descendants_ok st' (n + 1) (wf_linked _ _ Hw2) (n + 1) stack_depth s sc' Hs')
        as (L' & HL' & Hb' & [_ Hc'] & _); [unfold stack_depth; lia|].
      assert (L' = L) as -> by congruence. destruct L as [|x L]; [done|exfalso].
      destruct (Hc' [] x L eq_refl) as (xsc & ? & Hx & Hxo & _).
      assert (Hbx : below st s x).
      { eapply same_forest_below; [|apply Hb'; left]. intros y. symmetry. apply Hsf. }
      apply Hbelow in Hbx. rewrite Hx in Hbx. cbn in Hbx. congruence. }
    subst L. unfold revoke_scope_tree, mbind, M_bind, get_state, tick, reservation_of.
    rewrite Hs'. injection Hself as ->. rewrite HL. cbn.
    destruct (same_forest_lookup _ _ _ _ Hsf Hs) as (sc'' & ? & Hv & _).
    destruct (lk_root _ _ (wf_linked _ _ Hw2) s sc' Hs') as (_ & -> & _); [|done].
    unfold parent_of in *. congruence.
Qed.

(** C5. Durability of the five methods that persist, on a durable controller,
    whatever its file holds: settling, revoking, reserving a child and a first
    transfer either succeed, and then reopening the file yields the controller they
    left, or fail with the memory what it was, and do not panic.  A transfer that is
    repeated gives the receipt on record and changes nothing.  Creating a root adds
    exactly that root to the memory; it returns only when reopening the file yields
    the controller it left, and panics, with the root in memory, when the write
    fails. *)
Theorem durable_write_or_rollback c n :
  wf (ct_state c) n → ct_durable c = true →
  (∀ r usage, durable_outcome c (settle_reservation r usage c n))
  ∧ (∀ r, durable_outcome c (revoke_reservation r c n))
  ∧ (∀ p kind owner request, durable_outcome c (reserve_child p kind owner request c n))
  ∧ (∀ child parent usage,
       match transfers (ct_state c) !! child with
       | None => durable_outcome c (transfer_remaining_reservation child parent usage c n)
       | Some receipt => transfer_remaining_reservation child parent usage c n
           = (if bt_parent_reservation_id receipt =? parent then Ok receipt else Err AdmissionError.BudgetExceeded, c, n)
       end)
  ∧ (∀ owner limit,
       match create_root owner limit c n with
       | (r, c', _) =>
           ct_state c' = with_scopes (insert (uuid_v4 n)
             (mk_scope (uuid_v4 n) None BudgetScopeKind.Rollout owner limit None)) (ct_state c)
           ∧ match r with
             | Ok id => id = uuid_v4 n ∧ open_durable (read_back c') = Ok c'
             | Err _ => False
             | Panic => persist_io (n + 1) ≠ IoOk
             end
       end).
Proof.
  intros Hw Hdur.
  assert (Hsync : ∀ A (a : A) st' n',
    durable_outcome c (Ok a, set_disk (if ct_durable c then Some st' else ct_disk c)
                               (set_state st' c), n'))
    by (intros; unfold durable_outcome, read_back, set_disk, set_state; cbn; by rewrite Hdur).
  assert (Hclose : ∀ r usage, durable_outcome c (close_and_persist r usage c n)).
  { intros r usage. apply (wp_close_and_persist r usage c n
      (λ o c' n', durable_outcome c (o, c', n')) Hw).
    - intros k sc p psc d n' _ _ _ _ _ st' ->. by apply Hsync.
    - by intros. }
  split; [intros; apply (Hclose r (Some usage))|].
  split; [intros; apply (Hclose r None)|]. split_and!.
  - intros p kind owner request. apply (wp_persisted (λ o c' n', durable_outcome c (o, c', n'))).
    destruct (reserve_child_locked_cases (ct_state c) n p kind owner request)
      as [(psc & _ & _ & _ & _ & ->)| ->]; [|by destruct c].
    intros [[]|e|] d st' n' _ Hres; [| |done].
    + destruct Hres as [-> ->]. by apply Hsync.
    + subst. by cbn.
  - intros child parent usage. destruct (transfers (ct_state c) !! child) as [rc|] eqn:Htr.
    + unfold transfer_remaining_reservation, mbind, M_bind, get_state, locked, zoom, transfer_locked. cbn.
      unfold mbind, M_bind, get_state. rewrite Htr. by destruct (_ =? parent), c.
    + apply (wp_transferred (λ o c' n', durable_outcome c (o, c', n'))).
      destruct (transfer_locked_linked (ct_state c) n child parent usage (wf_linked _ _ Hw))
        as [(k & q & sc & qsc & _ & _ & _ & _ & _ & _ & _ & _ & _ & ->)|[(rc & Hrc & _ & ->)|(e & ->)]].
      * intros [[]|e|] d st' n' _ Hres; [| |done].
        -- destruct Hres as [-> ->]. by apply Hsync.
        -- subst. by cbn.
      * congruence.
      * by destruct c.
  - intros owner limit. destruct c as [st [] disk]; [|done]. clear.
    unfold create_root, create_root_locked, persist, locked, read_io, new_uuid.
    unfold zoom, try_, mbind, M_bind, get_state, tick, modify, mret, M_ret, throw, panic. cbn.
    by destruct (persist_io (n + 1)).
Qed.

(** A first successful transfer accepts exactly the child's unused limit in
    each dimension, credits it to the sibling's remaining capacity, closes the
    child and retires its reservation; repeating it with any usage report
    returns the same receipt and changes nothing. *)
Theorem transfer_moves_unused c n child parent usage receipt c' n' :
  wf (ct_state c) n → transfers (ct_state c) !! child = None →
  transfer_remaining_reservation child parent usage c n = (Ok receipt, c', n') →
  (∃ k q sc qsc, reservations (ct_state c) !! child = Some k
     ∧ reservations (ct_state c) !! parent = Some q
     ∧ scopes (ct_state c) !! k = Some sc ∧ scopes (ct_state c) !! q = Some qsc
     ∧ parent_of sc = parent_of qsc
     ∧ (∀ d, req_dim d (bt_accepted receipt) =
               (λ x, x - usage_dim d usage) <$> req_dim d (limit_of sc))
     ∧ scopes (ct_state c') !! k = Some (set_closed sc)
     ∧ (∃ a, scopes (ct_state c') !! q = Some (set_remaining qsc a)
             ∧ ∀ d, am_dim d a =
                 add_dim (am_dim d (sc_remaining qsc)) (req_dim d (bt_accepted receipt)))
     ∧ reservations (ct_state c') !! child = None)
  ∧ ∀ usage', transfer_remaining_reservation child parent usage' c' n' = (Ok receipt, c', n').
Proof.
  intros Hw Ht Hrun.
  pose (Q := λ (o : Result AdmissionError.t BudgetTransferReceipt) (c' : Controller) (_ : N),
    o = Ok receipt →
    ∃ k q sc qsc, reservations (ct_state c) !! child = Some k
     ∧ reservations (ct_state c) !! parent = Some q
     ∧ scopes (ct_state c) !! k = Some sc ∧ scopes (ct_state c) !! q = Some qsc
     ∧ k ≠ q ∧ parent_of sc = parent_of qsc
     ∧ ct_state c' = transferred_state (ct_state c) child parent k q sc qsc
                       (returned_of sc (Some usage))
     ∧ receipt = {| bt_child_reservation_id := child; bt_parent_reservation_id := parent;
                    bt_accepted := {| max_tokens := am_tokens (returned_of sc (Some usage));
                      max_cost_micro := am_cost_micro (returned_of sc (Some usage)) |} |}).
  assert (HQ : wp (transfer_remaining_reservation child parent usage) Q c n).
  { apply wp_transferred.
    destruct (transfer_locked_linked (ct_state c) n child parent usage (wf_linked _ _ Hw))
      as [(k & q & sc & qsc & _ & Hk & Hq & Hks & _ & Hqs & _ & Hne & Hpar & ->)|[
          (rc & Hrc & _)|(e & ->)]]; [|congruence|by unfold Q].
    intros [[]|e|] d st' n'' _ Hres; [|by unfold Q|done]. destruct Hres as [-> _].
    intros [= <-]. exists k, q, sc, qsc. by split_and!. }
  unfold wp in HQ. rewrite Hrun in HQ.
  destruct (HQ eq_refl) as (k & q & sc & qsc & Hk & Hq & Hks & Hqs & Hne & Hpar & Hst & ->).
  split.
  - exists k, q, sc, qsc. rewrite Hst. split_and!; try done.
    + by intros [].
    + cbn. rewrite lookup_insert_ne by done. apply lookup_insert_eq.
    + eexists. split; [apply lookup_insert_eq|]. by intros [].
    + apply lookup_delete_eq.
  - intros usage'. unfold transfer_remaining_reservation, locked, zoom, transfer_locked,
      mbind, M_bind, get_state.
    assert (Hrc : transfers (ct_state c') !! child = Some {|
      bt_child_reservation_id := child; bt_parent_reservation_id := parent;
      bt_accepted := {| max_tokens := am_tokens (returned_of sc (Some usage));
                        max_cost_micro := am_cost_micro (returned_of sc (Some usage)) |} |})
      by (rewrite Hst; apply lookup_insert_eq).
    rewrite Hrc. cbn. rewrite N.eqb_refl. cbn. by destruct c'.
Qed.

End Properties.

(** ** Witnesses *)

Lemma wf_run `{HEnv : Env} {HOk : EnvOk} calls c n :
  wf (ct_state c) n → Forall (λ call, u64_request (call_request call)) calls →
  wf (ct_state (run_calls calls c n).1) (run_calls calls c n).2.
Proof.
  intros Hw Hu. eapply (inv_wf no_fate false).
  apply run_calls_keeps; [by split|done|by apply Forall_true].
Qed.

Lemma lim_u64 t : is_u64 t → u64_request (lim t).
Proof. intros Ht [] x; cbn; congruence. Qed.

Lemma sample_calls_u64 a :
  Forall (λ call, u64_request (call_request call)) (sample_calls_below a).
Proof. repeat constructor; apply lim_u64; unfold is_u64, u64_max; cbn; lia. Qed.

Lemma sample_run_wf : @wf sample_env (ct_state sample_run.1) sample_run.2.
Proof. apply (wf_run (HOk := sample_env_ok)); [apply wf_default|apply sample_calls_u64]. Qed.

Lemma sample_run_tree : no_orphans (ct_state sample_run.1).
Proof.
  eapply (inv_tree no_fate true); [|done].
  apply (run_calls_keeps (HOk := sample_env_ok) no_fate true sample_calls new_controller 0).
  - split; [apply wf_default|done|]. intros _ k p sc psc Hk. exfalso. cbn in Hk. by rewrite lookup_empty in Hk.
  - apply sample_calls_u64.
  - by repeat constructor.
Qed.

Lemma sample_durable_wf : @wf sample_env (ct_state sample_durable.1) sample_durable.2.
Proof. apply (wf_run (HOk := sample_env_ok)); [apply wf_default|apply sample_calls_u64]. Qed.

Lemma budget_conservation_witness :
  ∃ r, am_dim Tokens (sc_remaining (mk_scope 4 (Some 1) BudgetScopeKind.Process "b" (lim 50) (Some 5)))
       = Some r ∧ is_u64 r
       ∧ r + held Tokens (ct_state sample_run.1) 4 + gifted Tokens (ct_state sample_run.1) 4
         ≤ 50 + credit Tokens (ct_state sample_run.1) (Some 5).
Proof.
  apply (budget_conservation (HOk := sample_env_ok) sample_calls 0 (sample_calls_u64 2) Tokens 4
           (mk_scope 4 (Some 1) BudgetScopeKind.Process "b" (lim 50) (Some 5)) 50).
  - vm_compute. reflexivity.
  - reflexivity.
Defined.

Lemma settled_exactly_once_witness :
  ∃ c1 n1, settle_reservation (H := sample_env) 7 (used 10) sample_run.1 sample_run.2 = (Ok tt, c1, n1)
  ∧ let c2 := (run_calls (H := sample_env) [RevokeScopeTree 1] c1 n1).1 in
    let n2 := (run_calls (H := sample_env) [RevokeScopeTree 1] c1 n1).2 in
    settle_reservation (H := sample_env) 7 (used 3) c2 n2 = (Err AdmissionError.AlreadySettled, c2, n2).
Proof.
  eexists _, _. split; [vm_compute; reflexivity|].
  apply (settled_exactly_once (HOk := sample_env_ok) sample_run.1 sample_run.2 7 (used 10)).
  - apply sample_run_wf.
  - vm_compute. reflexivity.
  - repeat constructor. by intros [].
Defined.

Lemma revoke_scope_tree_complete_witness :
  ∃ st', revoke_scope_tree (H := sample_env) 2 (ct_state sample_run.1) sample_run.2
         = (Ok tt, st', sample_run.2 + 1)
    ∧ sc_closed <$> scopes st' !! 2 = Some true.
Proof.
  destruct (revoke_scope_tree_complete (HOk := sample_env_ok) (ct_state sample_run.1) sample_run.2 2
              (set_remaining (mk_scope 2 (Some 1) BudgetScopeKind.Process "a" (lim 50) (Some 3))
                 {| am_tokens := Some 0; am_cost_micro := None |})
              sample_run_wf sample_run_tree)
    as (st' & Hrun & _ & _ & _ & _ & Hself & _).
  - vm_compute. reflexivity.
  - reflexivity.
  - exists st'. split; [exact Hrun|]. apply Hself.
Defined.

Lemma revoke_scope_tree_idempotent_witness :
  ∃ st' n' n'', revoke_scope_tree (H := sample_env) 1 (ct_state sample_run.1) sample_run.2
                = (Ok tt, st', n')
    ∧ revoke_scope_tree (H := sample_env) 1 st' n' = (Ok tt, st', n'').
Proof.
  eexists _, _.
  assert (Hrun : revoke_scope_tree (H := sample_env) 1 (ct_state sample_run.1) sample_run.2 =
                 (Ok tt, _, _)) by (vm_compute; reflexivity).
  destruct (revoke_scope_tree_idempotent (HOk := sample_env_ok) _ _ 1 _ _
              sample_run_wf sample_run_tree Hrun) as [n'' Hn''].
  exists n''. split; [exact Hrun|exact Hn''].
Defined.

Lemma durable_write_or_rollback_witness :
  durable_outcome sample_durable.1
    (settle_reservation (H := sample_env) 10 (used 10) sample_durable.1 sample_durable.2).
Proof.
  destruct (durable_write_or_rollback (HEnv := sample_env) sample_durable.1 sample_durable.2
              sample_durable_wf) as [Hsettle _].
  - vm_compute. reflexivity.
  - exact (Hsettle 10 (used 10)).
Defined.

Lemma transfer_moves_unused_witness :
  ∃ receipt c' n', transfer_remaining_reservation (H := sample_env) 5 3 (used 20)
                     sample_run.1 sample_run.2 = (Ok receipt, c', n')
    ∧ transfer_remaining_reservation (H := sample_env) 5 3 (used 0) c' n' = (Ok receipt, c', n').
Proof.
  eexists _, _, _.
  assert (Hrun : transfer_remaining_reservation (H := sample_env) 5 3 (used 20)
                   sample_run.1 sample_run.2 = (Ok _, _, _)) by (vm_compute; reflexivity).
  split; [exact Hrun|].
  apply (transfer_moves_unused (HEnv := sample_env) sample_run.1 sample_run.2 5 3 (used 20)).
  - apply sample_run_wf.
  - vm_compute. reflexivity.
  - exact Hrun.
Defined.

(** ** Behaviours the documentation does not announce *)

(** [transfer_remaining_reservation] does not look for live children of the
    closing scope, as [close_locked] does.  Here the rollout's 100 tokens become
    150: the sibling [b] receives the 50 tokens of [a] while the operation below
    [a] still holds and can hand out the same 50. *)
Theorem transfer_ignores_live_children :
  let c := (run_calls (H := sample_env) (sample_calls ++ [TransferRemaining 3 5 (used 0)])
              new_controller 0).1 in
  spendable Tokens (ct_state c) 4 = Some 100 ∧ spendable Tokens (ct_state c) 6 = Some 50
  ∧ ¬ no_orphans (ct_state c).
Proof.
  split; [vm_compute; reflexivity|]. split; [vm_compute; reflexivity|]. intros Ho.
  assert (Hk : scopes (ct_state (run_calls (H := sample_env)
      (sample_calls ++ [TransferRemaining 3 5 (used 0)]) new_controller 0).1) !! 6 =
      Some (mk_scope 6 (Some 2) BudgetScopeKind.Operation "op" (lim 50) (Some 7)))
    by (vm_compute; reflexivity).
  specialize (Ho 6 2 _ (set_closed (set_remaining
      (mk_scope 2 (Some 1) BudgetScopeKind.Process "a" (lim 50) (Some 3))
      {| am_tokens := Some 0; am_cost_micro := None |})) Hk eq_refl).
  discriminate Ho; vm_compute; reflexivity.
Qed.

(** A child reserved without a limit holds nothing of its parent, and nothing
    bounds what is reserved below it: under a rollout of 100 tokens an operation
    obtains 1000. *)
Theorem unlimited_child_is_unbounded :
  let c := (run_calls (H := sample_env)
              [CreateRoot "rollout" (lim 100);
               ReserveChild 1 BudgetScopeKind.Process "p" unlimited;
               ReserveChild 2 BudgetScopeKind.Operation "op" (lim 1000)] new_controller 0).1 in
  spendable Tokens (ct_state c) 1 = Some 100 ∧ spendable Tokens (ct_state c) 4 = Some 1000.
Proof. split; vm_compute; reflexivity. Qed.

(** [revoke_scope_tree], [reserve], [settle], [revoke], [set_budget] and
    [reserve_capability_for_operation] change the state without persisting it:
    a controller reopened after a subtree was revoked has its reservations live. *)
Theorem revoke_scope_tree_is_not_persisted :
  let c := (run_calls (H := sample_env) (durable_calls ++ [RevokeScopeTree 1])
              durable_new 0).1 in
  active_reservation_count (ct_state c) = 0%nat
  ∧ ∃ c', open_durable (read_back c) = Ok c'
          ∧ active_reservation_count (ct_state c') = 3%nat.
Proof.
  split; [vm_compute; reflexivity|]. eexists.
  split; [reflexivity|vm_compute; reflexivity].
Qed.
