(* ===== verification/BudgetPrincipal.v ===== *)
(** * The principal-based adapter of the budget controller

    [reserve], [settle] and [revoke] of crates/kernel/src/admission/budget.rs
    build and tear down a chain of three scopes below a principal's root.  The
    file proves that the chain charges the root exactly the reported usage and
    leaves every other scope and every other reservation alone. *)
From S2P Require Import Prelude FabricTypes Budget BudgetInv.

(** What one use costs a root in one dimension: the usage, at most the request. *)
Definition charged (rem req : option N) (used : N) : option N :=
  match rem, req with
  | Some r, Some q => Some (r - N.min q used)
  | _, _ => rem
  end.

Definition used_dim (d : Dim) (usage : option UsageReport) : N :=
  match usage with Some u => usage_dim d u | None => 0 end.

(** The scope [k] is live under the reservation [r], below [p], and has no live child. *)
Record live_leaf (st : BudgetState) (r : BudgetReservationId) (k p : BudgetScopeId)
    (sc psc : ScopeState) : Prop := {
  ll_res : reservations st !! r = Some k;
  ll_scope : scopes st !! k = Some sc;
  ll_parent : parent_of sc = Some p;
  ll_pscope : scopes st !! p = Some psc;
  ll_leaf : ∀ k' sc', scopes st !! k' = Some sc' → open_child_of k sc' = false;
}.

(** [st'] is [st] up to the remaining amount [a] of the scope [k] and scopes
    created and closed since. *)
Record restored (st : BudgetState) (k : BudgetScopeId) (a : Amount) (st' : BudgetState) : Prop := {
  rs_reservations : reservations st' = reservations st;
  rs_scope : ∀ sc, scopes st !! k = Some sc → scopes st' !! k = Some (set_remaining sc a);
  rs_other : ∀ x, x ≠ k → is_Some (scopes st !! x) → scopes st' !! x = scopes st !! x;
  rs_new : ∀ x xsc, scopes st !! x = None → scopes st' !! x = Some xsc → sc_closed xsc = true;
}.

Section Lemmas.
Context `{HEnv : Env} {HOk : EnvOk}.

Lemma close_live_leaf st n r k p sc psc usage :
  wf st n → live_leaf st r k p sc psc →
  close_locked r usage st n = (Ok tt, closed_state st r k p sc psc (returned_of sc usage), n)
  ∧ wf (closed_state st r k p sc psc (returned_of sc usage)) n ∧ p ≠ k.
Proof.
  intros Hw [Hr Hk Hp Hpp Hleaf]. pose proof (wf_linked _ _ Hw) as Hl.
  destruct (close_locked_linked st n r usage Hl)
    as [(k1 & sc1 & p1 & psc1 & Hr1 & Hk1 & Hop & Hp1 & Hne & Hpp1 & Hno & Heq)|[[Hd _]|
        (k1 & k' & sc' & Hr1 & Hk' & Ho & _)]]; [|congruence|].
  - assert (k1 = k) as -> by congruence. assert (sc1 = sc) as -> by congruence.
    assert (p1 = p) as -> by congruence. assert (psc1 = psc) as -> by congruence.
    split; [done|]. split; [|done]. by eapply wf_closed.
  - assert (k1 = k) as -> by congruence. by rewrite (Hleaf _ _ Hk') in Ho.
Qed.

(** Reserving makes a live leaf; reserving below a leaf, or closing its last
    child, is how the chain is built and unwound. *)
Lemma reserved_leaf st n parent psc kind owner request :
  wf st n → scopes st !! parent = Some psc →
  live_leaf (reserved_state st n parent psc kind owner request) (uuid_v4 (n + 1)) (uuid_v4 n) parent
    (mk_scope (uuid_v4 n) (Some parent) kind owner request (Some (uuid_v4 (n + 1))))
    (set_remaining psc (subtract (sc_remaining psc) request)).
Proof.
  intros Hw Hp. pose proof (wf_linked _ _ Hw) as Hl.
  assert (Hne : parent ≠ uuid_v4 n)
    by (intros ->; apply (drawn_fresh n); by eapply lk_drawn).
  split; cbn.
  - apply lookup_insert_eq.
  - apply lookup_insert_eq.
  - done.
  - rewrite lookup_insert_ne by congruence. apply lookup_insert_eq.
  - intros k' sc' Hk'. apply not_true_iff_false. intros [_ Hpar]%open_child_of_true.
    assert (∀ x xsc, scopes st !! x = Some xsc → parent_of xsc = Some (uuid_v4 n) → False) as Hno.
    { intros x xsc Hx Hxp. destruct (lk_child _ _ Hl _ _ _ Hx Hxp) as (? & ? & Hq & _).
      apply (drawn_fresh n). by eapply lk_drawn. }
    apply lookup_insert_Some in Hk' as [[<- <-]|[_ Hk']]; [cbn in Hpar; congruence|].
    apply lookup_insert_Some in Hk' as [[<- <-]|[_ Hk']]; [|by eapply Hno].
    by eapply (Hno parent psc).
Qed.


Lemma restored_same st st' k sc :
  scopes st !! k = Some sc → scopes st' = scopes st → reservations st' = reservations st →
  restored st k (sc_remaining sc) st'.
Proof.
  intros Hk Hs Hr. split; rewrite ?Hs; try done; [|congruence].
  intros sc' Hk'. rewrite Hk'. assert (sc' = sc) as -> by congruence. by destruct sc.
Qed.

(** Reserve, let the child be used and restored, close: the parent is restored
    with what the close returned. *)
Lemma reserve_close_restores st n parent psc kind owner request usage st2 n2 a :
  wf st n → scopes st !! parent = Some psc →
  wf st2 n2 →
  restored (reserved_state st n parent psc kind owner request) (uuid_v4 n) a st2 →
  ∃ st3, close_locked (uuid_v4 (n + 1)) usage st2 n2 = (Ok tt, st3, n2) ∧ wf st3 n2
    ∧ legacy_chains st3 = legacy_chains st2
    ∧ restored st parent
        (add (subtract (sc_remaining psc) request)
           (match usage with None => from_request request
                           | Some u => unused (from_request request) u end)) st3.
Proof.
  intros Hw Hp Hw2 Hrest. pose proof (wf_linked _ _ Hw) as Hl.
  destruct (reserved_leaf st n parent psc kind owner request Hw Hp) as [Hr Hs Hpar Hpp Hleaf].
  assert (Hfresh : scopes st !! uuid_v4 n = None)
    by (eapply linked_scope_fresh; [done|apply drawn_fresh]).
  assert (Hne : parent ≠ uuid_v4 n) by congruence.
  assert (Hrfresh : reservations st !! uuid_v4 (n + 1) = None).
  { destruct (reservations st !! uuid_v4 (n + 1)) as [k|] eqn:Hk; [|done].
    apply (lk_live _ _ Hl) in Hk as (sc & Hk & Hr' & _).
    exfalso. apply (drawn_fresh (n + 1)). eapply drawn_mono; [|by eapply lk_res_drawn]. lia. }
  assert (Hll : live_leaf st2 (uuid_v4 (n + 1)) (uuid_v4 n) parent
                  (set_remaining (mk_scope (uuid_v4 n) (Some parent) kind owner request
                     (Some (uuid_v4 (n + 1)))) a)
                  (set_remaining psc (subtract (sc_remaining psc) request))).
  { split.
    - by rewrite (rs_reservations _ _ _ _ Hrest).
    - by apply (rs_scope _ _ _ _ Hrest).
    - done.
    - rewrite (rs_other _ _ _ _ Hrest); [done|done|]. by rewrite Hpp.
    - intros x xsc Hx.
      destruct (scopes (reserved_state st n parent psc kind owner request) !! x) as [xsc1|] eqn:Hx1.
      + destruct (decide (x = uuid_v4 n)) as [->|Hxn].
        * rewrite (rs_scope _ _ _ _ Hrest _ Hs) in Hx. injection Hx as <-.
          apply (Hleaf _ _ Hs).
        * rewrite (rs_other _ _ _ _ Hrest) in Hx by (rewrite ?Hx1; done).
          by apply (Hleaf _ _ Hx).
      + apply not_true_iff_false. intros [Hop _]%open_child_of_true.
        rewrite (rs_new _ _ _ _ Hrest _ _ Hx1 Hx) in Hop. done. }
  destruct (close_live_leaf _ _ _ _ _ _ _ usage Hw2 Hll) as (Heq & Hw3 & _).
  eexists. split; [exact Heq|]. split; [exact Hw3|]. split; [done|]. split; cbn.
  - rewrite (rs_reservations _ _ _ _ Hrest). cbn. by rewrite delete_insert_id.
  - intros sc Hsc. assert (sc = psc) as -> by congruence. by rewrite lookup_insert_eq.
  - intros x Hx His. rewrite lookup_insert_ne by done.
    assert (x ≠ uuid_v4 n) by (intros ->; rewrite Hfresh in His; by destruct His).
    rewrite lookup_insert_ne by done.
    rewrite (rs_other _ _ _ _ Hrest); cbn; rewrite ?lookup_insert_ne by done; done.
  - intros x xsc Hx. assert (x ≠ parent) by congruence. rewrite lookup_insert_ne by done.
    intros [[<- <-]|[Hxn Hx2]]%lookup_insert_Some; [done|].
    eapply (rs_new _ _ _ _ Hrest); [|exact Hx2]. cbn. by rewrite !lookup_insert_ne.
Qed.

(** The chain [reserve] built is unwound by [settle] and [revoke]. *)
Lemma reserve_close_legacy st n principal root rsc request r st1 n1 usage :
  wf st n → u64_request request →
  principal_roots st !! principal = Some root → scopes st !! root = Some rsc →
  reserve principal request st n = (Ok r, st1, n1) →
  can_afford (sc_remaining rsc) request = true
  ∧ ∃ st2, close_legacy r usage st1 n1 = (Ok tt, st2, n1)
    ∧ wf st2 n1 ∧ legacy_chains st2 !! r = None
    ∧ restored st root
        (add (subtract (sc_remaining rsc) request)
           (match usage with None => from_request request
                           | Some u => unused (from_request request) u end)) st2.
Proof.
  intros Hw Hu Hroot Hrsc Hrun.
  unfold reserve, principal_root, mbind, M_bind, get_state in Hrun. rewrite Hroot in Hrun. cbn in Hrun.
  destruct (reserve_child_locked_cases st n root BudgetScopeKind.Process
    ("compat-process:" ++ principal) request) as [(psc & Hp & Hop & Ha & Haff & Heq)|Heq];
    rewrite Heq in Hrun; [|done]. assert (psc = rsc) as -> by congruence. clear Hp. split; [done|].
  set (sP := reserved_state _ _ _ _ _ _ _) in Hrun.
  assert (HwP : wf sP (n + 1 + 1)) by by apply wf_reserved. cbn in Hrun.
  destruct (reserve_child_locked_cases sP (n + 1 + 1) (uuid_v4 n) BudgetScopeKind.Operation
    ("compat-operation:" ++ principal) request) as [(scP & HscP & HopP & HaP & HaffP & HeqP)|HeqP];
    rewrite HeqP in Hrun; [|done].
  set (sO := reserved_state _ _ _ _ _ _ _) in Hrun.
  assert (HwO : wf sO (n + 1 + 1 + 1 + 1)) by by apply wf_reserved. cbn in Hrun.
  destruct (reserve_child_locked_cases sO (n + 1 + 1 + 1 + 1) (uuid_v4 (n + 1 + 1))
    BudgetScopeKind.Capability ("compat-capability:" ++ principal) request)
    as [(scO & HscO & HopO & HaO & HaffO & HeqO)|HeqO]; rewrite HeqO in Hrun; [|done].
  set (sK := reserved_state _ _ _ _ _ _ _) in Hrun.
  assert (HwK : wf sK (n + 1 + 1 + 1 + 1 + 1 + 1)) by by apply wf_reserved.
  injection Hrun as <- <- <-. set (n6 := n + 1 + 1 + 1 + 1 + 1 + 1) in *.
  set (st1 := with_legacy_chains (delete (uuid_v4 (n + 1 + 1 + 1 + 1 + 1)))
                (with_legacy_chains (insert (uuid_v4 (n + 1 + 1 + 1 + 1 + 1))
                  [uuid_v4 (n + 1 + 1 + 1 + 1 + 1); uuid_v4 (n + 1 + 1 + 1); uuid_v4 (n + 1)]) sK)).
  assert (Hw1 : wf st1 n6).
  { eapply (inv_wf no_fate false), (inv_same _ _ sK); try done. cbn. intros r chain Hch.
    split_lookup; [done|]. by apply (lk_chain _ _ (wf_linked _ _ HwK)). }
  destruct (reserve_close_restores sO _ _ scO BudgetScopeKind.Capability
    ("compat-capability:" ++ principal) request usage st1 n6 _ HwO HscO Hw1
    (restored_same sK st1 _ _ (ll_scope _ _ _ _ _ _ (reserved_leaf _ _ _ _ _ _ _ HwO HscO))
       eq_refl eq_refl)) as (s2 & He2 & Hw2 & Hlc2 & Hr2).
  destruct (reserve_close_restores sP _ _ scP _ _ _ usage s2 n6 _ HwP HscP Hw2 Hr2)
    as (s3 & He3 & Hw3 & Hlc3 & Hr3).
  destruct (reserve_close_restores st _ _ rsc _ _ _ usage s3 n6 _ Hw Hrsc Hw3 Hr3)
    as (s4 & He4 & Hw4 & Hlc4 & Hr4).
  exists s4. split; [|split; [done|split; [|done]]].
  - unfold close_legacy, mbind, M_bind, get_state. cbn -[close_locked]. rewrite lookup_insert_eq.
    cbn -[close_locked]. fold st1. unfold ignore, mbind, M_bind.
    change (with_legacy_chains _ (with_legacy_chains _ sK)) with st1.
    rewrite He2, He3, He4. done.
  - rewrite Hlc4, Hlc3, Hlc2. cbn. apply lookup_delete_eq.
Qed.

(** When a reservation succeeds. *)
Lemma reserve_child_ok st n parent psc kind owner request :
  scopes st !! parent = Some psc → sc_closed psc = false →
  BudgetScopeKind.accepts_child (kind_of psc) kind = true →
  can_afford (sc_remaining psc) request = true →
  reserve_child_locked parent kind owner request st n =
    (Ok {| br_reservation_id := uuid_v4 (n + 1); br_scope_id := uuid_v4 n;
           br_parent_scope_id := parent; br_request := request |},
     reserved_state st n parent psc kind owner request, n + 1 + 1).
Proof.
  intros Hp Hc Ha Haff. unfold reserve_child_locked, mbind, M_bind, get_state, ok_or. cbn.
  rewrite Hp. cbn. rewrite Hc. cbn. rewrite Ha. cbn. by rewrite Haff.
Qed.

(** A scope can always hand its whole limit to one child. *)
Lemma can_afford_own request : can_afford (from_request request) request = true.
Proof.
  unfold can_afford, from_request, affords. cbn.
  destruct (max_tokens request), (max_cost_micro request); rewrite ?N.leb_refl; done.
Qed.

(** The lower two levels of the chain cannot fail once the first is reserved. *)
Lemma reserve_rooted st n principal root request :
  wf st n → u64_request request → principal_roots st !! principal = Some root →
  reserve principal request st n = (Err AdmissionError.BudgetExceeded, st, n)
  ∨ ∃ r st1 n1, reserve principal request st n = (Ok r, st1, n1) ∧ is_Some (scopes st !! root).
Proof.
  intros Hw Hu Hroot. unfold reserve, principal_root, mbind, M_bind, get_state. rewrite Hroot. cbn.
  destruct (reserve_child_locked_cases st n root BudgetScopeKind.Process
    ("compat-process:" ++ principal) request) as [(psc & Hp & Hop & Ha & Haff & ->)| ->];
    [right|by left].
  assert (HwP := wf_reserved _ _ _ _ BudgetScopeKind.Process ("compat-process:" ++ principal) _
    Hw Hp Hop Ha Haff Hu).
  assert (HscP := ll_scope _ _ _ _ _ _ (reserved_leaf st n root psc BudgetScopeKind.Process
    ("compat-process:" ++ principal) request Hw Hp)).
  cbn [br_scope_id]. rewrite (reserve_child_ok _ _ _ _ BudgetScopeKind.Operation _ _ HscP
    eq_refl eq_refl (can_afford_own _)).
  assert (HscO := ll_scope _ _ _ _ _ _ (reserved_leaf _ _ _ _ BudgetScopeKind.Operation
    ("compat-operation:" ++ principal) request HwP HscP)).
  cbn [br_scope_id]. rewrite (reserve_child_ok _ _ _ _ BudgetScopeKind.Capability _ _ HscO
    eq_refl eq_refl (can_afford_own _)).
  cbn. eexists _, _, _. split; [done|eauto].
Qed.

(** A failed [reserve] leaves no reservation, and [revoke] undoes a successful one. *)
Lemma reserve_undo st n principal request :
  wf st n → u64_request request →
  wp (reserve principal request) (λ res st1 n1, match res with
    | Ok r => ∃ st2, close_legacy r None st1 n1 = (Ok tt, st2, n1) ∧ reservations st2 = reservations st
    | Err _ => reservations st1 = reservations st
    | Panic => False
    end) st n.
Proof.
  intros Hw Hu.
  assert (Hrooted : ∀ st n root, wf st n → principal_roots st !! principal = Some root →
    wp (reserve principal request) (λ res st1 n1, match res with
    | Ok r => ∃ st2, close_legacy r None st1 n1 = (Ok tt, st2, n1) ∧ reservations st2 = reservations st
    | Err _ => reservations st1 = reservations st
    | Panic => False
    end) st n).
  { clear st n Hw. intros st n root Hw Hroot. unfold wp.
    destruct (reserve_rooted st n principal root request Hw Hu Hroot)
      as [->|(r & st1 & n1 & Heq & [rsc Hrsc])]; [done|]. rewrite Heq.
    destruct (reserve_close_legacy _ _ _ _ _ _ _ _ _ None Hw Hu Hroot Hrsc Heq)
      as (_ & st2 & Hc & _ & _ & Hrest). exists st2. split; [done|by eapply rs_reservations]. }
  destruct (principal_roots st !! principal) as [root|] eqn:Hroot; [by eapply Hrooted|].
  set (st0 := with_principal_roots (insert principal (uuid_v4 n))
    (with_scopes (insert (uuid_v4 n) (mk_scope (uuid_v4 n) None BudgetScopeKind.Rollout
       ("principal:" ++ principal) unlimited None)) st)).
  assert (Heq : reserve principal request st n = reserve principal request st0 (n + 1)).
  { unfold reserve, principal_root, mbind, M_bind, get_state. rewrite Hroot. cbn.
    by rewrite lookup_insert_eq. }
  assert (Hw0 : wf st0 (n + 1)).
  { pose proof (keeps_principal_root no_fate false principal st n ltac:(by split)) as Hi.
    unfold wp, principal_root, mbind, M_bind, get_state in Hi.
    rewrite Hroot in Hi. destruct Hi as [Hi _]. apply (inv_wf _ _ _ _ Hi). }
  specialize (Hrooted st0 (n + 1) (uuid_v4 n) Hw0). unfold wp in *. rewrite Heq.
  apply Hrooted. cbn. apply lookup_insert_eq.
Qed.

(** The same for a capability below an operation scope. *)
Lemma reserve_capability_undo st n operation permit request :
  wf st n → u64_request request →
  wp (reserve_capability_for_operation operation permit request) (λ res st1 n1, match res with
    | Ok receipt => ∃ st2, close_legacy (br_reservation_id receipt) None st1 n1 = (Ok tt, st2, n1)
                           ∧ reservations st2 = reservations st
    | Err _ => reservations st1 = reservations st
    | Panic => False
    end) st n.
Proof.
  intros Hw Hu. unfold reserve_capability_for_operation. do 2 wp_step. cbv beta iota.
  wp_steps; [|done]. unfold wp.
  destruct (reserve_child_locked_cases st n a BudgetScopeKind.Capability
    ("permit:" ++ uuid_display permit) request) as [(psc & Hp & Hop & Ha & Haff & ->)| ->]; [|done].
  assert (Hw1 := wf_reserved _ _ _ _ BudgetScopeKind.Capability
    ("permit:" ++ uuid_display permit) _ Hw Hp Hop Ha Haff Hu).
  set (st1 := reserved_state _ _ _ _ _ _ _) in *.
  assert (Hnc : legacy_chains st1 !! uuid_v4 (n + 1) = None).
  { destruct (legacy_chains st1 !! uuid_v4 (n + 1)) as [chain|] eqn:Hch; [|done].
    destruct (lk_chain _ _ (wf_linked _ _ Hw) _ _ Hch) as [_ Hd].
    destruct (drawn_fresh (n + 1)). eapply drawn_mono; [|exact Hd]. lia. }
  destruct (reserve_close_restores st n a psc BudgetScopeKind.Capability
    ("permit:" ++ uuid_display permit) request None st1 (n + 1 + 1) _ Hw Hp Hw1
    (restored_same st1 st1 _ _ (ll_scope _ _ _ _ _ _ (reserved_leaf _ _ _ _ _ _ _ Hw Hp))
       eq_refl eq_refl)) as (st2 & Hc & _ & _ & Hrest).
  exists st2. split; [|by eapply rs_reservations]. cbn.
  unfold close_legacy, mbind, M_bind, get_state. rewrite Hnc. unfold ignore. by rewrite Hc.
Qed.

(** Returning what was not used of an affordable request charges the use. *)
Lemma charged_dim d rem request usage limit :
  can_afford rem request = true → (∀ x, am_dim d rem = Some x → is_u64 x) →
  limit = (match usage with None => from_request request
                           | Some u => unused (from_request request) u end) →
  am_dim d (add (subtract rem request) limit) =
  charged (am_dim d rem) (req_dim d request) (used_dim d usage).
Proof.
  intros Haff%(can_afford_dim d) Hu ->. rewrite am_dim_add, am_dim_subtract.
  assert (Hret : am_dim d (match usage with None => from_request request
                           | Some u => unused (from_request request) u end) =
                 (λ x, x - used_dim d usage) <$> req_dim d request).
  { destruct usage, d; cbn; destruct (req_dim _ _) eqn:Hd; cbn in *; rewrite ?Hd; cbn;
      rewrite ?N.sub_0_r; done. }
  rewrite Hret. destruct (am_dim d rem) as [x|] eqn:Hx, (req_dim d request) as [q|]; try done.
  specialize (Hu _ eq_refl). rewrite sub_dim_exact by done. cbn.
  apply N.leb_le in Haff. f_equal. rewrite saturating_add_exact; unfold is_u64 in *; lia.
Qed.

(** The principal adapter is an exact round trip: on a state with a root for
    the principal, a successful [reserve] followed by [settle] with a usage
    report (or by [revoke], with none) leaves every earlier scope but the root
    and all reservations as they were, closes every scope it created, and leaves
    the root charged the reported usage, capped by the request, in each limited
    dimension (after [revoke]: exactly what it had). *)
Theorem reserve_settle_charges_usage st n principal root rsc request r st1 n1 usage :
  wf st n → u64_request request →
  principal_roots st !! principal = Some root → scopes st !! root = Some rsc →
  reserve principal request st n = (Ok r, st1, n1) →
  ∃ st2 a, close_legacy r usage st1 n1 = (Ok tt, st2, n1)
    ∧ reservations st2 = reservations st
    ∧ (∀ x, x ≠ root → is_Some (scopes st !! x) → scopes st2 !! x = scopes st !! x)
    ∧ (∀ x xsc, scopes st !! x = None → scopes st2 !! x = Some xsc → sc_closed xsc = true)
    ∧ scopes st2 !! root = Some (set_remaining rsc a)
    ∧ ∀ d, am_dim d a =
        charged (am_dim d (sc_remaining rsc)) (req_dim d request) (used_dim d usage).
Proof.
  intros Hw Hu Hroot Hrsc Hrun.
  destruct (reserve_close_legacy _ _ _ _ _ _ _ _ _ usage Hw Hu Hroot Hrsc Hrun)
    as (Haff & st2 & Hclose & _ & _ & Hrest).
  exists st2. eexists. split; [exact Hclose|]. split; [by eapply rs_reservations|].
  split; [by eapply rs_other|]. split; [by eapply rs_new|]. split; [by eapply rs_scope|].
  intros d. apply charged_dim; [done| |done]. intros x Hx.
  pose proof (wf_conserved _ _ Hw d _ _ Hrsc) as Hc. unfold conserved in Hc. rewrite Hx in Hc.
  destruct (req_dim d (limit_of rsc)); [apply Hc|done].
Qed.

End Lemmas.

(** ** Witness *)

Definition account : BudgetState * N :=
  match set_budget (H := sample_env) "alice" (Some 100) None BudgetState_default 0 with
  | (_, st, n) => (st, n)
  end.

Definition ask (t : N) : BudgetRequest := {| max_tokens := Some t; max_cost_micro := Some 5 |}.

Lemma account_wf : @wf sample_env account.1 account.2.
Proof.
  assert (Hk := keeps_set_budget (HOk := sample_env_ok) no_fate false "alice" (Some 100) None).
  refine (inv_wf no_fate false _ _ _).
  refine (proj1 (Hk _ BudgetState_default 0 _)).
  - intros [] x [= <-]. vm_compute. discriminate.
  - split; [apply wf_default|done|done].
Qed.

Lemma reserve_settle_charges_usage_witness :
  ∃ st1 st2 a, reserve (H := sample_env) "alice" (ask 40) account.1 account.2 = (Ok 7, st1, 7)
    ∧ close_legacy 7 (Some {| ur_permit_id := 0; ur_tokens_used := 15; ur_cost_micro := 0;
                              ur_wall_time_ms := 0; ur_output_bytes := 0; ur_exit_code := None |})
        st1 7 = (Ok tt, st2, 7)
    ∧ sc_remaining <$> scopes st2 !! 1 = Some a ∧ am_dim Tokens a = Some 85.
Proof.
  assert (Hrun : ∃ st1, reserve (H := sample_env) "alice" (ask 40) account.1 account.2 = (Ok 7, st1, 7))
    by (eexists; vm_compute; reflexivity).
  destruct Hrun as [st1 Hrun].
  assert (Hroot : scopes account.1 !! 1 =
    Some (mk_scope 1 None BudgetScopeKind.Rollout "principal:alice"
            {| max_tokens := Some 100; max_cost_micro := None |} None)) by (vm_compute; reflexivity).
  destruct (reserve_settle_charges_usage (HOk := sample_env_ok) account.1 account.2 "alice" 1
    (mk_scope 1 None BudgetScopeKind.Rollout "principal:alice"
            {| max_tokens := Some 100; max_cost_micro := None |} None) (ask 40) 7 st1 7 (Some {| ur_permit_id := 0; ur_tokens_used := 15; ur_cost_micro := 0;
                              ur_wall_time_ms := 0; ur_output_bytes := 0; ur_exit_code := None |})
    account_wf) as (st2 & a & Hclose & _ & _ & _ & Hsc & Ha).
  - intros [] x [= <-]; vm_compute; discriminate.
  - vm_compute. reflexivity.
  - exact Hroot.
  - exact Hrun.
  - exists st1, st2, a. split; [exact Hrun|]. split; [exact Hclose|].
    rewrite Hsc. split; [reflexivity|]. rewrite (Ha Tokens). reflexivity.
Defined.
