(* ===== verification/Lease.v ===== *)
(** * The resource lease manager (crates/kernel/src/admission/lease.rs)

    Exclusive, time-limited leases on named resources, kept in two maps: the
    active lease of each resource and the resource of each lease id.  The file
    proves that the two maps stay inverse to each other, that a lease excludes
    every other holder until it is released or expires, and what the two
    separately locked halves of [release] allow. *)
From S2P Require Import Prelude FabricTypes.

Record LeaseEntry := {
  le_id : ResourceLeaseId;
  le_resource : string;
  le_principal : string;
  le_duration_ms : N;
  le_acquired_at : N;
}.

Record LeaseState := {
  leases : gmap string LeaseEntry;
  by_id : gmap ResourceLeaseId string;
}.

Definition LeaseState_new : LeaseState := {| leases := ∅; by_id := ∅ |}.

Definition with_leases f (st : LeaseState) : LeaseState :=
  {| leases := f (leases st); by_id := by_id st |}.

Definition with_by_id f (st : LeaseState) : LeaseState :=
  {| leases := leases st; by_id := f (by_id st) |}.

(** [now_mono_ms.saturating_sub(entry.acquired_at) < entry.duration_ms] *)
Definition in_force (now_mono_ms : N) (e : LeaseEntry) : bool :=
  saturating_sub now_mono_ms (le_acquired_at e) <? le_duration_ms e.

Section Ops.
Context `{Env}.

Abbreviation L := (M LeaseState AdmissionError.t).

Definition acquire (principal : string) (request : LeaseRequest) (now_mono_ms : N)
    : L ResourceLeaseId :=
  st ← get_state;
  match leases st !! lr_resource request with
  | Some existing =>
      if in_force now_mono_ms existing then throw AdmissionError.LeaseUnavailable
      else modify (with_by_id (delete (le_id existing)))
  | None => mret tt
  end ;;
  id ← new_uuid;
  modify (with_leases (<[lr_resource request :=
    {| le_id := id; le_resource := lr_resource request; le_principal := principal;
       le_duration_ms := lr_duration_ms request; le_acquired_at := now_mono_ms |}]>)) ;;
  modify (with_by_id (<[id := lr_resource request]>)) ;;
  mret id.

(** The two critical sections of [release]: the id leaves [by_id] under one
    lock, the resource leaves [leases] under another. *)
Definition release_take (lease_id : ResourceLeaseId) : L (option string) :=
  st ← get_state;
  modify (with_by_id (delete lease_id)) ;;
  mret (by_id st !! lease_id).

Definition release_drop (resource : string) : L unit := modify (with_leases (delete resource)).

Definition release (lease_id : ResourceLeaseId) : L unit :=
  resource ← release_take lease_id;
  match resource with
  | Some resource => release_drop resource
  | None => mret tt
  end.

End Ops.

Definition is_leased (st : LeaseState) (resource : string) (now_mono_ms : N) : bool :=
  match leases st !! resource with
  | Some entry => in_force now_mono_ms entry
  | None => false
  end.

Definition active_count (st : LeaseState) (now_mono_ms : N) : nat :=
  size (filter (λ p, in_force now_mono_ms p.2 = true) (leases st)).

(** ** The calls a client makes, one after another *)

Inductive LeaseCall :=
| Acquire (principal : string) (request : LeaseRequest) (now : N)
| Release (id : ResourceLeaseId).

Definition run_lease `{Env} (call : LeaseCall) (st : LeaseState) (n : N) : LeaseState * N :=
  match call with
  | Acquire principal request now =>
      match acquire principal request now st n with (_, st', n') => (st', n') end
  | Release id => match release id st n with (_, st', n') => (st', n') end
  end.

Fixpoint run_leases `{Env} (calls : list LeaseCall) (st : LeaseState) (n : N) : LeaseState * N :=
  match calls with
  | [] => (st, n)
  | call :: rest => let '(st', n') := run_lease call st n in run_leases rest st' n'
  end.

(** A call that neither releases [id] nor comes once the lease [e] has run out. *)
Definition respects (e : LeaseEntry) (call : LeaseCall) : Prop :=
  match call with
  | Acquire _ _ now => in_force now e = true
  | Release id => id ≠ le_id e
  end.

(** ** Interleaved clients

    [acquire] holds the lease lock from its test to its insertion.  [release]
    does not: between its two halves another task may run, so a configuration
    also carries the resources whose second half is pending. *)
Inductive lease_step `{Env} : LeaseState * list string * N → LeaseState * list string * N → Prop :=
| step_acquire st pend n principal request now r st' n' :
    acquire principal request now st n = (r, st', n') →
    lease_step (st, pend, n) (st', pend, n')
| step_release_take st pend n id resource st' n' :
    release_take id st n = (Ok (Some resource), st', n') →
    lease_step (st, pend, n) (st', resource :: pend, n')
| step_release_miss st pend n id st' n' :
    release_take id st n = (Ok None, st', n') →
    lease_step (st, pend, n) (st', pend, n')
| step_release_drop st pend1 pend2 n resource st' n' :
    release_drop resource st n = (Ok tt, st', n') →
    lease_step (st, pend1 ++ resource :: pend2, n) (st', pend1 ++ pend2, n').

(** ** The invariant *)

Record lease_wf `{Env} (st : LeaseState) (n : N) : Prop := {
  lw_entry : ∀ r e, leases st !! r = Some e → le_resource e = r ∧ by_id st !! le_id e = Some r;
  lw_id : ∀ id r, by_id st !! id = Some r → ∃ e, leases st !! r = Some e ∧ le_id e = id;
  lw_drawn : ∀ id r, by_id st !! id = Some r → drawn n id;
}.

(** The entry a granted [acquire] inserts, and the state it leaves. *)
Definition grant `{Env} (n : N) (principal : string) (request : LeaseRequest) (now : N)
    : LeaseEntry :=
  {| le_id := uuid_v4 n; le_resource := lr_resource request; le_principal := principal;
     le_duration_ms := lr_duration_ms request; le_acquired_at := now |}.

Definition forget_expired (o : option LeaseEntry) (ids : gmap ResourceLeaseId string)
    : gmap ResourceLeaseId string :=
  match o with Some existing => delete (le_id existing) ids | None => ids end.

Definition granted_state `{Env} (st : LeaseState) (n : N) (e : LeaseEntry) : LeaseState :=
  {| leases := <[le_resource e := e]> (leases st);
     by_id := <[le_id e := le_resource e]> (forget_expired (leases st !! le_resource e) (by_id st)) |}.

Section Lemmas.
Context `{HEnv : Env} {HOk : EnvOk}.

Lemma lease_wf_new n : lease_wf LeaseState_new n.
Proof. split; cbn; intros *; by rewrite lookup_empty. Qed.

Lemma lease_wf_mono st n n' : n ≤ n' → lease_wf st n → lease_wf st n'.
Proof. intros Hn [He Hi Hd]. split; [done|done|]. intros. eapply drawn_mono; eauto. Qed.

(** [acquire], every branch. *)
Lemma acquire_cases st n principal request now :
  (is_leased st (lr_resource request) now = true
   ∧ acquire principal request now st n = (Err AdmissionError.LeaseUnavailable, st, n))
  ∨ (is_leased st (lr_resource request) now = false
   ∧ acquire principal request now st n =
       (Ok (uuid_v4 n), granted_state st n (grant n principal request now), n + 1)).
Proof.
  unfold acquire, is_leased, granted_state. cbn.
  unfold mbind, M_bind, get_state. destruct (leases st !! lr_resource request) as [e|] eqn:He.
  - destruct (in_force now e); [left|right]; (split; [done|reflexivity]).
  - right. split; [done|reflexivity].
Qed.

Lemma granted_wf st n principal request now :
  lease_wf st n → lease_wf (granted_state st n (grant n principal request now)) (n + 1).
Proof.
  intros [He Hi Hd]. unfold granted_state. cbn.
  set (ids := forget_expired _ _).
  assert (Hsub : ∀ id r, ids !! id = Some r → by_id st !! id = Some r ∧ r ≠ lr_resource request).
  { intros id r Hid. unfold ids, forget_expired in Hid.
    destruct (leases st !! lr_resource request) as [old|] eqn:Hold.
    - apply lookup_delete_Some in Hid as [Hne Hid]. split; [done|]. intros ->.
      destruct (Hi _ _ Hid) as (e' & He' & <-). congruence.
    - split; [done|]. intros ->. destruct (Hi _ _ Hid) as (e' & He' & <-). congruence. }
  split; cbn.
  - intros r e Hr. apply lookup_insert_Some in Hr as [[<- <-]|[Hne Hr]].
    + split; [done|]. cbn. apply lookup_insert_eq.
    + destruct (He _ _ Hr) as [<- Hid]. split; [done|].
      rewrite lookup_insert_ne by (intros Heq; apply (drawn_fresh n); rewrite Heq; eauto).
      unfold ids, forget_expired. destruct (leases st !! lr_resource request) as [old|] eqn:Hold; [|done].
      rewrite lookup_delete_ne; [done|]. intros Heq. destruct (He _ _ Hold) as [_ Hido].
      rewrite Heq in Hido. cbn in Hne. congruence.
  - intros id r Hr. apply lookup_insert_Some in Hr as [[<- <-]|[Hne Hr]].
    + eexists. split; [apply lookup_insert_eq|done].
    + destruct (Hsub _ _ Hr) as [Hid Hrr]. rewrite lookup_insert_ne by done. eauto.
  - intros id r Hr. apply lookup_insert_Some in Hr as [[<- <-]|[Hne Hr]].
    + apply drawn_here. lia.
    + apply Hsub in Hr as [Hr _]. eapply drawn_mono; [|eauto]. lia.
Qed.

(** [release], on a consistent state: the entry of this very lease, or nothing. *)
Lemma release_cases st n id :
  (∃ r, by_id st !! id = Some r
    ∧ release id st n = (Ok tt, {| leases := delete r (leases st); by_id := delete id (by_id st) |}, n))
  ∨ (by_id st !! id = None ∧ release id st n = (Ok tt, st, n)).
Proof.
  unfold release, release_take, release_drop, mbind, M_bind, get_state, modify, mret, M_ret.
  destruct (by_id st !! id) as [r|] eqn:Hid; [left; by exists r|].
  right. split; [done|]. unfold with_by_id. rewrite delete_id by done. by destruct st.
Qed.

Lemma released_wf st n id r :
  lease_wf st n → by_id st !! id = Some r →
  lease_wf {| leases := delete r (leases st); by_id := delete id (by_id st) |} n.
Proof.
  intros [He Hi Hd] Hid. split; cbn.
  - intros r' e Hr. apply lookup_delete_Some in Hr as [Hne Hr].
    destruct (He _ _ Hr) as [<- Hb]. split; [done|].
    rewrite lookup_delete_ne; [done|]. congruence.
  - intros id' r' Hr. apply lookup_delete_Some in Hr as [Hne Hr].
    destruct (Hi _ _ Hr) as (e & Hl & Hei). exists e. split; [|done].
    rewrite lookup_delete_ne; [done|]. intros <-. destruct (Hi _ _ Hid) as (e' & ? & ?). congruence.
  - intros id' r' Hr. apply lookup_delete_Some in Hr as [Hne Hr]. eauto.
Qed.

Lemma run_lease_wf call st n :
  lease_wf st n →
  n ≤ (run_lease call st n).2 ∧ lease_wf (run_lease call st n).1 (run_lease call st n).2.
Proof.
  intros Hw. destruct call as [principal request now|id]; cbn.
  - destruct (acquire_cases st n principal request now) as [[_ ->]|[_ ->]]; cbn.
    + split; [lia|done].
    + split; [lia|by apply granted_wf].
  - destruct (release_cases st n id) as [(r & Hr & ->)|[_ ->]]; cbn;
      (split; [lia|]); [by eapply released_wf|done].
Qed.

Lemma run_leases_wf calls : ∀ st n,
  lease_wf st n → lease_wf (run_leases calls st n).1 (run_leases calls st n).2.
Proof.
  induction calls as [|call calls IH]; intros st n Hw; [done|]. cbn.
  destruct (run_lease_wf call st n Hw) as [_ Hw'].
  destruct (run_lease call st n) as [st' n']. by apply IH.
Qed.

(** A call that respects a lease keeps its entry in place. *)
Lemma run_lease_respects call st n e :
  lease_wf st n → leases st !! le_resource e = Some e → respects e call →
  leases (run_lease call st n).1 !! le_resource e = Some e.
Proof.
  intros Hw Hl Hc. destruct call as [principal request now|id]; cbn in *.
  - destruct (acquire_cases st n principal request now) as [[_ ->]|[Hfree ->]]; [done|]. cbn.
    destruct (decide (lr_resource request = le_resource e)) as [Heq|Hne].
    + unfold is_leased in Hfree. rewrite Heq, Hl in Hfree. congruence.
    + by rewrite lookup_insert_ne.
  - destruct (release_cases st n id) as [(r & Hr & ->)|[_ ->]]; [|done]. cbn.
    rewrite lookup_delete_ne; [done|]. intros ->.
    destruct (lw_id _ _ Hw _ _ Hr) as (e' & ? & <-). congruence.
Qed.

Lemma run_leases_respects calls : ∀ st n e,
  lease_wf st n → leases st !! le_resource e = Some e → Forall (respects e) calls →
  leases (run_leases calls st n).1 !! le_resource e = Some e.
Proof.
  induction calls as [|call calls IH]; intros st n e Hw Hl Hc; [done|].
  apply Forall_cons in Hc as [Hc Hcs]. cbn.
  pose proof (run_lease_respects call st n e Hw Hl Hc) as Hl'.
  destruct (run_lease_wf call st n Hw) as [_ Hw'].
  destruct (run_lease call st n) as [st' n']. by apply IH.
Qed.

(** Exclusive until expiry: once [acquire] has granted a lease, then after
    every run of calls that do not release it and come before it runs out, the
    lease is still the resource's entry, and acquiring the resource again before
    it runs out is refused and changes nothing. *)
Theorem lease_exclusive_until_expiry st n principal request now id st1 n1 calls :
  lease_wf st n → acquire principal request now st n = (Ok id, st1, n1) →
  let e := grant n principal request now in
  Forall (respects e) calls →
  let st2 := (run_leases calls st1 n1).1 in let n2 := (run_leases calls st1 n1).2 in
  leases st2 !! lr_resource request = Some e ∧ le_id e = id
  ∧ ∀ other later duration, in_force later e = true →
      is_leased st2 (lr_resource request) later = true
      ∧ acquire other {| lr_resource := lr_resource request; lr_duration_ms := duration |} later st2 n2
        = (Err AdmissionError.LeaseUnavailable, st2, n2).
Proof.
  intros Hw Hrun e Hc st2 n2.
  destruct (acquire_cases st n principal request now) as [[_ Heq]|[_ Heq]];
    rewrite Heq in Hrun; [done|]. injection Hrun as <- <- <-. fold e in st2, n2.
  assert (Hl : leases st2 !! le_resource e = Some e).
  { apply run_leases_respects; [by apply granted_wf| |done]. cbn. apply lookup_insert_eq. }
  change (le_resource e) with (lr_resource request) in Hl.
  split; [done|]. split; [done|]. intros other later duration Hlater.
  assert (His : is_leased st2 (lr_resource request) later = true)
    by (unfold is_leased; by rewrite Hl).
  split; [done|].
  destruct (acquire_cases st2 n2 other
    {| lr_resource := lr_resource request; lr_duration_ms := duration |} later) as [[_ ->]|[Hf _]];
    [done|]. cbn in Hf. congruence.
Qed.

(** A lease that was released, or replaced after its expiry, is dead: after
    every later run of calls, releasing its id again changes nothing, so a late
    release never frees a resource somebody else has leased. *)
Theorem stale_release_is_harmless st n id calls :
  lease_wf st n → drawn n id → by_id st !! id = None →
  let st' := (run_leases calls st n).1 in let n' := (run_leases calls st n).2 in
  release id st' n' = (Ok tt, st', n').
Proof.
  intros Hw Hd Hid st' n'.
  assert (Hdead : by_id st' !! id = None).
  { revert st n Hw Hd Hid st' n'. induction calls as [|call calls IH]; intros st n Hw Hd Hid; [done|].
    cbn. destruct (run_lease_wf call st n Hw) as [Hn Hw'].
    assert (by_id (run_lease call st n).1 !! id = None) as Hid'.
    { destruct call as [principal request now|id']; cbn.
      - destruct (acquire_cases st n principal request now) as [[_ ->]|[_ ->]]; [done|]. cbn.
        rewrite lookup_insert_ne by (intros <-; by apply (drawn_fresh n)).
        unfold forget_expired. destruct (leases st !! _); [|done].
        rewrite lookup_delete. by case_decide.
      - destruct (release_cases st n id') as [(r & Hr & ->)|[_ ->]]; [|done]. cbn.
        rewrite lookup_delete. by case_decide. }
    destruct (run_lease call st n) as [st1 n1]. cbn in *. apply IH; [done| |done].
    by eapply drawn_mono. }
  destruct (release_cases st' n' id) as [(r & Hr & _)|[_ ->]]; [congruence|done].
Qed.

End Lemmas.

(** ** Witnesses *)

Definition gpu (duration : N) : LeaseRequest := {| lr_resource := "gpu"; lr_duration_ms := duration |}.

Lemma lease_exclusive_until_expiry_witness :
  let run := acquire (H := sample_env) "alice" (gpu 500) 1000 LeaseState_new 0 in
  ∃ st1, run = (Ok 1, st1, 1)
    ∧ leases (run_leases (H := sample_env) [Acquire "bob" (gpu 10) 1200; Release 9] st1 1).1 !! "gpu"
      = Some (grant (H := sample_env) 0 "alice" (gpu 500) 1000).
Proof.
  eexists. split; [reflexivity|].
  refine (proj1 (lease_exclusive_until_expiry (HOk := sample_env_ok) LeaseState_new 0 "alice"
    (gpu 500) 1000 1 _ 1 [Acquire "bob" (gpu 10) 1200; Release 9] (lease_wf_new (HEnv := sample_env) 0)
    eq_refl _)).
  repeat constructor. cbn. lia.
Defined.

Lemma stale_release_is_harmless_witness :
  let st := (run_leases (H := sample_env) [Acquire "alice" (gpu 500) 1000; Acquire "bob" (gpu 10) 2000]
               LeaseState_new 0).1 in
  release 1 st 2 = (Ok tt, st, 2) ∧ is_leased st "gpu" 2005 = true.
Proof.
  split; [|vm_compute; reflexivity].
  apply (stale_release_is_harmless (HOk := sample_env_ok)
    (run_leases (H := sample_env) [Acquire "alice" (gpu 500) 1000; Acquire "bob" (gpu 10) 2000]
               LeaseState_new 0).1 2 1 []).
  - apply (run_leases_wf (HOk := sample_env_ok)
      [Acquire "alice" (gpu 500) 1000; Acquire "bob" (gpu 10) 2000] LeaseState_new 0), lease_wf_new.
  - exists 0. split; [lia|reflexivity].
  - vm_compute. reflexivity.
Defined.

(** ** The window inside [release]

    Between the two critical sections of [release] another task can acquire the
    expired resource; the second half then removes the newcomer's lease, and a
    third task is granted the resource while the newcomer's lease is in force. *)
Theorem release_window_evicts_new_holder :
  ∃ st0 st1 st2 st3 n,
    acquire (H := sample_env) "alice" (gpu 500) 1000 LeaseState_new 0 = (Ok 1, st0, 1)
    ∧ rtc (lease_step (H := sample_env)) (st0, [], 1) (st1, ["gpu"], 2)
    ∧ leases st1 !! "gpu" = Some (grant (H := sample_env) 1 "bob" (gpu 500) 2000)
    ∧ lease_step (H := sample_env) (st1, ["gpu"], 2) (st2, [], 2)
    ∧ acquire (H := sample_env) "carol" (gpu 500) 2001 st2 2 = (Ok 3, st3, n)
    ∧ in_force 2001 (grant (H := sample_env) 1 "bob" (gpu 500) 2000) = true.
Proof.
  eexists _, _, _, _, _. split; [reflexivity|]. split.
  { eapply rtc_l; [eapply (step_release_take _ _ _ 1); reflexivity|].
    eapply rtc_l; [eapply (step_acquire _ _ _ "bob" (gpu 500) 2000); reflexivity|]. apply rtc_refl. }
  split; [reflexivity|]. split; [eapply (step_release_drop _ [] []); reflexivity|].
  split; reflexivity.
Qed.
