(* ===== verification/Admission.v ===== *)
(** * Admission control

    The contract of crates/fabric/src/include/admission.rs as a class, its two
    implementations of crates/kernel/src/admission (production.rs and the
    testing controller of mod.rs), and the lemmas the properties of
    AdmissionSpec use. *)
From S2P Require Import Prelude FabricTypes Budget BudgetInv BudgetPrincipal Lease.

(** ** The interface (trait [AdmissionController]) *)

Class AdmissionController (S : Type) := {
  admit_ : AdmissionRequest → M S AdmissionError.t ExecutionPermit;
  settle : PermitId → UsageReport → M S AdmissionError.t unit;
  revoke : PermitId → RevokeReason.t → M S AdmissionError.t unit;
}.

(** What a client may rely on.  [ad_ok] is the implementation's invariant and
    [ad_live] says that a permit was issued and neither settled nor revoked. *)
Class AdmissionLaws `{Env} (S : Type) `{AdmissionController S} := {
  ad_ok : S → N → Prop;
  ad_live : S → PermitId → Prop;
  ad_valid : AdmissionRequest → Prop;
  ad_live_dec : ∀ s p, Decision (ad_live s p);
  ad_ok_mono : ∀ s n n', n ≤ n' → ad_ok s n → ad_ok s n';
  ad_live_drawn : ∀ s n p, ad_ok s n → ad_live s p → drawn n p;
  ad_admit : ∀ request s n, ad_ok s n → ad_valid request →
    wp (admit_ request) (λ r s' n', ad_ok s' n' ∧ n ≤ n' ∧
      match r with
      | Ok permit => ¬ ad_live s (ep_id permit) ∧ ad_live s' (ep_id permit)
          ∧ ep_operation_id permit = ar_operation_id request
          ∧ ep_granted_scope permit = ar_requested_scope request
          ∧ (ar_sandbox request = SandboxRequirement.NotRequired ↔
             ep_sandbox permit = SandboxDecision.NotApplicable)
          ∧ ∀ q, q ≠ ep_id permit → (ad_live s' q ↔ ad_live s q)
      | Err _ => ∀ q, ad_live s' q ↔ ad_live s q
      | Panic => False
      end) s n;
  ad_settle : ∀ p usage s n, ad_ok s n → ad_live s p →
    wp (settle p usage) (λ r s' n', ad_ok s' n' ∧ n ≤ n' ∧ r = Ok tt
      ∧ ¬ ad_live s' p ∧ ∀ q, q ≠ p → (ad_live s' q ↔ ad_live s q)) s n;
  ad_settle_dead : ∀ p usage s n, ad_ok s n → ¬ ad_live s p →
    settle p usage s n = (Err AdmissionError.AlreadySettled, s, n);
  ad_revoke : ∀ p reason s n, ad_ok s n →
    wp (revoke p reason) (λ r s' n', ad_ok s' n' ∧ n ≤ n' ∧ r ≠ Panic
      ∧ ¬ ad_live s' p ∧ ∀ q, q ≠ p → (ad_live s' q ↔ ad_live s q)) s n;
}.

(** Both controllers give a permit thirty seconds. *)
Definition permit_ttl_ms : N := 30000.

(** ** The testing controller (admission/mod.rs) *)

Module AllowAll.

Record State := { settled : gset PermitId }.

Definition new : State := {| settled := ∅ |}.

Section Ops.
Context `{Env}.
Abbreviation A := (M State AdmissionError.t).

Definition admit_ (request : AdmissionRequest) : A ExecutionPermit :=
  now ← read_mono;
  id ← new_uuid;
  mret {| ep_id := id; ep_operation_id := ar_operation_id request;
          ep_process_id := ar_process_id request; ep_capability := ar_capability request;
          ep_granted_scope := ar_requested_scope request;
          ep_expires_at := deadline_after now permit_ttl_ms;
          ep_sandbox := match ar_sandbox request with
                        | SandboxRequirement.NotRequired => SandboxDecision.NotApplicable
                        | _ => SandboxDecision.Passed
                        end;
          ep_budget_reservation := None; ep_lease := None |}.

Definition settle (permit_id : PermitId) (_usage : UsageReport) : A unit :=
  st ← get_state;
  if decide (permit_id ∈ settled st) then throw AdmissionError.AlreadySettled
  else put_state {| settled := {[permit_id]} ∪ settled st |}.

Definition revoke (_permit_id : PermitId) (_reason : RevokeReason.t) : A unit := mret tt.

#[global] Instance controller : AdmissionController State :=
  {| Admission.admit_ := admit_; Admission.settle := settle; Admission.revoke := revoke |}.
End Ops.
End AllowAll.

(** ** The production controller (admission/production.rs) *)

Module Production.

Record PermitRecord := {
  rec_principal : string;
  rec_process_id : ProcessId;
  rec_operation_id : OperationId;
  rec_budget_reservation : option BudgetReservationId;
  rec_lease : option ResourceLeaseId;
}.

(** The budget controller and the lease manager are shared objects ([Arc]); the
    state of this component contains them. *)
Record State := {
  active : gmap PermitId PermitRecord;
  settled : gset PermitId;
  budget : option Controller;
  lease_mgr : option LeaseState;
  sandbox_available : bool;
}.

Definition new : State :=
  {| active := ∅; settled := ∅; budget := None; lease_mgr := None; sandbox_available := true |}.

Definition with_active f (st : State) : State :=
  {| active := f (active st); settled := settled st; budget := budget st;
     lease_mgr := lease_mgr st; sandbox_available := sandbox_available st |}.

Definition with_settled f (st : State) : State :=
  {| active := active st; settled := f (settled st); budget := budget st;
     lease_mgr := lease_mgr st; sandbox_available := sandbox_available st |}.

(** The builder methods [with_budget], [with_leases], [with_sandbox_available]. *)
Definition with_budget (b : option Controller) (st : State) : State :=
  {| active := active st; settled := settled st; budget := b;
     lease_mgr := lease_mgr st; sandbox_available := sandbox_available st |}.

Definition with_leases (l : option LeaseState) (st : State) : State :=
  {| active := active st; settled := settled st; budget := budget st;
     lease_mgr := l; sandbox_available := sandbox_available st |}.

Definition with_sandbox_available (available : bool) (st : State) : State :=
  {| active := active st; settled := settled st; budget := budget st;
     lease_mgr := lease_mgr st; sandbox_available := available |}.

Section Ops.
Context `{Env}.
Abbreviation A := (M State AdmissionError.t).

(** A method of the shared budget controller or lease manager, on its state. *)
Definition on_budget (c : Controller) {X} (m : M BudgetState AdmissionError.t X) : A X :=
  λ st n, match m (ct_state c) n with
          | (r, b, n') => (r, with_budget (Some (set_state b c)) st, n')
          end.

Definition on_leases (l : LeaseState) {X} (m : M LeaseState AdmissionError.t X) : A X :=
  λ st n, match m l n with (r, l', n') => (r, with_leases (Some l') st, n') end.

(** [admit]: the budget reservation. *)
Definition reserve_budget (principal : string) (request : AdmissionRequest) (permit_id : PermitId)
    : A (option BudgetReservationId) :=
  st ← get_state;
  match budget st, ar_budget request with
  | Some c, Some budget_req =>
      hierarchical ← on_budget c (has_operation_scope (ar_operation_id request));
      id ← if hierarchical : bool
           then receipt ← on_budget c (reserve_capability_for_operation
                            (ar_operation_id request) permit_id budget_req);
                mret (br_reservation_id receipt)
           else on_budget c (Budget.reserve principal budget_req);
      mret (Some id)
  | _, _ => mret None
  end.

(** [admit]: the lease, with the reservation rolled back when it is refused. *)
Definition acquire_lease (principal : string) (request : AdmissionRequest) (now : MonoTime)
    (budget_reservation : option BudgetReservationId) : A (option ResourceLeaseId) :=
  st ← get_state;
  match lease_mgr st, ar_lease request with
  | Some l, Some lease_req =>
      r ← try_ (on_leases l (acquire principal lease_req now));
      match r with
      | inr id => mret (Some id)
      | inl err =>
          match budget st, budget_reservation with
          | Some c, Some reservation => on_budget c (Budget.revoke principal reservation)
          | _, _ => mret tt
          end ;;
          throw err
      end
  | _, _ => mret None
  end.

Definition sandbox_decision (request : AdmissionRequest) : A SandboxDecision.t :=
  st ← get_state;
  match ar_sandbox request with
  | SandboxRequirement.NotRequired => mret SandboxDecision.NotApplicable
  | SandboxRequirement.Required | SandboxRequirement.RequiredThenPromote =>
      if sandbox_available st then mret SandboxDecision.Required
      else throw AdmissionError.SandboxRequiredUnavailable
  end.

Definition admit_ (request : AdmissionRequest) : A ExecutionPermit :=
  now ← read_mono;
  permit_id ← new_uuid;
  let principal := ar_principal request in
  budget_reservation ← reserve_budget principal request permit_id;
  lease ← acquire_lease principal request now budget_reservation;
  sandbox ← sandbox_decision request;
  modify (with_active (<[permit_id :=
    {| rec_principal := principal; rec_process_id := ar_process_id request;
       rec_operation_id := ar_operation_id request;
       rec_budget_reservation := budget_reservation; rec_lease := lease |}]>)) ;;
  mret {| ep_id := permit_id; ep_operation_id := ar_operation_id request;
          ep_process_id := ar_process_id request; ep_capability := ar_capability request;
          ep_granted_scope := ar_requested_scope request;
          ep_expires_at := deadline_after now permit_ttl_ms; ep_sandbox := sandbox;
          ep_budget_reservation := budget_reservation; ep_lease := lease |}.

(** The tail of [settle] (with a usage report) and of [revoke] (without): the
    reservation goes back to the budget, the lease is released. *)
Definition give_back (record : PermitRecord) (usage : option UsageReport) : A unit :=
  st ← get_state;
  match budget st, rec_budget_reservation record with
  | Some c, Some reservation =>
      on_budget c (match usage with
                   | Some usage => Budget.settle (rec_principal record) reservation usage
                   | None => Budget.revoke (rec_principal record) reservation
                   end)
  | _, _ => mret tt
  end ;;
  match lease_mgr st, rec_lease record with
  | Some l, Some lease => on_leases l (release lease)
  | _, _ => mret tt
  end.

Definition settle (permit_id : PermitId) (usage : UsageReport) : A unit :=
  st ← get_state;
  modify (with_active (delete permit_id)) ;;
  match active st !! permit_id with
  | None => throw AdmissionError.AlreadySettled
  | Some record =>
      if decide (permit_id ∈ settled st) then throw AdmissionError.AlreadySettled
      else modify (with_settled (λ s, {[permit_id]} ∪ s)) ;;
           give_back record (Some usage)
  end.

Definition revoke (permit_id : PermitId) (_reason : RevokeReason.t) : A unit :=
  st ← get_state;
  if decide (permit_id ∈ settled st) then throw AdmissionError.AlreadySettled
  else
    modify (with_active (delete permit_id)) ;;
    match active st !! permit_id with
    | None => mret tt
    | Some record => give_back record None
    end.

(** The permits of one owner, collected before the first one is revoked. *)
Definition permits_where (i : N) (st : State) (owned : PermitRecord → bool) : list PermitId :=
  omap (λ e, if owned e.2 then Some e.1 else None) (hash_entries i (active st)).

Definition revoke_all (owned : PermitRecord → bool) : A unit :=
  i ← tick;
  st ← get_state;
  for_each (permits_where i st owned)
    (λ permit, ignore (revoke permit RevokeReason.OperationCancelled)).

Definition revoke_process_permits (process : ProcessId) : A unit :=
  revoke_all (λ record, rec_process_id record =? process).

Definition revoke_operation_permits (operation : OperationId) : A unit :=
  revoke_all (λ record, rec_operation_id record =? operation).

Definition active_for_process (st : State) (process : ProcessId) : nat :=
  size (filter (λ e, rec_process_id e.2 = process) (active st)).

#[global] Instance controller : AdmissionController State :=
  {| Admission.admit_ := admit_; Admission.settle := settle; Admission.revoke := revoke |}.

End Ops.

(** ** The invariant *)

(** The reservations of active permits stand for capability scopes, or are dead. *)
Definition fates (m : gmap PermitId PermitRecord) : Fate := λ r o,
  o = Some BudgetScopeKind.Capability
  ∧ ∃ p record, m !! p = Some record ∧ rec_budget_reservation record = Some r.

(** [tree] asks in addition that no open budget scope has a closed parent, which
    holds as long as no remaining capacity is transferred. *)
Record adm_inv `{Env} (tree : bool) (st : State) (n : N) : Prop := {
  aw_active : ∀ p record, active st !! p = Some record → drawn n p;
  aw_settled : ∀ p, p ∈ settled st → drawn n p ∧ active st !! p = None;
  aw_budget : ∀ c, budget st = Some c → inv (fates (active st)) tree (ct_state c) n;
  aw_leases : ∀ l, lease_mgr st = Some l → lease_wf l n;
  aw_lease_drawn : ∀ p record id, active st !! p = Some record → rec_lease record = Some id →
    drawn n id;
  aw_lease_inj : ∀ p q rp rq id, active st !! p = Some rp → active st !! q = Some rq →
    rec_lease rp = Some id → rec_lease rq = Some id → p = q;
}.

Arguments aw_active {_ _} _ _ _ _ _ _.
Arguments aw_settled {_ _} _ _ _ _ _.
Arguments aw_budget {_ _} _ _ _ _ _.
Arguments aw_leases {_ _} _ _ _ _ _.
Arguments aw_lease_drawn {_ _} _ _ _ _ _ _ _ _.
Arguments aw_lease_inj {_ _} _ _ _ _ _ _ _ _ _ _ _ _.

Abbreviation adm_wf := (adm_inv false).

Definition valid_request (request : AdmissionRequest) : Prop :=
  ∀ b, ar_budget request = Some b → u64_request b.

(** What the shared controllers hold: the live reservations and the leases. *)
Definition live_reservations (st : State) : option (gmap BudgetReservationId BudgetScopeId) :=
  (λ c, reservations (ct_state c)) <$> budget st.

Definition reservation_dead (st : State) (r : BudgetReservationId) : Prop :=
  ∀ c, budget st = Some c → reservations (ct_state c) !! r = None.

Definition lease_dead (st : State) (id : ResourceLeaseId) : Prop :=
  ∀ l, lease_mgr st = Some l → by_id l !! id = None.

(** ** The calls of clients and of the kernel, one after another *)

Inductive AdmissionCall :=
| Admit (request : AdmissionRequest)
| Settle (permit : PermitId) (usage : UsageReport)
| Revoke (permit : PermitId) (reason : RevokeReason.t)
| RevokeProcessPermits (process : ProcessId)
| RevokeOperationPermits (operation : OperationId)
| BudgetCalls (call : BudgetCall).

Definition call_valid (call : AdmissionCall) : Prop :=
  match call with
  | Admit request => valid_request request
  | BudgetCalls call => u64_request (call_request call)
  | _ => True
  end.

Definition run_admission `{Env} (call : AdmissionCall) : M State AdmissionError.t unit :=
  match call with
  | Admit request => void (admit_ request)
  | Settle permit usage => settle permit usage
  | Revoke permit reason => revoke permit reason
  | RevokeProcessPermits process => revoke_process_permits process
  | RevokeOperationPermits operation => revoke_operation_permits operation
  | BudgetCalls call => λ st n,
      match budget st with
      | Some c => match run_call call c n with
                  | (r, c', n') => (r, with_budget (Some c') st, n')
                  end
      | None => (Ok tt, st, n)
      end
  end.

Fixpoint run_admissions `{Env} (calls : list AdmissionCall) (st : State) (n : N) : State * N :=
  match calls with
  | [] => (st, n)
  | call :: rest =>
      match run_admission call st n with (_, st', n') => run_admissions rest st' n' end
  end.

End Production.
