(* ===== verification/AdmissionInv.v ===== *)
(** * Lemmas on the production admission controller

    How [admit], [settle] and [revoke] act on the permit table, on the shared
    budget controller and on the lease manager, and that every call keeps the
    invariant [adm_inv]. *)
From S2P Require Import Prelude FabricTypes Budget BudgetInv BudgetPrincipal Lease Admission.
Import Production.

Definition either (R R' : Fate) : Fate := λ r o, R r o ∨ R' r o.

Definition cap_fate (r : BudgetReservationId) : Fate := λ r' o,
  r' = r ∧ o = Some BudgetScopeKind.Capability.

(** A reservation for a capability: it is new, live, and stands for a capability. *)
Definition reserves `{Env} (R : Fate) (tree : bool) (st : BudgetState) (n : N)
    (o : option BudgetReservationId) (st' : BudgetState) (n' : N) : Prop :=
  match o with
  | Some r => ¬ drawn n r ∧ inv (either R (cap_fate r)) tree st' n'
              ∧ is_Some (reservations st' !! r)
  | None => inv R tree st' n'
  end ∧ n ≤ n'.

(** The record of a permit that was taken out of the table: what [give_back]
    returns is still its own. *)
Record owned `{Env} (tree : bool) (st : State) (n : N) (record : PermitRecord) : Prop := {
  ow_budget : ∀ c r, budget st = Some c → rec_budget_reservation record = Some r →
    inv (either (fates (active st)) (cap_fate r)) tree (ct_state c) n;
  ow_lease : ∀ id, rec_lease record = Some id → drawn n id;
  ow_lease_inj : ∀ id q rq, rec_lease record = Some id → active st !! q = Some rq →
    rec_lease rq ≠ Some id;
}.

(** The permit [p] with this record is over: it left the table, its reservation
    and its lease are dead, and no other lease was touched. *)
Record ended `{Env} (tree : bool) (st : State) (n : N) (p : PermitId) (record : PermitRecord)
    (st' : State) (n' : N) : Prop := {
  en_time : n ≤ n';
  en_wf : adm_inv tree st' n';
  en_active : active st' = delete p (active st);
  en_budget : ∀ r, rec_budget_reservation record = Some r → reservation_dead st' r;
  en_lease : ∀ id, rec_lease record = Some id → lease_dead st' id;
  en_other : ∀ l l' id, lease_mgr st = Some l → lease_mgr st' = Some l' →
    rec_lease record ≠ Some id → by_id l' !! id = by_id l !! id;
}.

(** The permit tables and the configuration are the same. *)
Definition same_tables (st st' : State) : Prop :=
  active st' = active st ∧ settled st' = settled st
  ∧ sandbox_available st' = sandbox_available st.

(** After the budget step of [admit]. *)
Definition budget_post `{Env} (tree : bool) (st : State) (n : N) (request : AdmissionRequest)
    (res : Result AdmissionError.t (option BudgetReservationId)) (st' : State) (n' : N) : Prop :=
  same_tables st st' ∧ lease_mgr st' = lease_mgr st ∧ n ≤ n' ∧ adm_inv tree st' n' ∧
  match res with
  | Ok (Some r) => ¬ drawn n r ∧ ∃ c, budget st' = Some c
      ∧ is_Some (reservations (ct_state c) !! r)
      ∧ inv (either (fates (active st)) (cap_fate r)) tree (ct_state c) n'
  | Ok None => st' = st ∧ (budget st = None ∨ ar_budget request = None)
  | Err _ => True
  | Panic => False
  end.

(** The budget of [st] knows the reservation of a permit in the making. *)
Definition holds_reservation `{Env} (tree : bool) (st : State) (n : N) (o : option BudgetReservationId) : Prop :=
  ∀ r, o = Some r → ∃ c, budget st = Some c
    ∧ inv (either (fates (active st)) (cap_fate r)) tree (ct_state c) n.

(** After the lease step of [admit]. *)
Definition lease_post `{Env} (tree : bool) (st : State) (n : N) (request : AdmissionRequest)
    (o : option BudgetReservationId)
    (res : Result AdmissionError.t (option ResourceLeaseId)) (st' : State) (n' : N) : Prop :=
  same_tables st st' ∧ n ≤ n' ∧ adm_inv tree st' n' ∧
  match res with
  | Ok lease => budget st' = budget st ∧
      match lease with
      | Some id => ¬ drawn n id ∧ drawn n' id ∧ ∃ lr l, ar_lease request = Some lr
          ∧ lease_mgr st' = Some l ∧ by_id l !! id = Some (lr_resource lr)
      | None => st' = st
      end
  | Err _ => lease_mgr st' = lease_mgr st ∧ ∀ r, o = Some r → reservation_dead st' r
  | Panic => False
  end.

Definition record_of (request : AdmissionRequest) (o : option BudgetReservationId)
    (lease : option ResourceLeaseId) : PermitRecord :=
  {| rec_principal := ar_principal request; rec_process_id := ar_process_id request;
     rec_operation_id := ar_operation_id request; rec_budget_reservation := o; rec_lease := lease |}.

Definition permit_of (request : AdmissionRequest) (id : PermitId) (now : MonoTime)
    (d : SandboxDecision.t) (o : option BudgetReservationId) (lease : option ResourceLeaseId)
    : ExecutionPermit :=
  {| ep_id := id; ep_operation_id := ar_operation_id request;
     ep_process_id := ar_process_id request; ep_capability := ar_capability request;
     ep_granted_scope := ar_requested_scope request;
     ep_expires_at := deadline_after now permit_ttl_ms; ep_sandbox := d;
     ep_budget_reservation := o; ep_lease := lease |}.

(** After [admit]. *)
Definition admit_post `{Env} (tree : bool) (st : State) (n : N) (request : AdmissionRequest)
    (res : Result AdmissionError.t ExecutionPermit) (st' : State) (n' : N) : Prop :=
  n ≤ n' ∧ adm_inv tree st' n' ∧ settled st' = settled st
  ∧ sandbox_available st' = sandbox_available st ∧
  match res with
  | Ok permit => ¬ drawn n (ep_id permit)
      ∧ active st' = <[ep_id permit := record_of request (ep_budget_reservation permit)
                                         (ep_lease permit)]> (active st)
      ∧ (∃ i, n ≤ i ∧ permit = permit_of request (ep_id permit) (mono_now i) (ep_sandbox permit)
                                 (ep_budget_reservation permit) (ep_lease permit))
      ∧ (ar_sandbox request = SandboxRequirement.NotRequired ↔
         ep_sandbox permit = SandboxDecision.NotApplicable)
      ∧ (ep_sandbox permit = SandboxDecision.NotApplicable
         ∨ ep_sandbox permit = SandboxDecision.Required)
      ∧ (∀ r, ep_budget_reservation permit = Some r →
           ∃ c, budget st' = Some c ∧ is_Some (reservations (ct_state c) !! r))
      ∧ (∀ id, ep_lease permit = Some id → ∃ lr l, ar_lease request = Some lr
           ∧ lease_mgr st' = Some l ∧ by_id l !! id = Some (lr_resource lr))
  | Err _ => active st' = active st
  | Panic => False
  end.

(** How the controller may change: time moves on, the invariant holds, permits
    once issued do not come back, settled permits stay settled. *)
Record evolves `{Env} (tree : bool) (st : State) (n : N) (st' : State) (n' : N) : Prop := {
  ev_time : n ≤ n';
  ev_wf : adm_inv tree st' n';
  ev_active : ∀ p, drawn n p → active st !! p = None → active st' !! p = None;
  ev_settled : settled st ⊆ settled st';
}.

(** The calls that keep closed budget scopes without open children. *)
Definition keeps_tree (call : AdmissionCall) : bool :=
  match call with BudgetCalls call => negb (is_transfer call) | _ => true end.

Section BudgetSide.
Context `{HEnv : Env} {HOk : EnvOk}.
Abbreviation B := (M BudgetState AdmissionError.t).

Lemma inv_weaken (R R' : Fate) tree st n :
  (∀ r o, R' r o → R r o) → inv R tree st n → inv R' tree st n.
Proof. intros HR [? Hf ?]. split; eauto. Qed.

Lemma inv_either_dead R tree st n r :
  inv R tree st n → drawn n r → reservations st !! r = None → inv (either R (dead_fate r)) tree st n.
Proof.
  intros [? Hf ?] Hd Hr. split; [done| |done]. intros r' o [HR|[-> ->]]; [by apply Hf|].
  split; [done|]. congruence.
Qed.

Lemma inv_either_cap R tree st n r k sc :
  inv R tree st n → reservations st !! r = Some k → scopes st !! k = Some sc →
  kind_of sc = BudgetScopeKind.Capability → inv (either R (cap_fate r)) tree st n.
Proof.
  intros [Hw Hf ?] Hr Hk Hkind. split; [done| |done]. intros r' o [HR|[-> ->]]; [by apply Hf|].
  apply (lk_live _ _ (wf_linked _ _ Hw)) in Hr as Hl. destruct Hl as (sc' & ? & ? & _).
  split; [by eapply (lk_res_drawn _ _ (wf_linked _ _ Hw) k sc')|].
  intros k' Hk'. assert (k' = k) as -> by congruence. exists sc. split; [done|congruence].
Qed.

(** Closing a reservation of a capability scope leaves it dead: nothing is ever
    reserved below a capability. *)
Lemma close_capability_dead R tree st n r usage :
  inv R tree st n → R r (Some BudgetScopeKind.Capability) →
  wp (ignore (close_locked r usage)) (λ res st' n', res = Ok tt ∧ n' = n
    ∧ inv (either R (dead_fate r)) tree st' n ∧ legacy_chains st' = legacy_chains st) st n.
Proof.
  intros Hi HR. destruct (inv_fate _ _ _ _ Hi _ _ HR) as [Hdr Hk].
  pose proof (keeps_close R tree r usage st n Hi) as Hkeep. unfold wp in Hkeep |- *. unfold ignore.
  pose proof (wf_linked _ _ (inv_wf _ _ _ _ Hi)) as Hl.
  destruct (close_locked_linked st n r usage Hl)
    as [(k & sc & p & psc & Hr & Hks & _ & _ & _ & _ & _ & Heq)|[[Hr Heq]|
        (k & k' & sc' & Hr & Hk' & Ho & _)]]; [..|].
  - rewrite Heq in Hkeep |- *. destruct Hkeep as [Hi' _]. split_and!; [done|done| |done].
    apply inv_either_dead; [done|done|]. cbn. apply lookup_delete_eq.
  - rewrite Heq. split_and!; [done|done| |done]. by apply inv_either_dead.
  - exfalso. destruct (Hk _ Hr) as (sc & Hsc & Hkind). injection Hkind as Hkind.
    apply open_child_of_true in Ho as [_ Hp].
    destruct (lk_child _ _ Hl _ _ _ Hk' Hp) as (psc & ? & Hpp & Ha & _).
    assert (psc = sc) as -> by congruence. rewrite <- Hkind in Ha. by destruct (kind_of sc').
Qed.

Lemma for_each_ignore_ok {S E X A} (f : X → M S E A) l s n :
  wp (for_each l (λ x, ignore (f x))) (λ r _ _, ∀ e, r ≠ Err e) s n.
Proof.
  apply (wp_for_each (λ _ _ _, True)); [|done|done]. intros x l' s' n' _. unfold wp, ignore.
  by destruct (f x s' n') as [[[]]].
Qed.

(** [settle] and [revoke] of the principal adapter, on a capability reservation. *)
Lemma close_legacy_retires R tree st n r usage :
  inv R tree st n → R r (Some BudgetScopeKind.Capability) →
  wp (close_legacy r usage) (λ res st' n', res = Ok tt ∧ n ≤ n' ∧ inv R tree st' n'
    ∧ reservations st' !! r = None) st n.
Proof.
  intros Hi HR. unfold close_legacy. do 2 wp_step. cbv beta iota.
  assert (Hend : ∀ st' n', inv (either R (dead_fate r)) tree st' n' →
            inv R tree st' n' ∧ reservations st' !! r = None).
  { intros st' n' Hi'. split; [eapply inv_weaken; [|exact Hi']; by left|].
    eapply inv_dead; [exact Hi'|]. right. by split. }
  destruct (legacy_chains st !! r) as [chain|] eqn:Hch.
  - pose proof (lk_chain _ _ (wf_linked _ _ (inv_wf _ _ _ _ Hi)) _ _ Hch) as [Hhead _].
    destruct chain as [|r0 t]; [done|]. injection Hhead as ->.
    apply wp_bind, wp_modify.
    pose proof (proj1 (keeps_chain_delete _ _ r _ _ Hi)) as Hi1. rename n into n1.
    cbn [for_each]. apply wp_bind. eapply wp_mono; [by eapply close_capability_dead|].
    intros res st2 n2 (-> & -> & Hi2 & _).
    assert (Hloop := keeps_for_each (either R (dead_fate r)) tree t
      (λ id, ignore (close_locked id usage))
      (λ x, keeps_ignore _ _ _ (keeps_close _ _ x usage)) st2 n1 Hi2).
    assert (Herr := for_each_ignore_ok (λ id, close_locked id usage) t st2 n1).
    unfold wp in Hloop, Herr |- *.
    destruct (for_each t _ st2 n1) as [[[[]|e|] st3] n3]; [|by destruct (Herr e)|by destruct Hloop as (_ & _ & ?)].
    destruct Hloop as (Hi3 & Hn3 & _). destruct (Hend _ _ Hi3). split_and!; [done|lia|done|done].
  - eapply wp_mono; [by eapply close_capability_dead|].
    intros res st' n' (-> & -> & Hi' & _). destruct (Hend _ _ Hi'). split_and!; [done|lia|done|done].
Qed.

Lemma reserve_capability_child R tree st n parent owner request :
  inv R tree st n → u64_request request →
  wp (reserve_child_locked parent BudgetScopeKind.Capability owner request)
    (λ res st' n', match res with
       | Ok receipt => reserves R tree st n (Some (br_reservation_id receipt)) st' n'
       | Err _ => reserves R tree st n None st' n'
       | Panic => False
       end) st n.
Proof.
  intros Hi Hu. pose proof (keeps_reserve_child R tree parent BudgetScopeKind.Capability owner
    request Hu st n Hi) as Hk. unfold wp in *.
  destruct (reserve_child_locked_cases st n parent BudgetScopeKind.Capability owner request)
    as [(psc & Hp & _ & _ & _ & Heq)|Heq]; rewrite Heq in Hk |- *; destruct Hk as (Hi' & Hn & _);
    [|by split].
  split; [|done]. split; [|split].
  - cbn. intros Hd. eapply drawn_fresh, drawn_mono; [|exact Hd]. lia.
  - cbn. eapply inv_either_cap; [done|cbn; apply lookup_insert_eq|cbn; apply lookup_insert_eq|done].
  - cbn. by rewrite lookup_insert_eq.
Qed.

Lemma reserves_trans R tree st n st1 n1 o st' n' :
  n ≤ n1 → reserves R tree st1 n1 o st' n' → reserves R tree st n o st' n'.
Proof.
  intros Hn [Ho Hn']. split; [|lia]. destruct o as [r|]; [|done].
  destruct Ho as (Hd & ? & ?). split; [|done]. intros Hd'. apply Hd. by eapply drawn_mono.
Qed.

Lemma reserve_principal R tree st n principal request :
  inv R tree st n → u64_request request →
  wp (Budget.reserve principal request) (λ res st' n', match res with
       | Ok r => reserves R tree st n (Some r) st' n'
       | Err _ => reserves R tree st n None st' n'
       | Panic => False
       end) st n.
Proof.
  intros Hi Hu. unfold Budget.reserve.
  apply wp_bind. eapply wp_mono; [by apply keeps_principal_root|].
  intros [root|e|] st1 n1 (Hi1 & Hn1 & Hp); [|by split|done].
  do 2 (apply wp_bind; eapply wp_mono; [by apply keeps_reserve_child|];
        intros [?|?|] ? ? (? & ? & ?); [|split; [done|lia]|done]).
  apply wp_bind. eapply wp_mono; [by apply reserve_capability_child|].
  intros [receipt|e|] st4 n4 Hres; [| |done].
  - apply wp_bind, wp_modify, wp_ret. destruct Hres as [(Hd & Hi4 & Hlive) Hn4].
    split; [|lia]. split; [|split; [|done]].
    + intros Hd'. apply Hd. eapply drawn_mono; [|exact Hd']. lia.
    + apply inv_chain_insert; [done|done|].
      destruct (inv_fate _ _ _ _ Hi4 (br_reservation_id receipt)
        (Some BudgetScopeKind.Capability)) as [? _]; [|done]. right. by split.
  - eapply reserves_trans; [|exact Hres]. lia.
Qed.

End BudgetSide.

Section AdmissionSide.
Context `{HEnv : Env} {HOk : EnvOk} {tree : bool}.
Implicit Types (st : State) (n : N).

Lemma wp_on_budget c {X} (m : M BudgetState AdmissionError.t X) Q st n :
  wp m (λ r b n', Q r (with_budget (Some (set_state b c)) st) n') (ct_state c) n →
  wp (on_budget c m) Q st n.
Proof. unfold wp, on_budget. by destruct (m (ct_state c) n) as [[]]. Qed.

Lemma wp_on_leases l {X} (m : M LeaseState AdmissionError.t X) Q st n :
  wp m (λ r l' n', Q r (with_leases (Some l') st) n') l n → wp (on_leases l m) Q st n.
Proof. unfold wp, on_leases. by destruct (m l n) as [[]]. Qed.

Lemma adm_wf_new n : adm_inv tree new n.
Proof. split; cbn; try set_solver; intros *; by rewrite lookup_empty. Qed.

Lemma adm_wf_mono st n n' : n ≤ n' → adm_inv tree st n → adm_inv tree st n'.
Proof.
  intros Hn [Ha Hs Hb Hl Hd Hi]. split; eauto using drawn_mono, inv_mono, lease_wf_mono.
  intros p Hp. destruct (Hs p Hp). eauto using drawn_mono.
Qed.

(** Replacing the shared budget controller by one that keeps the fates. *)
Lemma adm_wf_budget st n n' c :
  adm_inv tree st n → n ≤ n' → inv (fates (active st)) tree (ct_state c) n' →
  adm_inv tree (with_budget (Some c) st) n'.
Proof.
  intros Hw Hn Hi. destruct (adm_wf_mono _ _ _ Hn Hw). split; cbn; try done.
  by intros c' [= <-].
Qed.

Lemma adm_wf_leases st n n' l :
  adm_inv tree st n → n ≤ n' → lease_wf l n' → adm_inv tree (with_leases (Some l) st) n'.
Proof.
  intros Hw Hn Hi. destruct (adm_wf_mono _ _ _ Hn Hw). split; cbn; try done.
  by intros c' [= <-].
Qed.

Lemma fates_delete m p r o : fates (delete p m) r o → fates m r o.
Proof. intros (-> & q & record & Hq & Hr). split_lookup. split; eauto. Qed.

Lemma adm_wf_delete st n p : adm_inv tree st n → adm_inv tree (with_active (delete p) st) n.
Proof.
  intros [Ha Hs Hb Hl Hd Hi]. split; cbn.
  - intros q record Hq. split_lookup. eauto.
  - intros q Hq. destruct (Hs q Hq) as [? Hnone]. split; [done|].
    rewrite lookup_delete. by case_decide.
  - intros c Hc. eapply inv_weaken; [|by apply Hb]. intros r o. apply fates_delete.
  - done.
  - intros q record id Hq. split_lookup. eauto.
  - intros q q' rq rq' id Hq Hq'. split_lookup. eauto.
Qed.

Lemma adm_wf_settled st n p :
  adm_inv tree st n → drawn n p → active st !! p = None →
  adm_inv tree (with_settled (λ s, {[p]} ∪ s) st) n.
Proof.
  intros [Ha Hs Hb Hl Hd Hi] Hp Hnone. split; cbn; try done.
  intros q [->%elem_of_singleton|Hq]%elem_of_union; [done|]. by apply Hs.
Qed.

Lemma taken_owned st n p record :
  adm_inv tree st n → active st !! p = Some record → owned tree (with_active (delete p) st) n record.
Proof.
  intros [Ha Hs Hb Hl Hd Hi] Hp. split; cbn.
  - intros c r Hc Hr. eapply inv_weaken; [|by apply Hb].
    intros r' o [HR|[-> ->]]; [by apply fates_delete in HR|]. split; eauto.
  - eauto.
  - intros id q rq Hid Hq Hrq. split_lookup. by assert (p = q) by eauto.
Qed.

Lemma give_back_spec st n record usage :
  adm_inv tree st n → owned tree st n record →
  wp (give_back record usage) (λ res st' n', res = Ok tt ∧ n ≤ n' ∧ adm_inv tree st' n'
    ∧ active st' = active st ∧ settled st' = settled st
    ∧ (∀ r, rec_budget_reservation record = Some r → reservation_dead st' r)
    ∧ (∀ id, rec_lease record = Some id → lease_dead st' id)
    ∧ (∀ l l' id, lease_mgr st = Some l → lease_mgr st' = Some l' → rec_lease record ≠ Some id →
         by_id l' !! id = by_id l !! id)) st n.
Proof.
  intros Hw Ho. unfold give_back. do 2 wp_step. cbv beta iota. apply wp_bind.
  apply (wp_mono _ (λ res st' n', res = Ok tt ∧ n ≤ n' ∧ adm_inv tree st' n'
    ∧ active st' = active st ∧ settled st' = settled st ∧ lease_mgr st' = lease_mgr st
    ∧ (∀ r, rec_budget_reservation record = Some r → reservation_dead st' r))).
  - destruct (budget st) as [c|] eqn:Hc, (rec_budget_reservation record) as [r|] eqn:Hr;
      try (apply wp_ret; split_and!; [done|lia|done|done|done|done|];
           intros r' Hr' c' Hc'; congruence).
    apply wp_on_budget. eapply wp_mono.
    + destruct usage; eapply (close_legacy_retires (either (fates (active st)) (cap_fate r)) tree);
        try (by eapply ow_budget); right; by split.
    + intros res b n' (-> & Hn & Hi & Hdead). split_and!; try done.
      * eapply adm_wf_budget; [done|done|]. eapply inv_weaken; [|exact Hi]. by left.
      * intros r' [= <-] c' [= <-]. done.
  - intros res st1 n1 (-> & Hn1 & Hw1 & Ha1 & Hs1 & Hl1 & Hd1).
    destruct (lease_mgr st) as [l|] eqn:Hl, (rec_lease record) as [id|] eqn:Hid;
      try (apply wp_ret; split_and!; [done|lia|done|done|done|done|..];
           [intros id' Hid' l' Hl'; congruence|intros; congruence]).
    apply wp_on_leases. unfold wp.
    pose proof (aw_leases _ _ Hw1 l Hl1) as Hlw.
    destruct (release_cases l n1 id) as [(r & Hr & ->)|[Hnone ->]].
    + split_and!; try done.
      * eapply adm_wf_leases; [done|lia|]. by eapply released_wf.
      * intros id' [= <-] l' [= <-]. cbn. apply lookup_delete_eq.
      * intros l0 l' id' [= <-] [= <-] Hne. cbn. rewrite lookup_delete_ne; congruence.
    + split_and!; try done.
      * by eapply adm_wf_leases.
      * by intros id' [= <-] l' [= <-].
      * by intros l0 l' id' [= <-] [= <-] Hne.
Qed.

Lemma with_active_absent st p : active st !! p = None → with_active (delete p) st = st.
Proof. intros Hp. unfold with_active. rewrite delete_id by done. by destruct st. Qed.

Lemma settle_inactive st n p usage :
  active st !! p = None → settle p usage st n = (Err AdmissionError.AlreadySettled, st, n).
Proof.
  intros Hp. unfold settle, mbind, M_bind, get_state, modify. cbn. rewrite Hp.
  by rewrite with_active_absent.
Qed.

Lemma revoke_inactive st n p reason :
  active st !! p = None →
  revoke p reason st n =
    ((if decide (p ∈ settled st) then Err AdmissionError.AlreadySettled else Ok tt), st, n).
Proof.
  intros Hp. unfold revoke, mbind, M_bind, get_state, modify. cbn.
  destruct (decide (p ∈ settled st)); [done|]. rewrite Hp. by rewrite with_active_absent.
Qed.

(** [settle] and [revoke] of an active permit end it and return what it held. *)
Lemma settle_active st n p record usage :
  adm_inv tree st n → active st !! p = Some record →
  wp (settle p usage) (λ res st' n', res = Ok tt ∧ ended tree st n p record st' n'
    ∧ settled st' = {[p]} ∪ settled st) st n.
Proof.
  intros Hw Hp. unfold settle. do 2 wp_step. cbv beta iota. apply wp_bind, wp_modify. cbv beta iota.
  rewrite Hp. destruct (decide (p ∈ settled st)) as [Hs|_].
  { destruct (aw_settled _ _ Hw p Hs). congruence. }
  apply wp_bind, wp_modify. cbv beta iota. eapply wp_mono.
  - eapply give_back_spec.
    + apply adm_wf_settled; [by apply adm_wf_delete|by eapply aw_active|]. cbn. apply lookup_delete_eq.
    + by destruct (taken_owned _ _ _ _ Hw Hp); split.
  - intros res st' n' (-> & Hn & Hw' & Ha & Hs & Hd & Hl & Hother). split; [done|].
    split; [|done]. by split.
Qed.

Lemma revoke_active st n p record reason :
  adm_inv tree st n → active st !! p = Some record →
  wp (revoke p reason) (λ res st' n', res = Ok tt ∧ ended tree st n p record st' n'
    ∧ settled st' = settled st) st n.
Proof.
  intros Hw Hp. unfold revoke. do 2 wp_step. cbv beta iota.
  destruct (decide (p ∈ settled st)) as [Hs|_].
  { destruct (aw_settled _ _ Hw p Hs). congruence. }
  apply wp_bind, wp_modify. cbv beta iota. rewrite Hp. eapply wp_mono.
  - eapply give_back_spec; [by apply adm_wf_delete|by eapply taken_owned].
  - intros res st' n' (-> & Hn & Hw' & Ha & Hs & Hd & Hl & Hother). split; [done|].
    split; [|done]. by split.
Qed.

Lemma revoke_keeps st n p reason :
  adm_inv tree st n →
  wp (revoke p reason) (λ res st' n', res ≠ Panic ∧ n ≤ n' ∧ adm_inv tree st' n'
    ∧ active st' = delete p (active st) ∧ settled st' = settled st) st n.
Proof.
  intros Hw. destruct (active st !! p) as [record|] eqn:Hp.
  - eapply wp_mono; [by eapply revoke_active|].
    intros res st' n' (-> & [? ? ?] & ?). by split_and!.
  - unfold wp. rewrite revoke_inactive by done.
    split_and!; [by case_decide|lia|done|by rewrite delete_id|done].
Qed.

(** ** [admit] *)

Lemma budget_post_reserved st n request c b r b' n' :
  adm_inv tree st n → budget st = Some c → ar_budget request = Some b →
  reserves (fates (active st)) tree (ct_state c) n r b' n' →
  budget_post tree st n request
    (match r with Some r => Ok (Some r) | None => Err AdmissionError.BudgetExceeded end)
    (with_budget (Some (set_state b' c)) st) n'.
Proof.
  intros Hw Hc Hb [Hr Hn]. destruct r as [r|].
  - destruct Hr as (Hd & Hi' & Hlive). split_and!; [by split|done|done| |done|].
    + eapply (adm_wf_budget st); [done|done|]. eapply inv_weaken; [|exact Hi']. by left.
    + exists (set_state b' c). split_and!; done.
  - split_and!; [by split|done|done| |done]. by eapply (adm_wf_budget st).
Qed.

Lemma reserve_budget_spec st n principal request permit :
  adm_inv tree st n → valid_request request →
  wp (reserve_budget principal request permit) (budget_post tree st n request) st n.
Proof.
  intros Hw Hv. unfold reserve_budget. do 2 wp_step. cbv beta iota.
  destruct (budget st) as [c|] eqn:Hc, (ar_budget request) as [b|] eqn:Hb;
    try (apply wp_ret; split_and!; [by split|done|lia|done|done|by auto]).
  apply wp_bind, wp_on_budget. apply wp_bind, wp_get, wp_ret. cbv beta iota.
  pose proof (aw_budget _ _ Hw c Hc) as Hi. specialize (Hv b Hb).
  assert (Hst : with_budget (Some (set_state (ct_state c) c)) st = st)
    by (destruct st, c; cbn in *; by subst).
  rewrite Hst. apply wp_bind.
  pose proof (λ r b' n', budget_post_reserved st n request c b r b' n' Hw Hc Hb) as Hpost.
  destruct (bool_decide _).
  - apply wp_bind, wp_on_budget. unfold reserve_capability_for_operation. wp_steps.
    + eapply wp_mono; [by eapply reserve_capability_child|]. intros [receipt|e|] b' n' Hr; [|..].
      * apply wp_ret, wp_ret. by apply (Hpost (Some (br_reservation_id receipt)) b' n').
      * by apply (Hpost None b' n').
      * done.
    + apply (Hpost None (ct_state c) n). by split; [|lia].
  - apply wp_on_budget. eapply wp_mono; [by eapply reserve_principal|].
    intros [r|e|] b' n' Hr; [|..].
    + apply wp_ret. by apply (Hpost (Some r) b' n').
    + by apply (Hpost None b' n').
    + done.
Qed.

Lemma acquire_lease_spec st n principal request now o :
  adm_inv tree st n → holds_reservation tree st n o →
  wp (acquire_lease principal request now o) (lease_post tree st n request o) st n.
Proof.
  intros Hw Ho. unfold acquire_lease. do 2 wp_step. cbv beta iota.
  destruct (lease_mgr st) as [l|] eqn:Hl, (ar_lease request) as [lr|] eqn:Hlr;
    try (apply wp_ret; split_and!; [by split|lia|done|done|done]).
  apply wp_bind, wp_try, wp_on_leases. unfold wp at 1.
  pose proof (aw_leases _ _ Hw l Hl) as Hlw.
  destruct (acquire_cases l n principal lr now) as [[_ ->]|[_ ->]].
  - assert (Hst : with_leases (Some l) st = st) by (destruct st; cbn in *; by subst).
    rewrite Hst. cbv beta iota. apply wp_bind.
    apply (wp_mono _ (λ res st' n', res = Ok tt ∧ same_tables st st' ∧ n ≤ n' ∧ adm_inv tree st' n'
      ∧ lease_mgr st' = lease_mgr st ∧ (∀ r, o = Some r → reservation_dead st' r))).
    + destruct (budget st) as [c|] eqn:Hc, o as [r|]; try (apply wp_ret; split_and!;
        [done|by split|lia|done|done|]; intros r' Hr' c' Hc'; congruence).
      destruct (Ho r eq_refl) as (c0 & Hc0 & Hi). assert (c0 = c) as -> by congruence.
      apply wp_on_budget. eapply wp_mono.
      * eapply (close_legacy_retires (either (fates (active st)) (cap_fate r)) tree _ _ r None Hi).
        right. by split.
      * intros res b n' (-> & Hn & Hi' & Hdead). split_and!; [done|by split|done| |done|].
        -- eapply adm_wf_budget; [done|done|]. eapply inv_weaken; [|exact Hi']. by left.
        -- by intros r' [= <-] c' [= <-].
    + intros res st' n' (-> & Hs & Hn & Hw' & Hlm & Hd). apply wp_throw. by split_and!.
  - cbv beta iota. apply wp_ret. pose proof (granted_wf l n principal lr now Hlw) as Hgw.
    split_and!; [by split|lia| |done|apply drawn_fresh|apply drawn_here; lia|].
    + eapply adm_wf_leases; [done|lia|done].
    + eexists lr, _. split_and!; [done|done|]. cbn. apply lookup_insert_eq.
Qed.

Lemma fates_insert m p record r o :
  fates (<[p := record]> m) r o →
  fates m r o ∨ (rec_budget_reservation record = Some r ∧ o = Some BudgetScopeKind.Capability).
Proof. intros (-> & q & rq & Hq & Hr). split_lookup; [by right|]. left. split; eauto. Qed.

(** A new permit enters the table. *)
Lemma adm_wf_insert st n p record :
  adm_inv tree st n → drawn n p → p ∉ settled st →
  holds_reservation tree st n (rec_budget_reservation record) →
  (∀ id, rec_lease record = Some id → drawn n id
     ∧ ∀ q rq, active st !! q = Some rq → rec_lease rq ≠ Some id) →
  adm_inv tree (with_active (<[p := record]>) st) n.
Proof.
  intros [Ha Hs Hb Hl Hd Hi] Hp Hps Hres Hlease. split; cbn.
  - intros q rq Hq. split_lookup; eauto.
  - intros q Hq. destruct (Hs q Hq). split; [done|].
    rewrite lookup_insert_ne; [done|]. by intros <-.
  - intros c Hc. destruct (rec_budget_reservation record) as [r|] eqn:Hr.
    + destruct (Hres r eq_refl) as (c0 & Hc0 & Hi0). assert (c0 = c) as -> by congruence.
      eapply inv_weaken; [|exact Hi0]. intros r' o [?|[Hr' ->]]%fates_insert; [by left|].
      right. split; congruence.
    + eapply inv_weaken; [|by apply Hb]. intros r' o [?|[Hr' ->]]%fates_insert; congruence.
  - done.
  - intros q rq id Hq Hid. split_lookup; [by apply Hlease|eauto].
  - intros q q' rq rq' id Hq Hq' Hid Hid'. split_lookup; [done|..|eauto].
    + exfalso. by eapply (proj2 (Hlease id Hid')).
    + exfalso. by eapply (proj2 (Hlease id Hid)).
Qed.

Lemma admit_spec st n request :
  adm_inv tree st n → valid_request request → wp (admit_ request) (admit_post tree st n request) st n.
Proof.
  intros Hw Hv. unfold admit_. apply wp_bind, wp_read_mono. cbv beta iota.
  apply wp_bind, wp_new_uuid. cbv beta iota zeta.
  assert (Hw2 : adm_inv tree st (n + 1 + 1)) by (eapply adm_wf_mono; [|exact Hw]; lia).
  assert (Hpf : ¬ drawn n (uuid_v4 (n + 1)))
    by (intros Hd; eapply drawn_fresh, drawn_mono; [|exact Hd]; lia).
  apply wp_bind. eapply wp_mono; [by apply reserve_budget_spec|].
  intros [o|e|] st1 n1 ((Ha1 & Hs1 & Hsb1) & Hl1 & Hn1 & Hw1 & Hres); [|split_and!; done || lia|done].
  assert (Ho : holds_reservation tree st1 n1 o).
  { intros r ->. destruct Hres as (_ & c & Hc & _ & Hi). exists c. split; [done|]. by rewrite Ha1. }
  apply wp_bind. eapply wp_mono; [by apply acquire_lease_spec|].
  intros [lease|e|] st2 n2 ((Ha2 & Hs2 & Hsb2) & Hn2 & Hw3 & Hlp); [..|done].
  2: { split_and!; [lia|done|congruence|congruence|congruence]. }
  assert (Hlive : ∀ r, o = Some r → ∃ c, budget st2 = Some c ∧ is_Some (reservations (ct_state c) !! r)).
  { intros r ->. destruct Hres as (_ & c & Hc & Hr & _). exists c. destruct Hlp as [-> _]. done. }
  apply wp_bind. unfold sandbox_decision. do 2 wp_step. cbv beta iota.
  assert (Hins : adm_inv tree (with_active (<[uuid_v4 (n + 1) := record_of request o lease]>) st2) n2).
  { apply adm_wf_insert; [done|..].
    - eapply drawn_mono; [|apply (drawn_here _ (n + 1 + 1)); lia]. lia.
    - rewrite Hs2, Hs1. intros Hs. apply Hpf. by apply (aw_settled _ _ Hw).
    - intros r Hr. cbn in Hr. destruct (Ho r Hr) as (c & Hc & Hi). exists c.
      destruct Hlp as [-> _]. split; [done|]. rewrite Ha2. by eapply inv_mono.
    - intros id Hid. cbn in Hid. subst lease. destruct Hlp as (_ & Hfr & Hdr & _). split; [done|].
      intros q rq Hq Heq. apply Hfr. rewrite Ha2 in Hq. by eapply (aw_lease_drawn _ _ Hw1). }
  assert (Hleft : ∀ d, (ar_sandbox request = SandboxRequirement.NotRequired ↔
                        d = SandboxDecision.NotApplicable) →
    (d = SandboxDecision.NotApplicable ∨ d = SandboxDecision.Required) →
    admit_post tree st n request (Ok (permit_of request (uuid_v4 (n + 1)) (mono_now n) d o lease))
      (with_active (<[uuid_v4 (n + 1) := record_of request o lease]>) st2) n2).
  { intros d Hd Hd'. split_and!; [lia|done|cbn; congruence|cbn; congruence|done|..]; try done.
    - cbn. by rewrite Ha2, Ha1.
    - exists n. split; [lia|done].
    - intros id Hid. cbn in Hid. subst lease.
      destruct Hlp as (_ & _ & _ & lr & l & Hlr & Hl & Hid). eauto. }
  destruct (ar_sandbox request) eqn:Hsand; [|destruct (sandbox_available st2) eqn:Hav..]; wp_steps;
    try (apply Hleft; [done|auto]); split_and!; try lia; try done; congruence.
Qed.

(** ** Runs *)

Lemma evolves_refl st n : adm_inv tree st n → evolves tree st n st n.
Proof. by split. Qed.

Lemma evolves_trans st n st1 n1 st2 n2 :
  evolves tree st n st1 n1 → evolves tree st1 n1 st2 n2 → evolves tree st n st2 n2.
Proof.
  intros [Hn1 Hw1 Ha1 Hs1] [Hn2 Hw2 Ha2 Hs2]. split; [lia|done| |set_solver].
  intros p Hp Hnone. apply Ha2; [by eapply drawn_mono|auto].
Qed.

Lemma evolves_delete st n p st' n' :
  n ≤ n' → adm_inv tree st' n' → active st' = delete p (active st) → settled st ⊆ settled st' →
  evolves tree st n st' n'.
Proof.
  intros Hn Hw Ha Hs. split; [done|done| |done]. intros q _ Hq. rewrite Ha, lookup_delete_None. by right.
Qed.

Lemma settle_evolves st n p usage :
  adm_inv tree st n → wp (settle p usage) (λ _ st' n', evolves tree st n st' n') st n.
Proof.
  intros Hw. destruct (active st !! p) as [record|] eqn:Hp.
  - eapply wp_mono; [by eapply settle_active|]. intros res st' n' (_ & [] & Hs).
    eapply evolves_delete; [done|done|done|set_solver].
  - unfold wp. rewrite settle_inactive by done. by apply evolves_refl.
Qed.

Lemma revoke_evolves st n p reason :
  adm_inv tree st n → wp (revoke p reason) (λ _ st' n', evolves tree st n st' n') st n.
Proof.
  intros Hw. eapply wp_mono; [by apply revoke_keeps|]. intros res st' n' (_ & Hn & Hw' & Ha & Hs).
  eapply evolves_delete; [done|done|done|by rewrite Hs].
Qed.

Lemma admit_evolves st n request :
  adm_inv tree st n → valid_request request → wp (admit_ request) (λ _ st' n', evolves tree st n st' n') st n.
Proof.
  intros Hw Hv. eapply wp_mono; [by apply admit_spec|].
  intros res st' n' (Hn & Hw' & Hs & _ & Hres). split; [done|done| |by rewrite Hs].
  intros p Hp Hnone. destruct res as [permit|e|]; [|congruence|done].
  destruct Hres as (Hfresh & -> & _). rewrite lookup_insert_ne; [done|]. by intros <-.
Qed.

(** The loop of [revoke_process_permits] and [revoke_operation_permits]. *)
Lemma revoke_loop_spec l : ∀ st n, adm_inv tree st n →
  wp (for_each l (λ permit, ignore (revoke permit RevokeReason.OperationCancelled)))
    (λ res st' n', res = Ok tt ∧ evolves tree st n st' n' ∧ settled st' = settled st
       ∧ ∀ p, active st' !! p = if decide (p ∈ l) then None else active st !! p) st n.
Proof.
  induction l as [|x l IH]; intros st n Hw.
  - apply wp_ret. split_and!; [done|by apply evolves_refl|done|]. intros p. by case_decide; [set_solver|].
  - cbn. apply wp_bind, wp_ignore. eapply wp_mono; [by apply revoke_keeps|].
    intros res st1 n1 (Hres & Hn1 & Hw1 & Ha1 & Hs1).
    assert (Hgo : wp (for_each l (λ permit, ignore (revoke permit RevokeReason.OperationCancelled)))
      (λ res st' n', res = Ok tt ∧ evolves tree st n st' n' ∧ settled st' = settled st
       ∧ ∀ p, active st' !! p = if decide (p ∈ x :: l) then None else active st !! p) st1 n1).
    { eapply wp_mono; [by apply IH|]. intros res' st' n' (-> & He & Hs & Ha).
      split_and!; [done| |congruence|].
      - eapply evolves_trans; [|done]. eapply evolves_delete; [done|done|done|by rewrite Hs1].
      - intros p. rewrite Ha, Ha1, lookup_delete. repeat case_decide; set_solver. }
    by destruct res.
Qed.

Lemma elem_of_permits_where i st owned p :
  p ∈ permits_where i st owned ↔ ∃ record, active st !! p = Some record ∧ owned record = true.
Proof.
  unfold permits_where. rewrite list_elem_of_omap. split.
  - intros ([q record] & Hq & Hp). apply elem_of_hash_entries in Hq. cbn in Hp.
    destruct (owned record) eqn:Ho; simplify_eq. eauto.
  - intros (record & Hp & Ho). exists (p, record). rewrite elem_of_hash_entries. cbn. by rewrite Ho.
Qed.

Lemma revoke_all_spec st n owned :
  adm_inv tree st n →
  wp (revoke_all owned) (λ res st' n', res = Ok tt ∧ evolves tree st n st' n' ∧ settled st' = settled st
    ∧ active st' = filter (λ e, owned e.2 = false) (active st)) st n.
Proof.
  intros Hw. unfold revoke_all. do 2 wp_step. cbv beta iota. do 2 wp_step. cbv beta iota.
  eapply wp_mono; [apply revoke_loop_spec; eapply adm_wf_mono; [|exact Hw]; lia|].
  intros res st' n' (-> & He & Hs & Ha). split_and!; [done| |done|].
  - eapply evolves_trans; [|exact He]. split; [lia| |done|done]. eapply adm_wf_mono; [|exact Hw]; lia.
  - apply map_eq. intros p. rewrite Ha. destruct (active st !! p) as [record|] eqn:Hp.
    + destruct (owned record) eqn:Ho.
      * rewrite decide_True by (apply elem_of_permits_where; eauto).
        symmetry. apply map_lookup_filter_None. right. intros r Hr. cbn. congruence.
      * rewrite decide_False.
        -- symmetry. apply map_lookup_filter_Some. by split.
        -- intros (r & Hr & ?)%elem_of_permits_where. congruence.
    + rewrite decide_False by (intros (r & Hr & ?)%elem_of_permits_where; congruence).
      symmetry. apply map_lookup_filter_None. by left.
Qed.

Lemma run_admission_evolves call st n :
  adm_inv tree st n → call_valid call → (keeps_tree call = false → tree = false) →
  wp (run_admission call) (λ _ st' n', evolves tree st n st' n') st n.
Proof.
  intros Hw Hv Ht. destruct call as [request|p usage|p reason|process|operation|call]; cbn in *.
  - apply wp_bind. eapply wp_mono; [by apply admit_evolves|]. by intros [].
  - by apply settle_evolves.
  - by apply revoke_evolves.
  - eapply wp_mono; [by apply revoke_all_spec|]. by intros res st' n' (_ & ? & _).
  - eapply wp_mono; [by apply revoke_all_spec|]. by intros res st' n' (_ & ? & _).
  - unfold wp. destruct (budget st) as [c|] eqn:Hc; [|by apply evolves_refl].
    pose proof (run_call_keeps (fates (active st)) tree call c n (aw_budget _ _ Hw c Hc) Hv) as Hk.
    unfold wp in Hk. destruct (run_call call c n) as [[r c'] n']. destruct Hk as [Hi Hn].
    { intros Htr. apply Ht. by rewrite Htr. }
    split; [done|by eapply adm_wf_budget|done|done].
Qed.

Lemma run_admissions_evolves calls : ∀ st n,
  adm_inv tree st n → Forall call_valid calls →
  Forall (λ call, keeps_tree call = false → tree = false) calls →
  evolves tree st n (run_admissions calls st n).1 (run_admissions calls st n).2.
Proof.
  induction calls as [|call calls IH]; intros st n Hw Hv Ht; [by apply evolves_refl|].
  apply Forall_cons in Hv as [Hv Hvs]. apply Forall_cons in Ht as [Ht Hts]. cbn.
  pose proof (run_admission_evolves call st n Hw Hv Ht) as He. unfold wp in He.
  destruct (run_admission call st n) as [[r st'] n'].
  eapply evolves_trans; [done|]. apply IH; [by destruct He|done|done].
Qed.

End AdmissionSide.
