(* ===== verification/AdmissionSpec.v ===== *)
(** * Admission control: properties

    The permit life cycle, what a grant and a denial leave behind, and the
    production controller as an implementation of the interface. *)
From S2P Require Import Prelude FabricTypes Budget BudgetInv BudgetPrincipal Lease Admission.
From S2P Require Import AdmissionInv.
Import Production.

(** Undoing the reservation [o] gives back the live reservations [base]. *)
Definition undoable `{Env} (st : State) (n : N) (o : option BudgetReservationId)
    (base : option (gmap BudgetReservationId BudgetScopeId)) : Prop :=
  match o with
  | None => live_reservations st = base
  | Some r => ∃ c b, budget st = Some c ∧ close_legacy r None (ct_state c) n = (Ok tt, b, n)
                     ∧ Some (reservations b) = base
  end.

(** The example of the witnesses: a controller with a funded principal and leases. *)
Definition sample_request (t : N) (sandbox : SandboxRequirement.t) : AdmissionRequest :=
  {| ar_operation_id := 70; ar_process_id := 71; ar_principal := "alice";
     ar_capability := "shell"; ar_action := "run"; ar_input_summary := "";
     ar_risk := RiskLevel.Sandboxed;
     ar_requested_scope := {| cs_allowed_paths := ["/tmp"]; cs_allowed_targets := [];
                              cs_max_runtime_ms := None; cs_max_output_bytes := None |};
     ar_budget := Some {| max_tokens := Some t; max_cost_micro := None |};
     ar_lease := Some {| lr_resource := "gpu"; lr_duration_ms := 500 |};
     ar_sandbox := sandbox |}.

Definition sample_state (available : bool) : State :=
  {| active := ∅; settled := ∅;
     budget := Some (set_state account.1 new_controller);
     lease_mgr := Some LeaseState_new; sandbox_available := available |}.

Definition after {X} (o : Result AdmissionError.t X * State * N) : State * N :=
  match o with (_, st, n) => (st, n) end.

Definition sample_admitted : State * N :=
  after (admit_ (H := sample_env) (sample_request 40 SandboxRequirement.NotRequired)
           (sample_state true) account.2).

Section Properties.
Context `{HEnv : Env} {HOk : EnvOk}.
Implicit Types (st : State) (n : N).

(** A permit is consumed at most once: once it was settled or revoked, then
    after every further run of admission and budget calls, settling it reports
    [AlreadySettled], revoking it has no effect, and neither changes anything. *)
Theorem permit_consumed_once st n p record usage reason st1 n1 calls :
  adm_wf st n → active st !! p = Some record →
  settle p usage st n = (Ok tt, st1, n1) ∨ revoke p reason st n = (Ok tt, st1, n1) →
  Forall call_valid calls →
  let st2 := (run_admissions calls st1 n1).1 in let n2 := (run_admissions calls st1 n1).2 in
  (∀ usage', settle p usage' st2 n2 = (Err AdmissionError.AlreadySettled, st2, n2))
  ∧ (∀ reason', ∃ res, revoke p reason' st2 n2 = (res, st2, n2)).
Proof.
  intros Hw Hp Hrun Hv st2 n2.
  assert (Hend : adm_wf st1 n1 ∧ n ≤ n1 ∧ active st1 !! p = None).
  { pose proof (settle_active _ _ _ _ usage Hw Hp) as Hs.
    pose proof (revoke_active _ _ _ _ reason Hw Hp) as Hr. unfold wp in Hs, Hr.
    destruct Hrun as [Heq|Heq]; rewrite Heq in *; [destruct Hs as (_ & [] & _)|destruct Hr as (_ & [] & _)];
      split_and!; try done; by rewrite en_active, lookup_delete_eq. }
  destruct Hend as (Hw1 & Hn1 & Hnone).
  destruct (run_admissions_evolves calls st1 n1 Hw1 Hv) as [_ _ Ha _]; [by apply Forall_true|].
  assert (active st2 !! p = None) as Hnone2.
  { apply Ha; [|done]. eapply drawn_mono; [done|]. by eapply aw_active. }
  split; intros; [by apply settle_inactive|]. eexists. by apply revoke_inactive.
Qed.

(** Settling or revoking an active permit always succeeds, takes it out of
    the permit table and no other, leaves its budget reservation dead and its
    lease released, leaves every other lease alone, and keeps the invariant. *)
Theorem permit_end_returns_resources st n p record usage reason :
  adm_wf st n → active st !! p = Some record →
  (∃ st' n', settle p usage st n = (Ok tt, st', n') ∧ ended false st n p record st' n'
     ∧ p ∈ settled st')
  ∧ (∃ st' n', revoke p reason st n = (Ok tt, st', n') ∧ ended false st n p record st' n'
     ∧ settled st' = settled st).
Proof.
  intros Hw Hp. split.
  - pose proof (settle_active _ _ _ _ usage Hw Hp) as Hs. unfold wp in Hs.
    destruct (settle p usage st n) as [[res st'] n']. destruct Hs as (-> & He & Hs).
    exists st', n'. split_and!; [done|done|set_solver].
  - pose proof (revoke_active _ _ _ _ reason Hw Hp) as Hs. unfold wp in Hs.
    destruct (revoke p reason st n) as [[res st'] n']. destruct Hs as (-> & He & Hs).
    exists st', n'. by split_and!.
Qed.

(** [admit] on every branch: it never panics and keeps the invariant; a
    grant is for exactly the request, under a permit id that was never drawn
    before, expiring thirty seconds after a clock reading of this call, with the
    budget reservation live and the lease held, and enters the table; it demands
    a sandbox whenever the request does; a denial leaves the table as it was. *)
Theorem admit_grants_the_request st n request :
  adm_wf st n → valid_request request →
  ∃ res st' n', admit_ request st n = (res, st', n') ∧ admit_post false st n request res st' n'.
Proof.
  intros Hw Hv. pose proof (admit_spec st n request Hw Hv) as Ha. unfold wp in Ha.
  destruct (admit_ request st n) as [[res st'] n']. eauto.
Qed.

(** ** All or nothing *)

Lemma reserve_budget_undo st n principal request permit :
  adm_wf st n → valid_request request →
  wp (reserve_budget principal request permit) (λ res st' n', match res with
    | Ok o => undoable st' n' o (live_reservations st)
    | Err _ => live_reservations st' = live_reservations st
    | Panic => False
    end ∧ lease_mgr st' = lease_mgr st ∧ sandbox_available st' = sandbox_available st) st n.
Proof.
  intros Hw Hv. unfold reserve_budget. do 2 wp_step. cbv beta iota.
  destruct (budget st) as [c|] eqn:Hc, (ar_budget request) as [b|] eqn:Hb;
    try (by apply wp_ret).
  apply wp_bind, wp_on_budget. apply wp_bind, wp_get, wp_ret. cbv beta iota.
  pose proof (inv_wf _ _ _ _ (aw_budget _ _ Hw c Hc)) as Hwf. specialize (Hv b Hb).
  assert (Hbase : live_reservations st = Some (reservations (ct_state c)))
    by (unfold live_reservations; by rewrite Hc).
  rewrite Hbase. apply wp_bind. destruct (bool_decide _).
  - apply wp_bind, wp_on_budget. eapply wp_mono; [by apply reserve_capability_undo|].
    intros [receipt|e|] b' n' Hr; [|by cbn; rewrite Hr|done].
    apply wp_ret, wp_ret. split; [|done]. destruct Hr as (b2 & Hr1 & Hr2).
    exists (set_state b' c), b2. split_and!; [done|done|congruence].
  - apply wp_on_budget. eapply wp_mono; [by apply reserve_undo|].
    intros [r|e|] b' n' Hr; [|by cbn; rewrite Hr|done].
    apply wp_ret. split; [|done]. destruct Hr as (b2 & Hr1 & Hr2).
    exists (set_state b' c), b2. split_and!; [done|done|congruence].
Qed.

Lemma acquire_lease_undo st n principal request now o base :
  undoable st n o base →
  wp (acquire_lease principal request now o) (λ res st' n', match res with
    | Ok _ => True
    | Err _ => live_reservations st' = base ∧ lease_mgr st' = lease_mgr st
    | Panic => False
    end ∧ sandbox_available st' = sandbox_available st) st n.
Proof.
  intros Hu. unfold acquire_lease. do 2 wp_step. cbv beta iota.
  destruct (lease_mgr st) as [l|] eqn:Hl, (ar_lease request) as [lr|]; try (by apply wp_ret).
  apply wp_bind, wp_try, wp_on_leases. unfold wp at 1.
  destruct (acquire_cases l n principal lr now) as [[_ ->]|[_ ->]]; [|by apply wp_ret].
  cbv beta iota. destruct o as [r|]; cbn in Hu.
  - destruct Hu as (c & b & Hc & Hclose & <-). rewrite Hc.
    apply wp_bind, wp_on_budget. unfold wp at 1, Budget.revoke. rewrite Hclose.
    cbv beta iota. by apply wp_throw.
  - replace (match budget st with Some _ | _ => _ end) with (mret tt : M State AdmissionError.t unit)
      by by destruct (budget st).
    apply wp_bind, wp_ret, wp_throw. split; [|done]. split; [exact Hu|done].
Qed.

(** All or nothing: unless a sandbox is demanded that is not available, a
    denied request leaves the live budget reservations and the leases exactly as
    they were, whichever step denied it. *)
Theorem admit_all_or_nothing st n request e st' n' :
  adm_wf st n → valid_request request →
  ar_sandbox request = SandboxRequirement.NotRequired ∨ sandbox_available st = true →
  admit_ request st n = (Err e, st', n') →
  live_reservations st' = live_reservations st ∧ lease_mgr st' = lease_mgr st.
Proof.
  intros Hw Hv Hsb Hrun.
  assert (Hwp : wp (admit_ request) (λ res st' _, (∃ e, res = Err e) →
    live_reservations st' = live_reservations st ∧ lease_mgr st' = lease_mgr st) st n).
  { unfold admit_. apply wp_bind, wp_read_mono, wp_bind, wp_new_uuid. cbv beta iota zeta.
    apply wp_bind. eapply wp_mono.
    { apply reserve_budget_undo; [eapply adm_wf_mono; [|exact Hw]; lia|done]. }
    intros [o|e0|] st1 n1 (Hr & Hl1 & Hs1); [|done|done].
    apply wp_bind. eapply wp_mono; [by apply acquire_lease_undo|].
    intros [lease|e0|] st2 n2 (Hlp & Hs2); [..|done].
    - apply wp_bind. unfold sandbox_decision. do 2 wp_step. cbv beta iota.
      destruct (ar_sandbox request); [|destruct (sandbox_available st2) eqn:Hav..]; wp_steps;
        match goal with H : ∃ _, _ |- _ => destruct H end;
        (done || (exfalso; destruct Hsb; congruence)).
    - intros _. destruct Hlp as [-> ->]. by rewrite Hl1. }
  unfold wp in Hwp. rewrite Hrun in Hwp. apply Hwp. eauto.
Qed.

(** The kernel's cleanup hook: after [revoke_process_permits] no active
    permit of the process is left, every other permit and every settled one is as
    it was, in whatever order the permits are visited. *)
Theorem revoke_process_permits_complete st n process :
  adm_wf st n →
  ∃ st' n', revoke_process_permits process st n = (Ok tt, st', n') ∧ adm_wf st' n'
    ∧ active_for_process st' process = 0%nat ∧ settled st' = settled st
    ∧ active st' = filter (λ e, rec_process_id e.2 ≠ process) (active st).
Proof.
  intros Hw. pose proof (revoke_all_spec st n (λ r, rec_process_id r =? process) Hw) as Hr.
  unfold revoke_process_permits. unfold wp in Hr. destruct (revoke_all _ st n) as [[res st'] n'].
  destruct Hr as (-> & He & Hs & Ha). exists st', n'.
  assert (Ha' : active st' = filter (λ e, rec_process_id e.2 ≠ process) (active st)).
  { rewrite Ha. apply map_filter_ext. intros p r _. cbn. rewrite N.eqb_neq. done. }
  split_and!; [done|by destruct He| |done|done].
  unfold active_for_process. apply map_size_empty_iff, map_eq. intros p.
  rewrite lookup_empty. apply map_lookup_filter_None. right. intros r Hr. cbn.
  rewrite Ha' in Hr. apply map_lookup_filter_Some in Hr as [_ Hr]. done.
Qed.

(** The production controller implements the interface. *)
#[export, refine] Instance production_laws : AdmissionLaws State :=
  {| ad_ok := adm_wf; ad_live := λ st p, is_Some (active st !! p); ad_valid := valid_request |}.
Proof.
  - intros st n n' Hn. by apply adm_wf_mono.
  - intros st n p Hw [record Hp]. by eapply aw_active.
  - intros request st n Hw Hv. eapply wp_mono; [by apply (admit_spec (tree := false))|].
    intros [permit|e|] st' n' (Hn & Hw' & _ & _ & Hr); split_and!; try done.
    + intros [record Hp]. destruct Hr as (Hf & _). apply Hf. by eapply aw_active.
    + destruct Hr as (_ & -> & _). rewrite lookup_insert_eq. eauto.
    + destruct Hr as (_ & _ & (i & _ & ->) & _). done.
    + destruct Hr as (_ & _ & (i & _ & ->) & _). done.
    + apply Hr.
    + intros q Hq. destruct Hr as (_ & -> & _). by rewrite lookup_insert_ne.
    + intros q. by rewrite Hr.
  - intros p usage st n Hw [record Hp]. eapply wp_mono; [by eapply (settle_active (tree := false))|].
    intros res st' n' (-> & [] & _). split_and!; [done|done|done|..].
    + rewrite en_active, lookup_delete_eq. by intros [].
    + intros q Hq. by rewrite en_active, lookup_delete_ne.
  - intros p usage st n Hw Hp. apply settle_inactive. by apply eq_None_not_Some.
  - intros p reason st n Hw. eapply wp_mono; [by eapply (revoke_keeps (tree := false))|].
    intros res st' n' (Hr & Hn & Hw' & Ha & _). split_and!; [done|done|done|..].
    + rewrite Ha, lookup_delete_eq. by intros [].
    + intros q Hq. by rewrite Ha, lookup_delete_ne.
Defined.

End Properties.

(** ** Witnesses *)

Lemma sample_state_wf available : adm_inv (H := sample_env) false (sample_state available) account.2.
Proof.
  split; cbn [sample_state active settled budget lease_mgr].
  - intros p r. by rewrite lookup_empty.
  - intros p Hp. by apply not_elem_of_empty in Hp.
  - intros c [= <-]. split; [apply account_wf| |done].
    intros r o (_ & p & record & Hp & _). by rewrite lookup_empty in Hp.
  - intros l [= <-]. apply lease_wf_new.
  - intros p record id. by rewrite lookup_empty.
  - intros p q rp rq id. by rewrite lookup_empty.
Qed.

Lemma sample_request_valid t sandbox : is_u64 t → valid_request (sample_request t sandbox).
Proof. intros Ht b [= <-] [] x [= <-]. done. Qed.

Lemma sample_40_valid sandbox : valid_request (sample_request 40 sandbox).
Proof. apply sample_request_valid. vm_compute. discriminate. Qed.

Lemma sample_admitted_wf : adm_inv (H := sample_env) false sample_admitted.1 sample_admitted.2.
Proof.
  pose proof (admit_spec (HOk := sample_env_ok) (sample_state true) account.2
    (sample_request 40 SandboxRequirement.NotRequired) (sample_state_wf true) (sample_40_valid _)) as Ha.
  unfold sample_admitted, wp in *. destruct (admit_ _ _ _) as [[res st] n]. by destruct Ha as (_ & ? & _).
Qed.

(** The permit of the example: id 3, reservation 9, lease 10. *)
Definition sample_record : PermitRecord :=
  record_of (sample_request 40 SandboxRequirement.NotRequired) (Some 9) (Some 10).

Definition sample_usage : UsageReport :=
  {| ur_permit_id := 3; ur_tokens_used := 15; ur_cost_micro := 0; ur_wall_time_ms := 0;
     ur_output_bytes := 0; ur_exit_code := None |}.

Lemma permit_consumed_once_witness :
  ∃ st1 n1, settle 3 sample_usage sample_admitted.1 sample_admitted.2 = (Ok tt, st1, n1)
  ∧ let calls := [Admit (sample_request 10 SandboxRequirement.NotRequired)] in
    let st2 := (run_admissions (H := sample_env) calls st1 n1).1 in
    let n2 := (run_admissions (H := sample_env) calls st1 n1).2 in
    settle 3 sample_usage st2 n2 = (Err AdmissionError.AlreadySettled, st2, n2).
Proof.
  eexists _, _. split; [vm_compute; reflexivity|].
  refine (proj1 (permit_consumed_once (HOk := sample_env_ok) sample_admitted.1 sample_admitted.2 3
    sample_record sample_usage RevokeReason.AdminAction _ _
    [Admit (sample_request 10 SandboxRequirement.NotRequired)]
    sample_admitted_wf _ _ _) sample_usage).
  - vm_compute. reflexivity.
  - left. vm_compute. reflexivity.
  - repeat constructor. apply sample_request_valid. vm_compute. discriminate.
Defined.

Lemma permit_end_returns_resources_witness :
  active sample_admitted.1 !! 3 = Some sample_record
  ∧ ∃ st' n', settle 3 sample_usage sample_admitted.1 sample_admitted.2 = (Ok tt, st', n')
    ∧ ended (H := sample_env) false sample_admitted.1 sample_admitted.2 3 sample_record st' n' ∧ 3 ∈ settled st'.
Proof.
  assert (Hp : active sample_admitted.1 !! 3 = Some sample_record) by (vm_compute; reflexivity).
  split; [exact Hp|].
  exact (proj1 (permit_end_returns_resources (HOk := sample_env_ok) sample_admitted.1
    sample_admitted.2 3 sample_record sample_usage RevokeReason.AdminAction sample_admitted_wf Hp)).
Defined.

Lemma admit_grants_the_request_witness :
  ∃ res st' n', admit_ (H := sample_env) (sample_request 40 SandboxRequirement.NotRequired)
      (sample_state true) account.2 = (res, st', n')
    ∧ admit_post (H := sample_env) false (sample_state true) account.2
        (sample_request 40 SandboxRequirement.NotRequired) res st' n'.
Proof.
  apply (admit_grants_the_request (HOk := sample_env_ok)).
  - apply sample_state_wf.
  - apply sample_40_valid.
Defined.

Lemma admit_all_or_nothing_witness :
  ∃ st' n', admit_ (H := sample_env) (sample_request 40 SandboxRequirement.NotRequired)
      sample_admitted.1 sample_admitted.2 = (Err AdmissionError.LeaseUnavailable, st', n')
    ∧ live_reservations st' = live_reservations sample_admitted.1
    ∧ lease_mgr st' = lease_mgr sample_admitted.1.
Proof.
  eexists _, _. split; [vm_compute; reflexivity|].
  eapply (admit_all_or_nothing (HOk := sample_env_ok) sample_admitted.1 sample_admitted.2
    (sample_request 40 SandboxRequirement.NotRequired) AdmissionError.LeaseUnavailable).
  - apply sample_admitted_wf.
  - apply sample_40_valid.
  - left. reflexivity.
  - vm_compute. reflexivity.
Defined.

Lemma revoke_process_permits_complete_witness :
  active_for_process sample_admitted.1 71 = 1%nat
  ∧ ∃ st' n', revoke_process_permits (H := sample_env) 71 sample_admitted.1 sample_admitted.2
              = (Ok tt, st', n') ∧ active_for_process st' 71 = 0%nat.
Proof.
  split; [vm_compute; reflexivity|].
  destruct (revoke_process_permits_complete (HOk := sample_env_ok) sample_admitted.1
    sample_admitted.2 71 sample_admitted_wf) as (st' & n' & Hrun & _ & Hz & _).
  exists st', n'. split; [exact Hrun|exact Hz].
Defined.

(** ** A denial that keeps what it took

    When the sandbox is required and unavailable, [admit] returns after the
    budget was reserved and the lease acquired, and neither is given back. *)
Theorem sandbox_denial_leaks :
  ∃ st' n', admit_ (H := sample_env) (sample_request 40 SandboxRequirement.Required)
      (sample_state false) account.2 = (Err AdmissionError.SandboxRequiredUnavailable, st', n')
    ∧ active st' = ∅
    ∧ (size <$> live_reservations (sample_state false)) = Some 0%nat
    ∧ (size <$> live_reservations st') = Some 3%nat
    ∧ ((λ l, is_leased l "gpu" 1400) <$> lease_mgr st') = Some true.
Proof. eexists _, _. repeat split; vm_compute; reflexivity. Qed.
