(* ===== verification/ToolStream.v ===== *)
(** * Streaming tool execution (crates/fabric/src/types/tool_stream.rs)

    One governed call emits progress and notifications and then exactly one
    terminal event through a bounded channel.  The channel is modelled by what
    was received, what is queued and whether the receiver is still there. *)
From S2P Require Import Prelude.

Section Stream.
(** JSON values and patch deltas are only carried through. *)
Context {Json PatchDelta : Type}.

Record ToolResultMeta := {
  tm_execution_time_ms : N;
  tm_truncated : bool;
  tm_patch_delta : option PatchDelta;
}.

Record ToolResult := {
  tr_content : string;
  tr_is_error : bool;
  tr_metadata : ToolResultMeta;
}.

Inductive ToolProgress :=
| Text (text : string)
| Structured (value : Json)
| ResourceRef (uri : string) (mime : option string).

Inductive ToolNotificationKind := BackgroundTaskStarted | MonitorEvent | UiStatus.

Record ToolNotification := {
  tn_kind : ToolNotificationKind;
  tn_message : string;
}.

Inductive ToolExecutionError :=
| TeCancelled (reason : string)
| TeNoTerminal
| TeProtocol (reason : string)
| TeFailed (reason : string).

Definition ToolOutcome : Type := ToolExecutionError + ToolResult.

Inductive ToolExecutionEvent :=
| Progress (p : ToolProgress)
| Notification (n : ToolNotification)
| Terminal (result : ToolOutcome).

Definition progress_kind (p : ToolProgress) : string :=
  match p with
  | Text _ => "text"
  | Structured _ => "structured"
  | ResourceRef _ _ => "resource_ref"
  end.

Definition TOOL_PROGRESS_CHANNEL_CAP : nat := 32.

(** [ToolEventSink] with its channel: [received] is what the receiver took out,
    in order, [queued] what it has not taken yet.  A terminal that waits for a
    free slot is queued last; nothing can be sent after it. *)
Record ToolEventSink := {
  received : list ToolExecutionEvent;
  queued : list ToolExecutionEvent;
  rx_open : bool;
  terminal_sent : bool;
  terminal_result : option ToolOutcome;
}.

Definition tool_event_channel : ToolEventSink :=
  {| received := []; queued := []; rx_open := true; terminal_sent := false;
     terminal_result := None |}.

Definition with_queued (q : list ToolExecutionEvent) (s : ToolEventSink) : ToolEventSink :=
  {| received := received s; queued := q; rx_open := rx_open s;
     terminal_sent := terminal_sent s; terminal_result := terminal_result s |}.

(** [self.tx.try_send(event).is_ok()] *)
Definition try_send (e : ToolExecutionEvent) (s : ToolEventSink) : bool * ToolEventSink :=
  if rx_open s && (length (queued s) <? TOOL_PROGRESS_CHANNEL_CAP)%nat
  then (true, with_queued (queued s ++ [e]) s)
  else (false, s).

Definition progress (p : ToolProgress) (s : ToolEventSink) : bool * ToolEventSink :=
  if terminal_sent s then (false, s) else try_send (Progress p) s.

Definition notify (n : ToolNotification) (s : ToolEventSink) : bool * ToolEventSink :=
  if terminal_sent s then (false, s) else try_send (Notification n) s.

(** In the release profile, where [debug_assert!] is off. *)
Definition terminal (result : ToolOutcome) (s : ToolEventSink) : ToolEventSink :=
  if terminal_sent s then s
  else {| received := received s;
          queued := if rx_open s then queued s ++ [Terminal result] else queued s;
          rx_open := rx_open s; terminal_sent := true; terminal_result := Some result |}.

(** The receiver's side: take the next event, or go away. *)
Definition recv (s : ToolEventSink) : option ToolExecutionEvent * ToolEventSink :=
  match queued s with
  | [] => (None, s)
  | e :: q => (Some e, {| received := received s ++ [e]; queued := q; rx_open := rx_open s;
                          terminal_sent := terminal_sent s; terminal_result := terminal_result s |})
  end.

Definition drop_receiver (s : ToolEventSink) : ToolEventSink :=
  {| received := received s; queued := []; rx_open := false;
     terminal_sent := terminal_sent s; terminal_result := terminal_result s |}.

Inductive StreamCall :=
| CallProgress (p : ToolProgress)
| CallNotify (n : ToolNotification)
| CallTerminal (result : ToolOutcome)
| CallRecv
| CallDropReceiver.

Definition stream_call (call : StreamCall) (s : ToolEventSink) : ToolEventSink :=
  match call with
  | CallProgress p => (progress p s).2
  | CallNotify n => (notify n s).2
  | CallTerminal result => terminal result s
  | CallRecv => (recv s).2
  | CallDropReceiver => drop_receiver s
  end.

Definition stream_run (calls : list StreamCall) : ToolEventSink :=
  fold_left (λ s call, stream_call call s) calls tool_event_channel.

Definition is_terminal_event (e : ToolExecutionEvent) : bool :=
  match e with Terminal _ => true | _ => false end.

(** The first terminal among the calls, the one that counts. *)
Definition first_terminal (calls : list StreamCall) : option ToolOutcome :=
  head (omap (λ c, match c with CallTerminal r => Some r | _ => None end) calls).

(** The protocol: only progress and notifications, then at most the terminal. *)
Record stream_ok (s : ToolEventSink) : Prop := {
  so_sent : terminal_sent s = bool_decide (is_Some (terminal_result s));
  so_shape : ∃ body last, received s ++ queued s = body ++ last
    ∧ Forall (λ e, is_terminal_event e = false) body
    ∧ (last = [] ∨ ∃ r, last = [Terminal r] ∧ terminal_result s = Some r)
    ∧ (rx_open s = true → ∀ r, terminal_result s = Some r → last = [Terminal r]);
}.

Lemma stream_ok_new : stream_ok tool_event_channel.
Proof. split; [done|]. exists [], []. split_and!; auto. done. Qed.

Lemma stream_ok_same s s' :
  stream_ok s → received s' ++ queued s' = received s ++ queued s →
  rx_open s' = rx_open s → terminal_sent s' = terminal_sent s →
  terminal_result s' = terminal_result s → stream_ok s'.
Proof. intros [Hs Hshape] Ha Hr Ht Hres. split; rewrite ?Ha, ?Hr, ?Ht, ?Hres; done. Qed.

Lemma stream_ok_send s e :
  stream_ok s → terminal_sent s = false → is_terminal_event e = false →
  stream_ok (try_send e s).2.
Proof.
  intros [Hs (body & last & Hsh & Hb & Hl & Hopen)] Hts He. unfold try_send.
  destruct (rx_open s && _) eqn:Hcond; [|split; [done|]; exists body, last; by split_and!].
  assert (Hnone : terminal_result s = None).
  { rewrite Hs in Hts. apply bool_decide_eq_false in Hts. by apply eq_None_not_Some. }
  destruct Hl as [->|(r & _ & ?)]; [|congruence]. split; [done|]. cbn. rewrite app_nil_r in Hsh.
  exists (body ++ [e]), []. rewrite app_assoc, Hsh, app_nil_r.
  split_and!; [done|apply Forall_app; auto|auto|congruence].
Qed.

Lemma stream_call_ok call s : stream_ok s → stream_ok (stream_call call s).
Proof.
  intros Hok. destruct call as [p|n|r| |]; cbn.
  - unfold progress. destruct (terminal_sent s) eqn:Hts; [done|]. by apply stream_ok_send.
  - unfold notify. destruct (terminal_sent s) eqn:Hts; [done|]. by apply stream_ok_send.
  - unfold terminal. destruct (terminal_sent s) eqn:Hts; [done|].
    destruct Hok as [Hs (body & last & Hsh & Hb & Hl & Hopen)].
    assert (Hnone : terminal_result s = None).
    { rewrite Hs in Hts. apply bool_decide_eq_false in Hts. by apply eq_None_not_Some. }
    destruct Hl as [->|(r' & _ & ?)]; [|congruence]. rewrite app_nil_r in Hsh.
    split; [done|]. cbn. exists body, (if rx_open s then [Terminal r] else []).
    destruct (rx_open s); rewrite ?app_assoc, Hsh; split_and!; auto; rewrite ?app_nil_r; eauto;
      congruence.
  - unfold recv. destruct (queued s) as [|e q] eqn:Hq; [done|].
    eapply stream_ok_same; [done|..]; try done. cbn. by rewrite Hq, <- app_assoc.
  - destruct Hok as [Hs (body & last & Hsh & Hb & Hl & Hopen)]. split; [done|]. cbn.
    rewrite app_nil_r.
    assert (Hrec : received s = take (length (received s)) (body ++ last))
      by (by rewrite <- Hsh, take_app_length).
    rewrite take_app in Hrec. eexists _, _. split; [exact Hrec|].
    split_and!; [by apply Forall_take| |done].
    destruct Hl as [->|(r & -> & Hr)]; [left; by rewrite take_nil|].
    destruct (length (received s) - length body)%nat as [|k]; [by left|right].
    exists r. cbn. by rewrite take_nil.
Qed.

Lemma stream_run_ok calls : stream_ok (stream_run calls).
Proof.
  unfold stream_run. generalize stream_ok_new. generalize tool_event_channel.
  induction calls as [|c calls IH]; intros s Hs; [done|]. cbn. apply IH. by apply stream_call_ok.
Qed.

(** The terminal that counts is the first one, whatever is called around it. *)
Lemma stream_run_terminal calls :
  terminal_result (stream_run calls) = first_terminal calls.
Proof.
  unfold stream_run. pose proof stream_ok_new as Hok.
  assert (Hgen : ∀ s, stream_ok s → terminal_result (fold_left (λ s call, stream_call call s) calls s)
    = match terminal_result s with Some r => Some r | None => first_terminal calls end).
  { clear Hok. induction calls as [|c calls IH]; intros s Hs; cbn [fold_left];
      [by destruct (terminal_result s)|].
    rewrite (IH _ (stream_call_ok c s Hs)). destruct Hs as [Hsent _].
    destruct c as [p|n|r| |]; cbn; try done;
      unfold progress, notify, try_send, terminal, recv; rewrite ?Hsent.
    - destruct (bool_decide _); [done|]. by destruct (rx_open s && _).
    - destruct (bool_decide _); [done|]. by destruct (rx_open s && _).
    - destruct (terminal_result s) as [r0|] eqn:Hr; cbn; [by rewrite Hr|done].
    - by destruct (queued s). }
  by rewrite Hgen.
Qed.

(** The stream protocol: after every sequence of progress, notification and
    terminal calls, interleaved with the receiver in any way, what was received
    and is queued is progress and notifications only, followed by at most one
    terminal; the terminal is the first one reported, and while the receiver is
    there it is never dropped, even with the channel full. *)
Theorem stream_single_terminal calls :
  let s := stream_run calls in
  ∃ body last, received s ++ queued s = body ++ last
    ∧ Forall (λ e, is_terminal_event e = false) body
    ∧ (last = [] ∨ ∃ r, last = [Terminal r] ∧ first_terminal calls = Some r)
    ∧ (rx_open s = true → ∀ r, first_terminal calls = Some r → last = [Terminal r]).
Proof.
  cbn zeta. rewrite <- (stream_run_terminal calls). apply (so_shape _ (stream_run_ok calls)).
Qed.

(** Progress beyond the capacity is dropped, never queued. *)
Lemma progress_bounded p s :
  (length (queued s) ≤ TOOL_PROGRESS_CHANNEL_CAP →
   length (queued (progress p s).2) ≤ TOOL_PROGRESS_CHANNEL_CAP)%nat.
Proof.
  intros Hq. unfold progress, try_send. destruct (terminal_sent s); [done|].
  destruct (rx_open s && _) eqn:Hc; [|done]. apply andb_true_iff in Hc as [_ Hc%Nat.ltb_lt].
  cbn. rewrite length_app. cbn. lia.
Qed.

End Stream.

Arguments ToolResultMeta : clear implicits.
Arguments ToolResult : clear implicits.
Arguments ToolProgress : clear implicits.
Arguments ToolExecutionEvent : clear implicits.
Arguments ToolEventSink : clear implicits.
Arguments ToolOutcome : clear implicits.
