(* ===== verification/Capability.v ===== *)
(** * The capability invoker (crates/kernel/src/capability/mod.rs)

    [DefaultCapabilityInvoker::invoke_inner]: admit, check the sandbox decision,
    run the executor, settle.  It is written and verified against the admission
    interface; the executor is a parameter. *)
From S2P Require Import Prelude FabricTypes Budget BudgetInv BudgetPrincipal Lease Admission.
From S2P Require Import AdmissionInv AdmissionSpec ToolStream.

Section Invoker.
Context `{HEnv : Env}.
(** JSON inputs, patch deltas and the part of the authority that is only handed
    to the executor (agent, connection, workspace, session) are carried through;
    [debug_fmt] is [format!("{:?}", input)]. *)
Context {Json PatchDelta Context_ : Type} (debug_fmt : Json → string).

Record CapabilityCall := {
  cc_operation_id : OperationId;
  cc_process_id : ProcessId;
  cc_name : string;
  cc_input : Json;
  cc_call_id : string;
  cc_deadline : option N;
}.

Record CapabilityAuthority := {
  ca_principal : PrincipalId;
  ca_action : string;
  ca_requested_scope : CapabilityScope;
  ca_risk : RiskLevel.t;
  ca_budget : option BudgetRequest;
  ca_lease : option LeaseRequest;
  ca_sandbox : SandboxRequirement.t;
  ca_context : Context_;
}.

Record CapabilityRequest := {
  cq_call : CapabilityCall;
  cq_authority : CapabilityAuthority;
}.

Record CapabilityResult := {
  cr_call_id : string;
  cr_output : string;
  cr_is_error : bool;
  cr_usage : UsageReport;
  cr_audit_id : option AuditEventId;
  cr_patch_delta : option PatchDelta;
}.

Definition admission_request (request : CapabilityRequest) : AdmissionRequest :=
  let call := cq_call request in let authority := cq_authority request in
  {| ar_operation_id := cc_operation_id call; ar_process_id := cc_process_id call;
     ar_principal := ca_principal authority; ar_capability := cc_name call;
     ar_action := ca_action authority;
     ar_input_summary := String.substring 0 200 (debug_fmt (cc_input call));
     ar_risk := ca_risk authority; ar_requested_scope := ca_requested_scope authority;
     ar_budget := ca_budget authority; ar_lease := ca_lease authority;
     ar_sandbox := ca_sandbox authority |}.

(** Which branch of [tokio::select!] finished. *)
Inductive Selected :=
| Executed (result : CapabilityResult)
| CancelledFirst.

Definition usage_of (permit : PermitId) : UsageReport :=
  {| ur_permit_id := permit; ur_tokens_used := 0; ur_cost_micro := 0; ur_wall_time_ms := 0;
     ur_output_bytes := 0; ur_exit_code := None |}.

Definition with_permit (permit : PermitId) (u : UsageReport) : UsageReport :=
  {| ur_permit_id := permit; ur_tokens_used := ur_tokens_used u; ur_cost_micro := ur_cost_micro u;
     ur_wall_time_ms := ur_wall_time_ms u; ur_output_bytes := ur_output_bytes u;
     ur_exit_code := ur_exit_code u |}.

Definition tool_result (r : CapabilityResult) : ToolResult PatchDelta :=
  {| tr_content := cr_output r; tr_is_error := cr_is_error r;
     tr_metadata := {| tm_execution_time_ms := ur_wall_time_ms (cr_usage r);
                       tm_truncated := false; tm_patch_delta := cr_patch_delta r |} |}.

Definition denied (request : CapabilityRequest) (e : AdmissionError.t) : CapabilityResult :=
  {| cr_call_id := cc_call_id (cq_call request);
     cr_output := "admission denied: " ++ AdmissionError.display e; cr_is_error := true;
     cr_usage := UsageReport_default; cr_audit_id := None; cr_patch_delta := None |}.

Definition declined (request : CapabilityRequest) (permit : PermitId) (audit : AuditEventId)
    : CapabilityResult :=
  {| cr_call_id := cc_call_id (cq_call request);
     cr_output := "Sandbox required but execution infrastructure not available for '"
                  ++ cc_name (cq_call request) ++ "'";
     cr_is_error := true; cr_usage := usage_of permit; cr_audit_id := Some audit;
     cr_patch_delta := None |}.

Definition cancelled (request : CapabilityRequest) (permit : PermitId) (audit : AuditEventId)
    : CapabilityResult :=
  {| cr_call_id := cc_call_id (cq_call request);
     cr_output := "capability invocation cancelled"; cr_is_error := true;
     cr_usage := usage_of permit; cr_audit_id := Some audit; cr_patch_delta := None |}.

Definition settlement_failed (request : CapabilityRequest) (result : CapabilityResult)
    (err : AdmissionError.t) : CapabilityResult :=
  {| cr_call_id := cc_call_id (cq_call request);
     cr_output := "settlement failed: " ++ AdmissionError.display err; cr_is_error := true;
     cr_usage := cr_usage result; cr_audit_id := cr_audit_id result;
     cr_patch_delta := cr_patch_delta result |}.

(** The state: the admission controller's, and the sink of a streaming call. *)
Context {S : Type} `{HC : AdmissionController S}.
Abbreviation Sink := (ToolEventSink Json PatchDelta).
Abbreviation I := (M (S * option Sink) AdmissionError.t).

Definition on_admission {A} (m : M S AdmissionError.t A) : I A :=
  zoom fst (λ s x, (s, x.2)) m.

Definition on_sink (f : Sink → Sink) : I unit := modify (λ x, (x.1, f <$> x.2)).

(** [execute_with_permit] and [execute_streaming_with_permit], with the race
    against [request.control.cancel]. *)
Variable execute : CapabilityRequest → ExecutionPermit → I Selected.

(** [ToolExecutor::execute_streaming_with_permit] as the trait provides it for
    an executor that does not stream. *)
Definition execute_streaming_default
    (execute_with_permit : CapabilityRequest → ExecutionPermit → I CapabilityResult)
    (request : CapabilityRequest) (permit : ExecutionPermit) : I CapabilityResult :=
  result ← execute_with_permit request permit;
  on_sink (terminal (inr (tool_result result))) ;;
  mret result.

(** [StubToolExecutor]. *)
Definition stub_execute_with_permit (request : CapabilityRequest) (permit : ExecutionPermit)
    : I CapabilityResult :=
  audit ← new_uuid;
  mret {| cr_call_id := cc_call_id (cq_call request);
          cr_output := "stub: executed " ++ cc_name (cq_call request); cr_is_error := false;
          cr_usage := {| ur_permit_id := ep_id permit; ur_tokens_used := 0; ur_cost_micro := 0;
                         ur_wall_time_ms := 0;
                         ur_output_bytes := N.of_nat (String.length (cc_name (cq_call request)));
                         ur_exit_code := None |};
          cr_audit_id := Some audit; cr_patch_delta := None |}.

Definition stub_execute (request : CapabilityRequest) (permit : ExecutionPermit) : I Selected :=
  result ← stub_execute_with_permit request permit; mret (Executed result).

(** After the race: revoke on cancellation; otherwise close the stream, complete
    the result and settle with the usage the executor reported. *)
Definition completed (permit : PermitId) (audit : AuditEventId) (result : CapabilityResult)
    : CapabilityResult :=
  {| cr_call_id := cr_call_id result; cr_output := cr_output result;
     cr_is_error := cr_is_error result; cr_usage := with_permit permit (cr_usage result);
     cr_audit_id := Some audit; cr_patch_delta := cr_patch_delta result |}.

Definition after_select (request : CapabilityRequest) (permit : ExecutionPermit)
    (selected : Selected) : I CapabilityResult :=
  match selected with
  | CancelledFirst =>
      ignore (on_admission (revoke (ep_id permit) RevokeReason.OperationCancelled)) ;;
      audit ← new_uuid;
      mret (cancelled request (ep_id permit) audit)
  | Executed result =>
      on_sink (λ sink, if terminal_sent sink then sink
                       else terminal (inr (tool_result result)) sink) ;;
      audit ← match cr_audit_id result with
              | Some audit => mret audit
              | None => new_uuid
              end;
      let result := completed (ep_id permit) audit result in
      settled ← try_ (on_admission (settle (ep_id permit) (cr_usage result)));
      match settled with
      | inl err => mret (settlement_failed request result err)
      | inr _ => mret result
      end
  end.

Definition invoke_inner (request : CapabilityRequest) : I CapabilityResult :=
  admitted ← try_ (on_admission (admit_ (admission_request request)));
  match admitted with
  | inl e => mret (denied request e)
  | inr permit =>
      match ep_sandbox permit with
      | SandboxDecision.Required =>
          ignore (on_admission (revoke (ep_id permit) RevokeReason.OperationCancelled)) ;;
          audit ← new_uuid;
          mret (declined request (ep_id permit) audit)
      | _ =>
          selected ← execute request permit;
          after_select request permit selected
      end
  end.

(** ** Against the interface *)

Context {HL : AdmissionLaws S}.

(** What the executor may do meanwhile: anything that keeps the controller's
    invariant, as the methods of the controller do, to issue and to end permits
    included.  It may panic; an error is not an outcome its type has. *)
Definition executor_ok : Prop := ∀ request permit s k n,
  ad_ok s n →
  wp (execute request permit) (λ r x n', ad_ok x.1 n' ∧ n ≤ n' ∧ ∀ e, r ≠ Err e) (s, k) n.

(** The outcome of an invocation: a result, the invariant, and only permits of
    [P] live. *)
Definition leaves (P : PermitId → Prop) (n0 : N) (r : Result AdmissionError.t CapabilityResult)
    (x : S * option Sink) (n' : N) : Prop :=
  (∃ res, r = Ok res) ∧ ad_ok x.1 n' ∧ n0 ≤ n' ∧ ∀ q, ad_live x.1 q → P q.

(** The executor, run on a state with the permit of [request], leaves [q] live. *)
Definition left_by_executor (request : CapabilityRequest) (s : S) (k : option Sink) (n : N) (q : PermitId) : Prop :=
  ∃ permit s1 n1 r s2 k2 n2, admit_ (admission_request request) s n = (Ok permit, s1, n1)
    ∧ execute request permit (s1, k) n1 = (r, (s2, k2), n2) ∧ q ≠ ep_id permit ∧ ad_live s2 q.

Lemma wp_on_admission {A} (m : M S AdmissionError.t A) Q s k n :
  wp m (λ r s' n', Q r (s', k) n') s n → wp (on_admission m) Q (s, k) n.
Proof. intros Hm. by apply wp_zoom. Qed.

(** Revoking the permit [p] on the way out leaves the others. *)
Lemma revoke_out P s k n n0 p (ret : AuditEventId → CapabilityResult) :
  ad_ok s n → n0 ≤ n → (∀ q, ad_live s q → q ≠ p → P q) →
  wp (ignore (on_admission (revoke p RevokeReason.OperationCancelled)) ;;
      audit ← new_uuid; mret (ret audit) : I CapabilityResult)
    (λ r x n', leaves P n0 r x n' ∧ ¬ ad_live x.1 p) (s, k) n.
Proof.
  intros Hok Hn Hq. apply wp_bind, wp_ignore, wp_on_admission.
  eapply wp_mono; [by apply ad_revoke|]. intros r s' n' (Hok' & Hn' & Hr & Hdead & Hother).
  assert (Hgo : wp (audit ← new_uuid; mret (ret audit) : I CapabilityResult)
                  (λ r x n', leaves P n0 r x n' ∧ ¬ ad_live x.1 p) (s', k) n').
  { apply wp_bind, wp_new_uuid, wp_ret. split; [|done]. split_and!; [eauto|eapply ad_ok_mono; [|done]; lia|lia|].
    intros q Hlive. destruct (decide (q = p)) as [->|Hne]; [done|].
    apply Hother in Hlive; [|done]. by apply Hq. }
  by destruct r.
Qed.

(** Settling it does as well. *)
Lemma settle_out P s k n n0 p usage (good : CapabilityResult) (bad : AdmissionError.t → CapabilityResult) :
  ad_ok s n → n0 ≤ n → (∀ q, ad_live s q → q ≠ p → P q) → Decision (ad_live s p) →
  wp (settled ← try_ (on_admission (settle p usage));
      match settled with inl err => mret (bad err) | inr _ => mret good end : I CapabilityResult)
    (λ r x n', leaves P n0 r x n' ∧ ¬ ad_live x.1 p) (s, k) n.
Proof.
  intros Hok Hn Hq Hdec. apply wp_bind, wp_try, wp_on_admission.
  destruct Hdec as [Hlive|Hdead].
  - eapply wp_mono; [by apply ad_settle|]. intros r s' n' (Hok' & Hn' & -> & Hdead & Hother).
    apply wp_ret. split; [|done]. split_and!; [eauto|done|lia|]. intros q Hlq.
    destruct (decide (q = p)) as [->|Hne]; [done|]. apply Hother in Hlq; [|done]. by apply Hq.
  - unfold wp at 1. rewrite ad_settle_dead by done. apply wp_ret. split; [|done]. split_and!; [eauto|done|lia|].
    intros q Hlq. apply Hq; [done|]. by intros ->.
Qed.

(** After the executor has returned. *)
Lemma after_select_out P request permit sel s k n n0 :
  ad_ok s n → n0 ≤ n → (∀ q, ad_live s q → q ≠ ep_id permit → P q) →
  wp (after_select request permit sel) (λ r x n', leaves P n0 r x n' ∧ ¬ ad_live x.1 (ep_id permit)) (s, k) n.
Proof.
  intros Hok Hn Hq. destruct sel as [result|]; cbn [after_select]; [|by apply revoke_out].
  apply wp_bind, wp_modify. cbv beta iota. apply wp_bind.
  destruct (cr_audit_id result) as [audit|].
  - apply wp_ret. apply settle_out; [done|lia|done|apply ad_live_dec].
  - apply wp_new_uuid. apply settle_out; [eapply ad_ok_mono; [|done]; lia|lia|done|apply ad_live_dec].
Qed.

(** What an invocation owes when the admission was [granted]: the invariant, and
    a result unless the executor panicked; with a result, the permit granted is not
    live and every live permit satisfies [P]. *)
Definition returned (P : N → Prop) (granted : Result AdmissionError.t ExecutionPermit * S * N) request
    (k : option Sink) n (o : Result AdmissionError.t CapabilityResult * (S * option Sink) * N) : Prop :=
  match o with
  | (r, (s', _), n') =>
      ad_ok s' n' ∧ n ≤ n' ∧
      match r with
      | Ok _ => (∀ permit s1 n1, granted = (Ok permit, s1, n1) → ¬ ad_live s' (ep_id permit))
                ∧ ∀ q, ad_live s' q → P q
      | Err _ => False
      | Panic => ∃ permit s1 n1, granted = (Ok permit, s1, n1) ∧ (execute request permit (s1, k) n1).1.1 = Panic
      end
  end.

(** C16. No invocation that returns leaks a permit: against any controller that
    satisfies the interface and any executor that keeps the controller's invariant,
    with its own permits issued and ended meanwhile and whichever side wins the race
    with the cancellation, [invoke_inner] keeps the invariant and returns a result
    unless the executor panics.  When it returns, the permit it was granted is not
    live, and a permit that is live was live before or was left by the executor. *)
Theorem invoke_leaks_no_permit request s k n :
  executor_ok → ad_ok s n → ad_valid (admission_request request) →
  returned (λ q, ad_live s q ∨ left_by_executor request s k n q) (admit_ (admission_request request) s n)
    request k n (invoke_inner request (s, k) n).
Proof.
  intros Hex Hok Hv. pose proof (ad_admit (admission_request request) s n Hok Hv) as Ha. unfold wp in Ha.
  assert (Hrun : try_ (on_admission (admit_ (admission_request request))) (s, k) n
    = (match admit_ (admission_request request) s n with
       | (Ok permit, s1, n1) => (Ok (inr permit), (s1, k), n1)
       | (Err e, s1, n1) => (Ok (inl e), (s1, k), n1)
       | (Panic, s1, n1) => (Panic, (s1, k), n1)
       end : Result AdmissionError.t (AdmissionError.t + ExecutionPermit) * _ * N)).
  { unfold try_, on_admission, zoom. cbn [fst snd]. by destruct (admit_ _ s n) as [[[] ?] ?]. }
  unfold invoke_inner. unfold mbind at 1, M_bind at 1. rewrite Hrun.
  destruct (admit_ (admission_request request) s n) as [[[permit|e|] s1] n1] eqn:Hadmit;
    destruct Ha as (Hok1 & Hn1 & Hr); [| |done].
  2: { cbn. split; [done|]. split; [done|]. split; [by intros|]. intros q. rewrite Hr. by left. }
  destruct Hr as (_ & _ & _ & _ & _ & Hother).
  set (P := λ q, ad_live s q ∨ left_by_executor request s k n q).
  assert (Hq1 : ∀ q, ad_live s1 q → q ≠ ep_id permit → P q) by (intros q Hl Hne; left; by apply Hother).
  set (granted := (Ok permit, s1, n1) : Result AdmissionError.t ExecutionPermit * S * N).
  assert (Hout : ∀ o, (let '(r, x, n') := o in leaves P n r x n' ∧ ¬ ad_live x.1 (ep_id permit)) →
    returned P granted request k n o).
  { intros [[r [s' k']] n'] [(Hres & Hok' & Hn' & Hq) Hd]. destruct Hres as [res ->]. cbn in *.
    split_and!; [done..| |done]. by intros p' s2 n2 [= <- _ _]. }
  assert (Hexec : returned P granted request k n
    ((selected ← execute request permit; after_select request permit selected) (s1, k) n1)).
  { unfold mbind, M_bind. pose proof (Hex request permit s1 k n1 Hok1) as He. unfold wp in He.
    destruct (execute request permit (s1, k) n1) as [[[sel|e|] [s2 k2]] n2] eqn:Hcall;
      destruct He as (Hok2 & Hn2 & Herr); [|by destruct (Herr e)|].
    - apply Hout. apply (after_select_out P); [done|lia|]. intros q Hl Hne. right.
      exists permit, s1, n1, (Ok sel), s2, k2, n2. done.
    - cbn in *. split_and!; [done|lia|]. exists permit, s1, n1. by rewrite Hcall. }
  destruct (ep_sandbox permit); try exact Hexec. apply Hout, (revoke_out P); [done|lia|done].
Qed.

(** The success path: with a permit that asks for no sandbox and is still
    live when the executor finishes, [invoke_inner] settles exactly that permit
    with exactly the usage the executor reported, returns the executor's result
    under the permit's id with an audit id, and a streaming call has its terminal
    event. *)
Theorem invoke_settles_reported_usage request s k n permit s1 n1 result s2 k2 n2 :
  admit_ (admission_request request) s n = (Ok permit, s1, n1) →
  ep_sandbox permit = SandboxDecision.NotApplicable →
  execute request permit (s1, k) n1 = (Ok (Executed result), (s2, k2), n2) →
  ad_ok s2 n2 → ad_live s2 (ep_id permit) →
  ∃ audit s3 n2' n3,
    n2 ≤ n2' ∧ settle (ep_id permit) (with_permit (ep_id permit) (cr_usage result)) s2 n2'
      = (Ok tt, s3, n3)
    ∧ invoke_inner request (s, k) n = (Ok (completed (ep_id permit) audit result), (s3,
        (λ sink, if terminal_sent sink then sink
                 else terminal (inr (tool_result result)) sink) <$> k2), n3)
    ∧ ∀ sink, k2 = Some sink → ∃ sink', (invoke_inner request (s, k) n).1.2.2 = Some sink'
        ∧ terminal_sent sink' = true.
Proof.
  intros Hadmit Hsand Hexec Hok Hlive.
  set (n2' := match cr_audit_id result with Some _ => n2 | None => n2 + 1 end).
  assert (Hn : n2 ≤ n2') by (unfold n2'; destruct (cr_audit_id result); lia).
  set (audit := match cr_audit_id result with Some a => a | None => uuid_v4 n2 end).
  pose proof (ad_settle (ep_id permit) (with_permit (ep_id permit) (cr_usage result)) s2 n2'
    (ad_ok_mono _ _ _ Hn Hok) Hlive) as Hs. unfold wp in Hs.
  destruct (settle _ _ s2 n2') as [[res s3] n3] eqn:Heq. destruct Hs as (_ & _ & -> & _ & _).
  assert (Hrun : invoke_inner request (s, k) n = (Ok (completed (ep_id permit) audit result), (s3,
        (λ sink, if terminal_sent sink then sink
                 else terminal (inr (tool_result result)) sink) <$> k2), n3)).
  { unfold invoke_inner, on_admission, zoom, try_, mbind, M_bind. cbn [fst snd]. rewrite Hadmit.
    cbn [fst snd]. rewrite Hsand, Hexec. unfold after_select, on_sink, modify, mbind, M_bind.
    cbn [fst snd]. unfold on_admission, zoom, try_, n2', audit in *.
    unfold new_uuid, tick, mbind, M_bind.
    destruct (cr_audit_id result); cbn -[settle] in *; rewrite Heq; done. }
  exists audit, s3, n2', n3. split_and!; [done|done|exact Hrun|].
  intros sink ->. rewrite Hrun. cbn. eexists. split; [done|].
  destruct (terminal_sent sink) eqn:Ht; [done|]. unfold terminal. by rewrite Ht.
Qed.

End Invoker.

(** ** With the production controller *)

Section ProductionInvoker.
Context `{HEnv : Env} {HOk : EnvOk} {Json PatchDelta Ctx : Type} (debug_fmt : Json → string).
Import Production.
Abbreviation X := (M (State * option (ToolEventSink Json PatchDelta)) AdmissionError.t).

(** Fail closed: under the production controller a request that asks for a
    sandbox never reaches the executor.  The outcome does not depend on the
    executor at all, the result is an error, and no permit is left. *)
Theorem sandboxed_requests_fail_closed
    (execute execute' : CapabilityRequest → ExecutionPermit → X Selected)
    (request : CapabilityRequest (Context_ := Ctx)) st k n :
  adm_wf st n → valid_request (admission_request debug_fmt request) →
  ca_sandbox (cq_authority request) ≠ SandboxRequirement.NotRequired →
  invoke_inner debug_fmt execute request (st, k) n = invoke_inner debug_fmt execute' request (st, k) n
  ∧ ∃ result st' n', invoke_inner debug_fmt execute request (st, k) n = (Ok result, (st', k), n')
      ∧ cr_is_error result = true ∧ active st' = active st.
Proof.
  intros Hw Hv Hsand. pose proof (admit_spec st n _ Hw Hv) as Ha. unfold wp in Ha.
  unfold invoke_inner, on_admission, zoom, try_, mbind, M_bind, ignore. cbn [fst snd].
  change (Admission.admit_ (admission_request debug_fmt request) st n)
    with (admit_ (admission_request debug_fmt request) st n).
  destruct (admit_ _ st n) as [[[permit|e|] st1] n1]; destruct Ha as (Hn & Hw1 & _ & _ & Hr); [..|done].
  - destruct Hr as (Hf & Ha1 & _ & Hna & Hor & _).
    destruct Hor as [Hor|Hor]; [by apply Hna in Hor|]. rewrite Hor. split; [done|].
    pose proof (revoke_keeps st1 n1 (ep_id permit) RevokeReason.OperationCancelled Hw1) as Hrev.
    unfold wp in Hrev. cbn [fst snd].
    change (Admission.revoke (ep_id permit) RevokeReason.OperationCancelled st1 n1)
      with (revoke (ep_id permit) RevokeReason.OperationCancelled st1 n1).
    destruct (revoke _ _ st1 n1) as [[r st2] n2]. destruct Hrev as (Hp & _ & _ & Ha2 & _).
    assert (Hact : active st2 = active st).
    { rewrite Ha2, Ha1. apply delete_insert_id. destruct (active st !! ep_id permit) eqn:E; [|done].
      destruct Hf. by eapply aw_active. }
    destruct r; [..|done]; eexists _, _, _; split_and!; done.
  - split; [done|]. eexists _, _, _. split_and!; done.
Qed.

End ProductionInvoker.

(** ** Witnesses *)

Definition sample_call (sandbox : SandboxRequirement.t)
    : CapabilityRequest (Json := unit) (Context_ := unit) :=
  let r := sample_request 40 sandbox in
  {| cq_call := {| cc_operation_id := ar_operation_id r; cc_process_id := ar_process_id r;
                   cc_name := "shell"; cc_input := tt; cc_call_id := "call-1"; cc_deadline := None |};
     cq_authority := {| ca_principal := ar_principal r; ca_action := ar_action r;
                        ca_requested_scope := ar_requested_scope r; ca_risk := ar_risk r;
                        ca_budget := ar_budget r; ca_lease := ar_lease r; ca_sandbox := sandbox;
                        ca_context := tt |} |}.

Abbreviation stub := (stub_execute (HEnv := sample_env) (S := Production.State) (Json := unit)
  (PatchDelta := unit) (Context_ := unit)).

Abbreviation invoke_stub := (invoke_inner (HEnv := sample_env) (λ _ : unit, "") (S := Production.State)
  (HC := Production.controller (H := sample_env))
  (PatchDelta := unit) (Context_ := unit) stub).

Lemma stub_ok `{HEnv : Env} {Json PatchDelta Ctx S} `{HC : AdmissionController S}
    {HL : AdmissionLaws S} :
  executor_ok (stub_execute (Json := Json) (PatchDelta := PatchDelta) (Context_ := Ctx) (S := S)).
Proof.
  intros request permit s k n Hok. unfold stub_execute, stub_execute_with_permit. wp_steps.
  split_and!; [|lia|done]. eapply ad_ok_mono; [|done]. lia.
Qed.

Lemma sample_call_valid sandbox :
  Production.valid_request (admission_request (λ _ : unit, "") (sample_call sandbox)).
Proof. intros b [= <-] [] x [= <-]. vm_compute. discriminate. Qed.

(** The permit of the success path. *)
Definition sample_permit : ExecutionPermit :=
  permit_of (admission_request (λ _ : unit, "") (sample_call SandboxRequirement.NotRequired)) 3 1000
    SandboxDecision.NotApplicable (Some 9) (Some 10).

Lemma invoke_leaks_no_permit_witness :
  match invoke_stub (sample_call SandboxRequirement.NotRequired) (sample_state true, Some tool_event_channel) account.2 with
  | (Ok _, (s', _), _) => ¬ is_Some (Production.active s' !! 3)
  | _ => False
  end.
Proof.
  pose proof (invoke_leaks_no_permit (HL := production_laws (HOk := sample_env_ok)) (λ _ : unit, "") stub
    (sample_call SandboxRequirement.NotRequired) (sample_state true) (Some tool_event_channel) account.2
    (stub_ok (HL := production_laws (HOk := sample_env_ok))) (sample_state_wf true)
    (sample_call_valid SandboxRequirement.NotRequired)) as Hl.
  destruct (invoke_stub _ _ _) as [[[res|e|] [s' k']] n'] eqn:Hrun; [|destruct Hl as (_ & _ & [])|].
  - destruct Hl as (_ & _ & Hown & _). eapply (Hown sample_permit sample_admitted.1 sample_admitted.2).
    vm_compute. reflexivity.
  - vm_compute in Hrun. discriminate.
Defined.

Lemma sandboxed_requests_fail_closed_witness :
  ∃ result st' n', invoke_stub (sample_call SandboxRequirement.Required)
      (sample_state true, None) account.2 = (Ok result, (st', None), n')
    ∧ cr_is_error result = true ∧ Production.active st' = Production.active (sample_state true).
Proof.
  refine (proj2 (sandboxed_requests_fail_closed (HOk := sample_env_ok) (λ _ : unit, "") stub stub
    (sample_call SandboxRequirement.Required) (sample_state true) None account.2 _ _ _)).
  - exact (sample_state_wf true).
  - exact (sample_call_valid SandboxRequirement.Required).
  - discriminate.
Defined.

(** The result of the success path. *)
Definition sample_result : CapabilityResult (PatchDelta := unit) :=
  {| cr_call_id := "call-1"; cr_output := "stub: executed shell"; cr_is_error := false;
     cr_usage := {| ur_permit_id := 3; ur_tokens_used := 0; ur_cost_micro := 0; ur_wall_time_ms := 0;
                    ur_output_bytes := 5; ur_exit_code := None |};
     cr_audit_id := Some 11; cr_patch_delta := None |}.

Lemma invoke_settles_reported_usage_witness :
  ∃ audit s3 k3 n3, invoke_stub (sample_call SandboxRequirement.NotRequired)
      (sample_state true, Some tool_event_channel) account.2
      = (Ok (completed 3 audit sample_result), (s3, k3), n3).
Proof.
  destruct (invoke_settles_reported_usage (HL := production_laws (HOk := sample_env_ok))
    (λ _ : unit, "") stub (sample_call SandboxRequirement.NotRequired) (sample_state true)
    (Some tool_event_channel) account.2 sample_permit sample_admitted.1 sample_admitted.2
    sample_result sample_admitted.1 (Some tool_event_channel) (sample_admitted.2 + 1))
    as (audit & s3 & n2' & n3 & _ & _ & Hrun & _).
  - vm_compute. reflexivity.
  - reflexivity.
  - vm_compute. reflexivity.
  - refine (adm_wf_mono (HEnv := sample_env) sample_admitted.1 sample_admitted.2 _ _ sample_admitted_wf). lia.
  - vm_compute. eexists. reflexivity.
  - eexists audit, s3, _, n3. exact Hrun.
Defined.
