(* ===== verification/Space.v ===== *)
(** * Context spaces (crates/kernel/src/space/manager.rs)

    The table of process-private context spaces: version-pinned bindings and a
    private overlay.  A fork inherits what its parent sees, without its write
    authority, and what is written to it stays in it. *)
From S2P Require Import Prelude FabricTypes.

Section Space.
Context `{HEnv : Env} {Json : Type}.

Abbreviation Spaces := (gmap SpaceId (ContextSpace Json)).

Definition get_space (spaces : Spaces) (space : SpaceId) : option (ContextSpace Json) :=
  spaces !! space.

Definition space_count (spaces : Spaces) : nat := size spaces.

Section Ops.
Context {E : Type}.
Abbreviation P := (M Spaces E).

(** [empty_space] draws an owner id nobody has. *)
Definition empty_space (id : SpaceId) : P (ContextSpace Json) :=
  owner ← new_uuid;
  mret {| cx_id := id; cx_owner := owner; cx_parent_snapshot := None; cx_bindings := [];
          cx_overlay := ∅; cx_namespace := "default" |}.

(** [spaces.entry(space).or_insert_with(|| empty_space(space))] *)
Definition entry_or_empty (space : SpaceId) : P (ContextSpace Json) :=
  spaces ← get_state;
  match spaces !! space with
  | Some entry => mret entry
  | None => entry ← empty_space space; modify (insert space entry) ;; mret entry
  end.

Definition with_bindings (f : list ContextBinding.t → list ContextBinding.t)
    (s : ContextSpace Json) : ContextSpace Json :=
  {| cx_id := cx_id s; cx_owner := cx_owner s; cx_parent_snapshot := cx_parent_snapshot s;
     cx_bindings := f (cx_bindings s); cx_overlay := cx_overlay s; cx_namespace := cx_namespace s |}.

Definition with_overlay (f : gmap string Json → gmap string Json)
    (s : ContextSpace Json) : ContextSpace Json :=
  {| cx_id := cx_id s; cx_owner := cx_owner s; cx_parent_snapshot := cx_parent_snapshot s;
     cx_bindings := cx_bindings s; cx_overlay := f (cx_overlay s); cx_namespace := cx_namespace s |}.

Definition set_overlay (space : SpaceId) (key : string) (value : Json) : P unit :=
  entry ← entry_or_empty space;
  modify (insert space (with_overlay (insert key value) entry)).

Definition release (space : SpaceId) : P bool :=
  spaces ← get_state;
  modify (delete space) ;;
  mret (bool_decide (is_Some (spaces !! space))).

Definition is_multi (b : ContextBinding.t) : bool :=
  match b with ContextBinding.Artifact _ _ => true | _ => false end.

Definition upserted (binding : ContextBinding.t) (bindings : list ContextBinding.t)
    : list ContextBinding.t :=
  (if is_multi binding then bindings
   else filter (λ b, ContextBinding.discriminant b ≠ ContextBinding.discriminant binding) bindings)
  ++ [binding].

Definition upsert_binding (space : SpaceId) (binding : ContextBinding.t) : P unit :=
  entry ← entry_or_empty space;
  modify (insert space (with_bindings (upserted binding) entry)).

Definition fork_space (parent : SpaceId) (owner : ProcessId) : P SpaceId :=
  child_id ← new_uuid;
  parent_space ← entry_or_empty parent;
  snapshot ← new_uuid;
  modify (insert child_id
    {| cx_id := child_id; cx_owner := owner; cx_parent_snapshot := Some snapshot;
       cx_bindings := ContextBinding.fork_inherited <$> cx_bindings parent_space;
       cx_overlay := ∅; cx_namespace := cx_namespace parent_space |}) ;;
  mret child_id.

Definition attach_region (space : SpaceId) (binding : ContextBinding.t) : P unit :=
  entry ← entry_or_empty space;
  modify (insert space (with_bindings (λ l, l ++ [binding]) entry)).

End Ops.

(** ** What is known of the table *)

(** Every space is stored under its id, and the ids were drawn. *)
Definition spaces_wf (spaces : Spaces) (n : N) : Prop :=
  ∀ k s, spaces !! k = Some s → cx_id s = k ∧ drawn n k.

Definition writable (b : ContextBinding.t) : Prop :=
  match b with ContextBinding.Artifact _ AccessMode.ReadWrite => True | _ => False end.

Definition blank (id : SpaceId) (owner : ProcessId) : ContextSpace Json :=
  {| cx_id := id; cx_owner := owner; cx_parent_snapshot := None; cx_bindings := [];
     cx_overlay := ∅; cx_namespace := "default" |}.

Lemma entry_or_empty_cases {E} (spaces : Spaces) n space :
  (∃ s, spaces !! space = Some s ∧ entry_or_empty (E := E) space spaces n = (Ok s, spaces, n))
  ∨ (spaces !! space = None ∧ entry_or_empty (E := E) space spaces n =
       (Ok (blank space (uuid_v4 n)), <[space := blank space (uuid_v4 n)]> spaces, n + 1)).
Proof.
  unfold entry_or_empty, mbind, M_bind, get_state.
  destruct (spaces !! space) as [s|] eqn:Hs; [left; by exists s|by right].
Qed.

Lemma fork_not_writable l :
  Forall (λ b, ¬ writable b) (ContextBinding.fork_inherited <$> l).
Proof. apply Forall_fmap, Forall_true. intros [| | |? []|]; cbn; tauto. Qed.

(** Forking, in full: the parent's entry (made if it was missing), the new id
    and the child. *)
Lemma fork_space_spec {E} (spaces : Spaces) n parent owner :
  ∃ child psc snapshot spaces' n',
    fork_space (E := E) parent owner spaces n = (Ok child, spaces', n') ∧ child = uuid_v4 n
    ∧ n + 2 ≤ n' ≤ n + 3 ∧ drawn n' child
    ∧ (spaces !! parent = Some psc ∨ spaces !! parent = None ∧ ∃ o, psc = blank parent o)
    ∧ spaces' = <[child := {| cx_id := child; cx_owner := owner; cx_parent_snapshot := Some snapshot;
                              cx_bindings := ContextBinding.fork_inherited <$> cx_bindings psc;
                              cx_overlay := ∅; cx_namespace := cx_namespace psc |}]>
                  (<[parent := psc]> spaces).
Proof.
  unfold fork_space, new_uuid, tick, mbind, M_bind. cbn -[entry_or_empty].
  destruct (entry_or_empty_cases (E := E) spaces (n + 1) parent) as [(s & Hs & ->)|[Hs ->]]; cbn.
  - eexists _, s, _, _, _. split; [done|]. split_and!; [done|lia|lia|apply drawn_here; lia|auto|].
    by rewrite (insert_id spaces parent s).
  - eexists _, _, _, _, _. split; [done|]. split_and!; [done|lia|lia|apply drawn_here; lia|eauto|done].
Qed.

Lemma spaces_wf_fork {E} {HOk : EnvOk} (spaces : Spaces) n parent owner :
  spaces_wf spaces n → drawn n parent →
  wp (fork_space (E := E) parent owner) (λ r spaces' n', (∃ child, r = Ok child ∧ drawn n' child)
    ∧ n ≤ n' ∧ spaces_wf spaces' n') spaces n.
Proof.
  intros Hw Hp. destruct (fork_space_spec (E := E) spaces n parent owner)
    as (child & psc & snap & spaces' & n' & Hrun & -> & Hn & Hd & Hpsc & ->).
  unfold wp. rewrite Hrun. split_and!; [eauto|lia|]. intros k s Hk.
  assert (Hpid : cx_id psc = parent) by (destruct Hpsc as [Hpsc|[_ [o ->]]]; [by apply Hw in Hpsc as [? _]|done]).
  split_lookup; [by split|split; [done|eapply drawn_mono; [|done]; lia]|].
  destruct (Hw _ _ Hk). split; [done|]. eapply drawn_mono; [|done]. lia.
Qed.

(** Fork isolation: forking never fails and gives the child a new id; the
    child sees the parent's bindings with no write authority left, starts with an
    empty overlay and records a snapshot; the parent and every other space are
    untouched; and whatever is later written to the child's overlay or bindings
    leaves the parent's space as it was. *)
Theorem fork_space_isolated {HOk : EnvOk} (spaces : Spaces) n parent owner psc :
  spaces_wf spaces n → spaces !! parent = Some psc →
  ∃ child spaces' n' csc,
    fork_space (E := string) parent owner spaces n = (Ok child, spaces', n')
    ∧ spaces !! child = None ∧ spaces' !! child = Some csc
    ∧ cx_owner csc = owner ∧ cx_overlay csc = ∅ ∧ is_Some (cx_parent_snapshot csc)
    ∧ cx_bindings csc = ContextBinding.fork_inherited <$> cx_bindings psc
    ∧ Forall (λ b, ¬ writable b) (cx_bindings csc)
    ∧ (∀ k, k ≠ child → spaces' !! k = spaces !! k)
    ∧ (∀ key value, wp (set_overlay (E := string) child key value)
         (λ r spaces'' _, r = Ok tt ∧ spaces'' !! parent = Some psc) spaces' n')
    ∧ (∀ b, wp (attach_region (E := string) child b)
         (λ r spaces'' _, r = Ok tt ∧ spaces'' !! parent = Some psc) spaces' n').
Proof.
  intros Hw Hp. destruct (fork_space_spec (E := string) spaces n parent owner)
    as (child & psc0 & snap & spaces' & n' & Hrun & -> & Hn & Hd & Hpsc & Hsp).
  destruct Hpsc as [Hpsc|[? _]]; [|congruence]. assert (psc0 = psc) as -> by congruence.
  rewrite (insert_id spaces parent psc Hp) in Hsp.
  assert (Hfresh : spaces !! uuid_v4 n = None).
  { destruct (spaces !! uuid_v4 n) eqn:Hk; [|done]. destruct (drawn_fresh n). by apply Hw in Hk as [_ ?]. }
  assert (Hne : parent ≠ uuid_v4 n) by congruence.
  assert (Hpar : spaces' !! parent = Some psc) by (rewrite Hsp, lookup_insert_ne; done).
  eexists _, spaces', n', _. split; [exact Hrun|]. split; [done|].
  split; [rewrite Hsp; apply lookup_insert_eq|]. split_and!; try done.
  - apply fork_not_writable.
  - intros k Hk. by rewrite Hsp, lookup_insert_ne.
  - intros key value. unfold wp, set_overlay, mbind, M_bind.
    destruct (entry_or_empty_cases (E := string) spaces' n' (uuid_v4 n)) as [(s & Hs & ->)|[Hs _]].
    + cbn. by rewrite lookup_insert_ne.
    + rewrite Hsp, lookup_insert_eq in Hs. done.
  - intros b. unfold wp, attach_region, mbind, M_bind.
    destruct (entry_or_empty_cases (E := string) spaces' n' (uuid_v4 n)) as [(s & Hs & ->)|[Hs _]].
    + cbn. by rewrite lookup_insert_ne.
    + rewrite Hsp, lookup_insert_eq in Hs. done.
Qed.

(** [upsert_binding]: a singleton variant occurs exactly once afterwards,
    with the new value, and bindings of the other variants keep their order; an
    artifact is added beside those already there. *)
Theorem upsert_binding_singleton binding bindings :
  let after := upserted binding bindings in
  (is_multi binding = false →
    filter (λ b, ContextBinding.discriminant b = ContextBinding.discriminant binding) after = [binding])
  ∧ (is_multi binding = true → after = bindings ++ [binding])
  ∧ filter (λ b, ContextBinding.discriminant b ≠ ContextBinding.discriminant binding) after =
    filter (λ b, ContextBinding.discriminant b ≠ ContextBinding.discriminant binding) bindings.
Proof.
  unfold upserted. cbn zeta. set (d := ContextBinding.discriminant). split; [|split].
  - intros ->. rewrite filter_app, list_filter_filter.
    replace (filter _ bindings) with (@nil ContextBinding.t); cbn; [by rewrite decide_True|].
    symmetry. induction bindings as [|b l IH]; [done|]. rewrite filter_cons_False by tauto. done.
  - by intros ->.
  - rewrite filter_app. rewrite (filter_cons_False _ binding []) by (cbn; tauto). rewrite app_nil_r.
    destruct (is_multi binding); [done|]. induction bindings as [|b l IH]; [done|].
    destruct (decide (d b = d binding)) as [Hb|Hb].
    + rewrite !filter_cons_False by tauto. done.
    + rewrite !(filter_cons_True _ b) by done. by rewrite IH.
Qed.

End Space.

(** ** Witness *)

Definition sample_space : ContextSpace nat :=
  {| cx_id := 1; cx_owner := 2; cx_parent_snapshot := None;
     cx_bindings := [ContextBinding.Session "s"; ContextBinding.Artifact "a" AccessMode.ReadWrite];
     cx_overlay := {["k" := 7%nat]}; cx_namespace := "default" |}.

Lemma fork_space_isolated_witness :
  ∃ child spaces' n' csc,
    fork_space (HEnv := sample_env) (E := string) 1 50 {[1 := sample_space]} 2 = (Ok child, spaces', n')
    ∧ spaces' !! child = Some csc
    ∧ cx_bindings csc = [ContextBinding.Session "s"; ContextBinding.Artifact "a" AccessMode.ReadOnly].
Proof.
  destruct (fork_space_isolated (HOk := sample_env_ok) ({[1 := sample_space]} : gmap SpaceId _) 2 1 50
    sample_space) as (child & spaces' & n' & csc & Hrun & _ & Hc & _ & _ & _ & Hb & _).
  - intros k s Hk. apply lookup_singleton_Some in Hk as [<- <-]. split; [reflexivity|].
    exists 0. split; [lia|reflexivity].
  - reflexivity.
  - exists child, spaces', n', csc. split; [exact Hrun|]. split; [exact Hc|]. rewrite Hb. reflexivity.
Defined.
