(* ===== verification/Process.v ===== *)
(** * The process table (crates/kernel/src/process/table.rs)

    The authoritative lifecycle of agent processes, with the context space each
    process is given.  The waiter's wake-up ([Notify]) is not modelled: [wait] is
    what one poll of [wait_for_terminal] sees. *)
From S2P Require Import Prelude FabricTypes Space.

Record ProcessRuntime := {
  rt_record : ProcessRecord;
  rt_active_operation : option OperationId;
}.

Inductive ProcessError :=
| UnknownProcess (id : ProcessId)
| IllegalProcessTransition (from next : ProcessState.t)
| AlreadyTerminal (id : ProcessId)
| IllegalExitTransition (from next : ProcessState.t)
| NotTerminal (id : ProcessId)
| UnknownParent (parent : ProcessId)
| ParentTerminal.

Section Table.
Context `{HEnv : Env} {Json : Type}.

(** The table and the space manager it shares with the kernel. *)
Record ProcessTable := {
  records : gmap ProcessId ProcessRuntime;
  spaces : gmap SpaceId (ContextSpace Json);
}.

Definition ProcessTable_new : ProcessTable := {| records := ∅; spaces := ∅ |}.

Definition with_records f (t : ProcessTable) : ProcessTable :=
  {| records := f (records t); spaces := spaces t |}.

Definition set_spaces s (t : ProcessTable) : ProcessTable :=
  {| records := records t; spaces := s |}.

Abbreviation T := (M ProcessTable ProcessError).

Definition set_proc_state (s : ProcessState.t) (r : ProcessRecord) : ProcessRecord :=
  {| pr_process_id := pr_process_id r; pr_agent_id := pr_agent_id r; pr_parent := pr_parent r;
     pr_profile := pr_profile r; pr_state := s; pr_space := pr_space r; pr_mailbox := pr_mailbox r;
     pr_namespace := pr_namespace r; pr_created_at := pr_created_at r;
     pr_last_heartbeat := pr_last_heartbeat r; pr_exit := pr_exit r; pr_ownership := pr_ownership r |}.

Definition set_heartbeat (now : MonoTime) (r : ProcessRecord) : ProcessRecord :=
  {| pr_process_id := pr_process_id r; pr_agent_id := pr_agent_id r; pr_parent := pr_parent r;
     pr_profile := pr_profile r; pr_state := pr_state r; pr_space := pr_space r;
     pr_mailbox := pr_mailbox r; pr_namespace := pr_namespace r; pr_created_at := pr_created_at r;
     pr_last_heartbeat := now; pr_exit := pr_exit r; pr_ownership := pr_ownership r |}.

Definition set_exit (e : option ExitStatus) (r : ProcessRecord) : ProcessRecord :=
  {| pr_process_id := pr_process_id r; pr_agent_id := pr_agent_id r; pr_parent := pr_parent r;
     pr_profile := pr_profile r; pr_state := pr_state r; pr_space := pr_space r;
     pr_mailbox := pr_mailbox r; pr_namespace := pr_namespace r; pr_created_at := pr_created_at r;
     pr_last_heartbeat := pr_last_heartbeat r; pr_exit := e; pr_ownership := pr_ownership r |}.

Definition update_record (id : ProcessId) (f : ProcessRecord → ProcessRecord) : T unit :=
  modify (with_records (alter (λ rt, {| rt_record := f (rt_record rt);
                                        rt_active_operation := rt_active_operation rt |}) id)).

Definition runtime_of (id : ProcessId) : T ProcessRuntime :=
  t ← get_state; ok_or (records t !! id) (UnknownProcess id).

Definition connection_foreground_ids (i : N) (t : ProcessTable) (connection_id : ConnectionId)
    : list ProcessId :=
  omap (λ e, match pr_ownership (rt_record e.2) with
             | ProcessOwnership.ConnectionForeground owner =>
                 if decide (owner = connection_id) then Some e.1 else None
             | _ => None
             end) (hash_entries i (records t)).

Definition transition (id : ProcessId) (next : ProcessState.t) : T unit :=
  runtime ← runtime_of id;
  let from := pr_state (rt_record runtime) in
  if ProcessState.can_transition_to from next then
    update_record id (set_proc_state next) ;;
    now ← read_mono;
    update_record id (set_heartbeat now)
  else throw (IllegalProcessTransition from next).

Definition set_active_operation (id : ProcessId) (operation : option OperationId) : T unit :=
  runtime ← runtime_of id;
  modify (with_records (insert id {| rt_record := rt_record runtime; rt_active_operation := operation |})).

Definition terminal_state (reason : ExitReason.t) : ProcessState.t :=
  match reason with
  | ExitReason.Failed _ | ExitReason.Panic _ => ProcessState.Failed
  | _ => ProcessState.Exited
  end.

Definition mark_exit (id : ProcessId) (reason : ExitReason.t) : T unit :=
  runtime ← runtime_of id;
  let from := pr_state (rt_record runtime) in
  ensure (negb (ProcessState.is_terminal from)) (AlreadyTerminal id) ;;
  let terminal := terminal_state reason in
  current ← (if decide (terminal = ProcessState.Exited ∧ from ≠ ProcessState.Stopping) then
               ensure (ProcessState.can_transition_to from ProcessState.Stopping)
                 (IllegalExitTransition from ProcessState.Stopping) ;;
               update_record id (set_proc_state ProcessState.Stopping) ;;
               mret ProcessState.Stopping
             else mret from);
  ensure (ProcessState.can_transition_to current terminal) (IllegalExitTransition current terminal) ;;
  at_ ← read_mono;
  update_record id (set_exit (Some {| es_reason := reason; es_at := at_ |})) ;;
  update_record id (set_proc_state terminal) ;;
  now ← read_mono;
  update_record id (set_heartbeat now).

Definition reap (id : ProcessId) : T ProcessRecord :=
  runtime ← runtime_of id;
  if ProcessState.is_terminal (pr_state (rt_record runtime)) then
    modify (with_records (delete id)) ;; mret (rt_record runtime)
  else throw (NotTerminal id).

(** One poll of [wait_for_terminal]: [None] means that it parks. *)
Definition wait_poll (id : ProcessId) : T (option ExitStatus) :=
  runtime ← runtime_of id; mret (pr_exit (rt_record runtime)).

Definition snapshot (runtime : ProcessRuntime) : ProcessSnapshot :=
  let r := rt_record runtime in
  {| sn_process_id := pr_process_id r; sn_space := pr_space r; sn_agent_id := pr_agent_id r;
     sn_parent := pr_parent r; sn_profile := pr_profile r; sn_state := pr_state r;
     sn_exit := pr_exit r; sn_active_operation := rt_active_operation runtime;
     sn_ownership := pr_ownership r |}.

Definition inspect (id : ProcessId) : T ProcessSnapshot :=
  runtime ← runtime_of id; mret (snapshot runtime).

Definition spawn (spec : SpawnSpec) : T ProcessId :=
  process_id ← new_uuid;
  parent_space ← (match ss_parent spec with
    | Some parent =>
        t ← get_state;
        runtime ← ok_or (records t !! parent) (UnknownParent parent);
        ensure (negb (ProcessState.is_terminal (pr_state (rt_record runtime)))) ParentTerminal ;;
        mret (Some (pr_space (rt_record runtime)))
    | None => mret None
    end);
  space ← (match parent_space with
    | Some parent_space => zoom spaces set_spaces (fork_space parent_space process_id)
    | None => new_uuid
    end);
  mailbox ← new_uuid;
  created_at ← read_wall;
  heartbeat ← read_mono;
  modify (with_records (insert process_id
    {| rt_record := {| pr_process_id := process_id; pr_agent_id := ss_agent_id spec;
         pr_parent := ss_parent spec; pr_profile := ss_profile spec;
         pr_state := ProcessState.Created; pr_space := space; pr_mailbox := mailbox;
         pr_namespace := ss_namespace spec; pr_created_at := created_at;
         pr_last_heartbeat := heartbeat; pr_exit := None; pr_ownership := ss_ownership spec |};
       rt_active_operation := None |})) ;;
  mret process_id.

Definition signal (id : ProcessId) (sig : ProcessSignal.t) : T unit :=
  match sig with
  | ProcessSignal.Start => transition id ProcessState.Ready ;; transition id ProcessState.Running
  | ProcessSignal.Wait => transition id ProcessState.Waiting
  | ProcessSignal.Resume => transition id ProcessState.Running
  | ProcessSignal.Terminate =>
      snap ← inspect id;
      match sn_state snap with
      | ProcessState.Created =>
          transition id ProcessState.Ready ;; transition id ProcessState.Running ;;
          transition id ProcessState.Stopping ;;
          mark_exit id (ExitReason.Cancelled "terminated")
      | ProcessState.Ready =>
          transition id ProcessState.Running ;; transition id ProcessState.Stopping ;;
          mark_exit id (ExitReason.Cancelled "terminated")
      | ProcessState.Running | ProcessState.Waiting =>
          transition id ProcessState.Stopping ;; mark_exit id (ExitReason.Cancelled "terminated")
      | ProcessState.Stopping => mark_exit id (ExitReason.Cancelled "terminated")
      | ProcessState.Exited | ProcessState.Failed => mret tt
      end
  | ProcessSignal.Kill =>
      snap ← inspect id;
      if ProcessState.is_terminal (sn_state snap) then mret tt
      else mark_exit id (ExitReason.Panic "killed")
  end.

(** ** Calls

    [transition] is only called by [signal], never with a terminal state. *)

Inductive ProcessCall :=
| Spawn (spec : SpawnSpec)
| Signal (id : ProcessId) (sig : ProcessSignal.t)
| MarkExit (id : ProcessId) (reason : ExitReason.t)
| SetActiveOperation (id : ProcessId) (operation : option OperationId)
| Reap (id : ProcessId).

Definition process_call (call : ProcessCall) : T unit :=
  match call with
  | Spawn spec => spawn spec ;; mret tt
  | Signal id sig => signal id sig
  | MarkExit id reason => mark_exit id reason
  | SetActiveOperation id operation => set_active_operation id operation
  | Reap id => reap id ;; mret tt
  end.

Fixpoint process_run (calls : list ProcessCall) (t : ProcessTable) (n : N) : ProcessTable * N :=
  match calls with
  | [] => (t, n)
  | call :: rest => match process_call call t n with (_, t', n') => process_run rest t' n' end
  end.

(** ** The invariant *)

(** A record is terminal exactly when it carries an exit status, and the status
    decides between [Failed] and [Exited]. *)
Definition exit_ok (r : ProcessRecord) : Prop :=
  match pr_exit r with
  | Some e => pr_state r = terminal_state (es_reason e)
  | None => ProcessState.is_terminal (pr_state r) = false
  end.

Record table_wf (t : ProcessTable) (n : N) : Prop := {
  tw_id : ∀ id rt, records t !! id = Some rt → pr_process_id (rt_record rt) = id ∧ drawn n id;
  tw_exit : ∀ id rt, records t !! id = Some rt → exit_ok (rt_record rt);
}.

(** What never changes in a record, and how its state moves. *)
Record record_evolves (r r' : ProcessRecord) : Prop := {
  re_state : rtc process_step (pr_state r) (pr_state r');
  re_same : pr_process_id r' = pr_process_id r ∧ pr_parent r' = pr_parent r
            ∧ pr_space r' = pr_space r ∧ pr_mailbox r' = pr_mailbox r
            ∧ pr_ownership r' = pr_ownership r ∧ pr_created_at r' = pr_created_at r
            ∧ pr_agent_id r' = pr_agent_id r;
  re_exit : ∀ e, pr_exit r = Some e → pr_exit r' = Some e;
}.

(** A step of the table: records evolve, are reaped once terminal, or are new. *)
Record table_evolves (t : ProcessTable) (n : N) (t' : ProcessTable) (n' : N) : Prop := {
  te_time : n ≤ n';
  te_wf : table_wf t' n';
  te_records : ∀ id rt, records t !! id = Some rt →
    match records t' !! id with
    | Some rt' => record_evolves (rt_record rt) (rt_record rt')
    | None => ∃ r', record_evolves (rt_record rt) r' ∧ ProcessState.is_terminal (pr_state r') = true
    end;
  te_new : ∀ id, records t !! id = None → is_Some (records t' !! id) → ¬ drawn n id;
}.

(** A step all of whose outcomes evolve the table. *)
Definition evol {A} (m : T A) : Prop := ∀ t n, table_wf t n →
  wp m (λ _ t' n', table_evolves t n t' n') t n.

(** A record after a transition, and after an exit. *)
Definition moved (next : ProcessState.t) (now : MonoTime) (rt : ProcessRuntime) : ProcessRuntime :=
  {| rt_record := set_heartbeat now (set_proc_state next (rt_record rt));
     rt_active_operation := rt_active_operation rt |}.

Definition exited (reason : ExitReason.t) (at_ now : MonoTime) (rt : ProcessRuntime) : ProcessRuntime :=
  {| rt_record := set_heartbeat now (set_proc_state (terminal_state reason)
       (set_exit (Some {| es_reason := reason; es_at := at_ |}) (rt_record rt)));
     rt_active_operation := rt_active_operation rt |}.

(** ** Lemmas *)

Context {HOk : EnvOk}.

Lemma terminal_stays a b : rtc process_step a b → ProcessState.is_terminal a = true → b = a.
Proof. intros Hab Ha. destruct Hab as [|x y z Hxy _]; [done|]. by destruct (process_terminal_final x y). Qed.

Lemma record_evolves_refl r : record_evolves r r.
Proof. split; [apply rtc_refl|done|done]. Qed.

Lemma record_evolves_trans r1 r2 r3 :
  record_evolves r1 r2 → record_evolves r2 r3 → record_evolves r1 r3.
Proof.
  intros [Hs1 (?&?&?&?&?&?&?) Hx1] [Hs2 (?&?&?&?&?&?&?) Hx2]. split; [by etrans| |auto].
  split_and!; congruence.
Qed.

Lemma table_evolves_refl t n : table_wf t n → table_evolves t n t n.
Proof.
  intros Hw. split; [lia|done| |]; [|intros id -> []; done].
  intros id rt ->. apply record_evolves_refl.
Qed.

Lemma table_evolves_trans t n t1 n1 t2 n2 :
  table_wf t n → table_evolves t n t1 n1 → table_evolves t1 n1 t2 n2 → table_evolves t n t2 n2.
Proof.
  intros Hw [Hn1 Hw1 Hr1 Hf1] [Hn2 Hw2 Hr2 Hf2]. split; [lia|done| |].
  - intros id rt Hid. specialize (Hr1 id rt Hid). destruct (records t1 !! id) as [rt1|] eqn:Hid1.
    + specialize (Hr2 id rt1 Hid1). destruct (records t2 !! id) as [rt2|].
      * by eapply record_evolves_trans.
      * destruct Hr2 as (r' & ? & ?). exists r'. split; [by eapply record_evolves_trans|done].
    + destruct (records t2 !! id) as [rt2|] eqn:Hid2; [|done].
      destruct (Hf2 id Hid1); [by rewrite Hid2|]. destruct (tw_id _ _ Hw _ _ Hid).
      by eapply drawn_mono.
  - intros id Hid His Hd. destruct (records t1 !! id) as [rt1|] eqn:Hid1.
    + by eapply (Hf1 id); [done|rewrite Hid1; eauto|].
    + apply (Hf2 id Hid1 His). by eapply drawn_mono.
Qed.

Lemma evol_bind {A B} (m : T A) (k : A → T B) :
  evol m → (∀ a, evol (k a)) → evol (m ≫= k).
Proof.
  intros Hm Hk t n Hw. apply wp_bind. eapply wp_mono; [by apply Hm|].
  intros [a|e|] t1 n1 He; [|done|done]. eapply wp_mono; [apply Hk; by destruct He|].
  intros r t2 n2 He2. by eapply table_evolves_trans.
Qed.

Lemma evol_pure {A} (m : T A) : (∀ t n, ∃ r, m t n = (r, t, n)) → evol m.
Proof. intros Hm t n Hw. unfold wp. destruct (Hm t n) as [r ->]. by apply table_evolves_refl. Qed.

Lemma evolves_update t n t' n' id rt rt' :
  table_wf t n → records t !! id = Some rt → records t' = <[id := rt']> (records t) → n ≤ n' →
  record_evolves (rt_record rt) (rt_record rt') → exit_ok (rt_record rt') →
  table_evolves t n t' n'.
Proof.
  intros Hw Hid Heq Hn He Hx. split; [done|split|..]; rewrite Heq.
  - intros id' rt0 Hid'. split_lookup.
    + destruct He as [_ (Hp & _) _]. destruct (tw_id _ _ Hw _ _ Hid) as [Hi Hd].
      split; [congruence|by eapply drawn_mono].
    + destruct (tw_id _ _ Hw _ _ Hid'). split; [done|by eapply drawn_mono].
  - intros id' rt0 Hid'. split_lookup; [done|by eapply tw_exit].
  - intros id' rt0 Hid'. destruct (decide (id' = id)) as [->|Hne].
    + rewrite lookup_insert_eq. assert (rt0 = rt) as -> by congruence. done.
    + rewrite lookup_insert_ne by done. rewrite Hid'. apply record_evolves_refl.
  - intros id' Hnone His. rewrite lookup_insert_ne in His by congruence.
    rewrite Hnone in His. by destruct His.
Qed.

Lemma exit_none t n id rt :
  table_wf t n → records t !! id = Some rt →
  ProcessState.is_terminal (pr_state (rt_record rt)) = false → pr_exit (rt_record rt) = None.
Proof.
  intros Hw Hid Ht. pose proof (tw_exit _ _ Hw _ _ Hid) as Hx. unfold exit_ok in Hx.
  destruct (pr_exit (rt_record rt)) as [e|]; [|done]. rewrite Hx in Ht.
  by destruct (es_reason e).
Qed.

(** [transition], every branch. *)
Lemma transition_cases t n id next :
  match records t !! id with
  | None => transition id next t n = (Err (UnknownProcess id), t, n)
  | Some rt =>
      if ProcessState.can_transition_to (pr_state (rt_record rt)) next
      then transition id next t n =
        (Ok tt, with_records (insert id (moved next (mono_now n) rt)) t, n + 1)
      else transition id next t n =
        (Err (IllegalProcessTransition (pr_state (rt_record rt)) next), t, n)
  end.
Proof.
  unfold transition, runtime_of, mbind, M_bind, get_state, ok_or.
  destruct (records t !! id) as [rt|] eqn:Hid; [|done]. cbn.
  destruct (ProcessState.can_transition_to (pr_state (rt_record rt)) next); [|done].
  unfold update_record, modify, read_mono, tick, mbind, M_bind. cbn. do 2 f_equal.
  unfold with_records. cbn. f_equal. rewrite (alter_as_insert _ _ _ _ Hid).
  rewrite (alter_as_insert _ _ id _ (lookup_insert_eq _ _ _)). by rewrite insert_insert_eq.
Qed.

Lemma evol_transition id next :
  ProcessState.is_terminal next = false → evol (transition id next).
Proof.
  intros Hnext t n Hw. unfold wp. pose proof (transition_cases t n id next) as Hc.
  destruct (records t !! id) as [rt|] eqn:Hid; [|rewrite Hc; by apply table_evolves_refl].
  destruct (ProcessState.can_transition_to _ _) eqn:Hcan; rewrite Hc; [|by apply table_evolves_refl].
  assert (Hnt : ProcessState.is_terminal (pr_state (rt_record rt)) = false)
    by (destruct (pr_state (rt_record rt)); try done; by destruct next).
  pose proof (exit_none _ _ _ _ Hw Hid Hnt) as Hnone.
  eapply (evolves_update t n _ _ id rt); [done|done|done|lia|..].
  - split; cbn; [by apply rtc_once|done|congruence].
  - unfold exit_ok. cbn. by rewrite Hnone.
Qed.

(** [mark_exit], every branch. *)
Lemma mark_exit_cases t n id reason :
  match records t !! id with
  | None => mark_exit id reason t n = (Err (UnknownProcess id), t, n)
  | Some rt =>
      if ProcessState.is_terminal (pr_state (rt_record rt))
      then mark_exit id reason t n = (Err (AlreadyTerminal id), t, n)
      else mark_exit id reason t n =
        (Ok tt, with_records (insert id (exited reason (mono_now n) (mono_now (n + 1)) rt)) t, n + 1 + 1)
  end.
Proof.
  unfold mark_exit, runtime_of, mbind, M_bind, get_state, ok_or.
  destruct (records t !! id) as [rt|] eqn:Hid; [|done]. cbn -[update_record].
  destruct (ProcessState.is_terminal (pr_state (rt_record rt))) eqn:Ht; [done|]. cbn -[update_record].
  assert (Hup : ∀ t0 f g, records t0 !! id = Some g → update_record id f t0 = λ m,
    (Ok tt, with_records (insert id {| rt_record := f (rt_record g);
                                       rt_active_operation := rt_active_operation g |}) t0, m)).
  { intros t0 f g Hg. unfold update_record, modify, with_records.
    by rewrite (alter_as_insert _ _ _ _ Hg). }
  case_decide as Hstop.
  - assert (Hcan : ProcessState.can_transition_to (pr_state (rt_record rt)) ProcessState.Stopping = true)
      by (destruct (pr_state (rt_record rt)); try done; by destruct Hstop).
    destruct Hstop as [Hterm _]. rewrite Hcan, Hterm. cbn -[update_record]. rewrite (Hup _ _ _ Hid). cbn -[update_record].
    unfold read_mono, tick, mbind, M_bind. cbn -[update_record].
    erewrite (Hup _ _ _ (lookup_insert_eq _ _ _)). cbn -[update_record].
    erewrite (Hup _ _ _ (lookup_insert_eq _ _ _)). cbn -[update_record].
    erewrite (Hup _ _ _ (lookup_insert_eq _ _ _)). cbn -[update_record]. unfold with_records, exited. cbn.
    rewrite !insert_insert_eq, Hterm. done.
  - assert (Hcan : ProcessState.can_transition_to (pr_state (rt_record rt)) (terminal_state reason) = true).
    { destruct (terminal_state reason) eqn:Hterm; try (by destruct reason);
        destruct (pr_state (rt_record rt)); try done; exfalso; apply Hstop; done. }
    cbn -[update_record]. rewrite Hcan. cbn -[update_record]. unfold read_mono, tick, mbind, M_bind. cbn -[update_record].
    rewrite (Hup _ _ _ Hid). cbn -[update_record].
    erewrite (Hup _ _ _ (lookup_insert_eq _ _ _)). cbn -[update_record].
    erewrite (Hup _ _ _ (lookup_insert_eq _ _ _)). cbn -[update_record]. unfold with_records, exited. cbn.
    by rewrite !insert_insert_eq.
Qed.

Lemma evol_mark_exit id reason : evol (mark_exit id reason).
Proof.
  intros t n Hw. unfold wp. pose proof (mark_exit_cases t n id reason) as Hc.
  destruct (records t !! id) as [rt|] eqn:Hid; [|rewrite Hc; by apply table_evolves_refl].
  destruct (ProcessState.is_terminal _) eqn:Hnt; rewrite Hc; [by apply table_evolves_refl|].
  pose proof (exit_none _ _ _ _ Hw Hid Hnt) as Hnone.
  eapply (evolves_update t n _ _ id rt); [done|done|done|lia| |done].
  split; cbn; [|done|congruence].
  destruct (process_can_stop _ Hnt) as [Hs|Hs], (terminal_state reason) eqn:Hterm;
    try (by destruct reason); try (apply rtc_once; by apply process_can_fail).
  - rewrite Hs. by apply rtc_once.
  - eapply rtc_l; [exact Hs|]. by apply rtc_once.
Qed.

Lemma evol_runtime_of id : evol (runtime_of id).
Proof.
  apply evol_pure. intros t n. unfold runtime_of, mbind, M_bind, get_state, ok_or.
  destruct (records t !! id); eauto.
Qed.

Lemma evol_set_active id operation : evol (set_active_operation id operation).
Proof.
  intros t n Hw. unfold wp, set_active_operation, runtime_of, mbind, M_bind, get_state, ok_or.
  destruct (records t !! id) as [rt|] eqn:Hid; [|by apply table_evolves_refl]. cbn.
  eapply (evolves_update t n _ _ id rt); [done|done|done|lia|apply record_evolves_refl|].
  cbn. by eapply tw_exit.
Qed.

Lemma reap_cases t n id :
  match records t !! id with
  | None => reap id t n = (Err (UnknownProcess id), t, n)
  | Some rt =>
      if ProcessState.is_terminal (pr_state (rt_record rt))
      then reap id t n = (Ok (rt_record rt), with_records (delete id) t, n)
      else reap id t n = (Err (NotTerminal id), t, n)
  end.
Proof.
  unfold reap, runtime_of, mbind, M_bind, get_state, ok_or.
  destruct (records t !! id) as [rt|] eqn:Hid; [|done]. cbn.
  by destruct (ProcessState.is_terminal _).
Qed.

Lemma evol_reap id : evol (reap id).
Proof.
  intros t n Hw. unfold wp. pose proof (reap_cases t n id) as Hc.
  destruct (records t !! id) as [rt|] eqn:Hid; [|rewrite Hc; by apply table_evolves_refl].
  destruct (ProcessState.is_terminal _) eqn:Ht; rewrite Hc; [|by apply table_evolves_refl].
  split; [lia|split|..]; cbn.
  - intros id' rt' Hid'. split_lookup. by apply (tw_id _ _ Hw).
  - intros id' rt' Hid'. split_lookup. by eapply tw_exit.
  - intros id' rt' Hid'. rewrite lookup_delete. case_decide as Heq.
    + subst. assert (rt' = rt) as -> by congruence. exists (rt_record rt).
      split; [apply record_evolves_refl|done].
    + rewrite Hid'. apply record_evolves_refl.
  - intros id' Hnone His. rewrite lookup_delete in His. case_decide; [by destruct His|].
    rewrite Hnone in His. by destruct His.
Qed.

Lemma evolves_insert t n t' n' id rt :
  table_wf t n → n ≤ n' → records t' = <[id := rt]> (records t) → ¬ drawn n id → drawn n' id →
  pr_process_id (rt_record rt) = id → exit_ok (rt_record rt) → table_evolves t n t' n'.
Proof.
  intros Hw Hn Heq Hf Hd Hp Hx.
  assert (Hfresh : records t !! id = None).
  { destruct (records t !! id) eqn:Hid; [|done]. destruct Hf. by apply (tw_id _ _ Hw _ _ Hid). }
  split; [done|split|..]; rewrite Heq.
  - intros id' rt' Hid'. split_lookup; [done|]. destruct (tw_id _ _ Hw _ _ Hid').
    split; [done|by eapply drawn_mono].
  - intros id' rt' Hid'. split_lookup; [done|by eapply tw_exit].
  - intros id' rt' Hid'. rewrite lookup_insert_ne by congruence. rewrite Hid'. apply record_evolves_refl.
  - intros id' Hnone His. destruct (decide (id' = id)) as [->|Hne]; [done|].
    rewrite lookup_insert_ne in His by done. rewrite Hnone in His. by destruct His.
Qed.

(** The tail of [spawn], with the space already chosen. *)
Lemma spawn_space_spec parent_space process_id t n :
  wp (match parent_space with
      | Some parent_space => zoom spaces set_spaces (fork_space parent_space process_id)
      | None => new_uuid
      end : T SpaceId) (λ r t' n', (∃ space, r = Ok space) ∧ records t' = records t ∧ n ≤ n') t n.
Proof.
  destruct parent_space as [p|]; [|wp_steps; split_and!; [eauto|done|lia]].
  apply wp_zoom. unfold wp.
  destruct (fork_space_spec (E := ProcessError) (spaces t) n p process_id)
    as (child & psc & snap & spaces' & n' & -> & _ & Hn & _). split_and!; [eauto|done|lia].
Qed.

Lemma evol_spawn spec : evol (spawn spec).
Proof.
  intros t n Hw. unfold spawn. apply wp_bind, wp_new_uuid. cbv beta iota.
  assert (Hstay : table_evolves t n t (n + 1)).
  { destruct Hw as [Hi He]. split; [lia|split; [|done]|..].
    - intros id rt Hid. destruct (Hi _ _ Hid). split; [done|]. eapply drawn_mono; [|done]. lia.
    - intros id rt ->. apply record_evolves_refl.
    - intros id -> []. done. }
  apply wp_bind.
  apply (wp_mono _ (λ (r : Result ProcessError (option SpaceId)) t' n', t' = t ∧ n' = n + 1)).
  { destruct (ss_parent spec) as [p|]; [|by apply wp_ret]. wp_steps; done. }
  intros [ps|e|] t1 n1 [-> ->]; [|done|done]. apply wp_bind.
  eapply wp_mono; [apply spawn_space_spec|]. intros r t1 n1 ([space ->] & Hr & Hn1).
  wp_steps. eapply evolves_insert; [done|..].
  - lia.
  - cbn. by rewrite Hr.
  - apply drawn_fresh.
  - apply drawn_here. lia.
  - done.
  - done.
Qed.

Lemma evol_inspect id : evol (inspect id).
Proof. apply evol_bind; [apply evol_runtime_of|]. intros rt. apply evol_pure. eauto. Qed.

Lemma evol_signal id sig : evol (signal id sig).
Proof.
  destruct sig; cbn.
  - apply evol_bind; [|intros _]; by apply evol_transition.
  - by apply evol_transition.
  - by apply evol_transition.
  - apply evol_bind; [apply evol_inspect|]. intros snap.
    destruct (sn_state snap); repeat (apply evol_bind; [by apply evol_transition|intros _]);
      first [apply evol_mark_exit|apply evol_pure; by eauto].
  - apply evol_bind; [apply evol_inspect|]. intros snap.
    destruct (ProcessState.is_terminal _); [apply evol_pure; by eauto|apply evol_mark_exit].
Qed.

Lemma evol_call call : evol (process_call call).
Proof.
  destruct call; cbn; try (apply evol_bind; [|intros ?; apply evol_pure; by eauto]);
    auto using evol_spawn, evol_signal, evol_mark_exit, evol_set_active, evol_reap.
Qed.

Lemma process_run_evolves calls : ∀ t n, table_wf t n →
  table_evolves t n (process_run calls t n).1 (process_run calls t n).2.
Proof.
  induction calls as [|call calls IH]; intros t n Hw; [by apply table_evolves_refl|]. cbn.
  pose proof (evol_call call t n Hw) as He. unfold wp in He.
  destruct (process_call call t n) as [[r t1] n1].
  eapply table_evolves_trans; [done|done|]. apply IH. by destruct He.
Qed.

Lemma table_wf_new n : table_wf ProcessTable_new n.
Proof. split; cbn [records ProcessTable_new]; intros *; by rewrite lookup_empty. Qed.

(** The lifecycle: over every run of table calls, a process keeps its
    identity, space, mailbox and owner, its state moves only along transitions
    [can_transition_to] allows, a recorded exit status is never replaced, a
    terminal state is final, and the record disappears only once terminal; an id
    is never reused. *)
Theorem process_lifecycle calls t n id rt :
  table_wf t n → records t !! id = Some rt →
  match records (process_run calls t n).1 !! id with
  | Some rt' => record_evolves (rt_record rt) (rt_record rt')
      ∧ (ProcessState.is_terminal (pr_state (rt_record rt)) = true →
         pr_state (rt_record rt') = pr_state (rt_record rt))
      ∧ exit_ok (rt_record rt')
  | None => ∃ r', record_evolves (rt_record rt) r' ∧ ProcessState.is_terminal (pr_state r') = true
  end.
Proof.
  intros Hw Hid. pose proof (process_run_evolves calls t n Hw) as [_ Hw' Hr _].
  specialize (Hr id rt Hid). destruct (records (process_run calls t n).1 !! id) as [rt'|] eqn:Hid'; [|done].
  split_and!; [done| |by eapply tw_exit]. intros Ht. destruct Hr as [Hs _ _].
  by apply terminal_stays.
Qed.

Lemma can_step_lookup t n id rt next :
  records t !! id = Some rt →
  ProcessState.can_transition_to (pr_state (rt_record rt)) next = true →
  transition id next t n = (Ok tt, with_records (insert id (moved next (mono_now n) rt)) t, n + 1).
Proof. intros Hid Hc. pose proof (transition_cases t n id next) as H. by rewrite Hid, Hc in H. Qed.

Lemma can_exit_lookup t n id rt reason :
  records t !! id = Some rt → ProcessState.is_terminal (pr_state (rt_record rt)) = false →
  mark_exit id reason t n =
    (Ok tt, with_records (insert id (exited reason (mono_now n) (mono_now (n + 1)) rt)) t, n + 1 + 1).
Proof. intros Hid Hc. pose proof (mark_exit_cases t n id reason) as H. by rewrite Hid, Hc in H. Qed.

(** [Terminate] and [Kill] always end a known process: from every state they
    succeed, leave the record terminal with an exit status, so that waiting on it
    returns, and touch no other record. *)
Theorem terminate_and_kill_end t n id rt sig :
  table_wf t n → records t !! id = Some rt →
  sig = ProcessSignal.Terminate ∨ sig = ProcessSignal.Kill →
  ∃ t' n' rt' e, signal id sig t n = (Ok tt, t', n')
    ∧ records t' !! id = Some rt' ∧ ProcessState.is_terminal (pr_state (rt_record rt')) = true
    ∧ wait_poll id t' n' = (Ok (Some e), t', n')
    ∧ ∀ id', id' ≠ id → records t' !! id' = records t !! id'.
Proof.
  intros Hw Hid Hsig.
  assert (Hinspect : ∀ m, inspect id t m = (Ok (snapshot rt), t, m)).
  { intros m. unfold inspect, runtime_of, mbind, M_bind, get_state, ok_or. by rewrite Hid. }
  assert (Hdone : ProcessState.is_terminal (pr_state (rt_record rt)) = true →
    ∃ e, wait_poll id t n = (Ok (Some e), t, n)).
  { intros Ht. pose proof (tw_exit _ _ Hw _ _ Hid) as Hx. unfold exit_ok in Hx.
    destruct (pr_exit (rt_record rt)) as [e|] eqn:He; [|congruence]. exists e.
    unfold wait_poll, runtime_of, mbind, M_bind, get_state, ok_or. rewrite Hid. cbn. by rewrite He. }
  assert (Hend : ∀ t1 n1 rt1 reason, records t1 !! id = Some rt1 →
    ProcessState.is_terminal (pr_state (rt_record rt1)) = false →
    (∀ id', id' ≠ id → records t1 !! id' = records t !! id') →
    ∃ t' n' rt' e, mark_exit id reason t1 n1 = (Ok tt, t', n')
      ∧ records t' !! id = Some rt' ∧ ProcessState.is_terminal (pr_state (rt_record rt')) = true
      ∧ wait_poll id t' n' = (Ok (Some e), t', n')
      ∧ ∀ id', id' ≠ id → records t' !! id' = records t !! id').
  { intros t1 n1 rt1 reason Hid1 Ht1 Ho. eexists _, _, _, _.
    split; [by eapply can_exit_lookup|]. split; [apply lookup_insert_eq|].
    split; [by destruct reason|]. split.
    - unfold wait_poll, runtime_of, mbind, M_bind, get_state, ok_or. cbn. by rewrite lookup_insert_eq.
    - intros id' Hne. cbn. rewrite lookup_insert_ne by done. by apply Ho. }
  destruct Hsig as [->| ->]; unfold signal, mbind, M_bind; rewrite Hinspect; cbn [snapshot sn_state].
  - destruct (pr_state (rt_record rt)) eqn:Hst;
      try (destruct (Hdone eq_refl) as [e He]; exists t, n, rt, e; by rewrite Hst).
    all: repeat (erewrite can_step_lookup; [|first [exact Hid|apply lookup_insert_eq]|
           first [by rewrite Hst|reflexivity]]; cbn -[mark_exit transition]);
      eapply Hend; [first [exact Hid|apply lookup_insert_eq]|first [by rewrite Hst|reflexivity]|];
      intros id' Hne; cbn; rewrite ?lookup_insert_ne by done; done.
  - destruct (ProcessState.is_terminal (pr_state (rt_record rt))) eqn:Ht.
    + destruct (Hdone eq_refl) as [e He]. exists t, n, rt, e. by split_and!.
    + by eapply Hend.
Qed.

End Table.

(** ** Witnesses *)

Definition sample_spec : SpawnSpec :=
  {| ss_agent_id := 90; ss_parent := None; ss_profile := "default"; ss_namespace := "default";
     ss_initial_operation := None; ss_deadline := None; ss_ownership := ProcessOwnership.Unowned |}.

Definition sample_procs : ProcessTable (Json := unit) * N :=
  process_run (HEnv := sample_env) [Spawn sample_spec; Signal 1 ProcessSignal.Start]
    ProcessTable_new 0.

Lemma sample_procs_wf : table_wf (HEnv := sample_env) sample_procs.1 sample_procs.2.
Proof.
  apply (te_wf _ _ _ _ (process_run_evolves (HOk := sample_env_ok)
    [Spawn sample_spec; Signal 1 ProcessSignal.Start] ProcessTable_new 0 (table_wf_new 0))).
Qed.

Definition sample_runtime : ProcessRuntime :=
  {| rt_record := {| pr_process_id := 1; pr_agent_id := 90; pr_parent := None; pr_profile := "default";
       pr_state := ProcessState.Running; pr_space := 2; pr_mailbox := 3; pr_namespace := "default";
       pr_created_at := 0%Z; pr_last_heartbeat := 1000; pr_exit := None;
       pr_ownership := ProcessOwnership.Unowned |};
     rt_active_operation := None |}.

Lemma process_lifecycle_witness :
  let calls := [Signal 1 ProcessSignal.Wait; MarkExit 1 (ExitReason.Failed "x"); Signal 1 ProcessSignal.Kill] in
  match records (process_run (HEnv := sample_env) calls sample_procs.1 sample_procs.2).1 !! 1 with
  | Some rt' => record_evolves (rt_record sample_runtime) (rt_record rt')
      ∧ (ProcessState.is_terminal ProcessState.Running = true →
         pr_state (rt_record rt') = ProcessState.Running)
      ∧ exit_ok (rt_record rt')
  | None => ∃ r', record_evolves (rt_record sample_runtime) r'
                  ∧ ProcessState.is_terminal (pr_state r') = true
  end.
Proof.
  apply (process_lifecycle (HOk := sample_env_ok)
    [Signal 1 ProcessSignal.Wait; MarkExit 1 (ExitReason.Failed "x"); Signal 1 ProcessSignal.Kill]
    sample_procs.1 sample_procs.2 1 sample_runtime).
  - apply sample_procs_wf.
  - vm_compute. reflexivity.
Defined.

Lemma terminate_and_kill_end_witness :
  ∃ t' n' rt' e, signal (HEnv := sample_env) 1 ProcessSignal.Terminate sample_procs.1 sample_procs.2
                 = (Ok tt, t', n')
    ∧ records t' !! 1 = Some rt' ∧ ProcessState.is_terminal (pr_state (rt_record rt')) = true
    ∧ wait_poll 1 t' n' = (Ok (Some e), t', n').
Proof.
  destruct (terminate_and_kill_end (HEnv := sample_env) sample_procs.1 sample_procs.2 1 sample_runtime
    ProcessSignal.Terminate) as (t' & n' & rt' & e & Hrun & Hid & Ht & Hwait & _).
  - apply sample_procs_wf.
  - vm_compute. reflexivity.
  - left. reflexivity.
  - exists t', n', rt', e. split; [exact Hrun|]. split; [exact Hid|]. split; [exact Ht|exact Hwait].
Defined.
