(* ===== verification/Operation.v ===== *)
(** * The operation table (crates/kernel/src/operation/table.rs)

    The tree of operations with parent-to-child cancellation.  Records are never
    removed.  Wake-ups of waiters ([Notify]) are not modelled: [wait_poll] is what
    one poll of [wait_for_terminal] sees. *)
From S2P Require Import Prelude FabricTypes.

Inductive OperationError :=
| UnknownOperation (id : OperationId)
| AlreadyRegistered (id : OperationId)
| UnknownParentOperation (parent : OperationId)
| ParentOwnerMismatch
| ParentOperationTerminal
| IllegalOperationTransition (from next : OperationState.t).

Record OperationTable := {
  op_records : gmap OperationId OperationRecord;
  op_children : gmap OperationId (list OperationId);
}.

Definition OperationTable_new : OperationTable := {| op_records := ∅; op_children := ∅ |}.

Definition with_op_records f (t : OperationTable) : OperationTable :=
  {| op_records := f (op_records t); op_children := op_children t |}.

Definition with_op_children f (t : OperationTable) : OperationTable :=
  {| op_records := op_records t; op_children := f (op_children t) |}.

Definition children_of (t : OperationTable) (id : OperationId) : list OperationId :=
  default [] (op_children t !! id).

Definition set_op (state : OperationState.t) (exit : option OperationExitReason.t)
    (r : OperationRecord) : OperationRecord :=
  {| op_id := op_id r; op_owner := op_owner r; op_parent := op_parent r; op_kind := op_kind r;
     op_state := state; op_submitted_at := op_submitted_at r; op_deadline := op_deadline r;
     op_exit := exit |}.

Definition new_record (id : OperationId) (req : OperationRequest) (now : MonoTime) : OperationRecord :=
  {| op_id := id; op_owner := oq_owner req; op_parent := oq_parent req; op_kind := oq_kind req;
     op_state := OperationState.Submitted; op_submitted_at := now; op_deadline := oq_deadline req;
     op_exit := None |}.

Section Ops.
Context `{HEnv : Env}.
Abbreviation O := (M OperationTable OperationError).

(** [submit_with_id] takes the records lock to register, and then the children
    lock to link: two critical sections. *)
Definition submit_register (id : OperationId) (req : OperationRequest) : O unit :=
  now ← read_mono;
  t ← get_state;
  ensure (negb (bool_decide (is_Some (op_records t !! id)))) (AlreadyRegistered id) ;;
  match oq_parent req with
  | Some parent =>
      parent_record ← ok_or (op_records t !! parent) (UnknownParentOperation parent);
      ensure (op_owner parent_record =? oq_owner req) ParentOwnerMismatch ;;
      ensure (negb (OperationState.is_terminal (op_state parent_record))) ParentOperationTerminal
  | None => mret tt
  end ;;
  modify (with_op_records (insert id (new_record id req now))).

Definition submit_link (id : OperationId) (req : OperationRequest) : O unit :=
  match oq_parent req with
  | Some parent =>
      modify (λ t, with_op_children (insert parent (children_of t parent ++ [id])) t)
  | None => mret tt
  end.

Definition submit_with_id (id : OperationId) (req : OperationRequest) : O OperationId :=
  submit_register id req ;; submit_link id req ;; mret id.

Definition submit (req : OperationRequest) : O OperationId :=
  id ← new_uuid; submit_with_id id req.

Definition inspect (id : OperationId) : O OperationRecord :=
  t ← get_state; ok_or (op_records t !! id) (UnknownOperation id).

Definition set_running_state (id : OperationId) (state : OperationState.t)
    (exit : option OperationExitReason.t) : O unit :=
  r ← inspect id;
  ensure (OperationState.can_transition_to (op_state r) state)
    (IllegalOperationTransition (op_state r) state) ;;
  modify (with_op_records (insert id (set_op state exit r))).

Definition start (id : OperationId) : O unit := set_running_state id OperationState.Running None.

Definition succeed (id : OperationId) : O unit :=
  set_running_state id OperationState.Succeeded (Some OperationExitReason.Completed).

Definition fail_ (id : OperationId) (message : string) : O unit :=
  set_running_state id OperationState.Failed (Some (OperationExitReason.Failed message)).

Definition panic_ (id : OperationId) (message : string) : O unit :=
  set_running_state id OperationState.Failed (Some (OperationExitReason.Panic message)).

Definition cancel_one (id : OperationId) (reason : CancelReason.t) : O unit :=
  r ← inspect id;
  if OperationState.is_terminal (op_state r) then mret tt
  else
    (if decide (op_state r = OperationState.Cancelling) then mret tt
     else
       ensure (OperationState.can_transition_to (op_state r) OperationState.Cancelling)
         (IllegalOperationTransition (op_state r) OperationState.Cancelling) ;;
       modify (with_op_records (insert id (set_op OperationState.Cancelling (op_exit r) r)))) ;;
    r ← inspect id;
    ensure (OperationState.can_transition_to (op_state r) OperationState.Cancelled)
      (IllegalOperationTransition (op_state r) OperationState.Cancelled) ;;
    modify (with_op_records (insert id
      (set_op OperationState.Cancelled (Some (OperationExitReason.Cancelled reason)) r))).

End Ops.

(** [collect_descendants]: the loop over a stack whose top is its last element
    (here: the head of the list).  [None] stands for a loop that did not end. *)
Fixpoint collect_loop (fuel : nat) (t : OperationTable) (stack ordered : list OperationId)
    : option (list OperationId) :=
  match fuel with
  | O => None
  | S fuel =>
      match stack with
      | [] => Some ordered
      | id :: rest => collect_loop fuel t (reverse (children_of t id) ++ rest) (ordered ++ [id])
      end
  end.

(** Each turn of the loop records one more operation, so the table's size bounds it. *)
Definition collect_descendants (t : OperationTable) (root : OperationId)
    : option (list OperationId) :=
  collect_loop (S (size (op_records t))) t (reverse (children_of t root)) [].

Definition ids_for_owner `{Env} (i : N) (t : OperationTable) (owner : ProcessId) : list OperationId :=
  omap (λ r, if op_owner r =? owner then Some (op_id r) else None) (hash_values i (op_records t)).

(** One step: the source takes its lock for the descendants and again for each of
    them, so an operation started in between is not cancelled.  A loop that does not
    end is a panic of the model; C23 shows there is none. *)
Definition cancel (id : OperationId) (reason : CancelReason.t)
    : M OperationTable OperationError unit :=
  t ← get_state;
  all ← expect (collect_descendants t id);
  for_each (all ++ [id]) (λ op, cancel_one op reason).

Definition wait_poll (t : OperationTable) (id : OperationId) : option (option OperationResult) :=
  r ← op_records t !! id;
  Some (if OperationState.is_terminal (op_state r)
        then Some {| or_id := id; or_state := op_state r; or_exit := op_exit r |} else None).

(** ** Calls *)

Inductive OperationCall :=
| Submit (req : OperationRequest)
| SubmitWithId (id : OperationId) (req : OperationRequest)
| Start (id : OperationId)
| Succeed (id : OperationId)
| FailOp (id : OperationId) (message : string)
| PanicOp (id : OperationId) (message : string)
| Cancel (id : OperationId) (reason : CancelReason.t).

Definition operation_call `{Env} (call : OperationCall) : M OperationTable OperationError unit :=
  match call with
  | Submit req => submit req ;; mret tt
  | SubmitWithId id req => submit_with_id id req ;; mret tt
  | Start id => start id
  | Succeed id => succeed id
  | FailOp id message => fail_ id message
  | PanicOp id message => panic_ id message
  | Cancel id reason => cancel id reason
  end.

Fixpoint operation_run `{Env} (calls : list OperationCall) (t : OperationTable) (n : N)
    : OperationTable * N :=
  match calls with
  | [] => (t, n)
  | call :: rest => match operation_call call t n with (_, t', n') => operation_run rest t' n' end
  end.

(** ** The invariant *)

(** [rank] orders every operation after its parent. *)
Definition parents_before (t : OperationTable) (rank : OperationId → nat) : Prop :=
  ∀ c r p, op_records t !! c = Some r → op_parent r = Some p →
    is_Some (op_records t !! p) ∧ (rank p < rank c)%nat.

Record ops_wf (t : OperationTable) : Prop := {
  ow_id : ∀ id r, op_records t !! id = Some r → op_id r = id;
  ow_exit : ∀ id r, op_records t !! id = Some r →
    is_Some (op_exit r) ↔ OperationState.is_terminal (op_state r) = true;
  ow_children : ∀ p c, c ∈ children_of t p ↔
    ∃ r, op_records t !! c = Some r ∧ op_parent r = Some p;
  ow_nodup : ∀ p, NoDup (children_of t p);
  ow_rank : ∃ rank, parents_before t rank;
}.

(** [d] is strictly below [root]. *)
Inductive descendant (t : OperationTable) (root : OperationId) : OperationId → Prop :=
| desc_child c r : op_records t !! c = Some r → op_parent r = Some root → descendant t root c
| desc_step c r p : op_records t !! c = Some r → op_parent r = Some p → descendant t root p →
    descendant t root c.

(** What cancelling does to one record. *)
Definition cancelled (reason : CancelReason.t) (r : OperationRecord) : OperationRecord :=
  if OperationState.is_terminal (op_state r) then r
  else set_op OperationState.Cancelled (Some (OperationExitReason.Cancelled reason)) r.

(** How a record may change: identity and place are fixed, the state follows the
    automaton, a final state and its exit reason stay. *)
Record op_evolves (r r' : OperationRecord) : Prop := {
  oe_state : rtc operation_step (op_state r) (op_state r');
  oe_same : op_id r' = op_id r ∧ op_owner r' = op_owner r ∧ op_parent r' = op_parent r
            ∧ op_kind r' = op_kind r ∧ op_submitted_at r' = op_submitted_at r;
  oe_final : OperationState.is_terminal (op_state r) = true → r' = r;
}.

Definition ops_evolve (t t' : OperationTable) : Prop :=
  ops_wf t' ∧ ∀ id r, op_records t !! id = Some r →
    ∃ r', op_records t' !! id = Some r' ∧ op_evolves r r'.

(** The table after a granted submission. *)
Definition submitted (t : OperationTable) (id : OperationId) (req : OperationRequest)
    (now : MonoTime) : OperationTable :=
  {| op_records := <[id := new_record id req now]> (op_records t);
     op_children := match oq_parent req with
                    | Some p => <[p := children_of t p ++ [id]]> (op_children t)
                    | None => op_children t
                    end |}.

(** ** Collecting the descendants *)

Section Collect.
Context (t : OperationTable) (Hw : ops_wf t) (root : OperationId).

(** The state of the loop: what is recorded and what is stacked are distinct
    operations below the root, each with its parent recorded; the children of
    what is recorded are accounted for. *)
Record collecting (stack ordered : list OperationId) : Prop := {
  co_nodup : NoDup (ordered ++ stack);
  co_parent : ∀ c, c ∈ ordered ++ stack → ∃ r p, op_records t !! c = Some r
    ∧ op_parent r = Some p ∧ p ∈ root :: ordered;
  co_below : ∀ c, c ∈ ordered ++ stack → descendant t root c;
  co_closed : ∀ a c, a ∈ root :: ordered → c ∈ children_of t a → c ∈ ordered ++ stack;
}.

Lemma descendant_rank rank c :
  parents_before t rank → descendant t root c → (rank root < rank c)%nat.
Proof.
  intros Hr. induction 1 as [c r Hc Hp|c r p Hc Hp Hd IH].
  - by destruct (Hr _ _ _ Hc Hp).
  - destruct (Hr _ _ _ Hc Hp). lia.
Qed.

Lemma descendant_ne c : descendant t root c → c ≠ root.
Proof.
  intros Hd ->. destruct (ow_rank _ Hw) as [rank Hr]. pose proof (descendant_rank rank _ Hr Hd). lia.
Qed.

Lemma collecting_start : collecting (reverse (children_of t root)) [].
Proof.
  split; cbn.
  - rewrite reverse_Permutation. apply (ow_nodup _ Hw).
  - intros c Hc. rewrite elem_of_reverse in Hc. apply (ow_children _ Hw) in Hc as (r & Hc & Hp).
    exists r, root. split_and!; [done|done|set_solver].
  - intros c Hc. rewrite elem_of_reverse in Hc. apply (ow_children _ Hw) in Hc as (r & Hc & Hp).
    by eapply desc_child.
  - intros a c Ha%list_elem_of_singleton Hc. subst. by rewrite elem_of_reverse.
Qed.

Lemma collecting_pop id rest ordered :
  collecting (id :: rest) ordered →
  collecting (reverse (children_of t id) ++ rest) (ordered ++ [id]).
Proof.
  intros [Hnd Hpar Hbel Hcl].
  assert (Hid : id ∉ root :: ordered).
  { intros [->|Hin]%elem_of_cons.
    - by apply (descendant_ne root); [apply Hbel; set_solver|].
    - apply NoDup_app in Hnd as (_ & Hdis & _). apply (Hdis id Hin). by left. }
  assert (Hnew : ∀ c, c ∈ children_of t id → c ∉ ordered ++ id :: rest).
  { intros c Hc Hin. apply (ow_children _ Hw) in Hc as (r & Hr & Hp).
    destruct (Hpar c Hin) as (r' & p & Hr' & Hp' & Hpin). simplify_eq. done. }
  assert (Hperm : (ordered ++ [id]) ++ reverse (children_of t id) ++ rest
                  ≡ₚ children_of t id ++ ordered ++ id :: rest).
  { rewrite reverse_Permutation. rewrite <- (app_assoc ordered). cbn. solve_Permutation. }
  split.
  - rewrite Hperm. apply NoDup_app. split_and!; [apply (ow_nodup _ Hw)|set_solver|done].
  - intros c. rewrite Hperm. intros [Hc|Hc]%elem_of_app.
    + apply (ow_children _ Hw) in Hc as (r & Hr & Hp). exists r, id. split_and!; [done|done|set_solver].
    + destruct (Hpar c Hc) as (r & p & ? & ? & ?). exists r, p. split_and!; [done|done|set_solver].
  - intros c. rewrite Hperm. intros [Hc|Hc]%elem_of_app; [|by apply Hbel].
    apply (ow_children _ Hw) in Hc as (r & Hr & Hp).
    eapply desc_step; [done|done|]. apply Hbel. set_solver.
  - intros a c Ha Hc. rewrite Hperm. apply elem_of_app.
    destruct (decide (a = id)) as [->|Hne]; [by left|right]. eapply (Hcl a); [set_solver|done].
Qed.

Lemma collecting_length stack ordered :
  collecting stack ordered → (length ordered + length stack ≤ size (op_records t))%nat.
Proof.
  intros [Hnd Hpar _ _]. rewrite <- length_app. rewrite <- (size_list_to_set (C := gset OperationId)) by done.
  rewrite <- size_dom. apply subseteq_size. intros c Hc%elem_of_list_to_set.
  destruct (Hpar c Hc) as (r & p & Hr & _). apply elem_of_dom. eauto.
Qed.

Lemma collect_loop_spec fuel : ∀ stack ordered,
  collecting stack ordered → (size (op_records t) < fuel + length ordered)%nat →
  ∃ l, collect_loop fuel t stack ordered = Some l ∧ collecting [] l.
Proof.
  induction fuel as [|fuel IH]; intros stack ordered Hc Hf.
  { pose proof (collecting_length _ _ Hc). lia. }
  destruct stack as [|id rest]; cbn; [eauto|]. apply IH; [by apply collecting_pop|].
  rewrite length_app. cbn. lia.
Qed.

(** The loop ends within its fuel and finds each descendant exactly once. *)
Lemma collect_descendants_spec :
  ∃ l, collect_descendants t root = Some l ∧ NoDup l ∧ ∀ c, c ∈ l ↔ descendant t root c.
Proof.
  destruct (collect_loop_spec (S (size (op_records t))) _ _ collecting_start) as (l & Hl & Hc).
  { cbn. lia. }
  exists l. split; [done|]. destruct Hc as [Hnd Hpar Hbel Hcl]. rewrite app_nil_r in *.
  split; [done|]. intros c. split; [apply Hbel|].
  induction 1 as [c r Hr Hp|c r p Hr Hp Hd IH].
  - eapply (Hcl root); [by left|]. apply (ow_children _ Hw). eauto.
  - eapply (Hcl p); [by right|]. apply (ow_children _ Hw). eauto.
Qed.

End Collect.

(** ** Steps *)

Lemma op_evolves_refl r : op_evolves r r.
Proof. split; [apply rtc_refl|done|done]. Qed.

Lemma op_evolves_trans r1 r2 r3 : op_evolves r1 r2 → op_evolves r2 r3 → op_evolves r1 r3.
Proof.
  intros [Hs1 (?&?&?&?&?) Hf1] [Hs2 (?&?&?&?&?) Hf2]. split; [by etrans|split_and!; congruence|].
  intros Ht. specialize (Hf1 Ht). subst r2. auto.
Qed.

Lemma ops_evolve_refl t : ops_wf t → ops_evolve t t.
Proof. intros Hw. split; [done|]. intros id r Hr. exists r. split; [done|apply op_evolves_refl]. Qed.

Lemma ops_evolve_trans t1 t2 t3 : ops_evolve t1 t2 → ops_evolve t2 t3 → ops_evolve t1 t3.
Proof.
  intros [_ H12] [Hw H23]. split; [done|]. intros id r Hr.
  destruct (H12 id r Hr) as (r2 & Hr2 & He). destruct (H23 id r2 Hr2) as (r3 & Hr3 & He').
  exists r3. split; [done|by eapply op_evolves_trans].
Qed.

Lemma terminal_op_stays a b :
  rtc operation_step a b → OperationState.is_terminal a = true → b = a.
Proof. intros Hab Ha. destruct Hab as [|x y z Hxy _]; [done|]. by destruct (operation_terminal_final x y). Qed.

Lemma set_op_evolves r s exit :
  rtc operation_step (op_state r) s → OperationState.is_terminal (op_state r) = false →
  op_evolves r (set_op s exit r).
Proof. intros Hs Ht. split; [done|done|congruence]. Qed.

Lemma ops_evolve_update t id r r' :
  ops_wf t → op_records t !! id = Some r → op_evolves r r' →
  (is_Some (op_exit r') ↔ OperationState.is_terminal (op_state r') = true) →
  ops_evolve t (with_op_records (insert id r') t).
Proof.
  intros [Hi Hx Hc Hn [rank Hrank]] Hid He Hx'. pose proof He as [Hs (Hoi & Hoo & Hop & _) Hf].
  assert (Hch : children_of (with_op_records (insert id r') t) = children_of t) by done.
  split; [split|].
  - cbn. intros id' r0 Hr0. split_lookup; [rewrite Hoi|]; eauto.
  - cbn. intros id' r0 Hr0. split_lookup; eauto.
  - intros p c. rewrite Hch, Hc. cbn. split.
    + intros (r0 & Hr0 & Hp). destruct (decide (c = id)) as [->|Hne].
      * exists r'. rewrite lookup_insert_eq. split; [done|congruence].
      * exists r0. by rewrite lookup_insert_ne.
    + intros (r0 & Hr0 & Hp). split_lookup; [|eauto]. exists r. split; [done|congruence].
  - intros p. rewrite Hch. apply Hn.
  - exists rank. intros c r0 p Hr0 Hp. cbn in *.
    assert (is_Some (op_records t !! p) ∧ (rank p < rank c)%nat) as [His Hlt].
    { split_lookup; [|by eapply Hrank]. eapply Hrank; [exact Hid|congruence]. }
    split; [|done]. destruct (decide (p = id)) as [->|]; [by rewrite lookup_insert_eq|].
    by rewrite lookup_insert_ne.
  - cbn. intros id' r0 Hr0. destruct (decide (id' = id)) as [->|Hne].
    + exists r'. rewrite lookup_insert_eq. by simplify_eq.
    + exists r0. rewrite lookup_insert_ne by done. split; [done|apply op_evolves_refl].
Qed.

Section Steps.
Context `{HEnv : Env}.

Lemma inspect_known t n id r : op_records t !! id = Some r → inspect id t n = (Ok r, t, n).
Proof. intros Hr. unfold inspect, mbind, M_bind, get_state, ok_or. by rewrite Hr. Qed.

Lemma inspect_unknown t n id :
  op_records t !! id = None → inspect id t n = (Err (UnknownOperation id), t, n).
Proof. intros Hr. unfold inspect, mbind, M_bind, get_state, ok_or. by rewrite Hr. Qed.

(** [cancel_one] on a known operation never fails. *)
Lemma cancel_one_known t n id r reason :
  op_records t !! id = Some r →
  cancel_one id reason t n = (Ok tt, with_op_records (insert id (cancelled reason r)) t, n).
Proof.
  intros Hr. unfold cancel_one, mbind, M_bind. rewrite (inspect_known t n id r) by done.
  unfold cancelled. destruct (OperationState.is_terminal (op_state r)) eqn:Ht.
  { unfold with_op_records. rewrite insert_id by done. by destruct t. }
  case_decide as Hc.
  - cbn [mret M_ret]. unfold mret, M_ret. rewrite (inspect_known t n id r) by done. by rewrite Hc.
  - assert (Hcan : OperationState.can_transition_to (op_state r) OperationState.Cancelling = true)
      by (destruct (op_state r); done).
    rewrite Hcan. cbn [ensure]. unfold mret, M_ret, modify.
    rewrite (inspect_known _ n id (set_op OperationState.Cancelling (op_exit r) r))
      by (cbn; apply lookup_insert_eq).
    cbn. unfold with_op_records. cbn. by rewrite insert_insert_eq.
Qed.

Lemma cancelled_evolves reason r : op_evolves r (cancelled reason r).
Proof.
  unfold cancelled. destruct (OperationState.is_terminal (op_state r)) eqn:Ht; [apply op_evolves_refl|].
  apply set_op_evolves; [|done].
  destruct (op_state r); try done.
  - eapply (rtc_l _ _ OperationState.Cancelling); [done|]. by apply rtc_once.
  - eapply (rtc_l _ _ OperationState.Cancelling); [done|]. by apply rtc_once.
  - by apply rtc_once.
Qed.

Lemma cancelled_exit reason r :
  (is_Some (op_exit r) ↔ OperationState.is_terminal (op_state r) = true) →
  (is_Some (op_exit (cancelled reason r)) ↔
   OperationState.is_terminal (op_state (cancelled reason r)) = true).
Proof. unfold cancelled. destruct (OperationState.is_terminal (op_state r)) eqn:Ht; [by rewrite Ht|done]. Qed.

Lemma cancelled_idemp reason r : cancelled reason (cancelled reason r) = cancelled reason r.
Proof.
  unfold cancelled at 2 3. destruct (OperationState.is_terminal (op_state r)) eqn:Ht; [|done].
  unfold cancelled. by rewrite Ht.
Qed.

(** The loop of [cancel]: exactly the listed operations are cancelled. *)
Lemma cancel_loop reason l : ∀ t n,
  ops_wf t → (∀ c, c ∈ l → is_Some (op_records t !! c)) →
  ∃ t', for_each l (λ op, cancel_one op reason) t n = (Ok tt, t', n) ∧ ops_evolve t t'
    ∧ ∀ c, op_records t' !! c =
        if decide (c ∈ l) then cancelled reason <$> op_records t !! c else op_records t !! c.
Proof.
  induction l as [|x l IH]; intros t n Hw Hl.
  { exists t. split_and!; [done|by apply ops_evolve_refl|]. intros c. by rewrite decide_False by set_solver. }
  destruct (Hl x) as [r Hr]; [by left|].
  assert (He : ops_evolve t (with_op_records (insert x (cancelled reason r)) t)).
  { eapply ops_evolve_update; [done|done|apply cancelled_evolves|].
    apply cancelled_exit. by eapply ow_exit. }
  destruct (IH (with_op_records (insert x (cancelled reason r)) t) n) as (t' & Hrun & He' & Hc).
  { by destruct He. }
  { intros c Hcl. cbn. destruct (decide (c = x)) as [->|]; [by rewrite lookup_insert_eq|].
    rewrite lookup_insert_ne by done. apply Hl. by right. }
  exists t'. split_and!.
  - cbn. unfold mbind, M_bind. by rewrite (cancel_one_known t n x r).
  - by eapply ops_evolve_trans.
  - intros c. rewrite Hc. cbn. destruct (decide (c = x)) as [->|Hne].
    + rewrite lookup_insert_eq, Hr, (decide_True (P := x ∈ x :: l)) by (by left). cbn.
      case_decide; [by rewrite cancelled_idemp|done].
    + rewrite lookup_insert_ne by done. repeat case_decide; set_solver.
Qed.

Lemma cancel_spec t n id r reason :
  ops_wf t → op_records t !! id = Some r →
  ∃ l t', collect_descendants t id = Some l ∧ (∀ c, c ∈ l ↔ descendant t id c)
    ∧ cancel id reason t n = (Ok tt, t', n) ∧ ops_evolve t t'
    ∧ ∀ c, op_records t' !! c =
        if decide (c ∈ l ++ [id]) then cancelled reason <$> op_records t !! c else op_records t !! c.
Proof.
  intros Hw Hr. destruct (collect_descendants_spec t Hw id) as (l & Hl & _ & Hin).
  destruct (cancel_loop reason (l ++ [id]) t n Hw) as (t' & Hrun & He & Hc).
  { intros c [Hc|Hc]%elem_of_app; [|by apply list_elem_of_singleton in Hc as ->].
    apply Hin in Hc. destruct Hc; eauto. }
  exists l, t'. split_and!; [done|done| |done|done].
  unfold cancel, mbind, M_bind, get_state. by rewrite Hl.
Qed.

Lemma ops_evolve_submit t id req now :
  ops_wf t → op_records t !! id = None →
  (∀ p, oq_parent req = Some p → is_Some (op_records t !! p)) →
  ops_evolve t (submitted t id req now).
Proof.
  intros [Hi Hx Hc Hn [rank Hrank]] Hid Hpar.
  assert (Hch : ∀ p, children_of (submitted t id req now) p =
            children_of t p ++ (if decide (oq_parent req = Some p) then [id] else [])).
  { intros p. unfold children_of, submitted. cbn. destruct (oq_parent req) as [q|] eqn:Hq.
    - destruct (decide (p = q)) as [->|Hne].
      + rewrite lookup_insert_eq. by rewrite decide_True.
      + rewrite lookup_insert_ne by done. rewrite decide_False by congruence. by rewrite app_nil_r.
    - rewrite decide_False by done. by rewrite app_nil_r. }
  assert (Hnotin : ∀ p, id ∉ children_of t p).
  { intros p (r & Hr & _)%Hc. congruence. }
  split; [split|].
  - cbn. intros id' r Hr. split_lookup; eauto.
  - cbn. intros id' r Hr. split_lookup; [|eauto]. cbn. split; [by intros []|done].
  - intros p c. rewrite Hch, elem_of_app, Hc. cbn. split.
    + intros [(r & Hr & Hp)|Hin].
      * exists r. rewrite lookup_insert_ne by congruence. done.
      * case_decide; [|by apply not_elem_of_nil in Hin]. apply list_elem_of_singleton in Hin as ->.
        eexists. by rewrite lookup_insert_eq.
    + intros (r & Hr & Hp). split_lookup; [right|left; eauto].
      cbn in Hp. rewrite decide_True by done. by left.
  - intros p. rewrite Hch. case_decide; [|by rewrite app_nil_r].
    apply NoDup_app. split_and!; [done| |apply NoDup_singleton].
    intros c Hin ->%list_elem_of_singleton. by eapply Hnotin.
  - exists (λ x, if decide (x = id) then S (default 0%nat (rank <$> oq_parent req)) else rank x).
    intros c r p Hr Hp. cbn in Hr. split_lookup.
    + cbn in Hp. destruct (Hpar p Hp) as [pr Hpr]. cbn. rewrite lookup_insert_ne by congruence.
      rewrite Hpr, Hp. repeat case_decide; try congruence. cbn. split; [eauto|lia].
    + destruct (Hrank _ _ _ Hr Hp) as [[pr Hpr] Hlt]. cbn. rewrite lookup_insert_ne by congruence.
      rewrite Hpr. repeat case_decide; try congruence. eauto.
  - cbn. intros id' r Hr. exists r. rewrite lookup_insert_ne by congruence.
    split; [done|apply op_evolves_refl].
Qed.

(** [submit_with_id], every branch. *)
Lemma submit_with_id_spec t n id req :
  ops_wf t →
  wp (submit_with_id id req) (λ res t' n', n' = n + 1 ∧ ops_evolve t t' ∧
    match res with
    | Ok id' => id' = id ∧ op_records t !! id = None ∧ t' = submitted t id req (mono_now n)
        ∧ ∀ p, oq_parent req = Some p → ∃ pr, op_records t !! p = Some pr
            ∧ op_owner pr = oq_owner req ∧ OperationState.is_terminal (op_state pr) = false
    | Err _ => t' = t
    | Panic => False
    end) t n.
Proof.
  intros Hw. pose proof (ops_evolve_refl t Hw) as Hrefl.
  unfold submit_with_id, submit_register, submit_link.
  apply wp_bind, wp_bind, wp_read_mono. cbv beta iota.
  apply wp_bind, wp_get. cbv beta iota. apply wp_bind, wp_ensure; [|done].
  intros Hid%negb_true_iff%bool_decide_eq_false. apply eq_None_not_Some in Hid. apply wp_bind.
  destruct (oq_parent req) as [p|] eqn:Hp.
  - apply wp_bind, wp_ok_or; [|done]. intros pr Hpr. apply wp_bind, wp_ensure; [|done].
    intros Ho%N.eqb_eq. apply wp_ensure; [|done]. intros Ht%negb_true_iff.
    wp_steps. assert (Heq : with_op_children (insert p (children_of
        (with_op_records <[id:=new_record id req (mono_now n)]> t) p ++ [id]))
        (with_op_records <[id:=new_record id req (mono_now n)]> t) = submitted t id req (mono_now n)).
    { unfold submitted, with_op_children, with_op_records, children_of. cbn. by rewrite Hp. }
    rewrite Heq. split_and!; [done| |done|done|done|].
    + apply ops_evolve_submit; [done|done|]. intros p' ?. assert (p' = p) as -> by congruence. eauto.
    + intros p' [= <-]. eauto.
  - wp_steps. assert (Heq : with_op_records <[id:=new_record id req (mono_now n)]> t =
                            submitted t id req (mono_now n)).
    { unfold submitted, with_op_records. cbn. by rewrite Hp. }
    rewrite Heq. split_and!; try done. apply ops_evolve_submit; [done|done|congruence].
Qed.

Lemma set_running_state_evolves t n id s exit :
  ops_wf t → (is_Some exit ↔ OperationState.is_terminal s = true) →
  wp (set_running_state id s exit) (λ _ t' n', n' = n ∧ ops_evolve t t') t n.
Proof.
  intros Hw Hx. unfold set_running_state, wp, mbind, M_bind.
  destruct (op_records t !! id) as [r|] eqn:Hr.
  2: { rewrite inspect_unknown by done. split; [done|by apply ops_evolve_refl]. }
  rewrite (inspect_known t n id r) by done.
  destruct (OperationState.can_transition_to (op_state r) s) eqn:Hc; cbn;
    [|split; [done|by apply ops_evolve_refl]].
  split; [done|]. eapply ops_evolve_update; [done|done| |done].
  apply set_op_evolves; [by apply rtc_once|]. destruct (op_state r); try done; by destruct s.
Qed.

Lemma cancel_unknown t n id reason :
  ops_wf t → op_records t !! id = None →
  cancel id reason t n = (Err (UnknownOperation id), t, n).
Proof.
  intros Hw Hid. assert (Hc : children_of t id = []).
  { destruct (children_of t id) as [|c l] eqn:Hch; [done|].
    destruct (proj1 (ow_children _ Hw id c)) as (r & Hr & Hp); [rewrite Hch; by left|].
    destruct (ow_rank _ Hw) as [rank Hrank]. destruct (Hrank _ _ _ Hr Hp) as [[] _]. congruence. }
  unfold cancel, mbind, M_bind, get_state, collect_descendants, collect_loop. rewrite Hc. cbn.
  unfold cancel_one, mbind, M_bind. by rewrite inspect_unknown.
Qed.

Lemma operation_call_evolves call t n :
  ops_wf t → wp (operation_call call) (λ _ t' _, ops_evolve t t') t n.
Proof.
  intros Hw. destruct call as [req|id req|id|id|id m|id m|id reason]; cbn [operation_call].
  - apply wp_bind, wp_bind, wp_new_uuid. eapply wp_mono; [by apply submit_with_id_spec|].
    intros [] t' n' (_ & He & _); done.
  - apply wp_bind. eapply wp_mono; [by apply submit_with_id_spec|].
    intros [] t' n' (_ & He & _); done.
  - eapply wp_mono; [by apply set_running_state_evolves|]. by intros r t' n' [_ ?].
  - eapply wp_mono; [by apply set_running_state_evolves|]. by intros r t' n' [_ ?].
  - eapply wp_mono; [by apply set_running_state_evolves|]. by intros r t' n' [_ ?].
  - eapply wp_mono; [by apply set_running_state_evolves|]. by intros r t' n' [_ ?].
  - unfold wp. destruct (op_records t !! id) as [r|] eqn:Hr.
    + by destruct (cancel_spec t n id r reason Hw Hr) as (l & t' & _ & _ & -> & He & _).
    + rewrite cancel_unknown by done. by apply ops_evolve_refl.
Qed.

Lemma operation_run_evolves calls : ∀ t n, ops_wf t → ops_evolve t (operation_run calls t n).1.
Proof.
  induction calls as [|call calls IH]; intros t n Hw; [by apply ops_evolve_refl|]. cbn.
  pose proof (operation_call_evolves call t n Hw) as He. unfold wp in He.
  destruct (operation_call call t n) as [[r t1] n1].
  eapply ops_evolve_trans; [exact He|]. apply IH. by destruct He.
Qed.

Lemma ops_wf_new : ops_wf OperationTable_new.
Proof.
  assert (Hc : ∀ p, children_of OperationTable_new p = []).
  { intros p. unfold children_of, OperationTable_new. cbn [op_children]. by rewrite lookup_empty. }
  split; unfold parents_before; cbn [op_records OperationTable_new].
  - intros id r. by rewrite lookup_empty.
  - intros id r. by rewrite lookup_empty.
  - intros p c. rewrite Hc. split; [by intros ?%not_elem_of_nil|].
    intros (r & Hr & _). by rewrite lookup_empty in Hr.
  - intros p. rewrite Hc. apply NoDup_nil_2.
  - exists (λ _, 0%nat). intros c r p. by rewrite lookup_empty.
Qed.

(** C23. Cancelling a registered operation always succeeds and reaches the whole
    subtree: the walk over the children ends, and afterwards the operation and
    every descendant is terminal, either as it already was or cancelled with the
    given reason; no other record changes. *)
Theorem cancel_reaches_subtree t n id r reason :
  ops_wf t → op_records t !! id = Some r →
  ∃ t', cancel id reason t n = (Ok tt, t', n) ∧ ops_wf t'
    ∧ (∀ c cr, c = id ∨ descendant t id c → op_records t !! c = Some cr →
         op_records t' !! c = Some (cancelled reason cr)
         ∧ OperationState.is_terminal (op_state (cancelled reason cr)) = true)
    ∧ (∀ c, c ≠ id → ¬ descendant t id c → op_records t' !! c = op_records t !! c).
Proof.
  intros Hw Hr. destruct (cancel_spec t n id r reason Hw Hr) as (l & t' & _ & Hin & Hrun & [Hw' _] & Hc).
  exists t'. split_and!; [done|done| |].
  - intros c cr Hd Hcr. rewrite Hc, decide_True, Hcr; [split; [done|]|].
    + unfold cancelled. by destruct (OperationState.is_terminal (op_state cr)) eqn:Ht.
    + rewrite elem_of_app, Hin. destruct Hd as [->|]; [right; by left|by left].
  - intros c Hne Hnd. rewrite Hc, decide_False; [done|]. rewrite elem_of_app, Hin, list_elem_of_singleton.
    tauto.
Qed.

(** The operation automaton: over every run of calls, an operation keeps its
    identity, owner and place in the tree, moves only along allowed transitions,
    and once terminal its record never changes again; it carries an exit reason
    exactly when it is terminal. *)
Theorem operation_lifecycle calls t n id r :
  ops_wf t → op_records t !! id = Some r →
  ∃ r', op_records (operation_run calls t n).1 !! id = Some r' ∧ op_evolves r r'
    ∧ (operation_rank (op_state r') ≤ operation_rank (op_state r))%nat
    ∧ (is_Some (op_exit r') ↔ OperationState.is_terminal (op_state r') = true).
Proof.
  intros Hw Hr. destruct (operation_run_evolves calls t n Hw) as [Hw' He].
  destruct (He id r Hr) as (r' & Hr' & Hev). exists r'. split_and!; [done|done| |by eapply ow_exit].
  destruct Hev as [Hs _ _]. induction Hs as [|x y z Hxy _ IH]; [done|].
  apply operation_step_rank in Hxy. lia.
Qed.

(** Submitting is refused, leaving the table as it was, or registers exactly
    one new record as [Submitted]; it is granted only under a free id and below a
    parent of the same owner that is not terminal, and the child is then reached
    by cancelling that parent. *)
Theorem submit_registers_below_live_parent t n id req :
  ops_wf t →
  ∃ res t' n', submit_with_id id req t n = (res, t', n') ∧ ops_wf t' ∧
    match res with
    | Ok id' => id' = id ∧ op_records t !! id = None
        ∧ op_records t' = <[id := new_record id req (mono_now n)]> (op_records t)
        ∧ ∀ p, oq_parent req = Some p → descendant t' p id ∧ ∃ pr, op_records t !! p = Some pr
            ∧ op_owner pr = oq_owner req ∧ OperationState.is_terminal (op_state pr) = false
    | Err _ => t' = t
    | Panic => False
    end.
Proof.
  intros Hw. pose proof (submit_with_id_spec t n id req Hw) as Hs. unfold wp in Hs.
  destruct (submit_with_id id req t n) as [[res t'] n']. destruct Hs as (_ & [Hw' _] & Hres).
  exists res, t', n'. split_and!; [done|done|]. destruct res as [id'|e|]; [|done|done].
  destruct Hres as (-> & Hid & -> & Hpar). split_and!; [done|done|done|].
  intros p Hp. split; [|by apply Hpar]. eapply desc_child; [cbn; apply lookup_insert_eq|done].
Qed.

End Steps.

(** ** Witnesses *)

Definition op_req (parent : option OperationId) : OperationRequest :=
  {| oq_owner := 5; oq_parent := parent; oq_kind := OperationKind.Turn; oq_deadline := None |}.

Definition sample_ops : OperationTable :=
  (operation_run (H := sample_env) [SubmitWithId 1 (op_req None); SubmitWithId 2 (op_req (Some 1));
     SubmitWithId 3 (op_req (Some 2)); SubmitWithId 4 (op_req (Some 1)); Start 1; Start 3; Succeed 3]
     OperationTable_new 0).1.

Lemma sample_ops_wf : ops_wf sample_ops.
Proof. apply (operation_run_evolves (HEnv := sample_env)), ops_wf_new. Qed.

Definition op_of (id : OperationId) (parent : option OperationId) (s : OperationState.t) : OperationRecord :=
  set_op s None (new_record id (op_req parent) 1000).

Lemma cancel_reaches_subtree_witness :
  ∃ t', cancel 1 CancelReason.User sample_ops 9 = (Ok tt, t', 9)
    ∧ op_records t' !! 4 = Some (cancelled CancelReason.User (op_of 4 (Some 1) OperationState.Submitted)).
Proof.
  destruct (cancel_reaches_subtree sample_ops 9 1 (op_of 1 None OperationState.Running) CancelReason.User)
    as (t' & Hrun & _ & Hall & _).
  - apply sample_ops_wf.
  - vm_compute. reflexivity.
  - exists t'. split; [exact Hrun|]. apply Hall.
    + right. apply (desc_child _ _ _ (op_of 4 (Some 1) OperationState.Submitted)); vm_compute; reflexivity.
    + vm_compute. reflexivity.
Defined.

Lemma operation_lifecycle_witness :
  ∃ r', op_records (operation_run (H := sample_env) [Start 2; Cancel 1 CancelReason.Shutdown]
          sample_ops 9).1 !! 2 = Some r'
    ∧ op_evolves (op_of 2 (Some 1) OperationState.Submitted) r'.
Proof.
  destruct (operation_lifecycle (HEnv := sample_env) [Start 2; Cancel 1 CancelReason.Shutdown]
    sample_ops 9 2 (op_of 2 (Some 1) OperationState.Submitted)) as (r' & Hr & He & _).
  - apply sample_ops_wf.
  - vm_compute. reflexivity.
  - exists r'. split; [exact Hr|exact He].
Defined.

Lemma submit_registers_below_live_parent_witness :
  ∃ res t' n', submit_with_id (HEnv := sample_env) 7 (op_req (Some 1)) sample_ops 9 = (res, t', n')
    ∧ ops_wf t'.
Proof.
  destruct (submit_registers_below_live_parent (HEnv := sample_env) sample_ops 9 7 (op_req (Some 1)))
    as (res & t' & n' & Hrun & Hw & _).
  - apply sample_ops_wf.
  - exists res, t', n'. split; [exact Hrun|exact Hw].
Defined.

(** ** Between the two critical sections of [submit_with_id]

    If the parent is cancelled after the child is registered and before it is
    linked, the cancellation does not see the child: the parent ends [Cancelled]
    with a child still [Submitted] below it. *)
Theorem cancel_misses_unlinked_child :
  ∃ t1 t2 t3 n1, submit_register (HEnv := sample_env) 7 (op_req (Some 1)) sample_ops 9 = (Ok tt, t1, n1)
    ∧ cancel 1 CancelReason.User t1 n1 = (Ok tt, t2, n1)
    ∧ submit_link 7 (op_req (Some 1)) t2 n1 = (Ok tt, t3, n1)
    ∧ (op_state <$> op_records t3 !! 1) = Some OperationState.Cancelled
    ∧ (op_state <$> op_records t3 !! 7) = Some OperationState.Submitted
    ∧ 7 ∈ children_of t3 1.
Proof.
  eexists _, _, _, _. split; [vm_compute; reflexivity|]. split; [vm_compute; reflexivity|].
  split; [vm_compute; reflexivity|]. split; [vm_compute; reflexivity|].
  split; [vm_compute; reflexivity|]. vm_compute. right. right. left.
Qed.
