(* ===== verification/Supervision.v ===== *)
(** * The supervisor tree (crates/kernel/src/supervision/tree.rs)

    Individual restart policies with attempt counters, restart lineages, and the
    group strategies. *)
From S2P Require Import Prelude FabricTypes.

Inductive RestartPolicy :=
| Never
| RestartOnFailure (max_restarts : nat).

Inductive RestartDecision :=
| DoNotRestart
| Restart (attempt : nat)
| FailedLimitReached
| RestartGroup (attempt : nat) (siblings : list ProcessId).

Inductive GroupStrategy := OneForOne | OneForAll | RestForOne.

Record SupervisorGroup := {
  sg_strategy : GroupStrategy;
  sg_members : list ProcessId;
}.

Record SupervisorTree := {
  policies : gmap ProcessId RestartPolicy;
  restarts : gmap ProcessId nat;
  process_groups : gmap ProcessId string;
  groups : gmap string SupervisorGroup;
}.

Definition SupervisorTree_new : SupervisorTree :=
  {| policies := ∅; restarts := ∅; process_groups := ∅; groups := ∅ |}.

Definition with_restarts f (t : SupervisorTree) : SupervisorTree :=
  {| policies := policies t; restarts := f (restarts t); process_groups := process_groups t;
     groups := groups t |}.

Definition supervise (id : ProcessId) (p : RestartPolicy) (t : SupervisorTree) : SupervisorTree :=
  {| policies := <[id := p]> (policies t); restarts := restarts t;
     process_groups := process_groups t; groups := groups t |}.

Definition policy (t : SupervisorTree) (id : ProcessId) : RestartPolicy :=
  default Never (policies t !! id).

Definition attempts (t : SupervisorTree) (id : ProcessId) : nat := default 0%nat (restarts t !! id).

(** [members.iter().position(|id| *id == previous)], then the replacement in place. *)
Fixpoint replace_first (previous replacement : ProcessId) (members : list ProcessId) : list ProcessId :=
  match members with
  | [] => []
  | m :: rest => if decide (m = previous) then replacement :: rest
                 else m :: replace_first previous replacement rest
  end.

Definition inherit_restart_lineage (previous replacement : ProcessId) (t : SupervisorTree)
    : SupervisorTree :=
  let t1 := {| policies := <[replacement := policy t previous]> (policies t);
               restarts := <[replacement := attempts t previous]> (restarts t);
               process_groups := process_groups t; groups := groups t |} in
  match process_groups t !! previous with
  | None => t1
  | Some group_name =>
      {| policies := policies t1; restarts := restarts t1;
         process_groups := <[replacement := group_name]> (process_groups t1);
         groups := alter (λ g, {| sg_strategy := sg_strategy g;
                                  sg_members := replace_first previous replacement (sg_members g) |})
                         group_name (groups t1) |}
  end.

Definition create_group (name : string) (strategy : GroupStrategy) (t : SupervisorTree) : SupervisorTree :=
  {| policies := policies t; restarts := restarts t; process_groups := process_groups t;
     groups := <[name := {| sg_strategy := strategy; sg_members := [] |}]> (groups t) |}.

Definition add_to_group (name : string) (id : ProcessId) (t : SupervisorTree) : SupervisorTree :=
  {| policies := policies t; restarts := restarts t;
     process_groups := <[id := name]> (process_groups t);
     groups := alter (λ g, {| sg_strategy := sg_strategy g; sg_members := sg_members g ++ [id] |})
                     name (groups t) |}.

Definition group_of (t : SupervisorTree) (id : ProcessId) : option string := process_groups t !! id.

(** [members[idx + 1..]] for the first position of [id]. *)
Fixpoint after_first (id : ProcessId) (members : list ProcessId) : list ProcessId :=
  match members with
  | [] => []
  | m :: rest => if decide (m = id) then rest else after_first id rest
  end.

Definition siblings_to_restart (g : SupervisorGroup) (id : ProcessId) : list ProcessId :=
  match sg_strategy g with
  | OneForOne => []
  | OneForAll => filter (λ pid, pid ≠ id) (sg_members g)
  | RestForOne => after_first id (sg_members g)
  end.

Definition is_failure (reason : ExitReason.t) : bool :=
  match reason with
  | ExitReason.Failed _ | ExitReason.Panic _ | ExitReason.DeadlineExceeded => true
  | _ => false
  end.

Definition record_exit (id : ProcessId) (reason : ExitReason.t) (t : SupervisorTree)
    : RestartDecision * SupervisorTree :=
  if negb (is_failure reason) then (DoNotRestart, t)
  else
    match policy t id with
    | Never => (DoNotRestart, t)
    | RestartOnFailure max_restarts =>
        let next := S (attempts t id) in
        if (max_restarts <? next)%nat then (FailedLimitReached, t)
        else
          let t1 := with_restarts (insert id next) t in
          match process_groups t1 !! id ≫= (λ name, groups t1 !! name) with
          | None => (Restart next, t1)
          | Some g =>
              match siblings_to_restart g id with
              | [] => (Restart next, t1)
              | siblings =>
                  (RestartGroup next siblings,
                   with_restarts (λ m, foldl (λ m s, delete s m) m siblings) t1)
              end
          end
    end.

(** One failure of each process of a lineage, each replaced by the next. *)
Fixpoint lineage (ids : list ProcessId) (reason : ExitReason.t) (t : SupervisorTree)
    : list RestartDecision * SupervisorTree :=
  match ids with
  | [] => ([], t)
  | id :: rest =>
      let '(d, t1) := record_exit id reason t in
      let t2 := match rest with next :: _ => inherit_restart_lineage id next t1 | [] => t1 end in
      let '(ds, t3) := lineage rest reason t2 in (d :: ds, t3)
  end.

(** The counters never pass the policy. *)
Definition counted (t : SupervisorTree) : Prop :=
  ∀ id k, restarts t !! id = Some k →
    match policy t id with RestartOnFailure max => (k ≤ max)%nat | Never => k = 0%nat end.

Definition ungrouped (t : SupervisorTree) (id : ProcessId) : Prop :=
  ∀ g, process_groups t !! id ≫= (λ name, groups t !! name) = Some g → sg_strategy g = OneForOne.

(** ** Lemmas *)

Lemma attempts_insert t id k id' :
  attempts (with_restarts (insert id k) t) id' = if decide (id' = id) then k else attempts t id'.
Proof.
  unfold attempts, with_restarts. cbn. destruct (decide (id' = id)) as [->|].
  - by rewrite lookup_insert_eq.
  - by rewrite lookup_insert_ne.
Qed.

Lemma foldl_delete_lookup (l : list ProcessId) (m : gmap ProcessId nat) x k :
  foldl (λ m s, delete s m) m l !! x = Some k → m !! x = Some k ∧ x ∉ l.
Proof.
  revert m. induction l as [|s l IH]; intros m Hx; [by split; [|apply not_elem_of_nil]|].
  apply IH in Hx as [Hx Hl]. apply lookup_delete_Some in Hx as [Hne Hx]. split; [done|].
  by intros [->|]%elem_of_cons.
Qed.

Lemma after_first_suffix id members : ∃ pre, members = pre ++ after_first id members.
Proof.
  induction members as [|m l [pre Hl]]; [by exists []|]. cbn. case_decide.
  - by exists [m].
  - exists (m :: pre). cbn. by f_equal.
Qed.

(** A failure of a process that stands alone. *)
Lemma record_exit_alone t id reason max :
  ungrouped t id → is_failure reason = true → policy t id = RestartOnFailure max →
  record_exit id reason t =
    if (attempts t id <? max)%nat
    then (Restart (S (attempts t id)), with_restarts (insert id (S (attempts t id))) t)
    else (FailedLimitReached, t).
Proof.
  intros Hu Hf Hp. unfold record_exit. rewrite Hf, Hp. cbn [negb].
  destruct (Nat.ltb_spec max (S (attempts t id))), (Nat.ltb_spec (attempts t id) max); try lia; [done|].
  cbn. destruct (process_groups t !! id ≫= _) as [g|] eqn:Hg; [|done].
  unfold siblings_to_restart. by rewrite (Hu g Hg).
Qed.

Lemma counted_record_exit t id reason :
  counted t → counted (record_exit id reason t).2.
Proof.
  intros Hc. unfold record_exit. destruct (negb (is_failure reason)); [done|].
  destruct (policy t id) as [|max] eqn:Hp; [done|].
  destruct (Nat.ltb_spec max (S (attempts t id))); [done|].
  assert (H1 : counted (with_restarts (insert id (S (attempts t id))) t)).
  { intros id' k Hk. cbn in Hk. unfold policy in *. cbn. split_lookup; [|by apply Hc].
    rewrite Hp. lia. }
  destruct (process_groups _ !! id ≫= _) as [g|]; [|done].
  destruct (siblings_to_restart g id) as [|s l]; [done|].
  intros id' k Hk. cbn [snd with_restarts restarts] in Hk.
  apply (foldl_delete_lookup (s :: l)) in Hk as [Hk _].
  by apply H1.
Qed.

Lemma counted_inherit t a b : counted t → counted (inherit_restart_lineage a b t).
Proof.
  intros Hc. assert (Ha : match policy t a with
    RestartOnFailure max => (attempts t a ≤ max)%nat | Never => attempts t a = 0%nat end).
  { unfold attempts. destruct (restarts t !! a) as [k|] eqn:Hk; cbn; [by apply Hc|].
    destruct (policy t a); lia. }
  intros id k Hk.
  assert (Hr : restarts (inherit_restart_lineage a b t) = <[b := attempts t a]> (restarts t)
    ∧ policies (inherit_restart_lineage a b t) = <[b := policy t a]> (policies t)).
  { unfold inherit_restart_lineage. by destruct (process_groups t !! a). }
  destruct Hr as [Hr Hpol]. unfold policy. rewrite Hpol. rewrite Hr in Hk. split_lookup.
  - by rewrite lookup_insert_eq.
  - rewrite lookup_insert_ne by done. by apply Hc.
Qed.

Lemma lineage_cons id b ids reason t :
  (lineage (id :: b :: ids) reason t).1 = (record_exit id reason t).1
    :: (lineage (b :: ids) reason (inherit_restart_lineage id b (record_exit id reason t).2)).1.
Proof.
  change (lineage (id :: b :: ids) reason t) with
    (let '(d, t1) := record_exit id reason t in
     let '(ds, t3) := lineage (b :: ids) reason (inherit_restart_lineage id b t1) in (d :: ds, t3)).
  destruct (record_exit id reason t) as [d t1]. cbn [fst snd].
  by destruct (lineage (b :: ids) reason _).
Qed.

(** The restart limit binds a lineage: for a process that is in no restarting
    group, a chain of replacements that each fail is told to restart exactly as
    often as the policy allows, with attempts counted on from the first process,
    and every later failure is answered [FailedLimitReached]. *)
Theorem lineage_restarts_bounded ids id reason max : ∀ t,
  NoDup (id :: ids) → is_failure reason = true → policy t id = RestartOnFailure max →
  (∀ x, x ∈ id :: ids → process_groups t !! x = None) → (attempts t id ≤ max)%nat →
  (lineage (id :: ids) reason t).1 =
    (Restart <$> seq (S (attempts t id)) (min (S (length ids)) (max - attempts t id)))
    ++ replicate (S (length ids) - (max - attempts t id)) FailedLimitReached.
Proof.
  revert id. induction ids as [|b ids IH]; intros id t Hnd Hf Hp Hg Ha.
  - assert (Hu : ungrouped t id) by (intros g; rewrite Hg by (by left); done).
    cbn [lineage]. rewrite (record_exit_alone t id reason max Hu Hf Hp).
    destruct (Nat.ltb_spec (attempts t id) max); cbn [fst length].
    + replace (1 - (max - attempts t id))%nat with 0%nat by lia.
      replace (min 1 (max - attempts t id)) with 1%nat by lia. done.
    + replace (max - attempts t id)%nat with 0%nat by lia. done.
  - assert (Hu : ungrouped t id) by (intros g; rewrite Hg by (by left); done).
    apply NoDup_cons in Hnd as [Hni Hnd].
    assert (Hstep : ∀ t1, (∀ x, process_groups t1 !! x = process_groups t !! x) →
      policy t1 id = RestartOnFailure max → (attempts t1 id ≤ max)%nat →
      (lineage (b :: ids) reason (inherit_restart_lineage id b t1)).1 =
        (Restart <$> seq (S (attempts t1 id)) (min (S (length ids)) (max - attempts t1 id)))
        ++ replicate (S (length ids) - (max - attempts t1 id)) FailedLimitReached).
    { intros t1 Hg1 Hp1 Ha1.
      assert (Hi : inherit_restart_lineage id b t1 =
        {| policies := <[b := policy t1 id]> (policies t1);
           restarts := <[b := attempts t1 id]> (restarts t1);
           process_groups := process_groups t1; groups := groups t1 |}).
      { unfold inherit_restart_lineage. by rewrite Hg1, Hg by (by left). }
      assert (Hatt : attempts (inherit_restart_lineage id b t1) b = attempts t1 id)
        by (rewrite Hi; unfold attempts at 1; cbn; by rewrite lookup_insert_eq).
      rewrite <- Hatt. apply IH; [done|done| | |by rewrite Hatt].
      - rewrite Hi. unfold policy at 1. cbn. by rewrite lookup_insert_eq.
      - intros x Hx. rewrite Hi. cbn. rewrite Hg1. apply Hg. by right. }
    rewrite lineage_cons, (record_exit_alone t id reason max Hu Hf Hp).
    destruct (Nat.ltb_spec (attempts t id) max); cbn [fst snd].
    + rewrite (Hstep (with_restarts (insert id (S (attempts t id))) t) (λ _, eq_refl) Hp);
        rewrite attempts_insert, decide_True by done; [|lia]. cbn [length].
      replace (min (S (S (length ids))) (max - attempts t id))
        with (S (min (S (length ids)) (max - S (attempts t id)))) by lia.
      replace (S (S (length ids)) - (max - attempts t id))%nat
        with (S (length ids) - (max - S (attempts t id)))%nat by lia. done.
    + rewrite (Hstep t (λ _, eq_refl) Hp) by lia. cbn [length].
      replace (max - attempts t id)%nat with 0%nat by lia. rewrite !Nat.min_0_r. done.
Qed.

(** Group strategies restart the right siblings: [OneForAll] every other
    member, [RestForOne] exactly the members started after the failed one, in
    start order; the counters stay within their policies whatever exits are
    recorded and inherited. *)
Theorem group_restarts_follow_strategy t id reason attempt siblings t' :
  counted t → record_exit id reason t = (RestartGroup attempt siblings, t') →
  counted t' ∧ (∃ max, policy t id = RestartOnFailure max ∧ attempt = S (attempts t id)
                       ∧ (attempt ≤ max)%nat)
  ∧ ∃ name g, process_groups t !! id = Some name ∧ groups t !! name = Some g
    ∧ match sg_strategy g with
      | OneForOne => False
      | OneForAll => siblings = filter (λ pid, pid ≠ id) (sg_members g)
      | RestForOne => ∃ pre, sg_members g = pre ++ siblings
      end
    ∧ ∀ s, s ∈ siblings → restarts t' !! s = None.
Proof.
  intros Hc Hrun. split.
  { pose proof (counted_record_exit t id reason Hc) as Hc'. by rewrite Hrun in Hc'. }
  unfold record_exit in Hrun. destruct (negb (is_failure reason)); [done|].
  destruct (policy t id) as [|max] eqn:Hp; [done|].
  destruct (Nat.ltb_spec max (S (attempts t id))); [done|]. cbn in Hrun.
  destruct (process_groups t !! id) as [name|] eqn:Hn; [|done]. cbn in Hrun.
  destruct (groups t !! name) as [g|] eqn:Hg; [|done].
  destruct (siblings_to_restart g id) as [|s l] eqn:Hs; [done|]. injection Hrun as <- <- <-.
  split; [exists max; split_and!; [done|done|lia]|]. exists name, g. split_and!; [done|done| |].
  - unfold siblings_to_restart in Hs. destruct (sg_strategy g); [done|done|].
    destruct (after_first_suffix id (sg_members g)) as [pre Hpre]. exists pre. by rewrite <- Hs.
  - intros x Hx. cbn [with_restarts restarts].
    destruct (foldl (λ m s, delete s m) (<[id := S (attempts t id)]> (restarts t)) (s :: l) !! x)
      as [k|] eqn:Hk; [|done]. by apply foldl_delete_lookup in Hk as [_ ?].
Qed.

(** ** Witnesses *)

Definition one_worker : SupervisorTree := supervise 1 (RestartOnFailure 2) SupervisorTree_new.

Lemma lineage_restarts_bounded_witness :
  (lineage [1; 2; 3; 4] (ExitReason.Failed "x") one_worker).1 =
    [Restart 1; Restart 2; FailedLimitReached; FailedLimitReached].
Proof.
  rewrite (lineage_restarts_bounded [2; 3; 4] 1 (ExitReason.Failed "x") 2 one_worker).
  - reflexivity.
  - apply (bool_decide_unpack _). vm_compute. exact I.
  - reflexivity.
  - reflexivity.
  - intros x _. reflexivity.
  - vm_compute. lia.
Defined.

Definition group_of_three : SupervisorTree :=
  add_to_group "g" 3 (add_to_group "g" 2 (add_to_group "g" 1 (create_group "g" RestForOne
    (supervise 3 (RestartOnFailure 1) (supervise 2 (RestartOnFailure 1)
      (supervise 1 (RestartOnFailure 1) SupervisorTree_new)))))).

Lemma group_restarts_follow_strategy_witness :
  ∃ t', record_exit 2 (ExitReason.Panic "x") group_of_three = (RestartGroup 1 [3], t') ∧ counted t'.
Proof.
  eexists. split; [vm_compute; reflexivity|].
  refine (proj1 (group_restarts_follow_strategy group_of_three 2 (ExitReason.Panic "x") 1 [3] _ _ _)).
  - intros id k Hk. vm_compute in Hk. discriminate.
  - vm_compute. reflexivity.
Defined.

(** ** Group restarts reset the limit

    A group restart removes the siblings' counters, so two members that fail in
    turn are restarted for ever although each policy allows one restart. *)
Fixpoint alternate (k : nat) (t : SupervisorTree) : list RestartDecision :=
  match k with
  | O => []
  | S k =>
      let '(d1, t1) := record_exit 1 (ExitReason.Failed "x") t in
      let '(d2, t2) := record_exit 2 (ExitReason.Failed "x") t1 in d1 :: d2 :: alternate k t2
  end.

Definition pair_for_all : SupervisorTree :=
  add_to_group "g" 2 (add_to_group "g" 1 (create_group "g" OneForAll
    (supervise 2 (RestartOnFailure 1) (supervise 1 (RestartOnFailure 1) SupervisorTree_new)))).

Theorem group_restarts_are_unbounded k :
  alternate k pair_for_all =
    mjoin (replicate k [RestartGroup 1 [2]; RestartGroup 1 [1]]).
Proof.
  destruct k as [|k]; [done|].
  assert (Hloop : ∀ t2, t2 = with_restarts (λ _, {[2 := 1%nat]}) pair_for_all →
    ∀ k, alternate k t2 = mjoin (replicate k [RestartGroup 1 [2]; RestartGroup 1 [1]])).
  { intros t2 -> j. induction j as [|j IH]; [done|]. cbn [alternate].
    replace (record_exit 1 (ExitReason.Failed "x") (with_restarts (λ _, {[2 := 1%nat]}) pair_for_all))
      with (RestartGroup 1 [2], with_restarts (λ _, {[1 := 1%nat]}) pair_for_all) by (vm_compute; done).
    replace (record_exit 2 (ExitReason.Failed "x") (with_restarts (λ _, {[1 := 1%nat]}) pair_for_all))
      with (RestartGroup 1 [1], with_restarts (λ _, {[2 := 1%nat]}) pair_for_all) by (vm_compute; done).
    rewrite IH. done. }
  cbn [alternate].
  replace (record_exit 1 (ExitReason.Failed "x") pair_for_all)
    with (RestartGroup 1 [2], with_restarts (λ _, {[1 := 1%nat]}) pair_for_all) by (vm_compute; done).
  replace (record_exit 2 (ExitReason.Failed "x") (with_restarts (λ _, {[1 := 1%nat]}) pair_for_all))
    with (RestartGroup 1 [1], with_restarts (λ _, {[2 := 1%nat]}) pair_for_all) by (vm_compute; done).
  rewrite (Hloop _ eq_refl). done.
Qed.
