(* ===== verification/Mailbox.v ===== *)
(** * Mailboxes: bounded, prioritised message passing

    Translates [crates/fabric/src/ipc/envelope_v2.rs] (the envelope and its
    schema check) and [crates/fabric/src/ipc/mailbox.rs] (the in-process
    mailbox, the registry that routes to it, and the request loop).  A mailbox
    is shared by reference ([Arc<dyn Mailbox>]), so the registry maps a target
    to the key of a mailbox in a store and every holder of the key sees the same
    queues.  [recv] is a poll: [Pending] is the point where the task parks until
    it is notified.  The theorems show that no accepted message is lost,
    duplicated or reordered within its lane, that both lanes stay bounded, that
    the emergency lane does not depend on the ordinary one, and what routing and
    the request loop do on every branch. *)
From S2P Require Import Prelude FabricTypes.

Abbreviation MessageId := N (only parsing).
Abbreviation SchemaId := string (only parsing).
Abbreviation Target := string (only parsing).
Abbreviation MonoDeadlineMillis := N (only parsing).
Abbreviation MailboxRef := N (only parsing).

(** ** Schemas *)

Definition TURN_REQUEST_V1 : SchemaId := "aletheon.turn.request/v1".

Definition TURN_EVENT_V1 : SchemaId := "aletheon.turn.event/v1".

Definition PROCESS_SIGNAL_V1 : SchemaId := "aletheon.process.signal/v1".

Definition CAPABILITY_REQUEST_V1 : SchemaId := "aletheon.capability.request/v1".

Definition CAPABILITY_RESULT_V1 : SchemaId := "aletheon.capability.result/v1".

Definition AGENT_CONTROL_MESSAGE_V1 : SchemaId := "aletheon.agent.control-message/v1".

Definition supported_cross_process : list SchemaId :=
  [TURN_REQUEST_V1; TURN_EVENT_V1; PROCESS_SIGNAL_V1; CAPABILITY_REQUEST_V1;
   CAPABILITY_RESULT_V1; AGENT_CONTROL_MESSAGE_V1].

Definition is_supported_cross_process (schema : SchemaId) : bool :=
  bool_decide (schema ∈ supported_cross_process)
  || String.prefix "aletheon.event." schema
  || String.prefix "aletheon.test" schema.

Record UnsupportedSchema := {
  us_schema : SchemaId;
  us_supported : list string;
}.

Definition validate_known (schema : SchemaId) : UnsupportedSchema + unit :=
  if is_supported_cross_process schema then inr tt
  else inl {| us_schema := schema; us_supported := supported_cross_process |}.

Definition unsupported_display (e : UnsupportedSchema) : string :=
  "unsupported schema: " +:+ us_schema e.

(** ** Envelopes *)

Inductive DeliveryPattern := Direct | FanOut | RequestResponse.

Section Data.
Context {Json : Type}.

Record EnvelopeV2 := {
  env_id : MessageId;
  env_schema : SchemaId;
  env_source : Target;
  env_target : Target;
  env_pattern : DeliveryPattern;
  env_operation_id : option OperationId;
  env_causation_id : option MessageId;
  env_correlation_id : option MessageId;
  env_namespace : NamespaceId;
  env_logical_time : N;
  env_deadline : option MonoDeadlineMillis;
  env_priority : N;
  env_payload : Json;
}.

Definition with_priority (p : N) (e : EnvelopeV2) : EnvelopeV2 :=
  {| env_id := env_id e; env_schema := env_schema e; env_source := env_source e;
     env_target := env_target e; env_pattern := env_pattern e;
     env_operation_id := env_operation_id e; env_causation_id := env_causation_id e;
     env_correlation_id := env_correlation_id e; env_namespace := env_namespace e;
     env_logical_time := env_logical_time e; env_deadline := env_deadline e;
     env_priority := p; env_payload := env_payload e |}.

Definition with_deadline (d : MonoDeadlineMillis) (e : EnvelopeV2) : EnvelopeV2 :=
  {| env_id := env_id e; env_schema := env_schema e; env_source := env_source e;
     env_target := env_target e; env_pattern := env_pattern e;
     env_operation_id := env_operation_id e; env_causation_id := env_causation_id e;
     env_correlation_id := env_correlation_id e; env_namespace := env_namespace e;
     env_logical_time := env_logical_time e; env_deadline := Some d;
     env_priority := env_priority e; env_payload := env_payload e |}.

Definition with_correlation_id (id : MessageId) (e : EnvelopeV2) : EnvelopeV2 :=
  {| env_id := env_id e; env_schema := env_schema e; env_source := env_source e;
     env_target := env_target e; env_pattern := env_pattern e;
     env_operation_id := env_operation_id e; env_causation_id := env_causation_id e;
     env_correlation_id := Some id; env_namespace := env_namespace e;
     env_logical_time := env_logical_time e; env_deadline := env_deadline e;
     env_priority := env_priority e; env_payload := env_payload e |}.

Definition is_expired_at (e : EnvelopeV2) (now_mono_millis : N) : bool :=
  match env_deadline e with
  | Some d => d <=? now_mono_millis
  | None => false
  end.

(** ** One mailbox *)

Inductive DeliveryReceipt :=
| Delivered (message_id : MessageId)
| Rejected (message_id : MessageId) (reason : string)
| NoSuchMailbox (target : Target)
| Expired (message_id : MessageId).

Definition is_ok (r : DeliveryReceipt) : bool :=
  match r with Delivered _ => true | _ => false end.

Record InProcessMailbox := {
  mb_capacity : nat;
  mb_high : list EnvelopeV2;
  mb_normal : list EnvelopeV2;
  mb_closed : bool;
}.

Definition with_capacity (capacity : nat) : InProcessMailbox :=
  {| mb_capacity := capacity; mb_high := []; mb_normal := []; mb_closed := false |}.

Definition mailbox_new : InProcessMailbox := with_capacity 64.

Definition high_priority (e : EnvelopeV2) : bool :=
  (env_priority e =? 255) || String.eqb (env_schema e) PROCESS_SIGNAL_V1.

Definition set_queues (high normal : list EnvelopeV2) (mb : InProcessMailbox) : InProcessMailbox :=
  {| mb_capacity := mb_capacity mb; mb_high := high; mb_normal := normal;
     mb_closed := mb_closed mb |}.

(** [VecDeque::is_empty]. *)
Definition is_nil (q : list EnvelopeV2) : bool := match q with [] => true | _ => false end.

Definition send (envelope : EnvelopeV2) (mb : InProcessMailbox) : DeliveryReceipt * InProcessMailbox :=
  let msg_id := env_id envelope in
  if mb_closed mb then (Rejected msg_id "mailbox closed", mb)
  else
    let high := high_priority envelope in
    let full := if high then negb (is_nil (mb_high mb))
                else (mb_capacity mb <=? length (mb_normal mb))%nat in
    if full then (Rejected msg_id "mailbox buffer full", mb)
    else if high
    then (Delivered msg_id, set_queues (mb_high mb ++ [envelope]) (mb_normal mb) mb)
    else (Delivered msg_id, set_queues (mb_high mb) (mb_normal mb ++ [envelope]) mb).

Inductive Polled :=
| Ready (message : option EnvelopeV2)
| Pending.

(** One turn of the loop of [recv], up to where the task parks. *)
Definition recv (mb : InProcessMailbox) : Polled * InProcessMailbox :=
  match mb_high mb, mb_normal mb with
  | msg :: high, normal => (Ready (Some msg), set_queues high normal mb)
  | [], msg :: normal => (Ready (Some msg), set_queues [] normal mb)
  | [], [] => (if mb_closed mb then Ready None else Pending, mb)
  end.

(** [close] gives up when the state is locked at that moment. *)
Definition close (lock_free : bool) (mb : InProcessMailbox) : InProcessMailbox :=
  if lock_free
  then {| mb_capacity := mb_capacity mb; mb_high := mb_high mb; mb_normal := mb_normal mb;
          mb_closed := true |}
  else mb.

(** The waiting loop of [request]: the messages that do not answer [request_id]
    are dropped; [None] is the fuel running out. *)
Fixpoint await_reply (fuel : nat) (request_id : MessageId) (mb : InProcessMailbox)
    : option (Polled * InProcessMailbox) :=
  match fuel with
  | O => None
  | S fuel =>
      match recv mb with
      | (Ready (Some msg), mb') =>
          if decide (env_correlation_id msg = Some request_id)
          then Some (Ready (Some msg), mb') else await_reply fuel request_id mb'
      | (p, mb') => Some (p, mb')
      end
  end.

(** The messages that wait in a mailbox, in the order [recv] gives them. *)
Definition waiting (mb : InProcessMailbox) : list EnvelopeV2 := mb_high mb ++ mb_normal mb.

(** ** The registry *)

Record PostOffice := {
  po_boxes : gmap MailboxRef InProcessMailbox;
  po_mailboxes : gmap Target MailboxRef;
}.

Definition post_new : PostOffice := {| po_boxes := ∅; po_mailboxes := ∅ |}.

Definition set_box (r : MailboxRef) (mb : InProcessMailbox) (po : PostOffice) : PostOffice :=
  {| po_boxes := <[r := mb]> (po_boxes po); po_mailboxes := po_mailboxes po |}.

Definition set_mailboxes (f : gmap Target MailboxRef → gmap Target MailboxRef) (po : PostOffice)
    : PostOffice :=
  {| po_boxes := po_boxes po; po_mailboxes := f (po_mailboxes po) |}.

Section Service.
Context `{Env}.
Abbreviation B := (M PostOffice string).

Definition envelope_new (schema : SchemaId) (source target : Target) (pattern : DeliveryPattern)
    (namespace : NamespaceId) (payload : Json) : B EnvelopeV2 :=
  id ← new_uuid;
  mret {| env_id := id; env_schema := schema; env_source := source; env_target := target;
          env_pattern := pattern; env_operation_id := None; env_causation_id := None;
          env_correlation_id := None; env_namespace := namespace; env_logical_time := 0;
          env_deadline := None; env_priority := 128; env_payload := payload |}.

Definition register (target : Target) (mailbox : MailboxRef) : B unit :=
  po ← get_state;
  ensure (negb (bool_decide (is_Some (po_mailboxes po !! target))))
         ("mailbox already registered for target: " +:+ target) ;;
  modify (set_mailboxes (insert target mailbox)).

Definition unregister (target : Target) : B (option MailboxRef) :=
  po ← get_state;
  modify (set_mailboxes (delete target)) ;;
  mret (po_mailboxes po !! target).

(** The mailbox behind a reference; a reference always leads to one. *)
Definition at_box (r : MailboxRef) {A} (f : InProcessMailbox → A * InProcessMailbox) : B A :=
  po ← get_state;
  mb ← expect (po_boxes po !! r);
  modify (set_box r (f mb).2) ;;
  mret (f mb).1.

Definition route_at (envelope : EnvelopeV2) (now_mono_millis : N) : B DeliveryReceipt :=
  if is_expired_at envelope now_mono_millis then mret (Expired (env_id envelope))
  else match validate_known (env_schema envelope) with
       | inl err => mret (Rejected (env_id envelope) (unsupported_display err))
       | inr _ =>
           po ← get_state;
           match po_mailboxes po !! env_target envelope with
           | Some r => at_box r (send envelope)
           | None => mret (NoSuchMailbox (env_target envelope))
           end
       end.

Definition route (envelope : EnvelopeV2) : B DeliveryReceipt :=
  now ← read_mono; route_at envelope now.

(** [signal_json] is [serde_json::json!({"signal": ..})]. *)
Definition signal_process (signal_json : ProcessSignal.t → Json) (target : Target)
    (signal : ProcessSignal.t) : B DeliveryReceipt :=
  env ← envelope_new PROCESS_SIGNAL_V1 "kernel" target Direct "process" (signal_json signal);
  route (with_priority 255 env).

Definition post_len (po : PostOffice) : nat := size (po_mailboxes po).

(** [request]: [others] is what the other tasks do to the post office each time
    the caller is parked, one entry for each time it is woken; [Pending] is a
    caller that is still parked at the end of that schedule. *)
Fixpoint request_wait (others : list (PostOffice → PostOffice)) (request_id : MessageId)
    (caller : MailboxRef) : B Polled :=
  match others with
  | [] => mret Pending
  | step :: others =>
      modify step ;;
      p ← at_box caller (λ mb, default (Pending, mb)
                                 (await_reply (S (length (waiting mb))) request_id mb));
      match p with
      | Ready reply => mret (Ready reply)
      | Pending => request_wait others request_id caller
      end
  end.

Definition request (others : list (PostOffice → PostOffice)) (envelope : EnvelopeV2)
    (caller : MailboxRef) : B Polled :=
  receipt ← route envelope;
  if is_ok receipt then request_wait others (env_id envelope) caller else mret (Ready None).

End Service.

(** ** Runs and what they have to satisfy *)

Inductive MailCall :=
| CallSend (e : EnvelopeV2)
| CallRecv
| CallClose (lock_free : bool).

(** A mailbox with the messages it accepted and those it handed out, in order. *)
Record MailLog := {
  ml_box : InProcessMailbox;
  ml_accepted : list EnvelopeV2;
  ml_taken : list EnvelopeV2;
}.

Definition mail_start (capacity : nat) : MailLog :=
  {| ml_box := with_capacity capacity; ml_accepted := []; ml_taken := [] |}.

Definition mail_call (l : MailLog) (call : MailCall) : MailLog :=
  match call with
  | CallSend e =>
      let '(receipt, mb) := send e (ml_box l) in
      {| ml_box := mb; ml_taken := ml_taken l;
         ml_accepted := if is_ok receipt then ml_accepted l ++ [e] else ml_accepted l |}
  | CallRecv =>
      let '(p, mb) := recv (ml_box l) in
      {| ml_box := mb; ml_accepted := ml_accepted l;
         ml_taken := match p with Ready (Some e) => ml_taken l ++ [e] | _ => ml_taken l end |}
  | CallClose lock_free =>
      {| ml_box := close lock_free (ml_box l); ml_accepted := ml_accepted l;
         ml_taken := ml_taken l |}
  end.

Definition mail_run (capacity : nat) (calls : list MailCall) : MailLog :=
  fold_left mail_call calls (mail_start capacity).

(** The messages of one lane. *)
Definition lane (high : bool) (l : list EnvelopeV2) : list EnvelopeV2 :=
  filter (λ e, high_priority e = high) l.

#[local] Arguments lane : simpl never.

Record mail_ok (capacity : nat) (l : MailLog) : Prop := {
  mo_capacity : mb_capacity (ml_box l) = capacity;
  mo_high : lane true (ml_accepted l) = lane true (ml_taken l) ++ mb_high (ml_box l);
  mo_normal : lane false (ml_accepted l) = lane false (ml_taken l) ++ mb_normal (ml_box l);
  mo_lanes : Forall (λ e, high_priority e = true) (mb_high (ml_box l))
             ∧ Forall (λ e, high_priority e = false) (mb_normal (ml_box l));
  mo_bounds : (length (mb_high (ml_box l)) ≤ 1)%nat
              ∧ (length (mb_normal (ml_box l)) ≤ capacity)%nat;
}.

(** Every registered target leads to a mailbox. *)
Definition post_wf (po : PostOffice) : Prop :=
  ∀ target r, po_mailboxes po !! target = Some r → is_Some (po_boxes po !! r).

(** When a mailbox takes a message, and what it is afterwards. *)
Definition accepts (e : EnvelopeV2) (mb : InProcessMailbox) : Prop :=
  mb_closed mb = false ∧
  if high_priority e then mb_high mb = [] else (length (mb_normal mb) < mb_capacity mb)%nat.

Definition enqueued (e : EnvelopeV2) (mb : InProcessMailbox) : InProcessMailbox :=
  if high_priority e then set_queues (mb_high mb ++ [e]) (mb_normal mb) mb
  else set_queues (mb_high mb) (mb_normal mb ++ [e]) mb.

(** Routing delivers [e] at time [now] to the mailbox [mb] behind [r]. *)
Definition deliverable (po : PostOffice) (e : EnvelopeV2) (now : N) (r : MailboxRef)
    (mb : InProcessMailbox) : Prop :=
  is_expired_at e now = false ∧ is_supported_cross_process (env_schema e) = true
  ∧ po_mailboxes po !! env_target e = Some r ∧ po_boxes po !! r = Some mb ∧ accepts e mb.

(** ** Lemmas *)

Lemma send_spec e mb :
  (accepts e mb ∧ send e mb = (Delivered (env_id e), enqueued e mb))
  ∨ (¬ accepts e mb ∧ ∃ reason, send e mb = (Rejected (env_id e) reason, mb)).
Proof.
  unfold send, accepts, enqueued. destruct (mb_closed mb); [right; split; [by intros [? _]|eauto]|].
  destruct (high_priority e).
  - destruct (mb_high mb) eqn:Hh; cbn [is_nil negb].
    + left. auto.
    + right. split; [by intros [_ ?]|eauto].
  - destruct (Nat.leb_spec (mb_capacity mb) (length (mb_normal mb))).
    + right. split; [intros [_ ?]; lia|eauto].
    + left. auto.
Qed.

Lemma recv_spec mb :
  match waiting mb with
  | e :: l => ∃ mb', recv mb = (Ready (Some e), mb') ∧ waiting mb' = l
                     ∧ mb_closed mb' = mb_closed mb ∧ mb_capacity mb' = mb_capacity mb
  | [] => recv mb = (if mb_closed mb then Ready None else Pending, mb)
  end.
Proof.
  unfold waiting, recv. destruct (mb_high mb) as [|e h] eqn:Hh; cbn [app].
  - destruct (mb_normal mb) eqn:Hn; eauto.
  - eexists. split; [done|]. split; [|done]. unfold waiting. cbn. done.
Qed.

Lemma lane_app b l1 l2 : lane b (l1 ++ l2) = lane b l1 ++ lane b l2.
Proof. apply filter_app. Qed.

Lemma lane_one b e : lane b [e] = if bool_decide (high_priority e = b) then [e] else [].
Proof. unfold lane. rewrite filter_cons, filter_nil. case_bool_decide; case_decide; done. Qed.

Lemma mail_ok_start capacity : mail_ok capacity (mail_start capacity).
Proof. split; cbn; auto with lia. Qed.

Lemma mail_ok_send capacity l e : mail_ok capacity l → mail_ok capacity (mail_call l (CallSend e)).
Proof.
  intros [Hc Hh Hn [Hl1 Hl2] [Hb1 Hb2]]. cbn.
  destruct (send_spec e (ml_box l)) as [[[_ Ha] ->]|[_ [reason ->]]]; cbn [is_ok]; [|by split].
  unfold enqueued. destruct (high_priority e) eqn:He; cbn in *;
    split; cbn; rewrite ?lane_app, ?lane_one, ?He; cbn; rewrite ?app_nil_r, ?length_app; auto.
  - by rewrite Hh, (assoc_L (++)).
  - split; [apply Forall_app_2; auto|done].
  - rewrite Ha. cbn. lia.
  - by rewrite Hn, (assoc_L (++)).
  - split; [done|apply Forall_app_2; auto].
  - cbn. lia.
Qed.

Lemma mail_ok_recv capacity l : mail_ok capacity l → mail_ok capacity (mail_call l CallRecv).
Proof.
  intros [Hc Hh Hn [Hl1 Hl2] [Hb1 Hb2]]. cbn. unfold recv.
  destruct (mb_high (ml_box l)) as [|e h] eqn:Eh.
  - destruct (mb_normal (ml_box l)) as [|e q] eqn:En.
    + destruct (mb_closed (ml_box l)); split; cbn; rewrite ?Eh, ?En; auto.
    + inversion Hl2 as [|? ? He Hq]; subst.
      split; cbn; rewrite ?lane_app, ?lane_one, ?He; cbn; rewrite ?app_nil_r in *; auto.
      * by rewrite Hn, <- (assoc_L (++)).
      * cbn in Hb2. lia.
  - inversion Hl1 as [|? ? He Hq]; subst.
    split; cbn; rewrite ?lane_app, ?lane_one, ?He; cbn; rewrite ?app_nil_r in *; auto.
    + by rewrite Hh, <- (assoc_L (++)).
    + cbn in Hb1. lia.
Qed.

Lemma mail_ok_call capacity l call : mail_ok capacity l → mail_ok capacity (mail_call l call).
Proof.
  destruct call as [e| |free]; [apply mail_ok_send|apply mail_ok_recv|].
  intros [Hc Hh Hn ? ?]. destruct free; by split.
Qed.

(** What the waiting loop does with the messages it finds. *)
Lemma await_reply_spec id mb fuel :
  (length (waiting mb) < fuel)%nat →
  ∃ p mb', await_reply fuel id mb = Some (p, mb') ∧ mb_closed mb' = mb_closed mb ∧
    match list_find (λ e, env_correlation_id e = Some id) (waiting mb) with
    | Some (i, msg) => p = Ready (Some msg) ∧ waiting mb' = drop (S i) (waiting mb)
    | None => p = (if mb_closed mb then Ready None else Pending) ∧ waiting mb' = []
    end.
Proof.
  revert mb. induction fuel as [|fuel IH]; intros mb Hlen; [lia|].
  pose proof (recv_spec mb) as Hr. cbn [await_reply]. destruct (waiting mb) as [|e l] eqn:Hw.
  - rewrite Hr. destruct (mb_closed mb) eqn:Hc; eexists _, _; (split; [done|]); by rewrite ?Hc.
  - destruct Hr as (mb' & -> & Hl & Hc & _). cbn [list_find].
    case_decide as He; [by eexists _, _; cbn; rewrite Hl, drop_0|].
    destruct (IH mb') as (p & mb'' & -> & Hc'' & Hs); [cbn in Hlen; rewrite Hl; lia|].
    rewrite Hl in Hs. exists p, mb''. split; [done|]. split; [congruence|].
    rewrite <- Hc. destruct (list_find _ l) as [[i msg]|]; cbn; auto.
Qed.

Lemma at_box_run r {A} (f : InProcessMailbox → A * InProcessMailbox) po n mb :
  po_boxes po !! r = Some mb → at_box r f po n = (Ok (f mb).1, set_box r (f mb).2 po, n).
Proof.
  intros Hr. unfold at_box, mbind, M_bind, get_state. rewrite Hr. done.
Qed.

Lemma set_box_same r mb po : po_boxes po !! r = Some mb → set_box r mb po = po.
Proof. intros Hr. unfold set_box. rewrite insert_id by done. by destruct po. Qed.

Lemma validate_known_supported schema :
  is_supported_cross_process schema = true → validate_known schema = inr tt.
Proof. intros Hs. unfold validate_known. by rewrite Hs. Qed.

Lemma route_at_delivers po n e now r mb :
  deliverable po e now r mb →
  route_at e now po n = (Ok (Delivered (env_id e)), set_box r (enqueued e mb) po, n).
Proof.
  intros (Hx & Hs & Ht & Hr & Ha). unfold route_at. rewrite Hx, validate_known_supported by done.
  cbn. unfold mbind, M_bind, get_state. rewrite Ht, (at_box_run _ _ _ _ mb) by done.
  destruct (send_spec e mb) as [[_ ->]|[? _]]; done.
Qed.

Lemma route_at_refuses po n e now :
  post_wf po → (∀ r mb, ¬ deliverable po e now r mb) →
  ∃ receipt, route_at e now po n = (Ok receipt, po, n) ∧ is_ok receipt = false.
Proof.
  intros Hwf Hno. unfold route_at. destruct (is_expired_at e now) eqn:Hx; [by eexists|].
  unfold validate_known. destruct (is_supported_cross_process (env_schema e)) eqn:Hs; [|by eexists].
  unfold mbind, M_bind, get_state. destruct (po_mailboxes po !! env_target e) as [r|] eqn:Ht;
    [|by eexists]. destruct (Hwf _ _ Ht) as [mb Hmb]. rewrite (at_box_run _ _ _ _ mb) by done.
  destruct (send_spec e mb) as [[Ha _]|[_ [reason ->]]]; [by destruct (Hno r mb)|].
  exists (Rejected (env_id e) reason). cbn. by rewrite set_box_same.
Qed.

Lemma deliverable_or_not po e now :
  (∃ r mb, deliverable po e now r mb) ∨ ∀ r mb, ¬ deliverable po e now r mb.
Proof.
  unfold deliverable. destruct (is_expired_at e now); [right; by intros ?? (?&?)|].
  destruct (is_supported_cross_process _); [|right; by intros ?? (?&?&?)].
  destruct (po_mailboxes po !! _) as [r|]; [|right; by intros ?? (?&?&?&?)].
  destruct (po_boxes po !! r) as [mb|] eqn:Hr.
  - destruct (send_spec e mb) as [[Ha _]|[Ha _]]; [left; by exists r, mb|right].
    intros r' mb' (_ & _ & ? & ? & ?). simplify_eq. done.
  - right. intros r' mb' (_ & _ & ? & ? & _). simplify_eq.
Qed.

Lemma request_wait_sound `{Env} others id caller po n po' n' msg :
  request_wait others id caller po n = (Ok (Ready (Some msg)), po', n') →
  env_correlation_id msg = Some id.
Proof.
  revert po n. induction others as [|step others IH]; intros po n; [done|].
  cbn [request_wait]. unfold mbind at 1, M_bind at 1, modify. cbn beta iota.
  unfold mbind, M_bind. destruct (po_boxes (step po) !! caller) as [mb|] eqn:Hmb.
  2: { unfold at_box, mbind, M_bind, get_state. by rewrite Hmb. }
  rewrite (at_box_run _ _ _ _ mb) by done.
  destruct (await_reply_spec id mb (S (length (waiting mb)))) as (p & mb' & -> & _ & Hs); [lia|].
  cbn [default fst snd]. destruct p as [o|]; [|apply IH].
  intros [= -> _ _]. destruct (list_find _ _) as [[i msg']|] eqn:Hf.
  - destruct Hs as [[= ->] _]. by apply list_find_Some in Hf as (_ & ? & _).
  - destruct Hs as [Hp _]. by destruct (mb_closed mb).
Qed.

(** ** Theorems *)

(** C28. Exactly once and in order: after any sequence of sends, receives and
    closes of a mailbox, what each lane has handed out is an initial segment of what
    it has accepted, so no message is duplicated, invented or overtaken within its
    lane; while the mailbox is open the accepted messages are exactly the ones
    handed out followed by the ones still queued, so none is lost; a closed mailbox
    accepts nothing more.  The emergency lane never holds more than one message and
    the ordinary lane never more than the capacity, and a waiting emergency message
    is handed out first.  What a close means for the messages that wait is left
    open. *)
Theorem mailbox_exactly_once capacity calls :
  let l := mail_run capacity calls in
  (∀ high, lane high (ml_taken l) `prefix_of` lane high (ml_accepted l))
  ∧ (mb_closed (ml_box l) = false →
       lane true (ml_accepted l) = lane true (ml_taken l) ++ mb_high (ml_box l)
       ∧ lane false (ml_accepted l) = lane false (ml_taken l) ++ mb_normal (ml_box l))
  ∧ (mb_closed (ml_box l) = true → ∀ e, is_ok (send e (ml_box l)).1 = false ∧ (send e (ml_box l)).2 = ml_box l)
  ∧ ((length (mb_high (ml_box l)) ≤ 1)%nat ∧ (length (mb_normal (ml_box l)) ≤ capacity)%nat)
  ∧ (∀ e rest, mb_high (ml_box l) = e :: rest → (recv (ml_box l)).1 = Ready (Some e)).
Proof.
  assert (Hok : mail_ok capacity (mail_run capacity calls)).
  { unfold mail_run. generalize (mail_ok_start capacity). generalize (mail_start capacity).
    induction calls as [|call calls IH]; intros l Hl; [done|]. apply IH, mail_ok_call, Hl. }
  destruct Hok as [_ Hh Hn _ [? ?]]. cbn zeta. split_and!; try done.
  - intros []; [rewrite Hh|rewrite Hn]; by eexists.
  - intros Hc e. unfold send. by rewrite Hc.
  - intros e rest He. unfold recv. by rewrite He.
Qed.

(** A process signal always gets through: with the target registered and
    its mailbox open, the signal is delivered however full the ordinary lane is,
    as long as no earlier signal is pending, and it is the next message the
    process receives; the ordinary messages stay where they were. *)
Theorem signal_bypasses_full_queue `{Env} signal_json target signal po n r mb :
  po_mailboxes po !! target = Some r → po_boxes po !! r = Some mb →
  mb_closed mb = false → mb_high mb = [] →
  ∃ e mb', signal_process signal_json target signal po n
             = (Ok (Delivered (env_id e)), set_box r mb' po, n + 1 + 1)
           ∧ env_schema e = PROCESS_SIGNAL_V1 ∧ env_payload e = signal_json signal
           ∧ recv mb' = (Ready (Some e), mb).
Proof.
  intros Ht Hr Hc Hh. eexists (with_priority 255 _), _. split; [|split; [|split]].
  - unfold signal_process, envelope_new, route, read_mono, new_uuid, tick, mbind, M_bind, mret, M_ret.
    apply route_at_delivers. split; [done|]. split; [done|]. split; [exact Ht|].
    split; [exact Hr|]. split; [done|exact Hh].
  - done.
  - done.
  - unfold enqueued. cbn. rewrite Hh. unfold recv. cbn. unfold set_queues. cbn.
    f_equal. destruct mb. by cbn in *; subst.
Qed.

(** Routing on every branch: a message is delivered exactly when its
    deadline lies ahead, its schema is known, its target is registered and the
    mailbox there is open with room in the message's lane; then only that
    mailbox changes, by the message at the end of the lane.  On every other
    branch the receipt says so and nothing changes at all. *)
Theorem route_at_delivers_or_refuses po n e now :
  post_wf po →
  ∃ receipt po', route_at e now po n = (Ok receipt, po', n) ∧ post_wf po' ∧
    ((∃ r mb, deliverable po e now r mb ∧ receipt = Delivered (env_id e)
              ∧ po' = set_box r (enqueued e mb) po)
     ∨ ((∀ r mb, ¬ deliverable po e now r mb) ∧ is_ok receipt = false ∧ po' = po)).
Proof.
  intros Hwf.
  destruct (deliverable_or_not po e now) as [(r & mb & Hd)|Hno].
  - rewrite (route_at_delivers _ _ _ _ _ _ Hd). eexists _, _. split; [done|]. split; [|eauto 10].
    intros t r' Hr'. cbn in *. rewrite lookup_insert_is_Some. destruct (decide (r = r')); eauto.
  - destruct (route_at_refuses po n e now Hwf Hno) as (receipt & -> & Hf). eauto 10.
Qed.

(** The request loop: with what waits in the caller's mailbox it always
    comes to an end, returning the first message that answers the request (and
    dropping those before it), or, when there is none, waiting with an empty
    mailbox or reporting that it was closed; and whatever the other tasks do
    meanwhile, a message [request] returns does answer the request. *)
Theorem request_returns_the_reply `{Env} others e caller po n :
  (∀ mb, ∃ p mb', await_reply (S (length (waiting mb))) (env_id e) mb = Some (p, mb') ∧
     match list_find (λ m, env_correlation_id m = Some (env_id e)) (waiting mb) with
     | Some (i, msg) => p = Ready (Some msg) ∧ waiting mb' = drop (S i) (waiting mb)
     | None => p = (if mb_closed mb then Ready None else Pending) ∧ waiting mb' = []
     end)
  ∧ (∀ msg po' n', request others e caller po n = (Ok (Ready (Some msg)), po', n') →
       env_correlation_id msg = Some (env_id e)).
Proof.
  split.
  - intros mb. destruct (await_reply_spec (env_id e) mb (S (length (waiting mb))))
      as (p & mb' & Ha & _ & Hs); [lia|]. eauto.
  - intros msg po' n'. unfold request, mbind, M_bind.
    destruct (route e po n) as [[[receipt|?|] po1] n1]; try done.
    destruct (is_ok receipt); [apply request_wait_sound|done].
Qed.

End Data.

(** ** Concrete runs *)

Definition sample_envelope (priority : N) : EnvelopeV2 (Json := unit) :=
  {| env_id := 7; env_schema := TURN_EVENT_V1; env_source := "kernel"; env_target := "agent";
     env_pattern := Direct; env_operation_id := None; env_causation_id := None;
     env_correlation_id := None; env_namespace := "process"; env_logical_time := 0;
     env_deadline := None; env_priority := priority; env_payload := tt |}.

(** A registered mailbox of capacity one whose ordinary lane is full. *)
Definition full_box : InProcessMailbox (Json := unit) := (send (sample_envelope 128) (with_capacity 1)).2.

Definition sample_post : PostOffice :=
  set_mailboxes (insert "agent" 5) (set_box 5 full_box post_new).

(** [close] marks the mailbox and leaves its messages to be received; a mailbox
    that was only unregistered still accepts messages from those who hold it. *)
Lemma close_keeps_pending : recv (close true full_box) = (Ready (Some (sample_envelope 128)), close true (with_capacity 1)).
Proof. reflexivity. Qed.

Lemma unregister_does_not_close :
  match unregister "agent" sample_post 0 with
  | (Ok (Some r), po, _) => mb_closed <$> po_boxes po !! r = Some false
  | _ => False
  end.
Proof. vm_compute. reflexivity. Qed.

Lemma signal_bypasses_full_queue_witness :
  is_ok (send (sample_envelope 128) full_box).1 = false ∧
  ∃ e mb', signal_process (H := sample_env) (λ _, tt) "agent" ProcessSignal.Kill sample_post 0
             = (Ok (Delivered (env_id e)), set_box 5 mb' sample_post, 0 + 1 + 1)
           ∧ env_schema e = PROCESS_SIGNAL_V1 ∧ env_payload e = tt
           ∧ recv mb' = (Ready (Some e), full_box).
Proof.
  split; [reflexivity|].
  exact (signal_bypasses_full_queue (H := sample_env) (λ _, tt) "agent" ProcessSignal.Kill
           sample_post 0 5 full_box eq_refl eq_refl eq_refl eq_refl).
Defined.

Lemma route_at_delivers_or_refuses_witness :
  ∃ receipt po', route_at (with_deadline 10 (sample_envelope 255)) 10 sample_post 0
                   = (Ok receipt, po', 0) ∧ is_ok receipt = false ∧ po' = sample_post.
Proof.
  assert (post_wf sample_post) as Hwf.
  { intros t r Hr. cbn in Hr. apply lookup_insert_Some in Hr as [[_ <-]|[_ Hr]];
      [by exists full_box|by rewrite lookup_empty in Hr]. }
  destruct (route_at_delivers_or_refuses sample_post 0
              (with_deadline 10 (sample_envelope 255)) 10 Hwf)
    as (receipt & po' & Heq & _ & [(r & mb & (Hx & _) & _)|(_ & Hf & ->)]); [by vm_compute in Hx|].
  by exists receipt, sample_post.
Defined.
