(* ===== verification/BudgetGrow.v ===== *)
(** * Budget scopes never disappear and never reopen

    Every call of the budget controller and of the admission controller on top of
    it keeps each scope with its parent, limit and reservation, and a closed
    scope closed.
    The kernel's cleanup relies on it: what it revoked stays revoked while it
    goes on. *)
From S2P Require Import Prelude FabricTypes Budget BudgetInv BudgetSpec BudgetPrincipal Lease Admission.
From S2P Require Import AdmissionInv.

Definition grows (st st' : BudgetState) : Prop :=
  ∀ x sc, scopes st !! x = Some sc → ∃ sc', scopes st' !! x = Some sc'
    ∧ sc_view sc' = sc_view sc ∧ sc_reservation_id sc' = sc_reservation_id sc
    ∧ (sc_closed sc = true → sc_closed sc' = true).

(** The same for a controller, which also keeps its mode. *)
Definition grows_ct (c c' : Controller) : Prop :=
  grows (ct_state c) (ct_state c') ∧ ct_durable c' = ct_durable c.

(** The same for the budget an admission controller is wired to. *)
Definition grows_adm (st st' : Production.State) : Prop :=
  match Production.budget st with
  | Some c => ∃ c', Production.budget st' = Some c' ∧ grows_ct c c'
  | None => Production.budget st' = None
  end.

(** What a reservation through the controller leaves behind; in memory it fails
    only when the parent cannot take the child. *)
Definition reserved_by `{Env} (c : Controller) (n : N) (parent : BudgetScopeId) (kind : BudgetScopeKind.t)
    (request : BudgetRequest) (r : Result AdmissionError.t BudgetReservationReceipt)
    (c' : Controller) : Prop :=
  match r with
  | Ok receipt => ¬ drawn n (br_scope_id receipt)
      ∧ (∃ sc, scopes (ct_state c') !! br_scope_id receipt = Some sc ∧ parent_of sc = Some parent)
      ∧ (∃ psc, scopes (ct_state c) !! parent = Some psc
           ∧ BudgetScopeKind.accepts_child (kind_of psc) kind = true)
  | Err _ => ct_durable c = false → ∀ psc, scopes (ct_state c) !! parent = Some psc →
      sc_closed psc || negb (BudgetScopeKind.accepts_child (kind_of psc) kind)
      || negb (can_afford (sc_remaining psc) request) = true
  | Panic => False
  end.

Lemma grows_refl st : grows st st.
Proof. intros x sc Hx. eauto. Qed.

Lemma grows_trans st1 st2 st3 : grows st1 st2 → grows st2 st3 → grows st1 st3.
Proof.
  intros H12 H23 x sc Hx. destruct (H12 _ _ Hx) as (sc2 & Hx2 & Hp2 & Hk2 & Hc2).
  destruct (H23 _ _ Hx2) as (sc3 & Hx3 & Hp3 & Hk3 & Hc3). exists sc3.
  split_and!; [done|congruence|congruence|auto].
Qed.

Lemma grows_same st st' : scopes st' = scopes st → grows st st'.
Proof. intros Heq x sc Hx. rewrite Heq. eauto. Qed.

Lemma grows_insert st st' x sc sc' :
  grows st st' → scopes st !! x = Some sc → sc_view sc' = sc_view sc → sc_reservation_id sc' = sc_reservation_id sc →
  (sc_closed sc = true → sc_closed sc' = true) → grows st (with_scopes (insert x sc') st').
Proof.
  intros Hg Hx Hp Hk Hc y ysc Hy. cbn. destruct (decide (x = y)) as [<-|Hne].
  - rewrite lookup_insert_eq. simplify_eq. eauto.
  - rewrite lookup_insert_ne by done. by apply Hg.
Qed.

Lemma grows_fresh st st' x sc :
  grows st st' → scopes st !! x = None → grows st (with_scopes (insert x sc) st').
Proof. intros Hg Hx y ysc Hy. cbn. rewrite lookup_insert_ne; [by apply Hg|congruence]. Qed.

Lemma grows_ct_refl c : grows_ct c c.
Proof. split; [apply grows_refl|done]. Qed.

Lemma grows_adm_refl st : grows_adm st st.
Proof.
  unfold grows_adm. destruct (Production.budget st) as [c|]; [|done]. eauto using grows_ct_refl.
Qed.

Lemma grows_adm_trans st1 st2 st3 : grows_adm st1 st2 → grows_adm st2 st3 → grows_adm st1 st3.
Proof.
  unfold grows_adm. destruct (Production.budget st1) as [c1|].
  - intros (c2 & -> & [Hg2 Hd2]) (c3 & -> & [Hg3 Hd3]). exists c3. split; [done|].
    split; [by eapply grows_trans|congruence].
  - by intros ->.
Qed.

Section Locked.
Context `{HEnv : Env} {HOk : EnvOk} (R : Fate) (tree : bool).
Abbreviation B := (M BudgetState AdmissionError.t).

(** [m] keeps the invariant and the scopes. *)
Definition grow {A} (m : B A) : Prop := keeps R tree m ∧
  ∀ st n, inv R tree st n → wp m (λ _ st' _, grows st st') st n.

Lemma grow_pure {A} (m : B A) : keeps R tree m → (∀ st n, ∃ r n', m st n = (r, st, n')) → grow m.
Proof.
  intros Hk Hm. split; [done|]. intros st n _. unfold wp. destruct (Hm st n) as (r & n' & ->).
  apply grows_refl.
Qed.

Lemma grow_ret {A} (a : A) : grow (mret a : B A).
Proof. apply grow_pure; [apply keeps_ret|]. intros. by eexists _, _. Qed.

Lemma grow_get : grow (get_state : B BudgetState).
Proof. apply grow_pure; [apply keeps_get|]. intros. by eexists _, _. Qed.

Lemma grow_ok_or {A} (o : option A) e : grow (ok_or o e : B A).
Proof. apply grow_pure; [apply keeps_ok_or|]. intros. destruct o; by eexists _, _. Qed.

Lemma grow_bind {A C} (m : B A) (k : A → B C) : grow m → (∀ a, grow (k a)) → grow (m ≫= k).
Proof.
  intros [Hm Hg] Hk. split; [apply keeps_bind; [done|]; intros a; apply Hk|].
  intros st n Hi. apply wp_bind. pose proof (Hm st n Hi) as Hm'. specialize (Hg st n Hi).
  unfold wp in Hm', Hg |- *. destruct (m st n) as [[[a|e|] st1] n1]; [|done|done].
  destruct Hm' as (Hi1 & _). destruct (Hk a) as [_ Hka]. specialize (Hka st1 n1 Hi1).
  unfold wp in Hka. destruct (k a st1 n1) as [[r st2] n2]. by eapply grows_trans.
Qed.

Lemma grow_ignore {A} (m : B A) : grow m → grow (ignore m).
Proof.
  intros [Hm Hg]. split; [by apply keeps_ignore|]. intros st n Hi. apply wp_ignore.
  eapply wp_mono; [by apply Hg|]. by intros [] st' n'.
Qed.

Lemma grow_for_each {A} (l : list A) (body : A → B unit) :
  (∀ x, grow (body x)) → grow (for_each l body).
Proof.
  intros Hb. induction l as [|x l IH]; [apply grow_ret|]. cbn. by apply grow_bind.
Qed.

Lemma grow_index (f : BudgetState → BudgetState) :
  keeps R tree (modify f) → (∀ st, scopes (f st) = scopes st) → grow (modify f).
Proof. intros Hk Hf. split; [done|]. intros st n _. wp_step. by apply grows_same. Qed.

Lemma grow_create_root owner limit : u64_request limit → grow (create_root_locked owner limit).
Proof.
  intros Hu. split; [by apply keeps_create_root|]. intros st n Hi. unfold create_root_locked. wp_steps.
  apply grows_fresh; [apply grows_refl|].
  eapply linked_scope_fresh; [by eapply wf_linked, inv_wf|apply drawn_fresh].
Qed.

Lemma grow_reserve_child parent kind owner request :
  u64_request request → grow (reserve_child_locked parent kind owner request).
Proof.
  intros Hu. split; [by apply keeps_reserve_child|]. intros st n Hi. unfold wp.
  destruct (reserve_child_locked_cases st n parent kind owner request)
    as [(psc & Hp & _ & _ & _ & ->)| ->]; [|apply grows_refl].
  apply (grows_trans _ (with_scopes (insert parent (set_remaining psc
           (subtract (sc_remaining psc) request))) st)).
  - by eapply grows_insert; [apply grows_refl|..].
  - intros x sc Hx. cbn. rewrite lookup_insert_ne; [eauto|]. intros <-.
    assert (scopes st !! uuid_v4 n = None) as Hnone.
    { eapply linked_scope_fresh; [by eapply wf_linked, inv_wf|apply drawn_fresh]. }
    cbn in Hx. apply lookup_insert_Some in Hx as [[-> _]|[_ Hx]]; congruence.
Qed.

Lemma grow_close r usage : grow (close_locked r usage).
Proof.
  split; [apply keeps_close|]. intros st n _. unfold wp.
  destruct (close_locked_cases st n r usage)
    as [(k & sc & p & _ & Hk & _ & _ & _ & ->)|[(e & -> & _)|(k & sc & _ & Hk & _ & ->)]].
  - assert (Hg : grows st (with_scopes (insert k (set_closed sc)) st))
      by (eapply grows_insert; [apply grows_refl|..]; done).
    destruct (scopes (with_scopes _ st) !! p) as [psc|] eqn:Hp; [|done].
    eapply grows_trans; [exact Hg|]. unfold closed_state.
    eapply (grows_trans _ (with_scopes (insert p (set_remaining psc (add (sc_remaining psc)
              (returned_of sc usage)))) (with_scopes (insert k (set_closed sc)) st))).
    + by eapply grows_insert; [apply grows_refl|..].
    + by apply grows_same.
  - apply grows_refl.
  - eapply grows_insert; [apply grows_refl|..]; done.
Qed.

End Locked.

(** ** The composite calls *)

Section Calls.
Context `{HEnv : Env} {HOk : EnvOk} (R : Fate) (tree : bool).

Lemma grow_close_legacy r usage : grow R tree (close_legacy r usage).
Proof.
  apply grow_bind; [apply grow_get|]. intros st. destruct (legacy_chains st !! r) as [chain|].
  - apply grow_bind; [apply grow_index; [apply keeps_chain_delete|done]|]. intros _.
    apply grow_for_each. intros x. apply grow_ignore, grow_close.
  - apply grow_ignore, grow_close.
Qed.

Lemma grow_revoke_scope_tree s : grow R tree (revoke_scope_tree s).
Proof.
  split; [apply keeps_revoke_scope_tree|]. intros st n Hi. unfold revoke_scope_tree.
  apply wp_bind. wp_step. destruct (scopes st !! s) as [sc|] eqn:Hs; [|apply grows_refl].
  destruct (sc_closed sc); [apply grows_refl|]. apply wp_bind. wp_step.
  destruct (descendants_ok st n (wf_linked _ _ (inv_wf _ _ _ _ Hi)) n stack_depth s sc Hs)
    as (L & HL & _); [unfold stack_depth; lia|].
  rewrite HL. cbn. apply wp_bind, wp_ret. eapply (grow_for_each R tree _ revoke_one).
  - intros x. apply grow_bind; [apply grow_get|]. intros st1.
    destruct (reservation_of st1 x); [apply grow_close|apply grow_ret].
  - eapply inv_mono; [|done]. lia.
Qed.

Lemma grow_principal_root principal : grow R tree (principal_root principal).
Proof.
  apply grow_bind; [apply grow_get|]. intros st. destruct (principal_roots st !! principal); [apply grow_ret|].
  apply grow_bind; [apply grow_create_root, unlimited_u64|]. intros root.
  apply grow_bind; [apply grow_index; [by apply keeps_index|done]|]. intros _. apply grow_ret.
Qed.

Lemma grow_reserve principal request : u64_request request → grow R tree (Budget.reserve principal request).
Proof.
  intros Hu. split; [by apply keeps_reserve|]. intros st n Hi. unfold Budget.reserve.
  assert (Hnew : ∀ {A} (m : M BudgetState AdmissionError.t A) st1 n1 Q,
            grow R tree m → inv R tree st1 n1 → grows st st1 →
            (∀ r st2 n2, inv R tree st2 n2 → grows st st2 → match r with Ok a => Q (Ok a) st2 n2
                         | Err e => grows st st2 → Q (Err e) st2 n2 | Panic => Q Panic st2 n2 end) →
            wp m Q st1 n1).
  { intros A m st1 n1 Q [Hm Hg] Hi1 Hg1 HQ. specialize (Hm _ _ Hi1). specialize (Hg _ _ Hi1).
    unfold wp in *. destruct (m st1 n1) as [[r st2] n2]. destruct Hm as (Hi2 & _ & _).
    pose proof (grows_trans _ _ _ Hg1 Hg) as Hg2. specialize (HQ r st2 n2 Hi2 Hg2).
    destruct r; auto. }
  apply wp_bind. eapply Hnew; [apply grow_principal_root|exact Hi|apply grows_refl|].
  intros [root|e|] st1 n1 Hi1 Hg1; [|done|done].
  apply wp_bind. eapply Hnew; [by apply grow_reserve_child|exact Hi1|exact Hg1|].
  intros [process|e|] st2 n2 Hi2 Hg2; [|done|done].
  apply wp_bind. eapply Hnew; [by apply grow_reserve_child|exact Hi2|exact Hg2|].
  intros [operation|e|] st3 n3 Hi3 Hg3; [|done|done].
  apply wp_bind. eapply Hnew; [by apply grow_reserve_child|exact Hi3|exact Hg3|].
  intros [capability|e|] st4 n4 Hi4 Hg4; [|done|done].
  apply wp_bind, wp_modify, wp_ret. eapply grows_trans; [exact Hg4|]. by apply grows_same.
Qed.

Lemma grow_reserve_capability op permit request :
  u64_request request → grow R tree (reserve_capability_for_operation op permit request).
Proof.
  intros. apply grow_bind; [apply grow_get|]. intros st.
  apply grow_bind; [apply grow_ok_or|]. intros p. by apply grow_reserve_child.
Qed.

(** A call of the controller, whatever the disk does. *)
Lemma wp_locked_grow {A} (m : M BudgetState AdmissionError.t A) c n Q :
  grow R tree m → inv R tree (ct_state c) n →
  (∀ r st' n', inv R tree st' n' → n ≤ n' → r ≠ Panic → grows (ct_state c) st' →
     m (ct_state c) n = (r, st', n') → Q r (set_state st' c) n') →
  wp (locked m) Q c n.
Proof.
  intros [Hm Hg] Hi HQ. apply wp_zoom. specialize (Hm _ _ Hi). specialize (Hg _ _ Hi). unfold wp in *.
  destruct (m (ct_state c) n) as [[r st'] n'] eqn:Hrun. destruct Hm as (? & ? & ?). by apply HQ.
Qed.

Lemma create_root_adds owner limit c n :
  inv R tree (ct_state c) n → u64_request limit →
  wp (create_root owner limit) (λ r c' n', inv R tree (ct_state c') n' ∧ n ≤ n' ∧ grows_ct c c'
    ∧ (∀ e, r ≠ Err e) ∧ (r = Panic → ct_durable c = true)
    ∧ ∀ id, r = Ok id →
        scopes (ct_state c') !! id = Some (mk_scope id None BudgetScopeKind.Rollout owner limit None)) c n.
Proof.
  intros Hi Hu. unfold create_root. apply wp_bind.
  eapply wp_locked_grow; [by apply grow_create_root|done|].
  intros r st' n' Hi' Hn _ Hg Hrun. unfold create_root_locked in Hrun. cbn in Hrun.
  injection Hrun as <- <- <-.
  apply wp_bind. wp_step. unfold persist. apply wp_bind, wp_get. cbv beta iota. cbn [ct_durable set_state].
  assert (Hi2 : ∀ n2, n + 1 ≤ n2 → inv R tree (with_scopes (insert (uuid_v4 n)
            (mk_scope (uuid_v4 n) None BudgetScopeKind.Rollout owner limit None)) (ct_state c)) n2)
    by (intros n2 Hn2; eapply inv_mono; [exact Hn2|exact Hi']).
  destruct (ct_durable c) eqn:Hd.
  - apply wp_bind, wp_read_io. cbv beta iota. destruct (persist_io (n + 1));
      wp_steps; (split; [apply Hi2; lia|split; [lia|]]); (split; [split; done|]); (split; [done|]);
      (split; [done|]); [|done|done].
    intros id [= <-]. apply lookup_insert_eq.
  - wp_steps. split; [apply Hi2; lia|]. split; [lia|]. split; [split; done|]. split; [done|]. split; [done|].
    intros id [= <-]. apply lookup_insert_eq.
Qed.

Lemma create_root_grows owner limit c n :
  inv R tree (ct_state c) n → u64_request limit →
  wp (create_root owner limit) (λ r c' n', inv R tree (ct_state c') n' ∧ n ≤ n' ∧ grows_ct c c'
    ∧ (∀ e, r ≠ Err e) ∧ (r = Panic → ct_durable c = true)
    ∧ ∀ id, r = Ok id → ∃ sc, scopes (ct_state c') !! id = Some sc
        ∧ sc_closed sc = false ∧ kind_of sc = BudgetScopeKind.Rollout
        ∧ sc_remaining sc = from_request limit) c n.
Proof.
  intros Hi Hu. eapply wp_mono; [by apply create_root_adds|]. intros r c' n' (? & ? & ? & ? & ? & Hadd).
  split_and!; [done..|]. intros id Hr. eexists. split; [by apply Hadd|done].
Qed.

Lemma persist_memory before c n :
  ct_durable c = false → persist_or_restore before c n = (Ok tt, c, n).
Proof.
  intros Hd. unfold persist_or_restore, try_, persist, mbind, M_bind, get_state. by rewrite Hd.
Qed.

Lemma reserve_child_grows parent kind owner request c n :
  inv R tree (ct_state c) n → u64_request request →
  wp (reserve_child parent kind owner request) (λ r c' n',
    inv R tree (ct_state c') n' ∧ n ≤ n' ∧ grows_ct c c' ∧ reserved_by c n parent kind request r c') c n.
Proof.
  intros Hi Hu. unfold reserve_child. apply wp_bind. wp_step. apply wp_bind.
  eapply wp_locked_grow; [by apply grow_reserve_child|done|].
  intros r st' n' Hi' Hn Hp Hg Hrun.
  destruct (reserve_child_locked_cases (ct_state c) n parent kind owner request)
    as [(psc & Hpp & Hopen & Ha & _ & Heq)|Heq]; pose proof Hrun as Hrun'; rewrite Heq in Hrun';
    injection Hrun' as <- <- <-.
  - assert (Hok : ∀ c' n', n + 1 + 1 ≤ n' → ct_durable c' = ct_durable c →
              ct_state c' = reserved_state (ct_state c) n parent psc kind owner request →
              inv R tree (ct_state c') n' ∧ n ≤ n' ∧ grows_ct c c' ∧ reserved_by c n parent kind request
                (Ok {| br_reservation_id := uuid_v4 (n + 1); br_scope_id := uuid_v4 n;
                       br_parent_scope_id := parent; br_request := request |}) c').
    { intros c' n' Hn' Hd Hst. unfold grows_ct, reserved_by. rewrite Hst. split_and!; try done; [|lia|..].
      - eapply inv_mono; [|exact Hi']. lia.
      - apply drawn_fresh.
      - cbn. rewrite lookup_insert_eq. eauto.
      - eauto. }
    destruct (ct_durable c) eqn:Hd.
    2: { unfold wp, mbind, M_bind. rewrite persist_memory by done. apply Hok; [lia|done|done]. }
    apply wp_bind, wp_persist_or_restore. intros [[]|e|] d st2 n2 Hn2 Hres; [| |done].
    + destruct Hres as [-> _]. wp_step. apply Hok; [lia|done|done].
    + cbn in *. subst st2. split_and!; [|lia|split; [apply grows_refl|done]|congruence].
      eapply inv_mono; [|exact Hi]. lia.
  - cbn. split_and!; [done|lia|split; [apply grows_refl|done]|]. intros _ psc Hpsc.
    clear Heq. unfold reserve_child_locked, mbind, M_bind, get_state, ok_or in Hrun.
    rewrite Hpsc in Hrun. cbn in Hrun. by destruct (sc_closed psc || _ || _).
Qed.

(** Settling ([Some usage]) and revoking a reservation through the controller. *)
Lemma close_reservation_grows r usage c n :
  inv R tree (ct_state c) n →
  wp (c ← get_state; locked (close_locked r usage) ;; persist_or_restore (ct_state c))
    (λ res c' n', inv R tree (ct_state c') n' ∧ n ≤ n' ∧ grows_ct c c' ∧ res ≠ Panic) c n.
Proof.
  intros Hi. apply wp_bind. wp_step. apply wp_bind. eapply wp_locked_grow; [apply grow_close|done|].
  intros res st' n' Hi' Hn Hp Hg _. destruct res as [[]|e|]; [|by split_and!|done].
  apply wp_persist_or_restore. intros [[]|e|] d st2 n2 Hn2 Hres; [| |done].
  - destruct Hres as [-> _]. split_and!; [|lia|by split|done]. eapply inv_mono; [|exact Hi']. done.
  - subst st2. split_and!; [|lia|split; [apply grows_refl|done]|done].
    eapply inv_mono; [|exact Hi]. lia.
Qed.

Lemma grow_transfer child parent usage : tree = false → grow R tree (transfer_locked child parent usage).
Proof.
  intros Ht. split; [by apply keeps_transfer|]. intros st n Hi. unfold wp.
  destruct (transfer_locked_linked st n child parent usage (wf_linked _ _ (inv_wf _ _ _ _ Hi)))
    as [(k & q & sc & qsc & _ & _ & _ & Hk & _ & Hq & _ & Hne & _ & ->)|[(rc & _ & _ & ->)|(e & ->)]];
    [|apply grows_refl..].
  eapply (grows_trans _ (with_scopes (insert q (set_remaining qsc (add (sc_remaining qsc)
            (returned_of sc (Some usage))))) (with_scopes (insert k (set_closed sc)) st)));
    [|by apply grows_same].
  apply (grows_insert st _ q qsc); try done. by apply (grows_insert st st k sc); [apply grows_refl|..].
Qed.

Lemma transfer_grows child parent usage c n :
  inv R tree (ct_state c) n → tree = false →
  wp (transfer_remaining_reservation child parent usage)
    (λ res c' n', inv R tree (ct_state c') n' ∧ n ≤ n' ∧ grows_ct c c' ∧ res ≠ Panic) c n.
Proof.
  intros Hi Ht. apply wp_transferred. destruct (grow_transfer child parent usage Ht) as [Hk Hg].
  specialize (Hk _ _ Hi). specialize (Hg _ _ Hi). unfold wp in Hk, Hg.
  destruct (transfer_locked _ _ _ _ _) as [[[[[] receipt]|e|] st1] n1]; destruct Hk as (Hi1 & Hn1 & Hp);
    [by split_and!| |by split_and!|done].
  intros [[]|e|] d st' n' Hn' Hres; [destruct Hres as [-> _]|subst st'|done]; (split_and!; [|lia| |done]).
  - eapply inv_mono; [|exact Hi1]. done.
  - by split.
  - eapply inv_mono; [|exact Hi]. lia.
  - split; [apply grows_refl|done].
Qed.

Lemma grow_set_budget principal t c :
  u64_request {| max_tokens := t; max_cost_micro := c |} → grow R tree (set_budget principal t c).
Proof.
  intros Hu. apply grow_bind; [by apply grow_create_root|]. intros root.
  apply grow_index; [by apply keeps_index|done].
Qed.

(** Every call of the controller. *)
Lemma run_call_grows call c n :
  inv R tree (ct_state c) n → u64_request (call_request call) →
  (is_transfer call = true → tree = false) →
  wp (run_call call) (λ _ c' _, grows (ct_state c) (ct_state c')) c n.
Proof.
  intros Hi Hu Ht. set (Q := λ (_ : Result AdmissionError.t unit) c' (_ : N), grows (ct_state c) (ct_state c')).
  assert (Hvoid : ∀ A (m : M Controller AdmissionError.t A) (P : Result AdmissionError.t A → Controller → N → Prop),
            wp m P c n → (∀ r c' n', P r c' n' → grows (ct_state c) (ct_state c')) → wp (void m) Q c n).
  { intros A m P Hm HP. apply wp_bind. eapply wp_mono; [done|]. intros [a|e|] c' n' Hc'; by eapply HP. }
  assert (Hlocked : ∀ A (m : M BudgetState AdmissionError.t A),
            grow R tree m → wp (locked m) (λ _ c' _, grows (ct_state c) (ct_state c')) c n).
  { intros A m Hm. eapply wp_locked_grow; [done..|]. intros r st' n' _ _ _ Hg _. exact Hg. }
  assert (∀ r usage, wp (c ← get_state; locked (close_locked r usage) ;; persist_or_restore (ct_state c)) Q c n)
    as Hclose.
  { intros r usage. eapply wp_mono; [by apply close_reservation_grows|]. intros ??? (_ & _ & [Hg _] & _). exact Hg. }
  destruct call; cbn [run_call call_request is_transfer] in *; try apply Hclose;
    try (eapply Hvoid; [apply Hlocked|auto]); try apply Hlocked;
    auto using grow_revoke_scope_tree, grow_reserve_capability, grow_set_budget, grow_reserve, grow_close_legacy.
  - eapply Hvoid; [by apply create_root_grows|]. intros ??? (_ & _ & [Hg _] & _). exact Hg.
  - eapply Hvoid; [by apply reserve_child_grows|]. intros ??? (_ & _ & [Hg _] & _). exact Hg.
  - eapply Hvoid; [apply transfer_grows; auto|]. intros ??? (_ & _ & [Hg _] & _). exact Hg.
  - apply grow_index; [by apply keeps_index|done].
  - apply grow_close_legacy.
  - apply grow_close_legacy.
Qed.

End Calls.

(** ** The admission controller *)

Section AdmissionGrowth.
Context `{HEnv : Env} {HOk : EnvOk} {tree : bool}.
Import Production.

Lemma on_budget_grows c {X} (m : M BudgetState AdmissionError.t X) st n :
  adm_inv tree st n → budget st = Some c → grow (fates (active st)) tree m →
  wp (on_budget c m) (λ _ st' n', grows_adm st st') st n.
Proof.
  intros Hw Hc [_ Hg]. apply wp_on_budget. eapply wp_mono; [apply Hg; by eapply aw_budget|].
  intros r b n' Hb. unfold grows_adm. rewrite Hc. eexists. split; [done|]. by split.
Qed.

Lemma grows_adm_same st st' : budget st' = budget st → grows_adm st st'.
Proof. intros Heq. pose proof (grows_adm_refl st) as Hr. unfold grows_adm in *. by rewrite Heq. Qed.

Lemma give_back_grows st n record usage :
  adm_inv tree st n → wp (give_back record usage) (λ _ st' _, grows_adm st st') st n.
Proof.
  intros Hw. unfold give_back. do 2 wp_step. cbv beta iota. apply wp_bind.
  apply (wp_mono _ (λ _ st' _, grows_adm st st')).
  - destruct (budget st) as [c|] eqn:Hc; [|apply wp_ret, grows_adm_refl].
    destruct (rec_budget_reservation record) as [r|]; [|apply wp_ret, grows_adm_refl].
    eapply on_budget_grows; [done|done|]. destruct usage; apply grow_close_legacy.
  - intros [[]|e|] st1 n1 Hg; [|done|done].
    assert (Hsame : ∀ st2, budget st2 = budget st1 → grows_adm st st2)
      by (intros st2 H2; eapply grows_adm_trans; [exact Hg|by apply grows_adm_same]).
    destruct (lease_mgr st) as [l|]; [|by apply wp_ret, Hsame].
    destruct (rec_lease record); [|by apply wp_ret, Hsame].
    apply wp_on_leases. unfold wp. destruct (release _ _ _) as [[? ?] ?]. by apply Hsame.
Qed.

Lemma revoke_grows st n p reason :
  adm_inv tree st n → wp (revoke p reason) (λ _ st' _, grows_adm st st') st n.
Proof.
  intros Hw. unfold revoke. do 2 wp_step. cbv beta iota.
  destruct (decide (p ∈ settled st)); [apply wp_throw, grows_adm_refl|].
  apply wp_bind, wp_modify. cbv beta iota.
  destruct (active st !! p) as [record|] eqn:Hp; [|by apply wp_ret, grows_adm_same].
  eapply wp_mono; [apply (give_back_grows (with_active (delete p) st)); by apply adm_wf_delete|].
  intros r st' n' Hg. exact Hg.
Qed.

Lemma settle_grows st n p usage :
  adm_inv tree st n → wp (settle p usage) (λ _ st' _, grows_adm st st') st n.
Proof.
  intros Hw. unfold settle. do 2 wp_step. cbv beta iota. apply wp_bind, wp_modify. cbv beta iota.
  destruct (active st !! p) as [record|] eqn:Hp; [|by apply wp_throw, grows_adm_same].
  destruct (decide (p ∈ settled st)); [by apply wp_throw, grows_adm_same|].
  apply wp_bind, wp_modify. cbv beta iota.
  eapply wp_mono; [eapply (give_back_grows (with_settled (λ s, {[p]} ∪ s) (with_active (delete p) st)))|].
  - apply adm_wf_settled; [by apply adm_wf_delete|by eapply aw_active|apply lookup_delete_eq].
  - intros r st' n' Hg. exact Hg.
Qed.

Lemma revoke_all_grows st n owned :
  adm_inv tree st n → wp (revoke_all owned) (λ _ st' _, grows_adm st st') st n.
Proof.
  intros Hw. unfold revoke_all. do 2 wp_step. cbv beta iota. do 2 wp_step. cbv beta iota.
  apply (wp_for_each (λ _ st' n', adm_inv tree st' n' ∧ grows_adm st st')).
  - intros p l st1 n1 [Hw1 Hg1]. apply wp_ignore.
    pose proof (revoke_keeps st1 n1 p RevokeReason.OperationCancelled Hw1) as Hk.
    pose proof (revoke_grows st1 n1 p RevokeReason.OperationCancelled Hw1) as Hg.
    unfold wp in *. destruct (revoke p _ st1 n1) as [[r st2] n2]. destruct Hk as (Hr & _ & Hw2 & _).
    pose proof (grows_adm_trans _ _ _ Hg1 Hg). by destruct r.
  - by intros st1 n1 [_ Hg1].
  - split; [|apply grows_adm_refl]. eapply adm_wf_mono; [|exact Hw]. lia.
Qed.

Lemma reserve_budget_grows st n principal request permit :
  adm_inv tree st n → valid_request request →
  wp (reserve_budget principal request permit) (λ _ st' _, grows_adm st st') st n.
Proof.
  intros Hw Hv. unfold reserve_budget. do 2 wp_step. cbv beta iota.
  destruct (budget st) as [c|] eqn:Hc; [|apply wp_ret, grows_adm_refl].
  destruct (ar_budget request) as [b|] eqn:Hb; [|apply wp_ret, grows_adm_refl].
  apply wp_bind, wp_on_budget. apply wp_bind, wp_get, wp_ret. cbv beta iota.
  assert (with_budget (Some (set_state (ct_state c) c)) st = st) as ->.
  { unfold with_budget, set_state. destruct st, c. cbn in *. by subst. }
  apply wp_bind.
  apply (wp_mono _ (λ _ st' _, grows_adm st st')); [|intros [] st' n' Hg; exact Hg].
  destruct (bool_decide _).
  - apply wp_bind. eapply wp_mono; [eapply on_budget_grows; [done|done|]|].
    + by apply grow_reserve_capability, Hv.
    + intros [] st' n' Hg; exact Hg.
  - eapply on_budget_grows; [done|done|]. by apply grow_reserve, Hv.
Qed.

Lemma acquire_lease_grows st n principal request now o :
  adm_inv tree st n →
  wp (acquire_lease principal request now o) (λ _ st' _, grows_adm st st') st n.
Proof.
  intros Hw. unfold acquire_lease. do 2 wp_step. cbv beta iota.
  destruct (lease_mgr st) as [l|] eqn:Hl; [|apply wp_ret, grows_adm_refl].
  destruct (ar_lease request) as [lr|] eqn:Hlr; [|apply wp_ret, grows_adm_refl].
  apply wp_bind, wp_try, wp_on_leases. unfold wp at 1.
  destruct (acquire_cases l n principal lr now) as [[_ ->]|[_ ->]]; cbv beta iota;
    [|by apply wp_ret, grows_adm_same].
  assert (with_leases (Some l) st = st) as -> by (destruct st; cbn in *; by subst).
  apply wp_bind. apply (wp_mono _ (λ _ st' _, grows_adm st st')).
  - destruct (budget st) as [c|] eqn:Hc; [|apply wp_ret, grows_adm_refl].
    destruct o; [|apply wp_ret, grows_adm_refl].
    eapply on_budget_grows; [done|done|]. apply grow_close_legacy.
  - intros [] st' n' Hg; exact Hg.
Qed.

Lemma admit_grows st n request :
  adm_inv tree st n → valid_request request → wp (admit_ request) (λ _ st' _, grows_adm st st') st n.
Proof.
  intros Hw Hv. unfold admit_. apply wp_bind, wp_read_mono. cbv beta iota.
  apply wp_bind, wp_new_uuid. cbv beta iota zeta.
  assert (Hw2 : adm_inv tree st (n + 1 + 1)) by (eapply adm_wf_mono; [|exact Hw]; lia).
  apply wp_bind. pose proof (reserve_budget_spec st (n + 1 + 1) (ar_principal request) request
    (uuid_v4 (n + 1)) Hw2 Hv) as Hs.
  pose proof (reserve_budget_grows st (n + 1 + 1) (ar_principal request) request
    (uuid_v4 (n + 1)) Hw2 Hv) as Hg.
  unfold wp in Hs, Hg |- * at 1. destruct (reserve_budget _ _ _ st _) as [[[o|e|] st1] n1]; [|done|done].
  destruct Hs as (_ & _ & _ & Hw1 & _). apply wp_bind.
  eapply wp_mono; [by apply acquire_lease_grows|].
  intros r st2 n2 Hg2. pose proof (grows_adm_trans _ _ _ Hg Hg2) as Hg3.
  destruct r as [lease|e|]; [|done|done]. unfold sandbox_decision. apply wp_bind, wp_bind, wp_get.
  destruct (ar_sandbox request); [|destruct (sandbox_available st2)..]; wp_steps; exact Hg3.
Qed.

End AdmissionGrowth.
