(* ===== verification/Runtime.v ===== *)
(** * The kernel runtime (crates/kernel/src/runtime.rs)

    [KernelRuntime] composes the process table, the operation table, the
    supervisor, the mailbox registry, admission, budgets, leases and context
    spaces into one lifecycle: spawning, submitting, and above all the terminal
    transaction of a process.  The state holds the states of the components (the
    [Arc]s of the source); a component's method runs on its part.  The
    lifecycle mutex makes terminal transactions atomic with respect to each
    other, and each method here is one atomic step.  [faults] is the
    [LifecycleFaultInjector]; [no_faults] the one production uses. *)
From S2P Require Import Prelude FabricTypes Budget Lease Admission Space Process Operation.
From S2P Require Import Supervision Mailbox.
Import Production.

(** ** State *)

Record TerminalOutcome := {
  to_process : ProcessId;
  to_reason : ExitReason.t;
  to_restart_decision : RestartDecision;
  to_restarted : list ProcessId;
}.

Inductive TerminalPhase := PhCleanup | PhMarkTerminal | PhSupervise | PhRestart.

Record TerminalProgress := {
  tp_reason : ExitReason.t;
  tp_phase : TerminalPhase;
  tp_decision : option RestartDecision;
  tp_restart_ids : list ProcessId;
  tp_restarted : list ProcessId;
}.

Record IdentityRegistry := {
  by_agent : gmap AgentId ProcessIdentity;
  by_process : gmap ProcessId ProcessIdentity;
  generations : gmap AgentId N;
}.

Record BudgetOwnership := {
  own_rollouts : gmap string BudgetScopeId;
  own_process_rollouts : gmap ProcessId BudgetScopeId;
  own_processes : gmap ProcessId BudgetScopeId;
  own_operations : gmap OperationId BudgetScopeId;
  own_capabilities : gmap PermitId BudgetScopeId;
}.

(** An entry of the failure list of a connection cleanup; the error's text is
    not kept. *)
Inductive CleanupFailure :=
| FailedTerminate (id : ProcessId)
| FailedReap (id : ProcessId).

Inductive KernelError :=
| KProcess (e : ProcessError)
| KOperation (e : OperationError)
| KMail (e : string)
| KBudget (context : string) (e : AdmissionError.t)
| KFault (e : string)
| AgentAlreadyLive (agent : AgentId) (process : ProcessId)
| UnknownIdentity (process : ProcessId)
| AgentUnbound
| StaleGeneration
| OwnerTerminal
| ScopeMissing
| CleanupIncomplete (failures : list CleanupFailure).

Section Kernel.
Context `{HEnv : Env} {Json : Type}.

(** [k_admission] is the production controller with the budget and the leases it
    shares with the kernel; [k_production] tells whether it is the kernel's
    admission controller ([production_admission.is_some()]), or an external one
    was given to [with_admission]. *)
Record KernelRuntime := {
  k_processes : ProcessTable (Json := Json);
  k_operations : OperationTable;
  k_supervisor : SupervisorTree;
  k_mail : PostOffice (Json := Json);
  k_admission : Production.State;
  k_production : bool;
  k_ownership : BudgetOwnership;
  k_specs : gmap ProcessId SpawnSpec;
  k_mailboxes : gmap ProcessId Target;
  k_outcomes : gmap ProcessId TerminalOutcome;
  k_progress : gmap ProcessId TerminalProgress;
  k_identities : IdentityRegistry;
}.

Definition set_processes v (k : KernelRuntime) : KernelRuntime :=
  {| k_processes := v; k_operations := k_operations k; k_supervisor := k_supervisor k;
     k_mail := k_mail k; k_admission := k_admission k; k_production := k_production k;
     k_ownership := k_ownership k; k_specs := k_specs k; k_mailboxes := k_mailboxes k;
     k_outcomes := k_outcomes k; k_progress := k_progress k; k_identities := k_identities k |}.

Definition set_operations v (k : KernelRuntime) : KernelRuntime :=
  {| k_processes := k_processes k; k_operations := v; k_supervisor := k_supervisor k;
     k_mail := k_mail k; k_admission := k_admission k; k_production := k_production k;
     k_ownership := k_ownership k; k_specs := k_specs k; k_mailboxes := k_mailboxes k;
     k_outcomes := k_outcomes k; k_progress := k_progress k; k_identities := k_identities k |}.

Definition set_supervisor v (k : KernelRuntime) : KernelRuntime :=
  {| k_processes := k_processes k; k_operations := k_operations k; k_supervisor := v;
     k_mail := k_mail k; k_admission := k_admission k; k_production := k_production k;
     k_ownership := k_ownership k; k_specs := k_specs k; k_mailboxes := k_mailboxes k;
     k_outcomes := k_outcomes k; k_progress := k_progress k; k_identities := k_identities k |}.

Definition set_mail v (k : KernelRuntime) : KernelRuntime :=
  {| k_processes := k_processes k; k_operations := k_operations k; k_supervisor := k_supervisor k;
     k_mail := v; k_admission := k_admission k; k_production := k_production k;
     k_ownership := k_ownership k; k_specs := k_specs k; k_mailboxes := k_mailboxes k;
     k_outcomes := k_outcomes k; k_progress := k_progress k; k_identities := k_identities k |}.

Definition set_admission v (k : KernelRuntime) : KernelRuntime :=
  {| k_processes := k_processes k; k_operations := k_operations k; k_supervisor := k_supervisor k;
     k_mail := k_mail k; k_admission := v; k_production := k_production k;
     k_ownership := k_ownership k; k_specs := k_specs k; k_mailboxes := k_mailboxes k;
     k_outcomes := k_outcomes k; k_progress := k_progress k; k_identities := k_identities k |}.

Definition set_ownership v (k : KernelRuntime) : KernelRuntime :=
  {| k_processes := k_processes k; k_operations := k_operations k; k_supervisor := k_supervisor k;
     k_mail := k_mail k; k_admission := k_admission k; k_production := k_production k;
     k_ownership := v; k_specs := k_specs k; k_mailboxes := k_mailboxes k;
     k_outcomes := k_outcomes k; k_progress := k_progress k; k_identities := k_identities k |}.

Definition set_specs v (k : KernelRuntime) : KernelRuntime :=
  {| k_processes := k_processes k; k_operations := k_operations k; k_supervisor := k_supervisor k;
     k_mail := k_mail k; k_admission := k_admission k; k_production := k_production k;
     k_ownership := k_ownership k; k_specs := v; k_mailboxes := k_mailboxes k;
     k_outcomes := k_outcomes k; k_progress := k_progress k; k_identities := k_identities k |}.

Definition set_process_mailboxes v (k : KernelRuntime) : KernelRuntime :=
  {| k_processes := k_processes k; k_operations := k_operations k; k_supervisor := k_supervisor k;
     k_mail := k_mail k; k_admission := k_admission k; k_production := k_production k;
     k_ownership := k_ownership k; k_specs := k_specs k; k_mailboxes := v;
     k_outcomes := k_outcomes k; k_progress := k_progress k; k_identities := k_identities k |}.

Definition set_outcomes v (k : KernelRuntime) : KernelRuntime :=
  {| k_processes := k_processes k; k_operations := k_operations k; k_supervisor := k_supervisor k;
     k_mail := k_mail k; k_admission := k_admission k; k_production := k_production k;
     k_ownership := k_ownership k; k_specs := k_specs k; k_mailboxes := k_mailboxes k;
     k_outcomes := v; k_progress := k_progress k; k_identities := k_identities k |}.

Definition set_progress v (k : KernelRuntime) : KernelRuntime :=
  {| k_processes := k_processes k; k_operations := k_operations k; k_supervisor := k_supervisor k;
     k_mail := k_mail k; k_admission := k_admission k; k_production := k_production k;
     k_ownership := k_ownership k; k_specs := k_specs k; k_mailboxes := k_mailboxes k;
     k_outcomes := k_outcomes k; k_progress := v; k_identities := k_identities k |}.

Definition set_identities v (k : KernelRuntime) : KernelRuntime :=
  {| k_processes := k_processes k; k_operations := k_operations k; k_supervisor := k_supervisor k;
     k_mail := k_mail k; k_admission := k_admission k; k_production := k_production k;
     k_ownership := k_ownership k; k_specs := k_specs k; k_mailboxes := k_mailboxes k;
     k_outcomes := k_outcomes k; k_progress := k_progress k; k_identities := v |}.

Definition BudgetOwnership_default : BudgetOwnership :=
  {| own_rollouts := ∅; own_process_rollouts := ∅; own_processes := ∅; own_operations := ∅;
     own_capabilities := ∅ |}.

Definition IdentityRegistry_default : IdentityRegistry :=
  {| by_agent := ∅; by_process := ∅; generations := ∅ |}.

Definition with_components (admission : Production.State) (production : bool) : KernelRuntime :=
  {| k_processes := ProcessTable_new; k_operations := OperationTable_new;
     k_supervisor := SupervisorTree_new; k_mail := post_new; k_admission := admission;
     k_production := production; k_ownership := BudgetOwnership_default; k_specs := ∅;
     k_mailboxes := ∅; k_outcomes := ∅; k_progress := ∅; k_identities := IdentityRegistry_default |}.

Definition with_clock_and_budget (b : Controller) : KernelRuntime :=
  with_components
    (with_sandbox_available false (Production.with_leases (Some LeaseState_new)
       (Production.with_budget (Some b) Production.new))) true.

(** [with_clock] and [new]: an in-memory budget. *)
Definition with_clock : KernelRuntime := with_clock_and_budget new_controller.

(** [with_admission]: the kernel's own budget and leases beside an external
    admission controller. *)
Definition with_admission : KernelRuntime :=
  with_components (Production.with_leases (Some LeaseState_new)
                     (Production.with_budget (Some new_controller) Production.new)) false.

(** ** Running the components *)

Abbreviation K := (M KernelRuntime KernelError).
Abbreviation KA := (M KernelRuntime AdmissionError.t).

Definition on_processes {A} (m : M ProcessTable ProcessError A) : K A :=
  map_err KProcess (zoom k_processes set_processes m).

Definition on_operations {A} (m : M OperationTable OperationError A) : K A :=
  map_err KOperation (zoom k_operations set_operations m).

Definition on_mail {A} (m : M PostOffice string A) : K A :=
  map_err KMail (zoom k_mail set_mail m).

Definition on_spaces {E A} (m : M (gmap SpaceId (ContextSpace Json)) E A) : M KernelRuntime E A :=
  zoom (λ k, spaces (k_processes k)) (λ s k, set_processes (set_spaces s (k_processes k)) k) m.

Definition on_admission {A} (m : M Production.State AdmissionError.t A) : KA A :=
  zoom k_admission set_admission m.

(** The budget controller the kernel shares with admission. *)
Definition on_controller {A} (m : M Controller AdmissionError.t A) : KA A := λ k n,
  match Production.budget (k_admission k) with
  | Some c => match m c n with
              | (r, c', n') => (r, set_admission (Production.with_budget (Some c') (k_admission k)) k, n')
              end
  | None => (Panic, k, n)
  end.

Definition on_registry (f : IdentityRegistry → IdentityRegistry) : K unit :=
  modify (λ k, set_identities (f (k_identities k)) k).

(** ** Queries *)

Definition inspect_process (id : ProcessId) : K ProcessSnapshot := on_processes (Process.inspect id).

Definition wait_process (id : ProcessId) : K (option ExitStatus) := on_processes (Process.wait_poll id).

Definition inspect_operation (id : OperationId) : K OperationRecord :=
  on_operations (Operation.inspect id).

Definition identity_for_agent (k : KernelRuntime) (agent : AgentId) : option ProcessIdentity :=
  by_agent (k_identities k) !! agent.

Definition identity_for_process (k : KernelRuntime) (process : ProcessId) : option ProcessIdentity :=
  by_process (k_identities k) !! process.

Definition active_permits_for_process (k : KernelRuntime) (process : ProcessId) : nat :=
  if k_production k then active_for_process (k_admission k) process else 0%nat.

Definition active_space_count (k : KernelRuntime) : nat := space_count (spaces (k_processes k)).

Definition active_operation_count (i : N) (k : KernelRuntime) (process : ProcessId) : nat :=
  length (List.filter (λ op, match op_records (k_operations k) !! op with
                             | Some r => negb (OperationState.is_terminal (op_state r))
                             | None => false
                             end) (ids_for_owner i (k_operations k) process)).

(** ** Budgets and mailboxes *)

Definition register_process_mailbox (process : ProcessId) (target : Target) (mailbox : MailboxRef)
    : K unit :=
  inspect_process process ;;
  on_mail (register target mailbox) ;;
  modify (λ k, set_process_mailboxes (<[process := target]> (k_mailboxes k)) k).

Definition own (f : BudgetOwnership → BudgetOwnership) (k : KernelRuntime) : KernelRuntime :=
  set_ownership (f (k_ownership k)) k.

Definition own_rollout (rollout : string) (scope : BudgetScopeId) (o : BudgetOwnership) : BudgetOwnership :=
  {| own_rollouts := <[rollout := scope]> (own_rollouts o);
     own_process_rollouts := own_process_rollouts o; own_processes := own_processes o;
     own_operations := own_operations o; own_capabilities := own_capabilities o |}.

Definition own_process (process : ProcessId) (rollout scope : BudgetScopeId) (o : BudgetOwnership)
    : BudgetOwnership :=
  {| own_rollouts := own_rollouts o;
     own_process_rollouts := <[process := rollout]> (own_process_rollouts o);
     own_processes := <[process := scope]> (own_processes o);
     own_operations := own_operations o; own_capabilities := own_capabilities o |}.

Definition own_operation (operation : OperationId) (scope : BudgetScopeId) (o : BudgetOwnership)
    : BudgetOwnership :=
  {| own_rollouts := own_rollouts o; own_process_rollouts := own_process_rollouts o;
     own_processes := own_processes o;
     own_operations := <[operation := scope]> (own_operations o);
     own_capabilities := own_capabilities o |}.

Definition own_capability (permit : PermitId) (scope : BudgetScopeId) (o : BudgetOwnership)
    : BudgetOwnership :=
  {| own_rollouts := own_rollouts o; own_process_rollouts := own_process_rollouts o;
     own_processes := own_processes o; own_operations := own_operations o;
     own_capabilities := <[permit := scope]> (own_capabilities o) |}.

Definition disown_process (process : ProcessId) (o : BudgetOwnership) : BudgetOwnership :=
  {| own_rollouts := own_rollouts o;
     own_process_rollouts := delete process (own_process_rollouts o);
     own_processes := delete process (own_processes o);
     own_operations := own_operations o; own_capabilities := own_capabilities o |}.

Definition create_rollout_budget (rollout : string) (limit : BudgetRequest) : KA BudgetScopeId :=
  scope ← on_controller (create_root rollout limit);
  modify (own (own_rollout rollout scope)) ;;
  mret scope.

(** [self.inspect(id).await.map_err(|_| AdmissionError::BudgetExceeded)?] *)
Definition or_exceeded {A} (m : K A) : KA A := map_err (λ _, AdmissionError.BudgetExceeded) m.

Definition reserve_process_budget (rollout_scope : BudgetScopeId) (process : ProcessId)
    (request : BudgetRequest) : KA BudgetReservationReceipt :=
  or_exceeded (inspect_process process) ;;
  receipt ← on_controller (reserve_child rollout_scope BudgetScopeKind.Process
              ("process:" ++ uuid_display process) request);
  modify (own (own_process process rollout_scope (br_scope_id receipt))) ;;
  mret receipt.

(** The operation scope, reserved, bound for admission and recorded. *)
Definition bind_operation_budget (process_scope : BudgetScopeId) (operation : OperationId)
    (request : BudgetRequest) : KA BudgetReservationReceipt :=
  receipt ← on_controller (reserve_child process_scope BudgetScopeKind.Operation
              ("operation:" ++ uuid_display operation) request);
  on_controller (locked (bind_operation_scope operation (br_scope_id receipt))) ;;
  modify (own (own_operation operation (br_scope_id receipt))) ;;
  mret receipt.

Definition reserve_operation_budget (process_scope : BudgetScopeId) (operation : OperationId)
    (request : BudgetRequest) : KA BudgetReservationReceipt :=
  or_exceeded (inspect_operation operation) ;;
  bind_operation_budget process_scope operation request.

Definition reserve_capability_budget (operation_scope : BudgetScopeId) (permit : PermitId)
    (request : BudgetRequest) : KA BudgetReservationReceipt :=
  receipt ← on_controller (reserve_child operation_scope BudgetScopeKind.Capability
              ("permit:" ++ uuid_display permit) request);
  modify (own (own_capability permit (br_scope_id receipt))) ;;
  mret receipt.

Definition kernel_supervise (process : ProcessId) (policy : RestartPolicy) : K unit :=
  modify (λ k, set_supervisor (supervise process policy (k_supervisor k)) k).

(** ** Spawning *)

Definition record_identity (agent : AgentId) (process : ProcessId) (ids : IdentityRegistry)
    : IdentityRegistry :=
  let generation := saturating_add (default 0 (generations ids !! agent)) 1 in
  let identity := {| pi_agent_id := agent; pi_process_id := process; pi_generation := generation;
                     pi_os_pid := None |} in
  {| by_agent := <[agent := identity]> (by_agent ids);
     by_process := <[process := identity]> (by_process ids);
     generations := <[agent := generation]> (generations ids) |}.

(** The agent's recorded process, if it has one, must be terminal. *)
Definition ensure_agent_free (agent : AgentId) : K unit :=
  k ← get_state;
  match by_agent (k_identities k) !! agent with
  | Some existing =>
      snapshot ← inspect_process (pi_process_id existing);
      ensure (ProcessState.is_terminal (sn_state snapshot))
             (AgentAlreadyLive agent (pi_process_id existing))
  | None => mret tt
  end.

(** The rollout of the new process: its parent's, or a new unlimited one. *)
Definition spawn_rollout (spec : SpawnSpec) : K BudgetScopeId :=
  k ← get_state;
  match ss_parent spec ≫= λ parent, own_process_rollouts (k_ownership k) !! parent with
  | Some root => mret root
  | None => map_err (KBudget "root") (on_controller
              (create_root ("rollout:" ++ ss_namespace spec) unlimited))
  end.

(** What follows the check of [spawn_process]; the locks are taken anew. *)
Definition spawn_registering (spec : SpawnSpec) : K ProcessId :=
  process ← on_processes (Process.spawn spec);
  root ← spawn_rollout spec;
  process_budget ← map_err (KBudget "process budget allocation failed")
    (on_controller (reserve_child root BudgetScopeKind.Process
       ("process:" ++ uuid_display process) unlimited));
  modify (own (own_process process root (br_scope_id process_budget))) ;;
  modify (λ k, set_specs (<[process := spec]> (k_specs k)) k) ;;
  on_registry (record_identity (ss_agent_id spec) process) ;;
  mret process.

Definition spawn_process (spec : SpawnSpec) : K ProcessId :=
  ensure_agent_free (ss_agent_id spec) ;; spawn_registering spec.

Definition bind_os_process_id (process : ProcessId) (os_pid : OsProcessId) : K ProcessIdentity :=
  k ← get_state;
  identity ← ok_or (by_process (k_identities k) !! process) (UnknownIdentity process);
  current ← ok_or (by_agent (k_identities k) !! pi_agent_id identity) AgentUnbound;
  ensure (pi_process_id current =? process) StaleGeneration ;;
  let identity := {| pi_agent_id := pi_agent_id identity; pi_process_id := pi_process_id identity;
                     pi_generation := pi_generation identity; pi_os_pid := Some os_pid |} in
  on_registry (λ ids, {| by_agent := <[pi_agent_id identity := identity]> (by_agent ids);
                         by_process := <[process := identity]> (by_process ids);
                         generations := generations ids |}) ;;
  mret identity.

(** ** Operations *)

Definition submit_checked (owner : ProcessId) (submit : M OperationTable OperationError OperationId)
    : K OperationId :=
  snapshot ← inspect_process owner;
  ensure (negb (ProcessState.is_terminal (sn_state snapshot))) OwnerTerminal ;;
  operation ← on_operations submit;
  k ← get_state;
  process_scope ← ok_or (own_processes (k_ownership k) !! owner) ScopeMissing;
  map_err (KBudget "operation budget allocation failed")
    (bind_operation_budget process_scope operation unlimited) ;;
  mret operation.

Definition submit_operation (request : OperationRequest) : K OperationId :=
  submit_checked (oq_owner request) (Operation.submit request).

Definition submit_operation_with_id (id : OperationId) (request : OperationRequest) : K OperationId :=
  submit_checked (oq_owner request) (Operation.submit_with_id id request).

Definition start_operation (id : OperationId) : K unit := on_operations (Operation.start id).

Definition succeed_operation (id : OperationId) : K unit := on_operations (Operation.succeed id).

Definition fail_operation (id : OperationId) (message : string) : K unit :=
  on_operations (Operation.fail_ id message).

Definition panic_operation (id : OperationId) (message : string) : K unit :=
  on_operations (Operation.panic_ id message).

Definition cancel_operation (id : OperationId) (reason : CancelReason.t) : K unit :=
  on_operations (Operation.cancel id reason).

Definition kernel_set_active_operation (process : ProcessId) (operation : option OperationId) : K unit :=
  on_processes (Process.set_active_operation process operation).

(** ** Spaces *)

Definition upsert_space_binding (id : SpaceId) (binding : ContextBinding.t) : K unit :=
  on_spaces (upsert_binding id binding).

Definition set_space_overlay (id : SpaceId) (key : string) (value : Json) : K unit :=
  on_spaces (set_overlay id key value).

Definition release_space (id : SpaceId) : K bool := on_spaces (Space.release id).

(** ** The terminal transaction *)

Section Terminal.
Context (faults : N → ProcessId → option string).

Definition before_process_cleanup (id : ProcessId) : K unit :=
  n ← tick;
  match faults n id with
  | Some error => throw (KFault error)
  | None => mret tt
  end.

Definition cleanup_process_resources (id : ProcessId) : K unit :=
  before_process_cleanup id ;;
  snapshot ← inspect_process id;
  i ← tick;
  k ← get_state;
  for_each (ids_for_owner i (k_operations k) id)
    (λ operation, on_operations (Operation.cancel operation (CancelReason.Other "process_exit"))) ;;
  (if k_production k
   then map_err (KBudget "permits") (on_admission (revoke_process_permits id)) else mret tt) ;;
  k ← get_state;
  match own_processes (k_ownership k) !! id with
  | Some scope => map_err (KBudget "budget cleanup failed") (on_controller (locked (revoke_scope_tree scope)))
  | None => mret tt
  end ;;
  k ← get_state;
  match k_mailboxes k !! id with
  | Some target =>
      modify (λ k, set_process_mailboxes (delete id (k_mailboxes k)) k) ;;
      on_mail (unregister target) ;;
      mret tt
  | None => mret tt
  end ;;
  on_spaces (Space.release (sn_space snapshot)) ;;
  mret tt.

Definition set_phase (phase : TerminalPhase) (p : TerminalProgress) : TerminalProgress :=
  {| tp_reason := tp_reason p; tp_phase := phase; tp_decision := tp_decision p;
     tp_restart_ids := tp_restart_ids p; tp_restarted := tp_restarted p |}.

Definition push_restarted (replacement : ProcessId) (p : TerminalProgress) : TerminalProgress :=
  {| tp_reason := tp_reason p; tp_phase := tp_phase p; tp_decision := tp_decision p;
     tp_restart_ids := tp_restart_ids p; tp_restarted := tp_restarted p ++ [replacement] |}.

(** [self.terminal_progress.lock().await.get(&id).expect(..)], and its update. *)
Definition progress_of (id : ProcessId) : K TerminalProgress :=
  k ← get_state; expect (k_progress k !! id).

Definition update_progress (id : ProcessId) (f : TerminalProgress → TerminalProgress) : K unit :=
  p ← progress_of id;
  modify (λ k, set_progress (<[id := f p]> (k_progress k)) k).

Definition restart_ids_of (id : ProcessId) (decision : RestartDecision) : list ProcessId :=
  match decision with
  | Restart _ => [id]
  | RestartGroup _ siblings => id :: siblings
  | DoNotRestart | FailedLimitReached => []
  end.

(** The [Supervise] phase: the decision and the phase change in one step. *)
Definition supervise_exit (id : ProcessId) : K unit :=
  current ← progress_of id;
  k ← get_state;
  let '(decision, supervisor) := record_exit id (tp_reason current) (k_supervisor k) in
  modify (set_supervisor supervisor) ;;
  modify (λ k, set_progress (<[id :=
    {| tp_reason := tp_reason current; tp_phase := PhRestart; tp_decision := Some decision;
       tp_restart_ids := restart_ids_of id decision; tp_restarted := tp_restarted current |}]>
    (k_progress k)) k).

(** [if !inspect(id).state.is_terminal() { mark_exit(id, reason) }] *)
Definition ensure_exited (id : ProcessId) (reason : ExitReason.t) : K unit :=
  snapshot ← inspect_process id;
  if ProcessState.is_terminal (sn_state snapshot) then mret tt
  else on_processes (Process.mark_exit id reason).

(** The phase loop; it moves to a later phase each time, so four turns suffice. *)
Fixpoint terminal_phases (fuel : nat) (id : ProcessId) : K unit :=
  match fuel with
  | O => panic
  | S fuel =>
      progress ← progress_of id;
      match tp_phase progress with
      | PhCleanup =>
          cleanup_process_resources id ;;
          update_progress id (set_phase PhMarkTerminal) ;;
          terminal_phases fuel id
      | PhMarkTerminal =>
          ensure_exited id (tp_reason progress) ;;
          update_progress id (set_phase PhSupervise) ;;
          terminal_phases fuel id
      | PhSupervise => supervise_exit id ;; terminal_phases fuel id
      | PhRestart => mret tt
      end
  end.

(** One iteration of the restart loop. *)
Definition restart_one (id restart_id : ProcessId) : K unit :=
  (if restart_id =? id then mret tt
   else
     snapshot ← inspect_process restart_id;
     if ProcessState.is_terminal (sn_state snapshot) then mret tt
     else cleanup_process_resources restart_id ;;
          on_processes (Process.mark_exit restart_id (ExitReason.Cancelled "supervisor group restart"))) ;;
  k ← get_state;
  match k_specs k !! restart_id with
  | None => mret tt
  | Some spec =>
      replacement ← spawn_process spec;
      modify (λ k, set_supervisor (inherit_restart_lineage restart_id replacement (k_supervisor k)) k) ;;
      update_progress id (push_restarted replacement)
  end.

Definition first_progress (reason : ExitReason.t) : TerminalProgress :=
  {| tp_reason := reason; tp_phase := PhCleanup; tp_decision := None; tp_restart_ids := [];
     tp_restarted := [] |}.

Definition begin_progress (id : ProcessId) (reason : ExitReason.t) (k : KernelRuntime) : KernelRuntime :=
  match k_progress k !! id with
  | Some _ => k
  | None => set_progress (<[id := first_progress reason]> (k_progress k)) k
  end.

Definition publish_outcome (id : ProcessId) : K TerminalOutcome :=
  progress ← progress_of id;
  modify (λ k, set_progress (delete id (k_progress k)) k) ;;
  decision ← expect (tp_decision progress);
  let outcome := {| to_process := id; to_reason := tp_reason progress;
                    to_restart_decision := decision; to_restarted := tp_restarted progress |} in
  modify (λ k, set_outcomes (<[id := outcome]> (k_outcomes k)) k) ;;
  mret outcome.

Definition terminate_process (id : ProcessId) (reason : ExitReason.t) : K TerminalOutcome :=
  k ← get_state;
  match k_outcomes k !! id with
  | Some outcome => mret outcome
  | None =>
      modify (begin_progress id reason) ;;
      terminal_phases 4 id ;;
      progress ← progress_of id;
      for_each (drop (length (tp_restarted progress)) (tp_restart_ids progress)) (restart_one id) ;;
      publish_outcome id
  end.

Definition exit_process (id : ProcessId) (reason : ExitReason.t) : K unit :=
  terminate_process id reason ;; mret tt.

Definition signal_process (id : ProcessId) (signal : ProcessSignal.t) : K unit :=
  match signal with
  | ProcessSignal.Terminate => exit_process id (ExitReason.Cancelled "terminated")
  | ProcessSignal.Kill => exit_process id (ExitReason.Panic "killed")
  | other => on_processes (Process.signal id other)
  end.

(** ** Reaping and disconnection *)

Definition forget_identity (id : ProcessId) (agent : AgentId) (ids : IdentityRegistry)
    : IdentityRegistry :=
  {| by_agent := match by_agent ids !! agent with
                 | Some identity => if pi_process_id identity =? id then delete agent (by_agent ids)
                                    else by_agent ids
                 | None => by_agent ids
                 end;
     by_process := delete id (by_process ids); generations := generations ids |}.

Definition reap_process (id : ProcessId) : K ProcessRecord :=
  record ← on_processes (Process.reap id);
  modify (λ k, set_specs (delete id (k_specs k)) k) ;;
  modify (λ k, set_progress (delete id (k_progress k)) k) ;;
  modify (λ k, set_outcomes (delete id (k_outcomes k)) k) ;;
  modify (own (disown_process id)) ;;
  on_registry (forget_identity id (pr_agent_id record)) ;;
  mret record.

(** The loop of [cleanup_disconnected_connection]: the reaped processes and the
    failures, in order. *)
Fixpoint disconnect_loop (ids : list ProcessId) : K (list ProcessId * list CleanupFailure) :=
  match ids with
  | [] => mret ([], [])
  | id :: ids =>
      terminated ← try_ (terminate_process id (ExitReason.Cancelled "owning connection disconnected"));
      match terminated with
      | inl _ => '(reaped, failures) ← disconnect_loop ids; mret (reaped, FailedTerminate id :: failures)
      | inr _ =>
          r ← try_ (reap_process id);
          '(reaped, failures) ← disconnect_loop ids;
          mret (match r with
                | inl _ => (reaped, FailedReap id :: failures)
                | inr _ => (id :: reaped, failures)
                end)
      end
  end.

Definition cleanup_disconnected_connection (connection_id : ConnectionId) : K (list ProcessId) :=
  i ← tick;
  k ← get_state;
  '(reaped, failures) ← disconnect_loop (connection_foreground_ids i (k_processes k) connection_id);
  ensure (bool_decide (length failures = 0%nat)) (CleanupIncomplete failures) ;;
  mret reaped.

End Terminal.

(** [NoLifecycleFaults]. *)
Definition no_faults (n : N) (id : ProcessId) : option string := None.

End Kernel.
