(* ===== verification/RuntimeInv.v ===== *)
(** * The kernel runtime: its invariant, and what every step keeps

    [kernel_ok F] is the invariant of the composed kernel: the invariants of its
    components, and the links between them (each recorded process budget is a
    child scope of the shared controller, context spaces belong to one process,
    a termination that reached its restart phase has its decision).  The frame
    [F] adds what must not be undone meanwhile: the processes whose resources
    were released, the mailbox targets that were unregistered, the terminations
    that are in their restart phase.  With the in-memory budget the invariant
    also has that every live process is the registered one of its agent;
    [fr_registry] is off while a spawn is between its process and its identity. *)
From S2P Require Import Prelude FabricTypes Budget BudgetInv BudgetSpec Lease Admission AdmissionInv.
From S2P Require Import Space Process Operation Supervision Mailbox BudgetGrow Runtime.
Import Production.

Record Frame := {
  fr_durable : bool;
  fr_released : ProcessId → Prop;
  fr_unregistered : Target → Prop;
  fr_restarting : ProcessId → Prop;
  fr_registry : bool;
}.

(** No obligations: the invariant alone. *)
Definition frame_none (durable : bool) : Frame :=
  {| fr_durable := durable; fr_released := λ _, False; fr_unregistered := λ _, False;
     fr_restarting := λ _, False; fr_registry := true |}.

Definition frame_release (id : ProcessId) (F : Frame) : Frame :=
  {| fr_durable := fr_durable F; fr_released := λ i, i = id ∨ fr_released F i;
     fr_unregistered := fr_unregistered F; fr_restarting := fr_restarting F;
     fr_registry := fr_registry F |}.

Definition frame_unregister (T : Target → Prop) (F : Frame) : Frame :=
  {| fr_durable := fr_durable F; fr_released := fr_released F;
     fr_unregistered := λ t, T t ∨ fr_unregistered F t; fr_restarting := fr_restarting F;
     fr_registry := fr_registry F |}.

Definition frame_restart (id : ProcessId) (F : Frame) : Frame :=
  {| fr_durable := fr_durable F; fr_released := fr_released F;
     fr_unregistered := fr_unregistered F; fr_restarting := λ i, i = id ∨ fr_restarting F i;
     fr_registry := fr_registry F |}.

Section Invariant.
Context `{HEnv : Env} {Json : Type}.

Record procs_ok (X : ProcessId → Prop) (t : ProcessTable (Json := Json)) (n : N) : Prop := {
  po_wf : table_wf t n;
  po_space : ∀ id rt, records t !! id = Some rt → drawn n (pr_space (rt_record rt));
  po_inj : ∀ id id' rt rt', records t !! id = Some rt → records t !! id' = Some rt' →
    pr_space (rt_record rt) = pr_space (rt_record rt') → id = id';
  po_released : ∀ id, X id → ∃ rt, records t !! id = Some rt
    ∧ ProcessState.is_terminal (pr_state (rt_record rt)) = true
    ∧ spaces t !! pr_space (rt_record rt) = None;
}.

Record ops_ok (X : ProcessId → Prop) (t : OperationTable) : Prop := {
  oo_wf : ops_wf t;
  oo_released : ∀ id op r, X id → op_records t !! op = Some r → op_owner r = id →
    OperationState.is_terminal (op_state r) = true;
}.

(** The admission controller with what the kernel recorded about its budget. *)
Record adm_ok (F : Frame) (production : bool) (o : BudgetOwnership) (st : Production.State) (n : N)
    : Prop := {
  ao_inv : adm_inv true st n;
  ao_budget : ∃ c, budget st = Some c ∧ ct_durable c = fr_durable F;
  ao_scopes : ∀ c id s, budget st = Some c → own_processes o !! id = Some s →
    ∃ sc, scopes (ct_state c) !! s = Some sc ∧ is_Some (parent_of sc)
          ∧ (fr_released F id → sc_closed sc = true);
  ao_roots : ∀ c id s, budget st = Some c → own_process_rollouts o !! id = Some s →
    ∃ sc, scopes (ct_state c) !! s = Some sc ∧ kind_of sc = BudgetScopeKind.Rollout;
  ao_permits : production = true → ∀ id p r, fr_released F id → active st !! p = Some r →
    rec_process_id r ≠ id;
}.

(** Every live process is the registered one of its agent. *)
Record registered (recs : gmap ProcessId ProcessRuntime) (ids : IdentityRegistry) : Prop := {
  rg_live : ∀ id rt, recs !! id = Some rt → ProcessState.is_terminal (pr_state (rt_record rt)) = false →
    ∃ i, by_agent ids !! pr_agent_id (rt_record rt) = Some i ∧ pi_process_id i = id;
  rg_process : ∀ id i, by_process ids !! id = Some i → pi_process_id i = id;
}.

(** It is part of the invariant with the in-memory budget: a spawn whose budget
    cannot be written to its file leaves an unregistered process. *)
Definition registry_ok (F : Frame) (recs : gmap ProcessId ProcessRuntime) (ids : IdentityRegistry)
    : Prop := fr_registry F = true → fr_durable F = false → registered recs ids.

Record kernel_ok (F : Frame) (k : KernelRuntime (Json := Json)) (n : N) : Prop := {
  ko_procs : procs_ok (fr_released F) (k_processes k) n;
  ko_ops : ops_ok (fr_released F) (k_operations k);
  ko_adm : adm_ok F (k_production k) (k_ownership k) (k_admission k) n;
  ko_mail : ∀ id, fr_released F id → k_mailboxes k !! id = None;
  ko_targets : ∀ t, fr_unregistered F t → po_mailboxes (k_mail k) !! t = None;
  ko_progress : ∀ id p, k_progress k !! id = Some p → tp_phase p = PhRestart →
    is_Some (tp_decision p);
  ko_restarting : ∀ id, fr_restarting F id →
    ∃ p, k_progress k !! id = Some p ∧ tp_phase p = PhRestart;
  ko_registry : registry_ok F (records (k_processes k)) (k_identities k);
}.

(** [m] keeps the invariant and the frame on every outcome, and panics only when
    the budget is durable (the file could not be written). *)
Definition kept (F : Frame) {E A} (m : M KernelRuntime E A) : Prop := ∀ k n,
  kernel_ok F k n → wp m (λ r k' n', kernel_ok F k' n' ∧ n ≤ n' ∧ (r = Panic → fr_durable F = true)) k n.

(** A step of the process table that adds and removes no record and leaves the
    spaces alone. *)
Definition quiet {A} (m : M (ProcessTable (Json := Json)) ProcessError A) : Prop := evol m ∧
  ∀ t n, wp m (λ r t' _, r ≠ Panic ∧ spaces t' = spaces t ∧ dom (records t') = dom (records t)) t n.

(** ** The monad *)

Section Kept.
Context {HOk : EnvOk} (F : Frame).
Abbreviation KM := (M (KernelRuntime (Json := Json))).

Lemma kept_pure {E A} (m : KM E A) :
  (∀ k n, ∃ r, m k n = (r, k, n) ∧ r ≠ Panic) → kept F m.
Proof.
  intros Hm k n Hk. unfold wp. destruct (Hm k n) as (r & -> & Hr). split_and!; [done|lia|done].
Qed.

Lemma kept_ret {E A} (a : A) : kept F (mret a : KM E A).
Proof. apply kept_pure. intros. by eexists. Qed.

Lemma kept_throw {E A} e : kept F (throw e : KM E A).
Proof. apply kept_pure. intros. by eexists. Qed.

Lemma kept_get {E} : kept F (get_state : KM E _).
Proof. apply kept_pure. intros. by eexists. Qed.

Lemma kept_ensure {E} b e : kept F (ensure b e : KM E unit).
Proof. apply kept_pure. intros. destruct b; by eexists. Qed.

Lemma kept_ok_or {E A} (o : option A) e : kept F (ok_or o e : KM E A).
Proof. apply kept_pure. intros. destruct o; by eexists. Qed.

Lemma kept_bind {E A C} (m : KM E A) (f : A → KM E C) :
  kept F m → (∀ a, kept F (f a)) → kept F (m ≫= f).
Proof.
  intros Hm Hf k n Hk. apply wp_bind. eapply wp_mono; [by apply Hm|].
  intros [a|e|] k1 n1 (Hk1 & Hn1 & Hp); 
    [|split_and!; try done; intros _; by apply Hp..].
  eapply wp_mono; [by apply Hf|]. intros r k2 n2 (? & ? & ?). split_and!; [done|lia|done].
Qed.

Lemma kept_map_err {E E' A} (f : E → E') (m : KM E A) : kept F m → kept F (map_err f m).
Proof.
  intros Hm k n Hk. apply wp_map_err. eapply wp_mono; [by apply Hm|].
  intros [a|e|] k1 n1 (Hk1 & Hn1 & Hp); split_and!; try done; intros _; by apply Hp.
Qed.

Lemma kept_try {E A} (m : KM E A) : kept F m → kept F (try_ m).
Proof.
  intros Hm k n Hk. apply wp_try. eapply wp_mono; [by apply Hm|].
  intros [a|e|] k1 n1 (Hk1 & Hn1 & Hp); split_and!; try done; intros _; by apply Hp.
Qed.

Lemma kept_for_each {E A} (l : list A) (body : A → KM E unit) :
  (∀ x, kept F (body x)) → kept F (for_each l body).
Proof. intros Hb. induction l as [|x l IH]; [apply kept_ret|]. cbn. by apply kept_bind. Qed.

End Kept.

(** ** The process table *)

Section Processes.
Context {HOk : EnvOk} (X : ProcessId → Prop).
Implicit Types (t : ProcessTable (Json := Json)).

Lemma procs_mono t n n' : n ≤ n' → procs_ok X t n → procs_ok X t n'.
Proof.
  intros Hn [[Hi He] Hs Hj Hr]. split; [split; [|done]| |done|done].
  - intros id rt Hid. destruct (Hi _ _ Hid). split; [done|by eapply drawn_mono].
  - intros id rt Hid. eapply drawn_mono; [done|]. by eapply Hs.
Qed.

(** A step that evolves the records, adds none, and removes none of the released. *)
Lemma procs_evolve t n t' n' :
  procs_ok X t n → table_evolves t n t' n' → spaces t' = spaces t →
  (∀ id, is_Some (records t' !! id) → is_Some (records t !! id)) →
  (∀ id, X id → is_Some (records t' !! id)) → procs_ok X t' n'.
Proof.
  intros [Hw Hs Hj Hr] [Hn Hw' Hrec _] Hsp Hold Hkeep.
  assert (Hback : ∀ id rt', records t' !! id = Some rt' → ∃ rt, records t !! id = Some rt
            ∧ record_evolves (rt_record rt) (rt_record rt')).
  { intros id rt' Hid'. destruct (Hold id) as [rt Hid]; [eauto|]. exists rt. split; [done|].
    specialize (Hrec id rt Hid). by rewrite Hid' in Hrec. }
  split; [done|..].
  - intros id rt' Hid'. destruct (Hback _ _ Hid') as (rt & Hid & [_ (_ & _ & -> & _) _]).
    eapply drawn_mono; [done|]. by eapply Hs.
  - intros id1 id2 rt1 rt2 H1 H2 Heq. destruct (Hback _ _ H1) as (r1 & Hr1 & [_ (_ & _ & Hs1 & _) _]).
    destruct (Hback _ _ H2) as (r2 & Hr2 & [_ (_ & _ & Hs2 & _) _]). eapply Hj; eauto. congruence.
  - intros id Hx. destruct (Hkeep id Hx) as [rt' Hid']. exists rt'. split; [done|].
    destruct (Hback _ _ Hid') as (rt & Hid & [Hst (_ & _ & -> & _) _]).
    destruct (Hr id Hx) as (rt0 & Hid0 & Hterm & Hnone). assert (rt0 = rt) as -> by congruence.
    rewrite (terminal_stays _ _ Hst Hterm), Hsp. done.
Qed.

(** Records only move towards their terminal states. *)
Lemma registered_evolve t n t' n' ids :
  table_evolves t n t' n' → (∀ id, is_Some (records t' !! id) → is_Some (records t !! id)) →
  registered (records t) ids → registered (records t') ids.
Proof.
  intros [_ _ Hrec _] Hold [Hl Hp]. split; [|done]. intros id rt' Hid' Hlive.
  destruct (Hold id) as [rt Hid]; [eauto|]. specialize (Hrec id rt Hid). rewrite Hid' in Hrec.
  destruct Hrec as [Hst (_ & _ & _ & _ & _ & _ & ->) _]. apply Hl; [done|].
  destruct (ProcessState.is_terminal (pr_state (rt_record rt))) eqn:Ht; [|done].
  rewrite (terminal_stays _ _ Hst Ht) in Hlive. congruence.
Qed.

Lemma procs_quiet {A} (m : M ProcessTable ProcessError A) t n :
  quiet m → procs_ok X t n → wp m (λ r t' n', procs_ok X t' n' ∧ n ≤ n' ∧ r ≠ Panic
    ∧ ∀ ids, registered (records t) ids → registered (records t') ids) t n.
Proof.
  intros [He Hq] Hp. specialize (He t n (po_wf _ _ _ Hp)). specialize (Hq t n). unfold wp in *.
  destruct (m t n) as [[r t'] n']. destruct Hq as (Hr & Hsp & Hdom). split_and!; [|by destruct He|done|].
  2: { intros ids. eapply registered_evolve; [done|]. intros id. by rewrite <- !elem_of_dom, Hdom. }
  assert (Hd : ∀ id, is_Some (records t' !! id) ↔ is_Some (records t !! id))
    by (intros id; by rewrite <- !elem_of_dom, Hdom).
  eapply procs_evolve; [done|done|done|by intros; apply Hd|].
  intros id Hx. apply Hd. destruct (po_released _ _ _ Hp id Hx) as (rt & -> & _). eauto.
Qed.

Lemma quiet_bind {A B} (m : M ProcessTable ProcessError A) (f : A → M ProcessTable ProcessError B) :
  quiet m → (∀ a, quiet (f a)) → quiet (m ≫= f).
Proof.
  intros [He Hq] Hf. split; [apply evol_bind; [done|]; intros a; apply Hf|].
  intros t n. apply wp_bind. eapply wp_mono; [apply Hq|]. intros [a|e|] t1 n1 (? & Hs & Hd); [|done|done].
  destruct (Hf a) as [_ Hfa]. eapply wp_mono; [apply Hfa|]. intros r t2 n2 (? & ? & ?).
  split_and!; [done|congruence|congruence].
Qed.

Lemma quiet_pure {A} (m : M ProcessTable ProcessError A) :
  (∀ t n, ∃ r, m t n = (r, t, n) ∧ r ≠ Panic) → quiet m.
Proof.
  intros Hm. split; [apply evol_pure; intros t n; destruct (Hm t n) as (r & ? & _); eauto|].
  intros t n. unfold wp. by destruct (Hm t n) as (r & -> & ?).
Qed.

Lemma quiet_inspect id : quiet (Process.inspect id).
Proof.
  apply quiet_pure. intros t n. unfold Process.inspect, runtime_of, mbind, M_bind, get_state, ok_or.
  destruct (records t !! id); by eexists.
Qed.

Lemma quiet_wait id : quiet (Process.wait_poll id).
Proof.
  apply quiet_pure. intros t n. unfold Process.wait_poll, runtime_of, mbind, M_bind, get_state, ok_or.
  destruct (records t !! id); by eexists.
Qed.

Lemma dom_update t id rt rt' :
  records t !! id = Some rt → dom (<[id := rt']> (records t)) = dom (records t).
Proof. clear X. intros Hid. rewrite dom_insert_L. apply elem_of_dom_2 in Hid. set_solver. Qed.

Lemma quiet_transition id next :
  ProcessState.is_terminal next = false → quiet (transition id next).
Proof.
  intros Hn. split; [by apply evol_transition|]. intros t n. unfold wp.
  pose proof (transition_cases t n id next) as Hc. destruct (records t !! id) as [rt|] eqn:Hid; [|by rewrite Hc].
  destruct (ProcessState.can_transition_to _ _); rewrite Hc; [|done].
  split_and!; [done|done|]. by eapply dom_update.
Qed.

Lemma quiet_mark_exit id reason : quiet (Process.mark_exit id reason).
Proof.
  split; [by apply evol_mark_exit|]. intros t n. unfold wp.
  pose proof (mark_exit_cases t n id reason) as Hc. destruct (records t !! id) as [rt|] eqn:Hid; [|by rewrite Hc].
  destruct (ProcessState.is_terminal _); rewrite Hc; [done|]. split_and!; [done|done|]. by eapply dom_update.
Qed.

Lemma quiet_set_active id operation : quiet (Process.set_active_operation id operation).
Proof.
  split; [apply evol_set_active|]. intros t n.
  unfold wp, Process.set_active_operation, runtime_of, mbind, M_bind, get_state, ok_or.
  destruct (records t !! id) as [rt|] eqn:Hid; [|done]. split_and!; [done|done|]. by eapply dom_update.
Qed.

Lemma quiet_signal id sig : quiet (Process.signal id sig).
Proof.
  assert (Hnil : quiet (mret tt : M ProcessTable ProcessError unit)) by (apply quiet_pure; by eexists).
  destruct sig; cbn [Process.signal];
    repeat first [ by apply quiet_transition | apply quiet_mark_exit | exact Hnil
                 | apply quiet_bind; [first [by apply quiet_transition|apply quiet_inspect]|intros ?]
                 | match goal with |- quiet (match ?x with _ => _ end) => destruct x end ].
Qed.

(** The choice of a new process's space: a new one, and the spaces of others stay. *)
Lemma spawn_space_frame parent_space process_id t n :
  wp (match parent_space with
      | Some parent_space => zoom spaces set_spaces (fork_space parent_space process_id)
      | None => new_uuid
      end : M ProcessTable ProcessError SpaceId)
    (λ r t' n', r = Ok (uuid_v4 n) ∧ records t' = records t ∧ n < n'
       ∧ ∀ s, drawn n s → parent_space ≠ Some s → spaces t' !! s = spaces t !! s) t n.
Proof.
  destruct parent_space as [p|]; [|wp_steps; split_and!; done || lia].
  apply wp_zoom. unfold wp.
  destruct (fork_space_spec (E := ProcessError) (spaces t) n p process_id)
    as (child & psc & snap & spaces' & n' & -> & -> & Hn & _ & _ & ->). split_and!; [done|done|lia|].
  intros s Hs Hne. cbn. rewrite !lookup_insert_ne; [done|congruence|].
  intros <-. by apply drawn_fresh in Hs.
Qed.

(** Spawning: a new record under a new id, with a new space. *)
Lemma procs_spawn spec t n :
  procs_ok X t n → wp (Process.spawn spec) (λ r t' n', procs_ok X t' n' ∧ n ≤ n' ∧ r ≠ Panic
    ∧ match r with
      | Ok id => ¬ drawn n id ∧ drawn n' id ∧ ∃ rt, records t' = <[id := rt]> (records t)
          ∧ pr_agent_id (rt_record rt) = ss_agent_id spec
          ∧ pr_ownership (rt_record rt) = ss_ownership spec
      | _ => t' = t
      end) t n.
Proof.
  intros Hp. pose proof Hp as [Hw Hs Hj Hr].
  assert (Hlate : ∀ m, n ≤ m → procs_ok X t m) by (intros; by eapply procs_mono).
  unfold Process.spawn. apply wp_bind, wp_new_uuid. cbv beta iota. apply wp_bind.
  apply (wp_mono _ (λ (r : Result ProcessError (option SpaceId)) t' n', t' = t ∧ n' = n + 1 ∧ r ≠ Panic
    ∧ ∀ ps, r = Ok (Some ps) → ∃ id rt, records t !! id = Some rt ∧ ps = pr_space (rt_record rt)
        ∧ ProcessState.is_terminal (pr_state (rt_record rt)) = false)).
  { destruct (ss_parent spec) as [p|]; [|by apply wp_ret]. wp_steps; try done.
    split_and!; try done. intros ps [= <-]. eexists p, _. split_and!; [done|done|].
    by apply negb_true_iff. }
  intros [ps|e|] t1 n1 (-> & -> & Hnp & Hps); [|split_and!; [apply Hlate; lia|lia|done|done]|done].
  apply wp_bind. eapply wp_mono; [apply spawn_space_frame|].
  intros r t1 n1 (-> & Hrec & Hn1 & Hsp). wp_steps.
  set (rt := {| rt_record := _; rt_active_operation := None |}).
  assert (Hevo : table_evolves t n (with_records (insert (uuid_v4 n) rt) t1) (n1 + 1 + 1 + 1)).
  { eapply evolves_insert; [done|lia|cbn; by rewrite Hrec|apply drawn_fresh|apply drawn_here; lia|done|done]. }
  assert (Hnew : ¬ drawn n (uuid_v4 (n + 1)))
    by (intros Hd; eapply drawn_fresh, drawn_mono; [|exact Hd]; lia).
  split; [|split_and!; [lia|done|apply drawn_fresh|apply drawn_here; lia|
            exists rt; cbn; by rewrite Hrec]].
  split; [by destruct Hevo|..]; cbn [records with_records spaces]; rewrite ?Hrec.
  - intros id rt' Hid. split_lookup; [apply drawn_here; lia|]. eapply drawn_mono; [|by eapply Hs]. lia.
  - intros id id' rt1 rt2 H1 H2 Heq. split_lookup; [done|..].
    + destruct Hnew. cbn in Heq. rewrite <- Heq. by eapply Hs.
    + destruct Hnew. cbn in Heq. rewrite Heq. by eapply Hs.
    + by eapply Hj.
  - intros id Hx. destruct (Hr id Hx) as (rt0 & Hid & Hterm & Hnone). exists rt0. split_and!.
    + rewrite lookup_insert_ne; [done|]. intros <-. apply (drawn_fresh n). by apply (tw_id _ _ Hw _ _ Hid).
    + done.
    + rewrite Hsp; [done|eapply drawn_mono; [|by eapply Hs]; lia|]. intros ->.
      destruct (Hps _ eq_refl) as (id' & rt' & Hid' & Heq & Hnt).
      assert (id = id') as <- by (by eapply Hj). congruence.
Qed.

Lemma procs_set_spaces t n f :
  procs_ok X t n → (∀ s, spaces t !! s = None → f (spaces t) !! s = None) →
  procs_ok X (set_spaces (f (spaces t)) t) n.
Proof.
  intros [Hw Hs Hj Hr] Hf. split; [by destruct Hw; split|done|done|].
  intros id Hx. destruct (Hr id Hx) as (rt & ? & ? & ?). exists rt. cbn. auto.
Qed.

End Processes.

(** ** The operation table *)

Section Operations.
Context {HOk : EnvOk} (X : ProcessId → Prop).
Implicit Types (t : OperationTable).

Lemma ops_evolve_ok t t' :
  ops_ok X t → ops_evolve t t' →
  (∀ op r', op_records t' !! op = Some r' → is_Some (op_records t !! op) ∨ ¬ X (op_owner r')) →
  ops_ok X t'.
Proof.
  intros [Hw Hr] [Hw' He] Hold. split; [done|]. intros id op r' Hx Hop Hown.
  destruct (Hold op r' Hop) as [[r Hr0]|Hn]; [|by subst].
  destruct (He op r Hr0) as (r'' & Hop' & Hev). assert (r'' = r') as -> by congruence.
  assert (op_owner r = id) as Ho by (destruct Hev as [_ (_ & <- & _) _]; done).
  pose proof (Hr id op r Hx Hr0 Ho) as Ht. by rewrite (oe_final _ _ Hev Ht).
Qed.

Lemma cancelled_terminal reason r : OperationState.is_terminal (op_state (cancelled reason r)) = true.
Proof. unfold cancelled. by destruct (OperationState.is_terminal (op_state r)) eqn:Ht. Qed.

Lemma cancelled_owner reason r : op_owner (cancelled reason r) = op_owner r.
Proof. unfold cancelled. by destruct (OperationState.is_terminal (op_state r)). Qed.

(** [cancel] of any id: registered operations stay, and some become terminal. *)
Lemma ops_cancel t n id reason :
  ops_ok X t → wp (Operation.cancel id reason) (λ r t' n', ops_ok X t' ∧ n' = n ∧ r ≠ Panic
    ∧ (is_Some (op_records t !! id) → r = Ok tt
       ∧ ∀ rec, op_records t' !! id = Some rec → OperationState.is_terminal (op_state rec) = true)
    ∧ (∀ op, is_Some (op_records t !! op) → is_Some (op_records t' !! op))
    ∧ ∀ op rec', op_records t' !! op = Some rec' → ∃ rec, op_records t !! op = Some rec
        ∧ op_owner rec' = op_owner rec
        ∧ (OperationState.is_terminal (op_state rec) = true → OperationState.is_terminal (op_state rec') = true)) t n.
Proof.
  intros Hok. pose proof Hok as [Hw _]. unfold wp. destruct (op_records t !! id) as [r|] eqn:Hid.
  - destruct (cancel_spec t n id r reason Hw Hid) as (l & t' & _ & _ & -> & Hev & Hrec).
    assert (Hback : ∀ op rec', op_records t' !! op = Some rec' → ∃ rec, op_records t !! op = Some rec
              ∧ (rec' = rec ∨ rec' = cancelled reason rec)).
    { intros op rec' Hop. rewrite Hrec in Hop. case_decide; [|eauto].
      apply fmap_Some in Hop as (rec & ? & ->). eauto. }
    split_and!; [|done|done|..].
    + eapply ops_evolve_ok; [done|done|]. intros op r' Hop. left.
      destruct (Hback _ _ Hop) as (rec & ? & _). eauto.
    + intros _. split; [done|]. intros rec Hr'. rewrite Hrec, decide_True in Hr' by set_solver.
      apply fmap_Some in Hr' as (? & _ & ->). apply cancelled_terminal.
    + intros op [rec Hop]. destruct Hev as [_ Hev]. destruct (Hev _ _ Hop) as (? & ? & _). eauto.
    + intros op rec' Hop. destruct (Hback _ _ Hop) as (rec & Hr0 & [->| ->]); exists rec; (split; [done|]).
      * done.
      * split; [apply cancelled_owner|intros; apply cancelled_terminal].
  - rewrite cancel_unknown by done. split_and!; [done|done|done|by intros []|done|eauto].
Qed.

(** The cancelling loop of the cleanup: it succeeds, and every operation of the
    owner is terminal afterwards. *)
Lemma ops_cancel_owned t n i id reason :
  ops_ok X t →
  wp (for_each (ids_for_owner i t id) (λ op, Operation.cancel op reason))
    (λ r t' n', r = Ok tt ∧ n' = n ∧ ops_ok (λ p, p = id ∨ X p) t') t n.
Proof.
  intros Hok.
  assert (Hin : ∀ op, op ∈ ids_for_owner i t id ↔
                  ∃ r, op_records t !! op = Some r ∧ op_owner r = id).
  { intros op. unfold ids_for_owner. rewrite list_elem_of_omap. split.
    - intros (r & (k & Hk)%elem_of_hash_values & Hr). destruct (N.eqb_spec (op_owner r) id); [|done].
      injection Hr as <-. pose proof (ow_id _ (oo_wf _ _ Hok) _ _ Hk) as ->. eauto.
    - intros (r & Hr & <-). exists r. rewrite elem_of_hash_values. split; [eauto|].
      rewrite N.eqb_refl. f_equal. by apply (ow_id _ (oo_wf _ _ Hok)). }
  apply (wp_for_each (λ l t' n', n' = n ∧ ops_ok X t' ∧ (∀ op, op ∈ l → is_Some (op_records t' !! op))
    ∧ ∀ op r, op_records t' !! op = Some r → op_owner r = id →
        op ∈ l ∨ OperationState.is_terminal (op_state r) = true)).
  - intros op l t1 n1 (-> & Hok1 & Hl & Hdone). eapply wp_mono; [by apply ops_cancel|].
    intros r t2 n2 (Hok2 & -> & _ & Hop & Hkeep & Hback). destruct Hop as [-> Hterm]; [apply Hl; set_solver|].
    split_and!; [done|done|..].
    + intros op' Hop'. apply Hkeep, Hl. by right.
    + intros op' r' Hop' Hown. destruct (Hback _ _ Hop') as (r0 & Hr0 & Ho & Ht).
      assert (op_owner r0 = id) as Ho0 by congruence.
      destruct (Hdone op' r0 Hr0 Ho0) as [[->|?]%elem_of_cons|?]; auto.
  - intros t1 n1 (-> & [Hw1 Hx1] & _ & Hdone). split_and!; [done|done|]. split; [done|].
    intros p op r [->|Hp] Hop Hown; [|by eapply Hx1].
    destruct (Hdone op r Hop Hown) as [?%not_elem_of_nil|?]; done.
  - split_and!; [done|done|..].
    + intros op (r & ? & _)%Hin. eauto.
    + intros op r Hop Hown. left. apply Hin. eauto.
Qed.

End Operations.

(** ** Admission and budgets *)

Section AdmissionPart.
Context {HOk : EnvOk} (F : Frame).
Implicit Types (st : Production.State) (o : BudgetOwnership).

Lemma adm_mono production o st n n' : n ≤ n' → adm_ok F production o st n → adm_ok F production o st n'.
Proof. intros Hn [? ? ? ? ?]. split; [by eapply adm_wf_mono|done..]. Qed.

(** A step of the controller that keeps its invariant, lets scopes grow, and
    issues no permit to a released process. *)
Lemma adm_step production o st n st' n' :
  adm_ok F production o st n → adm_inv true st' n' → grows_adm st st' →
  (∀ p r, active st' !! p = Some r → active st !! p = Some r ∨ ¬ fr_released F (rec_process_id r)) →
  adm_ok F production o st' n'.
Proof.
  intros [Hi (c & Hc & Hd) Hs Hr Hp] Hi' Hg Ha. unfold grows_adm in Hg. rewrite Hc in Hg.
  destruct Hg as (c' & Hc' & Hg & Hd').
  assert (Heq : ∀ x, budget st' = Some x → x = c') by (intros; congruence).
  split; [done|exists c'; split; [done|congruence]|..].
  - intros x id s ->%Heq Hown. destruct (Hs _ _ _ Hc Hown) as (sc & Hsc & [p Hpar] & Hcl).
    destruct (Hg _ _ Hsc) as (sc' & Hsc' & Hpar' & _ & Hcl'). exists sc'.
    split_and!; [done|exists p; unfold parent_of; by rewrite Hpar'|auto].
  - intros x id s ->%Heq Hown. destruct (Hr _ _ _ Hc Hown) as (sc & Hsc & Hk).
    destruct (Hg _ _ Hsc) as (sc' & Hsc' & Hk' & _). exists sc'. split; [done|]. unfold kind_of. by rewrite Hk'.
  - intros Hprod id p r Hx Hact. destruct (Ha p r Hact) as [Hold|Hn]; [by eapply Hp|]. by intros <-.
Qed.

Lemma adm_own_process production o st n id root s :
  adm_ok F production o st n → ¬ fr_released F id →
  (∀ c, budget st = Some c → (∃ sc, scopes (ct_state c) !! s = Some sc ∧ is_Some (parent_of sc))
     ∧ ∃ rsc, scopes (ct_state c) !! root = Some rsc ∧ kind_of rsc = BudgetScopeKind.Rollout) →
  adm_ok F production (own_process id root s o) st n.
Proof.
  intros [Hi Hb Hs Hr Hp] Hx Hnew. split; [done|done|..|done].
  - intros c id' s' Hc Hown. cbn in Hown. split_lookup; [|by eapply Hs].
    destruct (Hnew c Hc) as [(sc & ? & ?) _]. exists sc. by split_and!.
  - intros c id' s' Hc Hown. cbn in Hown. split_lookup; [|by eapply Hr]. by destruct (Hnew c Hc).
Qed.

Lemma adm_same_own production o o' st n :
  adm_ok F production o st n →
  (∀ id s, own_processes o' !! id = Some s → own_processes o !! id = Some s) →
  (∀ id s, own_process_rollouts o' !! id = Some s → own_process_rollouts o !! id = Some s) →
  adm_ok F production o' st n.
Proof. intros [Hi Hb Hs Hr Hp] H1 H2. split; eauto. Qed.

(** The controller's own calls. *)
Lemma adm_controller production o st n {A} (m : M Controller AdmissionError.t A) P :
  adm_ok F production o st n →
  (∀ c, budget st = Some c → inv (fates (active st)) true (ct_state c) n →
     wp m (λ r c' n', inv (fates (active st)) true (ct_state c') n' ∧ n ≤ n' ∧ grows_ct c c' ∧ P c r c' n') c n) →
  ∃ c r c' n', budget st = Some c ∧ ct_durable c = fr_durable F ∧ m c n = (r, c', n') ∧ n ≤ n'
    ∧ P c r c' n' ∧ grows_ct c c'
    ∧ adm_ok F production o (with_budget (Some c') st) n'.
Proof.
  intros Hok Hm. pose proof Hok as [Hi (c & Hc & Hd) _ _ _]. specialize (Hm c Hc (aw_budget _ _ Hi c Hc)).
  unfold wp in Hm. destruct (m c n) as [[r c'] n'] eqn:Hrun. destruct Hm as (Hinv & Hn & Hg & HP).
  exists c, r, c', n'. split_and!; try done. eapply adm_step; [done|by eapply adm_wf_budget| |by left].
  unfold grows_adm. rewrite Hc. eauto.
Qed.

End AdmissionPart.

(** ** Lifting to the kernel *)

Section Lift.
Context {HOk : EnvOk} (F : Frame).
Implicit Types (k : KernelRuntime (Json := Json)).

Lemma kernel_mono k n n' : n ≤ n' → kernel_ok F k n → kernel_ok F k n'.
Proof. intros Hn []. split; eauto using procs_mono, adm_mono. Qed.

Lemma kernel_set_processes k n n' t :
  kernel_ok F k n → n ≤ n' → procs_ok (fr_released F) t n' →
  registry_ok F (records t) (k_identities k) → kernel_ok F (set_processes t k) n'.
Proof. intros [] ? ? ?. split; cbn; eauto using adm_mono. Qed.

Lemma kernel_set_operations k n n' t :
  kernel_ok F k n → n ≤ n' → ops_ok (fr_released F) t → kernel_ok F (set_operations t k) n'.
Proof. intros [] ? ?. split; cbn; eauto using adm_mono, procs_mono. Qed.

Lemma kernel_set_admission k n n' st :
  kernel_ok F k n → n ≤ n' → adm_ok F (k_production k) (k_ownership k) st n' →
  kernel_ok F (set_admission st k) n'.
Proof. intros [] ? ?. split; cbn; eauto using procs_mono. Qed.

Lemma kernel_set_ownership k n o :
  kernel_ok F k n → adm_ok F (k_production k) o (k_admission k) n → kernel_ok F (set_ownership o k) n.
Proof. intros [] ?. by split. Qed.

Lemma kernel_set_mail k n po :
  kernel_ok F k n → (∀ t, fr_unregistered F t → po_mailboxes po !! t = None) →
  kernel_ok F (set_mail po k) n.
Proof. intros [] ?. by split. Qed.

Lemma kernel_set_process_mailboxes k n m :
  kernel_ok F k n → (∀ id, fr_released F id → m !! id = None) →
  kernel_ok F (set_process_mailboxes m k) n.
Proof. intros [] ?. by split. Qed.

Lemma kernel_set_progress k n m :
  kernel_ok F k n →
  (∀ id p, m !! id = Some p → tp_phase p = PhRestart → is_Some (tp_decision p)) →
  (∀ id, fr_restarting F id → ∃ p, m !! id = Some p ∧ tp_phase p = PhRestart) →
  kernel_ok F (set_progress m k) n.
Proof. intros [] ? ?. by split. Qed.

Lemma kernel_set_supervisor k n v : kernel_ok F k n → kernel_ok F (set_supervisor v k) n.
Proof. intros []. by split. Qed.

Lemma kernel_set_specs k n v : kernel_ok F k n → kernel_ok F (set_specs v k) n.
Proof. intros []. by split. Qed.

Lemma kernel_set_outcomes k n v : kernel_ok F k n → kernel_ok F (set_outcomes v k) n.
Proof. intros []. by split. Qed.

Lemma kernel_set_identities k n v :
  kernel_ok F k n → registry_ok F (records (k_processes k)) v → kernel_ok F (set_identities v k) n.
Proof. intros [] ?. by split. Qed.

(** Dropping obligations. *)
Definition frame_le (F' F : Frame) : Prop :=
  fr_durable F' = fr_durable F ∧ (∀ id, fr_released F' id → fr_released F id)
  ∧ (∀ t, fr_unregistered F' t → fr_unregistered F t) ∧ (∀ id, fr_restarting F' id → fr_restarting F id)
  ∧ (fr_registry F' = true → fr_registry F = true).

Lemma kernel_weaken F' k n : frame_le F' F → kernel_ok F k n → kernel_ok F' k n.
Proof.
  intros (Hd & Hr & Hu & Hs & Hg) [[? ? ? Hpr] [? Hor] [? Hb Hsc ? Hpe] ? ? ? ? Hreg].
  split; [split; auto|split; [done|]|split; [done|..|done|]|..]; auto.
  - intros id op r Hx. apply Hor. auto.
  - by rewrite Hd.
  - intros c id s Hc Hown. destruct (Hsc c id s Hc Hown) as (sc & ? & ? & ?). exists sc. auto.
  - intros Hp id p r Hx. apply Hpe; auto.
  - intros H1 H2. apply Hreg; [auto|congruence].
Qed.

Lemma kept_modify {E} (f : KernelRuntime → KernelRuntime) :
  (∀ k n, kernel_ok F k n → kernel_ok F (f k) n) → kept F (modify f : M KernelRuntime E unit).
Proof. intros Hf k n Hk. wp_step. split_and!; [auto|lia|done]. Qed.

Lemma kept_processes {A} (m : M ProcessTable ProcessError A) :
  (∀ t n, procs_ok (fr_released F) t n →
     wp m (λ r t' n', procs_ok (fr_released F) t' n' ∧ n ≤ n' ∧ r ≠ Panic
       ∧ ∀ ids, registered (records t) ids → registered (records t') ids) t n) →
  kept F (on_processes m).
Proof.
  intros Hm. apply kept_map_err. intros k n Hk. apply wp_zoom. eapply wp_mono; [by apply Hm, ko_procs|].
  intros r t' n' (Ht & Hn & Hr & Hreg). split_and!; [|done|done]. eapply kernel_set_processes; [done..|].
  intros H1 H2. by apply Hreg, (ko_registry _ _ _ Hk).
Qed.

Lemma kept_quiet {A} (m : M ProcessTable ProcessError A) : quiet m → kept F (on_processes m).
Proof. intros Hq. apply kept_processes. intros t n Ht. by apply procs_quiet. Qed.

Lemma kept_operations {A} (m : M OperationTable OperationError A) :
  (∀ t n, ops_ok (fr_released F) t → wp m (λ r t' n', ops_ok (fr_released F) t' ∧ n ≤ n' ∧ r ≠ Panic) t n) →
  kept F (on_operations m).
Proof.
  intros Hm. apply kept_map_err. intros k n Hk. apply wp_zoom. eapply wp_mono; [apply Hm, (ko_ops _ _ _ Hk)|].
  intros r t' n' (Ht & Hn & Hr). split_and!; [by eapply kernel_set_operations|done|done].
Qed.

Lemma kept_mail {A} (m : M PostOffice string A) :
  (∀ po n, wp m (λ r po' n', n ≤ n' ∧ r ≠ Panic
     ∧ ∀ t, fr_unregistered F t → po_mailboxes po !! t = None → po_mailboxes po' !! t = None) po n) →
  kept F (on_mail m).
Proof.
  intros Hm. apply kept_map_err. intros k n Hk. apply wp_zoom. eapply wp_mono; [apply Hm|].
  intros r po n' (Hn & Hr & Ht). split_and!; [|done|done]. apply kernel_set_mail; [by eapply kernel_mono|].
  intros t Hu. apply Ht; [done|]. by eapply ko_targets.
Qed.

End Lift.

(** ** Spawning *)

Section Spawning.
Context {HOk : EnvOk} (F : Frame).
Implicit Types (k : KernelRuntime (Json := Json)).

(** What a spawn leaves as it was, whatever its outcome. *)
Record spawn_frame (k k' : KernelRuntime (Json := Json)) : Prop := {
  sf_operations : k_operations k' = k_operations k;
  sf_supervisor : k_supervisor k' = k_supervisor k;
  sf_mail : k_mail k' = k_mail k;
  sf_mailboxes : k_mailboxes k' = k_mailboxes k;
  sf_outcomes : k_outcomes k' = k_outcomes k;
  sf_progress : k_progress k' = k_progress k;
}.

(** A spawn either registers one new process under its agent, or leaves the
    process records and identities as they were; in memory there is no third
    outcome. *)
Definition spawned (spec : SpawnSpec) (k : KernelRuntime (Json := Json)) (n : N)
    (r : Result KernelError ProcessId) (k' : KernelRuntime (Json := Json)) : Prop :=
  match r with
  | Ok id => ¬ drawn n id ∧ (∃ rt, records (k_processes k') = <[id := rt]> (records (k_processes k))
        ∧ pr_agent_id (rt_record rt) = ss_agent_id spec
        ∧ pr_ownership (rt_record rt) = ss_ownership spec)
      ∧ k_identities k' = record_identity (ss_agent_id spec) id (k_identities k)
      ∧ ∀ old, by_agent (k_identities k) !! ss_agent_id spec = Some old →
          ∀ rt, records (k_processes k) !! pi_process_id old = Some rt →
          ProcessState.is_terminal (pr_state (rt_record rt)) = true
  | Err _ | Panic => fr_durable F = false →
      records (k_processes k') = records (k_processes k) ∧ k_identities k' = k_identities k
  end.

Lemma released_drawn k n id : kernel_ok F k n → fr_released F id → drawn n id.
Proof.
  intros Hk Hx. destruct (po_released _ _ _ (ko_procs _ _ _ Hk) id Hx) as (rt & Hid & _).
  by apply (tw_id _ _ (po_wf _ _ _ (ko_procs _ _ _ Hk)) _ _ Hid).
Qed.

Lemma rollout_open st n s sc :
  linked st n → scopes st !! s = Some sc → kind_of sc = BudgetScopeKind.Rollout → sc_closed sc = false.
Proof.
  intros Hl Hs Hk. destruct (parent_of sc) as [p|] eqn:Hp; [|by apply (lk_root _ _ Hl _ _ Hs Hp)].
  destruct (lk_child _ _ Hl _ _ _ Hs Hp) as (psc & r & _ & Ha & _). rewrite Hk in Ha. by destruct (kind_of psc).
Qed.

Lemma can_afford_unlimited a : can_afford a unlimited = true.
Proof. unfold can_afford. cbn. by destruct (am_tokens a), (am_cost_micro a). Qed.

Lemma inspect_process_run k n id :
  inspect_process id k n = match records (k_processes k) !! id with
                           | Some rt => (Ok (snapshot rt), k, n)
                           | None => (Err (KProcess (UnknownProcess id)), k, n)
                           end.
Proof.
  unfold inspect_process, on_processes, map_err, zoom, Process.inspect, runtime_of, mbind, M_bind,
    get_state, ok_or. destruct k. cbn. by destruct (records _ !! id).
Qed.

Lemma ensure_agent_free_spec agent k n :
  wp (ensure_agent_free agent) (λ r k' n', k' = k ∧ n' = n ∧ r ≠ Panic
    ∧ (r = Ok tt → ∀ old, by_agent (k_identities k) !! agent = Some old →
         ∀ rt, records (k_processes k) !! pi_process_id old = Some rt →
         ProcessState.is_terminal (pr_state (rt_record rt)) = true)) k n.
Proof.
  unfold ensure_agent_free. apply wp_bind, wp_get.
  destruct (by_agent (k_identities k) !! agent) as [old|]; [|by apply wp_ret].
  apply wp_bind. unfold wp at 1. rewrite inspect_process_run.
  destruct (records (k_processes k) !! pi_process_id old) as [rt|] eqn:Hid; [|done].
  apply wp_ensure; intros Ht; split_and!; try done. intros _ o [= <-] rt' Hid'. simplify_eq. exact Ht.
Qed.

(** A call of the shared budget controller. *)
Lemma wp_controller {A} (m : M Controller AdmissionError.t A) (P : Controller → Result AdmissionError.t A → Controller → N → Prop) k n Q :
  kernel_ok F k n →
  (∀ c, budget (k_admission k) = Some c → inv (fates (active (k_admission k))) true (ct_state c) n →
     wp m (λ r c' n', inv (fates (active (k_admission k))) true (ct_state c') n' ∧ n ≤ n' ∧ grows_ct c c'
             ∧ P c r c' n') c n) →
  (∀ c r c' n', budget (k_admission k) = Some c → ct_durable c = fr_durable F → n ≤ n' →
     P c r c' n' → grows_ct c c' →
     kernel_ok F (set_admission (with_budget (Some c') (k_admission k)) k) n' →
     Q r (set_admission (with_budget (Some c') (k_admission k)) k) n') →
  wp (on_controller m) Q k n.
Proof.
  intros Hk Hm HQ. destruct (adm_controller F _ _ _ n m P (ko_adm _ _ _ Hk) Hm)
    as (c & r & c' & n' & Hc & Hd & Hrun & Hn & HP & Hg & Hok).
  unfold wp, on_controller. rewrite Hc, Hrun. apply (HQ c); try done. by eapply kernel_set_admission.
Qed.

Lemma spawn_rollout_spec spec k n :
  kernel_ok F k n →
  wp (spawn_rollout spec) (λ r k' n', kernel_ok F k' n' ∧ n ≤ n' ∧ (r = Panic → fr_durable F = true)
    ∧ (∀ e, r ≠ Err e) ∧ (∃ st, k' = set_admission st k)
    ∧ ∀ root, r = Ok root → ∀ c, budget (k_admission k') = Some c →
        ∃ rsc, scopes (ct_state c) !! root = Some rsc ∧ kind_of rsc = BudgetScopeKind.Rollout) k n.
Proof.
  intros Hk. unfold spawn_rollout. apply wp_bind, wp_get.
  destruct (ss_parent spec ≫= _) as [root|] eqn:Hroot.
  - apply wp_ret. split_and!; [done|lia|done|done|exists (k_admission k); by destruct k|].
    intros r [= <-] c Hc. destruct (ss_parent spec) as [parent|]; [|done].
    by eapply (ao_roots _ _ _ _ _ (ko_adm _ _ _ Hk)).
  - apply wp_map_err. eapply (wp_controller _ (λ c r c' n', (∀ e, r ≠ Err e)
      ∧ (r = Panic → ct_durable c = true) ∧ ∀ id, r = Ok id → ∃ sc, scopes (ct_state c') !! id = Some sc
        ∧ sc_closed sc = false ∧ kind_of sc = BudgetScopeKind.Rollout ∧ sc_remaining sc = from_request unlimited));
      [done|..].
    + intros c Hc Hi. by apply create_root_grows, unlimited_u64.
    + intros c r c' n' Hc Hd Hn (He & Hp & Hid) _ Hk'. destruct r as [id|e|]; [|by destruct (He e)|].
      * split_and!; [done|done|done|done|eauto|]. intros root [= <-] x [= <-].
        destruct (Hid id eq_refl) as (sc & ? & _ & ? & _). eauto.
      * split_and!; [done|done|intros _; rewrite <- Hd; auto|done|eauto|done].
Qed.

(** The registry is not consistent while a process is being registered. *)
Lemma spawn_process_steps spec k n :
  kernel_ok F k n → fr_registry F = false →
  wp (spawn_process spec) (λ r k' n', kernel_ok F k' n' ∧ n ≤ n' ∧ (r = Panic → fr_durable F = true)
    ∧ spawn_frame k k' ∧ spawned spec k n r k') k n.
Proof.
  intros Hk Hoff. assert (Hreg : ∀ recs ids, registry_ok F recs ids)
    by (intros recs ids Hon; congruence).
  unfold spawn_process, spawn_registering. apply wp_bind. eapply wp_mono; [apply ensure_agent_free_spec|].
  intros [[]|e|] k0 n0 (-> & -> & Hnp & Hfree); [|split_and!; [done|lia|done|by split|done]|done].
  apply wp_bind, wp_map_err, wp_zoom. eapply wp_mono; [apply procs_spawn, (ko_procs _ _ _ Hk)|].
  intros [process|e|] t n1 (Ht & Hn1 & Hpn & Hnew); [| |done].
  2: { subst t. assert (set_processes (k_processes k) k = k) as -> by by destruct k.
       split_and!; [by eapply kernel_mono|done|done|by split|done]. }
  destruct Hnew as (Hfresh & Hdr & rt & Hrec & Hag & Hown).
  pose proof (kernel_set_processes F k n n1 t Hk Hn1 Ht (Hreg _ _)) as Hk1.
  apply wp_bind. eapply wp_mono; [by apply spawn_rollout_spec|].
  intros r k2 n2 (Hk2 & Hn2 & Hp2 & He2 & (st & ->) & Hroot).
  destruct r as [root|e|]; [|by destruct (He2 e)|].
  2: { split_and!; [done|lia|auto|by split|]. intros Hd. by rewrite Hp2 in Hd. }
  specialize (Hroot root eq_refl). apply wp_bind, wp_map_err.
  eapply (wp_controller _ (λ c r c' n', reserved_by c n2 root BudgetScopeKind.Process unlimited r c'));
    [done|intros c Hc Hi; by apply reserve_child_grows, unlimited_u64|].
  intros c r c' n3 Hc Hd Hn3 Hres Hg Hk3. destruct (Hroot c Hc) as (rsc & Hrsc & Hkind).
  destruct r as [receipt|e|]; [| |done].
  2: { split_and!; [done|lia|done|by split|]. intros Hmem. exfalso.
       rewrite <- Hd in Hmem. specialize (Hres Hmem rsc Hrsc).
       rewrite Hkind, can_afford_unlimited in Hres. cbn in Hres. rewrite !orb_false_r in Hres.
       assert (Hop : sc_closed rsc = false); [|congruence].
       eapply rollout_open; [|done|done]. eapply wf_linked, inv_wf.
       by eapply (aw_budget _ _ (ao_inv _ _ _ _ _ (ko_adm _ _ _ Hk2))). }
  destruct Hres as (_ & (sc & Hsc & Hpar) & _).
  assert (Hnr : ¬ fr_released F process)
    by (intros Hx; apply Hfresh; by eapply released_drawn).
  wp_steps. split_and!; [|lia|done|by split|].
  - apply kernel_set_identities; [|apply Hreg]. apply kernel_set_specs, kernel_set_ownership; [done|].
    apply adm_own_process; [apply (ko_adm _ _ _ Hk3)|done|]. cbn. intros x [= <-]. split.
    + exists sc. rewrite Hpar. eauto.
    + destruct Hg as [Hg _]. destruct (Hg _ _ Hrsc) as (rsc' & ? & Hv & _). exists rsc'. split; [done|].
      unfold kind_of. by rewrite Hv.
  - split_and!; [done|exists rt; by split_and!|done|]. cbn. intros old Hold. by apply Hfree.
Qed.

End Spawning.

Section Spawned.
Context {HOk : EnvOk} (F : Frame).
Implicit Types (k : KernelRuntime (Json := Json)).

Definition frame_registering : Frame :=
  {| fr_durable := fr_durable F; fr_released := fr_released F; fr_unregistered := fr_unregistered F;
     fr_restarting := fr_restarting F; fr_registry := false |}.

Lemma kernel_registered k n :
  kernel_ok frame_registering k n → registry_ok F (records (k_processes k)) (k_identities k) →
  kernel_ok F k n.
Proof. intros [? ? [? ? ? ? ?] ? ? ? ?] ?. by split. Qed.

Lemma spawned_registered spec k n r k' :
  table_wf (k_processes k) n → spawned F spec k n r k' →
  registry_ok F (records (k_processes k)) (k_identities k) →
  registry_ok F (records (k_processes k')) (k_identities k').
Proof.
  intros Hw Hs Hreg H1 H2. destruct (Hreg H1 H2) as [Hl Hp]. unfold spawned in Hs.
  destruct r as [id|e|]; [|destruct (Hs H2) as [-> ->]; by split..].
  destruct Hs as (Hfresh & (rt & -> & Hag & _) & -> & Hfree).
  split; cbn; intros i x Hx; [intros Hlive|]; split_lookup; [|..].
  - rewrite Hag, lookup_insert_eq. eauto.
  - destruct (Hl _ _ Hx Hlive) as (old & Hold & <-).
    destruct (decide (pr_agent_id (rt_record x) = ss_agent_id spec)) as [Heq|Hne].
    + rewrite Heq in Hold. specialize (Hfree _ Hold _ Hx). congruence.
    + rewrite lookup_insert_ne by done. eauto.
  - done.
  - eauto.
Qed.

Lemma spawn_process_spec spec k n :
  kernel_ok F k n →
  wp (spawn_process spec) (λ r k' n', kernel_ok F k' n' ∧ n ≤ n' ∧ (r = Panic → fr_durable F = true)
    ∧ spawn_frame k k' ∧ spawned F spec k n r k') k n.
Proof.
  intros Hk. eapply wp_mono; [apply (spawn_process_steps frame_registering)|].
  - eapply (kernel_weaken F); [|done]. by split_and!.
  - done.
  - intros r k' n' (Hk' & ? & ? & ? & Hs). split_and!; try done. apply kernel_registered; [done|].
    eapply spawned_registered; [apply (po_wf _ _ _ (ko_procs _ _ _ Hk))|exact Hs|apply (ko_registry _ _ _ Hk)].
Qed.

Lemma kept_spawn_process spec : kept F (spawn_process spec).
Proof.
  intros k n Hk. eapply wp_mono; [by apply spawn_process_spec|]. by intros r k' n' (? & ? & ? & _).
Qed.

End Spawned.

(** ** Cleaning up after a process *)

Section Cleanup.
Context {HOk : EnvOk} (F : Frame) (faults : N → ProcessId → option string).
Implicit Types (k : KernelRuntime (Json := Json)).

(** Nothing of the process is left but its record. *)
Record cleaned (k : KernelRuntime (Json := Json)) (id : ProcessId) : Prop := {
  cl_ops : ∀ op r, op_records (k_operations k) !! op = Some r → op_owner r = id →
    OperationState.is_terminal (op_state r) = true;
  cl_permits : k_production k = true → ∀ p r, active (k_admission k) !! p = Some r →
    rec_process_id r ≠ id;
  cl_budget : ∀ c s sc, budget (k_admission k) = Some c → own_processes (k_ownership k) !! id = Some s →
    scopes (ct_state c) !! s = Some sc → sc_closed sc = true;
  cl_mailbox : k_mailboxes k !! id = None;
  cl_space : ∀ rt, records (k_processes k) !! id = Some rt →
    spaces (k_processes k) !! pr_space (rt_record rt) = None;
}.

(** What a cleanup never touches; it only unregisters mailboxes. *)
Record cleanup_frame (k k' : KernelRuntime (Json := Json)) : Prop := {
  cf_records : records (k_processes k') = records (k_processes k);
  cf_supervisor : k_supervisor k' = k_supervisor k;
  cf_ownership : k_ownership k' = k_ownership k;
  cf_production : k_production k' = k_production k;
  cf_specs : k_specs k' = k_specs k;
  cf_outcomes : k_outcomes k' = k_outcomes k;
  cf_progress : k_progress k' = k_progress k;
  cf_identities : k_identities k' = k_identities k;
  cf_targets : po_mailboxes (k_mail k') ⊆ po_mailboxes (k_mail k);
  cf_mailboxes : k_mailboxes k' ⊆ k_mailboxes k;
}.

Lemma kernel_release k n id rt :
  kernel_ok F k n → cleaned k id → records (k_processes k) !! id = Some rt →
  ProcessState.is_terminal (pr_state (rt_record rt)) = true → kernel_ok (frame_release id F) k n.
Proof.
  intros [[Hw Hs Hj Hr] [How Hor] [Hi Hb Hsc Hro Hpe] Hm Ht Hpr Hre Hg] [Hco Hcp Hcb Hcm Hcs] Hid Hterm.
  split; [split; [done|done|done|]|split; [done|]|split; [done|done|..|done|]|..]; cbn; try done.
  - intros i [->|Hx]; [exists rt; eauto|auto].
  - intros i op r [->|Hx] Hop Hown; eauto.
  - intros c i s Hc Hown. destruct (Hsc c i s Hc Hown) as (sc & ? & ? & ?). exists sc. split_and!; try done.
    intros [->|Hx]; [by eapply Hcb|auto].
  - intros Hprod i p r [->|Hx] Hact; eauto.
  - intros i [->|Hx]; auto.
Qed.

Lemma for_each_on_operations {A} (l : list A) (f : A → M OperationTable OperationError unit) k n :
  for_each l (λ x, on_operations (f x)) k n = on_operations (Json := Json) (for_each l f) k n.
Proof.
  revert k n. induction l as [|x l IH]; intros k n; [by destruct k|].
  cbn. unfold mbind, M_bind. unfold on_operations at 1 3, map_err, zoom.
  destruct (f x (k_operations k) n) as [[[[]|e|] t] n1]; [|done|done].
  rewrite IH. unfold on_operations, map_err, zoom. cbn. by destruct (for_each l f t n1) as [[[] ?] ?].
Qed.

(** [revoke_scope_tree] on a recorded process scope. *)
Lemma revoke_process_scope R c n s sc :
  inv R true (ct_state c) n → scopes (ct_state c) !! s = Some sc → is_Some (parent_of sc) →
  wp (locked (revoke_scope_tree s)) (λ r c' n', inv R true (ct_state c') n' ∧ n ≤ n' ∧ grows_ct c c'
    ∧ r = Ok tt ∧ ∃ sc', scopes (ct_state c') !! s = Some sc' ∧ sc_closed sc' = true) c n.
Proof.
  intros Hi Hs [p Hp]. eapply wp_locked_grow; [apply grow_revoke_scope_tree|done|].
  intros r st' n' Hi' Hn _ Hg Hrun. split_and!; [done|done|by split|..]; destruct (sc_closed sc) eqn:Hc.
  - unfold revoke_scope_tree, mbind, M_bind, get_state in Hrun. rewrite Hs, Hc in Hrun. by injection Hrun.
  - destruct (revoke_scope_tree_spec _ n s sc (inv_wf _ _ _ _ Hi) (inv_tree _ _ _ _ Hi eq_refl) Hs Hc)
      as (st1 & Hrun1 & _). congruence.
  - destruct (Hg _ _ Hs) as (sc' & Hs' & _ & _ & Hcl). cbn. eauto.
  - destruct (revoke_scope_tree_spec _ n s sc (inv_wf _ _ _ _ Hi) (inv_tree _ _ _ _ Hi eq_refl) Hs Hc)
      as (st1 & Hrun1 & _ & _ & _ & _ & Hpar & _). rewrite Hrun in Hrun1. injection Hrun1 as -> -> _.
    rewrite Hp in Hpar. destruct Hpar as [Hcl _]. apply fmap_Some in Hcl as (sc' & ? & ?). cbn. eauto.
Qed.

Lemma cleanup_operations k n i id :
  kernel_ok F k n →
  wp (for_each (ids_for_owner i (k_operations k) id)
        (λ op, on_operations (Operation.cancel op (CancelReason.Other "process_exit"))))
    (λ r k' n', r = Ok tt ∧ n' = n ∧ kernel_ok F k' n ∧ (∃ t, k' = set_operations t k)
       ∧ ∀ op rec, op_records (k_operations k') !! op = Some rec → op_owner rec = id →
           OperationState.is_terminal (op_state rec) = true) k n.
Proof.
  intros Hk. unfold wp. rewrite for_each_on_operations. unfold on_operations, map_err, zoom.
  pose proof (ops_cancel_owned _ (k_operations k) n i id (CancelReason.Other "process_exit") (ko_ops _ _ _ Hk))
    as Hc. unfold wp in Hc. destruct (for_each _ _ (k_operations k) n) as [[r t] n'].
  destruct Hc as (-> & -> & [Hw Hx]). split_and!; [done|done| |by eexists|].
  - eapply kernel_set_operations; [done|lia|]. split; [done|]. intros p op rec Hp. apply Hx. by right.
  - intros op rec Hop Hown. eapply Hx; [by left|done|done].
Qed.

Lemma cleanup_permits k n id :
  kernel_ok F k n →
  wp (on_admission (Json := Json) (revoke_process_permits id))
    (λ r k' n', r = Ok tt ∧ n ≤ n' ∧ kernel_ok F k' n' ∧ (∃ st, k' = set_admission st k)
       ∧ ∀ p rec, active (k_admission k') !! p = Some rec → rec_process_id rec ≠ id) k n.
Proof.
  intros Hk. apply wp_zoom. pose proof (ao_inv _ _ _ _ _ (ko_adm _ _ _ Hk)) as Hi.
  pose proof (revoke_all_spec (k_admission k) n (λ r, rec_process_id r =? id) Hi) as Hs.
  pose proof (revoke_all_grows (k_admission k) n (λ r, rec_process_id r =? id) Hi) as Hg.
  unfold wp, revoke_process_permits in *.
  destruct (revoke_all _ (k_admission k) n) as [[r st] n']. destruct Hs as (-> & [Hn Hw _ _] & _ & Ha).
  split_and!; [done|done| |by eexists|].
  - eapply kernel_set_admission; [done|done|]. eapply adm_step; [apply (ko_adm _ _ _ Hk)|done|done|].
    intros p rec Hp. left. rewrite Ha in Hp. by apply map_lookup_filter_Some in Hp as [? _].
  - cbn. intros p rec Hp. rewrite Ha in Hp. apply map_lookup_filter_Some in Hp as [_ Hf]. by apply N.eqb_neq.
Qed.

(** The budget step: the recorded scope, if any, is closed. *)
Lemma cleanup_budget k n id :
  kernel_ok F k n →
  wp (match own_processes (k_ownership k) !! id with
      | Some scope => map_err (KBudget "budget cleanup failed") (on_controller (locked (revoke_scope_tree scope)))
      | None => mret tt
      end : M KernelRuntime KernelError unit)
    (λ r k' n', r = Ok tt ∧ n ≤ n' ∧ kernel_ok F k' n'
       ∧ (∃ st, active st = active (k_admission k) ∧ k' = set_admission st k)
       ∧ ∀ c s sc, budget (k_admission k') = Some c → own_processes (k_ownership k) !! id = Some s →
           scopes (ct_state c) !! s = Some sc → sc_closed sc = true) k n.
Proof.
  intros Hk. destruct (own_processes (k_ownership k) !! id) as [s|] eqn:Hown.
  2: { apply wp_ret. split_and!; [done|lia|done|exists (k_admission k); split; [done|by destruct k]|done]. }
  apply wp_map_err. eapply (wp_controller F _ (λ c r c' n', r = Ok tt
    ∧ ∃ sc', scopes (ct_state c') !! s = Some sc' ∧ sc_closed sc' = true)); [done|..].
  - intros c Hc Hi. destruct (ao_scopes _ _ _ _ _ (ko_adm _ _ _ Hk) c id s Hc Hown) as (sc & Hsc & Hpar & _).
    by eapply revoke_process_scope.
  - intros c r c' n' Hc Hd Hn (-> & sc' & Hsc' & Hcl) _ Hk'. split_and!; [done|done|done| |].
    { by exists (with_budget (Some c') (k_admission k)). }
    intros x s' sc [= <-] [= <-] Hsc. congruence.
Qed.

(** The mailbox step: the process's target is unregistered. *)
Lemma cleanup_mailbox k n id :
  kernel_ok F k n →
  wp (match k_mailboxes k !! id with
      | Some target =>
          modify (λ k, set_process_mailboxes (delete id (k_mailboxes k)) k) ;;
          on_mail (unregister target) ;; mret tt
      | None => mret tt
      end : M KernelRuntime KernelError unit)
    (λ r k' n', r = Ok tt ∧ n' = n ∧ kernel_ok F k' n
       ∧ (∃ m po, k' = set_mail po (set_process_mailboxes m k) ∧ m !! id = None ∧ m ⊆ k_mailboxes k
            ∧ po_mailboxes po ⊆ po_mailboxes (k_mail k)
            ∧ ∀ target, k_mailboxes k !! id = Some target → po_mailboxes po !! target = None)) k n.
Proof.
  intros Hk. destruct (k_mailboxes k !! id) as [target|] eqn:Hm.
  2: { apply wp_ret. split_and!; [done|done|done|]. exists (k_mailboxes k), (k_mail k).
       split_and!; [by destruct k|done|done|done|done]. }
  wp_steps. unfold unregister. wp_steps. split_and!; [done|done|..].
  - apply kernel_set_mail.
    + apply kernel_set_process_mailboxes; [done|]. intros i Hx. rewrite lookup_delete_None. right.
      by eapply ko_mail.
    + intros t Hu. cbn. rewrite lookup_delete_None. right. by eapply ko_targets.
  - eexists (delete id (k_mailboxes k)), _. split_and!; [done|apply lookup_delete_eq|apply delete_subseteq| |].
    + cbn. apply delete_subseteq.
    + intros t [= <-]. cbn. apply lookup_delete_eq.
Qed.

(** The whole cleanup.  It fails only by an injected fault or for an unknown
    process, before it has changed anything. *)
Lemma cleanup_spec k n id :
  kernel_ok F k n →
  wp (cleanup_process_resources faults id) (λ r k' n', kernel_ok F k' n' ∧ n ≤ n' ∧ cleanup_frame k k'
    ∧ match r with
      | Ok _ => cleaned k' id
          ∧ ∀ target, k_mailboxes k !! id = Some target → po_mailboxes (k_mail k') !! target = None
      | Err _ => k' = k ∧ (records (k_processes k) !! id = None ∨ is_Some (faults n id))
      | Panic => False
      end) k n.
Proof.
  intros Hk. unfold cleanup_process_resources, before_process_cleanup.
  assert (Hsame : cleanup_frame k k) by by split.
  apply wp_bind, wp_bind, wp_tick. destruct (faults n id) as [f|] eqn:Hf.
  { apply wp_throw. split_and!; [eapply kernel_mono; [|done]; lia|lia|done|done|eauto]. }
  apply wp_ret. apply wp_bind. unfold wp at 1. rewrite inspect_process_run.
  destruct (records (k_processes k) !! id) as [rt|] eqn:Hid.
  2: { split_and!; [eapply kernel_mono; [|done]; lia|lia|done|done|auto]. }
  apply wp_bind, wp_tick, wp_bind, wp_get, wp_bind.
  assert (Hk0 : kernel_ok F k (n + 1 + 1)) by (eapply kernel_mono; [|done]; lia).
  eapply wp_mono; [by apply cleanup_operations|].
  intros r1 k1 n1 (-> & -> & Hk1 & (t & ->) & Hops). apply wp_bind.
  apply (wp_mono _ (λ r k' n', r = Ok tt ∧ n + 1 + 1 ≤ n' ∧ kernel_ok F k' n'
    ∧ (∃ st, k' = set_admission st (set_operations t k))
    ∧ (k_production k = true → ∀ p rec, active (k_admission k') !! p = Some rec → rec_process_id rec ≠ id))).
  { cbn. destruct (k_production k).
    - apply wp_map_err. eapply wp_mono; [by apply cleanup_permits|].
      intros r k' n' (-> & Hn & Hk' & Hst & Ha). by split_and!.
    - apply wp_ret. split_and!; [done|lia|done|exists (k_admission k); by destruct k|done]. }
  intros r2 k2 n2 (-> & Hn2 & Hk2 & (st & ->) & Hact). apply wp_bind, wp_get, wp_bind.
  eapply wp_mono; [by apply (cleanup_budget _ _ id)|].
  intros r3 k3 n3 (-> & Hn3 & Hk3 & (st3 & Hact3 & ->) & Hbud). apply wp_bind, wp_get, wp_bind.
  eapply wp_mono; [by apply (cleanup_mailbox _ _ id)|].
  intros r4 k4 n4 (-> & -> & Hk4 & (m & po & -> & Hm & Hmsub & Hsub & Htgt)).
  apply wp_bind, wp_zoom. unfold Space.release. wp_steps.
  split_and!; [|lia|by split|..].
  - eapply kernel_set_processes; [exact Hk4|done| |apply (ko_registry _ _ _ Hk4)]. cbn.
    apply (procs_set_spaces _ _ _ (delete (pr_space (rt_record rt)))); [apply (ko_procs _ _ _ Hk4)|].
    intros s Hs. rewrite lookup_delete_None. by right.
  - split; cbn.
    + exact Hops.
    + intros Hprod p rec Hp. rewrite Hact3 in Hp. by eapply Hact.
    + exact Hbud.
    + done.
    + intros rt' Hid'. assert (rt' = rt) as -> by (cbn in Hid'; congruence). apply lookup_delete_eq.
  - exact Htgt.
Qed.

Lemma kept_cleanup id : kept F (cleanup_process_resources faults id).
Proof.
  intros k n Hk. eapply wp_mono; [by apply cleanup_spec|]. intros r k' n' (? & ? & _ & Hr).
  split_and!; [done|done|]. by intros ->.
Qed.

End Cleanup.
End Invariant.
