(* ===== verification/RuntimeSpec.v ===== *)
(** * The kernel runtime: the terminal transaction

    Terminating a process runs four phases (cleanup, marking, supervision,
    restarts), remembers how far it came, and releases everything the process
    held, once.  The file proves this for a first attempt and for one that
    resumes, through the frames of [RuntimeInv]. *)
From S2P Require Import Prelude FabricTypes Budget BudgetInv BudgetSpec Lease Admission AdmissionInv.
From S2P Require Import Space Process Operation Supervision Mailbox BudgetGrow Runtime RuntimeInv.
Import Production.

Section Spec.
Context `{HEnv : Env} {Json : Type}.

(** Everything the process held is gone, and its record is terminal. *)
Record released (k : KernelRuntime (Json := Json)) (id : ProcessId) : Prop := {
  rl_terminal : ∃ rt, records (k_processes k) !! id = Some rt
    ∧ ProcessState.is_terminal (pr_state (rt_record rt)) = true
    ∧ spaces (k_processes k) !! pr_space (rt_record rt) = None;
  rl_operations : ∀ op r, op_records (k_operations k) !! op = Some r → op_owner r = id →
    OperationState.is_terminal (op_state r) = true;
  rl_permits : k_production k = true → active_permits_for_process k id = 0%nat;
  rl_budget : ∀ c s, budget (k_admission k) = Some c → own_processes (k_ownership k) !! id = Some s →
    ∃ sc, scopes (ct_state c) !! s = Some sc ∧ sc_closed sc = true
          ∧ ∀ x, below (ct_state c) s x → sc_closed <$> scopes (ct_state c) !! x = Some true;
  rl_mailbox : k_mailboxes k !! id = None;
}.

(** How far a termination has to go. *)
Definition phase_rank (p : TerminalPhase) : nat :=
  match p with PhCleanup => 3 | PhMarkTerminal => 2 | PhSupervise => 1 | PhRestart => 0 end.

Section Terminal.
Context {HOk : EnvOk} (F : Frame) (faults : N → ProcessId → option string).
Implicit Types (k : KernelRuntime (Json := Json)).

(** With no orphans, everything below a closed scope is closed. *)
Lemma closed_below st n s sc :
  linked st n → no_orphans st → scopes st !! s = Some sc → sc_closed sc = true →
  ∀ x, below st s x → sc_closed <$> scopes st !! x = Some true.
Proof.
  intros Hl Ht Hs Hc x Hx. induction Hx as [x xsc Hx Hp|x xsc y Hx Hp Hy IH].
  - rewrite Hx. cbn. f_equal. by eapply Ht.
  - apply fmap_Some in IH as (ysc & Hy' & Hyc). rewrite Hx. cbn. f_equal. by eapply (Ht x y).
Qed.

Lemma kernel_released k n id : kernel_ok F k n → fr_released F id → released k id.
Proof.
  intros [Hp Ho Ha Hm _ _ _ _] Hx. split.
  - by apply (po_released _ _ _ Hp).
  - intros op r. by apply (oo_released _ _ Ho).
  - intros Hprod. unfold active_permits_for_process. rewrite Hprod. unfold active_for_process.
    apply map_size_empty_iff, map_eq. intros p. rewrite lookup_empty. apply map_lookup_filter_None.
    destruct (active (k_admission k) !! p) as [r|] eqn:Hr; [|by left]. right. intros r' [= <-].
    by apply (ao_permits _ _ _ _ _ Ha Hprod id p).
  - intros c s Hc Hown. destruct (ao_scopes _ _ _ _ _ Ha c id s Hc Hown) as (sc & Hsc & _ & Hcl).
    exists sc. split_and!; [done|auto|].
    pose proof (aw_budget _ _ (ao_inv _ _ _ _ _ Ha) c Hc) as Hi.
    eapply closed_below; [by eapply wf_linked, inv_wf|by eapply inv_tree|done|auto].
  - auto.
Qed.

Lemma kernel_restarting k n id p :
  kernel_ok F k n → k_progress k !! id = Some p → tp_phase p = PhRestart →
  kernel_ok (frame_restart id F) k n.
Proof.
  intros [Hp Ho [? ? ? ? ?] Hm Ht Hpr Hre Hg] Hid Hph. split; try done.
  intros i [->|Hx]; [eauto|auto].
Qed.

Lemma kernel_unregister k n (T : Target → Prop) :
  kernel_ok F k n → (∀ t, T t → po_mailboxes (k_mail k) !! t = None) →
  kernel_ok (frame_unregister T F) k n.
Proof.
  intros [Hp Ho [? ? ? ? ?] Hm Ht Hpr Hre Hg] HT. split; try done.
  intros t [Hx|Hx]; auto.
Qed.

(** Changing the progress of one termination that is not yet restarting. *)
Lemma kernel_progress k n id p p' :
  kernel_ok F k n → k_progress k !! id = Some p → (tp_phase p = PhRestart → tp_phase p' = PhRestart) →
  (tp_phase p' = PhRestart → is_Some (tp_decision p')) →
  kernel_ok F (set_progress (<[id := p']> (k_progress k)) k) n.
Proof.
  intros Hk Hid Hstay Hdec. apply kernel_set_progress; [done|..].
  - intros i q Hi Hq. split_lookup; [auto|]. by eapply ko_progress.
  - intros i Hi. destruct (ko_restarting _ _ _ Hk i Hi) as (q & Hq & Hph).
    destruct (decide (i = id)) as [->|].
    + simplify_eq. rewrite lookup_insert_eq. eauto.
    + rewrite lookup_insert_ne by done. eauto.
Qed.

Lemma progress_of_run k n id p : k_progress k !! id = Some p → progress_of id k n = (Ok p, k, n).
Proof. intros Hp. unfold progress_of, mbind, M_bind, get_state. by rewrite Hp. Qed.

Lemma update_progress_run k n id f p :
  k_progress k !! id = Some p →
  update_progress id f k n = (Ok tt, set_progress (<[id := f p]> (k_progress k)) k, n).
Proof. intros Hp. unfold update_progress, mbind, M_bind. by rewrite (progress_of_run k n id p). Qed.

Lemma kept_update_progress id f :
  fr_restarting F id → (∀ p, tp_phase (f p) = tp_phase p ∧ tp_decision (f p) = tp_decision p) →
  kept F (update_progress (Json := Json) id f).
Proof.
  intros Hid Hf k n Hk. destruct (ko_restarting _ _ _ Hk id Hid) as (p & Hp & Hph).
  unfold wp. rewrite (update_progress_run k n id f p Hp). destruct (Hf p) as [Hf1 Hf2].
  split_and!; [|lia|done]. eapply kernel_progress; [done|done|congruence|]. rewrite Hf2. intros _.
  by eapply ko_progress.
Qed.

Lemma kept_inspect id : kept F (inspect_process (Json := Json) id).
Proof. apply kept_quiet, quiet_inspect. Qed.

Lemma kept_restart_one id restart_id :
  fr_restarting F id → kept F (restart_one (Json := Json) faults id restart_id).
Proof.
  intros Hid. apply kept_bind.
  - destruct (restart_id =? id); [apply kept_ret|]. apply kept_bind; [apply kept_inspect|]. intros snap.
    destruct (ProcessState.is_terminal (sn_state snap)); [apply kept_ret|].
    apply kept_bind; [apply kept_cleanup|]. intros _. apply kept_quiet, quiet_mark_exit.
  - intros _. apply kept_bind; [apply kept_get|]. intros k0. destruct (k_specs k0 !! restart_id) as [spec|];
      [|apply kept_ret].
    apply kept_bind; [apply kept_spawn_process|]. intros replacement.
    apply kept_bind; [apply kept_modify; intros; by apply kernel_set_supervisor|]. intros _.
    by apply kept_update_progress.
Qed.

(** The [Supervise] phase. *)
Lemma supervise_exit_run k n id p :
  k_progress k !! id = Some p →
  let '(decision, supervisor) := record_exit id (tp_reason p) (k_supervisor k) in
  supervise_exit id k n = (Ok tt, set_progress (<[id :=
      {| tp_reason := tp_reason p; tp_phase := PhRestart; tp_decision := Some decision;
         tp_restart_ids := restart_ids_of id decision; tp_restarted := tp_restarted p |}]>
    (k_progress k)) (set_supervisor supervisor k), n).
Proof.
  intros Hp. unfold supervise_exit, mbind, M_bind. rewrite (progress_of_run k n id p Hp).
  unfold get_state. by destruct (record_exit id (tp_reason p) (k_supervisor k)).
Qed.

Lemma supervise_exit_ok k n id p :
  kernel_ok F k n → k_progress k !! id = Some p →
  ∃ k' p', supervise_exit id k n = (Ok tt, k', n) ∧ kernel_ok F k' n
    ∧ k_progress k' !! id = Some p' ∧ tp_phase p' = PhRestart
    ∧ records (k_processes k') = records (k_processes k)
    ∧ k_progress k' = <[id :=
        {| tp_reason := tp_reason p; tp_phase := PhRestart;
           tp_decision := Some (record_exit id (tp_reason p) (k_supervisor k)).1;
           tp_restart_ids := restart_ids_of id (record_exit id (tp_reason p) (k_supervisor k)).1;
           tp_restarted := tp_restarted p |}]> (k_progress k)
    ∧ k_outcomes k' = k_outcomes k.
Proof.
  intros Hk Hp. pose proof (supervise_exit_run k n id p Hp) as Hrun.
  destruct (record_exit id (tp_reason p) (k_supervisor k)) as [decision sup]. rewrite Hrun.
  eexists _, _. split; [done|]. split; [|split_and!; [cbn; apply lookup_insert_eq|done..]].
  change (k_progress k) with (k_progress (set_supervisor sup k)).
  eapply kernel_progress; [by apply kernel_set_supervisor|done|done|done].
Qed.

Lemma ensure_exited_spec k n id reason :
  kernel_ok F k n →
  wp (ensure_exited (Json := Json) id reason) (λ r k' n', kernel_ok F k' n' ∧ n ≤ n' ∧ r ≠ Panic
    ∧ (∃ t, k' = set_processes t k ∧ spaces t = spaces (k_processes k))
    ∧ ∀ rt, records (k_processes k) !! id = Some rt → r = Ok tt ∧
        ∃ rt', records (k_processes k') = <[id := rt']> (records (k_processes k))
          ∧ pr_space (rt_record rt') = pr_space (rt_record rt)
          ∧ pr_agent_id (rt_record rt') = pr_agent_id (rt_record rt)
          ∧ pr_ownership (rt_record rt') = pr_ownership (rt_record rt)
          ∧ ProcessState.is_terminal (pr_state (rt_record rt')) = true) k n.
Proof.
  intros Hk. unfold ensure_exited. apply wp_bind. unfold wp at 1. rewrite inspect_process_run.
  assert (Hsame : ∃ t, k = set_processes t k ∧ spaces t = spaces (k_processes k))
    by (exists (k_processes k); by destruct k).
  destruct (records (k_processes k) !! id) as [rt|] eqn:Hid; [|split_and!; [done|lia|done|done|done]].
  cbn [sn_state snapshot]. destruct (ProcessState.is_terminal (pr_state (rt_record rt))) eqn:Ht.
  - apply wp_ret. split_and!; [done|lia|done|done|]. intros rt' [= <-]. split; [done|]. exists rt.
    by rewrite insert_id.
  - pose proof (kept_quiet F _ (quiet_mark_exit id reason) k n Hk) as Hkept. unfold wp in Hkept |- *.
    unfold on_processes, map_err, zoom in *. rewrite (can_exit_lookup _ n id rt reason Hid Ht) in *.
    destruct Hkept as (Hk' & Hn & _). split_and!; [done|done|done|by eexists|].
    intros rt' [= <-]. split; [done|]. eexists. split; [done|]. cbn. by destruct reason.
Qed.

(** The phase loop from any phase: it keeps the invariant, and when it succeeds
    the termination is in its restart phase. *)
Lemma terminal_phases_kept fuel id : ∀ k n p,
  kernel_ok F k n → k_progress k !! id = Some p → (phase_rank (tp_phase p) < fuel)%nat →
  wp (terminal_phases (Json := Json) faults fuel id) (λ r k' n', kernel_ok F k' n' ∧ n ≤ n' ∧ r ≠ Panic
    ∧ (r = Ok tt → kernel_ok (frame_restart id F) k' n')) k n.
Proof.
  induction fuel as [|fuel IH]; intros k n p Hk Hp Hfuel; [lia|].
  cbn [terminal_phases]. apply wp_bind. unfold wp at 1. rewrite (progress_of_run k n id p Hp).
  destruct (tp_phase p) eqn:Hph; cbn in Hfuel.
  - apply wp_bind. eapply wp_mono; [by apply cleanup_spec|].
    intros r k1 n1 (Hk1 & Hn1 & Hfr & Hr). destruct r as [[]|e|]; [|by split_and!|done].
    assert (Hp1 : k_progress k1 !! id = Some p) by (by rewrite (cf_progress _ _ Hfr)).
    apply wp_bind. unfold wp at 1. rewrite (update_progress_run k1 n1 id _ p Hp1).
    eapply wp_mono; [eapply (IH _ _ (set_phase PhMarkTerminal p)); [|apply lookup_insert_eq|cbn; lia]|].
    + eapply kernel_progress; [done|done|congruence|done].
    + intros r k2 n2 (? & ? & ? & ?). split_and!; [done|lia|done|done].
  - apply wp_bind. eapply wp_mono; [by apply ensure_exited_spec|].
    intros r k1 n1 (Hk1 & Hn1 & Hnp & (t & -> & _) & _). destruct r as [[]|e|]; [|by split_and!|done].
    apply wp_bind. unfold wp at 1. rewrite (update_progress_run (set_processes t k) n1 id _ p Hp).
    eapply wp_mono; [eapply (IH _ _ (set_phase PhSupervise p)); [|apply lookup_insert_eq|cbn; lia]|].
    + eapply kernel_progress; [done|done|congruence|done].
    + intros r k2 n2 (? & ? & ? & ?). split_and!; [done|lia|done|done].
  - apply wp_bind. destruct (supervise_exit_ok k n id p Hk Hp) as (k1 & p1 & Hrun & Hk1 & Hp1 & Hph1 & _).
    unfold wp at 1. rewrite Hrun. eapply IH; [done|done|rewrite Hph1; cbn; lia].
  - apply wp_ret. split_and!; [done|lia|done|]. intros _. by eapply kernel_restarting.
Qed.

(** Ending a cleaned process releases it. *)
Lemma release_after_exit k n id reason rt :
  kernel_ok F k n → cleaned k id → records (k_processes k) !! id = Some rt →
  wp (ensure_exited (Json := Json) id reason) (λ r k' n', r = Ok tt ∧ n ≤ n'
    ∧ kernel_ok (frame_release id F) k' n' ∧ ∃ t, k' = set_processes t k
    ∧ ∃ rt', records t = <[id := rt']> (records (k_processes k))
       ∧ ProcessState.is_terminal (pr_state (rt_record rt')) = true
       ∧ pr_ownership (rt_record rt') = pr_ownership (rt_record rt)) k n.
Proof.
  intros Hk Hcl Hid. eapply wp_mono; [by apply ensure_exited_spec|].
  intros r k' n' (Hk' & Hn & _ & (t & -> & Hsp) & Hrt).
  destruct (Hrt rt Hid) as (-> & rt' & Hrec & Hspace & _ & Hown & Hterm).
  split_and!; [done|done| |exists t; split; [done|by exists rt']].
  eapply kernel_release; [done| |cbn in *; rewrite Hrec; apply lookup_insert_eq|done].
  destruct Hcl as [? ? ? ? Hcs]. split; try done. cbn in *. intros rt0. rewrite Hrec, lookup_insert_eq.
  intros [= <-]. rewrite Hsp, Hspace. by apply Hcs.
Qed.

End Terminal.

Section Release.
Context {HOk : EnvOk} (faults : N → ProcessId → option string).
Implicit Types (k : KernelRuntime (Json := Json)) (F : Frame).

(** What a completed first termination adds to the frame. *)
Definition frame_done (k : KernelRuntime (Json := Json)) (id : ProcessId) (F : Frame) : Frame :=
  frame_restart id (frame_release id (frame_unregister (λ t, k_mailboxes k !! id = Some t) F)).

(** Of the records, progresses and outcomes, the phase loop changes the record
    and the progress of its process only. *)
Record phases_frame (id : ProcessId) (p : TerminalProgress) (k k' : KernelRuntime (Json := Json))
    : Prop := {
  pf_records : ∀ rt, records (k_processes k) !! id = Some rt → ∃ rt',
    records (k_processes k') = <[id := rt']> (records (k_processes k))
    ∧ ProcessState.is_terminal (pr_state (rt_record rt')) = true
    ∧ pr_ownership (rt_record rt') = pr_ownership (rt_record rt);
  pf_progress : k_progress k' = <[id :=
    {| tp_reason := tp_reason p; tp_phase := PhRestart;
       tp_decision := Some (record_exit id (tp_reason p) (k_supervisor k)).1;
       tp_restart_ids := restart_ids_of id (record_exit id (tp_reason p) (k_supervisor k)).1;
       tp_restarted := tp_restarted p |}]> (k_progress k);
  pf_outcomes : k_outcomes k' = k_outcomes k;
}.

(** The phase loop of a first termination: all four phases, with everything of
    the process released at the end. *)
Lemma terminal_phases_release F k n id p rt :
  kernel_ok F k n → k_progress k !! id = Some p → tp_phase p = PhCleanup →
  records (k_processes k) !! id = Some rt → faults n id = None →
  wp (terminal_phases (Json := Json) faults 4 id) (λ r k' n', n ≤ n' ∧ r = Ok tt
    ∧ kernel_ok (frame_done k id F) k' n' ∧ phases_frame id p k k') k n.
Proof.
  intros Hk Hp Hph Hid Hf. change 4%nat with (S 3). cbn [terminal_phases].
  apply wp_bind. unfold wp at 1. rewrite (progress_of_run k n id p Hp), Hph.
  apply wp_bind. eapply wp_mono; [by apply cleanup_spec|].
  intros r k1 n1 (Hk1 & Hn1 & Hfr & Hr). destruct r as [[]|e|]; [|exfalso|done].
  2: { destruct Hr as (_ & [Hr|Hr]); [congruence|]. rewrite Hf in Hr. by destruct Hr. }
  destruct Hr as [Hcl Htgt]. apply (kernel_unregister _ _ _ _ Hk1) in Htgt as Hk1'.
  assert (Hp1 : k_progress k1 !! id = Some p) by (by rewrite (cf_progress _ _ Hfr)).
  assert (Hid1 : records (k_processes k1) !! id = Some rt) by (by rewrite (cf_records _ _ Hfr)).
  apply wp_bind. unfold wp at 1. rewrite (update_progress_run k1 n1 id _ p Hp1).
  set (k2 := set_progress _ k1). set (F2 := frame_unregister _ F) in *.
  assert (Hk2 : kernel_ok F2 k2 n1) by (eapply kernel_progress; [done|done|congruence|done]).
  apply wp_bind. unfold wp at 1. rewrite (progress_of_run k2 n1 id (set_phase PhMarkTerminal p))
    by apply lookup_insert_eq. cbn [tp_phase set_phase].
  apply wp_bind. eapply wp_mono; [apply (release_after_exit F2 k2 n1 id _ rt); [done| |done]|].
  { by destruct Hcl; split. }
  intros r k3 n3 (-> & Hn3 & Hk3 & t & -> & rt' & Hrt'). apply wp_bind. unfold wp at 1.
  rewrite (update_progress_run _ n3 id _ (set_phase PhMarkTerminal p)) by apply lookup_insert_eq.
  set (k4 := set_progress _ (set_processes t k2)).
  assert (Hp4 : k_progress k4 !! id = Some (set_phase PhSupervise (set_phase PhMarkTerminal p)))
    by apply lookup_insert_eq.
  assert (Hk4 : kernel_ok (frame_release id F2) k4 n3).
  { eapply kernel_progress; [done|apply lookup_insert_eq|done|done]. }
  apply wp_bind. unfold wp at 1. rewrite (progress_of_run k4 n3 id _ Hp4). cbn [tp_phase set_phase].
  destruct (supervise_exit_ok (frame_release id F2) k4 n3 id _ Hk4 Hp4)
    as (k5 & p5 & Hrun & Hk5 & Hp5 & Hph5 & Hfr5).
  apply wp_bind. unfold wp at 1. rewrite Hrun. apply wp_bind. unfold wp at 1.
  rewrite (progress_of_run k5 n3 id p5 Hp5), Hph5. apply wp_ret. split_and!; [lia|done|by eapply kernel_restarting|].
  destruct Hfr5 as (Hr5 & Hg5 & Ho5). destruct Hfr as [Hfr Hfs _ _ _ Hfo Hfp _ _ _].
  cbn in Hr5, Hg5, Ho5, Hrt'. split.
  - intros rt0 Hid0. assert (rt0 = rt) as -> by congruence. exists rt'. rewrite Hr5, <- Hfr. by destruct Hrt'.
  - rewrite Hg5. cbn. rewrite !insert_insert_eq, <- Hfs, <- Hfp. done.
  - congruence.
Qed.


Lemma frame_le_restart id F : frame_le F (frame_restart id F).
Proof. split_and!; cbn; auto. Qed.

Lemma publish_outcome_spec F k n id :
  kernel_ok (frame_restart id F) k n → ¬ fr_restarting F id →
  wp (publish_outcome (Json := Json) id) (λ r k' n', kernel_ok F k' n' ∧ n' = n
    ∧ ∃ o, r = Ok o ∧ to_process o = id ∧ k_outcomes k' !! id = Some o) k n.
Proof.
  intros Hk Hid. destruct (ko_restarting _ _ _ Hk id) as (p & Hp & Hph); [by left|].
  destruct (ko_progress _ _ _ Hk id p Hp Hph) as [d Hd]. apply (kernel_weaken _ F) in Hk; [|apply frame_le_restart].
  unfold publish_outcome. apply wp_bind. unfold wp at 1. rewrite (progress_of_run k n id p Hp), Hd.
  wp_steps. split_and!; [|done|eexists; split_and!; [done|done|cbn; apply lookup_insert_eq]].
  apply kernel_set_outcomes, kernel_set_progress; [done|..].
  - intros i q Hq. split_lookup. by eapply ko_progress.
  - intros i Hi. destruct (ko_restarting _ _ _ Hk i Hi) as (q & Hq & Hphq).
    rewrite lookup_delete_ne; [eauto|]. by intros <-.
Qed.

(** A termination from its restart phase on. *)
Lemma finish_spec F k n id :
  kernel_ok (frame_restart id F) k n → ¬ fr_restarting F id →
  wp (progress ← progress_of id;
      for_each (drop (length (tp_restarted progress)) (tp_restart_ids progress))
        (restart_one (Json := Json) faults id) ;;
      publish_outcome id)
    (λ r k' n', kernel_ok F k' n' ∧ n ≤ n' ∧ (r = Panic → fr_durable F = true)
       ∧ ∀ o, r = Ok o → to_process o = id ∧ k_outcomes k' !! id = Some o) k n.
Proof.
  intros Hk Hid. destruct (ko_restarting _ _ _ Hk id) as (p & Hp & _); [by left|].
  apply wp_bind. unfold wp at 1. rewrite (progress_of_run k n id p Hp). apply wp_bind.
  eapply wp_mono; [apply (kept_for_each (frame_restart id F)); [|done]|].
  { intros x. apply kept_restart_one. by left. }
  intros [[]|e|] k1 n1 (Hk1 & Hn1 & Hpn); 
    [|split_and!; first [by eapply kernel_weaken; [apply frame_le_restart|]|done|auto]..].
  eapply wp_mono; [by apply publish_outcome_spec|].
  intros r k2 n2 (Hk2 & -> & o & -> & Ho & Hout). split_and!; [done|done|done|].
  by intros o' [= <-].
Qed.

Lemma begin_progress_ok F k n id reason :
  kernel_ok F k n → ∃ p, k_progress (begin_progress id reason k) !! id = Some p
    ∧ (k_progress k !! id = Some p ∨ p = first_progress reason)
    ∧ kernel_ok F (begin_progress id reason k) n.
Proof.
  intros Hk. unfold begin_progress. destruct (k_progress k !! id) as [p|] eqn:Hp; [eauto|].
  exists (first_progress reason). split_and!; [cbn; apply lookup_insert_eq|auto|].
  apply kernel_set_progress; [done|..].
  - intros i q Hq Hph. split_lookup; [done|]. by eapply ko_progress.
  - intros i Hi. destruct (ko_restarting _ _ _ Hk i Hi) as (q & Hq & Hphq). exists q.
    rewrite lookup_insert_ne; [done|]. intros <-. congruence.
Qed.

(** Terminating, from any point a former attempt left. *)
Lemma kept_terminate F id reason :
  ¬ fr_restarting F id → kept F (terminate_process (Json := Json) faults id reason).
Proof.
  intros Hid k n Hk. unfold terminate_process. apply wp_bind, wp_get.
  destruct (k_outcomes k !! id) as [o|]; [apply wp_ret; split_and!; [done|lia|done]|].
  apply wp_bind, wp_modify.
  destruct (begin_progress_ok F k n id reason Hk) as (p & Hp & _ & Hk1).
  apply wp_bind. eapply wp_mono; [eapply terminal_phases_kept; [done|done|]|].
  { destruct (tp_phase p); cbn; lia. }
  intros [[]|e|] k2 n2 (Hk2 & Hn2 & Hnp & Hre); [|by split_and!|done].
  eapply wp_mono; [apply (finish_spec F); [by apply Hre|done]|].
  intros r k3 n3 (? & ? & ? & _). split_and!; [done|lia|done].
Qed.

Lemma terminate_again id reason o k n :
  k_outcomes k !! id = Some o → terminate_process (Json := Json) faults id reason k n = (Ok o, k, n).
Proof. intros Ho. unfold terminate_process, mbind, M_bind, get_state. by rewrite Ho. Qed.

(** C32. The terminal transaction: terminating a known process that is not yet
    being terminated (or whose earlier attempt was stopped before its cleanup)
    leaves, on every outcome and whatever the restarts after it do, the process
    terminal and everything it held released: its operations are terminal, no
    permit of it is active, its budget scope and all below it are closed, its
    mailbox is unregistered and its space gone.  The kernel invariant holds, the
    model panics only with a durable budget, and once the transaction has
    succeeded, repeating it returns the same outcome and changes nothing. *)
Theorem terminate_releases_everything durable k n id rt reason :
  kernel_ok (frame_none durable) k n → k_outcomes k !! id = None →
  (k_progress k !! id = None ∨ ∃ p, k_progress k !! id = Some p ∧ tp_phase p = PhCleanup) →
  records (k_processes k) !! id = Some rt → faults n id = None →
  ∃ r k' n', terminate_process faults id reason k n = (r, k', n')
    ∧ kernel_ok (frame_none durable) k' n' ∧ released k' id ∧ (r = Panic → durable = true)
    ∧ (∀ target, k_mailboxes k !! id = Some target → po_mailboxes (k_mail k') !! target = None)
    ∧ ∀ outcome reason' m, r = Ok outcome →
        to_process outcome = id ∧ terminate_process faults id reason' k' m = (Ok outcome, k', m).
Proof.
  intros Hk Hout Hpr Hid Hf.
  assert (Hwp : wp (terminate_process faults id reason) (λ r k' n',
    kernel_ok (frame_release id (frame_unregister (λ t, k_mailboxes k !! id = Some t) (frame_none durable))) k' n'
    ∧ (r = Panic → durable = true)
    ∧ ∀ o, r = Ok o → to_process o = id ∧ k_outcomes k' !! id = Some o) k n).
  { unfold terminate_process. apply wp_bind, wp_get. rewrite Hout. apply wp_bind, wp_modify.
    destruct (begin_progress_ok _ k n id reason Hk) as (p & Hp & Hp0 & Hk1).
    assert (Hsame : k_processes (begin_progress id reason k) = k_processes k
                    ∧ k_mailboxes (begin_progress id reason k) = k_mailboxes k)
      by (unfold begin_progress; by destruct (k_progress k !! id)).
    destruct Hsame as [Hps Hms]. apply wp_bind.
    eapply wp_mono; [eapply (terminal_phases_release _ _ n id p rt); [done|done| |by rewrite Hps|done]|].
    { destruct Hp0 as [Hp0| ->]; [|done]. destruct Hpr as [Hpr|(q & Hq & Hph)]; congruence. }
    intros r k2 n2 (Hn2 & -> & Hk2 & _). unfold frame_done in Hk2. rewrite Hms in Hk2.
    eapply wp_mono; [eapply finish_spec; [exact Hk2|cbn; tauto]|].
    intros r k3 n3 (? & _ & ? & ?). by split_and!. }
  unfold wp in Hwp. destruct (terminate_process faults id reason k n) as [[r k'] n'].
  destruct Hwp as (Hk' & Hpan & Ho). exists r, k', n'. split_and!; [done|..].
  - eapply kernel_weaken; [|exact Hk']. by split_and!.
  - eapply kernel_released; [exact Hk'|by left].
  - done.
  - intros t Ht. apply (ko_targets _ _ _ Hk'). by left.
  - intros o reason' m Hr. destruct (Ho o Hr) as [Hp Hout']. split; [done|by apply terminate_again].
Qed.

End Release.
End Spec.
