(* ===== verification/KernelRun.v ===== *)
(** * Runs of the kernel

    The calls clients make of the kernel, one after another from boot, in any
    order: the runtime's own methods and the admission, budget, lease and space
    interfaces it hands out.  The transfer of remaining capacity between scopes
    is left out (it may close a scope above open ones, see [BudgetSpec]), and so
    is what goes through the queues of the mailboxes (see [Mailbox]).  No run panics, and every run keeps the kernel invariant:
    budgets are conserved, and an agent has one live process at most. *)
From S2P Require Import Prelude FabricTypes Budget BudgetInv BudgetSpec Lease Admission AdmissionInv.
From S2P Require Import Space Process Operation Supervision Mailbox BudgetGrow Runtime RuntimeInv RuntimeSpec.
Import Production.

Section Runs.
Context `{HEnv : Env} {Json : Type} (faults : N → ProcessId → option string).

Inductive KernelCall :=
| KSpawn (spec : SpawnSpec)
| KSignal (id : ProcessId) (sig : ProcessSignal.t)
| KExit (id : ProcessId) (reason : ExitReason.t)
| KReap (id : ProcessId)
| KDisconnect (connection : ConnectionId)
| KSetActive (id : ProcessId) (operation : option OperationId)
| KSupervise (id : ProcessId) (policy : RestartPolicy)
| KBindOsPid (id : ProcessId) (pid : OsProcessId)
| KRegisterMailbox (id : ProcessId) (target : Target) (mailbox : MailboxRef)
| KSubmit (request : OperationRequest)
| KSubmitWithId (id : OperationId) (request : OperationRequest)
| KStart (id : OperationId)
| KSucceed (id : OperationId)
| KFail (id : OperationId) (message : string)
| KPanic (id : OperationId) (message : string)
| KCancel (id : OperationId) (reason : CancelReason.t)
| KCreateRollout (rollout : string) (limit : BudgetRequest)
| KReserveProcess (scope : BudgetScopeId) (id : ProcessId) (request : BudgetRequest)
| KReserveOperation (scope : BudgetScopeId) (id : OperationId) (request : BudgetRequest)
| KReserveCapability (scope : BudgetScopeId) (permit : PermitId) (request : BudgetRequest)
| KCreateRoot (owner : string) (limit : BudgetRequest)
| KReserveChild (parent : BudgetScopeId) (kind : BudgetScopeKind.t) (owner : string)
    (request : BudgetRequest)
| KSettleReservation (r : BudgetReservationId) (usage : UsageReport)
| KRevokeReservation (r : BudgetReservationId)
| KAdmit (request : AdmissionRequest)
| KSettle (permit : PermitId) (usage : UsageReport)
| KRevoke (permit : PermitId) (reason : RevokeReason.t)
| KAcquireLease (principal : string) (request : LeaseRequest) (now_mono_ms : N)
| KReleaseLease (id : ResourceLeaseId)
| KUnregisterMailbox (target : Target)
| KUpsertBinding (space : SpaceId) (binding : ContextBinding.t)
| KSetOverlay (space : SpaceId) (key : string) (value : Json)
| KReleaseSpace (space : SpaceId).

Abbreviation K := (M (KernelRuntime (Json := Json)) KernelError).

Definition budget_call {A} (m : M (KernelRuntime (Json := Json)) AdmissionError.t A) : K unit :=
  map_err (KBudget "call") m ;; mret tt.

(** A call of the lease manager the kernel shares with admission. *)
Definition on_lease_manager {A} (m : M LeaseState AdmissionError.t A)
    : M Production.State AdmissionError.t unit :=
  st ← get_state;
  match lease_mgr st with
  | Some l => on_leases l m ;; mret tt
  | None => mret tt
  end.

Definition kernel_call (call : KernelCall) : K unit :=
  match call with
  | KSpawn spec => spawn_process spec ;; mret tt
  | KSignal id sig => signal_process faults id sig
  | KExit id reason => exit_process faults id reason
  | KReap id => reap_process id ;; mret tt
  | KDisconnect connection => cleanup_disconnected_connection faults connection ;; mret tt
  | KSetActive id operation => kernel_set_active_operation id operation
  | KSupervise id policy => kernel_supervise id policy
  | KBindOsPid id pid => bind_os_process_id id pid ;; mret tt
  | KRegisterMailbox id target mailbox => register_process_mailbox id target mailbox
  | KSubmit request => submit_operation request ;; mret tt
  | KSubmitWithId id request => submit_operation_with_id id request ;; mret tt
  | KStart id => start_operation id
  | KSucceed id => succeed_operation id
  | KFail id message => fail_operation id message
  | KPanic id message => panic_operation id message
  | KCancel id reason => cancel_operation id reason
  | KCreateRollout rollout limit => budget_call (create_rollout_budget rollout limit)
  | KReserveProcess scope id request => budget_call (reserve_process_budget scope id request)
  | KReserveOperation scope id request => budget_call (reserve_operation_budget scope id request)
  | KReserveCapability scope permit request =>
      budget_call (reserve_capability_budget scope permit request)
  | KCreateRoot owner limit => budget_call (on_controller (create_root owner limit))
  | KReserveChild parent kind owner request =>
      budget_call (on_controller (reserve_child parent kind owner request))
  | KSettleReservation r usage => budget_call (on_controller (settle_reservation r usage))
  | KRevokeReservation r => budget_call (on_controller (revoke_reservation r))
  | KAdmit request => budget_call (on_admission (admit_ request))
  | KSettle permit usage => budget_call (on_admission (settle permit usage))
  | KRevoke permit reason => budget_call (on_admission (revoke permit reason))
  | KAcquireLease principal request now_mono_ms =>
      budget_call (on_admission (on_lease_manager (acquire principal request now_mono_ms)))
  | KReleaseLease id => budget_call (on_admission (on_lease_manager (Lease.release id)))
  | KUnregisterMailbox target => on_mail (unregister target) ;; mret tt
  | KUpsertBinding space binding => upsert_space_binding space binding
  | KSetOverlay space key value => set_space_overlay space key value
  | KReleaseSpace space => release_space space ;; mret tt
  end.

(** The amounts of a call are [u64] values. *)
Definition call_ok (call : KernelCall) : Prop :=
  match call with
  | KCreateRollout _ request | KReserveProcess _ _ request | KReserveOperation _ _ request
  | KReserveCapability _ _ request | KCreateRoot _ request | KReserveChild _ _ _ request =>
      u64_request request
  | KAdmit request => valid_request request
  | _ => True
  end.

(** The results of the calls and the state they lead to. *)
Fixpoint kernel_run (calls : list KernelCall) (k : KernelRuntime (Json := Json)) (n : N)
    : list (Result KernelError unit) * KernelRuntime (Json := Json) * N :=
  match calls with
  | [] => ([], k, n)
  | call :: rest =>
      match kernel_call call k n with
      | (r, k1, n1) => match kernel_run rest k1 n1 with (rs, k2, n2) => (r :: rs, k2, n2) end
      end
  end.

Section Kept.
Context {HOk : EnvOk} (durable : bool).
Abbreviation F := (frame_none durable).

Lemma ops_ok_none t : ops_ok (fr_released F) t ↔ ops_wf t.
Proof. split; [by intros []|]. intros Hw. by split. Qed.

Lemma set_running_state_ok t n id s exit :
  ops_wf t → (is_Some exit ↔ OperationState.is_terminal s = true) →
  wp (set_running_state id s exit) (λ r t' n', ops_wf t' ∧ n ≤ n' ∧ r ≠ Panic) t n.
Proof.
  intros Hw Hx. pose proof (set_running_state_evolves t n id s exit Hw Hx) as He.
  assert (Hp : wp (set_running_state id s exit) (λ r _ _, r ≠ Panic) t n).
  { unfold set_running_state, Operation.inspect. wp_steps; done. }
  unfold wp in *. destruct (set_running_state id s exit t n) as [[r t'] n'].
  destruct He as [-> [? _]]. split_and!; [done|lia|done].
Qed.

Lemma kept_set_running id s exit :
  (is_Some exit ↔ OperationState.is_terminal s = true) →
  kept F (on_operations (Json := Json) (set_running_state id s exit)).
Proof.
  intros Hx. apply kept_operations. intros t n Ht%ops_ok_none.
  eapply wp_mono; [by apply set_running_state_ok|]. intros r t' n' (? & ? & ?). by rewrite ops_ok_none.
Qed.

Lemma kept_submit id request :
  kept F (on_operations (Json := Json) (Operation.submit_with_id id request)).
Proof.
  apply kept_operations. intros t n Ht%ops_ok_none. eapply wp_mono; [by apply submit_with_id_spec|].
  intros r t' n' (-> & [Hw _] & Hr). rewrite ops_ok_none. split_and!; [done|lia|]. by intros ->.
Qed.

Lemma kept_submit_fresh request : kept F (on_operations (Json := Json) (Operation.submit request)).
Proof.
  apply kept_operations. intros t n Ht%ops_ok_none. apply wp_bind, wp_new_uuid.
  eapply wp_mono; [by apply submit_with_id_spec|].
  intros r t' n' (-> & [Hw _] & Hr). rewrite ops_ok_none. split_and!; [done|lia|]. by intros ->.
Qed.

Lemma kept_cancel id reason : kept F (on_operations (Json := Json) (Operation.cancel id reason)).
Proof.
  apply kept_operations. intros t n Ht. eapply wp_mono; [by apply ops_cancel|].
  intros r t' n' (? & -> & ? & _). split_and!; [done|lia|done].
Qed.

(** A call of the shared budget controller. *)
Lemma kept_controller {A} (m : M Controller AdmissionError.t A) :
  (∀ R c n, inv R true (ct_state c) n → wp m (λ r c' n', inv R true (ct_state c') n' ∧ n ≤ n'
     ∧ grows_ct c c' ∧ (r = Panic → ct_durable c = true)) c n) →
  kept F (on_controller (Json := Json) m).
Proof.
  intros Hm k n Hk. eapply (wp_controller F m (λ c r _ _, r = Panic → ct_durable c = true)); [done|..].
  - intros c Hc Hi. by apply Hm.
  - intros c r c' n' _ Hd Hn HP _ Hk'. split_and!; [done|done|]. intros Hr. rewrite <- Hd. auto.
Qed.

Lemma kept_reserve_child parent kind owner request :
  u64_request request → kept F (on_controller (Json := Json) (reserve_child parent kind owner request)).
Proof.
  intros Hu. apply kept_controller. intros R c n Hi. eapply wp_mono; [by apply reserve_child_grows|].
  intros r c' n' (? & ? & ? & Hr). split_and!; try done. by intros ->.
Qed.

Lemma kept_own f :
  (∀ o, own_processes (f o) = own_processes o ∧ own_process_rollouts (f o) = own_process_rollouts o) →
  ∀ E, kept F (modify (own f) : M (KernelRuntime (Json := Json)) E unit).
Proof.
  intros Hf E. apply kept_modify. intros k n Hk. destruct (Hf (k_ownership k)) as [H1 H2].
  apply kernel_set_ownership; [done|]. eapply adm_same_own; [apply (ko_adm _ _ _ Hk)|..]; by rewrite ?H1, ?H2.
Qed.

Lemma kept_bind_operation_budget scope op request :
  u64_request request → kept F (bind_operation_budget (Json := Json) scope op request).
Proof.
  intros Hu. apply kept_bind; [by apply kept_reserve_child|]. intros receipt.
  apply kept_bind.
  - apply kept_controller. intros R c n Hi. eapply wp_locked_grow; [|done|].
    + apply grow_index; [by apply keeps_index|done].
    + intros r st' n' Hi' Hn Hr Hg _. by split_and!.
  - intros _. apply kept_bind; [by apply kept_own|]. intros _. apply kept_ret.
Qed.

Lemma kept_submit_checked owner m :
  kept F (on_operations (Json := Json) m) → kept F (submit_checked (Json := Json) owner m).
Proof.
  intros Hm. apply kept_bind; [apply kept_inspect|]. intros snap.
  apply kept_bind; [apply kept_ensure|]. intros _. apply kept_bind; [done|]. intros op.
  apply kept_bind; [apply kept_get|]. intros k. apply kept_bind; [apply kept_ok_or|]. intros scope.
  apply kept_bind; [apply kept_map_err, kept_bind_operation_budget, unlimited_u64|]. intros _. apply kept_ret.
Qed.

Lemma kept_reserve_process scope id request :
  u64_request request → kept F (reserve_process_budget (Json := Json) scope id request).
Proof.
  intros Hu. apply kept_bind; [apply kept_map_err, kept_inspect|]. intros _ k n Hk.
  apply wp_bind. eapply (wp_controller F _ (λ c r c' n', reserved_by c n scope BudgetScopeKind.Process request r c'));
    [done|intros c Hc Hi; by apply reserve_child_grows|].
  intros c r c' n' Hc Hd Hn Hres [Hg _] Hk'. destruct r as [receipt|e|]; [| |done].
  - destruct Hres as (_ & (sc & Hsc & Hpar) & psc & Hpsc & Hacc). wp_steps. split_and!; [|done|done].
    apply kernel_set_ownership; [done|]. apply adm_own_process; [apply (ko_adm _ _ _ Hk')|by intros []|].
    cbn. intros x [= <-]. split; [exists sc; rewrite Hpar; eauto|].
    destruct (Hg _ _ Hpsc) as (psc' & ? & Hview & _). exists psc'. split; [done|]. unfold kind_of in *.
    rewrite Hview. by destruct (bs_kind (sc_view psc)).
  - by split_and!.
Qed.

Lemma kept_admission {A} (m : M Production.State AdmissionError.t A) :
  (∀ st n, adm_inv true st n → wp m (λ r st' n', adm_inv true st' n' ∧ n ≤ n' ∧ r ≠ Panic) st n) →
  (∀ st n, adm_inv true st n → wp m (λ _ st' _, grows_adm st st') st n) →
  kept F (on_admission (Json := Json) m).
Proof.
  intros Hm Hg k n Hk. apply wp_zoom. pose proof (ao_inv _ _ _ _ _ (ko_adm _ _ _ Hk)) as Hi.
  specialize (Hm _ _ Hi). specialize (Hg _ _ Hi). unfold wp in *.
  destruct (m (k_admission k) n) as [[r st] n']. destruct Hm as (Hi' & Hn & Hp). split_and!; [|done|done].
  eapply kernel_set_admission; [done|done|]. eapply adm_step; [apply (ko_adm _ _ _ Hk)|done|done|].
  intros p rec _. right. by intros [].
Qed.

Lemma kept_spaces {E A} (m : M (gmap SpaceId (ContextSpace Json)) E A) :
  (∀ s n, wp m (λ r _ n', n ≤ n' ∧ r ≠ Panic) s n) → kept F (on_spaces m).
Proof.
  intros Hm k n Hk. apply wp_zoom. eapply wp_mono; [apply Hm|]. intros r s n' [Hn Hr].
  split_and!; [|done|done]. eapply kernel_set_processes; [done|done| |apply (ko_registry _ _ _ Hk)].
  eapply procs_mono; [done|]. destruct (ko_procs _ _ _ Hk) as [[? ?] ? ? ?]. split; [by split|done|done|by intros ? []].
Qed.

Lemma kept_entry {E} (space : SpaceId) f :
  kept F (on_spaces (E := E) (Json := Json) (entry ← entry_or_empty space; modify (insert space (f entry)))).
Proof.
  apply kept_spaces. intros s n. apply wp_bind. unfold wp at 1.
  destruct (entry_or_empty_cases (E := E) s n space) as [(x & _ & ->)|[_ ->]]; wp_steps; split; done || lia.
Qed.

(** The state a successful reap leaves. *)
Definition reaped (id : ProcessId) (record : ProcessRecord) (k : KernelRuntime (Json := Json))
    : KernelRuntime (Json := Json) :=
  let k := set_processes (with_records (delete id) (k_processes k)) k in
  let k := set_specs (delete id (k_specs k)) k in
  let k := set_progress (delete id (k_progress k)) k in
  let k := set_outcomes (delete id (k_outcomes k)) k in
  let k := own (disown_process id) k in
  set_identities (forget_identity id (pr_agent_id record) (k_identities k)) k.

Lemma reap_process_run id k n :
  reap_process (Json := Json) id k n =
  match records (k_processes k) !! id with
  | None => (Err (KProcess (UnknownProcess id)), k, n)
  | Some rt => if ProcessState.is_terminal (pr_state (rt_record rt))
               then (Ok (rt_record rt), reaped id (rt_record rt) k, n)
               else (Err (KProcess (NotTerminal id)), k, n)
  end.
Proof.
  unfold reap_process, on_processes, map_err, zoom, mbind, M_bind.
  pose proof (reap_cases (k_processes k) n id) as Hc. destruct (records (k_processes k) !! id) as [rt|].
  - destruct (ProcessState.is_terminal _); rewrite Hc; [done|]. by destruct k.
  - rewrite Hc. by destruct k.
Qed.

Lemma forget_registered recs ids id agent :
  registered recs ids → registered (delete id recs) (forget_identity id agent ids).
Proof.
  intros [Hl Hp]. split; cbn; intros i x Hi; split_lookup; [|by apply Hp]. intros Hlive.
  destruct (Hl _ _ Hi Hlive) as (y & Hy & Hyi). destruct (by_agent ids !! agent) as [z|] eqn:Hz; [|eauto].
  destruct (N.eqb_spec (pi_process_id z) id) as [Hzi|]; [|eauto]. exists y. split; [|done].
  rewrite lookup_delete_ne; [done|]. intros ->. congruence.
Qed.

Lemma kernel_reaped id rt k n :
  kernel_ok F k n → records (k_processes k) !! id = Some rt →
  ProcessState.is_terminal (pr_state (rt_record rt)) = true →
  kernel_ok F (reaped id (rt_record rt) k) n.
Proof.
  intros Hk Hid Ht. pose proof (evol_reap id (k_processes k) n (po_wf _ _ _ (ko_procs _ _ _ Hk))) as He.
  unfold wp in He. pose proof (reap_cases (k_processes k) n id) as Hc. rewrite Hid, Ht in Hc. rewrite Hc in He.
  apply kernel_set_identities.
  2: { intros H1 H2. by apply forget_registered, (ko_registry _ _ _ Hk). }
  assert (Hk1 : kernel_ok F (set_processes (with_records (delete id) (k_processes k)) k) n).
  { eapply kernel_set_processes; [done|lia|..].
    - eapply procs_evolve; [apply (ko_procs _ _ _ Hk)|done|done| |by intros ? []].
      cbn. intros i [r Hi]. split_lookup. eauto.
    - intros H1 H2. destruct (ko_registry _ _ _ Hk H1 H2) as [Hl Hp]. split; [|done].
      cbn. intros i r Hi. split_lookup. by apply Hl. }
  apply kernel_set_ownership.
  - apply kernel_set_outcomes, kernel_set_progress; [by apply kernel_set_specs| |by intros ? []].
    cbn. intros i p Hi. split_lookup. by eapply (ko_progress _ _ _ Hk).
  - eapply adm_same_own; [apply (ko_adm _ _ _ Hk)|..]; cbn; intros i s Hi; by split_lookup.
Qed.

Lemma kept_reap id : kept F (reap_process (Json := Json) id).
Proof.
  intros k n Hk. unfold wp. rewrite reap_process_run.
  destruct (records (k_processes k) !! id) as [rt|] eqn:Hid; [|split_and!; [done|lia|done]].
  destruct (ProcessState.is_terminal _) eqn:Ht; (split_and!; [|lia|done]); [by apply kernel_reaped|done].
Qed.

Lemma kept_disconnect_loop ids : kept F (disconnect_loop (Json := Json) faults ids).
Proof.
  induction ids as [|id ids IH]; [apply kept_ret|]. cbn [disconnect_loop].
  apply kept_bind; [apply kept_try, kept_terminate; by intros []|]. intros [e|o].
  - apply kept_bind; [done|]. intros []. apply kept_ret.
  - apply kept_bind; [apply kept_try, kept_reap|]. intros r. apply kept_bind; [done|]. intros []. apply kept_ret.
Qed.

Lemma kept_exit id reason : kept F (exit_process (Json := Json) faults id reason).
Proof. apply kept_bind; [apply kept_terminate; by intros []|]. intros _. apply kept_ret. Qed.

Lemma kept_tick {E} : kept F (tick : M (KernelRuntime (Json := Json)) E N).
Proof. intros k n Hk. wp_step. split_and!; [eapply kernel_mono; [|done]; lia|lia|done]. Qed.

Lemma kept_register id target mailbox : kept F (register_process_mailbox (Json := Json) id target mailbox).
Proof.
  apply kept_bind; [apply kept_inspect|intros _]. apply kept_bind; [|intros _].
  - apply kept_mail. intros po n. unfold register. wp_steps; split_and!; try done; lia.
  - apply kept_modify. intros k n Hk. apply kernel_set_process_mailboxes; [done|by intros ? []].
Qed.

Lemma kept_create_root owner limit :
  u64_request limit → kept F (on_controller (Json := Json) (create_root owner limit)).
Proof.
  intros Hu. apply kept_controller. intros R c n Hi. eapply wp_mono; [by apply create_root_grows|].
  intros r c' n' (? & ? & ? & _ & ? & _). by split_and!.
Qed.

Lemma kept_create_rollout rollout limit :
  u64_request limit → kept F (create_rollout_budget (Json := Json) rollout limit).
Proof.
  intros Hu. apply kept_bind; [by apply kept_create_root|intros scope].
  apply kept_bind; [by apply kept_own|]. intros _. apply kept_ret.
Qed.

Lemma kept_bind_os_pid id pid : kept F (bind_os_process_id (Json := Json) id pid).
Proof.
  intros k n Hk. unfold bind_os_process_id. apply wp_bind, wp_get.
  apply wp_bind, wp_ok_or; [|intros _; split_and!; [done|lia|done]]. intros identity Hi.
  apply wp_bind, wp_ok_or; [|intros _; split_and!; [done|lia|done]]. intros current Hcur.
  apply wp_bind, wp_ensure; intros Heq; [|split_and!; [done|lia|done]]. wp_steps.
  split_and!; [|lia|done]. apply kernel_set_identities; [done|]. intros H1 H2.
  destruct (ko_registry _ _ _ Hk H1 H2) as [Hl Hp]. apply N.eqb_eq in Heq. pose proof (Hp _ _ Hi) as Hpi.
  split; cbn; intros i x Hx; [intros Hlive|split_lookup; auto].
  destruct (Hl _ _ Hx Hlive) as (y & Hy & <-).
  destruct (decide (pr_agent_id (rt_record x) = pi_agent_id identity)) as [Ha|Ha].
  - rewrite Ha, lookup_insert_eq. eexists. split; [done|]. cbn. congruence.
  - rewrite lookup_insert_ne by done. eauto.
Qed.

Lemma kept_void {A} (m : K A) : kept F m → kept F (m ;; mret tt).
Proof. intros Hm. apply kept_bind; [done|]. intros _. apply kept_ret. Qed.

Lemma kept_budget_call {A} (m : M (KernelRuntime (Json := Json)) AdmissionError.t A) :
  kept F m → kept F (budget_call m).
Proof. intros Hm. apply kept_void, kept_map_err, Hm. Qed.

Lemma kept_admit request : valid_request request → kept F (on_admission (Json := Json) (admit_ request)).
Proof.
  intros Hv. apply kept_admission; [|intros; by apply (admit_grows (tree := true))]. intros st n Hi.
  eapply wp_mono; [by apply (admit_spec (tree := true))|]. intros r st' n' (? & ? & _ & _ & Hr). split_and!; [done|done|].
  by intros ->.
Qed.

Lemma kept_settle permit usage : kept F (on_admission (Json := Json) (settle permit usage)).
Proof.
  apply kept_admission; [|intros; by apply (settle_grows (tree := true))]. intros st n Hi.
  destruct (active st !! permit) as [record|] eqn:Hp.
  - eapply wp_mono; [by eapply (settle_active (tree := true))|]. intros r st' n' (-> & [] & _). by split_and!.
  - unfold wp. rewrite settle_inactive by done. split_and!; [done|lia|done].
Qed.

Lemma kept_revoke permit reason : kept F (on_admission (Json := Json) (revoke permit reason)).
Proof.
  apply kept_admission; [|intros; by apply (revoke_grows (tree := true))]. intros st n Hi.
  eapply wp_mono; [by apply (revoke_keeps (tree := true))|]. intros r st' n' (? & ? & ? & _). by split_and!.
Qed.

Lemma kept_leases {A} (m : M LeaseState AdmissionError.t A) :
  (∀ l n, lease_wf l n → wp m (λ r l' n', lease_wf l' n' ∧ n ≤ n' ∧ r ≠ Panic) l n) →
  kept F (on_admission (Json := Json) (on_lease_manager m)).
Proof.
  intros Hm. apply kept_admission; intros st n Hi; unfold on_lease_manager; apply wp_bind, wp_get;
    destruct (lease_mgr st) as [l|] eqn:Hl; try (apply wp_ret; by split_and!).
  - apply wp_bind, wp_on_leases. eapply wp_mono; [by apply Hm, (aw_leases _ _ Hi)|].
    intros r l' n' (Hw & Hn & Hr). pose proof (adm_wf_leases st n n' l' Hi Hn Hw) as Hi'.
    destruct r; [apply wp_ret|..]; by split_and!.
  - apply wp_bind, wp_on_leases. eapply wp_mono; [by apply Hm, (aw_leases _ _ Hi)|].
    intros r l' n' _. assert (Hg : grows_adm st (with_leases (Some l') st))
      by (unfold grows_adm; cbn; destruct (budget st); [|done]; eexists; split; [done|apply grows_ct_refl]).
    destruct r; [apply wp_ret|..]; done.
  - apply wp_ret. unfold grows_adm. destruct (budget st); [|done]. eexists. split; [done|apply grows_ct_refl].
Qed.

Lemma kept_acquire principal request now :
  kept F (on_admission (Json := Json) (on_lease_manager (acquire principal request now))).
Proof.
  apply kept_leases. intros l n Hw. pose proof (run_lease_wf (Acquire principal request now) l n Hw) as Hr.
  unfold wp. cbn in Hr. destruct (acquire_cases l n principal request now) as [[_ He]|[_ He]];
    rewrite He in *; destruct Hr; by split_and!.
Qed.

Lemma kept_release id : kept F (on_admission (Json := Json) (on_lease_manager (Lease.release id))).
Proof.
  apply kept_leases. intros l n Hw. pose proof (run_lease_wf (Release id) l n Hw) as Hr.
  unfold wp. cbn in Hr. destruct (release_cases l n id) as [(? & _ & He)|[_ He]];
    rewrite He in *; destruct Hr; by split_and!.
Qed.

Lemma kernel_call_kept call : call_ok call → kept F (kernel_call call).
Proof.
  intros Hc. destruct call; cbn [kernel_call call_ok] in *;
    lazymatch goal with
    | |- kept _ (budget_call _) => apply kept_budget_call
    | |- kept _ (mbind _ _) => apply kept_void
    | _ => idtac
    end.
  - apply kept_spawn_process.
  - destruct sig; try apply kept_exit; apply kept_quiet, quiet_signal.
  - apply kept_exit.
  - apply kept_reap.
  - apply kept_bind; [apply kept_tick|intros i]. apply kept_bind; [apply kept_get|intros k].
    apply kept_bind; [apply kept_disconnect_loop|intros []]. apply kept_bind; [apply kept_ensure|intros _].
    apply kept_ret.
  - apply kept_quiet, quiet_set_active.
  - apply kept_modify. intros. by apply kernel_set_supervisor.
  - apply kept_bind_os_pid.
  - apply kept_register.
  - apply kept_submit_checked, kept_submit_fresh.
  - apply kept_submit_checked, kept_submit.
  - by apply kept_set_running.
  - by apply kept_set_running.
  - by apply kept_set_running.
  - by apply kept_set_running.
  - apply kept_cancel.
  - by apply kept_create_rollout.
  - by apply kept_reserve_process.
  - apply kept_bind; [apply kept_map_err|intros _; by apply kept_bind_operation_budget].
    apply kept_operations. intros t n Ht. unfold Operation.inspect. wp_steps; split_and!; try done; lia.
  - apply kept_bind; [by apply kept_reserve_child|intros receipt].
    apply kept_bind; [by apply kept_own|intros _]. apply kept_ret.
  - by apply kept_create_root.
  - by apply kept_reserve_child.
  - apply kept_controller. intros R c n Hi.
    eapply wp_mono; [by apply close_reservation_grows|]. intros res c' n' (? & ? & ? & ?). by split_and!.
  - apply kept_controller. intros R c n Hi.
    eapply wp_mono; [by apply close_reservation_grows|]. intros res c' n' (? & ? & ? & ?). by split_and!.
  - by apply kept_admit.
  - apply kept_settle.
  - apply kept_revoke.
  - apply kept_acquire.
  - apply kept_release.
  - apply kept_mail. intros po n. unfold unregister. wp_steps. split_and!; [lia|done|by intros ? []].
  - apply kept_entry.
  - apply kept_entry.
  - apply kept_spaces. intros s n. unfold Space.release. wp_steps. split; [lia|done].
Qed.

Lemma kernel_run_kept calls : ∀ k n, kernel_ok F k n → Forall call_ok calls →
  match kernel_run calls k n with
  | (rs, k', n') => kernel_ok F k' n' ∧ n ≤ n' ∧ (durable = false → Forall (λ r, r ≠ Panic) rs)
  end.
Proof.
  induction calls as [|call calls IH]; intros k n Hk Hc; cbn; [split_and!; [done|lia|by constructor]|].
  apply Forall_cons in Hc as [Hc Hcs]. pose proof (kernel_call_kept call Hc k n Hk) as Hkept.
  unfold wp in Hkept. destruct (kernel_call call k n) as [[r k1] n1]. destruct Hkept as (Hk1 & Hn1 & Hp).
  specialize (IH k1 n1 Hk1 Hcs). destruct (kernel_run calls k1 n1) as [[rs k2] n2].
  destruct IH as (Hk2 & Hn2 & Hrs). split_and!; [done|lia|]. intros Hd. constructor; [|auto].
  intros Hr. specialize (Hp Hr). cbn in Hp. congruence.
Qed.

(** A kernel over a budget controller with no scopes yet. *)
Lemma kernel_ok_boot c n :
  ct_state c = BudgetState_default → ct_durable c = durable →
  kernel_ok F (with_clock_and_budget (Json := Json) c) n.
Proof.
  intros Hc Hd. split; [|by split; [apply ops_wf_new|]| |done..].
  - split; [apply table_wf_new|..]; cbn; try done; intros *; by rewrite lookup_empty.
  - split; [|by exists c|..]; cbn; try (intros *; by rewrite lookup_empty); try done.
    split; cbn; try (intros *; by rewrite lookup_empty).
    + intros c' [= <-]. rewrite Hc. split; [apply wf_default|..].
      * intros r o (_ & p & record & Hp & _). by rewrite lookup_empty in Hp.
      * intros _ k p sc psc. cbn [scopes BudgetState_default]. by rewrite lookup_empty.
    + intros l [= <-]. apply lease_wf_new.
Qed.

End Kept.

(** C33. From boot, for every sequence of kernel calls (spawning, signalling,
    ending and reaping processes, disconnects, operations, budgets, admissions,
    leases and spaces, with any failing cleanups): with the in-memory budget no call
    panics, so the [expect]s of the terminal transaction always hold and its phase
    loop ends within four turns; every scope of the shared budget conserves its
    capacity; the ids of the process and operation tables agree with their
    records, a record has an exit exactly when it is terminal, and no two
    processes share a context space. *)
Theorem kernel_runs_are_safe {HOk : EnvOk} c n calls :
  ct_state c = BudgetState_default → Forall call_ok calls →
  match kernel_run calls (with_clock_and_budget c) n with
  | (results, k, n') =>
      (ct_durable c = false → Forall (λ r, r ≠ Panic) results)
      ∧ table_wf (k_processes k) n' ∧ ops_wf (k_operations k)
      ∧ (∀ id id' rt rt', records (k_processes k) !! id = Some rt →
           records (k_processes k) !! id' = Some rt' →
           pr_space (rt_record rt) = pr_space (rt_record rt') → id = id')
      ∧ ∃ c', budget (k_admission k) = Some c' ∧ no_orphans (ct_state c')
          ∧ ∀ d s sc, scopes (ct_state c') !! s = Some sc → conserved d (ct_state c') s sc
  end.
Proof.
  intros Hc Hcalls. pose proof (kernel_run_kept (ct_durable c) calls _ n
    (kernel_ok_boot (ct_durable c) c n Hc eq_refl) Hcalls) as Hrun.
  destruct (kernel_run calls (with_clock_and_budget c) n) as [[rs k] n'].
  destruct Hrun as (Hk & _ & Hp). destruct (ko_procs _ _ _ Hk) as [Hw _ Hinj _].
  destruct (ko_adm _ _ _ Hk) as [Hi (c' & Hb & _) _ _ _]. split_and!; [done|done|apply (ko_ops _ _ _ Hk)|done|].
  pose proof (aw_budget _ _ Hi c' Hb) as Hbi. exists c'. split_and!; [done|by apply (inv_tree _ _ _ _ Hbi)|].
  intros d s sc Hs. by apply (wf_conserved _ _ (inv_wf _ _ _ _ Hbi)).
Qed.

(** An agent has one live process at most.  After any sequence of kernel
    calls with the in-memory budget, restarts included, a live process is the
    one the identity registry has for its agent; no other live process runs for
    that agent; and another spawn for it is refused, naming the live process. *)
Theorem one_live_process_per_agent {HOk : EnvOk} calls n :
  Forall call_ok calls →
  match kernel_run calls with_clock n with
  | (_, k, n') => ∀ id rt, records (k_processes k) !! id = Some rt →
      ProcessState.is_terminal (pr_state (rt_record rt)) = false →
      (∃ i, by_agent (k_identities k) !! pr_agent_id (rt_record rt) = Some i ∧ pi_process_id i = id)
      ∧ (∀ id' rt', records (k_processes k) !! id' = Some rt' →
           ProcessState.is_terminal (pr_state (rt_record rt')) = false →
           pr_agent_id (rt_record rt') = pr_agent_id (rt_record rt) → id' = id)
      ∧ ∀ spec, ss_agent_id spec = pr_agent_id (rt_record rt) →
          spawn_process spec k n' = (Err (AgentAlreadyLive (ss_agent_id spec) id), k, n')
  end.
Proof.
  intros Hcalls. pose proof (kernel_run_kept false calls _ n
    (kernel_ok_boot false new_controller n eq_refl eq_refl) Hcalls) as Hrun.
  fold (with_clock (Json := Json)) in Hrun. destruct (kernel_run calls with_clock n) as [[rs k] n'].
  destruct Hrun as (Hk & _ & _). destruct (ko_registry _ _ _ Hk eq_refl eq_refl) as [Hlive _].
  intros id rt Hid Ht. destruct (Hlive _ _ Hid Ht) as (i & Hi & Hpi). split_and!; [eauto|..].
  - intros id' rt' Hid' Ht' Ha. destruct (Hlive _ _ Hid' Ht') as (i' & Hi' & <-). congruence.
  - intros spec Ha. rewrite <- Ha in Hi. unfold spawn_process, ensure_agent_free, mbind, M_bind, get_state.
    rewrite Hi, inspect_process_run, Hpi, Hid. cbn. by rewrite Ht.
Qed.

End Runs.

(** ** Witnesses *)

(** Two processes of a connection, the first with a mailbox, an operation and a
    permit; and a background process. *)
Definition foreground (agent : AgentId) : SpawnSpec :=
  {| ss_agent_id := agent; ss_parent := None; ss_profile := "default"; ss_namespace := "default";
     ss_initial_operation := None; ss_deadline := None;
     ss_ownership := ProcessOwnership.ConnectionForeground "socket" |}.

Definition background : SpawnSpec :=
  {| ss_agent_id := 92; ss_parent := None; ss_profile := "default"; ss_namespace := "default";
     ss_initial_operation := None; ss_deadline := None; ss_ownership := ProcessOwnership.Unowned |}.

Definition permit_request : AdmissionRequest :=
  {| ar_operation_id := 70; ar_process_id := 1; ar_principal := "alice";
     ar_capability := "shell"; ar_action := "run"; ar_input_summary := "";
     ar_risk := RiskLevel.Sandboxed;
     ar_requested_scope := {| cs_allowed_paths := ["/tmp"]; cs_allowed_targets := [];
                              cs_max_runtime_ms := None; cs_max_output_bytes := None |};
     ar_budget := None; ar_lease := Some {| lr_resource := "gpu"; lr_duration_ms := 500 |};
     ar_sandbox := SandboxRequirement.NotRequired |}.

Definition sample_kernel_calls : list (KernelCall (Json := unit)) :=
  [KSpawn (foreground 90); KSignal 1 ProcessSignal.Start; KSpawn (foreground 91); KSpawn background;
   KSubmit {| oq_owner := 1; oq_parent := None; oq_kind := OperationKind.Turn; oq_deadline := None |};
   KAdmit permit_request].

Definition sample_kernel : KernelRuntime (Json := unit) * N :=
  match kernel_run (HEnv := sample_env) no_faults sample_kernel_calls with_clock 0 with
  | (_, k, n) => (k, n)
  end.

Lemma sample_kernel_calls_ok : Forall call_ok sample_kernel_calls.
Proof. repeat (apply Forall_cons; split; [done|]). apply Forall_nil_2. Qed.

Lemma sample_kernel_ok :
  kernel_ok (HEnv := sample_env) (frame_none false) sample_kernel.1 sample_kernel.2.
Proof.
  pose proof (kernel_run_kept (HOk := sample_env_ok) no_faults false sample_kernel_calls with_clock 0
    (kernel_ok_boot (HEnv := sample_env) false new_controller 0 eq_refl eq_refl) sample_kernel_calls_ok) as Hk.
  unfold sample_kernel. destruct (kernel_run _ _ _ _) as [[rs k] n]. apply Hk.
Qed.

Lemma terminate_releases_everything_witness :
  active_permits_for_process sample_kernel.1 1 = 1%nat
  ∧ ∃ r k' n', terminate_process (HEnv := sample_env) no_faults 1 ExitReason.Completed
      sample_kernel.1 sample_kernel.2 = (r, k', n') ∧ released k' 1.
Proof.
  split; [vm_compute; reflexivity|].
  assert (Hid : ∃ rt, records (k_processes sample_kernel.1) !! 1 = Some rt) by (vm_compute; eauto).
  destruct Hid as [rt Hid].
  destruct (terminate_releases_everything (HOk := sample_env_ok) no_faults false sample_kernel.1
    sample_kernel.2 1 rt ExitReason.Completed sample_kernel_ok) as (r & k' & n' & Hrun & _ & Hrel & _).
  - vm_compute. reflexivity.
  - left. vm_compute. reflexivity.
  - exact Hid.
  - reflexivity.
  - exists r, k', n'. split; [exact Hrun|exact Hrel].
Defined.

Lemma kernel_runs_are_safe_witness :
  match kernel_run (HEnv := sample_env) no_faults sample_kernel_calls with_clock 0 with
  | (results, k, n) => results = [Ok tt; Ok tt; Ok tt; Ok tt; Ok tt; Ok tt]
      ∧ table_wf (HEnv := sample_env) (k_processes k) n
  end.
Proof.
  pose proof (kernel_runs_are_safe (HOk := sample_env_ok) (Json := unit) no_faults new_controller 0
    sample_kernel_calls eq_refl sample_kernel_calls_ok) as Hsafe.
  fold (with_clock (Json := unit)) in Hsafe.
  assert (Hr : (kernel_run (HEnv := sample_env) no_faults sample_kernel_calls with_clock 0).1.1 =
               [Ok tt; Ok tt; Ok tt; Ok tt; Ok tt; Ok tt]) by (vm_compute; reflexivity).
  destruct (kernel_run _ _ _ _) as [[rs k] n]. split; [exact Hr|apply Hsafe].
Defined.

Lemma one_live_process_per_agent_witness :
  spawn_process (HEnv := sample_env) sample_spec sample_kernel.1 sample_kernel.2
  = (Err (AgentAlreadyLive 90 1), sample_kernel.1, sample_kernel.2).
Proof.
  assert (Hid : ∃ rt, records (k_processes sample_kernel.1) !! 1 = Some rt
    ∧ ProcessState.is_terminal (pr_state (rt_record rt)) = false ∧ pr_agent_id (rt_record rt) = 90)
    by (vm_compute; eauto).
  destruct Hid as (rt & Hid & Ht & Ha).
  pose proof (one_live_process_per_agent (HOk := sample_env_ok) no_faults sample_kernel_calls 0
    sample_kernel_calls_ok) as Hone.
  unfold sample_kernel in *. destruct (kernel_run _ _ _ _) as [[rs k] n].
  destruct (Hone 1 rt Hid Ht) as (_ & _ & Hspawn). apply (Hspawn sample_spec). by rewrite Ha.
Defined.
