(* ===== verification/Disconnect.v ===== *)
(** * Disconnected connections

    When a transport connection goes away the kernel ends and reaps the
    foreground processes the connection owned, and no other process. *)
From S2P Require Import Prelude FabricTypes Budget BudgetInv BudgetSpec Lease Admission AdmissionInv Space Process Operation Supervision Mailbox BudgetGrow Runtime RuntimeInv RuntimeSpec KernelRun.
Import Production.

(** The connection's foreground processes. *)
Definition owned_by (connection : ConnectionId) (rt : ProcessRuntime) : Prop :=
  pr_ownership (rt_record rt) = ProcessOwnership.ConnectionForeground connection.

Section Disconnect.
Context `{HEnv : Env} {Json : Type} {HOk : EnvOk} (faults : N → ProcessId → option string).
Context (durable : bool).
Implicit Types (k : KernelRuntime (Json := Json)).
Abbreviation F := (frame_none durable).

(** No termination of the process is under way, and one that was published left
    it terminal. *)
Definition ready (k : KernelRuntime (Json := Json)) (id : ProcessId) (rt : ProcessRuntime) : Prop :=
  k_progress k !! id = None
  ∧ (k_outcomes k !! id = None ∨ ProcessState.is_terminal (pr_state (rt_record rt)) = true).

Lemma publish_outcome_run k n id p d :
  k_progress k !! id = Some p → tp_decision p = Some d →
  publish_outcome (Json := Json) id k n =
    (Ok {| to_process := id; to_reason := tp_reason p; to_restart_decision := d;
           to_restarted := tp_restarted p |},
     set_outcomes (<[id := {| to_process := id; to_reason := tp_reason p; to_restart_decision := d;
                              to_restarted := tp_restarted p |}]> (k_outcomes k))
       (set_progress (delete id (k_progress k)) k), n).
Proof.
  intros Hp Hd. unfold publish_outcome, mbind, M_bind. rewrite (progress_of_run k n id p Hp).
  by rewrite Hd.
Qed.

(** Ending a process for a reason that is not a failure restarts nothing. *)
Lemma terminate_quietly k n id rt reason :
  kernel_ok F k n → k_outcomes k !! id = None → k_progress k !! id = None →
  records (k_processes k) !! id = Some rt → faults n id = None → is_failure reason = false →
  wp (terminate_process (Json := Json) faults id reason) (λ r k' n', kernel_ok F k' n' ∧ n ≤ n'
    ∧ ∃ o rt', r = Ok o ∧ records (k_processes k') = <[id := rt']> (records (k_processes k))
      ∧ ProcessState.is_terminal (pr_state (rt_record rt')) = true
      ∧ k_progress k' = k_progress k ∧ k_outcomes k' = <[id := o]> (k_outcomes k)) k n.
Proof.
  intros Hk Hout Hpr Hid Hf Hreason. unfold terminate_process. apply wp_bind, wp_get. rewrite Hout.
  apply wp_bind, wp_modify. destruct (begin_progress_ok _ k n id reason Hk) as (p & Hp & Hp0 & Hk1).
  destruct Hp0 as [?| ->]; [congruence|]. unfold begin_progress in *. rewrite Hpr in *.
  apply wp_bind. eapply wp_mono; [by eapply (terminal_phases_release faults _ _ n id _ rt)|].
  intros r k2 n2 (Hn2 & -> & Hk2 & [Hrec Hprog Ho]). cbn in Hrec, Hprog, Ho.
  unfold record_exit in Hprog. rewrite Hreason in Hprog. cbn in Hprog.
  destruct (Hrec rt Hid) as (rt' & Hr' & Hterm & _).
  assert (Hp2 := lookup_insert_eq (<[id := first_progress reason]> (k_progress k)) id
    {| tp_reason := reason; tp_phase := PhRestart; tp_decision := Some DoNotRestart;
       tp_restart_ids := []; tp_restarted := [] |}). rewrite <- Hprog in Hp2.
  apply wp_bind. unfold wp at 1. rewrite (progress_of_run k2 n2 id _ Hp2).
  apply wp_bind, wp_ret. apply (kernel_weaken _ (frame_restart id F)) in Hk2; [|by split_and!; cbn; tauto].
  pose proof (publish_outcome_spec F k2 n2 id Hk2 (λ x, x)) as Hpub. unfold wp in *.
  rewrite (publish_outcome_run k2 n2 id _ DoNotRestart Hp2) in * by done.
  destruct Hpub as (Hk3 & _). split_and!; [done|done|]. eexists _, rt'. split_and!; [done|done|done|..]; cbn.
  - rewrite Hprog, insert_insert_eq, delete_insert_id; done.
  - by rewrite Ho.
Qed.

Lemma disconnect_loop_spec ids : ∀ k n,
  (∀ m id, faults m id = None) → kernel_ok F k n → NoDup ids →
  (∀ id, id ∈ ids → ∃ rt, records (k_processes k) !! id = Some rt ∧ ready k id rt) →
  wp (disconnect_loop (Json := Json) faults ids) (λ r k' n', kernel_ok F k' n' ∧ n ≤ n' ∧ r = Ok (ids, [])
    ∧ ∀ id, records (k_processes k') !! id =
        if decide (id ∈ ids) then None else records (k_processes k) !! id) k n.
Proof.
  induction ids as [|id ids IH]; intros k n Hf Hk Hnd Hready.
  { apply wp_ret. split_and!; [done|lia|done|]. intros id. by rewrite decide_False by set_solver. }
  apply NoDup_cons in Hnd as [Hnin Hnd]. cbn [disconnect_loop]. apply wp_bind, wp_try.
  destruct (Hready id) as (rt & Hid & Hpr & Hout); [by left|].
  apply (wp_mono _ (λ r k1 n1, kernel_ok F k1 n1 ∧ n ≤ n1 ∧ ∃ o rt', r = Ok o
    ∧ records (k_processes k1) = <[id := rt']> (records (k_processes k))
    ∧ ProcessState.is_terminal (pr_state (rt_record rt')) = true ∧ k_progress k1 = k_progress k
    ∧ ∀ i, i ≠ id → k_outcomes k1 !! i = k_outcomes k !! i)).
  { destruct (k_outcomes k !! id) as [o|] eqn:Ho.
    - destruct Hout as [|Ht]; [done|]. unfold wp. rewrite (terminate_again faults id _ o k n Ho).
      split_and!; [done|lia|]. exists o, rt. rewrite insert_id by done. done.
    - eapply wp_mono; [by eapply terminate_quietly|]. intros r k1 n1 (? & ? & o & rt' & -> & ? & ? & ? & Ho1).
      split_and!; [done|done|]. exists o, rt'. split_and!; try done. intros i Hi.
      by rewrite Ho1, lookup_insert_ne. }
  intros r k1 n1 (Hk1 & Hn1 & o & rt' & -> & Hrec & Hterm & Hprog & Houts).
  assert (Hid1 : records (k_processes k1) !! id = Some rt') by (rewrite Hrec; apply lookup_insert_eq).
  apply wp_bind, wp_try. unfold wp at 1. rewrite reap_process_run, Hid1, Hterm.
  apply wp_bind. eapply wp_mono; [apply (IH _ n1); [done|by apply kernel_reaped|done|]|].
  - intros i Hi. assert (i ≠ id) by (by intros ->). destruct (Hready i) as (rti & Hri & Hrd); [by right|].
    exists rti. unfold ready. cbn. rewrite Hrec, Hprog, !lookup_delete_ne, lookup_insert_ne, Houts by done. done.
  - intros r k2 n2 (Hk2 & Hn2 & -> & Hrec2). apply wp_ret. split_and!; [done|lia|done|].
    intros i. rewrite Hrec2. cbn. rewrite Hrec. destruct (decide (i = id)) as [->|Hne].
    + rewrite (decide_True (P := id ∈ id :: ids)) by by left. rewrite lookup_delete_eq. by case_decide.
    + rewrite lookup_delete_ne, lookup_insert_ne by done.
      destruct (decide (i ∈ ids)); [rewrite decide_True by by right|rewrite decide_False by set_solver]; done.
Qed.

(** Choosing by the value of an entry keeps the keys distinct. *)
Lemma nodup_chosen_keys {V} (f : N * V → option N) (l : list (N * V)) :
  (∀ e x, f e = Some x → x = e.1) → NoDup l.*1 → NoDup (omap f l).
Proof.
  intros Hf. induction l as [|e l IH]; cbn; [constructor|]. intros [Hnin Hnd]%NoDup_cons.
  destruct (f e) as [x|] eqn:He; [|auto]. apply NoDup_cons. split; [|auto].
  intros (e' & Hin & Hx)%list_elem_of_omap. apply Hnin. rewrite <- (Hf _ _ He), (Hf _ _ Hx).
  apply list_elem_of_fmap. eauto.
Qed.

Lemma connection_ids_spec i (t : ProcessTable (Json := Json)) connection :
  NoDup (connection_foreground_ids i t connection)
  ∧ ∀ id, id ∈ connection_foreground_ids i t connection ↔
      ∃ rt, records t !! id = Some rt ∧ owned_by connection rt.
Proof.
  unfold connection_foreground_ids, owned_by. split.
  - apply nodup_chosen_keys; [|apply NoDup_hash_entries]. intros [x rt] y. cbn.
    destruct (pr_ownership (rt_record rt)); try done. case_decide; [by intros [= <-]|done].
  - intros id. rewrite list_elem_of_omap. split.
    + intros ([x rt] & Hin%elem_of_hash_entries & Hx). cbn in Hx. exists rt.
      destruct (pr_ownership (rt_record rt)); try done. case_decide; [|done]. by simplify_eq.
    + intros (rt & Hid & Hown). exists (id, rt). rewrite elem_of_hash_entries. split; [done|].
      cbn. by rewrite Hown, decide_True.
Qed.

(** A disconnect reaps exactly the connection's foreground processes: it
    succeeds, reports each of them once, and afterwards the process table is the
    old one without them, whatever their states, operations, permits and restart
    policies were.  The kernel invariant holds again.  The hypotheses: no
    injected cleanup failure, and no termination of these processes was left
    half done. *)
Theorem disconnect_reaps_foreground k n connection :
  (∀ m id, faults m id = None) → kernel_ok F k n →
  (∀ id rt, records (k_processes k) !! id = Some rt → owned_by connection rt → ready k id rt) →
  ∃ ids k' n', cleanup_disconnected_connection faults connection k n = (Ok ids, k', n')
    ∧ kernel_ok F k' n' ∧ NoDup ids
    ∧ (∀ id, id ∈ ids ↔ ∃ rt, records (k_processes k) !! id = Some rt ∧ owned_by connection rt)
    ∧ ∀ id, records (k_processes k') !! id =
        if decide (id ∈ ids) then None else records (k_processes k) !! id.
Proof.
  intros Hf Hk Hready. unfold cleanup_disconnected_connection.
  destruct (connection_ids_spec n (k_processes k) connection) as [Hnd Hids].
  pose proof (disconnect_loop_spec (connection_foreground_ids n (k_processes k) connection) k (n + 1) Hf) as Hl.
  unfold mbind, M_bind, tick, get_state in *. unfold wp in Hl.
  destruct (disconnect_loop _ _ k (n + 1)) as [[r k'] n'].
  destruct Hl as (Hk' & _ & -> & Hrec); [by eapply kernel_mono; [|exact Hk]; lia|done|..].
  { intros id (rt & Hid & Hown)%Hids. eauto. }
  eexists _, k', n'. by split_and!.
Qed.

End Disconnect.

(** ** Witness *)

Lemma disconnect_reaps_foreground_witness :
  ∃ ids k' n', cleanup_disconnected_connection (HEnv := sample_env) no_faults "socket"
      sample_kernel.1 sample_kernel.2 = (Ok ids, k', n')
    ∧ 1 ∈ ids ∧ records (k_processes k') !! 1 = None
    ∧ records (k_processes k') !! 19 = records (k_processes sample_kernel.1) !! 19.
Proof.
  assert (H1 : ∃ rt, records (k_processes sample_kernel.1) !! 1 = Some rt ∧ owned_by "socket" rt)
    by (vm_compute; eauto).
  assert (H19 : ∃ rt, records (k_processes sample_kernel.1) !! 19 = Some rt
                      ∧ pr_ownership (rt_record rt) = ProcessOwnership.Unowned) by (vm_compute; eauto).
  destruct (disconnect_reaps_foreground (HOk := sample_env_ok) no_faults false sample_kernel.1
    sample_kernel.2 "socket") as (ids & k' & n' & Hrun & _ & _ & Hids & Hrec).
  - reflexivity.
  - exact sample_kernel_ok.
  - intros id rt _ _. split.
    + assert (Hp : k_progress sample_kernel.1 = ∅) by (vm_compute; reflexivity). by rewrite Hp, lookup_empty.
    + left. assert (Ho : k_outcomes sample_kernel.1 = ∅) by (vm_compute; reflexivity). by rewrite Ho, lookup_empty.
  - assert (Hin : 1 ∈ ids) by by apply Hids. exists ids, k', n'. split_and!; [exact Hrun|done|..].
    + by rewrite Hrec, decide_True.
    + rewrite Hrec, decide_False; [done|]. intros (rt & Hrt & Hown)%Hids. destruct H19 as (rt' & Hrt' & Hown').
      unfold owned_by in Hown. congruence.
Defined.

(** ** Where the kernel promises less than it seems

    Concrete runs of the composed kernel that end in a state one would not
    expect: two concurrent spawns for one agent, a process scope that outlives
    its process, and a process that a failed spawn leaves behind. *)

Definition live_agents {Json} (k : KernelRuntime (Json := Json)) : list (ProcessId * AgentId) :=
  omap (λ e, if ProcessState.is_terminal (pr_state (rt_record e.2)) then None
             else Some (e.1, pr_agent_id (rt_record e.2))) (map_to_list (records (k_processes k))).

Section Races.
Existing Instance sample_env.

(** [spawn_process] looks its agent up under one lock and registers it under
    another: two calls that both pass the check before either registers leave
    the agent with two live processes, and the first is no longer its recorded
    one. *)
Lemma concurrent_spawns_share_agent :
  let check : M (KernelRuntime (Json := unit)) KernelError unit := ensure_agent_free 90 in
  match (check ;; check ;; spawn_registering sample_spec ;; spawn_registering sample_spec) with_clock 0 with
  | (Ok second, k, _) => second = 9
      ∧ live_agents k = [(9, 90); (1, 90)]
      ∧ pi_process_id <$> by_agent (k_identities k) !! 90 = Some 9
  | _ => False
  end.
Proof. vm_compute. by split_and!. Qed.

(** [reserve_process_budget] replaces the scope the spawn recorded for the
    process; terminating the process closes only the new one. *)
Lemma rebound_process_scope_stays_open :
  match kernel_run (Json := unit) no_faults [KSpawn sample_spec; KCreateRollout "rollout" (lim 100);
          KReserveProcess 9 1 (lim 50); KExit 1 ExitReason.Completed] with_clock 0 with
  | (results, k, _) => Forall (λ r, r = Ok tt) results
      ∧ (c ← budget (k_admission k); sc ← scopes (ct_state c) !! 7;
         Some (bs_owner (sc_view sc), sc_closed sc)) = Some ("process:1", false)
  end.
Proof. vm_compute. by repeat constructor. Qed.

End Races.

(** A file system on which the second write fails. *)
Definition full_disk_env : Env := {|
  uuid_v4 := N.succ; uuid_display := λ u, pretty u; mono_now := λ _, 1000; wall_now := λ _, 0%Z;
  persist_io := λ i, if i <? 8 then IoOk else IoFailBeforeRename "disk full";
  hash_order := λ _ _ l, l;
|}.

(** A spawn whose budget cannot be written fails, but the process it created
    stays in the table: live, without budget, restart specification or identity. *)
Lemma failed_spawn_leaves_process :
  match spawn_process (HEnv := full_disk_env) (Json := unit) sample_spec (with_clock_and_budget durable_new) 0 with
  | (Err _, k, _) => live_agents k = [(1, 90)] ∧ own_processes (k_ownership k) = ∅
      ∧ k_specs k = ∅ ∧ by_agent (k_identities k) = ∅
  | _ => False
  end.
Proof. vm_compute. by split_and!. Qed.
