(* ===== verification/EmergencyStop.v ===== *)
(** * The emergency stop (crates/hardware/src/emergency_stop.rs)

    A latch beside the ordinary command path: the first press is recorded and
    kept, and only the two-step reset that ends with a local operator arms the
    stop again.  Every method holds the state's mutex, so each is one step. *)
From S2P Require Import Prelude.

Module EmergencyStop.

Inductive EStopState := Armed | Triggered | Latched | ResetRequired.

#[global] Instance EStopState_eq_dec : EqDecision EStopState.
Proof. solve_decision. Defined.

Record EStopEvent := {
  ee_device_id : string;
  ee_state : EStopState;
  ee_triggered_at_ms : Z;
  ee_reason : string;
  ee_reset_at_ms : option Z;
  ee_operator_id : option string;
}.

Record EmergencyStop := {
  es_state : EStopState;
  es_triggered_at_ms : Z;
  es_reason : string;
  es_trigger_count : bool;
}.

Definition new : EmergencyStop :=
  {| es_state := Armed; es_triggered_at_ms := 0; es_reason := ""; es_trigger_count := false |}.

Definition event (state : EStopState) (triggered_at_ms : Z) (reason : string) : EStopEvent :=
  {| ee_device_id := ""; ee_state := state; ee_triggered_at_ms := triggered_at_ms; ee_reason := reason;
     ee_reset_at_ms := None; ee_operator_id := None |}.

Definition trigger (now_ms : Z) (reason : string) (s : EmergencyStop) : EStopEvent * EmergencyStop :=
  if decide (es_state s = Armed)
  then (event Latched now_ms reason,
        {| es_state := Latched; es_triggered_at_ms := now_ms; es_reason := reason;
           es_trigger_count := true |})
  else (event (es_state s) (es_triggered_at_ms s) (es_reason s), s).

Definition set_state (state : EStopState) (s : EmergencyStop) : EmergencyStop :=
  {| es_state := state; es_triggered_at_ms := es_triggered_at_ms s; es_reason := es_reason s;
     es_trigger_count := es_trigger_count s |}.

Definition reset (operator_id : option string) (_now_ms : Z) (s : EmergencyStop)
    : (string + EStopState) * EmergencyStop :=
  match es_state s with
  | Latched => (inr ResetRequired, set_state ResetRequired s)
  | ResetRequired =>
      match operator_id with
      | None => (inl "remote reset is not allowed — local operator required", s)
      | Some op => if decide (op = "") then (inl "operator_id must not be empty", s)
                   else (inr Armed, set_state Armed s)
      end
  | Armed => (inr Armed, s)
  | Triggered => (inr Latched, set_state Latched s)
  end.

Definition is_armed (s : EmergencyStop) : bool := bool_decide (es_state s = Armed).

Definition was_triggered (s : EmergencyStop) : bool := es_trigger_count s.

(** ** Runs *)

Inductive EStopCall :=
| Trigger (now_ms : Z) (reason : string)
| Reset (operator_id : option string) (now_ms : Z).

Definition estop_call (s : EmergencyStop) (call : EStopCall) : EmergencyStop :=
  match call with
  | Trigger now_ms reason => (trigger now_ms reason s).2
  | Reset operator_id now_ms => (reset operator_id now_ms s).2
  end.

Definition estop_run (calls : list EStopCall) (s : EmergencyStop) : EmergencyStop :=
  foldl estop_call s calls.

(** A reset in the name of a local operator. *)
Definition by_operator (call : EStopCall) : Prop :=
  match call with Reset (Some op) _ => op ≠ "" | _ => False end.

(** The latch holds the press [(now, reason)]. *)
Definition latched (now : Z) (reason : string) (s : EmergencyStop) : Prop :=
  (es_state s = Latched ∨ es_state s = ResetRequired)
  ∧ es_triggered_at_ms s = now ∧ es_reason s = reason ∧ es_trigger_count s = true.

Lemma latched_call now reason s call :
  latched now reason s → ¬ by_operator call → latched now reason (estop_call s call).
Proof.
  intros ([Hs|Hs] & Ht & Hr & Hc) Hop; destruct call as [now' reason'|op now']; cbn;
    unfold trigger, reset; rewrite Hs; cbn; try (by split_and!; auto).
  destruct op as [op|]; [|by split_and!; auto].
  destruct (decide (op = "")); [by split_and!; auto|]. by destruct Hop.
Qed.

Lemma run_latched now reason calls : ∀ s,
  latched now reason s → Forall (λ call, ¬ by_operator call) calls → latched now reason (estop_run calls s).
Proof.
  induction calls as [|call calls IH]; intros s Hs Hc; [done|]. apply Forall_cons in Hc as [Hc Hcs].
  apply IH; [by apply latched_call|done].
Qed.

(** From the latch, one reset never arms. *)
Lemma one_reset_does_not_arm now reason s op now' :
  latched now reason s → es_state s = Latched → is_armed (reset op now' s).2 = false.
Proof. intros _ Hs. unfold reset. rewrite Hs. done. Qed.

(** The emergency stop latches the first press.  After a press on an armed
    stop, whatever presses and resets follow, as long as none of them is a reset
    by a named local operator, the stop is not armed again, further presses
    answer with the first press, and its time and reason are the first press's;
    from the latch a single reset, even an operator's, does not arm; and the
    evidence that it was pressed is never lost. *)
Theorem estop_stays_latched s now reason calls :
  es_state s = Armed →
  let s1 := (trigger now reason s).2 in
  let s2 := estop_run calls s1 in
  was_triggered s2 = true
  ∧ (∀ op now', is_armed (reset op now' s1).2 = false)
  ∧ (Forall (λ call, ¬ by_operator call) calls →
     is_armed s2 = false
     ∧ ∀ now' reason', trigger now' reason' s2 = (event (es_state s2) now reason, s2)).
Proof.
  intros Ha s1 s2.
  assert (Hl : latched now reason s1).
  { unfold s1, trigger. rewrite decide_True by done. split_and!; auto. }
  assert (Hstate : es_state s1 = Latched) by (unfold s1, trigger; by rewrite decide_True).
  split_and!.
  - assert (Hkeep : ∀ calls s, es_trigger_count s = true → es_trigger_count (estop_run calls s) = true).
    { clear. induction calls as [|call calls IH]; intros s Hs; [done|]. apply IH.
      destruct call as [now reason|op now]; cbn; unfold trigger, reset.
      - by case_decide.
      - destruct (es_state s); try done. destruct op; [|done]. by case_decide. }
    apply Hkeep. apply Hl.
  - intros op now'. by eapply one_reset_does_not_arm.
  - intros Hc. destruct (run_latched now reason calls s1 Hl Hc) as (Hs & Ht & Hr & _).
    fold s2 in Hs, Ht, Hr. split.
    + unfold is_armed. apply bool_decide_false. destruct Hs as [-> | ->]; done.
    + intros now' reason'. unfold trigger. rewrite decide_False by (destruct Hs as [-> | ->]; done).
      by rewrite Ht, Hr.
Qed.

Lemma estop_stays_latched_witness :
  is_armed (estop_run [Reset None 2; Trigger 3 "again"; Reset (Some "") 4] (trigger 1 "button" new).2) = false.
Proof.
  destruct (estop_stays_latched new 1 "button" [Reset None 2; Trigger 3 "again"; Reset (Some "") 4])
    as (_ & _ & Hrun); [reflexivity|].
  apply Hrun. repeat (apply Forall_cons; split; [by intros Hop; apply Hop|]). apply Forall_nil_2.
Defined.

(** A press between the two steps of a reset is not latched: the operator's
    confirmation of the first one arms the stop. *)
Lemma press_during_reset_is_lost :
  es_state (estop_run [Trigger 1 "first"; Reset None 2; Trigger 3 "second"; Reset (Some "op") 4] new) = Armed.
Proof. reflexivity. Qed.

End EmergencyStop.
