(* ===== verification/Device.v ===== *)
(** * Governed devices (crates/hardware)

    The device side of the authority chain: the types of device.rs, lease.rs,
    command.rs and safety.rs, the safety boundary [SimulatedDevice] of
    simulator.rs with its provider facade.  The registry and the broker in
    front of it are in [Broker].  JSON values and floating-point numbers are
    parameters. *)
From S2P Require Import Prelude FabricTypes.

(** What the code uses of [serde_json] and of [f64]: the two constants, reading
    a numeric field, and the objects built with [json!]. *)
Class DeviceJson (Json F64 : Type) := {
  f64_zero : F64;
  f64_one : F64;
  num_field : Json → string → option F64;
  json_xy : F64 → F64 → Json;
  json_pose : F64 → F64 → F64 → Json;
}.

(** A number that was read from a JSON value is read back from a new one. *)
Class DeviceJsonOk (Json F64 : Type) `{DeviceJson Json F64} : Prop := {
  json_xy_fields : ∀ j j' k k' x y, num_field j k = Some x → num_field j' k' = Some y →
    num_field (json_xy x y) "x" = Some x ∧ num_field (json_xy x y) "y" = Some y;
}.

Module Device.

Abbreviation DeviceId := string (only parsing).
Abbreviation PrincipalId := string (only parsing).
Abbreviation DeviceOperationId := string (only parsing).
Abbreviation SkillId := string (only parsing).

Inductive DeviceClass := Robot | Actuator | Sensor | Camera | Bus | Composite.

Inductive DeviceNamespace := Simulation | Lab | Hil | Production.

#[global] Instance DeviceNamespace_eq_dec : EqDecision DeviceNamespace.
Proof. solve_decision. Defined.

Record DeviceManifest := {
  dm_id : DeviceId;
  dm_class : DeviceClass;
  dm_namespace : DeviceNamespace;
  dm_model : string;
  dm_capabilities : gset string;
  dm_firmware : option string;
}.

Record ControlPermit := {
  cp_permit_id : string;
  cp_operation : DeviceOperationId;
  cp_principal : PrincipalId;
  cp_device : DeviceId;
  cp_scope : gset string;
  cp_expires_at : N;
  cp_revoked : bool;
}.

Record ControlLease := {
  cl_lease_id : string;
  cl_operation : DeviceOperationId;
  cl_device : DeviceId;
  cl_holder : PrincipalId;
  cl_scope : gset string;
  cl_expires_at : N;
  cl_exclusive : bool;
}.

Inductive SafetyState := Ready | Active | Stopping | SafeStopped | Faulted.

#[global] Instance SafetyState_eq_dec : EqDecision SafetyState.
Proof. solve_decision. Defined.

Inductive RejectionReason :=
| MissingPermit | ExpiredPermit | RevokedPermit | PermitOperationMismatch | PermitPrincipalMismatch
| PermitDeviceMismatch | PermitOutOfScope | MissingLease | ExpiredLease | WrongHolder | WrongDevice
| LeaseOperationMismatch | LeaseOutOfScope | ExpiredDeadline | ReplayOrOutOfOrder | SchemaMismatch
| UnsafeState | InvalidPayload.

Inductive CommandDecision :=
| Accepted
| FailSafeApplied
| Rejected (reason : RejectionReason).

Section Model.
Context `{HEnv : Env} {Json F64 : Type} `{HJson : DeviceJson Json F64}.

Record TypedCommand := {
  tc_command_id : string;
  tc_operation : DeviceOperationId;
  tc_principal : PrincipalId;
  tc_sequence : N;
  tc_device : DeviceId;
  tc_schema : string;
  tc_payload : Json;
  tc_deadline : N;
}.

Definition is_stop (c : TypedCommand) : bool := bool_decide (tc_schema c = "stop").

Record CommandReceipt := {
  cr_operation : DeviceOperationId;
  cr_principal : PrincipalId;
  cr_device : DeviceId;
  cr_command_id : string;
  cr_sequence : N;
  cr_decision : CommandDecision;
  cr_safety_before : SafetyState;
  cr_safety_after : SafetyState;
  cr_observed_at : N;
}.

Definition accepted (r : CommandReceipt) : bool :=
  match cr_decision r with Accepted | FailSafeApplied => true | Rejected _ => false end.

Record TelemetryEnvelope := {
  te_device : DeviceId;
  te_operation : option DeviceOperationId;
  te_stream : string;
  te_sequence : N;
  te_source_time : N;
  te_safety : SafetyState;
  te_payload : Json;
}.

(** ** The simulated device *)

Record SimulatedDevice := {
  sd_manifest : DeviceManifest;
  sd_position : F64 * F64;
  sd_battery : F64;
  sd_lease : option ControlLease;
  sd_safety : SafetyState;
  sd_last_sequence : option N;
  sd_telemetry_sequence : N;
  sd_connected : bool;
}.

Definition origin : F64 * F64 := (f64_zero, f64_zero).

Definition mobile_robot (id : DeviceId) : SimulatedDevice :=
  {| sd_manifest := {| dm_id := id; dm_class := Robot; dm_namespace := Simulation;
                       dm_model := "sim-mobile-v1"; dm_capabilities := {["navigate"; "stop"]};
                       dm_firmware := Some "sim-0.1.0" |};
     sd_position := origin; sd_battery := f64_one; sd_lease := None; sd_safety := Ready;
     sd_last_sequence := None; sd_telemetry_sequence := 0; sd_connected := true |}.

Definition with_motion (position : F64 * F64) (safety : SafetyState) (d : SimulatedDevice)
    : SimulatedDevice :=
  {| sd_manifest := sd_manifest d; sd_position := position; sd_battery := sd_battery d;
     sd_lease := sd_lease d; sd_safety := safety; sd_last_sequence := sd_last_sequence d;
     sd_telemetry_sequence := sd_telemetry_sequence d; sd_connected := sd_connected d |}.

Definition with_lease (lease : option ControlLease) (d : SimulatedDevice) : SimulatedDevice :=
  {| sd_manifest := sd_manifest d; sd_position := sd_position d; sd_battery := sd_battery d;
     sd_lease := lease; sd_safety := sd_safety d; sd_last_sequence := sd_last_sequence d;
     sd_telemetry_sequence := sd_telemetry_sequence d; sd_connected := sd_connected d |}.

Definition with_sequences (last : option N) (telemetry : N) (d : SimulatedDevice) : SimulatedDevice :=
  {| sd_manifest := sd_manifest d; sd_position := sd_position d; sd_battery := sd_battery d;
     sd_lease := sd_lease d; sd_safety := sd_safety d; sd_last_sequence := last;
     sd_telemetry_sequence := telemetry; sd_connected := sd_connected d |}.

Definition with_connected (connected : bool) (d : SimulatedDevice) : SimulatedDevice :=
  {| sd_manifest := sd_manifest d; sd_position := sd_position d; sd_battery := sd_battery d;
     sd_lease := sd_lease d; sd_safety := sd_safety d; sd_last_sequence := sd_last_sequence d;
     sd_telemetry_sequence := sd_telemetry_sequence d; sd_connected := connected |}.

Abbreviation D := (M SimulatedDevice string).

Definition grant_lease (lease : ControlLease) : D unit :=
  d ← get_state;
  ensure (bool_decide (cl_device lease = dm_id (sd_manifest d))) "lease device mismatch" ;;
  modify (with_lease (Some lease)).

(** [DeviceProvider::safe_stop] *)
Definition safe_stop : D unit :=
  d ← get_state;
  if decide (sd_safety d = Faulted) then mret tt
  else modify (with_motion origin SafeStopped).

Definition disconnect : D unit := modify (with_connected false) ;; ignore safe_stop.

Definition fault : D unit := modify (with_motion origin Faulted).

Definition enforce_expiry : D unit :=
  d ← get_state;
  match sd_lease d with
  | Some lease =>
      now ← read_mono;
      if cl_expires_at lease <=? now then ignore safe_stop else mret tt
  | None => mret tt
  end.

Definition telemetry (operation : option DeviceOperationId) : D TelemetryEnvelope :=
  modify (λ d, with_sequences (sd_last_sequence d) (saturating_add (sd_telemetry_sequence d) 1) d) ;;
  d ← get_state;
  now ← read_mono;
  mret {| te_device := dm_id (sd_manifest d); te_operation := operation; te_stream := "pose";
          te_sequence := sd_telemetry_sequence d; te_source_time := now; te_safety := sd_safety d;
          te_payload := json_pose (sd_position d).1 (sd_position d).2 (sd_battery d) |}.

(** [DeviceProvider::apply] *)
Definition apply (command : TypedCommand) : D unit :=
  d ← get_state;
  if sd_connected d then
    x ← ok_or (num_field (tc_payload command) "x") "navigate x missing";
    y ← ok_or (num_field (tc_payload command) "y") "navigate y missing";
    modify (with_motion (x, y) Active)
  else safe_stop ;; throw "device disconnected".

(** The checks of [execute]: the reason of the first one that fails, and whether
    the device is stopped. *)
Definition screen (now : N) (d : SimulatedDevice) (command : TypedCommand)
    (permit : option ControlPermit) : option (RejectionReason * bool) :=
  match permit with
  | None => Some (MissingPermit, false)
  | Some permit =>
      if cp_revoked permit then Some (RevokedPermit, false)
      else if cp_expires_at permit <=? now then Some (ExpiredPermit, false)
      else if negb (bool_decide (cp_operation permit = tc_operation command))
      then Some (PermitOperationMismatch, false)
      else if negb (bool_decide (cp_principal permit = tc_principal command))
      then Some (PermitPrincipalMismatch, false)
      else if negb (bool_decide (cp_device permit = tc_device command))
      then Some (PermitDeviceMismatch, false)
      else if negb (bool_decide (tc_schema command ∈ cp_scope permit)) then Some (PermitOutOfScope, false)
      else if negb (bool_decide (tc_device command = dm_id (sd_manifest d))) then Some (WrongDevice, false)
      else if negb (bool_decide (tc_schema command ∈ dm_capabilities (sd_manifest d)))
      then Some (SchemaMismatch, false)
      else if tc_deadline command <=? now then Some (ExpiredDeadline, true)
      else if match sd_last_sequence d with
              | Some sequence => tc_sequence command <=? sequence
              | None => false
              end then Some (ReplayOrOutOfOrder, false)
      else if bool_decide (sd_safety d = Faulted) && negb (is_stop command) then Some (UnsafeState, false)
      else if is_stop command then None
      else
        match sd_lease d with
        | None => Some (MissingLease, false)
        | Some lease =>
            if cl_expires_at lease <=? now then Some (ExpiredLease, true)
            else if negb (bool_decide (cl_holder lease = tc_principal command)) then Some (WrongHolder, false)
            else if negb (bool_decide (cl_device lease = tc_device command)) then Some (WrongDevice, false)
            else if negb (bool_decide (cl_operation lease = tc_operation command))
            then Some (LeaseOperationMismatch, false)
            else if negb (bool_decide (tc_schema command ∈ cl_scope lease)) then Some (LeaseOutOfScope, false)
            else None
        end
  end.

Definition receipt (command : TypedCommand) (decision : CommandDecision) (before after : SafetyState)
    (now : N) : CommandReceipt :=
  {| cr_operation := tc_operation command; cr_principal := tc_principal command;
     cr_device := tc_device command; cr_command_id := tc_command_id command;
     cr_sequence := tc_sequence command; cr_decision := decision; cr_safety_before := before;
     cr_safety_after := after; cr_observed_at := now |}.

(** The closure [reject] of [execute]. *)
Definition reject (command : TypedCommand) (before : SafetyState) (now : N) (reason : RejectionReason)
    (fail_safe : bool) : D CommandReceipt :=
  (if fail_safe then ignore safe_stop else mret tt) ;;
  d ← get_state;
  mret (receipt command (Rejected reason) before (sd_safety d) now).

Definition execute (command : TypedCommand) (permit : option ControlPermit) : D CommandReceipt :=
  now ← read_mono;
  d ← get_state;
  let before := sd_safety d in
  match screen now d command permit with
  | Some (reason, fail_safe) => reject command before now reason fail_safe
  | None =>
      applied ← (if is_stop command then ignore safe_stop ;; mret (inr FailSafeApplied)
                 else r ← try_ (apply command);
                      mret (match r with inl _ => inl InvalidPayload | inr _ => inr Accepted end));
      match applied with
      | inl reason => reject command before now reason true
      | inr decision =>
          modify (λ d, with_sequences (Some (tc_sequence command)) (sd_telemetry_sequence d) d) ;;
          d ← get_state;
          mret (receipt command decision before (sd_safety d) now)
      end
  end.

(** ** Runs *)

Inductive DeviceCall :=
| Grant (lease : ControlLease)
| Disconnect
| Fault
| EnforceExpiry
| Telemetry (operation : option DeviceOperationId)
| SafeStop
| Execute (command : TypedCommand) (permit : option ControlPermit).

(** An executed command with the permit it came with, the lease the device held
    and the receipt. *)
Record Executed := {
  ex_command : TypedCommand;
  ex_permit : option ControlPermit;
  ex_lease : option ControlLease;
  ex_receipt : CommandReceipt;
}.

Definition after {A} (o : Result string A * SimulatedDevice * N) : SimulatedDevice * N :=
  match o with (_, d, n) => (d, n) end.

Definition device_call (call : DeviceCall) (d : SimulatedDevice) (n : N)
    : list Executed * SimulatedDevice * N :=
  match call with
  | Grant lease => ([], (after (grant_lease lease d n)).1, (after (grant_lease lease d n)).2)
  | Disconnect => ([], (after (disconnect d n)).1, (after (disconnect d n)).2)
  | Fault => ([], (after (fault d n)).1, (after (fault d n)).2)
  | EnforceExpiry => ([], (after (enforce_expiry d n)).1, (after (enforce_expiry d n)).2)
  | Telemetry op => ([], (after (telemetry op d n)).1, (after (telemetry op d n)).2)
  | SafeStop => ([], (after (safe_stop d n)).1, (after (safe_stop d n)).2)
  | Execute command permit =>
      match execute command permit d n with
      | (Ok r, d', n') => ([{| ex_command := command; ex_permit := permit; ex_lease := sd_lease d;
                               ex_receipt := r |}], d', n')
      | (_, d', n') => ([], d', n')
      end
  end.

Fixpoint device_run (calls : list DeviceCall) (d : SimulatedDevice) (n : N)
    : list Executed * SimulatedDevice * N :=
  match calls with
  | [] => ([], d, n)
  | call :: rest =>
      match device_call call d n with
      | (l1, d1, n1) => match device_run rest d1 n1 with (l2, d2, n2) => (l1 ++ l2, d2, n2) end
      end
  end.

(** ** What a command needs *)

(** The permit covers the command at the time [now]. *)
Record permitted (now : N) (c : TypedCommand) (p : ControlPermit) : Prop := {
  pm_live : cp_revoked p = false ∧ now < cp_expires_at p;
  pm_for : cp_operation p = tc_operation c ∧ cp_principal p = tc_principal c ∧ cp_device p = tc_device c;
  pm_scope : tc_schema c ∈ cp_scope p;
}.

(** The lease covers the command at the time [now]. *)
Record leased (now : N) (c : TypedCommand) (l : ControlLease) : Prop := {
  ls_live : now < cl_expires_at l;
  ls_for : cl_operation l = tc_operation c ∧ cl_holder l = tc_principal c ∧ cl_device l = tc_device c;
  ls_scope : tc_schema c ∈ cl_scope l;
}.

(** An executed command had the authority its decision needs. *)
Definition authorized (e : Executed) : Prop :=
  let now := cr_observed_at (ex_receipt e) in
  match cr_decision (ex_receipt e) with
  | Rejected _ => True
  | FailSafeApplied => is_stop (ex_command e) = true ∧ now < tc_deadline (ex_command e)
      ∧ ∃ p, ex_permit e = Some p ∧ permitted now (ex_command e) p
  | Accepted => is_stop (ex_command e) = false ∧ now < tc_deadline (ex_command e)
      ∧ (∃ p, ex_permit e = Some p ∧ permitted now (ex_command e) p)
      ∧ ∃ l, ex_lease e = Some l ∧ leased now (ex_command e) l
  end.

(** The sequence numbers of the commands that took effect. *)
Definition effects (l : list Executed) : list N :=
  omap (λ e, if accepted (ex_receipt e) then Some (cr_sequence (ex_receipt e)) else None) l.

Fixpoint increasing_above (last : option N) (l : list N) : Prop :=
  match l with
  | [] => True
  | x :: rest => (∀ y, last = Some y → y < x) ∧ increasing_above (Some x) rest
  end.

(** A device that is not moving stands at the origin, and a disconnected one does
    not move. *)
Record device_ok (d : SimulatedDevice) : Prop := {
  dv_still : sd_safety d ≠ Active → sd_position d = origin;
  dv_offline : sd_connected d = false → sd_safety d ≠ Active;
}.

(** The device can never move again. *)
Definition grounded (d : SimulatedDevice) : Prop := sd_safety d = Faulted ∨ sd_connected d = false.

End Model.
End Device.
