(* ===== verification/DeviceSpec.v ===== *)
(** * Governed devices: properties

    Whatever is asked of a device and in whatever order, it moves only under a
    live permit and a live lease for exactly that command, carries out no command
    twice, stands still otherwise, and after a fault or a disconnect for good. *)
From S2P Require Import Prelude FabricTypes Device.
Import Device.

Section Spec.
Context `{HEnv : Env} {Json F64 : Type} `{HJson : DeviceJson Json F64}.
Implicit Types (d : SimulatedDevice (F64 := F64)) (c : TypedCommand (Json := Json)).

(** ** The checks *)

Ltac bool_props :=
  rewrite ?negb_false_iff, ?N.leb_gt, ?bool_decide_eq_true, ?bool_decide_eq_false in *.

Definition cleared (now : N) d c (permit : option ControlPermit) : Prop :=
  (∃ p, permit = Some p ∧ permitted now c p) ∧ now < tc_deadline c
  ∧ tc_device c = dm_id (sd_manifest d) ∧ tc_schema c ∈ dm_capabilities (sd_manifest d)
  ∧ (∀ s, sd_last_sequence d = Some s → s < tc_sequence c)
  ∧ (is_stop c = false → sd_safety d ≠ Faulted ∧ ∃ l, sd_lease d = Some l ∧ leased now c l).

Lemma screen_none now d c permit : screen now d c permit = None ↔ cleared now d c permit.
Proof.
  split.
  - intros H. unfold screen in H. repeat (case_match; try discriminate); bool_props; subst;
      split_and!; try done; try (naive_solver (by split));
      (intros Hst; rewrite Hst in *; try congruence; cbn [negb] in *;
       rewrite andb_true_r, bool_decide_eq_false in *; (split; [done|eexists; split; [done|by split]])).
  - intros ((p & -> & [[Hr Hp] (Ho & Hpr & Hpd) Hs]) & Hd & Hdev & Hcap & Hseq & Hgo).
    unfold screen. rewrite Hr.
    rewrite (proj2 (N.leb_gt _ _) Hp), (proj2 (N.leb_gt _ _) Hd), !bool_decide_true by done. cbn [negb].
    assert ((match sd_last_sequence d with Some s => tc_sequence c <=? s | None => false end) = false) as ->.
    { destruct (sd_last_sequence d); [apply N.leb_gt; auto|done]. }
    destruct (is_stop c) eqn:Hst; [by rewrite andb_false_r|].
    destruct (Hgo eq_refl) as (Hf & l & -> & [Hl (? & ? & ?) Hls]).
    rewrite bool_decide_false by done. cbn [negb andb].
    by rewrite (proj2 (N.leb_gt _ _) Hl), !bool_decide_true by done.
Qed.

(** ** One command *)

(** What a command never changes. *)
Record same_device (d d' : SimulatedDevice (F64 := F64)) : Prop := {
  sm_manifest : sd_manifest d' = sd_manifest d;
  sm_lease : sd_lease d' = sd_lease d;
  sm_connected : sd_connected d' = sd_connected d;
  sm_faulted : sd_safety d = Faulted → sd_safety d' = Faulted;
}.

(** Stopping: at the origin, unless the fault already did that. *)
Definition stopped (d d' : SimulatedDevice (F64 := F64)) : Prop :=
  d' = if decide (sd_safety d = Faulted) then d else with_motion origin SafeStopped d.

Lemma safe_stop_run d n : ∃ d', safe_stop d n = (Ok tt, d', n) ∧ stopped d d'.
Proof.
  unfold safe_stop, stopped, mbind, M_bind, get_state. destruct (decide (sd_safety d = Faulted)); eauto.
Qed.

Lemma stopped_same d d' : stopped d d' → same_device d d' ∧ sd_last_sequence d' = sd_last_sequence d.
Proof. intros ->. case_decide; by split; [split|]. Qed.

(** The outcome of a command on every branch. *)
Definition executed (c : TypedCommand (Json := Json)) (permit : option ControlPermit)
    (d d' : SimulatedDevice (F64 := F64)) (r : CommandReceipt) : Prop :=
  cr_sequence r = tc_sequence c ∧ same_device d d' ∧ cr_safety_after r = sd_safety d'
  ∧ match cr_decision r with
    | Accepted => cleared (cr_observed_at r) d c permit ∧ is_stop c = false ∧ sd_connected d = true
        ∧ sd_safety d' = Active ∧ sd_last_sequence d' = Some (tc_sequence c)
        ∧ ∃ x y, num_field (tc_payload c) "x" = Some x ∧ num_field (tc_payload c) "y" = Some y
                 ∧ sd_position d' = (x, y)
    | FailSafeApplied => cleared (cr_observed_at r) d c permit ∧ is_stop c = true
        ∧ sd_last_sequence d' = Some (tc_sequence c)
        ∧ sd_safety d' ≠ Active ∧ (device_ok d → sd_position d' = origin)
    | Rejected _ => sd_last_sequence d' = sd_last_sequence d ∧ (d' = d ∨ stopped d d')
    end.

Lemma reject_run c before now reason fail_safe d n :
  ∃ d', reject c before now reason fail_safe d n
        = (Ok (receipt c (Rejected reason) before (sd_safety d') now), d', n)
    ∧ (d' = d ∨ stopped d d').
Proof.
  unfold reject, mbind, M_bind. destruct fail_safe; [|eauto]. unfold ignore.
  destruct (safe_stop_run d n) as (d' & -> & Hs). eauto.
Qed.

Lemma apply_run c d n :
  (∃ x y, num_field (tc_payload c) "x" = Some x ∧ num_field (tc_payload c) "y" = Some y
     ∧ sd_connected d = true ∧ apply c d n = (Ok tt, with_motion (x, y) Active d, n))
  ∨ ∃ e d', apply c d n = (Err e, d', n) ∧ (d' = d ∨ stopped d d').
Proof.
  unfold apply, mbind, M_bind, get_state. destruct (sd_connected d).
  - unfold ok_or. destruct (num_field (tc_payload c) "x") as [x|]; [|right; eauto].
    destruct (num_field (tc_payload c) "y") as [y|]; [|right; eauto]. left. eauto 10.
  - right. destruct (safe_stop_run d n) as (d' & -> & Hs). eauto.
Qed.

Lemma same_device_trans d1 d2 d3 : same_device d1 d2 → same_device d2 d3 → same_device d1 d3.
Proof. intros [? ? ? ?] [? ? ? ?]. split; try congruence. auto. Qed.

Lemma stopped_still d d' : device_ok d → stopped d d' → sd_safety d' ≠ Active ∧ sd_position d' = origin.
Proof.
  intros [Hs _] ->. destruct (decide (sd_safety d = Faulted)) as [Hf|]; [|done].
  rewrite Hf in *. split; [done|]. by apply Hs.
Qed.

Lemma stopped_twice d d1 d2 : d1 = d ∨ stopped d d1 → d2 = d1 ∨ stopped d1 d2 → d2 = d ∨ stopped d d2.
Proof.
  intros [->|H1] [->|H2]; auto. right. unfold stopped in *. subst.
  destruct (decide (sd_safety d = Faulted)) as [Hf|Hf]; [by rewrite decide_True|].
  by rewrite decide_False by done.
Qed.

Lemma rejected_executed c permit d d' r :
  cr_sequence r = tc_sequence c → cr_safety_after r = sd_safety d' →
  (∃ reason, cr_decision r = Rejected reason) → d' = d ∨ stopped d d' → executed c permit d d' r.
Proof.
  intros Hseq Hafter [reason Hr] Hd. assert (Hsame : same_device d d' ∧ sd_last_sequence d' = sd_last_sequence d).
  { destruct Hd as [->|Hd]; [by split; [split|]|by apply stopped_same]. }
  destruct Hsame. unfold executed. rewrite Hr. by split_and!.
Qed.

Lemma execute_spec c permit d n :
  ∃ r d', execute c permit d n = (Ok r, d', n + 1) ∧ executed c permit d d' r.
Proof.
  unfold execute, read_mono, tick, mbind, M_bind, get_state, mret, M_ret.
  destruct (screen (mono_now n) d c permit) as [[reason fail_safe]|] eqn:Hsc.
  - destruct (reject_run c (sd_safety d) (mono_now n) reason fail_safe d (n + 1)) as (d' & Hr & Hd).
    rewrite Hr. eexists _, d'. split; [done|]. apply rejected_executed; eauto.
  - apply screen_none in Hsc. destruct (is_stop c) eqn:Hst.
    + unfold ignore. destruct (safe_stop_run d (n + 1)) as (d1 & -> & Hs). cbn. eexists _, _. split; [done|].
      destruct (stopped_same _ _ Hs) as [[? ? ? ?] _]. unfold executed. cbn. split_and!; try done.
      * unfold stopped in Hs. subst d1. destruct (decide (sd_safety d = Faulted)) as [Hf|]; [by rewrite Hf|done].
      * intros Hok. by destruct (stopped_still _ _ Hok Hs).
    + unfold try_. destruct (apply_run c d (n + 1)) as [(x & y & Hx & Hy & Hcon & ->)|(e & d1 & -> & Hd1)].
      * eexists _, _. split; [done|]. unfold executed. cbn. split_and!; try done; [|eauto].
        split; try done. cbn. intros Hf. by destruct (proj2 (proj2 (proj2 (proj2 (proj2 Hsc)))) Hst).
      * destruct (reject_run c (sd_safety d) (mono_now n) InvalidPayload true d1 (n + 1)) as (d2 & Hr & Hd2).
        rewrite Hr. eexists _, d2. split; [done|].
        apply rejected_executed; [done|done|eauto|by eapply stopped_twice].
Qed.

(** ** Runs *)

(** What one call, and so a run of calls, guarantees: [l] is what it executed. *)
Record device_step (d : SimulatedDevice (F64 := F64)) (l : list (Executed (Json := Json)))
    (d' : SimulatedDevice (F64 := F64)) : Prop := {
  st_ok : device_ok d → device_ok d';
  st_authorized : Forall authorized l;
  st_sequence : ∀ rest, increasing_above (sd_last_sequence d') rest →
    increasing_above (sd_last_sequence d) (effects l ++ rest);
  st_grounded : grounded d → grounded d' ∧ Forall (λ e, cr_decision (ex_receipt e) ≠ Accepted) l;
}.

Lemma device_step_trans d1 l1 d2 l2 d3 :
  device_step d1 l1 d2 → device_step d2 l2 d3 → device_step d1 (l1 ++ l2) d3.
Proof.
  intros [Ho1 Ha1 Hs1 Hg1] [Ho2 Ha2 Hs2 Hg2]. split; [auto|by apply Forall_app| |].
  - intros rest Hr. unfold effects. rewrite omap_app, <-app_assoc. auto.
  - intros Hg. destruct (Hg1 Hg) as [Hg' ?]. destruct (Hg2 Hg') as [? ?]. split; [done|]. by apply Forall_app.
Qed.

(** Calls that execute nothing and leave the last sequence number alone. *)
Lemma quiet_step d d' :
  (device_ok d → device_ok d') → sd_last_sequence d' = sd_last_sequence d → (grounded d → grounded d') →
  device_step d [] d'.
Proof. intros Ho Hs Hg. split; [done|constructor|by rewrite Hs|by auto]. Qed.

Lemma stopped_step d d' : stopped d d' → device_step d [] d'.
Proof.
  intros Hs. destruct (stopped_same _ _ Hs) as [[_ _ Hc Hf] Hq]. apply quiet_step; [|done|].
  - intros Hok. destruct (stopped_still _ _ Hok Hs). by split.
  - intros [?|?]; [left; auto|right; congruence].
Qed.

Lemma device_step_refl d : device_step d [] d.
Proof. by apply quiet_step. Qed.

Lemma executed_step c permit d d' r :
  executed c permit d d' r →
  device_step d [{| ex_command := c; ex_permit := permit; ex_lease := sd_lease d; ex_receipt := r |}] d'.
Proof.
  intros (Hseq & [Hman Hlease Hcon Hflt] & _ & Hd). unfold effects, accepted. split; cbn.
  - destruct (cr_decision r) eqn:Hr.
    + destruct Hd as (_ & _ & Hc & Ha & _). intros _. split; congruence.
    + destruct Hd as (_ & _ & _ & Hn & Hp). intros Hok. split; auto.
    + destruct Hd as [_ [->|Hs]]; [done|]. apply stopped_step in Hs. apply Hs.
  - constructor; [|constructor]. unfold authorized. cbn. destruct (cr_decision r) eqn:Hr; [| |done].
    + destruct Hd as ((Hp & Hdl & _ & _ & _ & Hgo) & Hst & _). destruct (Hgo Hst) as [_ Hl]. done.
    + destruct Hd as ((Hp & Hdl & _) & Hst & _). done.
  - intros rest Hrest. rewrite Hseq. unfold accepted. destruct (cr_decision r); cbn.
    + destruct Hd as ((_ & _ & _ & _ & Hlast & _) & _ & _ & _ & Hq & _). rewrite Hq in Hrest. by split.
    + destruct Hd as ((_ & _ & _ & _ & Hlast & _) & _ & Hq & _). rewrite Hq in Hrest. by split.
    + destruct Hd as [Hq _]. by rewrite Hq in Hrest.
  - intros Hg. split; [destruct Hg; [left; auto|right; congruence]|]. constructor; [|constructor]. cbn.
    intros Hr. rewrite Hr in Hd. destruct Hd as ((_ & _ & _ & _ & _ & Hgo) & Hst & Hc & _).
    destruct (Hgo Hst) as [Hf _]. destruct Hg; congruence.
Qed.

Lemma enforce_expiry_run d n :
  (∃ l, sd_lease d = Some l ∧ cl_expires_at l ≤ mono_now n) ∧ stopped d (after (enforce_expiry d n)).1
  ∨ (∀ l, sd_lease d = Some l → ¬ cl_expires_at l ≤ mono_now n) ∧ (after (enforce_expiry d n)).1 = d.
Proof.
  unfold enforce_expiry, mbind, M_bind, get_state. destruct (sd_lease d) as [l|]; [|by right].
  unfold read_mono, tick, mbind, M_bind, mret, M_ret. destruct (cl_expires_at l <=? mono_now n) eqn:He.
  - left. apply N.leb_le in He. split; [eauto|]. unfold ignore.
    by destruct (safe_stop_run d (n + 1)) as (d1 & -> & Hs).
  - right. apply N.leb_gt in He. split; [|done]. intros l' [= <-]. lia.
Qed.

Lemma device_call_step call d n l d' n' : device_call call d n = (l, d', n') → device_step d l d'.
Proof.
  destruct call; cbn; intros H; simplify_eq.
  - unfold grant_lease, mbind, M_bind, get_state, ensure. case_bool_decide; [|apply device_step_refl].
    by apply quiet_step; [intros []; split|..].
  - unfold disconnect, mbind, M_bind, modify, ignore.
    destruct (safe_stop_run (with_connected false d) n) as (d1 & -> & Hs). cbn.
    destruct (stopped_same _ _ Hs) as [[_ _ Hc _] Hq]. apply quiet_step; [|done|by right].
    intros [Ho _]. assert (device_ok d1 ∨ sd_safety (with_connected (F64 := F64) false d) = Active) as [?|Ha].
    { destruct (decide (sd_safety d = Active)) as [|Hn]; [by right|left].
      destruct (stopped_still (with_connected false d) d1); [by split|done|by split]. }
    { done. }
    unfold stopped in Hs. rewrite Ha in Hs. subst d1. by split.
  - unfold fault, modify. apply quiet_step; [by split|done|by left].
  - destruct (enforce_expiry_run d n) as [(_ & Hs)|[_ Hs]]; [by apply stopped_step|].
    rewrite Hs. apply device_step_refl.
  - unfold telemetry, mbind, M_bind, get_state, modify, read_mono, tick. cbn.
    by apply quiet_step; [intros []; split|..].
  - destruct (safe_stop_run d n) as (d1 & -> & Hs). by apply stopped_step.
  - destruct (execute_spec command permit d n) as (r & d1 & He & Hx). rewrite He in H. simplify_eq.
    by eapply executed_step.
Qed.

Lemma device_run_step calls d n l d' n' : device_run calls d n = (l, d', n') → device_step d l d'.
Proof.
  revert d n l. induction calls as [|call rest IH]; intros d n l; cbn.
  { intros [= <- <- _]. apply device_step_refl. }
  destruct (device_call call d n) as [[l1 d1] n1] eqn:Hc. destruct (device_run rest d1 n1) as [[l2 d2] n2] eqn:Hr.
  intros [= <- <- <-]. eapply device_step_trans; [by eapply device_call_step|by eapply IH].
Qed.

Lemma grounded_still d : device_ok d → grounded d → sd_position d = origin.
Proof. intros [Ho Hc] [Hf|Hn]; apply Ho; [congruence|auto]. Qed.

Lemma grounding_call call d n l d' n' :
  call ∈ [Fault; Disconnect] → device_call (Json := Json) call d n = (l, d', n') → l = [] ∧ grounded d'.
Proof.
  intros [->|[->|[]%elem_of_nil]%elem_of_cons]%elem_of_cons; cbn; intros [= <- <- _].
  - split; [done|by left].
  - split; [done|right]. unfold disconnect, mbind, M_bind, modify, ignore.
    destruct (safe_stop_run (with_connected false d) n) as (d1 & -> & Hs). by destruct (stopped_same _ _ Hs) as [[_ _ Hc _] _].
Qed.

Lemma mobile_robot_ok id : device_ok (mobile_robot id).
Proof. by split. Qed.

(** C36. Whatever is asked of a simulated robot and in whatever order: every
    command it carried out had a live permit for exactly that operation,
    principal, device and kind of command, was within its deadline, and, unless
    it was a stop, was covered by the live lease the device held; the sequence
    numbers of the commands it carried out strictly increase, so none is
    replayed; a robot that is not active stands at the origin, and so does one
    whose lease has expired once expiry is enforced; and after a fault or a
    disconnect it accepts no motion and stands at the origin for good. *)
Theorem device_run_safe id calls n log d n' :
  device_run calls (mobile_robot id) n = (log, d, n') →
  Forall authorized log ∧ increasing_above None (effects log)
  ∧ (sd_safety d ≠ Active → sd_position d = origin)
  ∧ (∀ lease, sd_lease d = Some lease → cl_expires_at lease ≤ mono_now n' →
       sd_position (after (enforce_expiry d n')).1 = origin)
  ∧ ∀ stop rest log' d' n'', stop ∈ [Fault; Disconnect] →
      device_run (stop :: rest) d n' = (log', d', n'') →
      Forall (λ e, cr_decision (ex_receipt e) ≠ Accepted) log' ∧ sd_position d' = origin.
Proof.
  intros Hrun. apply device_run_step in Hrun as [Ho Ha Hs Hg].
  pose proof (Ho (mobile_robot_ok id)) as Hok. split_and!; [done| |apply Hok| |].
  - rewrite <-(app_nil_r (effects log)). by apply (Hs []).
  - intros lease Hl Hexp. destruct (enforce_expiry_run d n') as [(_ & Hst)|[Hno _]].
    + by destruct (stopped_still _ _ Hok Hst).
    + by destruct (Hno lease).
  - intros stop rest log' d' n'' Hstop. cbn. destruct (device_call stop d n') as [[l1 d1] n1] eqn:Hc.
    destruct (device_run rest d1 n1) as [[l2 d2] n2] eqn:Hr. intros [= <- <- _].
    destruct (grounding_call _ _ _ _ _ _ Hstop Hc) as [-> Hgr].
    apply device_call_step in Hc as [Ho1 _ _ _]. apply device_run_step in Hr as [Ho2 _ _ Hg2].
    destruct (Hg2 Hgr). split; [done|]. by apply grounded_still; auto.
Qed.

End Spec.

(** ** A concrete robot *)

(** JSON objects of numeric fields, numbers as integers. *)
#[local] Instance sample_json : DeviceJson (list (string * N)) N := {|
  f64_zero := 0;
  f64_one := 1;
  num_field j k := snd <$> find (λ p, bool_decide (p.1 = k)) j;
  json_xy x y := [("x", x); ("y", y)];
  json_pose x y b := [("x", x); ("y", y); ("battery", b)];
|}.

#[local] Instance sample_json_ok : DeviceJsonOk (list (string * N)) N.
Proof. by split. Qed.

Definition sample_permit : ControlPermit :=
  {| cp_permit_id := "permit"; cp_operation := "op"; cp_principal := "pilot"; cp_device := "bot";
     cp_scope := {["navigate"; "stop"]}; cp_expires_at := 5000; cp_revoked := false |}.

Definition sample_lease : ControlLease :=
  {| cl_lease_id := "lease"; cl_operation := "op"; cl_device := "bot"; cl_holder := "pilot";
     cl_scope := {["navigate"]}; cl_expires_at := 1000; cl_exclusive := true |}.

Definition longer_lease : ControlLease :=
  {| cl_lease_id := "lease"; cl_operation := "op"; cl_device := "bot"; cl_holder := "pilot";
     cl_scope := {["navigate"]}; cl_expires_at := 4000; cl_exclusive := true |}.

Definition sample_command (sequence : N) : TypedCommand (Json := list (string * N)) :=
  {| tc_command_id := "c"; tc_operation := "op"; tc_principal := "pilot"; tc_sequence := sequence;
     tc_device := "bot"; tc_schema := "navigate"; tc_payload := [("x", 3); ("y", 4)];
     tc_deadline := 2000 |}.

(** A command, its replay, and the lease running out. *)
Definition sample_calls : list DeviceCall :=
  [Grant longer_lease; Execute (sample_command 1) (Some sample_permit);
   Execute (sample_command 1) (Some sample_permit); Grant sample_lease].

Definition sample_outcome := device_run (HEnv := sample_env) sample_calls (mobile_robot "bot") 0.

Lemma sample_outcome_moved :
  effects sample_outcome.1.1 = [1] ∧ sd_position sample_outcome.1.2 = (3, 4)
  ∧ map (λ e, cr_decision (ex_receipt e)) sample_outcome.1.1 = [Accepted; Rejected ReplayOrOutOfOrder].
Proof. vm_compute. done. Qed.

Lemma device_run_safe_witness :
  Forall authorized sample_outcome.1.1
  ∧ sd_position (after (enforce_expiry (HEnv := sample_env) sample_outcome.1.2 2)).1 = origin
  ∧ sd_position (device_run (HEnv := sample_env) [Fault; Execute (sample_command 2) (Some sample_permit)]
                   sample_outcome.1.2 2).1.2 = origin.
Proof.
  destruct (device_run_safe (HEnv := sample_env) (HJson := sample_json) "bot" sample_calls 0
    sample_outcome.1.1 sample_outcome.1.2 2) as (Ha & _ & _ & Hexp & Hgr); [by vm_compute|].
  split_and!; [exact Ha| |].
  - apply (Hexp sample_lease); by vm_compute.
  - eapply (Hgr Fault [Execute (sample_command 2) (Some sample_permit)]);
      [apply list_elem_of_here|by vm_compute].
Defined.

(** ** The deployment gate (crates/hardware/src/deployment_gate.rs)

    What a device has to show before a namespace is available to it. *)

Module DeploymentGate.

Record DeploymentGateInput := {
  gi_namespace : DeviceNamespace;
  gi_device_id : string;
  gi_device_serial : string;
  gi_endpoint_identity : string;
  gi_manifest_digest : string;
  gi_limits_digest : string;
  gi_evidence_digest : string;
  gi_evidence_expiry_ms : Z;
  gi_now_ms : Z;
}.

(** [passed] is the emptiness of [failures] in every result the gate builds. *)
Record DeploymentGateResult := {
  gr_passed : bool;
  gr_failures : list string;
}.

Definition pass : DeploymentGateResult := {| gr_passed := true; gr_failures := [] |}.

(** The end of each gate: pass, or report the failures. *)
Definition verdict (failures : list string) : DeploymentGateResult :=
  match failures with [] => pass | _ => {| gr_passed := false; gr_failures := failures |} end.

Definition failure_if (b : bool) (s : string) : list string := if b then [s] else [].

Definition missing (s : string) : bool := bool_decide (s = "").

(** [haystack.contains(needle)] *)
Fixpoint contains (needle haystack : string) : bool :=
  String.prefix needle haystack
  || match haystack with String _ rest => contains needle rest | "" => false end.

Definition debug_namespace (ns : DeviceNamespace) : string :=
  match ns with
  | Simulation => "Simulation" | Lab => "Lab" | Hil => "Hil" | Production => "Production"
  end.

Definition validate_lab_gate (i : DeploymentGateInput) : DeploymentGateResult :=
  verdict
    (failure_if (missing (gi_device_id i)) "device_id required for Lab"
     ++ failure_if (missing (gi_endpoint_identity i)) "endpoint_identity required for Lab").

Definition validate_hil_gate (i : DeploymentGateInput) : DeploymentGateResult :=
  verdict
    (failure_if (missing (gi_device_id i)) "device_id required for HIL"
     ++ failure_if (missing (gi_device_serial i)) "device_serial required for HIL"
     ++ failure_if (missing (gi_endpoint_identity i)) "endpoint_identity required for HIL"
     ++ failure_if (missing (gi_manifest_digest i)) "manifest_digest required for HIL"
     ++ failure_if (missing (gi_limits_digest i)) "limits_digest required for HIL").

Definition validate_production_gate (i : DeploymentGateInput) : DeploymentGateResult :=
  verdict
    (gr_failures (validate_hil_gate i)
     ++ failure_if (missing (gi_evidence_digest i)) "evidence_digest required for Production"
     ++ failure_if (gi_evidence_expiry_ms i <? gi_now_ms i)%Z
          ("evidence expired: now " +:+ pretty (gi_now_ms i) +:+ " > expiry "
           +:+ pretty (gi_evidence_expiry_ms i))
     ++ failure_if (contains "127.0.0.1" (gi_endpoint_identity i)
                    || contains "localhost" (gi_endpoint_identity i))
          "production endpoint must not be loopback"
     ++ failure_if (negb (bool_decide (gi_namespace i = Production)))
          ("expected Production namespace, got " +:+ debug_namespace (gi_namespace i))).

Definition validate_gate (i : DeploymentGateInput) : DeploymentGateResult :=
  match gi_namespace i with
  | Simulation => pass
  | Lab => validate_lab_gate i
  | Hil => validate_hil_gate i
  | Production => validate_production_gate i
  end.

(** ** What passes *)

Lemma verdict_passed l : gr_passed (verdict l) = true ↔ l = [].
Proof. by destruct l. Qed.

Lemma verdict_failures l : gr_failures (verdict l) = l.
Proof. by destruct l. Qed.

Lemma failure_if_nil b s : failure_if b s = [] ↔ b = false.
Proof. by destruct b. Qed.

Lemma missing_false s : missing s = false ↔ s ≠ "".
Proof. apply bool_decide_eq_false. Qed.

Lemma hil_passed i :
  gr_passed (validate_hil_gate i) = true
  ↔ gi_device_id i ≠ "" ∧ gi_device_serial i ≠ "" ∧ gi_endpoint_identity i ≠ ""
    ∧ gi_manifest_digest i ≠ "" ∧ gi_limits_digest i ≠ "".
Proof. unfold validate_hil_gate. by rewrite verdict_passed, !app_nil, !failure_if_nil, !missing_false. Qed.

Lemma production_passed i :
  gi_namespace i = Production →
  gr_passed (validate_gate i) = true
  ↔ gr_passed (validate_hil_gate i) = true ∧ gi_evidence_digest i ≠ ""
    ∧ (gi_now_ms i ≤ gi_evidence_expiry_ms i)%Z
    ∧ contains "127.0.0.1" (gi_endpoint_identity i) = false
    ∧ contains "localhost" (gi_endpoint_identity i) = false.
Proof.
  intros Hns. unfold validate_gate, validate_production_gate. rewrite Hns.
  rewrite verdict_passed, !app_nil, !failure_if_nil, missing_false, Z.ltb_ge, orb_false_iff.
  rewrite bool_decide_true by done. unfold validate_hil_gate at 2. rewrite verdict_passed.
  unfold validate_hil_gate at 1. rewrite verdict_failures. naive_solver.
Qed.

(** The gates tighten: what Production lets through HIL and Lab let through. *)
Lemma gates_tighten i :
  gi_namespace i = Production → gr_passed (validate_gate i) = true →
  gr_passed (validate_hil_gate i) = true ∧ gr_passed (validate_lab_gate i) = true.
Proof.
  intros Hns (Hhil & _)%production_passed; [|done]. split; [done|]. apply hil_passed in Hhil.
  unfold validate_lab_gate. rewrite verdict_passed, !app_nil, !failure_if_nil, !missing_false. naive_solver.
Qed.

(** The loopback test knows two spellings: the IPv6 loopback address passes. *)
Lemma production_accepts_ipv6_loopback :
  gr_passed (validate_gate
    {| gi_namespace := Production; gi_device_id := "arm"; gi_device_serial := "7";
       gi_endpoint_identity := "[::1]:9000"; gi_manifest_digest := "m"; gi_limits_digest := "l";
       gi_evidence_digest := "e"; gi_evidence_expiry_ms := 10; gi_now_ms := 5 |}) = true.
Proof. vm_compute. done. Qed.

End DeploymentGate.
