(* ===== verification/Broker.v ===== *)
(** * Providers and the broker (crates/hardware)

    The asynchronous facade [SimulatedEmbodiment] over a simulated device and the
    biped [SimulatedKuavo] (simulator.rs), the registry of providers
    (registry.rs), the broker that validates the projected authority before it
    routes a request (broker.rs), the ingest of observations (observation.rs) and
    the protocol types (fabric's embodiment.rs, skill.rs).  Providers sit behind
    [Arc]s, so the registry holds handles into a store. *)
From S2P Require Import Prelude FabricTypes Device.
Import Device.

(** What the facades use besides the numbers and objects of [DeviceJson]: the
    schemas and the stance report built with [json!], the number 1.0 as an [f32],
    the derived [Debug] of a decision, and parsing an operation id. *)
Class SkillEnv (Json F32 : Type) := {
  f32_one : F32;
  navigate_input_schema : Json;
  stance_input_schema : Json;
  json_stance : string → bool → Json;
  debug_decision : CommandDecision → string;
  parse_operation : string → option Uuid;
}.

Module Broker.

Section Model.
Context `{HEnv : Env} {Json F64 F32 : Type} `{HJson : DeviceJson Json F64} `{HSkill : SkillEnv Json F32}.

(** ** The protocol *)

Record EvidenceRef := {
  ev_kind : string;
  ev_uri : string;
}.

Record EmbodiedObservation := {
  eo_schema : string;
  eo_schema_version : N;
  eo_source : string;
  eo_sequence : N;
  eo_source_time : N;
  eo_received_at : N;
  eo_valid_until : option N;
  eo_confidence : F32;
  eo_frame_ref : option string;
  eo_payload : Json;
  eo_evidence : list EvidenceRef;
}.

Inductive RiskClass := Read | Low | Medium | High.

Record SkillDescriptor := {
  sk_skill : string;
  sk_device : string;
  sk_summary : string;
  sk_input_schema : Json;
  sk_risk : RiskClass;
  sk_timeout_ms : N;
  sk_cancellable : bool;
  sk_preconditions : list string;
  sk_success_criteria : list string;
}.

Record SkillRequest := {
  sr_skill : string;
  sr_device : string;
  sr_parameters : Json;
}.

Record SkillProgress := {
  sp_operation_id : Uuid;
  sp_skill : string;
  sp_fraction : F32;
  sp_note : string;
  sp_at : N;
}.

Inductive SkillOutcome :=
| Succeeded
| Failed (reason : string)
| Cancelled
| TimedOut.

Record SkillResult := {
  rs_operation_id : Uuid;
  rs_skill : string;
  rs_device : string;
  rs_outcome : SkillOutcome;
  rs_duration_ms : N;
  rs_evidence : list EvidenceRef;
}.

Inductive ProviderError :=
| Disconnected
| ProviderRejected (reason : string)
| Timeout.

Record AuthorizedSkillRequest := {
  as_request : SkillRequest;
  as_permit : ControlPermit;
  as_lease : ControlLease;
}.

(** ** The simulated robot behind its facade *)

Record SimulatedEmbodiment := {
  em_inner : SimulatedDevice (F64 := F64);
  em_sequence : N;
}.

Definition robot (id : string) : SimulatedEmbodiment := {| em_inner := mobile_robot id; em_sequence := 0 |}.

Abbreviation E := (M SimulatedEmbodiment ProviderError).

(** A call on the locked device. *)
Definition inner {A} (m : M SimulatedDevice string A) : E A :=
  map_err ProviderRejected
    (zoom em_inner (λ d e, {| em_inner := d; em_sequence := em_sequence e |}) m).

Definition ensure_device (device : string) : E unit :=
  e ← get_state;
  ensure (bool_decide (dm_id (sd_manifest (em_inner e)) = device)) (ProviderRejected "device mismatch").

Definition get_state_sim (device : string) : E (option EmbodiedObservation) :=
  ensure_device device ;;
  t ← inner (telemetry None);
  let time := te_source_time t in
  mret (Some {| eo_schema := te_stream t; eo_schema_version := 1;
                eo_source := "sim:" +:+ te_device t; eo_sequence := te_sequence t;
                eo_source_time := time; eo_received_at := time;
                eo_valid_until := Some (saturating_add time 1000); eo_confidence := f32_one;
                eo_frame_ref := Some "map"; eo_payload := te_payload t; eo_evidence := [] |}).

Definition observe_sim (device : string) : E (list EmbodiedObservation) :=
  o ← get_state_sim device;
  o ← expect o;
  mret [o].

Definition list_skills_sim (device : string) : E (list SkillDescriptor) :=
  ensure_device device ;;
  mret [{| sk_skill := "navigate"; sk_device := device; sk_summary := "navigate to a two-dimensional target";
           sk_input_schema := navigate_input_schema; sk_risk := Medium; sk_timeout_ms := 30000;
           sk_cancellable := true; sk_preconditions := ["active control lease"];
           sk_success_criteria := ["simulated position equals target"] |}].

(** [execute_skill] up to the lock of the device: the operation and the typed
    command.  The command takes its sequence number here. *)
Definition prepare_skill (a : AuthorizedSkillRequest) : E (Uuid * TypedCommand (Json := Json)) :=
  let request := as_request a in
  ensure (bool_decide (sr_skill request = "navigate"))
    (ProviderRejected ("unsupported skill " +:+ sr_skill request)) ;;
  x ← ok_or (num_field (sr_parameters request) "x") (ProviderRejected "navigate x missing");
  y ← ok_or (num_field (sr_parameters request) "y") (ProviderRejected "navigate y missing");
  operation ← ok_or (parse_operation (cp_operation (as_permit a)))
    (ProviderRejected "invalid operation mapping");
  e ← get_state;
  modify (λ e, {| em_inner := em_inner e; em_sequence := wrapping_add (em_sequence e) 1 |}) ;;
  let sequence := wrapping_add (em_sequence e) 1 in
  mret (operation,
        {| tc_command_id := "skill-" +:+ pretty sequence; tc_operation := cp_operation (as_permit a);
           tc_principal := cp_principal (as_permit a); tc_sequence := sequence;
           tc_device := sr_device request; tc_schema := sr_skill request; tc_payload := json_xy x y;
           tc_deadline := cp_expires_at (as_permit a) |}).

(** The rest, with the device locked: the result, and the progress reported. *)
Definition perform_skill (a : AuthorizedSkillRequest) (operation : Uuid)
    (typed : TypedCommand (Json := Json)) : E (SkillResult * list SkillProgress) :=
  let request := as_request a in
  inner (grant_lease (as_lease a)) ;;
  receipt ← inner (execute typed (Some (as_permit a)));
  let outcome := if accepted receipt then Succeeded else Failed (debug_decision (cr_decision receipt)) in
  let progress :=
    {| sp_operation_id := operation; sp_skill := sr_skill request; sp_fraction := f32_one;
       sp_note := "navigate settled"; sp_at := cr_observed_at receipt |} in
  mret ({| rs_operation_id := operation; rs_skill := sr_skill request; rs_device := sr_device request;
           rs_outcome := outcome; rs_duration_ms := 0; rs_evidence := [] |},
        if accepted receipt then [progress] else []).

Definition execute_skill_sim (a : AuthorizedSkillRequest) : E (SkillResult * list SkillProgress) :=
  prepared ← prepare_skill a;
  perform_skill a prepared.1 prepared.2.

(** [cancel] and [safe_stop]: both stop the device and acknowledge. *)
Definition cancel_sim (device operation : string) : E string :=
  ensure_device device ;;
  inner safe_stop ;;
  mret device.

Definition safe_stop_sim (device : string) : E string :=
  ensure_device device ;;
  inner safe_stop ;;
  mret device.

(** ** The simulated biped *)

Record SimulatedKuavo := {
  ku_id : string;
  ku_mode : string;
  ku_fall_detected : bool;
  ku_sequence : N;
}.

Definition biped (id : string) : SimulatedKuavo :=
  {| ku_id := id; ku_mode := "idle"; ku_fall_detected := false; ku_sequence := 0 |}.

Abbreviation KU := (M SimulatedKuavo ProviderError).

Definition kuavo_device (device : string) : KU unit :=
  k ← get_state;
  ensure (bool_decide (ku_id k = device)) (ProviderRejected "device mismatch").

Definition observation : KU EmbodiedObservation :=
  k ← get_state;
  let sequence := wrapping_add (ku_sequence k) 1 in
  modify (λ k, {| ku_id := ku_id k; ku_mode := ku_mode k; ku_fall_detected := ku_fall_detected k;
                  ku_sequence := sequence |}) ;;
  now ← read_mono;
  mret {| eo_schema := "robot.state/v1"; eo_schema_version := 1; eo_source := "sim-kuavo:" +:+ ku_id k;
          eo_sequence := sequence; eo_source_time := now; eo_received_at := now;
          eo_valid_until := Some (saturating_add now 2000); eo_confidence := f32_one;
          eo_frame_ref := None; eo_payload := json_stance (ku_mode k) (ku_fall_detected k);
          eo_evidence := [] |}.

Definition get_state_kuavo (device : string) : KU (option EmbodiedObservation) :=
  kuavo_device device ;;
  o ← observation;
  mret (Some o).

Definition observe_kuavo (device : string) : KU (list EmbodiedObservation) :=
  o ← get_state_kuavo device;
  o ← expect o;
  mret [o].

Definition list_skills_kuavo (device : string) : KU (list SkillDescriptor) :=
  kuavo_device device ;;
  mret [{| sk_skill := "kuavo.stance"; sk_device := device; sk_summary := "enter and hold a stable stance";
           sk_input_schema := stance_input_schema; sk_risk := Low; sk_timeout_ms := 10000;
           sk_cancellable := false;
           sk_preconditions := ["control mode ready"; "fresh state available"];
           sk_success_criteria := ["stable stance window confirmed"] |}].

Definition set_kuavo (mode : string) (fall : bool) : KU unit :=
  modify (λ k, {| ku_id := ku_id k; ku_mode := mode; ku_fall_detected := fall; ku_sequence := ku_sequence k |}).

Definition execute_skill_kuavo (a : AuthorizedSkillRequest) : KU (SkillResult * list SkillProgress) :=
  let request := as_request a in
  ensure (bool_decide (sr_skill request = "kuavo.stance"))
    (ProviderRejected ("unsupported skill " +:+ sr_skill request)) ;;
  operation ← ok_or (parse_operation (cp_operation (as_permit a)))
    (ProviderRejected "invalid operation mapping");
  set_kuavo "stance" false ;;
  now ← read_mono;
  mret ({| rs_operation_id := operation; rs_skill := sr_skill request; rs_device := sr_device request;
           rs_outcome := Succeeded; rs_duration_ms := 0; rs_evidence := [] |},
        [{| sp_operation_id := operation; sp_skill := sr_skill request; sp_fraction := f32_one;
            sp_note := "stance entered"; sp_at := now |}]).

Definition cancel_kuavo (device operation : string) : KU string :=
  kuavo_device device ;;
  k ← get_state;
  set_kuavo "idle" (ku_fall_detected k) ;;
  mret device.

Definition safe_stop_kuavo (device : string) : KU string :=
  kuavo_device device ;;
  k ← get_state;
  set_kuavo (ku_mode k) true ;;
  mret device.

(** ** The providers *)

(** The two providers of the repository that hold their device in the process; the
    client of a provider in another process (hardware/src/grpc) is not modelled. *)
Inductive Provider :=
| Robot (e : SimulatedEmbodiment)
| Kuavo (k : SimulatedKuavo).

(** A call of a method of [dyn EmbodimentProvider]. *)
Definition dispatch {A} (on_robot : E A) (on_kuavo : KU A) : M Provider ProviderError A := λ p n,
  match p with
  | Robot e => match on_robot e n with (r, e', n') => (r, Robot e', n') end
  | Kuavo k => match on_kuavo k n with (r, k', n') => (r, Kuavo k', n') end
  end.

(** The providers of the process, the registry of handles to them, and the
    progress reported so far. *)
Record World := {
  wd_providers : gmap N Provider;
  wd_registry : gmap string N;
  wd_progress : list SkillProgress;
}.

Definition register (device : string) (handle : N) (w : World) : World :=
  {| wd_providers := wd_providers w; wd_registry := <[device := handle]> (wd_registry w);
     wd_progress := wd_progress w |}.

Definition provider (device : string) (w : World) : option N := wd_registry w !! device.

Definition device_count (w : World) : N := N.of_nat (size (wd_registry w)).

(** ** The broker *)

Inductive BrokerError :=
| NoProvider (device : string)
| InvalidAuthority (reason : string)
| ProviderFailed (error : ProviderError).

Abbreviation W := (M World BrokerError).

Definition validate_projected_authority (a : AuthorizedSkillRequest) (now : N) : option string :=
  let request := as_request a in
  let permit := as_permit a in
  let lease := as_lease a in
  if cp_revoked permit then Some "permit revoked"
  else if cp_expires_at permit <=? now then Some "permit expired"
  else if cl_expires_at lease <=? now then Some "lease expired"
  else if negb (bool_decide (cp_device permit = sr_device request))
          || negb (bool_decide (cl_device lease = sr_device request)) then Some "device mismatch"
  else if negb (bool_decide (cp_operation permit = cl_operation lease)) then Some "operation mismatch"
  else if negb (bool_decide (cp_principal permit = cl_holder lease)) then Some "principal mismatch"
  else if negb (bool_decide (sr_skill request ∈ cp_scope permit))
          || negb (bool_decide (sr_skill request ∈ cl_scope lease)) then Some "skill outside authority scope"
  else None.

Definition find_provider (device : string) : W N :=
  w ← get_state;
  ok_or (provider device w) (NoProvider device).

(** A method call on the provider behind a handle; a handle always has one. *)
Definition at_handle {A} (handle : N) (m : M Provider ProviderError A) : W A := λ w n,
  match wd_providers w !! handle with
  | Some p =>
      match m p n with
      | (r, p', n') =>
          (match r with Ok a => Ok a | Err e => Err (ProviderFailed e) | Panic => Panic end,
           {| wd_providers := <[handle := p']> (wd_providers w); wd_registry := wd_registry w;
              wd_progress := wd_progress w |}, n')
      end
  | None => (Panic, w, n)
  end.

Definition broker_execute (a : AuthorizedSkillRequest) : W SkillResult :=
  now ← read_mono;
  match validate_projected_authority a now with
  | Some reason => throw (InvalidAuthority reason)
  | None =>
      handle ← find_provider (sr_device (as_request a));
      result ← at_handle handle (dispatch (execute_skill_sim a) (execute_skill_kuavo a));
      modify (λ w, {| wd_providers := wd_providers w; wd_registry := wd_registry w;
                      wd_progress := wd_progress w ++ result.2 |}) ;;
      mret result.1
  end.

Definition broker_list_skills (device : string) : W (list SkillDescriptor) :=
  handle ← find_provider device;
  at_handle handle (dispatch (list_skills_sim device) (list_skills_kuavo device)).

Definition broker_observe (device : string) : W (list EmbodiedObservation) :=
  handle ← find_provider device;
  at_handle handle (dispatch (observe_sim device) (observe_kuavo device)).

Definition broker_get_state (device : string) : W (option EmbodiedObservation) :=
  handle ← find_provider device;
  at_handle handle (dispatch (get_state_sim device) (get_state_kuavo device)).

Definition broker_cancel (device operation : string) : W unit :=
  handle ← find_provider device;
  at_handle handle (dispatch (cancel_sim device operation) (cancel_kuavo device operation)) ;;
  mret tt.

Definition broker_safe_stop (device : string) : W unit :=
  handle ← find_provider device;
  at_handle handle (dispatch (safe_stop_sim device) (safe_stop_kuavo device)) ;;
  mret tt.

(** ** The ingest of observations *)

(** The last sequence number of each device and source. *)
Definition ObservationIngest := gmap (string * string) N.

Definition accept (device : string) (o : EmbodiedObservation) (seen : ObservationIngest)
    : option EmbodiedObservation * ObservationIngest :=
  if match seen !! (device, eo_source o) with
     | Some previous => eo_sequence o <=? previous
     | None => false
     end
  then (None, seen)
  else (Some o, <[(device, eo_source o) := eo_sequence o]> seen).

Definition is_stale (o : EmbodiedObservation) (now : N) : bool :=
  match eo_valid_until o with Some deadline => deadline <=? now | None => false end.

End Model.
End Broker.
