(* ===== verification/BrokerSpec.v ===== *)
(** * Providers and the broker: properties

    The broker lets a request through only under matching live authority, touches
    no other device, and a request it lets through to a robot that can move ends
    at the requested place. *)
From S2P Require Import Prelude FabricTypes Device DeviceSpec Broker.
Import Device Broker.

Section Spec.
Context `{HEnv : Env} {Json F64 F32 : Type} `{HJson : DeviceJson Json F64} `{HSkill : SkillEnv Json F32}.
Implicit Types (a : AuthorizedSkillRequest (Json := Json)) (w : World (F64 := F64) (F32 := F32)).

(** ** The authority *)

(** The permit and the lease are live, for this device and skill, and agree. *)
Record projected (now : N) (a : AuthorizedSkillRequest (Json := Json)) : Prop := {
  pj_live : cp_revoked (as_permit a) = false ∧ now < cp_expires_at (as_permit a)
    ∧ now < cl_expires_at (as_lease a);
  pj_device : cp_device (as_permit a) = sr_device (as_request a)
    ∧ cl_device (as_lease a) = sr_device (as_request a);
  pj_agree : cp_operation (as_permit a) = cl_operation (as_lease a)
    ∧ cp_principal (as_permit a) = cl_holder (as_lease a);
  pj_scope : sr_skill (as_request a) ∈ cp_scope (as_permit a)
    ∧ sr_skill (as_request a) ∈ cl_scope (as_lease a);
}.

Lemma orb_neg_false (P Q : Prop) `{!Decision P, !Decision Q} :
  negb (bool_decide P) || negb (bool_decide Q) = false ↔ P ∧ Q.
Proof. by rewrite orb_false_iff, !negb_false_iff, !bool_decide_eq_true. Qed.

Lemma validate_projected_none a now : validate_projected_authority a now = None ↔ projected now a.
Proof.
  unfold validate_projected_authority. split.
  - intros H. repeat (case_match; try discriminate).
    rewrite ?orb_neg_false, ?negb_false_iff, ?N.leb_gt, ?bool_decide_eq_true in *. by split.
  - intros [(-> & Hp & Hl) [Hd1 Hd2] [Ho Hpr] [Hs1 Hs2]]. apply N.leb_gt in Hp, Hl.
    by rewrite Hp, Hl, !bool_decide_true.
Qed.

(** ** A skill on the robot *)

(** The robot can carry out a skill now: it is connected and not faulted, serves
    the device under its name, and has used no sequence number to come. *)
Record can_move (device : string) (e : SimulatedEmbodiment (F64 := F64)) : Prop := {
  mv_live : sd_connected (em_inner e) = true ∧ sd_safety (em_inner e) ≠ Faulted;
  mv_name : dm_id (sd_manifest (em_inner e)) = device;
  mv_navigates : "navigate" ∈ dm_capabilities (sd_manifest (em_inner e));
  mv_fresh : em_sequence e < u64_max ∧ ∀ s, sd_last_sequence (em_inner e) = Some s → s ≤ em_sequence e;
}.

(** The request is one the robot understands: it goes to [x], [y]. *)
Record goes_to (a : AuthorizedSkillRequest (Json := Json)) (x y : F64) : Prop := {
  gt_skill : sr_skill (as_request a) = "navigate";
  gt_x : num_field (sr_parameters (as_request a)) "x" = Some x;
  gt_y : num_field (sr_parameters (as_request a)) "y" = Some y;
  gt_operation : is_Some (parse_operation (cp_operation (as_permit a)));
}.

Lemma execute_cleared c permit d n x y :
  cleared (mono_now n) d c permit → is_stop c = false → sd_connected d = true →
  num_field (tc_payload c) "x" = Some x → num_field (tc_payload c) "y" = Some y →
  execute c permit d n
  = (Ok (receipt c Accepted (sd_safety d) Active (mono_now n)),
     with_sequences (Some (tc_sequence c)) (sd_telemetry_sequence d) (with_motion (x, y) Active d), n + 1).
Proof.
  intros Hc Hst Hcon Hx Hy. apply screen_none in Hc.
  unfold execute, read_mono, tick, mbind, M_bind, get_state, mret, M_ret. rewrite Hc, Hst.
  unfold try_, apply, mbind, M_bind, get_state. by rewrite Hcon, Hx, Hy.
Qed.

Lemma wrapping_succ s : s < u64_max → wrapping_add s 1 = s + 1.
Proof. intros Hs. unfold wrapping_add. apply N.mod_small. lia. Qed.

Lemma prepare_skill_run a e n x y :
  goes_to a x y → em_sequence e < u64_max →
  ∃ op c, prepare_skill a e n = (Ok (op, c), {| em_inner := em_inner e; em_sequence := em_sequence e + 1 |}, n)
    ∧ parse_operation (cp_operation (as_permit a)) = Some op
    ∧ tc_operation c = cp_operation (as_permit a) ∧ tc_principal c = cp_principal (as_permit a)
    ∧ tc_sequence c = em_sequence e + 1 ∧ tc_device c = sr_device (as_request a)
    ∧ tc_schema c = "navigate" ∧ tc_payload c = json_xy x y ∧ tc_deadline c = cp_expires_at (as_permit a).
Proof.
  intros [Hs Hx Hy [op Hop]] Hseq. unfold prepare_skill, mbind, M_bind, ensure.
  rewrite bool_decide_true by done. rewrite Hx, Hy, Hop. cbn. rewrite wrapping_succ by done.
  eexists op, _. split; [reflexivity|]. cbn. by rewrite Hs.
Qed.

Lemma moved_by_skill a e n x y `{!DeviceJsonOk Json F64} :
  projected (mono_now n) a → can_move (sr_device (as_request a)) e → goes_to a x y →
  ∃ op at_, execute_skill_sim (F32 := F32) a e n
    = (Ok ({| rs_operation_id := op; rs_skill := "navigate"; rs_device := sr_device (as_request a);
              rs_outcome := Succeeded; rs_duration_ms := 0; rs_evidence := [] |},
           [{| sp_operation_id := op; sp_skill := "navigate"; sp_fraction := f32_one;
               sp_note := "navigate settled"; sp_at := at_ |}]),
       {| em_inner := with_sequences (Some (em_sequence e + 1)) (sd_telemetry_sequence (em_inner e))
                        (with_motion (x, y) Active (with_lease (Some (as_lease a)) (em_inner e)));
          em_sequence := em_sequence e + 1 |}, n + 1)
    ∧ parse_operation (cp_operation (as_permit a)) = Some op.
Proof.
  intros [(Hrev & Hpl & Hll) [Hpd Hld] [Ho Hpr] [Hps Hls]] [[Hcon Hnf] Hn Hcap [Hmax Hlast]] Hgo.
  destruct (prepare_skill_run a e n x y Hgo Hmax) as (op & c & Hprep & Hop & Hco & Hcp & Hcs & Hcd & Hsch & Hpay & Hdl).
  destruct Hgo as [Hsk Hx Hy _]. exists op, (mono_now n). split; [|done].
  unfold execute_skill_sim, mbind, M_bind. rewrite Hprep. cbn [fst snd].
  unfold perform_skill, inner, map_err, zoom, mbind, M_bind. cbn [em_inner em_sequence].
  unfold grant_lease, mbind, M_bind, get_state, ensure. rewrite bool_decide_true by congruence. cbn.
  destruct (json_xy_fields _ _ _ _ _ _ Hx Hy) as [Hjx Hjy].
  rewrite (execute_cleared _ _ _ _ x y); cbn; try congruence.
  - by rewrite Hcs, Hsk.
  - rewrite Hsk in *. unfold cleared. cbn. split_and!; try congruence.
    + exists (as_permit a). split; [done|]. split; [done|by split_and!; congruence|congruence].
    + intros s Hs. apply Hlast in Hs. lia.
    + intros _. split; [done|]. exists (as_lease a). split; [done|]. split; [done|by split_and!; congruence|congruence].
  - unfold is_stop. by rewrite Hsch.
Qed.

(** ** The broker *)

(** What a call leaves alone: the registry, and the providers behind other
    handles. *)
Definition others_kept (handle : N) w w' : Prop :=
  wd_registry w' = wd_registry w ∧ ∀ h, h ≠ handle → wd_providers w' !! h = wd_providers w !! h.

Lemma at_handle_others {A} handle (m : M (Provider (F64 := F64)) ProviderError A) w n r w' n' :
  at_handle handle m w n = (r, w', n') → others_kept handle w w' ∧ wd_progress w' = wd_progress w.
Proof.
  unfold at_handle. destruct (wd_providers w !! handle) as [p|]; [|by intros [= <- <- <-]].
  destruct (m p n) as [[r0 p'] n0]. intros [= <- <- <-]. split; [|done]. split; [done|]. intros h Hh. cbn.
  by rewrite lookup_insert_ne.
Qed.

(** The part of [broker_execute] behind the check of the authority. *)
Definition routed a w n : Result BrokerError (SkillResult) * World (F64 := F64) (F32 := F32) * N :=
  match provider (sr_device (as_request a)) w with
  | Some handle =>
      match at_handle handle (dispatch (execute_skill_sim a) (execute_skill_kuavo a)) w n with
      | (Ok result, w', n') =>
          (Ok result.1, {| wd_providers := wd_providers w'; wd_registry := wd_registry w';
                           wd_progress := wd_progress w' ++ result.2 |}, n')
      | (Err e, w', n') => (Err e, w', n')
      | (Panic, w', n') => (Panic, w', n')
      end
  | None => (Err (NoProvider (sr_device (as_request a))), w, n)
  end.

Lemma broker_execute_eq a w n :
  broker_execute a w n
  = match validate_projected_authority a (mono_now n) with
    | Some reason => (Err (InvalidAuthority reason), w, n + 1)
    | None => routed a w (n + 1)
    end.
Proof.
  unfold broker_execute, routed, read_mono, tick, find_provider, ok_or, mbind, M_bind, mret, M_ret, get_state.
  destruct (validate_projected_authority a (mono_now n)); [done|].
  destruct (provider (sr_device (as_request a)) w) as [h|]; [|done].
  by destruct (at_handle h _ w (n + 1)) as [[[] ?] ?].
Qed.

Lemma routed_not_authority a w n reason : (routed a w n).1.1 ≠ Err (InvalidAuthority reason).
Proof.
  unfold routed, at_handle. destruct (provider _ w) as [h|]; [|done].
  destruct (wd_providers w !! h) as [p|]; [|done]. by destruct (dispatch _ _ p n) as [[[] ?] ?].
Qed.

Lemma routed_others a w n h :
  provider (sr_device (as_request a)) w = Some h → others_kept h w (routed a w n).1.2.
Proof.
  intros Hh. unfold routed. rewrite Hh. destruct (at_handle h _ w n) as [[r w'] n'] eqn:Hat.
  apply at_handle_others in Hat as [[Hr Ho] _]. by destruct r.
Qed.

(** C4. The broker runs a skill only under a permit and a lease that are live, for
    the requested device and skill, and of one operation and principal; a request
    without such authority or without a provider changes nothing, and any other
    request changes at most the provider of its device.  A navigation request
    with such authority, whose provider is a robot that is connected and not
    faulted, succeeds: the robot is active at the requested place and one
    progress report is sent. *)
Theorem broker_execute_correct a w n `{!DeviceJsonOk Json F64} :
  (projected (mono_now n) a ↔ ∀ reason, (broker_execute a w n).1.1 ≠ Err (InvalidAuthority reason))
  ∧ (¬ projected (mono_now n) a ∨ provider (sr_device (as_request a)) w = None →
       (broker_execute a w n).1.2 = w)
  ∧ (∀ h, provider (sr_device (as_request a)) w = Some h → others_kept h w (broker_execute a w n).1.2)
  ∧ ∀ h e x y, provider (sr_device (as_request a)) w = Some h → wd_providers w !! h = Some (Robot e) →
      projected (mono_now n) a → projected (mono_now (n + 1)) a →
      can_move (sr_device (as_request a)) e → goes_to a x y →
      ∃ res w' n' e' report, broker_execute a w n = (Ok res, w', n') ∧ rs_outcome res = Succeeded
        ∧ wd_providers w' = <[h := Robot e']> (wd_providers w)
        ∧ sd_position (em_inner e') = (x, y) ∧ sd_safety (em_inner e') = Active
        ∧ (em_sequence e + 1 < u64_max → can_move (sr_device (as_request a)) e')
        ∧ wd_progress w' = wd_progress w ++ [report].
Proof.
  split_and!.
  - split.
    + intros Hp reason. apply validate_projected_none in Hp. rewrite broker_execute_eq, Hp.
      apply routed_not_authority.
    + intros Hn. apply validate_projected_none. rewrite broker_execute_eq in Hn.
      destruct (validate_projected_authority a (mono_now n)) as [reason|]; [|done]. by destruct (Hn reason).
  - intros [Hp|Hp]; rewrite broker_execute_eq.
    + rewrite <-validate_projected_none in Hp. by destruct (validate_projected_authority a (mono_now n)).
    + destruct (validate_projected_authority a (mono_now n)); [done|]. unfold routed. by rewrite Hp.
  - intros h Hh. rewrite broker_execute_eq. destruct (validate_projected_authority a (mono_now n)); [done|].
    by apply routed_others.
  - intros h e x y Hh He Hp Hp' Hmv Hgo. rewrite broker_execute_eq.
    apply validate_projected_none in Hp. rewrite Hp. unfold routed. rewrite Hh. unfold at_handle. rewrite He.
    cbn [dispatch]. destruct (moved_by_skill a e (n + 1) x y Hp' Hmv Hgo) as (op & at_ & -> & _).
    eexists _, _, _, _, _. split; [reflexivity|]. split_and!; try reflexivity.
    intros Hmax. destruct Hmv as [[? ?] ? ? [? ?]]. split; try done. split; [done|]. cbn. intros s [= <-]. lia.
Qed.
End Spec.

(** ** A concrete robot behind the broker *)

#[local] Existing Instances sample_json sample_json_ok.

#[local] Instance sample_skills : SkillEnv (list (string * N)) N := {|
  f32_one := 1;
  navigate_input_schema := [];
  stance_input_schema := [];
  json_stance _ fall := [("fall_detected", if fall then 1 else 0)];
  debug_decision d := match d with Rejected _ => "Rejected" | _ => "Accepted" end;
  parse_operation s := if decide (s = "op") then Some 9 else None;
|}.

Definition sample_skill (x y : N) : AuthorizedSkillRequest (Json := list (string * N)) :=
  {| as_request := {| sr_skill := "navigate"; sr_device := "bot"; sr_parameters := [("x", x); ("y", y)] |};
     as_permit := sample_permit; as_lease := longer_lease |}.

Definition sample_world : World (F64 := N) (F32 := N) :=
  register "bot" 7 {| wd_providers := {[7 := Robot (robot (HJson := sample_json) "bot")]}; wd_registry := ∅; wd_progress := [] |}.

Lemma broker_execute_correct_witness :
  ∃ res w' n' e', broker_execute (HEnv := sample_env) (sample_skill 3 4) sample_world 0 = (Ok res, w', n')
    ∧ rs_outcome res = Succeeded ∧ wd_providers w' !! 7 = Some (Robot e')
    ∧ sd_position (em_inner e') = (3, 4).
Proof.
  destruct (broker_execute_correct (HEnv := sample_env) (HJson := sample_json) (HSkill := sample_skills)
              (sample_skill 3 4) sample_world 0) as (_ & _ & _ & Hgo).
  assert (∀ now, now < 4000 → projected now (sample_skill 3 4)) as Hpj.
  { intros now Hnow. split; [split_and!; [done|cbn; lia|cbn; lia]|done|done|].
    split; apply (bool_decide_unpack _); vm_compute; exact I. }
  destruct (Hgo 7 (robot "bot") 3 4) as (res & w' & n' & e' & report & Hx & Hr & Hw & Hp & _).
  - by vm_compute.
  - by vm_compute.
  - apply Hpj. by vm_compute.
  - apply Hpj. by vm_compute.
  - split; [done|done|apply (bool_decide_unpack _); vm_compute; exact I|by split].
  - split; [done|done|done|]. by eexists.
  - exists res, w', n', e'. split_and!; [exact Hx|exact Hr| |exact Hp]. rewrite Hw. apply lookup_insert_eq.
Defined.

(** Sequence numbers are taken before the device is locked.  Of two authorized
    requests that arrive together, the one that is second to the lock can be the
    one with the smaller number: it fails as a replay. *)
Definition race : M SimulatedEmbodiment ProviderError (SkillOutcome * SkillOutcome) :=
  p1 ← prepare_skill (sample_skill 1 1);
  p2 ← prepare_skill (sample_skill 2 2);
  r2 ← perform_skill (HEnv := sample_env) (F32 := N) (sample_skill 2 2) p2.1 p2.2;
  r1 ← perform_skill (HEnv := sample_env) (F32 := N) (sample_skill 1 1) p1.1 p1.2;
  mret (rs_outcome r1.1, rs_outcome r2.1).

Lemma authorized_skill_fails_as_replay : (race (robot "bot") 0).1.1 = Ok (Failed "Rejected", Succeeded).
Proof. vm_compute. done. Qed.
