(* ===== verification/StdModel.v ===== *)
(** * Parts of Rust's standard library that the components share

    Strings are their UTF-8 bytes.  [str::cmp] is the byte-wise lexicographic
    order, [String.le]; [slice::sort_by] is stable; [Vec::dedup] drops equal
    neighbours; [str::trim] removes the characters with Unicode's White_Space
    property. *)
From S2P Require Import Prelude.
From stdpp Require Export sorting.

#[local] Open Scope N_scope.

(** ** Blank strings *)

(** The bytes that continue a white-space character of two and of three bytes. *)
Definition white2 (b1 b2 : N) : bool := (b1 =? 0xC2) && ((b2 =? 0x85) || (b2 =? 0xA0)).

Definition white3 (b1 b2 b3 : N) : bool :=
  (b1 =? 0xE1) && (b2 =? 0x9A) && (b3 =? 0x80)
  || (b1 =? 0xE2) && (b2 =? 0x80)
     && ((0x80 <=? b3) && (b3 <=? 0x8A) || (b3 =? 0xA8) || (b3 =? 0xA9) || (b3 =? 0xAF))
  || (b1 =? 0xE2) && (b2 =? 0x81) && (b3 =? 0x9F)
  || (b1 =? 0xE3) && (b2 =? 0x80) && (b3 =? 0x80).

Definition white1 (b : N) : bool := (9 <=? b) && (b <=? 13) || (b =? 32).

(** [s.trim().is_empty()]: every character of [s] is white space. *)
Fixpoint is_blank (s : string) : bool :=
  match s with
  | "" => true
  | String a r =>
      let b1 := Ascii.N_of_ascii a in
      if white1 b1 then is_blank r
      else
        match r with
        | String b r2 =>
            let b2 := Ascii.N_of_ascii b in
            if white2 b1 b2 then is_blank r2
            else
              match r2 with
              | String c r3 => white3 b1 b2 (Ascii.N_of_ascii c) && is_blank r3
              | "" => false
              end
        | "" => false
        end
  end.

(** ** Stable sorting *)

Section Sort.
Context {A : Type} (R : relation A) `{!RelDecision R}.

Fixpoint insert_by (x : A) (l : list A) : list A :=
  match l with
  | [] => [x]
  | y :: r => if decide (R x y) then x :: l else y :: insert_by x r
  end.

Fixpoint sort_by (l : list A) : list A :=
  match l with
  | [] => []
  | x :: r => insert_by x (sort_by r)
  end.

Lemma insert_by_perm x l : insert_by x l ≡ₚ x :: l.
Proof.
  induction l as [|y r IH]; cbn; [done|]. case_decide; [done|]. rewrite IH. by rewrite Permutation_swap.
Qed.

Lemma sort_by_perm l : sort_by l ≡ₚ l.
Proof. induction l as [|x r IH]; cbn; [done|]. by rewrite insert_by_perm, IH. Qed.

Context `{!Transitive R, !Total R}.

Lemma insert_by_sorted x l : StronglySorted R l → StronglySorted R (insert_by x l).
Proof.
  induction 1 as [|y r Hr IH Hy]; cbn; [by repeat constructor|]. case_decide as Hxy.
  - constructor; [by constructor|]. constructor; [done|]. eapply Forall_impl; [done|]. intros z Hz. by etrans.
  - constructor; [done|]. rewrite insert_by_perm. constructor; [|done]. by destruct (total R x y).
Qed.

Lemma sort_by_sorted l : StronglySorted R (sort_by l).
Proof. induction l; cbn; [constructor|by apply insert_by_sorted]. Qed.

(** The first element of the sorted list is a least one. *)
Lemma sort_by_head `{!Reflexive R} l x r : sort_by l = x :: r → x ∈ l ∧ ∀ y, y ∈ l → R x y.
Proof.
  intros Hs. pose proof (sort_by_sorted l) as Hsort. rewrite Hs in Hsort. inversion_clear Hsort as [|? ? _ Hx].
  assert (∀ y, y ∈ l ↔ y ∈ x :: r) as Hin by (intros y; by rewrite <-Hs, sort_by_perm).
  split; [apply Hin; constructor|]. intros y [->|Hy]%Hin%elem_of_cons; [done|].
  by eapply Forall_forall in Hx.
Qed.

(** Stability is not observed where the order tells the elements apart. *)
Lemma sort_by_unique l l' :
  (∀ x y, x ∈ l → y ∈ l → R x y → R y x → x = y) → l ≡ₚ l' → sort_by l = sort_by l'.
Proof.
  intros Hanti Hp. apply (StronglySorted_unique_strong R); [|apply sort_by_sorted..|by rewrite !sort_by_perm].
  intros x y Hx Hy. rewrite sort_by_perm in Hx. rewrite sort_by_perm, <-Hp in Hy. auto.
Qed.

End Sort.

(** ** [Vec::dedup] *)

Section Dedup.
Context {A : Type} `{!EqDecision A}.

Fixpoint dedup (l : list A) : list A :=
  match l with
  | x :: ((y :: _) as r) => if decide (x = y) then dedup r else x :: dedup r
  | _ => l
  end.

Lemma elem_of_dedup x l : x ∈ dedup l ↔ x ∈ l.
Proof.
  induction l as [|y r IH]; [done|]. destruct r as [|z r]; [done|].
  change (x ∈ (if decide (y = z) then dedup (z :: r) else y :: dedup (z :: r)) ↔ x ∈ y :: z :: r).
  rewrite (elem_of_cons (z :: r)). case_decide; [subst; set_solver|]. rewrite elem_of_cons, IH. done.
Qed.

(** Of a sorted list one copy of each element is left. *)
Lemma dedup_NoDup (R : relation A) `{!AntiSymm (=) R} l : StronglySorted R l → NoDup (dedup l).
Proof.
  induction 1 as [|y r Hr IH Hy]; [constructor|]. destruct r as [|z r]; [apply NoDup_singleton|].
  change (NoDup (if decide (y = z) then dedup (z :: r) else y :: dedup (z :: r))).
  case_decide as Hyz; [done|]. constructor; [|done]. rewrite elem_of_dedup. intros Hin.
  inversion Hy as [|? ? Hyz' Hyr]; subst. inversion Hr as [|? ? _ Hzr]; subst.
  apply elem_of_cons in Hin as [?|Hin]; [done|]. eapply Forall_forall in Hzr; [|done].
  by apply Hyz, (anti_symm R).
Qed.

Lemma dedup_sorted (R : relation A) l : StronglySorted R l → StronglySorted R (dedup l).
Proof.
  induction 1 as [|y r Hr IH Hy]; [constructor|]. destruct r as [|z r]; [by repeat constructor|].
  change (StronglySorted R (if decide (y = z) then dedup (z :: r) else y :: dedup (z :: r))).
  case_decide; [done|]. constructor; [done|]. rewrite Forall_forall in *. intros x. rewrite elem_of_dedup. auto.
Qed.

End Dedup.

(** ** Text of a countable value

    A serialization for concrete runs: the bits of its code. *)

Definition zero : Ascii.ascii := Ascii.ascii_of_N 48.

Definition one : Ascii.ascii := Ascii.ascii_of_N 49.

Fixpoint show_bits (p : positive) : string :=
  match p with
  | xH => ""
  | xO p => String zero (show_bits p)
  | xI p => String one (show_bits p)
  end.

Fixpoint read_bits (s : string) : positive :=
  match s with
  | "" => xH
  | String c r => if decide (c = zero) then xO (read_bits r) else xI (read_bits r)
  end.

Lemma read_show p : read_bits (show_bits p) = p.
Proof. induction p; cbn; [|by f_equal|done]. by f_equal. Qed.
