(* ===== verification/Selector.v ===== *)
(** * Runtime selection (crates/runtime)

    The manifests of external runtimes with their validation (manifest.rs) and
    the choice among them (selector.rs).  The chosen runtime is the least
    compatible one by priority and id, whatever order the manifests come in. *)
From S2P Require Import Prelude StdModel.

#[local] Open Scope N_scope.

Module Selector.

Definition MAX_RUNTIME_STORAGE_BYTES : N := 64 * 1024 * 1024 * 1024.

Definition MAX_RUNTIME_STORAGE_ITEMS : N := 1000000.

Definition MAX_REJECTIONS : nat := 64.

Definition MAX_REASONS_PER_RUNTIME : nat := 16.

Record RuntimeResourceRequirements := {
  rr_storage_bytes : N;
  rr_storage_items : N;
}.

(** [RuntimeResourceRequirements::validate]: the error, if any. *)
Definition validate_resources (r : RuntimeResourceRequirements) : option string :=
  if MAX_RUNTIME_STORAGE_BYTES <? rr_storage_bytes r
  then Some ("runtime storage byte request exceeds " +:+ pretty MAX_RUNTIME_STORAGE_BYTES)
  else if MAX_RUNTIME_STORAGE_ITEMS <? rr_storage_items r
  then Some ("runtime storage item request exceeds " +:+ pretty MAX_RUNTIME_STORAGE_ITEMS)
  else None.

Inductive RuntimeCapability :=
| CodeRead | CodeSearch | CodeEdit | Shell | Test | Git | Diagnostics | Browser | DeviceObserve
| DeviceCommand | MemoryProposal.

Inductive InteractionMode := OneShot | Resident | Steering | FollowUp.

Inductive WorkspaceMode := WorkspaceLess | SharedReadOnly | SharedWritable | IsolatedWorktree.

Inductive TaskEncoding := NaturalLanguage | StructuredJson.

Inductive ToolGovernance := Intercepted | Mediated | Observed | Opaque.

#[global] Instance RuntimeCapability_eq_dec : EqDecision RuntimeCapability.
Proof. solve_decision. Defined.
#[global] Instance InteractionMode_eq_dec : EqDecision InteractionMode.
Proof. solve_decision. Defined.
#[global] Instance WorkspaceMode_eq_dec : EqDecision WorkspaceMode.
Proof. solve_decision. Defined.
#[global] Instance TaskEncoding_eq_dec : EqDecision TaskEncoding.
Proof. solve_decision. Defined.

(** The derived [Ord]: the order of the declaration. *)
Definition capability_rank (c : RuntimeCapability) : N :=
  match c with
  | CodeRead => 0 | CodeSearch => 1 | CodeEdit => 2 | Shell => 3 | Test => 4 | Git => 5 | Diagnostics => 6
  | Browser => 7 | DeviceObserve => 8 | DeviceCommand => 9 | MemoryProposal => 10
  end.

Definition capability_le (a b : RuntimeCapability) : Prop := capability_rank a ≤ capability_rank b.

#[global] Instance capability_le_dec : RelDecision capability_le.
Proof. intros a b. unfold capability_le. apply _. Defined.
#[global] Instance capability_le_trans : Transitive capability_le.
Proof. intros a b c. unfold capability_le. lia. Qed.
#[global] Instance capability_le_total : Total capability_le.
Proof. intros a b. unfold capability_le. lia. Qed.
#[global] Instance capability_le_antisym : AntiSymm (=) capability_le.
Proof. intros [] []; unfold capability_le; cbn; try done; lia. Qed.

(** The derived [Debug]. *)
Definition debug_capability (c : RuntimeCapability) : string :=
  match c with
  | CodeRead => "CodeRead" | CodeSearch => "CodeSearch" | CodeEdit => "CodeEdit" | Shell => "Shell"
  | Test => "Test" | Git => "Git" | Diagnostics => "Diagnostics" | Browser => "Browser"
  | DeviceObserve => "DeviceObserve" | DeviceCommand => "DeviceCommand" | MemoryProposal => "MemoryProposal"
  end.

Definition debug_interaction (m : InteractionMode) : string :=
  match m with
  | OneShot => "OneShot" | Resident => "Resident" | Steering => "Steering" | FollowUp => "FollowUp"
  end.

Definition debug_workspace (m : WorkspaceMode) : string :=
  match m with
  | WorkspaceLess => "WorkspaceLess" | SharedReadOnly => "SharedReadOnly"
  | SharedWritable => "SharedWritable" | IsolatedWorktree => "IsolatedWorktree"
  end.

Definition debug_encoding (e : TaskEncoding) : string :=
  match e with NaturalLanguage => "NaturalLanguage" | StructuredJson => "StructuredJson" end.

(** The [BTreeSet]s are only tested for membership and emptiness: lists. *)
Record RuntimeManifest := {
  rm_id : string;
  rm_aliases : list string;
  rm_display_name : string;
  rm_capabilities : list RuntimeCapability;
  rm_interaction_modes : list InteractionMode;
  rm_workspace_modes : list WorkspaceMode;
  rm_task_encodings : list TaskEncoding;
  rm_supported_profiles : option (list string);
  rm_tool_governance : ToolGovernance;
  rm_priority : Z;
  rm_max_context_tokens : option N;
  rm_resource_requirements : RuntimeResourceRequirements;
}.

Definition has (m : RuntimeManifest) (c : RuntimeCapability) : bool := bool_decide (c ∈ rm_capabilities m).

Definition validate (m : RuntimeManifest) : option string :=
  if is_blank (rm_id m) then Some "runtime id must not be empty"
  else if bool_decide (rm_interaction_modes m = []) then Some "runtime interaction modes must not be empty"
  else if bool_decide (rm_workspace_modes m = []) then Some "runtime workspace modes must not be empty"
  else if bool_decide (rm_task_encodings m = []) then Some "runtime task encodings must not be empty"
  else if bool_decide (rm_supported_profiles m = Some []) then
    Some "runtime supported profile set must not be empty"
  else if bool_decide (rm_max_context_tokens m = Some 0) then Some "runtime context limit must be nonzero"
  else validate_resources (rm_resource_requirements m).

Inductive RuntimeSelector :=
| Auto
| Alias (alias : string)
| RequiredCapabilities (extra : list RuntimeCapability).

Record RuntimeSelectionRequest := {
  rq_selector : RuntimeSelector;
  rq_profile_id : string;
  rq_required_capabilities : list RuntimeCapability;
  rq_interaction_mode : InteractionMode;
  rq_workspace_mode : WorkspaceMode;
  rq_task_encoding : TaskEncoding;
  rq_max_input_tokens : N;
}.

Record RuntimeCandidateRejection := {
  rj_runtime_id : string;
  rj_reasons : list string;
}.

Record RuntimeSelectionDecision := {
  sd_selected_runtime_id : string;
  sd_effective_capabilities : list RuntimeCapability;
  sd_override_used : bool;
  sd_reason : string;
  sd_rejections : list RuntimeCandidateRejection;
}.

Record RuntimeSelectionError := {
  se_effective_capabilities : list RuntimeCapability;
  se_rejections : list RuntimeCandidateRejection;
}.

Definition effective_capabilities (r : RuntimeSelectionRequest) : list RuntimeCapability :=
  dedup (sort_by capability_le
    (rq_required_capabilities r
     ++ match rq_selector r with RequiredCapabilities extra => extra | _ => [] end)).

Definition reason_if (b : bool) (s : string) : list string := if b then [s] else [].

(** The reasons against one manifest, before they are truncated. *)
Definition reasons (r : RuntimeSelectionRequest) (m : RuntimeManifest) : list string :=
  match validate m with Some message => ["invalid manifest: " +:+ message] | None => [] end
  ++ match rq_selector r with
     | Alias alias =>
         reason_if (negb (bool_decide (rm_id m = alias)) && negb (bool_decide (alias ∈ rm_aliases m)))
           ("does not match runtime override: " +:+ alias)
     | _ => []
     end
  ++ match rm_supported_profiles m with
     | Some profiles => reason_if (negb (bool_decide (rq_profile_id r ∈ profiles)))
                          ("unsupported profile: " +:+ rq_profile_id r)
     | None => []
     end
  ++ mjoin (map (λ c, reason_if (negb (has m c)) ("missing capability: " +:+ debug_capability c))
              (effective_capabilities r))
  ++ reason_if (negb (bool_decide (rq_interaction_mode r ∈ rm_interaction_modes m)))
       ("unsupported interaction mode: " +:+ debug_interaction (rq_interaction_mode r))
  ++ reason_if (negb (bool_decide (rq_workspace_mode r ∈ rm_workspace_modes m)))
       ("unsupported workspace mode: " +:+ debug_workspace (rq_workspace_mode r))
  ++ reason_if (negb (bool_decide (rq_task_encoding r ∈ rm_task_encodings m)))
       ("unsupported task encoding: " +:+ debug_encoding (rq_task_encoding r))
  ++ match rm_max_context_tokens m with
     | Some limit => reason_if (limit <? rq_max_input_tokens r)
         ("input token budget " +:+ pretty (rq_max_input_tokens r)
          +:+ " exceeds runtime context limit " +:+ pretty limit)
     | None => []
     end.

(** One turn of the loop over the manifests. *)
Definition screen_manifest (r : RuntimeSelectionRequest)
    (acc : list RuntimeManifest * list RuntimeCandidateRejection) (m : RuntimeManifest)
    : list RuntimeManifest * list RuntimeCandidateRejection :=
  let reasons := take MAX_REASONS_PER_RUNTIME (reasons r m) in
  if bool_decide (reasons = []) then (acc.1 ++ [m], acc.2)
  else if (length acc.2 <? MAX_REJECTIONS)%nat
  then (acc.1, acc.2 ++ [{| rj_runtime_id := rm_id m; rj_reasons := reasons |}])
  else acc.

Definition rejection_le (a b : RuntimeCandidateRejection) : Prop :=
  String.le (rj_runtime_id a) (rj_runtime_id b).

(** [(priority, id)] in the order of pairs. *)
Definition manifest_le (a b : RuntimeManifest) : Prop :=
  (rm_priority a < rm_priority b)%Z
  ∨ rm_priority a = rm_priority b ∧ String.le (rm_id a) (rm_id b).

#[global] Instance rejection_le_dec : RelDecision rejection_le.
Proof. intros a b. unfold rejection_le. apply _. Defined.
#[global] Instance manifest_le_dec : RelDecision manifest_le.
Proof. intros a b. unfold manifest_le. apply _. Defined.

Definition select (r : RuntimeSelectionRequest) (manifests : list RuntimeManifest)
    : RuntimeSelectionError + RuntimeSelectionDecision :=
  let screened := foldl (screen_manifest r) ([], []) manifests in
  let rejections := sort_by rejection_le screened.2 in
  match sort_by manifest_le screened.1 with
  | [] => inl {| se_effective_capabilities := effective_capabilities r; se_rejections := rejections |}
  | selected :: _ =>
      inr {| sd_selected_runtime_id := rm_id selected;
             sd_effective_capabilities := effective_capabilities r;
             sd_override_used := match rq_selector r with Alias _ => true | _ => false end;
             sd_reason := "selected compatible runtime by priority " +:+ pretty (rm_priority selected)
                          +:+ " then stable runtime ID";
             sd_rejections := rejections |}
  end.

(** The [Display] of the error. *)
Definition error_to_string (e : RuntimeSelectionError) : string :=
  foldl (λ s j, s +:+ "; " +:+ rj_runtime_id j +:+ ": " +:+ String.concat ", " (rj_reasons j))
    "no runtime matches required capabilities and execution constraints" (se_rejections e).

Definition resolve_id (selector : RuntimeSelector) (manifests : list RuntimeManifest)
    (required : list RuntimeCapability) : string + string :=
  match select {| rq_selector := selector; rq_profile_id := ""; rq_required_capabilities := required;
                  rq_interaction_mode := Resident; rq_workspace_mode := SharedReadOnly;
                  rq_task_encoding := NaturalLanguage; rq_max_input_tokens := 1 |} manifests with
  | inl e => inl (error_to_string e)
  | inr d => inr (sd_selected_runtime_id d)
  end.

End Selector.

(** ** Runtime selection: properties

    What the loop over the manifests computes, when a manifest is compatible with
    a request, and that the choice is the least compatible manifest whatever the
    order of the manifests. *)

Import Selector.


(** ** Compatibility *)

Record well_formed (m : RuntimeManifest) : Prop := {
  wf_id : is_blank (rm_id m) = false;
  wf_modes : rm_interaction_modes m ≠ [] ∧ rm_workspace_modes m ≠ [] ∧ rm_task_encodings m ≠ [];
  wf_profiles : rm_supported_profiles m ≠ Some [];
  wf_context : rm_max_context_tokens m ≠ Some 0;
  wf_resources : rr_storage_bytes (rm_resource_requirements m) ≤ MAX_RUNTIME_STORAGE_BYTES
    ∧ rr_storage_items (rm_resource_requirements m) ≤ MAX_RUNTIME_STORAGE_ITEMS;
}.

Record compatible (r : RuntimeSelectionRequest) (m : RuntimeManifest) : Prop := {
  cm_well_formed : well_formed m;
  cm_named : ∀ alias, rq_selector r = Alias alias → rm_id m = alias ∨ alias ∈ rm_aliases m;
  cm_profile : ∀ profiles, rm_supported_profiles m = Some profiles → rq_profile_id r ∈ profiles;
  cm_required : ∀ c, c ∈ rq_required_capabilities r → c ∈ rm_capabilities m;
  cm_extra : ∀ extra c, rq_selector r = RequiredCapabilities extra → c ∈ extra → c ∈ rm_capabilities m;
  cm_modes : rq_interaction_mode r ∈ rm_interaction_modes m ∧ rq_workspace_mode r ∈ rm_workspace_modes m
    ∧ rq_task_encoding r ∈ rm_task_encodings m;
  cm_budget : ∀ limit, rm_max_context_tokens m = Some limit → rq_max_input_tokens r ≤ limit;
}.

Lemma validate_resources_none r :
  validate_resources r = None
  ↔ rr_storage_bytes r ≤ MAX_RUNTIME_STORAGE_BYTES ∧ rr_storage_items r ≤ MAX_RUNTIME_STORAGE_ITEMS.
Proof. unfold validate_resources. repeat case_match; rewrite ?N.ltb_lt, ?N.ltb_ge in *; split; intros; try done; lia. Qed.

Lemma validate_none m : validate m = None ↔ well_formed m.
Proof.
  unfold validate. split.
  - intros H. repeat (case_match; try discriminate).
    rewrite ?bool_decide_eq_false in *. split; [done|done|done|done|by apply validate_resources_none].
  - intros [-> (? & ? & ?) ? ? ?]. rewrite !bool_decide_false by done. by apply validate_resources_none.
Qed.

Lemma elem_of_effective r c :
  c ∈ effective_capabilities r
  ↔ c ∈ rq_required_capabilities r ∨ ∃ extra, rq_selector r = RequiredCapabilities extra ∧ c ∈ extra.
Proof.
  unfold effective_capabilities. rewrite elem_of_dedup, sort_by_perm, elem_of_app.
  destruct (rq_selector r); rewrite ?elem_of_nil; naive_solver.
Qed.

Lemma reason_if_nil b s : reason_if b s = [] ↔ b = false.
Proof. by destruct b. Qed.

Lemma missing_nil r m :
  mjoin (map (λ c, reason_if (negb (has m c)) ("missing capability: " +:+ debug_capability c))
           (effective_capabilities r)) = []
  ↔ ∀ c, c ∈ effective_capabilities r → c ∈ rm_capabilities m.
Proof.
  induction (effective_capabilities r) as [|c l IH]; cbn; [split; [by intros _ ? ?%elem_of_nil|done]|].
  unfold mjoin in IH. rewrite app_nil, reason_if_nil, negb_false_iff, IH. unfold has.
  rewrite bool_decide_eq_true. setoid_rewrite elem_of_cons. naive_solver.
Qed.

(** A manifest gives no reason against it exactly when it is compatible. *)
Lemma reasons_nil r m : reasons r m = [] ↔ compatible r m.
Proof.
  unfold reasons. rewrite !app_nil, missing_nil, !reason_if_nil, !negb_false_iff, !bool_decide_eq_true.
  setoid_rewrite elem_of_effective. split.
  - intros (Hv & Ha & Hp & Hc & Hi & Hw & Ht & Hb). split; eauto 10.
    + apply validate_none. by destruct (validate m).
    + intros alias Hs. rewrite Hs in Ha. apply reason_if_nil, andb_false_iff in Ha.
      rewrite !negb_false_iff, !bool_decide_eq_true in Ha. done.
    + intros profiles Hs. rewrite Hs in Hp. by apply reason_if_nil, negb_false_iff, bool_decide_eq_true in Hp.
    + intros limit Hs. rewrite Hs in Hb. apply reason_if_nil, N.ltb_ge in Hb. lia.
  - intros [Hwf Hn Hp Hr He (? & ? & ?) Hb]. apply validate_none in Hwf. rewrite Hwf. split_and!; try done.
    + destruct (rq_selector r); try done. rewrite reason_if_nil, andb_false_iff, !negb_false_iff, !bool_decide_eq_true. auto.
    + destruct (rm_supported_profiles m); try done. rewrite reason_if_nil, negb_false_iff, bool_decide_eq_true. auto.
    + intros c [?|(extra & ? & ?)]; eauto.
    + destruct (rm_max_context_tokens m); try done. rewrite reason_if_nil, N.ltb_ge. auto.
Qed.

Lemma kept_reasons_nil r m : take MAX_REASONS_PER_RUNTIME (reasons r m) = [] ↔ compatible r m.
Proof. rewrite <-reasons_nil. by destruct (reasons r m). Qed.

#[global] Instance compatible_dec r m : Decision (compatible r m).
Proof. refine (cast_if (decide (reasons r m = []))); by rewrite <-reasons_nil. Defined.

(** ** The loop *)

Definition rejection (r : RuntimeSelectionRequest) (m : RuntimeManifest) : RuntimeCandidateRejection :=
  {| rj_runtime_id := rm_id m; rj_reasons := take MAX_REASONS_PER_RUNTIME (reasons r m) |}.

Definition rejected (r : RuntimeSelectionRequest) (ms : list RuntimeManifest) : list RuntimeCandidateRejection :=
  rejection r <$> filter (λ m, ¬ compatible r m) ms.

Lemma screened r ms acc :
  (length acc.2 ≤ MAX_REJECTIONS)%nat →
  foldl (screen_manifest r) acc ms
  = (acc.1 ++ filter (compatible r) ms, take MAX_REJECTIONS (acc.2 ++ rejected r ms)).
Proof.
  revert acc. induction ms as [|m ms IH]; intros [cs js] Hlen; cbn [foldl fst snd] in *.
  { unfold rejected. cbn. by rewrite !app_nil_r, take_ge. }
  unfold screen_manifest, rejected. cbn [fst snd]. rewrite !filter_cons.
  destruct (decide (compatible r m)) as [Hc|Hc].
  - rewrite bool_decide_true by by apply kept_reasons_nil. rewrite IH by done. cbn [fst snd].
    rewrite decide_False by tauto. by rewrite <-app_assoc.
  - rewrite bool_decide_false by by rewrite kept_reasons_nil. rewrite decide_True by done. cbn [fst snd fmap list_fmap].
    destruct (Nat.ltb_spec (length js) MAX_REJECTIONS) as [Hlt|Hge].
    + rewrite IH by (cbn [fst snd]; rewrite length_app; cbn [length]; lia). cbn [fst snd]. by rewrite <-app_assoc.
    + rewrite IH by done. cbn [fst snd]. rewrite !take_app_le, !take_ge by lia. done.
Qed.

Lemma screened_all r ms :
  foldl (screen_manifest r) ([], []) ms
  = (filter (compatible r) ms, take MAX_REJECTIONS (rejected r ms)).
Proof. rewrite screened; [done|cbn; lia]. Qed.

(** ** The order *)

#[global] Instance manifest_le_trans : Transitive manifest_le.
Proof. intros a b c [?|[? ?]] [?|[? ?]]; unfold manifest_le; [left; lia..|right; split; [lia|by etrans]]. Qed.
#[global] Instance manifest_le_refl : Reflexive manifest_le.
Proof. intros a. by right. Qed.
#[global] Instance manifest_le_total : Total manifest_le.
Proof.
  intros a b. unfold manifest_le. destruct (Z.lt_trichotomy (rm_priority a) (rm_priority b)) as [?|[?|?]]; auto.
  destruct (total String.le (rm_id a) (rm_id b)); auto.
Qed.
#[global] Instance rejection_le_trans : Transitive rejection_le.
Proof. intros a b c. unfold rejection_le. apply transitivity. Qed.
#[global] Instance rejection_le_total : Total rejection_le.
Proof. intros a b. unfold rejection_le. apply total, _. Qed.

Lemma manifest_le_antisym a b :
  manifest_le a b → manifest_le b a → rm_priority a = rm_priority b ∧ rm_id a = rm_id b.
Proof. intros [?|[? ?]] [?|[? ?]]; try lia. split; [done|]. by apply (anti_symm String.le). Qed.

(** ** The choice *)

(** The reference: one pass that keeps the least compatible manifest. *)
Definition preferred (r : RuntimeSelectionRequest) (ms : list RuntimeManifest) : option RuntimeManifest :=
  foldr (λ m best,
    if decide (compatible r m)
    then match best with
         | Some b => if decide (manifest_le m b) then Some m else Some b
         | None => Some m
         end
    else best) None ms.

(** The decision for a chosen manifest, with the rejections to report. *)
Definition verdict (r : RuntimeSelectionRequest) (best : option RuntimeManifest)
    (rejections : list RuntimeCandidateRejection) : RuntimeSelectionError + RuntimeSelectionDecision :=
  match best with
  | None => inl {| se_effective_capabilities := effective_capabilities r; se_rejections := rejections |}
  | Some m =>
      inr {| sd_selected_runtime_id := rm_id m;
             sd_effective_capabilities := effective_capabilities r;
             sd_override_used := match rq_selector r with Alias _ => true | _ => false end;
             sd_reason := "selected compatible runtime by priority " +:+ pretty (rm_priority m)
                          +:+ " then stable runtime ID";
             sd_rejections := rejections |}
  end.

Lemma head_insert_by m l :
  head (insert_by manifest_le m l)
  = match head l with
    | Some b => if decide (manifest_le m b) then Some m else Some b
    | None => Some m
    end.
Proof. destruct l; cbn; [done|]. by case_decide. Qed.

Lemma preferred_sorted r ms : head (sort_by manifest_le (filter (compatible r) ms)) = preferred r ms.
Proof.
  induction ms as [|m ms IH]; [done|]. rewrite filter_cons. cbn [preferred foldr].
  fold (preferred r ms). case_decide; [|done]. cbn [sort_by]. by rewrite head_insert_by, IH.
Qed.

Lemma preferred_spec r ms :
  match preferred r ms with
  | Some m => m ∈ ms ∧ compatible r m ∧ ∀ m', m' ∈ ms → compatible r m' → manifest_le m m'
  | None => ∀ m, m ∈ ms → ¬ compatible r m
  end.
Proof.
  rewrite <-preferred_sorted. destruct (sort_by manifest_le (filter (compatible r) ms)) as [|m l] eqn:Hs; cbn.
  - intros m Hm Hc. assert (m ∈ filter (compatible r) ms) as Hin by by apply list_elem_of_filter.
    rewrite <-(sort_by_perm manifest_le), Hs in Hin. by apply elem_of_nil in Hin.
  - apply (sort_by_head manifest_le) in Hs as [[Hc Hm]%list_elem_of_filter Hle]. split_and!; [done..|].
    intros m' Hm' Hc'. apply Hle. by apply list_elem_of_filter.
Qed.

Lemma select_verdict r ms :
  select r ms = verdict r (preferred r ms) (sort_by rejection_le (take MAX_REJECTIONS (rejected r ms))).
Proof.
  unfold select, verdict. rewrite screened_all, <-preferred_sorted. cbn [fst snd].
  by destruct (sort_by manifest_le _).
Qed.

(** The least key does not depend on the order. *)
Lemma preferred_perm r ms ms' :
  ms ≡ₚ ms' → ∀ js, verdict r (preferred r ms) js = verdict r (preferred r ms') js.
Proof.
  intros Hp js. pose proof (preferred_spec r ms) as H. pose proof (preferred_spec r ms') as H'. unfold verdict.
  destruct (preferred r ms) as [m|], (preferred r ms') as [m'|].
  - destruct H as (Hm & Hc & Hle), H' as (Hm' & Hc' & Hle').
    rewrite Hp in Hm. rewrite <-Hp in Hm'. by destruct (manifest_le_antisym m m' (Hle _ Hm' Hc') (Hle' _ Hm Hc)) as [-> ->].
  - destruct H as (Hm & Hc & _). rewrite Hp in Hm. by destruct (H' m Hm).
  - destruct H' as (Hm & Hc & _). rewrite <-Hp in Hm. by destruct (H m' Hm).
  - done.
Qed.

Lemma rejected_perm r ms ms' :
  NoDup (rm_id <$> ms) → (length ms ≤ MAX_REJECTIONS)%nat → ms ≡ₚ ms' →
  sort_by rejection_le (take MAX_REJECTIONS (rejected r ms))
  = sort_by rejection_le (take MAX_REJECTIONS (rejected r ms')).
Proof.
  intros Hnd Hlen Hp.
  assert (∀ l, (length l ≤ MAX_REJECTIONS)%nat → (length (rejected r l) ≤ MAX_REJECTIONS)%nat) as Hle.
  { intros l. unfold rejected. rewrite length_fmap. pose proof (length_filter (λ m, ¬ compatible r m) l). lia. }
  pose proof (Permutation_length Hp). rewrite !take_ge by (apply Hle; lia).
  apply (sort_by_unique rejection_le); [|unfold rejected; by rewrite Hp].
  unfold rejected. intros x y (a & -> & [_ Ha]%list_elem_of_filter)%list_elem_of_fmap
    (b & -> & [_ Hb]%list_elem_of_filter)%list_elem_of_fmap Hxy Hyx.
  assert (rm_id a = rm_id b) as Hid by by apply (anti_symm String.le).
  apply list_elem_of_lookup in Ha as [i Hi], Hb as [j Hj]. assert (i = j) as <-; [|by simplify_eq].
  eapply NoDup_lookup; [done|by rewrite list_lookup_fmap, Hi|]. rewrite list_lookup_fmap, Hj. cbn. by rewrite Hid.
Qed.

(** Selecting a runtime gives what one pass over the manifests that keeps
    the least compatible one by priority and then id gives: the decision names a
    well-formed manifest that has every required capability, the requested modes,
    profile and context size and the overriding alias if there is one, and no
    compatible manifest comes before it; an error means that none is compatible.
    At most 64 rejections are reported, each of an incompatible manifest with
    between one and 16 reasons.  The outcome does not depend on the order of the
    manifests, its rejections included when the ids are distinct and there are at
    most 64 of them. *)
Theorem select_least r ms :
  select r ms = verdict r (preferred r ms) (sort_by rejection_le (take MAX_REJECTIONS (rejected r ms)))
  ∧ match preferred r ms with
    | Some m => m ∈ ms ∧ compatible r m ∧ ∀ m', m' ∈ ms → compatible r m' → manifest_le m m'
    | None => ∀ m, m ∈ ms → ¬ compatible r m
    end
  ∧ (length (take MAX_REJECTIONS (rejected r ms)) ≤ 64)%nat
  ∧ (∀ j, j ∈ take MAX_REJECTIONS (rejected r ms) → ∃ m, m ∈ ms ∧ ¬ compatible r m
       ∧ rj_runtime_id j = rm_id m ∧ rj_reasons j ≠ [] ∧ (length (rj_reasons j) ≤ 16)%nat)
  ∧ ∀ ms', ms ≡ₚ ms' →
      sum_map (λ _, ()) sd_selected_runtime_id (select r ms)
      = sum_map (λ _, ()) sd_selected_runtime_id (select r ms')
      ∧ (NoDup (rm_id <$> ms) → (length ms ≤ 64)%nat → select r ms = select r ms').
Proof.
  split_and!.
  - apply select_verdict.
  - apply preferred_spec.
  - rewrite length_take. unfold MAX_REJECTIONS. lia.
  - intros j Hj. assert (j ∈ rejected r ms) as Hj' by (rewrite <-(take_drop MAX_REJECTIONS), elem_of_app; auto).
    unfold rejected in Hj'. apply list_elem_of_fmap in Hj' as (m & -> & [Hc Hm]%list_elem_of_filter).
    exists m. split_and!; try done; cbn [rejection rj_reasons].
    + by rewrite kept_reasons_nil.
    + rewrite length_take. unfold MAX_REASONS_PER_RUNTIME. lia.
  - intros ms' Hp. rewrite !select_verdict. split.
    + rewrite (preferred_perm r ms ms' Hp). by unfold verdict; destruct (preferred r ms').
    + intros Hnd Hlen. rewrite (preferred_perm r ms ms' Hp). by rewrite (rejected_perm r ms ms').
Qed.

(** ** A concrete choice *)

Definition sample_manifest (id : string) (priority : Z) (profiles : option (list string)) : RuntimeManifest :=
  {| rm_id := id; rm_aliases := []; rm_display_name := id; rm_capabilities := [CodeRead; Test];
     rm_interaction_modes := [Resident]; rm_workspace_modes := [SharedReadOnly];
     rm_task_encodings := [NaturalLanguage]; rm_supported_profiles := profiles;
     rm_tool_governance := Observed; rm_priority := priority; rm_max_context_tokens := Some 1000;
     rm_resource_requirements := {| rr_storage_bytes := 0; rr_storage_items := 0 |} |}.

Definition sample_request : RuntimeSelectionRequest :=
  {| rq_selector := RequiredCapabilities [Test]; rq_profile_id := "researcher";
     rq_required_capabilities := [CodeRead]; rq_interaction_mode := Resident;
     rq_workspace_mode := SharedReadOnly; rq_task_encoding := NaturalLanguage; rq_max_input_tokens := 100 |}.

Definition sample_manifests : list RuntimeManifest :=
  [sample_manifest "z" 10 None; sample_manifest "coder" 0 (Some ["code-agent"]); sample_manifest "a" 10 None;
   sample_manifest " " 0 None].

Lemma sample_selected :
  select sample_request sample_manifests
  = inr {| sd_selected_runtime_id := "a"; sd_effective_capabilities := [CodeRead; Test];
           sd_override_used := false;
           sd_reason := "selected compatible runtime by priority 10 then stable runtime ID";
           sd_rejections := [ {| rj_runtime_id := " ";
                                 rj_reasons := ["invalid manifest: runtime id must not be empty"] |};
                              {| rj_runtime_id := "coder";
                                 rj_reasons := ["unsupported profile: researcher"] |} ] |}.
Proof. vm_compute. done. Qed.

Lemma select_least_witness :
  select sample_request (reverse sample_manifests) = select sample_request sample_manifests.
Proof.
  destruct (select_least sample_request (reverse sample_manifests)) as (_ & _ & _ & _ & Hperm).
  destruct (Hperm sample_manifests) as [_ Heq]; [apply reverse_Permutation|].
  apply Heq; [|cbn; lia]. apply (bool_decide_unpack (NoDup _)). vm_compute. exact I.
Defined.

(** The projection for callers that select by capabilities alone still asks for
    the profile with the empty name, a resident session and a read-only
    workspace: a runtime with every capability is refused for its profiles. *)
Lemma resolve_id_also_screens_profiles :
  resolve_id Auto [sample_manifest "coder" 0 (Some ["code-agent"])] [CodeRead]
  = inl "no runtime matches required capabilities and execution constraints; coder: unsupported profile: ".
Proof. vm_compute. done. Qed.
