(* ===== verification/Fallible.v ===== *)
(** * Pure fallible computations and paths

    A [&self] method that returns [anyhow::Result] is a [Result string]: the [?]
    operator is the bind of its monad, [anyhow::ensure!] is [need], [ok_or_else]
    is [some_or] and [expect] is [must].  Also [std::path::Path] on Unix: its
    components and [starts_with]. *)
From S2P Require Import Prelude StdModel.

#[local] Open Scope N_scope.

Section ResultMonad.
Context {E : Type}.

#[global] Instance Result_ret : MRet (Result E) := λ A a, Ok a.

#[global] Instance Result_bind : MBind (Result E) := λ A B k m,
  match m with Ok a => k a | Err e => Err e | Panic => Panic end.

Definition need (b : bool) (e : E) : Result E unit := if b then Ok tt else Err e.

Definition some_or {A} (o : option A) (e : E) : Result E A :=
  match o with Some a => Ok a | None => Err e end.

Definition must {A} (o : option A) : Result E A :=
  match o with Some a => Ok a | None => Panic end.

(** [for x in l { body?; }] *)
Fixpoint each {A} (l : list A) (body : A → Result E unit) : Result E unit :=
  match l with
  | [] => Ok tt
  | x :: r => body x ;; each r body
  end.

Lemma bind_ok {A B} (m : Result E A) (k : A → Result E B) b :
  m ≫= k = Ok b ↔ ∃ a, m = Ok a ∧ k a = Ok b.
Proof. destruct m; cbn; naive_solver. Qed.

Lemma need_ok b e u : need b e = Ok u ↔ b = true.
Proof. destruct b, u; cbn; naive_solver. Qed.

Lemma some_or_ok {A} (o : option A) e a : some_or o e = Ok a ↔ o = Some a.
Proof. destruct o; cbn; naive_solver. Qed.

Lemma must_ok {A} (o : option A) a : must o = Ok a ↔ o = Some a.
Proof. destruct o; cbn; naive_solver. Qed.

Lemma each_ok {A} (l : list A) (body : A → Result E unit) u :
  each l body = Ok u ↔ Forall (λ x, body x = Ok tt) l.
Proof.
  destruct u. induction l as [|x r IH]; cbn [each]; [naive_solver|]. rewrite bind_ok, Forall_cons, <-IH.
  split; [intros ([] & ? & ?); done|intros [? ?]; by exists tt].
Qed.

(** A computation that cannot panic. *)
Definition calm {A} (m : Result E A) : Prop := m ≠ Panic.

Lemma calm_bind {A B} (m : Result E A) (k : A → Result E B) :
  calm m → (∀ a, m = Ok a → calm (k a)) → calm (m ≫= k).
Proof. unfold calm. destruct m; cbn; auto. Qed.

Lemma calm_need b e : calm (need b e).
Proof. by destruct b. Qed.

Lemma calm_some_or {A} (o : option A) e : calm (some_or o e).
Proof. by destruct o. Qed.

Lemma calm_ok {A} (a : A) : calm (Ok a).
Proof. done. Qed.

Lemma calm_err {A} e : calm (A := A) (Err e).
Proof. done. Qed.

Lemma calm_each {A} (l : list A) (body : A → Result E unit) : (∀ x, calm (body x)) → calm (each l body).
Proof. intros Hb. induction l; cbn; [done|]. by apply calm_bind. Qed.

End ResultMonad.

#[export] Hint Resolve calm_need calm_some_or calm_ok calm_err : aletheon.

(** Takes a successful computation in [H] apart, step by step. *)
Ltac inv_ok H :=
  lazymatch type of H with
  | (_ ≫= _) = Ok _ =>
      let a := fresh "a" in
      let H1 := fresh H in
      apply bind_ok in H as (a & H1 & H); inv_ok H1; inv_ok H
  | need _ _ = Ok _ => apply need_ok in H
  | some_or _ _ = Ok _ => apply some_or_ok in H
  | must _ = Ok _ => apply must_ok in H
  | each _ _ = Ok _ => apply each_ok in H
  | _ => idtac
  end.

(** Shows that the next check of a computation succeeds. *)
Ltac pass := apply bind_ok; exists tt; split; [apply need_ok|].

(** Turns the checks in the context into propositions. *)
Ltac checks := rewrite ?negb_true_iff, ?bool_decide_eq_true, ?bool_decide_eq_false in *.

(** Proves that a composed computation cannot panic. *)
Ltac solve_calm :=
  repeat first
    [ solve [auto with aletheon nocore] | apply calm_bind; [|intros ? ?] | apply calm_each; intros ?
    | case_match ].

(** ** Paths *)

Inductive Component :=
| RootDir
| CurDir
| ParentDir
| Normal (name : string).

#[global] Instance Component_eq_dec : EqDecision Component.
Proof. solve_decision. Defined.

Fixpoint split_slash (s : string) : list string :=
  match s with
  | "" => [""]
  | String c r =>
      if decide (c = Ascii.Ascii true true true true false true false false) then "" :: split_slash r
      else match split_slash r with
           | seg :: rest => String c seg :: rest
           | [] => [String c ""]
           end
  end.

(** A segment of a path: the empty ones and [.] are skipped. *)
Definition segment (s : string) : option Component :=
  if decide (s = "" ∨ s = ".") then None else Some (if decide (s = "..") then ParentDir else Normal s).

(** [Path::new(s).components()]: a leading [/] or [.] is kept. *)
Definition components (s : string) : list Component :=
  match split_slash s with
  | "" :: rest => (if decide (s = "") then [] else [RootDir]) ++ omap segment rest
  | "." :: rest => CurDir :: omap segment rest
  | segs => omap segment segs
  end.

(** [Path::starts_with] *)
Definition path_starts_with (s base : string) : bool := bool_decide (components base `prefix_of` components s).

(** ** Paths: equality and order

    [std::path::Path] compares paths by their components: [a//b] and [a/b] are
    the same path and differ as text.  The order is lexicographic on the
    components, which are ordered by kind and then by name. *)

(** ** Lexicographic order *)

Section Lex.
Context {A : Type} (R : relation A) `{!RelDecision R} `{!EqDecision A}.

Fixpoint lex (a b : list A) : Prop :=
  match a, b with
  | [], _ => True
  | _ :: _, [] => False
  | x :: a, y :: b => R x y ∧ (x = y → lex a b)
  end.

#[global] Instance lex_dec : RelDecision lex.
Proof.
  intros a. induction a as [|x a IH]; intros [|y b]; cbn; [left; done..|right; by intros []|].
  destruct (decide (R x y)); [|right; by intros []].
  destruct (decide (x = y)); [|left; by split].
  destruct (IH b); [left|right; naive_solver]. by split.
Defined.

Context `{!PreOrder R} `{!AntiSymm (=) R} `{!Total R}.

#[global] Instance lex_trans : Transitive lex.
Proof.
  intros a. induction a as [|x a IH]; intros [|y b] [|z c]; cbn; try done.
  intros [Hxy Hab] [Hyz Hbc]. split; [by etrans|]. intros ->.
  assert (z = y) as -> by by apply (anti_symm R). eauto.
Qed.

#[global] Instance lex_total : Total lex.
Proof.
  intros a. induction a as [|x a IH]; intros [|y b]; cbn; auto.
  destruct (decide (x = y)) as [->|Hne].
  { destruct (IH b); [left|right]; (split; [reflexivity|auto]). }
  destruct (total R x y); [left|right]; split; auto; intros; by subst.
Qed.

#[global] Instance lex_anti_symm : AntiSymm (=) lex.
Proof.
  intros a. induction a as [|x a IH]; intros [|y b]; cbn; try done.
  intros [Hxy Hab] [Hyx Hba]. assert (x = y) as -> by by apply (anti_symm R).
  f_equal. apply IH; auto.
Qed.

End Lex.

(** ** Components *)

Definition component_rank (c : Component) : N :=
  match c with RootDir => 0 | CurDir => 1 | ParentDir => 2 | Normal _ => 3 end.

Definition component_name (c : Component) : string := match c with Normal name => name | _ => "" end.

Definition component_le (a b : Component) : Prop :=
  component_rank a < component_rank b
  ∨ component_rank a = component_rank b ∧ String.le (component_name a) (component_name b).

#[global] Instance component_le_dec : RelDecision component_le.
Proof. intros a b. unfold component_le. apply _. Defined.

#[global] Instance component_le_pre : PreOrder component_le.
Proof.
  split.
  - intros a. right. split; [done|]. reflexivity.
  - intros a b c [?|[? ?]] [?|[? ?]]; [left; lia..|]. right. split; [lia|]. by etrans.
Qed.

#[global] Instance component_le_anti_symm : AntiSymm (=) component_le.
Proof.
  intros a b [?|[Hr Hab]] [?|[? Hba]]; [lia..|]. assert (component_name a = component_name b).
  { by apply (anti_symm String.le). }
  by destruct a, b; cbn in *; simplify_eq.
Qed.

#[global] Instance component_le_total : Total component_le.
Proof.
  intros a b. destruct (N.lt_trichotomy (component_rank a) (component_rank b)) as [?|[?|?]];
    [by left; left| |by right; left].
  destruct (total String.le (component_name a) (component_name b)); [left|right]; right; done.
Qed.

(** ** Paths *)

(** [PathBuf == PathBuf] and [Path::cmp] *)
Definition path_eqb (a b : string) : bool := bool_decide (components a = components b).

Definition path_le (a b : string) : Prop := lex component_le (components a) (components b).

#[global] Instance path_le_dec : RelDecision path_le.
Proof. intros a b. unfold path_le. apply _. Defined.

#[global] Instance path_le_trans : Transitive path_le.
Proof. intros a b c. unfold path_le. apply transitivity. Qed.

#[global] Instance path_le_total : Total path_le.
Proof. intros a b. unfold path_le. apply (total (lex component_le)). Qed.

Lemma path_le_antisymm a b : path_le a b → path_le b a → path_eqb a b = true.
Proof. intros. apply bool_decide_eq_true_2. by apply (anti_symm (lex component_le)). Qed.

Lemma path_eqb_refl a : path_eqb a a = true.
Proof. by apply bool_decide_eq_true_2. Qed.

(** [Vec::dedup] on paths: an element equal to the last one kept is dropped. *)
Fixpoint dedup_after (kept : string) (l : list string) : list string :=
  match l with
  | [] => []
  | x :: r => if path_eqb x kept then dedup_after kept r else x :: dedup_after x r
  end.

Definition dedup_paths (l : list string) : list string :=
  match l with [] => [] | x :: r => x :: dedup_after x r end.

(** Equality of vectors and of options of paths. *)
Fixpoint paths_eqb (a b : list string) : bool :=
  match a, b with
  | [], [] => true
  | x :: a, y :: b => path_eqb x y && paths_eqb a b
  | _, _ => false
  end.

Definition opt_path_eqb (a b : option string) : bool :=
  match a, b with Some a, Some b => path_eqb a b | None, None => true | _, _ => false end.
