(* ===== verification/Database.v ===== *)
(** * Durable stores

    What the stores of the repository have in common.  A step that only reads;
    an SQLite connection: a statement may fail, a transaction that is not
    committed has no effect, and an unsigned parameter must fit the signed
    column. *)
From S2P Require Import Prelude StdModel Fallible.

#[local] Open Scope N_scope.

Section Quiet.
Context {S E : Type}.

(** A step that reads but does not write, and does not panic. *)
Definition reads {A} (m : M S E A) : Prop := ∀ s n, ∃ r n', m s n = (r, s, n') ∧ r ≠ Panic.

Lemma wp_reads {A} (m : M S E A) Q s n :
  reads m → (∀ r n', r ≠ Panic → Q r s n') → wp m Q s n.
Proof. intros Hm HQ. unfold wp. destruct (Hm s n) as (r & n' & -> & ?). auto. Qed.

Lemma reads_bind {A B} (m : M S E A) (k : A → M S E B) : reads m → (∀ a, reads (k a)) → reads (m ≫= k).
Proof.
  intros Hm Hk s n. unfold mbind, M_bind. destruct (Hm s n) as ([a|e|] & n' & -> & ?); [apply Hk|eauto|done].
Qed.

Lemma reads_ret {A} (a : A) : reads (mret a : M S E A).
Proof. intros s n. by eexists _, _. Qed.

Lemma reads_throw {A} e : reads (throw e : M S E A).
Proof. intros s n. by eexists _, _. Qed.

Lemma reads_get : reads (get_state : M S E S).
Proof. intros s n. by eexists _, _. Qed.

Lemma reads_tick : reads (tick : M S E N).
Proof. intros s n. by eexists _, _. Qed.

Lemma reads_ensure b (e : E) : reads (ensure b e : M S E unit).
Proof. destruct b; [apply reads_ret|apply reads_throw]. Qed.

Lemma reads_ok_or {A} (o : option A) (e : E) : reads (ok_or o e : M S E A).
Proof. destruct o; [apply reads_ret|apply reads_throw]. Qed.

End Quiet.

(** ** SQLite *)

(** The outcome of the [n]-th external call, when that is a statement. *)
Class Sqlite := { sqlite : N → option string }.

Inductive SqlError (Cause : Type) :=
| Failed (error : string)
| ConversionFailure (column : N) (cause : Cause)
| OutOfRange
| ConstraintViolation (constraint : string).
Arguments Failed {Cause} _.
Arguments ConversionFailure {Cause} _ _.
Arguments OutOfRange {Cause}.
Arguments ConstraintViolation {Cause} _.

Definition i64_max : N := 9223372036854775807.

Section Statements.
Context `{Sqlite} {S E Cause : Type} (sql : SqlError Cause → E).

(** One statement: it fails and has no effect, or the code after it says what it
    does. *)
Definition execute : M S E unit :=
  n ← tick;
  match sqlite n with Some error => throw (sql (Failed error)) | None => mret tt end.

(** A constraint of the table. *)
Definition constraint (b : bool) (name : string) : M S E unit := ensure b (sql (ConstraintViolation name)).

(** A [u64] as a parameter. *)
Definition u64_param (n : N) : M S E unit := ensure (n <=? i64_max) (sql OutOfRange).

(** [BEGIN], the body, [COMMIT]; dropped without a commit, the transaction is
    rolled back. *)
Definition transaction {A} (body : M S E A) : M S E A := λ s n,
  match (execute ;; a ← body; execute ;; mret a) s n with
  | (Ok a, s', n') => (Ok a, s', n')
  | (r, _, n') => (r, s, n')
  end.

(** A value computed without the store. *)
Definition pure_result {A} (r : Result E A) : M S E A := λ s n, (r, s, n).

Lemma wp_pure_result {A} (r : Result E A) (Q : Result E A → S → N → Prop) s n :
  Q r s n → wp (pure_result r) Q s n.
Proof. done. Qed.

Lemma reads_pure_result {A} (r : Result E A) : calm r → reads (pure_result r).
Proof. intros Hr s n. by eexists _, _. Qed.

Lemma reads_execute : reads execute.
Proof. apply reads_bind; [apply reads_tick|]. intros n. case_match; [apply reads_throw|apply reads_ret]. Qed.

Lemma reads_constraint b name : reads (constraint b name).
Proof. apply reads_ensure. Qed.

Lemma reads_u64_param n : reads (u64_param n).
Proof. apply reads_ensure. Qed.

(** A statement leaves the store as it is, and does not panic. *)
Lemma wp_execute (Q : Result E unit → S → N → Prop) s n :
  (∀ n', Q (Ok tt) s n') → (∀ e n', Q (Err e) s n') → wp execute Q s n.
Proof.
  intros Hok Herr. apply wp_reads; [apply reads_execute|]. intros [[]|e|] n' Hr; [apply Hok|apply Herr|done].
Qed.

(** All of the transaction or nothing. *)
Lemma wp_transaction {A} (body : M S E A) (Q : Result E A → S → N → Prop) s n :
  (∀ n1, wp body (λ r s' n', match r with
                             | Ok a => (∀ n'', Q (Ok a) s' n'')
                             | Err e => Q (Err e) s n'
                             | Panic => Q Panic s n'
                             end) s n1) →
  (∀ e n', Q (Err e) s n') →
  wp (transaction body) Q s n.
Proof.
  intros Hbody Herr. unfold wp, transaction. unfold mbind at 1, M_bind at 1.
  destruct (reads_execute s n) as (r1 & n1 & -> & Hr1). destruct r1 as [[]|e|]; [|apply Herr|done].
  specialize (Hbody n1). unfold wp in Hbody. unfold mbind at 1, M_bind at 1.
  destruct (body s n1) as [[[a|e|] s2] n2]; [|done..].
  unfold mbind, M_bind. destruct (reads_execute s2 n2) as (r3 & n3 & -> & Hr3).
  destruct r3 as [[]|e|]; [apply Hbody|apply Herr|done].
Qed.

End Statements.
