(* ===== verification/AgoraTypes.v ===== *)
(** * The contracts of cognitive work (fabric)

    The types of fabric/src/types/cognitive_workflow.rs and
    fabric/src/include/agora.rs: roles and their host-enforced profiles, budgets,
    task nodes, typed artifacts, clarifications and interruptions, and the
    operations, proposals, commits and permits of a workspace.  JSON values and
    floating-point numbers are type parameters; serialization and the digests
    made of it are a class. *)
From S2P Require Import Prelude FabricTypes StdModel Fallible.

#[local] Open Scope N_scope.

Module Cognitive.

(** ** Roles *)

Inductive CognitiveRole := Root | Planner | Explorer | Executor | Reviewer | Tester | Fixer.

#[global] Instance CognitiveRole_eq_dec : EqDecision CognitiveRole.
Proof. solve_decision. Defined.

Definition can_write_workspace (r : CognitiveRole) : bool :=
  match r with Executor | Fixer => true | _ => false end.

Definition can_validate (r : CognitiveRole) : bool :=
  match r with Reviewer | Tester => true | _ => false end.

Record CognitiveRoleProfileRef := {
  pr_id : string;
  pr_version : N;
}.

#[global] Instance CognitiveRoleProfileRef_eq_dec : EqDecision CognitiveRoleProfileRef.
Proof. solve_decision. Defined.

Record CognitiveRoleBudget := {
  rb_max_input_tokens : N;
  rb_max_output_tokens : N;
  rb_max_tool_calls : N;
  rb_max_elapsed_ms : N;
}.

#[global] Instance CognitiveRoleBudget_eq_dec : EqDecision CognitiveRoleBudget.
Proof. solve_decision. Defined.

Definition fits_within (b parent : CognitiveRoleBudget) : bool :=
  (rb_max_input_tokens b <=? rb_max_input_tokens parent)
  && (rb_max_output_tokens b <=? rb_max_output_tokens parent)
  && (rb_max_tool_calls b <=? rb_max_tool_calls parent)
  && (rb_max_elapsed_ms b <=? rb_max_elapsed_ms parent).

Definition budget_validate (b : CognitiveRoleBudget) : Result string unit :=
  need ((0 <? rb_max_input_tokens b) && (0 <? rb_max_output_tokens b) && (0 <? rb_max_tool_calls b)
        && (0 <? rb_max_elapsed_ms b)) "cognitive role budget limits must be nonzero".

Inductive ValidationAuthority := NoAuthority | Recommend | IndependentGate.

Inductive CognitiveArtifactKind :=
| KTaskContract | KPlan | KInvestigation | KChangeSet | KValidation | KReview | KEvidence | KDecision
| KAgentResult.

#[global] Instance CognitiveArtifactKind_eq_dec : EqDecision CognitiveArtifactKind.
Proof. solve_decision. Defined.

Record ContextProjectionPolicy := {
  cx_accepted_kinds : list CognitiveArtifactKind;
  cx_max_artifacts : N;
  cx_include_peer_history : bool;
}.

Record CognitiveRoleProfile := {
  rp_reference : CognitiveRoleProfileRef;
  rp_role : CognitiveRole;
  rp_responsibilities : list string;
  rp_prohibited_actions : list string;
  rp_accepted_input_artifacts : list CognitiveArtifactKind;
  rp_required_output_artifacts : list CognitiveArtifactKind;
  rp_workspace_write_allowed : bool;
  rp_validation_authority : ValidationAuthority;
  rp_context_projection : ContextProjectionPolicy;
  rp_budget : CognitiveRoleBudget;
  rp_maximum_concurrency : N;
  rp_escalation_behavior : string;
  rp_completion_conditions : list string;
}.

(** The columns of the table in [CognitiveRoleProfile::canonical]. *)
Definition role_inputs (r : CognitiveRole) : list CognitiveArtifactKind :=
  match r with
  | Root => [KTaskContract; KPlan; KInvestigation; KChangeSet; KValidation; KReview; KEvidence; KDecision;
             KAgentResult]
  | Planner => [KTaskContract; KEvidence]
  | Explorer => [KTaskContract; KPlan]
  | Executor => [KTaskContract; KPlan; KInvestigation]
  | Reviewer => [KTaskContract; KPlan; KChangeSet; KValidation]
  | Tester => [KTaskContract; KChangeSet; KReview; KEvidence]
  | Fixer => [KTaskContract; KChangeSet; KReview; KValidation]
  end.

Definition role_outputs (r : CognitiveRole) : list CognitiveArtifactKind :=
  match r with
  | Root => [KTaskContract; KDecision]
  | Planner => [KPlan]
  | Explorer => [KInvestigation; KEvidence]
  | Executor => [KChangeSet]
  | Reviewer => [KReview]
  | Tester => [KValidation]
  | Fixer => [KChangeSet]
  end.

Definition role_writes (r : CognitiveRole) : bool :=
  match r with
  | Root => false | Planner => false | Explorer => false | Executor => true
  | Reviewer => false | Tester => false | Fixer => true
  end.

Definition role_validation (r : CognitiveRole) : ValidationAuthority :=
  match r with
  | Root | Reviewer | Tester => IndependentGate
  | Planner | Explorer | Executor | Fixer => NoAuthority
  end.

Definition role_responsibilities (r : CognitiveRole) : list string :=
  match r with
  | Root => ["own the root contract and stage gates"]
  | Planner => ["map every requirement to an executable plan step"]
  | Explorer => ["collect grounded repository evidence"]
  | Executor => ["apply the accepted change within the owned scope"]
  | Reviewer => ["review exact requirement, diff, and validation versions"]
  | Tester => ["produce authoritative terminal validation evidence"]
  | Fixer => ["repair the identified findings within the owned scope"]
  end.

Definition role_prohibited (r : CognitiveRole) : list string :=
  match r with
  | Root => ["infer success from prose"]
  | Planner => ["modify the workspace"; "accept an incomplete requirement map"]
  | Explorer => ["modify the workspace"; "report uninspected claims as facts"]
  | Executor => ["write outside the owned scope"; "certify its own changes"]
  | Reviewer => ["modify the workspace"; "certify its own changes"]
  | Tester => ["modify production sources"; "summarize success without a terminal receipt"]
  | Fixer => ["write outside the owned scope"; "discard finding identities"]
  end.

Definition role_name (r : CognitiveRole) : string :=
  match r with
  | Root => "root" | Planner => "planner" | Explorer => "explorer" | Executor => "executor"
  | Reviewer => "reviewer" | Tester => "tester" | Fixer => "fixer"
  end.

Definition canonical (r : CognitiveRole) : CognitiveRoleProfile :=
  {| rp_reference := {| pr_id := "aletheon.cognitive." +:+ role_name r; pr_version := 1 |};
     rp_role := r;
     rp_responsibilities := role_responsibilities r;
     rp_prohibited_actions := role_prohibited r;
     rp_accepted_input_artifacts := role_inputs r;
     rp_required_output_artifacts := role_outputs r;
     rp_workspace_write_allowed := role_writes r;
     rp_validation_authority := role_validation r;
     rp_context_projection := {| cx_accepted_kinds := role_inputs r; cx_max_artifacts := 32;
                                 cx_include_peer_history := false |};
     rp_budget := {| rb_max_input_tokens := 131072; rb_max_output_tokens := 32768;
                     rb_max_tool_calls := 256; rb_max_elapsed_ms := 3600000 |};
     rp_maximum_concurrency := 1;
     rp_escalation_behavior := "return a typed blocked or rejected decision to the owning parent";
     rp_completion_conditions :=
       ["all required output artifacts are committed at the current workspace version"] |}.

Definition profile_validate (p : CognitiveRoleProfile) : Result string unit :=
  need ((0 <? pr_version (rp_reference p)) && negb (is_blank (pr_id (rp_reference p))))
    "cognitive role profile reference is invalid" ;;
  need (0 <? rp_maximum_concurrency p) "role maximum concurrency must be nonzero" ;;
  need (bool_decide (rp_workspace_write_allowed p = can_write_workspace (rp_role p)))
    "role write authority does not match its host policy" ;;
  need (negb (cx_include_peer_history (rp_context_projection p)))
    "peer history cannot be projected by default" ;;
  budget_validate (rp_budget p).

(** ** Tasks *)

Inductive CognitiveStage :=
| Contract | Planning | Investigating | Execution | Validating | Reviewing | Deciding | Complete.

Inductive CognitiveTaskStatus :=
| Pending | Running | Blocked | Suspended | Completed | Failed | Cancelled.

#[global] Instance CognitiveTaskStatus_eq_dec : EqDecision CognitiveTaskStatus.
Proof. solve_decision. Defined.

Record CognitiveTaskNode := {
  ct_id : string;
  ct_parent_id : option string;
  ct_objective : string;
  ct_role : CognitiveRole;
  ct_stage : CognitiveStage;
  ct_status : CognitiveTaskStatus;
  ct_owner : option ProcessId;
  ct_role_profile : CognitiveRoleProfileRef;
  ct_budget : CognitiveRoleBudget;
  ct_dependencies : list string;
  ct_acceptance_criteria : list string;
  ct_workspace_scope : list string;
  ct_required_artifact_kinds : list CognitiveArtifactKind;
  ct_artifact_refs : list Uuid;
  ct_unresolved_finding_ids : list string;
}.

(** ** Artifacts *)

Record CognitiveTaskContractArtifact := {
  tk_objective : string;
  tk_requirement_refs : list string;
  tk_acceptance_criteria : list string;
  tk_instruction_refs : list string;
  tk_workspace_scope : list string;
}.

Record CognitivePlanArtifactStep := {
  ps_id : string;
  ps_description : string;
  ps_requirement_refs : list string;
  ps_dependencies : list string;
}.

Record CognitivePlanArtifact := {
  pa_steps : list CognitivePlanArtifactStep;
}.

Record CognitiveChangeSetReceipt := {
  cs_transaction_id : string;
  cs_workspace_version : string;
  cs_changed_paths : list string;
  cs_diff_artifact_ref : string;
}.

Record CognitiveValidationRecord := {
  vr_transaction_id : string;
  vr_workspace_version : string;
  vr_validation_receipt_refs : list string;
  vr_passed : bool;
}.

Record ReviewFinding := {
  rf_id : string;
  rf_severity : string;
  rf_summary : string;
  rf_evidence_refs : list string;
  rf_affected_paths : list string;
  rf_resolved : bool;
}.

Record ReviewFindingSet := {
  rv_transaction_id : string;
  rv_workspace_version : string;
  rv_findings : list ReviewFinding;
}.

Inductive StageDecisionKind := Accept | Reject | Replan | Repair | Block.

Record StageDecision := {
  dc_decision : StageDecisionKind;
  dc_reason : string;
  dc_finding_ids : list string;
  dc_evidence_refs : list string;
}.

Record AgoraProjectionReceipt := {
  pt_projection_id : Uuid;
  pt_space : string;
  pt_workspace_version : N;
  pt_task_node_id : string;
  pt_role : CognitiveRole;
  pt_included_artifact_ids : list Uuid;
  pt_omitted_artifact_ids : list Uuid;
}.

Record AgentResultReceipt := {
  ar_role : CognitiveRole;
  ar_operation_id : string;
  ar_terminal_status : string;
  ar_output_ref : option string;
  ar_produced_artifact_refs : list Uuid;
  ar_task_packet_digest : string;
  ar_projection_receipt : AgoraProjectionReceipt;
}.

Inductive ArtifactLifecycle := Proposed | Committed | RejectedArtifact | Superseded.

#[global] Instance ArtifactLifecycle_eq_dec : EqDecision ArtifactLifecycle.
Proof. solve_decision. Defined.

(** ** Checkpoints *)

Inductive ClarificationState := CPending | Answered | CCancelled.

#[global] Instance ClarificationState_eq_dec : EqDecision ClarificationState.
Proof. solve_decision. Defined.

Record CognitiveCheckpoint := {
  ck_workspace_version : N;
  ck_task_contract_artifact_ref : option Uuid;
  ck_outstanding_obligations : list string;
  ck_validation_artifact_refs : list Uuid;
  ck_runtime_receipt_refs : list string;
}.

Record ClarificationRecord := {
  cc_id : Uuid;
  cc_task_node_id : string;
  cc_requested_by : ProcessId;
  cc_question : string;
  cc_choices : list string;
  cc_checkpoint : CognitiveCheckpoint;
  cc_state : ClarificationState;
  cc_response : option string;
  cc_response_event_id : option string;
}.

Inductive CognitiveInterruptionReason :=
| User | DaemonShutdown | ProviderUnavailable | AuthorityRequired | ExternalStateChanged.

Record CognitiveInterruptionRecord := {
  ci_id : Uuid;
  ci_task_node_id : string;
  ci_owner : ProcessId;
  ci_reason : CognitiveInterruptionReason;
  ci_checkpoint : CognitiveCheckpoint;
  ci_resume_event_id : option string;
}.

(** ** Types over JSON and floating-point numbers *)

Section Parametric.
Context {Json F32 F64 : Type}.

Record GroundedFinding := {
  gf_id : string;
  gf_claim : string;
  gf_evidence_refs : list string;
  gf_confidence : F32;
}.

Record InvestigationReport := {
  ir_summary : string;
  ir_findings : list GroundedFinding;
}.

Record CognitiveEvidenceRecord := {
  er_claim : string;
  er_evidence_refs : list string;
  er_confidence : F32;
}.

Inductive CognitiveArtifact :=
| TaskContract (a : CognitiveTaskContractArtifact)
| Plan (a : CognitivePlanArtifact)
| Investigation (a : InvestigationReport)
| ChangeSet (a : CognitiveChangeSetReceipt)
| Validation (a : CognitiveValidationRecord)
| Review (a : ReviewFindingSet)
| EvidenceRecord (a : CognitiveEvidenceRecord)
| Decision_ (a : StageDecision)
| AgentResult (a : AgentResultReceipt).

Definition artifact_kind (a : CognitiveArtifact) : CognitiveArtifactKind :=
  match a with
  | TaskContract _ => KTaskContract
  | Plan _ => KPlan
  | Investigation _ => KInvestigation
  | ChangeSet _ => KChangeSet
  | Validation _ => KValidation
  | Review _ => KReview
  | EvidenceRecord _ => KEvidence
  | Decision_ _ => KDecision
  | AgentResult _ => KAgentResult
  end.

Record CognitiveArtifactEnvelope := {
  ae_id : Uuid;
  ae_space : string;
  ae_task_node_id : string;
  ae_author : ProcessId;
  ae_source_versions : list string;
  ae_evidence_refs : list string;
  ae_confidence : F32;
  ae_lifecycle : ArtifactLifecycle;
  ae_artifact : CognitiveArtifact;
  ae_content_digest : string;
}.

(** [CognitiveArtifactEnvelope::kind] *)
Definition kind (e : CognitiveArtifactEnvelope) : CognitiveArtifactKind := artifact_kind (ae_artifact e).

(** fabric/src/types/evidence.rs *)
Record Evidence := {
  ev_id : string;
  ev_source : string;
  ev_content : string;
  ev_weight : F64;
}.

(** ** Operations, proposals and commits *)

Inductive AgoraOperation :=
| PublishFact (key : string) (value : Json)
| ProposePlan (plan : Json)
| UpdateTask (task_patch : Json)
| EmitObservation (obs : Json)
| AcceptEvidence (evidence : Evidence)
| ClaimSharedObject (oid : string)
| ReleaseSharedObject (oid : string)
| UpdateAttention (focus : option string) (priorities : list string) (selection_ref : string)
| UpsertCognitiveTask (task : CognitiveTaskNode)
| HandoffCognitiveTask (task_node_id : string) (expected_owner new_owner : ProcessId)
    (new_role : CognitiveRole) (role_profile : CognitiveRoleProfileRef) (budget : CognitiveRoleBudget)
    (workspace_scope : list string)
| CommitCognitiveArtifact (artifact : CognitiveArtifactEnvelope)
| RecordStageDecision (task_node_id : string) (decision : StageDecision)
| BlockForClarification (clarification : ClarificationRecord)
| ResolveClarification (clarification_id : Uuid) (response response_event_id : string)
| CheckpointInterruption (interruption : CognitiveInterruptionRecord)
| ResumeInterruption (interruption_id : Uuid) (resume_event_id : string).

Record AgoraProposal := {
  ap_id : Uuid;
  ap_space : string;
  ap_author : ProcessId;
  ap_base_version : N;
  ap_operation : AgoraOperation;
  ap_evidence : list string;
  ap_confidence : F32;
  ap_expires_at_ms : option Z;
}.

Definition is_expired_at (p : AgoraProposal) (now_ms : Z) : bool :=
  match ap_expires_at_ms p with Some deadline => (deadline <=? now_ms)%Z | None => false end.

Record AgoraCommit := {
  ac_id : Uuid;
  ac_space : string;
  ac_author : ProcessId;
  ac_base_version : N;
  ac_version : N;
  ac_operation : AgoraOperation;
  ac_evidence : list string;
  ac_confidence : F32;
  ac_committed_at : Z;
  ac_permit_id : option Uuid;
  ac_operation_hash : string;
  ac_checksum : string;
}.

Inductive RejectReason :=
| RTimeout
| RInvalid (why : string)
| RSuperseded
| RCancelled
| ROther (why : string).

Record WorkspaceCommitPermit := {
  wp_permit_id : Uuid;
  wp_space : string;
  wp_proposal_id : Uuid;
  wp_process : ProcessId;
  wp_operation_hash : string;
  wp_expected_version : N;
  wp_expires_at_ms : Z;
}.

End Parametric.

Arguments GroundedFinding : clear implicits.
Arguments InvestigationReport : clear implicits.
Arguments CognitiveEvidenceRecord : clear implicits.
Arguments CognitiveArtifact : clear implicits.
Arguments CognitiveArtifactEnvelope : clear implicits.
Arguments Evidence : clear implicits.
Arguments AgoraOperation : clear implicits.
Arguments AgoraProposal : clear implicits.
Arguments AgoraCommit : clear implicits.

End Cognitive.

(** What the code uses of [serde_json], of floating-point numbers and of the
    digests of serialized values.  Every digest is a function of the value: the
    serialization of these types cannot fail. *)
Class AgoraEnv (Json F32 F64 : Type) := {
  json_is_null : Json → bool;
  (** [as_object().is_some_and(|o| !o.is_empty())] *)
  json_nonempty_object : Json → bool;
  (** [get(key).and_then(Value::as_str)] *)
  json_str : Json → string → option string;
  (** the entries of an object, in its order *)
  json_object : Json → option (list (string * Json));
  json_of_object : list (string * Json) → Json;
  f32_unit : F32;
  (** [x.is_finite() && (0.0..=1.0).contains(&x)], and the range alone for [f64] *)
  f32_in_range : F32 → bool;
  f64_in_range : F64 → bool;
  (** the contents of trace entries built with [json!] *)
  evidence_entry : Cognitive.Evidence F64 → Json;
  rejection_entry : Cognitive.AgoraProposal Json F32 F64 → Cognitive.RejectReason → Json;
  decision_entry : string → ProcessId → Cognitive.StageDecision → Json;
  (** SHA-256 digests, in hexadecimal *)
  artifact_digest : Cognitive.CognitiveArtifact F32 → string;
  operation_hash : Cognitive.AgoraOperation Json F32 F64 → string;
  commit_checksum : Uuid → string → ProcessId → N → N → string → list string → F32 → option Uuid → Z → string;
  (** [serde_json::to_vec] of a commit *)
  commit_bytes : Cognitive.AgoraCommit Json F32 F64 → string;
}.

Module CognitiveOps.
Import Cognitive.

Section Ops.
Context `{HEnv : Env} {Json F32 F64 : Type} `{HAgora : AgoraEnv Json F32 F64}.

Abbreviation Envelope := (CognitiveArtifactEnvelope F32).
Abbreviation Operation := (AgoraOperation Json F32 F64).
Abbreviation Proposal := (AgoraProposal Json F32 F64).
Abbreviation Commit := (AgoraCommit Json F32 F64).

(** [CognitiveArtifactEnvelope::validate] *)
Definition envelope_validate (e : Envelope) : Result string unit :=
  need (bool_decide (ae_content_digest e = artifact_digest (ae_artifact e)))
    "cognitive artifact digest mismatch" ;;
  need (f32_in_range (ae_confidence e)) "cognitive artifact confidence is invalid" ;;
  need (negb (is_blank (ae_task_node_id e))) "cognitive artifact task node is empty".

(** [CognitiveArtifactEnvelope::proposed], with the identifier it draws. *)
Definition proposed (id : Uuid) (space task_node_id : string) (author : ProcessId)
    (source_versions evidence_refs : list string) (confidence : F32) (a : CognitiveArtifact F32) : Envelope :=
  {| ae_id := id; ae_space := space; ae_task_node_id := task_node_id; ae_author := author;
     ae_source_versions := source_versions; ae_evidence_refs := evidence_refs;
     ae_confidence := confidence; ae_lifecycle := Proposed; ae_artifact := a;
     ae_content_digest := artifact_digest a |}.

(** [AgoraCommit::from_proposal] *)
Definition from_proposal (p : Proposal) (version : N) (committed_at : Z) (permit_id : option Uuid) : Commit :=
  let hash := operation_hash (ap_operation p) in
  {| ac_id := ap_id p; ac_space := ap_space p; ac_author := ap_author p;
     ac_base_version := ap_base_version p; ac_version := version; ac_operation := ap_operation p;
     ac_evidence := ap_evidence p; ac_confidence := ap_confidence p; ac_committed_at := committed_at;
     ac_permit_id := permit_id; ac_operation_hash := hash;
     ac_checksum := commit_checksum (ap_id p) (ap_space p) (ap_author p) (ap_base_version p) version hash
                      (ap_evidence p) (ap_confidence p) permit_id committed_at |}.

Definition validate_integrity (c : Commit) : Result string unit :=
  need (bool_decide (ac_version c = ac_base_version c + 1)) "workspace commit version is not contiguous" ;;
  need (bool_decide (ac_operation_hash c = operation_hash (ac_operation c)))
    "workspace commit operation hash mismatch" ;;
  need (bool_decide (ac_checksum c
          = commit_checksum (ac_id c) (ac_space c) (ac_author c) (ac_base_version c) (ac_version c)
              (ac_operation_hash c) (ac_evidence c) (ac_confidence c) (ac_permit_id c) (ac_committed_at c)))
    "workspace commit checksum mismatch".

(** [WorkspaceCommitPermit::issue_for], with the identifier it draws. *)
Definition issue_for (permit_id : Uuid) (p : Proposal) (expires_at_ms : Z) : WorkspaceCommitPermit :=
  {| wp_permit_id := permit_id; wp_space := ap_space p; wp_proposal_id := ap_id p;
     wp_process := ap_author p; wp_operation_hash := operation_hash (ap_operation p);
     wp_expected_version := ap_base_version p; wp_expires_at_ms := expires_at_ms |}.

(** [WorkspaceCommitPermit::validate_for] *)
Definition validate_for (w : WorkspaceCommitPermit) (p : Proposal) (now_ms : Z) : Result string unit :=
  need (bool_decide (wp_space w = ap_space p)) "commit permit space mismatch" ;;
  need (bool_decide (wp_proposal_id w = ap_id p)) "commit permit proposal mismatch" ;;
  need (bool_decide (wp_process w = ap_author p)) "commit permit process mismatch" ;;
  need (bool_decide (wp_operation_hash w = operation_hash (ap_operation p)))
    "commit permit operation mismatch" ;;
  need (bool_decide (wp_expected_version w = ap_base_version p)) "commit permit version mismatch" ;;
  need (now_ms <? wp_expires_at_ms w)%Z "commit permit expired".

End Ops.
End CognitiveOps.
