(* ===== verification/TaskGraph.v ===== *)
(** * The parts of a workspace (crates/agora)

    The task graph (task_graph/mod.rs), the blackboard (blackboard/mod.rs), the
    attention (attention/mod.rs), the audit trace (trace/mod.rs) and the
    scratchpad (scratchpad/mod.rs), with the properties of each. *)
From S2P Require Import Prelude FabricTypes StdModel Fallible AgoraTypes.
Import Cognitive.

#[local] Open Scope N_scope.

(** ** The task graph *)

Module TaskGraph.

Inductive TaskStatus := TPending | TRunning | TDone | TFailed.

#[global] Instance TaskStatus_eq_dec : EqDecision TaskStatus.
Proof. solve_decision. Defined.

Inductive TaskTransitionError :=
| TaskNotFound (id : string)
| DependenciesNotDone (id : string) (dependencies : list string)
| InvalidTransition (id : string) (from to : TaskStatus).

Definition debug_status (s : TaskStatus) : string :=
  match s with TPending => "Pending" | TRunning => "Running" | TDone => "Done" | TFailed => "Failed" end.

(** The [Display] of the error. *)
Definition error_to_string (e : TaskTransitionError) : string :=
  match e with
  | TaskNotFound id => "task '" +:+ id +:+ "' was not found"
  | DependenciesNotDone id deps =>
      "task '" +:+ id +:+ "' cannot run until dependencies are done: " +:+ String.concat ", " deps
  | InvalidTransition id from to =>
      "task '" +:+ id +:+ "' cannot transition from " +:+ debug_status from +:+ " to " +:+ debug_status to
  end.

Record TaskNode := {
  tn_id : string;
  tn_description : string;
  tn_status : TaskStatus;
  tn_deps : list string;
}.

Record TaskGraph := {
  tg_nodes : gmap string TaskNode;
  tg_cognitive : gmap string CognitiveTaskNode;
}.

Definition new : TaskGraph := {| tg_nodes := ∅; tg_cognitive := ∅ |}.

Definition with_nodes (f : gmap string TaskNode → gmap string TaskNode) (g : TaskGraph) : TaskGraph :=
  {| tg_nodes := f (tg_nodes g); tg_cognitive := tg_cognitive g |}.

Definition with_cognitive (f : gmap string CognitiveTaskNode → gmap string CognitiveTaskNode)
    (g : TaskGraph) : TaskGraph :=
  {| tg_nodes := tg_nodes g; tg_cognitive := f (tg_cognitive g) |}.

Definition add (id description : string) (deps : list string) : TaskGraph → TaskGraph :=
  with_nodes <[id := {| tn_id := id; tn_description := description; tn_status := TPending;
                        tn_deps := deps |}]>.

(** A dependency that is not there or not done. *)
Definition unmet (g : TaskGraph) (dependency : string) : Prop :=
  match tg_nodes g !! dependency with Some node => tn_status node ≠ TDone | None => True end.

#[global] Instance unmet_dec g d : Decision (unmet g d).
Proof. unfold unmet. destruct (tg_nodes g !! d); apply _. Defined.

Definition legal (current status : TaskStatus) : bool :=
  match current, status with
  | TPending, (TRunning | TDone | TFailed) => true
  | TRunning, (TDone | TFailed) => true
  | _, _ => false
  end.

Definition validate_transition (g : TaskGraph) (id : string) (status : TaskStatus)
    : Result TaskTransitionError unit :=
  node ← some_or (tg_nodes g !! id) (TaskNotFound id);
  let current := tn_status node in
  if decide (current = status) then Ok tt
  else
    need (legal current status) (InvalidTransition id current status) ;;
    if decide (status = TRunning) then
      let dependencies := dedup (sort_by String.le (filter (unmet g) (tn_deps node))) in
      need (bool_decide (dependencies = [])) (DependenciesNotDone id dependencies)
    else Ok tt.

Definition set_node_status (id : string) (status : TaskStatus) : TaskGraph → TaskGraph :=
  with_nodes (alter (λ node, {| tn_id := tn_id node; tn_description := tn_description node;
                                tn_status := status; tn_deps := tn_deps node |}) id).

Definition transition (g : TaskGraph) (id : string) (status : TaskStatus)
    : Result TaskTransitionError TaskGraph :=
  validate_transition g id status ;;
  _ ← must (tg_nodes g !! id);
  Ok (set_node_status id status g).

(** [set_status]: the graph it leaves and whether the transition was taken. *)
Definition set_status (g : TaskGraph) (id : string) (status : TaskStatus) : bool * TaskGraph :=
  match transition g id status with Ok g' => (true, g') | _ => (false, g) end.

Definition get (g : TaskGraph) (id : string) : option TaskNode := tg_nodes g !! id.

(** [.map(|dn| dn.status == Done).unwrap_or(false)] *)
Definition met (g : TaskGraph) (dependency : string) : Prop :=
  match tg_nodes g !! dependency with Some dn => tn_status dn = TDone | None => False end.

#[global] Instance met_dec g d : Decision (met g d).
Proof. unfold met. destruct (tg_nodes g !! d); apply _. Defined.

(** The order of the result is that of a hash map: one of them. *)
Definition ready (g : TaskGraph) : list TaskNode :=
  filter (λ n, tn_status n = TPending ∧ Forall (met g) (tn_deps n)) (map_to_list (tg_nodes g)).*2.

Definition len (g : TaskGraph) : N := N.of_nat (size (tg_nodes g)).

Definition is_empty (g : TaskGraph) : bool :=
  bool_decide (tg_nodes g = ∅) && bool_decide (tg_cognitive g = ∅).

Definition upsert_cognitive (task : CognitiveTaskNode) : TaskGraph → TaskGraph :=
  with_cognitive <[ct_id task := task]>.

Definition cognitive (g : TaskGraph) (id : string) : option CognitiveTaskNode := tg_cognitive g !! id.

(** A change through [cognitive_mut]; where there is no such task, the callers
    panic. *)
Definition cognitive_mut (g : TaskGraph) (id : string) (f : CognitiveTaskNode → CognitiveTaskNode)
    : Result string TaskGraph :=
  task ← must (cognitive g id);
  Ok (with_cognitive <[id := f task]> g).

Definition with_artifact_refs (f : list Uuid → list Uuid) (t : CognitiveTaskNode) : CognitiveTaskNode :=
  {| ct_id := ct_id t; ct_parent_id := ct_parent_id t; ct_objective := ct_objective t; ct_role := ct_role t;
     ct_stage := ct_stage t; ct_status := ct_status t; ct_owner := ct_owner t;
     ct_role_profile := ct_role_profile t; ct_budget := ct_budget t; ct_dependencies := ct_dependencies t;
     ct_acceptance_criteria := ct_acceptance_criteria t; ct_workspace_scope := ct_workspace_scope t;
     ct_required_artifact_kinds := ct_required_artifact_kinds t; ct_artifact_refs := f (ct_artifact_refs t);
     ct_unresolved_finding_ids := ct_unresolved_finding_ids t |}.

Definition attach_artifact (id : string) (artifact_id : Uuid) (g : TaskGraph) : bool * TaskGraph :=
  match cognitive g id with
  | None => (false, g)
  | Some task =>
      (true, with_cognitive <[id := with_artifact_refs
               (λ refs, if decide (artifact_id ∈ refs) then refs else refs ++ [artifact_id]) task]> g)
  end.

Definition cognitive_len (g : TaskGraph) : N := N.of_nat (size (tg_cognitive g)).

Definition node_le (a b : CognitiveTaskNode) : Prop := String.le (ct_id a) (ct_id b).

#[global] Instance node_le_dec : RelDecision node_le.
Proof. intros a b. unfold node_le. apply _. Defined.

(** [cognitive_nodes]: sorted by id. *)
Definition cognitive_nodes (g : TaskGraph) : list CognitiveTaskNode :=
  sort_by node_le (map_to_list (tg_cognitive g)).*2.

(** *** Properties *)

Lemma unmet_list_nil g l :
  dedup (sort_by String.le (filter (unmet g) l)) = [] ↔ Forall (λ d, ¬ unmet g d) l.
Proof.
  rewrite Forall_forall. split.
  - intros Hn d Hd Hu. apply (elem_of_nil d). rewrite <-Hn, elem_of_dedup, sort_by_perm. by apply list_elem_of_filter.
  - intros Hall. destruct (dedup _) as [|d r] eqn:Hr; [done|].
    assert (d ∈ dedup (sort_by String.le (filter (unmet g) l))) as Hd by (rewrite Hr; constructor).
    rewrite elem_of_dedup, sort_by_perm in Hd. apply list_elem_of_filter in Hd as [? ?]. naive_solver.
Qed.

(** When a transition is allowed: the task is there, and the status stays or
    moves forward, to running only once every dependency is done. *)
Lemma validate_transition_ok g id status :
  validate_transition g id status = Ok tt
  ↔ ∃ node, tg_nodes g !! id = Some node
    ∧ (tn_status node = status
       ∨ legal (tn_status node) status = true
         ∧ (status = TRunning → Forall (λ d, ¬ unmet g d) (tn_deps node))).
Proof.
  unfold validate_transition. rewrite bind_ok. setoid_rewrite some_or_ok. split.
  - intros (node & Hn & H). exists node. split; [done|]. case_decide as Hs; [by left|right].
    inv_ok H. case_decide; inv_ok H; [|done]. split; [done|]. intros _.
    by apply bool_decide_eq_true, unmet_list_nil in H.
  - intros (node & Hn & H). exists node. split; [done|]. case_decide as Hs; [done|].
    destruct H as [?|[Hl Hd]]; [done|]. rewrite Hl. cbn. case_decide as Hr; [|done].
    rewrite bool_decide_true; [done|]. apply unmet_list_nil. auto.
Qed.

(** Ready tasks are those that may start. *)
Lemma ready_may_run g n :
  tg_nodes g !! tn_id n = Some n →
  n ∈ ready g ↔ tn_status n = TPending ∧ validate_transition g (tn_id n) TRunning = Ok tt.
Proof.
  intros Hn. unfold ready. rewrite list_elem_of_filter, validate_transition_ok.
  assert (∀ d, met g d ↔ ¬ unmet g d) as Hun.
  { intros d. unfold met, unmet. destruct (tg_nodes g !! d); [|tauto]. split; [tauto|]. intros. by apply dec_stable. }
  split.
  - intros [[Hp Hf] _]. split; [done|]. exists n. split; [done|]. right. rewrite Hp. split; [done|]. intros _.
    eapply Forall_impl; [done|]. intros d. apply Hun.
  - intros [Hp (n' & Hn' & H)]. assert (n' = n) as -> by congruence. split.
    + split; [done|]. destruct H as [H|[_ H]]; [congruence|]. eapply Forall_impl; [by apply H|]. intros d. apply Hun.
    + apply list_elem_of_fmap. exists (tn_id n, n). split; [done|]. by apply elem_of_map_to_list.
Qed.

#[global] Instance node_le_trans : Transitive node_le.
Proof. intros a b c. unfold node_le. apply transitivity. Qed.
#[global] Instance node_le_total : Total node_le.
Proof. intros a b. unfold node_le. apply total, _. Qed.

Lemma elem_of_cognitive_nodes g t :
  t ∈ cognitive_nodes g ↔ ∃ id, tg_cognitive g !! id = Some t.
Proof.
  unfold cognitive_nodes. rewrite sort_by_perm, list_elem_of_fmap. split.
  - intros ([id t'] & -> & H). exists id. by apply elem_of_map_to_list in H.
  - intros [id H]. exists (id, t). split; [done|]. by apply elem_of_map_to_list.
Qed.

End TaskGraph.

(** ** The blackboard *)

Module Blackboard.
Section Model.
Context {Json F32 F64 : Type} `{HAgora : AgoraEnv Json F32 F64}.

Definition Blackboard := gmap string Json.

Definition new : Blackboard := ∅.

Definition set (key : string) (value : Json) (b : Blackboard) : Blackboard := <[key := value]> b.

Definition get (b : Blackboard) (key : string) : option Json := b !! key.

Definition remove (key : string) (b : Blackboard) : option Json * Blackboard := (b !! key, delete key b).

(** The entries of the patch in its order: a later one overwrites. *)
Definition merge (patch : Json) (b : Blackboard) : Blackboard :=
  match json_object patch with
  | Some entries => foldl (λ b e, <[e.1 := e.2]> b) b entries
  | None => b
  end.

Definition entry_le (a b : string * Json) : Prop := String.le a.1 b.1.

#[global] Instance entry_le_dec : RelDecision entry_le.
Proof. intros a b. unfold entry_le. apply _. Defined.

Definition to_json (b : Blackboard) : Json := json_of_object (sort_by entry_le (map_to_list b)).

Definition clear (b : Blackboard) : Blackboard := ∅.

Definition len (b : Blackboard) : N := N.of_nat (size b).

(** A merged patch wins over what was there, and leaves the rest. *)
Lemma merge_lookup patch entries b key :
  json_object patch = Some entries → NoDup entries.*1 →
  merge patch b !! key = match (list_to_map entries : gmap string Json) !! key with
                         | Some v => Some v
                         | None => b !! key
                         end.
Proof.
  intros Hp. unfold merge. rewrite Hp. clear Hp. revert b.
  induction entries as [|[k v] r IH]; intros b; cbn; [done|]. intros [Hk Hnd]%NoDup_cons.
  rewrite IH by done. destruct (decide (k = key)) as [->|Hne].
  - rewrite not_elem_of_list_to_map_1, lookup_insert_eq by done. apply lookup_insert_eq.
  - rewrite lookup_insert_ne by done. destruct (list_to_map r !! key); [done|by apply lookup_insert_ne].
Qed.

End Model.
End Blackboard.

(** ** Attention *)

Module Attention.

Record Attention := {
  at_focus : option string;
  at_priorities : list string;
}.

Definition new : Attention := {| at_focus := None; at_priorities := [] |}.

Definition set_focus (focus : string) (a : Attention) : Attention :=
  {| at_focus := Some focus; at_priorities := focus :: filter (λ p, p ≠ focus) (at_priorities a) |}.

Definition clear_focus (a : Attention) : Attention :=
  {| at_focus := None; at_priorities := at_priorities a |}.

(** Focusing brings a focus to the front, keeps the others in order and repeats
    none. *)
Lemma set_focus_ranked focus a :
  NoDup (at_priorities a) →
  NoDup (at_priorities (set_focus focus a))
  ∧ head (at_priorities (set_focus focus a)) = at_focus (set_focus focus a)
  ∧ ∀ p, p ∈ at_priorities (set_focus focus a) ↔ p = focus ∨ p ∈ at_priorities a.
Proof.
  intros Hnd. split_and!; [|done|].
  - constructor; [by rewrite list_elem_of_filter; intros []|]. by apply NoDup_filter.
  - intros p. cbn. rewrite elem_of_cons, list_elem_of_filter. destruct (decide (p = focus)); naive_solver.
Qed.

End Attention.

(** ** The audit trace *)

Module Trace.
Section Model.
Context {Json : Type}.

Record TraceEntry := {
  te_kind : string;
  te_content : Json;
  te_authoritative : bool;
  te_sensitive : bool;
}.

Definition Trace := list TraceEntry.

Definition accepted_kind (kind : string) : bool :=
  bool_decide (kind ∈ ["proposal_rejected"; "evidence"; "candidate_admitted"; "selection"; "broadcast"]).

Definition push (kind : string) (content : Json) (t : Trace) : bool * Trace :=
  if accepted_kind kind
  then (true, t ++ [{| te_kind := kind; te_content := content; te_authoritative := false;
                       te_sensitive := true |}])
  else (false, t).

(** Whatever is pushed, an entry is never an authority and always sensitive. *)
Definition diagnostic (t : Trace) : Prop :=
  Forall (λ e, accepted_kind (te_kind e) = true ∧ te_authoritative e = false ∧ te_sensitive e = true) t.

Lemma push_diagnostic kind content t : diagnostic t → diagnostic (push kind content t).2.
Proof.
  intros Ht. unfold push. destruct (accepted_kind kind) eqn:Hk; [|done]. by apply Forall_app_2, Forall_singleton.
Qed.

End Model.
Arguments TraceEntry : clear implicits.
End Trace.

(** ** The scratchpad *)

Module Scratchpad.

Inductive RetentionPolicy := Discard | ArchiveToAgent | ArchiveToSession.

Record ScratchpadEntry := {
  pe_key : string;
  pe_value : string;
}.

Record Scratchpad := {
  sp_agent_id : string;
  sp_task_id : string;
  sp_entries : list ScratchpadEntry;
  sp_retention : RetentionPolicy;
}.

Definition new (agent_id task_id : string) (retention : RetentionPolicy) : Scratchpad :=
  {| sp_agent_id := agent_id; sp_task_id := task_id; sp_entries := []; sp_retention := retention |}.

Definition with_entries (entries : list ScratchpadEntry) (s : Scratchpad) : Scratchpad :=
  {| sp_agent_id := sp_agent_id s; sp_task_id := sp_task_id s; sp_entries := entries;
     sp_retention := sp_retention s |}.

(** The first entry with the key is overwritten; without one an entry is added. *)
Fixpoint set_entry (key value : string) (l : list ScratchpadEntry) : list ScratchpadEntry :=
  match l with
  | [] => [{| pe_key := key; pe_value := value |}]
  | e :: r => if decide (pe_key e = key) then {| pe_key := key; pe_value := value |} :: r
              else e :: set_entry key value r
  end.

Definition set (key value : string) (s : Scratchpad) : Scratchpad :=
  with_entries (set_entry key value (sp_entries s)) s.

Definition get (s : Scratchpad) (key : string) : option string :=
  pe_value <$> find (λ e, bool_decide (pe_key e = key)) (sp_entries s).

Definition remove (key : string) (s : Scratchpad) : bool * Scratchpad :=
  let kept := filter (λ e, pe_key e ≠ key) (sp_entries s) in
  (bool_decide (length kept < length (sp_entries s))%nat, with_entries kept s).

Definition clear (s : Scratchpad) : Scratchpad := with_entries [] s.

Definition is_empty (s : Scratchpad) : bool := bool_decide (sp_entries s = []).

Definition format_entries (s : Scratchpad) : string :=
  String.concat (String (Ascii.ascii_of_nat 10) "")
    (map (λ e, "[" +:+ pe_key e +:+ "]: " +:+ pe_value e) (sp_entries s)).

(** Reading back what was set, and removed. *)
Lemma get_set key value s k :
  get (set key value s) k = if decide (k = key) then Some value else get s k.
Proof.
  unfold get, set. cbn. induction (sp_entries s) as [|e r IH]; cbn.
  { case_bool_decide; case_decide; first [done|congruence]. }
  destruct (decide (pe_key e = key)) as [He|He]; cbn.
  - subst key. destruct (decide (k = pe_key e)) as [->|]; [by rewrite bool_decide_true|].
    by rewrite bool_decide_false by congruence.
  - case_bool_decide as Hk; [by rewrite decide_False by congruence|]. exact IH.
Qed.

Lemma get_remove key s k :
  get (remove key s).2 k = if decide (k = key) then None else get s k.
Proof.
  unfold get, remove. cbn. induction (sp_entries s) as [|e r IH]; [by cbn; case_decide|].
  rewrite filter_cons. destruct (decide (pe_key e ≠ key)) as [He|He]; cbn.
  - case_bool_decide as Hk; [by rewrite decide_False by congruence|]. exact IH.
  - rewrite IH. apply dec_stable in He. case_decide; [done|]. by rewrite bool_decide_false by congruence.
Qed.

End Scratchpad.
