(* ===== verification/Workspace.v ===== *)
(** * The workspace (crates/agora/src/workspace/mod.rs)

    One session's cognitive workspace: proposals checked against the version,
    their validation and application operation by operation, commits and their
    replay.  A [&self] method is a function of the workspace; a [&mut self] method
    is a step on it. *)
From S2P Require Import Prelude FabricTypes StdModel Fallible AgoraTypes TaskGraph.
Import Cognitive CognitiveOps.

#[local] Open Scope N_scope.

Module Workspace.
Section Model.
Context `{HEnv : Env} {Json F32 F64 : Type} `{HAgora : AgoraEnv Json F32 F64}.

Abbreviation Envelope := (CognitiveArtifactEnvelope F32).
Abbreviation Operation := (AgoraOperation Json F32 F64).
Abbreviation Proposal := (AgoraProposal Json F32 F64).
Abbreviation Commit := (AgoraCommit Json F32 F64).

Record Workspace := {
  ws_session_id : string;
  ws_blackboard : gmap string Json;
  ws_attention : Attention.Attention;
  ws_task_graph : TaskGraph.TaskGraph;
  ws_trace : list (Trace.TraceEntry Json);
  ws_version : N;
  ws_commits : list Commit;
  ws_proposals : gmap Uuid Proposal;
  ws_claims : gmap string ProcessId;
  ws_artifacts : gmap Uuid Envelope;
  ws_clarifications : gmap Uuid ClarificationRecord;
  ws_interruptions : gmap Uuid CognitiveInterruptionRecord;
}.

Definition new (session_id : string) : Workspace :=
  {| ws_session_id := session_id; ws_blackboard := Blackboard.new; ws_attention := Attention.new;
     ws_task_graph := TaskGraph.new; ws_trace := []; ws_version := 0; ws_commits := [];
     ws_proposals := ∅; ws_claims := ∅; ws_artifacts := ∅; ws_clarifications := ∅;
     ws_interruptions := ∅ |}.

(** ** Field updates *)

Definition set_blackboard b (w : Workspace) : Workspace :=
  {| ws_session_id := ws_session_id w; ws_blackboard := b; ws_attention := ws_attention w;
     ws_task_graph := ws_task_graph w; ws_trace := ws_trace w; ws_version := ws_version w;
     ws_commits := ws_commits w; ws_proposals := ws_proposals w; ws_claims := ws_claims w;
     ws_artifacts := ws_artifacts w; ws_clarifications := ws_clarifications w;
     ws_interruptions := ws_interruptions w |}.

Definition set_attention a (w : Workspace) : Workspace :=
  {| ws_session_id := ws_session_id w; ws_blackboard := ws_blackboard w; ws_attention := a;
     ws_task_graph := ws_task_graph w; ws_trace := ws_trace w; ws_version := ws_version w;
     ws_commits := ws_commits w; ws_proposals := ws_proposals w; ws_claims := ws_claims w;
     ws_artifacts := ws_artifacts w; ws_clarifications := ws_clarifications w;
     ws_interruptions := ws_interruptions w |}.

Definition set_task_graph g (w : Workspace) : Workspace :=
  {| ws_session_id := ws_session_id w; ws_blackboard := ws_blackboard w; ws_attention := ws_attention w;
     ws_task_graph := g; ws_trace := ws_trace w; ws_version := ws_version w;
     ws_commits := ws_commits w; ws_proposals := ws_proposals w; ws_claims := ws_claims w;
     ws_artifacts := ws_artifacts w; ws_clarifications := ws_clarifications w;
     ws_interruptions := ws_interruptions w |}.

Definition set_trace t (w : Workspace) : Workspace :=
  {| ws_session_id := ws_session_id w; ws_blackboard := ws_blackboard w; ws_attention := ws_attention w;
     ws_task_graph := ws_task_graph w; ws_trace := t; ws_version := ws_version w;
     ws_commits := ws_commits w; ws_proposals := ws_proposals w; ws_claims := ws_claims w;
     ws_artifacts := ws_artifacts w; ws_clarifications := ws_clarifications w;
     ws_interruptions := ws_interruptions w |}.

Definition set_history v cs (w : Workspace) : Workspace :=
  {| ws_session_id := ws_session_id w; ws_blackboard := ws_blackboard w; ws_attention := ws_attention w;
     ws_task_graph := ws_task_graph w; ws_trace := ws_trace w; ws_version := v;
     ws_commits := cs; ws_proposals := ws_proposals w; ws_claims := ws_claims w;
     ws_artifacts := ws_artifacts w; ws_clarifications := ws_clarifications w;
     ws_interruptions := ws_interruptions w |}.

Definition set_proposals f (w : Workspace) : Workspace :=
  {| ws_session_id := ws_session_id w; ws_blackboard := ws_blackboard w; ws_attention := ws_attention w;
     ws_task_graph := ws_task_graph w; ws_trace := ws_trace w; ws_version := ws_version w;
     ws_commits := ws_commits w; ws_proposals := f (ws_proposals w); ws_claims := ws_claims w;
     ws_artifacts := ws_artifacts w; ws_clarifications := ws_clarifications w;
     ws_interruptions := ws_interruptions w |}.

Definition set_claims f (w : Workspace) : Workspace :=
  {| ws_session_id := ws_session_id w; ws_blackboard := ws_blackboard w; ws_attention := ws_attention w;
     ws_task_graph := ws_task_graph w; ws_trace := ws_trace w; ws_version := ws_version w;
     ws_commits := ws_commits w; ws_proposals := ws_proposals w; ws_claims := f (ws_claims w);
     ws_artifacts := ws_artifacts w; ws_clarifications := ws_clarifications w;
     ws_interruptions := ws_interruptions w |}.

Definition set_artifacts f (w : Workspace) : Workspace :=
  {| ws_session_id := ws_session_id w; ws_blackboard := ws_blackboard w; ws_attention := ws_attention w;
     ws_task_graph := ws_task_graph w; ws_trace := ws_trace w; ws_version := ws_version w;
     ws_commits := ws_commits w; ws_proposals := ws_proposals w; ws_claims := ws_claims w;
     ws_artifacts := f (ws_artifacts w); ws_clarifications := ws_clarifications w;
     ws_interruptions := ws_interruptions w |}.

Definition set_clarifications f (w : Workspace) : Workspace :=
  {| ws_session_id := ws_session_id w; ws_blackboard := ws_blackboard w; ws_attention := ws_attention w;
     ws_task_graph := ws_task_graph w; ws_trace := ws_trace w; ws_version := ws_version w;
     ws_commits := ws_commits w; ws_proposals := ws_proposals w; ws_claims := ws_claims w;
     ws_artifacts := ws_artifacts w; ws_clarifications := f (ws_clarifications w);
     ws_interruptions := ws_interruptions w |}.

Definition set_interruptions f (w : Workspace) : Workspace :=
  {| ws_session_id := ws_session_id w; ws_blackboard := ws_blackboard w; ws_attention := ws_attention w;
     ws_task_graph := ws_task_graph w; ws_trace := ws_trace w; ws_version := ws_version w;
     ws_commits := ws_commits w; ws_proposals := ws_proposals w; ws_claims := ws_claims w;
     ws_artifacts := ws_artifacts w; ws_clarifications := ws_clarifications w;
     ws_interruptions := f (ws_interruptions w) |}.

(** ** Scopes and statuses *)

Definition valid_scope (scope : string) : bool :=
  negb (is_blank scope) && (String.length scope <=? 4096)%nat
  && negb (bool_decide (ParentDir ∈ components scope)).

Definition scopes_overlap (left right : list string) : bool :=
  existsb (λ l, existsb (λ r, path_starts_with l r || path_starts_with r l) right) left.

Definition valid_cognitive_status_transition (current next : CognitiveTaskStatus) : bool :=
  bool_decide (current = next)
  || match current, next with
     | Pending, (Running | Blocked | Suspended | Cancelled) => true
     | Running, (Blocked | Suspended | Completed | Failed | Cancelled) => true
     | (Blocked | Suspended), (Running | Failed | Cancelled) => true
     | _, _ => false
     end.

Definition parse_task_status (status : string) : Result string TaskGraph.TaskStatus :=
  if decide (status = "pending") then Ok TaskGraph.TPending
  else if decide (status = "running") then Ok TaskGraph.TRunning
  else if decide (status = "done") then Ok TaskGraph.TDone
  else if decide (status = "failed") then Ok TaskGraph.TFailed
  else Err ("unknown task status " +:+ status).

(** [matches!(status, Pending | Running)] *)
Definition active (s : CognitiveTaskStatus) : bool :=
  match s with Pending | Running => true | _ => false end.

(** The check of one active task in [ensure_disjoint_active_write_scope]. *)
Definition disjoint_from (candidate : CognitiveTaskNode) (excluding : option string)
    (other : CognitiveTaskNode) : Result string unit :=
  if bool_decide (excluding = Some (ct_id other)) || negb (can_write_workspace (ct_role other))
     || negb (active (ct_status other))
  then Ok tt
  else need (negb (scopes_overlap (ct_workspace_scope candidate) (ct_workspace_scope other)))
         ("parallel write scope overlaps active task " +:+ ct_id other).

Definition ensure_disjoint_active_write_scope (w : Workspace) (candidate : CognitiveTaskNode)
    (excluding : option string) : Result string unit :=
  if negb (can_write_workspace (ct_role candidate)) || negb (active (ct_status candidate)) then Ok tt
  else each (TaskGraph.cognitive_nodes (ws_task_graph w)) (disjoint_from candidate excluding).

(** ** Validation, operation by operation *)

Definition validate_update_task (w : Workspace) (task_patch : Json) : Result string unit :=
  id ← some_or (i ← json_str task_patch "id"; if decide (i = "") then None else Some i)
         "task update requires an id";
  status ← some_or (json_str task_patch "status") "task update requires a status";
  desired ← parse_task_status status;
  current ← some_or (TaskGraph.get (ws_task_graph w) id) ("task " +:+ id +:+ " does not exist");
  need (negb (bool_decide (TaskGraph.tn_status current = desired))) "task update is a no-op" ;;
  match TaskGraph.validate_transition (ws_task_graph w) id desired with
  | Ok _ => Ok tt
  | Err e => Err (TaskGraph.error_to_string e)
  | Panic => Panic
  end.

(** The loop over the priorities, with the ones seen so far. *)
Fixpoint validate_priorities (seen : gset string) (priorities : list string) : Result string unit :=
  match priorities with
  | [] => Ok tt
  | priority :: rest =>
      need (negb (is_blank priority) && (String.length priority <=? 256)%nat)
        "attention priority is invalid" ;;
      need (negb (bool_decide (priority ∈ seen))) "attention priorities contain duplicates" ;;
      validate_priorities ({[priority]} ∪ seen) rest
  end.

Definition validate_attention (focus : option string) (priorities : list string) (selection_ref : string)
    : Result string unit :=
  need (negb (is_blank selection_ref) && (String.length selection_ref <=? 512)%nat)
    "attention selection reference is invalid" ;;
  need (length priorities <=? 32)%nat "attention priorities exceed limit" ;;
  validate_priorities ∅ priorities ;;
  match focus with
  | Some focus => need (bool_decide (head priorities = Some focus)) "attention focus must be the first priority"
  | None => need (bool_decide (priorities = [])) "attention priorities require a focus"
  end.

(** What a task needs whether it is new or not. *)
Definition validate_task_contract (w : Workspace) (task : CognitiveTaskNode) : Result string unit :=
  need (negb (is_blank (ct_id task))) "cognitive task id is empty" ;;
  need (negb (is_blank (ct_objective task))) "cognitive task objective is empty" ;;
  need (negb (bool_decide (ct_id task ∈ ct_dependencies task))) "cognitive task cannot depend on itself" ;;
  let profile := canonical (ct_role task) in
  profile_validate profile ;;
  need (bool_decide (ct_role_profile task = rp_reference profile))
    "task role profile does not match the host role contract" ;;
  budget_validate (ct_budget task) ;;
  need (fits_within (ct_budget task) (rp_budget profile)) "task budget exceeds its role profile" ;;
  (if can_write_workspace (ct_role task) then
     need (negb (bool_decide (ct_workspace_scope task = [])) && forallb valid_scope (ct_workspace_scope task))
       "write-capable task requires a valid bounded workspace scope"
   else Ok tt) ;;
  match ct_parent_id task with
  | Some parent_id =>
      parent ← some_or (TaskGraph.cognitive (ws_task_graph w) parent_id) "cognitive task parent does not exist";
      need (fits_within (ct_budget task) (ct_budget parent)) "child task budget exceeds its parent budget"
  | None => Ok tt
  end.

(** The replacement of a task by its owner. *)
Definition validate_replacement (existing task : CognitiveTaskNode) (author : ProcessId)
    : Result string unit :=
  need (bool_decide (ct_owner existing = Some author)) "only the current task owner may replace it" ;;
  need (bool_decide (ct_owner task = ct_owner existing))
    "task ownership requires an explicit handoff operation" ;;
  need (bool_decide (ct_role task = ct_role existing ∧ ct_role_profile task = ct_role_profile existing
                     ∧ ct_budget task = ct_budget existing
                     ∧ ct_workspace_scope task = ct_workspace_scope existing))
    "task role authority requires an explicit handoff operation" ;;
  need (bool_decide (ct_objective task = ct_objective existing
                     ∧ ct_dependencies task = ct_dependencies existing
                     ∧ ct_acceptance_criteria task = ct_acceptance_criteria existing
                     ∧ ct_required_artifact_kinds task = ct_required_artifact_kinds existing))
    "task contract metadata is immutable after creation" ;;
  need (bool_decide (ct_artifact_refs task = ct_artifact_refs existing))
    "task updates cannot rewrite committed artifact references" ;;
  need (bool_decide (ct_parent_id task = ct_parent_id existing)) "task parent cannot change after creation" ;;
  need (valid_cognitive_status_transition (ct_status existing) (ct_status task))
    "invalid cognitive task status transition".

Definition validate_upsert (w : Workspace) (task : CognitiveTaskNode) (author : ProcessId)
    : Result string unit :=
  validate_task_contract w task ;;
  match TaskGraph.cognitive (ws_task_graph w) (ct_id task) with
  | Some existing => validate_replacement existing task author
  | None =>
      need (bool_decide (ct_owner task = Some author)) "new cognitive tasks require the creating owner" ;;
      need (bool_decide (ct_artifact_refs task = [])) "new cognitive tasks cannot claim committed artifacts" ;;
      ensure_disjoint_active_write_scope w task None
  end.

(** The task after a handoff. *)
Definition handed_off (new_owner : ProcessId) (new_role : CognitiveRole)
    (role_profile : CognitiveRoleProfileRef) (budget : CognitiveRoleBudget) (scope : list string)
    (t : CognitiveTaskNode) : CognitiveTaskNode :=
  {| ct_id := ct_id t; ct_parent_id := ct_parent_id t; ct_objective := ct_objective t; ct_role := new_role;
     ct_stage := ct_stage t; ct_status := ct_status t; ct_owner := Some new_owner;
     ct_role_profile := role_profile; ct_budget := budget; ct_dependencies := ct_dependencies t;
     ct_acceptance_criteria := ct_acceptance_criteria t; ct_workspace_scope := scope;
     ct_required_artifact_kinds := ct_required_artifact_kinds t; ct_artifact_refs := ct_artifact_refs t;
     ct_unresolved_finding_ids := ct_unresolved_finding_ids t |}.

Definition validate_handoff (w : Workspace) (task_node_id : string) (expected_owner new_owner : ProcessId)
    (new_role : CognitiveRole) (role_profile : CognitiveRoleProfileRef) (budget : CognitiveRoleBudget)
    (scope : list string) (author : ProcessId) : Result string unit :=
  task ← some_or (TaskGraph.cognitive (ws_task_graph w) task_node_id) "handoff task node does not exist";
  need (bool_decide (ct_owner task = Some expected_owner)) "handoff expected owner mismatch" ;;
  need (bool_decide (author = expected_owner)) "only the current owner may hand off a task" ;;
  need (negb (bool_decide (expected_owner = new_owner))) "handoff requires a distinct new owner" ;;
  let profile := canonical new_role in
  profile_validate profile ;;
  need (bool_decide (role_profile = rp_reference profile)) "handoff role profile does not match host policy" ;;
  budget_validate budget ;;
  need (fits_within budget (rp_budget profile) && fits_within budget (ct_budget task))
    "handoff budget exceeds role or parent allocation" ;;
  if can_write_workspace new_role then
    need (negb (bool_decide (scope = [])) && forallb valid_scope scope)
      "write handoff requires valid bounded scope" ;;
    ensure_disjoint_active_write_scope w
      (handed_off new_owner new_role (ct_role_profile task) (ct_budget task) scope task) (Some task_node_id)
  else need (bool_decide (scope = [])) "read-only role cannot own a write scope".

Definition validate_artifact (w : Workspace) (artifact : Envelope) (author : ProcessId)
    : Result string unit :=
  envelope_validate artifact ;;
  need (bool_decide (ae_space artifact = ws_session_id w)) "artifact space mismatch" ;;
  need (bool_decide (ae_lifecycle artifact = Proposed)) "only proposed artifacts may be committed" ;;
  task ← some_or (TaskGraph.cognitive (ws_task_graph w) (ae_task_node_id artifact))
           "artifact task node does not exist";
  need (bool_decide (ct_owner task = Some author))
    "only the owning stage may commit a child artifact proposal" ;;
  need (bool_decide (kind artifact ∈ rp_required_output_artifacts (canonical (ct_role task))))
    "artifact kind is not an authorized output of the owning role" ;;
  (if bool_decide (kind artifact = KReview ∨ kind artifact = KValidation) then
     need (can_validate (ct_role task)) "artifact requires independent validation authority" ;;
     need (negb (existsb (λ e, bool_decide (ae_task_node_id e = ae_task_node_id artifact
                                            ∧ kind e = KChangeSet ∧ ae_author e = ae_author artifact))
                   (map_to_list (ws_artifacts w)).*2))
       "a process cannot independently certify its own change"
   else Ok tt) ;;
  need (bool_decide (ws_artifacts w !! ae_id artifact = None)) "cognitive artifact already committed".

Definition validate_decision (w : Workspace) (task_node_id : string) (decision : StageDecision)
    (author : ProcessId) : Result string unit :=
  task ← some_or (TaskGraph.cognitive (ws_task_graph w) task_node_id) "decision task node does not exist";
  match ct_owner task with
  | Some owner => need (bool_decide (owner = author)) "only the task owner may decide its stage"
  | None => Ok tt
  end ;;
  need (negb (is_blank (dc_reason decision))) "stage decision reason is empty".

Definition validate_block (w : Workspace) (c : ClarificationRecord) (author : ProcessId)
    : Result string unit :=
  need (bool_decide (cc_requested_by c = author)) "clarification requester mismatch" ;;
  need (bool_decide (cc_state c = CPending ∧ cc_response c = None ∧ cc_response_event_id c = None))
    "new clarification must be pending and unanswered" ;;
  need (negb (is_blank (cc_question c))) "clarification question is empty" ;;
  need (bool_decide (ck_workspace_version (cc_checkpoint c) = ws_version w))
    "clarification checkpoint does not match workspace version" ;;
  task ← some_or (TaskGraph.cognitive (ws_task_graph w) (cc_task_node_id c))
           "clarification task node does not exist";
  need (bool_decide (ct_owner task = Some author)) "only the task owner may block it" ;;
  need (active (ct_status task)) "only an active task may request clarification" ;;
  need (negb (existsb (λ e, bool_decide (cc_task_node_id e = cc_task_node_id c ∧ cc_state e = CPending))
                (map_to_list (ws_clarifications w)).*2))
    "task already has a pending clarification".

Definition validate_resolve (w : Workspace) (clarification_id : Uuid) (response response_event_id : string)
    (author : ProcessId) : Result string unit :=
  need (negb (is_blank response)) "clarification response is empty" ;;
  need (negb (is_blank response_event_id)) "canonical response event id is empty" ;;
  c ← some_or (ws_clarifications w !! clarification_id) "clarification does not exist";
  need (bool_decide (cc_state c = CPending)) "clarification is not pending" ;;
  task ← some_or (TaskGraph.cognitive (ws_task_graph w) (cc_task_node_id c))
           "clarification task node does not exist";
  need (bool_decide (ct_owner task = Some author))
    "only the task owner may apply a canonical clarification response" ;;
  need (bool_decide (ct_status task = Blocked)) "clarification task is not blocked".

Definition validate_interruption (w : Workspace) (i : CognitiveInterruptionRecord) (author : ProcessId)
    : Result string unit :=
  need (bool_decide (ci_owner i = author)) "interruption owner mismatch" ;;
  need (bool_decide (ci_resume_event_id i = None)) "new interruption cannot already be resumed" ;;
  need (bool_decide (ck_workspace_version (ci_checkpoint i) = ws_version w))
    "interruption checkpoint does not match workspace version" ;;
  task ← some_or (TaskGraph.cognitive (ws_task_graph w) (ci_task_node_id i))
           "interruption task node does not exist";
  need (bool_decide (ct_owner task = Some author)) "only the task owner may suspend it" ;;
  need (active (ct_status task)) "only an active task may be interrupted" ;;
  need (negb (existsb (λ e, bool_decide (ci_task_node_id e = ci_task_node_id i
                                         ∧ ci_resume_event_id e = None))
                (map_to_list (ws_interruptions w)).*2))
    "task already has an active interruption".

Definition validate_resume (w : Workspace) (interruption_id : Uuid) (resume_event_id : string)
    (author : ProcessId) : Result string unit :=
  need (negb (is_blank resume_event_id)) "resume event id is empty" ;;
  i ← some_or (ws_interruptions w !! interruption_id) "interruption does not exist";
  need (bool_decide (ci_resume_event_id i = None)) "interruption is already resumed" ;;
  task ← some_or (TaskGraph.cognitive (ws_task_graph w) (ci_task_node_id i))
           "interruption task node does not exist";
  need (bool_decide (ct_owner task = Some author)) "only the task owner may resume it" ;;
  need (bool_decide (ct_status task = Suspended)) "interrupted task is not suspended".

Definition validate_operation (w : Workspace) (op : Operation) (author : ProcessId) : Result string unit :=
  match op with
  | PublishFact key _ =>
      need (negb (is_blank key) && (String.length key <=? 256)%nat) "invalid fact key"
  | ProposePlan plan => need (json_nonempty_object plan) "plan must be a non-empty object"
  | UpdateTask task_patch => validate_update_task w task_patch
  | EmitObservation obs => need (negb (json_is_null obs)) "observation cannot be null"
  | AcceptEvidence evidence =>
      need (negb (bool_decide (ev_id evidence = "")) && negb (bool_decide (ev_source evidence = "")))
        "evidence provenance is incomplete" ;;
      need (f64_in_range (ev_weight evidence)) "evidence weight is invalid"
  | ClaimSharedObject oid =>
      need (negb (bool_decide (oid = ""))) "claim object id is empty" ;;
      need (bool_decide (ws_claims w !! oid = None)) "shared object is already claimed"
  | ReleaseSharedObject oid =>
      need (bool_decide (ws_claims w !! oid = Some author)) "shared object is not owned by process"
  | UpdateAttention focus priorities selection_ref => validate_attention focus priorities selection_ref
  | UpsertCognitiveTask task => validate_upsert w task author
  | HandoffCognitiveTask id expected_owner new_owner new_role role_profile budget scope =>
      validate_handoff w id expected_owner new_owner new_role role_profile budget scope author
  | CommitCognitiveArtifact artifact => validate_artifact w artifact author
  | RecordStageDecision task_node_id decision => validate_decision w task_node_id decision author
  | BlockForClarification clarification => validate_block w clarification author
  | ResolveClarification id response event => validate_resolve w id response event author
  | CheckpointInterruption interruption => validate_interruption w interruption author
  | ResumeInterruption id event => validate_resume w id event author
  end.

(** ** Application *)

Definition with_status (status : CognitiveTaskStatus) (t : CognitiveTaskNode) : CognitiveTaskNode :=
  {| ct_id := ct_id t; ct_parent_id := ct_parent_id t; ct_objective := ct_objective t; ct_role := ct_role t;
     ct_stage := ct_stage t; ct_status := status; ct_owner := ct_owner t;
     ct_role_profile := ct_role_profile t; ct_budget := ct_budget t; ct_dependencies := ct_dependencies t;
     ct_acceptance_criteria := ct_acceptance_criteria t; ct_workspace_scope := ct_workspace_scope t;
     ct_required_artifact_kinds := ct_required_artifact_kinds t; ct_artifact_refs := ct_artifact_refs t;
     ct_unresolved_finding_ids := ct_unresolved_finding_ids t |}.

Definition committed_artifact (e : Envelope) : Envelope :=
  {| ae_id := ae_id e; ae_space := ae_space e; ae_task_node_id := ae_task_node_id e;
     ae_author := ae_author e; ae_source_versions := ae_source_versions e;
     ae_evidence_refs := ae_evidence_refs e; ae_confidence := ae_confidence e;
     ae_lifecycle := Committed; ae_artifact := ae_artifact e; ae_content_digest := ae_content_digest e |}.

Definition answered (response response_event_id : string) (c : ClarificationRecord) : ClarificationRecord :=
  {| cc_id := cc_id c; cc_task_node_id := cc_task_node_id c; cc_requested_by := cc_requested_by c;
     cc_question := cc_question c; cc_choices := cc_choices c; cc_checkpoint := cc_checkpoint c;
     cc_state := Answered; cc_response := Some response;
     cc_response_event_id := Some response_event_id |}.

Definition resumed (resume_event_id : string) (i : CognitiveInterruptionRecord) : CognitiveInterruptionRecord :=
  {| ci_id := ci_id i; ci_task_node_id := ci_task_node_id i; ci_owner := ci_owner i;
     ci_reason := ci_reason i; ci_checkpoint := ci_checkpoint i;
     ci_resume_event_id := Some resume_event_id |}.

(** A task changed in place; the code expects it to be there. *)
Definition change_task (id : string) (f : CognitiveTaskNode → CognitiveTaskNode) (w : Workspace)
    : Result string Workspace :=
  g ← TaskGraph.cognitive_mut (ws_task_graph w) id f;
  Ok (set_task_graph g w).

Definition apply_update_task (task_patch : Json) (w : Workspace) : Result string Workspace :=
  match json_str task_patch "id", json_str task_patch "status" with
  | Some id, Some status =>
      status ← parse_task_status status;
      match TaskGraph.transition (ws_task_graph w) id status with
      | Ok g => Ok (set_task_graph g w)
      | Err e => Err (TaskGraph.error_to_string e)
      | Panic => Panic
      end
  | _, _ => Ok w
  end.

Definition push_trace (kind : string) (content : Json) (w : Workspace) : Workspace :=
  set_trace (Trace.push kind content (ws_trace w)).2 w.

Definition apply_operation (op : Operation) (author : ProcessId) (w : Workspace) : Result string Workspace :=
  match op with
  | PublishFact key value => Ok (set_blackboard (Blackboard.set key value (ws_blackboard w)) w)
  | ProposePlan plan => Ok (set_blackboard (Blackboard.set "current_plan" plan (ws_blackboard w)) w)
  | UpdateTask task_patch => apply_update_task task_patch w
  | EmitObservation _ => Ok w
  | AcceptEvidence evidence => Ok (push_trace "evidence" (evidence_entry evidence) w)
  | ClaimSharedObject oid => Ok (set_claims <[oid := author]> w)
  | ReleaseSharedObject oid => Ok (set_claims (delete oid) w)
  | UpdateAttention focus priorities _ =>
      Ok (set_attention {| Attention.at_focus := focus; Attention.at_priorities := priorities |} w)
  | UpsertCognitiveTask task => Ok (set_task_graph (TaskGraph.upsert_cognitive task (ws_task_graph w)) w)
  | HandoffCognitiveTask id _ new_owner new_role role_profile budget scope =>
      change_task id (handed_off new_owner new_role role_profile budget scope) w
  | CommitCognitiveArtifact artifact =>
      let committed := committed_artifact artifact in
      Ok (set_artifacts <[ae_id committed := committed]>
            (set_task_graph
               (TaskGraph.attach_artifact (ae_task_node_id committed) (ae_id committed) (ws_task_graph w)).2 w))
  | RecordStageDecision task_node_id decision =>
      Ok (push_trace "cognitive_stage_decision" (decision_entry task_node_id author decision) w)
  | BlockForClarification c =>
      w ← change_task (cc_task_node_id c) (with_status Blocked) w;
      Ok (set_clarifications <[cc_id c := c]> w)
  | ResolveClarification id response event =>
      c ← must (ws_clarifications w !! id);
      change_task (cc_task_node_id c) (with_status Running)
        (set_clarifications <[id := answered response event c]> w)
  | CheckpointInterruption i =>
      w ← change_task (ci_task_node_id i) (with_status Suspended) w;
      Ok (set_interruptions <[ci_id i := i]> w)
  | ResumeInterruption id event =>
      i ← must (ws_interruptions w !! id);
      change_task (ci_task_node_id i) (with_status Running)
        (set_interruptions <[id := resumed event i]> w)
  end.

(** ** Proposals and commits *)

Record VersionConflict := {
  vc_expected : N;
  vc_actual : N;
}.

Definition propose (base_version : N) (operation : Operation) (author : ProcessId)
    : M Workspace VersionConflict Proposal :=
  w ← get_state;
  ensure (bool_decide (base_version = ws_version w))
    {| vc_expected := base_version; vc_actual := ws_version w |} ;;
  id ← new_uuid;
  let proposal := {| ap_id := id; ap_space := ws_session_id w; ap_author := author;
                     ap_base_version := base_version; ap_operation := operation; ap_evidence := [];
                     ap_confidence := f32_unit; ap_expires_at_ms := None |} in
  modify (set_proposals <[id := proposal]>) ;;
  mret proposal.

Definition conflict_message (expected actual : N) : string :=
  "version conflict: expected " +:+ pretty expected +:+ ", actual " +:+ pretty actual.

Definition propose_full (proposal : Proposal) : M Workspace string Proposal :=
  w ← get_state;
  ensure (bool_decide (ap_base_version proposal = ws_version w))
    (conflict_message (ap_base_version proposal) (ws_version w)) ;;
  ensure (bool_decide (ap_space proposal = ws_session_id w)) "proposal space mismatch" ;;
  ensure (bool_decide (ws_proposals w !! ap_id proposal = None)
          && negb (existsb (λ c, bool_decide (ac_id c = ap_id proposal)) (ws_commits w)))
    "proposal id already exists" ;;
  modify (set_proposals <[ap_id proposal := proposal]>) ;;
  mret proposal.

(** [prepare_commit] once the clock is read. *)
Definition prepare_at (w : Workspace) (proposal : Proposal) (permit : option WorkspaceCommitPermit)
    (now_ms : Z) : Result string Commit :=
  let name := uuid_display (ap_id proposal) in
  need (negb (is_expired_at proposal now_ms)) ("proposal " +:+ name +:+ " expired") ;;
  need (bool_decide (ap_space proposal = ws_session_id w)) "proposal belongs to a different workspace" ;;
  need (bool_decide (ap_base_version proposal = ws_version w))
    (conflict_message (ap_base_version proposal) (ws_version w)) ;;
  validate_operation w (ap_operation proposal) (ap_author proposal) ;;
  match permit with Some permit => validate_for permit proposal now_ms | None => Ok tt end ;;
  Ok (from_proposal proposal (ws_version w + 1) now_ms (wp_permit_id <$> permit)).

(** A pure result as a step. *)
Definition lift {S E A} (r : Result E A) : M S E A := λ s n, (r, s, n).

Definition prepare_commit (proposal_id : Uuid) (permit : option WorkspaceCommitPermit)
    : M Workspace string Commit :=
  w ← get_state;
  proposal ← ok_or (ws_proposals w !! proposal_id)
    ("proposal " +:+ uuid_display proposal_id +:+ " not found");
  now_ms ← read_wall;
  lift (prepare_at w proposal permit now_ms).

Definition apply_prepared_commit (commit : Commit) (w : Workspace) : Result string Workspace :=
  validate_integrity commit ;;
  need (bool_decide (ac_space commit = ws_session_id w)) "commit space mismatch" ;;
  need (bool_decide (ac_base_version commit = ws_version w ∧ ac_version commit = ws_version w + 1))
    "workspace changed after commit preparation" ;;
  proposal ← some_or (ws_proposals w !! ac_id commit)
    ("proposal " +:+ uuid_display (ac_id commit) +:+ " not found");
  need (bool_decide (operation_hash (ap_operation proposal) = ac_operation_hash commit)
        && bool_decide (ap_author proposal = ac_author commit))
    "prepared commit no longer matches proposal" ;;
  w' ← apply_operation (ac_operation commit) (ac_author commit) w;
  let w' := set_proposals (delete (ac_id commit)) w' in
  Ok (set_history (ac_version commit) (ws_commits w' ++ [commit]) w').

(** A [&mut self] method that replaces the workspace when it succeeds.  Where it
    fails the workspace is as it was: each operation changes it in its last
    fallible step. *)
Definition update (f : Workspace → Result string Workspace) : M Workspace string unit := λ w n,
  match f w with
  | Ok w' => (Ok tt, w', n)
  | Err e => (Err e, w, n)
  | Panic => (Panic, w, n)
  end.

(** Preparing a commit and applying it, with or without a permit. *)
Definition commit (proposal_id : Uuid) (permit : option WorkspaceCommitPermit) : M Workspace string Commit :=
  prepared ← prepare_commit proposal_id permit;
  update (apply_prepared_commit prepared) ;;
  mret prepared.

(** [reject]: whether the proposal was there. *)
Definition reject (proposal_id : Uuid) (reason : RejectReason) (w : Workspace) : bool * Workspace :=
  match ws_proposals w !! proposal_id with
  | None => (false, w)
  | Some proposal =>
      (true, push_trace "proposal_rejected" (rejection_entry proposal reason)
               (set_proposals (delete proposal_id) w))
  end.

(** [apply_commit]: whether the commit was new. *)
Definition apply_commit (commit : Commit) (w : Workspace) : Result string (bool * Workspace) :=
  match find (λ e, bool_decide (ac_id e = ac_id commit)) (ws_commits w) with
  | Some existing =>
      need (bool_decide (commit_bytes existing = commit_bytes commit)) "replayed commit id collision" ;;
      Ok (false, w)
  | None =>
      validate_integrity commit ;;
      need (bool_decide (ac_space commit = ws_session_id w)) "replayed commit space mismatch" ;;
      need (bool_decide (ac_base_version commit = ws_version w ∧ ac_version commit = ws_version w + 1))
        "replayed commit sequence is not contiguous" ;;
      validate_operation w (ac_operation commit) (ac_author commit) ;;
      w' ← apply_operation (ac_operation commit) (ac_author commit) w;
      Ok (true, set_history (ac_version commit) (ws_commits w' ++ [commit]) w')
  end.

Definition changes_since (w : Workspace) (since_version : N) : list Commit :=
  drop (N.to_nat since_version) (ws_commits w).

Definition clear (w : Workspace) : Workspace := new (ws_session_id w).

End Model.

Arguments Workspace : clear implicits.
End Workspace.
