(* ===== verification/WorkspaceRun.v ===== *)
(** * Runs of a workspace

    The calls on a workspace as one type of steps, the part of its state that
    commits determine, replay, and the facts every property of runs uses: a
    validated operation applies, and what it does depends on and changes only the
    committed part. *)
From S2P Require Import Prelude FabricTypes StdModel Fallible AgoraTypes TaskGraph Workspace.
Import Cognitive CognitiveOps Workspace.

#[local] Open Scope N_scope.

Section Run.
Context `{HEnv : Env} {Json F32 F64 : Type} `{HAgora : AgoraEnv Json F32 F64}.
Abbreviation WS := (Workspace.Workspace Json F32 F64).
Abbreviation Op := (AgoraOperation Json F32 F64).
Implicit Types (w : WS) (op : Op) (c : AgoraCommit Json F32 F64).

(** ** The committed part *)

Definition forget w : WS := set_trace [] (set_proposals (λ _, ∅) w).

Definition rmap {A B} (f : A → B) (r : Result string A) : Result string B :=
  match r with Ok a => Ok (f a) | Err e => Err e | Panic => Panic end.

Lemma validate_forget w op author : validate_operation (forget w) op author = validate_operation w op author.
Proof. by destruct op. Qed.

Lemma change_task_forget id f w : rmap forget (change_task id f w) = change_task id f (forget w).
Proof. unfold change_task, TaskGraph.cognitive_mut. cbn. by destruct (TaskGraph.cognitive _ id). Qed.

Lemma apply_forget w op author :
  rmap forget (apply_operation op author w) = rmap forget (apply_operation op author (forget w)).
Proof.
  destruct op; cbn [apply_operation]; try done;
    unfold apply_update_task, change_task, TaskGraph.cognitive_mut, must; cbn;
    repeat (case_match; cbn; try done).
  destruct (parse_task_status _); cbn; [|done..]. by destruct (TaskGraph.transition _ _ _).
Qed.

Lemma rmap_ok {A B} (f : A → B) r b : rmap f r = Ok b ↔ ∃ a, r = Ok a ∧ f a = b.
Proof. destruct r; cbn; naive_solver. Qed.

Lemma forget_history w w' v cs : forget w = forget w' → forget (set_history v cs w) = forget (set_history v cs w').
Proof. unfold forget. destruct w, w'. cbn. intros [= -> -> -> -> -> -> -> -> -> ->]. done. Qed.

(** ** A validated operation applies *)

Lemma change_task_ok id f w t :
  TaskGraph.cognitive (ws_task_graph w) id = Some t →
  change_task id f w = Ok (set_task_graph (TaskGraph.with_cognitive <[id := f t]> (ws_task_graph w)) w).
Proof. intros Ht. unfold change_task, TaskGraph.cognitive_mut. by rewrite Ht. Qed.

Lemma validated_applies w op author :
  validate_operation w op author = Ok tt → ∃ w', apply_operation op author w = Ok w'.
Proof.
  destruct op; cbn [validate_operation apply_operation]; intros H; try by eauto.
  - unfold validate_update_task in H. inv_ok H. unfold apply_update_task.
    destruct (json_str task_patch "id") as [i|]; [|done]. cbn in H0. case_decide; [done|]. simplify_eq.
    rewrite H1, H2. cbn. unfold TaskGraph.transition, TaskGraph.get in *.
    destruct (TaskGraph.validate_transition _ _ _) as [[]| |]; try done. cbn. rewrite H3. cbn. eauto.
  - unfold validate_handoff in H. inv_ok H. erewrite change_task_ok; eauto.
  - unfold validate_block in H. inv_ok H. erewrite change_task_ok; eauto.
  - unfold validate_resolve in H. inv_ok H. destruct (ws_clarifications w !! clarification_id); [|done].
    simplify_eq. cbn. erewrite change_task_ok; eauto.
  - unfold validate_interruption in H. inv_ok H. erewrite change_task_ok; eauto.
  - unfold validate_resume in H. inv_ok H. destruct (ws_interruptions w !! interruption_id); [|done].
    simplify_eq. cbn. erewrite change_task_ok; eauto.
Qed.
(** ** Calls *)

Inductive AgoraCall :=
| Propose (base_version : N) (operation : Op) (author : ProcessId)
| ProposeFull (proposal : AgoraProposal Json F32 F64)
| CommitProposal (proposal_id : Uuid) (permit : option WorkspaceCommitPermit)
| RejectProposal (proposal_id : Uuid) (reason : RejectReason)
| ReplayCommit (commit : AgoraCommit Json F32 F64)
| AuditTrace (kind : string) (content : Json)
| Clear.

Definition outcome {E A} (o : Result E A * WS * N) : WS * N := match o with (_, w, n) => (w, n) end.

Definition agora_call (call : AgoraCall) w (n : N) : WS * N :=
  match call with
  | Propose base op author => outcome (propose base op author w n)
  | ProposeFull p => outcome (propose_full p w n)
  | CommitProposal id permit => outcome (commit id permit w n)
  | RejectProposal id reason => ((reject id reason w).2, n)
  | ReplayCommit c => (match apply_commit c w with Ok (_, w') => w' | _ => w end, n)
  | AuditTrace kind content => (push_trace kind content w, n)
  | Clear => (clear w, n)
  end.

Fixpoint agora_run (calls : list AgoraCall) w (n : N) : WS * N :=
  match calls with
  | [] => (w, n)
  | call :: rest => match agora_call call w n with (w1, n1) => agora_run rest w1 n1 end
  end.

(** An identifier that the generator has yet to draw. *)
Definition to_come (n : N) (id : Uuid) : Prop := ∃ i, n ≤ i ∧ id = uuid_v4 i.

(** The identifiers a call brings along. *)
Definition supplied (call : AgoraCall) : list Uuid :=
  match call with
  | ProposeFull p => [ap_id p]
  | ReplayCommit c => [ac_id c]
  | _ => []
  end.

(** No call brings an identifier that is drawn later in the run. *)
Fixpoint supplied_before (calls : list AgoraCall) w (n : N) : Prop :=
  match calls with
  | [] => True
  | call :: rest =>
      Forall (λ id, ¬ to_come n id) (supplied call)
      ∧ match agora_call call w n with (w1, n1) => supplied_before rest w1 n1 end
  end.

(** ** What a call does to the history *)

(** A commit that the workspace [w] accepts, and the workspace after it. *)
Record accepts w c w' : Prop := {
  ac_integrity : validate_integrity c = Ok tt;
  ac_here : ac_space c = ws_session_id w;
  ac_next : ac_base_version c = ws_version w ∧ ac_version c = ws_version w + 1;
  ac_valid : validate_operation w (ac_operation c) (ac_author c) = Ok tt;
  ac_fresh : ac_id c ∉ (ac_id <$> ws_commits w);
  ac_applied : ∃ w1, apply_operation (ac_operation c) (ac_author c) w = Ok w1
    ∧ forget w' = forget (set_history (ac_version c) (ws_commits w1 ++ [c]) w1);
}.

Lemma from_proposal_integrity p v at_ permit_id :
  v = ap_base_version p + 1 → validate_integrity (from_proposal p v at_ permit_id) = Ok tt.
Proof. intros ->. unfold validate_integrity. cbn. by rewrite !bool_decide_true. Qed.

Lemma find_id_none c (l : list (AgoraCommit Json F32 F64)) :
  find (λ e, bool_decide (ac_id e = ac_id c)) l = None ↔ ac_id c ∉ (ac_id <$> l).
Proof.
  induction l as [|e l IH]; cbn; [split; [by intros _ ?%elem_of_nil|done]|].
  rewrite elem_of_cons. case_bool_decide; [naive_solver|]. rewrite IH. naive_solver.
Qed.

Lemma apply_commit_new c w w' :
  apply_commit c w = Ok (true, w') → accepts w c w'.
Proof.
  unfold apply_commit. destruct (find _ (ws_commits w)) eqn:Hf; intros H; inv_ok H; [done|].
  injection H as <-. apply find_id_none in Hf. rewrite bool_decide_eq_true in *.
  destruct a, a2. split; eauto.
Qed.

Lemma apply_commit_accepts w c w' :
  accepts w c w' → ∃ w2, apply_commit c w = Ok (true, w2) ∧ forget w2 = forget w'.
Proof.
  intros [Hi Hh Hn Hv Hf (w1 & Ha & Hw)]. unfold apply_commit. rewrite (proj2 (find_id_none _ _) Hf), Hi.
  cbn. rewrite !bool_decide_true by done. cbn. rewrite Hv. cbn. rewrite Ha. cbn. eauto.
Qed.

(** Accepting depends on the committed part alone. *)
Lemma accepts_forget w1 w2 c w' : forget w1 = forget w2 → accepts w1 c w' → accepts w2 c w'.
Proof.
  intros Hf [Hi Hh Hn Hv Hfr (wa & Ha & Hw)].
  assert (ws_session_id w2 = ws_session_id w1 ∧ ws_version w2 = ws_version w1 ∧ ws_commits w2 = ws_commits w1)
    as (Hs & Hver & Hc) by (destruct w1, w2; unfold forget in Hf; cbn in *; by simplify_eq).
  split; rewrite ?Hs, ?Hver, ?Hc; try done.
  - by rewrite <-validate_forget, <-Hf, validate_forget.
  - assert (rmap forget (apply_operation (ac_operation c) (ac_author c) w2)
            = rmap forget (apply_operation (ac_operation c) (ac_author c) w1)) as He
      by (by rewrite apply_forget, <-Hf, <-apply_forget).
    rewrite Ha in He. cbn in He. apply rmap_ok in He as (wb & Hb & Hbf). exists wb. split; [done|].
    rewrite Hw. replace (ws_commits wb) with (ws_commits wa); [by apply forget_history|].
    destruct wa, wb. unfold forget in Hbf. cbn in *. by simplify_eq.
Qed.

(** Applying an operation keeps the session and the history. *)
Lemma apply_operation_frame op author w w' :
  apply_operation op author w = Ok w' →
  ws_session_id w' = ws_session_id w ∧ ws_version w' = ws_version w ∧ ws_commits w' = ws_commits w
  ∧ ws_proposals w' = ws_proposals w.
Proof.
  intros H. destruct op; cbn [apply_operation] in H;
    unfold apply_update_task, change_task, TaskGraph.cognitive_mut, must in H;
    repeat (case_match; try discriminate); inv_ok H; repeat (case_match; try discriminate); simplify_eq/=; try done.
Qed.

(** ** Validation cannot panic *)

Lemma validate_transition_calm g id status : calm (TaskGraph.validate_transition g id status).
Proof. unfold TaskGraph.validate_transition. solve_calm. Qed.

Lemma validate_priorities_calm seen l : calm (validate_priorities seen l).
Proof. revert seen. induction l; intros seen; cbn [validate_priorities]; solve_calm. Qed.

Lemma validate_calm w op author : calm (validate_operation w op author).
Proof.
  destruct op; cbn [validate_operation];
    unfold validate_update_task, validate_attention, validate_upsert, validate_task_contract,
      validate_replacement, validate_handoff, validate_artifact, validate_decision, validate_block,
      validate_resolve, validate_interruption, validate_resume, envelope_validate, profile_validate,
      budget_validate, ensure_disjoint_active_write_scope, disjoint_from, parse_task_status;
    try solve [solve_calm].
  - solve_calm; exfalso; by eapply validate_transition_calm.
  - solve_calm. apply validate_priorities_calm.
Qed.

Lemma prepare_at_calm w p permit now_ms : calm (prepare_at w p permit now_ms).
Proof. unfold prepare_at, validate_for. solve_calm. apply validate_calm. Qed.

(** Pending proposals sit under their own ids; one for the current version has an
    id that no commit has used. *)
Record pending_ok w : Prop := {
  po_keyed : ∀ id p, ws_proposals w !! id = Some p → ap_id p = id ∧ ap_base_version p ≤ ws_version w;
  po_unused : ∀ id p, ws_proposals w !! id = Some p → ap_base_version p = ws_version w →
    id ∉ (ac_id <$> ws_commits w);
}.

Lemma prepare_at_ok w p permit now_ms c :
  prepare_at w p permit now_ms = Ok c →
  c = from_proposal p (ws_version w + 1) now_ms (wp_permit_id <$> permit)
  ∧ ap_space p = ws_session_id w ∧ ap_base_version p = ws_version w ∧ is_expired_at p now_ms = false
  ∧ validate_operation w (ap_operation p) (ap_author p) = Ok tt
  ∧ ∀ pm, permit = Some pm → validate_for pm p now_ms = Ok tt.
Proof.
  unfold prepare_at. intros H. inv_ok H. rewrite ?negb_true_iff, ?bool_decide_eq_true in *.
  destruct a2. split_and!; try done; [by simplify_eq|]. intros pm ->. by destruct a3.
Qed.

(** A prepared commit is applied: the proposal is gone and the commit is the last
    of the history. *)
Lemma prepared_applies w id p permit now_ms c :
  pending_ok w → ws_proposals w !! id = Some p → prepare_at w p permit now_ms = Ok c →
  ∃ w', apply_prepared_commit c w = Ok w' ∧ accepts w c w' ∧ ac_id c = id
    ∧ ws_proposals w' = delete id (ws_proposals w).
Proof.
  intros [Hk Hu] Hp (-> & Hsp & Hb & _ & Hv & _)%prepare_at_ok. destruct (Hk _ _ Hp) as [Hid _].
  destruct (validated_applies _ _ _ Hv) as [w1 Ha].
  pose proof (from_proposal_integrity p (ws_version w + 1) now_ms (wp_permit_id <$> permit)
                ltac:(congruence)) as Hi.
  unfold apply_prepared_commit. rewrite Hi. cbn. rewrite !bool_decide_true by done. cbn.
  rewrite Hid, Hp. cbn. rewrite !bool_decide_true by done. cbn. rewrite Ha. cbn.
  apply apply_operation_frame in Ha as Hfr. destruct Hfr as (_ & _ & _ & Hpr).
  eexists. split; [done|]. split_and!; [|done|cbn; by rewrite Hpr].
  split; cbn; try done.
  - rewrite Hid. by eapply Hu.
  - by exists w1.
Qed.

Lemma commit_run id permit w n :
  pending_ok w →
  (∃ e n', commit id permit w n = (Err e, w, n'))
  ∨ ∃ c w', commit id permit w n = (Ok c, w', n + 1) ∧ accepts w c w' ∧ ac_id c = id
      ∧ ws_proposals w' = delete id (ws_proposals w).
Proof.
  intros Hpo. unfold commit, prepare_commit, mbind, M_bind, get_state, ok_or.
  destruct (ws_proposals w !! id) as [p|] eqn:Hp; [|left; eauto].
  unfold read_wall, tick, mbind, M_bind, mret, M_ret, lift.
  destruct (prepare_at w p permit (wall_now n)) as [c|e|] eqn:Hprep; [|left; eauto|].
  - right. destruct (prepared_applies _ _ _ _ _ _ Hpo Hp Hprep) as (w' & Hw & Hacc & Hid & Hpr).
    unfold update. rewrite Hw. eauto 10.
  - exfalso. by apply (prepare_at_calm w p permit (wall_now n)).
Qed.

End Run.
