(* ===== verification/WorkspaceReplay.v ===== *)
(** * Replay of a workspace

    The history of commits determines the workspace: replayed on a fresh one it
    is accepted commit by commit and rebuilds everything but the pending
    proposals and the audit trace. *)
From S2P Require Import Prelude FabricTypes StdModel Fallible AgoraTypes TaskGraph Workspace WorkspaceRun.
Import Cognitive CognitiveOps Workspace.

#[local] Open Scope N_scope.

Section Replay.
Context `{HEnv : Env} {HOk : EnvOk} {Json F32 F64 : Type} `{HAgora : AgoraEnv Json F32 F64}.
Abbreviation WS := (Workspace.Workspace Json F32 F64).
Implicit Types (w : WS) (c : AgoraCommit Json F32 F64) (cs : list (AgoraCommit Json F32 F64)).

(** The loop of [AgoraRegistry::space] over the commits it recovered. *)
Fixpoint replay cs w : Result string WS :=
  match cs with
  | [] => Ok w
  | c :: rest => r ← apply_commit c w; replay rest r.2
  end.

Lemma replay_app cs1 cs2 w : replay (cs1 ++ cs2) w = (w' ← replay cs1 w; replay cs2 w').
Proof.
  revert w. induction cs1 as [|c cs1 IH]; intros w; [done|]. cbn.
  destruct (apply_commit c w) as [[b w']| |]; cbn; [apply IH|done..].
Qed.

Lemma apply_commit_proposals c w b w' : apply_commit c w = Ok (b, w') → ws_proposals w' = ws_proposals w.
Proof.
  unfold apply_commit. destruct (find _ _); intros H; inv_ok H; [by simplify_eq|].
  injection H as _ <-. apply apply_operation_frame in H4 as (_ & _ & _ & Hp). done.
Qed.

Lemma replay_proposals cs w w' : replay cs w = Ok w' → ws_proposals w' = ws_proposals w.
Proof.
  revert w. induction cs as [|c cs IH]; intros w H; cbn in H; [by simplify_eq|].
  inv_ok H. destruct a as [b w1]. apply apply_commit_proposals in H0. rewrite <-H0. by apply IH.
Qed.

(** ** The history *)

(** [cs] is accepted one by one from [w0] and leads to [w], up to proposals and
    trace. *)
Inductive history (w0 : WS) : list (AgoraCommit Json F32 F64) → WS → Prop :=
| history_nil w : forget w = forget w0 → history w0 [] w
| history_snoc cs w1 c w : history w0 cs w1 → accepts w1 c w → history w0 (cs ++ [c]) w.

Lemma forget_fields w w' :
  forget w = forget w' →
  ws_session_id w = ws_session_id w' ∧ ws_version w = ws_version w' ∧ ws_commits w = ws_commits w'.
Proof. destruct w, w'. unfold forget. cbn. intros. by simplify_eq. Qed.

Lemma accepts_fields w c w' :
  accepts w c w' →
  ws_session_id w' = ws_session_id w ∧ ws_version w' = ws_version w + 1 ∧ ws_commits w' = ws_commits w ++ [c].
Proof.
  intros [_ _ [_ Hv] _ _ (w1 & Ha & Hw)]. apply apply_operation_frame in Ha as (Hs & _ & Hc & _).
  apply forget_fields in Hw as (-> & -> & ->). cbn. by rewrite Hs, Hc.
Qed.

Lemma accepts_after w c w' w'' : accepts w c w' → forget w'' = forget w' → accepts w c w''.
Proof. intros [? ? ? ? ? (w1 & ? & Hw)] Hf. split; try done. exists w1. by rewrite Hf. Qed.

Lemma history_after w0 cs w w' : history w0 cs w → forget w' = forget w → history w0 cs w'.
Proof.
  intros H Hf. destruct H as [w Hw|cs w1 c w Hh Ha]; [constructor; congruence|].
  econstructor; [done|]. by eapply accepts_after.
Qed.

(** An accepted history can be replayed. *)
Lemma history_replay w0 cs w : history w0 cs w → ∃ w', replay cs w0 = Ok w' ∧ forget w' = forget w.
Proof.
  induction 1 as [w Hw|cs w1 c w Hh (w1' & Hr & Hf) Ha]; [by exists w0|].
  eapply accepts_forget in Ha; [|symmetry; exact Hf]. destruct (apply_commit_accepts _ _ _ Ha) as (w2 & Hap & Hw2).
  exists w2. split; [|done]. rewrite replay_app, Hr. cbn. by rewrite Hap.
Qed.

(** ** The invariant of runs *)

Record agora_inv (session : string) w (n : N) : Prop := {
  ai_session : ws_session_id w = session;
  ai_history : history (new session) (ws_commits w) w;
  ai_pending : pending_ok w;
  ai_commits_known : ∀ id, id ∈ (ac_id <$> ws_commits w) → ¬ to_come n id;
  ai_proposals_known : ∀ id p, ws_proposals w !! id = Some p → ¬ to_come n id;
}.

Lemma new_inv session n : agora_inv session (new session) n.
Proof. split; [done|by constructor|by split|by intros ? ?%elem_of_nil|by intros]. Qed.

Lemma to_come_mono n m id : n ≤ m → to_come m id → to_come n id.
Proof. intros Hle (i & ? & ->). exists i. split; [lia|done]. Qed.

Lemma drawn_not_to_come n : ¬ to_come (n + 1) (uuid_v4 n).
Proof. intros (i & Hi & Heq%uuid_v4_inj). lia. Qed.

(** A call that leaves the committed part alone. *)
Lemma quiet_inv session w w' n n' :
  agora_inv session w n → n ≤ n' → forget w' = forget w →
  (∀ id p, ws_proposals w' !! id = Some p →
     ws_proposals w !! id = Some p
     ∨ ap_id p = id ∧ ap_base_version p = ws_version w ∧ id ∉ (ac_id <$> ws_commits w) ∧ ¬ to_come n' id) →
  agora_inv session w' n'.
Proof.
  intros [Hs Hh [Hk Hu] Hc Hp] Hn Hf Hnew. destruct (forget_fields _ _ Hf) as (Hs' & Hv' & Hc').
  split; [congruence|rewrite Hc'; by eapply history_after| | |].
  - split; intros id p Hl; apply Hnew in Hl as [Hl|(? & Hb & ? & ?)]; rewrite ?Hc', ?Hv'; eauto.
    split; [done|lia].
  - intros id. rewrite Hc'. intros Hin Ht. eapply Hc; [done|]. by eapply to_come_mono.
  - intros id p Hl Ht. apply Hnew in Hl as [Hl|(_ & _ & _ & ?)]; [|done]. eapply Hp; [done|]. by eapply to_come_mono.
Qed.

Lemma elem_of_ids_snoc cs c id :
  id ∈ (ac_id <$> cs ++ [c]) ↔ id ∈ (ac_id <$> cs) ∨ id = ac_id c.
Proof. rewrite fmap_app, elem_of_app. cbn. by rewrite list_elem_of_singleton. Qed.

(** A call that adds a commit. *)
Lemma accepts_inv session w w' c n n' :
  agora_inv session w n → n ≤ n' → accepts w c w' → ¬ to_come n (ac_id c) →
  (∀ id p, ws_proposals w' !! id = Some p → ws_proposals w !! id = Some p) →
  agora_inv session w' n'.
Proof.
  intros [Hs Hh [Hk Hu] Hc Hp] Hn Ha Hid Hsub. destruct (accepts_fields _ _ _ Ha) as (Hs' & Hv' & Hc').
  split; [congruence|rewrite Hc'; by econstructor| | |].
  - split; intros id p Hl%Hsub; destruct (Hk _ _ Hl); [split; [done|lia]|]. intros. lia.
  - intros id. rewrite Hc', elem_of_ids_snoc. intros Hin Ht. eapply to_come_mono in Ht; [|done].
    destruct Hin as [Hin| ->]; [by eapply Hc|done].
  - intros id p Hl%Hsub Ht. eapply Hp; [done|]. by eapply to_come_mono.
Qed.

(** ** Every call keeps the invariant *)

Lemma insert_pending w w' n' i (p : AgoraProposal Json F32 F64) :
  ws_proposals w' = <[i := p]> (ws_proposals w) → ap_id p = i → ap_base_version p = ws_version w →
  i ∉ (ac_id <$> ws_commits w) → ¬ to_come n' i →
  ∀ id q, ws_proposals w' !! id = Some q →
    ws_proposals w !! id = Some q
    ∨ ap_id q = id ∧ ap_base_version q = ws_version w ∧ id ∉ (ac_id <$> ws_commits w) ∧ ¬ to_come n' id.
Proof.
  intros -> Hi Hb Hc Ht id q. destruct (decide (i = id)) as [<-|Hne].
  - rewrite lookup_insert_eq. intros [= <-]. by right.
  - rewrite lookup_insert_ne by done. by left.
Qed.

Lemma propose_inv session base op author w n :
  agora_inv session w n → (λ o, agora_inv session o.1 o.2) (outcome (propose base op author w n)).
Proof.
  intros Hi. unfold propose, mbind, M_bind, get_state, ensure.
  case_bool_decide as Hb; [|done]. unfold new_uuid, tick, mbind, M_bind, mret, M_ret. cbn.
  eapply quiet_inv; [done|lia|done|]. eapply insert_pending; [done|done|done| |apply drawn_not_to_come].
  intros Hin. apply (ai_commits_known _ _ _ Hi) in Hin. apply Hin. exists n. split; [lia|done].
Qed.

Lemma existsb_id id cs :
  existsb (λ c, bool_decide (ac_id c = id)) cs = false ↔ id ∉ (ac_id <$> cs).
Proof.
  induction cs as [|c cs IH]; cbn; [split; [by intros _ ?%elem_of_nil|done]|].
  rewrite orb_false_iff, IH, elem_of_cons, bool_decide_eq_false. naive_solver.
Qed.

Lemma propose_full_inv session p w n :
  agora_inv session w n → ¬ to_come n (ap_id p) →
  (λ o, agora_inv session o.1 o.2) (outcome (propose_full p w n)).
Proof.
  intros Hi Ht. unfold propose_full, mbind, M_bind, get_state, ensure.
  case_bool_decide as Hb; [|done]. cbn. case_bool_decide; [|done]. cbn.
  destruct (_ && _) eqn:Hx; [|done]. cbn. apply andb_true_iff in Hx as [_ Hx].
  apply negb_true_iff, existsb_id in Hx. eapply quiet_inv; [done|lia|done|]. by eapply insert_pending.
Qed.

Lemma commit_inv session id permit w n :
  agora_inv session w n → (λ o, agora_inv session o.1 o.2) (outcome (commit id permit w n)).
Proof.
  intros Hi. destruct (commit_run id permit w n (ai_pending _ _ _ Hi)) as [(e & n' & He)|(c & w' & He & Ha & Hid & Hp)].
  - assert (n ≤ n') as Hn.
    { revert He. unfold commit, prepare_commit, mbind, M_bind, get_state, ok_or.
      destruct (ws_proposals w !! id); [|by intros [= _ <-]].
      unfold read_wall, tick, mbind, M_bind, mret, M_ret, lift, update.
      repeat case_match; intros; simplify_eq/=; lia. }
    rewrite He. cbn. eapply quiet_inv; [done|done|done|by left].
  - rewrite He. cbn. assert (is_Some (ws_proposals w !! id)) as [p Hpl].
    { destruct (ws_proposals w !! id) eqn:Hpl; [eauto|]. exfalso. revert He.
      unfold commit, prepare_commit, mbind, M_bind, get_state, ok_or. by rewrite Hpl. }
    eapply accepts_inv; [done|lia|done| |].
    + rewrite Hid. by eapply (ai_proposals_known _ _ _ Hi).
    + rewrite Hp. intros id' q Hq. by apply lookup_delete_Some in Hq as [_ ?].
Qed.

Lemma replay_inv session c w n :
  agora_inv session w n → ¬ to_come n (ac_id c) →
  agora_inv session (match apply_commit c w with Ok (_, w') => w' | _ => w end) n.
Proof.
  intros Hi Ht. destruct (apply_commit c w) as [[[] w']| |] eqn:Ha; [| |done..].
  - apply apply_commit_new in Ha as Hacc. eapply accepts_inv; [done|lia|done|done|].
    by rewrite (apply_commit_proposals _ _ _ _ Ha).
  - revert Ha. unfold apply_commit. destruct (find _ _); intros H; inv_ok H; by simplify_eq.
Qed.

Lemma agora_call_inv session call w n :
  agora_inv session w n → Forall (λ id, ¬ to_come n id) (supplied call) →
  (λ o, agora_inv session o.1 o.2) (agora_call call w n).
Proof.
  intros Hi Hs. destruct call; cbn [agora_call supplied] in *.
  - by apply propose_inv.
  - apply propose_full_inv; [done|]. rewrite Forall_singleton in Hs. exact Hs.
  - by apply commit_inv.
  - cbn. unfold reject. destruct (ws_proposals w !! proposal_id) eqn:Hp; [|done]. cbn.
    eapply quiet_inv; [done|lia|done|]. cbn. intros id p [_ ?]%lookup_delete_Some. by left.
  - apply replay_inv; [done|]. rewrite Forall_singleton in Hs. exact Hs.
  - cbn. eapply quiet_inv; [done|lia|done|by left].
  - cbn. unfold clear. rewrite (ai_session _ _ _ Hi). apply new_inv.
Qed.

Lemma agora_run_inv session calls w n :
  agora_inv session w n → supplied_before calls w n → (λ o, agora_inv session o.1 o.2) (agora_run calls w n).
Proof.
  revert w n. induction calls as [|call rest IH]; intros w n Hi; [done|]. cbn [agora_run supplied_before].
  intros [Hs Hrest]. pose proof (agora_call_inv session call w n Hi Hs) as Hc.
  destruct (agora_call call w n) as [w1 n1]. by apply IH.
Qed.

(** ** Replay *)

Lemma replay_known cs w :
  (∀ c, c ∈ cs → find (λ e, bool_decide (ac_id e = ac_id c)) (ws_commits w) = Some c) → replay cs w = Ok w.
Proof.
  induction cs as [|c cs IH]; intros Hk; [done|]. cbn. unfold apply_commit.
  rewrite Hk by constructor. rewrite bool_decide_true by done. cbn. apply IH. intros c' Hc'. apply Hk. by constructor.
Qed.

Lemma find_by_id cs c :
  NoDup (ac_id <$> cs) → c ∈ cs → find (λ e, bool_decide (ac_id e = ac_id c)) cs = Some c.
Proof.
  induction cs as [|e cs IH]; cbn; [by intros _ ?%elem_of_nil|]. intros [He Hnd]%NoDup_cons [->|Hin]%elem_of_cons.
  - by rewrite bool_decide_true.
  - rewrite bool_decide_false; [by apply IH|]. intros Heq. apply He. rewrite Heq. by apply list_elem_of_fmap_2.
Qed.

Lemma history_fields session cs w :
  history (new session) cs w →
  ws_commits w = cs ∧ ws_version w = N.of_nat (length cs) ∧ NoDup (ac_id <$> cs)
  ∧ ∀ i c, cs !! i = Some c → ac_base_version c = N.of_nat i ∧ ac_version c = N.of_nat i + 1.
Proof.
  induction 1 as [w Hw|cs w1 c w Hh (Hc & Hv & Hnd & Hix) Ha].
  - apply forget_fields in Hw as (_ & -> & ->). split_and!; try done. constructor.
  - apply accepts_fields in Ha as Hf. destruct Hf as (_ & Hv' & Hc'), Ha as [_ _ [Hb Hver] _ Hfr _].
    rewrite Hc', Hv', Hc, Hv, length_app in *. cbn. split_and!; [done|lia| |].
    + rewrite fmap_app. apply NoDup_app. split_and!; [done| |apply NoDup_singleton].
      intros id Hid ->%list_elem_of_singleton. done.
    + intros i c'. rewrite lookup_app_Some. intros [?|[Hle Hi]]; [eauto|].
      apply list_lookup_singleton_Some in Hi as [Hi <-]. lia.
Qed.

(** C39. After any run of calls on a session's workspace (proposals of either
    kind, commits with or without permits, rejections, replayed commits, audit
    entries, clearing), replaying its history on a fresh workspace accepts every
    commit and rebuilds the same blackboard, attention, task graph, claims,
    artifacts, clarifications, interruptions, version and history.  Replaying it
    again changes nothing, and a workspace that holds the first [v] commits is
    brought up to date by the commits after version [v]. *)
Theorem replay_rebuilds_workspace session calls n w n' :
  supplied_before calls (new session) n → agora_run calls (new session) n = (w, n') →
  ∃ w', replay (ws_commits w) (new session) = Ok w' ∧ forget w' = forget w
    ∧ replay (ws_commits w) w' = Ok w'
    ∧ ∀ v, ∃ wv, replay (take (N.to_nat v) (ws_commits w)) (new session) = Ok wv
        ∧ replay (changes_since w v) wv = Ok w'.
Proof.
  intros Hs Hrun. pose proof (agora_run_inv session calls (new session) n (new_inv session n) Hs) as Hi.
  rewrite Hrun in Hi. cbn in Hi. destruct (history_replay _ _ _ (ai_history _ _ _ Hi)) as (w' & Hr & Hf).
  exists w'. split_and!; [done|done| |].
  - apply replay_known. intros c Hc. destruct (forget_fields _ _ Hf) as (_ & _ & ->). apply find_by_id; [|done].
    by destruct (history_fields _ _ _ (ai_history _ _ _ Hi)) as (_ & _ & ? & _).
  - intros v. unfold changes_since. rewrite <-(take_drop (N.to_nat v) (ws_commits w)), replay_app in Hr.
    inv_ok Hr. eauto.
Qed.

End Replay.
