(* ===== verification/WorkspaceSafety.v ===== *)
(** * Authority over a workspace

    How one commit may change a workspace: contracts and artifacts are immutable,
    a task is changed by its owner only, its authority moves by a handoff of its
    owner that cannot widen its budget, and claims are exclusive. *)
From S2P Require Import Prelude FabricTypes StdModel Fallible AgoraTypes TaskGraph Workspace WorkspaceRun WorkspaceReplay.
Import Cognitive CognitiveOps Workspace.

#[local] Open Scope N_scope.

Section Safety.
Context `{HEnv : Env} {HOk : EnvOk} {Json F32 F64 : Type} `{HAgora : AgoraEnv Json F32 F64}.
Abbreviation WS := (Workspace.Workspace Json F32 F64).
Abbreviation Op := (AgoraOperation Json F32 F64).
Implicit Types (w : WS) (op : Op) (a : ProcessId) (t : CognitiveTaskNode).

(** The operation hands the task [id] to another owner. *)
Definition hands_off op (id : string) : Prop :=
  match op with HandoffCognitiveTask task_node_id _ _ _ _ _ _ => task_node_id = id | _ => False end.

(** How the task [id] may change when [a] commits [op]. *)
Record task_evolves op a (id : string) t t' : Prop := {
  te_contract : ct_parent_id t' = ct_parent_id t ∧ ct_objective t' = ct_objective t
    ∧ ct_dependencies t' = ct_dependencies t ∧ ct_acceptance_criteria t' = ct_acceptance_criteria t
    ∧ ct_required_artifact_kinds t' = ct_required_artifact_kinds t;
  te_refs : ct_artifact_refs t `prefix_of` ct_artifact_refs t';
  te_status : valid_cognitive_status_transition (ct_status t) (ct_status t') = true;
  te_owner : t' ≠ t → ct_owner t = Some a;
  te_authority : hands_off op id
    ∨ ct_owner t' = ct_owner t ∧ ct_role t' = ct_role t ∧ ct_role_profile t' = ct_role_profile t
      ∧ ct_budget t' = ct_budget t ∧ ct_workspace_scope t' = ct_workspace_scope t;
  te_budget : fits_within (ct_budget t') (ct_budget t) = true;
}.

Definition tasks_evolve op a (g g' : gmap string CognitiveTaskNode) : Prop :=
  (∀ id t, g !! id = Some t → ∃ t', g' !! id = Some t' ∧ task_evolves op a id t t')
  ∧ ∀ id t', g !! id = None → g' !! id = Some t' → op = UpsertCognitiveTask t' ∧ ct_owner t' = Some a.

Definition artifacts_evolve op a w (m m' : gmap Uuid (CognitiveArtifactEnvelope F32)) : Prop :=
  (∀ id e, m !! id = Some e → m' !! id = Some e)
  ∧ ∀ id e, m !! id = None → m' !! id = Some e →
      ∃ t, TaskGraph.cognitive (ws_task_graph w) (ae_task_node_id e) = Some t ∧ ct_owner t = Some a
        ∧ ae_lifecycle e = Committed ∧ kind e ∈ role_outputs (ct_role t)
        ∧ (kind e = KReview ∨ kind e = KValidation →
             ∀ id' e', m !! id' = Some e' → ae_task_node_id e' = ae_task_node_id e →
               kind e' = KChangeSet → ae_author e' ≠ ae_author e).

Definition claims_evolve op a (m m' : gmap string ProcessId) : Prop :=
  (∀ oid p, m !! oid = Some p → m' !! oid = Some p ∨ m' !! oid = None ∧ op = ReleaseSharedObject oid ∧ a = p)
  ∧ ∀ oid p, m !! oid = None → m' !! oid = Some p → op = ClaimSharedObject oid ∧ a = p.

Record evolves op a w w' : Prop := {
  ev_tasks : tasks_evolve op a (TaskGraph.tg_cognitive (ws_task_graph w)) (TaskGraph.tg_cognitive (ws_task_graph w'));
  ev_artifacts : artifacts_evolve op a w (ws_artifacts w) (ws_artifacts w');
  ev_claims : claims_evolve op a (ws_claims w) (ws_claims w');
}.

(** ** The parts an operation leaves alone *)

Lemma fits_within_refl b : fits_within b b = true.
Proof. unfold fits_within. by rewrite !N.leb_refl. Qed.

Lemma status_stays s : valid_cognitive_status_transition s s = true.
Proof. unfold valid_cognitive_status_transition. by rewrite bool_decide_true. Qed.

Lemma task_evolves_refl op a id t : task_evolves op a id t t.
Proof. split; [done|done|apply status_stays|done|by right|apply fits_within_refl]. Qed.

Lemma tasks_evolve_refl op a g : tasks_evolve op a g g.
Proof.
  split; [|congruence]. intros id t Ht. exists t. split; [done|]. apply task_evolves_refl.
Qed.

Lemma artifacts_evolve_refl op a w m : artifacts_evolve op a w m m.
Proof. split; [done|congruence]. Qed.

Lemma claims_evolve_refl op a m : claims_evolve op a m m.
Proof. split; [auto|congruence]. Qed.

Hint Resolve tasks_evolve_refl artifacts_evolve_refl claims_evolve_refl : aletheon.

Lemma one_task_evolves op a (g : gmap string CognitiveTaskNode) id t t' :
  g !! id = Some t → task_evolves op a id t t' → tasks_evolve op a g (<[id := t']> g).
Proof.
  intros Hg Hev. split; intros id' s.
  - destruct (decide (id = id')) as [<-|Hne]; intros Hs.
    + exists t'. rewrite lookup_insert_eq. split; [done|]. by simplify_eq.
    + exists s. rewrite lookup_insert_ne by done. split; [done|apply task_evolves_refl].
  - destruct (decide (id = id')) as [<-|Hne]; [congruence|]. rewrite lookup_insert_ne by done. congruence.
Qed.

Lemma status_evolves op a id t status :
  ct_owner t = Some a → valid_cognitive_status_transition (ct_status t) status = true →
  task_evolves op a id t (with_status status t).
Proof. intros Ho Hs. split; [done|done|done|done|by right|apply fits_within_refl]. Qed.

Lemma active_leaves s status :
  active s = true → status = Blocked ∨ status = Suspended → valid_cognitive_status_transition s status = true.
Proof. by intros Ha [->| ->]; destruct s. Qed.

(** ** Operation by operation *)

Lemma upsert_evolves w task a :
  validate_upsert w task a = Ok tt →
  tasks_evolve (UpsertCognitiveTask task) a (TaskGraph.tg_cognitive (ws_task_graph w))
    (<[ct_id task := task]> (TaskGraph.tg_cognitive (ws_task_graph w))).
Proof.
  unfold validate_upsert, TaskGraph.cognitive. intros H. inv_ok H.
  destruct (TaskGraph.tg_cognitive (ws_task_graph w) !! ct_id task) as [t|] eqn:Ht.
  - unfold validate_replacement in H. inv_ok H. checks. apply (one_task_evolves _ _ _ _ t); [done|].
    destruct H3 as (? & ? & Hb & ?), H4 as (? & ? & ? & ?).
    split; [done|by rewrite H5|done|done|by right|]. rewrite Hb. apply fits_within_refl.
  - inv_ok H. checks. split; intros id s.
    + intros Hs. exists s. rewrite lookup_insert_ne by congruence. split; [done|apply task_evolves_refl].
    + intros Hn. destruct (decide (ct_id task = id)) as [<-|Hne].
      * rewrite lookup_insert_eq. by intros [= <-].
      * rewrite lookup_insert_ne by done. congruence.
Qed.

Lemma handoff_evolves w id expected new_owner role profile budget scope a :
  validate_handoff w id expected new_owner role profile budget scope a = Ok tt →
  ∃ t, TaskGraph.cognitive (ws_task_graph w) id = Some t ∧
    tasks_evolve (HandoffCognitiveTask id expected new_owner role profile budget scope) a
      (TaskGraph.tg_cognitive (ws_task_graph w))
      (<[id := handed_off new_owner role profile budget scope t]> (TaskGraph.tg_cognitive (ws_task_graph w))).
Proof.
  unfold validate_handoff. intros H. inv_ok H. checks. eexists. split; [done|].
  apply (one_task_evolves _ _ _ _ a0); [done|]. apply andb_true_iff in H7 as [_ Hb].
  split; [done|done|apply status_stays|intros _; congruence|by left|done].
Qed.

Lemma artifact_evolves w e a :
  validate_artifact w e a = Ok tt →
  tasks_evolve (CommitCognitiveArtifact e) a (TaskGraph.tg_cognitive (ws_task_graph w))
    (TaskGraph.tg_cognitive (TaskGraph.attach_artifact (ae_task_node_id e) (ae_id e) (ws_task_graph w)).2)
  ∧ artifacts_evolve (CommitCognitiveArtifact e) a w (ws_artifacts w)
      (<[ae_id e := committed_artifact e]> (ws_artifacts w)).
Proof.
  unfold validate_artifact. intros H. inv_ok H. checks. rename a3 into t. split.
  - unfold TaskGraph.attach_artifact. rewrite H3. cbn. apply (one_task_evolves _ _ _ _ t); [done|].
    split; [done| |apply status_stays|done|by right|apply fits_within_refl]. cbn. destruct (decide (ae_id e ∈ ct_artifact_refs t)); [done|].
    by apply prefix_app_r.
  - split; intros id f.
    + intros Hf. rewrite lookup_insert_ne; [done|]. congruence.
    + intros Hn. destruct (decide (ae_id e = id)) as [<-|Hne]; [|rewrite lookup_insert_ne by done; congruence].
      rewrite lookup_insert_eq. intros [= <-]. exists t. split_and!; [done|done|done|done|]. intros Hk.
      rewrite bool_decide_true in H6 by done. inv_ok H6. apply negb_true_iff in H6. intros id' e' He' Htn Hks Hau.
      enough (true = false) by done. rewrite <-H6. symmetry. apply existsb_exists. exists e'.
      split; [|by rewrite bool_decide_true].
      apply list_elem_of_In, list_elem_of_fmap. exists (id', e'). split; [done|]. by apply elem_of_map_to_list.
Qed.

Lemma claim_evolves oid a (m : gmap string ProcessId) :
  m !! oid = None → claims_evolve (ClaimSharedObject oid) a m (<[oid := a]> m).
Proof.
  intros Hn. split; intros o p; destruct (decide (oid = o)) as [<-|Hne]; try congruence.
  - intros Hp. left. by rewrite lookup_insert_ne.
  - rewrite lookup_insert_eq. by intros _ [= <-].
  - rewrite lookup_insert_ne by done. congruence.
Qed.

Lemma release_evolves oid a (m : gmap string ProcessId) :
  m !! oid = Some a → claims_evolve (ReleaseSharedObject oid) a m (delete oid m).
Proof.
  intros Hm. split; intros o p; destruct (decide (oid = o)) as [<-|Hne]; try congruence.
  - intros Hp. right. rewrite lookup_delete_eq. by simplify_eq.
  - intros Hp. left. by rewrite lookup_delete_ne.
  - rewrite lookup_delete_ne by done. congruence.
Qed.

Lemma change_task_inv id f w w' :
  change_task id f w = Ok w' →
  ∃ t, TaskGraph.cognitive (ws_task_graph w) id = Some t
    ∧ w' = set_task_graph (TaskGraph.with_cognitive <[id := f t]> (ws_task_graph w)) w.
Proof.
  intros H. unfold change_task, TaskGraph.cognitive_mut in H. inv_ok H.
  destruct (TaskGraph.cognitive (ws_task_graph w) id) as [t|]; cbn in *; [|done]. simplify_eq. eauto.
Qed.

(** A validated operation changes the workspace as its author may. *)
Lemma operation_evolves w op a w' :
  validate_operation w op a = Ok tt → apply_operation op a w = Ok w' → evolves op a w w'.
Proof.
  destruct op; cbn [validate_operation apply_operation]; intros Hv Ha;
    try (injection Ha as <-; split; cbn; auto with aletheon; fail).
  - unfold apply_update_task in Ha. repeat case_match; simplify_eq; [|split; auto with aletheon..].
    inv_ok Ha. case_match; simplify_eq. unfold TaskGraph.transition in H1. inv_ok H1. simplify_eq.
    split; cbn; auto with aletheon.
  - injection Ha as <-. inv_ok Hv. checks. split; cbn; auto using claim_evolves with aletheon.
  - injection Ha as <-. inv_ok Hv. checks. split; cbn; auto using release_evolves with aletheon.
  - injection Ha as <-. split; cbn; auto using upsert_evolves with aletheon.
  - apply handoff_evolves in Hv as (t & Ht & Hv). erewrite change_task_ok in Ha by done. simplify_eq.
    split; cbn; auto with aletheon.
  - injection Ha as <-. apply artifact_evolves in Hv as [? ?]. split; cbn; auto with aletheon.
  - unfold validate_block in Hv. inv_ok Hv. checks. erewrite change_task_ok in Ha by done. cbn in Ha. simplify_eq.
    split; cbn; auto with aletheon. eapply one_task_evolves; [done|]. apply status_evolves; [done|].
    apply active_leaves; auto.
  - unfold validate_resolve in Hv. inv_ok Hv. checks. rewrite Hv2 in Ha. cbn in Ha.
    erewrite change_task_ok in Ha by done. simplify_eq. split; cbn; auto with aletheon.
    eapply one_task_evolves; [done|]. apply status_evolves; [done|]. by rewrite Hv.
  - unfold validate_interruption in Hv. inv_ok Hv. checks. erewrite change_task_ok in Ha by done. cbn in Ha.
    simplify_eq. split; cbn; auto with aletheon. eapply one_task_evolves; [done|].
    apply status_evolves; [done|]. apply active_leaves; auto.
  - unfold validate_resume in Hv. inv_ok Hv. checks. rewrite Hv1 in Ha. cbn in Ha.
    erewrite change_task_ok in Ha by done. simplify_eq. split; cbn; auto with aletheon.
    eapply one_task_evolves; [done|]. apply status_evolves; [done|]. by rewrite Hv.
Qed.

(** ** Calls *)

Lemma accepts_evolves w c w' : accepts w c w' → evolves (ac_operation c) (ac_author c) w w'.
Proof.
  intros [_ _ _ Hv _ (w1 & Ha & Hw)]. destruct (operation_evolves _ _ _ _ Hv Ha) as [Ht Har Hc].
  assert (ws_task_graph w' = ws_task_graph w1 ∧ ws_artifacts w' = ws_artifacts w1 ∧ ws_claims w' = ws_claims w1)
    as (Hg & Hm & Hcl) by (destruct w', w1; unfold forget in Hw; cbn in *; by simplify_eq).
  split; [by rewrite Hg|by rewrite Hm|by rewrite Hcl].
Qed.

(** Every call but clearing keeps the committed part or adds one accepted commit. *)
Lemma agora_call_step call w n w' n' :
  call ≠ Clear → pending_ok w → agora_call call w n = (w', n') →
  forget w' = forget w ∨ ∃ c, accepts w c w'.
Proof.
  intros Hcl Hpo. destruct call as [base op author|p|id permit|id reason|c0|kind content|]; cbn [agora_call]; try done.
  - intros H. left. revert H. unfold propose, mbind, M_bind, get_state, ensure. case_bool_decide; by intros [= <- <-].
  - intros H. left. revert H. unfold propose_full, mbind, M_bind, get_state, ensure.
    case_bool_decide; [|by intros [= <- <-]]. cbn. case_bool_decide; [|by intros [= <- <-]]. cbn.
    destruct (_ && _); by intros [= <- <-].
  - destruct (commit_run id permit w n Hpo) as [(e & n1 & ->)|(c & w1 & -> & Ha & _)]; intros [= <- <-]; eauto.
  - unfold reject. destruct (ws_proposals w !! id); by intros [= <- <-]; left.
  - destruct (apply_commit c0 w) as [[[] w1]| |] eqn:Ha; intros [= <- <-]; auto.
    + right. exists c0. by apply apply_commit_new.
    + left. revert Ha. unfold apply_commit. destruct (find _ _); intros H; inv_ok H; by simplify_eq.
  - intros [= <- <-]. by left.
Qed.

(** C40. On a workspace reached by any run of calls, a further call other than
    clearing either leaves the committed state alone or adds exactly one commit,
    with the next version, and that commit changes the state only as its author
    may: a task keeps its parent, objective, dependencies, acceptance criteria and
    required artifacts, its artifact references only grow, its status follows the
    allowed transitions, whoever changes it is its owner, and its owner, role,
    profile, budget and scope change only by an explicit handoff, which cannot
    enlarge the budget; a new task belongs to its creator; a committed artifact
    never changes or goes away, a new one is committed by the owner of its task
    and is of a kind the role produces, and a review or validation is never by the
    author of a change set of that task; a claimed object stays with its holder
    until the holder releases it. *)
Theorem commits_respect_authority session calls n w n1 call w' n2 :
  supplied_before calls (new session) n → agora_run calls (new session) n = (w, n1) →
  call ≠ Clear → agora_call call w n1 = (w', n2) →
  (ws_commits w' = ws_commits w ∧ forget w' = forget w)
  ∨ ∃ c, ws_commits w' = ws_commits w ++ [c] ∧ ac_version c = ws_version w + 1
      ∧ ws_version w' = ac_version c ∧ evolves (ac_operation c) (ac_author c) w w'.
Proof.
  intros Hs Hrun Hcl Hcall. pose proof (agora_run_inv session calls (new session) n (new_inv session n) Hs) as Hi.
  rewrite Hrun in Hi. destruct (agora_call_step _ _ _ _ _ Hcl (ai_pending _ _ _ Hi) Hcall) as [Hf|[c Ha]].
  - left. split; [|done]. by apply forget_fields in Hf as (_ & _ & ?).
  - right. exists c. destruct (accepts_fields _ _ _ Ha) as (_ & Hv & Hc). pose proof (ac_next _ _ _ Ha) as [_ Hn].
    split_and!; [done|done|congruence|by apply accepts_evolves].
Qed.

End Safety.

(** ** Well-formed workspaces

    The shape of every workspace a run of calls can reach: tasks under their own
    ids with the host's profile and a budget within it, artifact references and
    artifacts in agreement, at most one pending clarification and one open
    interruption per task, an attention whose focus leads its priorities, a
    history of consecutive versions and a trace that is never an authority. *)

Section Wf.
Context `{HEnv : Env} {HOk : EnvOk} {Json F32 F64 : Type} `{HAgora : AgoraEnv Json F32 F64}.
Abbreviation WS := (Workspace.Workspace Json F32 F64).
Abbreviation Op := (AgoraOperation Json F32 F64).
Abbreviation Tasks := (gmap string CognitiveTaskNode).
Abbreviation Artifacts := (gmap Uuid (CognitiveArtifactEnvelope F32)).
Implicit Types (w : WS) (op : Op) (a : ProcessId) (t : CognitiveTaskNode) (g : Tasks).

(** ** Tasks *)

(** A task on its own. *)
Record task_ok (id : string) t : Prop := {
  tk_key : ct_id t = id;
  tk_owned : is_Some (ct_owner t);
  tk_named : is_blank (ct_id t) = false ∧ is_blank (ct_objective t) = false;
  tk_acyclic : ct_id t ∉ ct_dependencies t;
  tk_profile : ct_role_profile t = rp_reference (canonical (ct_role t));
  tk_budget : budget_validate (ct_budget t) = Ok tt
    ∧ fits_within (ct_budget t) (rp_budget (canonical (ct_role t))) = true;
  tk_scope : can_write_workspace (ct_role t) = true →
    ct_workspace_scope t ≠ [] ∧ Forall (λ s, valid_scope s = true) (ct_workspace_scope t);
}.

Definition tasks_wf g : Prop :=
  ∀ id t, g !! id = Some t → task_ok id t ∧ ∀ p, ct_parent_id t = Some p → is_Some (g !! p).

Lemma tasks_wf_insert g id t :
  tasks_wf g → task_ok id t → (∀ p, ct_parent_id t = Some p → is_Some (g !! p)) → tasks_wf (<[id := t]> g).
Proof.
  intros Hg Ht Hp id' t' Hl. assert (∀ p, is_Some (g !! p) → is_Some (<[id := t]> g !! p)) as Hup.
  { intros p. rewrite !lookup_insert_is_Some'. auto. }
  destruct (decide (id = id')) as [<-|Hne].
  - rewrite lookup_insert_eq in Hl. simplify_eq. split; [done|]. auto.
  - rewrite lookup_insert_ne in Hl by done. destruct (Hg _ _ Hl). split; [done|]. auto.
Qed.

(** Changing a task in place without touching its contract. *)
Lemma tasks_wf_alter g id t t' :
  tasks_wf g → g !! id = Some t → task_ok id t' → ct_parent_id t' = ct_parent_id t → tasks_wf (<[id := t']> g).
Proof. intros Hg Ht Ht' Hp. apply tasks_wf_insert; [done|done|]. rewrite Hp. by destruct (Hg _ _ Ht). Qed.

Lemma task_ok_status id t s : task_ok id t → task_ok id (with_status s t).
Proof. intros []. by split. Qed.

Lemma task_ok_refs id t f : task_ok id t → task_ok id (TaskGraph.with_artifact_refs f t).
Proof. intros []. by split. Qed.

Lemma forallb_Forall' {A} (f : A → bool) l : forallb f l = true ↔ Forall (λ x, f x = true) l.
Proof. rewrite forallb_forall, Forall_forall. setoid_rewrite list_elem_of_In. done. Qed.

Lemma upsert_wf w task a :
  tasks_wf (TaskGraph.tg_cognitive (ws_task_graph w)) → validate_upsert w task a = Ok tt →
  tasks_wf (<[ct_id task := task]> (TaskGraph.tg_cognitive (ws_task_graph w))).
Proof.
  intros Hg. unfold validate_upsert, validate_task_contract, TaskGraph.cognitive. intros H. inv_ok H. checks.
  assert (is_Some (ct_owner task)) as Hown.
  { destruct (TaskGraph.tg_cognitive (ws_task_graph w) !! ct_id task).
    - unfold validate_replacement in H. inv_ok H. checks. exists a. congruence.
    - inv_ok H. checks. eauto. }
  apply tasks_wf_insert; [done| |].
  - split; try done.
    + split; [by destruct a6|done].
    + intros Hw. rewrite Hw in H8. inv_ok H8. apply andb_true_iff in H8 as [Hne Hall].
      checks. by apply forallb_Forall' in Hall.
  - intros p Hp. rewrite Hp in H0. inv_ok H0. eauto.
Qed.

Lemma handoff_wf w id expected new_owner role profile budget scope a t :
  tasks_wf (TaskGraph.tg_cognitive (ws_task_graph w)) →
  TaskGraph.cognitive (ws_task_graph w) id = Some t →
  validate_handoff w id expected new_owner role profile budget scope a = Ok tt →
  tasks_wf (<[id := handed_off new_owner role profile budget scope t]> (TaskGraph.tg_cognitive (ws_task_graph w))).
Proof.
  intros Hg Ht H. unfold validate_handoff in H. inv_ok H. checks. simplify_eq.
  destruct (Hg _ _ Ht) as [[Hk Ho Hn Hac Hp Hb Hs] _]. apply (tasks_wf_alter _ _ t); [done|done| |done].
  apply andb_true_iff in H7 as [Hfit _]. destruct a6.
  split; [done|by eexists|done|done|done|split; [exact H6|exact Hfit]|].
  cbn. intros Hw. rewrite Hw in H. inv_ok H. apply andb_true_iff in H0 as [Hne Hall]. checks.
  by apply forallb_Forall' in Hall.
Qed.

(** ** Artifacts *)

Record artifact_ok (session : string) (id : Uuid) (e : CognitiveArtifactEnvelope F32) : Prop := {
  ar_key : ae_id e = id;
  ar_here : ae_space e = session;
  ar_committed : ae_lifecycle e = Committed;
  ar_digest : ae_content_digest e = artifact_digest (ae_artifact e);
  ar_confidence : f32_in_range (ae_confidence e) = true;
}.

(** The references of the tasks and the artifacts agree. *)
Record artifacts_wf (session : string) g (m : Artifacts) : Prop := {
  aw_ok : ∀ id e, m !! id = Some e → artifact_ok session id e;
  aw_listed : ∀ id e, m !! id = Some e → ∃ t, g !! ae_task_node_id e = Some t ∧ id ∈ ct_artifact_refs t;
  aw_refs : ∀ tid t, g !! tid = Some t → NoDup (ct_artifact_refs t)
    ∧ ∀ id, id ∈ ct_artifact_refs t → ∃ e, m !! id = Some e ∧ ae_task_node_id e = tid;
}.

(** Changing a task without its references, or adding one without references. *)
Lemma artifacts_wf_task session g m tid t :
  artifacts_wf session g m → ct_artifact_refs t = default [] (ct_artifact_refs <$> g !! tid) →
  artifacts_wf session (<[tid := t]> g) m.
Proof.
  intros [Hok Hl Hr] Ht. split; [done| |].
  - intros id e He. destruct (Hl _ _ He) as (s & Hs & Hin). destruct (decide (tid = ae_task_node_id e)) as [->|Hne].
    + exists t. rewrite lookup_insert_eq. split; [done|]. by rewrite Ht, Hs.
    + exists s. by rewrite lookup_insert_ne.
  - intros tid' s. destruct (decide (tid = tid')) as [<-|Hne].
    + rewrite lookup_insert_eq. intros [= <-]. rewrite Ht. destruct (g !! tid) as [t0|] eqn:Hg; cbn; [by apply Hr|].
      split; [constructor|]. by intros id ?%elem_of_nil.
    + rewrite lookup_insert_ne by done. apply Hr.
Qed.

Lemma artifacts_wf_commit session g (m : Artifacts) (e : CognitiveArtifactEnvelope F32) t :
  artifacts_wf session g m → g !! ae_task_node_id e = Some t → m !! ae_id e = None →
  artifact_ok session (ae_id e) e →
  artifacts_wf session
    (<[ae_task_node_id e := TaskGraph.with_artifact_refs
         (λ refs, if decide (ae_id e ∈ refs) then refs else refs ++ [ae_id e]) t]> g)
    (<[ae_id e := e]> m).
Proof.
  intros [Hok Hl Hr] Hg Hm He.
  assert (ae_id e ∉ ct_artifact_refs t) as Hnew by (intros (e' & He' & _)%(Hr _ _ Hg); congruence).
  assert (∀ refs, ae_id e ∉ refs → (if decide (ae_id e ∈ refs) then refs else refs ++ [ae_id e]) = refs ++ [ae_id e])
    as Hd by (intros; by rewrite decide_False).
  split.
  - intros id f. destruct (decide (ae_id e = id)) as [<-|Hne].
    + rewrite lookup_insert_eq. by intros [= <-].
    + rewrite lookup_insert_ne by done. apply Hok.
  - intros id f. destruct (decide (ae_id e = id)) as [<-|Hne].
    + rewrite lookup_insert_eq. intros [= <-]. eexists. rewrite lookup_insert_eq. split; [done|]. cbn.
      rewrite Hd by done. apply elem_of_app. right. by apply list_elem_of_singleton.
    + rewrite lookup_insert_ne by done. intros Hf. destruct (Hl _ _ Hf) as (s & Hs & Hin).
      destruct (decide (ae_task_node_id e = ae_task_node_id f)) as [Heq|Hne'].
      * rewrite Heq. eexists. rewrite lookup_insert_eq. split; [done|]. cbn. rewrite <-Heq in Hs. simplify_eq.
        rewrite Hd by done. apply elem_of_app. by left.
      * exists s. by rewrite lookup_insert_ne.
  - intros tid s Hs.
    assert (∀ id, (∃ f, m !! id = Some f ∧ ae_task_node_id f = tid) → ∃ f, <[ae_id e := e]> m !! id = Some f ∧ ae_task_node_id f = tid) as Hup.
    { intros id (f & Hf & ?). exists f. rewrite lookup_insert_ne by congruence. done. }
    destruct (decide (ae_task_node_id e = tid)) as [<-|Hne].
    + rewrite lookup_insert_eq in Hs. simplify_eq. cbn. rewrite Hd by done. destruct (Hr _ _ Hg) as [Hnd Hin]. split.
      * apply NoDup_app. split_and!; [done| |apply NoDup_singleton]. by intros id Hid ->%list_elem_of_singleton.
      * intros id [Hid| ->%list_elem_of_singleton]%elem_of_app; [by apply Hup, Hin|].
        exists e. by rewrite lookup_insert_eq.
    + rewrite lookup_insert_ne in Hs by done. destruct (Hr _ _ Hs) as [Hnd Hin]. split; [done|]. auto.
Qed.

(** ** Open records *)

(** At most one open record per task, each under its own id and of a known task. *)
Record open_wf {A} (rid : A → Uuid) (task : A → string) (open : A → Prop) g (m : gmap Uuid A) : Prop := {
  ow_key : ∀ i x, m !! i = Some x → rid x = i ∧ is_Some (g !! task x);
  ow_single : ∀ i j x y, m !! i = Some x → m !! j = Some y → task x = task y → open x → open y → i = j;
}.

Lemma open_wf_tasks {A} (rid : A → Uuid) task open g g' m :
  open_wf rid task open g m → (∀ id, is_Some (g !! id) → is_Some (g' !! id)) → open_wf rid task open g' m.
Proof. intros [Hk Hs] Hg. split; [|done]. intros i x Hx. destruct (Hk _ _ Hx). auto. Qed.

Lemma open_wf_add {A} (rid : A → Uuid) task open g (m : gmap Uuid A) x :
  open_wf rid task open g m → is_Some (g !! task x) →
  (∀ i y, m !! i = Some y → task y = task x → ¬ open y) → open_wf rid task open g (<[rid x := x]> m).
Proof.
  intros [Hk Hs] Hx Hno. split.
  - intros i y. destruct (decide (rid x = i)) as [<-|Hne].
    + rewrite lookup_insert_eq. by intros [= <-].
    + rewrite lookup_insert_ne by done. apply Hk.
  - intros i j y z. destruct (decide (rid x = i)) as [<-|Hi], (decide (rid x = j)) as [<-|Hj]; try done;
      rewrite ?lookup_insert_eq, ?lookup_insert_ne by done; intros; simplify_eq; [naive_solver..|eauto].
Qed.

Lemma open_wf_close {A} (rid : A → Uuid) task (open : A → Prop) g (m : gmap Uuid A) i x x' :
  open_wf rid task open g m → m !! i = Some x → rid x' = rid x → task x' = task x → ¬ open x' →
  open_wf rid task open g (<[i := x']> m).
Proof.
  intros [Hk Hs] Hx Hr Ht Hno. destruct (Hk _ _ Hx) as [Hkey Htask]. split.
  - intros j y. destruct (decide (i = j)) as [<-|Hne].
    + rewrite lookup_insert_eq. intros [= <-]. rewrite Hr, Ht. done.
    + rewrite lookup_insert_ne by done. apply Hk.
  - intros j k y z. destruct (decide (i = j)) as [<-|Hi], (decide (i = k)) as [<-|Hj]; try done;
      rewrite ?lookup_insert_eq, ?lookup_insert_ne by done; intros; simplify_eq; eauto.
Qed.

(** ** The workspace *)

Definition attention_wf (x : Attention.Attention) : Prop :=
  Attention.at_focus x = head (Attention.at_priorities x) ∧ NoDup (Attention.at_priorities x)
  ∧ (length (Attention.at_priorities x) ≤ 32)%nat.

Definition board_wf (b : gmap string Json) : Prop :=
  ∀ key v, b !! key = Some v → is_blank key = false ∧ (String.length key ≤ 256)%nat.

Definition pending (c : ClarificationRecord) : Prop := cc_state c = CPending.

Definition unresumed (i : CognitiveInterruptionRecord) : Prop := ci_resume_event_id i = None.

Record committed_wf w : Prop := {
  cw_nodes : TaskGraph.tg_nodes (ws_task_graph w) = ∅;
  cw_tasks : tasks_wf (TaskGraph.tg_cognitive (ws_task_graph w));
  cw_artifacts : artifacts_wf (ws_session_id w) (TaskGraph.tg_cognitive (ws_task_graph w)) (ws_artifacts w);
  cw_attention : attention_wf (ws_attention w);
  cw_clarifications : open_wf cc_id cc_task_node_id pending (TaskGraph.tg_cognitive (ws_task_graph w))
    (ws_clarifications w);
  cw_interruptions : open_wf ci_id ci_task_node_id unresumed (TaskGraph.tg_cognitive (ws_task_graph w))
    (ws_interruptions w);
  cw_board : board_wf (ws_blackboard w);
}.

Lemma new_wf session : committed_wf (new session).
Proof. repeat split; cbn; intros; try done; try constructor; try lia. Qed.

(** ** Operation by operation *)

Lemma grows g id t id' : is_Some (g !! id') → is_Some (<[id := t]> g !! id').
Proof. rewrite lookup_insert_is_Some'. auto. Qed.

(** A change of one task that keeps its references. *)
Lemma set_task_wf w id t :
  committed_wf w → tasks_wf (<[id := t]> (TaskGraph.tg_cognitive (ws_task_graph w))) →
  ct_artifact_refs t = default [] (ct_artifact_refs <$> TaskGraph.tg_cognitive (ws_task_graph w) !! id) →
  committed_wf (set_task_graph (TaskGraph.with_cognitive <[id := t]> (ws_task_graph w)) w).
Proof.
  intros [Hn _ Ha Hat Hc Hi Hb] Ht Hr. split; cbn; [done|done|by apply artifacts_wf_task|done| |
    |done]; by eapply open_wf_tasks; [|apply grows].
Qed.

Lemma set_status_wf w id t s :
  committed_wf w → TaskGraph.cognitive (ws_task_graph w) id = Some t →
  committed_wf (set_task_graph (TaskGraph.with_cognitive <[id := with_status s t]> (ws_task_graph w)) w).
Proof.
  intros Hw Ht. apply set_task_wf; [done| |].
  - apply (tasks_wf_alter _ _ t); [apply Hw|done| |done]. apply task_ok_status. by apply (cw_tasks _ Hw).
  - unfold TaskGraph.cognitive in Ht. by rewrite Ht.
Qed.

Lemma set_clarifications_wf w f :
  committed_wf w →
  open_wf cc_id cc_task_node_id pending (TaskGraph.tg_cognitive (ws_task_graph w)) (f (ws_clarifications w)) →
  committed_wf (set_clarifications f w).
Proof. intros [] Hf. by split. Qed.

Lemma set_interruptions_wf w f :
  committed_wf w →
  open_wf ci_id ci_task_node_id unresumed (TaskGraph.tg_cognitive (ws_task_graph w)) (f (ws_interruptions w)) →
  committed_wf (set_interruptions f w).
Proof. intros [] Hf. by split. Qed.

Lemma existsb_values {A} `{Countable K} (f : A → bool) (m : gmap K A) :
  existsb f (map_to_list m).*2 = false → ∀ i x, m !! i = Some x → f x = false.
Proof.
  intros Hf i x Hx. destruct (f x) eqn:Hfx; [|done]. enough (existsb f (map_to_list m).*2 = true) by congruence.
  apply existsb_exists. exists x. split; [|done]. apply list_elem_of_In, list_elem_of_fmap.
  exists (i, x). split; [done|]. by apply elem_of_map_to_list.
Qed.

Lemma validate_priorities_ok seen l :
  validate_priorities seen l = Ok tt → NoDup l ∧ Forall (λ p, p ∉ seen) l.
Proof.
  revert seen. induction l as [|p l IH]; intros seen; cbn [validate_priorities].
  { intros _. split; constructor. }
  intros H. inv_ok H. checks. apply IH in H as [Hnd Hall]. rewrite Forall_forall in Hall. split.
  - constructor; [|done]. intros Hin. apply (Hall _ Hin). set_solver.
  - constructor; [done|]. apply Forall_forall. intros q Hq. specialize (Hall _ Hq). set_solver.
Qed.

Lemma validate_attention_ok focus priorities selection_ref :
  validate_attention focus priorities selection_ref = Ok tt →
  attention_wf {| Attention.at_focus := focus; Attention.at_priorities := priorities |}.
Proof.
  unfold validate_attention. intros H. inv_ok H. destruct a1. apply validate_priorities_ok in H2 as [Hnd _].
  apply Nat.leb_le in H1. split_and!; [|done|done]. cbn. destruct focus; inv_ok H; checks; by subst.
Qed.

Lemma board_wf_set b key v :
  board_wf b → is_blank key = false → (String.length key ≤ 256)%nat → board_wf (Blackboard.set key v b).
Proof.
  intros Hb Hk Hl key' v' H. unfold Blackboard.set in H. destruct (decide (key = key')) as [<-|Hne]; [done|].
  apply lookup_insert_Some in H as [[? _]|[_ H]]; [done|]. by eapply Hb.
Qed.

Lemma artifact_commit_wf w e a :
  committed_wf w → validate_artifact w e a = Ok tt →
  committed_wf
    (set_artifacts <[ae_id e := committed_artifact e]>
       (set_task_graph (TaskGraph.attach_artifact (ae_task_node_id e) (ae_id e) (ws_task_graph w)).2 w)).
Proof.
  intros [Hn Ht Ha Hat Hc Hi Hb] H. unfold validate_artifact, envelope_validate in H. inv_ok H. checks.
  unfold TaskGraph.attach_artifact. rewrite H5. unfold TaskGraph.cognitive in H5. split; cbn; try done.
  - eapply tasks_wf_alter; [done|done| |done]. apply task_ok_refs. by apply Ht.
  - by apply (artifacts_wf_commit _ _ _ (committed_artifact e)).
  - by eapply open_wf_tasks; [|apply grows].
  - by eapply open_wf_tasks; [|apply grows].
Qed.

(** A validated operation keeps the workspace well formed. *)
Lemma operation_wf w op a w' :
  committed_wf w → validate_operation w op a = Ok tt → apply_operation op a w = Ok w' → committed_wf w'.
Proof.
  intros Hw. destruct op; cbn [validate_operation apply_operation]; intros Hv Ha.
  - injection Ha as <-. inv_ok Hv. apply andb_true_iff in Hv as [Hk Hl]. checks. apply Nat.leb_le in Hl.
    destruct Hw. split; try done. by apply board_wf_set.
  - injection Ha as <-. destruct Hw. split; try done. apply board_wf_set; [done|done|]. cbn. lia.
  - exfalso. unfold validate_update_task, TaskGraph.get in Hv. inv_ok Hv. rewrite (cw_nodes _ Hw) in Hv3. done.
  - by injection Ha as <-.
  - injection Ha as <-. by destruct Hw.
  - injection Ha as <-. by destruct Hw.
  - injection Ha as <-. by destruct Hw.
  - injection Ha as <-. apply validate_attention_ok in Hv. destruct Hw. by split.
  - injection Ha as <-. apply set_task_wf; [done|by eapply upsert_wf; [apply Hw|]|].
    unfold validate_upsert, TaskGraph.cognitive in Hv. inv_ok Hv.
    destruct (TaskGraph.tg_cognitive (ws_task_graph w) !! ct_id task); cbn.
    + unfold validate_replacement in Hv. inv_ok Hv. by checks.
    + inv_ok Hv. by checks.
  - apply handoff_evolves in Hv as Hex. destruct Hex as (t & Ht & _). erewrite change_task_ok in Ha by done.
    simplify_eq. apply set_task_wf; [done|by eapply handoff_wf; [apply Hw|..]|].
    unfold TaskGraph.cognitive in Ht. by rewrite Ht.
  - injection Ha as <-. by eapply (artifact_commit_wf w artifact).
  - injection Ha as <-. by destruct Hw.
  - unfold validate_block in Hv. inv_ok Hv. checks. erewrite change_task_ok in Ha by done. cbn in Ha. simplify_eq.
    apply set_clarifications_wf; [by apply set_status_wf|]. cbn. apply open_wf_add.
    + eapply open_wf_tasks; [apply (cw_clarifications _ Hw)|apply grows].
    + apply grows. unfold TaskGraph.cognitive in *. eauto.
    + intros i y Hy Hty Hp. eapply existsb_values in Hv; [|exact Hy]. rewrite bool_decide_eq_false in Hv. by apply Hv.
  - unfold validate_resolve in Hv. inv_ok Hv. checks. rewrite Hv2 in Ha. cbn in Ha.
    erewrite change_task_ok in Ha by done. simplify_eq. apply (set_status_wf (set_clarifications _ w)); [|done].
    apply set_clarifications_wf; [done|]. by eapply open_wf_close; [apply (cw_clarifications _ Hw)|..].
  - unfold validate_interruption in Hv. inv_ok Hv. checks. erewrite change_task_ok in Ha by done. cbn in Ha.
    simplify_eq. apply set_interruptions_wf; [by apply set_status_wf|]. cbn. apply open_wf_add.
    + eapply open_wf_tasks; [apply (cw_interruptions _ Hw)|apply grows].
    + apply grows. unfold TaskGraph.cognitive in *. eauto.
    + intros i y Hy Hty Hp. eapply existsb_values in Hv; [|exact Hy]. rewrite bool_decide_eq_false in Hv. by apply Hv.
  - unfold validate_resume in Hv. inv_ok Hv. checks. rewrite Hv1 in Ha. cbn in Ha.
    erewrite change_task_ok in Ha by done. simplify_eq. apply (set_status_wf (set_interruptions _ w)); [|done].
    apply set_interruptions_wf; [done|]. by eapply open_wf_close; [apply (cw_interruptions _ Hw)|..].
Qed.

(** ** Runs *)

Lemma committed_wf_forget w w' : forget w' = forget w → committed_wf w → committed_wf w'.
Proof.
  intros Hf [Hn Ht Ha Hat Hc Hi Hb]. destruct w, w'. unfold forget in Hf. cbn in *. simplify_eq. by split.
Qed.

Lemma accepts_wf w c w' : accepts w c w' → committed_wf w → committed_wf w'.
Proof.
  intros [_ _ _ Hv _ (w1 & Ha & Hf)] Hw. eapply committed_wf_forget; [done|].
  eapply operation_wf in Ha; [|done|done]. by destruct Ha; split.
Qed.

Lemma history_wf session cs w : history (new session) cs w → committed_wf w.
Proof.
  induction 1 as [w Hf|cs w1 c w Hh IH Ha]; [|by eapply accepts_wf].
  eapply committed_wf_forget; [done|apply new_wf].
Qed.

Lemma apply_operation_trace op a w w' :
  apply_operation op a w = Ok w' → Trace.diagnostic (ws_trace w) → Trace.diagnostic (ws_trace w').
Proof.
  intros H Ht. destruct op; cbn [apply_operation] in H;
    try (injection H as <-; cbn; auto using Trace.push_diagnostic; fail).
  - unfold apply_update_task in H. repeat case_match; simplify_eq; [|done..]. inv_ok H. case_match; by simplify_eq.
  - by apply change_task_inv in H as (t & _ & ->).
  - inv_ok H. apply change_task_inv in H0 as (t & _ & ->). by simplify_eq.
  - inv_ok H. by apply change_task_inv in H as (t & _ & ->).
  - inv_ok H. apply change_task_inv in H0 as (t & _ & ->). by simplify_eq.
  - inv_ok H. by apply change_task_inv in H as (t & _ & ->).
Qed.

Lemma apply_prepared_trace c w w' :
  apply_prepared_commit c w = Ok w' → Trace.diagnostic (ws_trace w) → Trace.diagnostic (ws_trace w').
Proof.
  unfold apply_prepared_commit. intros H. inv_ok H. simplify_eq. cbn. by eapply apply_operation_trace.
Qed.

Lemma apply_commit_trace c w b w' :
  apply_commit c w = Ok (b, w') → Trace.diagnostic (ws_trace w) → Trace.diagnostic (ws_trace w').
Proof.
  unfold apply_commit. destruct (find _ _); intros H; inv_ok H; simplify_eq; [done|]. cbn.
  by eapply apply_operation_trace.
Qed.

Lemma agora_call_trace call w n :
  Trace.diagnostic (ws_trace w) → Trace.diagnostic (ws_trace (agora_call call w n).1).
Proof.
  intros Ht. destruct call as [base op author|p|id permit|id reason|c|kind content|]; cbn [agora_call].
  - unfold propose, mbind, M_bind, get_state, ensure. by case_bool_decide.
  - unfold propose_full, mbind, M_bind, get_state, ensure. case_bool_decide; [|done]. cbn.
    case_bool_decide; [|done]. cbn. by destruct (_ && _).
  - unfold commit, prepare_commit, mbind, M_bind, get_state, ok_or. destruct (ws_proposals w !! id) as [p|]; [|done].
    unfold read_wall, tick, mbind, M_bind, mret, M_ret, lift, update. destruct (prepare_at _ _ _ _); try done.
    destruct (apply_prepared_commit a w) eqn:Ha; try done. by eapply apply_prepared_trace.
  - unfold reject. destruct (ws_proposals w !! id); [|done]. cbn. by apply Trace.push_diagnostic.
  - destruct (apply_commit c w) as [[b w']| |] eqn:Ha; try done. by eapply apply_commit_trace.
  - cbn. by apply Trace.push_diagnostic.
  - constructor.
Qed.

Lemma agora_run_trace calls w n :
  Trace.diagnostic (ws_trace w) → Trace.diagnostic (ws_trace (agora_run calls w n).1).
Proof.
  revert w n. induction calls as [|call rest IH]; intros w n Ht; [done|]. cbn.
  pose proof (agora_call_trace call w n Ht). destruct (agora_call call w n). by apply IH.
Qed.

(** C20. After any run of calls on a session's workspace it is well formed: every
    cognitive task sits under its own nonblank id, has an owner, an objective, the
    host's profile of its role, a positive budget within that profile, a parent
    that exists if it names one, no dependency on itself and, when its role
    writes, a bounded scope free of parent components; its artifact references
    are distinct and are exactly the committed artifacts of that task, whose
    digests match; a task has at most one pending clarification and one open
    interruption; the focus leads at most 32 distinct priorities; facts have
    nonblank keys of at most 256 bytes; the commits have distinct ids and the
    versions 1, 2, ... up to the version of the workspace; and no trace entry is
    authoritative. *)
Theorem reachable_workspaces_well_formed session calls n w n' :
  supplied_before calls (new session) n → agora_run calls (new session) n = (w, n') →
  committed_wf w ∧ ws_version w = N.of_nat (length (ws_commits w)) ∧ NoDup (ac_id <$> ws_commits w)
  ∧ (∀ i c, ws_commits w !! i = Some c → ac_base_version c = N.of_nat i ∧ ac_version c = N.of_nat i + 1)
  ∧ Trace.diagnostic (ws_trace w).
Proof.
  intros Hs Hrun. pose proof (agora_run_inv session calls (new session) n (new_inv session n) Hs) as Hi.
  pose proof (agora_run_trace calls (new session) n (List.Forall_nil _)) as Ht.
  rewrite Hrun in Hi, Ht. cbn in Hi, Ht. pose proof (ai_history _ _ _ Hi) as Hh.
  destruct (history_fields _ _ _ Hh) as (_ & Hv & Hnd & Hix). split_and!; try done. by eapply history_wf.
Qed.

(** ** What the checks do not reach *)

(** No operation creates a plain task, so every update of one is refused. *)
Lemma update_task_never_valid w patch a : committed_wf w → validate_operation w (UpdateTask patch) a ≠ Ok tt.
Proof.
  intros Hw Hv. cbn in Hv. unfold validate_update_task, TaskGraph.get in Hv. inv_ok Hv.
  by rewrite (cw_nodes _ Hw) in Hv3.
Qed.

(** The decision of a stage is committed, but the audit trace refuses its kind:
    no part of the workspace keeps it. *)
Lemma stage_decision_not_recorded w task decision a :
  apply_operation (RecordStageDecision task decision) a w = Ok w.
Proof. cbn. unfold push_trace. cbn. by destruct w. Qed.

(** Paths are compared by their components: a leading [.] tells the whole
    workspace, or the same directory, apart from a directory in it. *)
Lemma dot_scopes_do_not_overlap :
  scopes_overlap ["."] ["src"] = false ∧ scopes_overlap ["./src"] ["src"] = false
  ∧ valid_scope "." = true ∧ valid_scope "./src" = true.
Proof. done. Qed.

End Wf.

(** ** A concrete workspace

    The properties of workspaces at a concrete history, and three histories that
    show what the validation of operations does not prevent. *)

(** Objects of strings as JSON, numbers as integers. *)
Abbreviation J := (list (string * string)).

#[local] Instance sample_agora : AgoraEnv J N N := {|
  json_is_null j := bool_decide (j = []);
  json_nonempty_object j := negb (bool_decide (j = []));
  json_str j k := snd <$> find (λ e, bool_decide (e.1 = k)) j;
  json_object j := Some ((λ e, (e.1, [e])) <$> j);
  json_of_object l := mjoin l.*2;
  f32_unit := 1;
  f32_in_range x := x <=? 1;
  f64_in_range x := x <=? 1;
  evidence_entry e := [("id", ev_id e); ("source", ev_source e)];
  rejection_entry p r := [("proposal_id", pretty (ap_id p))];
  decision_entry t a d := [("task_node_id", t); ("reason", dc_reason d)];
  artifact_digest a := "digest";
  operation_hash op := match op with PublishFact k _ => "fact " +:+ k | _ => "operation" end;
  commit_checksum id space _ base _ _ _ _ _ _ := pretty id +:+ "@" +:+ space +:+ pretty base;
  commit_bytes c := pretty (ac_id c);
|}.

#[local] Existing Instance sample_env.
#[local] Existing Instance sample_env_ok.

Definition sample_task (id : string) (role : CognitiveRole) (owner : ProcessId) (status : CognitiveTaskStatus)
    (scope : list string) : CognitiveTaskNode :=
  {| ct_id := id; ct_parent_id := None; ct_objective := "work"; ct_role := role; ct_stage := Execution;
     ct_status := status; ct_owner := Some owner; ct_role_profile := rp_reference (canonical role);
     ct_budget := {| rb_max_input_tokens := 100; rb_max_output_tokens := 100; rb_max_tool_calls := 10;
                     rb_max_elapsed_ms := 1000 |};
     ct_dependencies := []; ct_acceptance_criteria := []; ct_workspace_scope := scope;
     ct_required_artifact_kinds := []; ct_artifact_refs := []; ct_unresolved_finding_ids := [] |}.

Definition sample_question (id : Uuid) (task : string) (by_ : ProcessId) (version : N) : ClarificationRecord :=
  {| cc_id := id; cc_task_node_id := task; cc_requested_by := by_; cc_question := "which?"; cc_choices := [];
     cc_checkpoint := {| ck_workspace_version := version; ck_task_contract_artifact_ref := None;
                         ck_outstanding_obligations := []; ck_validation_artifact_refs := [];
                         ck_runtime_receipt_refs := [] |};
     cc_state := CPending; cc_response := None; cc_response_event_id := None |}.

(** Each operation proposed and committed in turn: the [v]-th proposal draws the
    identifier [2 v + 1]. *)
Fixpoint script (v : N) (ops : list (AgoraOperation J N N * ProcessId)) : list AgoraCall :=
  match ops with
  | [] => []
  | (op, a) :: rest => Propose v op a :: CommitProposal (2 * v + 1) None :: script (v + 1) rest
  end.

Definition after_ops (ops : list (AgoraOperation J N N * ProcessId)) : Workspace.Workspace J N N :=
  (agora_run (script 0 ops) (new "s") 0).1.

(** ** The properties at a concrete history *)

Definition sample_ops : list (AgoraOperation J N N * ProcessId) :=
  [(PublishFact "goal" [("text", "ship")], 1);
   (UpsertCognitiveTask (sample_task "a" Executor 1 Running ["src/a"]), 1);
   (ClaimSharedObject "lock", 1);
   (HandoffCognitiveTask "a" 1 2 Fixer (rp_reference (canonical Fixer))
      {| rb_max_input_tokens := 50; rb_max_output_tokens := 50; rb_max_tool_calls := 5; rb_max_elapsed_ms := 500 |}
      ["src/a"], 1);
   (BlockForClarification (sample_question 50 "a" 2 4), 2);
   (ResolveClarification 50 "this one" "event", 2);
   (ReleaseSharedObject "lock", 1)].

Lemma sample_ops_commit : ws_version (after_ops sample_ops) = 7.
Proof. vm_compute. done. Qed.

Lemma nothing_supplied (calls : list (AgoraCall (Json := J) (F32 := N) (F64 := N))) w n :
  Forall (λ c, supplied c = []) calls → supplied_before calls w n.
Proof.
  revert w n. induction calls as [|call rest IH]; intros w n H; cbn [supplied_before]; [exact I|].
  apply Forall_cons in H as [Hc Hr]. rewrite Hc. split; [constructor|].
  destruct (agora_call call w n). by apply IH.
Qed.

Lemma script_supplies_nothing v ops : Forall (λ c, supplied c = []) (script v ops).
Proof. revert v. induction ops as [|[op a] rest IH]; intros v; cbn; [constructor|]. by repeat constructor. Qed.

Lemma replay_rebuilds_workspace_witness :
  ∃ w', replay (ws_commits (after_ops sample_ops)) (new "s") = Ok w'
    ∧ forget w' = forget (after_ops sample_ops).
Proof.
  destruct (replay_rebuilds_workspace "s" (script 0 sample_ops) 0 (after_ops sample_ops)
              (agora_run (script 0 sample_ops) (new "s") 0).2) as (w' & Hr & Hf & _).
  - apply nothing_supplied, script_supplies_nothing.
  - exact (surjective_pairing _).
  - exists w'. split; [exact Hr|exact Hf].
Defined.

Lemma reachable_workspaces_well_formed_witness : committed_wf (after_ops sample_ops).
Proof.
  destruct (reachable_workspaces_well_formed "s" (script 0 sample_ops) 0 (after_ops sample_ops)
              (agora_run (script 0 sample_ops) (new "s") 0).2) as (Hw & _).
  - apply nothing_supplied, script_supplies_nothing.
  - exact (surjective_pairing _).
  - exact Hw.
Defined.

(** The holder releases the lock with one more commit. *)
Lemma commits_respect_authority_witness :
  let w := after_ops (take 3 sample_ops) in
  let w1 := (agora_call (Propose 3 (ReleaseSharedObject "lock") 1) w 6).1 in
  let w2 := (agora_call (CommitProposal 7 None) w1 7).1 in
  ws_claims w !! "lock" = Some 1 ∧ ws_claims w2 !! "lock" = None
  ∧ (ws_commits w2 = ws_commits w1 ∧ forget w2 = forget w1
     ∨ ∃ c, ws_commits w2 = ws_commits w1 ++ [c] ∧ evolves (ac_operation c) (ac_author c) w1 w2).
Proof.
  intros w w1 w2. split_and!; [by vm_compute|by vm_compute|].
  destruct (commits_respect_authority "s"
              (script 0 (take 3 sample_ops) ++ [Propose 3 (ReleaseSharedObject "lock") 1]) 0
              w1 7 (CommitProposal 7 None) w2 8) as [H|(c & Hc & _ & _ & He)].
  - apply nothing_supplied, Forall_app_2; [apply script_supplies_nothing|by repeat constructor].
  - by vm_compute.
  - done.
  - by vm_compute.
  - left. exact H.
  - right. exists c. split; [exact Hc|exact He].
Defined.

(** ** Histories the checks let through *)

(** A blocked task does not hold its scope, and resuming it does not look: two
    active tasks write the same directory. *)
Definition overlapping_ops : list (AgoraOperation J N N * ProcessId) :=
  [(UpsertCognitiveTask (sample_task "a" Executor 1 Running ["src"]), 1);
   (BlockForClarification (sample_question 50 "a" 1 1), 1);
   (UpsertCognitiveTask (sample_task "b" Executor 2 Running ["src"]), 2);
   (ResolveClarification 50 "yes" "event", 1)].

Lemma resumed_task_overlaps :
  ∃ a b, TaskGraph.cognitive (ws_task_graph (after_ops overlapping_ops)) "a" = Some a
    ∧ TaskGraph.cognitive (ws_task_graph (after_ops overlapping_ops)) "b" = Some b
    ∧ active (ct_status a) = true ∧ active (ct_status b) = true
    ∧ scopes_overlap (ct_workspace_scope a) (ct_workspace_scope b) = true.
Proof. do 2 eexists. split_and!; vm_compute; reflexivity. Qed.

(** A clarification under an id in use replaces the record: the first task stays
    blocked with no clarification to resolve. *)
Definition reused_id_ops : list (AgoraOperation J N N * ProcessId) :=
  [(UpsertCognitiveTask (sample_task "a" Planner 1 Running []), 1);
   (UpsertCognitiveTask (sample_task "b" Planner 2 Running []), 2);
   (BlockForClarification (sample_question 50 "a" 1 2), 1);
   (BlockForClarification (sample_question 50 "b" 2 3), 2)].

Lemma reused_clarification_id_loses_the_first :
  ct_status <$> TaskGraph.cognitive (ws_task_graph (after_ops reused_id_ops)) "a" = Some Blocked
  ∧ (cc_task_node_id <$> ws_clarifications (after_ops reused_id_ops) !! 50) = Some "b"
  ∧ size (ws_clarifications (after_ops reused_id_ops)) = 1%nat.
Proof. by vm_compute. Qed.

(** The owner of a blocked task can set it running itself; its clarification then
    stays pending and can no longer be answered. *)
Definition unblocked_ops : list (AgoraOperation J N N * ProcessId) :=
  [(UpsertCognitiveTask (sample_task "a" Planner 1 Running []), 1);
   (BlockForClarification (sample_question 50 "a" 1 1), 1);
   (UpsertCognitiveTask (sample_task "a" Planner 1 Running []), 1)].

Lemma unblocked_task_keeps_its_clarification :
  ct_status <$> TaskGraph.cognitive (ws_task_graph (after_ops unblocked_ops)) "a" = Some Running
  ∧ (cc_state <$> ws_clarifications (after_ops unblocked_ops) !! 50) = Some CPending
  ∧ validate_operation (after_ops unblocked_ops) (ResolveClarification 50 "yes" "event") 1
    = Err "clarification task is not blocked".
Proof. by vm_compute. Qed.
