(* ===== verification/AgoraRegistry.v ===== *)
(** * The durable log of commits and the registry of workspaces

    crates/agora/src/persistence/mod.rs and crates/agora/src/ops/mod.rs.

    [AgoraPersistence] is the interface of the log: its operations, with what the
    registry relies on as laws.  [InMemoryCommitLog] implements it. *)
From S2P Require Import Prelude FabricTypes StdModel Fallible AgoraTypes TaskGraph Workspace WorkspaceRun WorkspaceReplay.
Import Cognitive CognitiveOps Workspace.

#[local] Open Scope N_scope.

(** ** The interface of the log *)

Class AgoraPersistence (Json F32 F64 P : Type) := {
  append_commit : string → AgoraCommit Json F32 F64 → M P string unit;
  recover : string → M P string (list (AgoraCommit Json F32 F64));
  clear_session : string → M P string unit;
}.

(** What a log promises: a new commit goes to the end, recovering gives the
    commits in order, a call that fails changes nothing, and sessions are
    independent. *)
Class AgoraPersistenceOk (Json F32 F64 P : Type) `{AgoraPersistence Json F32 F64 P} := {
  log_of : P → string → list (AgoraCommit Json F32 F64);
  append_spec : ∀ session c p n,
    wp (append_commit session c) (λ r p' n', n ≤ n' ∧ r ≠ Panic
      ∧ (∀ s, s ≠ session → log_of p' s = log_of p s)
      ∧ (r = Ok tt → ac_id c ∉ (ac_id <$> log_of p session) → log_of p' session = log_of p session ++ [c])
      ∧ (r ≠ Ok tt → log_of p' session = log_of p session)) p n;
  recover_spec : ∀ session p n,
    wp (recover session) (λ r p' n', n ≤ n' ∧ r ≠ Panic ∧ log_of p' = log_of p
      ∧ ∀ cs, r = Ok cs → cs = log_of p session) p n;
  clear_spec : ∀ session p n,
    wp (clear_session session) (λ r p' n', n ≤ n' ∧ r ≠ Panic
      ∧ (∀ s, s ≠ session → log_of p' s = log_of p s)
      ∧ (r = Ok tt → log_of p' session = [])
      ∧ (r ≠ Ok tt → log_of p' session = log_of p session)) p n;
}.

(** ** The in-memory log *)

Module InMemoryCommitLog.
Section Model.
Context {Json F32 F64 : Type} `{HAgora : AgoraEnv Json F32 F64}.
Abbreviation Commit := (AgoraCommit Json F32 F64).

Definition InMemoryCommitLog := list (string * Commit).

Definition new : InMemoryCommitLog := [].

Definition append_commit (session : string) (commit : Commit) : M InMemoryCommitLog string unit :=
  entries ← get_state;
  match find (λ e, bool_decide (e.1 = session ∧ ac_id e.2 = ac_id commit)) entries with
  | Some (_, existing) =>
      ensure (bool_decide (commit_bytes existing = commit_bytes commit)) "workspace commit id collision"
  | None => put_state (entries ++ [(session, commit)])
  end.

Definition of_session (session : string) (entries : list (string * Commit)) : list Commit :=
  (filter (λ e, e.1 = session) entries).*2.

Definition recover (session : string) : M InMemoryCommitLog string (list Commit) :=
  entries ← get_state;
  mret (of_session session entries).

Definition clear_session (session : string) : M InMemoryCommitLog string unit :=
  modify (λ entries : list (string * Commit), filter (λ e, e.1 ≠ session) entries).

#[global] Instance in_memory : AgoraPersistence Json F32 F64 InMemoryCommitLog := {|
  AgoraRegistry.append_commit := append_commit;
  AgoraRegistry.recover := recover;
  AgoraRegistry.clear_session := clear_session;
|}.

Lemma of_session_app session l1 l2 :
  of_session session (l1 ++ l2) = of_session session l1 ++ of_session session l2.
Proof. unfold of_session. by rewrite filter_app, fmap_app. Qed.

Lemma find_in_session session (c : Commit) entries :
  find (λ e, bool_decide (e.1 = session ∧ ac_id e.2 = ac_id c)) entries = None
  ↔ ac_id c ∉ (ac_id <$> of_session session entries).
Proof.
  unfold of_session. induction entries as [|e r IH]; [cbn; split; [by intros _ ?%elem_of_nil|done]|].
  rewrite filter_cons. cbn [find]. case_bool_decide as He.
  - destruct He as [He Hid]. rewrite decide_True by done. cbn. rewrite elem_of_cons. naive_solver.
  - rewrite IH. destruct (decide (e.1 = session)) as [Hs|Hs]; [|done]. cbn. rewrite elem_of_cons. naive_solver.
Qed.

Lemma of_session_cleared session s (entries : list (string * Commit)) :
  of_session s (filter (λ e, e.1 ≠ session) entries) = if decide (s = session) then [] else of_session s entries.
Proof.
  unfold of_session. induction entries as [|e r IH]; [by case_decide|]. rewrite !filter_cons.
  destruct (decide (e.1 ≠ session)) as [He|He].
  - rewrite filter_cons. destruct (decide (e.1 = s)) as [<-|Hs]; cbn; rewrite IH; [by rewrite !decide_False by done|done].
  - apply dec_stable in He. rewrite IH. destruct (decide (s = session)) as [|Hs]; [done|].
    rewrite decide_False by congruence. done.
Qed.

(** The in-memory log keeps the promises. *)
#[global] Program Instance in_memory_ok : AgoraPersistenceOk Json F32 F64 InMemoryCommitLog := {|
  log_of p s := of_session s p;
|}.
Next Obligation.
  intros session c p n. unfold wp. cbn. unfold append_commit, mbind, M_bind, get_state.
  destruct (find _ p) as [[s existing]|] eqn:Hf.
  - unfold ensure. case_bool_decide; cbn; split_and!; try done; try lia; intros _ Hn%find_in_session; congruence.
  - cbn. split_and!; try done; try lia; [intros s Hs|intros _ _]; rewrite of_session_app; unfold of_session;
      rewrite filter_cons; cbn; [by rewrite decide_False, app_nil_r by congruence|by rewrite decide_True].
Qed.
Next Obligation.
  intros session p n. unfold wp. cbn. split_and!; try done; try lia. by intros cs [= <-].
Qed.
Next Obligation.
  intros session p n. unfold wp, AgoraRegistry.clear_session, in_memory, clear_session, modify.
  split_and!; try done; try lia.
  - intros s Hs. rewrite of_session_cleared. by rewrite decide_False.
  - intros _. by rewrite of_session_cleared, decide_True.
Qed.

End Model.
End InMemoryCommitLog.

(** ** The registry of workspaces (crates/agora/src/ops/mod.rs)

    [AgoraRegistry]: one workspace per session, the index of pending proposals,
    the sessions already recovered from the log, and the commit transaction that
    writes the log before it changes the workspace.  A method that holds the
    session's gate, or takes the lock of the workspace once, is one step. *)

Module AgoraRegistry.
Section Model.
Context `{HEnv : Env} {Json F32 F64 P : Type} `{HAgora : AgoraEnv Json F32 F64}
  `{HLog : AgoraPersistence Json F32 F64 P}.

Abbreviation WS := (Workspace.Workspace Json F32 F64).
Abbreviation Commit := (AgoraCommit Json F32 F64).
Abbreviation Proposal := (AgoraProposal Json F32 F64).
Abbreviation Operation := (AgoraOperation Json F32 F64).

Record AgoraRegistry := {
  ar_sessions : gmap string WS;
  ar_proposal_index : gmap Uuid string;
  ar_persistence : option P;
  ar_recovered_sessions : gset string;
}.

Definition new : AgoraRegistry :=
  {| ar_sessions := ∅; ar_proposal_index := ∅; ar_persistence := None; ar_recovered_sessions := ∅ |}.

Definition new_with_persistence (persistence : P) : AgoraRegistry :=
  {| ar_sessions := ∅; ar_proposal_index := ∅; ar_persistence := Some persistence;
     ar_recovered_sessions := ∅ |}.

(** ** Access to the parts *)

Definition with_sessions (f : gmap string WS → gmap string WS) (r : AgoraRegistry) : AgoraRegistry :=
  {| ar_sessions := f (ar_sessions r); ar_proposal_index := ar_proposal_index r;
     ar_persistence := ar_persistence r; ar_recovered_sessions := ar_recovered_sessions r |}.

Definition with_index (f : gmap Uuid string → gmap Uuid string) (r : AgoraRegistry) : AgoraRegistry :=
  {| ar_sessions := ar_sessions r; ar_proposal_index := f (ar_proposal_index r);
     ar_persistence := ar_persistence r; ar_recovered_sessions := ar_recovered_sessions r |}.

Definition with_log (p : P) (r : AgoraRegistry) : AgoraRegistry :=
  {| ar_sessions := ar_sessions r; ar_proposal_index := ar_proposal_index r;
     ar_persistence := Some p; ar_recovered_sessions := ar_recovered_sessions r |}.

Definition mark_recovered (session : string) (r : AgoraRegistry) : AgoraRegistry :=
  {| ar_sessions := ar_sessions r; ar_proposal_index := ar_proposal_index r;
     ar_persistence := ar_persistence r; ar_recovered_sessions := {[ session ]} ∪ ar_recovered_sessions r |}.

(** The workspace of a session; one that is not there yet is new. *)
Definition slot (session : string) (r : AgoraRegistry) : WS :=
  default (Workspace.new session) (ar_sessions r !! session).

Definition in_slot {E A} (session : string) (m : M WS E A) : M AgoraRegistry E A :=
  zoom (slot session) (λ w, with_sessions <[session := w]>) m.

(** [if let Some(persistence) = &self.persistence { .. }] *)
Definition on_log {A} (m : M P string A) : M AgoraRegistry string (option A) := λ r n,
  match ar_persistence r with
  | None => (Ok None, r, n)
  | Some p => match m p n with
              | (Ok a, p', n') => (Ok (Some a), with_log p' r, n')
              | (Err e, p', n') => (Err e, with_log p' r, n')
              | (Panic, p', n') => (Panic, with_log p' r, n')
              end
  end.

(** ** Recovery *)

Definition raw_space (session : string) : M AgoraRegistry string unit :=
  r ← get_state;
  match ar_sessions r !! session with
  | Some _ => mret tt
  | None => modify (with_sessions <[session := Workspace.new session]>)
  end.

Definition space (session : string) : M AgoraRegistry string unit :=
  raw_space session ;;
  r ← get_state;
  if decide (session ∈ ar_recovered_sessions r) then mret tt
  else
    commits ← on_log (recover session);
    match commits with
    | Some commits => in_slot session (update (replay commits))
    | None => mret tt
    end ;;
    modify (mark_recovered session).

(** The loop of [recover_session]: how many commits were new. *)
Fixpoint replay_counting (commits : list Commit) (w : WS) : Result string (N * WS) :=
  match commits with
  | [] => Ok (0, w)
  | c :: rest =>
      one ← apply_commit c w;
      more ← replay_counting rest one.2;
      Ok ((if one.1 : bool then 1 else 0) + more.1, more.2)
  end.

(** [recover_session] once the log is read. *)
Definition recover_with (session : string) (commits : list Commit) : M AgoraRegistry string N :=
  match commits with
  | [] => modify (mark_recovered session) ;; mret 0
  | _ =>
      raw_space session ;;
      r ← get_state;
      match replay_counting commits (slot session r) with
      | Ok (replayed, recovered) =>
          in_slot session (put_state recovered) ;;
          modify (mark_recovered session) ;;
          mret replayed
      | Err error => modify (mark_recovered session) ;; throw error
      | Panic => panic
      end
  end.

Definition recover_session (session : string) : M AgoraRegistry string N :=
  commits ← on_log (recover session);
  match commits with
  | None => mret 0
  | Some commits => recover_with session commits
  end.

(** ** The commit transaction *)

(** Up to the point where the commit is durable. *)
Definition prepare_and_append (session : string) (proposal_id : Uuid) (permit : option WorkspaceCommitPermit)
    : M AgoraRegistry string Commit :=
  space session ;;
  prepared ← in_slot session (prepare_commit proposal_id permit);
  map_err (λ error, "persistence write failed: " +:+ error) (on_log (append_commit session prepared)) ;;
  mret prepared.

Definition commit_transaction (session : string) (proposal_id : Uuid) (permit : option WorkspaceCommitPermit)
    : M AgoraRegistry string Commit :=
  prepared ← prepare_and_append session proposal_id permit;
  in_slot session (update (apply_prepared_commit prepared)) ;;
  modify (with_index (delete proposal_id)) ;;
  mret prepared.

(** ** [AgoraOps] *)

Definition recall (session key : string) : M AgoraRegistry string (option Json) :=
  space session ;;
  w ← in_slot session get_state;
  mret (ws_blackboard w !! key).

Definition version (session : string) : M AgoraRegistry string N :=
  space session ;;
  w ← in_slot session get_state;
  mret (ws_version w).

Definition clear (session : string) : M AgoraRegistry string unit :=
  space session ;;
  w ← in_slot session get_state;
  in_slot session (modify Workspace.clear) ;;
  modify (with_index (λ index, foldr delete index (map_to_list (ws_proposals w)).*1)) ;;
  on_log (clear_session session) ;;
  mret tt.

Definition trace (session kind : string) (content : Json) : M AgoraRegistry string unit :=
  space session ;;
  in_slot session (modify (push_trace kind content)).

Definition propose (session : string) (base_version : N) (operation : Operation) (author : ProcessId)
    : M AgoraRegistry string Proposal :=
  space session ;;
  proposal ← in_slot session
    (map_err (λ c, conflict_message (vc_expected c) (vc_actual c))
       (Workspace.propose base_version operation author));
  modify (with_index <[ap_id proposal := session]>) ;;
  mret proposal.

Definition commit (session : string) (proposal_id : Uuid) : M AgoraRegistry string Commit :=
  commit_transaction session proposal_id None.

Definition commit_with_permit (session : string) (proposal_id : Uuid) (permit : WorkspaceCommitPermit)
    : M AgoraRegistry string Commit :=
  if bool_decide (wp_space permit ≠ session ∨ wp_proposal_id permit ≠ proposal_id)
  then throw "commit permit does not address requested transaction"
  else commit_transaction session proposal_id (Some permit).

Definition reject (session : string) (proposal_id : Uuid) (reason : RejectReason)
    : M AgoraRegistry string unit :=
  space session ;;
  found ← in_slot session (λ w n, match Workspace.reject proposal_id reason w with (b, w') => (Ok b, w', n) end);
  ensure found ("proposal " +:+ uuid_display proposal_id +:+ " not found in session " +:+ session) ;;
  modify (with_index (delete proposal_id)).

Definition changes_since (session : string) (since_version : N) : M AgoraRegistry string (list Commit) :=
  reached ← try_ (space session);
  match reached with
  | inl _ => mret []
  | inr _ =>
      w ← in_slot session get_state;
      mret (Workspace.changes_since w since_version)
  end.

(** ** [AgoraService] *)

Definition service_propose (proposal : Proposal) : M AgoraRegistry string Uuid :=
  let session := ap_space proposal in
  space session ;;
  in_slot session (propose_full proposal) ;;
  modify (with_index <[ap_id proposal := session]>) ;;
  mret (ap_id proposal).

Definition indexed (id : Uuid) : M AgoraRegistry string string :=
  r ← get_state;
  ok_or (ar_proposal_index r !! id) ("proposal " +:+ uuid_display id +:+ " not found").

Definition service_commit (id : Uuid) (permit : WorkspaceCommitPermit) : M AgoraRegistry string Commit :=
  ensure (bool_decide (wp_proposal_id permit = id)) "commit permit proposal mismatch" ;;
  session ← indexed id;
  commit_transaction session id (Some permit).

Definition service_reject (id : Uuid) (reason : RejectReason) : M AgoraRegistry string unit :=
  session ← indexed id;
  reject session id reason.

Record AgoraTaskList := {
  tl_space : string;
  tl_workspace_version : N;
  tl_tasks : list CognitiveTaskNode;
}.

Definition list_tasks (space_ : string) : M AgoraRegistry string AgoraTaskList :=
  space space_ ;;
  w ← in_slot space_ get_state;
  mret {| tl_space := space_; tl_workspace_version := ws_version w;
          tl_tasks := TaskGraph.cognitive_nodes (ws_task_graph w) |}.

(** ** Failure of the process *)

(** The process dies and starts again on the same log. *)
Definition crash (r : AgoraRegistry) : AgoraRegistry :=
  {| ar_sessions := ∅; ar_proposal_index := ∅; ar_persistence := ar_persistence r;
     ar_recovered_sessions := ∅ |}.

(** It dies inside a commit, after the log answered and before the workspace
    changed. *)
Definition crash_in_commit (session : string) (proposal_id : Uuid) (permit : option WorkspaceCommitPermit)
    : M AgoraRegistry string unit :=
  ignore (prepare_and_append session proposal_id permit) ;;
  modify crash.

End Model.
Arguments AgoraRegistry : clear implicits.
End AgoraRegistry.
