(* ===== verification/RegistrySpec.v ===== *)
(** * What the registry promises

    The registry refines a store of commit histories that cannot crash: an
    acknowledged commit is in the history of its session, a new registry on the log changes no
    history, and reads answer from the histories alone. *)
From S2P Require Import Prelude FabricTypes StdModel Fallible AgoraTypes TaskGraph Workspace WorkspaceRun WorkspaceReplay WorkspaceSafety AgoraRegistry.
Import Cognitive CognitiveOps Workspace AgoraRegistry.

#[local] Open Scope N_scope.

Section Spec.
Context `{HEnv : Env} {HOk : EnvOk} {Json F32 F64 P : Type} `{HAgora : AgoraEnv Json F32 F64}
  `{HLog : AgoraPersistence Json F32 F64 P} {HLogOk : AgoraPersistenceOk Json F32 F64 P}.
Abbreviation WS := (Workspace.Workspace Json F32 F64).
Abbreviation Commit := (AgoraCommit Json F32 F64).
Abbreviation Reg := (AgoraRegistry Json F32 F64 P).
Implicit Types (w : WS) (c : Commit) (cs : list Commit) (r : Reg) (s : string) (n : N).

(** ** Calls and replies *)

Inductive RegistryCall :=
| RPropose s (base_version : N) (operation : AgoraOperation Json F32 F64) (author : ProcessId)
| RServicePropose (proposal : AgoraProposal Json F32 F64)
| RCommit s (proposal_id : Uuid)
| RCommitWithPermit s (proposal_id : Uuid) (permit : WorkspaceCommitPermit)
| RServiceCommit (id : Uuid) (permit : WorkspaceCommitPermit)
| RReject s (proposal_id : Uuid) (reason : RejectReason)
| RServiceReject (id : Uuid) (reason : RejectReason)
| RTrace s (kind : string) (content : Json)
| RClear s
| RRecover s
| RRecall s (key : string)
| RVersion s
| RChanges s (since_version : N)
| RListTasks s
| RCrash
| RCrashInCommit s (proposal_id : Uuid) (permit : option WorkspaceCommitPermit).

Inductive Reply :=
| Done
| ProposedAs (id : Uuid)
| Committed c
| Replayed (count : N)
| Value (v : option Json)
| AtVersion (v : N)
| Changes cs
| Tasks (l : AgoraTaskList).

Definition replying {A} (f : A → Reply) (m : M Reg string A) : M Reg string Reply := a ← m; mret (f a).

Definition registry_call (call : RegistryCall) : M Reg string Reply :=
  match call with
  | RPropose s base op author => replying (λ p, ProposedAs (ap_id p)) (propose s base op author)
  | RServicePropose p => replying ProposedAs (service_propose p)
  | RCommit s id => replying Committed (commit s id)
  | RCommitWithPermit s id permit => replying Committed (commit_with_permit s id permit)
  | RServiceCommit id permit => replying Committed (service_commit id permit)
  | RReject s id reason => replying (λ _, Done) (reject s id reason)
  | RServiceReject id reason => replying (λ _, Done) (service_reject id reason)
  | RTrace s kind content => replying (λ _, Done) (trace s kind content)
  | RClear s => replying (λ _, Done) (clear s)
  | RRecover s => replying Replayed (recover_session s)
  | RRecall s key => replying Value (recall s key)
  | RVersion s => replying AtVersion (version s)
  | RChanges s v => replying Changes (changes_since s v)
  | RListTasks s => replying Tasks (list_tasks s)
  | RCrash => replying (λ _, Done) (modify crash)
  | RCrashInCommit s id permit => replying (λ _, Done) (crash_in_commit s id permit)
  end.

Fixpoint registry_run (calls : list RegistryCall) r n : list (Result string Reply) * Reg * N :=
  match calls with
  | [] => ([], r, n)
  | call :: rest =>
      match registry_call call r n with
      | (reply, r1, n1) =>
          match registry_run rest r1 n1 with (replies, r2, n2) => (reply :: replies, r2, n2) end
      end
  end.

(** ** The abstract store *)

Abbreviation Store := (string → list Commit).

Definition extend (d : Store) c : Store := λ s, if decide (s = ac_space c) then d s ++ [c] else d s.

Definition erase (d : Store) (session : string) : Store := λ s, if decide (s = session) then [] else d s.

(** The workspace that a history stands for. *)
Definition stands_for (d : Store) s w : Prop :=
  ∃ w', replay (d s) (Workspace.new s) = Ok w' ∧ forget w' = forget w.

Definition appended (d d' : Store) (id : Uuid) c : Prop :=
  ac_id c = id ∧ ac_version c = N.of_nat (length (d (ac_space c))) + 1 ∧ ∀ s, d' s = extend d c s.

Definition same (d d' : Store) : Prop := ∀ s, d' s = d s.

(** What a call may answer on the histories [d], and the histories after it. *)
Definition promised (call : RegistryCall) (reply : Result string Reply) (d d' : Store) : Prop :=
  match call, reply with
  | _, Panic => False
  | (RCommit s id | RCommitWithPermit s id _), Ok (Committed c) => ac_space c = s ∧ appended d d' id c
  | RServiceCommit id _, Ok (Committed c) => appended d d' id c
  | RClear s, Ok Done => ∀ s', d' s' = erase d s s'
  | RRecall s key, Ok (Value v) =>
      same d d' ∧ ∃ w, stands_for d s w ∧ v = ws_blackboard w !! key
  | RVersion s, Ok (AtVersion v) => same d d' ∧ v = N.of_nat (length (d s))
  | RChanges s v, Ok (Changes cs) => same d d' ∧ (cs = drop (N.to_nat v) (d s) ∨ cs = [])
  | RListTasks s, Ok (Tasks l) =>
      same d d' ∧ ∃ w, stands_for d s w ∧ tl_workspace_version l = N.of_nat (length (d s))
        ∧ tl_tasks l = TaskGraph.cognitive_nodes (ws_task_graph w)
  | RCrashInCommit s id _, Ok Done => same d d' ∨ ∃ c, ac_space c = s ∧ appended d d' id c
  | (RPropose _ _ _ _ | RServicePropose _), Ok (ProposedAs _) => same d d'
  | (RReject _ _ _ | RServiceReject _ _ | RTrace _ _ _ | RCrash), Ok Done => same d d'
  | RRecover _, Ok (Replayed _) => same d d'
  | _, Ok _ => False
  | _, Err _ => same d d'
  end.

Inductive promised_run : list RegistryCall → list (Result string Reply) → Store → Store → Prop :=
| promised_nil d d' : same d d' → promised_run [] [] d d'
| promised_cons call calls reply replies d d1 d2 :
    promised call reply d d1 → promised_run calls replies d1 d2 →
    promised_run (call :: calls) (reply :: replies) d d2.

(** ** The invariant *)

Definition histories r : Store := λ s,
  match ar_persistence r with Some p => log_of p s | None => [] end.

(** The log of a session is a history; the workspace in memory is the one it
    leads to, or new when the session is not recovered. *)
Definition session_ok r n s : Prop :=
  ∃ w, agora_inv s w n ∧ ws_commits w = histories r s
    ∧ slot s r = if decide (s ∈ ar_recovered_sessions r) then w else Workspace.new s.

Definition reg_inv r n : Prop := is_Some (ar_persistence r) ∧ ∀ s, session_ok r n s.

(** The identifiers a call brings along are not drawn later. *)
Definition brought (call : RegistryCall) : list Uuid :=
  match call with RServicePropose p => [ap_id p] | _ => [] end.

Fixpoint regular (calls : list RegistryCall) r n : Prop :=
  match calls with
  | [] => True
  | call :: rest =>
      Forall (λ id, ¬ to_come n id) (brought call)
      ∧ match registry_call call r n with (_, r1, n1) => regular rest r1 n1 end
  end.

(** The log can clear a session. *)
Definition clears : Prop := ∀ s (p : P) n, (clear_session s p n).1.1 = Ok tt.

Lemma agora_inv_later s w n n' : agora_inv s w n → n ≤ n' → agora_inv s w n'.
Proof. intros Hi Hn. eapply quiet_inv; [done|done|done|by left]. Qed.

Lemma session_ok_later r n n' s : session_ok r n s → n ≤ n' → session_ok r n' s.
Proof. intros (w & Hi & ?) Hn. exists w. split; [by eapply agora_inv_later|done]. Qed.

Lemma reg_inv_later r n n' : reg_inv r n → n ≤ n' → reg_inv r n'.
Proof. intros [? Hs] Hn. split; [done|]. intros s. by eapply session_ok_later. Qed.

(** A recovered session has its history in memory. *)
Lemma recovered_slot r n s :
  reg_inv r n → s ∈ ar_recovered_sessions r → agora_inv s (slot s r) n ∧ ws_commits (slot s r) = histories r s.
Proof. intros [_ Hs] Hin. destruct (Hs s) as (w & Hi & Hc & Hw). rewrite decide_True in Hw by done. by rewrite Hw. Qed.

Lemma slot_stands_for r n s :
  reg_inv r n → s ∈ ar_recovered_sessions r → stands_for (histories r) s (slot s r).
Proof.
  intros Hr Hin. destruct (recovered_slot _ _ _ Hr Hin) as [Hi Hc].
  unfold stands_for. rewrite <-Hc. apply history_replay, (ai_history _ _ _ Hi).
Qed.

Lemma slot_version r n s :
  reg_inv r n → s ∈ ar_recovered_sessions r → ws_version (slot s r) = N.of_nat (length (histories r s)).
Proof.
  intros Hr Hin. destruct (recovered_slot _ _ _ Hr Hin) as [Hi Hc]. rewrite <-Hc.
  by apply (history_fields _ _ _ (ai_history _ _ _ Hi)).
Qed.

(** ** Frames *)

Lemma slot_insert r s s' w :
  slot s' (with_sessions <[s := w]> r) = if decide (s' = s) then w else slot s' r.
Proof.
  unfold slot. cbn. case_decide; [subst; by rewrite lookup_insert_eq|by rewrite lookup_insert_ne].
Qed.

Lemma session_ok_frame r r' n s :
  histories r' s = histories r s → slot s r' = slot s r →
  (s ∈ ar_recovered_sessions r' ↔ s ∈ ar_recovered_sessions r) → session_ok r n s → session_ok r' n s.
Proof.
  intros Hh Hs Hr (w & Hi & Hc & Hw). exists w. rewrite Hh, Hs. split_and!; [done|done|].
  rewrite Hw. by apply decide_ext.
Qed.

(** Outside the session [s], [r'] is as [r]. *)
Definition apart s r r' : Prop :=
  ∀ s', s' ≠ s → histories r' s' = histories r s' ∧ slot s' r' = slot s' r
    ∧ (s' ∈ ar_recovered_sessions r' ↔ s' ∈ ar_recovered_sessions r).

(** The session [s] is recovered, and the others are as they were. *)
Lemma reg_inv_intro s r r' n n' :
  reg_inv r n → n ≤ n' → apart s r r' → is_Some (ar_persistence r') → s ∈ ar_recovered_sessions r' →
  agora_inv s (slot s r') n' → ws_commits (slot s r') = histories r' s → reg_inv r' n'.
Proof.
  intros [_ Hr] Hn Ha Hp Hin Hi Hc. split; [done|]. intros s'. destruct (decide (s' = s)) as [->|Hne].
  - exists (slot s r'). by rewrite decide_True.
  - destruct (Ha s' Hne) as (? & ? & ?). eapply session_ok_frame; [done..|]. eapply session_ok_later, Hn. apply Hr.
Qed.

Lemma apart_insert s w r : apart s r (with_sessions <[s := w]> r).
Proof. intros s' Hne. split_and!; [done|by rewrite slot_insert, decide_False|done]. Qed.

Lemma apart_mark s r r' : apart s r r' → apart s r (mark_recovered s r').
Proof.
  intros Ha s' Hne. destruct (Ha s' Hne) as (? & ? & Hr). split_and!; [done|done|]. cbn. rewrite <-Hr. set_solver.
Qed.

(** The workspace of a recovered session is replaced by one with the same history. *)
Lemma replace_slot r n n' s w :
  reg_inv r n → n ≤ n' → s ∈ ar_recovered_sessions r → agora_inv s w n' → ws_commits w = histories r s →
  reg_inv (with_sessions <[s := w]> r) n'.
Proof.
  intros Hr Hn Hin Hi Hc. eapply reg_inv_intro; [done|done|apply apart_insert|apply Hr|done|..];
    by rewrite slot_insert, decide_True.
Qed.

(** Replaying the log on the workspace in memory succeeds. *)
Lemma replay_log r n s :
  reg_inv r n → ∃ w, replay (histories r s) (slot s r) = Ok w ∧ agora_inv s w n ∧ ws_commits w = histories r s.
Proof.
  intros [_ Hr]. destruct (Hr s) as (w & Hi & Hc & Hw). rewrite Hw, <-Hc.
  pose proof (history_fields _ _ _ (ai_history _ _ _ Hi)) as (_ & _ & Hnd & _). case_decide.
  - exists w. split_and!; [|done|done]. apply replay_known. intros c Hin. by apply find_by_id.
  - destruct (history_replay _ _ _ (ai_history _ _ _ Hi)) as (w' & Hrep & Hf). exists w'.
    destruct (forget_fields _ _ Hf) as (_ & _ & Hc'). split_and!; [done| |done].
    eapply quiet_inv; [exact Hi|done|done|]. intros id p. by rewrite (replay_proposals _ _ _ Hrep).
Qed.

Lemma replay_counts cs w : rmap snd (replay_counting cs w) = replay cs w.
Proof.
  revert w. induction cs as [|c cs IH]; intros w; [done|]. cbn.
  destruct (apply_commit c w) as [[b w1]| |]; cbn; [|done..]. rewrite <-IH.
  by destruct (replay_counting cs w1) as [[]| |].
Qed.

(** ** The log and recovery *)

Lemma wp_on_log {A} (m : M P string A) p Q r n :
  ar_persistence r = Some p →
  wp m (λ res p' n', Q (rmap Some res) (with_log p' r) n') p n → wp (on_log m) Q r n.
Proof. unfold wp, on_log. intros ->. by destruct (m p n) as [[[] ?] ?]. Qed.

(** The index moves on, the sessions are kept, the histories do not change. *)
Definition quiet r n r' n' : Prop := n ≤ n' ∧ reg_inv r' n' ∧ same (histories r) (histories r').

Lemma raw_space_spec s r n :
  wp (raw_space s) (λ res r' n', res = Ok tt ∧ n' = n ∧ (∀ s', slot s' r' = slot s' r)
    ∧ ar_persistence r' = ar_persistence r ∧ ar_recovered_sessions r' = ar_recovered_sessions r) r n.
Proof.
  unfold raw_space. wp_steps. destruct (ar_sessions r !! s) eqn:Hs; wp_steps; split_and!; try done.
  intros s'. rewrite slot_insert. case_decide as He; [subst|done]. unfold slot. by rewrite Hs.
Qed.

Lemma same_slots_inv r r' n :
  (∀ s', slot s' r' = slot s' r) → ar_persistence r' = ar_persistence r →
  ar_recovered_sessions r' = ar_recovered_sessions r → reg_inv r n → reg_inv r' n ∧ same (histories r) (histories r').
Proof.
  intros Hs Hp Hr [Hsome Hok]. assert (same (histories r) (histories r')) as Hsame
    by (intros s; unfold histories; by rewrite Hp).
  split; [|done]. split; [by rewrite Hp|]. intros s. eapply session_ok_frame, Hok; [apply Hsame|apply Hs|by rewrite Hr].
Qed.

(** Reading the log. *)
Lemma read_log_spec s r n :
  reg_inv r n →
  wp (on_log (recover s)) (λ res r' n', quiet r n r' n' ∧ res ≠ Panic
    ∧ (∀ s', slot s' r' = slot s' r) ∧ ar_recovered_sessions r' = ar_recovered_sessions r
    ∧ ∀ o, res = Ok o → o = Some (histories r' s)) r n.
Proof.
  intros Hi. destruct (proj1 Hi) as [p Hp]. eapply wp_on_log; [done|]. eapply wp_mono; [apply recover_spec|]. cbn.
  intros res p' n' (Hn & Hpan & Hlog & Hres).
  assert (same (histories r) (histories (with_log p' r))) as Hsame
    by (intros s'; unfold histories; cbn; by rewrite Hp, Hlog).
  split_and!; try done.
  - split; [done|]. split; [|done]. split; [done|]. intros s'.
    eapply session_ok_frame; [apply Hsame|done|done|]. eapply session_ok_later, Hn. apply Hi.
  - by destruct res.
  - intros o Ho. destruct res as [cs| |]; cbn in Ho; simplify_eq. rewrite (Hres cs) by done.
    unfold histories. cbn. by rewrite Hlog.
Qed.

Lemma quiet_trans r n r1 n1 r2 n2 : quiet r n r1 n1 → quiet r1 n1 r2 n2 → quiet r n r2 n2.
Proof. intros (? & _ & Hs1) (? & ? & Hs2). split; [lia|]. split; [done|]. intros s. by rewrite Hs2. Qed.

Lemma quiet_refl r n : reg_inv r n → quiet r n r n.
Proof. intros ?. by split_and!. Qed.

Lemma recovered_now s r n w :
  reg_inv r n → agora_inv s w n → ws_commits w = histories r s →
  reg_inv (mark_recovered s (with_sessions <[s := w]> r)) n.
Proof.
  intros Hr Hi Hc. eapply (reg_inv_intro s r); [done|done|apply apart_mark, apart_insert|apply Hr|set_solver|..].
  - by replace (slot s _) with w by (symmetry; change (slot s (with_sessions <[s:=w]> r) = w); by rewrite slot_insert, decide_True).
  - change (ws_commits (slot s (with_sessions <[s:=w]> r)) = histories r s). by rewrite slot_insert, decide_True.
Qed.

Lemma space_spec s r n :
  reg_inv r n →
  wp (space s) (λ res r' n', quiet r n r' n' ∧ res ≠ Panic ∧ (res = Ok tt → s ∈ ar_recovered_sessions r')) r n.
Proof.
  intros Hi. unfold space. wp_steps. eapply wp_mono; [apply raw_space_spec|].
  intros res r1 n1 (-> & -> & Hs & Hp & Hr). destruct (same_slots_inv _ _ _ Hs Hp Hr Hi) as [Hi1 Hsame].
  wp_steps. case_decide as Hin; wp_steps; [by split_and!|]. eapply wp_mono; [by apply (read_log_spec s)|].
  intros res r2 n2 (Hq & Hpan & Hs2 & Hr2 & Hres).
  assert (quiet r n r2 n2) as Hq0 by (eapply quiet_trans; [by split_and!|exact Hq]).
  destruct res as [o|e|]; [|by split_and!|done]. rewrite (Hres o eq_refl). wp_steps.
  destruct Hq as (Hn & Hi2 & _). destruct (replay_log r2 n2 s Hi2) as (w & Hrep & Hw & Hc).
  unfold in_slot. wp_steps. unfold wp, update. rewrite Hrep. cbn. split_and!; [|done|set_solver].
  eapply quiet_trans; [exact Hq0|]. split; [done|]. split; [by apply recovered_now|done].
Qed.

Lemma recover_with_spec s r n :
  reg_inv r n →
  wp (recover_with s (histories r s)) (λ res r' n', quiet r n r' n' ∧ ∃ k, res = Ok k) r n.
Proof.
  intros Hi. unfold recover_with. destruct (histories r s) as [|c cs] eqn:Hh.
  - wp_steps. split; [|eauto]. split; [done|]. split; [|done].
    destruct (replay_log r n s Hi) as (w & Hrep & Hw & Hc). rewrite Hh in Hrep, Hc. injection Hrep as <-.
    eapply (reg_inv_intro s r); [done|done|by apply apart_mark|apply Hi|set_solver|done|].
    change (ws_commits (slot s r) = histories r s). congruence.
  - wp_steps. eapply wp_mono; [apply raw_space_spec|]. intros res r1 n1 (-> & -> & Hs & Hp & Hr).
    destruct (same_slots_inv _ _ _ Hs Hp Hr Hi) as [Hi1 Hsame]. wp_steps. rewrite Hs, <-Hh.
    destruct (replay_log r n s Hi) as (w & Hrep & Hw & Hc). rewrite <-replay_counts in Hrep.
    destruct (replay_counting _ _) as [[k w']| |]; cbn in Hrep; simplify_eq. unfold in_slot. wp_steps.
    split; [|eauto]. split; [done|]. split; [|done]. apply recovered_now; [done|done|]. by rewrite Hsame.
Qed.

Lemma recover_session_spec s r n :
  reg_inv r n → wp (recover_session s) (λ res r' n', quiet r n r' n' ∧ res ≠ Panic) r n.
Proof.
  intros Hi. unfold recover_session. wp_steps. eapply wp_mono; [by apply (read_log_spec s)|].
  intros res r1 n1 (Hq & Hpan & _ & _ & Hres). destruct res as [o|e|]; [|by split|done].
  rewrite (Hres o eq_refl). eapply wp_mono; [apply recover_with_spec, Hq|].
  intros res r2 n2 (Hq2 & k & ->). split; [by eapply quiet_trans|done].
Qed.

(** ** Steps on one workspace *)

(** A step that keeps the history of a recovered session. *)
Lemma in_slot_spec {E A} s (m : M WS E A) (Q : Result E A → WS → N → Prop) r n :
  reg_inv r n → s ∈ ar_recovered_sessions r →
  (agora_inv s (slot s r) n →
   wp m (λ res w n', n ≤ n' ∧ agora_inv s w n' ∧ ws_commits w = ws_commits (slot s r) ∧ Q res w n') (slot s r) n) →
  wp (in_slot s m) (λ res r' n', quiet r n r' n' ∧ s ∈ ar_recovered_sessions r' ∧ Q res (slot s r') n') r n.
Proof.
  intros Hi Hin Hm. destruct (recovered_slot _ _ _ Hi Hin) as [Hw Hc]. unfold in_slot. wp_steps.
  eapply wp_mono; [by apply Hm|]. cbn. intros res w n' (Hn & Hw' & Hc' & HQ). split_and!; [|done|].
  - split; [done|]. split; [|done]. eapply replace_slot; [done|done|done|done|congruence].
  - by rewrite slot_insert, decide_True.
Qed.

(** A method that reaches the workspace and runs a step that keeps its history. *)
Lemma in_space_spec {A B} s (m : M WS string A) (k : A → M Reg string B)
    (Q : Result string A → WS → N → Prop) (Q' : Result string B → Reg → N → Prop) r n :
  reg_inv r n →
  (∀ w n0, agora_inv s w n0 → n ≤ n0 →
   wp m (λ res w' n', n0 ≤ n' ∧ agora_inv s w' n' ∧ ws_commits w' = ws_commits w ∧ Q res w' n') w n0) →
  (∀ e r' n', quiet r n r' n' → Q' (Err e) r' n') →
  (∀ w n', ¬ Q Panic w n') →
  (∀ a r' n', quiet r n r' n' → s ∈ ar_recovered_sessions r' → Q (Ok a) (slot s r') n' → wp (k a) Q' r' n') →
  wp (space s ;; in_slot s m ≫= k) Q' r n.
Proof.
  intros Hi Hm Herr Hpan Hk. wp_steps. eapply wp_mono; [by apply space_spec|]. intros res r1 n1 (Hq & Hp & Hin).
  destruct res as [[]|e|]; [|by apply Herr|done]. wp_steps.
  eapply wp_mono; [apply (in_slot_spec s m Q)|]; [apply Hq|by apply Hin| |].
  - intros Hw. apply Hm; [done|apply Hq].
  - intros res r2 n2 (Hq2 & Hin2 & HQ). pose proof (quiet_trans _ _ _ _ _ _ Hq Hq2).
    destruct res as [a|e|]; [by apply Hk|by apply Herr|by apply Hpan in HQ].
Qed.

(** Reading the workspace. *)
Lemma read_space_spec {A} s (f : WS → A) r n :
  reg_inv r n →
  wp (space s ;; w ← in_slot s get_state; mret (f w)) (λ res r' n', quiet r n r' n'
    ∧ ((∃ e, res = Err e) ∨ ∃ w, res = Ok (f w) ∧ stands_for (histories r) s w
         ∧ ws_commits w = histories r s ∧ ws_version w = N.of_nat (length (histories r s)))) r n.
Proof.
  intros Hi. eapply (in_space_spec s get_state _ (λ res w n', res = Ok w)); [done| | |done|].
  - intros w n0 Hw Hn. wp_steps. by split_and!.
  - intros e r' n' Hq. split; [done|]. left. eauto.
  - intros w r' n' Hq Hin [= ->]. wp_steps. split; [done|]. right. exists (slot s r'). destruct Hq as (Hn & Hi' & Hs).
    split_and!; [done| | |].
    + unfold stands_for. rewrite <-(Hs s). by eapply slot_stands_for.
    + rewrite <-(Hs s). by eapply recovered_slot.
    + rewrite <-(Hs s). by eapply slot_version.
Qed.

(** ** Proposals, rejections and the trace *)

Definition quietly {A} r n (res : Result string A) r' n' : Prop := quiet r n r' n' ∧ res ≠ Panic.

Lemma propose_spec s base op author r n :
  reg_inv r n → wp (propose s base op author) (quietly r n) r n.
Proof.
  intros Hi. apply (in_space_spec s _ _ (λ res _ _, res ≠ Panic)); [done| |by split| |].
  - intros w n0 Hw _. pose proof (propose_inv s base op author w n0 Hw) as Hinv. wp_steps. revert Hinv.
    unfold Workspace.propose. unfold wp, mbind, M_bind, get_state, ensure. case_bool_decide; cbn; intros; split_and!; done || lia.
  - by intros w n' H.
  - intros p r' n' Hq Hin _. wp_steps. by split.
Qed.

Lemma service_propose_spec p r n :
  reg_inv r n → ¬ to_come n (ap_id p) → wp (service_propose p) (quietly r n) r n.
Proof.
  intros Hi Hp. apply (in_space_spec (ap_space p) _ _ (λ res _ _, res ≠ Panic)); [done| |by split| |].
  - intros w n0 Hw Hn. assert (¬ to_come n0 (ap_id p)) as Hp' by (intros Ht; by eapply Hp, to_come_mono).
    pose proof (propose_full_inv _ p w n0 Hw Hp') as Hinv. revert Hinv.
    unfold propose_full. unfold wp, mbind, M_bind, get_state, ensure.
    case_bool_decide; cbn; [|intros; by split_and!]. case_bool_decide; cbn; [|intros; by split_and!].
    destruct (_ && _); cbn; intros; by split_and!.
  - by intros w n' H.
  - intros u r' n' Hq Hin _. wp_steps. by split.
Qed.

Lemma reject_spec s id reason r n :
  reg_inv r n → wp (reject s id reason) (quietly r n) r n.
Proof.
  intros Hi. apply (in_space_spec s _ _ (λ res _ _, res ≠ Panic)); [done| |by split| |].
  - intros w n0 Hw _. pose proof (agora_call_inv s (RejectProposal id reason) w n0 Hw (Forall_nil_2 _)) as Hinv.
    revert Hinv. cbn. unfold wp, Workspace.reject. by destruct (ws_proposals w !! id); cbn; intros; split_and!.
  - by intros w n' H.
  - intros found r' n' Hq Hin _. wp_steps; by split.
Qed.

Lemma trace_spec s kind content r n :
  reg_inv r n → wp (trace s kind content) (quietly r n) r n.
Proof.
  intros Hi. unfold trace. wp_steps. eapply wp_mono; [by apply space_spec|]. intros res r1 n1 (Hq & Hp & Hin).
  destruct res as [[]|e|]; [|by split|done].
  eapply wp_mono; [apply (in_slot_spec s _ (λ res _ _, res ≠ Panic))|]; [apply Hq|by apply Hin| |].
  - intros Hw. wp_steps. split_and!; [done| |done|done].
    apply (agora_call_inv s (AuditTrace kind content) _ _ Hw (Forall_nil_2 _)).
  - intros res r2 n2 (Hq2 & _ & Hres). split; [by eapply quiet_trans|done].
Qed.

(** ** The commit transaction *)

Lemma prepare_spec s id permit w n :
  agora_inv s w n →
  wp (prepare_commit id permit) (λ res w1 n1, w1 = w ∧ n ≤ n1 ∧ res ≠ Panic
    ∧ ∀ c, res = Ok c → ∃ w', apply_prepared_commit c w = Ok w' ∧ accepts w c w' ∧ ac_id c = id
        ∧ agora_inv s w' n1) w n.
Proof.
  intros Hi. unfold prepare_commit. wp_steps; [|by split_and!]. unfold wp, lift.
  split_and!; [done|lia|apply prepare_at_calm|]. intros c Hc.
  destruct (prepared_applies w id a permit _ c (ai_pending _ _ _ Hi) H Hc) as (w' & Hw & Hacc & Hid & Hpr).
  exists w'. split_and!; try done. eapply accepts_inv; [done|lia|done| |].
  - rewrite Hid. by eapply (ai_proposals_known _ _ _ Hi).
  - intros id' q. rewrite Hpr. by intros [_ ?]%lookup_delete_Some.
Qed.

(** The commit is in the log; the workspace is about to change to [w]. *)
Record durable s (id : Uuid) c w r r1 n1 : Prop := {
  du_appended : ac_space c = s ∧ appended (histories r) (histories r1) id c;
  du_applies : apply_prepared_commit c (slot s r1) = Ok w;
  du_inv : agora_inv s w n1;
  du_commits : ws_commits w = histories r1 s;
  du_recovered : s ∈ ar_recovered_sessions r1;
  du_others : ∃ r0 n0, reg_inv r0 n0 ∧ n0 ≤ n1 ∧ apart s r0 r1;
  du_log : is_Some (ar_persistence r1);
}.

Lemma append_durable s c p p' r :
  (∀ s', s' ≠ s → log_of p' s' = log_of p s') → log_of p' s = log_of p s ++ [c] →
  ar_persistence r = Some p → ac_space c = s →
  ∀ s', histories (with_log p' r) s' = extend (histories r) c s'.
Proof.
  intros Ho Hl Hp <- s'. unfold histories, extend. cbn. rewrite Hp. case_decide; [by subst|by apply Ho].
Qed.

Lemma prepare_and_append_spec s id permit r n :
  reg_inv r n →
  wp (prepare_and_append s id permit) (λ res r' n', n ≤ n' ∧ match res with
    | Ok c => ∃ w, durable s id c w r r' n'
    | Err _ => quiet r n r' n'
    | Panic => False
    end) r n.
Proof.
  intros Hi. unfold prepare_and_append.
  apply (in_space_spec s _ _ (λ res w n1, res ≠ Panic ∧ ∀ c, res = Ok c →
    ∃ w', apply_prepared_commit c w = Ok w' ∧ accepts w c w' ∧ ac_id c = id ∧ agora_inv s w' n1)); [done| | | |].
  - intros w n0 Hw _. eapply wp_mono; [by apply prepare_spec|]. intros res w1 n1 (-> & Hn & Hp & Hc).
    split_and!; try done. by eapply agora_inv_later.
  - intros e r' n' Hq. split; [apply Hq|done].
  - by intros w n' [? _].
  - intros c r1 n1 (Hn1 & Hi1 & Hs1) Hin [_ Hc]. destruct (Hc c eq_refl) as (w' & Ha & Hacc & Hid & Hw').
    destruct (proj1 Hi1) as [p Hp]. destruct (recovered_slot _ _ _ Hi1 Hin) as [Hsl Hcs].
    destruct (accepts_fields _ _ _ Hacc) as (_ & _ & Hcs').
    assert (histories r1 s = log_of p s) as Hh by (unfold histories; by rewrite Hp).
    assert (ac_space c = s) as Hsp by (rewrite (ac_here _ _ _ Hacc); apply Hsl).
    wp_steps. eapply wp_on_log; [done|]. eapply wp_mono; [apply append_spec|]. cbn.
    intros res p' n' (Hn & Hpan & Ho & Hok & Hno). destruct res as [[]|e|]; [|clear Hok|done]; cbn.
    + assert (log_of p' s = log_of p s ++ [c]) as Hl.
      { apply Hok; [done|]. rewrite <-Hh, <-Hcs. apply (ac_fresh _ _ _ Hacc). }
      pose proof (append_durable s c p p' r1 Ho Hl Hp Hsp) as Hext. wp_steps. split; [lia|]. exists w'. split.
      * split; [done|]. split; [done|]. rewrite Hsp, <-(Hs1 s), <-(slot_version _ _ _ Hi1 Hin).
        split; [apply (ac_next _ _ _ Hacc)|]. intros s'. rewrite Hext. unfold extend. by rewrite (Hs1 s').
      * done.
      * by eapply agora_inv_later.
      * rewrite Hext, Hcs', Hcs. unfold extend. by rewrite decide_True.
      * done.
      * exists r1, n1. split_and!; [done|done|]. intros s' Hne. split_and!; try done.
        rewrite Hext. unfold extend. by rewrite decide_False by congruence.
      * done.
    + assert (same (histories r1) (histories (with_log p' r1))) as Hsame.
      { intros s'. unfold histories. cbn. rewrite Hp. destruct (decide (s' = s)) as [->|?]; [by apply Hno|by apply Ho]. }
      split; [lia|]. eapply (quiet_trans _ _ r1 n1); [done|]. split; [done|]. split; [|done]. split; [done|].
      intros s'. eapply session_ok_frame; [apply Hsame|done|done|]. eapply session_ok_later, Hn. apply Hi1.
Qed.

Lemma commit_transaction_spec s id permit r n :
  reg_inv r n →
  wp (commit_transaction s id permit) (λ res r' n', n ≤ n' ∧ reg_inv r' n' ∧ match res with
    | Ok c => ac_space c = s ∧ appended (histories r) (histories r') id c
    | Err _ => same (histories r) (histories r')
    | Panic => False
    end) r n.
Proof.
  intros Hi. unfold commit_transaction. wp_steps. eapply wp_mono; [by apply prepare_and_append_spec|].
  intros res r1 n1 [Hn Hres]. destruct res as [c|e|]; [|by split_and!; apply Hres|done].
  destruct Hres as [w [Happ Hap Hw Hc Hin (r0 & n0 & Hi0 & Hn0 & Hapart) Hlog]]. unfold in_slot. wp_steps.
  unfold wp, update. rewrite Hap. cbn. split_and!; [done| |apply Happ..].
  eapply (reg_inv_intro s r0); [done|done| |done|done|..].
  - intros s' Hne. destruct (Hapart s' Hne) as (? & ? & ?). split_and!; try done.
    change (slot s' (with_sessions <[s:=w]> r1) = slot s' r0). by rewrite slot_insert, decide_False.
  - change (agora_inv s (slot s (with_sessions <[s:=w]> r1)) n1). by rewrite slot_insert, decide_True.
  - change (ws_commits (slot s (with_sessions <[s:=w]> r1)) = histories r1 s). by rewrite slot_insert, decide_True.
Qed.

(** After a restart every session is to be recovered. *)
Lemma crash_inv r n :
  is_Some (ar_persistence r) → (∀ s, ∃ w, agora_inv s w n ∧ ws_commits w = histories r s) → reg_inv (crash r) n.
Proof.
  intros Hp Hs. split; [done|]. intros s. destruct (Hs s) as (w & ? & ?). exists w. split_and!; [done|done|].
  rewrite decide_False by apply not_elem_of_empty. unfold slot. cbn. by rewrite lookup_empty.
Qed.

Lemma session_history r n s : session_ok r n s → ∃ w, agora_inv s w n ∧ ws_commits w = histories r s.
Proof. intros (w & ? & ? & _). eauto. Qed.

Lemma crash_in_commit_spec s id permit r n :
  reg_inv r n →
  wp (crash_in_commit s id permit) (λ res r' n', n ≤ n' ∧ reg_inv r' n' ∧ res = Ok tt
    ∧ (same (histories r) (histories r') ∨ ∃ c, ac_space c = s ∧ appended (histories r) (histories r') id c)) r n.
Proof.
  intros Hi. unfold crash_in_commit. wp_steps. eapply wp_mono; [by apply prepare_and_append_spec|].
  intros res r1 n1 [Hn Hres]. destruct res as [c|e|]; [| |done]; wp_steps; split_and!; try done.
  - destruct Hres as [w [Happ Hap Hw Hc Hin (r0 & n0 & Hi0 & Hn0 & Hapart) Hlog]]. apply crash_inv; [done|].
    intros s'. destruct (decide (s' = s)) as [->|Hne]; [by exists w|]. destruct (Hapart s' Hne) as (-> & _ & _).
    eapply session_history, session_ok_later, Hn0. apply Hi0.
  - destruct Hres as [w Hd]. right. exists c. apply Hd.
  - destruct Hres as (_ & [? Hs] & _). apply crash_inv; [done|]. intros s'. by eapply session_history.
  - left. apply Hres.
Qed.

(** [clear], on a log that can. *)
Lemma clear_registry_spec s r n :
  clears → reg_inv r n →
  wp (clear s) (λ res r' n', n ≤ n' ∧ reg_inv r' n' ∧ match res with
    | Ok _ => ∀ s', histories r' s' = erase (histories r) s s'
    | Err _ => same (histories r) (histories r')
    | Panic => False
    end) r n.
Proof.
  intros Hcl Hi. unfold clear. wp_steps. eapply wp_mono; [by apply space_spec|]. intros res r1 n1 (Hq & Hp & Hin).
  destruct res as [[]|e|]; [|by split_and!; apply Hq|done]. unfold in_slot. wp_steps.
  destruct Hq as (Hn & Hi1 & Hs). destruct (proj1 Hi1) as [p Hpe]. destruct (recovered_slot _ _ _ Hi1 (Hin eq_refl)) as [Hw _].
  eapply wp_on_log; [done|]. pose proof (clear_spec s p n1) as Hspec. unfold wp in *. specialize (Hcl s p n1).
  destruct (clear_session s p n1) as [[res p'] n']. cbn in Hcl. subst res. destruct Hspec as (Hn' & _ & Ho & Hok & _). cbn.
  split; [lia|]. match goal with |- reg_inv ?x _ ∧ _ => set (r' := x) end.
  assert (∀ s', histories r' s' = erase (histories r) s s') as Hh.
  { intros s'. unfold erase. rewrite <-(Hs s'). unfold histories. subst r'. cbn. rewrite Hpe.
    case_decide; [subst; by apply Hok|by apply Ho]. }
  split; [|done].
  assert (slot s r' = Workspace.new s) as Hsl.
  { subst r'. unfold slot. cbn. rewrite !lookup_insert_eq. cbn. unfold Workspace.clear.
    f_equal. apply (ai_session _ _ _ Hw). }
  eapply (reg_inv_intro s r1); [done|exact Hn'| |by exists p'|by apply Hin| |].
  - intros s' Hne. split_and!; [rewrite Hh; unfold erase; rewrite decide_False by done; by rewrite (Hs s')| |done].
    subst r'. unfold slot. cbn. by rewrite !lookup_insert_ne.
  - rewrite Hsl. apply new_inv.
  - rewrite Hsl, Hh. unfold erase. by rewrite decide_True.
Qed.

(** ** The simulation *)

Lemma wp_replying {A} (f : A → Reply) (m : M Reg string A) Q r n :
  wp m (λ res r' n', Q (rmap f res) r' n') r n → wp (replying f m) Q r n.
Proof. unfold replying. intros H. wp_steps. eapply wp_mono; [exact H|]. by intros [a|e|] r' n'. Qed.

(** What holds after a call that answered as promised. *)
Definition steps (call : RegistryCall) r n (reply : Result string Reply) r' n' : Prop :=
  n ≤ n' ∧ reg_inv r' n' ∧ promised call reply (histories r) (histories r').

Lemma quietly_steps {A} (call : RegistryCall) (f : A → Reply) r n (res : Result string A) r' n' :
  (∀ a d d', promised call (Ok (f a)) d d' ↔ same d d') → (∀ e d d', promised call (Err e) d d' ↔ same d d') →
  quietly r n res r' n' → steps call r n (rmap f res) r' n'.
Proof.
  intros Hok Herr [(? & ? & Hs) Hp]. split_and!; [done|done|]. destruct res; cbn; [by apply Hok|by apply Herr|done].
Qed.

Lemma indexed_spec {A} id (k : string → M Reg string A) Q r n :
  (∀ s, wp (k s) Q r n) → (∀ e, Q (Err e) r n) → wp (indexed id ≫= k) Q r n.
Proof. intros Hk He. unfold indexed. wp_steps; [by apply Hk|by apply He]. Qed.

Lemma commit_steps (call : RegistryCall) s id permit r n :
  (∀ c d d', ac_space c = s → appended d d' id c → promised call (Ok (Committed c)) d d') →
  (∀ e d d', same d d' → promised call (Err e) d d') →
  reg_inv r n →
  wp (commit_transaction s id permit) (λ res r' n', steps call r n (rmap Committed res) r' n') r n.
Proof.
  intros Hok Herr Hi. eapply wp_mono; [by apply commit_transaction_spec|].
  intros res r' n' (? & ? & Hres). split_and!; [done|done|]. destruct res; cbn; [|by apply Herr|done].
  destruct Hres. by apply Hok.
Qed.

Lemma read_steps {A} (call : RegistryCall) (g : A → Reply) s (f : WS → A) r n :
  (∀ w d d', stands_for d s w → ws_commits w = d s → ws_version w = N.of_nat (length (d s)) → same d d' →
     promised call (Ok (g (f w))) d d') →
  (∀ e d d', same d d' → promised call (Err e) d d') →
  reg_inv r n →
  wp (space s ;; w ← in_slot s get_state; mret (f w)) (λ res r' n', steps call r n (rmap g res) r' n') r n.
Proof.
  intros Hok Herr Hi. eapply wp_mono; [by apply read_space_spec|].
  intros res r' n' ((? & ? & Hs) & [[e ->]|(w & -> & ? & ? & ?)]); (split_and!; [done|done|]); cbn; [by apply Herr|].
  by apply Hok.
Qed.

Lemma service_commit_steps id permit r n :
  reg_inv r n →
  wp (service_commit id permit)
    (λ res r' n', steps (RServiceCommit id permit) r n (rmap Committed res) r' n') r n.
Proof.
  intros Hi. unfold service_commit. apply wp_bind, wp_ensure; intros _; [|by split_and!].
  apply indexed_spec; [|intros e; by split_and!]. intros s. by apply commit_steps.
Qed.

Lemma changes_steps s v r n :
  reg_inv r n → wp (changes_since s v) (λ res r' n', steps (RChanges s v) r n (rmap Changes res) r' n') r n.
Proof.
  intros Hi. unfold changes_since. wp_steps. eapply wp_mono; [by apply space_spec|].
  intros res r1 n1 ((Hn & Hi1 & Hs) & Hp & Hin). destruct res as [[]|e|]; [| |done]; cbn.
  - unfold in_slot. wp_steps. destruct (recovered_slot _ _ _ Hi1 (Hin eq_refl)) as [Hw Hc]. split_and!; [done| |].
    + by eapply replace_slot; [done|done|apply Hin|..].
    + cbn. split; [done|]. left. unfold Workspace.changes_since. by rewrite Hc, (Hs s).
  - wp_steps. split_and!; [done|done|]. cbn. split; [done|by right].
Qed.

Lemma registry_call_steps call r n :
  clears → reg_inv r n → Forall (λ id, ¬ to_come n id) (brought call) →
  wp (registry_call call) (steps call r n) r n.
Proof.
  intros Hcl Hi Hb.
  destruct call; cbn [registry_call brought] in *.
  (* calls that change no history *)
  all: try (apply wp_replying; eapply wp_mono;
            [first [by apply propose_spec|apply service_propose_spec; [done|by rewrite Forall_singleton in Hb]
                   |by apply reject_spec|by apply trace_spec|by apply recover_session_spec]
            |intros res r' n'; by apply quietly_steps]).
  - apply wp_replying. by apply commit_steps.
  - apply wp_replying. unfold commit_with_permit. case_bool_decide; [by split_and!|]. by apply commit_steps.
  - apply wp_replying. by apply service_commit_steps.
  - apply wp_replying. apply indexed_spec; [|intros e; by split_and!]. intros s. eapply wp_mono; [by apply reject_spec|].
    intros res r' n'. by apply quietly_steps.
  - apply wp_replying. eapply wp_mono; [by apply clear_registry_spec|]. cbn. intros res r' n' (Hn & Hi' & Hok).
    destruct res as [[]| |]; by split_and!.
  - apply wp_replying. apply read_steps; [|done|done]. intros w d d' ? ? ? ?. split; [done|]. by exists w.
  - apply wp_replying. apply read_steps; [|done|done]. by intros w d d' ? ? ? ?.
  - apply wp_replying. by apply changes_steps.
  - apply wp_replying. apply (read_steps _ _ s (λ w, {| tl_space := s; tl_workspace_version := ws_version w;
      tl_tasks := TaskGraph.cognitive_nodes (ws_task_graph w) |})); [|done|done].
    intros w d d' ? ? ? ?. split; [done|]. by exists w.
  - apply wp_replying. wp_steps. split_and!; [done| |done]. apply crash_inv; [apply Hi|].
    intros s. eapply session_history, Hi.
  - apply wp_replying. eapply wp_mono; [by apply crash_in_commit_spec|].
    intros res r' n' (? & ? & -> & ?). by split_and!.
Qed.

Lemma registry_run_steps calls r n :
  clears → reg_inv r n → regular calls r n →
  match registry_run calls r n with
  | (replies, r', n') => reg_inv r' n' ∧ promised_run calls replies (histories r) (histories r')
  end.
Proof.
  intros Hcl. revert r n. induction calls as [|call rest IH]; intros r n Hi; [intros _; cbn; split; [done|by constructor]|].
  cbn [registry_run regular]. intros [Hb Hrest].
  pose proof (registry_call_steps call r n Hcl Hi Hb) as Hc. unfold wp in Hc.
  destruct (registry_call call r n) as [[reply r1] n1]. destruct Hc as (_ & Hi1 & Hp). specialize (IH r1 n1 Hi1 Hrest).
  destruct (registry_run rest r1 n1) as [[replies r2] n2]. destruct IH. split; [done|by econstructor].
Qed.

Lemma promised_run_ext calls replies d d1 d2 :
  promised_run calls replies d d1 → (∀ s, d1 s = d2 s) → promised_run calls replies d d2.
Proof.
  induction 1 as [d d1 Hs|call calls reply replies d d1 d3 Hp _ IH]; intros He; [constructor|].
  - intros s. by rewrite <-He.
  - econstructor; [done|]. by apply IH.
Qed.

(** On every log that keeps its promises and can clear: the registry refines the
    store. *)
Lemma registry_refines_store p n calls replies r n' :
  clears → (∀ s, log_of p s = []) → regular calls (new_with_persistence p) n →
  registry_run calls (new_with_persistence p) n = (replies, r, n') →
  promised_run calls replies (log_of p) (histories r)
  ∧ ∀ s, s ∈ ar_recovered_sessions r → stands_for (histories r) s (slot s r).
Proof.
  intros Hcl Hp Hreg Hrun.
  assert (reg_inv (new_with_persistence p) n) as Hi.
  { apply (crash_inv (new_with_persistence p)); [done|]. intros s. exists (Workspace.new s). split; [apply new_inv|].
    unfold histories. cbn. by rewrite Hp. }
  pose proof (registry_run_steps calls _ n Hcl Hi Hreg) as H. rewrite Hrun in H. destruct H as [Hi' Hpr]. split.
  - exact Hpr.
  - intros s Hin. by eapply slot_stands_for.
Qed.

End Spec.

(** ** On the in-memory log *)

Section InMemoryRuns.
Context `{HEnv : Env} {HOk : EnvOk} {Json F32 F64 : Type} `{HAgora : AgoraEnv Json F32 F64}.
Abbreviation Log := (InMemoryCommitLog.InMemoryCommitLog (Json := Json) (F32 := F32) (F64 := F64)).

Lemma in_memory_clears : clears (Json := Json) (F32 := F32) (F64 := F64) (P := Log).
Proof. intros s p n. reflexivity. Qed.


End InMemoryRuns.

(** ** A concrete registry

    The refinement at a concrete run over the in-memory log, and two runs in which
    memory and log come apart. *)

#[local] Existing Instance sample_agora.
#[local] Existing Instance sample_env.
#[local] Existing Instance sample_env_ok.

Definition fact (key text : string) : AgoraOperation J N N := PublishFact key [("text", text)].

(** ** The refinement at a run with two crashes *)

(** The second commit dies after the log has it, the third proposal is lost. *)
Definition sample_calls : list (RegistryCall (Json := J) (F32 := N) (F64 := N)) :=
  [RPropose "s" 0 (fact "goal" "ship") 1; RCommit "s" 1; RCrash;
   RPropose "s" 1 (fact "plan" "test") 1; RCrashInCommit "s" 3 None; RVersion "s";
   RPropose "s" 2 (fact "lost" "x") 1; RCrash; RCommit "s" 5; RRecall "s" "plan";
   RRecall "s" "lost"; RClear "s"; RCrash; RVersion "s"].

Abbreviation InMemory := (InMemoryCommitLog.InMemoryCommitLog (Json := J) (F32 := N) (F64 := N)).

Definition started : AgoraRegistry J N N InMemory := new_with_persistence InMemoryCommitLog.new.

Definition sample_run := registry_run sample_calls started 0.

Lemma sample_replies :
  drop 5 sample_run.1.1
  = [Ok (AtVersion 2); Ok (ProposedAs 5); Ok Done; Err "proposal 5 not found";
     Ok (Value (Some [("text", "test")])); Ok (Value None); Ok Done; Ok Done; Ok (AtVersion 0)].
Proof. vm_compute. reflexivity. Qed.


(** ** A log that cannot clear *)

(** The default of the trait. *)
Definition unsupported_clear_session {P : Type} (session : string) : M P string unit :=
  throw "Agora persistence backend does not support durable clear".

Definition append_only : AgoraPersistence J N N InMemory := {|
  append_commit := InMemoryCommitLog.append_commit;
  recover := InMemoryCommitLog.recover;
  clear_session := unsupported_clear_session;
|}.

Definition clear_then_commit : list (RegistryCall (Json := J) (F32 := N) (F64 := N)) :=
  [RPropose "s" 0 (fact "goal" "ship") 1; RCommit "s" 1; RClear "s";
   RPropose "s" 0 (fact "goal" "stop") 1; RCommit "s" 3; RCrash; RVersion "s"].

(** The workspace is emptied before the log is asked: after a clear that fails the
    next commit takes a version that the log already has, and is acknowledged;
    after a restart the session cannot be opened. *)
Lemma failed_clear_loses_the_session :
  let replies := (registry_run (HLog := append_only) clear_then_commit started 0).1.1 in
  replies !! 2%nat = Some (Err "Agora persistence backend does not support durable clear")
  ∧ (∃ c, replies !! 4%nat = Some (Ok (RegistrySpec.Committed c)) ∧ ac_version c = 1)
  ∧ replies !! 6%nat = Some (Err "replayed commit sequence is not contiguous").
Proof. vm_compute. split_and!; [done|eauto|done]. Qed.

(** ** A recovery beside a clear *)

(** [recover_session] reads the log before it takes the gate of the session.  A
    clear in between is undone in memory and not in the log: the next commit has
    version 2 of a log that starts there. *)
Definition recovery_across_clear : M (AgoraRegistry J N N InMemory) string N :=
  propose "s" 0 (fact "goal" "ship") 1 ;;
  commit "s" 1 ;;
  commits ← on_log (recover "s");
  clear "s" ;;
  recover_with "s" (default [] commits) ;;
  p ← propose "s" 1 (fact "plan" "test") 1;
  commit "s" (ap_id p) ;;
  modify crash ;;
  version "s".

Lemma recovery_across_clear_loses_the_session :
  (recovery_across_clear started 0).1.1 = Err "replayed commit sequence is not contiguous".
Proof. vm_compute. reflexivity. Qed.
