(* ===== verification/StdText.v ===== *)
(** * Text: Rust's [str] as a sequence of characters

    The components that parse text use [str]'s methods; here a text is the list of
    its characters as code points.  Each function is the method of the same name. *)
From S2P Require Import Prelude Fallible.

#[local] Open Scope N_scope.

Abbreviation text := (list N).

(** A literal. *)
Fixpoint lit (s : string) : text :=
  match s with
  | "" => []
  | String a r => Ascii.N_of_ascii a :: lit r
  end.

(** ** Characters *)

(** [char::is_whitespace]: Unicode's White_Space. *)
Definition is_whitespace (c : N) : bool :=
  (9 <=? c) && (c <=? 13) || (c =? 32) || (c =? 0x85) || (c =? 0xA0) || (c =? 0x1680)
  || (0x2000 <=? c) && (c <=? 0x200A) || (c =? 0x2028) || (c =? 0x2029) || (c =? 0x202F)
  || (c =? 0x205F) || (c =? 0x3000).

Definition ascii_lower (c : N) : N := if (65 <=? c) && (c <=? 90) then c + 32 else c.

Definition is_digit (c : N) : bool := (48 <=? c) && (c <=? 57).

Abbreviation space := 32.
Abbreviation newline := 10.
Abbreviation return_ := 13.
Abbreviation comma := 44.

(** ** Trimming *)

Fixpoint trim_start_matches (f : N → bool) (t : text) : text :=
  match t with
  | [] => []
  | c :: r => if f c then trim_start_matches f r else t
  end.

Definition trim_end_matches (f : N → bool) (t : text) : text := reverse (trim_start_matches f (reverse t)).

Definition trim_start (t : text) : text := trim_start_matches is_whitespace t.

Definition trim_end (t : text) : text := trim_end_matches is_whitespace t.

Definition trim (t : text) : text := trim_end (trim_start t).

Definition is_empty (t : text) : bool := match t with [] => true | _ => false end.

(** ** Prefixes, suffixes and occurrences *)

Definition starts_with (t p : text) : bool := bool_decide (p `prefix_of` t).

Definition ends_with (t s : text) : bool := bool_decide (s `suffix_of` t).

Fixpoint strip_prefix (t p : text) : option text :=
  match p, t with
  | [], _ => Some t
  | a :: p', b :: t' => if a =? b then strip_prefix t' p' else None
  | _ :: _, [] => None
  end.

Definition strip_suffix (t s : text) : option text := reverse <$> strip_prefix (reverse t) (reverse s).

(** [t.find(p)]: the position of the first occurrence. *)
Fixpoint find_at (t p : text) : option nat :=
  if starts_with t p then Some 0%nat
  else match t with [] => None | _ :: r => S <$> find_at r p end.

Definition contains (t p : text) : bool := match find_at t p with Some _ => true | None => false end.

Definition contains_char (t : text) (c : N) : bool := bool_decide (c ∈ t).

(** [t.match_indices(p)] for a nonempty [p]: the occurrences from the left that do
    not overlap; [skip] characters belong to the last one. *)
Fixpoint match_from (p : text) (skip : nat) (at_ : nat) (t : text) : list nat :=
  match t with
  | [] => []
  | _ :: r =>
      match skip with
      | S k => match_from p k (S at_) r
      | O => if starts_with t p then at_ :: match_from p (length p - 1) (S at_) r
             else match_from p 0 (S at_) r
      end
  end.

Definition match_indices (t p : text) : list nat := match_from p 0 0 t.

(** [t.replace(p, "")] for a nonempty [p]. *)
Fixpoint erase_from (p : text) (skip : nat) (t : text) : text :=
  match t with
  | [] => []
  | c :: r =>
      match skip with
      | S k => erase_from p k r
      | O => if starts_with t p then erase_from p (length p - 1) r else c :: erase_from p 0 r
      end
  end.

Definition replace_with_nothing (t p : text) : text := erase_from p 0 t.

(** ** Splitting *)

(** [t.split(f)]: the pieces between the characters that satisfy [f]. *)
Fixpoint split (f : N → bool) (t : text) : list text :=
  match t with
  | [] => [[]]
  | c :: r =>
      if f c then [] :: split f r
      else match split f r with
           | piece :: rest => (c :: piece) :: rest
           | [] => [[c]]
           end
  end.

(** [t.splitn(n, c)] *)
Fixpoint splitn (n : nat) (c : N) (t : text) : list text :=
  match n with
  | O => []
  | S O => [t]
  | S n' =>
      (fix go (piece t : text) : list text :=
         match t with
         | [] => [piece]
         | d :: r => if d =? c then piece :: splitn n' c r else go (piece ++ [d]) r
         end) [] t
  end.

(** [t.split_whitespace()] *)
Definition split_whitespace (t : text) : list text := filter (λ w, w ≠ []) (split is_whitespace t).

(** [t.split_once(c)] *)
Fixpoint split_once (c : N) (t : text) : option (text * text) :=
  match t with
  | [] => None
  | d :: r => if d =? c then Some ([], r) else match split_once c r with
                                               | Some (a, b) => Some (d :: a, b)
                                               | None => None
                                               end
  end.

(** A line without its terminator; the last line has none. *)
Definition unterminated (l : text) : text := default l (strip_suffix l [return_]).

(** [t.lines()] *)
Definition lines (t : text) : list text :=
  match reverse (split (λ c, c =? newline) t) with
  | [] => []
  | last :: before => (unterminated <$> reverse before) ++ (if is_empty last then [] else [last])
  end.

(** [l.join(sep)] *)
Fixpoint join (sep : text) (l : list text) : text :=
  match l with
  | [] => []
  | [t] => t
  | t :: r => t ++ sep ++ join sep r
  end.

(** ** Case and numbers *)

Definition to_ascii_lowercase (t : text) : text := ascii_lower <$> t.

Definition eq_ignore_ascii_case (t u : text) : bool :=
  bool_decide (to_ascii_lowercase t = to_ascii_lowercase u).

(** [str::parse::<u64>()]: an optional [+] and digits, checked for overflow. *)
Fixpoint digits_value (acc : N) (t : text) : option N :=
  match t with
  | [] => Some acc
  | c :: r =>
      if is_digit c then
        let acc := acc * 10 + (c - 48) in
        if acc <=? u64_max then digits_value acc r else None
      else None
  end.

Definition parse_u64 (t : text) : option N :=
  match t with
  | [] => None
  | [c] => if c =? 43 then None else digits_value 0 t
  | c :: r => if c =? 43 then digits_value 0 r else digits_value 0 t
  end.

(** ** Lemmas *)

Lemma reverse_nil_iff {A} (l : list A) : reverse l = [] ↔ l = [].
Proof. by rewrite <-!length_zero_iff_nil, length_reverse. Qed.

Lemma trim_start_matches_nil f t : trim_start_matches f t = [] ↔ Forall (λ c, f c = true) t.
Proof.
  induction t as [|c t IH]; cbn; [done|]. rewrite Forall_cons. destruct (f c); [tauto|]. by split; [|intros []].
Qed.

Lemma trim_end_matches_nil f t : trim_end_matches f t = [] ↔ Forall (λ c, f c = true) t.
Proof. unfold trim_end_matches. by rewrite reverse_nil_iff, trim_start_matches_nil, Forall_reverse. Qed.

(** What is left begins with a character that stays. *)
Lemma trim_start_matches_head f t c r : trim_start_matches f t = c :: r → f c = false.
Proof. induction t as [|d t IH]; cbn; [done|]. destruct (f d) eqn:Hd; [done|]. by intros [= -> ->]. Qed.

Lemma trim_end_matches_last f t c r : trim_end_matches f t = r ++ [c] → f c = false.
Proof.
  unfold trim_end_matches. intros H. apply (f_equal reverse) in H. rewrite reverse_involutive, reverse_snoc in H.
  by eapply trim_start_matches_head.
Qed.

Lemma trim_all f t : Forall (λ c, f c = true) (trim_end_matches f t) → trim_end_matches f t = [].
Proof.
  destruct (trim_end_matches f t) as [|d r _] eqn:Ht using rev_ind; [done|].
  intros [_ Hd%Forall_inv]%Forall_app. apply trim_end_matches_last in Ht. congruence.
Qed.

Lemma split_whitespace_nil t : split_whitespace t = [] ↔ Forall (λ c, is_whitespace c = true) t.
Proof.
  unfold split_whitespace. induction t as [|c t IH]; [by cbn|]. rewrite Forall_cons, <-IH. cbn [split].
  destruct (is_whitespace c); [rewrite filter_cons_False by auto; tauto|].
  destruct (split is_whitespace t); split; try done; by intros [].
Qed.

(** A trimmed text has a word unless it is empty. *)
Lemma trimmed_words t : split_whitespace (trim t) = [] ↔ trim t = [].
Proof. rewrite split_whitespace_nil. split; [apply trim_all|by intros ->]. Qed.

(** ** Splitting what was joined *)

Lemma split_none f t : Forall (λ c, f c = false) t → split f t = [t].
Proof. induction 1 as [|c t Hc _ IH]; [done|]. cbn. by rewrite Hc, IH. Qed.

Lemma split_sep f t c u : Forall (λ c, f c = false) t → f c = true → split f (t ++ c :: u) = t :: split f u.
Proof. intros Ht Hc. induction Ht as [|d t Hd _ IH]; cbn; [by rewrite Hc|by rewrite Hd, IH]. Qed.

Lemma split_join f c ls :
  f c = true → ls ≠ [] → Forall (Forall (λ c, f c = false)) ls → split f (join [c] ls) = ls.
Proof.
  intros Hc Hne. induction 1 as [|t ls Ht Hls IH]; [done|]. destruct ls as [|u ls]; cbn [join app]; [by apply split_none|].
  rewrite split_sep by done. f_equal. by apply IH.
Qed.

Lemma splitn_go n c piece t u :
  Forall (λ d, d ≠ c) t →
  (fix go (piece t : text) : list text :=
     match t with
     | [] => [piece]
     | d :: r => if d =? c then piece :: splitn n c r else go (piece ++ [d]) r
     end) piece (t ++ c :: u) = (piece ++ t) :: splitn n c u.
Proof.
  intros Ht. revert piece. induction Ht as [|d t Hd _ IH]; intros piece; cbn.
  - by rewrite N.eqb_refl, app_nil_r.
  - rewrite (proj2 (N.eqb_neq _ _) Hd), IH. by rewrite <-app_assoc.
Qed.

Lemma splitn_sep n c t u :
  Forall (λ d, d ≠ c) t → splitn (S (S n)) c (t ++ c :: u) = t :: splitn (S n) c u.
Proof. intros Ht. by apply (splitn_go (S n) c []). Qed.

Lemma splitn_none n c t : Forall (λ d, d ≠ c) t → splitn (S n) c t = [t].
Proof.
  destruct n as [|n]; [done|]. intros Ht. cbn.
  enough (∀ piece, (fix go (piece t : text) : list text :=
     match t with
     | [] => [piece]
     | d :: r => if d =? c then piece :: splitn (S n) c r else go (piece ++ [d]) r
     end) piece t = [piece ++ t]) as H by apply (H []).
  induction Ht as [|d t Hd _ IH]; intros piece; [by rewrite app_nil_r|].
  rewrite (proj2 (N.eqb_neq _ _) Hd), IH. by rewrite <-app_assoc.
Qed.

(** ** Trimming what has no space at its ends *)

Definition tight (t : text) : Prop :=
  ∀ c, head t = Some c ∨ last t = Some c → is_whitespace c = false.

Lemma trim_start_matches_id f t : (∀ c, head t = Some c → f c = false) → trim_start_matches f t = t.
Proof. destruct t as [|c t]; [done|]. intros Hc. cbn. by rewrite Hc. Qed.

Lemma trim_end_matches_id f t : (∀ c, last t = Some c → f c = false) → trim_end_matches f t = t.
Proof.
  intros Ht. unfold trim_end_matches. rewrite trim_start_matches_id; [by rewrite reverse_involutive|].
  intros c. rewrite head_reverse. apply Ht.
Qed.

Lemma trim_tight t : tight t → trim t = t.
Proof.
  intros Ht. unfold trim, trim_start, trim_end. rewrite trim_start_matches_id by auto.
  apply trim_end_matches_id. auto.
Qed.

(** ** Lines *)

Lemma strip_suffix_one t c : last t ≠ Some c → strip_suffix t [c] = None.
Proof.
  unfold strip_suffix. destruct t as [|d r _] using rev_ind; [done|]. rewrite last_snoc, reverse_snoc. cbn.
  intros Hd. destruct (c =? d) eqn:Hc; [|done]. apply N.eqb_eq in Hc. congruence.
Qed.

(** A line that [lines] gives back: no newline in it, something in it, no carriage
    return at its end. *)
Definition line_ok (l : text) : Prop :=
  Forall (λ c, c ≠ newline) l ∧ l ≠ [] ∧ last l ≠ Some return_.

Lemma unterminated_ok l : last l ≠ Some return_ → unterminated l = l.
Proof. intros Hl. unfold unterminated. by rewrite strip_suffix_one. Qed.

Lemma lines_join ls : Forall line_ok ls → lines (join [newline] ls) = ls.
Proof.
  intros Hls. destruct (decide (ls = [])) as [->|Hne]; [done|]. unfold lines. rewrite split_join; [|done|done|].
  2: { eapply Forall_impl; [exact Hls|]. intros l (Hl & _). eapply Forall_impl; [exact Hl|]. intros c. apply N.eqb_neq. }
  destruct ls as [|l r _] using rev_ind; [done|]. rewrite reverse_snoc, reverse_involutive.
  apply Forall_app in Hls as [Hr (_ & Hl & _)%Forall_inv]. destruct l as [|c l]; [done|]. cbn. f_equal.
  clear Hne Hl. induction Hr as [|u r (_ & _ & Hu) _ IH]; [done|]. cbn. by rewrite unterminated_ok, IH.
Qed.

(** ** Words *)

Definition word (w : text) : Prop := w ≠ [] ∧ Forall (λ c, is_whitespace c = false) w.

Lemma split_pieces f t : Forall (Forall (λ c, f c = false)) (split f t).
Proof.
  induction t as [|c t IH]; cbn; [by repeat constructor|]. destruct (f c) eqn:Hc; [by constructor|].
  destruct (split f t) as [|p ps]; [by repeat constructor|]. apply Forall_cons in IH as [? ?]. by repeat constructor.
Qed.

Lemma split_whitespace_words t : Forall word (split_whitespace t).
Proof.
  unfold split_whitespace. pose proof (split_pieces is_whitespace t) as H.
  induction H as [|p ps Hp _ IH]; [constructor|]. rewrite filter_cons. case_decide; [|done]. by constructor.
Qed.

Lemma filter_words ws : Forall word ws → filter (λ w, w ≠ []) ws = ws.
Proof. induction 1 as [|w ws [Hw _] _ IH]; [done|]. by rewrite filter_cons_True, IH. Qed.

Lemma split_whitespace_join ws : Forall word ws → split_whitespace (join [space] ws) = ws.
Proof.
  intros Hws. destruct (decide (ws = [])) as [->|Hne]; [done|]. unfold split_whitespace.
  rewrite split_join; [by apply filter_words|done|done|]. eapply Forall_impl; [exact Hws|]. by intros w [_ ?].
Qed.

(** ** More methods *)

(** [str::to_lowercase] follows Unicode's tables, of which the program relies on
    the ASCII part. *)
Class UnicodeCase := {
  to_lowercase : text → text;
  to_lowercase_ascii : ∀ t, Forall (λ c, c < 128) t → to_lowercase t = to_ascii_lowercase t;
}.

(** The ASCII part alone. *)
Definition ascii_case : UnicodeCase := {| to_lowercase := to_ascii_lowercase; to_lowercase_ascii _ _ := eq_refl |}.

(** [t.split_once(p)] for a text [p]. *)
Definition split_once_at (t p : text) : option (text * text) :=
  match find_at t p with
  | Some i => Some (take i t, drop (i + length p) t)
  | None => None
  end.

(** [t.rsplit_once(c)] *)
Definition rsplit_once (c : N) (t : text) : option (text * text) :=
  match split_once c (reverse t) with
  | Some (a, b) => Some (reverse b, reverse a)
  | None => None
  end.

(** [t.find(c)] *)
Definition find_char (c : N) (t : text) : option nat := find_at t [c].

(** [str::parse] for an unsigned type with this largest value. *)
Definition parse_below (max : N) (t : text) : option N :=
  match parse_u64 t with
  | Some n => if n <=? max then Some n else None
  | None => None
  end.

Definition is_ascii_hexdigit (c : N) : bool :=
  is_digit c || (65 <=? c) && (c <=? 70) || (97 <=? c) && (c <=? 102).
