(* ===== verification/ExecPolicy.v ===== *)
(** * Execution policy (crates/corpus/src/security/exec_policy.rs)

    The rules that decide whether a shell command or a network request is
    allowed, denied or needs approval: their evaluation, the format of the
    [.rules] files, and amendment at run time. *)
From S2P Require Import Prelude Fallible StdText.

#[local] Open Scope N_scope.

Module ExecPolicy.

Inductive PolicyAction := Allow | Deny | Ask.

#[global] Instance PolicyAction_eq_dec : EqDecision PolicyAction.
Proof. solve_decision. Defined.

Record PolicyDecision := {
  pd_action : PolicyAction;
  pd_reason : text;
  pd_matched_rule : option text;
}.

Definition allow (reason rule : text) : PolicyDecision :=
  {| pd_action := Allow; pd_reason := reason; pd_matched_rule := Some rule |}.

Definition deny (reason rule : text) : PolicyDecision :=
  {| pd_action := Deny; pd_reason := reason; pd_matched_rule := Some rule |}.

Definition ask (reason rule : text) : PolicyDecision :=
  {| pd_action := Ask; pd_reason := reason; pd_matched_rule := Some rule |}.

Definition default_ask (reason : text) : PolicyDecision :=
  {| pd_action := Ask; pd_reason := reason; pd_matched_rule := None |}.

Record PolicyRule := {
  pr_program : text;
  pr_prefixes : list text;
  pr_action : PolicyAction;
}.

Record AllowPrefix := {
  al_prefix : text;
  al_source : text;
}.

Record NetworkRule := {
  nr_host_pattern : text;
  nr_protocol : text;
  nr_action : PolicyAction;
}.

Record ExecPolicyEngine := {
  pe_rules : list PolicyRule;
  pe_allow_prefixes : list AllowPrefix;
  pe_network_rules : list NetworkRule;
}.

Definition rule (program : string) (prefixes : list string) (action : PolicyAction) : PolicyRule :=
  {| pr_program := lit program; pr_prefixes := lit <$> prefixes; pr_action := action |}.

Definition new : ExecPolicyEngine :=
  {| pe_rules := [rule "mkfs" [] Deny; rule "rm" ["-rf"] Ask; rule "dd" [] Ask;
                  rule "systemctl" ["stop"] Ask; rule "iptables" [] Ask];
     pe_allow_prefixes := []; pe_network_rules := [] |}.

(** ** Matching *)

Definition program_matches (rule_program actual_program : text) : bool :=
  bool_decide (rule_program = actual_program)
  || starts_with actual_program (rule_program ++ lit ".")
  || starts_with actual_program (lit "." ++ rule_program).

Definition protocol_matches (pattern protocol : text) : bool :=
  eq_ignore_ascii_case pattern (lit "any") || eq_ignore_ascii_case pattern protocol.

Definition host_matches (pattern host : text) : bool :=
  if bool_decide (pattern = lit "*") then true
  else
    match strip_prefix pattern (lit "*.") with
    | Some suffix =>
        ends_with host suffix || bool_decide (host = trim_end_matches (λ c, c =? 46) suffix)
    | None => bool_decide (host = pattern)
    end.

(** ** Evaluation *)

(** [format!("{} {}", rule.program, prefix)] *)
Definition full_prefix (program prefix : text) : text := program ++ lit " " ++ prefix.

(** What a rule finds in a command: the program itself, or one of its prefixes. *)
Inductive Match := Bare (program : text) | Prefixed (full : text).

Definition match_rule (cmd program : text) (r : PolicyRule) : option Match :=
  if negb (program_matches (pr_program r) program) then None
  else
    match pr_prefixes r with
    | [] => Some (Bare (pr_program r))
    | prefixes =>
        Prefixed <$> find (starts_with cmd) (full_prefix (pr_program r) <$> prefixes)
    end.

(** One of the loops over the rules: the first one with the action that matches. *)
Fixpoint first_match (action : PolicyAction) (cmd program : text) (rules : list PolicyRule) : option Match :=
  match rules with
  | [] => None
  | r :: rest =>
      if bool_decide (pr_action r = action) then
        match match_rule cmd program r with
        | Some m => Some m
        | None => first_match action cmd program rest
        end
      else first_match action cmd program rest
  end.

Definition evaluate (e : ExecPolicyEngine) (command : text) : PolicyDecision :=
  let cmd := trim command in
  match split_whitespace cmd with
  | [] => default_ask (lit "Empty command")
  | program :: _ =>
      match first_match Deny cmd program (pe_rules e) with
      | Some (Bare rule) => deny (lit "Program '" ++ program ++ lit "' is denied by rule") rule
      | Some (Prefixed full) => deny (lit "Command '" ++ cmd ++ lit "' matches deny rule") full
      | None =>
          match find (λ ap, starts_with cmd (al_prefix ap)) (pe_allow_prefixes e) with
          | Some ap => allow (lit "Matches approved prefix '" ++ al_prefix ap ++ lit "'") (al_prefix ap)
          | None =>
              match first_match Allow cmd program (pe_rules e) with
              | Some (Bare rule) => allow (lit "Program '" ++ program ++ lit "' is allowed by rule") rule
              | Some (Prefixed full) => allow (lit "Command '" ++ cmd ++ lit "' matches allow rule") full
              | None =>
                  match first_match Ask cmd program (pe_rules e) with
                  | Some (Bare rule) => ask (lit "Program '" ++ program ++ lit "' requires approval") rule
                  | Some (Prefixed full) => ask (lit "Command '" ++ cmd ++ lit "' requires approval") full
                  | None => default_ask (lit "Unknown command '" ++ program ++ lit "'; approval required")
                  end
              end
          end
      end
  end.

Definition evaluate_network (e : ExecPolicyEngine) (host protocol : text) : PolicyDecision :=
  match find (λ r, protocol_matches (nr_protocol r) protocol && host_matches (nr_host_pattern r) host)
          (pe_network_rules e) with
  | Some r =>
      let reason := λ kind, lit "Host '" ++ host ++ lit "' matches network " ++ lit kind ++ lit " rule" in
      match nr_action r with
      | Allow => allow (reason "allow"%string) (nr_host_pattern r)
      | Deny => deny (reason "deny"%string) (nr_host_pattern r)
      | Ask => ask (reason "ask"%string) (nr_host_pattern r)
      end
  | None => default_ask (lit "No network rule for host '" ++ host ++ lit "', approval required")
  end.

(** ** Changes at run time *)

Definition with_rules (f : list PolicyRule → list PolicyRule) (e : ExecPolicyEngine) : ExecPolicyEngine :=
  {| pe_rules := f (pe_rules e); pe_allow_prefixes := pe_allow_prefixes e;
     pe_network_rules := pe_network_rules e |}.

Definition amend (prefix source : text) (e : ExecPolicyEngine) : ExecPolicyEngine :=
  if existsb (λ ap, bool_decide (al_prefix ap = prefix ∧ al_source ap = source)) (pe_allow_prefixes e) then e
  else {| pe_rules := pe_rules e;
          pe_allow_prefixes := pe_allow_prefixes e ++ [{| al_prefix := prefix; al_source := source |}];
          pe_network_rules := pe_network_rules e |}.

Definition add_network_rule (r : NetworkRule) (e : ExecPolicyEngine) : ExecPolicyEngine :=
  {| pe_rules := pe_rules e; pe_allow_prefixes := pe_allow_prefixes e;
     pe_network_rules := pe_network_rules e ++ [r] |}.

Definition rule_count (e : ExecPolicyEngine) : N := N.of_nat (length (pe_rules e)).

Definition prefix_count (e : ExecPolicyEngine) : N := N.of_nat (length (pe_allow_prefixes e)).

(** ** Rules files *)

(** [char::to_lowercase] as far as it yields ASCII letters: the capitals and the
    Kelvin sign. *)
Definition lower (c : N) : N := if c =? 0x212A then 107 else ascii_lower c.

Definition parse_action (word : text) : option PolicyAction :=
  let word := lower <$> word in
  if decide (word = lit "allow") then Some Allow
  else if decide (word = lit "deny") then Some Deny
  else if decide (word = lit "ask") then Some Ask
  else None.

(** The rules of one line; a comment, a blank or a malformed line has none. *)
Definition load_line (raw_line : text) : list PolicyRule :=
  let line := trim raw_line in
  if is_empty line || starts_with line (lit "#") then []
  else
    match splitn 3 32 line with
    | word :: programs :: rest =>
        match parse_action word with
        | None => []
        | Some action =>
            let prefixes := match rest with
                            | t :: _ => trim <$> split (λ c, c =? comma) t
                            | [] => []
                            end in
            (λ program, {| pr_program := program; pr_prefixes := prefixes; pr_action := action |})
              <$> filter (λ p, p ≠ []) (trim <$> split (λ c, c =? comma) programs)
        end
    | _ => []
    end.

Definition load_content (content : text) (e : ExecPolicyEngine) : ExecPolicyEngine :=
  with_rules (λ rules, rules ++ mjoin (load_line <$> lines content)) e.

(** An entry of the directory: its extension, and what reading it gives. *)
Record DirEntry := {
  de_extension : option text;
  de_content : Result string text;
}.

(** [load_rules_file] *)
Definition load_rules_file (file : DirEntry) : M ExecPolicyEngine string unit := λ e n,
  match de_content file with
  | Ok content => (Ok tt, load_content content e, n)
  | Err error => (Err error, e, n)
  | Panic => (Panic, e, n)
  end.

(** [load_from_dir]: a directory that cannot be read has no rules; an entry that
    cannot be read stops the loading. *)
Definition load_from_dir (entries : option (list (Result string DirEntry))) : M ExecPolicyEngine string unit :=
  match entries with
  | None => mret tt
  | Some entries =>
      for_each entries (λ entry,
        match entry with
        | Ok file =>
            if bool_decide (de_extension file = Some (lit "rules")) then load_rules_file file else mret tt
        | Err error => throw error
        | Panic => panic
        end)
  end.

End ExecPolicy.

(** ** What the execution policy promises

    The decision as a reference definition that does not depend on the order of
    the rules, what changes at run time can and cannot do to it, and the round
    trip of the [.rules] format. *)

Import ExecPolicy.


(** ** The decision *)

(** A rule covers a command: the program matches, and one of the prefixes where
    there are any. *)
Definition covers (cmd program : text) (r : PolicyRule) : Prop :=
  program_matches (pr_program r) program = true
  ∧ (pr_prefixes r = [] ∨ ∃ p, p ∈ pr_prefixes r ∧ full_prefix (pr_program r) p `prefix_of` cmd).

Definition ruled (action : PolicyAction) (cmd program : text) (rules : list PolicyRule) : Prop :=
  ∃ r, r ∈ rules ∧ pr_action r = action ∧ covers cmd program r.

Definition approved (cmd : text) (prefixes : list AllowPrefix) : Prop :=
  ∃ ap, ap ∈ prefixes ∧ al_prefix ap `prefix_of` cmd.

(** The first word of a command that has one. *)
Definition invoked (command program : text) : Prop :=
  ∃ rest, split_whitespace (trim command) = program :: rest.

Lemma find_starts_with cmd l :
  is_Some (find (starts_with cmd) l) ↔ ∃ p, p ∈ l ∧ p `prefix_of` cmd.
Proof.
  induction l as [|p l IH]; cbn; [split; [by intros []|by intros (? & ?%elem_of_nil & _)]|].
  unfold starts_with at 1. case_bool_decide as Hp.
  - split; [|by eauto]. intros _. exists p. split; [by left|done].
  - rewrite IH. setoid_rewrite elem_of_cons. naive_solver.
Qed.

Lemma match_rule_covers cmd program r : is_Some (match_rule cmd program r) ↔ covers cmd program r.
Proof.
  unfold match_rule, covers. destruct (program_matches _ _); cbn; [|split; [by intros []|by intros [? _]]].
  destruct (pr_prefixes r) as [|p ps]; [split; [auto|by eauto]|].
  change (is_Some (Prefixed <$> find (starts_with cmd) (full_prefix (pr_program r) <$> p :: ps)) ↔
          true = true ∧ (p :: ps = [] ∨ ∃ q, q ∈ p :: ps ∧ full_prefix (pr_program r) q `prefix_of` cmd)).
  rewrite fmap_is_Some, find_starts_with. setoid_rewrite list_elem_of_fmap. naive_solver.
Qed.

Lemma first_match_ruled action cmd program rules :
  is_Some (first_match action cmd program rules) ↔ ruled action cmd program rules.
Proof.
  unfold ruled. induction rules as [|r rules IH]; cbn; [split; [by intros []|by intros (? & ?%elem_of_nil & _)]|].
  setoid_rewrite elem_of_cons. pose proof (match_rule_covers cmd program r) as Hr.
  case_bool_decide; [destruct (match_rule cmd program r)|]; rewrite ?IH; [split; [intros _|by eauto]|..].
  - exists r. split_and!; [by left|done|apply Hr; by eexists].
  - split; [naive_solver|]. intros (r' & [->|?] & ? & Hc); [|by eauto]. apply Hr in Hc as [? ?]. done.
  - naive_solver.
Qed.

Lemma approved_find cmd prefixes :
  is_Some (find (λ ap, starts_with cmd (al_prefix ap)) prefixes) ↔ approved cmd prefixes.
Proof.
  unfold approved. induction prefixes as [|ap l IH]; cbn; [split; [by intros []|by intros (? & ?%elem_of_nil & _)]|].
  setoid_rewrite elem_of_cons. unfold starts_with at 1. case_bool_decide; [|rewrite IH]; naive_solver.
Qed.

(** The decision on a command of a program. *)
Definition decides (e : ExecPolicyEngine) (cmd program : text) (action : PolicyAction) : Prop :=
  let denied := ruled Deny cmd program (pe_rules e) in
  let allowed := approved cmd (pe_allow_prefixes e) ∨ ruled Allow cmd program (pe_rules e) in
  match action with
  | Deny => denied
  | Allow => ¬ denied ∧ allowed
  | Ask => ¬ denied ∧ ¬ allowed
  end.

Lemma evaluate_decides e command program :
  invoked command program → decides e (trim command) program (pd_action (evaluate e command)).
Proof.
  intros [rest Hw]. unfold evaluate. rewrite Hw. set (cmd := trim command).
  pose proof (first_match_ruled Deny cmd program (pe_rules e)) as Hd.
  pose proof (first_match_ruled Allow cmd program (pe_rules e)) as Ha.
  pose proof (approved_find cmd (pe_allow_prefixes e)) as Hp. rewrite is_Some_alt in Hd, Ha. rewrite is_Some_alt in Hp.
  destruct (first_match Deny _ _ _) as [[]|]; [cbn; tauto..|].
  destruct (find _ _) as [ap|]; [cbn; tauto|].
  destruct (first_match Allow _ _ _) as [[]|]; [cbn; tauto..|].
  destruct (first_match Ask _ _ _) as [[]|]; cbn; tauto.
Qed.

(** At most one decision fits. *)
Lemma decides_unique e cmd program a1 a2 : decides e cmd program a1 → decides e cmd program a2 → a1 = a2.
Proof. destruct a1, a2; cbn; tauto. Qed.

(** A command has a program unless it is blank. *)
Lemma trimmed_invokes command : trim command ≠ [] → ∃ program, invoked command program.
Proof.
  intros Ht. destruct (split_whitespace (trim command)) as [|program rest] eqn:Hw; [|by exists program, rest].
  by apply trimmed_words in Hw.
Qed.

#[global] Instance ruled_perm action cmd program : Proper ((≡ₚ) ==> iff) (ruled action cmd program).
Proof. intros l l' Hl. split; intros (r & ? & ?); exists r; by rewrite Hl in *. Qed.

#[global] Instance approved_perm cmd : Proper ((≡ₚ) ==> iff) (approved cmd).
Proof. intros l l' Hl. split; intros (r & ? & ?); exists r; by rewrite Hl in *. Qed.

(** The order of the rules and of the approved prefixes does not matter. *)
Lemma evaluate_order e e' command :
  pe_rules e ≡ₚ pe_rules e' → pe_allow_prefixes e ≡ₚ pe_allow_prefixes e' →
  pd_action (evaluate e command) = pd_action (evaluate e' command).
Proof.
  intros Hr Hp. destruct (split_whitespace (trim command)) as [|program rest] eqn:Hw.
  { unfold evaluate. by rewrite Hw. }
  assert (invoked command program) as Hi by by exists rest.
  eapply (decides_unique e); [by apply evaluate_decides|].
  pose proof (evaluate_decides e' command program Hi) as He. revert He.
  unfold decides. destruct (pd_action _); by rewrite Hr, ?Hp.
Qed.

(** ** Changes at run time *)

Inductive PolicyChange :=
| Amend (prefix source : text)
| LoadDir (entries : option (list (Result string DirEntry)))
| AddNetworkRule (r : NetworkRule).

Definition policy_change (change : PolicyChange) (e : ExecPolicyEngine) : ExecPolicyEngine :=
  match change with
  | Amend prefix source => amend prefix source e
  | LoadDir entries => (load_from_dir entries e 0).1.2
  | AddNetworkRule r => add_network_rule r e
  end.

Definition policy_run (changes : list PolicyChange) (e : ExecPolicyEngine) : ExecPolicyEngine :=
  foldl (λ e change, policy_change change e) e changes.

(** [e'] has what [e] has, and more. *)
Record grows (e e' : ExecPolicyEngine) : Prop := {
  gr_rules : pe_rules e `prefix_of` pe_rules e';
  gr_prefixes : pe_allow_prefixes e `prefix_of` pe_allow_prefixes e';
}.

#[global] Instance grows_preorder : PreOrder grows.
Proof. split; [by split|]. intros e1 e2 e3 [] []. split; by etrans. Qed.

Lemma load_from_dir_grows entries e n : grows e (load_from_dir entries e n).1.2.
Proof.
  destruct entries as [entries|]; [|done]. revert e n.
  cut (∀ e n, wp (load_from_dir (Some entries)) (λ _ e' _, grows e e') e n).
  { intros H e n. specialize (H e n). unfold wp in H. by destruct (load_from_dir _ _ _) as [[? ?] ?]. }
  intros e n. apply (wp_for_each (λ _ e' _, grows e e')); [|done|done].
  intros entry rest e1 n1 Hg. destruct entry as [file| |]; [|done..].
  case_bool_decide; [|done]. unfold wp, load_rules_file. destruct (de_content file); [|done..].
  etrans; [exact Hg|]. split; [by apply prefix_app_r|done].
Qed.

Lemma policy_change_grows change e : grows e (policy_change change e).
Proof.
  destruct change; cbn; [|apply load_from_dir_grows|done].
  unfold amend. destruct (existsb _ _); [done|]. split; [done|by apply prefix_app_r].
Qed.

Lemma policy_run_grows changes e : grows e (policy_run changes e).
Proof.
  revert e. induction changes as [|change rest IH]; intros e; [done|]. cbn.
  etrans; [apply policy_change_grows|apply IH].
Qed.

(** Amendments and files are the only sources of approval. *)
Lemma policy_run_sources changes e ap :
  ap ∈ pe_allow_prefixes (policy_run changes e) →
  ap ∈ pe_allow_prefixes e ∨ Amend (al_prefix ap) (al_source ap) ∈ changes.
Proof.
  revert e. induction changes as [|change rest IH]; intros e; cbn; [auto|]. intros [Hin|Hin]%IH; [|set_solver].
  destruct change; cbn [policy_change] in Hin; [|left|by left].
  - unfold amend in Hin. destruct (existsb _ _); [by left|]. cbn in Hin. rewrite elem_of_app, list_elem_of_singleton in Hin.
    destruct Hin as [?| ->]; [by left|]. right. cbn. set_solver.
  - revert Hin. destruct entries as [entries|]; [|done]. 
    cut (wp (load_from_dir (Some entries)) (λ _ e' _, pe_allow_prefixes e' = pe_allow_prefixes e) e 0).
    { unfold wp. destruct (load_from_dir _ _ _) as [[? e1] ?]. cbn. by intros ->. }
    apply (wp_for_each (λ _ e' _, pe_allow_prefixes e' = pe_allow_prefixes e)); [|done|done].
    intros entry r e1 n1 He. destruct entry as [file| |]; [|done..].
    case_bool_decide; [|done]. unfold wp, load_rules_file. by destruct (de_content file).
Qed.

(** A rule is a line of one of the rules files of a directory. *)
Definition read_from (entries : list (Result string DirEntry)) (r : PolicyRule) : Prop :=
  ∃ file content line, Ok file ∈ entries ∧ de_extension file = Some (lit "rules")
    ∧ de_content file = Ok content ∧ line ∈ lines content ∧ r ∈ load_line line.

(** What the loading of a directory adds comes from its files, read in order and
    whether or not it stops at one of them. *)
Lemma load_from_dir_rules entries e n r :
  r ∈ pe_rules (load_from_dir (Some entries) e n).1.2 → r ∈ pe_rules e ∨ read_from entries r.
Proof.
  set (sound := λ e' : ExecPolicyEngine, ∀ r, r ∈ pe_rules e' → r ∈ pe_rules e ∨ read_from entries r).
  cut (wp (load_from_dir (Some entries)) (λ _ e' _, sound e') e n).
  { unfold wp. destruct (load_from_dir _ _ _) as [[? e1] ?]. intros Hs. apply Hs. }
  apply (wp_for_each (λ rest e' _, sound e' ∧ rest ⊆ entries)); [|by intros ?? []|by split; [left|]].
  intros entry rest e1 n1 [He Hin]. assert (Hrest : rest ⊆ entries) by set_solver.
  destruct entry as [file| |]; [|done..]. case_bool_decide as Hext; [|done]. unfold wp, load_rules_file.
  destruct (de_content file) as [content| |] eqn:Hc; [|done..]. split; [|done]. intros r'. cbn.
  rewrite elem_of_app, list_elem_of_join. intros [?|(rules & Hr & Hl)]; [by apply He|]. right.
  apply list_elem_of_fmap in Hl as (line & -> & Hline). exists file, content, line. split_and!; [set_solver|done..].
Qed.

Lemma policy_run_rules changes e r :
  r ∈ pe_rules (policy_run changes e) →
  r ∈ pe_rules e ∨ ∃ entries, LoadDir (Some entries) ∈ changes ∧ read_from entries r.
Proof.
  revert e. induction changes as [|change rest IH]; intros e; cbn; [auto|].
  intros [Hin|(entries & Hin & Hr)]%IH; [|right; exists entries; split; [by right|done]].
  destruct change as [prefix source|[entries|]|]; cbn [policy_change] in Hin; [left|..|by left|by left].
  - unfold amend in Hin. by destruct (existsb _ _).
  - apply load_from_dir_rules in Hin as [?|?]; [by left|]. right. exists entries. split; [by left|done].
Qed.

Lemma ruled_grows action cmd program e e' :
  grows e e' → ruled action cmd program (pe_rules e) → ruled action cmd program (pe_rules e').
Proof. intros [[k Hk] _] (r & Hr & ?). exists r. rewrite Hk, elem_of_app. auto. Qed.

(** C6. The decision on a command is the one of the reference definition: denied
    when a deny rule covers it, else allowed when an approved prefix or an allow
    rule covers it, else to be asked, in whatever order rules and prefixes are
    listed; a blank command is to be asked.  No change at run time lifts a denial,
    and a command that becomes allowed starts with a prefix that was amended, or an
    allow rule in a line of a rules file that was loaded covers its program. *)
Theorem policy_decides e changes command :
  let e' := policy_run changes e in
  (trim command = [] → evaluate e' command = default_ask (lit "Empty command"))
  ∧ (∀ program, invoked command program → decides e' (trim command) program (pd_action (evaluate e' command)))
  ∧ (∀ rules prefixes net, rules ≡ₚ pe_rules e' → prefixes ≡ₚ pe_allow_prefixes e' →
       pd_action (evaluate {| pe_rules := rules; pe_allow_prefixes := prefixes; pe_network_rules := net |} command)
       = pd_action (evaluate e' command))
  ∧ (pd_action (evaluate e command) = Deny → pd_action (evaluate e' command) = Deny)
  ∧ (pd_action (evaluate e' command) = Allow → pd_action (evaluate e command) = Allow
       ∨ (∃ prefix source, Amend prefix source ∈ changes ∧ prefix `prefix_of` trim command)
       ∨ ∃ program r entries, invoked command program ∧ covers (trim command) program r ∧ pr_action r = Allow
           ∧ r ∉ pe_rules e ∧ LoadDir (Some entries) ∈ changes ∧ read_from entries r).
Proof.
  intros e'. pose proof (policy_run_grows changes e) as Hg. fold e' in Hg. split_and!.
  - intros Ht. unfold evaluate. by rewrite Ht.
  - intros program. apply evaluate_decides.
  - intros rules prefixes net Hr Hp. by apply evaluate_order.
  - intros Hd. destruct (decide (trim command = [])) as [Ht|Ht]; [unfold evaluate in Hd; by rewrite Ht in Hd|].
    destruct (trimmed_invokes _ Ht) as [program Hi]. pose proof (evaluate_decides e _ _ Hi) as He. rewrite Hd in He.
    eapply decides_unique; [by apply evaluate_decides|]. by eapply ruled_grows.
  - intros Ha. destruct (decide (trim command = [])) as [Ht|Ht]; [unfold evaluate in Ha; by rewrite Ht in Ha|].
    destruct (trimmed_invokes _ Ht) as [program Hi]. pose proof (evaluate_decides e' _ _ Hi) as He'. rewrite Ha in He'.
    pose proof (evaluate_decides e _ _ Hi) as He. destruct He' as [Hnd Hal].
    destruct (pd_action (evaluate e command)) eqn:Hact; [by left|exfalso; by eapply Hnd, ruled_grows|].
    right. destruct He as [_ Hna]. destruct Hal as [(ap & Hin & Hpre)|Hr].
    + left. apply policy_run_sources in Hin as [Hin|Hin]; [|by eauto]. exfalso. apply Hna. left. by exists ap.
    + right. destruct Hr as (r & Hin & Hal & Hc).
      assert (Hnew : r ∉ pe_rules e) by (intros Hold; apply Hna; right; by exists r).
      apply policy_run_rules in Hin as [?|(entries & Hch & Hread)]; [done|]. by exists program, r, entries.
Qed.

(** ** The format of the rules files *)

Definition action_word (a : PolicyAction) : text :=
  match a with Allow => lit "allow" | Deny => lit "deny" | Ask => lit "ask" end.

(** One rule as a line: single spaces between the parts. *)
Definition print_prefixes (prefixes : list text) : text :=
  match prefixes with [] => [] | ps => StdText.space :: join [comma] ps end.

Definition print_rule (r : PolicyRule) : text :=
  action_word (pr_action r) ++ StdText.space :: pr_program r ++ print_prefixes (pr_prefixes r).

Definition print_rules (rules : list PolicyRule) : text := join [newline] (print_rule <$> rules).

(** A rule that the format can express. *)
Record printable (r : PolicyRule) : Prop := {
  pb_program : pr_program r ≠ [];
  pb_word : Forall (λ c, is_whitespace c = false ∧ c ≠ comma) (pr_program r);
  pb_prefixes : Forall (λ p, p ≠ [] ∧ tight p ∧ Forall (λ c, c ≠ comma ∧ c ≠ newline) p) (pr_prefixes r);
}.

Lemma last_app_ne {A} (l k : list A) : k ≠ [] → last (l ++ k) = last k.
Proof. intros Hk. destruct k as [|x k _] using rev_ind; [done|]. by rewrite app_assoc, !last_snoc. Qed.

Lemma join_cons sep t u ls : join sep (t :: u :: ls) = t ++ sep ++ join sep (u :: ls).
Proof. done. Qed.

Lemma last_ne {A} (l : list A) : l ≠ [] ↔ is_Some (last l).
Proof. destruct l as [|x l _] using rev_ind; [split; [done|by intros []]|]. rewrite last_snoc. split; [by eauto|by destruct l]. Qed.

Lemma last_join c ls t : last ls = Some t → t ≠ [] → last (join [c] ls) = last t.
Proof.
  revert t. induction ls as [|u ls IH]; [done|]. intros t Ht Hne. destruct ls as [|v ls]; [by simplify_eq/=|].
  rewrite join_cons, app_assoc. rewrite last_app_ne; [by apply IH|]. apply last_ne. erewrite IH by done. by apply last_ne.
Qed.

Lemma join_all (P : N → Prop) c ls : P c → Forall (Forall P) ls → Forall P (join [c] ls).
Proof.
  intros Hc. induction 1 as [|t ls Ht _ IH]; [constructor|]. destruct ls; [done|]. cbn [join].
  repeat apply Forall_app_2; [done|by repeat constructor|done].
Qed.

Lemma printable_last r c : printable r → last (print_rule r) = Some c → is_whitespace c = false.
Proof.
  intros [Hne Hw Hp]. unfold print_rule. rewrite last_app_ne by done. change (?x :: ?y) with ([x] ++ y).
  rewrite last_app_ne by (destruct (pr_program r); done). destruct (pr_prefixes r) as [|p ps] eqn:Hps.
  - rewrite app_nil_r. intros Hl. apply last_Some_elem_of in Hl. by eapply Forall_forall in Hw as [? _].
  - rewrite last_app_ne by done. unfold print_prefixes. change (?x :: ?y) with ([x] ++ y) at 1.
    destruct (last (p :: ps)) as [q|] eqn:Hq; [|by apply last_None in Hq].
    assert (q ≠ [] ∧ tight q ∧ Forall (λ c, c ≠ comma ∧ c ≠ newline) q) as (Hq0 & Hqt & _).
    { apply last_Some_elem_of in Hq. by eapply Forall_forall in Hp. }
    pose proof (last_join comma _ _ Hq Hq0) as Hl. rewrite last_app_ne by (apply last_ne; rewrite Hl; by apply last_ne).
    rewrite Hl. intros Hc. apply Hqt. by right.
Qed.

Lemma print_rule_tight r : printable r → tight (print_rule r).
Proof.
  intros Hr c [Hh|Hl]; [|by eapply printable_last]. unfold print_rule in Hh.
  by destruct (pr_action r); cbn in Hh; injection Hh as <-.
Qed.

Lemma word_without d t :
  is_whitespace d = true → Forall (λ c, is_whitespace c = false ∧ c ≠ comma) t → Forall (λ c, c ≠ d) t.
Proof. intros Hd Ht. eapply Forall_impl; [exact Ht|]. intros c [? _] ->. congruence. Qed.

Lemma print_rule_line r : printable r → line_ok (print_rule r).
Proof.
  intros Hr. split_and!; [|by destruct r as [? ? []]|].
  - destruct Hr as [_ Hw Hp]. unfold print_rule. apply Forall_app_2; [by destruct (pr_action r); repeat constructor|].
    constructor; [done|]. apply Forall_app_2; [by apply word_without|].
    destruct (pr_prefixes r) as [|p ps]; [constructor|]. constructor; [done|]. apply join_all; [done|].
    eapply Forall_impl; [exact Hp|]. intros q (_ & _ & Hq). eapply Forall_impl; [exact Hq|]. by intros c [_ ?].
  - intros Hl. apply printable_last in Hl; done.
Qed.

Lemma tight_word t : Forall (λ c, is_whitespace c = false) t → tight t.
Proof.
  rewrite Forall_forall. intros Ht c [Hc|Hc]; apply Ht; [|by apply last_Some_elem_of].
  destruct t; [done|]. injection Hc as ->. by left.
Qed.

Lemma split_word t : t ≠ [] → Forall (λ c, is_whitespace c = false ∧ c ≠ comma) t →
  filter (λ p, p ≠ []) (trim <$> split (λ c, c =? comma) t) = [t].
Proof.
  intros Hne Ht. rewrite split_none by (eapply Forall_impl; [exact Ht|]; intros c [_ ?]; by apply N.eqb_neq).
  cbn. rewrite trim_tight by (apply tight_word; eapply Forall_impl; [exact Ht|]; by intros c [? _]).
  by rewrite decide_True.
Qed.

Lemma split_prefixes ps :
  ps ≠ [] → Forall (λ p, p ≠ [] ∧ tight p ∧ Forall (λ c, c ≠ comma ∧ c ≠ newline) p) ps →
  trim <$> split (λ c, c =? comma) (join [comma] ps) = ps.
Proof.
  intros Hne Hps. rewrite split_join; [|done|done|].
  - clear Hne. induction Hps as [|p ps (_ & Hp & _) _ IH]; [done|]. cbn. by rewrite trim_tight, IH.
  - eapply Forall_impl; [exact Hps|]. intros p (_ & _ & Hp). eapply Forall_impl; [exact Hp|]. intros c [? _]. by apply N.eqb_neq.
Qed.

Lemma load_print_rule r : printable r → load_line (print_rule r) = [r].
Proof.
  intros Hr. unfold load_line. rewrite trim_tight by by apply print_rule_tight.
  replace (is_empty _ || _) with false by (unfold print_rule; by destruct (pr_action r)).
  assert (Forall (λ d, d ≠ StdText.space) (pr_program r)) as Hsp
    by (apply word_without; [done|apply (pb_word _ Hr)]).
  unfold print_rule. rewrite splitn_sep by (destruct (pr_action r); by repeat constructor).
  pose proof (split_word _ (pb_program _ Hr) (pb_word _ Hr)) as Hw.
  assert (parse_action (action_word (pr_action r)) = Some (pr_action r)) as Hact by by destruct (pr_action r).
  destruct r as [program prefixes action]; cbn [pr_program pr_prefixes pr_action] in *.
  destruct prefixes as [|p ps]; cbn [print_prefixes].
  - rewrite app_nil_r, splitn_none by done. by rewrite Hact, Hw.
  - rewrite splitn_sep by done. cbn [splitn]. rewrite Hact, Hw.
    by rewrite (split_prefixes (p :: ps)) by (done || apply (pb_prefixes _ Hr)).
Qed.

(** A rules file written with single spaces between action, program and
    prefixes is loaded as the rules it prints, in order after the ones that are
    there. *)
Theorem rules_file_roundtrip rules e :
  Forall printable rules →
  load_content (print_rules rules) e
  = {| pe_rules := pe_rules e ++ rules; pe_allow_prefixes := pe_allow_prefixes e;
       pe_network_rules := pe_network_rules e |}.
Proof.
  intros Hr. unfold load_content, print_rules. rewrite lines_join by (apply Forall_fmap; eapply Forall_impl; [exact Hr|apply print_rule_line]).
  unfold with_rules. f_equal. f_equal. induction Hr as [|r rules Hr _ IH]; [done|]. cbn. rewrite load_print_rule by done.
  cbn. by f_equal.
Qed.

Lemma rules_file_roundtrip_witness :
  let rules := [rule "git" ["status"; "log -1"] Allow; rule "mkfs" [] Deny] in
  pe_rules (load_content (print_rules rules) new) = pe_rules new ++ rules.
Proof.
  intros rules. rewrite (rules_file_roundtrip rules new).
  - reflexivity.
  - repeat constructor; try discriminate; intros c [H|H]; vm_compute in H; injection H as <-; reflexivity.
Defined.

(** ** What the rules do not prevent *)

(** Columns aligned with more than one space, as in the description of the format,
    are dropped: the second part of the line is empty. *)
Lemma aligned_rules_are_dropped :
  pe_rules (load_content (lit "deny   shutdown") new) = pe_rules new
  ∧ pd_action (evaluate (load_content (lit "allow shutdown") (load_content (lit "deny   shutdown") new))
                 (lit "shutdown now")) = Allow.
Proof. vm_compute. auto. Qed.

(** Only the first word of a command line is compared with the deny rules, and an
    approved prefix covers whatever follows it. *)
Lemma deny_looks_at_the_first_command :
  pd_action (evaluate (load_content (lit "allow ls") new) (lit "ls ; mkfs /dev/sda")) = Allow
  ∧ pd_action (evaluate (amend (lit "git status") (lit "user") new) (lit "git status; mkfs /dev/sda")) = Allow
  ∧ pd_action (evaluate new (lit "mkfs /dev/sda")) = Deny.
Proof. vm_compute. auto. Qed.

(** A host pattern is compared as a suffix of characters, not of labels. *)
Lemma wildcard_matches_other_domains :
  host_matches (lit "*.github.com") (lit "evilgithub.com") = true.
Proof. vm_compute. auto. Qed.
