(* ===== verification/CommandEffect.v ===== *)
(** * Classification of shell commands (crates/corpus/src/security/command_effect.rs)

    What a managed shell command may do, read off its text: only a command that
    the classifier takes for read-only runs outside a change transaction. *)
From S2P Require Import Prelude Fallible StdText.

#[local] Open Scope N_scope.

Module CommandEffect.

Inductive CommandEffect :=
| ReadOnly
| ReadOnlyNetwork
| WorkspaceMutation
| NetworkEgress
| SystemChange
| Destructive.

#[global] Instance CommandEffect_eq_dec : EqDecision CommandEffect.
Proof. solve_decision. Defined.

Inductive RiskCategory := RiskReadOnly | RiskFileModification | RiskSystemChange | RiskDestructive.

Definition requires_transaction (e : CommandEffect) : bool :=
  match e with ReadOnly | ReadOnlyNetwork => false | _ => true end.

Definition risk_category (e : CommandEffect) : RiskCategory :=
  match e with
  | ReadOnly => RiskReadOnly
  | ReadOnlyNetwork => RiskSystemChange
  | WorkspaceMutation => RiskFileModification
  | NetworkEgress | SystemChange => RiskSystemChange
  | Destructive => RiskDestructive
  end.

(** [matches!(t, "a" | "b" | ..)] *)
Definition one_of (words : list string) (t : text) : bool := bool_decide (t ∈ (lit <$> words)).

(** ** The text of the command *)

Definition strip_safe_redirections (command : text) : text :=
  replace_with_nothing
    (replace_with_nothing
       (replace_with_nothing
          (replace_with_nothing command (lit "2>/dev/null"))
          (lit "1>/dev/null"))
       (lit ">/dev/null"))
    (lit "2>&1").

Definition is_separator (c : N) : bool := one_of [";"; "|"; "&"] [c].

Definition invokes_program (command : text) (programs : list string) : bool :=
  existsb (λ segment, match split_whitespace segment with
                      | program :: _ => one_of programs program
                      | [] => false
                      end)
    (split (λ c, is_separator c || one_of ["("; ")"] [c]) command).

Definition has_mutating_shell_syntax (command : text) : bool :=
  contains command (lit ">") || contains command (lit "<<") || contains command (lit "$(")
  || contains command (lit "`") || contains command (lit " -delete") || contains command (lit " -exec").

(** ** Segments *)

Abbreviation backslash := 92.
Abbreviation single_quote := 39.
Abbreviation double_quote := 34.

(** The state of the loop over the characters. *)
Record Scan := {
  sc_segments : list text;
  sc_current : text;
  sc_quote : option N;
  sc_escaped : bool;
}.

(** [let segment = current.trim(); if !segment.is_empty() { segments.push(..) }] *)
Definition push_segment (current : text) (segments : list text) : list text :=
  if is_empty (trim current) then segments else segments ++ [trim current].

Definition scan_char (s : Scan) (c : N) : Scan :=
  let keep := {| sc_segments := sc_segments s; sc_current := sc_current s ++ [c]; sc_quote := sc_quote s;
                 sc_escaped := false |} in
  if sc_escaped s then keep
  else if bool_decide (c = backslash ∧ sc_quote s ≠ Some single_quote) then
    {| sc_segments := sc_segments s; sc_current := sc_current s ++ [c]; sc_quote := sc_quote s;
       sc_escaped := true |}
  else if bool_decide (c = single_quote ∨ c = double_quote) then
    {| sc_segments := sc_segments s; sc_current := sc_current s ++ [c];
       sc_quote := if bool_decide (sc_quote s = Some c) then None
                   else match sc_quote s with None => Some c | q => q end;
       sc_escaped := false |}
  else if bool_decide (sc_quote s = None) && is_separator c then
    {| sc_segments := push_segment (sc_current s) (sc_segments s); sc_current := []; sc_quote := None;
       sc_escaped := false |}
  else keep.

Definition split_shell_segments (command : text) : list text :=
  let s := foldl scan_char {| sc_segments := []; sc_current := []; sc_quote := None; sc_escaped := false |} command in
  push_segment (sc_current s) (sc_segments s).

(** ** Read-only segments *)

Definition is_flag (word : text) : bool := starts_with word (lit "-").

Definition systemctl_is_read_only (args : list text) : bool :=
  match find (λ arg, negb (is_flag arg)) args with
  | Some action =>
      one_of ["status"; "show"; "is-active"; "is-enabled"; "list-units"; "list-unit-files"; "show-environment"] action
  | None => false
  end.

(** [argument.strip_prefix("--method=").or_else(|| argument.strip_prefix("-X"))] *)
Definition inline_method (argument : text) : option text :=
  match strip_prefix argument (lit "--method=") with
  | Some m => Some m
  | None => strip_prefix argument (lit "-X")
  end.

Fixpoint glab_api_is_get (args : list text) : bool :=
  match args with
  | [] => true
  | argument :: rest =>
      match inline_method argument with
      | Some m => eq_ignore_ascii_case m (lit "GET") && glab_api_is_get rest
      | None =>
          if one_of ["--method"; "-X"] argument then
            match rest with
            | [] => false
            | m :: rest' => eq_ignore_ascii_case m (lit "GET") && glab_api_is_get rest'
            end
          else glab_api_is_get rest
      end
  end.

Definition glab_is_read_only (args : list text) : bool :=
  match args with
  | [] => false
  | first :: rest =>
      one_of ["version"; "--version"; "help"] first
      || match rest with
         | action :: _ =>
             one_of ["mr"; "issue"; "repo"; "ci"; "release"; "variable"; "ssh-key"; "alias"; "label"; "milestone";
                     "epic"; "snippet"; "user"] first
             && one_of ["list"; "view"; "trace"; "status"] action
         | [] => false
         end
      || one_of ["api"] first && glab_api_is_get rest
  end.

Definition is_help_or_version_probe (program : text) (args : list text) : bool :=
  if contains program (lit "=") || match args with [] => true | _ => false end then false
  else if existsb (one_of ["start"; "stop"; "restart"; "enable"; "disable"; "install"; "deploy"; "remove"; "delete"]) args
  then false
  else
    match args with [arg] => one_of ["--version"; "-V"] arg | _ => false end
    || match last args with
       | Some arg => one_of ["--help"; "-h"] arg && forallb (λ a, negb (is_flag a)) (removelast args)
       | None => false
       end.

Definition always_read_only : list string :=
  ["cat"; "ls"; "pwd"; "echo"; "which"; "whoami"; "head"; "tail"; "wc"; "grep"; "rg"; "stat"; "realpath";
   "readlink"; "uname"; "date"; "id"; "env"; "printenv"; "lsb_release"].

Definition git_reads : list string :=
  ["status"; "diff"; "log"; "show"; "branch"; "rev-parse"; "remote"; "ls-files"; "ls-tree"].

Definition xargs_options : list string := ["-0"; "--null"; "-r"; "--no-run-if-empty"].

(** [words[1..].skip_while(..)] of the [xargs] case. *)
Fixpoint skip_xargs_options (words : list text) : list text :=
  match words with
  | w :: rest => if one_of xargs_options w then skip_xargs_options rest else words
  | [] => []
  end.

(** [is_read_only_segment] of the words of a segment; the [xargs] case joins what
    follows and starts again, with fewer words. *)
Fixpoint read_only_words (fuel : nat) (words : list text) : bool :=
  match fuel, words with
  | S fuel, program :: args =>
      if one_of always_read_only program then true
      else if one_of ["cd"] program then
        match args with [dir] => negb (is_flag dir) | _ => false end
      else if one_of ["command"] program then bool_decide (head args = Some (lit "-v"))
      else if one_of ["find"] program then negb (existsb (one_of ["-delete"; "-exec"; "-execdir"]) words)
      else if one_of ["xargs"] program then
        match skip_xargs_options args with
        | [] => false
        | nested => read_only_words fuel (split_whitespace (join [StdText.space] nested))
        end
      else if one_of ["git"] program then
        match args with sub :: _ => one_of git_reads sub | [] => false end
      else if one_of ["glab"] program then glab_is_read_only args
      else if one_of ["systemctl"] program then systemctl_is_read_only args
      else is_help_or_version_probe program args
  | _, _ => false
  end.

Definition is_read_only_segment (segment : text) : bool :=
  let words := split_whitespace segment in read_only_words (length words) words.

Definition is_read_only_glab_command (command : text) : bool :=
  let segments := split_shell_segments command in
  existsb (λ s, starts_with s (lit "glab ")) segments
  && forallb is_read_only_segment segments
  && negb (existsb (one_of ["glab --version"; "glab version"]) segments).

(** [!segments.is_empty() && segments.iter().all(is_read_only_segment)] *)
Definition all_read_only (segments : list text) : bool :=
  negb (bool_decide (segments = [])) && forallb is_read_only_segment segments.

Definition destructive_programs : list string := ["rm"; "rmdir"; "mkfs"; "shutdown"; "reboot"].

Definition system_programs : list string :=
  ["sudo"; "su"; "doas"; "apt"; "apt-get"; "dpkg"; "rpm"; "dnf"; "yum"; "pacman"].

Definition network_programs : list string := ["curl"; "wget"; "ssh"; "scp"; "nc"; "ncat"].

Definition classify_command (command : text) : CommandEffect :=
  if is_empty (trim command) then WorkspaceMutation
  else
    let normalized := strip_safe_redirections (trim command) in
    let lower := to_ascii_lowercase normalized in
    if invokes_program lower destructive_programs || contains lower (lit "git reset --hard")
       || contains lower (lit "git clean -f")
    then Destructive
    else if invokes_program lower system_programs then SystemChange
    else if invokes_program lower ["systemctl"] && negb (all_read_only (split_shell_segments normalized))
    then SystemChange
    else if is_read_only_glab_command normalized then ReadOnlyNetwork
    else if invokes_program lower network_programs || contains lower (lit "glab api ") then NetworkEgress
    else if has_mutating_shell_syntax lower then WorkspaceMutation
    else if all_read_only (split_shell_segments normalized) then ReadOnly
    else WorkspaceMutation.

End CommandEffect.

(** ** What a read-only classification means

    The segments of a command as a reference definition that reads quotes and
    escapes from the left, the grammar of the segments that count as read-only,
    and what a command outside a transaction looks like. *)

Import CommandEffect.


(** ** Segments *)

Definition before_first (c : N) (pieces : list text) : list text :=
  match pieces with p :: rest => (c :: p) :: rest | [] => [[c]] end.

(** The pieces between the separators that are neither quoted nor escaped. *)
Fixpoint pieces (quote : option N) (escaped : bool) (t : text) : list text :=
  match t with
  | [] => [[]]
  | c :: r =>
      if escaped then before_first c (pieces quote false r)
      else if bool_decide (c = backslash ∧ quote ≠ Some single_quote) then before_first c (pieces quote true r)
      else if bool_decide (c = single_quote ∨ c = double_quote) then
        before_first c (pieces (if bool_decide (quote = Some c) then None
                                else match quote with None => Some c | q => q end) false r)
      else if bool_decide (quote = None) && is_separator c then [] :: pieces None false r
      else before_first c (pieces quote false r)
  end.

Definition nonblank (l : list text) : list text := filter (λ s, s ≠ []) (trim <$> l).

Lemma pieces_ne quote escaped t : pieces quote escaped t ≠ [].
Proof.
  revert quote escaped. induction t as [|c t IH]; intros quote escaped; cbn; [done|].
  repeat case_match; try done; by destruct (pieces _ _ t).
Qed.

(** The current segment and the pieces to come. *)
Definition resume (current : text) (l : list text) : list text :=
  match l with p :: rest => (current ++ p) :: rest | [] => [current] end.

Lemma resume_before current c l : l ≠ [] → resume current (before_first c l) = resume (current ++ [c]) l.
Proof. destruct l as [|p l]; [done|]. intros _. cbn. by rewrite <-app_assoc. Qed.

Lemma push_segment_nonblank current segments rest :
  push_segment current segments ++ nonblank rest = segments ++ nonblank (current :: rest).
Proof.
  unfold push_segment, nonblank. cbn [fmap list_fmap]. rewrite filter_cons.
  destruct (trim current); cbn; [by rewrite decide_False by auto|]. rewrite decide_True by done. by rewrite <-app_assoc.
Qed.

Lemma scan_pieces t s :
  (λ s, push_segment (sc_current s) (sc_segments s)) (foldl scan_char s t)
  = sc_segments s ++ nonblank (resume (sc_current s) (pieces (sc_quote s) (sc_escaped s) t)).
Proof.
  revert s. induction t as [|c t IH]; intros [segments current quote escaped]; cbn [foldl].
  - cbn [sc_current sc_segments pieces resume]. rewrite app_nil_r.
    rewrite <-(push_segment_nonblank current segments []). by rewrite app_nil_r.
  - rewrite IH. cbn [sc_current sc_segments sc_quote sc_escaped scan_char pieces].
    unfold scan_char. cbn [sc_current sc_segments sc_quote sc_escaped].
    destruct escaped; [by rewrite resume_before by apply pieces_ne|].
    case_bool_decide; [by rewrite resume_before by apply pieces_ne|].
    destruct (bool_decide (c = single_quote ∨ c = double_quote)); [cbn [sc_current sc_segments sc_quote sc_escaped]; rewrite resume_before by apply pieces_ne; by destruct quote|].
    destruct (bool_decide (quote = None) && is_separator c); cbn [sc_current sc_segments sc_quote sc_escaped].
    + destruct (pieces None false t) eqn:Hp; [by apply pieces_ne in Hp|]. cbn [resume app].
      rewrite app_nil_r. apply push_segment_nonblank.
    + by rewrite resume_before by apply pieces_ne.
Qed.

(** The loop computes the reference. *)
Lemma split_shell_segments_pieces command :
  split_shell_segments command = nonblank (pieces None false command).
Proof.
  unfold split_shell_segments.
  pose proof (scan_pieces command {| sc_segments := []; sc_current := []; sc_quote := None; sc_escaped := false |}) as H.
  cbn in H. rewrite H. destruct (pieces None false command) eqn:Hp; [by apply pieces_ne in Hp|done].
Qed.

(** Without quotes and escapes the segments are what the separators leave. *)
Lemma pieces_plain t :
  Forall (λ c, c ≠ backslash ∧ c ≠ single_quote ∧ c ≠ double_quote) t → pieces None false t = split is_separator t.
Proof.
  induction 1 as [|c t (Hb & Hs & Hd) _ IH]; [done|]. cbn [pieces split].
  rewrite (bool_decide_false (c = backslash ∧ _)) by tauto. rewrite (bool_decide_false (c = single_quote ∨ _)) by tauto.
  rewrite bool_decide_true by done. cbn. rewrite IH. by destruct (is_separator c).
Qed.

(** ** Read-only segments *)

Definition named (programs : list string) (t : text) : Prop := t ∈ (lit <$> programs).

Definition special : list string :=
  always_read_only ++ ["cd"; "command"; "find"; "xargs"; "git"; "glab"; "systemctl"].

(** The word lists that count as read-only. *)
Inductive harmless : list text → Prop :=
| harmless_program p args : named always_read_only p → harmless (p :: args)
| harmless_cd dir : is_flag dir = false → harmless [lit "cd"; dir]
| harmless_command args : harmless (lit "command" :: lit "-v" :: args)
| harmless_find args : Forall (λ a, ¬ named ["-delete"; "-exec"; "-execdir"] a) args → harmless (lit "find" :: args)
| harmless_xargs options p args :
    Forall (named xargs_options) options → ¬ named xargs_options p → harmless (p :: args) →
    harmless (lit "xargs" :: options ++ p :: args)
| harmless_git sub args : named git_reads sub → harmless (lit "git" :: sub :: args)
| harmless_glab args : glab_is_read_only args = true → harmless (lit "glab" :: args)
| harmless_systemctl args : systemctl_is_read_only args = true → harmless (lit "systemctl" :: args)
| harmless_probe p args : ¬ named special p → is_help_or_version_probe p args = true → harmless (p :: args).

Lemma one_of_named words t : one_of words t = true ↔ named words t.
Proof. apply bool_decide_eq_true. Qed.

Lemma skip_xargs args :
  ∃ options, Forall (named xargs_options) options ∧ args = options ++ skip_xargs_options args
    ∧ ∀ p rest, skip_xargs_options args = p :: rest → ¬ named xargs_options p.
Proof.
  induction args as [|a args (opts & Ho & He & Hn)]; cbn; [by exists []|].
  destruct (one_of _ a) eqn:Ha.
  - exists (a :: opts). split_and!; [constructor; [by apply one_of_named|done]|cbn; by f_equal|done].
  - exists []. split_and!; [constructor|done|]. intros p rest [= <- <-] Hp. apply one_of_named in Hp. congruence.
Qed.

Lemma skip_xargs_app options p args :
  Forall (named xargs_options) options → ¬ named xargs_options p →
  skip_xargs_options (options ++ p :: args) = p :: args.
Proof.
  intros Ho Hp. induction Ho as [|o os Ho _ IH]; cbn.
  - destruct (one_of _ p) eqn:H; [|done]. apply one_of_named in H. done.
  - by rewrite (proj2 (one_of_named _ _) Ho).
Qed.

Lemma one_of_special words t : (∀ w, w ∈ words → w ∈ special) → ¬ named special t → one_of words t = false.
Proof.
  intros Hsub Ht. apply bool_decide_eq_false. intros (w & -> & Hw)%list_elem_of_fmap. apply Ht.
  apply list_elem_of_fmap. exists w. auto.
Qed.

Lemma named_one w t : named [w] t → t = lit w.
Proof. unfold named. cbn. by rewrite list_elem_of_singleton. Qed.

Lemma existsb_false {A} (f : A → bool) l : existsb f l = false ↔ ∀ x, x ∈ l → f x = false.
Proof.
  induction l as [|y l IH]; cbn; [split; [by intros _ ? ?%elem_of_nil|done]|].
  rewrite orb_false_iff, IH. setoid_rewrite elem_of_cons. naive_solver.
Qed.

(** What the classifier accepts is in the grammar. *)
Lemma read_only_sound fuel words :
  Forall word words → read_only_words fuel words = true → harmless words.
Proof.
  revert words. induction fuel as [|fuel IH]; intros [|program args] Hw; cbn [read_only_words]; try done.
  destruct (one_of always_read_only program) eqn:H1; [intros _; apply harmless_program; by apply one_of_named|].
  destruct (one_of ["cd"] program) eqn:H2.
  { apply one_of_named, named_one in H2 as ->. destruct args as [|dir [|]]; try done.
    intros Hd%negb_true_iff. by apply harmless_cd. }
  destruct (one_of ["command"] program) eqn:H3.
  { apply one_of_named, named_one in H3 as ->. intros Hd%bool_decide_eq_true. destruct args; [done|].
    injection Hd as ->. apply harmless_command. }
  destruct (one_of ["find"] program) eqn:H4.
  { apply one_of_named, named_one in H4 as ->. intros Hd%negb_true_iff. cbn in Hd. apply orb_false_iff in Hd as [_ Hd].
    apply harmless_find. apply Forall_forall. intros a Ha Hn%one_of_named. rewrite existsb_false in Hd. by rewrite Hd in Hn. }
  destruct (one_of ["xargs"] program) eqn:H5.
  { apply one_of_named, named_one in H5 as ->. destruct (skip_xargs args) as (opts & Ho & He & Hn).
    destruct (skip_xargs_options args) as [|p rest]; [done|]. apply Forall_cons in Hw as [_ Hw].
    rewrite He in Hw. apply Forall_app in Hw as [_ Hw]. rewrite split_whitespace_join by done. intros Hr.
    rewrite He. apply harmless_xargs; [done|by eapply Hn|by apply IH]. }
  destruct (one_of ["git"] program) eqn:H6.
  { apply one_of_named, named_one in H6 as ->. destruct args; [done|]. intros Hd%one_of_named. by apply harmless_git. }
  destruct (one_of ["glab"] program) eqn:H7.
  { apply one_of_named, named_one in H7 as ->. by apply harmless_glab. }
  destruct (one_of ["systemctl"] program) eqn:H8.
  { apply one_of_named, named_one in H8 as ->. by apply harmless_systemctl. }
  intros Hp. apply harmless_probe; [|done]. unfold named, special. rewrite fmap_app, elem_of_app.
  intros [Hin|Hin]; [apply one_of_named in Hin; congruence|]. cbn in Hin. rewrite !elem_of_cons in Hin.
  destruct Hin as [->|[->|[->|[->|[->|[->|[->|[]%elem_of_nil]]]]]]]; done.
Qed.

(** What is in the grammar is accepted, with fuel for each word. *)
Lemma read_only_complete words :
  harmless words → Forall word words → ∀ fuel, (length words ≤ fuel)%nat → read_only_words fuel words = true.
Proof.
  induction 1 as [p args Hp|dir Hd|args|args Hf|opts p args Ho Hp _ IH|sub args Hs|args Ha|args Ha|p args Hs Hp];
    intros Hw [|fuel] Hlen; cbn [length] in Hlen; try lia; cbn [read_only_words].
  - by rewrite (proj2 (one_of_named _ _) Hp).
  - by rewrite Hd.
  - done.
  - apply negb_true_iff. cbn. apply existsb_false. intros a Ha. apply bool_decide_eq_false.
    by eapply Forall_forall in Hf.
  - change (match skip_xargs_options (opts ++ p :: args) with [] => false
            | nested => read_only_words fuel (split_whitespace (join [StdText.space] nested)) end = true).
    apply Forall_cons in Hw as [_ Hw]. apply Forall_app in Hw as [_ Hw].
    rewrite skip_xargs_app by done. rewrite split_whitespace_join by done. apply IH; [done|].
    rewrite length_app in Hlen. cbn [length] in *. lia.
  - by apply one_of_named in Hs.
  - done.
  - done.
  - repeat (rewrite one_of_special by (done || (intros w Hin; unfold special; set_solver))). done.
Qed.

(** A segment is read-only when its words are in the grammar. *)
Lemma is_read_only_segment_spec segment :
  is_read_only_segment segment = true ↔ harmless (split_whitespace segment).
Proof.
  unfold is_read_only_segment. split.
  - apply read_only_sound, split_whitespace_words.
  - intros H. apply read_only_complete; [done|apply split_whitespace_words|done].
Qed.

(** ** Commands outside a transaction *)

(** The program a piece of a command starts with. *)
Definition starts (piece program : text) : Prop := ∃ args, split_whitespace piece = program :: args.

(** No piece between separators or parentheses, quoted or not, starts with one of
    the programs. *)
Definition never_starts (programs : list string) (t : text) : Prop :=
  ∀ piece program, piece ∈ split (λ c, is_separator c || one_of ["("; ")"] [c]) t → starts piece program →
    ¬ named programs program.

Lemma invokes_none programs t : invokes_program t programs = false ↔ never_starts programs t.
Proof.
  unfold invokes_program. rewrite existsb_false. split.
  - intros H piece program Hin [args Hs] Hn. specialize (H piece Hin). rewrite Hs in H. apply one_of_named in Hn. congruence.
  - intros H piece Hin. destruct (split_whitespace piece) as [|program args] eqn:Hs; [done|].
    apply not_true_is_false. rewrite one_of_named. apply (H piece program Hin). by exists args.
Qed.

Lemma all_read_only_spec segments :
  all_read_only segments = true ↔ segments ≠ [] ∧ Forall (λ s, harmless (split_whitespace s)) segments.
Proof.
  unfold all_read_only. rewrite andb_true_iff, negb_true_iff, bool_decide_eq_false, forallb_forall, Forall_forall.
  setoid_rewrite is_read_only_segment_spec. setoid_rewrite list_elem_of_In. done.
Qed.

(** None of the texts occurs. *)
Definition avoids (t : text) (parts : list string) : Prop := Forall (λ p, contains t (lit p) = false) parts.

(** What every command outside a transaction has in common: segments in the
    grammar, of which there is at least one, and none of the programs and of the
    [git] commands that are refused first. *)
Record admissible (t : text) : Prop := {
  ad_some : split_shell_segments t ≠ [];
  ad_harmless : Forall (λ s, harmless (split_whitespace s)) (split_shell_segments t);
  ad_starts : never_starts (destructive_programs ++ system_programs) (to_ascii_lowercase t);
  ad_git : avoids (to_ascii_lowercase t) ["git reset --hard"; "git clean -f"];
}.

(** A segment calls [glab] for more than its version. *)
Definition reads_network (t : text) : Prop :=
  Exists (λ s, starts_with s (lit "glab ") = true) (split_shell_segments t)
  ∧ Forall (λ s, ¬ named ["glab --version"; "glab version"] s) (split_shell_segments t).

(** No network program, and no redirection, here-document, substitution, [-delete]
    or [-exec] anywhere in the text. *)
Definition offline (t : text) : Prop :=
  never_starts network_programs (to_ascii_lowercase t)
  ∧ avoids (to_ascii_lowercase t) ["glab api "; ">"; "<<"; "$("; "`"; " -delete"; " -exec"].

Lemma never_starts_app ps qs t : never_starts (ps ++ qs) t ↔ never_starts ps t ∧ never_starts qs t.
Proof. unfold never_starts, named. setoid_rewrite fmap_app. setoid_rewrite elem_of_app. naive_solver. Qed.

Lemma avoids_cons t p ps : avoids t (p :: ps) ↔ contains t (lit p) = false ∧ avoids t ps.
Proof. unfold avoids. by rewrite list.Forall_cons. Qed.

Lemma avoids_nil t : avoids t [] ↔ True.
Proof. unfold avoids. by rewrite Forall_nil. Qed.

Lemma admissible_checks t :
  admissible t ↔
  all_read_only (split_shell_segments t) = true
  ∧ invokes_program (to_ascii_lowercase t) destructive_programs = false
  ∧ contains (to_ascii_lowercase t) (lit "git reset --hard") = false
  ∧ contains (to_ascii_lowercase t) (lit "git clean -f") = false
  ∧ invokes_program (to_ascii_lowercase t) system_programs = false.
Proof.
  rewrite all_read_only_spec, !invokes_none. split.
  - intros [H1 H2 [H3 H4]%never_starts_app H5]. rewrite !avoids_cons in H5. naive_solver.
  - intros ([? ?] & ? & ? & ? & ?). split; [done..| |]; [by rewrite never_starts_app|].
    by rewrite !avoids_cons, avoids_nil.
Qed.

Lemma offline_checks t :
  offline t ↔
  invokes_program (to_ascii_lowercase t) network_programs || contains (to_ascii_lowercase t) (lit "glab api ") = false
  ∧ has_mutating_shell_syntax (to_ascii_lowercase t) = false.
Proof.
  unfold offline, has_mutating_shell_syntax. rewrite !orb_false_iff, invokes_none, !avoids_cons, avoids_nil. naive_solver.
Qed.

Lemma glab_checks t :
  admissible t → is_read_only_glab_command t = true ↔ reads_network t.
Proof.
  intros [_ Hh _ _]. unfold is_read_only_glab_command, reads_network.
  rewrite !andb_true_iff, negb_true_iff, existsb_false, forallb_forall, existsb_exists, List.Exists_exists, !Forall_forall.
  rewrite Forall_forall in Hh. setoid_rewrite <-list_elem_of_In. setoid_rewrite is_read_only_segment_spec.
  setoid_rewrite <-one_of_named. setoid_rewrite not_true_iff_false. naive_solver.
Qed.

Lemma glab_segments t : is_read_only_glab_command t = true → all_read_only (split_shell_segments t) = true.
Proof.
  unfold is_read_only_glab_command, all_read_only. intros [[He Hf]%andb_true_iff _]%andb_true_iff.
  rewrite Hf. destruct (split_shell_segments t); [done|]. by rewrite bool_decide_false.
Qed.

(** The two classes of command that run outside a transaction. *)
Lemma untransacted_checks command :
  let t := strip_safe_redirections (trim command) in
  (admissible t ∧ (reads_network t ∨ offline t) →
     classify_command command = if is_read_only_glab_command t then ReadOnlyNetwork else ReadOnly)
  ∧ (requires_transaction (classify_command command) = false → admissible t ∧ (reads_network t ∨ offline t)).
Proof.
  intros t. split.
  - intros [Ha Hn]. pose proof Ha as (Hall & Hd & Hr & Hc & Hs)%admissible_checks. unfold classify_command.
    assert (is_empty (trim command) = false) as ->.
    { destruct (trim command); [|done]. by destruct (ad_some _ Ha). }
    fold t. rewrite Hd, Hr, Hc, Hs, Hall, andb_false_r. cbn [orb].
    destruct (is_read_only_glab_command t) eqn:Hg; [done|].
    destruct Hn as [Hn|Hn]; [by rewrite <-(glab_checks t Ha), Hg in Hn|].
    by apply offline_checks in Hn as [-> ->].
  - unfold classify_command. destruct (is_empty (trim command)); [done|]. fold t. intros Hq.
    rewrite admissible_checks. destruct (invokes_program _ destructive_programs) eqn:H1; [done|].
    destruct (contains _ (lit "git reset --hard")) eqn:H2; [done|].
    destruct (contains _ (lit "git clean -f")) eqn:H3; [done|]. cbn [orb] in Hq.
    destruct (invokes_program _ system_programs) eqn:H4; [done|]. destruct (_ && negb _); [done|].
    destruct (is_read_only_glab_command t) eqn:H5.
    + assert (admissible t) as Ha by (rewrite admissible_checks; split_and!; auto using glab_segments).
      split; [split_and!; auto using glab_segments|]. left. by apply glab_checks.
    + rewrite offline_checks. destruct (_ || _); [done|]. destruct (has_mutating_shell_syntax _); [done|].
      destruct (all_read_only _); [|done]. by split; [split_and!|right].
Qed.



(** ** What the grammar lets through *)

(** [env] runs the command that follows it, and a newline separates commands: both
    hide a destructive command, which is otherwise refused. *)
Lemma hidden_destructive_commands :
  classify_command (lit "env rm -rf src") = ReadOnly
  ∧ classify_command (lit "ls" ++ [newline] ++ lit "rm -rf src") = ReadOnly
  ∧ classify_command (lit "rm -rf src") = Destructive.
Proof. vm_compute. auto. Qed.

(** Deleting a branch and writing to a file whose name extends [/dev/null] count as
    read-only, and so does a [glab api] call that sends fields. *)
Lemma mutations_classified_read_only :
  classify_command (lit "git branch -D main") = ReadOnly
  ∧ classify_command (lit "echo x >/dev/nullable") = ReadOnly
  ∧ classify_command (lit "glab api projects/1/issues -f title=x") = ReadOnlyNetwork.
Proof. vm_compute. auto. Qed.

(** [-X GET] is never accepted: [-X] alone is read as an inline method that is
    empty. *)
Lemma separate_method_flag_rejected args : glab_api_is_get (lit "-X" :: args) = false.
Proof. done. Qed.
