(* ===== verification/StructuredPatch.v ===== *)
(** * Structured patches (crates/platform/src/structured_patch.rs)

    The three formats of patches (text blocks, JSON, unified diffs), the check of
    their paths, and the application of hunks to the content of a file. *)
From S2P Require Import Prelude Fallible StdText.

#[local] Open Scope N_scope.

Module StructuredPatch.

Record PatchHunk := {
  ph_old_start : N;
  ph_old_count : N;
  ph_new_start : N;
  ph_new_count : N;
  ph_content : text;
}.

Inductive PatchOperation :=
| AddFile (path content : text)
| DeleteFile (path : text)
| UpdateFile (path : text) (move_to : option text) (hunks : list PatchHunk)
| AppendFile (path content : text).

Record StructuredPatch := {
  sp_operations : list PatchOperation;
}.

Abbreviation Fallible := (Result text).

(** ** Paths *)

Inductive PathComponent := RootDir | CurDir | ParentDir | Normal (name : text).

#[global] Instance PathComponent_eq_dec : EqDecision PathComponent.
Proof. solve_decision. Defined.

Abbreviation slash := 47.

Definition path_segment (s : text) : option PathComponent :=
  if decide (s = [] ∨ s = lit ".") then None
  else Some (if decide (s = lit "..") then ParentDir else Normal s).

(** [Path::new(t).components()] on Unix: empty segments and [.] are skipped, but
    for a leading [/] or [.]. *)
Definition path_components (t : text) : list PathComponent :=
  match split (λ c, c =? slash) t with
  | [] :: rest => (if decide (t = []) then [] else [RootDir]) ++ omap path_segment rest
  | s :: rest => (if decide (s = lit ".") then [CurDir] else option_list (path_segment s)) ++ omap path_segment rest
  | [] => []
  end.

Definition validate_path (path_str : text) : Fallible unit :=
  if is_empty path_str then Err (lit "path is empty")
  else if starts_with path_str (lit "/") then
    Err (lit "absolute path not allowed: '" ++ path_str ++ lit "' (use a relative path)")
  else
    each (path_components path_str) (λ component,
      match component with
      | ParentDir => Err (lit "path traversal not allowed: '" ++ path_str ++ lit "' (contains '..')")
      | RootDir => Err (lit "absolute or prefixed path not allowed: '" ++ path_str ++ lit "'")
      | _ => Ok tt
      end).

(** ** The text format *)

Definition BEGIN_MARKER : text := lit "*** Begin Patch".
Definition END_MARKER : text := lit "*** End Patch".
Definition FENCE : text := lit ">>>".

Definition number (n : nat) : text := lit (pretty (N.of_nat n)).

Definition parse_hunk_range (s : text) : Fallible (N * N) :=
  let s := trim_start_matches (λ c, (c =? 45) || (c =? 43)) s in
  match split_once comma s with
  | Some (start_str, count_str) =>
      start ← some_or (parse_u64 start_str) (lit "invalid hunk line number: '" ++ start_str ++ lit "'");
      count ← some_or (parse_u64 count_str) (lit "invalid hunk count: '" ++ count_str ++ lit "'");
      Ok (start, count)
  | None =>
      start ← some_or (parse_u64 s) (lit "invalid hunk line number: '" ++ s ++ lit "'");
      Ok (start, 1)
  end.

Definition parse_hunk_header (line : text) : Fallible (N * N * N * N) :=
  let invalid := lit "invalid hunk header: '" ++ line ++ lit "'" in
  inner ← some_or (strip_prefix line (lit "@@ ") ≫= λ s, strip_suffix s (lit " @@")) invalid;
  match split_whitespace inner with
  | old :: new :: _ =>
      o ← parse_hunk_range old;
      n ← parse_hunk_range new;
      Ok (o.1, o.2, n.1, n.2)
  | _ => Err invalid
  end.

Definition hunk_of (header : N * N * N * N) (content : list text) : PatchHunk :=
  match header with
  | (old_start, old_count, new_start, new_count) =>
      {| ph_old_start := old_start; ph_old_count := old_count; ph_new_start := new_start;
         ph_new_count := new_count; ph_content := join [newline] content |}
  end.

(** The loop of [parse_hunks] with the current hunk, and its last flush. *)
Fixpoint collect_hunks (current : option (N * N * N * N * list text)) (ls : list text) : Fallible (list PatchHunk) :=
  let flush := match current with Some (header, content) => [hunk_of header content] | None => [] end in
  match ls with
  | [] => Ok flush
  | line :: rest =>
      if starts_with line (lit "@@ ") then
        header ← parse_hunk_header line;
        hunks ← collect_hunks (Some (header, [])) rest;
        Ok (flush ++ hunks)
      else
        collect_hunks (match current with Some (header, content) => Some (header, content ++ [line]) | None => None end)
          rest
  end.

Definition parse_hunks (hunk_text : text) : Fallible (list PatchHunk) :=
  hunks ← collect_hunks None (lines hunk_text);
  match hunks with
  | [] => Err (lit "no hunk headers found in UpdateFile block")
  | _ => Ok hunks
  end.

Definition is_newline (c : N) : bool := c =? newline.

(** The text between the first and the last fence, without newlines at its ends. *)
Definition between_fences (block : text) (missing : text) : Fallible text :=
  match match_indices block FENCE with
  | first :: second :: more =>
      let start := (first + length FENCE)%nat in
      let end_ := default second (last more) in
      Ok (trim_end_matches is_newline (trim_start_matches is_newline (drop start (take end_ block))))
  | _ => Err missing
  end.

Definition extract_fenced_content (block : text) (op_name : string) : Fallible text :=
  between_fences block
    (lit op_name ++ lit " operation missing content fences ('>>>'): expected at least two fence markers").

(** The search for [Move to:], up to the line [Hunk:]. *)
Fixpoint find_move_to (move_to : option text) (ls : list text) : Fallible (option text) :=
  match ls with
  | [] => Ok move_to
  | line :: rest =>
      let trimmed := trim line in
      move_to ← match strip_prefix trimmed (lit "Move to:") with
                | Some r => validate_path (trim r) ;; Ok (Some (trim r))
                | None => Ok move_to
                end;
      if decide (trimmed = lit "Hunk:") then Ok move_to else find_move_to move_to rest
  end.

Definition parse_update_block (block : text) : Fallible (option text * list PatchHunk) :=
  move_to ← find_move_to None (drop 1 (lines block));
  hunk_text ← between_fences block
    (lit "UpdateFile operation missing hunk content fences ('>>>'): expected fence markers around hunk content");
  hunks ← parse_hunks hunk_text;
  Ok (move_to, hunks).

(** The path after a header, checked. *)
Definition header_path (r : text) : Fallible text := validate_path (trim r) ;; Ok (trim r).

Definition parse_patch_block (block : text) : Fallible PatchOperation :=
  match lines block with
  | [] => Err (lit "empty patch block")
  | line :: _ =>
      let first_line := trim line in
      match strip_prefix first_line (lit "Delete File:") with
      | Some r => path ← header_path r; Ok (DeleteFile path)
      | None =>
      match strip_prefix first_line (lit "Add File:") with
      | Some r => path ← header_path r; content ← extract_fenced_content block "Add File"; Ok (AddFile path content)
      | None =>
      match strip_prefix first_line (lit "Update File:") with
      | Some r => path ← header_path r; u ← parse_update_block block; Ok (UpdateFile path u.1 u.2)
      | None =>
      match strip_prefix first_line (lit "Append File:") with
      | Some r => path ← header_path r; content ← extract_fenced_content block "Append File"; Ok (AppendFile path content)
      | None =>
          Err (lit "unknown operation header: '" ++ first_line
               ++ lit "'. Expected one of: Add File:, Delete File:, Update File:, Append File:")
      end end end end
  end.

(** The loop over the blocks; each takes its markers out of [rest]. *)
Fixpoint parse_blocks (fuel : nat) (rest : text) (operations : list PatchOperation) : Fallible (list PatchOperation) :=
  match rest, fuel with
  | [], _ => Ok operations
  | _, O => Panic
  | _, S fuel =>
      begin_pos ← some_or (find_at rest BEGIN_MARKER)
        (match operations with
         | [] => lit "no '*** Begin Patch' marker found"
         | _ => lit "expected '" ++ BEGIN_MARKER ++ lit "' marker after operation index " ++ number (length operations)
         end);
      let after := drop (begin_pos + length BEGIN_MARKER) rest in
      end_pos ← some_or (find_at after END_MARKER)
        (lit "missing '" ++ END_MARKER ++ lit "' marker for operation index " ++ number (length operations));
      operation ← parse_patch_block (trim (take end_pos after));
      parse_blocks fuel (trim (drop (end_pos + length END_MARKER) after)) (operations ++ [operation])
  end.

Definition parse_structured_patch (input : text) : Fallible StructuredPatch :=
  let input := trim input in
  if is_empty input then Err (lit "empty patch content")
  else
    operations ← parse_blocks (length input) input [];
    Ok {| sp_operations := operations |}.

(** ** JSON *)

Section Json.
(** [serde_json::Value]: the accessors the parser uses, and [from_str]. *)
Context {Value : Type} (from_str : text → Fallible Value) (get : Value → text → option Value)
  (as_array : Value → option (list Value)) (as_str : Value → option text) (as_u64 : Value → option N).

Definition index2 (idx h_idx : nat) : text := number idx ++ lit "." ++ number h_idx.

Definition json_field (h : Value) (field : string) (idx h_idx : nat) : Fallible N :=
  some_or (get h (lit field) ≫= as_u64)
    (lit "hunk at index " ++ index2 idx h_idx ++ lit " missing '" ++ lit field ++ lit "' field").

Fixpoint json_hunks (idx h_idx : nat) (l : list Value) : Fallible (list PatchHunk) :=
  match l with
  | [] => Ok []
  | h :: rest =>
      old_start ← json_field h "old_start" idx h_idx;
      old_count ← json_field h "old_count" idx h_idx;
      new_start ← json_field h "new_start" idx h_idx;
      new_count ← json_field h "new_count" idx h_idx;
      content ← some_or (get h (lit "content") ≫= as_str)
        (lit "hunk at index " ++ index2 idx h_idx ++ lit " missing 'content' field");
      hunks ← json_hunks idx (S h_idx) rest;
      Ok ({| ph_old_start := old_start; ph_old_count := old_count; ph_new_start := new_start;
             ph_new_count := new_count; ph_content := content |} :: hunks)
  end.

Definition parse_json_hunks (op : Value) (idx : nat) : Fallible (list PatchHunk) :=
  hunks_array ← some_or (get op (lit "hunks") ≫= as_array)
    (lit "update operation at index " ++ number idx ++ lit " missing 'hunks' array");
  json_hunks idx 0 hunks_array.

Definition json_content (op : Value) (kind : string) (idx : nat) : Fallible text :=
  some_or (get op (lit "content") ≫= as_str)
    (lit kind ++ lit " operation at index " ++ number idx ++ lit " missing 'content' field").

Definition json_operation (op : Value) (idx : nat) : Fallible PatchOperation :=
  op_type ← some_or (get op (lit "type") ≫= as_str)
    (lit "operation at index " ++ number idx ++ lit " missing 'type' field");
  path ← some_or (get op (lit "path") ≫= as_str)
    (lit "operation at index " ++ number idx ++ lit " missing 'path' field");
  validate_path path ;;
  if decide (op_type = lit "add") then content ← json_content op "add" idx; Ok (AddFile path content)
  else if decide (op_type = lit "delete") then Ok (DeleteFile path)
  else if decide (op_type = lit "update") then
    move_to ← match get op (lit "move_to") ≫= as_str with
              | Some s => validate_path s ;; Ok (Some s)
              | None => Ok None
              end;
    hunks ← parse_json_hunks op idx;
    Ok (UpdateFile path move_to hunks)
  else if decide (op_type = lit "append") then content ← json_content op "append" idx; Ok (AppendFile path content)
  else Err (lit "unknown operation type '" ++ op_type ++ lit "' at index " ++ number idx
            ++ lit ". Expected one of: add, update, delete, append").

Fixpoint json_operations (idx : nat) (l : list Value) : Fallible (list PatchOperation) :=
  match l with
  | [] => Ok []
  | op :: rest =>
      operation ← json_operation op idx;
      operations ← json_operations (S idx) rest;
      Ok (operation :: operations)
  end.

Definition parse_structured_patch_json (input : text) : Fallible StructuredPatch :=
  raw ← match from_str input with
        | Err e => Err (lit "invalid JSON: " ++ e)
        | r => r
        end;
  ops_array ← some_or (get raw (lit "operations") ≫= as_array) (lit "JSON must contain an 'operations' array");
  operations ← json_operations 0 ops_array;
  Ok {| sp_operations := operations |}.
End Json.

(** ** Unified diffs *)

(** [parts.next().map(str::parse).transpose()] *)
Definition parse_unified_range (value : text) (sign : N) : Fallible (N * N) :=
  rest ← some_or (strip_prefix value [sign])
    (lit "unified range '" ++ value ++ lit "' is missing '" ++ [sign] ++ lit "'");
  let invalid := lit "invalid unified range: " ++ rest in
  match split (λ c, c =? comma) rest with
  | start_str :: more =>
      start ← some_or (parse_u64 start_str) invalid;
      count ← match more with
              | count_str :: _ => some_or (parse_u64 count_str) invalid
              | [] => Ok 1
              end;
      Ok (start, count)
  | [] => Err (lit "unified range is empty")
  end.

(** [header.split(" @@").next()] *)
Definition before_at (header : text) : text :=
  match find_at header (lit " @@") with Some i => take i header | None => header end.

Definition parse_unified_hunk_header (header : text) : Fallible (N * N * N * N) :=
  let invalid := lit "invalid unified hunk header: " ++ header in
  match split_whitespace (before_at header) with
  | old :: new :: _ =>
      o ← parse_unified_range old 45;
      n ← parse_unified_range new 43;
      Ok (o.1, o.2, n.1, n.2)
  | _ => Err invalid
  end.

Definition diff_path (header : text) (prefix : string) : Fallible (option text) :=
  let path := trim (hd [] (split (λ c, c =? 9) header)) in
  if decide (path = lit "/dev/null") then Ok None
  else
    let path := default path (strip_prefix path (lit prefix)) in
    validate_path path ;;
    Ok (Some path).

(** The lines of a hunk and the lines after it. *)
Fixpoint hunk_body (ls : list text) : list text * list text :=
  match ls with
  | [] => ([], [])
  | line :: rest =>
      if starts_with line (lit "@@ ") || starts_with line (lit "--- ") then ([], ls)
      else if starts_with line (lit " ") || starts_with line (lit "+") || starts_with line (lit "-") then
        let body := hunk_body rest in (line :: body.1, body.2)
      else if decide (line = lit "\ No newline at end of file") then hunk_body rest
      else ([], ls)
  end.

(** The hunks up to the next file header, and the lines from there. *)
Fixpoint file_hunks (fuel : nat) (ls : list text) : Fallible (list PatchHunk * list text) :=
  match ls, fuel with
  | [], _ => Ok ([], [])
  | _, O => Panic
  | line :: rest, S fuel =>
      if starts_with line (lit "--- ") then Ok ([], ls)
      else
        match strip_prefix line (lit "@@ ") with
        | Some header =>
            h ← parse_unified_hunk_header header;
            let body := hunk_body rest in
            more ← file_hunks fuel body.2;
            Ok (hunk_of h body.1 :: more.1, more.2)
        | None => file_hunks fuel rest
        end
  end.

(** The content of an added file. *)
Definition added_content (input : text) (hunks : list PatchHunk) : text :=
  join [newline] (omap (λ line, strip_prefix line (lit "+")) (mjoin ((λ h, lines (ph_content h)) <$> hunks)))
  ++ (if ends_with input [newline] then [newline] else []).

Definition file_operation (input : text) (old_path new_path : option text) (hunks : list PatchHunk)
    : Fallible PatchOperation :=
  match old_path, new_path with
  | None, Some path => Ok (AddFile path (added_content input hunks))
  | Some path, None => Ok (DeleteFile path)
  | Some _, Some path => Ok (UpdateFile path None hunks)
  | None, None => Err (lit "unified diff cannot use /dev/null for both paths")
  end.

Fixpoint diff_files (fuel : nat) (input : text) (ls : list text) : Fallible (list PatchOperation) :=
  match ls, fuel with
  | [], _ => Ok []
  | _, O => Panic
  | line :: rest, S fuel =>
      match strip_prefix line (lit "--- ") with
      | None => diff_files fuel input rest
      | Some old_header =>
          let missing := lit "unified diff is missing its +++ header" in
          next ← some_or (head rest) missing;
          new_header ← some_or (strip_prefix next (lit "+++ ")) missing;
          old_path ← diff_path old_header "a/";
          new_path ← diff_path new_header "b/";
          h ← file_hunks (length rest) (tail rest);
          operation ← file_operation input old_path new_path h.1;
          operations ← diff_files fuel input h.2;
          Ok (operation :: operations)
      end
  end.

Definition parse_unified_diff (input : text) : Fallible StructuredPatch :=
  operations ← diff_files (length (lines input)) input (lines input);
  match operations with
  | [] => Err (lit "no unified diff file headers found")
  | _ => Ok {| sp_operations := operations |}
  end.

(** ** Applying hunks *)

Inductive HunkLine :=
| Context (l : text)
| Remove (l : text)
| Add (l : text).

(** An empty line is context; a line with another first character is dropped. *)
Definition parse_hunk_line (line : text) : option HunkLine :=
  match line with
  | [] => Some (Context [])
  | c :: rest =>
      if c =? 32 then Some (Context rest)
      else if c =? 45 then Some (Remove rest)
      else if c =? 43 then Some (Add rest)
      else None
  end.

Definition parse_hunk_lines (content : text) : list HunkLine := omap parse_hunk_line (lines content).

Definition normalize_char (c : N) : N :=
  if (0x2013 <=? c) && (c <=? 0x2015) then 45
  else if (c =? 0x2018) || (c =? 0x2019) then 39
  else if (c =? 0x201c) || (c =? 0x201d) then 34
  else c.

Definition normalize_line (line : text) : text := trim_end (normalize_char <$> line).

Definition lines_match (actual expected : text) : bool :=
  bool_decide (normalize_line actual = normalize_line expected).

(** The hunk's lines against the lines of the file from a position on. *)
Fixpoint matches_here (here : list text) (parsed : list HunkLine) : bool :=
  match parsed with
  | [] => true
  | (Context expected | Remove expected) :: rest =>
      match here with
      | actual :: here' => lines_match actual expected && matches_here here' rest
      | [] => false
      end
  | Add _ :: rest => matches_here here rest
  end.

Definition matches_hunk_at (ls : list text) (parsed : list HunkLine) (start : N) : bool :=
  matches_here (drop (N.to_nat start) ls) parsed.

Definition consumes (l : HunkLine) : bool := match l with Add _ => false | _ => true end.

Definition consumed (parsed : list HunkLine) : nat := length (filter (λ l, consumes l = true) parsed).

(** The first position of the range at which the hunk matches. *)
Definition seek_sequence (ls : list text) (parsed : list HunkLine) (max_search_window : N) : option N :=
  if decide (consumed parsed = 0%nat ∨ (length ls < consumed parsed)%nat) then None
  else
    let last_start := N.of_nat (length ls - consumed parsed) in
    find (matches_hunk_at ls parsed) (N.of_nat <$> seq 0 (S (N.to_nat (N.min last_start max_search_window)))).

(** [isize] arithmetic with wrap-around, and the cast to [usize]. *)
Definition wrap_isize (z : Z) : Z := ((z + 2 ^ 63) mod 2 ^ 64 - 2 ^ 63)%Z.

Definition as_usize (z : Z) : N := Z.to_N (z mod 2 ^ 64)%Z.

(** The offsets [1..=3], forward before backward. *)
Definition nearby (ls : list text) (parsed : list HunkLine) (target : Z) : option N :=
  let at_ := λ z, if matches_hunk_at ls parsed (as_usize z) then Some (as_usize z) else None in
  let try := λ delta : Z,
    let forward := wrap_isize (target + delta) in
    match (if bool_decide (forward < Z.of_nat (length ls))%Z then at_ forward else None) with
    | Some p => Some p
    | None => if bool_decide (delta ≤ target)%Z then at_ (target - delta)%Z else None
    end in
  match try 1%Z with
  | Some p => Some p
  | None => match try 2%Z with Some p => Some p | None => try 3%Z end
  end.

Definition hunk_range (hunk : PatchHunk) : text :=
  let num := λ n : N, lit (pretty n) in
  lit "@@ -" ++ num (ph_old_start hunk) ++ lit "," ++ num (ph_old_count hunk) ++ lit " +"
  ++ num (ph_new_start hunk) ++ lit "," ++ num (ph_new_count hunk) ++ lit " @@".

Definition find_hunk_position (ls : list text) (hunk : PatchHunk) (offset : Z) : Fallible N :=
  let target := Z.max (wrap_isize (wrap_isize (wrap_isize (Z.of_N (ph_old_start hunk)) - 1) + offset)) 0 in
  let parsed := parse_hunk_lines (ph_content hunk) in
  if matches_hunk_at ls parsed (as_usize target) then Ok (as_usize target)
  else
    match nearby ls parsed target with
    | Some p => Ok p
    | None =>
        some_or (seek_sequence ls parsed 10000)
          (lit "could not find matching location for hunk " ++ hunk_range hunk)
    end.

(** The loop over the hunk's lines: the new lines, and how many old ones they
    replace; [None] is a mismatch. *)
Fixpoint replay_lines (here : list text) (parsed : list HunkLine) : option (list text * nat) :=
  match parsed with
  | [] => Some ([], 0%nat)
  | Context expected :: rest =>
      match here with
      | actual :: here' =>
          if lines_match actual expected then
            match replay_lines here' rest with Some (new, k) => Some (actual :: new, S k) | None => None end
          else None
      | [] => None
      end
  | Remove expected :: rest =>
      match here with
      | actual :: here' =>
          if lines_match actual expected then
            match replay_lines here' rest with Some (new, k) => Some (new, S k) | None => None end
          else None
      | [] => None
      end
  | Add line :: rest =>
      match replay_lines here rest with Some (new, k) => Some (line :: new, k) | None => None end
  end.

(** [lines.splice(start..end, new)]: the range must lie in the vector. *)
Definition splice (start : N) (count : nat) (new ls : list text) : option (list text) :=
  let start := N.to_nat start in
  if decide (start + count ≤ length ls)%nat then Some (take start ls ++ new ++ drop (start + count) ls) else None.

(** One hunk: the lines after it and the offset for the next.  A mismatch is
    reported without its line, which the position found rules out. *)
Definition apply_hunk (ls : list text) (offset : Z) (hunk : PatchHunk) : Fallible (list text * Z) :=
  match_start ← find_hunk_position ls hunk offset;
  let parsed := parse_hunk_lines (ph_content hunk) in
  r ← some_or (replay_lines (drop (N.to_nat match_start) ls) parsed)
        (lit "mismatch in hunk " ++ hunk_range hunk);
  ls' ← must (splice match_start r.2 r.1 ls);
  Ok (ls', wrap_isize (Z.of_N match_start + Z.of_nat (length r.1) - Z.of_nat (consumed parsed))).

(** The loop over the hunks; an error carries the index of the hunk. *)
Fixpoint apply_hunks (index : nat) (ls : list text) (offset : Z) (hunks : list PatchHunk)
    : Result (text * nat) (list text) :=
  match hunks with
  | [] => Ok ls
  | hunk :: rest =>
      match apply_hunk ls offset hunk with
      | Ok (ls', offset') => apply_hunks (S index) ls' offset' rest
      | Err error => Err (error, index)
      | Panic => Panic
      end
  end.

Definition apply_patch_hunks (content : text) (hunks : list PatchHunk) : Result (text * nat) text :=
  ls ← apply_hunks 0 (lines content) 0 hunks;
  Ok (join [newline] ls ++ (if ends_with content [newline] then [newline] else [])).

End StructuredPatch.
