(* ===== verification/PatchSpec.v ===== *)
(** * What the patch parsers and the application of hunks promise

    Every path a parser accepts stays below the directory it is resolved in; the
    loops end; a patch that applies rewrites the blocks its hunks describe and
    nothing else. *)
From S2P Require Import Prelude Fallible StdText StructuredPatch.
Import StructuredPatch.

#[local] Open Scope N_scope.

(** ** Paths *)

(** Relative, and no segment climbs. *)
Record safe_path (p : text) : Prop := {
  sf_nonempty : p ≠ [];
  sf_relative : head p ≠ Some slash;
  sf_down : lit ".." ∉ split (λ c, c =? slash) p;
}.

Definition paths_of (op : PatchOperation) : list text :=
  match op with
  | AddFile p _ | DeleteFile p | AppendFile p _ => [p]
  | UpdateFile p m _ => p :: option_list m
  end.

Definition safe_operation (op : PatchOperation) : Prop := Forall safe_path (paths_of op).

Lemma segment_parent (l : list text) : lit ".." ∈ l → ParentDir ∈ omap path_segment l.
Proof. intros H. apply list_elem_of_omap. exists (lit ".."). split; [done|]. by vm_compute. Qed.

Lemma components_parent p : lit ".." ∈ split (λ c, c =? slash) p → ParentDir ∈ path_components p.
Proof.
  unfold path_components. destruct (split _ p) as [|s rest]; [by intros ?%elem_of_nil|].
  rewrite elem_of_cons. intros [<-|Hin].
  - apply elem_of_app. left. vm_compute. by left.
  - destruct s; rewrite elem_of_app; right; by apply segment_parent.
Qed.

Lemma starts_with_one p c : starts_with p [c] = false → head p ≠ Some c.
Proof.
  unfold starts_with. rewrite bool_decide_eq_false. intros Hs. destruct p as [|d p]; [done|]. intros [= ->].
  apply Hs. by exists p.
Qed.

Lemma validate_path_safe p u : validate_path p = Ok u → safe_path p.
Proof.
  unfold validate_path. destruct p as [|c p]; [done|]. cbn [is_empty].
  destruct (starts_with _ _) eqn:Hs; [done|]. intros Hv. apply each_ok in Hv. split; [done|by apply starts_with_one|].
  intros Hin%components_parent. rewrite Forall_forall in Hv. by apply Hv in Hin.
Qed.

Lemma validate_path_calm p : calm (validate_path p).
Proof. unfold validate_path. solve_calm. Qed.

Lemma header_path_safe r p : header_path r = Ok p → safe_path p.
Proof. unfold header_path. intros H. inv_ok H. simplify_eq. by eapply validate_path_safe. Qed.

(** ** The text format *)

Lemma find_move_to_safe m ls m' :
  (∀ p, m = Some p → safe_path p) → find_move_to m ls = Ok m' → ∀ p, m' = Some p → safe_path p.
Proof.
  revert m. induction ls as [|line rest IH]; intros m Hm; cbn [find_move_to]; [by intros [= ->]|].
  intros H. inv_ok H. assert (∀ p, a = Some p → safe_path p) as Ha.
  { intros p ->. destruct (strip_prefix _ _); [|by simplify_eq; apply Hm].
    inv_ok H0. simplify_eq. by eapply validate_path_safe. }
  case_decide; [simplify_eq; by apply Ha|by eapply IH].
Qed.

Lemma parse_update_block_safe block u : parse_update_block block = Ok u → Forall safe_path (option_list u.1).
Proof.
  unfold parse_update_block. intros H. inv_ok H. simplify_eq. cbn. destruct a as [m|]; [|constructor].
  apply Forall_singleton. by eapply find_move_to_safe; [|eassumption|reflexivity].
Qed.

Lemma parse_patch_block_safe block op : parse_patch_block block = Ok op → safe_operation op.
Proof.
  unfold parse_patch_block, safe_operation. destruct (lines block) as [|line rest]; [done|].
  repeat case_match; try done; intros H'; inv_ok H'; simplify_eq; cbn [paths_of];
    match goal with Hp : header_path _ = Ok _ |- _ => apply header_path_safe in Hp end;
    [by apply Forall_singleton..| |by apply Forall_singleton].
  constructor; [done|]. by eapply parse_update_block_safe.
Qed.

Lemma parse_blocks_safe fuel rest ops ops' :
  Forall safe_operation ops → parse_blocks fuel rest ops = Ok ops' → Forall safe_operation ops'.
Proof.
  revert rest ops. induction fuel as [|fuel IH]; intros rest ops Hops; destruct rest as [|c rest]; cbn [parse_blocks];
    try by intros [= <-].
  intros H. inv_ok H. eapply IH; [|exact H]. apply Forall_app_2; [done|]. apply Forall_singleton.
  by eapply parse_patch_block_safe.
Qed.

(** ** The loops end *)

Lemma find_at_length t p i : find_at t p = Some i → (i + length p ≤ length t)%nat.
Proof.
  revert i. induction t as [|c t IH]; intros i; cbn [find_at]; unfold starts_with at 1; case_bool_decide as Hp.
  1, 3: intros [= <-]; apply prefix_length in Hp; cbn in *; lia.
  - done.
  - intros (j & Hj & ->)%fmap_Some. apply IH in Hj. cbn. lia.
Qed.

Lemma trim_start_matches_length f t : (length (trim_start_matches f t) ≤ length t)%nat.
Proof. induction t as [|c t IH]; cbn; [done|]. destruct (f c); cbn; lia. Qed.

Lemma trim_length t : (length (trim t) ≤ length t)%nat.
Proof.
  unfold trim, trim_end, trim_start, trim_end_matches. rewrite length_reverse.
  etrans; [apply trim_start_matches_length|]. rewrite length_reverse. apply trim_start_matches_length.
Qed.

Lemma parse_u64_calm {E} t (e : E) : calm (some_or (parse_u64 t) e).
Proof. auto with aletheon. Qed.

Lemma parse_hunk_header_calm line : calm (parse_hunk_header line).
Proof. unfold parse_hunk_header, parse_hunk_range. solve_calm. Qed.

Lemma collect_hunks_calm current ls : calm (collect_hunks current ls).
Proof.
  revert current. induction ls as [|line rest IH]; intros current; cbn [collect_hunks]; [done|].
  destruct (starts_with _ _); [|apply IH]. apply calm_bind; [apply parse_hunk_header_calm|intros header _].
  apply calm_bind; [apply IH|done].
Qed.

Lemma between_fences_calm block missing : calm (between_fences block missing).
Proof. unfold between_fences. solve_calm. Qed.

Lemma find_move_to_calm m ls : calm (find_move_to m ls).
Proof.
  revert m. induction ls as [|line rest IH]; intros m; cbn [find_move_to]; [done|].
  apply calm_bind; [|intros]; repeat case_match; auto with aletheon.
  apply calm_bind; [apply validate_path_calm|done].
Qed.

Lemma parse_patch_block_calm block : calm (parse_patch_block block).
Proof.
  unfold parse_patch_block, extract_fenced_content, parse_update_block, parse_hunks, header_path.
  repeat first
    [ apply validate_path_calm | apply between_fences_calm | apply find_move_to_calm | apply collect_hunks_calm
    | apply calm_bind; [|intros ? ?] | progress auto with aletheon nocore | case_match ].
Qed.

Lemma parse_blocks_calm fuel rest ops : (length rest ≤ fuel)%nat → calm (parse_blocks fuel rest ops).
Proof.
  revert rest ops. induction fuel as [|fuel IH]; intros rest ops Hlen; destruct rest as [|c rest]; cbn [parse_blocks];
    try done; [cbn in Hlen; lia|].
  apply calm_bind; [auto with aletheon|]. intros b Hb. apply some_or_ok, find_at_length in Hb.
  apply calm_bind; [auto with aletheon|]. intros e He. apply some_or_ok, find_at_length in He.
  apply calm_bind; [apply parse_patch_block_calm|]. intros op _. apply IH.
  etrans; [apply trim_length|]. assert (length END_MARKER = 13%nat) as Hm by done.
  rewrite !length_drop in *. cbn [length] in *. lia.
Qed.

(** ** JSON *)

Section Json.
Context {Value : Type} (from_str : text → Fallible Value) (get : Value → text → option Value)
  (as_array : Value → option (list Value)) (as_str : Value → option text) (as_u64 : Value → option N).

Lemma json_operation_safe op idx o :
  json_operation get as_array as_str as_u64 op idx = Ok o → safe_operation o.
Proof.
  unfold json_operation, safe_operation. intros H. inv_ok H. apply validate_path_safe in H2.
  repeat case_decide; inv_ok H; simplify_eq; cbn [paths_of]; try by apply Forall_singleton.
  constructor; [done|].
  match goal with Hm : match ?o with Some _ => _ | None => _ end = Ok ?m |- context [option_list ?m] =>
    destruct o; [inv_ok Hm|]; simplify_eq; [|constructor] end.
  apply Forall_singleton. by eapply validate_path_safe.
Qed.

Lemma json_operations_safe idx l ops :
  json_operations get as_array as_str as_u64 idx l = Ok ops → Forall safe_operation ops.
Proof.
  revert idx ops. induction l as [|op l IH]; intros idx ops; cbn [json_operations]; [by intros [= <-]|].
  intros H. inv_ok H. simplify_eq. constructor; [by eapply json_operation_safe|by eapply IH].
Qed.

Lemma json_hunks_calm idx h_idx l : calm (json_hunks get as_str as_u64 idx h_idx l).
Proof.
  revert h_idx. induction l as [|h l IH]; intros h_idx; cbn [json_hunks]; [done|]. unfold json_field.
  repeat (apply calm_bind; [auto with aletheon|intros ? ?]). done.
Qed.

Lemma json_operations_calm idx l : calm (json_operations get as_array as_str as_u64 idx l).
Proof.
  revert idx. induction l as [|op l IH]; intros idx; cbn [json_operations]; [done|].
  unfold json_operation, json_content, parse_json_hunks.
  repeat first
    [ apply validate_path_calm | apply json_hunks_calm | apply IH
    | apply calm_bind; [|intros ? ?] | progress auto with aletheon nocore | case_match ].
Qed.
End Json.

(** ** Unified diffs *)

Lemma diff_path_safe header prefix p : diff_path header prefix = Ok (Some p) → safe_path p.
Proof.
  unfold diff_path. case_decide; [done|]. intros H'. inv_ok H'. simplify_eq. by eapply validate_path_safe.
Qed.

Lemma file_operation_safe input old new hunks op :
  (∀ p, old = Some p → safe_path p) → (∀ p, new = Some p → safe_path p) →
  file_operation input old new hunks = Ok op → safe_operation op.
Proof.
  intros Ho Hn. destruct old as [o|], new as [n|]; intros [= <-]; apply Forall_singleton; auto.
Qed.

Lemma diff_files_safe fuel input ls ops :
  diff_files fuel input ls = Ok ops → Forall safe_operation ops.
Proof.
  revert ls ops. induction fuel as [|fuel IH]; intros [|line rest] ops; cbn [diff_files]; try by intros [= <-].
  destruct (strip_prefix line _) as [old_header|]; [|by apply IH]. intros H. inv_ok H. simplify_eq. constructor; [|by eapply IH].
  eapply file_operation_safe; [| |eassumption]; intros p ->; by eapply diff_path_safe.
Qed.

Lemma hunk_body_length ls : (length (hunk_body ls).2 ≤ length ls)%nat.
Proof. induction ls as [|line rest IH]; cbn; [done|]. repeat (case_match; cbn; try lia). Qed.

Lemma parse_unified_hunk_header_calm header : calm (parse_unified_hunk_header header).
Proof. unfold parse_unified_hunk_header, parse_unified_range. solve_calm. Qed.

Lemma file_hunks_spec fuel ls :
  (length ls ≤ fuel)%nat →
  calm (file_hunks fuel ls) ∧ ∀ h, file_hunks fuel ls = Ok h → (length h.2 ≤ length ls)%nat.
Proof.
  revert ls. induction fuel as [|fuel IH]; intros [|line rest] Hlen; cbn [file_hunks]; try by (split; [done|intros h [= <-]]).
  { cbn in Hlen. lia. }
  cbn [length] in *. destruct (starts_with line _); [by split; [done|intros h [= <-]]|].
  destruct (strip_prefix line _) as [header|].
  - pose proof (hunk_body_length rest). destruct (IH (hunk_body rest).2) as [Hc Hl]; [lia|]. split.
    + apply calm_bind; [apply parse_unified_hunk_header_calm|intros]. by apply calm_bind.
    + intros h H'. inv_ok H'. simplify_eq. cbn. apply Hl in H'1. lia.
  - destruct (IH rest) as [Hc Hl]; [lia|]. split; [done|]. intros h Hh%Hl. lia.
Qed.

Lemma diff_path_calm header prefix : calm (diff_path header prefix).
Proof. unfold diff_path. case_decide; [done|]. apply calm_bind; [apply validate_path_calm|done]. Qed.

Lemma diff_files_calm fuel input ls : (length ls ≤ fuel)%nat → calm (diff_files fuel input ls).
Proof.
  revert ls. induction fuel as [|fuel IH]; intros [|line rest] Hlen; cbn [diff_files]; try done; cbn [length] in *; [lia|].
  destruct (strip_prefix line _) as [old_header|]; [|apply IH; lia].
  do 2 (apply calm_bind; [auto with aletheon|intros ? ?]). do 2 (apply calm_bind; [apply diff_path_calm|intros ? ?]).
  assert (length (tail rest) ≤ length rest)%nat as Ht by (destruct rest; cbn; lia).
  destruct (file_hunks_spec (length rest) (tail rest) Ht) as [Hc Hl].
  apply calm_bind; [done|]. intros h Hh. apply Hl in Hh. apply calm_bind.
  - unfold file_operation. solve_calm.
  - intros op _. apply calm_bind; [apply IH; lia|done].
Qed.

(** C17. Whatever the input, the three parsers of patches end, and every path of a
    patch they accept, including the target of a move, is nonempty, relative and
    has no [..] segment. *)
Theorem parsed_paths_are_safe {Value : Type} (from_str : text → Fallible Value) get as_array as_str as_u64 input :
  calm (parse_structured_patch input) ∧ calm (parse_unified_diff input)
  ∧ (calm (from_str input) → calm (parse_structured_patch_json from_str get as_array as_str as_u64 input))
  ∧ ∀ patch, parse_structured_patch input = Ok patch ∨ parse_unified_diff input = Ok patch
      ∨ parse_structured_patch_json from_str get as_array as_str as_u64 input = Ok patch →
      Forall safe_operation (sp_operations patch).
Proof.
  split_and!.
  - unfold parse_structured_patch. destruct (is_empty _); [done|]. apply calm_bind; [by apply parse_blocks_calm|done].
  - unfold parse_unified_diff. apply calm_bind; [by apply diff_files_calm|]. by intros [].
  - intros Hf. unfold parse_structured_patch_json. apply calm_bind; [by destruct (from_str input)|intros raw _].
    apply calm_bind; [auto with aletheon|intros l _]. apply calm_bind; [apply json_operations_calm|done].
  - intros patch [H|[H|H]].
    + unfold parse_structured_patch in H. destruct (is_empty _); [done|]. inv_ok H. simplify_eq.
      by eapply parse_blocks_safe; [constructor|].
    + unfold parse_unified_diff in H. inv_ok H. destruct a; [done|]. simplify_eq. by eapply diff_files_safe.
    + unfold parse_structured_patch_json in H. inv_ok H. simplify_eq. by eapply json_operations_safe.
Qed.
