(* ===== verification/PatchApply.v ===== *)
(** * Applying hunks

    What [apply_patch_hunks] does to a file: the reference relation of a patch, the
    hunk that says where it goes, and three hunks that go wrong. *)
From S2P Require Import Prelude Fallible StdText StructuredPatch.
Import StructuredPatch.

#[local] Open Scope N_scope.

(** ** The reference *)

(** The lines of a hunk turn [old] into [new]: context lines are kept as the file
    has them, removed lines go, added lines come; old lines are compared up to
    trailing white space and typographic punctuation. *)
Inductive rewrites : list HunkLine → list text → list text → Prop :=
| rewrites_nil : rewrites [] [] []
| rewrites_context e a hs old new :
    lines_match a e = true → rewrites hs old new → rewrites (Context e :: hs) (a :: old) (a :: new)
| rewrites_remove e a hs old new :
    lines_match a e = true → rewrites hs old new → rewrites (Remove e :: hs) (a :: old) new
| rewrites_add l hs old new : rewrites hs old new → rewrites (Add l :: hs) old (l :: new).

Definition hunk_lines (h : PatchHunk) : list HunkLine := parse_hunk_lines (ph_content h).

(** The old lines of a hunk are in the file from line [p] on (counted from 0). *)
Definition fits (ls : list text) (hs : list HunkLine) (p : N) : Prop :=
  ∃ old new post, drop (N.to_nat p) ls = old ++ post ∧ rewrites hs old new.

(** Where a hunk is looked for, in this order: at the line it should be at, up to
    three lines behind and before it, and, if it has old lines, from the top of the
    file on, at the first 10001 lines at most. *)
Definition candidates (count : nat) (hs : list HunkLine) (at_ : N) : list N :=
  let near := λ d : N, (if decide (at_ + d < N.of_nat count) then [at_ + d] else [])
                       ++ (if decide (d ≤ at_) then [at_ - d] else []) in
  at_ :: near 1 ++ near 2 ++ near 3
  ++ (if decide (consumed hs = 0%nat ∨ (count < consumed hs)%nat) then []
      else N.of_nat <$> seq 0 (S (N.to_nat (N.min (N.of_nat (count - consumed hs)) 10000)))).

(** The first of the lines at which the hunk fits. *)
Definition first_fit (ls : list text) (hs : list HunkLine) (l : list N) (p : N) : Prop :=
  ∃ before after, l = before ++ p :: after ∧ fits ls hs p ∧ Forall (λ q, ¬ fits ls hs q) before.

(** The line a hunk should be at: the one it names, counted from 0, moved by the
    drift of the hunks before it. *)
Definition expected_line (h : PatchHunk) (drift : Z) : N := Z.to_N (Z.of_N (ph_old_start h) - 1 + drift).

Definition places (ls : list text) (drift : Z) (h : PatchHunk) : list N :=
  candidates (length ls) (hunk_lines h) (expected_line h drift).

(** One block of the file, at the first line at which it fits, is rewritten and the
    rest stays; the drift left to the next hunk is the line of the block plus the
    lines it has grown by. *)
Definition hunk_applied (ls : list text) (drift : Z) (h : PatchHunk) (ls' : list text) (drift' : Z) : Prop :=
  ∃ pre old new post, ls = pre ++ old ++ post ∧ ls' = pre ++ new ++ post ∧ rewrites (hunk_lines h) old new
    ∧ first_fit ls (hunk_lines h) (places ls drift h) (N.of_nat (length pre))
    ∧ drift' = (Z.of_nat (length pre) + Z.of_nat (length new) - Z.of_nat (length old))%Z.

Inductive patched (ls : list text) : list PatchHunk → list text → Z → Prop :=
| patched_nil : patched ls [] ls 0
| patched_snoc hs ls1 drift1 h ls2 drift2 :
    patched ls hs ls1 drift1 → hunk_applied ls1 drift1 h ls2 drift2 → patched ls (hs ++ [h]) ls2 drift2.

(** ** Matching *)

Lemma replay_rewrites here hs new k :
  replay_lines here hs = Some (new, k) → rewrites hs (take k here) new ∧ (k ≤ length here)%nat.
Proof.
  revert here new k. induction hs as [|[e|e|l] hs IH]; intros here new k; cbn [replay_lines].
  - intros [= <- <-]. split; [constructor|lia].
  - destruct here as [|a here]; [done|]. destruct (lines_match a e) eqn:Hm; [|done].
    destruct (replay_lines here hs) as [[n' k']|] eqn:Hr; [|done]. intros [= <- <-].
    apply IH in Hr as [? ?]. split; [by constructor|cbn; lia].
  - destruct here as [|a here]; [done|]. destruct (lines_match a e) eqn:Hm; [|done].
    destruct (replay_lines here hs) as [[n' k']|] eqn:Hr; [|done]. intros [= <- <-].
    apply IH in Hr as [? ?]. split; [by constructor|cbn; lia].
  - destruct (replay_lines here hs) as [[n' k']|] eqn:Hr; [|done]. intros [= <- <-].
    apply IH in Hr as [? ?]. split; [by constructor|done].
Qed.

Lemma rewrites_replay hs old new post :
  rewrites hs old new → replay_lines (old ++ post) hs = Some (new, length old).
Proof.
  induction 1 as [|e a hs old new Hm _ IH|e a hs old new Hm _ IH|l hs old new _ IH]; cbn [replay_lines app length];
    [done|by rewrite Hm, IH..|by rewrite IH].
Qed.

Lemma rewrites_consumed hs old new : rewrites hs old new → length old = consumed hs.
Proof.
  unfold consumed. induction 1 as [| | |l hs old new _ IH]; [done|..|by rewrite filter_cons_False];
    rewrite filter_cons_True by done; cbn; by f_equal.
Qed.

(** Where a hunk matches its lines can be replayed: no mismatch comes later. *)
Lemma matches_replay here hs : matches_here here hs = true ↔ is_Some (replay_lines here hs).
Proof.
  revert here. induction hs as [|[e|e|l] hs IH]; intros here; cbn [matches_here replay_lines]; [by split; eauto|..].
  - destruct here as [|a here]; [by split; [|intros []]|]. rewrite andb_true_iff, IH.
    destruct (lines_match a e); [|by split; [intros [? _]|intros []]].
    rewrite !is_Some_alt. destruct (replay_lines here hs) as [[]|]; tauto.
  - destruct here as [|a here]; [by split; [|intros []]|]. rewrite andb_true_iff, IH.
    destruct (lines_match a e); [|by split; [intros [? _]|intros []]].
    rewrite !is_Some_alt. destruct (replay_lines here hs) as [[]|]; tauto.
  - rewrite IH, !is_Some_alt. by destruct (replay_lines here hs) as [[]|].
Qed.

Lemma matches_fits ls hs p : matches_hunk_at ls hs p = true ↔ fits ls hs p.
Proof.
  unfold matches_hunk_at. rewrite matches_replay. split.
  - intros [[new k] Hr]. apply replay_rewrites in Hr as [Hw _].
    exists (take k (drop (N.to_nat p) ls)), new, (drop k (drop (N.to_nat p) ls)). by rewrite take_drop.
  - intros (old & new & post & -> & Hw). rewrite (rewrites_replay _ _ _ post Hw). by eexists.
Qed.

Lemma find_app {A} (f : A → bool) l k :
  find f (l ++ k) = match find f l with Some x => Some x | None => find f k end.
Proof. induction l as [|x l IH]; cbn; [done|]. by destruct (f x). Qed.

(** What [find] finds. *)
Lemma find_first ls hs l :
  match find (matches_hunk_at ls hs) l with
  | Some p => first_fit ls hs l p
  | None => Forall (λ q, ¬ fits ls hs q) l
  end.
Proof.
  induction l as [|x l IH]; cbn; [done|]. pose proof (matches_fits ls hs x) as Hx.
  destruct (matches_hunk_at ls hs x); [exists [], l; by split_and!; [|apply Hx|]|].
  assert (¬ fits ls hs x) as Hn by by rewrite <-Hx.
  destruct (find _ l) as [p|]; [|by constructor]. destruct IH as (before & after & -> & Hf & Hb).
  exists (x :: before), after. by split_and!; [|..|constructor].
Qed.

Definition not_found (h : PatchHunk) : text :=
  lit "could not find matching location for hunk " ++ hunk_range h.

Lemma wrap_isize_small z : (- 2 ^ 63 ≤ z < 2 ^ 63)%Z → wrap_isize z = z.
Proof. intros Hz. unfold wrap_isize. rewrite Z.mod_small; lia. Qed.

Lemma as_usize_small z : (0 ≤ z < 2 ^ 63)%Z → as_usize z = Z.to_N z.
Proof. intros Hz. unfold as_usize. rewrite Z.mod_small by lia. done. Qed.

(** A file and a line that a 64-bit machine can count to. *)
Definition countable (z : Z) : Prop := (- 2 ^ 61 < z < 2 ^ 61)%Z.

Lemma find_hunk_position_spec ls h drift :
  countable (Z.of_nat (length ls)) → countable drift → countable (Z.of_N (ph_old_start h)) →
  find_hunk_position ls h drift
  = some_or (find (matches_hunk_at ls (hunk_lines h)) (places ls drift h)) (not_found h).
Proof.
  unfold countable. intros Hl Hd Hs. unfold find_hunk_position, places, candidates, expected_line, nearby. fold (hunk_lines h).
  rewrite (wrap_isize_small (Z.of_N _)) by lia. rewrite (wrap_isize_small (_ - 1)) by lia.
  rewrite (wrap_isize_small (_ + drift)) by lia.
  set (t := Z.max _ 0). set (e := Z.to_N _). assert (e = Z.to_N t) as He by (subst t e; lia).
  assert (0 ≤ t < 2 ^ 63 - 3)%Z as Ht by (subst t; lia). clearbody t e. subst e.
  rewrite !(wrap_isize_small (t + _)) by lia. rewrite (as_usize_small t) by lia.
  cbn [find app]. destruct (matches_hunk_at ls _ (Z.to_N t)); [done|].
  assert (∀ d : Z, (1 ≤ d ≤ 3)%Z →
    find (matches_hunk_at ls (hunk_lines h))
      ((if decide (Z.to_N t + Z.to_N d < N.of_nat (length ls)) then [Z.to_N t + Z.to_N d] else [])
       ++ (if decide (Z.to_N d ≤ Z.to_N t) then [Z.to_N t - Z.to_N d] else []))
    = match (if bool_decide (t + d < Z.of_nat (length ls))%Z
             then if matches_hunk_at ls (hunk_lines h) (as_usize (t + d)) then Some (as_usize (t + d)) else None
             else None) with
      | Some p => Some p
      | None => if bool_decide (d ≤ t)%Z
                then if matches_hunk_at ls (hunk_lines h) (as_usize (t - d)) then Some (as_usize (t - d)) else None
                else None
      end) as Hnear.
  { intros d Hr. rewrite find_app, (as_usize_small (t + d)) by lia.
    replace (Z.to_N (t + d)) with (Z.to_N t + Z.to_N d) by lia.
    rewrite (bool_decide_ext (t + d < _)%Z (Z.to_N t + Z.to_N d < N.of_nat (length ls))) by lia.
    rewrite (bool_decide_ext (d ≤ t)%Z (Z.to_N d ≤ Z.to_N t)) by lia.
    unfold bool_decide. destruct (decide (Z.to_N t + _ < _)); cbn.
    all: destruct (decide (Z.to_N d ≤ _)) as [Hle|]; cbn; [|by repeat case_match].
    all: rewrite (as_usize_small (t - d)) by lia; replace (Z.to_N (t - d)) with (Z.to_N t - Z.to_N d) by lia.
    all: by repeat case_match. }
  rewrite !(find_app _ (_ ++ _)).
  rewrite <-(Hnear 1%Z), <-(Hnear 2%Z), <-(Hnear 3%Z) by lia.
  change (Z.to_N 1) with 1. change (Z.to_N 2) with 2. change (Z.to_N 3) with 3.
  destruct (find _ (_ ++ _)); [done|]. destruct (find _ (_ ++ _)); [done|]. destruct (find _ (_ ++ _)); [done|].
  unfold seek_sequence. by case_decide.
Qed.

(** ** One hunk *)

(** How many lines a run of hunks can add. *)
Definition hunks_size (hunks : list PatchHunk) : nat := sum_list_with (λ h, length (hunk_lines h)) hunks.

Lemma rewrites_sizes hs old new :
  rewrites hs old new → (length old ≤ length hs ∧ length new ≤ length hs)%nat.
Proof. induction 1; cbn; lia. Qed.

Lemma apply_hunk_spec ls drift h :
  countable (Z.of_nat (length ls) + Z.of_nat (length (hunk_lines h))) → countable drift →
  countable (Z.of_N (ph_old_start h)) →
  match apply_hunk ls drift h with
  | Ok (ls', drift') => hunk_applied ls drift h ls' drift'
      ∧ (length ls' ≤ length ls + length (hunk_lines h))%nat ∧ countable drift'
  | Err e => e = not_found h ∧ Forall (λ q, ¬ fits ls (hunk_lines h) q) (places ls drift h)
  | Panic => consumed (hunk_lines h) = 0%nat ∧ N.of_nat (length ls) < expected_line h drift
  end.
Proof.
  intros Hl Hd Hs. unfold countable in *. unfold apply_hunk.
  rewrite find_hunk_position_spec by (unfold countable; lia). fold (hunk_lines h).
  pose proof (find_first ls (hunk_lines h) (places ls drift h)) as Hp.
  destruct (find _ _) as [p|]; [|done]. cbn [some_or]. unfold mbind, Result_bind.
  pose proof Hp as (_ & _ & _ & Hfit & _). apply matches_fits, matches_replay in Hfit as [[new k] Hr].
  rewrite Hr. cbn [some_or]. apply replay_rewrites in Hr as [Hw Hk]. pose proof (rewrites_sizes _ _ _ Hw) as [Ho Hn].
  unfold splice. cbn [fst snd]. rewrite length_drop in Hk. rewrite length_take, length_drop in Ho.
  pose proof (rewrites_consumed _ _ _ Hw) as Hc. rewrite length_take, length_drop in Hc.
  case_decide as Hlen; cbn [must].
  - split_and!; [|rewrite !length_app, length_take, length_drop; lia|rewrite wrap_isize_small; lia..].
    exists (take (N.to_nat p) ls), (take k (drop (N.to_nat p) ls)), new, (drop (N.to_nat p + k) ls).
    assert (N.of_nat (length (take (N.to_nat p) ls)) = p) as Hlp by (rewrite length_take; lia).
    split_and!; [|done|done|by rewrite Hlp|].
    + rewrite <-drop_drop, take_drop. symmetry. apply take_drop.
    + rewrite wrap_isize_small by lia. rewrite !length_take, ?length_drop; lia.
  - assert (k = 0%nat) as -> by lia. split; [lia|]. destruct Hp as (before & after & Hin & _).
    assert (p ∈ places ls drift h) as Hel by (rewrite Hin; set_solver). unfold places, candidates in Hel.
    rewrite (decide_True (P := consumed _ = 0%nat ∨ _)) in Hel by (left; lia).
    repeat case_decide; cbn in Hel; rewrite ?elem_of_cons, ?elem_of_nil in Hel; lia.
Qed.

(** ** All hunks *)

Definition unlines (content : text) (ls : list text) : text :=
  join [newline] ls ++ (if ends_with content [newline] then [newline] else []).

(** The hunk at which the application stops, the file and the drift it has there. *)
Definition stopped (ls : list text) (hunks : list PatchHunk) (i : nat) (h : PatchHunk) (ls' : list text) (drift : Z)
    : Prop := hunks !! i = Some h ∧ patched ls (take i hunks) ls' drift.

Lemma apply_hunks_spec ls0 done_ ls index drift hunks :
  patched ls0 done_ ls drift → index = length done_ →
  countable (Z.of_nat (length ls) + Z.of_nat (hunks_size hunks)) → countable drift →
  Forall (λ h, countable (Z.of_N (ph_old_start h))) hunks →
  match apply_hunks index ls drift hunks with
  | Ok ls' => ∃ drift', patched ls0 (done_ ++ hunks) ls' drift'
  | Err (e, i) => ∃ h ls' drift', stopped ls0 (done_ ++ hunks) i h ls' drift'
      ∧ e = not_found h ∧ Forall (λ q, ¬ fits ls' (hunk_lines h) q) (places ls' drift' h)
  | Panic => ∃ i h ls' drift', stopped ls0 (done_ ++ hunks) i h ls' drift'
      ∧ consumed (hunk_lines h) = 0%nat ∧ N.of_nat (length ls') < expected_line h drift'
  end.
Proof.
  revert done_ ls index drift. induction hunks as [|h hunks IH]; intros done_ ls index drift Hp -> Hl Hd Hs; cbn [apply_hunks].
  { rewrite app_nil_r. eauto. }
  apply Forall_cons in Hs as [Hh Hs]. cbn in Hl. unfold countable in Hl. unfold hunks_size in *.
  assert (stopped ls0 (done_ ++ h :: hunks) (length done_) h ls drift) as Hstop.
  { split; [by rewrite lookup_app_r, Nat.sub_diag by done|by rewrite take_app_length]. }
  pose proof (apply_hunk_spec ls drift h ltac:(unfold countable; lia) Hd Hh) as Ha.
  destruct (apply_hunk ls drift h) as [[ls1 d1]|e|]; [|destruct Ha; eauto 10..]. destruct Ha as (Ha & Hlen & Hd1).
  specialize (IH (done_ ++ [h]) ls1 (S (length done_)) d1 (patched_snoc _ _ _ _ _ _ _ Hp Ha)).
  rewrite <-app_assoc in IH. cbn in IH. apply IH; [rewrite length_app; cbn; lia|unfold countable; lia|done|done].
Qed.

(** C27. Applying the hunks of a patch to the content of a file rewrites, hunk by
    hunk, one block of lines that matches the hunk's old lines (up to trailing white
    space and typographic punctuation) into its new lines and keeps every other
    line and the final newline.  The block is where the search order has it: at the
    line the hunk names moved by the drift of the hunks before it, else one, two or
    three lines behind or before, else at its first occurrence in the lines 0 to
    10000; the drift is the line where the previous hunk was applied plus the lines
    it has added.  It fails exactly at a hunk that fits at none of these places in
    the file as the hunks before it left it, and panics exactly at a hunk without
    old lines whose place is behind the end of the file.  Lines end in a newline
    afterwards, also those that ended in a carriage return and a newline
    ([carriage_returns_are_lost]).  Files and line numbers are below 2^61. *)
Theorem apply_patch_hunks_correct content hunks :
  countable (Z.of_nat (length (lines content)) + Z.of_nat (hunks_size hunks)) →
  Forall (λ h, countable (Z.of_N (ph_old_start h))) hunks →
  match apply_patch_hunks content hunks with
  | Ok r => ∃ ls drift, patched (lines content) hunks ls drift ∧ r = unlines content ls
  | Err (e, i) => ∃ h ls drift, stopped (lines content) hunks i h ls drift
      ∧ e = not_found h ∧ Forall (λ q, ¬ fits ls (hunk_lines h) q) (places ls drift h)
  | Panic => ∃ i h ls drift, stopped (lines content) hunks i h ls drift
      ∧ consumed (hunk_lines h) = 0%nat ∧ N.of_nat (length ls) < expected_line h drift
  end.
Proof.
  intros Hl Hs. unfold apply_patch_hunks.
  pose proof (apply_hunks_spec (lines content) [] (lines content) 0 0 hunks (patched_nil _) eq_refl Hl ltac:(done) Hs) as H.
  cbn [app] in H. unfold mbind, Result_bind. destruct (apply_hunks _ _ _ _) as [ls|[e i]|]; [|exact H..].
  destruct H as [drift H]. by exists ls, drift.
Qed.

(** ** A hunk that says where it goes *)

(** A line that a file of lines can hold. *)
Definition plain_line (l : text) : Prop := Forall (λ c, c ≠ newline) l ∧ last l ≠ Some return_.

Lemma split_join_end f c ls :
  f c = true → ls ≠ [] → Forall (Forall (λ c, f c = false)) ls → split f (join [c] ls ++ [c]) = ls ++ [[]].
Proof.
  intros Hc Hne. induction 1 as [|t ls Ht Hls IH]; [done|]. destruct ls as [|u ls].
  - cbn [join app]. by rewrite split_sep.
  - replace (join [c] (t :: u :: ls) ++ [c]) with (t ++ c :: (join [c] (u :: ls) ++ [c]))
      by (cbn [join]; by rewrite <-!app_assoc).
    rewrite split_sep by done. cbn [app]. f_equal. by apply IH.
Qed.

Lemma lines_terminated ls : ls ≠ [] → Forall plain_line ls → lines (join [newline] ls ++ [newline]) = ls.
Proof.
  intros Hne Hls. unfold lines. rewrite split_join_end; [|done|done|].
  2: { eapply Forall_impl; [exact Hls|]. intros l (Hl & _). eapply Forall_impl; [exact Hl|]. intros c. apply N.eqb_neq. }
  rewrite reverse_snoc, reverse_involutive. cbn. rewrite app_nil_r.
  clear Hne. induction Hls as [|u r (_ & Hu) _ IH]; [done|]. cbn. by rewrite unterminated_ok, IH.
Qed.

(** The hunk as it is printed, and what it turns into what. *)
Definition print_hunk_line (l : HunkLine) : text :=
  match l with Context t => 32 :: t | Remove t => 45 :: t | Add t => 43 :: t end.

Definition line_of (l : HunkLine) : text := match l with Context t | Remove t | Add t => t end.

Definition old_lines (edits : list HunkLine) : list text :=
  omap (λ l, match l with Context t | Remove t => Some t | Add _ => None end) edits.

Definition new_lines (edits : list HunkLine) : list text :=
  omap (λ l, match l with Context t | Add t => Some t | Remove _ => None end) edits.

Definition print_hunk (edits : list HunkLine) : text := join [newline] (print_hunk_line <$> edits).

Lemma parse_print_hunk edits :
  Forall (λ l, plain_line (line_of l)) edits → parse_hunk_lines (print_hunk edits) = edits.
Proof.
  intros He. unfold parse_hunk_lines, print_hunk. rewrite lines_join.
  - clear He. induction edits as [|[t|t|t] edits IH]; [done|..]; cbn; by f_equal.
  - apply Forall_fmap. eapply Forall_impl; [exact He|]. intros [t|t|t] [Hn Hl]; cbn in *;
      (split_and!; [by constructor|done|]); by destruct t.
Qed.

Lemma lines_match_refl l : lines_match l l = true.
Proof. by apply bool_decide_eq_true. Qed.

Lemma edits_rewrite edits : rewrites edits (old_lines edits) (new_lines edits).
Proof. induction edits as [|[t|t|t] edits IH]; cbn; constructor; try done; apply lines_match_refl. Qed.

(** A hunk whose old lines are at the line it gives is applied there. *)
Lemma apply_hunk_exact pre old new post h :
  rewrites (hunk_lines h) old new → old ≠ [] →
  ph_old_start h = N.of_nat (length pre) + 1 → N.of_nat (length pre) + 1 < 2 ^ 63 →
  ∃ o, apply_hunk (pre ++ old ++ post) 0 h = Ok (pre ++ new ++ post, o).
Proof.
  intros Hw Hne Hs Hlen. pose proof (rewrites_replay _ _ _ post Hw) as Hr. unfold apply_hunk, find_hunk_position.
  rewrite Hs. rewrite (wrap_isize_small (Z.of_N _)) by lia. rewrite (wrap_isize_small (_ - 1)) by lia.
  rewrite (wrap_isize_small (_ + 0)) by lia. fold (hunk_lines h).
  replace (Z.max _ 0) with (Z.of_nat (length pre)) by lia. rewrite as_usize_small by lia.
  replace (Z.to_N (Z.of_nat (length pre))) with (N.of_nat (length pre)) by lia.
  assert (drop (N.to_nat (N.of_nat (length pre))) (pre ++ old ++ post) = old ++ post) as Hd
    by (rewrite Nat2N.id; apply drop_app_length).
  unfold matches_hunk_at. rewrite Hd, (proj2 (matches_replay _ _)) by (rewrite Hr; by eauto).
  unfold mbind, Result_bind. rewrite Hd, Hr. cbn [some_or fst snd]. unfold splice. rewrite Nat2N.id.
  rewrite decide_True by (rewrite !length_app; lia). cbn [must].
  rewrite take_app_length. replace (drop _ _) with post; [by eauto|].
  by rewrite <-drop_drop, drop_app_length, drop_app_length.
Qed.

(** A hunk printed from the edits that turn one file into another, at the line
    where they start, applied to the first file gives the second. *)
Theorem hunk_roundtrip pre edits post h :
  Forall plain_line (pre ++ post) → Forall (λ l, plain_line (line_of l)) edits → old_lines edits ≠ [] →
  ph_content h = print_hunk edits → ph_old_start h = N.of_nat (length pre) + 1 →
  N.of_nat (length pre) + 1 < 2 ^ 63 →
  apply_patch_hunks (join [newline] (pre ++ old_lines edits ++ post) ++ [newline]) [h]
  = Ok (join [newline] (pre ++ new_lines edits ++ post) ++ [newline]).
Proof.
  intros [Hpre Hpost]%Forall_app He Hne Hc Hs Hlen. unfold apply_patch_hunks.
  assert (Forall plain_line (old_lines edits)) as Hold.
  { clear -He. induction He as [|[t|t|t] edits Ht _ IH]; cbn; try by constructor. done. }
  rewrite lines_terminated; [|by destruct pre; [destruct (old_lines edits)|]|by repeat apply Forall_app_2].
  destruct (apply_hunk_exact pre (old_lines edits) (new_lines edits) post h) as [o Ho]; [|done..|].
  { unfold hunk_lines. rewrite Hc, parse_print_hunk by done. apply edits_rewrite. }
  cbn [apply_hunks]. rewrite Ho. unfold mbind, Result_bind. f_equal. f_equal.
  unfold ends_with. by rewrite bool_decide_true by by apply suffix_app_r.
Qed.

Lemma hunk_roundtrip_witness :
  let edits := [Context (lit "b"); Remove (lit "c"); Add (lit "C")] in
  let h := {| ph_old_start := 2; ph_old_count := 2; ph_new_start := 2; ph_new_count := 2;
              ph_content := print_hunk edits |} in
  apply_patch_hunks (join [newline] [lit "a"; lit "b"; lit "c"; lit "d"] ++ [newline]) [h]
  = Ok (join [newline] [lit "a"; lit "b"; lit "C"; lit "d"] ++ [newline]).
Proof.
  intros edits h. apply (hunk_roundtrip [lit "a"] edits [lit "d"] h).
  - repeat constructor; discriminate.
  - repeat constructor; discriminate.
  - discriminate.
  - reflexivity.
  - reflexivity.
  - reflexivity.
Defined.

(** ** Hunks that go wrong *)

Definition sample_hunk (old_start old_count : N) (content : string) : PatchHunk :=
  {| ph_old_start := old_start; ph_old_count := old_count; ph_new_start := old_start; ph_new_count := 1;
     ph_content := lit content |}.

Definition sample_file (ls : list string) : text := join [newline] (lit <$> ls) ++ [newline].

(** The offset that the first hunk leaves is its position, not the shift it causes:
    the second hunk, for line 4, changes line 7. *)
Lemma second_hunk_misses :
  apply_patch_hunks (sample_file ["1"; "2"; "3"; "x"; "5"; "6"; "x"; "8"])
    [sample_hunk 3 1 "-3
+three"; sample_hunk 4 1 "-x
+y"]
  = Ok (sample_file ["1"; "2"; "three"; "x"; "5"; "6"; "y"; "8"]).
Proof. vm_compute. done. Qed.

(** A hunk without old lines matches at any position: behind the end of the file
    the splice panics. *)
Lemma pure_insertion_panics :
  apply_patch_hunks (sample_file ["1"; "2"]) [sample_hunk 9 0 "+3"] = Panic.
Proof. vm_compute. done. Qed.

(** A hunk of a diff without context, [-2,0], adds after line 2; it is added before. *)
Lemma pure_insertion_one_line_early :
  apply_patch_hunks (sample_file ["1"; "2"]) [sample_hunk 2 0 "+3"] = Ok (sample_file ["1"; "3"; "2"]).
Proof. vm_compute. done. Qed.

(** The removal of a line that starts with two dashes and a space looks like the
    header of the next file. *)
Lemma removed_dashes_end_the_hunk :
  parse_unified_diff (lit "--- a/q.sql
+++ b/q.sql
@@ -1,2 +1,1 @@
--- old comment
 select 1;
") = Err (lit "unified diff is missing its +++ header").
Proof. vm_compute. done. Qed.

(** Lines that the patch does not touch lose their carriage returns. *)
Example carriage_returns_are_lost :
  apply_patch_hunks (lit "1" ++ [return_; newline] ++ lit "2" ++ [newline]) [sample_hunk 2 1 "-2
+two"] = Ok (sample_file ["1"; "two"]).
Proof. vm_compute. done. Qed.

Lemma apply_patch_hunks_correct_witness :
  let content := sample_file ["1"; "2"; "3"; "x"; "5"] in
  let hunks := [sample_hunk 2 1 "-3
+three"; sample_hunk 1 1 "-x
+y"] in
  apply_patch_hunks content hunks = Ok (sample_file ["1"; "2"; "three"; "y"; "5"])
  ∧ ∃ ls drift, patched (lines content) hunks ls drift ∧ sample_file ["1"; "2"; "three"; "y"; "5"] = unlines content ls.
Proof.
  split; [vm_compute; done|]. apply (apply_patch_hunks_correct (sample_file ["1"; "2"; "3"; "x"; "5"]) [sample_hunk 2 1 "-3
+three"; sample_hunk 1 1 "-x
+y"]).
  - vm_compute. done.
  - repeat constructor.
Defined.
