(* ===== verification/FabricPolicy.v ===== *)
(** * The policies of the fabric (crates/fabric)

    The layered command policy (policy/execpolicy.rs), the network policy
    (types/network_policy.rs), permission modes and rules (types/permission.rs)
    and the fallback policy engine (security/policy.rs). *)
From S2P Require Import Prelude Fallible StdText.

#[local] Open Scope N_scope.

Abbreviation Fallible := (Result text).

(** ** Command rules in layers *)

Module LayeredPolicy.

Inductive Decision := Allow | Prompt | Forbidden.

#[global] Instance Decision_eq_dec : EqDecision Decision.
Proof. solve_decision. Defined.

(** The order of the variants. *)
Definition severity (d : Decision) : N := match d with Allow => 0 | Prompt => 1 | Forbidden => 2 end.

Record Evaluation := {
  ev_decision : Decision;
  ev_matched_rules : list text;
}.

Inductive PatternToken :=
| Exact (s : text)
| Alternatives (alts : list text).

Record PrefixRule := {
  rl_program : text;
  rl_decision : Decision;
  rl_pattern : list PatternToken;
}.

Definition token_matches (token : PatternToken) (arg : text) : bool :=
  match token with
  | Exact s => bool_decide (arg = s)
  | Alternatives alts => bool_decide (arg ∈ alts)
  end.

Definition pattern_desc (pattern : list PatternToken) : text :=
  join [StdText.space]
    ((λ t, match t with Exact s => s | Alternatives alts => lit "[" ++ join (lit "|") alts ++ lit "]" end) <$> pattern).

(** The loop over the tokens, once there are enough arguments. *)
Fixpoint tokens_match (pattern : list PatternToken) (args : list text) : bool :=
  match pattern, args with
  | [], _ => true
  | t :: pattern, a :: args => token_matches t a && tokens_match pattern args
  | _ :: _, [] => false
  end.

Definition rule_matches (r : PrefixRule) (cmd : list text) : option text :=
  match cmd with
  | [] => None
  | program :: args =>
      if decide (program ≠ rl_program r) then None
      else
        match rl_pattern r with
        | [] => Some (rl_program r ++ lit " (any)")
        | pattern =>
            if decide (length args < length pattern)%nat then None
            else if tokens_match pattern args then Some (rl_program r ++ lit " " ++ pattern_desc pattern)
            else None
        end
  end.

Inductive NetworkProtocol := Http | Https | Any.

#[global] Instance NetworkProtocol_eq_dec : EqDecision NetworkProtocol.
Proof. solve_decision. Defined.

Record NetworkRule := {
  nl_host : text;
  nl_protocol : NetworkProtocol;
  nl_decision : Decision;
}.

Record Policy := {
  po_rules : list PrefixRule;
  po_network_rules : list NetworkRule;
}.

Definition new : Policy := {| po_rules := []; po_network_rules := [] |}.

Definition add_rule (r : PrefixRule) (p : Policy) : Policy :=
  {| po_rules := po_rules p ++ [r]; po_network_rules := po_network_rules p |}.

Definition add_network_rule (r : NetworkRule) (p : Policy) : Policy :=
  {| po_rules := po_rules p; po_network_rules := po_network_rules p ++ [r] |}.

(** The loop of [check]: the descriptions of the matching rules and the highest
    decision so far. *)
Fixpoint scan_rules (cmd : list text) (matched : list text) (max_decision : Decision) (rules : list PrefixRule)
    : list text * Decision :=
  match rules with
  | [] => (matched, max_decision)
  | r :: rest =>
      match rule_matches r cmd with
      | Some desc =>
          scan_rules cmd (matched ++ [desc])
            (if severity max_decision <? severity (rl_decision r) then rl_decision r else max_decision) rest
      | None => scan_rules cmd matched max_decision rest
      end
  end.

Definition check (p : Policy) (cmd : list text) (heuristics : list text → Decision) : Evaluation :=
  match cmd with
  | [] => {| ev_decision := Prompt; ev_matched_rules := [lit "empty command"] |}
  | _ =>
      match scan_rules cmd [] Allow (po_rules p) with
      | ([], _) => {| ev_decision := heuristics cmd; ev_matched_rules := [lit "heuristics"] |}
      | (matched, max_decision) => {| ev_decision := max_decision; ev_matched_rules := matched |}
      end
  end.

Definition network_rule_matches (host : text) (protocol : NetworkProtocol) (r : NetworkRule) : bool :=
  bool_decide (nl_host r = host) && (bool_decide (nl_protocol r = Any) || bool_decide (nl_protocol r = protocol)).

Definition check_network (p : Policy) (host : text) (protocol : NetworkProtocol) : Evaluation :=
  match find (network_rule_matches host protocol) (po_network_rules p) with
  | Some r => {| ev_decision := nl_decision r; ev_matched_rules := [lit "network:" ++ host] |}
  | None => {| ev_decision := Allow; ev_matched_rules := [lit "default:allow"] |}
  end.

Definition merge_overlay (overlay p : Policy) : Policy :=
  {| po_rules := po_rules p ++ po_rules overlay; po_network_rules := po_network_rules p ++ po_network_rules overlay |}.

Definition one_of (words : list string) (t : text) : bool := bool_decide (t ∈ (lit <$> words)).

Definition default_heuristics (cmd : list text) : Decision :=
  match cmd with
  | [] => Prompt
  | program :: _ =>
      if one_of ["cat"; "ls"; "pwd"; "echo"; "which"; "whoami"; "head"; "tail"; "wc"] program then Allow
      else if one_of ["rm"; "rmdir"; "mkfs"; "dd"; "format"; "shutdown"; "reboot"] program then Forbidden
      else Prompt
  end.

(** [toml::from_str] into the configuration structs. *)
Record PolicyConfig := {
  cf_rules : list PrefixRule;
  cf_network_rules : list NetworkRule;
}.

Section Load.
Context (from_toml : text → Fallible PolicyConfig).

Definition load_policy_from_str (toml_str : text) : Fallible Policy :=
  config ← from_toml toml_str;
  Ok (foldl (λ p r, add_network_rule r p) (foldl (λ p r, add_rule r p) new (cf_rules config))
        (cf_network_rules config)).

Definition load_layer (layer : option text) (p : Policy) : Fallible Policy :=
  match layer with
  | Some toml_str => overlay ← load_policy_from_str toml_str; Ok (merge_overlay overlay p)
  | None => Ok p
  end.

Definition load_policy_layered (system user project : option text) : Fallible Policy :=
  p ← load_layer system new;
  p ← load_layer user p;
  load_layer project p.
End Load.

(** *** The decision of the rules *)

Definition covering (cmd : list text) (rules : list PrefixRule) : list PrefixRule :=
  filter (λ r, is_Some (rule_matches r cmd)) rules.

Definition worst (d : Decision) (rules : list PrefixRule) : Decision :=
  foldl (λ d r, if severity d <? severity (rl_decision r) then rl_decision r else d) d rules.

Lemma scan_rules_spec cmd matched d rules :
  scan_rules cmd matched d rules = (matched ++ omap (λ r, rule_matches r cmd) rules, worst d (covering cmd rules)).
Proof.
  revert matched d. induction rules as [|r rules IH]; intros matched d; [cbn; by rewrite app_nil_r|].
  unfold covering in *. rewrite filter_cons. cbn [scan_rules omap list_omap]. destruct (rule_matches r cmd) as [desc|] eqn:Hr; rewrite IH.
  - rewrite decide_True by by eexists. by rewrite <-app_assoc.
  - rewrite decide_False by by intros []. done.
Qed.

Lemma worst_spec d rules :
  (∀ r, r ∈ rules → severity (rl_decision r) ≤ severity (worst d rules)) ∧ severity d ≤ severity (worst d rules)
  ∧ (worst d rules = d ∨ ∃ r, r ∈ rules ∧ worst d rules = rl_decision r).
Proof.
  revert d. induction rules as [|r rules IH]; intros d; cbn; [split_and!; [by intros ? ?%elem_of_nil|lia|by left]|].
  set (d' := if severity d <? severity (rl_decision r) then rl_decision r else d).
  destruct (IH d') as (Ha & Hb & Hc). fold (worst d' rules) in *.
  assert (severity d ≤ severity d' ∧ severity (rl_decision r) ≤ severity d') as [Hd Hr]
    by (subst d'; destruct (N.ltb_spec (severity d) (severity (rl_decision r))); lia).
  split_and!; [|lia|].
  - intros x [->|Hx]%elem_of_cons; [lia|by apply Ha].
  - destruct Hc as [->|(x & Hx & ->)]; [|right; exists x; split; [by right|done]].
    subst d'. destruct (_ <? _); [right; exists r; split; [by left|done]|by left].
Qed.

Lemma covering_descs cmd rules : omap (λ r, rule_matches r cmd) rules = [] ↔ covering cmd rules = [].
Proof.
  unfold covering. induction rules as [|r rules IH]; [done|]. rewrite filter_cons. cbn [omap list_omap].
  destruct (rule_matches r cmd); [by rewrite decide_True by by eexists|]. by rewrite decide_False by by intros [].
Qed.

(** The decision on a command: the highest one among the rules that cover it, the
    heuristics where none does; a later layer can raise it and never lowers it. *)
Lemma check_spec p overlay cmd heuristics :
  cmd ≠ [] →
  let d := ev_decision (check p cmd heuristics) in
  (covering cmd (po_rules p) = [] → d = heuristics cmd)
  ∧ (covering cmd (po_rules p) ≠ [] →
       (∃ r, r ∈ covering cmd (po_rules p) ∧ d = rl_decision r)
       ∧ (∀ r, r ∈ covering cmd (po_rules p) → severity (rl_decision r) ≤ severity d)
       ∧ severity d ≤ severity (ev_decision (check (merge_overlay overlay p) cmd heuristics))).
Proof.
  intros Hne. cbn zeta. unfold check. destruct cmd as [|c cmd]; [done|]. rewrite !scan_rules_spec. cbn [app].
  pose proof (covering_descs (c :: cmd) (po_rules p)) as Hd. split.
  - intros Hc. by rewrite (proj2 Hd Hc).
  - intros Hc. destruct (omap _ (po_rules p)) as [|x l] eqn:Ho; [by destruct Hc; apply Hd|]. cbn [ev_decision].
    destruct (worst_spec Allow (covering (c :: cmd) (po_rules p))) as (Ha & _ & Hw). split_and!; [|done|].
    + destruct Hw as [Hw|Hw]; [|done]. rewrite Hw in *. destruct (covering _ _) as [|r rs]; [done|]. exists r.
      split; [by left|]. specialize (Ha r (list_elem_of_here _ _)). by destruct (rl_decision r).
    + cbn [merge_overlay po_rules]. rewrite omap_app, Ho. cbn [app ev_decision]. unfold covering at 2. rewrite filter_app.
      unfold worst at 2. rewrite foldl_app. apply worst_spec.
Qed.

(** The comments say that later layers override earlier ones: a later [Allow] does
    not lift an earlier [Forbidden], and for hosts the earlier layer wins. *)
Lemma later_layers_do_not_override :
  let rm d := {| po_rules := [{| rl_program := lit "rm"; rl_decision := d; rl_pattern := [] |}];
                 po_network_rules := [{| nl_host := lit "h"; nl_protocol := Any; nl_decision := d |}] |} in
  ev_decision (check (merge_overlay (rm Allow) (rm Forbidden)) [lit "rm"] default_heuristics) = Forbidden
  ∧ ev_decision (check_network (merge_overlay (rm Forbidden) (rm Allow)) (lit "h") Https) = Allow.
Proof. vm_compute. auto. Qed.

End LayeredPolicy.

(** ** Outbound network connections *)

Module NetworkPolicy.
Section Model.
Context `{HCase : UnicodeCase}.

Inductive NetworkDefaultAction := Allow | Deny.

#[global] Instance NetworkDefaultAction_eq_dec : EqDecision NetworkDefaultAction.
Proof. solve_decision. Defined.

Record NetworkPolicy := {
  np_default_action : NetworkDefaultAction;
  np_allow_hosts : list text;
  np_deny_hosts : list text;
  np_allow_protocols : list text;
  np_allow_ports : list text;
  np_allow_dns : bool;
}.

Definition default_policy : NetworkPolicy :=
  {| np_default_action := Deny; np_allow_hosts := []; np_deny_hosts := []; np_allow_protocols := [];
     np_allow_ports := []; np_allow_dns := false |}.

Abbreviation colon := 58.

(** The authority ends at the first [/], else at the first [?], else at the first
    [#]. *)
Definition authority_end (rest : text) : nat :=
  match find_char 47 rest with
  | Some i => i
  | None => match find_char 63 rest with
            | Some i => i
            | None => match find_char 35 rest with Some i => i | None => length rest end
            end
  end.

Definition parse_port (port_str : text) : Fallible N :=
  some_or (parse_below 65535 port_str) (lit "invalid port number: '" ++ port_str ++ lit "'").

Definition parse_authority (authority : text) : Fallible (text * option N) :=
  if starts_with authority (lit "[") then
    close_bracket ← some_or (find_char 93 authority)
      (lit "invalid URL: unclosed '[' in authority '" ++ authority ++ lit "'");
    port ← match drop (S close_bracket) authority with
           | c :: port_str => if c =? colon then port ← parse_port port_str; Ok (Some port) else Ok None
           | [] => Ok None
           end;
    Ok (drop 1 (take close_bracket authority), port)
  else
    match rsplit_once colon authority with
    | Some (host, port_str) => port ← parse_port port_str; Ok (to_lowercase host, Some port)
    | None => Ok (to_lowercase authority, None)
    end.

Definition parse_url (url : text) : Fallible (text * text * option N) :=
  sr ← some_or (split_once_at url (lit "://")) (lit "invalid URL: no '://' found in '" ++ url ++ lit "'");
  hp ← parse_authority (take (authority_end sr.2) sr.2);
  Ok (to_lowercase sr.1, hp.1, hp.2).

Definition pattern_matches (host_lower p : text) : bool :=
  if starts_with p (lit ".") then
    ends_with host_lower p && bool_decide (length p < length host_lower)%nat
    && negb (contains_char (take (length host_lower - length p) host_lower) 46)
  else bool_decide (to_lowercase p = host_lower).

Definition matches_any (host : text) (patterns : list text) : bool :=
  existsb (pattern_matches (to_lowercase host)) patterns.

(** A bound that does not parse counts as zero. *)
Definition port_matches (port : N) (allowed : list text) : bool :=
  existsb (λ entry,
    match split_once 45 entry with
    | Some (low, high) =>
        (default 0 (parse_below 65535 low) <=? port)
        && (port <=? default 0 (parse_below 65535 high))
    | None => bool_decide (parse_below 65535 entry = Some port)
    end) allowed.

Definition default_port_for_scheme (scheme : text) : N :=
  if decide (scheme = lit "http" ∨ scheme = lit "ws") then 80
  else if decide (scheme = lit "https" ∨ scheme = lit "wss") then 443
  else if decide (scheme = lit "ftp") then 21
  else if decide (scheme = lit "ssh") then 22
  else 0.

Definition looks_like_ip (host : text) : bool :=
  if contains_char host colon then forallb (λ c, is_ascii_hexdigit c || (c =? colon) || (c =? 46)) host
  else
    let parts := split (λ c, c =? 46) host in
    bool_decide (length parts = 4%nat)
    && forallb (λ p, bool_decide (is_Some (parse_below 255 p))
                     && (negb (starts_with p (lit "0")) || bool_decide (length p = 1%nat))) parts.

Definition allows_parsed (p : NetworkPolicy) (scheme host : text) (port : option N) : Fallible unit :=
  let named := λ before after, lit before ++ host ++ lit after in
  need (bool_decide (np_deny_hosts p = []) || negb (matches_any host (np_deny_hosts p)))
    (named "host '" "' is in deny_hosts") ;;
  need (bool_decide (np_default_action p ≠ Deny ∨ np_allow_hosts p ≠ []))
    (lit "network access is denied by default") ;;
  need (bool_decide (np_allow_hosts p = []) || matches_any host (np_allow_hosts p))
    (named "host '" "' is not in allow_hosts") ;;
  need (bool_decide (np_allow_protocols p = [])
        || existsb (λ a, bool_decide (to_lowercase a = to_lowercase scheme)) (np_allow_protocols p))
    (lit "protocol '" ++ scheme ++ lit "' is not in allow_protocols") ;;
  let url_port := default (default_port_for_scheme scheme) port in
  need (bool_decide (np_allow_ports p = []) || port_matches url_port (np_allow_ports p))
    (lit "port " ++ lit (pretty url_port) ++ lit " is not in allow_ports") ;;
  need (np_allow_dns p || looks_like_ip host)
    (named "DNS not allowed: host '" "' is not an IP address").

Definition allows_url (p : NetworkPolicy) (url : text) : Fallible unit :=
  u ← parse_url url;
  allows_parsed p u.1.1 u.1.2 u.2.

(** *** What the policy decides *)

(** A connection to a host and port under a scheme. *)
Record permitted (p : NetworkPolicy) (scheme host : text) (port : option N) : Prop := {
  pm_not_denied : ∀ d, d ∈ np_deny_hosts p → pattern_matches (to_lowercase host) d = false;
  pm_default : np_default_action p = Allow ∨ np_allow_hosts p ≠ [];
  pm_host : np_allow_hosts p = [] ∨ ∃ a, a ∈ np_allow_hosts p ∧ pattern_matches (to_lowercase host) a = true;
  pm_protocol : np_allow_protocols p = []
    ∨ ∃ a, a ∈ np_allow_protocols p ∧ to_lowercase a = to_lowercase scheme;
  pm_port : np_allow_ports p = []
    ∨ port_matches (default (default_port_for_scheme scheme) port) (np_allow_ports p) = true;
  pm_address : np_allow_dns p = true ∨ looks_like_ip host = true;
}.

Lemma existsb_elem {A} (f : A → bool) l : existsb f l = true ↔ ∃ x, x ∈ l ∧ f x = true.
Proof. rewrite existsb_exists. by setoid_rewrite list_elem_of_In. Qed.

Lemma bind_need {A} (b : bool) (e : text) (k : Fallible A) : b = true → (need b e ;; k) = k.
Proof. by intros ->. Qed.

Lemma denied_none host l :
  bool_decide (l = []) || negb (existsb (pattern_matches host) l) = true
  ↔ ∀ d, d ∈ l → pattern_matches host d = false.
Proof.
  rewrite orb_true_iff, bool_decide_eq_true, negb_true_iff. split.
  - intros [->|Hn] d Hd; [by apply elem_of_nil in Hd|]. destruct (pattern_matches host d) eqn:Hm; [|done].
    rewrite <-Hn. symmetry. apply existsb_elem. by exists d.
  - intros Hn. right. destruct (existsb _ l) eqn:He; [|done]. apply existsb_elem in He as (d & Hd & Hm).
    by rewrite Hn in Hm.
Qed.

Lemma allows_parsed_spec p scheme host port :
  allows_parsed p scheme host port = Ok tt ↔ permitted p scheme host port.
Proof.
  unfold allows_parsed, matches_any. split.
  - intros H. inv_ok H. rewrite denied_none in H0. rewrite orb_true_iff, ?bool_decide_eq_true, ?existsb_elem in *.
    split; try done; [destruct (np_default_action p); naive_solver|].
    destruct H3 as [?|(x & ? & ?%bool_decide_eq_true)]; [by left|right; by exists x].
  - intros [Hd Hdef Hh Hp Hpo Ha]. rewrite bind_need by by apply denied_none.
    rewrite bind_need by (apply bool_decide_eq_true; destruct (np_default_action p); naive_solver).
    rewrite bind_need by by rewrite orb_true_iff, bool_decide_eq_true, existsb_elem.
    rewrite bind_need; [|rewrite orb_true_iff, bool_decide_eq_true, existsb_elem].
    + rewrite bind_need by by rewrite orb_true_iff, bool_decide_eq_true. apply need_ok. by rewrite orb_true_iff.
    + destruct Hp as [?|(x & ? & ?)]; [by left|right]. exists x. split; [done|by apply bool_decide_eq_true].
Qed.

Lemma parse_url_calm url : calm (parse_url url).
Proof. unfold parse_url, parse_authority, parse_port. solve_calm. Qed.

(** A URL is let through exactly when it parses and the connection it parses to is
    permitted: no deny pattern matches, and every list that restricts has a match;
    the default policy lets nothing through, and a further deny pattern never lets
    more through. *)
Lemma allows_url_spec p url :
  (allows_url p url = Ok tt ↔ ∃ scheme host port, parse_url url = Ok (scheme, host, port) ∧ permitted p scheme host port)
  ∧ allows_url p url ≠ Panic
  ∧ allows_url default_policy url ≠ Ok tt
  ∧ (∀ d, allows_url {| np_default_action := np_default_action p; np_allow_hosts := np_allow_hosts p;
                        np_deny_hosts := d :: np_deny_hosts p; np_allow_protocols := np_allow_protocols p;
                        np_allow_ports := np_allow_ports p; np_allow_dns := np_allow_dns p |} url = Ok tt →
       allows_url p url = Ok tt).
Proof.
  assert (∀ p, allows_url p url = Ok tt ↔
    ∃ scheme host port, parse_url url = Ok (scheme, host, port) ∧ permitted p scheme host port) as Hspec.
  { intros q. unfold allows_url. rewrite bind_ok. setoid_rewrite allows_parsed_spec. split.
    - intros ([[scheme host] port] & ? & ?). by eauto.
    - intros (scheme & host & port & ? & ?). by exists (scheme, host, port). }
  split_and!; [apply Hspec| | |].
  - unfold allows_url, allows_parsed. apply calm_bind; [apply parse_url_calm|intros]. solve_calm.
  - intros (scheme & host & port & _ & [_ [H|H] _ _ _ _])%Hspec; by cbn in H.
  - intros d (scheme & host & port & Hu & [H1 H2 H3 H4 H5 H6])%Hspec. apply Hspec. exists scheme, host, port.
    split; [done|]. cbn in *. split; try done. intros d' Hd'. apply H1. by right.
Qed.

End Model.
End NetworkPolicy.

(** A host that the URL parser reads differently from a client: what follows [?] or
    [#] belongs to it when a [/] comes later, and so does a user name. *)
Lemma deny_list_is_evaded :
  let p := {| NetworkPolicy.np_default_action := NetworkPolicy.Allow; NetworkPolicy.np_allow_hosts := [];
              NetworkPolicy.np_deny_hosts := [lit "evil.com"]; NetworkPolicy.np_allow_protocols := [];
              NetworkPolicy.np_allow_ports := []; NetworkPolicy.np_allow_dns := true |} in
  let allows url := NetworkPolicy.allows_url (HCase := ascii_case) p (lit url) in
  allows "https://evil.com/" = Err (lit "host 'evil.com' is in deny_hosts")
  ∧ allows "https://evil.com?/" = Ok tt ∧ allows "https://x@evil.com/" = Ok tt.
Proof. vm_compute. auto. Qed.

Lemma allow_list_is_evaded :
  let p := {| NetworkPolicy.np_default_action := NetworkPolicy.Deny;
              NetworkPolicy.np_allow_hosts := [lit ".example.com"];
              NetworkPolicy.np_deny_hosts := []; NetworkPolicy.np_allow_protocols := [];
              NetworkPolicy.np_allow_ports := []; NetworkPolicy.np_allow_dns := true |} in
  NetworkPolicy.allows_url (HCase := ascii_case) p (lit "http://localhost#.example.com/") = Ok tt.
Proof. vm_compute. auto. Qed.

(** ** Permission modes and rules *)

Module Permission.

Inductive HostPermissionMode := Safe | Developer | Full.

Definition is_safe (m : HostPermissionMode) : bool := match m with Safe => true | _ => false end.

Definition is_full (m : HostPermissionMode) : bool := match m with Full => true | _ => false end.

Definition permits_open_network (m : HostPermissionMode) : bool :=
  match m with Developer | Full => true | Safe => false end.

Inductive PermissionMode := Default | AcceptEdits | Plan | BypassAll.

Inductive PermissionBehavior := Allow | Deny | Ask.

Record PermissionRule := {
  pu_tool : text;
  pu_pattern : option text;
  pu_behavior : PermissionBehavior;
}.

Definition rule_matches (r : PermissionRule) (tool action_summary : text) : bool :=
  if decide (pu_tool r ≠ tool) then false
  else
    match pu_pattern r with
    | None => true
    | Some p =>
        match strip_suffix p (lit "*") with
        | Some prefix => starts_with action_summary prefix
        | None => bool_decide (action_summary = p)
        end
    end.

Record PermissionContext := {
  pc_mode : PermissionMode;
  pc_rules : list PermissionRule;
  pc_session_approvals : gset text;
}.

Definition approval_key (tool action_summary : text) : text := tool ++ lit ":" ++ action_summary.

Definition mode_default (m : PermissionMode) (is_dangerous : bool) : PermissionBehavior :=
  match m with
  | BypassAll => Allow
  | Plan => Deny
  | AcceptEdits => if is_dangerous then Ask else Allow
  | Default => if is_dangerous then Ask else Allow
  end.

Definition resolve (c : PermissionContext) (tool action_summary : text) (is_dangerous : bool) : PermissionBehavior :=
  if decide (approval_key tool action_summary ∈ pc_session_approvals c) then Allow
  else
    match find (λ r, rule_matches r tool action_summary) (pc_rules c) with
    | Some r => pu_behavior r
    | None => mode_default (pc_mode c) is_dangerous
    end.

(** The key joins tool and action with a colon that either may contain: approving
    one action approves another one of another tool. *)
Lemma approvals_collide :
  let c := {| pc_mode := Plan; pc_rules := []; pc_session_approvals := {[ approval_key (lit "fs") (lit "read:x") ]} |} in
  resolve c (lit "fs:read") (lit "x") true = Allow.
Proof. vm_compute. done. Qed.

End Permission.

(** ** The fallback engine *)

Module PolicyEngine.

Inductive PermissionLevel := L0 | L1 | L2 | L3.

Inductive PolicyAction := Allow | Deny | RequireApproval.

Record PolicyRule := {
  rr_tool_pattern : text;
  rr_level : PermissionLevel;
  rr_action : PolicyAction;
}.

Inductive PolicyVerdict := VAllow | VDeny (reason : text) | VRequireApproval (reason : text).

Record PolicyEngine := {
  en_rules : list PolicyRule;
  en_default_level : PermissionLevel;
}.

Definition engine_rule (pattern : string) (level : PermissionLevel) (action : PolicyAction) : PolicyRule :=
  {| rr_tool_pattern := lit pattern; rr_level := level; rr_action := action |}.

Definition with_defaults : PolicyEngine :=
  {| en_rules := [engine_rule "rm -rf *" L2 RequireApproval; engine_rule "dd *" L2 RequireApproval;
                  engine_rule "mkfs *" L3 Deny; engine_rule "systemctl stop *" L2 RequireApproval;
                  engine_rule "iptables *" L2 RequireApproval];
     en_default_level := L1 |}.

Definition infer_tool_level (tool_name : text) : PermissionLevel :=
  if LayeredPolicy.one_of ["file_read"; "system_status"; "process_list"; "memory_search"] tool_name then L0 else L1.

(** [command]: the string under [command] of the input, where there is one. *)
Definition matches_pattern (pattern tool_name : text) (command : option text) : bool :=
  match strip_suffix pattern (lit "*") with
  | Some prefix =>
      starts_with tool_name prefix || match command with Some cmd => starts_with cmd prefix | None => false end
  | None => bool_decide (tool_name = pattern)
  end.

Definition check (e : PolicyEngine) (tool_name : text) (command : option text) : PolicyVerdict :=
  match find (λ r, matches_pattern (rr_tool_pattern r) tool_name command) (en_rules e) with
  | Some r =>
      match rr_action r with
      | Allow => VAllow
      | Deny => VDeny (lit "Blocked by policy rule: " ++ rr_tool_pattern r)
      | RequireApproval => VRequireApproval (lit "Requires approval: " ++ rr_tool_pattern r)
      end
  | None =>
      match infer_tool_level tool_name with
      | L3 => VDeny (lit "L3 operations are forbidden by default")
      | _ => VAllow
      end
  end.

(** No tool is inferred to be of the level that is refused by default: a call that
    no rule names is always let through. *)
Lemma unmatched_calls_pass e tool_name command :
  (∀ r, r ∈ en_rules e → matches_pattern (rr_tool_pattern r) tool_name command = false) →
  check e tool_name command = VAllow.
Proof.
  intros Hn. unfold check. replace (find _ _) with (@None PolicyRule).
  - unfold infer_tool_level. by destruct (LayeredPolicy.one_of _ _).
  - symmetry. induction (en_rules e) as [|r rules IH]; [done|]. cbn. rewrite Hn by by left. apply IH. intros r' Hr'.
    apply Hn. by right.
Qed.

(** The rules look at the start of the command: a space before it, or another
    command, hides it. *)
Lemma rules_look_at_the_start :
  check with_defaults (lit "bash_exec") (Some (lit "mkfs /dev/sda")) = VDeny (lit "Blocked by policy rule: mkfs *")
  ∧ check with_defaults (lit "bash_exec") (Some (lit " mkfs /dev/sda")) = VAllow
  ∧ check with_defaults (lit "bash_exec") (Some (lit "true && mkfs /dev/sda")) = VAllow.
Proof. vm_compute. auto. Qed.

End PolicyEngine.
