(* ===== verification/LoopGuard.v ===== *)
(** * Loop detection (crates/fabric/src/security, crates/corpus/src/security)

    The risk categories of tools (risk_classifier.rs), the circuit breaker of a
    turn (circuit_breaker.rs) and the loop detector that the runner asks before
    and tells after every tool call (loop_detector.rs); and the storm breaker
    (crates/corpus/src/security/storm_breaker.rs), which counts the failures and
    successes of tools to tell the model when it loops. *)
From S2P Require Import Prelude Fallible StdText.

#[local] Open Scope N_scope.

(** ** Risk categories *)

Module Risk.

Inductive RiskCategory := ReadOnly | FileModification | SystemChange | Destructive.

Record RiskThresholds := {
  rt_same_call_threshold : N;
  rt_fail_streak_threshold : N;
}.

Definition thresholds (c : RiskCategory) : RiskThresholds :=
  match c with
  | ReadOnly => {| rt_same_call_threshold := 5; rt_fail_streak_threshold := 7 |}
  | FileModification => {| rt_same_call_threshold := 3; rt_fail_streak_threshold := 5 |}
  | SystemChange => {| rt_same_call_threshold := 2; rt_fail_streak_threshold := 3 |}
  | Destructive => {| rt_same_call_threshold := 2; rt_fail_streak_threshold := 2 |}
  end.

Record RiskRule := {
  rk_tool_pattern : text;
  rk_category : RiskCategory;
}.

Record RiskClassifier := {
  rc_rules : list RiskRule;
  rc_default_category : RiskCategory;
}.

Definition glob_match (pattern t : text) : bool :=
  match strip_suffix pattern (lit "*") with
  | Some prefix => starts_with t prefix
  | None => bool_decide (pattern = t)
  end.

Definition with_defaults : RiskClassifier :=
  {| rc_rules :=
       (λ e : string * RiskCategory, {| rk_tool_pattern := lit e.1; rk_category := e.2 |}) <$>
       [("file_read", ReadOnly); ("file_search", ReadOnly); ("system_status", ReadOnly); ("process_list", ReadOnly);
        ("memory_search", ReadOnly); ("file_write", FileModification); ("bash_exec", FileModification);
        ("core_memory_*", FileModification); ("service_*", SystemChange); ("package_*", SystemChange);
        ("network_*", SystemChange)]%string;
     rc_default_category := FileModification |}.

Definition classify (c : RiskClassifier) (tool_name : text) : RiskCategory :=
  match find (λ r, glob_match (rk_tool_pattern r) tool_name) (rc_rules c) with
  | Some r => rk_category r
  | None => rc_default_category c
  end.

End Risk.

(** ** Verdicts *)

Inductive LoopVerdict :=
| VerdictAllow
| Warn (reason : text)
| Block (reason suggestion : text)
| Escalate (reason : text)
| InterruptTurn (reason : text) (consecutive_blocks : N).

Definition decimal (n : N) : text := lit (pretty n).

(** ** The circuit breaker *)

Module CircuitBreaker.

Definition CONSECUTIVE_BLOCK_THRESHOLD : N := 3.
Definition WINDOW_SIZE : nat := 50.
Definition WINDOW_BLOCK_THRESHOLD : N := 10.

Record TurnBreakerState := {
  tb_consecutive_blocks : N;
  tb_recent_blocks : list bool;
  tb_interrupted : bool;
}.

Definition LoopCircuitBreaker := gmap text TurnBreakerState.

Definition new : LoopCircuitBreaker := ∅.

Definition fresh_turn : TurnBreakerState :=
  {| tb_consecutive_blocks := 0; tb_recent_blocks := []; tb_interrupted := false |}.

Definition on_new_turn (turn_id : text) (b : LoopCircuitBreaker) : LoopCircuitBreaker :=
  <[turn_id := fresh_turn]> (b : gmap text TurnBreakerState).

(** [while len > n { pop_front() }] *)
Definition keep_last {A} (n : nat) (l : list A) : list A := drop (length l - n) l.

Definition count_block (s : TurnBreakerState) : TurnBreakerState :=
  {| tb_consecutive_blocks := tb_consecutive_blocks s + 1;
     tb_recent_blocks := keep_last WINDOW_SIZE (tb_recent_blocks s ++ [true]);
     tb_interrupted := tb_interrupted s |}.

Definition record_block (turn_id : text) (b : LoopCircuitBreaker) : LoopCircuitBreaker :=
  alter count_block turn_id (b : gmap text TurnBreakerState).

Definition check (turn_id : text) (b : LoopCircuitBreaker) : option LoopVerdict :=
  match (b : gmap text TurnBreakerState) !! turn_id with
  | None => None
  | Some s =>
      if tb_interrupted s then
        Some (InterruptTurn (lit "Turn already interrupted by circuit breaker") (tb_consecutive_blocks s))
      else if CONSECUTIVE_BLOCK_THRESHOLD <=? tb_consecutive_blocks s then
        Some (InterruptTurn (lit "Consecutive blocks: " ++ decimal (tb_consecutive_blocks s) ++ lit " (threshold: "
                             ++ decimal CONSECUTIVE_BLOCK_THRESHOLD ++ lit ")") (tb_consecutive_blocks s))
      else
        let window_blocks := N.of_nat (length (filter (λ x, x = true) (tb_recent_blocks s))) in
        if WINDOW_BLOCK_THRESHOLD <=? window_blocks then
          Some (InterruptTurn (lit "Blocks in window: " ++ decimal window_blocks ++ lit " (threshold: "
                               ++ decimal WINDOW_BLOCK_THRESHOLD ++ lit ")") (tb_consecutive_blocks s))
        else None
  end.

Definition end_turn (turn_id : text) (b : LoopCircuitBreaker) : LoopCircuitBreaker :=
  delete turn_id (b : gmap text TurnBreakerState).

End CircuitBreaker.

(** ** The detector *)

Module LoopDetector.
Section Model.
(** The arguments of a call and the hash of their rendering. *)
Context {Args : Type} (hash_args : Args → N).

Record LoopDetectorConfig := {
  lc_window_size : nat;
  lc_stagnation_token_delta : N;
  lc_stagnation_window : nat;
}.

Definition default_config : LoopDetectorConfig :=
  {| lc_window_size := 50; lc_stagnation_token_delta := 100; lc_stagnation_window := 10 |}.

Record ToolCallRecord := {
  tc_tool_name : text;
  tc_args_hash : N;
  tc_is_error : bool;
  tc_token_cost : N;
  tc_turn_id : text;
}.

Record LoopDetectorMetrics := {
  lm_total_checks : N;
  lm_allows : N;
  lm_warnings : N;
  lm_blocks : N;
  lm_escalations : N;
  lm_circuit_breaker_trips : N;
}.

Record LoopDetector := {
  ld_config : LoopDetectorConfig;
  ld_risk_classifier : Risk.RiskClassifier;
  ld_per_turn : gmap text (list ToolCallRecord);
  ld_circuit_breaker : CircuitBreaker.LoopCircuitBreaker;
  ld_metrics : LoopDetectorMetrics;
}.

Definition no_metrics : LoopDetectorMetrics :=
  {| lm_total_checks := 0; lm_allows := 0; lm_warnings := 0; lm_blocks := 0; lm_escalations := 0;
     lm_circuit_breaker_trips := 0 |}.

Definition new (config : LoopDetectorConfig) : LoopDetector :=
  {| ld_config := config; ld_risk_classifier := Risk.with_defaults; ld_per_turn := ∅;
     ld_circuit_breaker := CircuitBreaker.new; ld_metrics := no_metrics |}.

Definition with_turns (f : gmap text (list ToolCallRecord) → gmap text (list ToolCallRecord))
    (g : CircuitBreaker.LoopCircuitBreaker → CircuitBreaker.LoopCircuitBreaker) (d : LoopDetector) : LoopDetector :=
  {| ld_config := ld_config d; ld_risk_classifier := ld_risk_classifier d; ld_per_turn := f (ld_per_turn d);
     ld_circuit_breaker := g (ld_circuit_breaker d); ld_metrics := ld_metrics d |}.

Definition on_new_turn (turn_id : text) : LoopDetector → LoopDetector :=
  with_turns <[turn_id := []]> (CircuitBreaker.on_new_turn turn_id).

Definition end_turn (turn_id : text) : LoopDetector → LoopDetector :=
  with_turns (delete turn_id) (CircuitBreaker.end_turn turn_id).

(** The metrics after a verdict. *)
Definition count_verdict (v : LoopVerdict) (m : LoopDetectorMetrics) : LoopDetectorMetrics :=
  {| lm_total_checks := lm_total_checks m + 1;
     lm_allows := lm_allows m + match v with VerdictAllow => 1 | _ => 0 end;
     lm_warnings := lm_warnings m + match v with Warn _ => 1 | _ => 0 end;
     lm_blocks := lm_blocks m + match v with Block _ _ => 1 | _ => 0 end;
     lm_escalations := lm_escalations m + match v with Escalate _ => 1 | _ => 0 end;
     lm_circuit_breaker_trips := lm_circuit_breaker_trips m + match v with InterruptTurn _ _ => 1 | _ => 0 end |}.

Fixpoint take_while {A} (f : A → bool) (l : list A) : list A :=
  match l with
  | [] => []
  | x :: r => if f x then x :: take_while f r else []
  end.

(** The calls of the turn, newest first: how many repeat this one, and how many
    failed in a row. *)
Definition same_count (tool_name : text) (args_hash : N) (recent : list ToolCallRecord) : N :=
  N.of_nat (length (take_while (λ r, bool_decide (tc_tool_name r = tool_name ∧ tc_args_hash r = args_hash)) recent)).

Definition fail_streak (recent : list ToolCallRecord) : N := N.of_nat (length (take_while tc_is_error recent)).

Definition stagnates (config : LoopDetectorConfig) (recent : list ToolCallRecord) : bool :=
  bool_decide (lc_stagnation_window config ≤ length recent)%nat
  && negb (existsb (λ r, negb (tc_is_error r)) (take (lc_stagnation_window config) recent)).

(** The verdict on a call; the checks come in this order. *)
Definition judge (d : LoopDetector) (tool_name : text) (args : Args) (turn_id : text) : LoopVerdict :=
  let t := Risk.thresholds (Risk.classify (ld_risk_classifier d) tool_name) in
  let recent := reverse (default [] (ld_per_turn d !! turn_id)) in
  let same := same_count tool_name (hash_args args) recent in
  let streak := fail_streak recent in
  if Risk.rt_same_call_threshold t <=? same then
    Block (lit "Same tool+args repeated " ++ decimal (same + 1) ++ lit " times (threshold: "
           ++ decimal (Risk.rt_same_call_threshold t) ++ lit ")")
      (lit "Try a different approach or ask for help")
  else if Risk.rt_fail_streak_threshold t <=? streak then
    Escalate (lit "Consecutive failures: " ++ decimal (streak + 1) ++ lit " (threshold: "
              ++ decimal (Risk.rt_fail_streak_threshold t) ++ lit ")")
  else if stagnates (ld_config d) recent then
    Warn (lit "No successful calls in last " ++ decimal (N.of_nat (lc_stagnation_window (ld_config d))) ++ lit " attempts")
  else
    match CircuitBreaker.check turn_id (ld_circuit_breaker d) with
    | Some verdict => verdict
    | None => VerdictAllow
    end.

Definition pre_check (tool_name : text) (args : Args) (turn_id : text) (d : LoopDetector)
    : LoopVerdict * LoopDetector :=
  let v := judge d tool_name args turn_id in
  (v, {| ld_config := ld_config d; ld_risk_classifier := ld_risk_classifier d;
         ld_per_turn := <[turn_id := default [] (ld_per_turn d !! turn_id)]> (ld_per_turn d);
         ld_circuit_breaker := match v with
                               | Block _ _ => CircuitBreaker.record_block turn_id (ld_circuit_breaker d)
                               | _ => ld_circuit_breaker d
                               end;
         ld_metrics := count_verdict v (ld_metrics d) |}).

(** [content_len]: the length of the result's content. *)
Definition post_check (tool_name : text) (args : Args) (is_error : bool) (content_len : N) (turn_id : text)
    (d : LoopDetector) : LoopDetector :=
  let record := {| tc_tool_name := tool_name; tc_args_hash := hash_args args; tc_is_error := is_error;
                   tc_token_cost := content_len; tc_turn_id := turn_id |} in
  with_turns
    <[turn_id := CircuitBreaker.keep_last (lc_window_size (ld_config d))
                   (default [] (ld_per_turn d !! turn_id) ++ [record])]>
    id d.

End Model.
End LoopDetector.

(** ** What the loop detector promises

    Runs of the detector: its metrics and windows, the turns it stops, and the
    verdicts it can and cannot give. *)

Import LoopDetector.


Section Spec.
Context {Args : Type} (hash_args : Args → N).
Implicit Types (d : LoopDetector) (t : text).

Inductive DetectorCall :=
| NewTurn t
| EndTurn t
| PreCheck (tool_name : text) (args : Args) t
| PostCheck (tool_name : text) (args : Args) (is_error : bool) (content_len : N) t.

(** The verdict of a call that gives one, and the detector after it. *)
Definition detector_call (call : DetectorCall) d : option LoopVerdict * LoopDetector :=
  match call with
  | NewTurn t => (None, on_new_turn t d)
  | EndTurn t => (None, end_turn t d)
  | PreCheck tool args t => match pre_check hash_args tool args t d with (v, d') => (Some v, d') end
  | PostCheck tool args e n t => (None, post_check hash_args tool args e n t d)
  end.

Fixpoint detector_run (calls : list DetectorCall) d : LoopDetector :=
  match calls with
  | [] => d
  | call :: rest => detector_run rest (detector_call call d).2
  end.

(** How many calls of a turn were blocked in a run. *)
Definition blocks_turn t (call : DetectorCall) (v : option LoopVerdict) : bool :=
  match call, v with
  | PreCheck _ _ t', Some (Block _ _) => bool_decide (t' = t)
  | _, _ => false
  end.

Fixpoint blocked t (calls : list DetectorCall) d : N :=
  match calls with
  | [] => 0
  | call :: rest =>
      (if blocks_turn t call (detector_call call d).1 then 1 else 0) + blocked t rest (detector_call call d).2
  end.

(** The call starts or ends the turn. *)
Definition delimits t (call : DetectorCall) : Prop := call = NewTurn t ∨ call = EndTurn t.

(** ** The breaker of a turn *)

Definition breaker_of t d : option CircuitBreaker.TurnBreakerState :=
  (ld_circuit_breaker d : gmap text CircuitBreaker.TurnBreakerState) !! t.

Lemma breaker_call t call d s :
  ¬ delimits t call → breaker_of t d = Some s →
  breaker_of t (detector_call call d).2
  = Some (if blocks_turn t call (detector_call call d).1 then CircuitBreaker.count_block s else s).
Proof.
  unfold breaker_of, delimits. intros Hd Hs.
  destruct call as [t'|t'|tool args t'|tool args e n t']; cbn.
  - unfold CircuitBreaker.on_new_turn. rewrite lookup_insert_ne by naive_solver. done.
  - unfold CircuitBreaker.end_turn. rewrite lookup_delete_ne by naive_solver. done.
  - destruct (judge _ _ _ _ _); try done. cbn. unfold CircuitBreaker.record_block.
    destruct (decide (t' = t)) as [->|Hne].
    + rewrite bool_decide_true, lookup_alter_eq, Hs by done. done.
    + rewrite bool_decide_false, lookup_alter_ne, Hs by done. done.
  - done.
Qed.

(** A turn's count is the number of blocks since it started. *)
Lemma breaker_counts t calls d s :
  Forall (λ call, ¬ delimits t call) calls → breaker_of t d = Some s →
  ∃ s', breaker_of t (detector_run calls d) = Some s'
    ∧ CircuitBreaker.tb_consecutive_blocks s' = CircuitBreaker.tb_consecutive_blocks s + blocked t calls d.
Proof.
  intros Hc. revert d s. induction Hc as [|call calls Hd _ IH]; intros d s Hs; cbn [detector_run blocked].
  { exists s. split; [done|lia]. }
  destruct (IH _ _ (breaker_call t call d s Hd Hs)) as (s' & Hs' & Hn). exists s'. split; [done|].
  rewrite Hn. destruct (blocks_turn _ _ _); cbn; lia.
Qed.

(** A breaker with three blocks interrupts. *)
Lemma tripped_check t d s :
  breaker_of t d = Some s → 3 ≤ CircuitBreaker.tb_consecutive_blocks s →
  ∃ reason, CircuitBreaker.check t (ld_circuit_breaker d)
    = Some (InterruptTurn reason (CircuitBreaker.tb_consecutive_blocks s)).
Proof.
  unfold breaker_of, CircuitBreaker.check. intros -> Hn. destruct (CircuitBreaker.tb_interrupted s); [by eauto|].
  rewrite (proj2 (N.leb_le _ _)) by done. eauto.
Qed.

(** ** Stagnation *)

Lemma take_while_all (l : list ToolCallRecord) k :
  (k ≤ length l)%nat → existsb (λ r, negb (tc_is_error r)) (take k l) = false → (k ≤ length (take_while tc_is_error l))%nat.
Proof.
  revert k. induction l as [|r l IH]; intros [|k]; cbn; try lia. intros Hk [Hr Hl]%orb_false_iff.
  apply negb_false_iff in Hr. rewrite Hr. cbn. apply le_n_S, IH; [lia|done].
Qed.

(** Ten failures in a row are at least any category's fail streak. *)
Lemma streak_before_stagnation config recent c :
  (7 ≤ lc_stagnation_window config)%nat → stagnates config recent = true →
  Risk.rt_fail_streak_threshold (Risk.thresholds c) ≤ fail_streak recent.
Proof.
  intros Hw [Hl Hn]%andb_true_iff. apply bool_decide_eq_true in Hl. apply negb_true_iff in Hn.
  pose proof (take_while_all recent _ Hl Hn) as Ht. unfold fail_streak. destruct c; cbn; lia.
Qed.

Lemma judge_never_warns d tool args t reason :
  (7 ≤ lc_stagnation_window (ld_config d))%nat → judge hash_args d tool args t ≠ Warn reason.
Proof.
  intros Hw. unfold judge. destruct (_ <=? _); [done|]. set (recent := reverse _).
  destruct (N.leb_spec (Risk.rt_fail_streak_threshold
    (Risk.thresholds (Risk.classify (ld_risk_classifier d) tool))) (fail_streak recent)) as [|Hs]; [done|].
  destruct (stagnates (ld_config d) recent) eqn:Hst.
  - pose proof (streak_before_stagnation _ _ (Risk.classify (ld_risk_classifier d) tool) Hw Hst). lia.
  - unfold CircuitBreaker.check. repeat case_match; congruence.
Qed.

(** ** The invariant *)

Record detector_inv (config : LoopDetectorConfig) d : Prop := {
  di_config : ld_config d = config;
  di_window : ∀ t l, ld_per_turn d !! t = Some l → (length l ≤ lc_window_size config)%nat;
  di_metrics : let m := ld_metrics d in
    lm_total_checks m = lm_allows m + lm_warnings m + lm_blocks m + lm_escalations m + lm_circuit_breaker_trips m;
}.

Lemma keep_last_length {A} n (l : list A) : (length (CircuitBreaker.keep_last n l) ≤ n)%nat.
Proof. unfold CircuitBreaker.keep_last. rewrite length_drop. lia. Qed.

Lemma detector_call_inv config call d : detector_inv config d → detector_inv config (detector_call call d).2.
Proof.
  intros [Hc Hw Hm]. destruct call as [t|t|tool args t|tool args e n t]; cbn; split; cbn; try done.
  - intros t' l. rewrite lookup_insert_Some. intros [[_ <-]|[_ ?]]; [cbn; lia|by eapply Hw].
  - intros t' l [_ ?]%lookup_delete_Some. by eapply Hw.
  - intros t' l. rewrite lookup_insert_Some. intros [[_ <-]|[_ ?]]; [|by eapply Hw].
    destruct (ld_per_turn d !! t) eqn:Hl; cbn; [by eapply Hw|lia].
  - cbn in Hm. destruct (judge _ _ _ _ _); lia.
  - intros t' l. rewrite lookup_insert_Some, Hc. intros [[_ <-]|[_ ?]]; [apply keep_last_length|by eapply Hw].
Qed.

Lemma detector_run_inv config calls d : detector_inv config d → detector_inv config (detector_run calls d).
Proof. revert d. induction calls as [|call rest IH]; intros d Hi; [done|]. cbn. by apply IH, detector_call_inv. Qed.

Lemma detector_run_app calls1 calls2 d :
  detector_run (calls1 ++ calls2) d = detector_run calls2 (detector_run calls1 d).
Proof. revert d. induction calls1; intros d; cbn; auto. Qed.

(** Over any calls: the counters of the verdicts add up to the checks and no
    turn's history outgrows the window; and once three calls of a turn have been
    blocked, no further call of it is allowed, whatever is called and whatever
    other turns do, until the turn is started anew or ended: it is blocked,
    escalated, warned about or the turn is interrupted. *)
Theorem blocked_turns_stay_stopped config before t during tool args :
  Forall (λ call, ¬ delimits t call) during →
  let started := on_new_turn t (detector_run before (new config)) in
  let d := detector_run during started in
  3 ≤ blocked t during started →
  detector_inv config d
  ∧ (pre_check hash_args tool args t d).1 ≠ VerdictAllow
  ∧ breaker_of t (pre_check hash_args tool args t d).2 ≠ None.
Proof.
  intros Hd started d Hb. split_and!.
  - apply detector_run_inv. apply (detector_call_inv config (NewTurn t)), detector_run_inv.
    by split; [| |].
  - destruct (breaker_counts t during started CircuitBreaker.fresh_turn Hd) as (s & Hs & Hn).
    { unfold breaker_of. cbn. unfold CircuitBreaker.on_new_turn. by rewrite lookup_insert_eq. }
    destruct (tripped_check t d s Hs) as [reason Hr]; [rewrite Hn; cbn; lia|].
    cbn. unfold judge. rewrite Hr. repeat (destruct (_ <=? _); [done|]). by destruct (stagnates _ _).
  - destruct (breaker_counts t during started CircuitBreaker.fresh_turn Hd) as (s & Hs & Hn).
    { unfold breaker_of. cbn. unfold CircuitBreaker.on_new_turn. by rewrite lookup_insert_eq. }
    pose proof (breaker_call t (PreCheck tool args t) d s) as Hbr. cbn in Hbr |- *.
    rewrite Hbr; [done|by intros [|]|done].
Qed.

End Spec.

(** Three blocked calls of one turn. *)
Definition repeated : list (DetectorCall (Args := N)) :=
  replicate 3 (PostCheck (lit "bash_exec") 7 false 0 (lit "t"))
  ++ replicate 3 (PreCheck (lit "bash_exec") 7 (lit "t")).

Lemma blocked_turns_stay_stopped_witness :
  (pre_check id (lit "file_read") 1 (lit "t")
     (detector_run id repeated (on_new_turn (lit "t") (new default_config)))).1 ≠ VerdictAllow.
Proof.
  apply (blocked_turns_stay_stopped id default_config [] (lit "t") repeated).
  - repeat constructor; intros [H|H]; discriminate H.
  - vm_compute. discriminate.
Defined.

(** With the default configuration the warning about stagnation is never given: a
    window of ten failures is a fail streak first. *)
Lemma default_config_never_warns (hash_args : N → N) calls tool args t reason :
  (pre_check hash_args tool args t (detector_run hash_args calls (new default_config))).1 ≠ Warn reason.
Proof.
  cbn. apply judge_never_warns. rewrite (di_config default_config); [cbn; lia|]. apply detector_run_inv. by split.
Qed.

(** Blocks that never follow each other count as consecutive: allowed calls in
    between do not reset the count. *)
Definition interleaved : list (DetectorCall (Args := N)) :=
  mjoin ((λ i, replicate 3 (PostCheck (lit "bash_exec") i false 0 (lit "t"))
               ++ [PreCheck (lit "bash_exec") i (lit "t"); PreCheck (lit "file_read") i (lit "t")])
         <$> [1; 2; 3]).

Lemma separate_blocks_interrupt :
  ∃ reason, (pre_check id (lit "file_read") 9 (lit "t")
    (detector_run id interleaved (on_new_turn (lit "t") (new default_config)))).1 = InterruptTurn reason 3.
Proof. eexists. vm_compute. reflexivity. Qed.

(** ** The storm breaker

    Its counters are a function of the history of results. *)

Module StormBreaker.

Record StormBreaker := {
  sb_failure_counts : gmap (text * text) N;
  sb_success_counts : gmap text N;
  sb_failure_threshold : N;
  sb_success_threshold : N;
}.

Definition new (failure_threshold success_threshold : N) : StormBreaker :=
  {| sb_failure_counts := ∅; sb_success_counts := ∅; sb_failure_threshold := failure_threshold;
     sb_success_threshold := success_threshold |}.

Definition with_defaults : StormBreaker := new 3 10.

(** What the directive says: which tool, and how often. *)
Inductive Directive :=
| KeepsFailing (tool_name : text) (count : N)
| KeepsSucceeding (tool_name : text) (count : N).

Definition extract_error_signature (content : text) : text :=
  trim ((λ c, if is_whitespace c then 32 else ascii_lower c) <$> take 100 content).

Definition record (tool_name : text) (is_error : bool) (content : text) (s : StormBreaker)
    : option Directive * StormBreaker :=
  if is_error then
    let key := (tool_name, extract_error_signature content) in
    let count := default 0 (sb_failure_counts s !! key) + 1 in
    (if sb_failure_threshold s <=? count then Some (KeepsFailing tool_name count) else None,
     {| sb_failure_counts := <[key := count]> (sb_failure_counts s);
        sb_success_counts := delete tool_name (sb_success_counts s);
        sb_failure_threshold := sb_failure_threshold s; sb_success_threshold := sb_success_threshold s |})
  else
    let count := default 0 (sb_success_counts s !! tool_name) + 1 in
    (if sb_success_threshold s <=? count then Some (KeepsSucceeding tool_name count) else None,
     {| sb_failure_counts := filter (λ kv, kv.1.1 ≠ tool_name) (sb_failure_counts s);
        sb_success_counts := <[tool_name := count]> (sb_success_counts s);
        sb_failure_threshold := sb_failure_threshold s; sb_success_threshold := sb_success_threshold s |}).

Definition reset (s : StormBreaker) : StormBreaker :=
  {| sb_failure_counts := ∅; sb_success_counts := ∅; sb_failure_threshold := sb_failure_threshold s;
     sb_success_threshold := sb_success_threshold s |}.

Definition failure_count (s : StormBreaker) : N := N.of_nat (size (sb_failure_counts s)).

Definition has_triggered (s : StormBreaker) : bool :=
  existsb (λ kv, sb_failure_threshold s <=? kv.2) (map_to_list (sb_failure_counts s))
  || existsb (λ kv, sb_success_threshold s <=? kv.2) (map_to_list (sb_success_counts s)).

(** ** Histories *)

Record ToolResult := {
  tr_tool : text;
  tr_error : bool;
  tr_content : text;
}.

(** Newest first: the failures of a tool with a signature since its last success,
    and its successes since its last failure. *)
Fixpoint failures (h : list ToolResult) (tool sig : text) : N :=
  match h with
  | [] => 0
  | r :: rest =>
      if decide (tr_tool r = tool) then
        if tr_error r then
          (if decide (extract_error_signature (tr_content r) = sig) then 1 else 0) + failures rest tool sig
        else 0
      else failures rest tool sig
  end.

Fixpoint successes (h : list ToolResult) (tool : text) : N :=
  match h with
  | [] => 0
  | r :: rest =>
      if decide (tr_tool r = tool) then if tr_error r then 0 else 1 + successes rest tool
      else successes rest tool
  end.

(** The results recorded since the last reset, newest first. *)
Inductive StormCall := Record_ (r : ToolResult) | Reset.

Definition storm_call (call : StormCall) (s : StormBreaker) : option Directive * StormBreaker :=
  match call with
  | Record_ r => record (tr_tool r) (tr_error r) (tr_content r) s
  | Reset => (None, reset s)
  end.

Definition remember (call : StormCall) (h : list ToolResult) : list ToolResult :=
  match call with Record_ r => r :: h | Reset => [] end.

Definition storm_run (calls : list StormCall) (s : StormBreaker) : StormBreaker :=
  foldl (λ s call, (storm_call call s).2) s calls.

Definition history (calls : list StormCall) : list ToolResult := foldl (λ h call, remember call h) [] calls.

(** The counters hold the counts of the history, and no zeros. *)
Record counts (h : list ToolResult) (s : StormBreaker) : Prop := {
  co_failures : ∀ tool sig, sb_failure_counts s !! (tool, sig)
    = if decide (failures h tool sig = 0) then None else Some (failures h tool sig);
  co_successes : ∀ tool, sb_success_counts s !! tool
    = if decide (successes h tool = 0) then None else Some (successes h tool);
}.

Lemma default_count (k : N) : default 0 (if decide (k = 0) then None else Some k) = k.
Proof. by case_decide. Qed.

Lemma record_counts h s r :
  counts h s → counts (r :: h) (record (tr_tool r) (tr_error r) (tr_content r) s).2.
Proof.
  intros [Hf Hs]. destruct r as [tool err content]; cbn [tr_tool tr_error tr_content]. unfold record.
  destruct err; split; cbn [failures successes tr_tool tr_error tr_content snd sb_failure_counts sb_success_counts].
  - intros t sig. rewrite Hf, default_count. destruct (decide (tool = t)) as [<-|Ht].
    + destruct (decide (extract_error_signature content = sig)) as [<-|Hsig].
      * rewrite lookup_insert_eq, decide_False by lia. f_equal. lia.
      * rewrite lookup_insert_ne by congruence. by rewrite Hf.
    + rewrite lookup_insert_ne by congruence. by rewrite Hf.
  - intros t. destruct (decide (tool = t)) as [<-|Ht]; [by rewrite lookup_delete_eq|by rewrite lookup_delete_ne].
  - intros t sig. destruct (decide (tool = t)) as [<-|Ht].
    + rewrite decide_True by done. apply map_lookup_filter_None. right. by intros x _ Hne.
    + rewrite <-Hf. destruct (sb_failure_counts s !! (t, sig)) eqn:Hl.
      * apply map_lookup_filter_Some. split; [done|]. cbn. congruence.
      * apply map_lookup_filter_None. by left.
  - intros t. rewrite Hs, default_count. destruct (decide (tool = t)) as [<-|Ht].
    + rewrite lookup_insert_eq, decide_False by lia. f_equal. lia.
    + rewrite lookup_insert_ne by done. by rewrite Hs.
Qed.

Lemma storm_run_counts calls h s :
  counts h s → counts (foldl (λ h call, remember call h) h calls) (storm_run calls s).
Proof.
  revert h s. induction calls as [|call calls IH]; intros h s Hc; [done|]. cbn. apply IH.
  destruct call; [by apply record_counts|]. split; intros; cbn; by rewrite lookup_empty.
Qed.

Lemma storm_run_thresholds calls s :
  sb_failure_threshold (storm_run calls s) = sb_failure_threshold s
  ∧ sb_success_threshold (storm_run calls s) = sb_success_threshold s.
Proof.
  revert s. induction calls as [|call calls IH]; intros s; [done|].
  change (storm_run (call :: calls) s) with (storm_run calls (storm_call call s).2).
  destruct (IH (storm_call call s).2) as [-> ->].
  destruct call as [r|]; [|done]. cbn. unfold record. by destruct (tr_error r).
Qed.

(** After any calls the next result gets a directive exactly when the failures of
    its tool with its signature since the tool's last success, or the successes
    since its last failure, reach the threshold, and the directive gives that
    number. *)
Lemma directive_by_history f k calls r :
  let h := r :: history calls in
  (record (tr_tool r) (tr_error r) (tr_content r) (storm_run calls (new f k))).1
  = if tr_error r then
      let n := failures h (tr_tool r) (extract_error_signature (tr_content r)) in
      if f <=? n then Some (KeepsFailing (tr_tool r) n) else None
    else
      let n := successes h (tr_tool r) in
      if k <=? n then Some (KeepsSucceeding (tr_tool r) n) else None.
Proof.
  intros h. assert (counts [] (new f k)) as H0 by (split; intros; cbn; by rewrite lookup_empty).
  destruct (storm_run_counts calls _ _ H0) as [Hf Hs]. fold (history calls) in Hf, Hs.
  destruct (storm_run_thresholds calls (new f k)) as [Hft Hst]. cbn in Hft, Hst.
  unfold record. subst h. cbn [failures successes]. rewrite !decide_True by done.
  destruct (tr_error r); cbn [fst].
  - rewrite Hft, Hf, default_count. by rewrite (N.add_comm 1).
  - rewrite Hst, Hs, default_count. by rewrite (N.add_comm 1).
Qed.

(** Failures with other signatures in between do not reset a count: three equal
    failures that never follow each other trigger the directive. *)
Definition failed (content : string) : ToolResult :=
  {| tr_tool := lit "bash"; tr_error := true; tr_content := lit content |}.

Lemma alternating_failures_trigger :
  (record (lit "bash") true (lit "not found")
     (storm_run (Record_ ∘ failed <$> ["not found"; "denied"; "not found"; "timeout"]%string) with_defaults)).1
  = Some (KeepsFailing (lit "bash") 3).
Proof. vm_compute. done. Qed.

End StormBreaker.
