(* ===== verification/AuditLog.v ===== *)
(** * The audit log (crates/fabric/src/security/audit.rs)

    Redaction of text and of JSON values before they reach a durable record, and
    the writer of the audit log, which chains the records by their hashes. *)
From S2P Require Import Prelude StdModel Fallible StdText FabricPolicy LoopGuard.

#[local] Open Scope N_scope.

(** [serde_json::Value] over its numbers *)
Inductive Json (Number : Type) :=
| Null
| Bool (b : bool)
| Number_ (n : Number)
| String_ (t : text)
| Array (values : list (Json Number))
| Object (fields : list (text * Json Number)).
Arguments Null {Number}.
Arguments Bool {Number} _.
Arguments Number_ {Number} _.
Arguments String_ {Number} _.
Arguments Array {Number} _.
Arguments Object {Number} _.

Module Audit.

(** ** Text *)

(** [char::is_control]: the category Cc *)
Definition is_control (c : N) : bool := (c <? 32) || (127 <=? c) && (c <? 160).

(** [char::len_utf8] *)
Definition len_utf8 (c : N) : N :=
  if c <? 128 then 1 else if c <? 2048 then 2 else if c <? 65536 then 3 else 4.

(** [str::len] *)
Definition byte_len (t : text) : N := foldr (λ c n, len_utf8 c + n) 0 t.

(** [truncate] to the last character boundary within [max_bytes] *)
Fixpoint truncate (max_bytes : N) (t : text) : text :=
  match t with
  | [] => []
  | c :: r => if len_utf8 c <=? max_bytes then c :: truncate (max_bytes - len_utf8 c) r else []
  end.

Definition redacted_mark : text := lit "[REDACTED]".

Definition sensitive_needles : list text :=
  lit <$> ["authorization"; "cookie"; "token"; "password"; "secret"; "api_key"; "email_body";
           "provider_payload"; "prompt"; "credentials"].

Definition sensitive_key (key : text) : bool :=
  let key := to_ascii_lowercase key in
  existsb (λ needle, bool_decide (key = needle) || ends_with key (lit "_" ++ needle)) sensitive_needles.

Definition assignment_is_sensitive (word : text) : bool :=
  match split_once 61 word with
  | None => false
  | Some (key, _) => sensitive_key key
  end.

(** A word that announces a credential. *)
Definition announces (lower : text) : bool :=
  bool_decide (lower ∈ (lit <$> ["bearer"; "authorization:"; "cookie:"])).

(** A word that is a credential. *)
Definition credential (lower : text) : bool :=
  starts_with lower (lit "sk-") || starts_with lower (lit "ghp_") || starts_with lower (lit "xox")
  || contains lower (lit "/etc/aletheon/credentials/") || assignment_is_sensitive lower.

(** The loop over the words; [skip] when the next one is to be dropped. *)
Fixpoint redact_words (redacted : text) (skip : bool) (words : list text) : text :=
  match words with
  | [] => redacted
  | word :: rest =>
      if skip then redact_words redacted false rest
      else
        let redacted := if is_empty redacted then redacted else redacted ++ [space] in
        let lower := to_ascii_lowercase word in
        if announces lower then redact_words (redacted ++ redacted_mark) true rest
        else if credential lower then redact_words (redacted ++ redacted_mark) false rest
        else redact_words (redacted ++ word) false rest
  end.

Definition normalized (value : text) : text := (λ c, if is_control c then space else c) <$> value.

Definition redact_sensitive_text (value : text) (max_bytes : N) : text :=
  let redacted := redact_words [] false (split_whitespace (normalized value)) in
  if max_bytes <? byte_len redacted then truncate max_bytes redacted else redacted.

(** ** Values *)

Definition MAX_AUDIT_STRING_BYTES : N := 8 * 1024.

Section Values.
Context {Number : Type}.

Fixpoint redact_json (value : Json Number) (key : option text) : Json Number :=
  if match key with Some k => sensitive_key k | None => false end then String_ redacted_mark
  else match value with
  | Object fields => Object ((λ field, (field.1, redact_json field.2 (Some field.1))) <$> fields)
  | Array values => Array ((λ value, redact_json value key) <$> values)
  | String_ text => String_ (redact_sensitive_text text MAX_AUDIT_STRING_BYTES)
  | value => value
  end.
End Values.

(** ** Records *)

Record AuditRecord (Number : Type) := {
  ar_audit_id : Uuid;
  ar_timestamp : Z;
  ar_session_id : text;
  ar_turn_id : text;
  ar_tool_name : text;
  ar_args : Json Number;
  ar_permission_level : PolicyEngine.PermissionLevel;
  ar_risk_category : Risk.RiskCategory;
  ar_loop_verdict : text;
  ar_result_summary : option text;
  ar_is_error : bool;
  ar_sandbox_backend : option text;
  ar_elapsed_ms : N;
}.
Arguments ar_audit_id {Number} _.
Arguments ar_timestamp {Number} _.
Arguments ar_session_id {Number} _.
Arguments ar_turn_id {Number} _.
Arguments ar_tool_name {Number} _.
Arguments ar_args {Number} _.
Arguments ar_permission_level {Number} _.
Arguments ar_risk_category {Number} _.
Arguments ar_loop_verdict {Number} _.
Arguments ar_result_summary {Number} _.
Arguments ar_is_error {Number} _.
Arguments ar_sandbox_backend {Number} _.
Arguments ar_elapsed_ms {Number} _.

Definition sanitize_record {Number} (record : AuditRecord Number) : AuditRecord Number := {|
  ar_audit_id := ar_audit_id record;
  ar_timestamp := ar_timestamp record;
  ar_session_id := redact_sensitive_text (ar_session_id record) 256;
  ar_turn_id := redact_sensitive_text (ar_turn_id record) 256;
  ar_tool_name := redact_sensitive_text (ar_tool_name record) 256;
  ar_args := redact_json (ar_args record) None;
  ar_permission_level := ar_permission_level record;
  ar_risk_category := ar_risk_category record;
  ar_loop_verdict := redact_sensitive_text (ar_loop_verdict record) 512;
  ar_result_summary := (λ value, redact_sensitive_text value MAX_AUDIT_STRING_BYTES) <$> ar_result_summary record;
  ar_is_error := ar_is_error record;
  ar_sandbox_backend := (λ value, redact_sensitive_text value 256) <$> ar_sandbox_backend record;
  ar_elapsed_ms := ar_elapsed_ms record;
|}.

(** ** The chain *)

(** [as_bytes]: UTF-8 *)
Definition utf8 (c : N) : list N :=
  if c <? 128 then [c]
  else if c <? 2048 then [192 + c / 64; 128 + c mod 64]
  else if c <? 65536 then [224 + c / 4096; 128 + c / 64 mod 64; 128 + c mod 64]
  else [240 + c / 262144; 128 + c / 4096 mod 64; 128 + c / 64 mod 64; 128 + c mod 64].

Definition as_bytes (t : text) : list N := t ≫= utf8.

(** serde_json on a record and a value, and SHA-256 in hexadecimal. *)
Class AuditCodec (Number : Type) := {
  record_value : AuditRecord Number → string + Json Number;
  value_bytes : Json Number → string + list N;
  value_text : Json Number → text;
  parse_value : text → option (Json Number);
  digest : list N → text;
}.

(** The file of the log: why the [n]-th external call fails, when that opens the
    file, writes it (after so many characters) or reads it. *)
Class AuditFile := {
  open_failure : N → option string;
  write_failure : N → option (nat * string);
  read_failure : N → bool;
}.

Section Log.
Context {Number : Type} `{!AuditCodec Number} `{!AuditFile}.

(** [Map::insert] and [Map::get]: the fields are in the order of their keys. *)
Fixpoint field_insert (key : text) (value : Json Number) (fields : list (text * Json Number)) : list (text * Json Number) :=
  match fields with
  | [] => [(key, value)]
  | (k, v) :: rest => if decide (k = key) then (k, value) :: rest
      else if decide (lex N.le key k) then (key, value) :: fields
      else (k, v) :: field_insert key value rest
  end.

Definition field_get (key : text) (value : Json Number) : option (Json Number) :=
  match value with
  | Object fields => snd <$> find (λ field, bool_decide (field.1 = key)) fields
  | _ => None
  end.

Definition as_str (value : Json Number) : option text :=
  match value with String_ t => Some t | _ => None end.

Definition as_object (value : Json Number) : option (list (text * Json Number)) :=
  match value with Object fields => Some fields | _ => None end.

Definition PREVIOUS : text := lit "_previous_hash".
Definition RECORD : text := lit "_record_hash".

Definition chained_json (record : AuditRecord Number) (previous_hash : text) : string + Json Number :=
  match record_value record with
  | inl e => inl e
  | inr value =>
      match value_bytes value with
      | inl e => inl e
      | inr canonical =>
          let record_hash := digest (as_bytes previous_hash ++ canonical) in
          let object := default [] (as_object value) in
          inr (Object (field_insert RECORD (String_ record_hash)
                         (field_insert PREVIOUS (String_ previous_hash) object)))
      end
  end.

(** [None]: there is no file yet. *)
Record Writer := {
  wr_file : option text;
  wr_previous_hash : text;
}.

Definition no_hash : text := replicate 64 48.

Definition last_hash (content : text) : option text :=
  last ← find (λ line, negb (is_empty (trim line))) (reverse (lines content));
  value ← parse_value last;
  hash ← field_get RECORD value ≫= as_str;
  if (byte_len hash =? 64) && forallb is_ascii_hexdigit hash then Some hash else None.

Definition read_last_hash : M Writer string (option text) :=
  n ← tick;
  w ← get_state;
  mret (if read_failure n then None else wr_file w ≫= last_hash).

(** The start of the writer task on the file as it is. *)
Definition start : M Writer string unit :=
  hash ← read_last_hash;
  modify (λ w, {| wr_file := wr_file w; wr_previous_hash := default no_hash hash |}).

Definition append_text (t : text) (w : Writer) : Writer :=
  {| wr_file := Some (default [] (wr_file w) ++ t); wr_previous_hash := wr_previous_hash w |}.

(** What the writer task does with one record; the result is sent back. *)
Definition write (record : AuditRecord Number) : M Writer string unit :=
  let record := sanitize_record record in
  w ← get_state;
  match chained_json record (wr_previous_hash w) with
  | inl e => throw ("failed to serialize audit record: " +:+ e)
  | inr json =>
      n ← tick;
      match open_failure n with
      | Some e => throw ("failed to open audit log file: " +:+ e)
      | None =>
          let line := value_text json ++ [newline] in
          n ← tick;
          match write_failure n with
          | Some (k, e) => modify (append_text (take k line)) ;; throw ("failed to write audit record: " +:+ e)
          | None =>
              modify (append_text line) ;;
              match field_get RECORD json ≫= as_str with
              | Some hash => modify (λ w, {| wr_file := wr_file w; wr_previous_hash := hash |})
              | None => throw "audit record hash missing after serialization"
              end
          end
      end
  end.

End Log.

(** ** What redaction leaves

    A text is clean when it has no control character and none of its words is a
    credential.  Neither shortening it nor reading its words again finds one. *)

Definition clean (t : text) : Prop :=
  Forall (λ c, is_control c = false) t ∧ Forall (λ w, credential (to_ascii_lowercase w) = false) (split_whitespace t).

Lemma starts_with_app t p u : starts_with t p = true → starts_with (t ++ u) p = true.
Proof. unfold starts_with. rewrite !bool_decide_eq_true. intros [r ->]. exists (r ++ u). by rewrite app_assoc. Qed.

Lemma contains_app t p u : contains t p = true → contains (t ++ u) p = true.
Proof.
  unfold contains. induction t as [|c t IH].
  - cbn [find_at app]. destruct (starts_with [] p) eqn:Hs; [|done]. intros _.
    apply (starts_with_app _ _ u) in Hs. cbn in Hs. destruct u; cbn; by rewrite Hs.
  - cbn [find_at app]. destruct (starts_with (c :: t) p) eqn:Hs.
    + intros _. apply (starts_with_app _ _ u) in Hs. cbn in Hs. by rewrite Hs.
    + destruct (find_at t p); [|done]. intros _. specialize (IH eq_refl).
      destruct (starts_with (c :: t ++ u) p); [done|]. by destruct (find_at (t ++ u) p).
Qed.

Lemma split_once_app c t k v u : split_once c t = Some (k, v) → split_once c (t ++ u) = Some (k, v ++ u).
Proof.
  revert k. induction t as [|d t IH]; intros k; [done|]. cbn. destruct (d =? c); [by intros [= <- <-]|].
  destruct (split_once c t) as [[a b]|] eqn:Hs; [|done]. intros [= <- <-]. by erewrite IH.
Qed.

Lemma assignment_app t u : assignment_is_sensitive t = true → assignment_is_sensitive (t ++ u) = true.
Proof.
  unfold assignment_is_sensitive. destruct (split_once 61 t) as [[k v]|] eqn:Hs; [|done].
  by erewrite split_once_app.
Qed.

(** A word that begins like a credential is one. *)
Lemma credential_prefix w w' : w `prefix_of` w' → credential w' = false → credential w = false.
Proof.
  intros [u ->]. unfold credential. rewrite !orb_false_iff, <-!not_true_iff_false.
  intros [[[[H1 H2] H3] H4] H5]. split_and!; intros Ht;
    [apply H1|apply H2|apply H3|apply H4|apply H5]; auto using starts_with_app, contains_app, assignment_app.
Qed.

Lemma lower_prefix w w' : w `prefix_of` w' → to_ascii_lowercase w `prefix_of` to_ascii_lowercase w'.
Proof. intros [u ->]. unfold to_ascii_lowercase. rewrite fmap_app. by eexists. Qed.

(** The words of a beginning of a text: but for the last they are words of it. *)
Lemma split_prefix f t u :
  ∃ ws w w' rest, split f t = ws ++ [w] ∧ split f (t ++ u) = ws ++ w' :: rest ∧ w `prefix_of` w'.
Proof.
  induction t as [|c t (ws & w & w' & rest & Ht & Hu & Hw)]; cbn.
  - destruct (split f u) as [|w' rest] eqn:Hs.
    { destruct u as [|d u]; [done|]. cbn in Hs. destruct (f d); [done|]. by destruct (split f u). }
    exists [], [], w', rest. split_and!; [done..|apply prefix_nil].
  - rewrite Ht, Hu. destruct (f c); [by exists ([] :: ws), w, w', rest|].
    destruct ws as [|x ws]; [|by exists ((c :: x) :: ws), w, w', rest].
    exists [], (c :: w), (c :: w'), rest. split_and!; [done..|by apply prefix_cons].
Qed.

Lemma clean_prefix t u : clean (t ++ u) → clean t.
Proof.
  intros [Hc Hw]. apply Forall_app in Hc as [Hc _]. split; [done|]. unfold split_whitespace in *.
  destruct (split_prefix is_whitespace t u) as (ws & w & w' & rest & Ht & Hu & Hp). rewrite Ht. rewrite Hu in Hw.
  rewrite filter_app in *. apply Forall_app in Hw as [Hws Hw]. apply Forall_app. split; [done|].
  rewrite filter_cons. case_decide as Hne; [|by rewrite filter_nil]. constructor; [|by rewrite filter_nil].
  assert (w' ≠ []) by (intros ->; by apply prefix_nil_inv in Hp). rewrite filter_cons_True in Hw by done.
  apply Forall_inv in Hw. eapply credential_prefix, Hw. by apply lower_prefix.
Qed.

Lemma truncate_prefix m t : ∃ u, t = truncate m t ++ u.
Proof.
  revert m. induction t as [|c t IH]; intros m; cbn; [by exists []|]. case_match; [|by eexists].
  destruct (IH (m - len_utf8 c)) as [u Hu]. exists u. cbn. by rewrite <-Hu.
Qed.

Lemma truncate_bytes m t : byte_len (truncate m t) ≤ m.
Proof.
  revert m. induction t as [|c t IH]; intros m; cbn; [lia|]. destruct (N.leb_spec (len_utf8 c) m); cbn; [|lia].
  specialize (IH (m - len_utf8 c)). unfold byte_len in IH. lia.
Qed.

(** *** The words that are left *)

Fixpoint scrub (skip : bool) (words : list text) : list text :=
  match words with
  | [] => []
  | word :: rest =>
      if skip then scrub false rest
      else if announces (to_ascii_lowercase word) then redacted_mark :: scrub true rest
      else (if credential (to_ascii_lowercase word) then redacted_mark else word) :: scrub false rest
  end.

Lemma mark_word : word redacted_mark.
Proof. split; [done|]. by repeat constructor. Qed.

Lemma scrub_words skip ws : Forall word ws → Forall word (scrub skip ws).
Proof.
  intros H. revert skip. induction H as [|w ws Hw Hws IH]; intros skip; cbn; [done|].
  repeat case_match; auto using mark_word.
Qed.

Lemma redact_words_scrub r skip ws :
  Forall word ws →
  redact_words r skip ws = join [space] ((if is_empty r then [] else [r]) ++ scrub skip ws).
Proof.
  intros H. revert r skip. induction H as [|w ws Hw Hws IH]; intros r skip.
  { by destruct r. }
  cbn [redact_words scrub]. destruct skip; [apply IH|].
  assert (∀ x, word x → ∀ s, join [space] ((if is_empty ((if is_empty r then r else r ++ [space]) ++ x) then []
             else [(if is_empty r then r else r ++ [space]) ++ x]) ++ scrub s ws)
           = join [space] ((if is_empty r then [] else [r]) ++ x :: scrub s ws)) as Hx.
  { intros x [Hx _] s. destruct r as [|c r]; [by destruct x|]. cbn. destruct (scrub s ws); by rewrite <-?app_assoc. }
  repeat case_match; rewrite IH, Hx by auto using mark_word; done.
Qed.

Lemma mark_no_credential : credential (to_ascii_lowercase redacted_mark) = false.
Proof. vm_compute. done. Qed.

Lemma scrub_clean skip ws : Forall (λ w, credential (to_ascii_lowercase w) = false) (scrub skip ws).
Proof.
  revert skip. induction ws as [|w ws IH]; intros skip; cbn [scrub]; [done|].
  repeat case_match; auto using mark_no_credential.
Qed.

Lemma split_chars f (P : N → Prop) t : Forall P t → Forall (Forall P) (split f t).
Proof.
  induction 1 as [|c t Hc Ht IH]; cbn; [by repeat constructor|]. destruct (f c); [by constructor|].
  destruct (split f t) as [|p ps]; [by repeat constructor|]. apply Forall_cons in IH as [? ?]. by repeat constructor.
Qed.

Lemma normalized_no_control t : Forall (λ c, is_control c = false) (normalized t).
Proof.
  unfold normalized. rewrite Forall_fmap. apply Forall_true. intros c. cbn. by destruct (is_control c) eqn:Hc.
Qed.

Lemma normalized_words t : Forall (Forall (λ c, is_control c = false)) (split_whitespace (normalized t)).
Proof.
  pose proof (split_chars is_whitespace _ _ (normalized_no_control t)) as H. rewrite Forall_forall in *.
  intros w [_ Hw]%list_elem_of_filter. auto.
Qed.

Lemma scrub_chars skip ws :
  Forall (Forall (λ c, is_control c = false)) ws → Forall (Forall (λ c, is_control c = false)) (scrub skip ws).
Proof.
  intros Hws. revert skip. induction Hws as [|w ws Hw Hws IH]; intros skip; cbn [scrub]; [done|].
  assert (Forall (λ c, is_control c = false) redacted_mark) by by repeat constructor.
  repeat case_match; auto.
Qed.

Lemma join_chars (P : N → Prop) sep ws : Forall P sep → Forall (Forall P) ws → Forall P (join sep ws).
Proof.
  intros Hs. induction 1 as [|w ws Hw Hws IH]; [done|]. cbn. destruct ws; [done|]. by rewrite !Forall_app.
Qed.

Lemma redact_clean value max_bytes :
  clean (redact_sensitive_text value max_bytes) ∧ byte_len (redact_sensitive_text value max_bytes) ≤ max_bytes.
Proof.
  unfold redact_sensitive_text.
  set (r := redact_words [] false (split_whitespace (normalized value))).
  assert (clean r) as Hr.
  { subst r. rewrite redact_words_scrub by apply split_whitespace_words. cbn [is_empty app]. split.
    - apply join_chars; [by repeat constructor|]. apply scrub_chars, normalized_words.
    - rewrite split_whitespace_join by apply scrub_words, split_whitespace_words. apply scrub_clean. }
  destruct (N.ltb_spec max_bytes (byte_len r)); [|split; [done|lia]]. split; [|apply truncate_bytes].
  destruct (truncate_prefix max_bytes r) as [u Hu]. apply (clean_prefix _ u). by rewrite <-Hu.
Qed.

(** Redacting again changes nothing, unless the text was cut. *)
Lemma scrub_idempotent skip ws : scrub false (scrub skip ws) = scrub skip ws.
Proof.
  assert (announces (to_ascii_lowercase redacted_mark) = false) as Hm by done.
  revert skip. induction ws as [|w ws IH]; intros skip; cbn [scrub]; [done|]. destruct skip; [apply IH|].
  destruct (announces (to_ascii_lowercase w)) eqn:Ha; [cbn [scrub]; by rewrite Hm, mark_no_credential, IH|].
  destruct (credential (to_ascii_lowercase w)) eqn:Hc; cbn [scrub].
  - by rewrite Hm, mark_no_credential, IH.
  - by rewrite Ha, Hc, IH.
Qed.

Section Values_.
Context {Number : Type}.

(** Every string is clean and bounded, and what a sensitive key names is gone. *)
Fixpoint clean_json (value : Json Number) : Prop :=
  match value with
  | String_ t => clean t ∧ byte_len t ≤ MAX_AUDIT_STRING_BYTES
  | Array values => foldr (λ v P, clean_json v ∧ P) True values
  | Object fields =>
      foldr (λ field P, (sensitive_key field.1 = true → field.2 = String_ redacted_mark)
                        ∧ clean_json field.2 ∧ P) True fields
  | _ => True
  end.

Lemma mark_clean : clean_json (String_ redacted_mark).
Proof. split; [|by vm_compute]. split; [by repeat constructor|]. by repeat constructor. Qed.

Lemma redact_json_key (value : Json Number) key :
  sensitive_key key = true → redact_json value (Some key) = String_ redacted_mark.
Proof. intros Hk. destruct value; cbn [redact_json]; by rewrite Hk. Qed.

Lemma redact_json_clean : ∀ (value : Json Number) key, clean_json (redact_json value key).
Proof.
  fix IH 1. intros value key. destruct (match key with Some k => sensitive_key k | None => false end) eqn:Hk.
  { destruct value; cbn [redact_json]; rewrite Hk; apply mark_clean. }
  destruct value as [|b|n|t|values|fields]; cbn [redact_json]; rewrite Hk; cbn; try done.
  - split; apply redact_clean.
  - induction values as [|v vs IHvs]; cbn; [done|]. split; [apply IH|apply IHvs].
  - induction fields as [|[k v] fs IHfs]; cbn; [done|].
    split_and!; [intros; by apply redact_json_key|apply IH|apply IHfs].
Qed.

Definition clean_within (max_bytes : N) (t : text) : Prop := clean t ∧ byte_len t ≤ max_bytes.

(** Every text of a record is clean and within its bound. *)
Definition clean_record (record : AuditRecord Number) : Prop :=
  Forall (clean_within 256) [ar_session_id record; ar_turn_id record; ar_tool_name record]
  ∧ clean_within 512 (ar_loop_verdict record)
  ∧ (∀ t, ar_sandbox_backend record = Some t → clean_within 256 t)
  ∧ (∀ t, ar_result_summary record = Some t → clean_within MAX_AUDIT_STRING_BYTES t)
  ∧ clean_json (ar_args record).

Lemma sanitize_clean (record : AuditRecord Number) : clean_record (sanitize_record record).
Proof.
  split_and!; cbn; [by repeat constructor; apply redact_clean|apply redact_clean| | |apply redact_json_clean].
  all: intros t (value & _ & ->)%fmap_Some; apply redact_clean.
Qed.

End Values_.

(** ** The chain of records

    Each line of the log holds a record with the hash of the one before. *)

(** What the log relies on of serde_json and SHA-256. *)
(** How deep arrays and objects are nested in a value. *)
Fixpoint depth {Number : Type} (value : Json Number) : nat :=
  match value with
  | Array values => S (foldr (λ v d, max (depth v) d) 0%nat values)
  | Object fields => S (foldr (λ field d, max (depth field.2) d) 0%nat fields)
  | _ => 0
  end.

(** An object prints as one line.  Printed, an object that is nested less than 128
    deep, the recursion limit of the parser, is read back with its text fields; of
    numbers nothing is assumed.  The record is a flat structure around its arguments,
    and a digest is 64 hexadecimal digits. *)
Class AuditLaws (Number : Type) `{!AuditCodec Number} := {
  text_is_a_line : ∀ fields, let t := value_text (Object fields) in
    Forall (λ c, c ≠ newline) t ∧ last t ≠ Some return_ ∧ is_empty (trim t) = false;
  parse_keeps_texts : ∀ fields, (depth (Object fields) < 128)%nat → ∃ value,
    parse_value (value_text (Object fields)) = Some value
    ∧ ∀ key t, field_get key (Object fields) = Some (String_ t) → field_get key value = Some (String_ t);
  record_is_flat : ∀ record value, record_value record = inr value → (depth value ≤ S (depth (ar_args record)))%nat;
  digest_is_hex : ∀ bytes, byte_len (digest bytes) = 64 ∧ forallb is_ascii_hexdigit (digest bytes) = true;
}.

Lemma audit_lines_terminated ls :
  Forall (λ l, Forall (λ c, c ≠ newline) l ∧ last l ≠ Some return_) ls → lines (ls ≫= (λ l, l ++ [newline])) = ls.
Proof.
  intros Hls. assert (split (λ c, c =? newline) (ls ≫= (λ l, l ++ [newline])) = ls ++ [[]]) as Hs.
  { induction Hls as [|l ls [Hl _] _ IH]; [done|]. cbn. rewrite <-app_assoc. cbn.
    rewrite split_sep; [by rewrite IH| |done]. eapply Forall_impl; [exact Hl|]. intros c. apply N.eqb_neq. }
  unfold lines. rewrite Hs, reverse_snoc, reverse_involutive. cbn. rewrite app_nil_r.
  clear Hs. induction Hls as [|l ls [_ Hl] _ IH]; [done|]. cbn. by rewrite unterminated_ok, IH.
Qed.

#[local] Arguments no_hash : simpl never.

Section Chain.
Context {Number : Type} `{!AuditCodec Number} `{!AuditFile} `{!AuditLaws Number}.
Abbreviation Rec := (AuditRecord Number).

(** The arguments are nested so little that the line of the record can be parsed. *)
Definition shallow (record : Rec) : Prop := (depth (ar_args record) < 127)%nat.

Lemma redact_depth : ∀ (value : Json Number) key, (depth (redact_json value key) ≤ depth value)%nat.
Proof.
  fix IH 1. intros value key.
  destruct value as [|b|x|t|values|fields]; cbn [redact_json depth];
    (destruct (match key with Some k => sensitive_key k | None => false end); [apply Nat.le_0_l|]);
    cbn [depth]; try lia; apply le_n_S.
  - induction values as [|v vs IHvs]; [done|]. specialize (IH v key). cbn -[redact_json] in *. lia.
  - induction fields as [|[k v] fs IHfs]; [done|]. specialize (IH v (Some k)). cbn -[redact_json] in *. lia.
Qed.

Lemma sanitize_shallow record : shallow record → shallow (sanitize_record record).
Proof. unfold shallow. cbn. pose proof (redact_depth (ar_args record) None). lia. Qed.

Lemma insert_depth key t (fields : list (text * Json Number)) :
  (depth (Object (field_insert key (String_ t) fields)) ≤ depth (Object fields))%nat.
Proof.
  cbn. apply le_n_S. induction fields as [|[k v] fs IH]; cbn; [lia|].
  destruct (decide (k = key)); cbn; [lia|]. destruct (decide (lex N.le key k)); cbn; lia.
Qed.

(** [lines] hold the records, the first after [prev], the last with [final]. *)
Fixpoint chain (prev : text) (records : list Rec) (lines : list text) (final : text) : Prop :=
  match records, lines with
  | [], [] => final = prev
  | r :: records, l :: lines => ∃ fields hash,
      chained_json r prev = inr (Object fields) ∧ l = value_text (Object fields)
      ∧ field_get PREVIOUS (Object fields) = Some (String_ prev)
      ∧ field_get RECORD (Object fields) = Some (String_ hash)
      ∧ byte_len hash = 64 ∧ forallb is_ascii_hexdigit hash = true
      ∧ chain hash records lines final
  | _, _ => False
  end.

Definition log_text (lines : list text) : text := lines ≫= (λ l, l ++ [newline]).

Lemma field_get_insert key (value : Json Number) fields :
  field_get key (Object (field_insert key value fields)) = Some value.
Proof.
  induction fields as [|[k v] fs IH]; cbn in *; [by rewrite bool_decide_true|].
  destruct (decide (k = key)) as [->|Hk]; cbn; [by rewrite bool_decide_true|].
  destruct (decide (lex N.le key k)); cbn; [by rewrite bool_decide_true|]. by rewrite bool_decide_false.
Qed.

Lemma field_get_insert_ne key key' (value : Json Number) fields :
  key ≠ key' → field_get key (Object (field_insert key' value fields)) = field_get key (Object fields).
Proof.
  intros Hne. induction fields as [|[k v] fs IH]; cbn in *; [by rewrite bool_decide_false|].
  destruct (decide (k = key')) as [->|Hk]; cbn; [by rewrite !bool_decide_false by congruence|].
  destruct (decide (lex N.le key' k)); cbn; [by rewrite bool_decide_false by congruence|].
  destruct (bool_decide (k = key)); [done|]. apply IH.
Qed.

(** What goes into a line. *)
Lemma chained_fields (r : Rec) prev json :
  chained_json r prev = inr json →
  ∃ fields hash, json = Object fields ∧ field_get PREVIOUS json = Some (String_ prev)
    ∧ field_get RECORD json = Some (String_ hash) ∧ byte_len hash = 64 ∧ forallb is_ascii_hexdigit hash = true.
Proof.
  unfold chained_json. repeat case_match; try done. intros [= <-]. eexists _, _. split; [done|]. split_and!.
  - rewrite field_get_insert_ne by done. apply field_get_insert.
  - apply field_get_insert.
  - apply digest_is_hex.
  - apply digest_is_hex.
Qed.

Lemma chained_depth (r : Rec) prev json : chained_json r prev = inr json → shallow r → (depth json < 128)%nat.
Proof.
  unfold chained_json, shallow. destruct (record_value r) as [|value] eqn:Hv; [done|]. destruct (value_bytes value); [done|].
  intros [= <-] Hr. apply record_is_flat in Hv. eapply Nat.le_lt_trans; [apply insert_depth|].
  eapply Nat.le_lt_trans; [apply insert_depth|]. destruct value; cbn in *; lia.
Qed.

Lemma chain_snoc prev records ls final r fields hash :
  chain prev records ls final → chained_json r final = inr (Object fields) →
  field_get PREVIOUS (Object fields) = Some (String_ final) →
  field_get RECORD (Object fields) = Some (String_ hash) →
  byte_len hash = 64 → forallb is_ascii_hexdigit hash = true →
  chain prev (records ++ [r]) (ls ++ [value_text (Object fields)]) hash.
Proof.
  revert prev ls. induction records as [|r' rs IH]; intros prev [|l ls]; cbn; try done.
  - intros ->. intros. eexists _, _. done.
  - intros (f' & h' & ? & ? & ? & ? & ? & ? & ?) ?????. eexists _, _. split_and!; try done. eauto.
Qed.

(** The last hash is read back from the file. *)
Lemma chain_last records ls final :
  chain no_hash records ls final → Forall shallow records → default no_hash (last_hash (log_text ls)) = final.
Proof.
  intros Hc Hsh. assert (∀ prev, chain prev records ls final →
    Forall (λ l, Forall (λ c, c ≠ newline) l ∧ last l ≠ Some return_ ∧ is_empty (trim l) = false) ls
    ∧ match last ls with
      | None => final = prev
      | Some l => ∃ value, parse_value l = Some value ∧ field_get RECORD value = Some (String_ final)
          ∧ byte_len final = 64 ∧ forallb is_ascii_hexdigit final = true
      end) as Hl.
  { clear Hc. revert ls. induction records as [|r rs IH]; intros [|l ls] prev; cbn [chain]; try done.
    intros (fields & hash & Hj & -> & _ & Hr & Hlen & Hhex & Hrest). apply Forall_cons in Hsh as [Hsh1 Hsh].
    destruct (IH Hsh _ _ Hrest) as [Hall Hlast].
    split; [constructor; [apply text_is_a_line|done]|]. rewrite last_cons. destruct (last ls); [done|]. subst hash.
    destruct (parse_keeps_texts fields) as (v & -> & Hv); [by eapply chained_depth|]. exists v.
    split_and!; [done|by apply Hv|done..]. }
  destruct (Hl _ Hc) as [Hall Hlast]. unfold last_hash, log_text. rewrite audit_lines_terminated.
  2: { eapply Forall_impl; [exact Hall|]. naive_solver. }
  destruct ls as [|l ls _] using rev_ind; [done|]. rewrite last_snoc in Hlast. rewrite reverse_snoc. cbn [find].
  apply Forall_app in Hall as [_ (_ & _ & Htrim)%Forall_inv]. rewrite Htrim. cbn [negb].
  destruct Hlast as (v & Hp & Hv & Hlen & Hhex). cbn [mbind option_bind].
  rewrite Hp. cbn [mbind option_bind]. rewrite Hv. cbn [mbind option_bind as_str]. by rewrite Hlen, Hhex.
Qed.

(** *** Runs of the writer

    A record is handed to the writer, or the process ends and another one starts
    on the file. *)
Inductive Call := Log (record : Rec) | Restart.

Definition call (c : Call) : M Writer string unit :=
  match c with Log record => write record | Restart => start end.

(** The records whose writing was acknowledged. *)
Fixpoint run (calls : list Call) (w : Writer) (n : N) : list Rec * Writer * N :=
  match calls with
  | [] => ([], w, n)
  | c :: calls =>
      let '(r, w, n) := call c w n in
      let '(written, w, n) := run calls w n in
      (match c, r with Log record, Ok _ => record :: written | _, _ => written end, w, n)
  end.

(** The file is read when it is there, and a line is written whole or not at
    all. *)
Definition whole_lines : Prop :=
  (∀ n, read_failure n = false) ∧ ∀ n k e, write_failure n = Some (k, e) → k = 0%nat.

Definition chained (records : list Rec) (w : Writer) : Prop :=
  Forall shallow records ∧ ∃ ls, chain no_hash records ls (wr_previous_hash w) ∧ default [] (wr_file w) = log_text ls.

Lemma start_chained records w n :
  whole_lines → chained records w → wp start (λ r w' _, r = Ok tt ∧ chained records w') w n.
Proof.
  intros [Hread _] (Hsh & ls & Hc & Hf). unfold start, read_last_hash. wp_steps. rewrite Hread. split; [done|].
  split; [done|]. exists ls. cbn. split; [|done]. destruct (wr_file w) as [t|] eqn:Ht; cbn in *.
  - subst t. by rewrite (chain_last _ _ _ Hc Hsh).
  - destruct ls as [|l ls]; [|by destruct l]. by destruct records.
Qed.

Lemma write_chained records record w n :
  whole_lines → shallow record → chained records w →
  wp (write record) (λ r w' _, match r with
    | Ok _ => chained (records ++ [sanitize_record record]) w'
    | Err _ => chained records w'
    | Panic => False
    end) w n.
Proof.
  intros [_ Hwrite] Hrec (Hsh & ls & Hc & Hf). unfold write. apply wp_bind, wp_get.
  destruct (chained_json _ _) as [e|json] eqn:Hj; [apply wp_throw; split; [done|]; by exists ls|].
  apply wp_bind, wp_tick. destruct (open_failure n); [apply wp_throw; split; [done|]; by exists ls|].
  apply wp_bind, wp_tick. destruct (write_failure _) as [[k e]|] eqn:Hwr.
  - apply Hwrite in Hwr as ->. apply wp_bind, wp_modify, wp_throw. split; [done|]. exists ls. cbn. by rewrite app_nil_r.
  - destruct (chained_fields _ _ _ Hj) as (fields & hash & -> & Hp & Hr & Hlen & Hhex).
    apply wp_bind, wp_modify. rewrite Hr. cbn [mbind option_bind as_str]. apply wp_modify.
    split; [apply Forall_app; split; [done|]; constructor; [by apply sanitize_shallow|done]|].
    exists (ls ++ [value_text (Object fields)]). split; [by eapply chain_snoc|]. cbn. rewrite Hf. unfold log_text.
    by rewrite bind_app, bind_singleton.
Qed.

(** The records that are logged have shallow arguments. *)
Definition logs_shallow (c : Call) : Prop := match c with Log record => shallow record | Restart => True end.

Lemma run_chained calls records w n :
  whole_lines → Forall logs_shallow calls → chained records w →
  let '(written, w', _) := run calls w n in chained (records ++ (sanitize_record <$> written)) w'.
Proof.
  intros Hio Hcs. revert records w n. induction calls as [|c calls IH]; intros records w n Hw; cbn [run].
  { by rewrite app_nil_r. }
  apply Forall_cons in Hcs as [Hc Hcs]. specialize (IH Hcs).
  destruct (call c w n) as [[r w1] n1] eqn:Hcall. destruct c as [record|]; cbn [call] in Hcall.
  - pose proof (write_chained _ record _ n Hio Hc Hw) as H1. unfold wp in H1. rewrite Hcall in H1.
    destruct r as [[]|e|]; [|specialize (IH _ _ n1 H1)|done].
    + specialize (IH _ _ n1 H1). destruct (run calls w1 n1) as [[written w'] n']. cbn. by rewrite <-app_assoc in IH.
    + by destruct (run calls w1 n1) as [[written w'] n'].
  - pose proof (start_chained _ _ n Hio Hw) as H1. unfold wp in H1. rewrite Hcall in H1. destruct H1 as [-> H1].
    specialize (IH _ _ n1 H1). by destruct (run calls w1 n1) as [[written w'] n'].
Qed.

(** C7. Whatever is logged, over restarts of the process and failures to open or to
    write the file that tear no line ([whole_lines]: a write that fails leaves nothing
    of its line, and the file is read when the process starts; what happens otherwise
    is [torn_line_loses_the_next_record] below), the audit log is one chain: its lines
    hold, in order, exactly the records whose writing was acknowledged, whose arguments
    are nested less than 127 deep (deeper lines are written but cannot be parsed), each with the hash of the line
    before it, and the last hash is the one the writer continues from.  Every
    record in it is clean: its texts are within their bounds, no word of them is
    a credential, and what a sensitive key of the arguments names is gone.  The keys
    of JSON objects are not texts in this sense: they are stored as they are. *)
Theorem audit_log_is_chained calls n :
  whole_lines → Forall logs_shallow calls →
  let '(written, w, _) := run (Restart :: calls) {| wr_file := None; wr_previous_hash := [] |} n in
  (∃ ls, chain no_hash (sanitize_record <$> written) ls (wr_previous_hash w) ∧ default [] (wr_file w) = log_text ls)
  ∧ Forall clean_record (sanitize_record <$> written).
Proof.
  intros Hio Hcs. cbn [run call]. unfold start, read_last_hash, mbind, M_bind, tick, get_state, modify. cbn.
  rewrite (proj1 Hio). cbn.
  pose proof (run_chained calls [] {| wr_file := None; wr_previous_hash := no_hash |} (n + 1) Hio Hcs) as H1.
  destruct (run _ _ _) as [[written w] n']. split; [apply H1; split; [done|by exists []]|].
  rewrite Forall_fmap. apply Forall_true. intros r. apply sanitize_clean.
Qed.

End Chain.

End Audit.

(** ** Examples *)

(** A printer of values: the tree of a value, numbered, in binary. *)
Module Sample.
Import Audit.

Abbreviation Tree := (gen_tree (bool + text)).

Fixpoint to_tree (value : Json unit) : Tree :=
  match value with
  | Null => GenNode 0 []
  | Bool b => GenLeaf (inl b)
  | Number_ _ => GenNode 1 []
  | String_ t => GenLeaf (inr t)
  | Array values => GenNode 2 (to_tree <$> values)
  | Object fields => GenNode 3 ((λ field, GenNode 4 [GenLeaf (inr field.1); to_tree field.2]) <$> fields)
  end.

Fixpoint of_tree (tree : Tree) : Json unit :=
  match tree with
  | GenLeaf (inl b) => Bool b
  | GenLeaf (inr t) => String_ t
  | GenNode 1 _ => Number_ tt
  | GenNode 2 trees => Array (of_tree <$> trees)
  | GenNode 3 trees =>
      Object ((λ tree, match tree with
                       | GenNode 4 [GenLeaf (inr key); value] => (key, of_tree value)
                       | _ => ([], Null)
                       end) <$> trees)
  | GenNode _ _ => Null
  end.

Lemma of_to_tree : ∀ value, of_tree (to_tree value) = value.
Proof.
  fix IH 1. intros [|b|[]|t|values|fields]; cbn; try done; f_equal.
  - induction values as [|v vs IHvs]; cbn; f_equal; [apply IH|apply IHvs].
  - induction fields as [|[k v] fs IHfs]; cbn; f_equal; [by rewrite IH|apply IHfs].
Qed.

Fixpoint digits (p : positive) : text :=
  match p with xH => [46] | xO p => 48 :: digits p | xI p => 49 :: digits p end.

Fixpoint number (t : text) : positive :=
  match t with
  | 48 :: t => xO (number t)
  | 49 :: t => xI (number t)
  | _ => xH
  end.

Lemma number_digits p : number (digits p) = p.
Proof. induction p as [p IH|p IH|]; cbn; by rewrite ?IH. Qed.

Lemma digits_plain p : digits p ≠ [] ∧ Forall (λ c, c ∈ [46; 48; 49]) (digits p).
Proof. induction p as [p [_ IH]|p [_ IH]|]; cbn; (split; [done|]); repeat constructor; done || set_solver. Qed.

Definition print_value (value : Json unit) : text := digits (encode (to_tree value)).

Definition hex (n : N) : N := if n <? 10 then 48 + n else 87 + n.

(** A digest of the right length. *)
Definition sample_digest (bytes : list N) : text :=
  let sum := foldl (λ a b, N.land (a * 257 + b + 1) 18446744073709551615) 0 bytes in
  (λ i, hex (N.shiftr sum (4 * N.of_nat i) mod 16)) <$> seq 0 64.

#[global] Instance sample_audit_codec : AuditCodec unit := {|
  record_value r := inr (Object [(lit "args", ar_args r); (lit "audit_id", String_ (digits (N.succ_pos (ar_audit_id r))));
                                 (lit "session_id", String_ (ar_session_id r));
                                 (lit "tool_name", String_ (ar_tool_name r))]);
  value_bytes value := inr (print_value value);
  value_text := print_value;
  parse_value t := of_tree <$> decode (number t);
  digest := sample_digest;
|}.

Lemma hex_digit n : n < 16 → is_ascii_hexdigit (hex n) = true ∧ len_utf8 (hex n) = 1.
Proof. intros Hn. destruct n as [|p]; [done|]. do 4 (destruct p as [p|p|]; [| |done]); lia. Qed.

Lemma plain_line t :
  t ≠ [] → Forall (λ c, c ∈ [46; 48; 49]) t →
  Forall (λ c, c ≠ newline) t ∧ last t ≠ Some return_ ∧ is_empty (trim t) = false.
Proof.
  intros Hne Hall. assert (∀ c, c ∈ t → is_whitespace c = false ∧ c ≠ newline ∧ c ≠ return_) as Hc.
  { intros c Hc. rewrite Forall_forall in Hall. specialize (Hall c Hc).
    rewrite !elem_of_cons, elem_of_nil in Hall. by destruct Hall as [->|[->|[->|[]]]]. }
  split_and!.
  - apply Forall_forall. intros c H. by apply Hc.
  - intros Hl%last_Some_elem_of%Hc. tauto.
  - rewrite trim_tight; [by destruct t|]. intros c [H|H]; apply Hc; [|by apply last_Some_elem_of].
    destruct t; [done|]. injection H as ->. left.
Qed.

#[global] Instance sample_audit_laws : AuditLaws unit.
Proof.
  split.
  - intros fields. apply plain_line; apply digits_plain.
  - intros fields _. exists (Object fields). split; [|done].
    change (of_tree <$> decode (number (digits (encode (to_tree (Object fields))))) = Some (Object fields)).
    rewrite number_digits, decode_encode. apply (f_equal Some), of_to_tree.
  - intros record value [= <-]. cbn. lia.
  - intros bytes. cbn. unfold sample_digest.
    generalize (foldl (λ a b, N.land (a * 257 + b + 1) 18446744073709551615) 0 bytes). intros sum.
    assert (∀ l, byte_len ((λ i, hex (N.shiftr sum (4 * N.of_nat i) mod 16)) <$> l) = N.of_nat (length l)
      ∧ forallb is_ascii_hexdigit ((λ i, hex (N.shiftr sum (4 * N.of_nat i) mod 16)) <$> l) = true) as H; [|apply (H (seq 0 64))].
    induction l as [|i l [IH1 IH2]]; [done|].
    destruct (hex_digit (N.shiftr sum (4 * N.of_nat i) mod 16)) as [Hx Hl]; [by apply N.mod_lt|].
    cbn [fmap list_fmap byte_len foldr forallb length]. unfold byte_len in IH1. rewrite Hx, Hl. cbn [andb]. split; [|done].
    etransitivity; [apply (f_equal (N.add 1)), IH1|lia].
Qed.

Definition sample_record (id : N) (session : string) : AuditRecord unit := {|
  ar_audit_id := id; ar_timestamp := 1; ar_session_id := lit session; ar_turn_id := lit "turn";
  ar_tool_name := lit "shell"; ar_args := Object [(lit "Authorization", String_ (lit "Bearer abc"));
                                                  (lit "cmd", String_ (lit "curl -H token=abc"))];
  ar_permission_level := PolicyEngine.L0; ar_risk_category := Risk.ReadOnly; ar_loop_verdict := lit "allow";
  ar_result_summary := None; ar_is_error := false; ar_sandbox_backend := None; ar_elapsed_ms := 2 |}.

(** The second opening of the file fails. *)
#[local] Instance sample_file : AuditFile := {|
  open_failure n := if n =? 3 then Some "too many open files" else None;
  write_failure n := None;
  read_failure n := false;
|}.

Definition sample_calls : list (@Call unit) :=
  [Log (sample_record 1 "one"); Log (sample_record 2 "two"); Restart; Log (sample_record 3 "three")].

Lemma audit_log_is_chained_witness :
  let '(written, w, _) := run (Restart :: sample_calls) {| wr_file := None; wr_previous_hash := [] |} 0 in
  (∃ ls, chain no_hash (sanitize_record <$> written) ls (wr_previous_hash w) ∧ default [] (wr_file w) = log_text ls)
  ∧ Forall clean_record (sanitize_record <$> written).
Proof. apply (audit_log_is_chained sample_calls 0); [by split|]. repeat constructor. Defined.

(** Two of its three records were written. *)
Lemma sample_calls_written :
  ar_audit_id <$> (run (Restart :: sample_calls) {| wr_file := None; wr_previous_hash := [] |} 0).1.1 = [1; 3].
Proof. vm_compute. done. Qed.

(** The word after [Authorization:] is dropped, but that is the scheme: the
    credential of the header stays. *)
Lemma authorization_header_leaks :
  redact_sensitive_text (lit "Authorization: Bearer abc") 100 = lit "[REDACTED] abc".
Proof. vm_compute. done. Qed.

(** The third write of the file stops after five characters. *)
Definition torn_file : AuditFile := {|
  open_failure n := None;
  write_failure n := if n =? 4 then Some (5%nat, "no space left on device") else None;
  read_failure n := false;
|}.

(** After a line that was written in part the next record, although acknowledged,
    shares its line: it cannot be read, and the next start of the writer begins a
    new chain. *)
Lemma torn_line_loses_the_next_record :
  let '(written, w, _) := @run unit _ torn_file [Restart; Log (sample_record 1 "one"); Log (sample_record 2 "two");
                            Log (sample_record 3 "three"); Restart] {| wr_file := None; wr_previous_hash := [] |} 0 in
  ar_audit_id <$> written = [1; 3] ∧ length (lines (default [] (wr_file w))) = 2%nat ∧ wr_previous_hash w = no_hash.
Proof. vm_compute. done. Qed.

End Sample.
