(* ===== verification/StdFloat.v ===== *)
(** * Floating-point numbers

    Rust's [f32] and [f64] are the binary32 and binary64 formats of IEEE 754,
    computed by the Standard Library's executable specification.  That has one
    NaN without a sign or a payload; [total_cmp] places it above every number,
    which is where Rust has the positive ones. *)
From Stdlib Require Export SpecFloat.
From S2P Require Import Prelude StdModel.

#[local] Open Scope Z_scope.

Abbreviation F32 := spec_float (only parsing).
Abbreviation F64 := spec_float (only parsing).

#[global] Instance spec_float_eq_dec : EqDecision spec_float.
Proof. solve_decision. Defined.

(** ** Arithmetic of [f64] *)

Definition f64_add : F64 → F64 → F64 := SFadd 53 1024.

Definition f64_sub : F64 → F64 → F64 := SFsub 53 1024.

Definition f64_mul : F64 → F64 → F64 := SFmul 53 1024.

Definition f64_div : F64 → F64 → F64 := SFdiv 53 1024.

(** [n as f64] for an unsigned integer, rounded to nearest even. *)
Definition f64_of_N (n : N) : F64 := binary_normalize 53 1024 (Z.of_N n) 0 false.

(** A decimal literal [num / den]: the quotient of two integers below [2^53] is
    rounded once, as the literal is. *)
Definition f64_lit (num den : N) : F64 := f64_div (f64_of_N num) (f64_of_N den).

Definition f32_lit (num den : N) : F32 :=
  SFdiv 24 128 (binary_normalize 24 128 (Z.of_N num) 0 false) (binary_normalize 24 128 (Z.of_N den) 0 false).

(** [f64::from(x)] for an [f32]: exact. *)
Definition f64_from (x : F32) : F64 :=
  match x with
  | S754_finite s m e => binary_normalize 53 1024 (cond_Zopp s (Zpos m)) e s
  | _ => x
  end.

(** [iter.sum::<f64>()]: the empty sum is the neutral element [-0.0]. *)
Definition f64_sum (l : list F64) : F64 := foldl f64_add (S754_zero true) l.

(** ** Comparisons *)

Definition is_finite (x : spec_float) : bool :=
  match x with S754_zero _ | S754_finite _ _ _ => true | _ => false end.

Definition is_nan (x : spec_float) : bool := match x with S754_nan => true | _ => false end.

(** [(0.0..=1.0).contains(&x)] *)
Definition in_unit (one x : spec_float) : bool := SFleb (S754_zero false) x && SFleb x one.

(** The bits of a number read as a signed integer, as [total_cmp] compares them:
    the class first, then the exponent and the mantissa. *)
Definition total_key (x : spec_float) : Z * (Z * Z) :=
  match x with
  | S754_nan => (4, (0, 0))
  | S754_infinity false => (3, (0, 0))
  | S754_finite false m e => (2, (e, Zpos m))
  | S754_zero false => (1, (0, 0))
  | S754_zero true => (0, (0, 0))
  | S754_finite true m e => (-1, (-e, Zneg m))
  | S754_infinity true => (-2, (0, 0))
  end.

Definition key_le (a b : Z * (Z * Z)) : Prop :=
  a.1 < b.1 ∨ a.1 = b.1 ∧ (a.2.1 < b.2.1 ∨ a.2.1 = b.2.1 ∧ a.2.2 ≤ b.2.2).

#[global] Instance key_le_dec : RelDecision key_le.
Proof. intros a b. unfold key_le. apply _. Defined.

(** [x.total_cmp(&y) != Ordering::Greater] *)
Definition total_le (x y : spec_float) : Prop := key_le (total_key x) (total_key y).

#[global] Instance total_le_dec : RelDecision total_le.
Proof. intros x y. unfold total_le. apply _. Defined.

(** ** Lemmas *)

#[global] Instance total_le_refl : Reflexive total_le.
Proof. intros x. unfold total_le, key_le. lia. Qed.

#[global] Instance total_le_trans : Transitive total_le.
Proof. intros x y z. unfold total_le, key_le. lia. Qed.

#[global] Instance total_le_total : Total total_le.
Proof. intros x y. unfold total_le, key_le. lia. Qed.

Lemma total_key_inj x y : total_key x = total_key y → x = y.
Proof.
  destruct x as [[]|[]| |[] m e], y as [[]|[]| |[] m' e']; cbn; try congruence.
  intros [= ? ->]. f_equal. lia.
Qed.

#[global] Instance total_le_anti : AntiSymm (=) total_le.
Proof.
  intros x y Hxy Hyx. apply total_key_inj. unfold total_le, key_le in *.
  destruct (total_key x) as [a [b c]], (total_key y) as [a' [b' c']]; cbn in *. repeat f_equal; lia.
Qed.

Definition is_zero (x : spec_float) : bool := match x with S754_zero _ => true | _ => false end.

(** On numbers [<=] is the total order with the two zeros identified. *)
Lemma leb_iff x y :
  SFleb x y = true ↔
  is_nan x = false ∧ is_nan y = false ∧ (total_le x y ∨ is_zero x = true ∧ is_zero y = true).
Proof.
  unfold total_le, key_le, SFleb, SFcompare.
  destruct x as [[]|[]| |[] m e], y as [[]|[]| |[] m' e']; cbn; try (split; [intros; try done; lia|intuition (try done; lia)]).
  all: change (Pos.compare_cont Eq m m') with (m ?= m')%positive.
  all: destruct (Z.compare_spec e e'), (Pos.compare_spec m m'); cbn; intuition (try done; try lia).
Qed.

Lemma leb_total x y z : SFleb x y = true → total_le y z → is_nan z = false → SFleb x z = true.
Proof.
  rewrite !leb_iff. intros (Hx & Hy & [Hxy|[Hx0 Hy0]]) Hyz Hz; [eauto 6 using total_le_trans|].
  split_and!; [done..|]. destruct (is_zero z) eqn:Ez; [by right|left].
  destruct x as [[]|[]| |[] m e], y as [[]|[]| |[] m' e'], z as [[]|[]| |[] k f]; try done.
  all: unfold total_le, key_le in *; cbn in *; lia.
Qed.

(** ** Magnitudes of floating-point results

    The binary magnitude of a positive number [m * 2^e] is the exponent of the
    power of two just above it.  The operations of [f64] on numbers of moderate
    magnitude give numbers of the expected magnitude, up to the rounding: in
    particular neither zero nor infinity. *)

Definition mag (m e : Z) : Z := Z.log2 m + 1 + e.

(** A positive finite number with its magnitude between two bounds. *)
Definition within (lo hi : Z) (x : F64) : Prop :=
  ∃ m e, x = S754_finite false m e ∧ lo ≤ mag (Zpos m) e ≤ hi.

Lemma within_mono lo hi lo' hi' x : within lo hi x → lo' ≤ lo → hi ≤ hi' → within lo' hi' x.
Proof. intros (m & e & -> & ?). exists m, e. split; [done|lia]. Qed.

Lemma log2_digits m : Zpos (digits2_pos m) = Z.log2 (Zpos m) + 1.
Proof.
  induction m as [m IH|m IH|]; cbn [digits2_pos]; [| |done].
  all: rewrite Pos2Z.inj_succ, IH.
  - change (Zpos m~1) with (2 * Zpos m + 1). rewrite Z.log2_succ_double by done. lia.
  - change (Zpos m~0) with (2 * Zpos m). rewrite Z.log2_double by done. lia.
Qed.

Lemma digits_log2 m : 0 < m → Zdigits2 m = Z.log2 m + 1.
Proof. destruct m; [done| |done]. intros _. apply log2_digits. Qed.

(** ** Shifting *)

Lemma shr_1_m r : 0 ≤ shr_m r → shr_m (shr_1 r) = shr_m r / 2.
Proof.
  intros Hr. destruct r as [[|[p|p|]|] b s]; cbn [shr_1 shr_m] in *; try done.
  - apply Z.div_unique with 1; lia.
  - apply Z.div_unique with 0; lia.
Qed.

Lemma iter_shr_m p r : 0 ≤ shr_m r → shr_m (SpecFloat.iter_pos shr_1 p r) = shr_m r / 2 ^ Zpos p.
Proof.
  assert (∀ x k, 0 ≤ x → 0 ≤ x / 2 ^ Zpos k) as Hnn by (intros; apply Z.div_pos; lia).
  revert r. induction p as [p IH|p IH|]; intros r Hr; cbn [SpecFloat.iter_pos].
  - assert (0 ≤ shr_m (shr_1 r)) by (rewrite shr_1_m by done; apply Z.div_pos; lia).
    rewrite !IH by (rewrite ?IH by done; auto). rewrite shr_1_m by done.
    rewrite !Z.div_div by lia. f_equal. replace (Zpos p~1) with (1 + Zpos p + Zpos p) by lia.
    rewrite !Z.pow_add_r by lia. lia.
  - rewrite !IH by (rewrite ?IH by done; auto). rewrite Z.div_div by lia. f_equal.
    replace (Zpos p~0) with (Zpos p + Zpos p) by lia. rewrite Z.pow_add_r by lia. lia.
  - by rewrite shr_1_m.
Qed.

Lemma shr_record_m m l : shr_m (shr_record_of_loc m l) = m.
Proof. by destruct l as [|[]]. Qed.

(** Rounding to 53 digits keeps the magnitude of the mantissa. *)
Lemma shr_mag m e l :
  0 < m → -1000 ≤ mag m e →
  ∃ r e', shr_fexp 53 1024 m e l = (r, e') ∧ 0 < shr_m r ∧ mag (shr_m r) e' = mag m e ∧ Z.log2 (shr_m r) < 53.
Proof.
  intros Hm Hmag. unfold shr_fexp. rewrite digits_log2 by done. unfold mag in *.
  replace (fexp 53 1024 (Z.log2 m + 1 + e) - e) with (Z.log2 m - 52) by (unfold fexp, emin; lia).
  destruct (Z.log2 m - 52) as [|p|p] eqn:Ep; cbn [shr].
  1,3: eexists _, _; split; [done|]; rewrite shr_record_m; lia.
  eexists _, _. split; [done|]. rewrite iter_shr_m by (rewrite shr_record_m; lia). rewrite shr_record_m.
  rewrite <-Z.shiftr_div_pow2, Z.log2_shiftr by lia. split_and!; [|lia..].
  rewrite Z.shiftr_div_pow2 by lia. apply Z.div_str_pos. split; [lia|]. apply Z.log2_le_pow2; lia.
Qed.

Lemma round_even_cases m l : round_nearest_even m l = m ∨ round_nearest_even m l = m + 1.
Proof. destruct l as [|[]]; cbn; auto. case_match; auto. Qed.

Lemma round_within m e l :
  0 < m → -1000 ≤ mag m e ≤ 960 → within (mag m e) (mag m e + 1) (binary_round_aux 53 1024 false m e l).
Proof.
  intros Hm [Hlo Hhi]. unfold binary_round_aux.
  destruct (shr_mag m e l) as (r & e' & -> & Hr & Hmag & Hd); [done..|].
  set (m2 := round_nearest_even _ _).
  assert (0 < m2 ∧ mag m e ≤ mag m2 e' ≤ mag m e + 1) as [Hm2 Hmag2].
  { unfold mag in *. destruct (round_even_cases (shr_m r) (loc_of_shr_record r)) as [Heq|Heq]; subst m2; rewrite Heq.
    { lia. }
    destruct (Z.log2_succ_or (shr_m r)) as [Hs|Hs]; unfold Z.succ in Hs; rewrite Hs; lia. }
  destruct (shr_mag m2 e' loc_Exact) as (r2 & e2 & -> & Hr2 & Hmag3 & Hd2); [done|lia|].
  destruct (shr_m r2) as [|m3|m3] eqn:Er; [lia| |lia].
  assert (0 ≤ Z.log2 (Zpos m3)) by apply Z.log2_nonneg.
  rewrite (proj2 (Z.leb_le e2 (1024 - 53))) by (unfold mag in *; lia).
  exists m3, e2. split; [done|]. lia.
Qed.

(** ** Operations *)

Lemma shl_align_mag m e e' :
  mag (Zpos (shl_align m e e').1) (shl_align m e e').2 = mag (Zpos m) e ∧ (shl_align m e e').2 = Z.min e e'.
Proof.
  unfold shl_align, mag. destruct (e' - e) as [|d|d] eqn:Ed; cbn [fst snd]; [lia|lia|].
  replace (Zpos (Pos.iter xO m d)) with (Zpos m * 2 ^ Zpos d).
  { rewrite Z.log2_mul_pow2 by done. lia. }
  revert m. clear. induction d as [|d IH] using Pos.peano_ind; intros m; [cbn; lia|].
  rewrite Pos.iter_succ. rewrite Pos2Z.inj_succ, Z.pow_succ_r by done.
  specialize (IH m). lia.
Qed.

Lemma round_pos_within m e :
  -1000 ≤ mag (Zpos m) e ≤ 960 →
  within (mag (Zpos m) e) (mag (Zpos m) e + 1) (binary_round 53 1024 false m e).
Proof.
  intros Hm. unfold binary_round. pose proof (shl_align_mag m e (fexp 53 1024 (Zpos (digits2_pos m) + e))) as [Heq _].
  destruct (shl_align _ _ _) as [mz ez]. cbn [fst snd] in Heq. rewrite <-Heq in *. by apply round_within.
Qed.

Lemma of_N_within n : (0 < n ≤ u64_max)%N → within 1 65 (f64_of_N n).
Proof.
  intros Hn. unfold f64_of_N, u64_max in *. destruct n as [|p]; [lia|]. cbn [Z.of_N binary_normalize].
  assert (0 ≤ Z.log2 (Zpos p) < 64) by (split; [apply Z.log2_nonneg|apply Z.log2_lt_pow2; lia]).
  eapply within_mono; [apply round_pos_within|..]; unfold mag; lia.
Qed.

Lemma log2_add a b : 0 < a → 0 < b → Z.log2 a ≤ Z.log2 (a + b) ≤ Z.max (Z.log2 a) (Z.log2 b) + 1.
Proof.
  intros Ha Hb. split; [apply Z.log2_le_mono; lia|].
  enough (Z.log2 (a + b) < Z.max (Z.log2 a) (Z.log2 b) + 2) by lia.
  pose proof (Z.log2_nonneg a). apply Z.log2_lt_pow2; [lia|].
  assert (∀ x y, 0 < x → Z.log2 x ≤ y → x < 2 ^ (y + 1)) as Hx.
  { intros x y Hx Hy. apply Z.log2_lt_pow2; lia. }
  pose proof (Hx a (Z.max (Z.log2 a) (Z.log2 b)) Ha ltac:(lia)).
  pose proof (Hx b (Z.max (Z.log2 a) (Z.log2 b)) Hb ltac:(lia)).
  replace (Z.max _ _ + 2) with (Z.max (Z.log2 a) (Z.log2 b) + 1 + 1) by lia. rewrite (Z.pow_add_r 2 _ 1) by lia. lia.
Qed.

Lemma add_within lo hi lo' hi' x y :
  within lo hi x → within lo' hi' y → -900 ≤ lo → hi ≤ 900 → hi' ≤ 900 →
  within lo (Z.max hi hi' + 2) (f64_add x y).
Proof.
  intros (m & e & -> & Hm) (m' & e' & -> & Hm') ???. unfold f64_add, SFadd. cbn [cond_Zopp].
  pose proof (shl_align_mag m e (Z.min e e')) as [Ha1 E1]. pose proof (shl_align_mag m' e' (Z.min e e')) as [Hb1 E2].
  destruct (shl_align m e _) as [a ea], (shl_align m' e' _) as [b eb]. cbn [fst snd] in *.
  assert (ea = Z.min e e') as -> by lia. assert (eb = Z.min e e') as -> by lia.
  change (Zpos a + Zpos b) with (Zpos (a + b)). cbn [binary_normalize].
  pose proof (log2_add (Zpos a) (Zpos b) ltac:(lia) ltac:(lia)).
  change (Zpos a + Zpos b) with (Zpos (a + b)) in *. unfold mag in *.
  eapply within_mono; [apply round_pos_within|..]; unfold mag; lia.
Qed.

Lemma mul_within lo hi lo' hi' x y :
  within lo hi x → within lo' hi' y → -400 ≤ lo → -400 ≤ lo' → hi ≤ 400 → hi' ≤ 400 →
  within (lo + lo' - 1) (hi + hi' + 1) (f64_mul x y).
Proof.
  intros (m & e & -> & Hm) (m' & e' & -> & Hm') ????. unfold f64_mul, SFmul. cbn [xorb].
  pose proof (Z.log2_mul_below (Zpos m) (Zpos m') ltac:(lia) ltac:(lia)).
  pose proof (Z.log2_mul_above (Zpos m) (Zpos m') ltac:(lia) ltac:(lia)).
  change (Zpos m * Zpos m') with (Zpos (m * m')) in *. unfold mag in *.
  eapply within_mono; [apply round_within; [done|]|..]; unfold mag; lia.
Qed.

Lemma log2_div a b :
  0 < a → 0 < b → Z.log2 b < Z.log2 a → Z.log2 a - Z.log2 b - 1 ≤ Z.log2 (a / b) ≤ Z.log2 a - Z.log2 b ∧ 0 < a / b.
Proof.
  intros Ha Hb Hab. pose proof (Z.log2_nonneg b). pose proof (Z.log2_spec a Ha) as Hsa. pose proof (Z.log2_spec b Hb).
  assert (2 ^ (Z.log2 a - Z.log2 b - 1) ≤ a / b) as Hlo.
  { apply Z.div_le_lower_bound; [lia|]. etrans; [|apply Hsa].
    replace (2 ^ Z.log2 a) with (2 ^ (Z.log2 b + 1) * 2 ^ (Z.log2 a - Z.log2 b - 1)).
    { apply Z.mul_le_mono_nonneg_r; [lia|]. unfold Z.succ in *. lia. }
    rewrite <-Z.pow_add_r by lia. f_equal. lia. }
  assert (0 < 2 ^ (Z.log2 a - Z.log2 b - 1)) by (apply Z.pow_pos_nonneg; lia).
  split_and!; [apply Z.log2_le_pow2; lia| |lia].
  enough (Z.log2 (a / b) < Z.log2 a - Z.log2 b + 1) by lia. apply Z.log2_lt_pow2; [lia|].
  apply Z.div_lt_upper_bound; [lia|]. eapply Z.lt_le_trans; [apply Hsa|].
  replace (2 ^ Z.succ (Z.log2 a)) with (2 ^ Z.log2 b * 2 ^ (Z.log2 a - Z.log2 b + 1)).
  { apply Z.mul_le_mono_nonneg_r; [lia|]. lia. }
  rewrite <-Z.pow_add_r by lia. f_equal. lia.
Qed.

Lemma div_within lo hi lo' hi' x y :
  within lo hi x → within lo' hi' y → -400 ≤ lo → -400 ≤ lo' → hi ≤ 400 → hi' ≤ 400 →
  within (lo - hi') (hi - lo' + 2) (f64_div x y).
Proof.
  intros (m & e & -> & Hm) (m' & e' & -> & Hm') ????. unfold f64_div, SFdiv, SFdiv_core_binary. cbn [xorb].
  rewrite !digits_log2 by lia. unfold mag in *.
  replace (fexp 53 1024 _) with (Z.log2 (Zpos m) + 1 + e - (Z.log2 (Zpos m') + 1 + e') - 53)
    by (unfold fexp, emin; lia).
  set (ez := Z.min _ _). set (s := e - e' - ez).
  assert (0 ≤ s ∧ Z.log2 (Zpos m') + 53 ≤ Z.log2 (Zpos m) + s) as [Hs Hds] by lia.
  replace (match s with Z0 => Zpos m | Zpos _ => Z.shiftl (Zpos m) s | Zneg _ => 0 end) with (Zpos m * 2 ^ s).
  2: { destruct s; [lia|by rewrite Z.shiftl_mul_pow2|lia]. }
  assert (0 < 2 ^ s) by (apply Z.pow_pos_nonneg; lia).
  assert (Z.log2 (Zpos m * 2 ^ s) = Z.log2 (Zpos m) + s) as Hl by (rewrite Z.log2_mul_pow2 by lia; lia).
  pose proof (log2_div (Zpos m * 2 ^ s) (Zpos m') ltac:(lia) ltac:(lia) ltac:(lia)) as [Hq Hpos].
  rewrite Hl in Hq. unfold Z.div in *. destruct (Z.div_eucl _ _) as [q r].
  eapply within_mono; [apply round_within; [done|]|..]; unfold mag; lia.
Qed.
