(* ===== verification/Candidate.v ===== *)
(** * Candidates for the shared broadcast (fabric)

    fabric/src/types/workspace.rs up to [SelectionResult]: what a process submits
    to the competition, its validation and its fingerprint, with the payloads it
    carries (evidence, hypotheses, plans, signals of the self, agent results).
    JSON values are a parameter, with the size of their serialization and the
    digest [content_fingerprint] makes of it. *)
From S2P Require Import Prelude FabricTypes StdModel Fallible StdFloat.

#[local] Open Scope N_scope.

Definition len (s : string) : N := N.of_nat (String.length s).

Definition count {A} (l : list A) : N := N.of_nat (length l).

Definition is_nil {A} (l : list A) : bool := match l with [] => true | _ => false end.

Definition f32_one : F32 := f32_lit 1 1.

Definition f64_one : F64 := f64_lit 1 1.

Module Payload.
Section Payload.
Context {Json : Type}.

(** ** fabric/src/dasein *)

Inductive AngstSource := Freedom | Finitude | Nothingness | Responsibility.

Inductive BoredomDepth := Surface | Middle | Deep.

Inductive Stimmung :=
| Gelassenheit
| Neugier (curiosity_about : string)
| Verfallenheit (absorbed_in : string)
| Angst (facing : AngstSource)
| Entschlossenheit (chosen_possibility : string)
| Langeweile (depth : BoredomDepth)
| Gelaunt (toward : string)
| Geknickt (because : string).

Inductive CareActionKind := Deliberate | Direct | Wait | Negate.

Inductive SelfSignal :=
| MoodChanged (from to : Stimmung)
| SignalPredictionError (description : string)
| KnowledgeIntegrated (assertion_count : N)
| PossibilitiesOpened (count : N)
| WorldReadinessChanged (entity_id : string)
| WorldEntityIntegrated (entity_id : string)
| ReflectionCompleted
| CareDecision (action : CareActionKind) (rationale : string).

(** ** fabric/src/include: plans *)

Record Action := {
  ac_name : string;
  ac_parameters : Json;
  ac_requires_sandbox : bool;
  ac_timeout_ns : option N;
}.

Record PlanStep := {
  st_id : Uuid;
  st_action : Action;
  st_depends_on : list Uuid;
  st_expected_outcome : string;
  st_rollback_action : option Action;
}.

Record CostEstimate := {
  co_estimated_tokens : N;
  co_estimated_time_ms : N;
  co_estimated_tool_calls : N;
}.

Inductive AwarenessRiskLevel := NoRisk | Low | Medium | High | Critical.

Inductive Plan := mkPlan {
  pl_id : Uuid;
  pl_steps : list PlanStep;
  pl_estimated_cost : CostEstimate;
  pl_risk_level : AwarenessRiskLevel;
  pl_reasoning : string;
  pl_alternatives : list Plan;
}.

(** ** fabric/src/types: agent results *)

Record RuntimeObservability := {
  ro_inference_rounds : option N;
  ro_provider_retries : option N;
  ro_tool_calls : option N;
  ro_terminal_tool_results : option N;
  ro_active_context_tokens : option N;
  ro_cache_read_tokens : option N;
  ro_cache_write_tokens : option N;
}.

Record AttemptUsage := {
  au_input_tokens : N;
  au_output_tokens : N;
  au_cost_usd : option F64;
  au_elapsed_ms : N;
  au_observability : RuntimeObservability;
}.

Record AttemptEvidence := {
  at_kind : string;
  at_summary : string;
  at_content : string;
}.

Record AgentArtifact := {
  aa_kind : string;
  aa_reference : string;
  aa_content_hash : string;
}.

Record AgentResult := {
  ar_output : string;
  ar_usage : AttemptUsage;
  ar_evidence : list AttemptEvidence;
  ar_artifacts : list AgentArtifact;
}.

(** [AgentControlError::invalid] as it is displayed. *)
Definition invalid (message : string) : string := "Agent control InvalidRequest: " +:+ message.

Definition ensure_text (value : string) (max : N) (label : string) : Result string unit :=
  need (negb (is_blank value || (max <? len value))) (invalid (label +:+ " is empty or exceeds byte limit")).

Definition ensure_count (value max : N) (label : string) : Result string unit :=
  need (negb (max <? value)) (invalid (label +:+ " count exceeds limit")).

Definition artifact_validate (a : AgentArtifact) : Result string unit :=
  ensure_text (aa_kind a) 512 "artifact kind" ;;
  ensure_text (aa_reference a) 4096 "artifact reference" ;;
  ensure_text (aa_content_hash a) 512 "artifact content hash".

Definition MAX_AGENT_OUTPUT_BYTES : N := 1024 * 1024.
Definition MAX_EVIDENCE_ITEMS : N := 128.
Definition MAX_ARTIFACTS : N := 128.

Definition result_validate (r : AgentResult) : Result string unit :=
  need (negb (MAX_AGENT_OUTPUT_BYTES <? len (ar_output r))) (invalid "Agent output exceeds byte limit") ;;
  ensure_count (count (ar_evidence r)) MAX_EVIDENCE_ITEMS "Agent evidence" ;;
  ensure_count (count (ar_artifacts r)) MAX_ARTIFACTS "Agent artifacts" ;;
  each (ar_artifacts r) artifact_validate.

End Payload.

Arguments Action : clear implicits.
Arguments PlanStep : clear implicits.
Arguments Plan : clear implicits.

End Payload.

Module Candidate.

Definition WORKSPACE_SCHEMA_V1 : N := 1.
Definition MAX_TEXT_BYTES : N := 32 * 1024.
Definition MAX_EXTENSION_BYTES : N := 64 * 1024.
Definition MAX_REFERENCES : N := 64.
Definition MAX_DEPENDENCIES : N := 32.
Definition MAX_BROADCAST_WINNERS : N := 32.
Definition MAX_BROADCAST_RESPONSES : N := 64.

Abbreviation ContentId := N (only parsing).
Abbreviation AgoraSpaceId := string (only parsing).

Section Types.
Context {Json : Type}.

Inductive WorkspaceAttribution :=
| User
| Environment
| RootAgent (process : ProcessId)
| ChildAgent (process : ProcessId)
| ExternalMemory (provider : string)
| Dasein
| Cognit
| Metacog
| Corpus.

Record WorkspaceObservation := {
  wo_what : string;
  wo_source : string;
  wo_data : Json;
  wo_attribution : WorkspaceAttribution;
}.

Record PredictionFrame := { pf_statement : string; pf_horizon_ms : N }.

Record PredictionErrorFrame := { pe_prediction_id : ContentId; pe_description : string; pe_magnitude : F32 }.

Record GoalFrame := { gf_id : string; gf_summary : string }.

Record ActionProposalFrame := { af_id : string; af_summary : string; af_risk : F32 }.

Record ToolOutcomeFrame := { to_call_id : string; to_tool : string; to_output_ref : string; to_is_error : bool }.

Record WorkspaceReflection := { wr_findings : list string; wr_confidence : F32 }.

Record CareConcernFrame := { cc_purpose : string; cc_urgency : F32 }.

Record RecalledExperienceFrame := {
  re_memory_id : string;
  re_summary : string;
  re_trust : F32;
  re_attribution : WorkspaceAttribution;
}.

Record GovernedActionOutcomeFrame := {
  ga_action_id : ContentId;
  ga_permit_id : string;
  ga_operation : OperationId;
  ga_output_ref : string;
  ga_is_error : bool;
  ga_attribution : WorkspaceAttribution;
}.

(** fabric/src/types/evidence.rs and primitives/cognitive.rs *)
Record Evidence := { ev_id : string; ev_source : string; ev_content : string; ev_weight : F64 }.

Record Hypothesis_ := {
  hy_id : string;
  hy_statement : string;
  hy_confidence : F64;
  hy_evidence_ids : list string;
}.

Inductive WorkspaceContent :=
| Observation (value : WorkspaceObservation)
| RecalledExperience (value : RecalledExperienceFrame)
| EvidenceContent (value : Evidence)
| HypothesisContent (value : Hypothesis_)
| Prediction (value : PredictionFrame)
| PredictionError (value : PredictionErrorFrame)
| Goal_ (value : GoalFrame)
| Concern (value : Payload.SelfSignal)
| CareConcern (value : CareConcernFrame)
| PlanContent (value : Payload.Plan Json)
| ActionProposal (value : ActionProposalFrame)
| ToolOutcome (value : ToolOutcomeFrame)
| GovernedActionOutcome (value : GovernedActionOutcomeFrame)
| AgentResultContent (value : Payload.AgentResult)
| Reflection (value : WorkspaceReflection)
| Extension (schema : string) (payload : Json).

Inductive VisibilityScope :=
| PrivateProcess (process : ProcessId)
| AgentTree (root : ProcessId)
| Session.

Record WorkspaceProvenance := {
  wp_producer : ProcessId;
  wp_operation : option OperationId;
  wp_source_refs : list string;
  wp_observed_at : WallTime;
}.

Record SalienceVector := {
  sv_urgency : F32;
  sv_goal_relevance : F32;
  sv_self_relevance : F32;
  sv_novelty : F32;
  sv_confidence : F32;
  sv_prediction_error : F32;
  sv_affect_intensity : F32;
  sv_social_relevance : F32;
}.

Record WorkspaceCandidate := {
  wc_schema_version : N;
  wc_id : ContentId;
  wc_space : AgoraSpaceId;
  wc_source : ProcessId;
  wc_turn : option Uuid;
  wc_content : WorkspaceContent;
  wc_confidence : F32;
  wc_salience : SalienceVector;
  wc_provenance : WorkspaceProvenance;
  wc_visibility : VisibilityScope;
  wc_dependencies : list ContentId;
  wc_created_at : MonoTime;
  wc_expires_at : option MonoDeadline;
}.

(** The object [content_fingerprint] serializes. *)
Record Material := {
  ma_schema_version : N;
  ma_space : AgoraSpaceId;
  ma_content : WorkspaceContent;
  ma_provenance_refs : list string;
  ma_visibility : VisibilityScope;
  ma_dependencies : list ContentId;
}.

End Types.

Arguments WorkspaceObservation : clear implicits.
Arguments WorkspaceContent : clear implicits.
Arguments WorkspaceCandidate : clear implicits.
Arguments Material : clear implicits.

(** [serde_json::to_vec(payload)?.len()], and SHA-256 of the serialized material
    in hexadecimal. *)
Class CandidateEnv (Json : Type) := {
  json_len : Json → string + N;
  digest : Material Json → string + string;
}.

(** The error or the value of an external call. *)
Definition answer {A} (a : string + A) : Result string A :=
  match a with inl error => Err error | inr value => Ok value end.

Section Operations.
Context `{CandidateEnv Json}.

Definition values (s : SalienceVector) : list F32 :=
  [sv_urgency s; sv_goal_relevance s; sv_self_relevance s; sv_novelty s; sv_confidence s;
   sv_prediction_error s; sv_affect_intensity s; sv_social_relevance s].

(** [value.is_finite() && (0.0..=1.0).contains(&value)] *)
Definition unit_f32 (x : F32) : bool := is_finite x && in_unit f32_one x.

Definition unit_f64 (x : F64) : bool := is_finite x && in_unit f64_one x.

Definition salience_validate (s : SalienceVector) : Result string unit :=
  need (forallb unit_f32 (values s)) "salience dimensions must be finite values in [0,1]".

Definition valid_attribution (a : WorkspaceAttribution) : bool :=
  match a with
  | ExternalMemory provider => negb (is_blank provider) && (len provider <=? MAX_TEXT_BYTES)
  | _ => true
  end.

Definition valid_text (t : string) : bool := negb (is_blank t) && (len t <=? MAX_TEXT_BYTES).

Definition validate_content (content : WorkspaceContent Json) : Result string unit :=
  match content with
  | Observation v =>
      need (valid_text (wo_what v) && valid_text (wo_source v) && valid_attribution (wo_attribution v))
        "observation is incomplete"
  | RecalledExperience v =>
      need (valid_text (re_memory_id v) && valid_text (re_summary v) && unit_f32 (re_trust v)
            && valid_attribution (re_attribution v)) "recalled experience is invalid"
  | EvidenceContent v =>
      need (valid_text (ev_id v) && valid_text (ev_source v) && unit_f64 (ev_weight v)) "evidence is invalid"
  | HypothesisContent v =>
      need (valid_text (hy_id v) && valid_text (hy_statement v) && unit_f64 (hy_confidence v))
        "hypothesis is invalid"
  | Prediction v => need (valid_text (pf_statement v)) "prediction is empty"
  | PredictionError v =>
      need (valid_text (pe_description v) && unit_f32 (pe_magnitude v)) "prediction error is invalid"
  | Goal_ v => need (valid_text (gf_id v) && valid_text (gf_summary v)) "goal is invalid"
  | Concern _ => Ok tt
  | CareConcern v => need (valid_text (cc_purpose v) && unit_f32 (cc_urgency v)) "care concern is invalid"
  | PlanContent v =>
      need (negb (is_nil (Payload.pl_steps v)) && (count (Payload.pl_steps v) <=? MAX_DEPENDENCIES))
        "plan is empty or excessive"
  | ActionProposal v =>
      need (valid_text (af_id v) && valid_text (af_summary v) && unit_f32 (af_risk v))
        "action proposal is invalid"
  | ToolOutcome v =>
      need (valid_text (to_call_id v) && valid_text (to_tool v) && valid_text (to_output_ref v))
        "tool outcome is invalid"
  | GovernedActionOutcome v =>
      need (valid_text (ga_permit_id v) && valid_text (ga_output_ref v) && valid_attribution (ga_attribution v))
        "governed action outcome is invalid"
  | AgentResultContent v => Payload.result_validate v
  | Reflection v =>
      need (negb (is_nil (wr_findings v)) && (count (wr_findings v) <=? MAX_REFERENCES)
            && forallb valid_text (wr_findings v) && unit_f32 (wr_confidence v)) "reflection is invalid"
  | Extension schema payload =>
      if String.prefix "v1/" schema && (len schema <=? 256) then
        size ← answer (json_len payload);
        need (size <=? MAX_EXTENSION_BYTES) "workspace extension is invalid"
      else Err "workspace extension is invalid"
  end.

Definition validate (c : WorkspaceCandidate Json) : Result string unit :=
  need (wc_schema_version c =? WORKSPACE_SCHEMA_V1) "unsupported workspace candidate schema" ;;
  need (negb (is_blank (wc_space c))) "workspace candidate space is empty" ;;
  need (bool_decide (wc_source c = wp_producer (wc_provenance c)))
    "candidate source and provenance producer differ" ;;
  need (unit_f32 (wc_confidence c)) "candidate confidence must be finite and in [0,1]" ;;
  salience_validate (wc_salience c) ;;
  need (negb (is_nil (wp_source_refs (wc_provenance c)))
        && (count (wp_source_refs (wc_provenance c)) <=? MAX_REFERENCES))
    "candidate provenance references are missing or excessive" ;;
  need (forallb valid_text (wp_source_refs (wc_provenance c))) "candidate provenance reference is invalid" ;;
  need (count (wc_dependencies c) <=? MAX_DEPENDENCIES) "candidate dependency count exceeds limit" ;;
  need (negb (bool_decide (wc_id c ∈ wc_dependencies c))) "candidate cannot depend on itself" ;;
  match wc_expires_at c with
  | Some deadline => need (wc_created_at c <? deadline) "candidate expiry must follow creation"
  | None => Ok tt
  end ;;
  validate_content (wc_content c).

Definition is_expired_at (c : WorkspaceCandidate Json) (now : MonoTime) : bool :=
  match wc_expires_at c with
  | Some deadline => deadline_is_expired_at deadline now
  | None => false
  end.

Definition material (c : WorkspaceCandidate Json) : Material Json :=
  {| ma_schema_version := wc_schema_version c; ma_space := wc_space c; ma_content := wc_content c;
     ma_provenance_refs := wp_source_refs (wc_provenance c); ma_visibility := wc_visibility c;
     ma_dependencies := wc_dependencies c |}.

Definition content_fingerprint (c : WorkspaceCandidate Json) : Result string string := answer (digest (material c)).

End Operations.

(** ** The result of a selection *)

Record CandidateScore := {
  cs_id : ContentId;
  cs_source : ProcessId;
  cs_salience : F64;
  cs_aging_boost : F64;
  cs_dependency_boost : F64;
  cs_repetition_penalty : F64;
  cs_refractory_penalty : F64;
  cs_total : F64;
}.

Record SelectionExplanation := {
  se_policy_version : N;
  se_evaluated : list CandidateScore;
  se_selected_ids : list ContentId;
  se_rejected_below_ignition : list ContentId;
}.

Record SelectionResult {Json : Type} := {
  sr_selected : list (WorkspaceCandidate Json);
  sr_explanation : SelectionExplanation;
}.
Arguments SelectionResult : clear implicits.

End Candidate.
