(* ===== verification/Competition.v ===== *)
(** * The competition for the broadcast (agora/src/competition)

    A bounded pool of pending candidates, deduplicated by content; a selection
    scores them, sorts the scores and forms a coalition of the winner and its
    pending dependencies.  Counters wrap around as in the release profile. *)
From S2P Require Import Prelude FabricTypes StdModel Fallible StdFloat Candidate.
Import Candidate.

#[local] Open Scope N_scope.

Module Competition.

Definition incr (n : N) : N := wrapping_add n 1.

(** [u32] *)
Definition incr32 (n : N) : N := (n + 1) mod 4294967296.

(** ** Configuration *)

Record SelectionPolicy := {
  sp_version : N;
  sp_weights : SalienceVector;
  sp_aging_per_ms : F64;
  sp_unresolved_dependency_boost : F64;
  sp_repetition_penalty : F64;
  sp_refractory_penalty : F64;
  sp_ignition_threshold : F64;
  sp_max_consecutive_source_wins : N;
}.

Definition policy_validate (p : SelectionPolicy) : Result string unit :=
  need (0 <? sp_version p) "selection policy version must be non-zero" ;;
  salience_validate (sp_weights p) ;;
  each [("aging_per_ms", sp_aging_per_ms p);
        ("unresolved_dependency_boost", sp_unresolved_dependency_boost p);
        ("repetition_penalty", sp_repetition_penalty p);
        ("refractory_penalty", sp_refractory_penalty p);
        ("ignition_threshold", sp_ignition_threshold p)]
    (λ nv, need (is_finite nv.2 && SFleb (S754_zero false) nv.2) (nv.1 +:+ " must be finite and non-negative")) ;;
  need (0 <? sp_max_consecutive_source_wins p) "source win limit must be non-zero".

Definition default_policy : SelectionPolicy :=
  {| sp_version := 1;
     sp_weights := {| sv_urgency := f32_one; sv_goal_relevance := f32_one; sv_self_relevance := f32_one;
                      sv_novelty := f32_one; sv_confidence := f32_one; sv_prediction_error := f32_one;
                      sv_affect_intensity := f32_one; sv_social_relevance := f32_one |};
     sp_aging_per_ms := f64_lit 1 1000000;
     sp_unresolved_dependency_boost := f64_lit 1 10;
     sp_repetition_penalty := f64_lit 25 100;
     sp_refractory_penalty := f64_lit 10 1;
     sp_ignition_threshold := f64_lit 5 10;
     sp_max_consecutive_source_wins := 2 |}.

Record CandidatePoolConfig := {
  pc_capacity : N;
  pc_per_source_capacity : N;
  pc_max_coalition : N;
  pc_policy : SelectionPolicy;
}.

Definition config_validate (c : CandidatePoolConfig) : Result string unit :=
  need ((1 <=? pc_capacity c) && (pc_capacity c <=? 4096)) "candidate capacity is invalid" ;;
  need ((1 <=? pc_per_source_capacity c) && (pc_per_source_capacity c <=? pc_capacity c))
    "per-source capacity is invalid" ;;
  need ((1 <=? pc_max_coalition c) && (pc_max_coalition c <=? 32)) "coalition limit is invalid" ;;
  need (pc_max_coalition c <=? pc_capacity c) "coalition cannot exceed candidate capacity" ;;
  policy_validate (pc_policy c).

Definition default_config : CandidatePoolConfig :=
  {| pc_capacity := 256; pc_per_source_capacity := 64; pc_max_coalition := 4; pc_policy := default_policy |}.

(** ** State *)

Inductive AdmissionOutcome :=
| Accepted (id : ContentId)
| Duplicate (existing : ContentId)
| RejectedCapacity
| RejectedSourceQuota (source : ProcessId)
| RejectedWrongSpace
| RejectedInvalid (reason : string).

Record AdmissionMetrics := {
  am_accepted : N;
  am_duplicates : N;
  am_expired : N;
  am_capacity_rejections : N;
  am_source_quota_rejections : N;
  am_invalid_rejections : N;
  am_wrong_space_rejections : N;
}.

Record SelectionMetrics := {
  sm_cycles : N;
  sm_ignitions : N;
  sm_below_threshold : N;
  sm_refractory_applications : N;
  sm_aging_applications : N;
  sm_selections_by_source : gmap ProcessId N;
}.

Record CandidatePool {Json : Type} := {
  cp_space : AgoraSpaceId;
  cp_config : CandidatePoolConfig;
  cp_candidates : gmap ContentId (WorkspaceCandidate Json);
  cp_fingerprints : gmap string ContentId;
  cp_selected_fingerprints : gmap string N;
  cp_recent_sources : list ProcessId;
  cp_admission_metrics : AdmissionMetrics;
  cp_selection_metrics : SelectionMetrics;
}.
Arguments CandidatePool : clear implicits.

Definition no_admissions : AdmissionMetrics :=
  {| am_accepted := 0; am_duplicates := 0; am_expired := 0; am_capacity_rejections := 0;
     am_source_quota_rejections := 0; am_invalid_rejections := 0; am_wrong_space_rejections := 0 |}.

Definition no_selections : SelectionMetrics :=
  {| sm_cycles := 0; sm_ignitions := 0; sm_below_threshold := 0; sm_refractory_applications := 0;
     sm_aging_applications := 0; sm_selections_by_source := ∅ |}.

(** What an attempt to add a candidate counts as. *)
Definition count_outcome (o : AdmissionOutcome) (m : AdmissionMetrics) : AdmissionMetrics :=
  match m with
  | {| am_accepted := a; am_duplicates := d; am_expired := e; am_capacity_rejections := c;
       am_source_quota_rejections := q; am_invalid_rejections := i; am_wrong_space_rejections := w |} =>
      {| am_accepted := match o with Accepted _ => incr a | _ => a end;
         am_duplicates := match o with Duplicate _ => incr d | _ => d end;
         am_expired := e;
         am_capacity_rejections := match o with RejectedCapacity => incr c | _ => c end;
         am_source_quota_rejections := match o with RejectedSourceQuota _ => incr q | _ => q end;
         am_invalid_rejections := match o with RejectedInvalid _ => incr i | _ => i end;
         am_wrong_space_rejections := match o with RejectedWrongSpace => incr w | _ => w end |}
  end.

Definition count_expired (m : AdmissionMetrics) : AdmissionMetrics :=
  {| am_accepted := am_accepted m; am_duplicates := am_duplicates m; am_expired := incr (am_expired m);
     am_capacity_rejections := am_capacity_rejections m;
     am_source_quota_rejections := am_source_quota_rejections m;
     am_invalid_rejections := am_invalid_rejections m;
     am_wrong_space_rejections := am_wrong_space_rejections m |}.

Section Pool.
Context `{CandidateEnv Json}.
Implicit Types (p : CandidatePool Json) (c : WorkspaceCandidate Json) (now : MonoTime).

(** [BTreeMap::values]: in the order of the keys. *)
Definition by_key (a b : ContentId * WorkspaceCandidate Json) : Prop := a.1 ≤ b.1.

#[global] Instance by_key_dec : RelDecision by_key.
Proof. intros a b. unfold by_key. apply _. Defined.

Definition entries (m : gmap ContentId (WorkspaceCandidate Json)) : list (ContentId * WorkspaceCandidate Json) :=
  sort_by by_key (map_to_list m).

Definition pending p : list (WorkspaceCandidate Json) := (entries (cp_candidates p)).*2.

Definition set_tables candidates fingerprints p : CandidatePool Json :=
  {| cp_space := cp_space p; cp_config := cp_config p; cp_candidates := candidates;
     cp_fingerprints := fingerprints; cp_selected_fingerprints := cp_selected_fingerprints p;
     cp_recent_sources := cp_recent_sources p; cp_admission_metrics := cp_admission_metrics p;
     cp_selection_metrics := cp_selection_metrics p |}.

Definition on_admissions (f : AdmissionMetrics → AdmissionMetrics) p : CandidatePool Json :=
  {| cp_space := cp_space p; cp_config := cp_config p; cp_candidates := cp_candidates p;
     cp_fingerprints := cp_fingerprints p; cp_selected_fingerprints := cp_selected_fingerprints p;
     cp_recent_sources := cp_recent_sources p; cp_admission_metrics := f (cp_admission_metrics p);
     cp_selection_metrics := cp_selection_metrics p |}.

Definition on_selections (f : SelectionMetrics → SelectionMetrics) p : CandidatePool Json :=
  {| cp_space := cp_space p; cp_config := cp_config p; cp_candidates := cp_candidates p;
     cp_fingerprints := cp_fingerprints p; cp_selected_fingerprints := cp_selected_fingerprints p;
     cp_recent_sources := cp_recent_sources p; cp_admission_metrics := cp_admission_metrics p;
     cp_selection_metrics := f (cp_selection_metrics p) |}.

Definition set_history selected recent p : CandidatePool Json :=
  {| cp_space := cp_space p; cp_config := cp_config p; cp_candidates := cp_candidates p;
     cp_fingerprints := cp_fingerprints p; cp_selected_fingerprints := selected; cp_recent_sources := recent;
     cp_admission_metrics := cp_admission_metrics p; cp_selection_metrics := cp_selection_metrics p |}.

Definition new (space : AgoraSpaceId) (config : CandidatePoolConfig) : Result string (CandidatePool Json) :=
  need (negb (is_blank space)) "candidate pool space is empty" ;;
  config_validate config ;;
  Ok {| cp_space := space; cp_config := config; cp_candidates := ∅; cp_fingerprints := ∅;
        cp_selected_fingerprints := ∅; cp_recent_sources := []; cp_admission_metrics := no_admissions;
        cp_selection_metrics := no_selections |}.

(** ** Expiry *)

Definition expire_one (id : ContentId) p : CandidatePool Json :=
  match cp_candidates p !! id with
  | Some c =>
      on_admissions count_expired
        (set_tables (delete id (cp_candidates p))
           (match content_fingerprint c with
            | Ok fingerprint => delete fingerprint (cp_fingerprints p)
            | _ => cp_fingerprints p
            end) p)
  | None => p
  end.

Definition expired p now : list ContentId :=
  (filter (λ e, is_expired_at e.2 now = true) (entries (cp_candidates p))).*1.

Definition expire now p : CandidatePool Json := foldl (λ p id, expire_one id p) p (expired p now).

(** ** Admission *)

Definition of_source (source : ProcessId) p : N :=
  count (filter (λ c, wc_source c = source) (pending p)).

(** The checks of [admit] after the expiry, in order. *)
Definition judge c now p : Result string AdmissionOutcome :=
  if negb (bool_decide (wc_space c = cp_space p)) then Ok RejectedWrongSpace
  else match validate c with
  | Err error => Ok (RejectedInvalid error)
  | Panic => Panic
  | Ok _ =>
      if is_expired_at c now then Ok (RejectedInvalid "candidate already expired")
      else match content_fingerprint c with
      | Err error => Ok (RejectedInvalid error)
      | Panic => Panic
      | Ok fingerprint =>
          match cp_fingerprints p !! fingerprint with
          | Some existing => Ok (Duplicate existing)
          | None =>
              if pc_per_source_capacity (cp_config p) <=? of_source (wc_source c) p
              then Ok (RejectedSourceQuota (wc_source c))
              else if pc_capacity (cp_config p) <=? N.of_nat (size (cp_candidates p)) then Ok RejectedCapacity
              else match cp_candidates p !! wc_id c with
              | Some _ => Ok (RejectedInvalid "candidate id already exists")
              | None => Ok (Accepted (wc_id c))
              end
          end
      end
  end.

(** The two insertions of an accepted candidate. *)
Definition insert_candidate c p : Result string (CandidatePool Json) :=
  fingerprint ← content_fingerprint c;
  Ok (set_tables (<[wc_id c := c]> (cp_candidates p)) (<[fingerprint := wc_id c]> (cp_fingerprints p)) p).

(** [admit] *)
Definition admit_ c now p : Result string (AdmissionOutcome * CandidatePool Json) :=
  let p := expire now p in
  outcome ← judge c now p;
  p' ← match outcome with Accepted _ => insert_candidate c p | _ => Ok p end;
  Ok (outcome, on_admissions (count_outcome outcome) p').

(** ** Selection *)

Definition dot (vals weights : SalienceVector) : F64 :=
  f64_sum (zip_with (λ value weight, f64_mul (f64_from value) (f64_from weight)) (values vals) (values weights)).

(** [iter.rev().take_while(|winner| winner == source).count()] *)
Fixpoint leading (source : ProcessId) (l : list ProcessId) : N :=
  match l with
  | winner :: rest => if decide (winner = source) then 1 + leading source rest else 0
  | [] => 0
  end.

Definition consecutive_wins (source : ProcessId) p : N := leading source (reverse (cp_recent_sources p)).

Definition alternative_sources p : bool :=
  1 <? N.of_nat (size (list_to_set (wc_source <$> pending p) : gset ProcessId)).

Definition refractory c p : bool :=
  alternative_sources p
  && (sp_max_consecutive_source_wins (pc_policy (cp_config p)) <=? consecutive_wins (wc_source c) p).

Definition pending_dependencies c p : list ContentId :=
  filter (λ id, is_Some (cp_candidates p !! id)) (wc_dependencies c).

(** The score of one candidate; [expect] on its fingerprint. *)
Definition score now p c : Result string (CandidateScore * MonoTime) :=
  let policy := pc_policy (cp_config p) in
  fingerprint ← match content_fingerprint c with Ok f => Ok f | _ => Panic end;
  let salience := dot (wc_salience c) (sp_weights policy) in
  let aging_boost := f64_mul (f64_of_N (saturating_sub now (wc_created_at c))) (sp_aging_per_ms policy) in
  let dependency_boost :=
    f64_mul (f64_of_N (count (pending_dependencies c p))) (sp_unresolved_dependency_boost policy) in
  let repetition_penalty :=
    f64_mul (f64_of_N (default 0 (cp_selected_fingerprints p !! fingerprint))) (sp_repetition_penalty policy) in
  let refractory_penalty := if refractory c p then sp_refractory_penalty policy else S754_zero false in
  Ok ({| cs_id := wc_id c; cs_source := wc_source c; cs_salience := salience; cs_aging_boost := aging_boost;
         cs_dependency_boost := dependency_boost; cs_repetition_penalty := repetition_penalty;
         cs_refractory_penalty := refractory_penalty;
         cs_total := f64_sub (f64_sub (f64_add (f64_add salience aging_boost) dependency_boost)
                                repetition_penalty) refractory_penalty |}, wc_created_at c).

(** The comparison of [sort_by]: the greater total first, then the older
    candidate, then the smaller identifier. *)
Definition precedes (a b : CandidateScore * MonoTime) : Prop :=
  (total_le (cs_total b.1) (cs_total a.1) ∧ cs_total a.1 ≠ cs_total b.1)
  ∨ cs_total a.1 = cs_total b.1
    ∧ (a.2 < b.2 ∨ a.2 = b.2 ∧ cs_id a.1 ≤ cs_id b.1).

#[global] Instance precedes_dec : RelDecision precedes.
Proof. intros a b. unfold precedes. apply _. Defined.

(** [score.total >= ignition_threshold] *)
Definition ignites p (s : CandidateScore * MonoTime) : bool :=
  SFleb (sp_ignition_threshold (pc_policy (cp_config p))) (cs_total s.1).

Definition below p (s : CandidateScore * MonoTime) : bool :=
  SFltb (cs_total s.1) (sp_ignition_threshold (pc_policy (cp_config p))).

(** The winner's pending dependencies, sorted and without repetitions, as many
    as the coalition has room for. *)
Definition coalition p (winner : ContentId) : list ContentId :=
  match cp_candidates p !! winner with
  | Some c => take (N.to_nat (pc_max_coalition (cp_config p) - 1)) (dedup (sort_by N.le (pending_dependencies c p)))
  | None => []
  end.

Definition selected_ids p (scored : list (CandidateScore * MonoTime)) : list ContentId :=
  match scored with
  | winner :: _ => if ignites p winner then cs_id winner.1 :: coalition p (cs_id winner.1) else []
  | [] => []
  end.

Definition count_cycle (m : SelectionMetrics) : SelectionMetrics :=
  {| sm_cycles := incr (sm_cycles m); sm_ignitions := sm_ignitions m; sm_below_threshold := sm_below_threshold m;
     sm_refractory_applications := sm_refractory_applications m;
     sm_aging_applications := sm_aging_applications m;
     sm_selections_by_source := sm_selections_by_source m |}.

Definition explain p (scored : list (CandidateScore * MonoTime)) : SelectionResult Json :=
  let ids := selected_ids p scored in
  {| sr_selected := omap (λ id, cp_candidates p !! id) ids;
     sr_explanation :=
       {| se_policy_version := sp_version (pc_policy (cp_config p)); se_evaluated := scored.*1;
          se_selected_ids := ids;
          se_rejected_below_ignition := cs_id <$> (filter (λ s, below p s = true) scored).*1 |} |}.

Definition select now p : Result string (SelectionResult Json * CandidatePool Json) :=
  let p := on_selections count_cycle (expire now p) in
  scored ← mapM (score now p) (pending p);
  Ok (explain p (sort_by precedes scored), p).

(** ** After a selection *)

Definition validate_selected p c : Result string unit :=
  stored ← some_or (cp_candidates p !! wc_id c) "selected candidate is no longer pending";
  have ← content_fingerprint stored;
  want ← content_fingerprint c;
  need (bool_decide (have = want)) "selected candidate changed".

Definition validate_selection p (r : SelectionResult Json) : Result string unit :=
  need (negb (is_nil (sr_selected r))) "cannot finalize an empty selection" ;;
  need (bool_decide (se_selected_ids (sr_explanation r) = wc_id <$> sr_selected r))
    "selection result IDs do not match candidates" ;;
  each (sr_selected r) (validate_selected p).

Definition consume c : M (CandidatePool Json) string unit :=
  fingerprint ← (λ p n, (content_fingerprint c, p, n));
  modify (λ p, set_history (<[fingerprint := incr32 (default 0 (cp_selected_fingerprints p !! fingerprint))]>
                              (cp_selected_fingerprints p)) (cp_recent_sources p) p) ;;
  modify (λ p, set_tables (delete (wc_id c) (cp_candidates p)) (delete fingerprint (cp_fingerprints p)) p).

(** [x > 0.0] *)
Definition positive_f64 (x : F64) : bool := SFltb (S754_zero false) x.

Definition count_ignition (r : SelectionResult Json) (source : ProcessId) (m : SelectionMetrics) : SelectionMetrics :=
  let positives f := count (filter (λ s, positive_f64 (f s) = true) (se_evaluated (sr_explanation r))) in
  {| sm_cycles := sm_cycles m; sm_ignitions := incr (sm_ignitions m);
     sm_below_threshold := sm_below_threshold m;
     sm_refractory_applications := wrapping_add (sm_refractory_applications m) (positives cs_refractory_penalty);
     sm_aging_applications := wrapping_add (sm_aging_applications m) (positives cs_aging_boost);
     sm_selections_by_source :=
       <[source := incr (default 0 (sm_selections_by_source m !! source))]> (sm_selections_by_source m) |}.

(** [push_back], then [pop_front] while there are more than [limit]. *)
Definition push_recent (source : ProcessId) (limit : N) (l : list ProcessId) : list ProcessId :=
  drop (length (l ++ [source]) - N.to_nat limit) (l ++ [source]).

Definition finalize_selection (r : SelectionResult Json) : M (CandidatePool Json) string unit :=
  (λ p n, (validate_selection p r, p, n)) ;;
  match sr_selected r with
  | [] => panic
  | primary :: _ =>
      for_each (sr_selected r) consume ;;
      modify (on_selections (count_ignition r (wc_source primary))) ;;
      modify (λ p, set_history (cp_selected_fingerprints p)
                     (push_recent (wc_source primary) (sp_max_consecutive_source_wins (pc_policy (cp_config p)))
                        (cp_recent_sources p)) p)
  end.

Definition count_below (m : SelectionMetrics) : SelectionMetrics :=
  {| sm_cycles := sm_cycles m; sm_ignitions := sm_ignitions m;
     sm_below_threshold := incr (sm_below_threshold m);
     sm_refractory_applications := sm_refractory_applications m;
     sm_aging_applications := sm_aging_applications m;
     sm_selections_by_source := sm_selections_by_source m |}.

Definition record_no_ignition (r : SelectionResult Json) p : Result string (CandidatePool Json) :=
  need (is_nil (sr_selected r)) "selection already ignited" ;;
  Ok (on_selections count_below p).

Definition with_salience (s : SalienceVector) c : WorkspaceCandidate Json :=
  {| wc_schema_version := wc_schema_version c; wc_id := wc_id c; wc_space := wc_space c;
     wc_source := wc_source c; wc_turn := wc_turn c; wc_content := wc_content c;
     wc_confidence := wc_confidence c; wc_salience := s; wc_provenance := wc_provenance c;
     wc_visibility := wc_visibility c; wc_dependencies := wc_dependencies c; wc_created_at := wc_created_at c;
     wc_expires_at := wc_expires_at c |}.

Definition update_salience (id : ContentId) (s : SalienceVector) p : Result string (CandidatePool Json) :=
  salience_validate s ;;
  c ← some_or (cp_candidates p !! id) "candidate is no longer pending";
  Ok (set_tables (<[id := with_salience s c]> (cp_candidates p)) (cp_fingerprints p) p).

End Pool.

End Competition.
