(* ===== verification/CompetitionSpec.v ===== *)
(** * The competition: bounds of the pool and the selection

    The invariant of the pool, that every operation keeps it and none panics, and
    what a selection and its finalization do. *)
From S2P Require Import Prelude FabricTypes StdModel Fallible StdFloat Candidate Competition.
Import Candidate Competition.

#[local] Open Scope N_scope.

Section Spec.
Context `{CandidateEnv Json}.
Implicit Types (p : CandidatePool Json) (c : WorkspaceCandidate Json) (m : gmap ContentId (WorkspaceCandidate Json)).

(** ** Iteration in key order *)

Lemma entries_perm m : entries m ≡ₚ map_to_list m.
Proof. apply sort_by_perm. Qed.

Lemma elem_of_pending p c : c ∈ pending p ↔ ∃ id, cp_candidates p !! id = Some c.
Proof.
  unfold pending. rewrite list_elem_of_fmap. split.
  - intros ([id c'] & -> & Hin). rewrite entries_perm in Hin. apply elem_of_map_to_list in Hin. eauto.
  - intros [id Hid%elem_of_map_to_list]. exists (id, c). by rewrite entries_perm.
Qed.

Lemma length_pending p : length (pending p) = size (cp_candidates p).
Proof. unfold pending. by rewrite length_fmap, entries_perm, length_map_to_list. Qed.

Definition sourced (s : ProcessId) m : nat := length (filter (λ c, wc_source c = s) (map_to_list m).*2).

Lemma of_source_sourced s p : of_source s p = N.of_nat (sourced s (cp_candidates p)).
Proof. unfold of_source, pending, sourced, count. by rewrite entries_perm. Qed.

Lemma sourced_insert s m id c : m !! id = None →
  sourced s (<[id := c]> m) = ((if decide (wc_source c = s) then 1 else 0) + sourced s m)%nat.
Proof.
  intros Hid. unfold sourced. rewrite map_to_list_insert by done. cbn [fmap list_fmap].
  rewrite filter_cons. cbn [snd]. by destruct (decide (wc_source c = s)).
Qed.

Lemma sourced_delete s m id : (sourced s (delete id m) ≤ sourced s m)%nat.
Proof.
  destruct (m !! id) as [c|] eqn:Hid; [|by rewrite delete_id].
  rewrite <-(insert_delete_id m id c Hid) at 2. rewrite sourced_insert by apply lookup_delete_eq.
  case_decide; lia.
Qed.

Lemma sourced_update s m id c c' : m !! id = Some c → wc_source c' = wc_source c →
  sourced s (<[id := c']> m) = sourced s m.
Proof.
  intros Hid Hs. rewrite <-insert_delete_eq, <-(insert_delete_id m id c Hid) at 1.
  rewrite delete_insert_id, !sourced_insert by apply lookup_delete_eq. rewrite Hs.
  rewrite <-(insert_delete_id m id c Hid) at 2. by rewrite sourced_insert by apply lookup_delete_eq.
Qed.

(** ** The invariant *)

(** Each pending candidate is valid, of this space, under its own identifier,
    and the index of fingerprints leads to it; the index holds nothing else. *)
Record tables_ok (space : AgoraSpaceId) m (index : gmap string ContentId) : Prop := {
  tb_candidate : ∀ id c, m !! id = Some c → wc_id c = id ∧ wc_space c = space ∧ validate c = Ok tt;
  tb_indexed : ∀ id c, m !! id = Some c → ∃ f, content_fingerprint c = Ok f ∧ index !! f = Some id;
  tb_index : ∀ f id, index !! f = Some id → ∃ c, m !! id = Some c ∧ content_fingerprint c = Ok f;
}.

Record bounded (cfg : CandidatePoolConfig) m : Prop := {
  bd_capacity : N.of_nat (size m) ≤ pc_capacity cfg;
  bd_quota : ∀ s, N.of_nat (sourced s m) ≤ pc_per_source_capacity cfg;
}.

Record pool_inv p : Prop := {
  pi_config : config_validate (cp_config p) = Ok tt;
  pi_tables : tables_ok (cp_space p) (cp_candidates p) (cp_fingerprints p);
  pi_bounded : bounded (cp_config p) (cp_candidates p);
  pi_recent : count (cp_recent_sources p) ≤ sp_max_consecutive_source_wins (pc_policy (cp_config p));
}.

(** Two pending candidates never have the same content. *)
Lemma tables_dedup space m index id id' c c' f :
  tables_ok space m index → m !! id = Some c → m !! id' = Some c' →
  content_fingerprint c = Ok f → content_fingerprint c' = Ok f → id = id'.
Proof.
  intros Ht Hc Hc' Hf Hf'. destruct (tb_indexed _ _ _ Ht _ _ Hc) as (g & ? & ?).
  destruct (tb_indexed _ _ _ Ht _ _ Hc') as (g' & ? & ?). congruence.
Qed.

Lemma tables_remove space m index id c f :
  tables_ok space m index → m !! id = Some c → content_fingerprint c = Ok f →
  tables_ok space (delete id m) (delete f index).
Proof.
  intros Ht Hc Hf. split.
  - intros id' c' [? ?]%lookup_delete_Some. by eapply tb_candidate.
  - intros id' c' [Hne Hc']%lookup_delete_Some. destruct (tb_indexed _ _ _ Ht _ _ Hc') as (g & Hg & Hi).
    exists g. split; [done|]. rewrite lookup_delete_ne; [done|]. intros ->. by eapply Hne, tables_dedup.
  - intros g id' [Hne Hi]%lookup_delete_Some. destruct (tb_index _ _ _ Ht _ _ Hi) as (c' & Hc' & Hg).
    exists c'. split; [|done]. rewrite lookup_delete_ne; [done|]. intros ->. congruence.
Qed.

Lemma tables_insert space m index c f :
  tables_ok space m index → m !! wc_id c = None → index !! f = None → wc_space c = space →
  validate c = Ok tt → content_fingerprint c = Ok f →
  tables_ok space (<[wc_id c := c]> m) (<[f := wc_id c]> index).
Proof.
  intros Ht Hid Hf Hs Hv Hfp. split.
  - intros id' c' [[<- <-]|[? ?]]%lookup_insert_Some; [done|by eapply tb_candidate].
  - intros id' c' [[<- <-]|[Hne Hc']]%lookup_insert_Some.
    + exists f. by rewrite lookup_insert_eq.
    + destruct (tb_indexed _ _ _ Ht _ _ Hc') as (g & Hg & Hi). exists g. split; [done|].
      rewrite lookup_insert_ne; [done|]. intros ->. congruence.
  - intros g id' [[<- <-]|[Hne Hi]]%lookup_insert_Some.
    + exists c. by rewrite lookup_insert_eq.
    + destruct (tb_index _ _ _ Ht _ _ Hi) as (c' & Hc' & Hg). exists c'. split; [|done].
      rewrite lookup_insert_ne; [done|]. intros Heq. rewrite Heq in Hid. congruence.
Qed.

Lemma bounded_remove cfg m id : bounded cfg m → bounded cfg (delete id m).
Proof.
  intros [Hc Hq]. split.
  - etrans; [|exact Hc]. rewrite map_size_delete. destruct (m !! id); cbn; lia.
  - intros s. specialize (Hq s). pose proof (sourced_delete s m id). lia.
Qed.

(** A step that changes nothing the invariant speaks of. *)
Lemma pool_inv_same p p' :
  pool_inv p → cp_space p' = cp_space p → cp_config p' = cp_config p →
  cp_candidates p' = cp_candidates p → cp_fingerprints p' = cp_fingerprints p →
  cp_recent_sources p' = cp_recent_sources p → pool_inv p'.
Proof. intros [] Hs Hc Hm Hi Hr. split; by rewrite ?Hs, ?Hc, ?Hm, ?Hi, ?Hr. Qed.

(** ** Expiry *)

Lemma expire_one_inv id p : pool_inv p → pool_inv (expire_one id p).
Proof.
  intros Hp. unfold expire_one. destruct (cp_candidates p !! id) as [c|] eqn:Hc; [|done].
  destruct (tb_indexed _ _ _ (pi_tables _ Hp) _ _ Hc) as (f & Hf & _). rewrite Hf.
  destruct Hp as [? ? ? ?]. split; cbn; eauto using tables_remove, bounded_remove.
Qed.

Lemma expire_inv now p : pool_inv p → pool_inv (expire now p).
Proof.
  unfold expire. generalize (expired p now) as l. intros l. revert p.
  induction l; cbn; eauto using expire_one_inv.
Qed.

Lemma expire_fields now p :
  cp_space (expire now p) = cp_space p ∧ cp_config (expire now p) = cp_config p
  ∧ cp_recent_sources (expire now p) = cp_recent_sources p
  ∧ cp_selected_fingerprints (expire now p) = cp_selected_fingerprints p.
Proof.
  unfold expire. generalize (expired p now) as l. intros l. revert p. induction l as [|id l IH]; intros p; [done|].
  cbn. destruct (IH (expire_one id p)) as (-> & -> & -> & ->). unfold expire_one. by case_match.
Qed.

Lemma foldl_expire l p id :
  cp_candidates (foldl (λ p id, expire_one id p) p l) !! id =
  if decide (id ∈ l) then None else cp_candidates p !! id.
Proof.
  revert p. induction l as [|k l IH]; intros p; [done|]. cbn [foldl]. rewrite IH.
  assert (cp_candidates (expire_one k p) = delete k (cp_candidates p)) as ->.
  { unfold expire_one. destruct (cp_candidates p !! k) eqn:E; [done|]. by rewrite delete_id. }
  destruct (decide (id ∈ l)); [by rewrite decide_True by set_solver|].
  destruct (decide (id = k)) as [->|]; [rewrite lookup_delete_eq, decide_True by set_solver; done|].
  rewrite lookup_delete_ne, decide_False by set_solver. done.
Qed.

(** The pending candidates are those that have not expired. *)
Lemma expire_lookup now p id c :
  cp_candidates (expire now p) !! id = Some c ↔ cp_candidates p !! id = Some c ∧ is_expired_at c now = false.
Proof.
  unfold expire. rewrite foldl_expire.
  assert (id ∈ expired p now ↔ ∃ c, cp_candidates p !! id = Some c ∧ is_expired_at c now = true) as Hin.
  { unfold expired. rewrite list_elem_of_fmap. split.
    - intros ([id' c'] & -> & [He Hin]%list_elem_of_filter). rewrite entries_perm in Hin.
      apply elem_of_map_to_list in Hin. eauto.
    - intros (c' & Hc' & He). exists (id, c'). split; [done|]. apply list_elem_of_filter.
      rewrite entries_perm. split; [done|by apply elem_of_map_to_list]. }
  case_decide as Hd.
  - apply Hin in Hd as (c' & Hc' & He). split; [done|]. intros [? ?]. congruence.
  - split; [intros Hc|tauto]. split; [done|]. destruct (is_expired_at c now) eqn:He; [|done].
    destruct Hd. apply Hin. eauto.
Qed.

(** ** Validation cannot panic *)

Lemma calm_answer {A} (a : string + A) : calm (answer a).
Proof. by destruct a. Qed.

Lemma candidate_validate_calm c : calm (validate c).
Proof.
  unfold validate, salience_validate, validate_content, Payload.result_validate, Payload.artifact_validate,
    Payload.ensure_text, Payload.ensure_count. solve_calm; apply calm_answer.
Qed.

Lemma fingerprint_calm c : calm (content_fingerprint c).
Proof. apply calm_answer. Qed.

#[local] Hint Resolve calm_answer candidate_validate_calm fingerprint_calm : aletheon.

(** ** Admission *)

(** The verdict on a candidate and what an acceptance has checked. *)
Lemma judge_spec c now p : ∃ o, judge c now p = Ok o ∧ ∀ id, o = Accepted id →
  id = wc_id c ∧ wc_space c = cp_space p ∧ validate c = Ok tt ∧ is_expired_at c now = false
  ∧ of_source (wc_source c) p < pc_per_source_capacity (cp_config p)
  ∧ N.of_nat (size (cp_candidates p)) < pc_capacity (cp_config p) ∧ cp_candidates p !! wc_id c = None
  ∧ ∃ f, content_fingerprint c = Ok f ∧ cp_fingerprints p !! f = None.
Proof.
  unfold judge. destruct (bool_decide (wc_space c = cp_space p)) eqn:Hs; cbn [negb]; [|eauto with congruence].
  apply bool_decide_eq_true in Hs. pose proof (candidate_validate_calm c) as Hcalm.
  destruct (validate c) as [[]|error|] eqn:Hv; [|by eexists|done].
  destruct (is_expired_at c now) eqn:He; [by eexists|].
  pose proof (fingerprint_calm c). destruct (content_fingerprint c) as [f|error|] eqn:Hf; [|by eexists|done].
  destruct (cp_fingerprints p !! f) eqn:Hi; [by eexists|].
  destruct (N.leb_spec (pc_per_source_capacity (cp_config p)) (of_source (wc_source c) p)); [by eexists|].
  destruct (N.leb_spec (pc_capacity (cp_config p)) (N.of_nat (size (cp_candidates p)))); [by eexists|].
  destruct (cp_candidates p !! wc_id c) eqn:Hid; [by eexists|]. eexists. split; [done|].
  intros id [= <-]. eauto 15.
Qed.

Lemma admit_inv c now p : pool_inv p → ∃ o p', admit_ c now p = Ok (o, p') ∧ pool_inv p'.
Proof.
  intros Hp%(expire_inv now). unfold admit_. destruct (judge_spec c now (expire now p)) as (o & Ho & Hacc).
  rewrite Ho. cbn. destruct o; try (do 2 eexists; split; [done|by eapply pool_inv_same]).
  destruct (Hacc _ eq_refl) as (-> & Hs & Hv & _ & Hq & Hc & Hid & f & Hf & Hi).
  unfold insert_candidate. rewrite Hf. cbn. do 2 eexists. split; [done|].
  destruct Hp as [Hcfg Ht Hb Hr]. split; cbn; [done|by apply tables_insert| |done]. split.
  - rewrite map_size_insert_None by done. lia.
  - intros s. rewrite sourced_insert by done. pose proof (bd_quota _ _ Hb s).
    rewrite of_source_sourced in Hq. case_decide; subst; lia.
Qed.

(** ** Scoring *)

Lemma score_total now p c : pool_inv p → c ∈ pending p → ∃ s, score now p c = Ok (s, wc_created_at c) ∧ cs_id s = wc_id c.
Proof.
  intros Hp [id Hid]%elem_of_pending. destruct (tb_indexed _ _ _ (pi_tables _ Hp) _ _ Hid) as (f & Hf & _).
  unfold score. rewrite Hf. cbn. eauto.
Qed.

Lemma mapM_total {A B} (f : A → Result string B) l :
  (∀ x, x ∈ l → ∃ y, f x = Ok y) → ∃ ys, mapM f l = Ok ys ∧ Forall2 (λ x y, f x = Ok y) l ys.
Proof.
  induction l as [|x l IH]; intros Hl; [by exists []|].
  destruct (Hl x) as [y Hy]; [constructor|]. destruct IH as (ys & Hys & Hf); [intros; apply Hl; by constructor|].
  exists (y :: ys). cbn. rewrite Hy. cbn. rewrite Hys. split; [done|by constructor].
Qed.

(** A pool's scores, before they are sorted. *)
Definition scores now p (l : list (CandidateScore * MonoTime)) : Prop :=
  Forall2 (λ c s, score now p c = Ok s) (pending p) l.

Lemma scores_exist now p : pool_inv p → ∃ l, mapM (score now p) (pending p) = Ok l ∧ scores now p l.
Proof. intros Hp. apply mapM_total. intros c Hc. destruct (score_total now p c Hp Hc) as (s & ? & _). eauto. Qed.

#[local] Instance precedes_trans : Transitive precedes.
Proof.
  intros [a ta] [b tb] [c tc]. unfold precedes; cbn.
  intros [[Hba Hne]|[Hab Ht]] [[Hcb Hne']|[Hbc Ht']].
  - left. split; [by etrans|]. intros Hac. rewrite Hac in Hba. apply Hne'. by apply (anti_symm total_le).
  - left. by rewrite <-Hbc.
  - left. by rewrite Hab.
  - right. split; [congruence|]. lia.
Qed.

#[local] Instance precedes_total : Total precedes.
Proof.
  intros [a ta] [b tb]. unfold precedes; cbn. destruct (decide (cs_total a = cs_total b)) as [->|Hne].
  - destruct (N.lt_total ta tb) as [|[->|]]; [tauto| |tauto].
    destruct (N.le_ge_cases (cs_id a) (cs_id b)); tauto.
  - destruct (total total_le (cs_total a) (cs_total b)); [right|left]; left; auto.
Qed.

#[local] Instance precedes_refl : Reflexive precedes.
Proof. intros [a ta]. unfold precedes. right. split; [done|]. right. split; [done|]. lia. Qed.

(** ** The selection *)

Lemma elem_of_scores now p l s : scores now p l → s ∈ l ↔ ∃ c, c ∈ pending p ∧ score now p c = Ok s.
Proof.
  intros Hl. split.
  - intros [k Hk]%list_elem_of_lookup. destruct (Forall2_lookup_r _ _ _ _ _ Hl Hk) as (c & Hc & ?).
    exists c. split; [|done]. by eapply list_elem_of_lookup_2.
  - intros (c & [k Hk]%list_elem_of_lookup & Hs). destruct (Forall2_lookup_l _ _ _ _ _ Hl Hk) as (s' & Hk' & ?).
    assert (s = s') as -> by congruence. by eapply list_elem_of_lookup_2.
Qed.

Lemma elem_of_coalition p w c id :
  cp_candidates p !! w = Some c → id ∈ coalition p w → id ∈ wc_dependencies c ∧ is_Some (cp_candidates p !! id).
Proof.
  unfold coalition. intros -> Hin. apply elem_of_take in Hin as (k & Hk & _).
  apply list_elem_of_lookup_2 in Hk. rewrite elem_of_dedup, sort_by_perm in Hk.
  apply list_elem_of_filter in Hk. tauto.
Qed.

Lemma NoDup_coalition p w : NoDup (coalition p w).
Proof.
  unfold coalition. destruct (cp_candidates p !! w) as [c|]; [|constructor].
  eapply sublist_NoDup; [apply (dedup_NoDup N.le), sort_by_sorted; [intros ???; lia|intros ??; lia]|].
  apply sublist_take.
Qed.

Lemma length_coalition p w : (length (coalition p w) ≤ N.to_nat (pc_max_coalition (cp_config p) - 1))%nat.
Proof. unfold coalition. destruct (cp_candidates p !! w); [rewrite length_take|cbn [length]]; lia. Qed.

(** A candidate is not among its own dependencies. *)
Lemma validate_no_self c : validate c = Ok tt → wc_id c ∉ wc_dependencies c.
Proof. unfold validate. intros Hv. inv_ok Hv. checks. done. Qed.

Lemma config_coalition cfg : config_validate cfg = Ok tt → 1 ≤ pc_max_coalition cfg.
Proof. unfold config_validate. intros Hv. inv_ok Hv. rewrite !andb_true_iff, !N.leb_le in *. lia. Qed.

(** What is selected: the first of the sorted scores, if it reaches the
    threshold, and pending dependencies of it. *)
Record selection p (scored : list (CandidateScore * MonoTime)) (r : SelectionResult Json)
    (w : WorkspaceCandidate Json) (rest : list (WorkspaceCandidate Json)) : Prop := {
  sl_ids : se_selected_ids (sr_explanation r) = wc_id <$> w :: rest;
  sl_winner : ∃ s l, scored = s :: l ∧ cs_id s.1 = wc_id w ∧ ignites p s = true;
  sl_pending : ∀ c, c ∈ w :: rest → cp_candidates p !! wc_id c = Some c;
  sl_NoDup : NoDup (wc_id <$> w :: rest);
  sl_coalition : count (w :: rest) ≤ pc_max_coalition (cp_config p);
  sl_dependencies : ∀ c, c ∈ rest → wc_id c ∈ wc_dependencies w;
}.

Lemma omap_pending p (ids : list ContentId) :
  pool_inv p → (∀ id, id ∈ ids → is_Some (cp_candidates p !! id)) →
  wc_id <$> omap (λ id, cp_candidates p !! id) ids = ids
  ∧ ∀ c, c ∈ omap (λ id, cp_candidates p !! id) ids → cp_candidates p !! wc_id c = Some c.
Proof.
  intros Hp Hids. assert (∀ id c, cp_candidates p !! id = Some c → wc_id c = id) as Hid.
  { intros id c Hc. apply (tb_candidate _ _ _ (pi_tables _ Hp) _ _ Hc). }
  split.
  - induction ids as [|id ids IH]; [done|]. destruct (Hids id) as [c Hc]; [constructor|].
    cbn. rewrite Hc. cbn. rewrite (Hid _ _ Hc), IH; [done|]. intros. apply Hids. by constructor.
  - intros c (id & Hin & Hc)%list_elem_of_omap. by rewrite (Hid _ _ Hc).
Qed.

Lemma explain_selected p scored w rest :
  pool_inv p → (∀ s, s ∈ scored → is_Some (cp_candidates p !! cs_id s.1)) →
  sr_selected (explain p scored) = w :: rest → selection p scored (explain p scored) w rest.
Proof.
  intros Hp Hs. destruct scored as [|s l]; [done|]. unfold explain, selected_ids. cbn [sr_selected sr_explanation].
  destruct (ignites p s) eqn:Hi; [|done]. destruct (Hs s) as [c Hc]; [constructor|].
  assert (∀ id, id ∈ cs_id s.1 :: coalition p (cs_id s.1) → is_Some (cp_candidates p !! id)) as Hids.
  { intros id [->|Hid]%elem_of_cons; [by rewrite Hc|]. by eapply elem_of_coalition in Hid as [_ ?]. }
  destruct (omap_pending p _ Hp Hids) as [Hmap Hpend]. intros Hsel. rewrite Hsel in Hmap, Hpend.
  cbn in Hsel. rewrite Hc in Hsel. injection Hsel as -> Hrest.
  destruct (tb_candidate _ _ _ (pi_tables _ Hp) _ _ Hc) as (Hw & _ & Hv).
  assert (wc_id <$> rest = coalition p (cs_id s.1)) as Hco by (by injection Hmap).
  split; cbn [se_selected_ids]; [done|by exists s, l|done| | |].
  - rewrite Hmap. constructor; [|apply NoDup_coalition]. intros Hin.
    apply (elem_of_coalition _ _ _ _ Hc) in Hin as [Hin _]. rewrite <-Hw in Hin. by apply validate_no_self in Hin.
  - assert (length rest = length (coalition p (cs_id s.1))) by (by rewrite <-Hco, length_fmap).
    pose proof (length_coalition p (cs_id s.1)). pose proof (config_coalition _ (pi_config _ Hp)).
    unfold count. cbn [length]. lia.
  - intros d Hd. apply (elem_of_coalition p _ _ _ Hc). rewrite <-Hco. by apply list_elem_of_fmap_2.
Qed.

(** ** Finalization *)

(** While the loop runs, a candidate of the rest is still pending with its
    content, or both its entries are gone. *)
Definition consumable p c : Prop :=
  ∃ f, content_fingerprint c = Ok f ∧
  ((∃ stored, cp_candidates p !! wc_id c = Some stored ∧ content_fingerprint stored = Ok f)
   ∨ cp_candidates p !! wc_id c = None ∧ cp_fingerprints p !! f = None).

Lemma consume_spec c p n :
  pool_inv p → consumable p c →
  ∃ p', consume c p n = (Ok tt, p', n) ∧ pool_inv p' ∧ cp_candidates p' = delete (wc_id c) (cp_candidates p)
        ∧ cp_recent_sources p' = cp_recent_sources p ∧ cp_config p' = cp_config p
        ∧ ∀ d, consumable p d → consumable p' d.
Proof.
  intros Hp (f & Hf & Hcase). unfold consume, mbind, M_bind. rewrite Hf. cbn. eexists. split; [done|]. cbn.
  split; [|split; [done|split; [done|split; [done|]]]].
  - destruct Hp as [? Ht Hb ?]. split; cbn; [done| |by apply bounded_remove|done].
    destruct Hcase as [(stored & Hs & Hfs)|[Hn Hi]]; [by eapply tables_remove|by rewrite !delete_id].
  - intros d (g & Hg & Hd). exists g. split; [done|]. cbn.
    destruct (decide (wc_id d = wc_id c)) as [Heq|Hne].
    + right. rewrite Heq, lookup_delete_eq. split; [done|]. destruct (decide (g = f)) as [->|Hgf]; [apply lookup_delete_eq|].
      rewrite lookup_delete_ne by done.
      destruct Hd as [(st & Hst & Hgst)|[_ ?]]; [|done]. destruct Hcase as [(st' & Hst' & ?)|[Hn ?]]; congruence.
    + rewrite lookup_delete_ne by done. destruct Hd as [?|[Hn Hg']]; [by left|right].
      split; [done|]. by rewrite lookup_delete_None; right.
Qed.

Lemma consume_all l p n :
  pool_inv p → (∀ c, c ∈ l → consumable p c) →
  ∃ p', for_each l consume p n = (Ok tt, p', n) ∧ pool_inv p'
        ∧ cp_recent_sources p' = cp_recent_sources p ∧ cp_config p' = cp_config p
        ∧ ∀ id, cp_candidates p' !! id = if decide (id ∈ wc_id <$> l) then None else cp_candidates p !! id.
Proof.
  revert p. induction l as [|c l IH]; intros p Hp Hl; [by exists p|].
  destruct (consume_spec c p n Hp) as (p1 & Hc & Hp1 & Hm & Hr & Hcfg & Hkeep); [apply Hl; constructor|].
  destruct (IH p1 Hp1) as (p2 & Hl2 & Hp2 & Hr2 & Hcfg2 & Hm2).
  { intros d Hd. apply Hkeep, Hl. by constructor. }
  exists p2. cbn. unfold mbind, M_bind. rewrite Hc, Hl2. split_and!; [done|done|congruence|congruence|].
  intros id. rewrite Hm2, Hm. destruct (decide (id ∈ wc_id <$> l)); [by rewrite decide_True by set_solver|].
  destruct (decide (id = wc_id c)) as [->|]; [by rewrite lookup_delete_eq, decide_True by set_solver|].
  by rewrite lookup_delete_ne, decide_False by set_solver.
Qed.

Lemma validated_consumable p r c :
  pool_inv p → validate_selection p r = Ok tt → c ∈ sr_selected r → consumable p c.
Proof.
  intros Hp Hv Hin. unfold validate_selection in Hv. inv_ok Hv.
  eapply Forall_forall in Hv; [|done]. unfold validate_selected in Hv. inv_ok Hv. checks. subst.
  unfold consumable. eauto 8.
Qed.

Lemma push_recent_length source limit l : count (push_recent source limit l) ≤ limit.
Proof. unfold push_recent, count. rewrite length_drop. lia. Qed.

Lemma finalize_spec r p n :
  pool_inv p → validate_selection p r = Ok tt →
  ∃ p', finalize_selection r p n = (Ok tt, p', n) ∧ pool_inv p'
        ∧ ∀ id, cp_candidates p' !! id = if decide (id ∈ wc_id <$> sr_selected r) then None
                                         else cp_candidates p !! id.
Proof.
  intros Hp Hv. destruct (consume_all (sr_selected r) p n Hp) as (p1 & Hl & Hp1 & Hr & Hcfg & Hm).
  { intros c. by apply validated_consumable. }
  unfold finalize_selection, mbind, M_bind. rewrite Hv. destruct (sr_selected r) as [|w rest] eqn:Hsel.
  - unfold validate_selection in Hv. rewrite Hsel in Hv. done.
  - rewrite Hl. cbn. eexists. split; [done|]. split; [|done].
    destruct Hp1 as [? ? ? ?]. split; cbn; [done..|]. apply push_recent_length.
Qed.

Lemma finalize_inv r p n : pool_inv p →
  ∃ res p', finalize_selection r p n = (res, p', n) ∧ res ≠ Panic ∧ pool_inv p'.
Proof.
  intros Hp. destruct (validate_selection p r) as [[]|error|] eqn:Hv.
  - destruct (finalize_spec r p n Hp Hv) as (p' & ? & ? & _). eauto.
  - exists (Err error), p. split; [|done]. unfold finalize_selection, mbind, M_bind. by rewrite Hv.
  - exfalso. revert Hv. unfold validate_selection, validate_selected. change (calm (validate_selection p r)).
    unfold validate_selection, validate_selected. solve_calm.
Qed.

(** ** Runs *)

Inductive PoolCall :=
| CallAdmit (c : WorkspaceCandidate Json) (now : MonoTime)
| CallSelect (now : MonoTime)
| CallFinalize (r : SelectionResult Json)
| CallNoIgnition (r : SelectionResult Json)
| CallSalience (id : ContentId) (s : SalienceVector).

(** The pool after a call that returned; [None] for a panic. *)
Definition settled {A} (r : Result string A) (after : A → CandidatePool Json) p : option (CandidatePool Json) :=
  match r with Ok a => Some (after a) | Err _ => Some p | Panic => None end.

Definition run_call p (call : PoolCall) : option (CandidatePool Json) :=
  match call with
  | CallAdmit c now => settled (admit_ c now p) snd p
  | CallSelect now => settled (select now p) snd p
  | CallFinalize r => match finalize_selection r p 0 with (res, p', _) => settled res (λ _, p') p' end
  | CallNoIgnition r => settled (record_no_ignition r p) id p
  | CallSalience id s => settled (update_salience id s p) (λ p', p') p
  end.

Definition run_calls p (calls : list PoolCall) : option (CandidatePool Json) :=
  foldl (λ o call, p ← o; run_call p call) (Some p) calls.

Definition cycled now p : CandidatePool Json := on_selections count_cycle (expire now p).

Lemma cycled_inv now p : pool_inv p → pool_inv (cycled now p).
Proof. intros Hp%(expire_inv now). by eapply pool_inv_same. Qed.

Lemma select_total now p : pool_inv p →
  ∃ l, select now p = Ok (explain (cycled now p) (sort_by precedes l), cycled now p) ∧ scores now (cycled now p) l.
Proof.
  intros Hp. destruct (scores_exist now (cycled now p) (cycled_inv now p Hp)) as (l & Hl & Hs).
  exists l. split; [|done]. unfold select. fold (cycled now p). by rewrite Hl.
Qed.

Lemma update_salience_inv id s p p' : pool_inv p → update_salience id s p = Ok p' → pool_inv p'.
Proof.
  intros [Hc Ht Hb Hr] Hu. unfold update_salience in Hu. inv_ok Hu. injection Hu as <-. destruct a.
  destruct (tb_candidate _ _ _ Ht _ _ Hu1) as (Hid & Hs & Hv). split; cbn; [done| | |done].
  - split.
    + intros id' c' [[<- <-]|[? ?]]%lookup_insert_Some; [|by eapply tb_candidate]. split_and!; [done..|].
      revert Hv. unfold validate. cbn. rewrite Hu0. unfold mbind, Result_bind. clear.
      repeat (case_match; try done).
    + intros id' c' [[<- <-]|[? Hc']]%lookup_insert_Some; [exact (tb_indexed _ _ _ Ht _ _ Hu1)|by eapply tb_indexed].
    + intros f id' (c' & Hc' & Hf)%(tb_index _ _ _ Ht). destruct (decide (id' = id)) as [->|Hne].
      * exists (with_salience s a0). rewrite lookup_insert_eq. split; [done|]. by assert (a0 = c') as -> by congruence.
      * exists c'. by rewrite lookup_insert_ne by done.
  - destruct Hb as [Hcap Hq]. split.
    + by rewrite map_size_insert_Some.
    + intros src. erewrite sourced_update; eauto.
Qed.

Lemma run_call_inv p call : pool_inv p → ∃ p', run_call p call = Some p' ∧ pool_inv p'.
Proof.
  intros Hp. destruct call as [c now|now|r|r|id s]; cbn.
  - destruct (admit_inv c now p Hp) as (o & p' & -> & ?). eauto.
  - destruct (select_total now p Hp) as (l & -> & _). cbn. eauto using cycled_inv.
  - destruct (finalize_inv r p 0 Hp) as (res & p' & -> & Hres & ?). exists p'. destruct res; cbn; done.
  - unfold record_no_ignition. destruct (is_nil (sr_selected r)); cbn; [|by eauto].
    eexists. split; [done|]. by eapply pool_inv_same.
  - destruct (update_salience id s p) eqn:Hu; cbn; [eauto using update_salience_inv|by eauto|].
    exfalso. revert Hu. change (calm (update_salience id s p)). unfold update_salience, salience_validate. solve_calm.
Qed.

Lemma run_calls_inv calls p : pool_inv p → ∃ p', run_calls p calls = Some p' ∧ pool_inv p'.
Proof.
  unfold run_calls. revert p. induction calls as [|call calls IH]; intros p Hp; [by exists p|]. cbn.
  destruct (run_call_inv p call Hp) as (p1 & -> & Hp1). by apply IH.
Qed.

Lemma pool_new_inv space cfg p : new space cfg = Ok p → pool_inv p.
Proof.
  unfold new. intros Hn. inv_ok Hn. destruct a0. injection Hn as <-. split; cbn; [done| | |apply N.le_0_l].
  - split; intros; simplify_map_eq.
  - split; [rewrite map_size_empty; lia|]. intros s. unfold sourced. rewrite map_to_list_empty. cbn. lia.
Qed.

(** From a new pool no sequence of calls panics, and after it the pool holds
    at most [capacity] candidates, of one source at most its quota, all of them
    valid and of this space, no two with the same content; the history of
    winners is no longer than the limit on consecutive wins. *)
Theorem pool_stays_bounded space cfg p0 calls :
  new space cfg = Ok p0 →
  ∃ p, run_calls p0 calls = Some p ∧ 
    N.of_nat (size (cp_candidates p)) ≤ pc_capacity (cp_config p) ∧
    (∀ source, of_source source p ≤ pc_per_source_capacity (cp_config p)) ∧
    (∀ id c, cp_candidates p !! id = Some c → wc_id c = id ∧ wc_space c = cp_space p ∧ validate c = Ok tt) ∧
    (∀ id id' c c' f, cp_candidates p !! id = Some c → cp_candidates p !! id' = Some c' →
       content_fingerprint c = Ok f → content_fingerprint c' = Ok f → id = id') ∧
    count (cp_recent_sources p) ≤ sp_max_consecutive_source_wins (pc_policy (cp_config p)).
Proof.
  intros Hn%pool_new_inv. destruct (run_calls_inv calls p0 Hn) as (p & Hrun & Hp). exists p.
  split; [done|]. destruct Hp as [_ Ht [Hc Hq] Hr]. split_and!; [done| |apply (tb_candidate _ _ _ Ht)| |done].
  - intros source. by rewrite of_source_sourced.
  - intros *. by eapply tables_dedup.
Qed.

(** The winner's place among the scores. *)
Lemma winner_first now p l w rest :
  pool_inv p → scores now p l → sr_selected (explain p (sort_by precedes l)) = w :: rest →
  selection p (sort_by precedes l) (explain p (sort_by precedes l)) w rest
  ∧ ∃ s, score now p w = Ok s ∧ ignites p s = true ∧ ∀ s', s' ∈ l → precedes s s'.
Proof.
  intros Hp Hl Hsel. assert (∀ s, s ∈ sort_by precedes l → ∃ c, cp_candidates p !! cs_id s.1 = Some c ∧ score now p c = Ok s) as Hs.
  { intros s Hs. rewrite sort_by_perm in Hs. apply (elem_of_scores _ _ _ _ Hl) in Hs as (c & Hc & Hs).
    destruct (score_total now p c Hp Hc) as (s' & Hs' & Hid). assert (s = (s', wc_created_at c)) as -> by congruence.
    apply elem_of_pending in Hc as [id Hc]. exists c. split; [|done]. cbn. rewrite Hid.
    by destruct (tb_candidate _ _ _ (pi_tables _ Hp) _ _ Hc) as [-> _]. }
  assert (selection p (sort_by precedes l) (explain p (sort_by precedes l)) w rest) as Hsl.
  { apply explain_selected; [done| |done]. intros s (c & -> & _)%Hs. done. }
  split; [done|]. destruct (sl_winner _ _ _ _ _ Hsl) as (s & l' & Heq & Hid & Hign). exists s.
  destruct (Hs s) as (c & Hc & Hsc); [rewrite Heq; constructor|].
  pose proof (sl_pending _ _ _ _ _ Hsl w (list_elem_of_here _ _)) as Hw. rewrite <-Hid in Hw.
  assert (c = w) as -> by congruence. split_and!; [done..|]. by apply (sort_by_head precedes) in Heq as [_ ?].
Qed.

Lemma fresh_selection_validates p scored r w rest :
  pool_inv p → sr_selected r = w :: rest → selection p scored r w rest → validate_selection p r = Ok tt.
Proof.
  intros Hp Hsel Hs. unfold validate_selection. rewrite Hsel, (sl_ids _ _ _ _ _ Hs). cbn [is_nil negb need].
  rewrite bool_decide_true by done. unfold mbind, Result_bind. cbn [need]. apply each_ok, Forall_forall.
  intros c Hc. pose proof (sl_pending _ _ _ _ _ Hs _ Hc) as Hpend.
  destruct (tb_indexed _ _ _ (pi_tables _ Hp) _ _ Hpend) as (f & Hf & _).
  unfold validate_selected. rewrite Hpend. cbn. rewrite Hf. cbn. by rewrite bool_decide_true.
Qed.

(** Without a NaN the first of the sorted scores reaches the threshold if any does. *)
Lemma ignition_iff p l :
  (∀ s, s ∈ l → is_nan (cs_total s.1) = false) →
  selected_ids p (sort_by precedes l) = [] ↔ ∀ s, s ∈ l → ignites p s = false.
Proof.
  intros Hnan. destruct (sort_by precedes l) as [|s l'] eqn:Heq; cbn.
  - split; [|done]. intros _ s Hs. rewrite <-(sort_by_perm precedes l), Heq in Hs. by apply not_elem_of_nil in Hs.
  - apply (sort_by_head precedes) in Heq as [Hin Hfirst]. split.
    + destruct (ignites p s) eqn:Hi; [done|]. intros _ s' Hs'. destruct (ignites p s') eqn:Hi'; [|done].
      rewrite <-Hi. unfold ignites in *. symmetry. eapply leb_total; [done| |by apply Hnan].
      destruct (Hfirst s' Hs') as [[? _]|[-> _]]; done.
    + intros Hall. by rewrite (Hall s Hin).
Qed.

(** In every reachable pool a selection succeeds.  It first drops the expired
    candidates.  Provided no total is NaN, something is selected exactly when
    some total reaches the ignition threshold; the winner reaches it and comes
    before every other candidate in the order of total, age and identifier.  The
    selected candidates are pending, pairwise different, no more than the
    coalition limit, and all but the winner are dependencies of it.  Finalizing
    the result right away succeeds and takes exactly them out of the pool. *)
Theorem selection_is_best space cfg p0 calls p now n :
  new space cfg = Ok p0 → run_calls p0 calls = Some p →
  ∃ r p' l, select now p = Ok (r, p') ∧ scores now p' l ∧
    (∀ id c, cp_candidates p' !! id = Some c ↔ cp_candidates p !! id = Some c ∧ is_expired_at c now = false) ∧
    ((∀ s, s ∈ l → is_nan (cs_total s.1) = false) →
     se_selected_ids (sr_explanation r) = [] ↔ ∀ s, s ∈ l → ignites p' s = false) ∧
    (∀ w rest, sr_selected r = w :: rest →
       selection p' (sort_by precedes l) r w rest
       ∧ (∃ s, score now p' w = Ok s ∧ ignites p' s = true ∧ ∀ s', s' ∈ l → precedes s s')
       ∧ ∃ p'', finalize_selection r p' n = (Ok tt, p'', n)
                ∧ ∀ id, cp_candidates p'' !! id =
                        if decide (id ∈ wc_id <$> w :: rest) then None else cp_candidates p' !! id).
Proof.
  intros Hn%pool_new_inv Hrun. destruct (run_calls_inv calls p0 Hn) as (p1 & Hrun1 & Hp).
  assert (p1 = p) as -> by congruence. destruct (select_total now p Hp) as (l & Hsel & Hl).
  exists (explain (cycled now p) (sort_by precedes l)), (cycled now p), l.
  split_and!; [done|done|intros id c; apply expire_lookup|apply ignition_iff|].
  intros w rest Hw. pose proof (cycled_inv now p Hp) as Hp'.
  destruct (winner_first now _ l w rest Hp' Hl Hw) as [Hs Hbest]. split; [done|]. split; [done|].
  destruct (finalize_spec _ _ n Hp' (fresh_selection_validates _ _ _ _ _ Hp' Hw Hs)) as (p'' & Hf & _ & Hm).
  exists p''. split; [done|]. by rewrite Hw in Hm.
Qed.

End Spec.

#[export] Hint Resolve calm_answer candidate_validate_calm fingerprint_calm : aletheon.

(** ** Examples *)

(** A digest that tells goals apart by their identifier. *)
Definition sample_candidates : CandidateEnv unit :=
  {| json_len := λ _, inr 4;
     digest := λ m, inr (match ma_content m with Goal_ g => gf_id g | _ => "" end) |}.

#[local] Existing Instance sample_candidates.

Definition flat (x : F32) : SalienceVector :=
  {| sv_urgency := x; sv_goal_relevance := x; sv_self_relevance := x; sv_novelty := x; sv_confidence := x;
     sv_prediction_error := x; sv_affect_intensity := x; sv_social_relevance := x |}.

Definition sample_candidate (id source : N) (name : string) (x : F32) (deps : list N) : WorkspaceCandidate unit :=
  {| wc_schema_version := 1; wc_id := id; wc_space := "root"; wc_source := source; wc_turn := None;
     wc_content := Goal_ {| gf_id := name; gf_summary := "a goal" |}; wc_confidence := x; wc_salience := flat x;
     wc_provenance := {| wp_producer := source; wp_operation := None; wp_source_refs := ["turn"];
                         wp_observed_at := 0%Z |};
     wc_visibility := Session; wc_dependencies := deps; wc_created_at := 10; wc_expires_at := Some 500 |}.

Definition sample_calls : list PoolCall :=
  [CallAdmit (sample_candidate 7 1 "a" (f32_lit 1 2) []) 20;
   CallAdmit (sample_candidate 8 1 "a" (f32_lit 1 2) []) 20;
   CallAdmit (sample_candidate 5 2 "b" (f32_lit 9 10) [7]) 20;
   CallAdmit (sample_candidate 9 2 "c" (f32_lit 1 10) []) 20].

Definition sample_pool : CandidatePool unit :=
  {| cp_space := "root"; cp_config := default_config; cp_candidates := ∅; cp_fingerprints := ∅;
     cp_selected_fingerprints := ∅; cp_recent_sources := []; cp_admission_metrics := no_admissions;
     cp_selection_metrics := no_selections |}.

Lemma sample_pool_new : new "root" default_config = Ok sample_pool.
Proof. vm_compute. reflexivity. Qed.

(** The duplicate of the first candidate is refused; the best candidate wins and
    brings its dependency; both leave the pool. *)
Lemma sample_selection :
  (p ← run_calls sample_pool sample_calls;
   match select 30 p with
   | Ok (r, p') =>
       match finalize_selection r p' 0 with
       | (Ok _, p'', _) => Some (wc_id <$> sr_selected r, wc_id <$> pending p, wc_id <$> pending p'')
       | _ => None
       end
   | _ => None
   end) = Some ([5; 7], [5; 7; 9], [9]).
Proof. vm_compute. reflexivity. Qed.

Lemma pool_stays_bounded_witness :
  ∃ p, run_calls sample_pool sample_calls = Some p ∧
    N.of_nat (size (cp_candidates p)) ≤ pc_capacity (cp_config p).
Proof.
  destruct (pool_stays_bounded "root" default_config sample_pool sample_calls sample_pool_new)
    as (p & Hrun & Hsize & _). eauto.
Defined.

Lemma selection_is_best_witness :
  ∃ p r p', run_calls sample_pool sample_calls = Some p ∧ select 30 p = Ok (r, p') ∧
    ∀ w rest, sr_selected r = w :: rest → count (w :: rest) ≤ pc_max_coalition (cp_config p').
Proof.
  destruct (run_calls_inv sample_calls sample_pool (pool_new_inv _ _ _ sample_pool_new)) as (p & Hrun & _).
  destruct (selection_is_best "root" default_config sample_pool sample_calls p 30 0 sample_pool_new Hrun)
    as (r & p' & l & Hsel & _ & _ & _ & Hbest).
  exists p, r, p'. split_and!; [done|done|]. intros w rest Hw. by apply (Hbest w rest Hw).
Defined.
