(* ===== verification/Broadcast.v ===== *)
(** * Broadcasts: the contract (fabric) and the durable broadcast (agora)

    The rest of fabric/src/types/workspace.rs: the broadcast made of a selection,
    what a processor receives of it and how it acknowledges it.  Serialization
    and SHA-256 are parameters; byte strings are [string]s. *)
From S2P Require Import Prelude FabricTypes StdModel Fallible StdFloat Candidate Competition.
Import Candidate.

#[local] Open Scope N_scope.

Module Broadcast.

Section Types.
Context {Json : Type}.

Record WorkspaceBroadcast := {
  bc_schema_version : N;
  bc_epoch : N;
  bc_space : AgoraSpaceId;
  bc_winner_ids : list ContentId;
  bc_contents : list (WorkspaceContent Json);
  bc_selected : list (WorkspaceCandidate Json);
  bc_selected_because : SelectionExplanation;
  bc_dasein_version : N;
  bc_workspace_version : N;
}.

Inductive BroadcastAckStatus := Responded | Delivered | Failed | TimedOut.

Record BroadcastAck := {
  ba_schema_version : N;
  ba_space : AgoraSpaceId;
  ba_epoch : N;
  ba_processor : ProcessId;
  ba_response_ids : list ContentId;
  ba_status : BroadcastAckStatus;
  ba_observed_at : WallTime;
  ba_detail : option string;
}.

Record BroadcastDelivery := {
  bd_schema_version : N;
  bd_epoch : N;
  bd_space : AgoraSpaceId;
  bd_recipient : ProcessId;
  bd_recipient_agent_root : ProcessId;
  bd_broadcast_checksum : string;
  bd_dasein_version : N;
  bd_workspace_version : N;
  bd_selected : list (WorkspaceCandidate Json);
}.

End Types.

Arguments WorkspaceBroadcast : clear implicits.
Arguments BroadcastDelivery : clear implicits.

#[global] Instance BroadcastAckStatus_eq_dec : EqDecision BroadcastAckStatus.
Proof. solve_decision. Defined.

#[global] Instance BroadcastAck_eq_dec : EqDecision BroadcastAck.
Proof. solve_decision. Defined.

(** [serde_json::to_vec], [serde_json::from_slice] and SHA-256 in hexadecimal. *)
Class BroadcastCodec (Json : Type) := {
  contents_json : list (WorkspaceContent Json) → string + string;
  broadcast_json : WorkspaceBroadcast Json → string + string;
  parse_broadcast : string → string + WorkspaceBroadcast Json;
  ack_json : BroadcastAck → string + string;
  parse_ack : string → string + BroadcastAck;
  key_json : SelectionResult Json → N → N → string + string;
  sha256 : string → string;
}.

Section Operations.
Context `{CandidateEnv Json} `{BroadcastCodec Json}.

(** [sort], [dedup], and the comparison of the lengths. *)
Definition distinct (ids : list ContentId) : bool :=
  bool_decide (length (dedup (sort_by N.le ids)) = length ids).

Definition broadcast_validate (b : WorkspaceBroadcast Json) : Result string unit :=
  need (bc_schema_version b =? WORKSPACE_SCHEMA_V1) "unsupported workspace broadcast schema" ;;
  need (0 <? bc_epoch b) "broadcast epoch must be non-zero" ;;
  need (0 <? bc_workspace_version b) "workspace version must be non-zero" ;;
  need (negb (is_nil (bc_selected b)) && (count (bc_selected b) <=? MAX_BROADCAST_WINNERS))
    "broadcast selection is empty or excessive" ;;
  each (bc_selected b) (λ c,
    validate c ;;
    need (bool_decide (wc_space c = bc_space b)) "broadcast crosses spaces") ;;
  let ids := wc_id <$> bc_selected b in
  need (distinct ids) "broadcast winner IDs are duplicated" ;;
  need (bool_decide (bc_winner_ids b = ids)) "broadcast winner IDs are inconsistent" ;;
  need (bool_decide (se_selected_ids (bc_selected_because b) = ids)) "broadcast explanation is inconsistent" ;;
  selected ← answer (contents_json (wc_content <$> bc_selected b));
  contents ← answer (contents_json (bc_contents b));
  need (bool_decide (contents = selected)) "broadcast contents are inconsistent".

Definition from_selection (epoch : N) (selection : SelectionResult Json) (dasein_version workspace_version : N)
    : Result string (WorkspaceBroadcast Json) :=
  need (0 <? epoch) "broadcast epoch must be non-zero" ;;
  need (0 <? workspace_version) "workspace version must be non-zero" ;;
  need (negb (is_nil (sr_selected selection)) && (count (sr_selected selection) <=? MAX_BROADCAST_WINNERS))
    "broadcast selection is empty or excessive" ;;
  first ← must (head (sr_selected selection));
  let value :=
    {| bc_schema_version := WORKSPACE_SCHEMA_V1; bc_epoch := epoch; bc_space := wc_space first;
       bc_winner_ids := wc_id <$> sr_selected selection; bc_contents := wc_content <$> sr_selected selection;
       bc_selected := sr_selected selection; bc_selected_because := sr_explanation selection;
       bc_dasein_version := dasein_version; bc_workspace_version := workspace_version |} in
  broadcast_validate value ;;
  Ok value.

Definition broadcast_checksum (b : WorkspaceBroadcast Json) : Result string string :=
  broadcast_validate b ;;
  json ← answer (broadcast_json b);
  Ok (sha256 json).

Definition ack_validate (a : BroadcastAck) : Result string unit :=
  need (ba_schema_version a =? WORKSPACE_SCHEMA_V1) "unsupported broadcast acknowledgement schema" ;;
  need (0 <? ba_epoch a) "acknowledgement epoch must be non-zero" ;;
  need (count (ba_response_ids a) <=? MAX_BROADCAST_RESPONSES) "broadcast response count exceeds limit" ;;
  need (distinct (ba_response_ids a)) "broadcast response IDs contain duplicates" ;;
  match ba_status a with
  | Responded => need (negb (is_nil (ba_response_ids a))) "responded acknowledgement has no responses"
  | Delivered => need (is_nil (ba_response_ids a)) "delivered acknowledgement contains responses"
  | Failed | TimedOut =>
      need (is_nil (ba_response_ids a)
            && match ba_detail a with Some v => negb (is_blank v) | None => false end)
        "failed acknowledgement is missing terminal detail"
  end ;;
  need (match ba_detail a with Some v => negb (is_blank v) && (len v <=? 1024) | None => true end)
    "broadcast acknowledgement detail is invalid".

(** What a recipient may see. *)
Definition visible (c : WorkspaceCandidate Json) (process agent_root : ProcessId) : bool :=
  match wc_visibility c with
  | Session => true
  | PrivateProcess p => bool_decide (p = process)
  | AgentTree root => bool_decide (root = agent_root)
  end.

Definition is_hex_byte (b : Ascii.ascii) : bool :=
  let n := Ascii.N_of_ascii b in
  ((48 <=? n) && (n <=? 57)) || ((65 <=? n) && (n <=? 70)) || ((97 <=? n) && (n <=? 102)).

Fixpoint all_hex (s : string) : bool :=
  match s with
  | "" => true
  | String b r => is_hex_byte b && all_hex r
  end.

Definition delivery_validate (d : BroadcastDelivery Json) : Result string unit :=
  need (bd_schema_version d =? WORKSPACE_SCHEMA_V1) "unsupported broadcast delivery schema" ;;
  need (0 <? bd_epoch d) "broadcast delivery epoch is zero" ;;
  need (0 <? bd_workspace_version d) "delivery workspace version is zero" ;;
  need ((len (bd_broadcast_checksum d) =? 64) && all_hex (bd_broadcast_checksum d))
    "delivery broadcast checksum is invalid" ;;
  need (negb (is_nil (bd_selected d))) "broadcast delivery is empty" ;;
  each (bd_selected d) (λ c,
    validate c ;;
    need (bool_decide (wc_space c = bd_space d)) "delivery crosses spaces" ;;
    need (visible c (bd_recipient d) (bd_recipient_agent_root d)) "delivery leaks a visibility-scoped candidate").

End Operations.

End Broadcast.

(** ** The durable broadcast (agora/src/broadcast)

    [SqliteBroadcastStore] (store.rs: epochs and acknowledgements) with its
    tables as maps from the primary key to the row; a statement may fail with an
    error of the database, and a transaction that is not committed has no effect.
    [BroadcastHub] (mod.rs), which delivers a broadcast to the registered
    processors, and [BroadcastCoordinator], which ties the competition to it.

    Processors are keyed by their identifier; its textual form, the key in the
    database, is ordered the same way.  What a processor answers, in which order
    the delivery tasks complete and how many complete after one has failed are
    parameters. *)

Import Candidate Competition Broadcast.


(** What a processor's task ends with. *)
Inductive Reply :=
| Replied (response_ids : list ContentId)
| Refused (error : string)
| Crashed (error : string)
| NoReply.

Class BroadcastEnv (Json : Type) := {
  sql : N → option string;
  receive : ProcessId → BroadcastDelivery Json → N → Reply;
  completion : N → ∀ A : Type, list A → list A;
  late : N → nat;
}.

Module BroadcastStore.

Definition i64_max : N := 9223372036854775807.

Record EpochRow := {
  er_selection_key : string;
  er_workspace_version : N;
  er_broadcast_json : string;
  er_checksum : string;
  er_opened_at : Z;
  er_closed_at : option Z;
}.

Record AckRow := { ak_json : string; ak_checksum : string }.

#[global] Instance AckRow_eq_dec : EqDecision AckRow.
Proof. solve_decision. Defined.

(** The tables [broadcast_epochs] and [broadcast_acks]. *)
Record Store := {
  st_epochs : gmap (AgoraSpaceId * N) EpochRow;
  st_acks : gmap (AgoraSpaceId * N * ProcessId) AckRow;
}.

Definition open_store : Store := {| st_epochs := ∅; st_acks := ∅ |}.

Definition with_epochs f (s : Store) : Store := {| st_epochs := f (st_epochs s); st_acks := st_acks s |}.

Definition with_acks f (s : Store) : Store := {| st_epochs := st_epochs s; st_acks := f (st_acks s) |}.

Record BroadcastReplay {Json : Type} := {
  rp_broadcast : WorkspaceBroadcast Json;
  rp_opened_at : WallTime;
  rp_closed_at : option WallTime;
  rp_acknowledgements : list BroadcastAck;
}.
Arguments BroadcastReplay : clear implicits.

Section Store.
Context `{CandidateEnv Json} `{BroadcastCodec Json} `{BroadcastEnv Json}.

Definition lift {S A} (r : Result string A) : M S string A := λ s n, (r, s, n).

(** One statement of the database. *)
Definition statement {S} : M S string unit :=
  n ← tick;
  match sql n with Some error => throw error | None => mret tt end.

(** [u64] as a parameter of a statement: the column is an [i64]. *)
Definition sql_u64 {S} (n : N) : M S string unit := ensure (n <=? i64_max) "out of range integral type conversion".

(** ** Queries *)

Definition by_first {A} (a b : N * A) : Prop := a.1 ≤ b.1.

#[global] Instance by_first_dec {A} : RelDecision (@by_first A).
Proof. intros a b. unfold by_first. apply _. Defined.

(** [WHERE space = ?1 ORDER BY epoch] *)
Definition epoch_rows (space : AgoraSpaceId) (s : Store) : list (N * EpochRow) :=
  sort_by by_first (omap (λ e, if decide (e.1.1 = space) then Some (e.1.2, e.2) else None)
                      (map_to_list (st_epochs s))).

(** [WHERE space = ?1 AND epoch = ?2 ORDER BY processor] *)
Definition ack_rows (space : AgoraSpaceId) (epoch : N) (s : Store) : list (N * AckRow) :=
  sort_by by_first (omap (λ e, if decide (e.1.1 = (space, epoch)) then Some (e.1.2, e.2) else None)
                      (map_to_list (st_acks s))).

Definition row_with_key (space : AgoraSpaceId) (key : string) (s : Store) : option EpochRow :=
  head (filter (λ r, er_selection_key r = key) (epoch_rows space s).*2).

(** [SELECT MAX(epoch)] *)
Definition max_epoch (space : AgoraSpaceId) (s : Store) : option N := last (epoch_rows space s).*1.

(** ** Opening an epoch *)

Definition selection_key (selection : SelectionResult Json) (dasein_version workspace_version : N)
    : Result string string :=
  json ← answer (key_json selection dasein_version workspace_version);
  Ok (sha256 json).

(** [insert_epoch]: the row of a new epoch. *)
Definition epoch_row (b : WorkspaceBroadcast Json) (key : string) (opened_at : WallTime) : M Store string EpochRow :=
  lift (broadcast_validate b) ;;
  json ← lift (answer (broadcast_json b));
  sql_u64 (bc_epoch b) ;;
  sql_u64 (bc_workspace_version b) ;;
  statement ;;
  mret {| er_selection_key := key; er_workspace_version := bc_workspace_version b; er_broadcast_json := json;
          er_checksum := sha256 json; er_opened_at := opened_at; er_closed_at := None |}.

(** The branch for a selection that has no epoch yet. *)
Definition open_new (space : AgoraSpaceId) (key : string) (selection : SelectionResult Json)
    (dasein_version workspace_version : N) (opened_at : WallTime) : M Store string (WorkspaceBroadcast Json) :=
  statement ;;
  s ← get_state;
  let last := default 0 (max_epoch space s) in
  ensure (last + 1 <=? u64_max) ("broadcast epoch exhausted for space " +:+ space) ;;
  b ← lift (from_selection (last + 1) selection dasein_version workspace_version);
  row ← epoch_row b key opened_at;
  statement ;;
  modify (with_epochs (insert (bc_space b, bc_epoch b) row)) ;;
  mret b.

Definition open_selection (selection : SelectionResult Json) (dasein_version workspace_version : N)
    (opened_at : WallTime) : M Store string (WorkspaceBroadcast Json) :=
  first ← ok_or (head (sr_selected selection)) "cannot open an empty selection";
  let space := wc_space first in
  statement ;;
  key ← lift (selection_key selection dasein_version workspace_version);
  statement ;;
  s ← get_state;
  match row_with_key space key s with
  | Some row =>
      b ← lift (answer (parse_broadcast (er_broadcast_json row)));
      lift (broadcast_validate b) ;;
      statement ;;
      mret b
  | None => open_new space key selection dasein_version workspace_version opened_at
  end.

(** ** Acknowledgements and closing *)

Definition append_ack (ack : BroadcastAck) : M Store string unit :=
  lift (ack_validate ack) ;;
  json ← lift (answer (ack_json ack));
  let row := {| ak_json := json; ak_checksum := sha256 json |} in
  let key := (ba_space ack, ba_epoch ack, ba_processor ack) in
  sql_u64 (ba_epoch ack) ;;
  statement ;;
  s ← get_state;
  epoch ← ok_or (st_epochs s !! (ba_space ack, ba_epoch ack)) "acknowledgement epoch does not exist";
  ensure (bool_decide (er_closed_at epoch = None)) "broadcast epoch is already closed" ;;
  statement ;;
  match st_acks s !! key with
  | Some existing => ensure (bool_decide (existing = row)) "conflicting acknowledgement for processor"
  | None => statement ;; modify (with_acks (insert key row))
  end.

Definition closed (closed_at : Z) (r : EpochRow) : EpochRow :=
  {| er_selection_key := er_selection_key r; er_workspace_version := er_workspace_version r;
     er_broadcast_json := er_broadcast_json r; er_checksum := er_checksum r; er_opened_at := er_opened_at r;
     er_closed_at := Some closed_at |}.

Definition close_epoch (space : AgoraSpaceId) (epoch : N) (closed_at : WallTime) : M Store string unit :=
  sql_u64 epoch ;;
  statement ;;
  s ← get_state;
  match st_epochs s !! (space, epoch) with
  | None => throw "broadcast epoch does not exist"
  | Some row =>
      match er_closed_at row with
      | Some existing =>
          ensure (bool_decide (existing = closed_at)) "broadcast epoch has a conflicting close time"
      | None =>
          statement ;;
          ensure (bool_decide (er_opened_at row ≤ closed_at)%Z) "broadcast closes before it opens" ;;
          statement ;;
          modify (with_epochs (insert (space, epoch) (closed closed_at row)))
      end
  end.

(** ** Replay *)

Definition replay_ack (space : AgoraSpaceId) (epoch : N) (row : AckRow) : Result string BroadcastAck :=
  need (bool_decide (sha256 (ak_json row) = ak_checksum row)) "ack checksum mismatch" ;;
  ack ← answer (parse_ack (ak_json row));
  ack_validate ack ;;
  need (bool_decide (ba_space ack = space ∧ ba_epoch ack = epoch)) "ack key mismatch" ;;
  Ok ack.

(** One row; [seen] are the epochs before it. *)
Definition replay_row (space : AgoraSpaceId) (seen : N) (epoch : N) (row : EpochRow)
    : M Store string (BroadcastReplay Json) :=
  ensure (epoch =? seen + 1) "broadcast epoch gap detected" ;;
  ensure (bool_decide (sha256 (er_broadcast_json row) = er_checksum row)) "broadcast checksum mismatch" ;;
  b ← lift (answer (parse_broadcast (er_broadcast_json row)));
  lift (broadcast_validate b) ;;
  ensure (bool_decide (bc_space b = space)) "broadcast stored under wrong space" ;;
  ensure (bc_epoch b =? epoch) "broadcast epoch key mismatch" ;;
  statement ;;
  s ← get_state;
  acks ← lift (mapM (λ r, replay_ack space epoch r.2) (ack_rows space epoch s));
  mret {| rp_broadcast := b; rp_opened_at := er_opened_at row; rp_closed_at := er_closed_at row;
          rp_acknowledgements := acks |}.

Fixpoint replay_rows (space : AgoraSpaceId) (seen : N) (rows : list (N * EpochRow))
    : M Store string (list (BroadcastReplay Json)) :=
  match rows with
  | [] => mret []
  | (epoch, row) :: rest =>
      r ← replay_row space seen epoch row;
      rs ← replay_rows space (seen + 1) rest;
      mret (r :: rs)
  end.

Definition replay (space : AgoraSpaceId) : M Store string (list (BroadcastReplay Json)) :=
  statement ;;
  s ← get_state;
  replay_rows space 0 (epoch_rows space s).

Definition replay_epoch (space : AgoraSpaceId) (epoch : N) : M Store string (BroadcastReplay Json) :=
  rs ← replay space;
  ok_or (head (filter (λ r, bc_epoch (rp_broadcast r) = epoch) rs)) "broadcast epoch does not exist".

End Store.

End BroadcastStore.

Module BroadcastHub.
Import BroadcastStore.

Record ProcessorRegistration := {
  pr_process : ProcessId;
  pr_agent_root : ProcessId;
}.

Record BroadcastHubConfig := {
  hc_max_processors : N;
  hc_max_concurrency : N;
  hc_delivery_timeout_ns : N;
}.

Definition config_validate (c : BroadcastHubConfig) : Result string unit :=
  need ((1 <=? hc_max_processors c) && (hc_max_processors c <=? 1024)) "invalid processor capacity" ;;
  need ((1 <=? hc_max_concurrency c) && (hc_max_concurrency c <=? hc_max_processors c))
    "invalid broadcast concurrency" ;;
  need (negb (hc_delivery_timeout_ns c =? 0)) "delivery timeout is zero".

Definition default_config : BroadcastHubConfig :=
  {| hc_max_processors := 64; hc_max_concurrency := 8; hc_delivery_timeout_ns := 5000000000 |}.

(** The store is shared with the coordinator and kept apart. *)
Record BroadcastHub := {
  bh_config : BroadcastHubConfig;
  bh_processors : gmap ProcessId ProcessorRegistration;
}.

Definition new (config : BroadcastHubConfig) : Result string BroadcastHub :=
  config_validate config ;;
  Ok {| bh_config := config; bh_processors := ∅ |}.

Definition register (r : ProcessorRegistration) : M BroadcastHub string unit :=
  h ← get_state;
  ensure (bool_decide (bh_processors h !! pr_process r = None)) "broadcast processor is already registered" ;;
  ensure (N.of_nat (size (bh_processors h)) <? hc_max_processors (bh_config h))
    "broadcast processor capacity exceeded" ;;
  put_state {| bh_config := bh_config h; bh_processors := <[pr_process r := r]> (bh_processors h) |}.

(** A byte of UTF-8 that continues a character. *)
Definition continues (b : Ascii.ascii) : bool :=
  let n := Ascii.N_of_ascii b in (128 <=? n) && (n <? 192).

(** [value.chars().take(n).collect()] *)
Fixpoint take_chars (n : nat) (s : string) : string :=
  match s with
  | "" => ""
  | String b r =>
      if continues b then String b (take_chars n r)
      else match n with O => "" | S n => String b (take_chars n r) end
  end.

Definition limit_detail (value : string) : string := take_chars 1024 value.

Definition valid_response_ids (ids : list ContentId) : bool :=
  (count ids <=? MAX_BROADCAST_RESPONSES) && distinct ids.

(** The status, the responses and the detail a reply is recorded with. *)
Definition ack_parts (r : Reply) : BroadcastAckStatus * list ContentId * option string :=
  match r with
  | Replied ids =>
      if valid_response_ids ids then (if is_nil ids then Delivered else Responded, ids, None)
      else (Failed, [], Some "processor response IDs are duplicated or excessive")
  | Refused error => (Failed, [], Some (limit_detail error))
  | Crashed error => (Failed, [], Some (limit_detail ("processor task failed: " +:+ error)))
  | NoReply => (TimedOut, [], Some "processor delivery timed out")
  end.

Section Hub.
Context `{CandidateEnv Json} `{BroadcastCodec Json} `{BroadcastEnv Json} `{Env}.

Definition eligible_candidates (selected : list (WorkspaceCandidate Json)) (r : ProcessorRegistration)
    : list (WorkspaceCandidate Json) :=
  filter (λ c, visible c (pr_process r) (pr_agent_root r) = true) selected.

Definition delivery_for (b : WorkspaceBroadcast Json) (checksum : string) (r : ProcessorRegistration)
    : BroadcastDelivery Json :=
  {| bd_schema_version := WORKSPACE_SCHEMA_V1; bd_epoch := bc_epoch b; bd_space := bc_space b;
     bd_recipient := pr_process r; bd_recipient_agent_root := pr_agent_root r;
     bd_broadcast_checksum := checksum; bd_dasein_version := bc_dasein_version b;
     bd_workspace_version := bc_workspace_version b; bd_selected := eligible_candidates (bc_selected b) r |}.

(** The registrations that are still to receive the broadcast. *)
Definition recipients (b : WorkspaceBroadcast Json) (acknowledged : list BroadcastAck)
    (registrations : list ProcessorRegistration) : list ProcessorRegistration :=
  filter (λ r, pr_process r ∉ (ba_processor <$> acknowledged) ∧ eligible_candidates (bc_selected b) r ≠ [])
    registrations.

(** One delivery task, from the permit of the semaphore on. *)
Definition run_task (observed_at : WallTime) (d : BroadcastDelivery Json) : M Store string BroadcastAck :=
  n ← tick;
  match ack_parts (receive (bd_recipient d) d n) with
  | (status, response_ids, detail) =>
      let ack :=
        {| ba_schema_version := WORKSPACE_SCHEMA_V1; ba_space := bd_space d; ba_epoch := bd_epoch d;
           ba_processor := bd_recipient d; ba_response_ids := response_ids; ba_status := status;
           ba_observed_at := observed_at; ba_detail := detail |} in
      lift (ack_validate ack) ;;
      append_ack ack ;;
      mret ack
  end.

(** The tasks in the order they complete.  The first error is returned; the other
    tasks are aborted, after some of them have completed. *)
Fixpoint join_all (observed_at : WallTime) (tasks : list (BroadcastDelivery Json)) : M Store string (list BroadcastAck) :=
  match tasks with
  | [] => mret []
  | d :: rest =>
      r ← try_ (run_task observed_at d);
      match r with
      | inr ack =>
          acks ← join_all observed_at rest;
          mret (ack :: acks)
      | inl error =>
          n ← tick;
          for_each (take (late n) rest) (λ d, ignore (run_task observed_at d)) ;;
          throw error
      end
  end.

(** [acknowledgements.sort_by_key(|ack| ack.processor.0)] *)
Definition by_processor (a b : BroadcastAck) : Prop := ba_processor a ≤ ba_processor b.

#[global] Instance by_processor_dec : RelDecision by_processor.
Proof. intros a b. unfold by_processor. apply _. Defined.

Definition deliver (h : BroadcastHub) (b : WorkspaceBroadcast Json) (observed_at : WallTime)
    : M Store string (list BroadcastAck) :=
  lift (broadcast_validate b) ;;
  checksum ← lift (broadcast_checksum b);
  replayed ← replay_epoch (Json := Json) (bc_space b) (bc_epoch b);
  match rp_closed_at replayed with
  | Some _ => mret (rp_acknowledgements replayed)
  | None =>
      n ← tick;
      let deliveries :=
        delivery_for b checksum <$> recipients b (rp_acknowledgements replayed) (hash_values n (bh_processors h)) in
      lift (each deliveries delivery_validate) ;;
      k ← tick;
      acks ← join_all observed_at (completion k _ deliveries);
      mret (sort_by by_processor (rp_acknowledgements replayed ++ acks))
  end.

(** ** [BroadcastCoordinator] *)

Definition on_pool {A} (m : M (CandidatePool Json) string A) : M (CandidatePool Json * Store) string A :=
  zoom fst (λ p s, (p, s.2)) m.

Definition on_store {A} (m : M Store string A) : M (CandidatePool Json * Store) string A :=
  zoom snd (λ st s, (s.1, st)) m.

Definition broadcast_selection (h : BroadcastHub) (selection : SelectionResult Json)
    (dasein_version workspace_version : N) (opened_at closed_at : WallTime)
    : M (CandidatePool Json * Store) string (WorkspaceBroadcast Json) :=
  s ← get_state;
  lift (validate_selection s.1 selection) ;;
  b ← on_store (open_selection selection dasein_version workspace_version opened_at);
  on_store (deliver h b closed_at) ;;
  on_store (close_epoch (bc_space b) (bc_epoch b) closed_at) ;;
  on_pool (finalize_selection selection) ;;
  mret b.

End Hub.

End BroadcastHub.
