(* ===== verification/BroadcastSpec.v ===== *)
(** * The durable broadcast: what the store keeps and what a broadcast does

    The invariant of the store and that it only grows, whatever statement fails;
    then the outcome of [broadcast_selection]. *)
From S2P Require Import Prelude FabricTypes StdModel Fallible Database StdFloat Candidate Competition CompetitionSpec Broadcast.
Import Candidate Competition Broadcast BroadcastStore.

#[local] Open Scope N_scope.

(** What the code relies on: an acknowledgement is read back as it was written;
    so is a broadcast as far as its identity and validity go, if the numbers of
    its explanation are finite (JSON has no other); a digest is 64 hexadecimal
    digits; each delivery task completes once. *)
Definition score_finite (s : CandidateScore) : bool :=
  forallb is_finite [cs_salience s; cs_aging_boost s; cs_dependency_boost s; cs_repetition_penalty s;
                     cs_refractory_penalty s; cs_total s].

Definition explained {Json} (b : WorkspaceBroadcast Json) : bool :=
  forallb score_finite (se_evaluated (bc_selected_because b)).

Class BroadcastLaws (Json : Type) `{CandidateEnv Json} `{BroadcastCodec Json} `{BroadcastEnv Json} : Prop := {
  ack_read_back : ∀ a json, ack_json a = inr json → parse_ack json = inr a;
  broadcast_read_back : ∀ b json,
    broadcast_validate b = Ok tt → explained b = true → broadcast_json b = inr json →
    ∃ b', parse_broadcast json = inr b' ∧ broadcast_validate b' = Ok tt ∧ bc_space b' = bc_space b
          ∧ bc_epoch b' = bc_epoch b;
  sha256_hex : ∀ s, len (sha256 s) = 64 ∧ all_hex (sha256 s) = true;
  completion_perm : ∀ n A (l : list A), completion n A l ≡ₚ l;
}.

Section Spec.
Context `{CandidateEnv Json} `{BroadcastCodec Json} `{BroadcastEnv Json}.
Implicit Types (s : Store) (row : EpochRow).

Lemma reads_lift {S A} (r : Result string A) : calm r → reads (lift r : M S string A).
Proof. intros Hr s n. by eexists _, _. Qed.

Lemma reads_statement {S} : reads (statement : M S string unit).
Proof. apply reads_bind; [apply reads_tick|]. intros n. case_match; [apply reads_throw|apply reads_ret]. Qed.

Lemma reads_sql {S} n : reads (sql_u64 n : M S string unit).
Proof. apply reads_ensure. Qed.

Lemma wp_lift {S A} (r : Result string A) (Q : Result string A → S → N → Prop) (s : S) n :
  Q r s n → wp (lift r) Q s n.
Proof. done. Qed.

Lemma broadcast_validate_calm (b : WorkspaceBroadcast Json) : calm (broadcast_validate b).
Proof. unfold broadcast_validate. solve_calm. Qed.

Lemma ack_validate_calm a : calm (ack_validate a).
Proof. unfold ack_validate. solve_calm. Qed.

#[local] Hint Resolve broadcast_validate_calm ack_validate_calm : aletheon.

Lemma from_selection_calm e (sel : SelectionResult Json) dv wv : calm (from_selection e sel dv wv).
Proof.
  unfold from_selection. do 2 (apply calm_bind; [auto with aletheon|intros _ _]).
  apply calm_bind; [auto with aletheon|]. intros [] Hsel%need_ok. apply calm_bind; [by destruct (sr_selected sel)|].
  intros. solve_calm.
Qed.

(** ** The invariant of the store *)

(** A row holds a valid broadcast of its key, with its digest. *)
Definition row_ok (space : AgoraSpaceId) (epoch : N) row : Prop :=
  er_checksum row = sha256 (er_broadcast_json row) ∧
  ∃ b : WorkspaceBroadcast Json, broadcast_json b = inr (er_broadcast_json row) ∧ broadcast_validate b = Ok tt
    ∧ bc_space b = space ∧ bc_epoch b = epoch.

Definition ack_ok (space : AgoraSpaceId) (epoch : N) (processor : ProcessId) (ack : AckRow) : Prop :=
  ak_checksum ack = sha256 (ak_json ack) ∧
  ∃ a, ack_json a = inr (ak_json ack) ∧ ack_validate a = Ok tt
    ∧ ba_space a = space ∧ ba_epoch a = epoch ∧ ba_processor a = processor.

(** Epochs of a space are numbered from 1 without a gap. *)
Record store_inv s : Prop := {
  si_positive : ∀ space e row, st_epochs s !! (space, e) = Some row → 0 < e;
  si_dense : ∀ space e row e', st_epochs s !! (space, e) = Some row → 0 < e' ≤ e →
    is_Some (st_epochs s !! (space, e'));
  si_row : ∀ space e row, st_epochs s !! (space, e) = Some row → row_ok space e row;
  si_ack : ∀ space e p ack, st_acks s !! (space, e, p) = Some ack →
    ack_ok space e p ack ∧ is_Some (st_epochs s !! (space, e));
}.

(** A store only grows: rows stay, an open row may be closed once, and a closed
    epoch gets no further acknowledgement. *)
Definition closes row row' : Prop :=
  row' = row ∨ er_closed_at row = None ∧ ∃ t, (er_opened_at row ≤ t)%Z ∧ row' = closed t row.

Record grows s s' : Prop := {
  gr_epochs : ∀ k row, st_epochs s !! k = Some row → ∃ row', st_epochs s' !! k = Some row' ∧ closes row row';
  gr_acks : ∀ k a, st_acks s !! k = Some a → st_acks s' !! k = Some a;
  gr_closed : ∀ space e p row, st_epochs s !! (space, e) = Some row → er_closed_at row ≠ None →
    st_acks s' !! (space, e, p) = st_acks s !! (space, e, p);
}.

#[global] Instance grows_preorder : PreOrder grows.
Proof.
  split.
  - intros s. split; [|done|done]. intros k row Hk. exists row. split; [done|by left].
  - intros s1 s2 s3 [He Ha Hc] [He' Ha' Hc']. split.
    + intros k row (r2 & Hk2 & H2)%He. destruct (He' _ _ Hk2) as (r3 & Hk3 & H3). exists r3. split; [done|].
      destruct H2 as [->|(Hn & t & Ht & ->)]; [done|]. destruct H3 as [->|(Hn' & _)]; [|done]. right. eauto.
    + eauto.
    + intros sp e p row Hk Hn. destruct (He _ _ Hk) as (r2 & Hk2 & H2). rewrite <-(Hc _ _ _ _ Hk Hn).
      eapply Hc'; [done|]. destruct H2 as [->|(? & _)]; done.
Qed.

(** The queries in key order. *)
Lemma elem_of_epoch_rows space s e row : (e, row) ∈ epoch_rows space s ↔ st_epochs s !! (space, e) = Some row.
Proof.
  unfold epoch_rows. rewrite sort_by_perm, list_elem_of_omap. split.
  - intros ([[sp e'] row'] & Hin%elem_of_map_to_list & Hd). cbn in Hd. case_decide; [|done].
    injection Hd as -> ->. by subst.
  - intros Hk%elem_of_map_to_list. exists ((space, e), row). split; [done|]. cbn. by rewrite decide_True.
Qed.

#[local] Instance by_first_trans {A} : Transitive (@by_first A).
Proof. intros ???. unfold by_first. lia. Qed.

#[local] Instance by_first_total {A} : Total (@by_first A).
Proof. intros ??. unfold by_first. lia. Qed.

Lemma max_epoch_none space s : max_epoch space s = None → ∀ e, st_epochs s !! (space, e) = None.
Proof.
  unfold max_epoch. intros Hl%last_None e. apply fmap_nil_inv in Hl.
  destruct (st_epochs s !! (space, e)) as [row|] eqn:Hk; [|done].
  apply elem_of_epoch_rows in Hk. rewrite Hl in Hk. by apply not_elem_of_nil in Hk.
Qed.

Lemma max_epoch_some space s e : max_epoch space s = Some e →
  is_Some (st_epochs s !! (space, e)) ∧ ∀ e', is_Some (st_epochs s !! (space, e')) → e' ≤ e.
Proof.
  unfold max_epoch. intros Hl. assert (StronglySorted by_first (epoch_rows space s)) as Hsort
    by (apply sort_by_sorted; apply _).
  destruct (rev_case (epoch_rows space s)) as [Heq|(l & [e0 row] & Heq)]; [by rewrite Heq in Hl|].
  rewrite Heq in Hl. rewrite fmap_app in Hl. change ([(e0, row)].*1) with [e0] in Hl.
  rewrite last_snoc in Hl. injection Hl as <-. split.
  - assert ((e0, row) ∈ epoch_rows space s) as Hin by (rewrite Heq; set_solver).
    apply elem_of_epoch_rows in Hin. by rewrite Hin.
  - intros e' [row' Hk%elem_of_epoch_rows]. rewrite Heq in Hk, Hsort.
    apply elem_of_app in Hk as [Hk|Hk].
    + exact (StronglySorted_app_1_elem_of _ _ _ _ _ Hsort Hk (list_elem_of_here _ _)).
    + apply list_elem_of_singleton in Hk. injection Hk as -> ->. lia.
Qed.

(** ** Each write keeps the invariant *)

Definition last_epoch (space : AgoraSpaceId) s : N := default 0 (max_epoch space s).

Lemma last_epoch_free space s : st_epochs s !! (space, last_epoch space s + 1) = None.
Proof.
  unfold last_epoch. destruct (max_epoch space s) as [e|] eqn:Hm; cbn; [|by apply max_epoch_none].
  apply eq_None_not_Some. intros Hs%(max_epoch_some _ _ _ Hm). lia.
Qed.

Lemma below_last space s e : store_inv s → 0 < e ≤ last_epoch space s → is_Some (st_epochs s !! (space, e)).
Proof.
  intros Hi. unfold last_epoch. destruct (max_epoch space s) as [m|] eqn:Hm; cbn; [|lia]. intros He.
  destruct (max_epoch_some _ _ _ Hm) as [[row Hk] _]. by eapply si_dense.
Qed.

Lemma insert_epoch_ok space s row :
  store_inv s → row_ok space (last_epoch space s + 1) row →
  let s' := with_epochs (insert (space, last_epoch space s + 1) row) s in store_inv s' ∧ grows s s'.
Proof.
  intros Hi Hrow. pose proof (last_epoch_free space s) as Hfree. split.
  - split; cbn.
    + intros sp e r [[[= <- <-] <-]|[_ ?]]%lookup_insert_Some; [lia|by eapply si_positive].
    + intros sp e r e' Hk He'. destruct (decide ((sp, e') = (space, last_epoch space s + 1))) as [->|Hne].
      { rewrite lookup_insert_eq. eauto. }
      rewrite lookup_insert_ne by done. apply lookup_insert_Some in Hk as [[[= <- <-] <-]|[_ Hk]].
      * apply below_last; [done|]. assert (e' ≠ last_epoch space s + 1) by congruence. lia.
      * by eapply si_dense.
    + intros sp e r [[[= <- <-] <-]|[_ ?]]%lookup_insert_Some; [done|by eapply si_row].
    + intros sp e p a [? Hk]%(si_ack _ Hi). split; [done|].
      destruct (decide ((sp, e) = (space, last_epoch space s + 1))) as [->|]; [rewrite lookup_insert_eq; eauto|].
      by rewrite lookup_insert_ne.
  - split; cbn; [|done|done]. intros k r Hk. exists r. split; [|by left].
    rewrite lookup_insert_ne; [done|]. intros <-. congruence.
Qed.

Lemma insert_ack_ok space e p row ack s :
  store_inv s → ack_ok space e p ack → st_epochs s !! (space, e) = Some row → er_closed_at row = None →
  st_acks s !! (space, e, p) = None →
  let s' := with_acks (insert (space, e, p) ack) s in store_inv s' ∧ grows s s'.
Proof.
  intros Hi Ha Hrow Hopen Hnone. split.
  - destruct Hi as [? ? ? Hack]. split; cbn; [done..|].
    intros sp e' p' a [[[= <- <- <-] <-]|[_ ?]]%lookup_insert_Some; [eauto|by apply Hack].
  - split; cbn.
    + intros k r Hk. exists r. split; [done|by left].
    + intros k a Hk. rewrite lookup_insert_ne; [done|]. intros <-. congruence.
    + intros sp e' p' r Hk Hn. rewrite lookup_insert_ne; [done|]. intros [= <- <- <-]. congruence.
Qed.

Lemma close_ok space e row t s :
  store_inv s → st_epochs s !! (space, e) = Some row → er_closed_at row = None → (er_opened_at row ≤ t)%Z →
  let s' := with_epochs (insert (space, e) (closed t row)) s in store_inv s' ∧ grows s s'.
Proof.
  intros Hi Hrow Hopen Ht. assert (∀ k, is_Some (st_epochs s !! k) →
    is_Some (<[(space, e) := closed t row]> (st_epochs s) !! k)) as Hsome.
  { intros k Hk. rewrite lookup_insert. case_decide; [by eexists|done]. }
  split.
  - split; cbn.
    + intros sp e' r [[[= <- <-] <-]|[_ ?]]%lookup_insert_Some; by eapply si_positive.
    + intros sp e' r e'' [[[= <- <-] <-]|[_ ?]]%lookup_insert_Some He; apply Hsome; by eapply si_dense.
    + intros sp e' r [[[= <- <-] <-]|[_ ?]]%lookup_insert_Some; [exact (si_row _ Hi _ _ _ Hrow)|by eapply si_row].
    + intros sp e' p a [? ?]%(si_ack _ Hi). auto.
  - split; cbn; [|done|done]. intros k r Hk. rewrite lookup_insert. case_decide as Heq.
    + subst k. exists (closed t row). split; [done|]. right. assert (r = row) as -> by congruence. eauto.
    + exists r. split; [done|by left].
Qed.

(** ** The operations keep the invariant whatever fails *)

Definition stable {A} (m : M Store string A) : Prop :=
  ∀ s n, store_inv s → wp m (λ r s' _, r ≠ Panic ∧ store_inv s' ∧ grows s s') s n.

Lemma stable_quiet {A} (m : M Store string A) : reads m → stable m.
Proof. intros Hm s n Hi. apply wp_reads; [done|]. done. Qed.

Lemma stable_bind {A B} (m : M Store string A) (k : A → M Store string B) :
  stable m → (∀ a, stable (k a)) → stable (m ≫= k).
Proof.
  intros Hm Hk s n Hi. apply wp_bind. eapply wp_mono; [by apply Hm|].
  intros [a|e|] s1 n1 (Hr & Hi1 & Hg1); [|done..]. eapply wp_mono; [by apply Hk|].
  intros r s2 n2 (? & ? & Hg2). split_and!; [done..|by etrans].
Qed.

(** Reading steps in front of a write. *)
Lemma wp_read_step {A B} (m : M Store string A) (k : A → M Store string B) s n :
  reads m → store_inv s →
  (∀ a n', (∃ n0 n1, m s n0 = (Ok a, s, n1)) → wp (k a) (λ r s' _, r ≠ Panic ∧ store_inv s' ∧ grows s s') s n') →
  wp (m ≫= k) (λ r s' _, r ≠ Panic ∧ store_inv s' ∧ grows s s') s n.
Proof.
  intros Hm Hi Hk. apply wp_bind. unfold wp. destruct (Hm s n) as (r & n' & Heq & Hr). rewrite Heq.
  destruct r as [a|e|]; [apply Hk; eauto|done|done].
Qed.

#[local] Hint Resolve reads_ret reads_throw reads_get reads_tick reads_ensure reads_ok_or reads_lift reads_statement reads_sql
  from_selection_calm stable_quiet : aletheon.

(** One reading step: [H] is what it has read. *)
Ltac read H := apply wp_read_step; [solve [auto with aletheon]|done|]; intros ? ? (? & ? & H).

Ltac skip := let H := fresh in read H; clear H.

Ltac quietly := solve [repeat first [progress auto with aletheon | apply reads_bind; [|intros ?] | case_match]].

Lemma lift_inv {S A} (r : Result string A) (s s' : S) a n n' : lift r s n = (Ok a, s', n') → r = Ok a.
Proof. by injection 1. Qed.

Lemma ensure_inv {S} b e (s s' : S) a n n' : ensure (E := string) b e s n = (Ok a, s', n') → b = true.
Proof. by destruct b. Qed.

Lemma ok_or_inv {S A} (o : option A) e (s s' : S) a n n' : ok_or (E := string) o e s n = (Ok a, s', n') → o = Some a.
Proof. destruct o; [intros [= -> _ _]; done|done]. Qed.

Lemma get_inv {S} (s s' s1 : S) n n' : get_state (E := string) s n = (Ok s1, s', n') → s1 = s.
Proof. by injection 1. Qed.

Lemma answer_ok {A} (o : string + A) a : answer o = Ok a → o = inr a.
Proof. destruct o; cbn; congruence. Qed.

Lemma append_ack_stable a : stable (append_ack a).
Proof.
  intros s n Hi. unfold append_ack. read Hv. apply lift_inv in Hv as Hv. read Hj. apply lift_inv, answer_ok in Hj.
  do 2 skip. read Hs. apply get_inv in Hs as ->. read Hr. apply ok_or_inv in Hr.
  read Hc. apply ensure_inv, bool_decide_eq_true in Hc. skip.
  destruct (st_acks s !! _) as [existing|] eqn:Ha; [apply stable_quiet; [auto with aletheon|done]|].
  skip. apply wp_modify. split; [done|]. eapply insert_ack_ok; [done| |done..].
  split; [done|]. exists a. by destruct a0.
Qed.

Lemma close_epoch_stable space e t : stable (close_epoch space e t).
Proof.
  intros s n Hi. unfold close_epoch. do 2 skip. read Hs. apply get_inv in Hs as ->.
  destruct (st_epochs s !! (space, e)) as [row|] eqn:Hr; [|apply stable_quiet; [auto with aletheon|done]].
  destruct (er_closed_at row) eqn:Hc; [apply stable_quiet; [auto with aletheon|done]|].
  skip. read Ht. apply ensure_inv, bool_decide_eq_true in Ht. skip. apply wp_modify.
  split; [done|]. by apply close_ok.
Qed.

Lemma from_selection_ok e (sel : SelectionResult Json) dv wv b :
  from_selection e sel dv wv = Ok b →
  broadcast_validate b = Ok tt ∧ bc_epoch b = e ∧ bc_selected b = sr_selected sel
  ∧ bc_selected_because b = sr_explanation sel ∧ bc_workspace_version b = wv
  ∧ wc_space <$> head (sr_selected sel) = Some (bc_space b).
Proof.
  unfold from_selection. intros Hb. inv_ok Hb. injection Hb as <-.
  match goal with H : broadcast_validate _ = Ok ?u |- _ => destruct u end.
  match goal with H : head _ = Some _ |- _ => rewrite H end. done.
Qed.

Lemma reads_epoch_row (b : WorkspaceBroadcast Json) key t : reads (epoch_row b key t).
Proof. unfold epoch_row. quietly. Qed.

#[local] Hint Resolve reads_epoch_row : aletheon.

Lemma open_new_stable space key sel dv wv t : wc_space <$> head (sr_selected sel) = Some space →
  stable (open_new (Json := Json) space key sel dv wv t).
Proof.
  intros Hspace s n Hi. unfold open_new. skip. read Hs. apply get_inv in Hs as ->. cbn zeta.
  skip. read Hb. apply lift_inv, from_selection_ok in Hb as (Hv & He & _ & _ & _ & Hsp).
  rewrite Hspace in Hsp. injection Hsp as ->.
  read Hrow.
  assert (row_ok (bc_space a1) (bc_epoch a1) a2) as Hok.
  { unfold epoch_row in Hrow. unfold mbind, M_bind, lift in Hrow. rewrite Hv in Hrow. revert Hrow.
    unfold answer. destruct (broadcast_json a1) as [|json] eqn:Hj; [done|].
    unfold ensure, sql_u64, statement, tick, mbind, M_bind. repeat (case_match; try done).
    all: intros [= <- _]; split; [done|]; exists a1; done. }
  skip. apply wp_bind, wp_modify, wp_ret. split; [done|]. rewrite He in Hok |- *.
  by apply insert_epoch_ok.
Qed.

Lemma selection_key_calm (sel : SelectionResult Json) dv wv : calm (selection_key sel dv wv).
Proof. unfold selection_key. solve_calm. Qed.

#[local] Hint Resolve selection_key_calm : aletheon.

Lemma open_selection_stable (sel : SelectionResult Json) dv wv t : stable (open_selection sel dv wv t).
Proof.
  intros s n Hi. unfold open_selection. read Hf. apply ok_or_inv in Hf. skip. skip. skip. read Hs. apply get_inv in Hs as ->.
  destruct (row_with_key _ _ s); [apply stable_quiet; [quietly|done]|].
  apply open_new_stable; [by rewrite Hf|done].
Qed.

Lemma replay_ack_calm space e ack : calm (replay_ack space e ack).
Proof. unfold replay_ack. solve_calm. Qed.

Lemma calm_mapM {A B} (f : A → Result string B) l : (∀ x, calm (f x)) → calm (mapM f l).
Proof. intros Hf. induction l as [|x l IH]; cbn; [done|]. apply calm_bind; [auto|]. intros. by apply calm_bind. Qed.

Lemma reads_replay_row space seen e row : reads (replay_row (Json := Json) space seen e row).
Proof.
  unfold replay_row. repeat (apply reads_bind; [first [by auto with aletheon|apply reads_lift, calm_mapM; intros; apply replay_ack_calm]|intros ?]).
  auto with aletheon.
Qed.

Lemma reads_replay space : reads (replay (Json := Json) space).
Proof.
  unfold replay. apply reads_bind; [auto with aletheon|intros _]. apply reads_bind; [auto with aletheon|intros s].
  generalize (epoch_rows space s) as rows, 0 as seen. induction rows as [|[e row] rows IH]; intros seen; cbn; [auto with aletheon|].
  apply reads_bind; [apply reads_replay_row|]. intros r. apply reads_bind; [apply IH|auto with aletheon].
Qed.

Lemma reads_replay_epoch space e : reads (replay_epoch (Json := Json) space e).
Proof. unfold replay_epoch. apply reads_bind; [apply reads_replay|auto with aletheon]. Qed.

Lemma stable_try {A} (m : M Store string A) : stable m → stable (try_ m).
Proof.
  intros Hm s n Hi. apply wp_try. eapply wp_mono; [by apply Hm|]. intros [] s' n' (? & ? & ?); done.
Qed.

Lemma stable_ignore {A} (m : M Store string A) : stable m → stable (ignore m).
Proof.
  intros Hm s n Hi. apply wp_ignore. eapply wp_mono; [by apply Hm|]. intros [] s' n' (? & ? & ?); done.
Qed.

Lemma stable_for_each {A} (l : list A) (body : A → M Store string unit) :
  (∀ x, stable (body x)) → stable (for_each l body).
Proof. intros Hb. induction l; cbn; [auto with aletheon|]. by apply stable_bind. Qed.

End Spec.

Import BroadcastHub.

#[local] Hint Resolve reads_ret reads_throw reads_get reads_tick reads_ensure reads_ok_or reads_lift reads_statement
  reads_sql stable_quiet broadcast_validate_calm ack_validate_calm append_ack_stable close_epoch_stable
  open_selection_stable reads_replay_epoch : aletheon.

Section HubSpec.
Context `{CandidateEnv Json} `{BroadcastCodec Json} `{BroadcastEnv Json} `{Env}.

Lemma run_task_stable t (d : BroadcastDelivery Json) : stable (run_task t d).
Proof.
  unfold run_task. apply stable_bind; [auto with aletheon|intros n].
  destruct (ack_parts _) as [[status ids] detail]. apply stable_bind; [auto with aletheon|intros _].
  apply stable_bind; auto with aletheon.
Qed.

Lemma join_all_stable t (tasks : list (BroadcastDelivery Json)) : stable (join_all t tasks).
Proof.
  induction tasks as [|d rest IH]; cbn; [auto with aletheon|].
  apply stable_bind; [apply stable_try, run_task_stable|]. intros [error|ack].
  - apply stable_bind; [auto with aletheon|intros n]. apply stable_bind; [|auto with aletheon].
    apply stable_for_each. intros d'. apply stable_ignore, run_task_stable.
  - apply stable_bind; auto with aletheon.
Qed.

Lemma delivery_validate_calm (d : BroadcastDelivery Json) : calm (delivery_validate d).
Proof. unfold delivery_validate. solve_calm. Qed.

Lemma deliver_stable h (b : WorkspaceBroadcast Json) t : stable (deliver h b t).
Proof.
  unfold deliver. apply stable_bind; [auto with aletheon|intros _].
  apply stable_bind; [apply stable_quiet, reads_lift; unfold broadcast_checksum; solve_calm|intros checksum].
  apply stable_bind; [auto with aletheon|intros r]. destruct (rp_closed_at r); [auto with aletheon|].
  apply stable_bind; [auto with aletheon|intros n]. apply stable_bind.
  { apply stable_quiet, reads_lift, calm_each, delivery_validate_calm. }
  intros _. apply stable_bind; [auto with aletheon|intros k]. apply stable_bind; [apply join_all_stable|auto with aletheon].
Qed.

(** ** The coordinator *)

(** The store keeps its invariant and grows; the pool is as before, unless the
    call returned a broadcast: then exactly the selected candidates are gone. *)
Definition pool_step {A} (sel : SelectionResult Json) (p p' : CandidatePool Json) (r : Result string A) : Prop :=
  match r with
  | Ok _ => pool_inv p' ∧ ∀ id, cp_candidates p' !! id =
              if decide (id ∈ wc_id <$> sr_selected sel) then None else cp_candidates p !! id
  | Err _ => p' = p
  | Panic => False
  end.

Lemma wp_on_store {A B} (m : M Store string A) (k : A → M (CandidatePool Json * Store) string B) Q p s n :
  stable m → store_inv s →
  (∀ a s' n', store_inv s' → grows s s' → wp (k a) Q (p, s') n') →
  (∀ e s' n', store_inv s' → grows s s' → Q (Err e) (p, s') n') →
  wp (on_store m ≫= k) Q (p, s) n.
Proof.
  intros Hm Hi Hk He. apply wp_bind, wp_zoom. cbn [snd]. eapply wp_mono; [by apply Hm|].
  intros [a|e|] s' n' (Hr & Hi' & Hg); [by apply Hk|by apply He|done].
Qed.

(** C19. Whatever the database, the processors and the clock do: a broadcast of a
    selection never panics; when it fails, the pool is unchanged, so that the
    candidates stay pending; when it succeeds, exactly the selected candidates
    have left the pool.  In both cases the store keeps its invariant (dense
    epochs, valid rows with their digests) and only grows: no row or
    acknowledgement is lost or rewritten, and a closed epoch stays as it is. *)
Theorem broadcast_all_or_nothing h (sel : SelectionResult Json) dv wv opened closed_ p s n :
  pool_inv p → store_inv s →
  match broadcast_selection h sel dv wv opened closed_ (p, s) n with
  | (r, (p', s'), _) => pool_step sel p p' r ∧ store_inv s' ∧ grows s s'
  end.
Proof.
  intros Hp Hs. set (Q := λ (r : Result string (WorkspaceBroadcast Json)) (ps : CandidatePool Json * Store) (_ : N),
    pool_step sel p ps.1 r ∧ store_inv ps.2 ∧ grows s ps.2).
  enough (wp (broadcast_selection h sel dv wv opened closed_) Q (p, s) n) as Hwp.
  { unfold wp in Hwp. by destruct (broadcast_selection _ _ _ _ _ _ _ _) as [[r [p' s']] n']. }
  unfold broadcast_selection. apply wp_bind, wp_get. cbn [fst]. apply wp_bind, wp_lift.
  destruct (validate_selection p sel) as [[]|e|] eqn:Hv; [|done|].
  2:{ exfalso. revert Hv. change (calm (validate_selection p sel)).
      unfold validate_selection, validate_selected. solve_calm. }
  apply wp_on_store; [auto with aletheon|done| |done]. intros b s1 n1 Hs1 Hg1.
  apply wp_on_store; [apply deliver_stable|done| |intros; split_and!; [done..|by etrans]]. intros acks s2 n2 Hs2 Hg2.
  apply wp_on_store; [auto with aletheon|done| |intros; split_and!; [done..|by do 2 (etrans; [done|])]]. intros _ s3 n3 Hs3 Hg3.
  apply wp_bind, wp_zoom. cbn [fst]. destruct (finalize_spec sel p n3 Hp Hv) as (p' & Hf & Hp' & Hm).
  unfold wp at 1. rewrite Hf. apply wp_ret. split_and!; [done..|]. cbn. by do 2 (etrans; [done|]).
Qed.

End HubSpec.
