(* ===== verification/BroadcastLive.v ===== *)
(** * The durable broadcast: a broadcast is delivered

    With a working database and processors whose answers can be recorded, a fresh
    selection is broadcast: the next epoch is opened, every processor that may
    see something of it acknowledges once, and the epoch is closed. *)
From S2P Require Import Prelude FabricTypes StdModel Fallible StdFloat Candidate Competition CompetitionSpec Broadcast BroadcastSpec.
Import Candidate Competition Broadcast BroadcastStore BroadcastHub.

#[local] Open Scope N_scope.

Section Live.
Context `{CandidateEnv Json} `{BroadcastCodec Json} `{BroadcastEnv Json} `{!BroadcastLaws Json}.
Context `{HEnv : Env} {HOk : EnvOk}.
Implicit Types (s : Store).

(** The text a reply is recorded with fits an acknowledgement. *)
Definition fits (detail : string) : bool := negb (is_blank detail) && (len detail <=? 1024).

Definition recordable (r : Reply) : bool :=
  match (ack_parts r).2 with Some detail => fits detail | None => true end.

(** A database without failures, serialization that succeeds, and processors
    whose answers can be recorded. *)
Record working : Prop := {
  wk_sql : ∀ n, sql n = None;
  wk_contents : ∀ l : list (WorkspaceContent Json), ∃ json, contents_json l = inr json;
  wk_broadcast : ∀ b : WorkspaceBroadcast Json, ∃ json, broadcast_json b = inr json;
  wk_ack : ∀ a, ∃ json, ack_json a = inr json;
  wk_key : ∀ (sel : SelectionResult Json) dv wv, ∃ json, key_json sel dv wv = inr json;
  wk_reply : ∀ p d n, recordable (receive p d n) = true;
}.

Context (Hw : working).

Lemma statement_ok {S} (s : S) n : statement s n = (Ok tt, s, n + 1).
Proof. unfold statement, tick, mbind, M_bind. by rewrite wk_sql. Qed.

Lemma bind_step {S A B} (m : M S string A) (k : A → M S string B) (s s' : S) n a n' :
  m s n = (Ok a, s', n') → (m ≫= k) s n = k a s' n'.
Proof. unfold mbind, M_bind. by intros ->. Qed.

Lemma sql_u64_ok {S} x (s : S) n : x ≤ i64_max → sql_u64 x s n = (Ok tt, s, n).
Proof. intros Hx%N.leb_le. unfold sql_u64. by rewrite Hx. Qed.

Lemma ensure_ok {S} b e (s : S) n : b = true → ensure (E := string) b e s n = (Ok tt, s, n).
Proof. by intros ->. Qed.

(** ** Reading the store back *)

Definition readable space e row : Prop :=
  er_checksum row = sha256 (er_broadcast_json row) ∧
  ∃ b : WorkspaceBroadcast Json, broadcast_json b = inr (er_broadcast_json row) ∧ broadcast_validate b = Ok tt
    ∧ bc_space b = space ∧ bc_epoch b = e ∧ explained b = true.

Definition ack_read space e s (acks : list BroadcastAck) : Prop :=
  ∀ p, p ∈ (ba_processor <$> acks) ↔ is_Some (st_acks s !! (space, e, p)).

Lemma elem_of_ack_rows space e s p row : (p, row) ∈ ack_rows space e s ↔ st_acks s !! (space, e, p) = Some row.
Proof.
  unfold ack_rows. rewrite sort_by_perm, list_elem_of_omap. split.
  - intros ([[k p'] row'] & Hin%elem_of_map_to_list & Hd). cbn in Hd. case_decide; [|done].
    injection Hd as -> ->. by subst.
  - intros Hk%elem_of_map_to_list. exists ((space, e, p), row). split; [done|]. cbn. by rewrite decide_True.
Qed.

Lemma replay_acks_ok space e s : store_inv s →
  ∃ acks, mapM (λ r, replay_ack space e r.2) (ack_rows space e s) = Ok acks ∧ ack_read space e s acks.
Proof.
  intros Hi. assert (∀ r, r ∈ ack_rows space e s → ∃ a, replay_ack space e r.2 = Ok a ∧ ba_processor a = r.1) as Hall.
  { intros [p row] (Ha & _)%elem_of_ack_rows%(si_ack _ Hi). destruct Ha as [Hsum (a & Hj & Hv & Hs & He & Hp)].
    exists a. split; [|done]. unfold replay_ack. cbn [snd]. rewrite Hsum, bool_decide_true by done. cbn [need].
    rewrite (ack_read_back _ _ Hj). cbn. rewrite Hv. cbn. by rewrite bool_decide_true. }
  destruct (mapM_total (λ r, replay_ack space e r.2) (ack_rows space e s)) as (acks & Hm & Hf).
  { intros r (a & ? & _)%Hall. eauto. }
  exists acks. split; [done|]. intros p. rewrite list_elem_of_fmap. split.
  - intros (a & -> & [k Hk]%list_elem_of_lookup). destruct (Forall2_lookup_r _ _ _ _ _ Hf Hk) as ([p row] & Hr & Ha).
    apply list_elem_of_lookup_2 in Hr. destruct (Hall _ Hr) as (a' & Ha' & Hp).
    apply elem_of_ack_rows in Hr. assert (a = a') as -> by (cbn in *; congruence). cbn in Hp. rewrite Hp. eauto.
  - intros [row Hr%elem_of_ack_rows]. apply list_elem_of_lookup in Hr as [k Hk].
    destruct (Forall2_lookup_l _ _ _ _ _ Hf Hk) as (a & Hka & Ha). apply list_elem_of_lookup_2 in Hk.
    destruct (Hall _ Hk) as (a' & Ha' & Hp). exists a. split; [|by eapply list_elem_of_lookup_2].
    cbn in *. congruence.
Qed.

Definition replayed space s (er : N * EpochRow) (r : BroadcastReplay Json) : Prop :=
  bc_epoch (rp_broadcast r) = er.1 ∧ rp_closed_at r = er_closed_at er.2
  ∧ ack_read space er.1 s (rp_acknowledgements r).

Lemma replay_row_ok space e row s n : store_inv s → 0 < e → readable space e row →
  ∃ r n', replay_row (Json := Json) space (e - 1) e row s n = (Ok r, s, n') ∧ replayed space s (e, row) r.
Proof.
  intros Hi He (Hsum & b & Hj & Hv & Hs & Hb & Hx).
  destruct (broadcast_read_back b _ Hv Hx Hj) as (b' & Hp & Hv' & Hs' & Hb').
  destruct (replay_acks_ok space e s Hi) as (acks & Hm & Hr).
  eexists _, _. split.
  - unfold replay_row. rewrite (bind_step _ _ _ s _ tt n) by (apply ensure_ok, N.eqb_eq; lia).
    rewrite (bind_step _ _ _ s _ tt n) by (apply ensure_ok, bool_decide_eq_true; by rewrite Hsum).
    rewrite (bind_step _ _ _ s _ b' n) by (unfold lift; by rewrite Hp).
    rewrite (bind_step _ _ _ s _ tt n) by (unfold lift; by rewrite Hv').
    rewrite (bind_step _ _ _ s _ tt n) by (apply ensure_ok, bool_decide_eq_true; congruence).
    rewrite (bind_step _ _ _ s _ tt n) by (apply ensure_ok, N.eqb_eq; congruence).
    rewrite (bind_step _ _ _ s _ tt (n + 1)) by apply statement_ok.
    rewrite (bind_step _ _ _ s _ s (n + 1)) by done.
    rewrite (bind_step _ _ _ s _ acks (n + 1)) by (unfold lift; by rewrite Hm). done.
  - split_and!; cbn; [congruence|done|done].
Qed.

Lemma head_is_least (l : list (N * EpochRow)) e row seen top :
  StronglySorted by_first ((e, row) :: l) → (∀ x, x ∈ ((e, row) :: l).*1 ↔ seen < x ≤ top) → e = seen + 1.
Proof.
  intros Hs%StronglySorted_inv Hd. destruct Hs as [_ Hle]. assert (seen < e ≤ top) as He by (apply Hd; constructor).
  assert (seen + 1 ∈ ((e, row) :: l).*1) as Hin by (apply Hd; lia).
  cbn in Hin. apply elem_of_cons in Hin as [->|Hin]; [done|]. apply list_elem_of_fmap in Hin as (x & Heq & Hx).
  eapply Forall_forall in Hle; [|done]. unfold by_first in Hle. cbn in Hle. lia.
Qed.

Lemma replay_rows_ok space s top rows seen n :
  store_inv s → StronglySorted by_first rows → NoDup rows.*1 → (∀ x, x ∈ rows.*1 ↔ seen < x ≤ top) →
  (∀ er, er ∈ rows → readable space er.1 er.2) →
  ∃ rs n', replay_rows (Json := Json) space seen rows s n = (Ok rs, s, n') ∧ Forall2 (replayed space s) rows rs.
Proof.
  intros Hi. revert seen n. induction rows as [|[e row] rows IH]; intros seen n Hs Hnd Hd Hr; [by eexists [], n|].
  pose proof (head_is_least _ _ _ _ _ Hs Hd) as ->.
  destruct (replay_row_ok space (seen + 1) row s n) as (r & n1 & Hrow & Hrep); [done|lia|apply (Hr (_, _)); constructor|].
  replace (seen + 1 - 1) with seen in Hrow by lia.
  cbn in Hnd. apply NoDup_cons in Hnd as [Hnin Hnd].
  destruct (IH (seen + 1) n1) as (rs & n2 & Hrs & Hreps).
  - by apply StronglySorted_inv in Hs as [? _].
  - done.
  - intros x. specialize (Hd x). cbn in Hd. rewrite elem_of_cons in Hd. split.
    + intros Hx. assert (x ≠ seen + 1) by (intros ->; done). assert (seen < x ≤ top) by tauto. lia.
    + intros Hx. destruct Hd as [_ [->|?]]; [lia|lia|done].
  - intros er Her. apply Hr. by constructor.
  - exists (r :: rs), n2. split; [|by constructor]. cbn. rewrite (bind_step _ _ _ _ _ _ _ Hrow).
    by rewrite (bind_step _ _ _ _ _ _ _ Hrs).
Qed.

Lemma NoDup_omap {A B} (f : A → option B) l :
  (∀ x y z, x ∈ l → y ∈ l → f x = Some z → f y = Some z → x = y) → NoDup l → NoDup (omap f l).
Proof.
  intros Hinj Hnd. induction Hnd as [|x l Hx Hnd IH]; cbn; [constructor|].
  assert (NoDup (omap f l)) as Hl by (apply IH; intros; eapply Hinj; eauto using list_elem_of_further).
  destruct (f x) as [z|] eqn:Hz; [|done]. constructor; [|done].
  intros (y & Hy & Hfy)%list_elem_of_omap. assert (x = y) as <-; [|done].
  eapply Hinj; eauto using list_elem_of_further, list_elem_of_here.
Qed.

Lemma NoDup_epoch_rows space s : NoDup (epoch_rows space s).*1.
Proof.
  apply NoDup_fmap_2_strong.
  - intros [e row] [e' row'] Hr Hr'. cbn. intros <-. apply elem_of_epoch_rows in Hr, Hr'. congruence.
  - unfold epoch_rows. rewrite sort_by_perm. apply NoDup_omap; [|apply NoDup_map_to_list].
    intros [[sp e] row] [[sp' e'] row'] z _ _; cbn. repeat case_decide; [|done..]. congruence.
Qed.

Lemma replay_epoch_ok space s e row n :
  store_inv s → (∀ e row, st_epochs s !! (space, e) = Some row → readable space e row) →
  st_epochs s !! (space, e) = Some row →
  ∃ r n', replay_epoch (Json := Json) space e s n = (Ok r, s, n') ∧ replayed space s (e, row) r.
Proof.
  intros Hi Hr Hk. pose proof (NoDup_epoch_rows space s) as Hnd.
  destruct (replay_rows_ok space s (last_epoch space s) (epoch_rows space s) 0 (n + 1)) as (rs & n1 & Hrs & Hall).
  - done.
  - apply sort_by_sorted; [intros ???; unfold by_first; lia|intros ??; unfold by_first; lia].
  - done.
  - intros x. rewrite list_elem_of_fmap. split.
    + intros ([x' r] & -> & Hx%elem_of_epoch_rows). cbn. split; [by eapply si_positive|].
      unfold last_epoch. destruct (max_epoch space s) as [m|] eqn:Hm; cbn; [|by rewrite (max_epoch_none _ _ Hm) in Hx].
      eapply (max_epoch_some _ _ _ Hm). by rewrite Hx.
    + intros Hx. destruct (below_last space s x) as [r Hxr]; [done|done|]. exists (x, r).
      split; [done|]. by apply elem_of_epoch_rows.
  - intros [e' r] Her%elem_of_epoch_rows. by apply Hr.
  - apply elem_of_epoch_rows, list_elem_of_lookup in Hk as [k Hk].
    destruct (Forall2_lookup_l _ _ _ _ _ Hall Hk) as (r & Hkr & Hrep).
    assert (r ∈ filter (λ r, bc_epoch (rp_broadcast r) = e) rs) as Hin.
    { apply list_elem_of_filter. split; [apply Hrep|by eapply list_elem_of_lookup_2]. }
    destruct (filter _ rs) as [|r0 l] eqn:Hf; [by apply not_elem_of_nil in Hin|].
    assert (r0 ∈ filter (λ r, bc_epoch (rp_broadcast r) = e) rs) as [He0 Hin0]%list_elem_of_filter
      by (rewrite Hf; constructor).
    apply list_elem_of_lookup in Hin0 as [k0 Hk0]. destruct (Forall2_lookup_r _ _ _ _ _ Hall Hk0) as ([e0 row0] & Hkr0 & Hrep0).
    assert (e0 = e) as -> by (destruct Hrep0 as [? _]; cbn in *; congruence).
    assert (k0 = k) as ->.
    { eapply NoDup_lookup; [exact Hnd|..]; rewrite list_lookup_fmap; [rewrite Hkr0|rewrite Hk]; done. }
    assert (row0 = row) as -> by congruence. exists r0, n1. split; [|done].
    unfold replay_epoch, replay. erewrite bind_step; [|].
    2:{ rewrite (bind_step _ _ _ s _ tt (n + 1)) by apply statement_ok.
        rewrite (bind_step _ _ _ s _ s (n + 1)) by done. exact Hrs. }
    unfold ok_or. by rewrite Hf.
Qed.

(** ** Opening the next epoch *)

Lemma distinct_NoDup ids : NoDup ids → distinct ids = true.
Proof.
  intros Hnd. apply bool_decide_eq_true.
  assert (dedup (sort_by N.le ids) ≡ₚ ids) as ->; [|done].
  apply NoDup_Permutation; [|done|].
  - apply (dedup_NoDup N.le), sort_by_sorted; [intros ???; lia|intros ??; lia].
  - intros x. by rewrite elem_of_dedup, sort_by_perm.
Qed.

(** What the competition guarantees of a fresh selection. *)
Definition fresh (p : CandidatePool Json) (sel : SelectionResult Json) : Prop :=
  ∃ scored w rest, sr_selected sel = w :: rest ∧ selection p scored sel w rest.

Lemma config_coalition_max cfg : Competition.config_validate cfg = Ok tt → pc_max_coalition cfg ≤ 32.
Proof.
  unfold Competition.config_validate. intros Hv. inv_ok Hv. rewrite !andb_true_iff, !N.leb_le in *. lia.
Qed.

Lemma fresh_from_selection p sel e dv wv :
  pool_inv p → fresh p sel → 0 < e → 0 < wv →
  ∃ b, from_selection e sel dv wv = Ok b ∧ bc_space b = cp_space p.
Proof.
  intros Hp (scored & w & rest & Hsel & Hs) He Hwv.
  assert (∀ c, c ∈ w :: rest → wc_space c = cp_space p ∧ validate c = Ok tt) as Hc.
  { intros c Hc%(sl_pending _ _ _ _ _ Hs). by destruct (tb_candidate _ _ _ (pi_tables _ Hp) _ _ Hc) as (_ & ? & ?). }
  pose proof (sl_coalition _ _ _ _ _ Hs). pose proof (config_coalition_max _ (pi_config _ Hp)).
  assert (count (w :: rest) <=? MAX_BROADCAST_WINNERS = true) as Hcount by (apply N.leb_le; unfold MAX_BROADCAST_WINNERS; lia).
  destruct (Hc w (list_elem_of_here _ _)) as [Hspace _]. destruct (wk_contents Hw (wc_content <$> w :: rest)) as [json Hjson].
  apply N.ltb_lt in He, Hwv.
  set (b := {| bc_schema_version := WORKSPACE_SCHEMA_V1; bc_epoch := e; bc_space := wc_space w;
               bc_winner_ids := wc_id <$> w :: rest; bc_contents := wc_content <$> w :: rest;
               bc_selected := w :: rest; bc_selected_because := sr_explanation sel;
               bc_dasein_version := dv; bc_workspace_version := wv |}).
  assert (broadcast_validate b = Ok tt) as Hv.
  { unfold broadcast_validate, b. cbn [bc_schema_version bc_epoch bc_workspace_version bc_selected bc_space
      bc_winner_ids bc_selected_because bc_contents].
    pass; [done|]. pass; [done|]. pass; [done|]. pass; [by rewrite Hcount|].
    apply bind_ok. exists tt. split.
    { apply each_ok, Forall_forall. intros c Hin. destruct (Hc c Hin) as [Hcs Hcv]. apply bind_ok. exists tt.
      split; [done|]. apply need_ok, bool_decide_eq_true. by rewrite Hcs, Hspace. }
    pass; [apply distinct_NoDup, (sl_NoDup _ _ _ _ _ Hs)|]. pass; [by apply bool_decide_eq_true|].
    pass; [apply bool_decide_eq_true, (sl_ids _ _ _ _ _ Hs)|]. rewrite Hjson.
    apply bind_ok. exists json. split; [done|]. apply bind_ok. exists json. split; [done|].
    by apply need_ok, bool_decide_eq_true. }
  exists b. split; [|exact Hspace]. unfold from_selection. rewrite Hsel.
  pass; [done|]. pass; [done|]. pass; [by rewrite Hcount|].
  apply bind_ok. exists w. split; [done|]. apply bind_ok. by exists tt.
Qed.

(** The row that [open_new] adds. *)
Lemma open_new_ok p sel key dv wv opened s n :
  pool_inv p → fresh p sel → 0 < wv ≤ i64_max → last_epoch (cp_space p) s < i64_max →
  forallb score_finite (se_evaluated (sr_explanation sel)) = true →
  ∃ b row n', open_new (Json := Json) (cp_space p) key sel dv wv opened s n =
    (Ok b, with_epochs (insert (cp_space p, last_epoch (cp_space p) s + 1) row) s, n')
    ∧ bc_space b = cp_space p ∧ bc_epoch b = last_epoch (cp_space p) s + 1 ∧ bc_selected b = sr_selected sel
    ∧ broadcast_validate b = Ok tt ∧ readable (cp_space p) (last_epoch (cp_space p) s + 1) row
    ∧ er_closed_at row = None ∧ er_opened_at row = opened.
Proof.
  intros Hp Hf Hwv Hlast Hfin.
  destruct (fresh_from_selection p sel (last_epoch (cp_space p) s + 1) dv wv Hp Hf) as (b & Hb & Hs); [lia..|].
  destruct (from_selection_ok _ _ _ _ _ Hb) as (Hv & He & Hsel & Hbec & Hbwv & _).
  destruct (wk_broadcast Hw b) as [json Hj]. 
  eexists b, _, _. split; [|split_and!; [done..| | |]].
  - unfold open_new. rewrite (bind_step _ _ _ s _ tt (n + 1)) by apply statement_ok.
    rewrite (bind_step _ _ _ s _ s (n + 1)) by done. fold (last_epoch (cp_space p) s). cbn zeta.
    rewrite (bind_step _ _ _ s _ tt (n + 1)) by (apply ensure_ok, N.leb_le; unfold u64_max, i64_max in *; lia).
    rewrite (bind_step _ _ _ s _ b (n + 1)) by (unfold lift; by rewrite Hb).
    erewrite bind_step; [|].
    2:{ unfold epoch_row. rewrite (bind_step _ _ _ s _ tt (n + 1)) by (unfold lift; by rewrite Hv).
        rewrite (bind_step _ _ _ s _ json (n + 1)) by (unfold lift; by rewrite Hj).
        rewrite (bind_step _ _ _ s _ tt (n + 1)) by (apply sql_u64_ok; lia).
        rewrite (bind_step _ _ _ s _ tt (n + 1)) by (apply sql_u64_ok; lia).
        rewrite (bind_step _ _ _ s _ tt (n + 1 + 1)) by apply statement_ok. reflexivity. }
    rewrite (bind_step _ _ _ s _ tt (n + 1 + 1 + 1)) by apply statement_ok.
    rewrite Hs, He. reflexivity.
  - split; [done|]. exists b. split_and!; [done|done|done|done|]. unfold explained. by rewrite Hbec.
  - done.
  - done.
Qed.

(** ** Delivering *)

#[local] Opaque limit_detail.

Definition ack_of space e process t (r : Reply) : BroadcastAck :=
  {| ba_schema_version := WORKSPACE_SCHEMA_V1; ba_space := space; ba_epoch := e; ba_processor := process;
     ba_response_ids := (ack_parts r).1.2; ba_status := (ack_parts r).1.1; ba_observed_at := t;
     ba_detail := (ack_parts r).2 |}.

Lemma ack_parts_shape r :
  match ack_parts r with
  | (Responded, ids, None) => ids ≠ [] ∧ count ids <=? MAX_BROADCAST_RESPONSES = true ∧ distinct ids = true
  | (Delivered, ids, None) => ids = []
  | ((Failed | TimedOut), ids, Some _) => ids = []
  | _ => False
  end.
Proof.
  destruct r as [ids| | |]; cbn [ack_parts]; [|reflexivity..].
  destruct (valid_response_ids ids) eqn:Hv; [|reflexivity]. apply andb_true_iff in Hv.
  destruct ids; cbn [is_nil]; [reflexivity|]. split; [discriminate|exact Hv].
Qed.

Lemma ack_of_valid space e process t r :
  0 < e → recordable r = true → ack_validate (ack_of space e process t r) = Ok tt.
Proof.
  intros He%N.ltb_lt. unfold recordable, fits, ack_validate, ack_of.
  cbn [ba_schema_version ba_epoch ba_response_ids ba_status ba_detail].
  pose proof (ack_parts_shape r) as Hs. destruct (ack_parts r) as [[status ids] detail]. cbn [fst snd]. intros Hr.
  pass; [done|]. pass; [done|].
  destruct status, detail as [v|]; try done; subst; try (destruct Hs as (Hne & Hc & Hd)).
  - pass; [done|]. pass; [done|]. apply bind_ok. exists tt. by destruct ids.
  - done.
  - apply andb_true_iff in Hr as [Hb Hl]. do 2 (pass; [done|]). pass; [by rewrite Hb|]. apply need_ok. by rewrite Hb, Hl.
  - apply andb_true_iff in Hr as [Hb Hl]. do 2 (pass; [done|]). pass; [by rewrite Hb|]. apply need_ok. by rewrite Hb, Hl.
Qed.

Section Tasks.
Context (space : AgoraSpaceId) (e : N) (row : EpochRow) (t : WallTime).
Context (Hpos : 0 < e) (Hsmall : e ≤ i64_max) (Hopen : er_closed_at row = None).

Lemma run_task_ok (d : BroadcastDelivery Json) s n :
  st_epochs s !! (space, e) = Some row → bd_space d = space → bd_epoch d = e →
  st_acks s !! (space, e, bd_recipient d) = None →
  ∃ ack arow n', run_task t d s n =
    (Ok ack, with_acks (insert (space, e, bd_recipient d) arow) s, n').
Proof.
  intros Hrow Hs He Hnone. set (a := ack_of space e (bd_recipient d) t (receive (bd_recipient d) d n)).
  assert (ack_validate a = Ok tt) as Hv by (apply ack_of_valid; [done|by apply wk_reply]).
  destruct (wk_ack Hw a) as [json Hj]. eexists a, _, _.
  unfold run_task. rewrite (bind_step _ _ _ s _ n (n + 1)) by done. rewrite Hs, He.
  destruct (ack_parts _) as [[status ids] detail] eqn:Hparts.
  assert (a = {| ba_schema_version := WORKSPACE_SCHEMA_V1; ba_space := space; ba_epoch := e;
                 ba_processor := bd_recipient d; ba_response_ids := ids; ba_status := status;
                 ba_observed_at := t; ba_detail := detail |}) as Ha by (unfold a, ack_of; by rewrite Hparts).
  rewrite <-Ha. rewrite (bind_step _ _ _ s _ tt (n + 1)) by (unfold lift; by rewrite Hv).
  erewrite bind_step; [reflexivity|].
  unfold append_ack. rewrite (bind_step _ _ _ s _ tt (n + 1)) by (unfold lift; by rewrite Hv).
  rewrite (bind_step _ _ _ s _ json (n + 1)) by (unfold lift; by rewrite Hj).
  rewrite (bind_step _ _ _ s _ tt (n + 1)) by (apply sql_u64_ok; done).
  rewrite (bind_step _ _ _ s _ tt (n + 1 + 1)) by apply statement_ok.
  rewrite (bind_step _ _ _ s _ s (n + 1 + 1)) by done.
  rewrite (bind_step _ _ _ s _ row (n + 1 + 1)) by (unfold ok_or; change (ba_space a, ba_epoch a) with (space, e); by rewrite Hrow).
  rewrite (bind_step _ _ _ s _ tt (n + 1 + 1)) by (apply ensure_ok; by apply bool_decide_eq_true).
  rewrite (bind_step _ _ _ s _ tt (n + 1 + 1 + 1)) by apply statement_ok.
  change (ba_space a, ba_epoch a, ba_processor a) with (space, e, bd_recipient d). rewrite Hnone.
  rewrite (bind_step _ _ _ s _ tt (n + 1 + 1 + 1 + 1)) by apply statement_ok. reflexivity.
Qed.

Lemma join_all_ok (tasks : list (BroadcastDelivery Json)) s n :
  st_epochs s !! (space, e) = Some row → (∀ d, d ∈ tasks → bd_space d = space ∧ bd_epoch d = e) →
  NoDup (bd_recipient <$> tasks) → (∀ d, d ∈ tasks → st_acks s !! (space, e, bd_recipient d) = None) →
  ∃ acks s' n', join_all t tasks s n = (Ok acks, s', n') ∧ st_epochs s' = st_epochs s ∧
    ∀ k, is_Some (st_acks s' !! k) ↔
         is_Some (st_acks s !! k) ∨ k ∈ (λ d, (space, e, bd_recipient d)) <$> tasks.
Proof.
  revert s n. induction tasks as [|d tasks IH]; intros s n Hrow Hd Hnd Hnone.
  { eexists [], s, n. split_and!; [done..|]. set_solver. }
  cbn in Hnd. apply NoDup_cons in Hnd as [Hnin Hnd].
  destruct (run_task_ok d s n Hrow) as (ack & arow & n1 & Hrun); [apply Hd, list_elem_of_here|apply Hd, list_elem_of_here|apply Hnone, list_elem_of_here|].
  destruct (IH (with_acks (insert (space, e, bd_recipient d) arow) s) n1) as (acks & s2 & n2 & Hj & He2 & Ha2).
  - done.
  - intros d' Hin. apply Hd. by constructor.
  - done.
  - intros d' Hin. cbn. rewrite lookup_insert_ne; [apply Hnone; by constructor|].
    intros [= Heq]. apply Hnin. rewrite Heq. by apply list_elem_of_fmap_2.
  - exists (ack :: acks), s2, n2. split_and!; [|done|].
    + cbn [join_all]. rewrite (bind_step _ _ _ (with_acks (insert (space, e, bd_recipient d) arow) s) _ (inr ack) n1).
      { by rewrite (bind_step _ _ _ _ _ _ _ Hj). }
      unfold try_. by rewrite Hrun.
    + intros k. rewrite Ha2. cbn. rewrite elem_of_cons, lookup_insert. case_decide as Hk.
      * subst k. split; [auto|]. intros _. left. by eexists.
      * split; [intros [?|?]; auto|]. intros [?|[->|?]]; [by left|done|by right].
Qed.

End Tasks.

(** A hub's registrations are under their own identifiers, as [register] puts them. *)
Definition hub_ok (h : BroadcastHub) : Prop := ∀ k r, bh_processors h !! k = Some r → pr_process r = k.

Lemma register_hub_ok r h n : hub_ok h →
  wp (register r) (λ _ h' _, hub_ok h') h n.
Proof.
  intros Hh. unfold register. wp_steps; try done.
  intros k r' Hk. cbn in Hk. apply lookup_insert_Some in Hk as [[<- <-]|[_ ?]]; [done|by apply Hh].
Qed.

Lemma NoDup_registrations h n : hub_ok h → NoDup (pr_process <$> hash_values n (bh_processors h)).
Proof.
  intros Hh. unfold hash_values. rewrite (hash_order_perm n).
  replace (pr_process <$> (map_to_list (bh_processors h)).*2) with (map_to_list (bh_processors h)).*1;
    [apply NoDup_fst_map_to_list|].
  rewrite <-list_fmap_compose. apply list_fmap_ext. intros i [k r] Hk. cbn. symmetry. apply Hh.
  by apply elem_of_map_to_list; apply list_elem_of_lookup_2 in Hk.
Qed.

Lemma delivery_valid (b : WorkspaceBroadcast Json) checksum r :
  broadcast_validate b = Ok tt → broadcast_checksum b = Ok checksum → eligible_candidates (bc_selected b) r ≠ [] →
  delivery_validate (delivery_for b checksum r) = Ok tt.
Proof.
  intros Hv Hsum Hne. unfold broadcast_checksum in Hsum. inv_ok Hsum. injection Hsum as <-.
  destruct (sha256_hex a0) as [Hlen Hhex]. unfold broadcast_validate in Hv. inv_ok Hv.
  unfold delivery_validate, delivery_for.
  cbn [bd_schema_version bd_epoch bd_workspace_version bd_broadcast_checksum bd_selected bd_space bd_recipient
    bd_recipient_agent_root].
  pass; [done|]. pass; [done|]. pass; [done|]. pass; [by rewrite Hlen, Hhex|].
  pass; [by destruct (eligible_candidates _ _)|]. apply each_ok, Forall_forall.
  intros c [Hvis Hc]%list_elem_of_filter.
  match goal with Hall : Forall _ (bc_selected b) |- _ => eapply Forall_forall in Hall as Hcv; [|exact Hc] end.
  apply bind_ok in Hcv as ([] & Hval & Hsp%need_ok). apply bind_ok. exists tt. split; [done|].
  pass; [done|]. by apply need_ok.
Qed.

Lemma deliver_ok h (b : WorkspaceBroadcast Json) row t s n :
  hub_ok h → store_inv s → broadcast_validate b = Ok tt → bc_epoch b ≤ i64_max →
  (∀ e row, st_epochs s !! (bc_space b, e) = Some row → readable (bc_space b) e row) →
  st_epochs s !! (bc_space b, bc_epoch b) = Some row → er_closed_at row = None →
  (∀ p, st_acks s !! (bc_space b, bc_epoch b, p) = None) →
  ∃ acks s' n', deliver h b t s n = (Ok acks, s', n') ∧ st_epochs s' = st_epochs s ∧
    ∀ p, is_Some (st_acks s' !! (bc_space b, bc_epoch b, p)) ↔
         ∃ r, bh_processors h !! p = Some r ∧ eligible_candidates (bc_selected b) r ≠ [].
Proof.
  intros Hh Hi Hv Hsmall Hread Hrow Hopen Hnone.
  destruct (wk_broadcast Hw b) as [json Hj].
  assert (broadcast_checksum b = Ok (sha256 json)) as Hsum.
  { unfold broadcast_checksum. rewrite Hv. cbn. by rewrite Hj. }
  destruct (replay_epoch_ok (bc_space b) s (bc_epoch b) row n Hi Hread Hrow) as (rp & n1 & Hrp & _ & Hcl & Hacks).
  assert (rp_acknowledgements rp = []) as Hnil.
  { destruct (rp_acknowledgements rp) as [|a l] eqn:Heq; [done|]. cbn in Hacks. unfold ack_read in Hacks.
    destruct (Hacks (ba_processor a)) as [[x Hx] _]; [constructor|]. by rewrite Hnone in Hx. }
  set (regs := recipients b [] (hash_values n1 (bh_processors h))).
  set (tasks := completion (n1 + 1) _ (delivery_for b (sha256 json) <$> regs)).
  assert (∀ d, d ∈ tasks ↔ ∃ r, r ∈ regs ∧ d = delivery_for b (sha256 json) r) as Htasks.
  { intros d. unfold tasks. rewrite (completion_perm (n1 + 1)), list_elem_of_fmap. naive_solver. }
  assert (∀ r, r ∈ regs ↔ bh_processors h !! pr_process r = Some r ∧ eligible_candidates (bc_selected b) r ≠ []) as Hregs.
  { intros r. unfold regs, recipients. rewrite list_elem_of_filter, elem_of_hash_values. split.
    - intros [[_ Hne] [k Hk]]. split; [|done]. by rewrite (Hh _ _ Hk).
    - intros [Hk Hne]. split; [|by exists (pr_process r)]. split; [apply not_elem_of_nil|done]. }
  assert (0 < bc_epoch b) as Hpos by (by eapply si_positive).
  destruct (join_all_ok (bc_space b) (bc_epoch b) row t Hpos Hsmall Hopen tasks s (n1 + 1 + 1)) as (acks & s' & n2 & Hjoin & He & Ha).
  - done.
  - by intros d (r & _ & ->)%Htasks.
  - unfold tasks. rewrite (completion_perm (n1 + 1)), <-list_fmap_compose.
    change (NoDup (pr_process <$> regs)). apply NoDup_fmap_2_strong.
    + intros r r' [Hr _]%Hregs [Hr' _]%Hregs Heq. rewrite Heq in Hr. congruence.
    + by apply NoDup_filter, (NoDup_fmap_1 pr_process), NoDup_registrations.
  - done.
  - eexists _, s', n2. split; [|split; [done|]].
    + unfold deliver. rewrite (bind_step _ _ _ s _ tt n) by (unfold lift; by rewrite Hv).
      rewrite (bind_step _ _ _ s _ (sha256 json) n) by (unfold lift; by rewrite Hsum).
      rewrite (bind_step _ _ _ _ _ _ _ Hrp). cbn [snd] in Hcl. rewrite Hcl, Hopen.
      rewrite (bind_step _ _ _ s _ n1 (n1 + 1)) by done. rewrite Hnil. fold regs.
      rewrite (bind_step _ _ _ s _ tt (n1 + 1)).
      2:{ unfold lift. f_equal. f_equal. apply each_ok, Forall_forall.
          intros d (r & -> & [_ Hne]%Hregs)%list_elem_of_fmap. by apply delivery_valid. }
      rewrite (bind_step _ _ _ s _ (n1 + 1) (n1 + 1 + 1)) by done. fold tasks.
      rewrite (bind_step _ _ _ _ _ _ _ Hjoin). reflexivity.
    + intros p. rewrite Ha, Hnone, list_elem_of_fmap. split.
      * intros [[? ?]|(d & [= ->] & (r & Hr & ->)%Htasks)]; [done|]. exists r. by apply Hregs.
      * intros (r & Hr & Hne). right. exists (delivery_for b (sha256 json) r). split; [by rewrite <-(Hh _ _ Hr)|].
        apply Htasks. exists r. split; [|done]. apply Hregs. by rewrite (Hh _ _ Hr).
Qed.

(** ** The whole broadcast *)

(** The store can take a selection: its rows can be read back, there is room for
    an epoch, and the selection has not been broadcast before. *)
Record store_ready space (sel : SelectionResult Json) dv wv s : Prop := {
  sy_inv : store_inv (Json := Json) s;
  sy_readable : ∀ e row, st_epochs s !! (space, e) = Some row → readable space e row;
  sy_room : last_epoch space s < i64_max;
  sy_new : ∀ key, selection_key sel dv wv = Ok key → row_with_key space key s = None;
}.

Lemma selection_key_ok (sel : SelectionResult Json) dv wv : ∃ key, selection_key sel dv wv = Ok key.
Proof. destruct (wk_key Hw sel dv wv) as [json Hj]. exists (sha256 json). unfold selection_key. by rewrite Hj. Qed.

Lemma open_selection_ok p sel dv wv opened s n :
  pool_inv p → fresh p sel → store_ready (cp_space p) sel dv wv s → 0 < wv ≤ i64_max →
  forallb score_finite (se_evaluated (sr_explanation sel)) = true →
  ∃ b row n', open_selection sel dv wv opened s n =
    (Ok b, with_epochs (insert (cp_space p, last_epoch (cp_space p) s + 1) row) s, n')
    ∧ bc_space b = cp_space p ∧ bc_epoch b = last_epoch (cp_space p) s + 1 ∧ bc_selected b = sr_selected sel
    ∧ broadcast_validate b = Ok tt ∧ readable (cp_space p) (last_epoch (cp_space p) s + 1) row
    ∧ er_closed_at row = None ∧ er_opened_at row = opened.
Proof.
  intros Hp Hf [Hi Hr Hroom Hnew] Hwv Hfin. destruct (selection_key_ok sel dv wv) as [key Hkey].
  destruct (open_new_ok p sel key dv wv opened s (n + 1 + 1) Hp Hf Hwv Hroom Hfin) as (b & row & n' & Hopen & Hrest).
  exists b, row, n'. split; [|done]. destruct Hf as (scored & w & rest & Hsel & Hs).
  assert (wc_space w = cp_space p) as Hspace.
  { pose proof (sl_pending _ _ _ _ _ Hs w (list_elem_of_here _ _)) as Hw'.
    by destruct (tb_candidate _ _ _ (pi_tables _ Hp) _ _ Hw') as (_ & ? & _). }
  unfold open_selection. rewrite (bind_step _ _ _ s _ w n) by (unfold ok_or; by rewrite Hsel).
  rewrite (bind_step _ _ _ s _ tt (n + 1)) by apply statement_ok.
  rewrite (bind_step _ _ _ s _ key (n + 1)) by (unfold lift; by rewrite Hkey).
  rewrite (bind_step _ _ _ s _ tt (n + 1 + 1)) by apply statement_ok.
  rewrite (bind_step _ _ _ s _ s (n + 1 + 1)) by done. by rewrite Hspace, (Hnew _ Hkey).
Qed.

Lemma close_epoch_ok space e row t s n :
  st_epochs s !! (space, e) = Some row → e ≤ i64_max → er_closed_at row = None → (er_opened_at row ≤ t)%Z →
  ∃ n', close_epoch space e t s n = (Ok tt, with_epochs (insert (space, e) (closed t row)) s, n').
Proof.
  intros Hrow He Hopen Ht. eexists. unfold close_epoch. rewrite (bind_step _ _ _ s _ tt n) by by apply sql_u64_ok.
  rewrite (bind_step _ _ _ s _ tt (n + 1)) by apply statement_ok.
  rewrite (bind_step _ _ _ s _ s (n + 1)) by done. rewrite Hrow, Hopen.
  rewrite (bind_step _ _ _ s _ tt (n + 1 + 1)) by apply statement_ok.
  rewrite (bind_step _ _ _ s _ tt (n + 1 + 1)) by (apply ensure_ok; by apply bool_decide_eq_true).
  rewrite (bind_step _ _ _ s _ tt (n + 1 + 1 + 1)) by apply statement_ok. reflexivity.
Qed.

Lemma on_store_step {A B} (m : M Store string A) (k : A → M (CandidatePool Json * Store) string B) p s n a s' n' :
  m s n = (Ok a, s', n') → (on_store m ≫= k) (p, s) n = k a (p, s') n'.
Proof. intros Hm. unfold mbind, M_bind, on_store, zoom. cbn [snd]. by rewrite Hm. Qed.

Lemma select_fresh now p0 p sel :
  pool_inv p0 → select now p0 = Ok (sel, p) → sr_selected sel ≠ [] → pool_inv p ∧ fresh p sel.
Proof.
  intros Hp0 Hsel Hne. destruct (select_total now p0 Hp0) as (l & Heq & Hl). rewrite Hsel in Heq.
  injection Heq as -> ->. pose proof (cycled_inv now p0 Hp0) as Hp. split; [done|].
  destruct (sr_selected _) as [|w rest] eqn:Hw' in Hne; [done|].
  exists (sort_by precedes l), w, rest. split; [done|]. by eapply winner_first.
Qed.

(** C29. A non-empty selection that has just been made in a reachable pool, with
    finite scores, is broadcast when the database works and the answers of the
    processors can be recorded (the rows of the space can be read back and there is
    room for another epoch, the selection was not broadcast before, the window is
    positive, and the epoch is not closed before it was opened): the broadcast has the next epoch of its space and
    carries exactly the selected candidates; afterwards the epoch is closed, a
    processor has acknowledged it if and only if it is registered and may see
    some selected candidate, and the selected candidates have left the pool. *)
Theorem broadcast_reaches_processors h space cfg p0 calls p1 now sel p dv wv opened closed_ s n :
  hub_ok h → Competition.new space cfg = Ok p0 → run_calls p0 calls = Some p1 → select now p1 = Ok (sel, p) →
  sr_selected sel ≠ [] → forallb score_finite (se_evaluated (sr_explanation sel)) = true →
  store_ready (cp_space p) sel dv wv s → 0 < wv ≤ i64_max → (opened ≤ closed_)%Z →
  ∃ b p' s' n', broadcast_selection h sel dv wv opened closed_ (p, s) n = (Ok b, (p', s'), n') ∧
    bc_space b = cp_space p ∧ bc_epoch b = last_epoch (cp_space p) s + 1 ∧ bc_selected b = sr_selected sel ∧
    (∃ row, st_epochs s' !! (bc_space b, bc_epoch b) = Some row ∧ er_closed_at row = Some closed_) ∧
    (∀ process, is_Some (st_acks s' !! (bc_space b, bc_epoch b, process)) ↔
       ∃ r, bh_processors h !! process = Some r ∧ eligible_candidates (sr_selected sel) r ≠ []) ∧
    (∀ id, cp_candidates p' !! id = if decide (id ∈ wc_id <$> sr_selected sel) then None else cp_candidates p !! id).
Proof.
  intros Hh Hn%pool_new_inv Hrun Hselect Hne Hfin Hready Hwv Ht.
  destruct (run_calls_inv calls p0 Hn) as (p1' & Hrun' & Hp1). assert (p1' = p1) as -> by congruence.
  destruct (select_fresh now p1 p sel Hp1 Hselect Hne) as [Hp Hf].
  assert (validate_selection p sel = Ok tt) as Hval.
  { destruct Hf as (scored & w & rest & Hsel & Hs). by eapply fresh_selection_validates. }
  destruct (open_selection_ok p sel dv wv opened s n Hp Hf Hready Hwv Hfin)
    as (b & row & n1 & Hopen & Hspace & Hepoch & Hbsel & Hv & Hrow & Hro & Hop).
  destruct Hready as [Hi Hread Hroom _]. set (e := last_epoch (cp_space p) s + 1) in *.
  set (s1 := with_epochs (insert (cp_space p, e) row) s) in *.
  destruct (insert_epoch_ok (cp_space p) s row Hi) as [Hi1 _].
  { destruct Hrow as (? & b' & ? & ? & ? & ? & _). split; [done|]. by exists b'. }
  destruct (deliver_ok h b row closed_ s1 n1) as (acks & s2 & n2 & Hdel & He2 & Hacks); try done.
  - unfold i64_max in *. lia.
  - rewrite Hspace. unfold s1. cbn. intros e' row' [[[= <-] <-]|[_ Hk]]%lookup_insert_Some; [done|by apply Hread].
  - rewrite Hspace, Hepoch. apply lookup_insert_eq.
  - intros q. rewrite Hspace, Hepoch. apply eq_None_not_Some. intros [a Ha]. cbn in Ha.
    destruct (si_ack _ Hi _ _ _ _ Ha) as [_ [r Hr]]. pose proof (last_epoch_free (cp_space p) s). unfold e in Hr. congruence.
  - destruct (close_epoch_ok (bc_space b) (bc_epoch b) row closed_ s2 n2) as [n3 Hclose].
    { rewrite He2, Hspace, Hepoch. apply lookup_insert_eq. }
    { unfold i64_max in *. lia. }
    { done. }
    { by rewrite Hop. }
    destruct (finalize_spec sel p n3 Hp Hval) as (p' & Hfin' & _ & Hm).
    eexists b, p', _, n3. split; [|split_and!; [done|done|done| | |done]].
    + unfold broadcast_selection. rewrite (bind_step _ _ _ (p, s) _ (p, s) n) by done. cbn [fst].
      rewrite (bind_step _ _ _ (p, s) _ tt n) by (unfold lift; by rewrite Hval).
      rewrite (on_store_step _ _ _ _ _ _ _ _ Hopen), (on_store_step _ _ _ _ _ _ _ _ Hdel),
        (on_store_step _ _ _ _ _ _ _ _ Hclose).
      unfold mbind, M_bind, on_pool, zoom. cbn [fst]. rewrite Hfin'. reflexivity.
    + eexists. split; [apply lookup_insert_eq|done].
    + intros q. cbn. rewrite Hacks. by rewrite Hbsel.
Qed.

End Live.

(** ** The durable broadcast: a concrete run, and replies that cannot be recorded *)

#[local] Instance BroadcastAckStatus_countable : Countable BroadcastAckStatus.
Proof.
  refine (inj_countable' (λ s, match s with Responded => 0 | Delivered => 1 | Failed => 2 | TimedOut => 3 end)
    (λ n, match n with 0 => Responded | 1 => Delivered | 2 => Failed | _ => TimedOut end) _).
  by intros [].
Defined.

#[local] Instance BroadcastAck_countable : Countable BroadcastAck.
Proof.
  refine (inj_countable'
    (λ a, (ba_schema_version a, ba_space a, ba_epoch a, ba_processor a, ba_response_ids a, ba_status a,
           ba_observed_at a, ba_detail a))
    (λ '(v, sp, e, p, ids, st, t, d),
       {| ba_schema_version := v; ba_space := sp; ba_epoch := e; ba_processor := p; ba_response_ids := ids;
          ba_status := st; ba_observed_at := t; ba_detail := d |}) _).
  by intros [].
Defined.

#[local] Existing Instance sample_candidates.

(** A broadcast with a given space and epoch. *)
Definition sample_in (space : string) (e : N) : WorkspaceBroadcast unit :=
  let c := sample_candidate 7 1 "a" (f32_lit 1 2) [] in
  let c := {| wc_schema_version := 1; wc_id := 7; wc_space := space; wc_source := 1; wc_turn := None;
              wc_content := wc_content c; wc_confidence := wc_confidence c; wc_salience := wc_salience c;
              wc_provenance := wc_provenance c; wc_visibility := Session; wc_dependencies := [];
              wc_created_at := 10; wc_expires_at := None |} in
  {| bc_schema_version := 1; bc_epoch := e; bc_space := space; bc_winner_ids := [7];
     bc_contents := [wc_content c]; bc_selected := [c];
     bc_selected_because := {| se_policy_version := 1; se_evaluated := []; se_selected_ids := [7];
                               se_rejected_below_ignition := [] |};
     bc_dasein_version := 1; bc_workspace_version := 1 |}.

Lemma sample_in_checks `{BroadcastCodec unit} space e json :
  negb (is_blank space) = true → (0 <? e) = true → (∀ l, contents_json l = inr json) →
  broadcast_validate (sample_in space e) = Ok tt.
Proof.
  intros Hs He Hj. unfold broadcast_validate. pass; [done|]. pass; [done|]. pass; [done|]. pass; [done|].
  apply bind_ok. exists tt. split.
  { apply each_ok, Forall_singleton. apply bind_ok. exists tt. split; [|by apply need_ok, bool_decide_eq_true].
    unfold validate. pass; [done|]. pass; [done|]. pass; [by apply bool_decide_eq_true|].
    vm_compute. reflexivity. }
  pass; [vm_compute; reflexivity|]. pass; [by apply bool_decide_eq_true|]. pass; [by apply bool_decide_eq_true|].
  rewrite !Hj. apply bind_ok. exists json. split; [done|]. apply bind_ok. exists json. split; [done|].
  by apply need_ok, bool_decide_eq_true.
Qed.

#[local] Instance sample_codec : BroadcastCodec unit :=
  {| contents_json := λ _, inr "";
     broadcast_json := λ b, inr (show_bits (encode (bc_space b, bc_epoch b)));
     parse_broadcast := λ json,
       match decode (read_bits json) with
       | Some (space, e) => inr (sample_in space e)
       | None => inl "invalid"
       end;
     ack_json := λ a, inr (show_bits (encode a));
     parse_ack := λ json, match decode (read_bits json) with Some a => inr a | None => inl "invalid" end;
     key_json := λ _ _ _, inr "";
     sha256 := λ _, "0123456789abcdef0123456789abcdef0123456789abcdef0123456789abcdef" |}.

Definition sample_hub_env (reply : ProcessId → Reply) : BroadcastEnv unit :=
  {| sql := λ _, None; receive := λ p _ _, reply p; completion := λ _ _ l, l; late := λ _, 0%nat |}.

Definition answering (p : ProcessId) : Reply := if p =? 3 then NoReply else Replied [p].

Lemma sample_laws reply : @BroadcastLaws unit sample_candidates sample_codec (sample_hub_env reply).
Proof.
  split.
  - intros a json [= <-]. cbn. by rewrite read_show, decode_encode.
  - intros b json Hv _ [= <-]. cbn. rewrite read_show, decode_encode. eexists. split; [done|].
    split_and!; [|done|done]. unfold broadcast_validate in Hv. inv_ok Hv.
    assert (negb (is_blank (bc_space b)) = true) as Hblank.
    { destruct (bc_selected b) as [|c l]; [done|].
      match goal with Hall : Forall _ (c :: l) |- _ => apply Forall_cons in Hall as [Hc _] end.
      apply bind_ok in Hc as ([] & Hval & Hsp%need_ok). apply bool_decide_eq_true in Hsp. rewrite <-Hsp.
      unfold validate in Hval. by inv_ok Hval. }
    by apply (sample_in_checks _ _ "").
  - intros s. done.
  - done.
Qed.

Lemma sample_working : @working unit sample_codec (sample_hub_env answering).
Proof.
  split; try (intros; cbn; by eexists). intros p d n. cbn. unfold answering. destruct (p =? 3); reflexivity.
Qed.

(** ** A run *)

Definition sample_hub : BroadcastHub :=
  {| bh_config := BroadcastHub.default_config;
     bh_processors := <[3 := {| pr_process := 3; pr_agent_root := 1 |}]> {[4 := {| pr_process := 4; pr_agent_root := 1 |}]} |}.

Definition pool_before : CandidatePool unit := default sample_pool (run_calls sample_pool sample_calls).

Definition sample_selected : SelectionResult unit * CandidatePool unit :=
  match select 30 pool_before with
  | Ok r => r
  | _ => ({| sr_selected := []; sr_explanation := {| se_policy_version := 0; se_evaluated := [];
              se_selected_ids := []; se_rejected_below_ignition := [] |} |}, sample_pool)
  end.

Lemma broadcast_reaches_processors_witness :
  let env := sample_hub_env answering in
  ∃ b p' s' n',
    broadcast_selection (H1 := env) (H2 := sample_env) sample_hub sample_selected.1 1 1 0 5
      (sample_selected.2, open_store) 0 = (Ok b, (p', s'), n')
    ∧ bc_epoch b = 1 ∧ cp_candidates p' !! 5 = None ∧ is_Some (st_acks s' !! (bc_space b, bc_epoch b, 3)).
Proof.
  intros env. pose proof (sample_laws answering) as Hlaws. pose proof sample_env_ok as Hok.
  destruct (broadcast_reaches_processors (Json := unit) (H1 := env) (HEnv := sample_env) sample_working sample_hub
    "root" Competition.default_config sample_pool sample_calls pool_before 30 sample_selected.1 sample_selected.2 1 1 0 5
    open_store 0) as (b & p' & s' & n' & Hrun & Hsp & He & Hsel & Hrow & Hacks & Hpool).
  - intros k r Hk. unfold sample_hub in Hk. cbn [bh_processors] in Hk. apply lookup_insert_Some in Hk as [[<- <-]|[_ Hk]]; [done|].
    by apply lookup_singleton_Some in Hk as [<- <-].
  - vm_compute. reflexivity.
  - vm_compute. reflexivity.
  - vm_compute. reflexivity.
  - vm_compute. discriminate.
  - vm_compute. reflexivity.
  - split; [split; intros; done|intros; done|vm_compute; reflexivity|]. intros key _. reflexivity.
  - vm_compute. split; [reflexivity|discriminate].
  - lia.
  - exists b, p', s', n'. split_and!; [done|rewrite He; reflexivity| |].
    + rewrite Hpool. vm_compute. reflexivity.
    + apply Hacks. eexists. split; [vm_compute; reflexivity|]. vm_compute. discriminate.
Defined.

Lemma broadcast_all_or_nothing_witness :
  match broadcast_selection (H1 := sample_hub_env answering) (H2 := sample_env) sample_hub sample_selected.1 1 1 0 5
          (sample_selected.2, open_store) 0 with
  | (r, (p', s'), _) => pool_step sample_selected.1 sample_selected.2 p' r ∧ grows open_store s'
  end.
Proof.
  pose proof (broadcast_all_or_nothing (H1 := sample_hub_env answering) (H2 := sample_env) sample_hub
    sample_selected.1 1 1 0 5 sample_selected.2 open_store 0) as Hstep.
  destruct (broadcast_selection _ _ _ _ _ _ _ _) as [[r [p' s']] n']. destruct Hstep as (? & _ & ?); [| |done].
  - destruct (select_total 30 pool_before) as (l & Hsel & _).
    + destruct (run_calls_inv sample_calls sample_pool (pool_new_inv _ _ _ sample_pool_new)) as (p & Hrun & Hp).
      unfold pool_before. by rewrite Hrun.
    + unfold sample_selected. rewrite Hsel. cbn [snd]. apply cycled_inv.
      destruct (run_calls_inv sample_calls sample_pool (pool_new_inv _ _ _ sample_pool_new)) as (p & Hrun & Hp).
      unfold pool_before. by rewrite Hrun.
  - split; intros; done.
Defined.

(** ** Replies that cannot be recorded *)

Fixpoint repeated (n : nat) (s : string) : string :=
  match n with O => "" | S n => s +:+ repeated n s end.

(** The outcome of a broadcast and of a second attempt at it, and whether the
    epoch is still open, when every processor gives the same reply. *)
Definition attempts (reply : Reply) : option (string * string * bool) :=
  let env := sample_hub_env (λ _, reply) in
  let run := broadcast_selection (H1 := env) (H2 := sample_env) sample_hub sample_selected.1 1 1 0 5 in
  match run (sample_selected.2, open_store) 0 with
  | (Err first, ps, n) =>
      match run ps n with
      | (Err second, (_, s), _) =>
          row ← st_epochs s !! ("root", 1);
          Some (first, second, bool_decide (er_closed_at row = None))
      | _ => None
      end
  | _ => None
  end.

(** An error without a text fails the whole broadcast, again and again; the epoch
    stays open. *)
Lemma silent_error_blocks_the_broadcast :
  attempts (Refused "") = Some ("failed acknowledgement is missing terminal detail",
                                "failed acknowledgement is missing terminal detail", true).
Proof. vm_compute. reflexivity. Qed.

(** So does an error of 600 characters of two bytes: it is cut to 1024
    characters, while the limit counts bytes. *)
Lemma long_error_blocks_the_broadcast :
  attempts (Refused (repeated 600 "é")) = Some ("broadcast acknowledgement detail is invalid",
                                                "broadcast acknowledgement detail is invalid", true).
Proof. vm_compute. reflexivity. Qed.
