(* ===== verification/DaseinTypes.v ===== *)
(** * Experiences and transitions of the self (fabric)

    fabric/src/dasein: [types.rs] (readiness, affect, the synthesis of the mood),
    [event.rs] (the events of the compatibility interface) and [transition.rs]
    (experiences, requests with their bounds, receipts, ledger events).  The mood
    and the signals are those of [Payload].  Version-5 identifiers are a
    parameter. *)
From S2P Require Import Prelude FabricTypes StdModel Fallible StdFloat Candidate.
Import Payload.

#[local] Open Scope N_scope.

Module Self.

(** [Uuid::new_v5(&Uuid::NAMESPACE_OID, ..)] *)
Class NameUuid := uuid_v5_oid : Uuid → Uuid.

Definition MAX_TEXT_BYTES : N := 32 * 1024.
Definition MAX_ASSERTIONS : N := 128.
Definition MAX_POSSIBILITIES : N := 128.

Inductive AffectTone := Positive | Negative | Neutral | Anxious | Curious.

Inductive ReadinessState := ReadyToHand | PresentAtHand | Unavailable | OutOfContext.

Inductive TemporalEventKind := RetentionFaded | ProtentionRealized | ProtentionSurprised | PatternDetected.

Inductive ExperienceSource := User | Runtime | Tool | Memory | Metacog | Agora | Dasein.

Inductive OutcomeStatus := Succeeded | Failed | Cancelled.

#[global] Instance AngstSource_eq_dec : EqDecision AngstSource.
Proof. solve_decision. Defined.

#[global] Instance BoredomDepth_eq_dec : EqDecision BoredomDepth.
Proof. solve_decision. Defined.

#[global] Instance Stimmung_eq_dec : EqDecision Stimmung.
Proof. solve_decision. Defined.

#[global] Instance AffectTone_eq_dec : EqDecision AffectTone.
Proof. solve_decision. Defined.

#[global] Instance ReadinessState_eq_dec : EqDecision ReadinessState.
Proof. solve_decision. Defined.

#[global] Instance TemporalEventKind_eq_dec : EqDecision TemporalEventKind.
Proof. solve_decision. Defined.

#[global] Instance ExperienceSource_eq_dec : EqDecision ExperienceSource.
Proof. solve_decision. Defined.

#[global] Instance OutcomeStatus_eq_dec : EqDecision OutcomeStatus.
Proof. solve_decision. Defined.

(** ** The synthesis of the mood *)

Definition is_angst (m : Stimmung) : bool := match m with Angst _ => true | _ => false end.

Definition is_absorbed_or_resolute (m : Stimmung) : bool :=
  match m with Verfallenheit _ | Entschlossenheit _ => true | _ => false end.

Definition is_neugier (m : Stimmung) : bool := match m with Neugier _ => true | _ => false end.

(** One pass over the candidates. *)
Definition first_mood (f : Stimmung → bool) (candidates : list (option Stimmung)) : option Stimmung :=
  head (filter (λ m, f m = true) (omap id candidates)).

Definition synthesize (world_mood temporal_mood care_mood : option Stimmung) (current : Stimmung) : Stimmung :=
  let candidates := [world_mood; temporal_mood; care_mood] in
  match first_mood is_angst candidates with
  | Some m => m
  | None =>
      match first_mood is_absorbed_or_resolute candidates with
      | Some m => m
      | None => default current (first_mood is_neugier candidates)
      end
  end.

(** ** Experiences *)

Inductive InterpretedExperience :=
| Lived (semantic : string) (action perception : option string)
| Outcome (summary : string) (status : OutcomeStatus)
| ConcernObserved (id purpose : string) (urgency : F64)
| KnowledgeAsserted (assertions : list string) (confidence : F64)
| NegationCompleted (target : string) (new_possibilities : list string)
| MoodObserved (mood : Stimmung) (reason : string)
| WorldEntityObserved (entity_id what_it_is : string) (for_the_sake_of : list string) (readiness : ReadinessState)
| ReadinessChanged (entity_id : string) (old_state new_state : ReadinessState)
| TemporalSignal (kind : TemporalEventKind) (content : string)
| ResumedAfterInterval (elapsed_ms : N)
| ScheduledReflection.

Definition validate_text (field value : string) (allow_empty : bool) : Result string unit :=
  (if allow_empty then Ok tt else need (negb (is_blank value)) (field +:+ " must not be empty")) ;;
  need (len value <=? MAX_TEXT_BYTES) (field +:+ " exceeds " +:+ pretty MAX_TEXT_BYTES +:+ " bytes").

Definition validate_optional_text (field : string) (value : option string) : Result string unit :=
  match value with Some v => validate_text field v true | None => Ok tt end.

Definition validate_list (field : string) (values : list string) (max : N) : Result string unit :=
  need (negb (is_nil values)) (field +:+ " must not be empty") ;;
  need (count values <=? max) (field +:+ " exceeds item limit " +:+ pretty max) ;;
  each values (λ v, validate_text field v false).

Definition experience_validate (e : InterpretedExperience) : Result string unit :=
  match e with
  | Lived semantic action perception =>
      validate_text "lived semantic" semantic false ;;
      validate_optional_text "lived action" action ;;
      validate_optional_text "lived perception" perception
  | Outcome summary _ => validate_text "outcome summary" summary false
  | ConcernObserved id purpose urgency =>
      validate_text "concern ID" id false ;;
      validate_text "concern purpose" purpose false ;;
      need (Candidate.unit_f64 urgency) "concern urgency must be finite and between 0 and 1"
  | KnowledgeAsserted assertions confidence =>
      need (Candidate.unit_f64 confidence) "knowledge confidence must be finite and between 0 and 1" ;;
      validate_list "knowledge assertions" assertions MAX_ASSERTIONS
  | NegationCompleted target new_possibilities =>
      validate_text "negation target" target false ;;
      validate_list "negation possibilities" new_possibilities MAX_POSSIBILITIES
  | MoodObserved _ reason => validate_text "mood observation reason" reason false
  | WorldEntityObserved entity_id what_it_is for_the_sake_of _ =>
      validate_text "world entity ID" entity_id false ;;
      validate_text "world entity description" what_it_is false ;;
      need (count for_the_sake_of <=? MAX_POSSIBILITIES) "world entity involvement list exceeds item limit" ;;
      each for_the_sake_of (λ target, validate_text "world entity involvement" target false)
  | ReadinessChanged entity_id _ _ => validate_text "readiness entity" entity_id false
  | TemporalSignal _ content => validate_text "temporal signal content" content false
  | ResumedAfterInterval _ => Ok tt
  | ScheduledReflection => Ok tt
  end.

(** [==] on [f64] identifies the two zeros; everything else is compared exactly. *)
Definition experience_eqb (a b : InterpretedExperience) : bool :=
  match a, b with
  | ConcernObserved i p u, ConcernObserved i' p' u' => bool_decide (i = i' ∧ p = p') && SFeqb u u'
  | KnowledgeAsserted l c, KnowledgeAsserted l' c' => bool_decide (l = l') && SFeqb c c'
  | Lived s x y, Lived s' x' y' => bool_decide (s = s' ∧ x = x' ∧ y = y')
  | Outcome s x, Outcome s' x' => bool_decide (s = s' ∧ x = x')
  | NegationCompleted t l, NegationCompleted t' l' => bool_decide (t = t' ∧ l = l')
  | MoodObserved m r, MoodObserved m' r' => bool_decide (m = m' ∧ r = r')
  | WorldEntityObserved i w l r, WorldEntityObserved i' w' l' r' =>
      bool_decide (i = i' ∧ w = w' ∧ l = l' ∧ r = r')
  | ReadinessChanged i x y, ReadinessChanged i' x' y' => bool_decide (i = i' ∧ x = x' ∧ y = y')
  | TemporalSignal k c, TemporalSignal k' c' => bool_decide (k = k' ∧ c = c')
  | ResumedAfterInterval n, ResumedAfterInterval n' => n =? n'
  | ScheduledReflection, ScheduledReflection => true
  | _, _ => false
  end.

(** ** Requests and receipts *)

Record ExperienceProvenance := {
  ep_producer : string;
  ep_session_id : option Uuid;
  ep_turn_id : option Uuid;
  ep_source_ref : option string;
}.

#[global] Instance ExperienceProvenance_eq_dec : EqDecision ExperienceProvenance.
Proof. solve_decision. Defined.

Definition provenance_validate (p : ExperienceProvenance) : Result string unit :=
  validate_text "provenance producer" (ep_producer p) false ;;
  match ep_source_ref p with
  | Some source_ref => validate_text "provenance source reference" source_ref false
  | None => Ok tt
  end.

Record SelfTransitionRequest := {
  rq_event_id : Uuid;
  rq_source : ExperienceSource;
  rq_observed_at : WallTime;
  rq_content : InterpretedExperience;
  rq_provenance : ExperienceProvenance;
  rq_expected_version : N;
}.

Definition request_validate (r : SelfTransitionRequest) : Result string unit :=
  provenance_validate (rq_provenance r) ;;
  experience_validate (rq_content r).

Definition request_eqb (a b : SelfTransitionRequest) : bool :=
  bool_decide (rq_event_id a = rq_event_id b ∧ rq_source a = rq_source b ∧ rq_observed_at a = rq_observed_at b)
  && experience_eqb (rq_content a) (rq_content b)
  && bool_decide (rq_provenance a = rq_provenance b ∧ rq_expected_version a = rq_expected_version b).

Record SelfTransitionReceipt := {
  rt_event_id : Uuid;
  rt_previous_version : N;
  rt_current_version : N;
  rt_narrative_entry_id : Uuid;
  rt_emitted : list SelfSignal;
}.

(** [NarrativeEntryId::for_event] *)
Definition narrative_for_event `{NameUuid} (event_id : Uuid) : Uuid := uuid_v5_oid event_id.

(** ** Ledger events *)

Definition SELF_EVENT_SCHEMA_V1 : N := 1.
Definition SELF_REDUCER_V1 : N := 1.

Record SelfEventV1 := {
  sv_schema_version : N;
  sv_reducer_version : N;
  sv_sequence : N;
  sv_request : SelfTransitionRequest;
  sv_previous_version : N;
  sv_current_version : N;
  sv_previous_checksum : string;
  sv_checksum : string;
}.

Definition validate_versions (e : SelfEventV1) : Result string unit :=
  need (sv_schema_version e =? SELF_EVENT_SCHEMA_V1)
    ("unsupported self event schema " +:+ pretty (sv_schema_version e)) ;;
  need (sv_reducer_version e =? SELF_REDUCER_V1)
    ("unsupported self reducer version " +:+ pretty (sv_reducer_version e)) ;;
  need (sv_current_version e =? wrapping_add (sv_previous_version e) 1)
    "self event version range must advance exactly once" ;;
  request_validate (sv_request e).

(** [==] on events, field by field. *)
Definition event_eqb (a b : SelfEventV1) : bool :=
  bool_decide (sv_schema_version a = sv_schema_version b ∧ sv_reducer_version a = sv_reducer_version b
               ∧ sv_sequence a = sv_sequence b)
  && request_eqb (sv_request a) (sv_request b)
  && bool_decide (sv_previous_version a = sv_previous_version b ∧ sv_current_version a = sv_current_version b
                  ∧ sv_previous_checksum a = sv_previous_checksum b ∧ sv_checksum a = sv_checksum b).

(** ** Events of the compatibility interface *)

Inductive DaseinEvent :=
| UserInput (content : string)
| SystemEvent (source content : string)
| TimerTick
| EvKnowledgeAsserted (assertions : list string) (confidence : F64)
| EvNegationCompleted (target : string) (new_possibilities : list string)
| MoodShift (from to : Stimmung) (reason : string)
| BewandtnisChange (entity_id : string) (old_state new_state : ReadinessState)
| TemporalEvent (kind : TemporalEventKind) (content : string).

(** ** Lemmas *)

Lemma SFeqb_refl x : is_nan x = false → SFeqb x x = true.
Proof.
  unfold SFeqb, SFcompare. destruct x as [[]|[]| |[] m e]; cbn; try done.
  all: intros _; rewrite Z.compare_refl; change (Pos.compare_cont Eq m m) with (m ?= m)%positive;
    by rewrite Pos.compare_refl.
Qed.

(** What passes validation has no NaN, so it equals itself. *)
Lemma experience_eqb_refl e : experience_validate e = Ok tt → experience_eqb e e = true.
Proof.
  assert (∀ x, Candidate.unit_f64 x = true → SFeqb x x = true) as Hx.
  { intros x [Hf _]%andb_true_iff. apply SFeqb_refl. by destruct x. }
  destruct e; cbn [experience_eqb experience_validate]; intros He; rewrite ?bool_decide_true, ?N.eqb_refl by done;
    try done.
  all: inv_ok He; by apply Hx.
Qed.

Lemma request_eqb_refl r : request_validate r = Ok tt → request_eqb r r = true.
Proof.
  unfold request_validate. intros Hr. inv_ok Hr. unfold request_eqb. rewrite !bool_decide_true by done.
  by rewrite experience_eqb_refl.
Qed.

Lemma event_eqb_refl e : request_validate (sv_request e) = Ok tt → event_eqb e e = true.
Proof. intros He. unfold event_eqb. rewrite !bool_decide_true by done. by rewrite request_eqb_refl. Qed.

Lemma validate_text_calm f v a : calm (validate_text f v a).
Proof. unfold validate_text. solve_calm. Qed.

Lemma request_validate_calm r : calm (request_validate r).
Proof.
  unfold request_validate, provenance_validate, experience_validate, validate_optional_text, validate_list.
  pose proof validate_text_calm. solve_calm; eauto with aletheon.
Qed.

Lemma validate_versions_calm e : calm (validate_versions e).
Proof. pose proof request_validate_calm. unfold validate_versions. solve_calm; eauto. Qed.

End Self.
