(* ===== verification/Temporality.v ===== *)
(** * The temporal stream (dasein/src/dasein/temporality.rs)

    Retention (a bounded queue of fading moments), the present, the protentions
    derived from patterns, and the passive synthesis that finds the patterns.
    Each structure is a record, each method a function on it; the locks inside
    the stream are taken one after the other by the one writer, the reducer. *)
From S2P Require Import Prelude FabricTypes StdModel Fallible StdFloat Candidate DaseinTypes.
Import Payload Self.

#[local] Open Scope N_scope.

Definition f64_min (a b : F64) : F64 :=
  if is_nan a then b else if is_nan b then a else if SFltb a b then a else b.

(** [x.clamp(lo, hi)] *)
Definition f64_clamp (lo hi x : F64) : F64 := if SFltb x lo then lo else if SFltb hi x then hi else x.

Module Temporality.

Definition f_zero : F64 := S754_zero false.
Definition f_001 : F64 := f64_lit 1 100.
Definition f_005 : F64 := f64_lit 5 100.
Definition f_01 : F64 := f64_lit 1 10.
Definition f_02 : F64 := f64_lit 2 10.
Definition f_03 : F64 := f64_lit 3 10.
Definition f_05 : F64 := f64_lit 5 10.
Definition f_06 : F64 := f64_lit 6 10.
Definition f_07 : F64 := f64_lit 7 10.
Definition f_1 : F64 := f64_lit 1 1.

(** [TemporalPosition::next] *)
Definition position_next (p : N) : N := wrapping_add p 1.

(** ** Retention *)

Record ExperientialContent := {
  xc_semantic : string;
  xc_action : option string;
  xc_perception : option string;
  xc_negation : option string;
}.

Record RentionalMoment := {
  rm_content : ExperientialContent;
  rm_vividness : F64;
  rm_significance : F64;
  rm_affect : AffectTone;
  rm_position : N;
  rm_bewandtnis_links : list string;
}.

Record RetentionField := {
  rf_moments : list RentionalMoment;
  rf_depth : nat;
  rf_base_decay_rate : F64;
}.

Definition retention_new (depth : nat) (base_decay_rate : F64) : RetentionField :=
  {| rf_moments := []; rf_depth := depth; rf_base_decay_rate := base_decay_rate |}.

(** The decay of one moment, with what is nearly gone set to zero. *)
Definition decay (rate : F64) (m : RentionalMoment) : RentionalMoment :=
  let v := f64_mul (rm_vividness m) rate in
  {| rm_content := rm_content m; rm_vividness := if SFltb v f_001 then f_zero else v;
     rm_significance := rm_significance m; rm_affect := rm_affect m; rm_position := rm_position m;
     rm_bewandtnis_links := rm_bewandtnis_links m |}.

(** [while q.len() > n { q.pop_back() }] keeps the first [n]. *)
Definition push_and_decay (moment : RentionalMoment) (f : RetentionField) : RetentionField :=
  let decayed := decay (rf_base_decay_rate f) <$> rf_moments f in
  let kept := filter (λ m, SFltb f_001 (rm_vividness m) = true) decayed in
  {| rf_moments := take (rf_depth f) (moment :: kept); rf_depth := rf_depth f;
     rf_base_decay_rate := rf_base_decay_rate f |}.

Definition vivid_moments (threshold : F64) (f : RetentionField) : list RentionalMoment :=
  filter (λ m, SFleb threshold (rm_vividness m) = true) (rf_moments f).

Definition set_decay_rate (rate : F64) (f : RetentionField) : RetentionField :=
  {| rf_moments := rf_moments f; rf_depth := rf_depth f; rf_base_decay_rate := f64_clamp f_01 f_1 rate |}.

(** ** The present and the protentions *)

Record Urimpression := {
  ur_content : ExperientialContent;
  ur_vividness : F64;
  ur_thickness_ms : N;
  ur_mood_tone : Stimmung;
}.

Definition urimpression_new (content : ExperientialContent) (mood : Stimmung) : Urimpression :=
  {| ur_content := content; ur_vividness := f_1; ur_thickness_ms := 100; ur_mood_tone := mood |}.

Definition urimpression_default : Urimpression :=
  {| ur_content := {| xc_semantic := "silence"; xc_action := None; xc_perception := None; xc_negation := None |};
     ur_vividness := f_1; ur_thickness_ms := 100; ur_mood_tone := Gelassenheit |}.

Record AnticipatedPossibility := {
  ap_content : string;
  ap_probability : F64;
  ap_consequence : string;
  ap_affect : AffectTone;
}.

Record ProtentionField := {
  pf_possibilities : list AnticipatedPossibility;
  pf_certainty : F64;
}.

Definition protention_new : ProtentionField := {| pf_possibilities := []; pf_certainty := f_zero |}.

Inductive TemporalPattern :=
| Repetition (what : string) (interval : N)
| Trend (direction toward : string)
| Disruption (what : string).

Definition anticipate (p : TemporalPattern) : AnticipatedPossibility :=
  match p with
  | Repetition what _ =>
      {| ap_content := what +:+ " may repeat"; ap_probability := f_07;
         ap_consequence := "similar action as before"; ap_affect := Neutral |}
  | Trend direction toward =>
      {| ap_content := "trend " +:+ direction +:+ " toward " +:+ toward; ap_probability := f_06;
         ap_consequence := "continuation of current trajectory"; ap_affect := Curious |}
  | Disruption what =>
      {| ap_content := "disruption in " +:+ what; ap_probability := f_05;
         ap_consequence := "unexpected change"; ap_affect := Anxious |}
  end.

(** [b.probability.partial_cmp(&a.probability)] is not [Greater]. *)
Definition likelier (a b : AnticipatedPossibility) : Prop := SFltb (ap_probability a) (ap_probability b) = false.

#[global] Instance likelier_dec : RelDecision likelier.
Proof. intros a b. unfold likelier. apply _. Defined.

Definition update_from_patterns (patterns : list TemporalPattern) : ProtentionField :=
  let possibilities := sort_by likelier (anticipate <$> patterns) in
  {| pf_possibilities := possibilities;
     pf_certainty :=
       if is_nil possibilities then f_zero
       else f64_div (f64_sum (ap_probability <$> possibilities)) (f64_of_N (count possibilities)) |}.

(** ** Tempo *)

Record Tempo := { te_speed : F64; te_acceleration : F64 }.

Definition tempo_default : Tempo := {| te_speed := f_1; te_acceleration := f_zero |}.

Definition set_from_mood (mood : Stimmung) : Tempo :=
  match mood with
  | Angst _ => {| te_speed := f64_lit 2 1; te_acceleration := f_05 |}
  | Langeweile depth =>
      {| te_speed := match depth with Deep => f_01 | Middle => f_03 | Surface => f_06 end;
         te_acceleration := SFopp f_01 |}
  | Entschlossenheit _ => {| te_speed := f64_lit 15 10; te_acceleration := f_02 |}
  | Neugier _ => {| te_speed := f64_lit 13 10; te_acceleration := f_01 |}
  | _ => {| te_speed := f_1; te_acceleration := f_zero |}
  end.

(** ** Passive synthesis *)

Record HabitEntry := {
  ha_pattern : string;
  ha_frequency : N;
  ha_last_seen : N;
}.

Record PassiveSynthesizer := {
  ps_associations : list (string * string * F64);
  ps_habits : list HabitEntry;
  ps_sediment_count : N;
}.

Definition synthesizer_default : PassiveSynthesizer :=
  {| ps_associations := []; ps_habits := []; ps_sediment_count := 0 |}.

Definition linked (a b : string) (x : string * string * F64) : bool :=
  bool_decide (x.1.1 = a ∧ x.1.2 = b) || bool_decide (x.1.1 = b ∧ x.1.2 = a).

(** The first association of the pair is strengthened, or one is added. *)
Fixpoint associate (a b : string) (l : list (string * string * F64)) : list (string * string * F64) :=
  match l with
  | [] => [(a, b, f_01)]
  | x :: r => if linked a b x then (x.1, f64_min (f64_add x.2 f_01) f_1) :: r else x :: associate a b r
  end.

(** [recent.windows(2)] *)
Fixpoint windows2 {A} (l : list A) : list (A * A) :=
  match l with
  | x :: ((y :: _) as r) => (x, y) :: windows2 r
  | _ => []
  end.

Fixpoint habituate (m : RentionalMoment) (l : list HabitEntry) : list HabitEntry :=
  match l with
  | [] => [{| ha_pattern := xc_semantic (rm_content m); ha_frequency := 1; ha_last_seen := rm_position m |}]
  | h :: r =>
      if decide (ha_pattern h = xc_semantic (rm_content m))
      then {| ha_pattern := ha_pattern h; ha_frequency := ha_frequency h + 1; ha_last_seen := rm_position m |} :: r
      else h :: habituate m r
  end.

Definition repetition_of (h : HabitEntry) : option TemporalPattern :=
  if 3 <=? ha_frequency h then Some (Repetition (ha_pattern h) (ha_frequency h)) else None.

Definition trend_of (x : string * string * F64) : option TemporalPattern :=
  if SFltb f_05 x.2 then Some (Trend (x.1.1 +:+ " -> " +:+ x.1.2) x.1.2) else None.

Definition passive (recent : list RentionalMoment) (s : PassiveSynthesizer)
    : PassiveSynthesizer * list TemporalPattern :=
  let pairs := windows2 ((λ m, xc_semantic (rm_content m)) <$> recent) in
  let associations := foldl (λ l p, associate p.1 p.2 l) (ps_associations s) pairs in
  let habits := foldl (λ l m, habituate m l) (ps_habits s) recent in
  let kept := filter (λ x, SFltb f_005 x.2 = true) associations in
  ({| ps_associations := kept; ps_habits := habits; ps_sediment_count := ps_sediment_count s + 1 |},
   omap repetition_of habits ++ omap trend_of kept).

(** ** The stream *)

Record TemporalStream := {
  ts_retention : RetentionField;
  ts_present : Urimpression;
  ts_protention : ProtentionField;
  ts_tempo : Tempo;
  ts_synthesizer : PassiveSynthesizer;
  ts_position : N;
}.

Definition stream_new (retention_depth : nat) (decay_rate : F64) : TemporalStream :=
  {| ts_retention := retention_new retention_depth decay_rate; ts_present := urimpression_default;
     ts_protention := protention_new; ts_tempo := tempo_default; ts_synthesizer := synthesizer_default;
     ts_position := 0 |}.

(** The moment the present becomes. *)
Definition retained (position : N) (present : Urimpression) : RentionalMoment :=
  {| rm_content := ur_content present; rm_vividness := f_1; rm_significance := f_05; rm_affect := Neutral;
     rm_position := position; rm_bewandtnis_links := [] |}.

Definition ingest (content : ExperientialContent) (mood : Stimmung) (t : TemporalStream) : TemporalStream :=
  let current := ts_position t in
  {| ts_retention :=
       if 0 <? current then push_and_decay (retained current (ts_present t)) (ts_retention t) else ts_retention t;
     ts_present := urimpression_new content mood; ts_protention := ts_protention t; ts_tempo := ts_tempo t;
     ts_synthesizer := ts_synthesizer t; ts_position := position_next current |}.

Definition passive_synthesize (t : TemporalStream) : TemporalStream * list TemporalPattern :=
  let '(s, patterns) := passive (vivid_moments f_03 (ts_retention t)) (ts_synthesizer t) in
  ({| ts_retention := ts_retention t; ts_present := ts_present t; ts_protention := ts_protention t;
      ts_tempo := ts_tempo t; ts_synthesizer := s; ts_position := ts_position t |}, patterns).

Definition update_protentions_from_patterns (patterns : list TemporalPattern) (t : TemporalStream) : TemporalStream :=
  {| ts_retention := ts_retention t; ts_present := ts_present t;
     ts_protention := update_from_patterns patterns; ts_tempo := ts_tempo t;
     ts_synthesizer := ts_synthesizer t; ts_position := ts_position t |}.

Definition temporal_mood (t : TemporalStream) : option Stimmung :=
  let p := ts_protention t in
  if SFltb f_07 (pf_certainty p) then
    match pf_possibilities p with
    | first :: _ => if decide (ap_affect first = Anxious) then Some (Angst Finitude) else None
    | [] => None
    end
  else None.

(** ** Lemmas *)

Lemma passive_no_disruption recent s w : Disruption w ∉ (passive recent s).2.
Proof.
  cbn. rewrite elem_of_app, !list_elem_of_omap. unfold repetition_of, trend_of.
  intros [(x & _ & Hx)|(x & _ & Hx)]; by case_match.
Qed.

(** Protentions that come from the synthesis are never anxious. *)
Lemma update_not_anxious patterns a :
  (∀ w, Disruption w ∉ patterns) → a ∈ pf_possibilities (update_from_patterns patterns) → ap_affect a ≠ Anxious.
Proof.
  intros Hp. cbn. rewrite sort_by_perm, list_elem_of_fmap. intros (p & -> & Hin).
  destruct p; cbn; [done|done|]. by apply Hp in Hin.
Qed.

Lemma push_bounded m f : (length (rf_moments (push_and_decay m f)) ≤ rf_depth f)%nat.
Proof. cbn [push_and_decay rf_moments]. rewrite length_take. lia. Qed.

End Temporality.
