(* ===== verification/DaseinSelf.v ===== *)
(** * World, self-model and care (dasein/src/dasein)

    [bewandtnis.rs]: the involvement network; [self_model.rs]: assertions,
    negations and possibilities; [care_structure.rs]: concerns, the decision to
    act and the rhythm of reflection.  The parts of the care structure that no
    operation outside the tests writes (projection, thrownness, fallenness, the
    edges of the network) keep their initial values but are read. *)
From S2P Require Import Prelude FabricTypes StdModel Fallible StdFloat Candidate DaseinTypes Temporality.
Import Payload Self Temporality.

#[local] Open Scope N_scope.

(** ** [std::time::Duration], in nanoseconds *)

Definition NANOS_PER_SEC : N := 1000000000.

Definition as_secs_f64 (d : N) : F64 :=
  f64_add (f64_of_N (d / NANOS_PER_SEC)) (f64_div (f64_of_N (d mod NANOS_PER_SEC)) (f64_of_N NANOS_PER_SEC)).

(** [num / den] rounded to the nearest integer, ties to even. *)
Definition div_nearest (num den : N) : N :=
  let q := num / den in
  let r := num mod den in
  if (den <? 2 * r) || ((den =? 2 * r) && N.odd q) then q + 1 else q.

(** [Duration::from_secs_f64], which panics below zero and on overflow. *)
Definition from_secs_f64 (x : F64) : option N :=
  match x with
  | S754_zero _ => Some 0
  | S754_finite false m e =>
      let n := Npos m * NANOS_PER_SEC in
      let d := match e with
               | Z0 => n
               | Zpos p => n * 2 ^ Npos p
               | Zneg p => div_nearest n (2 ^ Npos p)
               end in
      if d / NANOS_PER_SEC <=? u64_max then Some d else None
  | _ => None
  end.

Definition mul_f64 (d : N) (x : F64) : option N := from_secs_f64 (f64_mul x (as_secs_f64 d)).

Module World.

Inductive InvolvementRelation :=
| Instrumental (how : string)
| Constitutive (how : string)
| Conditional (how : string)
| Adversarial (how : string)
| Alternative (how : string)
| Negating (how : string).

Record BewandtnisEdge := {
  be_from : string;
  be_to : string;
  be_relation : InvolvementRelation;
  be_strength : F64;
}.

Record BewandtnisNode := {
  bn_id : string;
  bn_what_it_is : string;
  bn_for_the_sake_of : list string;
  bn_appears_in : list string;
  bn_readiness : ReadinessState;
}.

Record NetworkSnapshot := {
  ns_timestamp : N;
  ns_node_count : N;
  ns_edge_count : N;
  ns_description : string;
}.

Record Bewandtnisganzheit := {
  bw_nodes : gmap string BewandtnisNode;
  bw_edges : list BewandtnisEdge;
  bw_ultimate_concern : option string;
  bw_history : list NetworkSnapshot;
}.

Definition new : Bewandtnisganzheit :=
  {| bw_nodes := ∅; bw_edges := []; bw_ultimate_concern := None; bw_history := [] |}.

Definition with_nodes (f : gmap string BewandtnisNode → gmap string BewandtnisNode) (w : Bewandtnisganzheit)
    : Bewandtnisganzheit :=
  {| bw_nodes := f (bw_nodes w); bw_edges := bw_edges w; bw_ultimate_concern := bw_ultimate_concern w;
     bw_history := bw_history w |}.

Definition add_entity (node : BewandtnisNode) : Bewandtnisganzheit → Bewandtnisganzheit :=
  with_nodes (insert (bn_id node) node).

Definition set_readiness (r : ReadinessState) (n : BewandtnisNode) : BewandtnisNode :=
  {| bn_id := bn_id n; bn_what_it_is := bn_what_it_is n; bn_for_the_sake_of := bn_for_the_sake_of n;
     bn_appears_in := bn_appears_in n; bn_readiness := r |}.

Definition update_readiness_if (id : string) (expected new_state : ReadinessState) (w : Bewandtnisganzheit)
    : Result string Bewandtnisganzheit :=
  node ← some_or (bw_nodes w !! id) ("unknown Dasein world entity " +:+ id);
  need (bool_decide (bn_readiness node = expected)) ("Dasein readiness conflict for " +:+ id) ;;
  Ok (with_nodes (insert id (set_readiness new_state node)) w).

Definition validate_readiness (id : string) (expected : ReadinessState) (w : Bewandtnisganzheit) : Result string unit :=
  node ← some_or (bw_nodes w !! id) ("unknown Dasein world entity " +:+ id);
  need (bool_decide (bn_readiness node = expected)) ("Dasein readiness conflict for " +:+ id).

(** The number of entities with a readiness. *)
Definition count_ready (r : ReadinessState) (w : Bewandtnisganzheit) : nat :=
  length (filter (λ n, bn_readiness n = r) (map_to_list (bw_nodes w)).*2).

Definition world_mood (w : Bewandtnisganzheit) : option Stimmung :=
  let broken_count := count_ready PresentAtHand w in
  if (3 <=? broken_count)%nat then Some (Angst Nothingness)
  else if (0 <? count_ready ReadyToHand w)%nat && (broken_count =? 0)%nat then Some Gelassenheit
  else None.

(** [trace_involvement_chain]: at most [max_depth] links, stopping at a cycle. *)
Fixpoint trace_involvement_chain (w : Bewandtnisganzheit) (max_depth : nat) (visited : gset string)
    (current : string) : list string :=
  match max_depth with
  | O => []
  | S max_depth =>
      if decide (current ∈ visited) then []
      else
        match bw_nodes w !! current with
        | Some node =>
            match bn_for_the_sake_of node with
            | next :: _ => next :: trace_involvement_chain w max_depth ({[current]} ∪ visited) next
            | [] => []
            end
        | None => []
        end
  end.

Definition opposed (a b : InvolvementRelation) : bool :=
  match a, b with
  | Instrumental _, Adversarial _ | Adversarial _, Instrumental _ => true
  | _, _ => false
  end.

(** [find_contradictions]: the pairs [i < j] of opposed relations. *)
Fixpoint find_contradictions (edges : list BewandtnisEdge) : list (BewandtnisEdge * BewandtnisEdge) :=
  match edges with
  | [] => []
  | a :: rest =>
      (pair a <$> filter (λ b, be_from a = be_from b ∧ be_to a = be_to b
                               ∧ opposed (be_relation a) (be_relation b) = true) rest)
      ++ find_contradictions rest
  end.

End World.

Module SelfModel.

Inductive AssertionSource := Assigned | Chosen | Habitual | Discovered.

#[global] Instance AssertionSource_eq_dec : EqDecision AssertionSource.
Proof. solve_decision. Defined.

Record SelfAssertion := {
  sa_content : string;
  sa_source : AssertionSource;
  sa_stability : F64;
  sa_since : N;
  sa_bewandtnis : list string;
}.

Inductive NegationReason :=
| Contradiction (why : string)
| Insufficiency (why : string)
| External (why : string)
| SelfChosen (why : string).

Record SelfPossibility := {
  sp_content : string;
  sp_from_negation : N;
  sp_attraction : F64;
  sp_risk : F64;
}.

Record NegatedAssertion := {
  na_content : string;
  na_reason : NegationReason;
  na_negated_at : N;
  na_opened_possibilities : list SelfPossibility;
}.

Record NegationRecord := {
  nr_target : string;
  nr_reason : NegationReason;
  nr_timestamp : N;
  nr_new_possibilities : list SelfPossibility;
}.

Record MutableSelfModel := {
  sm_current : list SelfAssertion;
  sm_negated : list NegatedAssertion;
  sm_possibilities : list SelfPossibility;
  sm_negation_history : list NegationRecord;
  sm_max_history : nat;
}.

Definition new : MutableSelfModel :=
  {| sm_current := []; sm_negated := []; sm_possibilities := []; sm_negation_history := []; sm_max_history := 100 |}.

(** The assertion with the same content is replaced, or the new one is added. *)
Fixpoint put_assertion (a : SelfAssertion) (l : list SelfAssertion) : list SelfAssertion :=
  match l with
  | [] => [a]
  | b :: r => if decide (sa_content b = sa_content a) then a :: r else b :: put_assertion a r
  end.

Definition assert_ (a : SelfAssertion) (m : MutableSelfModel) : MutableSelfModel :=
  {| sm_current := put_assertion a (sm_current m); sm_negated := sm_negated m;
     sm_possibilities := sm_possibilities m; sm_negation_history := sm_negation_history m;
     sm_max_history := sm_max_history m |}.

Definition habitual_assertions (m : MutableSelfModel) : list SelfAssertion :=
  filter (λ a, sa_source a = Habitual) (sm_current m).

(** [position] and [remove] of the first assertion with the content. *)
Fixpoint take_assertion (content : string) (l : list SelfAssertion) : option (SelfAssertion * list SelfAssertion) :=
  match l with
  | [] => None
  | a :: r =>
      if decide (sa_content a = content) then Some (a, r)
      else match take_assertion content r with Some (b, r') => Some (b, a :: r') | None => None end
  end.

Definition opened (content : string) (position : N) : SelfPossibility :=
  {| sp_content := "no longer '" +:+ content +:+ "', open to new ways"; sp_from_negation := position;
     sp_attraction := f_05; sp_risk := f_05 |}.

Definition negate (content : string) (reason : NegationReason) (position : N) (m : MutableSelfModel)
    : MutableSelfModel * option SelfPossibility :=
  match take_assertion content (sm_current m) with
  | None => (m, None)
  | Some (a, current) =>
      let possibility := opened content position in
      let negated :=
        {| na_content := sa_content a; na_reason := reason; na_negated_at := position;
           na_opened_possibilities := [possibility] |} in
      let record :=
        {| nr_target := content; nr_reason := reason; nr_timestamp := position;
           nr_new_possibilities := [possibility] |} in
      ({| sm_current := current; sm_negated := take (sm_max_history m) (negated :: sm_negated m);
          sm_possibilities := sm_possibilities m ++ [possibility];
          sm_negation_history := take (sm_max_history m) (record :: sm_negation_history m);
          sm_max_history := sm_max_history m |}, Some possibility)
  end.

Definition add_possibility (p : SelfPossibility) (m : MutableSelfModel) : MutableSelfModel :=
  {| sm_current := sm_current m; sm_negated := sm_negated m; sm_possibilities := sm_possibilities m ++ [p];
     sm_negation_history := sm_negation_history m; sm_max_history := sm_max_history m |}.

(** [max_by] returns the last of the greatest elements. *)
Definition most_attractive_possibility (m : MutableSelfModel) : option SelfPossibility :=
  foldl (λ best p,
    match best with
    | None => Some p
    | Some b => if SFltb (sp_attraction p) (sp_attraction b) then Some b else Some p
    end) None (sm_possibilities m).

End SelfModel.

Module Care.

Record Involvement := {
  in_entity : string;
  in_for_the_sake_of : string;
  in_context : string;
  in_readiness : ReadinessState;
}.

Record Concern := {
  co_id : string;
  co_purpose : string;
  co_urgency : F64;
  co_involvement_chain : list Involvement;
  co_last_attended : N;
  co_mood_tone : Stimmung;
}.

Inductive PossibilitySource := FromNegation | FromWorld | FromProjection | FromUser.

Record ProjectedPossibility := {
  pp_description : string;
  pp_source : PossibilitySource;
  pp_attraction : F64;
  pp_risk : F64;
  pp_conditions : list string;
}.

Record Projection := {
  pj_possibilities : list ProjectedPossibility;
  pj_chosen : option string;
  pj_for_the_sake_of : string;
}.

Record Constraint_ := {
  cn_description : string;
  cn_challengeable : bool;
}.

Record Thrownness := {
  th_constraints : list Constraint_;
  th_initial_conditions : list string;
}.

Record Fallenness := {
  fa_absorbed_in : option string;
  fa_depth : F64;
  fa_wake_triggers : list string;
}.

Record CareRhythm := {
  cr_base_interval : N;
  cr_current_interval : N;
  cr_min_interval : N;
  cr_max_interval : N;
}.

Inductive CareAction :=
| Deliberate (why : string)
| Direct (why : string)
| Wait (why : string)
| Negate (why : string).

(** A [BTreeMap] iterates in the order of its keys. *)
Definition by_key (a b : string * Concern) : Prop := String.le a.1 b.1.

#[global] Instance by_key_dec : RelDecision by_key.
Proof. intros a b. unfold by_key. apply _. Defined.

Record CareStructure := {
  ca_projection : Projection;
  ca_thrownness : Thrownness;
  ca_fallenness : Fallenness;
  ca_concerns : gmap string Concern;
  ca_rhythm : CareRhythm;
}.

Definition rhythm_default : CareRhythm :=
  {| cr_base_interval := 30 * NANOS_PER_SEC; cr_current_interval := 30 * NANOS_PER_SEC;
     cr_min_interval := 5 * NANOS_PER_SEC; cr_max_interval := 300 * NANOS_PER_SEC |}.

Definition new : CareStructure :=
  {| ca_projection := {| pj_possibilities := []; pj_chosen := None; pj_for_the_sake_of := "self-understanding" |};
     ca_thrownness := {| th_constraints := []; th_initial_conditions := [] |};
     ca_fallenness := {| fa_absorbed_in := None; fa_depth := f_zero; fa_wake_triggers := [] |};
     ca_concerns := ∅; ca_rhythm := rhythm_default |}.

Definition mood_factor (mood : Stimmung) : F64 :=
  match mood with
  | Angst _ => f_03
  | Entschlossenheit _ => f_05
  | Neugier _ => f_07
  | Gelassenheit => f_1
  | Langeweile _ => f64_lit 2 1
  | Verfallenheit _ => f64_lit 15 10
  | _ => f_1
  end.

Definition urgency_factor (urgent_count : N) : F64 :=
  if 0 <? urgent_count then f64_div f_1 (f64_add f_1 (f64_of_N urgent_count)) else f_1.

(** [adapt]; [None] is a panic of [Duration]. *)
Definition adapt (mood : Stimmung) (urgent_count : N) (r : CareRhythm) : option CareRhythm :=
  a ← mul_f64 (cr_base_interval r) (mood_factor mood);
  b ← mul_f64 a (urgency_factor urgent_count);
  Some {| cr_base_interval := cr_base_interval r;
          cr_current_interval := N.min (N.max b (cr_min_interval r)) (cr_max_interval r);
          cr_min_interval := cr_min_interval r; cr_max_interval := cr_max_interval r |}.

Definition concerns_in_order (c : CareStructure) : list Concern :=
  (sort_by by_key (map_to_list (ca_concerns c))).*2.

Definition add_concern (concern : Concern) (c : CareStructure) : CareStructure :=
  {| ca_projection := ca_projection c; ca_thrownness := ca_thrownness c;
     ca_fallenness := ca_fallenness c;
     ca_concerns := <[co_id concern := concern]> (ca_concerns c); ca_rhythm := ca_rhythm c |}.

Definition with_rhythm (r : CareRhythm) (c : CareStructure) : CareStructure :=
  {| ca_projection := ca_projection c; ca_thrownness := ca_thrownness c;
     ca_fallenness := ca_fallenness c;
     ca_concerns := ca_concerns c; ca_rhythm := r |}.

(** [urgency >= threshold] *)
Definition urgent_concerns (threshold : F64) (c : CareStructure) : list Concern :=
  filter (λ x, SFleb threshold (co_urgency x) = true) (concerns_in_order c).

(** [urgency > 0.7] *)
Definition pressing (c : CareStructure) : list Concern :=
  filter (λ x, SFltb f_07 (co_urgency x) = true) (concerns_in_order c).

Definition determine_action (c : CareStructure) : CareAction :=
  match (if SFltb (f64_lit 8 10) (fa_depth (ca_fallenness c)) then fa_absorbed_in (ca_fallenness c) else None) with
  | Some absorbed => Negate ("deeply absorbed in '" +:+ absorbed +:+ "', questioning this pattern")
  | None =>
      match pressing c with
      | most_urgent :: _ => Deliberate (co_purpose most_urgent)
      | [] =>
          match pj_chosen (ca_projection c) with
          | Some chosen => Direct chosen
          | None => Wait "no urgent concerns, monitoring"
          end
      end
  end.

Definition care_mood (c : CareStructure) : option Stimmung :=
  match (if SFltb f_07 (fa_depth (ca_fallenness c)) then fa_absorbed_in (ca_fallenness c) else None) with
  | Some absorbed => Some (Verfallenheit absorbed)
  | None => if 3 <=? count (pressing c) then Some (Angst Responsibility) else None
  end.

End Care.

(** ** Properties of the world, the self-model and the rhythm of care

    The rhythm adapts without a panic of [Duration] and stays between its bounds;
    the histories are bounded; a chain of involvements ends; what the care
    structure and the temporal stream can ever decide. *)

(** ** The rhythm *)

Lemma div_nearest_le num den : div_nearest num den ≤ num / den + 1.
Proof. unfold div_nearest. case_match; lia. Qed.

Lemma from_secs_within lo hi x : within lo hi x → (hi ≤ 60)%Z → is_Some (from_secs_f64 x).
Proof.
  intros (m & e & -> & _ & Hm) Hhi. unfold mag in Hm. cbn [from_secs_f64].
  pose proof (Z.log2_nonneg (Zpos m)) as Hl.
  assert (Zpos m < 2 ^ (61 - e))%Z as Hlt by (apply Z.log2_lt_pow2; lia).
  set (n := Npos m * NANOS_PER_SEC).
  assert (∀ d, d < 2 ^ 61 * NANOS_PER_SEC + 2 → is_Some (if d / NANOS_PER_SEC <=? u64_max then Some d else None)) as Hd.
  { intros d Hd. replace (d / NANOS_PER_SEC <=? u64_max) with true; [done|]. symmetry. apply N.leb_le.
    apply N.Div0.div_le_upper_bound. unfold NANOS_PER_SEC, u64_max in *. lia. }
  apply Hd. destruct e as [|p|p].
  - subst n. unfold NANOS_PER_SEC. cbn in Hlt. lia.
  - assert (Npos m * 2 ^ Npos p < 2 ^ 61); [|subst n; unfold NANOS_PER_SEC; lia].
    apply N2Z.inj_lt. rewrite N2Z.inj_mul, N2Z.inj_pow. cbn [Z.of_N].
    replace (2 ^ 61)%Z with (2 ^ (61 - Zpos p) * 2 ^ Zpos p)%Z by (rewrite <-Z.pow_add_r by lia; f_equal; lia).
    change (Z.of_N (2 ^ 61)) with (2 ^ 61)%Z.
    replace (2 ^ 61)%Z with (2 ^ (61 - Zpos p) * 2 ^ Zpos p)%Z by (rewrite <-Z.pow_add_r by lia; f_equal; lia).
    apply Z.mul_lt_mono_pos_r; [apply Z.pow_pos_nonneg; lia|done].
  - eapply N.le_lt_trans; [apply div_nearest_le|].
    enough (n / 2 ^ Npos p < 2 ^ 61 * NANOS_PER_SEC) by lia.
    apply N.Div0.div_lt_upper_bound. subst n. rewrite N.mul_assoc. apply N.mul_lt_mono_pos_r; [done|].
    apply N2Z.inj_lt. rewrite N2Z.inj_mul, !N2Z.inj_pow. cbn [Z.of_N].
    replace (61 - Zneg p)%Z with (Zpos p + 61)%Z in Hlt by lia. rewrite Z.pow_add_r in Hlt by lia. done.
Qed.

Lemma urgency_within n : n ≤ u64_max → within (-66) 2 (Care.urgency_factor n).
Proof.
  intros Hn. unfold Care.urgency_factor. assert (within 1 1 f_1) as H1 by (by eexists _, _).
  case (N.ltb_spec 0 n); intros Hpos; [|by eapply within_mono].
  eapply within_mono; [eapply div_within; [exact H1|eapply add_within; [exact H1|apply of_N_within; lia|lia..]|lia..]|lia..].
Qed.

(** The interval the mood gives, before the urgency. *)
Lemma mood_interval mood :
  ∃ a, mul_f64 (30 * NANOS_PER_SEC) (Care.mood_factor mood) = Some a ∧ within 4 6 (as_secs_f64 a).
Proof.
  destruct mood; eexists; (split; [vm_compute; reflexivity|]); eexists _, _;
    (split; [vm_compute; reflexivity|]); vm_compute; split; discriminate.
Qed.

Definition rhythm_ok (r : Care.CareRhythm) : Prop :=
  Care.cr_base_interval r = 30 * NANOS_PER_SEC ∧ Care.cr_min_interval r = 5 * NANOS_PER_SEC
  ∧ Care.cr_max_interval r = 300 * NANOS_PER_SEC
  ∧ 5 * NANOS_PER_SEC ≤ Care.cr_current_interval r ≤ 300 * NANOS_PER_SEC.

Lemma adapt_total mood n r :
  rhythm_ok r → n ≤ u64_max → ∃ r', Care.adapt mood n r = Some r' ∧ rhythm_ok r'.
Proof.
  intros (Hb & Hmin & Hmax & _) Hn. unfold Care.adapt. rewrite Hb, Hmin, Hmax.
  destruct (mood_interval mood) as (a & -> & Ha). cbn [mbind option_bind].
  destruct (from_secs_within (-66 + 4 - 1) (2 + 6 + 1) (f64_mul (Care.urgency_factor n) (as_secs_f64 a))) as [b Hb'];
    [by apply mul_within; [apply urgency_within|..]|lia|].
  unfold mul_f64. rewrite Hb'. eexists. split; [done|]. unfold rhythm_ok; cbn -[N.mul]. unfold NANOS_PER_SEC. lia.
Qed.

(** ** Involvements *)

Lemma chain_bounded w d visited e : (length (World.trace_involvement_chain w d visited e) ≤ d)%nat.
Proof.
  revert visited e. induction d as [|d IH]; intros visited e; cbn; [done|].
  repeat case_match; cbn; try lia. specialize (IH ({[e]} ∪ visited) s). lia.
Qed.

(** Each link starts at an entity that was not visited: a cycle is walked once. *)
Lemma chain_links w d visited e :
  let chain := World.trace_involvement_chain w d visited e in
  NoDup (take (length chain) (e :: chain)) ∧ ∀ x, x ∈ take (length chain) (e :: chain) → x ∉ visited.
Proof.
  revert visited e. induction d as [|d IH]; intros visited e; cbn; [by split; [constructor|intros x ?%not_elem_of_nil]|].
  case_decide as He; [by split; [constructor|intros x ?%not_elem_of_nil]|].
  destruct (World.bw_nodes w !! e) as [node|]; [|by split; [constructor|intros x ?%not_elem_of_nil]].
  destruct (World.bn_for_the_sake_of node) as [|next r]; [by split; [constructor|intros x ?%not_elem_of_nil]|].
  destruct (IH ({[e]} ∪ visited) next) as [Hnd Hnew]. cbn [length take] in *. split.
  - constructor; [|done]. intros Hin. apply Hnew in Hin. set_solver.
  - intros x [->|Hin]%elem_of_cons; [done|]. apply Hnew in Hin. set_solver.
Qed.

(** ** The self-model *)

Lemma put_assertion_contents a l :
  NoDup (SelfModel.sa_content <$> l) → NoDup (SelfModel.sa_content <$> SelfModel.put_assertion a l).
Proof.
  induction l as [|b r IH]; cbn; [intros _; repeat constructor; by intros ?%not_elem_of_nil|].
  rewrite NoDup_cons. intros [Hb Hr]. case_decide as Heq; cbn; rewrite NoDup_cons; [by rewrite <-Heq|].
  split; [|auto]. intros Hin. apply Hb. clear Hb Hr IH.
  induction r as [|c r IH]; cbn in *; [by apply list_elem_of_singleton in Hin|].
  case_decide as Hc; cbn in Hin; rewrite elem_of_cons in Hin |- *; [rewrite Hc|]; naive_solver.
Qed.

Lemma take_assertion_contents content l a r :
  SelfModel.take_assertion content l = Some (a, r) →
  SelfModel.sa_content a = content ∧ l ≡ₚ a :: r.
Proof.
  revert a r. induction l as [|b l IH]; intros a r; cbn; [done|]. case_decide; [by intros [= <- <-]|].
  destruct (SelfModel.take_assertion content l) as [[c r']|]; [|done]. intros [= <- <-].
  destruct (IH c r') as [? Hp]; [done|]. split; [done|]. rewrite Hp. by rewrite Permutation_swap.
Qed.

(** Contents are asserted once, and the histories keep the last hundred. *)
Record model_ok (m : SelfModel.MutableSelfModel) : Prop := {
  mo_distinct : NoDup (SelfModel.sa_content <$> SelfModel.sm_current m);
  mo_negated : (length (SelfModel.sm_negated m) ≤ 100)%nat;
  mo_history : (length (SelfModel.sm_negation_history m) ≤ 100)%nat;
  mo_max : SelfModel.sm_max_history m = 100%nat;
}.

Lemma assert_ok a m : model_ok m → model_ok (SelfModel.assert_ a m).
Proof. intros []. split; cbn; [by apply put_assertion_contents|done..]. Qed.

Lemma possibility_ok p m : model_ok m → model_ok (SelfModel.add_possibility p m).
Proof. by intros []. Qed.

(** A negated content is no longer asserted. *)
Lemma negate_ok c why pos m :
  model_ok m →
  model_ok (SelfModel.negate c why pos m).1 ∧ c ∉ SelfModel.sa_content <$> SelfModel.sm_current (SelfModel.negate c why pos m).1.
Proof.
  intros [Hd Hn Hh Hmax]. unfold SelfModel.negate.
  destruct (SelfModel.take_assertion c (SelfModel.sm_current m)) as [[a r]|] eqn:Ht; cbn.
  - apply take_assertion_contents in Ht as [<- Hp]. rewrite Hp, fmap_cons, NoDup_cons in Hd. destruct Hd as [Hc Hr].
    split; [|done]. split; cbn; [done|..]; rewrite ?Hmax; cbn; rewrite ?length_take; lia.
  - split; [done|]. revert Ht. generalize (SelfModel.sm_current m). intros l. induction l as [|b l IH]; cbn.
    { intros _ ?%not_elem_of_nil. done. }
    case_decide; [done|]. destruct (SelfModel.take_assertion c l) as [[]|]; [done|]. intros _.
    rewrite elem_of_cons. intros [->|?]; [done|]. by apply IH.
Qed.
