(* ===== verification/SelfLedger.v ===== *)
(** * The ledger of the self (dasein/src/dasein/ledger.rs)

    The tables [self_events] and [self_snapshots] of dasein/src/core/store.rs, as
    their rows in the order of the primary key, with the legacy mood of
    [dasein_state].  Events are chained by checksums.  A statement may fail with
    an error of the database; a transaction that is not committed has no effect.
    Serialization and SHA-256 are parameters. *)
From S2P Require Import Prelude FabricTypes StdModel Fallible StdFloat Candidate DaseinTypes.
Import Payload Self.

#[local] Open Scope N_scope.

Module SelfLedger.

(** [EventChecksumMaterial] *)
Record EventChecksumMaterial := {
  cm_schema_version : N;
  cm_reducer_version : N;
  cm_sequence : N;
  cm_request : SelfTransitionRequest;
  cm_previous_version : N;
  cm_current_version : N;
  cm_previous_checksum : string;
}.

Class SelfCodec := {
  request_json : SelfTransitionRequest → string + string;
  parse_request : string → string + SelfTransitionRequest;
  material_json : EventChecksumMaterial → string + string;
  events_json : list SelfEventV1 → string + string;
  parse_events : string → string + list SelfEventV1;
  parse_mood : string → string + Stimmung;
  bytes_checksum : string → string;
  database : N → option string;
}.

Record EventRow := {
  er_seq : N;
  er_event_id : Uuid;
  er_previous_version : N;
  er_next_version : N;
  er_request_json : string;
  er_previous_checksum : string;
  er_checksum : string;
  er_observed_at : Z;
}.

Record SnapshotRow := {
  sn_version : N;
  sn_last_event_seq : N;
  sn_event_prefix_json : string;
  sn_checksum : string;
  sn_created_at : Z;
}.

Record Store := {
  ss_events : list EventRow;
  ss_snapshots : list SnapshotRow;
  ss_legacy_mood : option string;
}.

Definition with_events (f : list EventRow → list EventRow) (s : Store) : Store :=
  {| ss_events := f (ss_events s); ss_snapshots := ss_snapshots s; ss_legacy_mood := ss_legacy_mood s |}.

Definition with_snapshots (f : list SnapshotRow → list SnapshotRow) (s : Store) : Store :=
  {| ss_events := ss_events s; ss_snapshots := f (ss_snapshots s); ss_legacy_mood := ss_legacy_mood s |}.

Definition seq_le (a b : EventRow) : Prop := er_seq a ≤ er_seq b.

#[global] Instance seq_le_dec : RelDecision seq_le.
Proof. intros a b. unfold seq_le. apply _. Defined.

Definition version_le (a b : SnapshotRow) : Prop := sn_version a ≤ sn_version b.

#[global] Instance version_le_dec : RelDecision version_le.
Proof. intros a b. unfold version_le. apply _. Defined.

Definition i64_max : N := 9223372036854775807.

Section Ledger.
Context `{SelfCodec}.

Definition lift {S A} (r : Result string A) : M S string A := λ s n, (r, s, n).

(** The error or the value of an external call. *)
Definition reply {A} (a : string + A) : Result string A :=
  match a with inl error => Err error | inr value => Ok value end.

(** One statement of the database. *)
Definition statement {S} : M S string unit :=
  n ← tick;
  match database n with Some error => throw error | None => mret tt end.

(** [u64] as a parameter of a statement: the column is an [i64]. *)
Definition sql_u64 {S} (n : N) : M S string unit := ensure (n <=? i64_max) "out of range integral type conversion".

Definition event_checksum (sequence : N) (request : SelfTransitionRequest) (previous_version current_version : N)
    (previous_checksum : string) : Result string string :=
  json ← reply (material_json
    {| cm_schema_version := SELF_EVENT_SCHEMA_V1; cm_reducer_version := SELF_REDUCER_V1; cm_sequence := sequence;
       cm_request := request; cm_previous_version := previous_version; cm_current_version := current_version;
       cm_previous_checksum := previous_checksum |});
  Ok (bytes_checksum json).

(** ** Reading *)

(** The event a row stands for. *)
Definition event_of_row (row : EventRow) (request : SelfTransitionRequest) : SelfEventV1 :=
  {| sv_schema_version := SELF_EVENT_SCHEMA_V1; sv_reducer_version := SELF_REDUCER_V1; sv_sequence := er_seq row;
     sv_request := request; sv_previous_version := er_previous_version row;
     sv_current_version := er_next_version row; sv_previous_checksum := er_previous_checksum row;
     sv_checksum := er_checksum row |}.

(** One turn of the loop of [load_verified]; [seen] events precede the row. *)
Definition verify_row (seen : N) (expected_checksum : string) (row : EventRow) : Result string SelfEventV1 :=
  request ← reply (parse_request (er_request_json row));
  let event := event_of_row row request in
  validate_versions event ;;
  need (sv_sequence event =? seen + 1) ("self ledger sequence gap at " +:+ pretty (sv_sequence event)) ;;
  need ((wrapping_add (sv_previous_version event) 1 =? sv_current_version event)
        && (sv_previous_version event =? seen))
    ("self ledger version gap at sequence " +:+ pretty (sv_sequence event)) ;;
  need (bool_decide (sv_previous_checksum event = expected_checksum))
    ("self ledger checksum chain break at sequence " +:+ pretty (sv_sequence event)) ;;
  calculated ← event_checksum (sv_sequence event) (sv_request event) (sv_previous_version event)
    (sv_current_version event) (sv_previous_checksum event);
  need (bool_decide (sv_checksum event = calculated))
    ("self ledger checksum mismatch at sequence " +:+ pretty (sv_sequence event)) ;;
  Ok event.

Fixpoint verify_rows (seen : N) (expected_checksum : string) (rows : list EventRow)
    : Result string (list SelfEventV1) :=
  match rows with
  | [] => Ok []
  | row :: rest =>
      event ← verify_row seen expected_checksum row;
      events ← verify_rows (seen + 1) (sv_checksum event) rest;
      Ok (event :: events)
  end.

Definition load_verified : M Store string (list SelfEventV1) :=
  statement ;;
  s ← get_state;
  lift (verify_rows 0 "" (ss_events s)).

(** ** Appending *)

(** The constraints of the table: the sequence, the event and the version are
    unique. *)
Definition conflicts (row other : EventRow) : bool :=
  (er_seq row =? er_seq other) || (er_event_id row =? er_event_id other)
  || (er_next_version row =? er_next_version other).

Definition insert_event (row : EventRow) : M Store string unit :=
  sql_u64 (er_seq row) ;;
  sql_u64 (er_previous_version row) ;;
  sql_u64 (er_next_version row) ;;
  statement ;;
  s ← get_state;
  ensure (negb (existsb (conflicts row) (ss_events s))) "UNIQUE constraint failed: self_events" ;;
  statement ;;
  modify (with_events (insert_by seq_le row)).

(** The sequence, version and checksum the next event continues. *)
Definition latest (s : Store) : N * N * string :=
  match last (ss_events s) with
  | Some row => (er_seq row + 1, er_next_version row, er_checksum row)
  | None => (1, 0, "")
  end.

Definition append_new (request : SelfTransitionRequest) : M Store string SelfEventV1 :=
  statement ;;
  s ← get_state;
  let '(sequence, durable_version, previous_checksum) := latest s in
  ensure (rq_expected_version request =? durable_version)
    ("self ledger version conflict: expected " +:+ pretty (rq_expected_version request) +:+ ", durable "
     +:+ pretty durable_version) ;;
  let current_version := wrapping_add durable_version 1 in
  checksum ← lift (event_checksum sequence request durable_version current_version previous_checksum);
  json ← lift (reply (request_json request));
  let row :=
    {| er_seq := sequence; er_event_id := rq_event_id request; er_previous_version := durable_version;
       er_next_version := current_version; er_request_json := json; er_previous_checksum := previous_checksum;
       er_checksum := checksum; er_observed_at := rq_observed_at request |} in
  insert_event row ;;
  mret (event_of_row row request).

Definition append (request : SelfTransitionRequest) : M Store string SelfEventV1 :=
  statement ;;
  statement ;;
  s ← get_state;
  match head (filter (λ r, er_event_id r = rq_event_id request) (ss_events s)) with
  | Some row =>
      existing ← lift (reply (parse_request (er_request_json row)));
      ensure (request_eqb existing request) "self ledger event ID collision with different payload" ;;
      events ← load_verified;
      ok_or (head (filter (λ e, rq_event_id (sv_request e) = rq_event_id request) events))
        "existing self event disappeared"
  | None => append_new request
  end.

(** ** Checkpoints *)

(** [INSERT OR REPLACE] *)
Definition put_snapshot (row : SnapshotRow) (rows : list SnapshotRow) : list SnapshotRow :=
  insert_by version_le row (filter (λ r, sn_version r ≠ sn_version row) rows).

Definition save_checkpoint (events : list SelfEventV1) (created_at_ms : Z) : M Store string unit :=
  match last events with
  | None => mret tt
  | Some e =>
      json ← lift (reply (events_json events));
      sql_u64 (sv_current_version e) ;;
      sql_u64 (sv_sequence e) ;;
      statement ;;
      modify (with_snapshots (put_snapshot
        {| sn_version := sv_current_version e; sn_last_event_seq := sv_sequence e; sn_event_prefix_json := json;
           sn_checksum := bytes_checksum json; sn_created_at := created_at_ms |}))
  end.

(** [events.starts_with(&prefix)] *)
Fixpoint events_start_with (events prefix : list SelfEventV1) : bool :=
  match prefix, events with
  | [], _ => true
  | p :: prefix, e :: events => event_eqb e p && events_start_with events prefix
  | _ :: _, [] => false
  end.

Definition check_snapshot (row : SnapshotRow) (events : list SelfEventV1) : Result string unit :=
  need (bool_decide (bytes_checksum (sn_event_prefix_json row) = sn_checksum row)) "self snapshot checksum mismatch" ;;
  prefix ← reply (parse_events (sn_event_prefix_json row));
  need ((count prefix =? sn_last_event_seq row) && events_start_with events prefix)
    "self snapshot does not match verified ledger prefix".

Definition load_replay_plan : M Store string (list SelfEventV1) :=
  events ← load_verified;
  statement ;;
  s ← get_state;
  match last (ss_snapshots s) with
  | Some row => lift (check_snapshot row events)
  | None => mret tt
  end ;;
  mret events.

End Ledger.

End SelfLedger.
