(* ===== verification/SelfEngine.v ===== *)
(** * The reducer of the self (dasein/src/dasein: reducer.rs, mod.rs, persistence.rs)

    [DaseinStateEngine] reduces experiences into the five parts of the self under
    one mutex, writes each transition to the ledger first, and replays the ledger
    after a restart; [DaseinModule] and the functions of [persistence.rs] are its
    callers.  A transition is in two sections, [accept] (the checks and the ledger)
    and [finish] (the reduction), so that a crash between them can be stated. *)
From S2P Require Import Prelude FabricTypes StdModel Fallible StdFloat Candidate DaseinTypes Temporality DaseinSelf SelfLedger.
Import Payload Self Temporality SelfLedger.

#[local] Open Scope N_scope.

(** [hay.contains(needle)] *)
Definition str_contains (needle hay : string) : bool := match String.index 0 needle hay with Some _ => true | None => false end.

(** [x as u64] for an [i64], and [i64::saturating_sub]. *)
Definition i64_as_u64 (x : Z) : N := Z.to_N (x mod 18446744073709551616).

Definition i64_saturating_sub (a b : Z) : Z := Z.max (-9223372036854775808) (Z.min (a - b) 9223372036854775807).

Module Engine.

Definition MAX_NARRATIVE_REFERENCES : nat := Pos.to_nat 1000.

(** The parts of the self that experiences change. *)
Record SelfState := {
  sf_temporality : TemporalStream;
  sf_world : World.Bewandtnisganzheit;
  sf_self_model : SelfModel.MutableSelfModel;
  sf_care : Care.CareStructure;
  sf_mood : Stimmung;
}.

Definition with_temporality (f : TemporalStream → TemporalStream) (s : SelfState) : SelfState :=
  {| sf_temporality := f (sf_temporality s); sf_world := sf_world s; sf_self_model := sf_self_model s;
     sf_care := sf_care s; sf_mood := sf_mood s |}.

Definition with_world (w : World.Bewandtnisganzheit) (s : SelfState) : SelfState :=
  {| sf_temporality := sf_temporality s; sf_world := w; sf_self_model := sf_self_model s;
     sf_care := sf_care s; sf_mood := sf_mood s |}.

Definition with_self_model (f : SelfModel.MutableSelfModel → SelfModel.MutableSelfModel) (s : SelfState) : SelfState :=
  {| sf_temporality := sf_temporality s; sf_world := sf_world s; sf_self_model := f (sf_self_model s);
     sf_care := sf_care s; sf_mood := sf_mood s |}.

Definition with_care (f : Care.CareStructure → Care.CareStructure) (s : SelfState) : SelfState :=
  {| sf_temporality := sf_temporality s; sf_world := sf_world s; sf_self_model := sf_self_model s;
     sf_care := f (sf_care s); sf_mood := sf_mood s |}.

Definition with_mood (m : Stimmung) (s : SelfState) : SelfState :=
  {| sf_temporality := sf_temporality s; sf_world := sf_world s; sf_self_model := sf_self_model s;
     sf_care := sf_care s; sf_mood := m |}.

(** ** Reduction *)

Definition set_mood (next : Stimmung) (s : SelfState) : SelfState * list SelfSignal :=
  if decide (sf_mood s = next) then (s, []) else (with_mood next s, [MoodChanged (sf_mood s) next]).

Definition synthesize_mood (s : SelfState) : SelfState * list SelfSignal :=
  let next :=
    synthesize (World.world_mood (sf_world s)) (temporal_mood (sf_temporality s)) (Care.care_mood (sf_care s))
      (sf_mood s) in
  if decide (next = sf_mood s) then (s, []) else set_mood next s.

Definition live (semantic : string) (action perception : option string) (s : SelfState) : SelfState :=
  with_temporality (ingest {| xc_semantic := semantic; xc_action := action; xc_perception := perception;
                              xc_negation := None |} (sf_mood s)) s.

Definition outcome_mood (status : OutcomeStatus) : Stimmung :=
  match status with
  | Succeeded => Gelaunt "successful outcome"
  | Failed => Geknickt "failed outcome"
  | Cancelled => Langeweile Surface
  end.

Definition assert_all (assertions : list string) (confidence : F64) (s : SelfState) : SelfState :=
  let position := ts_position (sf_temporality s) in
  with_self_model (λ m, foldl (λ m a, SelfModel.assert_
    {| SelfModel.sa_content := a; SelfModel.sa_source := SelfModel.Discovered; SelfModel.sa_stability := confidence;
       SelfModel.sa_since := position; SelfModel.sa_bewandtnis := [] |} m) m assertions) s.

Definition open_all (target : string) (new_possibilities : list string) (s : SelfState) : SelfState :=
  let position := ts_position (sf_temporality s) in
  with_self_model (λ m,
    foldl (λ m p, SelfModel.add_possibility
      {| SelfModel.sp_content := p; SelfModel.sp_from_negation := position; SelfModel.sp_attraction := f_05;
         SelfModel.sp_risk := f_05 |} m)
      (SelfModel.negate target (SelfModel.SelfChosen "structured negation transition") position m).1
      new_possibilities) s.

Definition care_signal (a : Care.CareAction) : SelfSignal :=
  match a with
  | Care.Deliberate r => CareDecision Deliberate r
  | Care.Direct r => CareDecision Direct r
  | Care.Wait r => CareDecision Wait r
  | Care.Negate r => CareDecision Negate r
  end.

Definition reflect_ (s : SelfState) : Result string (SelfState * list SelfSignal) :=
  let '(t, patterns) := passive_synthesize (sf_temporality s) in
  let s := with_temporality (λ _, update_protentions_from_patterns patterns t) s in
  let urgent_count := count (Care.urgent_concerns f_07 (sf_care s)) in
  rhythm ← must (Care.adapt (sf_mood s) urgent_count (Care.ca_rhythm (sf_care s)));
  let s := with_care (Care.with_rhythm rhythm) s in
  Ok (s, [ReflectionCompleted; care_signal (Care.determine_action (sf_care s))]).

(** The state and the signals that follow those already emitted. *)
Definition emit (first : list SelfSignal) (r : SelfState * list SelfSignal)
    : Result string (SelfState * list SelfSignal) := Ok (r.1, first ++ r.2).

Definition reduce (content : InterpretedExperience) (s : SelfState) : Result string (SelfState * list SelfSignal) :=
  match content with
  | Lived semantic action perception => emit [] (synthesize_mood (live semantic action perception s))
  | Outcome summary status =>
      emit [] (set_mood (outcome_mood status) (live summary (Some "turn_outcome") None s))
  | ConcernObserved id purpose urgency =>
      emit [] (synthesize_mood (with_care (Care.add_concern
        {| Care.co_id := id; Care.co_purpose := purpose; Care.co_urgency := urgency; Care.co_involvement_chain := [];
           Care.co_last_attended := ts_position (sf_temporality s); Care.co_mood_tone := sf_mood s |}) s))
  | KnowledgeAsserted assertions confidence =>
      Ok (assert_all assertions confidence s, [KnowledgeIntegrated (count assertions)])
  | NegationCompleted target new_possibilities =>
      Ok (open_all target new_possibilities s, [PossibilitiesOpened (count new_possibilities)])
  | MoodObserved mood _ => emit [] (set_mood mood s)
  | WorldEntityObserved entity_id what_it_is for_the_sake_of readiness =>
      emit [WorldEntityIntegrated entity_id] (synthesize_mood (with_world (World.add_entity
        {| World.bn_id := entity_id; World.bn_what_it_is := what_it_is; World.bn_for_the_sake_of := for_the_sake_of;
           World.bn_appears_in := []; World.bn_readiness := readiness |} (sf_world s)) s))
  | ReadinessChanged entity_id old_state new_state =>
      w ← match World.update_readiness_if entity_id old_state new_state (sf_world s) with Ok w => Ok w | _ => Panic end;
      emit [WorldReadinessChanged entity_id] (synthesize_mood (with_world w s))
  | TemporalSignal kind content =>
      Ok (s, if decide (kind = ProtentionSurprised) then [SignalPredictionError content] else [])
  | ResumedAfterInterval elapsed_ms =>
      emit [] (synthesize_mood
        (live ("resumed after " +:+ pretty elapsed_ms +:+ " ms") (Some "runtime_resumption") None s))
  | ScheduledReflection => reflect_ s
  end.

Definition preflight (content : InterpretedExperience) (s : SelfState) : Result string unit :=
  match content with
  | ReadinessChanged entity_id old_state _ => World.validate_readiness entity_id old_state (sf_world s)
  | _ => Ok tt
  end.

(** ** The engine *)

(** The self with [ReducerState]: what a restart loses. *)
Record Core := {
  cr_self : SelfState;
  cr_version : N;
  cr_receipts : gmap Uuid SelfTransitionReceipt;
  cr_narrative : list (Uuid * Uuid);
}.

(** The module with the store of its ledger, if it has one. *)
Record DaseinModule := {
  dm_core : Core;
  dm_ledger : option Store;
}.

Definition with_core (f : Core → Core) (d : DaseinModule) : DaseinModule :=
  {| dm_core := f (dm_core d); dm_ledger := dm_ledger d |}.

Definition with_version (v : N) (c : Core) : Core :=
  {| cr_self := cr_self c; cr_version := v; cr_receipts := cr_receipts c; cr_narrative := cr_narrative c |}.

Record DaseinRuntimeConfig := {
  dc_retention_depth : nat;
  dc_decay_rate : F64;
  dc_event_buffer : N;
}.

Definition config_validate (c : DaseinRuntimeConfig) : Result string unit :=
  need (0 <? dc_retention_depth c)%nat "Dasein retention depth must be nonzero" ;;
  need (Candidate.unit_f64 (dc_decay_rate c)) "Dasein decay rate must be between 0 and 1" ;;
  need (0 <? dc_event_buffer c) "Dasein event buffer must be nonzero".

Definition config_default : DaseinRuntimeConfig :=
  {| dc_retention_depth := 50; dc_decay_rate := f64_lit 8 10; dc_event_buffer := 256 |}.

Definition core_new (c : DaseinRuntimeConfig) : Core :=
  {| cr_self :=
       {| sf_temporality := stream_new (dc_retention_depth c) (dc_decay_rate c); sf_world := World.new;
          sf_self_model := SelfModel.new; sf_care := Care.new; sf_mood := Gelassenheit |};
     cr_version := 0; cr_receipts := ∅; cr_narrative := [] |}.

(** [DaseinModule::with_runtime_and_ledger] *)
Definition with_runtime_and_ledger (c : DaseinRuntimeConfig) (ledger : option Store) : Result string DaseinModule :=
  config_validate c ;;
  Ok {| dm_core := core_new c; dm_ledger := ledger |}.

Section Operations.
Context `{Env} `{NameUuid} `{SelfCodec}.

(** [if let Some(ledger) = &self.ledger { .. }] *)
Definition on_ledger {A} (absent : A) (m : M Store string A) : M DaseinModule string A := λ d n,
  match dm_ledger d with
  | None => (Ok absent, d, n)
  | Some s => match m s n with
              | (r, s', n') => (r, {| dm_core := dm_core d; dm_ledger := Some s' |}, n')
              end
  end.

Definition version_conflict (expected current : N) : string :=
  "Dasein self version conflict: expected " +:+ pretty expected +:+ ", current " +:+ pretty current.

(** The checks of a new request, and its entry in the ledger. *)
Definition accept (request : SelfTransitionRequest) (persist : bool) : M DaseinModule string unit :=
  d ← get_state;
  let c := dm_core d in
  lift (request_validate request) ;;
  ensure (rq_expected_version request =? cr_version c)
    (version_conflict (rq_expected_version request) (cr_version c)) ;;
  lift (preflight (rq_content request) (cr_self c)) ;;
  if persist then
    on_ledger tt (
      durable ← append request;
      ensure ((sv_previous_version durable =? cr_version c)
              && (sv_current_version durable =? wrapping_add (cr_version c) 1))
        "self ledger and reducer version diverged")
  else mret tt.

(** The receipt and the state after the reduction. *)
Definition receipt_of (request : SelfTransitionRequest) (version : N) (emitted : list SelfSignal)
    : SelfTransitionReceipt :=
  {| rt_event_id := rq_event_id request; rt_previous_version := version;
     rt_current_version := wrapping_add version 1;
     rt_narrative_entry_id := narrative_for_event (rq_event_id request); rt_emitted := emitted |}.

(** [while narrative.len() > MAX { pop_front() }] *)
Definition trim_narrative (l : list (Uuid * Uuid)) : list (Uuid * Uuid) :=
  drop (length l - MAX_NARRATIVE_REFERENCES) l.

Definition advance (request : SelfTransitionRequest) (r : SelfState * list SelfSignal) (c : Core) : Core :=
  let receipt := receipt_of request (cr_version c) r.2 in
  {| cr_self := r.1; cr_version := rt_current_version receipt;
     cr_receipts := <[rq_event_id request := receipt]> (cr_receipts c);
     cr_narrative := trim_narrative (cr_narrative c ++ [(rt_narrative_entry_id receipt, rq_event_id request)]) |}.

Definition finish (request : SelfTransitionRequest) : M DaseinModule string SelfTransitionReceipt :=
  d ← get_state;
  r ← lift (reduce (rq_content request) (cr_self (dm_core d)));
  modify (with_core (advance request r)) ;;
  mret (receipt_of request (cr_version (dm_core d)) r.2).

Definition transition_locked (request : SelfTransitionRequest) (persist : bool)
    : M DaseinModule string SelfTransitionReceipt :=
  d ← get_state;
  match cr_receipts (dm_core d) !! rq_event_id request with
  | Some receipt => mret receipt
  | None => accept request persist ;; finish request
  end.

Definition transition (request : SelfTransitionRequest) : M DaseinModule string SelfTransitionReceipt :=
  transition_locked request true.

(** A request for the current version with a fresh identifier. *)
Definition current_request (source : ExperienceSource) (producer : string) (content : InterpretedExperience)
    : M DaseinModule string SelfTransitionRequest :=
  event_id ← new_uuid;
  observed_at ← read_wall;
  d ← get_state;
  mret {| rq_event_id := event_id; rq_source := source; rq_observed_at := observed_at; rq_content := content;
          rq_provenance := {| ep_producer := producer; ep_session_id := None; ep_turn_id := None;
                              ep_source_ref := None |};
          rq_expected_version := cr_version (dm_core d) |}.

(** The version is taken from the ledger if it can be read. *)
Definition sync_version : M DaseinModule string unit :=
  events ← try_ (on_ledger [] load_verified);
  match events with
  | inr events =>
      match last events with
      | Some e => modify (with_core (with_version (sv_current_version e)))
      | None => mret tt
      end
  | inl _ => mret tt
  end.

Definition transition_current (source : ExperienceSource) (producer : string) (content : InterpretedExperience)
    : M DaseinModule string SelfTransitionReceipt :=
  request ← current_request source producer content;
  r ← try_ (transition_locked request true);
  match r with
  | inr receipt => mret receipt
  | inl msg =>
      if str_contains "version conflict" msg then
        sync_version ;;
        retry ← current_request source producer ScheduledReflection;
        transition_locked retry true
      else throw msg
  end.

Definition compat_content (event : DaseinEvent) : InterpretedExperience :=
  match event with
  | UserInput content => Lived content (Some "user_interaction") None
  | SystemEvent source content => Lived ("[" +:+ source +:+ "] " +:+ content) None (Some content)
  | TimerTick => ScheduledReflection
  | EvKnowledgeAsserted assertions confidence => KnowledgeAsserted assertions confidence
  | EvNegationCompleted target new_possibilities => NegationCompleted target new_possibilities
  | MoodShift _ to reason => MoodObserved to reason
  | BewandtnisChange entity_id old_state new_state => ReadinessChanged entity_id old_state new_state
  | TemporalEvent kind content => TemporalSignal kind content
  end.

Definition apply_compat_event (event : DaseinEvent) (producer : string) : M DaseinModule string SelfTransitionReceipt :=
  transition_current Runtime producer (compat_content event).

(** ** Replay *)

Definition pristine (c : Core) : Core :=
  if negb (cr_version c =? 0) || negb (bool_decide (cr_receipts c = ∅))
  then {| cr_self := cr_self c; cr_version := 0; cr_receipts := ∅; cr_narrative := [] |}
  else c.

Definition replay_event (event : SelfEventV1) : M DaseinModule string unit :=
  receipt ← transition_locked (sv_request event) false;
  ensure ((rt_previous_version receipt =? sv_previous_version event)
          && (rt_current_version receipt =? sv_current_version event))
    ("Dasein replay receipt diverged at sequence " +:+ pretty (sv_sequence event)).

Definition replay : M DaseinModule string N :=
  plan ← on_ledger None (events ← load_replay_plan; mret (Some events));
  match plan with
  | None => mret 0
  | Some events =>
      modify (with_core pristine) ;;
      for_each events replay_event ;;
      mret (count events)
  end.

Definition checkpoint : M DaseinModule string unit :=
  events ← on_ledger None (events ← load_verified; mret (Some events));
  match events with
  | None => mret tt
  | Some events => now ← read_wall; on_ledger tt (save_checkpoint events now)
  end.

Definition last_durable_observed_at : M DaseinModule string (option WallTime) :=
  on_ledger None (events ← load_verified; mret (rq_observed_at ∘ sv_request <$> last events)).

(** ** The module *)

Definition record_outcome (summary : string) (status : OutcomeStatus) (producer : string)
    : M DaseinModule string SelfTransitionReceipt :=
  transition_current Runtime producer (Outcome summary status).

Definition handle_event (event : DaseinEvent) : M DaseinModule string SelfTransitionReceipt :=
  apply_compat_event event "dasein-ops-compatibility".

Definition record_resumption_after_replay : M DaseinModule string (option SelfTransitionReceipt) :=
  last_observed ← last_durable_observed_at;
  match last_observed with
  | None => mret None
  | Some t =>
      now ← read_wall;
      receipt ← transition_current Dasein "dasein-restart"
        (ResumedAfterInterval (i64_as_u64 (i64_saturating_sub now t)));
      mret (Some receipt)
  end.

(** ** persistence.rs *)

(** The store has the legacy record even where the engine has no ledger; here
    both are the same store. *)
Definition migrate_legacy_mood : M DaseinModule string unit :=
  mood_json ← on_ledger None (statement ;; s ← get_state; mret (ss_legacy_mood s));
  match mood_json with
  | None => mret tt
  | Some json =>
      mood ← lift (reply (parse_mood json));
      transition_current Dasein "legacy-dasein-state-migration"
        (MoodObserved mood "migrated legacy mood record") ;;
      mret tt
  end.

Definition load_dasein_state : M DaseinModule string unit :=
  replayed ← replay;
  if replayed =? 0 then migrate_legacy_mood
  else record_resumption_after_replay ;; mret tt.

Definition save_dasein_state : M DaseinModule string unit := checkpoint.

(** ** sorge.rs *)

(** One turn of the loop: the events that were received, then the reflection if
    the timer fired; a rejected one is logged. *)
Definition sorge_turn (events : list DaseinEvent) (scheduled_reflection : bool) : M DaseinModule string unit :=
  for_each events (λ event, ignore (apply_compat_event event "sorge-event-loop")) ;;
  if scheduled_reflection
  then ignore (transition_current Dasein "sorge-scheduler" ScheduledReflection)
  else mret tt.

End Operations.

End Engine.
