(* ===== verification/SelfEngineSpec.v ===== *)
(** * The self is its history

    The specification is [rebuild]: the core that the requests of a history give,
    one after the other, from a fresh core.  Every operation of the module keeps
    the core equal to what its ledger rebuilds, whatever statement of the database
    fails; the reduction does not panic. *)
From S2P Require Import Prelude FabricTypes StdModel Fallible StdFloat Candidate DaseinTypes Temporality DaseinSelf SelfLedger SelfEngine.
Import Payload Self Temporality SelfLedger Engine.

#[local] Open Scope N_scope.

(** The number in an experience, where it has one. *)
Definition number_of (content : InterpretedExperience) : option F64 :=
  match content with
  | ConcernObserved _ _ urgency => Some urgency
  | KnowledgeAsserted _ confidence => Some confidence
  | _ => None
  end.

(** What the ledger relies on: a valid request that was encoded is decoded to the
    same request, unless a number in it is one the parser reads back differently.
    Decimal numbers are parsed with best effort: [exact_number] are those that come
    out as they went in. *)
Class SelfLaws `{SelfCodec} := {
  exact_number : F64 → Prop;
  request_read_back : ∀ r json, request_validate r = Ok tt → (∀ x, number_of (rq_content r) = Some x → exact_number x) →
    request_json r = inr json → parse_request json = inr r;
  events_read_back : ∀ es json,
    Forall (λ e, request_validate (sv_request e) = Ok tt
                 ∧ ∀ x, number_of (rq_content (sv_request e)) = Some x → exact_number x) es →
    events_json es = inr json → parse_events json = inr es;
}.

(** The number in an experience, if any, is read back as it is. *)
Definition exact `{HL : SelfLaws} (content : InterpretedExperience) : Prop :=
  ∀ x, number_of content = Some x → exact_number x.

(** ** What the parts of the self keep *)

(** [k] bounds the number of concerns. *)
Record self_wf (depth : nat) (k : N) (s : SelfState) : Prop := {
  wf_rhythm : rhythm_ok (Care.ca_rhythm (sf_care s));
  wf_concerns : N.of_nat (size (Care.ca_concerns (sf_care s))) ≤ k;
  wf_model : model_ok (sf_self_model s);
  wf_depth : rf_depth (ts_retention (sf_temporality s)) = depth;
  wf_retention : (length (rf_moments (ts_retention (sf_temporality s))) ≤ depth)%nat;
  wf_calm : ∀ a, a ∈ pf_possibilities (ts_protention (sf_temporality s)) → ap_affect a ≠ Anxious;
  wf_fallen : Care.fa_absorbed_in (Care.ca_fallenness (sf_care s)) = None;
  wf_chosen : Care.pj_chosen (Care.ca_projection (sf_care s)) = None;
}.

Section Reduction.
Implicit Types (s : SelfState).

Lemma self_wf_mono depth k k' s : self_wf depth k s → k ≤ k' → self_wf depth k' s.
Proof. intros [] ?. split; try done. lia. Qed.

Lemma fresh_wf c : self_wf (dc_retention_depth c) 0 (cr_self (core_new c)).
Proof.
  split; [vm_compute; repeat split; discriminate|done| |done|cbn; lia|by intros a ?%not_elem_of_nil|done|done].
  split; cbn; [constructor|lia|lia|done].
Qed.

Lemma set_mood_wf depth k m s : self_wf depth k s → self_wf depth k (set_mood m s).1.
Proof. intros []. unfold set_mood. case_decide; by split. Qed.

Lemma synthesize_mood_wf depth k s : self_wf depth k s → self_wf depth k (synthesize_mood s).1.
Proof. intros. unfold synthesize_mood. case_decide; [done|by apply set_mood_wf]. Qed.

Lemma live_wf depth k a b c s : self_wf depth k s → self_wf depth k (live a b c s).
Proof.
  intros []. split; cbn -[push_and_decay]; try done; case_match; try done.
  rewrite <-wf_depth0. apply push_bounded.
Qed.

Lemma concern_wf depth k c s : self_wf depth k s → self_wf depth (k + 1) (with_care (Care.add_concern c) s).
Proof.
  intros []. split; cbn; try done. rewrite map_size_insert. case_match; unfold id; lia.
Qed.

Lemma assert_all_wf depth k l c s : self_wf depth k s → self_wf depth k (assert_all l c s).
Proof.
  intros []. split; cbn; try done. generalize (ts_position (sf_temporality s)). intros pos.
  revert wf_model0. generalize (sf_self_model s). induction l as [|a l IH]; cbn; [done|].
  intros m Hm. apply IH. by apply assert_ok.
Qed.

Lemma open_all_wf depth k t l s : self_wf depth k s → self_wf depth k (open_all t l s).
Proof.
  intros []. split; cbn; try done. generalize (ts_position (sf_temporality s)). intros pos.
  destruct (negate_ok t (SelfModel.SelfChosen "structured negation transition") pos _ wf_model0) as [Hn _].
  revert Hn. generalize (SelfModel.negate t (SelfModel.SelfChosen "structured negation transition") pos (sf_self_model s)).1.
  induction l as [|a l IH]; cbn; [done|]. intros m Hm. apply IH. by apply possibility_ok.
Qed.

Lemma world_wf depth k w s : self_wf depth k s → self_wf depth k (with_world w s).
Proof. by intros []. Qed.

Lemma urgent_count c t : count (Care.urgent_concerns t c) ≤ N.of_nat (size (Care.ca_concerns c)).
Proof.
  unfold count, Care.urgent_concerns, Care.concerns_in_order.
  enough (length (filter (λ x, SFleb t (Care.co_urgency x) = true) (sort_by Care.by_key (map_to_list (Care.ca_concerns c))).*2)
          ≤ size (Care.ca_concerns c))%nat by lia.
  etrans; [apply length_filter|]. by rewrite length_fmap, sort_by_perm, length_map_to_list.
Qed.

Lemma reflect_total depth k s :
  self_wf depth k s → k ≤ u64_max → ∃ r, reflect_ s = Ok r ∧ self_wf depth k r.1.
Proof.
  intros [] Hk. unfold reflect_.
  destruct (passive_synthesize (sf_temporality s)) as [t patterns] eqn:Et. cbn [sf_mood sf_care with_temporality].
  pose proof (urgent_count (sf_care s) f_07).
  destruct (adapt_total (sf_mood s) (count (Care.urgent_concerns f_07 (sf_care s))) _ wf_rhythm0) as (r & -> & Hr);
    [lia|]. cbn [must mbind Result_bind].
  unfold passive_synthesize in Et. destruct (passive _ _) as [sy ps] eqn:Ep. injection Et as <- <-.
  eexists. split; [done|]. split; cbn; try done. intros a. apply update_not_anxious. intros w.
  pose proof (passive_no_disruption (vivid_moments f_03 (ts_retention (sf_temporality s)))
    (ts_synthesizer (sf_temporality s)) w) as Hw. by rewrite Ep in Hw.
Qed.

(** A reduction that passed the preflight does not panic. *)
Lemma reduce_total depth k content s :
  self_wf depth k s → k < u64_max → preflight content s = Ok tt →
  ∃ r, reduce content s = Ok r ∧ self_wf depth (k + 1) r.1.
Proof.
  intros Hs Hk Hpre. destruct content; cbn [reduce preflight] in *; unfold emit.
  all: try (eexists; split; [done|]; eapply self_wf_mono with k; [|lia]; cbn [fst];
            by eauto using synthesize_mood_wf, set_mood_wf, live_wf, assert_all_wf, open_all_wf, world_wf).
  - eexists. split; [done|]. apply synthesize_mood_wf. by apply concern_wf.
  - unfold World.validate_readiness, World.update_readiness_if in *. inv_ok Hpre. rewrite Hpre0. cbn [some_or mbind Result_bind]. rewrite Hpre. cbn [need mbind Result_bind].
    eexists. split; [done|]. cbn [fst]. eapply self_wf_mono; [by apply synthesize_mood_wf, world_wf|lia].
  - destruct (reflect_total depth k s) as (r & -> & Hr); [done|lia|]. exists r. split; [done|]. eapply self_wf_mono; [done|lia].
Qed.

End Reduction.

(** ** The specification *)

Section Spec.
Context `{HE : Env} `{HU : NameUuid} `{HC : SelfCodec} {HL : SelfLaws} (cfg : DaseinRuntimeConfig).
Implicit Types (c : Core) (r : SelfTransitionRequest) (st : Store) (events : list SelfEventV1).

(** A request takes the core to the next version, or is refused. *)
Definition apply_request c r : option Core :=
  if decide (is_Some (cr_receipts c !! rq_event_id r)) then None
  else
    match request_validate r, preflight (rq_content r) (cr_self c) with
    | Ok _, Ok _ =>
        if rq_expected_version r =? cr_version c
        then match reduce (rq_content r) (cr_self c) with Ok x => Some (advance r x c) | _ => None end
        else None
    | _, _ => None
    end.

(** The core that a history gives. *)
Definition rebuild (rs : list SelfTransitionRequest) : option Core :=
  foldl (λ oc r, c ← oc; apply_request c r) (Some (core_new cfg)) rs.

Lemma rebuild_snoc rs r : rebuild (rs ++ [r]) = c ← rebuild rs; apply_request c r.
Proof. unfold rebuild. by rewrite foldl_app. Qed.

Lemma apply_request_Some c r c' :
  apply_request c r = Some c' ↔
  cr_receipts c !! rq_event_id r = None ∧ request_validate r = Ok tt ∧ preflight (rq_content r) (cr_self c) = Ok tt
  ∧ rq_expected_version r = cr_version c
  ∧ ∃ x, reduce (rq_content r) (cr_self c) = Ok x ∧ c' = advance r x c.
Proof.
  unfold apply_request. rewrite eq_None_not_Some. case_decide; [naive_solver|].
  destruct (request_validate r) as [[]|?|]; [|naive_solver..].
  destruct (preflight _ _) as [[]|?|]; [|naive_solver..].
  destruct (N.eqb_spec (rq_expected_version r) (cr_version c)); [|naive_solver].
  destruct (reduce _ _); naive_solver.
Qed.

(** What holds of the core after [k] requests. *)
Record core_ok (rs : list SelfTransitionRequest) c : Prop := {
  co_version : cr_version c = count rs;
  co_receipts : ∀ id, is_Some (cr_receipts c !! id) ↔ id ∈ rq_event_id <$> rs;
  co_self : self_wf (dc_retention_depth cfg) (count rs) (cr_self c);
  co_narrative : (length (cr_narrative c) ≤ MAX_NARRATIVE_REFERENCES)%nat;
}.

Lemma count_snoc {A} (l : list A) x : count (l ++ [x]) = count l + 1.
Proof. unfold count. rewrite length_app. cbn. lia. Qed.

Lemma version_succ n : n < u64_max → wrapping_add n 1 = n + 1.
Proof. intros Hn. unfold wrapping_add. apply N.mod_small. lia. Qed.

Lemma advance_ok rs c r x :
  core_ok rs c → count rs < u64_max → self_wf (dc_retention_depth cfg) (count rs + 1) x.1 →
  core_ok (rs ++ [r]) (advance r x c).
Proof.
  intros [Hv Hr Hs Hn] Hk Hx. split; [cbn; by rewrite Hv, count_snoc, version_succ| |cbn; by rewrite count_snoc|].
  - intros id. cbn [advance cr_receipts]. rewrite lookup_insert_is_Some', Hr, fmap_app, elem_of_app.
    cbn [fmap list_fmap]. rewrite list_elem_of_singleton. naive_solver.
  - cbn [advance cr_narrative]. unfold trim_narrative. rewrite length_drop. lia.
Qed.

Lemma rebuild_ok rs c : rebuild rs = Some c → count rs ≤ i64_max → core_ok rs c.
Proof.
  revert c. induction rs as [|r rs IH] using rev_ind; intros c.
  - intros [= <-] _. split; [done| |apply fresh_wf|cbn; lia]. intros id. cbn [core_new cr_receipts]. rewrite lookup_empty.
    split; [by intros []|]. by intros ?%not_elem_of_nil.
  - rewrite rebuild_snoc, count_snoc. intros (c1 & H1 & H2)%bind_Some Hk.
    apply apply_request_Some in H2 as (_ & _ & Hpre & _ & x & Hx & ->).
    unfold i64_max in Hk. destruct (IH c1 H1 ltac:(unfold i64_max; lia)) as [Hv Hr Hs Hn].
    destruct (reduce_total (dc_retention_depth cfg) (count rs) (rq_content r) (cr_self c1))
      as (x' & Hx' & Hwf); [done|unfold u64_max; lia|done|]. rewrite Hx in Hx'. injection Hx' as <-.
    apply advance_ok; [by split|unfold u64_max; lia|done].
Qed.

(** ** The chain of checksums *)

(** The checksum the next event continues. *)
Definition tail_checksum (start : string) events : string := default start (sv_checksum <$> last events).

Lemma tail_cons start e events : tail_checksum (sv_checksum e) events = tail_checksum start (e :: events).
Proof. unfold tail_checksum. rewrite last_cons. by destruct (last events). Qed.

Lemma verify_snoc n start rows events row e :
  verify_rows n start rows = Ok events →
  verify_row (n + count rows) (tail_checksum start events) row = Ok e →
  verify_rows n start (rows ++ [row]) = Ok (events ++ [e]).
Proof.
  revert n start events. induction rows as [|r0 rows IH]; intros n start events; cbn [verify_rows app].
  - intros [= <-] Hrow. cbn [tail_checksum last fmap option_fmap option_map default] in Hrow.
    change (count []) with 0 in Hrow. rewrite N.add_0_r in Hrow.
    unfold tail_checksum in Hrow. cbn in Hrow. rewrite Hrow. done.
  - intros Hv Hrow. apply bind_ok in Hv as (e0 & H0 & Hv). apply bind_ok in Hv as (es & Hes & [= <-]).
    rewrite H0. cbn [mbind Result_bind].
    rewrite (IH (n + 1) (sv_checksum e0) es); [done|done|].
    rewrite (tail_cons start). rewrite <-Hrow. f_equal. unfold count. cbn [length]. lia.
Qed.

(** What one verified row says. *)
Lemma verify_row_ok seen start row e :
  verify_row seen start row = Ok e →
  ∃ r, parse_request (er_request_json row) = inr r ∧ e = event_of_row row r ∧ request_validate r = Ok tt
    ∧ er_seq row = seen + 1 ∧ er_previous_version row = seen ∧ er_next_version row = wrapping_add seen 1
    ∧ er_previous_checksum row = start
    ∧ event_checksum (er_seq row) r (er_previous_version row) (er_next_version row) start = Ok (er_checksum row).
Proof.
  unfold verify_row, validate_versions. intros Hv. inv_ok Hv. destruct (parse_request _) as [|r] eqn:Ep; [done|].
  injection Hv0 as <-. injection Hv as <-. cbn in *. exists r.
  rewrite !andb_true_iff, !N.eqb_eq in *. repeat match goal with u : unit |- _ => destruct u end. checks. naive_solver.
Qed.

Lemma verify_row_intro seen start row r :
  parse_request (er_request_json row) = inr r → request_validate r = Ok tt →
  er_seq row = seen + 1 → er_previous_version row = seen → er_next_version row = wrapping_add seen 1 →
  er_previous_checksum row = start →
  event_checksum (er_seq row) r (er_previous_version row) (er_next_version row) start = Ok (er_checksum row) →
  verify_row seen start row = Ok (event_of_row row r).
Proof.
  intros Hp Hr Hs Hpv Hn Hpc Hc. unfold verify_row, validate_versions. rewrite Hp. cbn [reply mbind Result_bind].
  cbn [event_of_row sv_schema_version sv_reducer_version sv_current_version sv_previous_version sv_request
       sv_sequence sv_previous_checksum sv_checksum].
  rewrite Hpv, Hn, Hs, !N.eqb_refl, Hr, Hpc. cbn [need mbind Result_bind andb].
  rewrite bool_decide_true by done. rewrite Hs, Hpv, Hn in Hc. rewrite Hc. cbn [need mbind Result_bind].
  by rewrite bool_decide_true.
Qed.

Lemma verify_rows_app n start rows1 rows2 events :
  verify_rows n start (rows1 ++ rows2) = Ok events →
  ∃ es1 es2, events = es1 ++ es2 ∧ verify_rows n start rows1 = Ok es1
    ∧ verify_rows (n + count rows1) (tail_checksum start es1) rows2 = Ok es2.
Proof.
  revert n start events. induction rows1 as [|r0 rows1 IH]; intros n start events; cbn [verify_rows app].
  - intros Hv. exists [], events. rewrite N.add_0_r. done.
  - intros Hv. apply bind_ok in Hv as (e0 & H0 & Hv). apply bind_ok in Hv as (es & Hes & [= <-]).
    destruct (IH _ _ _ Hes) as (es1 & es2 & -> & H1 & H2). exists (e0 :: es1), es2. rewrite H0. cbn [mbind Result_bind].
    rewrite H1. cbn [mbind Result_bind]. split_and!; [done|done|]. rewrite (tail_cons start) in H2. rewrite <-H2.
    f_equal. unfold count. cbn [length]. lia.
Qed.

Lemma verify_rows_length n start rows events : verify_rows n start rows = Ok events → length events = length rows.
Proof.
  revert n start events. induction rows as [|r0 rows IH]; intros n start events; cbn [verify_rows]; [by intros [= <-]|].
  intros Hv. apply bind_ok in Hv as (e0 & _ & Hv). apply bind_ok in Hv as (es & Hes & [= <-]). cbn. f_equal. eauto.
Qed.

Lemma verify_row_at n start rows events row :
  verify_rows n start rows = Ok events → row ∈ rows →
  er_seq row ≤ n + count rows ∧ er_next_version row ≤ n + count rows.
Proof.
  intros Hv Hin. apply list_elem_of_split in Hin as (l1 & l2 & ->).
  destruct (verify_rows_app _ _ _ _ _ Hv) as (es1 & es2 & _ & _ & H2). cbn [verify_rows] in H2.
  apply bind_ok in H2 as (e & (r & _ & _ & _ & -> & _ & -> & _)%verify_row_ok & _).
  assert (wrapping_add (n + count l1) 1 ≤ n + count l1 + 1) by apply N.Div0.mod_le.
  unfold count in *. rewrite length_app. cbn. lia.
Qed.

Lemma verify_requests n start rows events :
  verify_rows n start rows = Ok events → Forall (λ e, request_validate (sv_request e) = Ok tt) events.
Proof.
  revert n start events. induction rows as [|r0 rows IH]; intros n start events; cbn [verify_rows]; [by intros [= <-]|].
  intros Hv. apply bind_ok in Hv as (e0 & H0 & Hv). apply bind_ok in Hv as (es & Hes & [= <-]).
  constructor; [|eauto]. by apply verify_row_ok in H0 as (r & _ & -> & ? & _).
Qed.

(** The [k]-th event takes version [k] to the next one. *)
Lemma verify_event n start rows es1 e es2 :
  verify_rows n start rows = Ok (es1 ++ e :: es2) →
  sv_sequence e = n + count es1 + 1 ∧ sv_previous_version e = n + count es1
  ∧ sv_current_version e = wrapping_add (n + count es1) 1.
Proof.
  revert n start es1. induction rows as [|r0 rows IH]; intros n start es1; cbn [verify_rows]; [by destruct es1|].
  intros Hv. apply bind_ok in Hv as (e0 & H0 & Hv). apply bind_ok in Hv as (es & Hes & [= Heq]).
  destruct es1 as [|x es1]; cbn [app] in Heq; injection Heq as <- ->.
  - apply verify_row_ok in H0 as (r & _ & -> & _ & Hs & Hp & Hn & _). cbn. rewrite Hs, Hp, Hn, !N.add_0_r. done.
  - apply IH in Hes as (Hs & Hp & Hn). unfold count in *. cbn [length].
    replace (n + N.of_nat (S (length es1))) with (n + 1 + N.of_nat (length es1)) by lia. done.
Qed.

(** ** The store and the core in step *)

Definition snapshot_ok events (row : SnapshotRow) : Prop :=
  ∃ prefix, prefix `prefix_of` events ∧ events_json prefix = inr (sn_event_prefix_json row)
    ∧ sn_checksum row = bytes_checksum (sn_event_prefix_json row) ∧ sn_last_event_seq row = count prefix.

Record ledger_ok st events c : Prop := {
  lk_verified : verify_rows 0 "" (ss_events st) = Ok events;
  lk_ids : er_event_id <$> ss_events st = rq_event_id <$> (sv_request <$> events);
  lk_count : count events ≤ i64_max;
  lk_core : rebuild (sv_request <$> events) = Some c;
  lk_exact : Forall (λ e, exact (rq_content (sv_request e))) events;
  lk_snapshots : Forall (snapshot_ok events) (ss_snapshots st);
}.

Lemma ledger_core st events c : ledger_ok st events c → core_ok (sv_request <$> events) c.
Proof. intros []. apply rebuild_ok; [done|]. unfold count in *. by rewrite length_fmap. Qed.

Lemma ledger_version st events c : ledger_ok st events c → cr_version c = count events.
Proof. intros Hl. destruct (ledger_core _ _ _ Hl) as [-> _ _ _]. unfold count. by rewrite length_fmap. Qed.

Lemma count_rows st events c : ledger_ok st events c → count (ss_events st) = count events.
Proof. intros [Hv _ _ _ _ _]. apply verify_rows_length in Hv. unfold count. by rewrite Hv. Qed.

Lemma latest_ok st events c :
  ledger_ok st events c → latest st = (count events + 1, count events, tail_checksum "" events).
Proof.
  intros Hl. pose proof (count_rows _ _ _ Hl) as Hc. destruct Hl as [Hv _ Hk _ _ _]. unfold latest.
  destruct (rev_case (ss_events st)) as [Hr|(rows & row & Hr)]; rewrite Hr in *; [by injection Hv as <-|].
  rewrite last_snoc. destruct (verify_rows_app _ _ _ _ _ Hv) as (es1 & es2 & -> & H1 & H2). cbn [verify_rows] in H2.
  apply bind_ok in H2 as (e & (r & _ & -> & _ & -> & _ & -> & _)%verify_row_ok & [= <-]).
  unfold tail_checksum. rewrite last_snoc. cbn [fmap option_fmap option_map default event_of_row sv_checksum].
  rewrite !count_snoc in *. unfold i64_max in Hk. rewrite N.add_0_l, version_succ by (unfold u64_max; lia).
  cbn [id]. repeat f_equal; lia.
Qed.

Lemma filter_none {A} (P : A → Prop) `{!∀ x, Decision (P x)} l : (∀ x, x ∈ l → ¬ P x) → filter P l = [].
Proof.
  induction l as [|x l IH]; [done|]. intros Hl. rewrite filter_cons_False by (apply Hl; constructor).
  apply IH. intros y ?. apply Hl. by constructor.
Qed.

Lemma insert_by_last {A} (R : relation A) `{!RelDecision R} x l : (∀ y, y ∈ l → ¬ R x y) → insert_by R x l = l ++ [x].
Proof.
  induction l as [|y l IH]; cbn; [done|]. intros Hl. rewrite decide_False by (apply Hl; constructor).
  f_equal. apply IH. intros z ?. apply Hl. by constructor.
Qed.

Lemma wp_self_lift {S A} (x : Result string A) (Q : Result string A → S → N → Prop) s n : Q x s n → wp (lift x) Q s n.
Proof. done. Qed.

Lemma wp_statement {S} (Q : Result string unit → S → N → Prop) s n :
  (database n = None → Q (Ok tt) s (n + 1)) → (∀ e, Q (Err e) s (n + 1)) → wp statement Q s n.
Proof. intros Ho He. unfold statement. wp_steps. destruct (database n) eqn:Ed; wp_steps; auto. Qed.

Lemma wp_reply {S A} (x : string + A) (Q : Result string A → S → N → Prop) s n :
  (∀ a, x = inr a → Q (Ok a) s n) → (∀ e, Q (Err e) s n) → wp (lift (reply x)) Q s n.
Proof. intros Ho He. apply wp_self_lift. destruct x; cbn; auto. Qed.

(** A row that continues the ledger. *)
Lemma ledger_push st events c c' r row :
  ledger_ok st events c → apply_request c r = Some c' → exact (rq_content r) → count events + 1 ≤ i64_max →
  er_seq row = count events + 1 → er_event_id row = rq_event_id r → er_previous_version row = count events →
  er_next_version row = wrapping_add (count events) 1 → request_json r = inr (er_request_json row) →
  er_previous_checksum row = tail_checksum "" events →
  event_checksum (er_seq row) r (er_previous_version row) (er_next_version row) (tail_checksum "" events)
    = Ok (er_checksum row) →
  ledger_ok (with_events (insert_by seq_le row) st) (events ++ [event_of_row row r]) c'.
Proof.
  intros Hl Happ Hex Hk Hseq Hid Hprev Hnext Hjson Hpc Hcs.
  pose proof (count_rows _ _ _ Hl) as Hcr. destruct Hl as [Hv Hids _ Hcore Hexs Hsn].
  apply apply_request_Some in Happ as Happ'. destruct Happ' as (_ & Hval & _).
  assert (insert_by seq_le row (ss_events st) = ss_events st ++ [row]) as Hins.
  { apply insert_by_last. intros y Hy. destruct (verify_row_at _ _ _ _ _ Hv Hy) as [Hy' _]. unfold seq_le. lia. }
  split; cbn [with_events ss_events ss_snapshots]; rewrite ?Hins.
  - eapply verify_snoc; [done|]. rewrite N.add_0_l, Hcr. apply verify_row_intro; try done. by apply request_read_back.
  - rewrite !fmap_app, Hids. cbn. by rewrite Hid.
  - by rewrite count_snoc.
  - rewrite fmap_app. cbn [fmap list_fmap event_of_row sv_request]. by rewrite rebuild_snoc, Hcore.
  - apply Forall_app_2; [done|]. by apply Forall_singleton.
  - eapply Forall_impl; [done|]. intros sn (prefix & Hp & ?). exists prefix. split; [|done].
    by apply prefix_app_r.
Qed.

Lemma insert_event_spec row st n :
  wp (insert_event row) (λ res st' n', match res with
    | Ok _ => er_seq row ≤ i64_max ∧ st' = with_events (insert_by seq_le row) st
    | Err _ => st' = st
    | Panic => False
    end) st n.
Proof.
  unfold insert_event, sql_u64. wp_step. wp_step; [intros Hle|done]. do 2 (wp_step; wp_step; [intros _|done]).
  wp_step. apply wp_statement; [intros _|done]. wp_step. wp_step. wp_step. wp_step; [intros _|done].
  wp_step. apply wp_statement; [intros _|done]. wp_step. by apply N.leb_le in Hle.
Qed.

Lemma append_spec st events c c' r n :
  ledger_ok st events c → apply_request c r = Some c' → exact (rq_content r) →
  wp (append r) (λ res st' n', match res with
    | Ok e => sv_request e = r ∧ sv_previous_version e = cr_version c
              ∧ sv_current_version e = wrapping_add (cr_version c) 1 ∧ ledger_ok st' (events ++ [e]) c'
    | Err _ => st' = st
    | Panic => False
    end) st n.
Proof.
  intros Hl Happ Hex. pose proof (ledger_version _ _ _ Hl) as Hver. destruct (ledger_core _ _ _ Hl) as [_ Hrec _ _].
  apply apply_request_Some in Happ as Happ'. destruct Happ' as (Hnone & _ & _ & Hexp & _).
  unfold append. do 2 (wp_step; apply wp_statement; [intros _|done]). wp_step. wp_step.
  rewrite (filter_none _ (ss_events st)); cbn [head].
  2: { intros row Hrow Hid. apply eq_None_not_Some in Hnone. apply Hnone, Hrec.
       rewrite <-(lk_ids _ _ _ Hl), <-Hid. by apply list_elem_of_fmap_2. }
  unfold append_new. wp_step. apply wp_statement; [intros _|done]. wp_step. wp_step. rewrite (latest_ok _ _ _ Hl).
  wp_step. wp_step; [intros _|done]. wp_step.
  destruct (event_checksum _ _ _ _ _) as [cs|e|] eqn:Ecs; apply wp_self_lift; [|done|].
  2: { unfold event_checksum in Ecs. by destruct (material_json _). }
  wp_step. apply wp_reply; [|done]. intros json Hj. wp_step. eapply wp_mono; [apply insert_event_spec|].
  intros [[]|e|] st' n'; [|done..]. intros [Hle ->]. wp_step. rewrite Hver. split_and!; [done..|].
  eapply ledger_push; done.
Qed.

End Spec.

(** ** Runs of the module with crashes and restarts

    Every operation keeps the core in step with the ledger; a run is any sequence
    of operations, crashes (also between the ledger and the reduction) and
    restarts.  A restart rebuilds exactly the core that was lost. *)

Section Run.
Context `{HE : Env} `{HU : NameUuid} `{HC : SelfCodec} {HL : SelfLaws} (cfg : DaseinRuntimeConfig).
Implicit Types (c : Core) (r : SelfTransitionRequest) (st : Store) (events : list SelfEventV1) (d : DaseinModule).

Definition in_step d : Prop := ∃ st events, dm_ledger d = Some st ∧ ledger_ok cfg st events (dm_core d).

Lemma wp_on_ledger {A} (a : A) (m : M Store string A) Q d st n :
  dm_ledger d = Some st →
  wp m (λ x st' n', Q x {| dm_core := dm_core d; dm_ledger := Some st' |} n') st n → wp (on_ledger a m) Q d n.
Proof. intros Hd. unfold wp, on_ledger. rewrite Hd. by destruct (m st n) as [[x st'] n']. Qed.

Lemma module_eta d st : dm_ledger d = Some st → d = {| dm_core := dm_core d; dm_ledger := Some st |}.
Proof. destruct d; cbn. by intros ->. Qed.

(** ** A transition *)

Lemma preflight_calm content s : calm (preflight content s).
Proof. unfold preflight, World.validate_readiness. solve_calm. Qed.

Lemma accept_spec d st events r n :
  dm_ledger d = Some st → ledger_ok cfg st events (dm_core d) → exact (rq_content r) →
  cr_receipts (dm_core d) !! rq_event_id r = None →
  wp (accept r true) (λ x d' n', match x with
    | Ok _ => ∃ c' st' e, apply_request (dm_core d) r = Some c' ∧ sv_request e = r
                ∧ ledger_ok cfg st' (events ++ [e]) c' ∧ d' = {| dm_core := dm_core d; dm_ledger := Some st' |}
    | Err _ => d' = d
    | Panic => False
    end) d n.
Proof.
  intros Hd Hl Hex Hnone. unfold accept. wp_step. wp_step. wp_step. apply wp_self_lift.
  pose proof (request_validate_calm r). destruct (request_validate r) as [[]|e|] eqn:Hval; [|done|done].
  wp_step. wp_step; [intros Hexp%N.eqb_eq|done]. wp_step. apply wp_self_lift.
  pose proof (preflight_calm (rq_content r) (cr_self (dm_core d))).
  destruct (preflight _ _) as [[]|e|] eqn:Hpre; [|done|done].
  pose proof (ledger_version _ _ _ _ Hl) as Hver. destruct (ledger_core _ _ _ _ Hl) as [Hv _ Hwf _].
  pose proof (lk_count _ _ _ _ Hl) as Hk. unfold i64_max in Hk.
  destruct (reduce_total (dc_retention_depth cfg) (cr_version (dm_core d)) (rq_content r) (cr_self (dm_core d)))
    as (x & Hx & _); [by rewrite Hv|unfold u64_max; lia|done|].
  assert (apply_request (dm_core d) r = Some (advance r x (dm_core d))) as Happ
    by (apply apply_request_Some; eauto 8).
  eapply wp_on_ledger; [done|]. wp_step. eapply wp_mono; [by eapply append_spec|].
  intros [e|e|] st' n'; [|intros ->; by symmetry; apply module_eta|done].
  intros (Her & Hp & Hc & Hl'). rewrite Hp, Hc, !N.eqb_refl. wp_step; [intros _|done]. by eexists _, st', e.
Qed.

(** A request is answered from the receipts, or takes the core and the ledger one
    step further, or is refused and changes nothing. *)
Lemma transition_spec d st events r n :
  dm_ledger d = Some st → ledger_ok cfg st events (dm_core d) → exact (rq_content r) →
  wp (transition_locked r true) (λ x d' n', match x with
    | Ok receipt =>
        cr_receipts (dm_core d') !! rq_event_id r = Some receipt ∧
        (d' = d ∨ cr_receipts (dm_core d) !! rq_event_id r = None ∧ apply_request (dm_core d) r = Some (dm_core d')
         ∧ ∃ st' e, dm_ledger d' = Some st' ∧ ledger_ok cfg st' (events ++ [e]) (dm_core d') ∧ sv_request e = r)
    | Err _ => d' = d
    | Panic => False
    end) d n.
Proof.
  intros Hd Hl Hex. unfold transition_locked. wp_step. wp_step.
  destruct (cr_receipts (dm_core d) !! rq_event_id r) as [receipt|] eqn:Hr; [wp_step; auto|].
  wp_step. eapply wp_mono; [by eapply accept_spec|]. intros [[]|e|] d' n'; [|done|done].
  intros (c' & st' & e & Happ & Her & Hl' & ->). unfold finish. wp_step. wp_step. wp_step. cbn [dm_core].
  apply apply_request_Some in Happ as Happ'. destruct Happ' as (_ & _ & _ & _ & x & Hx & ->). rewrite Hx.
  apply wp_self_lift. wp_step. wp_step. wp_step. cbn [with_core dm_core dm_ledger]. split; [apply lookup_insert_eq|].
  right. split_and!; [done|done|]. by exists st', e.
Qed.

(** ** Operations keep the core and the ledger in step *)

(** In step, and with every receipt that was given before. *)
Definition follows d d' : Prop := in_step d' ∧ cr_receipts (dm_core d) ⊆ cr_receipts (dm_core d').

Definition sound {A} (m : M DaseinModule string A) : Prop :=
  ∀ d n, in_step d → wp m (λ x d' n', x ≠ Panic ∧ follows d d') d n.

Lemma follows_refl d : in_step d → follows d d.
Proof. by split. Qed.

Lemma follows_trans d1 d2 d3 : follows d1 d2 → follows d2 d3 → follows d1 d3.
Proof. intros [_ H12] [? H23]. split; [done|by etrans]. Qed.

#[local] Hint Resolve follows_refl : core.

(** A step that leaves a module in step as it is. *)
Definition looks {A} (m : M DaseinModule string A) : Prop :=
  ∀ d n, in_step d → wp m (λ x d' n', x ≠ Panic ∧ d' = d) d n.

Lemma looks_sound {A} (m : M DaseinModule string A) : looks m → sound m.
Proof. intros Hm d n Hd. eapply wp_mono; [by apply Hm|]. intros x d' n' [? ->]. auto. Qed.

Lemma sound_bind {A B} (m : M DaseinModule string A) (k : A → M DaseinModule string B) :
  sound m → (∀ a, sound (k a)) → sound (m ≫= k).
Proof.
  intros Hm Hk d n Hd. wp_step. eapply wp_mono; [by apply Hm|].
  intros [a|e|] d' n' [? Hf]; [|done|done]. eapply wp_mono; [apply Hk, Hf|].
  intros x d'' n'' [? ?]. eauto using follows_trans.
Qed.

Lemma sound_try {A} (m : M DaseinModule string A) : sound m → sound (try_ m).
Proof.
  intros Hm d n Hd. apply wp_try. eapply wp_mono; [by apply Hm|]. by intros [a|e|] d' n' [? ?].
Qed.

Lemma sound_ret {A} (a : A) : sound (mret a).
Proof. intros d n Hd. wp_step. auto. Qed.

Lemma sound_throw {A} e : sound (throw e : M DaseinModule string A).
Proof. intros d n Hd. wp_step. auto. Qed.

Lemma sound_reply {A} (x : string + A) : sound (lift (reply x)).
Proof. intros d n Hd. apply wp_reply; auto. Qed.

Lemma sound_transition r : exact (rq_content r) → sound (transition_locked r true).
Proof.
  intros Hex d n (st & events & Hd & Hl). eapply wp_mono; [by eapply transition_spec|].
  assert (in_step d) as Hin by (by eexists _, _). intros [receipt|e|] d' n'; [|intros ->; auto|done].
  intros [_ [->|(Hnone & Happ & st' & e & Hd' & Hl' & _)]]; (split; [done|]); [auto|]. split; [by eexists _, _|].
  apply apply_request_Some in Happ as (_ & _ & _ & _ & x & _ & ->). by apply insert_subseteq.
Qed.

Lemma looks_current source producer content : looks (current_request source producer content).
Proof. intros d n Hd. unfold current_request. by wp_steps. Qed.

Lemma looks_ledger {A} (a : A) (m : M Store string A) :
  (∀ st n, wp m (λ x st' n', x ≠ Panic ∧ st' = st) st n) → looks (on_ledger a m).
Proof.
  intros Hm d n (st & events & Hd & Hl). eapply wp_on_ledger; [done|]. eapply wp_mono; [apply Hm|].
  intros x st' n' [? ->]. split; [done|]. by symmetry; apply module_eta.
Qed.

Lemma verify_rows_calm n start rows : calm (verify_rows n start rows).
Proof.
  revert n start. induction rows as [|row rows IH]; intros n start; cbn; [done|].
  apply calm_bind; [|intros; apply calm_bind; [apply IH|done]]. unfold verify_row, event_checksum.
  pose proof validate_versions_calm. assert (∀ A (x : string + A), calm (reply x)) by (by intros ? []). solve_calm; eauto.
Qed.

Lemma load_verified_spec st n :
  wp load_verified (λ x st' n', n' = n + 1 ∧ st' = st ∧ match x with
    | Ok events => verify_rows 0 "" (ss_events st) = Ok events
    | Err _ => database n = None → verify_rows 0 "" (ss_events st) = x
    | Panic => False
    end) st n.
Proof.
  unfold load_verified. wp_step. unfold statement. wp_steps. destruct (database n); wp_steps; [done|].
  apply wp_self_lift. pose proof (verify_rows_calm 0 "" (ss_events st)). by destruct (verify_rows _ _ _).
Qed.

Lemma looks_verified {A} (a : A) (f : list SelfEventV1 → A) : looks (on_ledger a (events ← load_verified; mret (f events))).
Proof.
  apply looks_ledger. intros st n. wp_step. eapply wp_mono; [apply load_verified_spec|].
  intros [events|e|] st' n' (_ & -> & ?); [by wp_step|done|done].
Qed.

(** The version the ledger gives is the one the core has. *)
Lemma sound_sync : sound sync_version.
Proof.
  intros d n (st & events & Hd & Hl). unfold sync_version. wp_step. apply wp_try. eapply wp_on_ledger; [done|].
  eapply wp_mono; [apply load_verified_spec|]. intros x st' n' (_ & -> & Hx). rewrite <-module_eta by done.
  assert (in_step d) as Hin by (by eexists _, _). destruct x as [es|e|]; [|wp_step; auto|done].
  rewrite (lk_verified _ _ _ _ Hl) in Hx. injection Hx as <-.
  destruct (rev_case events) as [->|(es & e & ->)]; [apply wp_ret; auto|].
  rewrite last_snoc. wp_step. split; [done|].
  destruct (verify_event _ _ _ _ _ _ (lk_verified _ _ _ _ Hl)) as (_ & _ & Hv).
  pose proof (ledger_version _ _ _ _ Hl) as Hver. pose proof (lk_count _ _ _ _ Hl) as Hk. unfold i64_max in Hk.
  rewrite count_snoc in *. rewrite N.add_0_l, version_succ in Hv by (unfold u64_max; lia).
  replace (with_core (with_version (sv_current_version e)) d) with d; [auto|].
  rewrite Hv, <-Hver. destruct d as [[] ?]. done.
Qed.

(** The request carries the content it was made for. *)
Definition asks content (m : M DaseinModule string SelfTransitionRequest) : Prop :=
  ∀ d n, in_step d → wp m (λ x d' n', d' = d ∧ match x with Ok r => rq_content r = content | Err _ => True | Panic => False end) d n.

Lemma asks_current source producer content : asks content (current_request source producer content).
Proof. intros d n Hd. unfold current_request. by wp_steps. Qed.

Lemma sound_asks {A} content m (k : SelfTransitionRequest → M DaseinModule string A) :
  asks content m → (∀ r, rq_content r = content → sound (k r)) → sound (m ≫= k).
Proof.
  intros Hm Hk d n Hd. wp_step. eapply wp_mono; [by apply Hm|]. intros [r|e|] d' n' [-> Hr]; [|auto|done].
  by apply Hk.
Qed.

Lemma sound_transition_current source producer content :
  exact content → sound (transition_current source producer content).
Proof.
  intros Hex. apply (sound_asks content); [apply asks_current|]. intros r Hr.
  apply sound_bind; [apply sound_try, sound_transition; by rewrite Hr|]. intros [msg|receipt]; [|apply sound_ret].
  destruct (str_contains _ _); [|apply sound_throw]. apply sound_bind; [apply sound_sync|]. intros _.
  apply (sound_asks ScheduledReflection); [apply asks_current|]. intros retry Hretry. apply sound_transition. by rewrite Hretry.
Qed.

(** A checkpoint of verified events is one that a later replay accepts. *)
Lemma sound_checkpoint : sound checkpoint.
Proof.
  intros d n (st & events & Hd & Hl). assert (in_step d) as Hin by (by eexists _, _).
  unfold checkpoint. wp_step. eapply wp_on_ledger; [done|]. wp_step. eapply wp_mono; [apply load_verified_spec|].
  intros x st' n' (_ & -> & Hx). assert (follows d d) as Hf by auto. destruct x as [es|e|]; [|by rewrite <-module_eta|done]. wp_step.
  rewrite <-module_eta by done. rewrite (lk_verified _ _ _ _ Hl) in Hx. injection Hx as <-.
  wp_step. wp_step. eapply wp_on_ledger; [done|]. unfold save_checkpoint.
  destruct (rev_case events) as [->|(es & e & Hes)]; [apply wp_ret; by rewrite <-module_eta|].
  rewrite Hes at 1. rewrite last_snoc. wp_step. apply wp_reply; [|by rewrite <-module_eta]. intros json Hj.
  unfold sql_u64. do 2 (wp_step; wp_step; [intros _|by rewrite <-module_eta]).
  wp_step. apply wp_statement; [intros _|by rewrite <-module_eta]. wp_step. split; [done|]. split; [|done]. eexists _, events.
  split; [done|]. destruct Hl as [Hv Hids Hk Hcore Hexs Hsn]. split; try done.
  cbn [with_snapshots ss_snapshots]. unfold put_snapshot. rewrite insert_by_perm. constructor.
  - exists events. cbn. split_and!; try done. subst events.
    destruct (verify_event _ _ _ _ _ _ Hv) as (-> & _ & _). by rewrite count_snoc, N.add_0_l.
  - apply Forall_forall. intros row Hrow%list_elem_of_filter. destruct Hrow as [_ Hrow].
    by eapply Forall_forall in Hsn.
Qed.

(** ** Replay *)

Definition fresh st : DaseinModule := {| dm_core := core_new cfg; dm_ledger := Some st |}.

Lemma starts_with_prefix events prefix :
  Forall (λ e, request_validate (sv_request e) = Ok tt) events → prefix `prefix_of` events →
  events_start_with events prefix = true.
Proof.
  intros He [rest ->]. induction prefix as [|e prefix IH]; [by destruct rest|].
  change ((e :: prefix) ++ rest) with (e :: prefix ++ rest) in *. apply Forall_cons in He as [He Hr]. cbn.
  rewrite event_eqb_refl by done. by apply IH.
Qed.

(** The plan is the ledger; only the database can refuse it. *)
Lemma replay_plan_spec st events c n :
  ledger_ok cfg st events c →
  wp load_replay_plan (λ x st' n', st' = st ∧ match x with
    | Ok es => es = events ∧ n' = n + 1 + 1
    | Err _ => database n ≠ None ∨ database (n + 1) ≠ None
    | Panic => False
    end) st n.
Proof.
  intros [Hv _ _ _ Hexs Hsn]. unfold load_replay_plan. wp_step. eapply wp_mono; [apply load_verified_spec|].
  intros x st' n' (-> & -> & Hx). destruct x as [es|e|]; [|split; [done|]; left; intros Hn|done].
  2: { apply Hx in Hn. by rewrite Hv in Hn. }
  rewrite Hv in Hx. injection Hx as <-. wp_step. unfold statement. wp_steps.
  destruct (database (n + 1)) eqn:Hd; wp_steps; [by split; [|right]|].
  destruct (last (ss_snapshots st)) as [row|] eqn:Hl; [|by wp_steps].
  apply last_Some in Hl as [rest Hl]. rewrite Hl in Hsn. apply Forall_app in Hsn as [_ Hrow].
  apply Forall_singleton in Hrow as (prefix & Hp & Hj & Hc & Hs). pose proof (verify_requests _ _ _ _ Hv) as Hreq.
  apply wp_self_lift. unfold check_snapshot. rewrite bool_decide_true by done. cbn [need mbind Result_bind].
  rewrite (events_read_back prefix); [|destruct Hp as [? ->]; apply Forall_app in Hreq as [? _], Hexs as [? _];
    by apply Forall_and|done].
  cbn [reply mbind Result_bind]. rewrite Hs, N.eqb_refl, starts_with_prefix by done. by wp_steps.
Qed.

(** Without the ledger, a request that applies is applied. *)
Lemma replay_event_ok st c e c' n :
  apply_request c (sv_request e) = Some c' → sv_previous_version e = cr_version c →
  sv_current_version e = wrapping_add (cr_version c) 1 →
  replay_event e {| dm_core := c; dm_ledger := Some st |} n = (Ok tt, {| dm_core := c'; dm_ledger := Some st |}, n).
Proof.
  intros Happ Hp Hc. apply apply_request_Some in Happ as (Hnone & Hval & Hpre & Hexp & x & Hx & ->).
  unfold replay_event, transition_locked, accept, finish, get_state, lift, modify, mret, M_ret, mbind, M_bind, ensure.
  cbn -[wrapping_add advance receipt_of reduce preflight request_validate]. rewrite Hnone.
  cbn -[wrapping_add advance receipt_of reduce preflight request_validate]. rewrite Hval.
  cbn -[wrapping_add advance receipt_of reduce preflight request_validate]. rewrite Hexp, N.eqb_refl.
  cbn -[wrapping_add advance receipt_of reduce preflight request_validate]. rewrite Hpre.
  cbn -[wrapping_add advance receipt_of reduce preflight request_validate]. rewrite Hx.
  cbn -[wrapping_add advance]. rewrite Hp, Hc, !N.eqb_refl. done.
Qed.

Lemma replay_events_ok st events c n :
  ledger_ok cfg st events c →
  for_each events replay_event (fresh st) n = (Ok tt, {| dm_core := c; dm_ledger := Some st |}, n).
Proof.
  intros Hl. destruct Hl as [Hv _ Hk Hcore _ _].
  assert (∀ es rest c1, events = es ++ rest → rebuild cfg (sv_request <$> es) = Some c1 →
    for_each rest replay_event {| dm_core := c1; dm_ledger := Some st |} n
    = (Ok tt, {| dm_core := c; dm_ledger := Some st |}, n)) as Hgen.
  { intros es rest. revert es. induction rest as [|e rest IH]; intros es c1 Heq Hc1.
    { rewrite app_nil_r in Heq. subst es. rewrite Hcore in Hc1. by injection Hc1 as <-. }
    rewrite Heq in Hv, Hk. pose proof (verify_event _ _ _ _ _ _ Hv) as (_ & Hp & Hn). rewrite N.add_0_l in Hp, Hn.
    assert (cr_version c1 = count es) as Hver.
    { destruct (rebuild_ok cfg _ _ Hc1) as [-> _ _ _]; unfold count, i64_max in *; rewrite length_fmap; [|done].
      rewrite length_app in Hk. lia. }
    assert (∃ c2, apply_request c1 (sv_request e) = Some c2) as [c2 Happ].
    { rewrite Heq, (cons_middle e es rest), app_assoc, fmap_app in Hcore. unfold rebuild in Hcore.
      rewrite foldl_app, fmap_app, foldl_app in Hcore. fold (rebuild cfg (sv_request <$> es)) in Hcore.
      rewrite Hc1 in Hcore. cbn [fmap list_fmap foldl mbind option_bind] in Hcore.
      destruct (apply_request c1 (sv_request e)) as [c2|]; [by exists c2|]. exfalso.
      revert Hcore. generalize (sv_request <$> rest). intros l. by induction l. }
    cbn [for_each]. unfold mbind at 1, M_bind. rewrite (replay_event_ok st c1 e c2 n Happ); [|congruence..].
    apply (IH (es ++ [e])); [by rewrite <-app_assoc|]. rewrite fmap_app. cbn [fmap list_fmap].
    by rewrite rebuild_snoc, Hc1. }
  by apply (Hgen [] events (core_new cfg)).
Qed.

Lemma replay_spec st events c n :
  ledger_ok cfg st events c →
  wp replay (λ x d' n', match x with
    | Ok k => k = count events ∧ d' = {| dm_core := c; dm_ledger := Some st |} ∧ n' = n + 1 + 1
    | Err _ => d' = fresh st ∧ (database n ≠ None ∨ database (n + 1) ≠ None)
    | Panic => False
    end) (fresh st) n.
Proof.
  intros Hl. unfold replay. wp_step. eapply wp_on_ledger; [done|]. wp_step.
  eapply wp_mono; [by eapply replay_plan_spec|]. intros [es|e|] st' n' [-> Hx]; [|done|done].
  destruct Hx as [-> ->]. wp_step. wp_step. wp_step. wp_step.
  change (with_core pristine _) with (fresh st). unfold wp at 1. rewrite (replay_events_ok st events c) by done.
  by wp_step.
Qed.

(** ** Restart *)

Lemma sound_resumption : sound record_resumption_after_replay.
Proof.
  apply sound_bind; [apply looks_sound, looks_verified|]. intros [t|]; [|apply sound_ret].
  apply sound_bind; [intros d n Hd; wp_step; auto|]. intros now.
  apply sound_bind; [by apply sound_transition_current|]. intros. apply sound_ret.
Qed.

Lemma sound_migrate : sound migrate_legacy_mood.
Proof.
  apply sound_bind.
  - apply looks_sound, looks_ledger. intros st n. wp_step. apply wp_statement; [intros _; by wp_steps|done].
  - intros [json|]; [|apply sound_ret]. apply sound_bind; [apply sound_reply|]. intros mood.
    apply sound_bind; [by apply sound_transition_current|]. intros _. apply sound_ret.
Qed.

(** A module that starts on a ledger ends in step with it, or has not read it. *)
Lemma load_spec st events c n :
  ledger_ok cfg st events c →
  wp load_dasein_state (λ x d' n', x ≠ Panic ∧ (in_step d' ∧ cr_receipts c ⊆ cr_receipts (dm_core d') ∨ x ≠ Ok tt ∧ d' = fresh st)) (fresh st) n.
Proof.
  intros Hl. unfold load_dasein_state. wp_step. eapply wp_mono; [by eapply replay_spec|].
  intros [k|e|] d' n'; [|intros [-> _]; by split; [|right]|done]. intros (-> & -> & _).
  assert (in_step {| dm_core := c; dm_ledger := Some st |}) as Hin by (by eexists _, _).
  case_match; eapply wp_mono.
  - by apply sound_migrate.
  - intros x d' n'' [? []]. auto.
  - apply (sound_bind record_resumption_after_replay (λ _, mret tt)); [apply sound_resumption| |done].
    intros. apply sound_ret.
  - intros x d' n'' [? []]. auto.
Qed.

Lemma sound_ignore {A} (m : M DaseinModule string A) : sound m → sound (ignore m).
Proof. intros Hm d n Hd. wp_step. eapply wp_mono; [by apply Hm|]. by intros [a|e|] d' n' [? ?]. Qed.

Lemma sound_turn evs scheduled : Forall (λ event, exact (compat_content event)) evs → sound (sorge_turn evs scheduled).
Proof.
  intros Hex. apply sound_bind.
  - induction Hex as [|event evs He _ IH]; [apply sound_ret|]. apply sound_bind; [|by intros _].
    by apply sound_ignore, sound_transition_current.
  - intros _. destruct scheduled; [by apply sound_ignore, sound_transition_current|apply sound_ret].
Qed.

(** ** Runs *)

Inductive Operation_ :=
| OpTransition (request : SelfTransitionRequest)
| OpEvent (event : DaseinEvent) (producer : string)
| OpCurrent (source : ExperienceSource) (producer : string) (content : InterpretedExperience)
| OpOutcome (summary : string) (status : OutcomeStatus) (producer : string)
| OpResumed
| OpSorgeTurn (events : list DaseinEvent) (scheduled_reflection : bool)
| OpSave.

Definition run (o : Operation_) : M DaseinModule string unit :=
  match o with
  | OpTransition request => transition request ;; mret tt
  | OpEvent event producer => apply_compat_event event producer ;; mret tt
  | OpCurrent source producer content => transition_current source producer content ;; mret tt
  | OpOutcome summary status producer => record_outcome summary status producer ;; mret tt
  | OpResumed => record_resumption_after_replay ;; mret tt
  | OpSorgeTurn events scheduled_reflection => sorge_turn events scheduled_reflection
  | OpSave => save_dasein_state
  end.

(** The numbers an operation brings are read back as they are. *)
Definition exact_operation (o : Operation_) : Prop :=
  match o with
  | OpTransition request => exact (rq_content request)
  | OpEvent event _ => exact (compat_content event)
  | OpCurrent _ _ content => exact content
  | OpSorgeTurn events _ => Forall (λ event, exact (compat_content event)) events
  | OpOutcome _ _ _ | OpResumed | OpSave => True
  end.

Inductive Status := Up (d : DaseinModule) | Down (st : Store).

(** A call with any outcome; a crash, also after the ledger was written and
    before the reduction; a start, which may fail. *)
Inductive step : Status → Status → Prop :=
| step_call o d n x d' n' : exact_operation o → run o d n = (x, d', n') → step (Up d) (Up d')
| step_crash d st : dm_ledger d = Some st → step (Up d) (Down st)
| step_crash_midway d r n d' n' st :
    exact (rq_content r) → cr_receipts (dm_core d) !! rq_event_id r = None → accept r true d n = (Ok tt, d', n') →
    dm_ledger d' = Some st → step (Up d) (Down st)
| step_start st n d n' : load_dasein_state (fresh st) n = (Ok tt, d, n') → step (Down st) (Up d)
| step_start_failed st n e d n' st' :
    load_dasein_state (fresh st) n = (Err e, d, n') → dm_ledger d = Some st' → step (Down st) (Down st').

Definition empty (legacy_mood : option string) : Status :=
  Down {| ss_events := []; ss_snapshots := []; ss_legacy_mood := legacy_mood |}.

Lemma sound_run o : exact_operation o → sound (run o).
Proof.
  intros Hex.
  assert (∀ A (m : M DaseinModule string A), sound m → sound (m ;; mret tt)) as Hs.
  { intros A m Hm. apply sound_bind; [done|]. intros. apply sound_ret. }
  destruct o; cbn [run exact_operation] in *; try apply Hs.
  - by apply sound_transition.
  - by apply sound_transition_current.
  - by apply sound_transition_current.
  - by apply sound_transition_current.
  - apply sound_resumption.
  - by apply sound_turn.
  - apply sound_checkpoint.
Qed.

Definition status_ok (s : Status) : Prop :=
  match s with Up d => in_step d | Down st => ∃ events c, ledger_ok cfg st events c end.

(** The receipts a status stands for: a restart brings them back. *)
Definition receipts_of (s : Status) : gmap Uuid SelfTransitionReceipt :=
  match s with
  | Up d => cr_receipts (dm_core d)
  | Down st =>
      match verify_rows 0 "" (ss_events st) with
      | Ok events => default ∅ (cr_receipts <$> rebuild cfg (sv_request <$> events))
      | _ => ∅
      end
  end.

Lemma receipts_down st events c : ledger_ok cfg st events c → receipts_of (Down st) = cr_receipts c.
Proof. intros [Hv _ _ Hc _ _]. cbn. by rewrite Hv, Hc. Qed.

Lemma step_ok s s' : status_ok s → step s s' → status_ok s' ∧ receipts_of s ⊆ receipts_of s'.
Proof.
  intros Hs Hstep. destruct Hstep as [o d n x d' n' Hex Hrun|d st Hst|d r n d' n' st Hex Hr Hacc Hst|st n d n' Hload
    |st n e d n' st' Hload Hst]; cbn [status_ok] in *.
  - pose proof (sound_run o Hex d n Hs) as Hw. unfold wp in Hw. rewrite Hrun in Hw. by destruct Hw as [_ []].
  - destruct Hs as (st' & events & Hd & Hl). rewrite Hst in Hd. injection Hd as <-.
    split; [eauto|]. by rewrite (receipts_down _ _ _ Hl).
  - destruct Hs as (st0 & events & Hd & Hl). pose proof (accept_spec d st0 events r n Hd Hl Hex Hr) as Hw.
    unfold wp in Hw. rewrite Hacc in Hw. destruct Hw as (c' & st' & e & Happ & _ & Hl' & ->). injection Hst as <-.
    split; [eauto|]. rewrite (receipts_down _ _ _ Hl').
    apply apply_request_Some in Happ as (_ & _ & _ & _ & x & _ & ->). by apply insert_subseteq.
  - destruct Hs as (events & c & Hl). pose proof (load_spec st events c n Hl) as Hw. unfold wp in Hw.
    rewrite Hload in Hw. rewrite (receipts_down _ _ _ Hl). by destruct Hw as [_ [[]|[? _]]].
  - destruct Hs as (events & c & Hl). pose proof (load_spec st events c n Hl) as Hw. unfold wp in Hw.
    rewrite Hload in Hw. destruct Hw as [_ [[(st1 & es & Hd & Hl') Hsub]|[_ ->]]].
    + rewrite Hst in Hd. injection Hd as <-. split; [eauto|].
      by rewrite (receipts_down _ _ _ Hl), (receipts_down _ _ _ Hl').
    + injection Hst as <-. split; [eauto|done].
Qed.

Lemma steps_ok s s' : status_ok s → rtc step s s' → status_ok s' ∧ receipts_of s ⊆ receipts_of s'.
Proof.
  intros Hs Hrun. revert Hs. induction Hrun as [s|s1 s2 s3 H12 _ IH]; intros Hs; [done|].
  destruct (step_ok _ _ Hs H12) as [H2 Hr]. destruct (IH H2) as [H3 Hr']. split; [done|by etrans].
Qed.

Lemma run_ok mood s : rtc step (empty mood) s → status_ok s.
Proof. intros Hrun. apply (steps_ok (empty mood)); [|done]. exists [], (core_new cfg). by split. Qed.

End Run.

(** ** The self: history, restart, receipts and bounds

    What holds along every run of the module, crashes and restarts included, and
    that the last checksum of a ledger determines all of it. *)

Section History.
Context `{HE : Env} `{HU : NameUuid} `{HC : SelfCodec}.

(** C22. The self is its history: along every run of operations, database errors,
    crashes (also between the ledger and the reduction) and restarts, in which the
    numbers of the experiences are ones that the parser reads back exactly
    ([exact_operation]; urgencies and confidences are the only ones) and the ledger is
    replayed when a process starts and not again in a running one, the ledger
    verifies and the whole state of a running module is exactly what its requests
    give, reduced one after the other from a fresh module; no operation panics. *)
Theorem self_is_its_history {HL : SelfLaws} cfg mood s :
  rtc (step cfg) (empty mood) s →
  match s with
  | Up d =>
      (∃ st events, dm_ledger d = Some st ∧ verify_rows 0 "" (ss_events st) = Ok events
         ∧ rebuild cfg (sv_request <$> events) = Some (dm_core d))
      ∧ ∀ o n, exact_operation o → (run o d n).1.1 ≠ Panic
  | Down st => ∃ events c, verify_rows 0 "" (ss_events st) = Ok events ∧ rebuild cfg (sv_request <$> events) = Some c
  end.
Proof.
  intros Hrun%run_ok. destruct s as [d|st].
  - split.
    + destruct Hrun as (st & events & Hd & []). eauto.
    + intros o n Hex. pose proof (sound_run cfg o Hex d n Hrun) as Hw. unfold wp in Hw.
      destruct (run o d n) as [[x d'] n']. apply Hw.
  - destruct Hrun as (events & c & []). eauto.
Qed.

(** A restart restores the self: at every point of a run, replaying the ledger
    in a fresh module gives back exactly the running one, if the two statements
    of the replay succeed. *)
Theorem restart_restores_self {HL : SelfLaws} cfg mood d n :
  rtc (step cfg) (empty mood) (Up d) → database n = None → database (n + 1) = None →
  ∃ st, dm_ledger d = Some st ∧ replay (fresh cfg st) n = (Ok (cr_version (dm_core d)), d, n + 1 + 1).
Proof.
  intros (st & events & Hd & Hl)%run_ok Hn Hn'. exists st. split; [done|].
  pose proof (replay_spec cfg st events (dm_core d) n Hl) as Hw. unfold wp in Hw.
  destruct (replay (fresh cfg st) n) as [[[k|e|] d'] n']; [|by destruct Hw as [_ [|]]|done].
  destruct Hw as (-> & -> & ->). rewrite (ledger_version _ _ _ _ Hl), <-module_eta by done. done.
Qed.

(** C18. An event is lived once: along the same runs, with numbers that are read back
    exactly and replays at the start of a process only, crashes and restarts included,
    a request with the identifier of an accepted one gets the receipt of the first and
    changes nothing.  A replay in a running module does not have this
    ([replay_lives_again]), nor does a number that is read back differently
    ([inexact_number_stops_the_self]). *)
Theorem event_lived_once {HL : SelfLaws} cfg mood d n r receipt d1 n1 d2 r' n2 :
  rtc (step cfg) (empty mood) (Up d) → exact (rq_content r) → transition r d n = (Ok receipt, d1, n1) →
  rtc (step cfg) (Up d1) (Up d2) → rq_event_id r' = rq_event_id r →
  transition r' d2 n2 = (Ok receipt, d2, n2).
Proof.
  intros (st & events & Hd & Hl)%run_ok Hex Ht Hrun Hid.
  pose proof (transition_spec cfg d st events r n Hd Hl Hex) as Hw. unfold wp in Hw. unfold transition in Ht.
  rewrite Ht in Hw. destruct Hw as [Hrec Hd1].
  assert (in_step cfg d1) as Hin.
  { destruct Hd1 as [->|(_ & _ & st' & e & ? & ? & _)]; by eexists _, _. }
  destruct (steps_ok cfg (Up d1) (Up d2) Hin Hrun) as [_ Hsub]. unfold transition, transition_locked.
  unfold mbind, M_bind, get_state. rewrite Hid. rewrite (lookup_weaken (cr_receipts (dm_core d1)) (cr_receipts (dm_core d2)) _ _ Hrec Hsub). done.
Qed.

(** The self stays bounded along every run: the narrative keeps at most a
    thousand references, retention its depth, negations and their history a
    hundred entries each, contents are asserted once, and the interval between
    reflections stays between five seconds and five minutes. *)
Lemma self_stays_bounded {HL : SelfLaws} cfg mood d :
  rtc (step cfg) (empty mood) (Up d) →
  let s := cr_self (dm_core d) in
  (length (cr_narrative (dm_core d)) ≤ 1000)%nat
  ∧ (length (rf_moments (ts_retention (sf_temporality s))) ≤ dc_retention_depth cfg)%nat
  ∧ (length (SelfModel.sm_negated (sf_self_model s)) ≤ 100)%nat
  ∧ (length (SelfModel.sm_negation_history (sf_self_model s)) ≤ 100)%nat
  ∧ NoDup (SelfModel.sa_content <$> SelfModel.sm_current (sf_self_model s))
  ∧ 5 * NANOS_PER_SEC ≤ Care.cr_current_interval (Care.ca_rhythm (sf_care s)) ≤ 300 * NANOS_PER_SEC.
Proof.
  intros (st & events & Hd & Hl)%run_ok. destruct (ledger_core _ _ _ _ Hl) as [_ _ [Hr _ [] _ Hm _ _ _] Hn].
  split_and!; try done; apply Hr.
Qed.

(** What the care structure decides at a reflection, and what it cannot: nothing
    outside the tests absorbs it or chooses a projection. *)
Lemma care_deliberates_or_waits {HL : SelfLaws} cfg mood d :
  rtc (step cfg) (empty mood) (Up d) →
  let c := sf_care (cr_self (dm_core d)) in
  Care.determine_action c = match Care.pressing c with
                            | x :: _ => Care.Deliberate (Care.co_purpose x)
                            | [] => Care.Wait "no urgent concerns, monitoring"
                            end.
Proof.
  intros (st & events & Hd & Hl)%run_ok. destruct (ledger_core _ _ _ _ Hl) as [_ _ [_ _ _ _ _ _ Hf Hc] _]. cbn.
  unfold Care.determine_action. rewrite Hf, Hc. by destruct (SFltb _ _), (Care.pressing _).
Qed.

(** The temporal stream never contributes a mood: its anxiety needs a disruption,
    which the synthesis does not find. *)
Lemma temporal_mood_silent {HL : SelfLaws} cfg mood d :
  rtc (step cfg) (empty mood) (Up d) → temporal_mood (sf_temporality (cr_self (dm_core d))) = None.
Proof.
  intros (st & events & Hd & Hl)%run_ok. destruct (ledger_core _ _ _ _ Hl) as [_ _ [_ _ _ _ _ Hcalm _ _] _].
  unfold temporal_mood. case_match; [|done]. destruct (pf_possibilities _) as [|a l]; [done|].
  rewrite decide_False; [done|]. apply (Hcalm a). constructor.
Qed.

(** ** The chain of checksums *)

(** No two events have one checksum. *)
Definition collision_free : Prop :=
  ∀ m m' j j', material_json m = inr j → material_json m' = inr j' → bytes_checksum j = bytes_checksum j' → m = m'.

Lemma verify_last n start rows events e :
  verify_rows n start rows = Ok (events ++ [e]) →
  ∃ rows' row, rows = rows' ++ [row] ∧ verify_rows n start rows' = Ok events
    ∧ verify_row (n + count rows') (tail_checksum start events) row = Ok e.
Proof.
  intros Hv. destruct (rev_case rows) as [->|(rows' & row & ->)]; [cbn in Hv; by destruct events|].
  exists rows', row. split; [done|]. destruct (verify_rows_app _ _ _ _ _ Hv) as (es1 & es2 & Heq & H1 & H2).
  cbn [verify_rows] in H2. apply bind_ok in H2 as (e' & H2 & [= <-]). by apply app_inj_tail in Heq as [-> ->].
Qed.

(** The history cannot be rewritten: two ledgers that verify and end in the
    same checksum hold the same events, from the first to the last, as long as the
    digest has no collision. *)
Theorem history_pinned rows1 rows2 es1 es2 :
  collision_free → verify_rows 0 "" rows1 = Ok es1 → verify_rows 0 "" rows2 = Ok es2 →
  es1 ≠ [] → es2 ≠ [] → tail_checksum "" es1 = tail_checksum "" es2 → es1 = es2.
Proof.
  intros Hcf. revert rows1 rows2 es2. induction es1 as [|e1 es1 IH] using rev_ind; intros rows1 rows2 es2 Hv1 Hv2; [done|].
  intros _. destruct (rev_case es2) as [->|(es2' & e2 & ->)]; [done|]. intros _.
  unfold tail_checksum at 1 2. rewrite !last_snoc. cbn [fmap option_fmap option_map default id]. intros Hcs.
  apply verify_last in Hv1 as (rows1' & row1 & -> & H1 & Hr1). apply verify_last in Hv2 as (rows2' & row2 & -> & H2 & Hr2).
  apply verify_rows_length in H1 as Hlen1. apply verify_rows_length in H2 as Hlen2.
  apply verify_row_ok in Hr1 as (r1 & _ & -> & _ & Hs1 & Hp1 & Hn1 & Hpc1 & Hc1).
  apply verify_row_ok in Hr2 as (r2 & _ & -> & _ & Hs2 & Hp2 & Hn2 & Hpc2 & Hc2). cbn in Hcs.
  unfold event_checksum in Hc1, Hc2. destruct (material_json _) as [|j1] eqn:Hj1 in Hc1; [done|].
  destruct (material_json _) as [|j2] eqn:Hj2 in Hc2; [done|]. injection Hc1 as Hc1. injection Hc2 as Hc2.
  pose proof (Hcf _ _ _ _ Hj1 Hj2 ltac:(congruence)) as Hm. injection Hm as Hseq Hreq Hpv Hcv Htail.
  assert (es1 = es2') as <-.
  { assert (length es1 = length es2') as Hlen by (unfold count in *; lia).
    destruct (decide (es1 = [])) as [->|Hne1]; [by destruct es2'|].
    eapply IH; try done. by intros ->; destruct es1. }
  f_equal. unfold event_of_row. congruence.
Qed.

End History.

(** ** The self: a concrete run, and where the code falls short

    A serialization of requests and events that satisfies the laws, a run with a
    crash and a restart, and runs that lose, double or misread an experience. *)

(** ** A serialization *)

#[local] Instance spec_float_countable : Countable spec_float.
Proof.
  refine (inj_countable'
    (λ x, match x with
          | S754_zero s => (0, s, 1%positive, 0%Z) | S754_infinity s => (1, s, 1%positive, 0%Z)
          | S754_nan => (2, false, 1%positive, 0%Z) | S754_finite s m e => (3, s, m, e)
          end)
    (λ '(t, s, m, e), match t with
                      | 0 => S754_zero s | 1 => S754_infinity s | 2 => S754_nan | _ => S754_finite s m e
                      end) _).
  by intros [].
Defined.

#[local] Instance AngstSource_countable : Countable AngstSource.
Proof.
  refine (inj_countable' (λ s, match s with Freedom => 0 | Finitude => 1 | Nothingness => 2 | Responsibility => 3 end)
    (λ n, match n with 0 => Freedom | 1 => Finitude | 2 => Nothingness | _ => Responsibility end) _).
  by intros [].
Defined.

#[local] Instance BoredomDepth_countable : Countable BoredomDepth.
Proof.
  refine (inj_countable' (λ s, match s with Surface => 0 | Middle => 1 | Deep => 2 end)
    (λ n, match n with 0 => Surface | 1 => Middle | _ => Deep end) _).
  by intros [].
Defined.

#[local] Instance Stimmung_countable : Countable Stimmung.
Proof.
  refine (inj_countable
    (λ m, match m with
          | Gelassenheit => [encode 0] | Neugier s => [encode 1; encode s] | Verfallenheit s => [encode 2; encode s]
          | Angst f => [encode 3; encode f] | Entschlossenheit s => [encode 4; encode s]
          | Langeweile d => [encode 5; encode d] | Gelaunt s => [encode 6; encode s] | Geknickt s => [encode 7; encode s]
          end)
    (λ l, match l with
          | [t; x] =>
              t ← decode t;
              match t with
              | 1 => Neugier <$> decode x | 2 => Verfallenheit <$> decode x | 3 => Angst <$> decode x
              | 4 => Entschlossenheit <$> decode x | 5 => Langeweile <$> decode x | 6 => Gelaunt <$> decode x
              | _ => Geknickt <$> decode x
              end
          | _ => Some Gelassenheit
          end) _).
  intros []; cbn; rewrite ?decode_encode; cbn; rewrite ?decode_encode; reflexivity.
Defined.

#[local] Instance ReadinessState_countable : Countable ReadinessState.
Proof.
  refine (inj_countable' (λ s, match s with ReadyToHand => 0 | PresentAtHand => 1 | Unavailable => 2 | OutOfContext => 3 end)
    (λ n, match n with 0 => ReadyToHand | 1 => PresentAtHand | 2 => Unavailable | _ => OutOfContext end) _).
  by intros [].
Defined.

#[local] Instance TemporalEventKind_countable : Countable TemporalEventKind.
Proof.
  refine (inj_countable'
    (λ s, match s with RetentionFaded => 0 | ProtentionRealized => 1 | ProtentionSurprised => 2 | PatternDetected => 3 end)
    (λ n, match n with 0 => RetentionFaded | 1 => ProtentionRealized | 2 => ProtentionSurprised | _ => PatternDetected end) _).
  by intros [].
Defined.

#[local] Instance ExperienceSource_countable : Countable ExperienceSource.
Proof.
  refine (inj_countable'
    (λ s, match s with
          | User => 0 | Runtime => 1 | Tool => 2 | Memory => 3 | Metacog => 4 | Agora => 5 | Dasein => 6
          end)
    (λ n, match n with
          | 0 => User | 1 => Runtime | 2 => Tool | 3 => Memory | 4 => Metacog | 5 => Agora | _ => Dasein
          end) _).
  by intros [].
Defined.

#[local] Instance OutcomeStatus_countable : Countable OutcomeStatus.
Proof.
  refine (inj_countable' (λ s, match s with Succeeded => 0 | Failed => 1 | Cancelled => 2 end)
    (λ n, match n with 0 => Succeeded | 1 => Failed | _ => Cancelled end) _).
  by intros [].
Defined.

(** Records as the list of the codes of their fields. *)
Ltac solve_fields := intros []; cbn; rewrite !decode_encode; reflexivity.

#[local] Instance experience_eq_dec : EqDecision InterpretedExperience.
Proof. solve_decision. Defined.

Definition experience_fields (e : InterpretedExperience) : list positive :=
  match e with
  | Lived s a p => [encode 0; encode s; encode a; encode p]
  | Outcome s st => [encode 1; encode s; encode st]
  | ConcernObserved i p u => [encode 2; encode i; encode p; encode u]
  | KnowledgeAsserted l c => [encode 3; encode l; encode c]
  | NegationCompleted t l => [encode 4; encode t; encode l]
  | MoodObserved m r => [encode 5; encode m; encode r]
  | WorldEntityObserved i w l r => [encode 6; encode i; encode w; encode l; encode r]
  | ReadinessChanged i x y => [encode 7; encode i; encode x; encode y]
  | TemporalSignal k c => [encode 8; encode k; encode c]
  | ResumedAfterInterval n => [encode 9; encode n]
  | ScheduledReflection => [encode 10]
  end.

Definition fields_experience (l : list positive) : option InterpretedExperience :=
  match l with
  | t :: l =>
      t ← decode t;
      match t, l with
      | 0, [s; a; p] => s ← decode s; a ← decode a; p ← decode p; Some (Lived s a p)
      | 1, [s; st] => s ← decode s; st ← decode st; Some (Outcome s st)
      | 2, [i; p; u] => i ← decode i; p ← decode p; u ← decode u; Some (ConcernObserved i p u)
      | 3, [l; c] => l ← decode l; c ← decode c; Some (KnowledgeAsserted l c)
      | 4, [t; l] => t ← decode t; l ← decode l; Some (NegationCompleted t l)
      | 5, [m; r] => m ← decode m; r ← decode r; Some (MoodObserved m r)
      | 6, [i; w; l; r] =>
          i ← decode i; w ← decode w; l ← decode l; r ← decode r; Some (WorldEntityObserved i w l r)
      | 7, [i; x; y] => i ← decode i; x ← decode x; y ← decode y; Some (ReadinessChanged i x y)
      | 8, [k; c] => k ← decode k; c ← decode c; Some (TemporalSignal k c)
      | 9, [n] => n ← decode n; Some (ResumedAfterInterval n)
      | _, _ => Some ScheduledReflection
      end
  | [] => None
  end.

#[local] Instance experience_countable : Countable InterpretedExperience.
Proof. refine (inj_countable experience_fields fields_experience _). solve_fields. Defined.

#[local] Instance provenance_countable : Countable ExperienceProvenance.
Proof.
  refine (inj_countable
    (λ p, [encode (ep_producer p); encode (ep_session_id p); encode (ep_turn_id p); encode (ep_source_ref p)])
    (λ l, match l with
          | [a; b; c; d] =>
              a ← decode a; b ← decode b; c ← decode c; d ← decode d;
              Some {| ep_producer := a; ep_session_id := b; ep_turn_id := c; ep_source_ref := d |}
          | _ => None
          end) _).
  solve_fields.
Defined.

#[local] Instance request_eq_dec : EqDecision SelfTransitionRequest.
Proof. solve_decision. Defined.

#[local] Instance request_countable : Countable SelfTransitionRequest.
Proof.
  refine (inj_countable
    (λ r, [encode (rq_event_id r); encode (rq_source r); encode (rq_observed_at r); encode (rq_content r);
           encode (rq_provenance r); encode (rq_expected_version r)])
    (λ l, match l with
          | [a; b; c; d; e; f] =>
              a ← decode a; b ← decode b; c ← decode c; d ← decode d; e ← decode e; f ← decode f;
              Some {| rq_event_id := a; rq_source := b; rq_observed_at := c; rq_content := d;
                      rq_provenance := e; rq_expected_version := f |}
          | _ => None
          end) _).
  solve_fields.
Defined.

#[local] Instance event_eq_dec : EqDecision SelfEventV1.
Proof. solve_decision. Defined.

#[local] Instance event_countable : Countable SelfEventV1.
Proof.
  refine (inj_countable
    (λ e, [encode (sv_schema_version e); encode (sv_reducer_version e); encode (sv_sequence e);
           encode (sv_request e); encode (sv_previous_version e); encode (sv_current_version e);
           encode (sv_previous_checksum e); encode (sv_checksum e)])
    (λ l, match l with
          | [a; b; c; d; e; f; g; h] =>
              a ← decode a; b ← decode b; c ← decode c; d ← decode d; e ← decode e; f ← decode f; g ← decode g;
              h ← decode h;
              Some {| sv_schema_version := a; sv_reducer_version := b; sv_sequence := c; sv_request := d;
                      sv_previous_version := e; sv_current_version := f; sv_previous_checksum := g;
                      sv_checksum := h |}
          | _ => None
          end) _).
  solve_fields.
Defined.

(** The parts of the material but the previous checksum, which follows a dot. *)
Definition material_bits (m : EventChecksumMaterial) : string :=
  show_bits (encode [encode (cm_schema_version m); encode (cm_reducer_version m); encode (cm_sequence m);
                     encode (cm_request m); encode (cm_previous_version m); encode (cm_current_version m)])
  +:+ "." +:+ cm_previous_checksum m.

#[local] Instance sample_self_codec : SelfCodec :=
  {| request_json := λ r, inr (show_bits (encode r));
     parse_request := λ s, match decode (read_bits s) with Some r => inr r | None => inl "expected a request" end;
     material_json := λ m, inr (material_bits m);
     events_json := λ es, inr (show_bits (encode es));
     parse_events := λ s, match decode (read_bits s) with Some es => inr es | None => inl "expected events" end;
     parse_mood := λ s, inr (Gelaunt s);
     bytes_checksum := id;
     database := λ _, None |}.

#[local] Instance sample_name : NameUuid := λ u, u.

#[local] Existing Instance sample_env.

#[local] Instance sample_self_laws : SelfLaws.
Proof.
  refine {| exact_number := λ _, True |}.
  - intros r json _ _ [= <-]. cbn. by rewrite read_show, decode_encode.
  - intros es json _ [= <-]. cbn. by rewrite read_show, decode_encode.
Defined.

Lemma show_bits_dot p q s t : show_bits p +:+ "." +:+ s = show_bits q +:+ "." +:+ t → p = q ∧ s = t.
Proof.
  revert q. induction p as [p IH|p IH|]; intros [q|q|]; cbn; try discriminate; intros Heq; injection Heq; intros Heq'.
  1,2: by destruct (IH q Heq') as [-> ->].
  done.
Qed.

Lemma sample_collision_free : collision_free.
Proof.
  intros m m' j j' [= <-] [= <-] Heq. cbn [bytes_checksum sample_self_codec id] in Heq.
  apply show_bits_dot in Heq as [Henc Hp]. apply (inj encode) in Henc. injection Henc as H1 H2 H3 H4 H5 H6.
  apply (inj encode) in H1, H2, H3, H4, H5, H6. destruct m, m'. cbn in *. congruence.
Qed.

(** ** A run *)

Definition cfg : DaseinRuntimeConfig := config_default.

Definition empty_store : Store := {| ss_events := []; ss_snapshots := []; ss_legacy_mood := None |}.

Definition ask (id expected : N) (content : InterpretedExperience) : SelfTransitionRequest :=
  {| rq_event_id := id; rq_source := Runtime; rq_observed_at := 5; rq_content := content;
     rq_provenance := {| ep_producer := "test"; ep_session_id := None; ep_turn_id := None; ep_source_ref := None |};
     rq_expected_version := expected |}.

(** Started on an empty store; after one outcome; after a crash and a restart,
    which records the resumption. *)
Definition m0 : DaseinModule := Eval vm_compute in (load_dasein_state (fresh cfg empty_store) 0).1.2.

Definition m1 : DaseinModule := Eval vm_compute in (transition (ask 77 0 (Outcome "built" Succeeded)) m0 100).1.2.

Definition store1 : Store := Eval vm_compute in default empty_store (dm_ledger m1).

Definition m3 : DaseinModule := Eval vm_compute in (load_dasein_state (fresh cfg store1) 300).1.2.

Lemma run_to_m0 : rtc (step cfg) (empty None) (Up m0).
Proof. eapply rtc_once, step_start with 0 _. vm_compute. reflexivity. Qed.

Lemma run_m0_m1 : rtc (step cfg) (Up m0) (Up m1).
Proof. eapply rtc_once, (step_call cfg (OpTransition (ask 77 0 (Outcome "built" Succeeded)))) with 100 _ _; [done|]. vm_compute. reflexivity. Qed.

Lemma run_m1_m3 : rtc (step cfg) (Up m1) (Up m3).
Proof.
  eapply rtc_l; [eapply (step_crash cfg m1 store1); reflexivity|].
  eapply rtc_once, step_start with 300 _. vm_compute. reflexivity.
Qed.

Lemma self_is_its_history_witness :
  ∃ st events, dm_ledger m3 = Some st ∧ verify_rows 0 "" (ss_events st) = Ok events ∧ length events = 2%nat
    ∧ rebuild cfg (sv_request <$> events) = Some (dm_core m3).
Proof.
  assert (rtc (step cfg) (empty None) (Up m3)) as Hrun.
  { etrans; [apply run_to_m0|]. etrans; [apply run_m0_m1|apply run_m1_m3]. }
  destruct (proj1 (self_is_its_history cfg None (Up m3) Hrun)) as (st & events & Hd & Hv & Hc).
  exists st, events. split; [done|]. split; [done|]. split; [|done].
  rewrite (verify_rows_length _ _ _ _ Hv). injection Hd as <-. reflexivity.
Defined.

Lemma restart_restores_self_witness :
  ∃ st, dm_ledger m3 = Some st ∧ replay (fresh cfg st) 7 = (Ok 2, m3, 9).
Proof.
  assert (rtc (step cfg) (empty None) (Up m3)) as Hrun.
  { etrans; [apply run_to_m0|]. etrans; [apply run_m0_m1|apply run_m1_m3]. }
  destruct (restart_restores_self cfg None m3 7 Hrun eq_refl eq_refl) as (st & Hd & Hr).
  exists st. split; [exact Hd|exact Hr].
Defined.

Lemma event_lived_once_witness :
  ∃ receipt n1, transition (ask 77 0 (Outcome "built" Succeeded)) m0 100 = (Ok receipt, m1, n1)
    ∧ transition (ask 77 9 ScheduledReflection) m3 500 = (Ok receipt, m3, 500).
Proof.
  eexists _, _. split; [vm_compute; reflexivity|].
  eapply (event_lived_once cfg None m0 100 (ask 77 0 (Outcome "built" Succeeded)));
    [apply run_to_m0|intros x Hx; discriminate Hx|vm_compute; reflexivity|apply run_m1_m3|reflexivity].
Defined.

Definition rows3 : list EventRow := Eval vm_compute in ss_events (default empty_store (dm_ledger m3)).

Lemma history_pinned_witness :
  ∃ es, verify_rows 0 "" rows3 = Ok es ∧ length es = 2%nat
    ∧ ∀ rows es', verify_rows 0 "" rows = Ok es' → es' ≠ [] → tail_checksum "" es' = tail_checksum "" es → es' = es.
Proof.
  eexists. split; [vm_compute; reflexivity|]. split; [reflexivity|]. intros rows es' Hv Hne Ht.
  eapply (history_pinned rows rows3); [apply sample_collision_free|done|vm_compute; reflexivity|done|done|done].
Defined.

(** ** Where the code falls short *)

Definition contents (d : DaseinModule) : list InterpretedExperience :=
  match dm_ledger d with
  | Some st =>
      match verify_rows 0 "" (ss_events st) with Ok es => rq_content ∘ sv_request <$> es | _ => [] end
  | None => []
  end.

(** Another module has written to the store since this one started: the outcome is
    answered with a receipt, but a reflection is recorded in its place. *)
Example stale_module_loses_the_outcome :
  let stale := {| dm_core := dm_core m0; dm_ledger := dm_ledger m1 |} in
  match record_outcome "deployed" Failed "turn" stale 400 with
  | (Ok _, d, _) => contents d = [Outcome "built" Succeeded; ScheduledReflection] ∧ sf_mood (cr_self (dm_core d)) = Gelassenheit
  | _ => False
  end.
Proof. vm_compute. split; reflexivity. Qed.

(** The retry goes by the text of the error, which may come from the request: a
    refused change of readiness is answered with the receipt of a reflection. *)
Example refusal_taken_for_a_conflict :
  match transition_current Runtime "test" (ReadinessChanged "version conflict" ReadyToHand Unavailable) m0 400 with
  | (Ok _, d, _) => contents d = [ScheduledReflection]
  | _ => False
  end.
Proof. vm_compute. reflexivity. Qed.

(** A replay in a used module resets the version and the receipts but not the
    self: the experience is lived twice. *)
Example replay_lives_again :
  ts_position (sf_temporality (cr_self (dm_core m1))) = 1 ∧
  match replay m1 400 with
  | (Ok k, d, _) => k = 1 ∧ cr_version (dm_core d) = 1 ∧ ts_position (sf_temporality (cr_self (dm_core d))) = 2
  | _ => False
  end.
Proof. vm_compute. repeat split; reflexivity. Qed.

(** Numbers are parsed with best effort.  Here the parser loses the last bit of the
    urgency: the concern is accepted, and the next process cannot start on the
    ledger. *)
Definition lose_bit (x : F64) : F64 := match x with S754_finite sign (xI p) e => S754_finite sign (xO p) e | _ => x end.

Definition lose (r : SelfTransitionRequest) : SelfTransitionRequest :=
  {| rq_event_id := rq_event_id r; rq_source := rq_source r; rq_observed_at := rq_observed_at r;
     rq_content := match rq_content r with
                   | ConcernObserved id purpose urgency => ConcernObserved id purpose (lose_bit urgency)
                   | content => content
                   end;
     rq_provenance := rq_provenance r; rq_expected_version := rq_expected_version r |}.

Definition best_effort_codec : SelfCodec :=
  {| request_json := λ r, inr (show_bits (encode r));
     parse_request := λ s, match decode (read_bits s) with Some r => inr (lose r) | None => inl "expected a request" end;
     material_json := λ m, inr (material_bits m);
     events_json := λ es, inr (show_bits (encode es));
     parse_events := λ s, match decode (read_bits s) with Some es => inr es | None => inl "expected events" end;
     parse_mood := λ s, inr (Gelaunt s);
     bytes_checksum := id;
     database := λ _, None |}.

Example inexact_number_stops_the_self :
  match transition (H1 := best_effort_codec) (ask 77 0 (ConcernObserved "a" "tidy up" (f64_lit 3 10))) m0 100 with
  | (Ok _, d, _) =>
      match load_dasein_state (H1 := best_effort_codec) (fresh cfg (default empty_store (dm_ledger d))) 200 with
      | (Err e, d', _) => cr_version (dm_core d') = 0 ∧ e = "self ledger checksum mismatch at sequence 1"
      | _ => False
      end
  | _ => False
  end.
Proof. vm_compute. done. Qed.

(** A wall clock that went back by five milliseconds: the interval wraps. *)
Example clock_set_back_resumes_after_ages :
  match record_resumption_after_replay m1 400 with
  | (Ok _, d, _) =>
      xc_semantic (ur_content (ts_present (sf_temporality (cr_self (dm_core d))))) = "resumed after 18446744073709551611 ms"
  | _ => False
  end.
Proof. vm_compute. reflexivity. Qed.

Definition after (contents : list InterpretedExperience) : option SelfState :=
  foldl (λ os e, s ← os; match reduce e s with Ok r => Some r.1 | _ => None end) (Some (cr_self (core_new cfg))) contents.

(** An experience lived once is expected to repeat after three reflections: each
    counts the moments that are still vivid again. *)
Example lived_once_seems_a_habit :
  match after [Lived "a" None None; Lived "b" None None; ScheduledReflection; ScheduledReflection; ScheduledReflection] with
  | Some s => ap_content <$> pf_possibilities (ts_protention (sf_temporality s)) = ["a may repeat"]
  | None => False
  end.
Proof. vm_compute. reflexivity. Qed.

(** The concern that is deliberated is the first by name, not the most urgent. *)
Example first_by_name_is_deliberated :
  match after [ConcernObserved "b" "put out the fire" (f64_lit 99 100); ConcernObserved "a" "tidy up" (f64_lit 71 100)] with
  | Some s => Care.determine_action (sf_care s) = Care.Deliberate "tidy up"
  | None => False
  end.
Proof. vm_compute. reflexivity. Qed.

(** Absorption is documented to precede resolve; the two share a pass. *)
Example resolve_before_absorption :
  synthesize (Some (Entschlossenheit "x")) None (Some (Verfallenheit "y")) Gelassenheit = Entschlossenheit "x".
Proof. reflexivity. Qed.
