(* ===== verification/ApprovalTypes.v ===== *)
(** * Approvals: the contract (fabric/src/types/approval.rs)

    What is to be approved ([ApprovalSubject]), a decision
    ([ApprovalResolution]), and the snapshot of an approval with the two steps
    of its life: [resolve] and [consume].  Serialization and SHA-256 are
    parameters. *)
From S2P Require Import Prelude FabricTypes StdModel Fallible StdFloat Candidate.

#[local] Open Scope N_scope.

Abbreviation GoalId := Z (only parsing).
Abbreviation AttemptId := Uuid (only parsing).
Abbreviation CodingJobId := Uuid (only parsing).
Abbreviation ApprovalId := Uuid (only parsing).
Abbreviation PathBuf := string (only parsing).

Module ApprovalCategory.

Inductive t :=
| ApplyCode | ActivateGoal | SendMail | DeleteFile | ModifyCalendar | GitPush | CapabilityExpansion
| DaseinModification | BudgetExpansion.

#[global] Instance t_eq_dec : EqDecision t.
Proof. solve_decision. Defined.

End ApprovalCategory.

Module ApprovalRisk.

Inductive t := Low | Medium | High | Critical.

#[global] Instance t_eq_dec : EqDecision t.
Proof. solve_decision. Defined.

End ApprovalRisk.

Module ApprovalStatus.

Inductive t := Pending | Approved | Rejected | Expired | Consumed.

#[global] Instance t_eq_dec : EqDecision t.
Proof. solve_decision. Defined.

Definition is_decided (s : t) : bool := match s with Pending => false | _ => true end.

Definition is_terminal (s : t) : bool := match s with Rejected | Expired | Consumed => true | _ => false end.

Definition can_resolve (s : t) : bool := match s with Pending => true | _ => false end.

End ApprovalStatus.

Record ApprovalSubject := {
  sj_category : ApprovalCategory.t;
  sj_goal_id : GoalId;
  sj_attempt_id : option AttemptId;
  sj_job_id : option CodingJobId;
  sj_attributes : gmap string string;
  sj_allowed_scope : list PathBuf;
  sj_apply_target : option PathBuf;
}.

Record ApprovalArtifactRef := {
  af_kind : string;
  af_relative_path : PathBuf;
  af_sha256 : string;
}.

Record ApprovalResolution := {
  rs_status : ApprovalStatus.t;
  rs_principal_id : option string;
  rs_channel : option string;
  rs_resolved_at_ms : Z;
  rs_reason : option string;
}.

Record ApprovalSnapshot := {
  ap_id : ApprovalId;
  ap_goal_id : GoalId;
  ap_attempt_id : option AttemptId;
  ap_job_id : option CodingJobId;
  ap_owner_id : string;
  ap_category : ApprovalCategory.t;
  ap_risk : ApprovalRisk.t;
  ap_subject : ApprovalSubject;
  ap_subject_hash : string;
  ap_summary : string;
  ap_artifacts : list ApprovalArtifactRef;
  ap_created_at_ms : Z;
  ap_expires_at_ms : Z;
  ap_status : ApprovalStatus.t;
  ap_version : N;
  ap_resolution : option ApprovalResolution;
}.

Inductive ApprovalContractError :=
| InvalidPath (path : PathBuf)
| InvalidArtifact
| InvalidResolution
| InvalidSnapshot
| ContractAlreadyDecided
| ContractExpired
| ContractNotApproved
| ContractVersionConflict (expected actual : N)
| Serialization (error : string).

(** The equality of the source compares paths by their components. *)
Definition subject_eqb (a b : ApprovalSubject) : bool :=
  bool_decide (sj_category a = sj_category b) && bool_decide (sj_goal_id a = sj_goal_id b)
  && bool_decide (sj_attempt_id a = sj_attempt_id b) && bool_decide (sj_job_id a = sj_job_id b)
  && bool_decide (sj_attributes a = sj_attributes b) && paths_eqb (sj_allowed_scope a) (sj_allowed_scope b)
  && opt_path_eqb (sj_apply_target a) (sj_apply_target b).

Definition artifact_eqb (a b : ApprovalArtifactRef) : bool :=
  bool_decide (af_kind a = af_kind b) && path_eqb (af_relative_path a) (af_relative_path b)
  && bool_decide (af_sha256 a = af_sha256 b).

Fixpoint artifacts_eqb (a b : list ApprovalArtifactRef) : bool :=
  match a, b with
  | [], [] => true
  | x :: a, y :: b => artifact_eqb x y && artifacts_eqb a b
  | _, _ => false
  end.

(** [serde_json] and [Sha256]. *)
Class ApprovalDigest := {
  subject_json : ApprovalSubject → string + string;
  sha256_of : string → string;
}.

Module Approval.

Abbreviation Contract := (Result ApprovalContractError).

(** ** Subjects *)

Definition validate_relative_path (path : PathBuf) : Contract unit :=
  need (negb (bool_decide (path = "") || bool_decide (head (components path) = Some RootDir)
              || existsb (λ c, match c with ParentDir | RootDir => true | _ => false end) (components path)))
    (InvalidPath path).

Definition canonicalized (self : ApprovalSubject) : Contract ApprovalSubject :=
  each (sj_allowed_scope self ++ option_list (sj_apply_target self)) validate_relative_path ;;
  Ok {| sj_category := sj_category self; sj_goal_id := sj_goal_id self; sj_attempt_id := sj_attempt_id self;
        sj_job_id := sj_job_id self; sj_attributes := sj_attributes self;
        sj_allowed_scope := dedup_paths (sort_by path_le (sj_allowed_scope self));
        sj_apply_target := sj_apply_target self |}.

Definition is_lower_hex_byte (c : Ascii.ascii) : bool :=
  let b := Ascii.N_of_ascii c in (48 <=? b) && (b <=? 57) || (97 <=? b) && (b <=? 102).

Fixpoint is_lower_hex (value : string) : bool :=
  match value with "" => true | String c r => is_lower_hex_byte c && is_lower_hex r end.

Definition artifact_validate (self : ApprovalArtifactRef) : Contract unit :=
  need (negb (is_blank (af_kind self) || negb (len (af_sha256 self) =? 64) || negb (is_lower_hex (af_sha256 self))))
    InvalidArtifact ;;
  validate_relative_path (af_relative_path self).

(** ** Resolutions *)

Definition approved (principal_id channel : string) (at_ms : Z) : ApprovalResolution :=
  {| rs_status := ApprovalStatus.Approved; rs_principal_id := Some principal_id; rs_channel := Some channel;
     rs_resolved_at_ms := at_ms; rs_reason := None |}.

Definition rejected (principal_id channel : string) (at_ms : Z) (reason : option string) : ApprovalResolution :=
  {| rs_status := ApprovalStatus.Rejected; rs_principal_id := Some principal_id; rs_channel := Some channel;
     rs_resolved_at_ms := at_ms; rs_reason := reason |}.

Definition expired (at_ms : Z) : ApprovalResolution :=
  {| rs_status := ApprovalStatus.Expired; rs_principal_id := None; rs_channel := None;
     rs_resolved_at_ms := at_ms; rs_reason := Some "approval expired and was denied" |}.

Definition resolution_validate (self : ApprovalResolution) : Contract unit :=
  match rs_status self with
  | ApprovalStatus.Approved | ApprovalStatus.Rejected =>
      need (negb (bool_decide (rs_principal_id self = None)
                  || match rs_channel self with None => true | Some c => bool_decide (c = "") end))
        InvalidResolution
  | ApprovalStatus.Expired =>
      need (negb (bool_decide (rs_principal_id self ≠ None) || bool_decide (rs_channel self ≠ None)))
        InvalidResolution
  | _ => Err InvalidResolution
  end.

(** ** Snapshots *)

Section Snapshots.
Context `{ApprovalDigest}.

Definition subject_hash (self : ApprovalSubject) : Contract string :=
  canonical ← canonicalized self;
  match subject_json canonical with
  | inl error => Err (Serialization error)
  | inr bytes => Ok (sha256_of bytes)
  end.

(** The operands of [||] before and after [subject_hash()?]. *)
Definition validate_identity (self : ApprovalSnapshot) : bool :=
  bool_decide (ap_goal_id self = sj_goal_id (ap_subject self))
  && bool_decide (ap_attempt_id self = sj_attempt_id (ap_subject self))
  && bool_decide (ap_job_id self = sj_job_id (ap_subject self))
  && bool_decide (ap_category self = sj_category (ap_subject self)).

Definition artifact_valid (a : ApprovalArtifactRef) : bool :=
  match artifact_validate a with Ok _ => true | _ => false end.

Definition validate_content (self : ApprovalSnapshot) : bool :=
  negb (is_blank (ap_summary self)) && (ap_created_at_ms self <? ap_expires_at_ms self)%Z
  && forallb artifact_valid (ap_artifacts self)
  && Bool.eqb (bool_decide (ap_status self = ApprovalStatus.Pending)) (bool_decide (ap_resolution self = None)).

Definition status_matches (status : ApprovalStatus.t) (resolution : ApprovalResolution) : bool :=
  bool_decide (rs_status resolution = status)
  || bool_decide (status = ApprovalStatus.Consumed) && bool_decide (rs_status resolution = ApprovalStatus.Approved).

Definition validate (self : ApprovalSnapshot) : Contract unit :=
  need (validate_identity self) InvalidSnapshot ;;
  hash ← subject_hash (ap_subject self);
  need (bool_decide (ap_subject_hash self = hash) && validate_content self) InvalidSnapshot ;;
  match ap_resolution self with
  | None => Ok tt
  | Some resolution =>
      resolution_validate resolution ;;
      need (status_matches (ap_status self) resolution
            && (ap_created_at_ms self <=? rs_resolved_at_ms resolution)%Z) InvalidSnapshot
  end.

Definition is_expired_at (self : ApprovalSnapshot) (now_ms : Z) : bool :=
  bool_decide (ap_status self = ApprovalStatus.Pending) && (ap_expires_at_ms self <=? now_ms)%Z.

(** The snapshot with another status and resolution and the next version. *)
Definition moved (self : ApprovalSnapshot) (status : ApprovalStatus.t) (resolution : option ApprovalResolution)
    : ApprovalSnapshot :=
  {| ap_id := ap_id self; ap_goal_id := ap_goal_id self; ap_attempt_id := ap_attempt_id self;
     ap_job_id := ap_job_id self; ap_owner_id := ap_owner_id self; ap_category := ap_category self;
     ap_risk := ap_risk self; ap_subject := ap_subject self; ap_subject_hash := ap_subject_hash self;
     ap_summary := ap_summary self; ap_artifacts := ap_artifacts self; ap_created_at_ms := ap_created_at_ms self;
     ap_expires_at_ms := ap_expires_at_ms self; ap_status := status;
     ap_version := saturating_add (ap_version self) 1; ap_resolution := resolution |}.

Definition resolve (self : ApprovalSnapshot) (expected_version : N) (resolution : ApprovalResolution)
    : Contract ApprovalSnapshot :=
  need (ap_version self =? expected_version) (ContractVersionConflict expected_version (ap_version self)) ;;
  need (ApprovalStatus.can_resolve (ap_status self) && bool_decide (ap_resolution self = None))
    ContractAlreadyDecided ;;
  resolution_validate resolution ;;
  need ((rs_resolved_at_ms resolution <? ap_expires_at_ms self)%Z
        || bool_decide (rs_status resolution = ApprovalStatus.Expired)) ContractExpired ;;
  let next := moved self (rs_status resolution) (Some resolution) in
  validate next ;;
  Ok next.

Definition validate_consumed (self : ApprovalSnapshot) : Contract unit :=
  need (bool_decide (ap_status self = ApprovalStatus.Consumed)
        && bool_decide (rs_status <$> ap_resolution self = Some ApprovalStatus.Approved)) InvalidSnapshot.

Definition consume (self : ApprovalSnapshot) (expected_version : N) : Contract ApprovalSnapshot :=
  need (ap_version self =? expected_version) (ContractVersionConflict expected_version (ap_version self)) ;;
  need (bool_decide (ap_status self = ApprovalStatus.Approved)) ContractNotApproved ;;
  let next := moved self ApprovalStatus.Consumed (ap_resolution self) in
  validate_consumed next ;;
  Ok next.

End Snapshots.

End Approval.

(** ** Approvals: the hash of a subject

    The canonical scope of a subject does not depend on how the scope is listed,
    as far as a path is spelled in one way; subjects with the same hash are the
    same request, as far as the digest has no collision. *)

Import Approval.


(** ** Strictly sorted lists of paths *)

Definition path_lt (a b : string) : Prop := path_le a b ∧ path_eqb a b = false.

Lemma path_lt_asym a b : path_lt a b → path_lt b a → False.
Proof. intros [Hab Hne] [Hba _]. by rewrite path_le_antisymm in Hne. Qed.

Lemma path_lt_irrefl a : ¬ path_lt a a.
Proof. intros [_ Ha]. by rewrite path_eqb_refl in Ha. Qed.

Lemma sorted_unique l1 l2 :
  StronglySorted path_lt l1 → StronglySorted path_lt l2 → (∀ x, x ∈ l1 ↔ x ∈ l2) → l1 = l2.
Proof.
  intros Hs1. revert l2. induction Hs1 as [|x l1 Hs1 IH Hx]; intros l2 Hs2 Hin.
  { destruct l2 as [|y l2]; [done|]. destruct (Hin y) as [_ Hy]. by destruct (not_elem_of_nil y); apply Hy; left. }
  destruct Hs2 as [|y l2 Hs2 Hy].
  { destruct (Hin x) as [Hx' _]. by destruct (not_elem_of_nil x); apply Hx'; left. }
  rewrite Forall_forall in Hx. rewrite Forall_forall in Hy.
  assert (x = y) as ->.
  { assert (x ∈ y :: l2) as Hxy by (apply Hin; left). assert (y ∈ x :: l1) as Hyx by (apply Hin; left).
    apply elem_of_cons in Hxy as [?|Hxy]; [done|]. apply elem_of_cons in Hyx as [?|Hyx]; [done|].
    destruct (path_lt_asym x y); auto. }
  f_equal. apply IH; [done|]. intros z. specialize (Hin z). rewrite !elem_of_cons in Hin.
  split; intros Hz; [destruct Hin as [[->|?] _]|destruct Hin as [_ [->|?]]]; auto; exfalso;
    eapply path_lt_irrefl; eauto.
Qed.

Lemma dedup_after_spec kept l :
  StronglySorted path_le l → Forall (path_le kept) l →
  StronglySorted path_lt (dedup_after kept l) ∧ Forall (path_lt kept) (dedup_after kept l)
  ∧ (∀ x, x ∈ dedup_after kept l → x ∈ l)
  ∧ ∀ x, x ∈ l → ∃ y, y ∈ kept :: dedup_after kept l ∧ path_eqb x y = true.
Proof.
  revert kept. induction l as [|x l IH]; intros kept Hs Hk; cbn.
  { split_and!; try constructor; intros z Hz; by apply elem_of_nil in Hz. }
  apply StronglySorted_inv in Hs as [Hs Hx]. apply Forall_cons in Hk as [Hkx Hk].
  destruct (path_eqb x kept) eqn:Heq.
  - destruct (IH kept Hs Hk) as (? & ? & Hsub & Hcov). split_and!; [done..| |].
    + intros z Hz. right. auto.
    + intros z [->|Hz]%elem_of_cons; [|auto]. exists kept. split; [left|done].
  - assert (path_lt kept x) as Hlt.
    { split; [done|]. unfold path_eqb in *. rewrite bool_decide_eq_false in *. congruence. }
    destruct (IH x Hs Hx) as (Hsorted & Hall & Hsub & Hcov). split_and!.
    + by constructor.
    + constructor; [done|]. rewrite Forall_forall in *. intros z Hz. split; [auto|].
      apply not_true_iff_false. intros Hkz%bool_decide_eq_true. destruct Hlt as [Hle Hne].
      assert (path_le x kept) as Hxk by (unfold path_le; rewrite Hkz; apply Hx; auto).
      by rewrite path_le_antisymm in Hne.
    + intros z [->|Hz]%elem_of_cons; [left|right; auto].
    + intros z [->|Hz]%elem_of_cons; [exists x; split; [right; left|apply path_eqb_refl]|].
      destruct (Hcov z Hz) as (y & Hy & ?). exists y. split; [by right|done].
Qed.

(** ** The canonical scope *)

Definition canonical_scope (l : list string) : list string := dedup_paths (sort_by path_le l).

(** A path is spelled in one way. *)
Definition spelled_once (l : list string) : Prop := ∀ p q, p ∈ l → q ∈ l → path_eqb p q = true → p = q.

Lemma canonical_scope_spec l :
  StronglySorted path_lt (canonical_scope l) ∧ (∀ x, x ∈ canonical_scope l → x ∈ l)
  ∧ ∀ x, x ∈ l → ∃ y, y ∈ canonical_scope l ∧ path_eqb x y = true.
Proof.
  unfold canonical_scope. pose proof (sort_by_perm path_le l) as Hperm.
  pose proof (sort_by_sorted path_le l) as Hs.
  assert (∀ x, x ∈ sort_by path_le l ↔ x ∈ l) as Hin by (intros; by rewrite Hperm).
  destruct (sort_by path_le l) as [|x r]; cbn.
  { split_and!; [constructor|..]; intros z Hz; [by apply elem_of_nil in Hz|].
    apply Hin in Hz. by apply elem_of_nil in Hz. }
  apply StronglySorted_inv in Hs as [Hs Hx]. destruct (dedup_after_spec x r Hs Hx) as (? & ? & Hsub & Hcov).
  split_and!; [by constructor|..].
  - intros z [->|Hz]%elem_of_cons; apply Hin; [left|right; auto].
  - intros z [->|Hz]%Hin%elem_of_cons; [exists x; split; [left|apply path_eqb_refl]|auto].
Qed.

Lemma canonical_scope_elem l x : spelled_once l → x ∈ canonical_scope l ↔ x ∈ l.
Proof.
  intros Hl. destruct (canonical_scope_spec l) as (_ & Hsub & Hcov). split; [auto|]. intros Hx.
  destruct (Hcov x Hx) as (y & Hy & Heq). by rewrite (Hl x y) by auto.
Qed.

(** The scope may be listed in any order and with repetitions. *)
Lemma canonical_scope_stable l1 l2 :
  (∀ x, x ∈ l1 ↔ x ∈ l2) → spelled_once l1 → canonical_scope l1 = canonical_scope l2.
Proof.
  intros Hin H1. assert (spelled_once l2) as H2 by (intros p q ? ?; apply H1; by apply Hin).
  apply sorted_unique; [apply canonical_scope_spec..|]. intros x. by rewrite !canonical_scope_elem.
Qed.

(** ** The hash *)

Definition with_scope (scope : list string) (subject : ApprovalSubject) : ApprovalSubject :=
  {| sj_category := sj_category subject; sj_goal_id := sj_goal_id subject; sj_attempt_id := sj_attempt_id subject;
     sj_job_id := sj_job_id subject; sj_attributes := sj_attributes subject; sj_allowed_scope := scope;
     sj_apply_target := sj_apply_target subject |}.

Section Hash.
Context `{ApprovalDigest}.

Lemma canonicalized_ok subject canonical :
  canonicalized subject = Ok canonical ↔
  Forall (λ p, validate_relative_path p = Ok tt) (sj_allowed_scope subject ++ option_list (sj_apply_target subject))
  ∧ canonical = with_scope (canonical_scope (sj_allowed_scope subject)) subject.
Proof.
  unfold canonicalized. rewrite bind_ok. split.
  - intros ([] & Hv & [= <-]). by apply each_ok in Hv.
  - intros [Hv ->]. exists tt. split; [by apply each_ok|done].
Qed.

(** The hash of a subject does not depend on the order and the repetitions of its
    scope. *)
Theorem subject_hash_stable subject l hash :
  (∀ x, x ∈ sj_allowed_scope subject ↔ x ∈ l) → spelled_once l →
  subject_hash (with_scope l subject) = Ok hash ↔ subject_hash subject = Ok hash.
Proof.
  intros Hin Hl. unfold subject_hash. rewrite !bind_ok. setoid_rewrite canonicalized_ok. cbn.
  rewrite <-(canonical_scope_stable l (sj_allowed_scope subject)); [|naive_solver..].
  assert (∀ P : string → Prop, Forall P (l ++ option_list (sj_apply_target subject))
            ↔ Forall P (sj_allowed_scope subject ++ option_list (sj_apply_target subject))) as HF.
  { intros P. rewrite !Forall_app, !Forall_forall. naive_solver. }
  setoid_rewrite HF. done.
Qed.

(** Subjects with the same hash are the same request. *)
Lemma subject_hash_injective s1 s2 hash :
  (∀ x y, sha256_of x = sha256_of y → x = y) →
  (∀ x y json, subject_json x = inr json → subject_json y = inr json → x = y) →
  subject_hash s1 = Ok hash → subject_hash s2 = Ok hash → canonicalized s1 = canonicalized s2.
Proof.
  intros Hsha Hjson. unfold subject_hash. rewrite !bind_ok. intros (c1 & Hc1 & H1) (c2 & Hc2 & H2). rewrite Hc1, Hc2.
  destruct (subject_json c1) as [?|j1] eqn:J1; [done|]. destruct (subject_json c2) as [?|j2] eqn:J2; [done|].
  simplify_eq. assert (j2 = j1) as -> by (apply Hsha; congruence). f_equal. by eapply Hjson.
Qed.

End Hash.
