(* ===== verification/GoalTypes.v ===== *)
(** * Goals: the contracts (fabric/src/types/goal.rs, attempt.rs and objective.rs)

    The state machine of a goal, its specification, budget and wait reason; an
    attempt of a runtime with its outcome, evidence and usage, as it is bounded
    and redacted for the store; and the policy that decides what follows a failed
    attempt (executive/src/application/goal/retry.rs). *)
From S2P Require Import Prelude FabricTypes StdModel Fallible StdText AuditLog StdFloat ApprovalTypes.

#[local] Open Scope N_scope.

Abbreviation RuntimeId := text (only parsing).

Definition u32_max : N := 4294967295.

Definition i64_least : Z := -9223372036854775808.
Definition i64_most : Z := 9223372036854775807.

(** [i64::saturating_add] *)
Definition i64_saturating_add (a b : Z) : Z := Z.max i64_least (Z.min i64_most (a + b)).

Module GoalState.
Inductive t :=
| Draft | Ready | Running | Blocked | AwaitingHuman | Suspended | Completed | Failed | Cancelled.

#[global] Instance t_eq_dec : EqDecision t.
Proof. solve_decision. Defined.

Definition as_str (s : t) : string :=
  match s with
  | Draft => "draft"
  | Ready => "ready"
  | Running => "running"
  | Blocked => "blocked"
  | AwaitingHuman => "awaiting_human"
  | Suspended => "suspended"
  | Completed => "completed"
  | Failed => "failed"
  | Cancelled => "cancelled"
  end.

Definition from_str (s : string) : option t :=
  if decide (s = "draft") then Some Draft
  else if decide (s = "ready") then Some Ready
  else if decide (s = "running") then Some Running
  else if decide (s = "blocked") then Some Blocked
  else if decide (s = "awaiting_human") then Some AwaitingHuman
  else if decide (s = "suspended") then Some Suspended
  else if decide (s = "completed") then Some Completed
  else if decide (s = "failed") then Some Failed
  else if decide (s = "cancelled") then Some Cancelled
  else None.

Definition can_transition_to (s next : t) : bool :=
  match s, next with
  | Draft, Ready | Draft, Cancelled | Ready, Running | Ready, Cancelled
  | Running, Blocked | Running, AwaitingHuman | Running, Suspended | Running, Completed | Running, Failed
  | Running, Cancelled | Suspended, Ready | Suspended, Cancelled | Blocked, Ready | Blocked, Cancelled
  | AwaitingHuman, Ready | AwaitingHuman, Cancelled => true
  | _, _ => false
  end.

Definition is_terminal (s : t) : bool :=
  match s with Completed | Failed | Cancelled => true | _ => false end.

(** [format!("{next:?}").to_lowercase()] *)
Definition debug_lowercase (s : t) : string :=
  match s with AwaitingHuman => "awaitinghuman" | s => as_str s end.

Lemma from_as_str s : from_str (as_str s) = Some s.
Proof. by destruct s. Qed.

Lemma terminal_has_no_next s next : is_terminal s = true → can_transition_to s next = false.
Proof. by destruct s, next. Qed.
End GoalState.

Inductive GoalWaitReason :=
| HumanInput (prompt : text)
| ExternalEvent (key : text)
| Backoff (until_ms : Z).

Record GoalBudget := {
  gb_max_input_tokens : N;
  gb_max_output_tokens : N;
  gb_max_cost_usd : option F64;
  gb_max_attempts : N;
  gb_deadline_ms : option Z;
}.

Definition default_budget : GoalBudget := {|
  gb_max_input_tokens := 1000000;
  gb_max_output_tokens := 500000;
  gb_max_cost_usd := None;
  gb_max_attempts := 10;
  gb_deadline_ms := None;
|}.

Record GoalBudgetUsage := {
  gu_input_tokens : N;
  gu_output_tokens : N;
  gu_cost_usd : F64;
  gu_attempts : N;
}.

Definition f64_zero : F64 := S754_zero false.

Definition no_usage : GoalBudgetUsage :=
  {| gu_input_tokens := 0; gu_output_tokens := 0; gu_cost_usd := f64_zero; gu_attempts := 0 |}.

Record GoalSpec := {
  gs_original_intent : text;
  gs_desired_state : list text;
  gs_constraints : list text;
  gs_acceptance_criteria : list text;
  gs_budget : GoalBudget;
}.

Record GoalSnapshot := {
  gl_id : GoalId;
  gl_owner : PrincipalId;
  gl_state : GoalState.t;
  gl_spec : GoalSpec;
  gl_usage : GoalBudgetUsage;
  gl_wait_reason : option GoalWaitReason;
  gl_process_id : option ProcessId;
  gl_version : N;
  gl_created_at : string;
  gl_updated_at : string;
}.

(** ** Attempts *)

Inductive CognitiveRole := Worker | Reviewer | Debugger | Verifier.

#[global] Instance CognitiveRole_eq_dec : EqDecision CognitiveRole.
Proof. solve_decision. Defined.

Module FailureClass.
Inductive t :=
| Compilation | TestFailure | PermissionDenied | Timeout | MissingDependency | InvalidAssumption
| ArchitectureViolation | ToolFailure | ContextInsufficient | ProviderTransient | ProviderPermanent
| Cancelled | RepeatedFailure.

#[global] Instance t_eq_dec : EqDecision t.
Proof. solve_decision. Defined.
End FailureClass.

Record RuntimeObservability := {
  rb_inference_rounds : option N;
  rb_provider_retries : option N;
  rb_tool_calls : option N;
  rb_terminal_tool_results : option N;
  rb_active_context_tokens : option N;
  rb_cache_read_tokens : option N;
  rb_cache_write_tokens : option N;
}.

Definition no_observability : RuntimeObservability := {|
  rb_inference_rounds := None; rb_provider_retries := None; rb_tool_calls := None; rb_terminal_tool_results := None;
  rb_active_context_tokens := None; rb_cache_read_tokens := None; rb_cache_write_tokens := None |}.

Record AttemptUsage := {
  us_input_tokens : N;
  us_output_tokens : N;
  us_cost_usd : option F64;
  us_elapsed_ms : N;
  us_observability : RuntimeObservability;
}.

Definition default_usage : AttemptUsage :=
  {| us_input_tokens := 0; us_output_tokens := 0; us_cost_usd := None; us_elapsed_ms := 0;
     us_observability := no_observability |}.

Module AttemptStatus.
Inductive t := Running | Succeeded | Failed | Cancelled.

#[global] Instance t_eq_dec : EqDecision t.
Proof. solve_decision. Defined.
End AttemptStatus.

Record AttemptEvidence := {
  ae_kind : text;
  ae_summary : text;
  ae_content : text;
}.

Record RuntimeResult := {
  rt_output : text;
  rt_usage : AttemptUsage;
  rt_evidence : list AttemptEvidence;
}.

Record RuntimeFailure := {
  rf_class : FailureClass.t;
  rf_message : text;
  rf_retryable : bool;
  rf_usage : AttemptUsage;
  rf_evidence : list AttemptEvidence;
}.

(** [Result<RuntimeResult, RuntimeFailure>] *)
Abbreviation Outcome := (RuntimeFailure + RuntimeResult)%type.

(** [redact_and_bound] *)
Definition redact_and_bound (value : text) (max_bytes : N) : text := Audit.redact_sensitive_text value max_bytes.

(** [bounded_for_persistence] of evidence, a result and a failure *)
Definition evidence_bounded (max_bytes : N) (e : AttemptEvidence) : AttemptEvidence := {|
  ae_kind := redact_and_bound (ae_kind e) max_bytes;
  ae_summary := redact_and_bound (ae_summary e) max_bytes;
  ae_content := redact_and_bound (ae_content e) max_bytes;
|}.

Definition result_bounded (max_bytes : N) (r : RuntimeResult) : RuntimeResult := {|
  rt_output := redact_and_bound (rt_output r) max_bytes;
  rt_usage := rt_usage r;
  rt_evidence := evidence_bounded max_bytes <$> rt_evidence r;
|}.

Definition failure_bounded (max_bytes : N) (f : RuntimeFailure) : RuntimeFailure := {|
  rf_class := rf_class f;
  rf_message := redact_and_bound (rf_message f) max_bytes;
  rf_retryable := rf_retryable f;
  rf_usage := rf_usage f;
  rf_evidence := evidence_bounded max_bytes <$> rf_evidence f;
|}.

(** ** What follows a failure (retry.rs) *)

Record RetryPolicy := {
  rp_max_worker_attempts : N;
  rp_max_reviewer_attempts : N;
  rp_initial_backoff_ms : N;
  rp_max_backoff_ms : N;
}.

Definition default_policy : RetryPolicy := {|
  rp_max_worker_attempts := 3;
  rp_max_reviewer_attempts := 2;
  rp_initial_backoff_ms := 1000;
  rp_max_backoff_ms := 30000;
|}.

Inductive RetryDecision :=
| RetrySame (after_ms : N) (evidence : list AttemptEvidence)
| Escalate (runtime_id : RuntimeId) (evidence : list AttemptEvidence)
| AwaitHuman (reason : text)
| Fail_ (reason : text)
| Cancel.

Definition bounded_reason (message : text) : text :=
  rf_message (failure_bounded 512 {| rf_class := FailureClass.ProviderPermanent; rf_message := message;
                                     rf_retryable := false; rf_usage := default_usage; rf_evidence := [] |}).

Definition saturating_mul (a b : N) : N := N.min (a * b) u64_max.

Definition backoff_ms (p : RetryPolicy) (attempt_count : N) : N :=
  let exponent := N.min (attempt_count - 1) 63 in
  N.min (saturating_mul (rp_initial_backoff_ms p) (N.shiftl 1 exponent)) (rp_max_backoff_ms p).

Definition max_attempts_of (p : RetryPolicy) (role : CognitiveRole) : N :=
  match role with
  | Reviewer | Verifier => rp_max_reviewer_attempts p
  | Worker | Debugger => rp_max_worker_attempts p
  end.

(** Failures that are tried again whether or not they say so. *)
Definition always_retried (class : FailureClass.t) : bool :=
  match class with
  | FailureClass.Compilation | FailureClass.TestFailure | FailureClass.MissingDependency
  | FailureClass.InvalidAssumption | FailureClass.ContextInsufficient | FailureClass.RepeatedFailure => true
  | _ => false
  end.

Definition exhausted (role : CognitiveRole) (failure : RuntimeFailure) (escalation_runtime : option RuntimeId) : RetryDecision :=
  match role with
  | Worker | Debugger =>
      match escalation_runtime with
      | Some runtime_id => Escalate runtime_id (rf_evidence failure)
      | None => AwaitHuman (lit "worker attempts exhausted without an escalation runtime")
      end
  | Reviewer | Verifier => AwaitHuman (lit "reviewer attempts exhausted")
  end.

Definition decide_retry (p : RetryPolicy) (role : CognitiveRole) (attempt_count : N) (failure : RuntimeFailure)
    (escalation_runtime : option RuntimeId) : RetryDecision :=
  match rf_class failure with
  | FailureClass.Cancelled => Cancel
  | FailureClass.PermissionDenied | FailureClass.ArchitectureViolation => AwaitHuman (bounded_reason (rf_message failure))
  | FailureClass.ProviderPermanent => Fail_ (bounded_reason (rf_message failure))
  | class =>
      if max_attempts_of p role <=? attempt_count then exhausted role failure escalation_runtime
      else if negb (rf_retryable failure) && negb (always_retried class) then Fail_ (bounded_reason (rf_message failure))
      else RetrySame (backoff_ms p attempt_count) (rf_evidence failure)
  end.

(** ** What the policy promises *)

(** The delay doubles with every attempt up to its bound: no overflow hides in
    the shift or in the product. *)
Lemma backoff_doubles p k :
  rp_max_backoff_ms p ≤ u64_max →
  backoff_ms p (k + 1) = N.min (rp_initial_backoff_ms p * 2 ^ N.min k 63) (rp_max_backoff_ms p).
Proof.
  intros Hmax. unfold backoff_ms, saturating_mul. rewrite N.shiftl_1_l. replace (k + 1 - 1) with k by lia. lia.
Qed.

(** A failure is tried again only while attempts of the role are left, and after
    at most the longest delay; a cancelled one, a refused one and one the provider
    declares permanent never are. *)
Lemma retry_is_bounded p role count failure escalation after evidence :
  decide_retry p role count failure escalation = RetrySame after evidence →
  count < max_attempts_of p role ∧ after ≤ rp_max_backoff_ms p ∧ evidence = rf_evidence failure
  ∧ rf_class failure ∉ [FailureClass.Cancelled; FailureClass.PermissionDenied;
                        FailureClass.ArchitectureViolation; FailureClass.ProviderPermanent]
  ∧ (rf_retryable failure = true ∨ always_retried (rf_class failure) = true).
Proof.
  unfold decide_retry, exhausted. destruct (rf_class failure) eqn:Hc; try done;
    destruct (N.leb_spec (max_attempts_of p role) count); try (destruct role, escalation; done);
    destruct (rf_retryable failure); cbn; try done; intros [= <- <-].
  all: split_and!; [done|unfold backoff_ms; lia|done|by rewrite !not_elem_of_cons; repeat split; [..|apply not_elem_of_nil]|auto].
Qed.

(** Only a worker or debugger is escalated, and only to the configured runtime. *)
Lemma escalation_is_configured p role count failure escalation runtime evidence :
  decide_retry p role count failure escalation = Escalate runtime evidence →
  escalation = Some runtime ∧ max_attempts_of p role ≤ count ∧ (role = Worker ∨ role = Debugger).
Proof.
  unfold decide_retry, exhausted. destruct (rf_class failure); try done;
    destruct (N.leb_spec (max_attempts_of p role) count);
    destruct role, escalation; try done; try (intros [= <- _]; auto);
    destruct (rf_retryable failure); done.
Qed.
