(* ===== verification/GoalStore.v ===== *)
(** * The objective store (executive/src/application/goal)

    The tables of migrations 1 to 3 and 17 of
    executive/src/compatibility/persistence_migrations.rs and every method of
    [ObjectiveStore] on them: objectives and goals (store.rs, mod.rs), transitions
    (transition.rs), the budget ledger (budget.rs) and attempts (attempt.rs).  A
    column of JSON text holds the value it encodes.  A transaction is one step,
    what is read inside it included: SQLite refuses the write of a transaction
    whose reading is out of date. *)
From S2P Require Import Prelude FabricTypes StdModel Fallible Database StdText AuditLog StdFloat ApprovalTypes GoalTypes.

#[local] Open Scope N_scope.

Module GoalStore.

Abbreviation Value := (Json Z).

(** [serde_json::json!] of an object *)
Definition object (fields : list (string * Value)) : Value := Object ((λ f, (lit f.1, f.2)) <$> fields).

(** What the store uses of the uuid, serde_json and SQLite libraries. *)
Class GoalEnv := {
  uuid_text : Uuid → text;
  parse_uuid : text → option Uuid;
  evidence_json_len : list AttemptEvidence → N;
  datetime_now : N → string;
  sum_real : list F64 → F64;
}.

Inductive StoreError :=
| Sql (error : SqlError unit)
| Message (text : string).

(** ** The tables *)

Inductive ObjectiveStatus := InProgress | Completed | Failed | Adjusted.

Definition status_from_str (s : string) : option ObjectiveStatus :=
  if decide (s = "in_progress") then Some InProgress
  else if decide (s = "completed") then Some Completed
  else if decide (s = "failed") then Some Failed
  else if decide (s = "adjusted") then Some Adjusted
  else None.

(** [objectives] without its key; the text of a specification may be none. *)
Record ObjectiveRow := {
  ob_description : text;
  ob_status : string;
  ob_parent_id : option Z;
  ob_session_id : string;
  ob_scope : string;
  ob_created_at : string;
  ob_updated_at : string;
  ob_owner_id : string;
  ob_goal_state : string;
  ob_spec : option GoalSpec;
  ob_wait : option GoalWaitReason;
  ob_process_id : option ProcessId;
  ob_version : N;
}.

(** [goal_events], in the order of its automatic key *)
Record EventRow := {
  ge_objective_id : GoalId;
  ge_version : N;
  ge_event_type : string;
  ge_payload : Value;
  ge_created_at : string;
}.

Module LedgerStatus.
Inductive t := Reserved | Settled | Revoked.
#[global] Instance t_eq_dec : EqDecision t.
Proof. solve_decision. Defined.
End LedgerStatus.

(** [goal_budget_ledger] without its keys *)
Record LedgerRow := {
  lg_objective_id : GoalId;
  lg_input_tokens : N;
  lg_output_tokens : N;
  lg_cost_usd : F64;
  lg_attempts : N;
  lg_status : LedgerStatus.t;
  lg_created_at : string;
  lg_settled_at : option string;
}.

(** [GoalAttempt], a row of [goal_attempts] *)
Record GoalAttempt := {
  ga_id : AttemptId;
  ga_goal_id : GoalId;
  ga_sequence : N;
  ga_runtime_id : RuntimeId;
  ga_role : CognitiveRole;
  ga_status : AttemptStatus.t;
  ga_input : Value;
  ga_output : option RuntimeResult;
  ga_failure : option RuntimeFailure;
  ga_evidence : list AttemptEvidence;
  ga_usage : AttemptUsage;
  ga_started_at : string;
  ga_ended_at : option string;
}.

Module EvaluationDecision.
Inductive t := ObservedPass | ObservedFail | Accepted | Rejected | Indeterminate.
End EvaluationDecision.

(** [goal_evaluation_feedback] *)
Record GoalEvaluationFeedback := {
  gf_receipt_id : Uuid;
  gf_goal_id : GoalId;
  gf_attempt_id : AttemptId;
  gf_decision : EvaluationDecision.t;
  gf_failed_gates : list text;
  gf_retry_replan_required : bool;
}.

(** The tables, and beside them the calls that were made of runtimes, with their task:
    no transaction touches those. *)
Record Db := {
  gd_objectives : gmap Z ObjectiveRow;
  gd_last_id : Z;
  gd_events : list EventRow;
  gd_ledger : gmap text LedgerRow;
  gd_attempts : gmap Uuid GoalAttempt;
  gd_feedback : gmap Uuid GoalEvaluationFeedback;
  gd_invocations : list (RuntimeId * text);
}.

Definition empty_db : Db :=
  {| gd_objectives := ∅; gd_last_id := 0; gd_events := []; gd_ledger := ∅; gd_attempts := ∅; gd_feedback := ∅;
     gd_invocations := [] |}.

Definition with_objectives (f : gmap Z ObjectiveRow → gmap Z ObjectiveRow) (d : Db) : Db :=
  {| gd_objectives := f (gd_objectives d); gd_last_id := gd_last_id d; gd_events := gd_events d;
     gd_ledger := gd_ledger d; gd_attempts := gd_attempts d; gd_feedback := gd_feedback d;
     gd_invocations := gd_invocations d |}.

Definition with_last_id (id : Z) (d : Db) : Db :=
  {| gd_objectives := gd_objectives d; gd_last_id := id; gd_events := gd_events d;
     gd_ledger := gd_ledger d; gd_attempts := gd_attempts d; gd_feedback := gd_feedback d;
     gd_invocations := gd_invocations d |}.

Definition with_events (f : list EventRow → list EventRow) (d : Db) : Db :=
  {| gd_objectives := gd_objectives d; gd_last_id := gd_last_id d; gd_events := f (gd_events d);
     gd_ledger := gd_ledger d; gd_attempts := gd_attempts d; gd_feedback := gd_feedback d;
     gd_invocations := gd_invocations d |}.

Definition with_ledger (f : gmap text LedgerRow → gmap text LedgerRow) (d : Db) : Db :=
  {| gd_objectives := gd_objectives d; gd_last_id := gd_last_id d; gd_events := gd_events d;
     gd_ledger := f (gd_ledger d); gd_attempts := gd_attempts d; gd_feedback := gd_feedback d;
     gd_invocations := gd_invocations d |}.

Definition with_attempts (f : gmap Uuid GoalAttempt → gmap Uuid GoalAttempt) (d : Db) : Db :=
  {| gd_objectives := gd_objectives d; gd_last_id := gd_last_id d; gd_events := gd_events d;
     gd_ledger := gd_ledger d; gd_attempts := f (gd_attempts d); gd_feedback := gd_feedback d;
     gd_invocations := gd_invocations d |}.

Definition with_feedback (f : gmap Uuid GoalEvaluationFeedback → gmap Uuid GoalEvaluationFeedback) (d : Db) : Db :=
  {| gd_objectives := gd_objectives d; gd_last_id := gd_last_id d; gd_events := gd_events d;
     gd_ledger := gd_ledger d; gd_attempts := gd_attempts d; gd_feedback := f (gd_feedback d);
     gd_invocations := gd_invocations d |}.

Definition with_invocations (f : list (RuntimeId * text) → list (RuntimeId * text)) (d : Db) : Db :=
  {| gd_objectives := gd_objectives d; gd_last_id := gd_last_id d; gd_events := gd_events d;
     gd_ledger := gd_ledger d; gd_attempts := gd_attempts d; gd_feedback := gd_feedback d;
     gd_invocations := f (gd_invocations d) |}.

(** ** Errors *)

Inductive GoalTransitionError :=
| NotFound (id : GoalId)
| Illegal (from to : GoalState.t)
| VersionConflict (expected actual : N)
| TransitionStorage (error : StoreError).

Record GoalBudgetRequest := {
  bq_input_tokens : N;
  bq_output_tokens : N;
  bq_cost_usd : F64;
  bq_attempts : N;
}.

Record GoalBudgetReservation := {
  bv_reservation_id : text;
  bv_goal_id : GoalId;
  bv_request : GoalBudgetRequest;
  bv_status : string;
  bv_created_at : string;
}.

Inductive GoalBudgetError :=
| GoalNotFound (id : GoalId)
| InputTokenExhausted (limit used requested : N)
| OutputTokenExhausted (limit used requested : N)
| CostExhausted (limit used requested : F64)
| AttemptExhausted (limit used requested : N)
| DeadlineExpired (deadline_ms now_ms : Z)
| DuplicateReservation (id : text)
| ReservationNotFound (id : text)
| BudgetStorage (error : StoreError).

(** [a + b] on [u32] with the release profile's wrap-around. *)
Definition wrapping_add32 (a b : N) : N := (a + b) mod (u32_max + 1).

(** ** Rows and snapshots *)

Record Objective := {
  oj_objective_id : Z;
  oj_description : text;
  oj_status : ObjectiveStatus;
  oj_parent_id : option Z;
  oj_session_id : string;
  oj_scope : string;
  oj_created_at : string;
  oj_updated_at : string;
}.

Definition map_objective_row (id : Z) (row : ObjectiveRow) : Objective := {|
  oj_objective_id := id;
  oj_description := ob_description row;
  oj_status := default InProgress (status_from_str (ob_status row));
  oj_parent_id := ob_parent_id row;
  oj_session_id := ob_session_id row;
  oj_scope := ob_scope row;
  oj_created_at := ob_created_at row;
  oj_updated_at := ob_updated_at row;
|}.

Definition spec_of (row : ObjectiveRow) : GoalSpec :=
  default {| gs_original_intent := ob_description row; gs_desired_state := []; gs_constraints := [];
             gs_acceptance_criteria := []; gs_budget := default_budget |} (ob_spec row).

Definition state_of (row : ObjectiveRow) : GoalState.t :=
  default GoalState.Ready (GoalState.from_str (ob_goal_state row)).

Definition map_goal_snapshot_row (id : Z) (row : ObjectiveRow) : GoalSnapshot := {|
  gl_id := id;
  gl_owner := ob_owner_id row;
  gl_state := state_of row;
  gl_spec := spec_of row;
  gl_usage := no_usage;
  gl_wait_reason := ob_wait row;
  gl_process_id := ob_process_id row;
  gl_version := ob_version row;
  gl_created_at := ob_created_at row;
  gl_updated_at := ob_updated_at row;
|}.

(** [LIMIT ?] with [limit as i64]: a negative one is none. *)
Definition sql_limit {A} (limit : N) (rows : list A) : list A :=
  if limit <=? i64_max then take (N.to_nat limit) rows else rows.

Definition newest_first (a b : Z * ObjectiveRow) : Prop := (b.1 ≤ a.1)%Z.
#[global] Instance newest_first_dec : RelDecision newest_first.
Proof. intros a b. unfold newest_first. apply _. Defined.

Definition oldest_first (a b : Z * ObjectiveRow) : Prop := (a.1 ≤ b.1)%Z.
#[global] Instance oldest_first_dec : RelDecision oldest_first.
Proof. intros a b. unfold oldest_first. apply _. Defined.

(** The specification [create] writes for an objective. *)
Definition legacy_spec (description : text) : GoalSpec :=
  {| gs_original_intent := description; gs_desired_state := []; gs_constraints := []; gs_acceptance_criteria := [];
     gs_budget := {| gb_max_input_tokens := 1000000; gb_max_output_tokens := 500000; gb_max_cost_usd := None;
                     gb_max_attempts := 10; gb_deadline_ms := None |} |}.

Definition scopes : list string := ["session"; "project"; "global"].
Definition statuses : list string := ["in_progress"; "completed"; "failed"; "adjusted"].

Section Store.
Context `{Env} `{Sqlite} `{GoalEnv}.

Abbreviation Store := (M Db StoreError).

Definition statement : Store unit := execute Sql.

Definition now : Store string := n ← tick; mret (datetime_now n).

(** ** Objectives and goals (store.rs) *)

(** The next value of the automatic key *)
Definition next_id : Store Z :=
  d ← get_state;
  let id := (gd_last_id d + 1)%Z in
  ensure (bool_decide (id ≤ i64_most)%Z) (Sql (Database.Failed "database or disk is full")) ;;
  modify (with_last_id id) ;;
  mret id.

Definition insert_objective (row : ObjectiveRow) : Store Z :=
  statement ;;
  d ← get_state;
  constraint Sql (bool_decide (ob_scope row ∈ scopes)) "CHECK scope" ;;
  constraint Sql (match ob_parent_id row with Some p => bool_decide (is_Some (gd_objectives d !! p)) | None => true end)
    "FOREIGN KEY" ;;
  id ← next_id;
  modify (with_objectives (<[id := row]>)) ;;
  mret id.

Definition create (description : text) (parent : option Z) (session_id scope : string) : Store Z :=
  at_ ← now;
  insert_objective {| ob_description := description; ob_status := "in_progress"; ob_parent_id := parent;
    ob_session_id := session_id; ob_scope := scope; ob_created_at := at_; ob_updated_at := at_;
    ob_owner_id := "local-owner"; ob_goal_state := "ready"; ob_spec := Some (legacy_spec description);
    ob_wait := None; ob_process_id := None; ob_version := 0 |}.

Definition get (id : Z) : Store (option Objective) :=
  statement ;;
  d ← get_state;
  mret (map_objective_row id <$> gd_objectives d !! id).

Definition set_status (id : Z) (status : string) : Store bool :=
  at_ ← now;
  statement ;;
  d ← get_state;
  match gd_objectives d !! id with
  | None => mret false
  | Some row =>
      constraint Sql (bool_decide (status ∈ statuses)) "CHECK status" ;;
      modify (with_objectives (<[id := {| ob_description := ob_description row; ob_status := status;
        ob_parent_id := ob_parent_id row; ob_session_id := ob_session_id row; ob_scope := ob_scope row;
        ob_created_at := ob_created_at row; ob_updated_at := at_; ob_owner_id := ob_owner_id row;
        ob_goal_state := ob_goal_state row; ob_spec := ob_spec row; ob_wait := ob_wait row;
        ob_process_id := ob_process_id row; ob_version := ob_version row |}]>)) ;;
      mret true
  end.

Definition has_status (status_filter : option string) (row : ObjectiveRow) : bool :=
  match status_filter with Some s => bool_decide (ob_status row = s) | None => true end.

Definition list_ (status_filter : option string) (limit : N) : Store (list Objective) :=
  statement ;;
  d ← get_state;
  mret ((λ kr, map_objective_row kr.1 kr.2) <$> sql_limit limit (sort_by newest_first
    (filter (λ kr, has_status status_filter kr.2 = true)
       (map_to_list (gd_objectives d))))).

Definition active : Store (option Objective) :=
  statement ;;
  d ← get_state;
  mret (head ((λ kr, map_objective_row kr.1 kr.2) <$> sort_by newest_first
    (filter (λ kr, ob_status kr.2 = "in_progress" ∧ ob_parent_id kr.2 = None) (map_to_list (gd_objectives d))))).

Definition sub_goals (parent : Z) : Store (list Objective) :=
  statement ;;
  d ← get_state;
  mret ((λ kr, map_objective_row kr.1 kr.2) <$> sort_by oldest_first
    (filter (λ kr, ob_parent_id kr.2 = Some parent) (map_to_list (gd_objectives d)))).

Definition resume : Store (option (Objective * list Objective)) :=
  objective ← active;
  match objective with
  | Some o => subs ← sub_goals (oj_objective_id o); mret (Some (o, subs))
  | None => mret None
  end.

Definition event_key (id : GoalId) (version : N) (e : EventRow) : bool :=
  bool_decide (ge_objective_id e = id) && (ge_version e =? version).

(** [INSERT INTO goal_events] *)
Definition insert_event (id : GoalId) (version : N) (event_type : string) (payload : Value) : Store unit :=
  at_ ← now;
  u64_param Sql version ;;
  statement ;;
  d ← get_state;
  constraint Sql (bool_decide (is_Some (gd_objectives d !! id))) "FOREIGN KEY" ;;
  constraint Sql (negb (existsb (event_key id version) (gd_events d))) "UNIQUE goal_events" ;;
  modify (with_events (λ events, events ++ [{| ge_objective_id := id; ge_version := version;
    ge_event_type := event_type; ge_payload := payload; ge_created_at := at_ |}])).

Definition get_goal (id : GoalId) : Store (option GoalSnapshot) :=
  statement ;;
  d ← get_state;
  mret (map_goal_snapshot_row id <$> gd_objectives d !! id).

Definition persist_goal (owner : PrincipalId) (session_id scope : string) (spec : GoalSpec) (state : GoalState.t) : Store Z :=
  transaction Sql (
    at_ ← now;
    id ← insert_objective {| ob_description := gs_original_intent spec; ob_status := "in_progress"; ob_parent_id := None;
      ob_session_id := session_id; ob_scope := scope; ob_created_at := at_; ob_updated_at := at_;
      ob_owner_id := owner; ob_goal_state := GoalState.as_str state; ob_spec := Some spec;
      ob_wait := None; ob_process_id := None; ob_version := 0 |};
    insert_event id 0 "created" (object []) ;;
    mret id).

Definition create_goal_with_state (owner : PrincipalId) (session_id scope : string) (spec : GoalSpec) (state : GoalState.t)
    : Store GoalSnapshot :=
  id ← persist_goal owner session_id scope spec state;
  goal ← get_goal id;
  ok_or goal (Message "goal disappeared after insert").

Definition create_goal (owner : PrincipalId) (session_id scope : string) (spec : GoalSpec) : Store GoalSnapshot :=
  create_goal_with_state owner session_id scope spec GoalState.Ready.

Definition create_draft_goal (owner : PrincipalId) (session_id scope : string) (spec : GoalSpec) : Store GoalSnapshot :=
  create_goal_with_state owner session_id scope spec GoalState.Draft.

Definition in_states (states : list GoalState.t) (row : ObjectiveRow) : bool :=
  match states with [] => true | _ => bool_decide (ob_goal_state row ∈ (GoalState.as_str <$> states)) end.

Definition list_goals (states : list GoalState.t) (limit : N) : Store (list GoalSnapshot) :=
  statement ;;
  d ← get_state;
  mret ((λ kr, map_goal_snapshot_row kr.1 kr.2) <$> sql_limit limit (sort_by newest_first
    (filter (λ kr, in_states states kr.2 = true) (map_to_list (gd_objectives d))))).

Definition recoverable (row : ObjectiveRow) : bool :=
  bool_decide (ob_parent_id row = None) && negb (bool_decide (ob_goal_state row ∈ ["completed"; "failed"; "cancelled"])).

Definition recoverable_goals : Store (list GoalSnapshot) :=
  statement ;;
  d ← get_state;
  mret ((λ kr, map_goal_snapshot_row kr.1 kr.2) <$> sort_by oldest_first
    (filter (λ kr, recoverable kr.2 = true) (map_to_list (gd_objectives d)))).

(** [UPDATE objectives SET ...]: the columns a method of a goal writes. *)
Definition updated (state : string) (wait : option GoalWaitReason) (process : option ProcessId) (version : N)
    (at_ : string) (row : ObjectiveRow) : ObjectiveRow := {|
  ob_description := ob_description row; ob_status := ob_status row; ob_parent_id := ob_parent_id row;
  ob_session_id := ob_session_id row; ob_scope := ob_scope row; ob_created_at := ob_created_at row;
  ob_updated_at := at_; ob_owner_id := ob_owner_id row; ob_goal_state := state; ob_spec := ob_spec row;
  ob_wait := wait; ob_process_id := process; ob_version := version |}.

(** [UPDATE objectives ... WHERE objective_id = ? [AND version = ?]]: how many
    rows it changes. *)
Definition update_goal (id : GoalId) (expected : option N) (f : string → ObjectiveRow → ObjectiveRow) : Store N :=
  at_ ← now;
  statement ;;
  d ← get_state;
  match gd_objectives d !! id with
  | Some row =>
      if match expected with Some v => ob_version row =? v | None => true end
      then modify (with_objectives (<[id := f at_ row]>)) ;; mret 1
      else mret 0
  | None => mret 0
  end.

Definition persist_recovery (id : GoalId) (new_version : N) : Store unit :=
  transaction Sql (
    u64_param Sql new_version ;;
    update_goal id None (λ at_ row, updated "ready" (ob_wait row) None new_version at_ row) ;;
    insert_event id new_version "recovered"
      (object [("action", String_ (lit "recover")); ("from", String_ (lit "running")); ("to", String_ (lit "ready"))])).

(** The loop of [recover_goals] over the candidates it has read. *)
Fixpoint recover_each (candidates : list GoalSnapshot) : Store (list GoalSnapshot) :=
  match candidates with
  | [] => mret []
  | goal :: rest =>
      fresh ← match gl_state goal with
              | GoalState.Running =>
                  persist_recovery (gl_id goal) (gl_version goal + 1) ;;
                  fresh ← get_goal (gl_id goal);
                  ok_or fresh (Message "goal disappeared during recovery")
              | _ => mret goal
              end;
      recovered ← recover_each rest;
      mret (fresh :: recovered)
  end.

Definition recover_goals : Store (list GoalSnapshot) :=
  candidates ← recoverable_goals;
  recover_each candidates.

(** ** Transitions (transition.rs) *)

Definition persist_transition (id : GoalId) (expected_version : N) (next : GoalState.t) (wait_reason : option GoalWaitReason)
    (event_payload : Value) : M Db GoalTransitionError unit :=
  transaction (λ e, TransitionStorage (Sql e)) (
    current ← map_err TransitionStorage (get_goal id);
    current ← ok_or current (NotFound id);
    ensure (negb (GoalState.is_terminal (gl_state current))) (Illegal (gl_state current) next) ;;
    ensure (GoalState.can_transition_to (gl_state current) next) (Illegal (gl_state current) next) ;;
    ensure (gl_version current =? expected_version) (VersionConflict expected_version (gl_version current)) ;;
    let new_version := gl_version current + 1 in
    u64_param (λ e, TransitionStorage (Sql e)) new_version ;;
    changed ← map_err TransitionStorage (update_goal id (Some expected_version)
      (λ at_ row, updated (GoalState.as_str next) wait_reason (ob_process_id row) new_version at_ row));
    if changed =? 0 then
      fresh ← map_err TransitionStorage (get_goal id);
      throw (match fresh with Some g => VersionConflict expected_version (gl_version g) | None => NotFound id end)
    else map_err TransitionStorage (insert_event id new_version (GoalState.debug_lowercase next) event_payload)).

Definition transition_goal (id : GoalId) (expected_version : N) (next : GoalState.t) (wait_reason : option GoalWaitReason)
    (event_payload : Value) : M Db GoalTransitionError GoalSnapshot :=
  persist_transition id expected_version next wait_reason event_payload ;;
  goal ← map_err TransitionStorage (get_goal id);
  ok_or goal (NotFound id).

(** ** The budget ledger (budget.rs) *)

Abbreviation Ledger := (M Db GoalBudgetError).

Definition ledger_sql (e : SqlError unit) : GoalBudgetError := BudgetStorage (Sql e).

(** [SUM] over an integer column *)
Definition sum_integer (column : LedgerRow → N) (rows : list LedgerRow) : Ledger N :=
  let total := foldr (λ row n, column row + n) 0 rows in
  ensure (total <=? i64_max) (ledger_sql (Database.Failed "integer overflow")) ;;
  mret total.

Definition of_goal (id : GoalId) (status : LedgerStatus.t) (row : LedgerRow) : bool :=
  bool_decide (lg_objective_id row = id) && bool_decide (lg_status row = status).

Definition usage_with (id : GoalId) (status : LedgerStatus.t) : Ledger GoalBudgetUsage :=
  execute ledger_sql ;;
  d ← get_state;
  let rows := filter (λ row, of_goal id status row = true) (map_to_list (gd_ledger d)).*2 in
  input ← sum_integer lg_input_tokens rows;
  output ← sum_integer lg_output_tokens rows;
  attempts ← sum_integer lg_attempts rows;
  ensure (attempts <=? u32_max) (ledger_sql OutOfRange) ;;
  mret {| gu_input_tokens := input; gu_output_tokens := output;
          gu_cost_usd := match rows with [] => f64_zero | _ => sum_real (lg_cost_usd <$> rows) end;
          gu_attempts := attempts |}.

Definition settled_usage (id : GoalId) : Ledger GoalBudgetUsage := usage_with id LedgerStatus.Settled.

Definition active_reserved_usage (id : GoalId) : Ledger GoalBudgetUsage := usage_with id LedgerStatus.Reserved.

(** The checks of [reserve_goal_budget] against what is used. *)
Definition check_limits (budget : GoalBudget) (settled active : GoalBudgetUsage) (request : GoalBudgetRequest) : Ledger unit :=
  let total_input := wrapping_add (gu_input_tokens settled) (gu_input_tokens active) in
  let total_output := wrapping_add (gu_output_tokens settled) (gu_output_tokens active) in
  let total_cost := f64_add (gu_cost_usd settled) (gu_cost_usd active) in
  let total_attempts := wrapping_add32 (gu_attempts settled) (gu_attempts active) in
  ensure (wrapping_add total_input (bq_input_tokens request) <=? gb_max_input_tokens budget)
    (InputTokenExhausted (gb_max_input_tokens budget) total_input (bq_input_tokens request)) ;;
  ensure (wrapping_add total_output (bq_output_tokens request) <=? gb_max_output_tokens budget)
    (OutputTokenExhausted (gb_max_output_tokens budget) total_output (bq_output_tokens request)) ;;
  match gb_max_cost_usd budget with
  | Some limit => ensure (negb (SFltb limit (f64_add total_cost (bq_cost_usd request))))
                    (CostExhausted limit total_cost (bq_cost_usd request))
  | None => mret tt
  end ;;
  ensure (wrapping_add32 total_attempts (bq_attempts request) <=? gb_max_attempts budget)
    (AttemptExhausted (gb_max_attempts budget) total_attempts (bq_attempts request)).

Definition insert_reservation (id : GoalId) (reservation_id : text) (request : GoalBudgetRequest) : Ledger unit :=
  at_ ← map_err BudgetStorage now;
  u64_param ledger_sql (bq_input_tokens request) ;;
  u64_param ledger_sql (bq_output_tokens request) ;;
  execute ledger_sql ;;
  d ← get_state;
  constraint ledger_sql (negb (is_nan (bq_cost_usd request))) "NOT NULL" ;;
  constraint ledger_sql (bool_decide (is_Some (gd_objectives d !! id))) "FOREIGN KEY" ;;
  ensure (bool_decide (gd_ledger d !! reservation_id = None)) (DuplicateReservation reservation_id) ;;
  modify (with_ledger (<[reservation_id := {| lg_objective_id := id; lg_input_tokens := bq_input_tokens request;
    lg_output_tokens := bq_output_tokens request; lg_cost_usd := bq_cost_usd request; lg_attempts := bq_attempts request;
    lg_status := LedgerStatus.Reserved; lg_created_at := at_; lg_settled_at := None |}]>)).

Definition check_budget (id : GoalId) (request : GoalBudgetRequest) (now_ms : Z) : Ledger unit :=
  goal ← map_err BudgetStorage (get_goal id);
  goal ← ok_or goal (GoalNotFound id);
  let budget := gs_budget (gl_spec goal) in
  match gb_deadline_ms budget with
  | Some deadline => ensure (negb (deadline <? now_ms)%Z) (DeadlineExpired deadline now_ms)
  | None => mret tt
  end ;;
  settled ← settled_usage id;
  active ← active_reserved_usage id;
  check_limits budget settled active request.

Definition reserve_goal_budget (id : GoalId) (request : GoalBudgetRequest) (now_ms : Z) : Ledger GoalBudgetReservation :=
  check_budget id request now_ms ;;
  u ← new_uuid;
  let reservation_id := uuid_text u in
  insert_reservation id reservation_id request ;;
  execute ledger_sql ;;
  d ← get_state;
  row ← ok_or (gd_ledger d !! reservation_id) (ledger_sql (Database.Failed "Query returned no rows"));
  mret {| bv_reservation_id := reservation_id; bv_goal_id := id; bv_request := request; bv_status := "reserved";
          bv_created_at := lg_created_at row |}.

Definition same_usage (row : LedgerRow) (actual : GoalBudgetUsage) : bool :=
  (lg_input_tokens row =? gu_input_tokens actual) && (lg_output_tokens row =? gu_output_tokens actual)
  && bool_decide (lg_cost_usd row = gu_cost_usd actual) && (lg_attempts row =? gu_attempts actual).

Definition settle_goal_budget (reservation_id : text) (actual : GoalBudgetUsage) : Ledger unit :=
  at_ ← map_err BudgetStorage now;
  u64_param ledger_sql (gu_input_tokens actual) ;;
  u64_param ledger_sql (gu_output_tokens actual) ;;
  execute ledger_sql ;;
  d ← get_state;
  match gd_ledger d !! reservation_id with
  | Some row =>
      if decide (lg_status row = LedgerStatus.Reserved) then
        constraint ledger_sql (negb (is_nan (gu_cost_usd actual))) "NOT NULL" ;;
        modify (with_ledger (<[reservation_id := {| lg_objective_id := lg_objective_id row;
          lg_input_tokens := gu_input_tokens actual; lg_output_tokens := gu_output_tokens actual;
          lg_cost_usd := gu_cost_usd actual; lg_attempts := gu_attempts actual; lg_status := LedgerStatus.Settled;
          lg_created_at := lg_created_at row; lg_settled_at := Some at_ |}]>))
      else
        execute ledger_sql ;;
        ensure (bool_decide (lg_status row = LedgerStatus.Settled) && same_usage row actual)
          (ReservationNotFound reservation_id)
  | None => execute ledger_sql ;; throw (ReservationNotFound reservation_id)
  end.

Definition revoke_goal_budget (reservation_id : text) : Ledger unit :=
  execute ledger_sql ;;
  d ← get_state;
  match gd_ledger d !! reservation_id with
  | Some row =>
      if decide (lg_status row = LedgerStatus.Reserved) then
        modify (with_ledger (<[reservation_id := {| lg_objective_id := lg_objective_id row;
          lg_input_tokens := lg_input_tokens row; lg_output_tokens := lg_output_tokens row;
          lg_cost_usd := lg_cost_usd row; lg_attempts := lg_attempts row; lg_status := LedgerStatus.Revoked;
          lg_created_at := lg_created_at row; lg_settled_at := lg_settled_at row |}]>))
      else throw (ReservationNotFound reservation_id)
  | None => throw (ReservationNotFound reservation_id)
  end.

(** ** Attempts (attempt.rs) *)

Definition MAX_ATTEMPT_FIELD_BYTES : N := 64 * 1024.

Definition ensure_goal_exists (goal_id : GoalId) : Store unit :=
  statement ;;
  d ← get_state;
  ensure (bool_decide (is_Some (gd_objectives d !! goal_id))) (Message "goal not found").

Definition attempt_identity (attempt_id : AttemptId) : Store (GoalId * AttemptStatus.t) :=
  statement ;;
  d ← get_state;
  row ← ok_or (gd_attempts d !! attempt_id) (Message "attempt not found");
  mret (ga_goal_id row, ga_status row).

Definition ensure_running (status : AttemptStatus.t) : Store unit :=
  ensure (bool_decide (status = AttemptStatus.Running)) (Message "attempt is already terminal").

Definition append_attempt_event (goal_id : GoalId) (event_type : string) (payload : Value) : Store unit :=
  statement ;;
  d ← get_state;
  row ← ok_or (gd_objectives d !! goal_id) (Sql (Database.Failed "Query returned no rows"));
  let next := saturating_add (ob_version row) 1 in
  u64_param Sql next ;;
  changed ← update_goal goal_id (Some (ob_version row))
    (λ at_ row, updated (ob_goal_state row) (ob_wait row) (ob_process_id row) next at_ row);
  ensure (changed =? 1) (Message "goal version changed while recording attempt event") ;;
  insert_event goal_id next event_type payload.

Definition attempt (attempt_id : AttemptId) : Store (option GoalAttempt) :=
  statement ;;
  d ← get_state;
  mret (gd_attempts d !! attempt_id).

(** The attempt just written *)
Definition stored_attempt (attempt_id : AttemptId) (missing : string) : Store GoalAttempt :=
  found ← attempt attempt_id;
  ok_or found (Message missing).

Definition role_name (role : CognitiveRole) : string :=
  match role with Worker => "worker" | Reviewer => "reviewer" | Debugger => "debugger" | Verifier => "verifier" end.

Definition new_attempt (attempt_id : AttemptId) (goal_id : GoalId) (sequence : N) (runtime_id : RuntimeId)
    (role : CognitiveRole) (input : Value) (at_ : string) : GoalAttempt := {|
  ga_id := attempt_id; ga_goal_id := goal_id; ga_sequence := sequence; ga_runtime_id := runtime_id; ga_role := role;
  ga_status := AttemptStatus.Running; ga_input := input; ga_output := None; ga_failure := None; ga_evidence := [];
  ga_usage := default_usage; ga_started_at := at_; ga_ended_at := None |}.

(** [UNIQUE(objective_id, sequence)] *)
Definition sequence_taken (goal_id : GoalId) (sequence : N) (d : Db) : bool :=
  existsb (λ a, bool_decide (ga_goal_id a = goal_id) && (ga_sequence a =? sequence)) (map_to_list (gd_attempts d)).*2.

Definition insert_attempt (row : GoalAttempt) : Store unit :=
  statement ;;
  d ← get_state;
  constraint Sql (bool_decide (gd_attempts d !! ga_id row = None)) "UNIQUE attempt_id" ;;
  constraint Sql (negb (sequence_taken (ga_goal_id row) (ga_sequence row) d)) "UNIQUE sequence" ;;
  constraint Sql (bool_decide (is_Some (gd_objectives d !! ga_goal_id row))) "FOREIGN KEY" ;;
  modify (with_attempts (<[ga_id row := row]>)).

Definition persist_attempt (attempt_id : AttemptId) (goal_id : GoalId) (sequence : N) (runtime_id : RuntimeId)
    (role : CognitiveRole) (input : Value) : Store unit :=
  transaction Sql (
    ensure_goal_exists goal_id ;;
    at_ ← now;
    insert_attempt (new_attempt attempt_id goal_id sequence runtime_id role input at_) ;;
    append_attempt_event goal_id "attempt_started"
      (object [("attempt_id", String_ (uuid_text attempt_id)); ("sequence", Number_ (Z.of_N sequence));
               ("runtime_id", String_ runtime_id); ("role", String_ (lit (role_name role)))])).

Definition begin_attempt_with_id (attempt_id : AttemptId) (goal_id : GoalId) (sequence : N) (runtime_id : RuntimeId)
    (role : CognitiveRole) (input : Value) : Store GoalAttempt :=
  persist_attempt attempt_id goal_id sequence runtime_id role input ;;
  stored_attempt attempt_id "attempt disappeared after begin".

Definition begin_attempt (goal_id : GoalId) (sequence : N) (runtime_id : RuntimeId) (role : CognitiveRole) (input : Value)
    : Store GoalAttempt :=
  attempt_id ← new_uuid;
  begin_attempt_with_id attempt_id goal_id sequence runtime_id role input.

(** [UPDATE goal_attempts SET ... WHERE attempt_id = ? AND status = 'running'] *)
Definition update_terminal_attempt (attempt_id : AttemptId) (status : AttemptStatus.t) (output : option RuntimeResult)
    (failure : option RuntimeFailure) (evidence : list AttemptEvidence) (usage : AttemptUsage) : Store unit :=
  at_ ← now;
  statement ;;
  d ← get_state;
  match gd_attempts d !! attempt_id with
  | Some row =>
      ensure (bool_decide (ga_status row = AttemptStatus.Running)) (Message "attempt terminal update lost a race") ;;
      modify (with_attempts (<[attempt_id := {| ga_id := ga_id row; ga_goal_id := ga_goal_id row;
        ga_sequence := ga_sequence row; ga_runtime_id := ga_runtime_id row; ga_role := ga_role row; ga_status := status;
        ga_input := ga_input row; ga_output := output; ga_failure := failure; ga_evidence := evidence; ga_usage := usage;
        ga_started_at := ga_started_at row; ga_ended_at := Some at_ |}]>))
  | None => throw (Message "attempt terminal update lost a race")
  end.

(** The terminal columns and the type of the event. *)
Definition terminal_columns (outcome : Outcome)
    : AttemptStatus.t * option RuntimeResult * option RuntimeFailure * list AttemptEvidence * AttemptUsage * string :=
  match outcome with
  | inr result =>
      let result := result_bounded MAX_ATTEMPT_FIELD_BYTES result in
      (AttemptStatus.Succeeded, Some result, None, rt_evidence result, rt_usage result, "attempt_succeeded")
  | inl failure =>
      let failure := failure_bounded MAX_ATTEMPT_FIELD_BYTES failure in
      (AttemptStatus.Failed, None, Some failure, rf_evidence failure, rf_usage failure, "attempt_failed")
  end.

Definition persist_outcome (attempt_id : AttemptId) (outcome : Outcome) : Store unit :=
  transaction Sql (
    identity ← attempt_identity attempt_id;
    ensure_running identity.2 ;;
    let '(status, output, failure, evidence, usage, event_type) := terminal_columns outcome in
    update_terminal_attempt attempt_id status output failure evidence usage ;;
    append_attempt_event identity.1 event_type (object [("attempt_id", String_ (uuid_text attempt_id))])).

Definition finish_attempt (attempt_id : AttemptId) (outcome : Outcome) : Store GoalAttempt :=
  persist_outcome attempt_id outcome ;;
  stored_attempt attempt_id "attempt disappeared after finish".

Definition persist_cancellation (attempt_id : AttemptId) (failure : RuntimeFailure) : Store unit :=
  transaction Sql (
    identity ← attempt_identity attempt_id;
    ensure_running identity.2 ;;
    update_terminal_attempt attempt_id AttemptStatus.Cancelled None (Some failure) (rf_evidence failure) (rf_usage failure) ;;
    append_attempt_event identity.1 "attempt_cancelled" (object [("attempt_id", String_ (uuid_text attempt_id))])).

Definition cancel_attempt (attempt_id : AttemptId) (failure : RuntimeFailure) : Store GoalAttempt :=
  ensure (bool_decide (rf_class failure = FailureClass.Cancelled))
    (Message "cancel_attempt requires FailureClass::Cancelled") ;;
  let failure := failure_bounded MAX_ATTEMPT_FIELD_BYTES failure in
  persist_cancellation attempt_id failure ;;
  stored_attempt attempt_id "attempt disappeared after cancel".

Definition later_sequence (a b : GoalAttempt) : Prop := ga_sequence b ≤ ga_sequence a.
#[global] Instance later_sequence_dec : RelDecision later_sequence.
Proof. intros a b. unfold later_sequence. apply _. Defined.

Definition attempts_for_goal (goal_id : GoalId) (limit : N) : Store (list GoalAttempt) :=
  statement ;;
  d ← get_state;
  mret (sql_limit limit (sort_by later_sequence
    (filter (λ a, ga_goal_id a = goal_id) (map_to_list (gd_attempts d)).*2))).

Definition stale_failure : RuntimeFailure := {|
  rf_class := FailureClass.Cancelled;
  rf_message := lit "stale running attempt cancelled during daemon recovery";
  rf_retryable := false;
  rf_usage := default_usage;
  rf_evidence := [{| ae_kind := lit "restart_recovery"; ae_summary := lit "attempt interrupted by daemon restart";
                     ae_content := lit "runtime was not re-invoked" |}];
|}.

Definition by_goal_and_sequence (a b : GoalAttempt) : Prop :=
  (ga_goal_id a < ga_goal_id b)%Z ∨ ga_goal_id a = ga_goal_id b ∧ ga_sequence a ≤ ga_sequence b.
#[global] Instance by_goal_and_sequence_dec : RelDecision by_goal_and_sequence.
Proof. intros a b. unfold by_goal_and_sequence. apply _. Defined.

Fixpoint cancel_each (ids : list AttemptId) : Store (list GoalAttempt) :=
  match ids with
  | [] => mret []
  | id :: rest => cancelled ← cancel_attempt id stale_failure; more ← cancel_each rest; mret (cancelled :: more)
  end.

Definition recover_stale_attempts : Store (list GoalAttempt) :=
  statement ;;
  d ← get_state;
  cancel_each (ga_id <$> sort_by by_goal_and_sequence
    (filter (λ a, ga_status a = AttemptStatus.Running) (map_to_list (gd_attempts d)).*2)).

(** [UPDATE goal_attempts SET evidence_json = ?] *)
Definition write_evidence (attempt_id : AttemptId) (evidence : list AttemptEvidence) : Store unit :=
  statement ;;
  modify (with_attempts (alter (λ row, {| ga_id := ga_id row; ga_goal_id := ga_goal_id row;
    ga_sequence := ga_sequence row; ga_runtime_id := ga_runtime_id row; ga_role := ga_role row; ga_status := ga_status row;
    ga_input := ga_input row; ga_output := ga_output row; ga_failure := ga_failure row; ga_evidence := evidence;
    ga_usage := ga_usage row; ga_started_at := ga_started_at row; ga_ended_at := ga_ended_at row |}) attempt_id)).

Definition evidence_plan (attempt_id : AttemptId) (additional : list AttemptEvidence) : Store (list AttemptEvidence) :=
  found ← stored_attempt attempt_id "attempt missing while appending verification evidence";
  ensure (negb (bool_decide (ga_status found = AttemptStatus.Running)))
    (Message "cannot append verifier evidence to a running attempt") ;;
  let evidence := ga_evidence found ++ (evidence_bounded MAX_ATTEMPT_FIELD_BYTES <$> additional) in
  ensure (evidence_json_len evidence <=? MAX_ATTEMPT_FIELD_BYTES)
    (Message "combined attempt evidence exceeds persistence limit") ;;
  mret evidence.

Definition append_attempt_evidence (attempt_id : AttemptId) (additional : list AttemptEvidence) : Store GoalAttempt :=
  evidence ← evidence_plan attempt_id additional;
  write_evidence attempt_id evidence ;;
  stored_attempt attempt_id "attempt disappeared after appending verification evidence".

(** ** Evaluation feedback (store.rs) *)

Record EvaluationReceiptRef := {
  er_receipt_id : Uuid;
  er_subject_kind : string;
  er_subject_id : text;
  er_decision : EvaluationDecision.t;
  er_failed_gates : list text;
}.

(** [str::parse::<i64>()] *)
Definition parse_i64 (t : text) : option Z :=
  match t with
  | 45 :: digits =>
      match digits with
      | [] => None
      | _ => n ← digits_value 0 digits; if n <=? 9223372036854775808 then Some (- Z.of_N n)%Z else None
      end
  | _ => n ← parse_u64 t; if n <=? i64_max then Some (Z.of_N n) else None
  end.

Definition replans (decision : EvaluationDecision.t) : bool :=
  match decision with
  | EvaluationDecision.ObservedFail | EvaluationDecision.Rejected | EvaluationDecision.Indeterminate => true
  | _ => false
  end.

(** [INSERT OR IGNORE]: whether it inserted *)
Definition insert_feedback (row : GoalEvaluationFeedback) : Store bool :=
  statement ;;
  d ← get_state;
  if decide (gd_feedback d !! gf_receipt_id row = None) then
    constraint Sql (bool_decide (is_Some (gd_objectives d !! gf_goal_id row))
                    && bool_decide (is_Some (gd_attempts d !! gf_attempt_id row))) "FOREIGN KEY" ;;
    modify (with_feedback (<[gf_receipt_id row := row]>)) ;;
    mret true
  else mret false.

Definition record_evaluation_feedback (receipt : EvaluationReceiptRef) : Store (option GoalEvaluationFeedback) :=
  ensure (bool_decide (er_subject_kind receipt = "goal_attempt")) (Message "evaluation subject is not a Goal attempt") ;;
  subject ← ok_or (split_once 58 (er_subject_id receipt)) (Message "invalid Goal attempt evaluation subject");
  goal_id ← ok_or (parse_i64 subject.1) (Message "invalid digit found in string");
  attempt_id ← ok_or (parse_uuid subject.2) (Message "invalid uuid");
  statement ;;
  d ← get_state;
  ensure (match gd_attempts d !! attempt_id with Some a => bool_decide (ga_goal_id a = goal_id) | None => false end)
    (Message "evaluation does not match a durable Goal attempt") ;;
  let feedback := {| gf_receipt_id := er_receipt_id receipt; gf_goal_id := goal_id; gf_attempt_id := attempt_id;
    gf_decision := er_decision receipt; gf_failed_gates := er_failed_gates receipt;
    gf_retry_replan_required := replans (er_decision receipt) |} in
  inserted ← insert_feedback feedback;
  mret (if inserted : bool then Some feedback else None).

End Store.

End GoalStore.
