(* ===== verification/GoalFlow.v ===== *)
(** * Running goals (executive/src/application/goal)

    What drives the store: the frame a runtime is given (frame.rs), the
    coordinator of goals (coordinator.rs), one attempt of a runtime with what
    follows from its outcome (attempt_coordinator.rs), the scheduler (worker.rs)
    and the actions of a user (goal_service.rs).  The coordinator of attempts is
    the one the scheduler uses, without the verification of coding jobs, and the
    coordinator of goals is the one without a storage quota. *)
From stdpp Require Import pretty.
From S2P Require Import Prelude FabricTypes StdModel Fallible Database StdText AuditLog StdFloat ApprovalTypes GoalTypes GoalStore.
Import GoalStore.

#[local] Open Scope N_scope.

Module GoalFrame.

Definition MAX_RECENT_ATTEMPTS : nat := 5.
Definition MAX_EVIDENCE_ITEMS : nat := 8.
Definition MAX_TASK_BYTES : N := 4 * 1024.
Definition MAX_SUMMARY_BYTES : N := 1024.
Definition MAX_EVIDENCE_BYTES : N := 1024.

Record GoalAttemptSummary := {
  sm_sequence : N;
  sm_runtime_id : text;
  sm_role : text;
  sm_status : text;
  sm_summary : text;
}.

Record GoalRemainingBudget := {
  rm_input_tokens : N;
  rm_output_tokens : N;
  rm_cost_usd : option F64;
  rm_attempts : N;
}.

Record GoalFrame := {
  fr_original_intent : text;
  fr_desired_state : list text;
  fr_constraints : list text;
  fr_acceptance_criteria : list text;
  fr_current_task : text;
  fr_recent_attempts : list GoalAttemptSummary;
  fr_remaining_budget : GoalRemainingBudget;
  fr_retry_evidence : list AttemptEvidence;
  fr_memory_projection : list text;
}.

Definition sanitize (value : text) (max_bytes : N) : text :=
  rf_message (failure_bounded max_bytes {| rf_class := FailureClass.ProviderPermanent; rf_message := value;
                                           rf_retryable := false; rf_usage := default_usage; rf_evidence := [] |}).

Definition sanitize_list (values : list text) : list text := (λ value, sanitize value MAX_SUMMARY_BYTES) <$> values.

Definition bound_evidence (e : AttemptEvidence) : AttemptEvidence := {|
  ae_kind := sanitize (ae_kind e) MAX_EVIDENCE_BYTES;
  ae_summary := sanitize (ae_summary e) MAX_EVIDENCE_BYTES;
  ae_content := sanitize (ae_content e) MAX_EVIDENCE_BYTES;
|}.

Definition status_name (status : AttemptStatus.t) : string :=
  match status with
  | AttemptStatus.Running => "running"
  | AttemptStatus.Succeeded => "succeeded"
  | AttemptStatus.Failed => "failed"
  | AttemptStatus.Cancelled => "cancelled"
  end.

Definition summarize_attempt (a : GoalAttempt) : GoalAttemptSummary :=
  let summary := match ga_failure a, ga_output a with
                 | Some failure, _ => rf_message failure
                 | None, Some result => rt_output result
                 | None, None => lit "running"
                 end in
  {| sm_sequence := ga_sequence a; sm_runtime_id := sanitize (ga_runtime_id a) MAX_SUMMARY_BYTES;
     sm_role := lit (role_name (ga_role a)); sm_status := lit (status_name (ga_status a));
     sm_summary := sanitize summary MAX_SUMMARY_BYTES |}.

(** [f64::max] with zero *)
Definition at_least_zero (x : F64) : F64 := if is_nan x || SFltb x f64_zero then f64_zero else x.

Definition remaining_budget (budget : GoalBudget) (attempts : list GoalAttempt) : GoalRemainingBudget :=
  let input_used := foldl wrapping_add 0 (us_input_tokens ∘ ga_usage <$> attempts) in
  let output_used := foldl wrapping_add 0 (us_output_tokens ∘ ga_usage <$> attempts) in
  let cost_used := f64_sum ((λ a, default f64_zero (us_cost_usd (ga_usage a))) <$> attempts) in
  {| rm_input_tokens := gb_max_input_tokens budget - input_used;
     rm_output_tokens := gb_max_output_tokens budget - output_used;
     rm_cost_usd := (λ limit, at_least_zero (f64_sub limit cost_used)) <$> gb_max_cost_usd budget;
     rm_attempts := gb_max_attempts budget - N.of_nat (length attempts) mod (u32_max + 1) |}.

(** By sequence, the latest first, then by identifier. *)
Definition frame_order (a b : GoalAttempt) : Prop :=
  ga_sequence b < ga_sequence a ∨ ga_sequence a = ga_sequence b ∧ ga_id a ≤ ga_id b.
#[global] Instance frame_order_dec : RelDecision frame_order.
Proof. intros a b. unfold frame_order. apply _. Defined.

Definition build (goal : GoalSnapshot) (attempts : list GoalAttempt) (current_task : text) : GoalFrame :=
  let recent := take MAX_RECENT_ATTEMPTS (sort_by frame_order attempts) in
  {| fr_original_intent := sanitize (gs_original_intent (gl_spec goal)) MAX_TASK_BYTES;
     fr_desired_state := sanitize_list (gs_desired_state (gl_spec goal));
     fr_constraints := sanitize_list (gs_constraints (gl_spec goal));
     fr_acceptance_criteria := sanitize_list (gs_acceptance_criteria (gl_spec goal));
     fr_current_task := sanitize current_task MAX_TASK_BYTES;
     fr_recent_attempts := summarize_attempt <$> recent;
     fr_remaining_budget := remaining_budget (gs_budget (gl_spec goal)) attempts;
     fr_retry_evidence := bound_evidence <$> take MAX_EVIDENCE_ITEMS (recent ≫= ga_evidence);
     fr_memory_projection := [] |}.

(** [str::replace] of a character *)
Definition replace_char (c : N) (by_ : string) (t : text) : text := t ≫= (λ d, if d =? c then lit by_ else [d]).

Definition escape (value : text) : text :=
  replace_char 62 "&gt;" (replace_char 60 "&lt;" (replace_char 38 "&amp;" value)).

Definition line (parts : list text) : text := concat parts ++ [newline].

Definition push_scalar (name : string) (value : text) : text :=
  line [lit "<"; lit name; lit ">"; escape value; lit "</"; lit name; lit ">"].

Definition push_list (name : string) (values : list text) : text :=
  line [lit "<"; lit name; lit ">"] ++ (values ≫= (λ value, line [lit "- "; escape value]))
  ++ line [lit "</"; lit name; lit ">"].

Definition number (n : N) : text := lit (pretty n).

(** A quotation mark *)
Definition quote : text := [34].

(** [format_cost] is [format!("{value:.6}")]. *)
Definition render (format_cost : F64 → text) (frame : GoalFrame) : text :=
  line [lit "<goal_frame version="; quote; lit "m3"; quote; lit ">"]
  ++ push_scalar "original_intent" (fr_original_intent frame)
  ++ push_list "desired_state" (fr_desired_state frame)
  ++ push_list "constraints" (fr_constraints frame)
  ++ push_list "acceptance_criteria" (fr_acceptance_criteria frame)
  ++ push_scalar "current_task" (fr_current_task frame)
  ++ line [lit "<recent_attempts>"]
  ++ (fr_recent_attempts frame ≫= (λ a, line [lit "- sequence="; number (sm_sequence a); lit " runtime=";
        escape (sm_runtime_id a); lit " role="; escape (sm_role a); lit " status="; escape (sm_status a);
        lit " summary="; escape (sm_summary a)]))
  ++ line [lit "</recent_attempts>"]
  ++ (let b := fr_remaining_budget frame in
      line [lit "<remaining_budget input_tokens="; quote; number (rm_input_tokens b); quote; lit " output_tokens="; quote;
            number (rm_output_tokens b); quote; lit " cost_usd="; quote;
            match rm_cost_usd b with Some value => format_cost value | None => lit "unbounded" end; quote;
            lit " attempts="; quote; number (rm_attempts b); quote; lit " />"])
  ++ line [lit "<retry_evidence>"]
  ++ (fr_retry_evidence frame ≫= (λ e, line [lit "- kind="; escape (ae_kind e); lit " summary=";
        escape (ae_summary e); lit " content="; escape (ae_content e)]))
  ++ line [lit "</retry_evidence>"]
  ++ line [lit "<memory_projection>"] ++ line [lit "</memory_projection>"]
  ++ lit "</goal_frame>".

End GoalFrame.

(** ** The coordinator of goals *)

Module Coordinator.

Inductive GoalTickOutcome :=
| Noop (state : GoalState.t)
| Transitioned (from to : GoalState.t)
| TurnRequested (goal_id : GoalId) (input : text)
| BudgetBlocked (reason : GoalBudgetError).

Record ExternalEventWaitCondition := {
  wc_account_id : Uuid;
  wc_event_id : option Uuid;
  wc_object_id : option text;
  wc_source_after_ms : option Z;
  wc_source_before_ms : option Z;
}.

(** The fields of an [ExternalEventEnvelope] the coordinator reads *)
Record ExternalEventEnvelope := {
  ee_id : Uuid;
  ee_account_id : Uuid;
  ee_object_id : text;
  ee_source_timestamp_ms : Z;
}.

Definition none_or {A} (o : option A) (f : A → bool) : bool := match o with Some a => f a | None => true end.

Definition matches (c : ExternalEventWaitCondition) (event : ExternalEventEnvelope) : bool :=
  bool_decide (wc_account_id c = ee_account_id event)
  && none_or (wc_event_id c) (λ id, bool_decide (id = ee_id event))
  && none_or (wc_object_id c) (λ id, bool_decide (id = ee_object_id event))
  && none_or (wc_source_after_ms c) (λ after, (after <=? ee_source_timestamp_ms event)%Z)
  && none_or (wc_source_before_ms c) (λ before, (ee_source_timestamp_ms event <=? before)%Z).

(** serde_json on the key of a wait reason *)
Class ConditionCodec := { parse_condition : text → option ExternalEventWaitCondition }.

Section Goals.
Context `{Env} `{Sqlite} `{GoalEnv} `{ConditionCodec}.

Abbreviation Goals := (M Db GoalTransitionError).

Definition action (name : string) : Value := object [("action", String_ (lit name))].

Definition tick (goal_id : GoalId) (now_ms : Z) : Goals GoalTickOutcome :=
  current ← map_err TransitionStorage (get_goal goal_id);
  match current with
  | None => mret (Noop GoalState.Cancelled)
  | Some current =>
      match gl_state current with
      | GoalState.Ready =>
          snapshot ← transition_goal goal_id (gl_version current) GoalState.Running None (action "tick_start");
          mret (Transitioned (gl_state current) (gl_state snapshot))
      | GoalState.Running =>
          reserved ← map_err (λ _ : GoalBudgetError, TransitionStorage (Message "")) (try_ (reserve_goal_budget goal_id
            {| bq_input_tokens := 0; bq_output_tokens := 0; bq_cost_usd := f64_zero; bq_attempts := 1 |} now_ms));
          mret (match reserved with
                | inr _ => TurnRequested goal_id
                    (lit "Goal #" ++ lit (pretty goal_id) ++ lit ": " ++ gs_original_intent (gl_spec current))
                | inl e => BudgetBlocked e
                end)
      | state => mret (Noop state)
      end
  end.

Definition wakes (principal : PrincipalId) (event : ExternalEventEnvelope) (goal : GoalSnapshot) : bool :=
  bool_decide (gl_owner goal = principal) && negb (GoalState.is_terminal (gl_state goal))
  && match gl_wait_reason goal with
     | Some (ExternalEvent key) => match parse_condition key with Some c => matches c event | None => false end
     | _ => false
     end.

Fixpoint wake_each (principal : PrincipalId) (event : ExternalEventEnvelope) (goals : list GoalSnapshot) : Goals (list GoalId) :=
  match goals with
  | [] => mret []
  | goal :: rest =>
      if wakes principal event goal then
        transition_goal (gl_id goal) (gl_version goal) GoalState.Ready None
          (object [("action", String_ (lit "external_event_wake")); ("event_id", String_ (uuid_text (ee_id event)));
                   ("object_id", String_ (ee_object_id event))]) ;;
        woken ← wake_each principal event rest;
        mret (gl_id goal :: woken)
      else wake_each principal event rest
  end.

Definition wake_for_external_event (principal : PrincipalId) (event : ExternalEventEnvelope) : Goals (list GoalId) :=
  goals ← map_err TransitionStorage (list_goals [GoalState.AwaitingHuman; GoalState.Suspended; GoalState.Blocked] 100);
  wake_each principal event goals.

Definition persist_link (goal_id : GoalId) (expected_version new_version : N) (process_id : option ProcessId) : Goals unit :=
  transaction (λ e, TransitionStorage (Sql e)) (
    u64_param (λ e, TransitionStorage (Sql e)) new_version ;;
    changed ← map_err TransitionStorage (update_goal goal_id (Some expected_version)
      (λ at_ row, updated (ob_goal_state row) (ob_wait row) process_id new_version at_ row));
    if changed =? 0 then
      fresh ← map_err TransitionStorage (get_goal goal_id);
      throw (match fresh with Some g => VersionConflict expected_version (gl_version g) | None => NotFound goal_id end)
    else map_err TransitionStorage (insert_event goal_id new_version "process_link"
      (object [("process_id", match process_id with Some p => String_ (uuid_text p) | None => Null end)]))).

Definition set_process_link (goal_id : GoalId) (expected_version : N) (process_id : option ProcessId) : Goals GoalSnapshot :=
  current ← map_err TransitionStorage (get_goal goal_id);
  current ← ok_or current (NotFound goal_id);
  ensure (gl_version current =? expected_version) (VersionConflict expected_version (gl_version current)) ;;
  persist_link goal_id expected_version (gl_version current + 1) process_id ;;
  goal ← map_err TransitionStorage (get_goal goal_id);
  ok_or goal (NotFound goal_id).

(** *** The actions of a user (goal_service.rs) *)

Inductive GoalAction := Pause | Run | CancelGoal.

Inductive GoalServiceError :=
| ServiceNotFound
| InvalidTransition (from : GoalState.t)
| ServiceTransition (error : GoalTransitionError)
| ServiceStore (error : StoreError).

Definition action_target (a : GoalAction) (current : GoalState.t) : option GoalState.t :=
  match a with
  | Pause => Some GoalState.Suspended
  | Run => match current with GoalState.Suspended | GoalState.Blocked => Some GoalState.Ready | _ => None end
  | CancelGoal => if GoalState.is_terminal current then None else Some GoalState.Cancelled
  end.

Definition action_name (a : GoalAction) : string :=
  match a with Pause => "pause" | Run => "run" | CancelGoal => "cancel" end.

Definition act (id : GoalId) (a : GoalAction) (expected_version : option N) : M Db GoalServiceError GoalSnapshot :=
  current ← map_err ServiceStore (get_goal id);
  current ← ok_or current ServiceNotFound;
  next ← ok_or (action_target a (gl_state current)) (InvalidTransition (gl_state current));
  map_err ServiceTransition (transition_goal id (default (gl_version current) expected_version) next None (action (action_name a))).

End Goals.
End Coordinator.

(** ** One attempt (attempt_coordinator.rs) *)

Module Attempts.
Import Coordinator.

Record AttemptRequest := {
  rq_goal_id : GoalId;
  rq_expected_version : N;
  rq_sequence : N;
  rq_runtime_id : RuntimeId;
  rq_escalation_runtime_id : option RuntimeId;
  rq_role : CognitiveRole;
  rq_task : text;
  rq_estimated_usage : AttemptUsage;
}.

Inductive AttemptCoordinationOutcome :=
| Succeeded (attempt : GoalAttempt) (goal : GoalSnapshot)
| Failed (attempt : GoalAttempt) (decision : RetryDecision) (goal : GoalSnapshot).

Inductive AttemptCoordinatorError :=
| CoordGoalNotFound (id : GoalId)
| GoalNotRunning (state : GoalState.t)
| CoordVersionConflict (expected actual : N)
| RuntimeUnavailable (id : RuntimeId)
| Budget (error : GoalBudgetError)
| Persistence (error : StoreError)
| PersistenceAndRevoke (error : StoreError) (revoke : GoalBudgetError)
| Transition (error : GoalTransitionError).

(** The runtimes, as the [n]-th external call answers: whether one is configured,
    whether the attempt is cancelled while it runs, and what it returns; and
    serde_json on the task and the frame. *)
Class AttemptExecutor := {
  is_available : N → RuntimeId → bool;
  is_cancelled : N → bool;
  run_once : N → RuntimeId → text → Outcome;
  is_coding : text → bool;
  parses_as_coding : text → bool;
  frame_value : GoalFrame.GoalFrame → Value;
  format_cost : F64 → text;
}.

Definition cancelled_failure : RuntimeFailure := {|
  rf_class := FailureClass.Cancelled; rf_message := lit "attempt cancelled"; rf_retryable := false;
  rf_usage := default_usage; rf_evidence := [] |}.

Definition usage_for_budget (usage : AttemptUsage) : GoalBudgetUsage := {|
  gu_input_tokens := us_input_tokens usage; gu_output_tokens := us_output_tokens usage;
  gu_cost_usd := default f64_zero (us_cost_usd usage); gu_attempts := 1 |}.

Section Attempts.
Context `{Env} `{Sqlite} `{GoalEnv} `{AttemptExecutor} (policy : RetryPolicy).

Abbreviation Coord := (M Db AttemptCoordinatorError).

Definition transition_after (goal_id : GoalId) (state : GoalState.t) (wait_reason : option GoalWaitReason) (payload : Value)
    : Coord GoalSnapshot :=
  current ← map_err Persistence (get_goal goal_id);
  current ← ok_or current (CoordGoalNotFound goal_id);
  map_err Transition (transition_goal goal_id (gl_version current) state wait_reason payload).

Definition persist_decision (goal_id : GoalId) (attempt_id : AttemptId) (decision : RetryDecision) : Coord GoalSnapshot :=
  let fields (name : string) := [("action", String_ (lit name)); ("attempt_id", String_ (uuid_text attempt_id))] in
  match decision with
  | RetrySame after_ms _ =>
      now_ms ← read_wall;
      let until_ms := i64_saturating_add now_ms (Z.of_N (N.min after_ms i64_max)) in
      transition_after goal_id GoalState.Blocked (Some (Backoff until_ms))
        (object (fields "retry_scheduled" ++ [("until_ms", Number_ until_ms)]))
  | Escalate runtime_id _ =>
      transition_after goal_id GoalState.Blocked (Some (ExternalEvent (lit "runtime:" ++ runtime_id)))
        (object (fields "runtime_escalated" ++ [("runtime_id", String_ runtime_id)]))
  | AwaitHuman reason =>
      transition_after goal_id GoalState.AwaitingHuman (Some (HumanInput reason)) (object (fields "await_human"))
  | Fail_ reason =>
      transition_after goal_id GoalState.Failed None
        (object (fields "attempt_failed_terminal" ++ [("reason", String_ reason)]))
  | Cancel => transition_after goal_id GoalState.Cancelled None (object (fields "attempt_cancelled"))
  end.

Definition usize_max : N := u64_max.

Definition failure_outcome (request : AttemptRequest) (attempt : GoalAttempt) (failure : RuntimeFailure)
    : Coord AttemptCoordinationOutcome :=
  attempts ← map_err Persistence (attempts_for_goal (rq_goal_id request) usize_max);
  let attempt_count := N.of_nat (length (filter (λ a, ga_role a = rq_role request) attempts)) mod (u32_max + 1) in
  let decision := decide_retry policy (rq_role request) attempt_count failure (rq_escalation_runtime_id request) in
  goal ← persist_decision (rq_goal_id request) (ga_id attempt) decision;
  mret (Failed attempt decision goal).

Definition finish_non_coding_attempt (request : AttemptRequest) (outcome : Outcome) (terminal_attempt : GoalAttempt)
    : Coord AttemptCoordinationOutcome :=
  match outcome with
  | inr _ =>
      goal ← transition_after (rq_goal_id request) GoalState.Completed None
        (object [("action", String_ (lit "attempt_succeeded")); ("attempt_id", String_ (uuid_text (ga_id terminal_attempt)))]);
      mret (Succeeded terminal_attempt goal)
  | inl failure => failure_outcome request terminal_attempt failure
  end.

(** The input of an attempt that is recorded with it *)
Definition attempt_input (request : AttemptRequest) (frame : GoalFrame.GoalFrame) (reservation_id : text) : Value :=
  object [("task", String_ (rq_task request)); ("goal_version", Number_ (Z.of_N (rq_expected_version request)));
          ("goal_frame", frame_value frame); ("runtime_request", Null); ("budget_reservation_id", String_ reservation_id)].

Definition field (name : string) (value : Value) : option Value :=
  match value with
  | Object fields => snd <$> find (λ f, bool_decide (f.1 = lit name)) fields
  | _ => None
  end.

Definition input_reservation (input : Value) : option text :=
  match field "budget_reservation_id" input with Some (String_ t) => Some t | _ => None end.

Definition persisted_outcome (attempt : GoalAttempt) : Coord Outcome :=
  match ga_status attempt with
  | AttemptStatus.Succeeded =>
      result ← ok_or (ga_output attempt) (Persistence (Message "successful attempt has no persisted runtime output"));
      mret (inr result)
  | AttemptStatus.Failed | AttemptStatus.Cancelled =>
      failure ← ok_or (ga_failure attempt) (Persistence (Message "failed attempt has no persisted runtime failure"));
      mret (inl failure)
  | AttemptStatus.Running => panic
  end.

Definition recover_settlement (request : AttemptRequest) (attempt : GoalAttempt) : Coord AttemptCoordinationOutcome :=
  ensure (bool_decide (ga_runtime_id attempt = rq_runtime_id request) && bool_decide (ga_role attempt = rq_role request))
    (Persistence (Message "attempt sequence retry conflicts with persisted runtime identity")) ;;
  ensure (negb (bool_decide (ga_status attempt = AttemptStatus.Running)))
    (Persistence (Message "attempt sequence is already running")) ;;
  reservation_id ← ok_or (input_reservation (ga_input attempt))
    (Persistence (Message "terminal attempt has no budget reservation identity"));
  map_err Budget (settle_goal_budget reservation_id (usage_for_budget (ga_usage attempt))) ;;
  outcome ← persisted_outcome attempt;
  finish_non_coding_attempt request outcome attempt.

(** The goal is there, running and at the version the request expects. *)
Definition running_goal (request : AttemptRequest) : Coord GoalSnapshot :=
  goal ← map_err Persistence (get_goal (rq_goal_id request));
  goal ← ok_or goal (CoordGoalNotFound (rq_goal_id request));
  ensure (bool_decide (gl_state goal = GoalState.Running)) (GoalNotRunning (gl_state goal)) ;;
  ensure (gl_version goal =? rq_expected_version request)
    (CoordVersionConflict (rq_expected_version request) (gl_version goal)) ;;
  mret goal.

(** The answer to a failure of [m]: the reservation is taken back. *)
Definition or_revoke {A} (reservation_id : text) (m : M Db StoreError A) : Coord A :=
  tried ← map_err Persistence (try_ m);
  match tried with
  | inr a => mret a
  | inl error =>
      revoked ← map_err Budget (try_ (revoke_goal_budget reservation_id));
      throw (match revoked with inl e => PersistenceAndRevoke error e | inr _ => Persistence error end)
  end.

(** What happens under the lock before the runtime is called *)
Definition begin_one (request : AttemptRequest) : Coord (text * GoalAttempt * text) :=
  goal ← running_goal request;
  previous ← map_err Persistence (attempts_for_goal (rq_goal_id request) usize_max);
  let frame := GoalFrame.build goal previous (rq_task request) in
  now_ms ← read_wall;
  reservation ← map_err Budget (reserve_goal_budget (rq_goal_id request)
    {| bq_input_tokens := us_input_tokens (rq_estimated_usage request);
       bq_output_tokens := us_output_tokens (rq_estimated_usage request);
       bq_cost_usd := default f64_zero (us_cost_usd (rq_estimated_usage request)); bq_attempts := 1 |} now_ms);
  let reservation_id := bv_reservation_id reservation in
  attempt ← or_revoke reservation_id (begin_attempt (rq_goal_id request) (rq_sequence request) (rq_runtime_id request)
    (rq_role request) (attempt_input request frame reservation_id));
  mret (reservation_id, attempt, GoalFrame.render format_cost frame).

(** [select!] of the runtime and the cancellation *)
Definition invoke (runtime_id : RuntimeId) (task : text) : Coord Outcome :=
  n ← Prelude.tick;
  modify (with_invocations (λ calls, calls ++ [(runtime_id, task)])) ;;
  mret (if is_cancelled n then inl cancelled_failure else run_once n runtime_id task).

(** What happens under the lock after it *)
Definition end_one (reservation_id : text) (attempt_id : AttemptId) (outcome : Outcome) : Coord GoalAttempt :=
  attempt ← or_revoke reservation_id
    (match outcome with
     | inl failure =>
         if decide (rf_class failure = FailureClass.Cancelled) then cancel_attempt attempt_id failure
         else finish_attempt attempt_id outcome
     | inr _ => finish_attempt attempt_id outcome
     end);
  map_err Budget (settle_goal_budget reservation_id (usage_for_budget (ga_usage attempt))) ;;
  mret attempt.

(** A coordinator without a coding verification lifecycle, which refuses coding
    tasks; the branch of one that has it is not modelled. *)
Definition execute_one (request : AttemptRequest) : Coord AttemptCoordinationOutcome :=
  ensure (negb (is_coding (rq_task request)) || parses_as_coding (rq_task request))
    (Persistence (Message "invalid coding attempt request")) ;;
  ensure (negb (is_coding (rq_task request)))
    (Persistence (Message "coding verification lifecycle is not configured")) ;;
  running_goal request ;;
  attempts ← map_err Persistence (attempts_for_goal (rq_goal_id request) usize_max);
  match find (λ a, ga_sequence a =? rq_sequence request) attempts with
  | Some attempt => recover_settlement request attempt
  | None =>
      n ← Prelude.tick;
      ensure (is_available n (rq_runtime_id request)) (RuntimeUnavailable (rq_runtime_id request)) ;;
      begun ← begin_one request;
      let '(reservation_id, attempt, task) := begun in
      outcome ← invoke (rq_runtime_id request) task;
      terminal ← end_one reservation_id (ga_id attempt) outcome;
      finish_non_coding_attempt request outcome terminal
  end.

End Attempts.
End Attempts.

(** ** The scheduler (worker.rs) *)

Module GoalWorker.
Import Coordinator Attempts.

Inductive WorkerError :=
| WorkerStore (error : StoreError)
| WorkerTransition (error : GoalTransitionError)
| WorkerAttempt (error : AttemptCoordinatorError).

Inductive GoalProgressKind := ProgressSucceeded | RetryBackoff | Escalated | AwaitingHuman | ProgressFailed | ProgressCancelled.

Record GoalProgress := {
  gp_goal_id : GoalId;
  gp_attempt_id : AttemptId;
  gp_kind : GoalProgressKind;
}.

Definition goal_progress_from_outcome (outcome : AttemptCoordinationOutcome) : GoalProgress :=
  match outcome with
  | Succeeded a _ => {| gp_goal_id := ga_goal_id a; gp_attempt_id := ga_id a; gp_kind := ProgressSucceeded |}
  | Failed a decision _ =>
      {| gp_goal_id := ga_goal_id a; gp_attempt_id := ga_id a;
         gp_kind := match decision with
                    | RetrySame _ _ => RetryBackoff
                    | Escalate _ _ => Escalated
                    | AwaitHuman _ => AwaitingHuman
                    | Fail_ _ => ProgressFailed
                    | Cancel => ProgressCancelled
                    end |}
  end.

Section Worker.
Context `{Env} `{Sqlite} `{GoalEnv} `{AttemptExecutor}.
Context (worker_runtime reviewer_runtime : RuntimeId).

Abbreviation Work := (M Db WorkerError).

Definition runtime_prefix : text := lit "runtime:".

(** Whether the goal is due. *)
Definition is_due (now_ms : Z) (goal : GoalSnapshot) : bool :=
  match gl_wait_reason goal with
  | Some (Backoff until_ms) => (until_ms <=? now_ms)%Z
  | Some (ExternalEvent key) => starts_with key runtime_prefix
  | Some (HumanInput _) => false
  | None => negb (bool_decide (gl_state goal = GoalState.Blocked))
  end.

Definition latest_route (goal_id : GoalId) : Work (option (RuntimeId * CognitiveRole)) :=
  attempts ← map_err WorkerStore (attempts_for_goal goal_id 1);
  mret ((λ a, (ga_runtime_id a, ga_role a)) <$> head attempts).

(** The route of a blocked goal that is due; [None] when it is not after all. *)
Definition wake_route (goal : GoalSnapshot) : Work (option (option (RuntimeId * CognitiveRole))) :=
  match gl_wait_reason goal with
  | Some (Backoff until_ms) =>
      now_ms ← read_wall;
      if (until_ms <=? now_ms)%Z then route ← latest_route (gl_id goal); mret (Some route) else mret None
  | Some (ExternalEvent key) => mret (Some ((λ id, (id, Reviewer)) <$> strip_prefix key runtime_prefix))
  | _ => mret None
  end.

Definition wake_blocked (goal : GoalSnapshot) : Work GoalSnapshot :=
  woken ← map_err WorkerTransition (transition_goal (gl_id goal) (gl_version goal) GoalState.Ready None (action "scheduler_wake"));
  now_ms ← read_wall;
  map_err WorkerTransition (Coordinator.tick (gl_id woken) now_ms) ;;
  fresh ← map_err WorkerStore (get_goal (gl_id woken));
  ok_or fresh (WorkerStore (Message "goal disappeared after scheduler wake")).

(** The attempt of a running goal *)
Definition work_on (goal : GoalSnapshot) (selected : option (RuntimeId * CognitiveRole)) : Work (option GoalProgress) :=
  latest ← latest_route (gl_id goal);
  let '(runtime_id, role) := default (default (worker_runtime, Worker) latest) selected in
  attempts ← map_err WorkerStore (attempts_for_goal (gl_id goal) 1);
  let sequence := match head attempts with Some a => N.min (ga_sequence a + 1) u32_max | None => 1 end in
  outcome ← map_err WorkerAttempt (execute_one default_policy
    {| rq_goal_id := gl_id goal; rq_expected_version := gl_version goal; rq_sequence := sequence;
       rq_runtime_id := runtime_id;
       rq_escalation_runtime_id := if decide (role = Worker) then Some reviewer_runtime else None;
       rq_role := role; rq_task := gs_original_intent (gl_spec goal); rq_estimated_usage := default_usage |});
  mret (Some (goal_progress_from_outcome outcome)).

(** One turn: whether there was something to do, and what is reported. *)
Definition tick_once : Work (bool * option GoalProgress) :=
  now_ms ← read_wall;
  goals ← map_err WorkerStore (list_goals [GoalState.Running; GoalState.Blocked; GoalState.Ready] 100);
  match find (is_due now_ms) goals with
  | None => mret (false, None)
  | Some goal =>
      match gl_state goal with
      | GoalState.Ready =>
          now_ms ← read_wall;
          map_err WorkerTransition (Coordinator.tick (gl_id goal) now_ms) ;;
          mret (true, None)
      | GoalState.Blocked =>
          route ← wake_route goal;
          match route with
          | None => mret (false, None)
          | Some selected =>
              goal ← wake_blocked goal;
              progress ← work_on goal selected;
              mret (true, progress)
          end
      | GoalState.Running => progress ← work_on goal None; mret (true, progress)
      | _ => mret (false, None)
      end
  end.

End Worker.
End GoalWorker.
