(* ===== verification/GoalSpec.v ===== *)
(** * What holds of goals over every run

    The writes of the store by their effect on the tables; the events of a goal
    as its history; the runs of several connections; and the theorems on
    lifecycles, attempts and the budget. *)
From S2P Require Import Prelude FabricTypes StdModel Fallible Database StdText AuditLog StdFloat ApprovalTypes GoalTypes GoalStore GoalFlow.
From Stdlib Require Import Relations.
Import GoalStore.

#[local] Open Scope N_scope.

(** ** Events and states *)

Definition events_of (id : GoalId) (d : Db) : list EventRow := filter (λ e, ge_objective_id e = id) (gd_events d).

(** What an event says of the state of its goal. *)
Inductive Move := Stay | Recover | To (s : GoalState.t).

Definition event_move (event_type : string) : Move :=
  if decide (event_type = "recovered") then Recover
  else if decide (event_type = "draft") then To GoalState.Draft
  else if decide (event_type = "ready") then To GoalState.Ready
  else if decide (event_type = "running") then To GoalState.Running
  else if decide (event_type = "blocked") then To GoalState.Blocked
  else if decide (event_type = "awaitinghuman") then To GoalState.AwaitingHuman
  else if decide (event_type = "suspended") then To GoalState.Suspended
  else if decide (event_type = "completed") then To GoalState.Completed
  else if decide (event_type = "failed") then To GoalState.Failed
  else if decide (event_type = "cancelled") then To GoalState.Cancelled
  else Stay.

(** One event: a transition of the table, or the recovery of a running goal. *)
Definition follow (s : GoalState.t) (m : Move) : option GoalState.t :=
  match m with
  | Stay => Some s
  | Recover => if decide (s = GoalState.Running) then Some GoalState.Ready else None
  | To s' => if GoalState.can_transition_to s s' then Some s' else None
  end.

(** The state after a history, if every event of it is legal. *)
Fixpoint replay (s : GoalState.t) (types : list string) : option GoalState.t :=
  match types with
  | [] => Some s
  | t :: types => s' ← follow s (event_move t); replay s' types
  end.

Lemma debug_lowercase_move s : event_move (GoalState.debug_lowercase s) = To s.
Proof. by destruct s. Qed.

Lemma history_app s types types' : replay s (types ++ types') = s' ← replay s types; replay s' types'.
Proof.
  revert s. induction types as [|t types IH]; intros s; cbn; [done|]. destruct (follow s (event_move t)); cbn; [apply IH|done].
Qed.

(** A terminal state is the end of it. *)
Lemma follow_terminal s m s' : GoalState.is_terminal s = true → follow s m = Some s' → s' = s.
Proof.
  intros Hs. destruct m as [| |s1]; cbn; [by intros [= <-]|by destruct s|]. by rewrite GoalState.terminal_has_no_next.
Qed.

(** Consecutive numbers *)
Fixpoint counts_up (from : N) (vs : list N) (next : N) : Prop :=
  match vs with
  | [] => from = next
  | v :: vs => v = from ∧ counts_up (from + 1) vs next
  end.

Lemma counts_up_snoc from vs next : counts_up from vs next → counts_up from (vs ++ [next]) (next + 1).
Proof. revert from. induction vs as [|v vs IH]; intros from; cbn; [by intros ->|]. intros [-> ?]. auto. Qed.

Lemma counts_up_elem from vs next v : counts_up from vs next → v ∈ vs ↔ from ≤ v < next.
Proof.
  revert from. induction vs as [|x vs IH]; intros from; cbn.
  - intros ->. rewrite elem_of_nil. lia.
  - intros [-> Hc]. rewrite elem_of_cons, (IH _ Hc). assert (from + 1 ≤ next) as Hle.
    { clear IH v. revert from Hc. induction vs as [|y vs IH]; intros from; cbn; [lia|]. intros [_ Hc]. apply IH in Hc. lia. }
    lia.
Qed.

(** ** The effect of a write *)

(** A new version of a goal with its event *)
Definition bumped (id : GoalId) (row : ObjectiveRow) (event : EventRow) (d : Db) : Db :=
  with_events (λ es, es ++ [event]) (with_objectives (<[id := row]>) d).

Definition same_goal (row row' : ObjectiveRow) : Prop :=
  ob_owner_id row' = ob_owner_id row ∧ ob_spec row' = ob_spec row ∧ ob_description row' = ob_description row
  ∧ ob_parent_id row' = ob_parent_id row ∧ ob_session_id row' = ob_session_id row ∧ ob_scope row' = ob_scope row
  ∧ ob_created_at row' = ob_created_at row.

#[global] Instance same_goal_pre : PreOrder same_goal.
Proof. split; [by intros row|]. intros a b c. unfold same_goal. intuition congruence. Qed.

(** The goal gets its next version: its state follows the type of the event. *)
Definition bump (id : GoalId) (d d' : Db) : Prop :=
  ∃ row row' event,
    gd_objectives d !! id = Some row ∧ d' = bumped id row' event d
    ∧ same_goal row row' ∧ ob_version row' = ob_version row + 1
    ∧ ge_objective_id event = id ∧ ge_version event = ob_version row + 1
    ∧ follow (state_of row) (event_move (ge_event_type event)) = Some (state_of row').

(** What is never changed of an attempt *)
Definition same_attempt (a a' : GoalAttempt) : Prop :=
  ga_id a' = ga_id a ∧ ga_goal_id a' = ga_goal_id a ∧ ga_sequence a' = ga_sequence a
  ∧ ga_runtime_id a' = ga_runtime_id a ∧ ga_role a' = ga_role a ∧ ga_input a' = ga_input a
  ∧ ga_started_at a' = ga_started_at a.

(** An attempt has the outcome its status says. *)
Definition attempt_ok (a : GoalAttempt) : Prop :=
  match ga_status a with
  | AttemptStatus.Running => ga_output a = None ∧ ga_failure a = None
  | AttemptStatus.Succeeded => is_Some (ga_output a) ∧ ga_failure a = None
  | AttemptStatus.Failed | AttemptStatus.Cancelled => ga_output a = None ∧ is_Some (ga_failure a)
  end.

(** What is not changed once an attempt has ended: all but further evidence *)
Definition same_outcome (a a' : GoalAttempt) : Prop :=
  ga_status a' = ga_status a ∧ ga_output a' = ga_output a ∧ ga_failure a' = ga_failure a ∧ ga_usage a' = ga_usage a
  ∧ ga_ended_at a' = ga_ended_at a.

Definition attempt_evolves (a a' : GoalAttempt) : Prop :=
  same_attempt a a' ∧ (ga_status a ≠ AttemptStatus.Running → same_outcome a a').

#[global] Instance attempt_evolves_pre : PreOrder attempt_evolves.
Proof.
  split; [by intros a|]. intros a b c [H1 H2] [H3 H4]. split; [unfold same_attempt in *; intuition congruence|].
  intros Ha. specialize (H2 Ha). destruct H2 as (Hs & ? & ? & ? & ?). rewrite <-Hs in Ha.
  specialize (H4 Ha). unfold same_outcome in *. intuition congruence.
Qed.

Inductive effect : Db → Db → Prop :=
| effect_none d : effect d d
| effect_new d id row events :
    id = (gd_last_id d + 1)%Z → (events = [] ∨ ∃ e, events = [e] ∧ ge_objective_id e = id ∧ ge_version e = 0
                                                ∧ event_move (ge_event_type e) = Stay) →
    ob_version row = 0 → state_of row ∈ [GoalState.Ready; GoalState.Draft] →
    effect d (with_events (λ es, es ++ events) (with_objectives (<[id := row]>) (with_last_id id d)))
| effect_status d id row row' :
    gd_objectives d !! id = Some row → same_goal row row' → ob_version row' = ob_version row →
    ob_goal_state row' = ob_goal_state row →
    effect d (with_objectives (<[id := row']>) d)
| effect_bump d d' id : bump id d d' → effect d d'
| effect_begin d d' a :
    gd_attempts d !! ga_id a = None → sequence_taken (ga_goal_id a) (ga_sequence a) d = false →
    ga_status a = AttemptStatus.Running → attempt_ok a →
    bump (ga_goal_id a) (with_attempts (<[ga_id a := a]>) d) d' →
    effect d d'
| effect_end d d' k a a' :
    gd_attempts d !! k = Some a → ga_status a = AttemptStatus.Running → same_attempt a a' →
    ga_status a' ≠ AttemptStatus.Running → attempt_ok a' →
    bump (ga_goal_id a) (with_attempts (<[k := a']>) d) d' →
    effect d d'
| effect_evidence d k f :
    (∀ a, same_attempt a (f a) ∧ same_outcome a (f a)) → effect d (with_attempts (alter f k) d)
| effect_other d d' :
    gd_objectives d' = gd_objectives d → gd_last_id d' = gd_last_id d → gd_events d' = gd_events d →
    gd_attempts d' = gd_attempts d → gd_ledger d' = gd_ledger d → effect d d'.

(** ** The invariant and the order of states *)

(** The events of a goal are numbered up to its version, without a gap, and
    followed from its first state they give its present one. *)
Definition goal_ok (d : Db) (id : GoalId) (row : ObjectiveRow) : Prop :=
  ∃ first init, first ≤ 1 ∧ counts_up first (ge_version <$> events_of id d) (ob_version row + 1)
    ∧ init ∈ [GoalState.Ready; GoalState.Draft]
    ∧ replay init (ge_event_type <$> events_of id d) = Some (state_of row).

Record inv (d : Db) : Prop := {
  inv_goal id row : gd_objectives d !! id = Some row → (id ≤ gd_last_id d)%Z ∧ goal_ok d id row;
  inv_event e : e ∈ gd_events d → is_Some (gd_objectives d !! ge_objective_id e);
  inv_attempt k a : gd_attempts d !! k = Some a →
    ga_id a = k ∧ attempt_ok a ∧ is_Some (gd_objectives d !! ga_goal_id a);
  inv_sequence k k' a a' : gd_attempts d !! k = Some a → gd_attempts d !! k' = Some a' →
    ga_goal_id a = ga_goal_id a' → ga_sequence a = ga_sequence a' → k = k';
}.

Record evolves (d d' : Db) : Prop := {
  ev_goal id row : gd_objectives d !! id = Some row → ∃ row', gd_objectives d' !! id = Some row' ∧ same_goal row row'
    ∧ ob_version row ≤ ob_version row' ∧ (ob_version row' = ob_version row → ob_goal_state row' = ob_goal_state row)
    ∧ (GoalState.is_terminal (state_of row) = true → state_of row' = state_of row);
  ev_events : gd_events d `prefix_of` gd_events d';
  ev_attempt k a : gd_attempts d !! k = Some a → ∃ a', gd_attempts d' !! k = Some a' ∧ attempt_evolves a a';
}.

#[global] Instance evolves_pre : PreOrder evolves.
Proof.
  split.
  - intros d. split; [|done|]; [intros id row Hr; exists row|intros k a Ha; exists a]; done.
  - intros d1 d2 d3 [H1 H2 H3] [H4 H5 H6]. split; [| |].
    + intros id row Hr. destruct (H1 _ _ Hr) as (r2 & Hr2 & Hs2 & Hv2 & He2 & Ht2).
      destruct (H4 _ _ Hr2) as (r3 & Hr3 & Hs3 & Hv3 & He3 & Ht3). exists r3. split_and!; [done|by trans r2|lia| |].
      * intros He. rewrite He3, He2; [done|lia|lia].
      * intros Ht. specialize (Ht2 Ht). rewrite <-Ht2 in *. auto.
    + by trans (gd_events d2).
    + intros k a Ha. destruct (H3 _ _ Ha) as (a2 & Ha2 & He2). destruct (H6 _ _ Ha2) as (a3 & Ha3 & He3).
      exists a3. split; [done|by trans a2].
Qed.

Lemma events_of_snoc id d events :
  events_of id (with_events (λ es, es ++ events) d) = events_of id d ++ filter (λ e, ge_objective_id e = id) events.
Proof. apply filter_app. Qed.

Lemma no_events id d : inv d → gd_objectives d !! id = None → events_of id d = [].
Proof.
  intros Hinv Hn. apply elem_of_nil_inv. intros e [He Hin]%list_elem_of_filter.
  apply (inv_event _ Hinv) in Hin as [row Hr]. congruence.
Qed.

Lemma fresh_id d : inv d → gd_objectives d !! (gd_last_id d + 1)%Z = None.
Proof.
  intros Hinv. destruct (gd_objectives d !! (gd_last_id d + 1)%Z) as [row|] eqn:Hr; [|done].
  apply (inv_goal _ Hinv) in Hr as [? _]. lia.
Qed.

Lemma events_of_bumped i id row event d :
  events_of i (bumped id row event d) = events_of i d ++ (if decide (ge_objective_id event = i) then [event] else []).
Proof. unfold bumped. rewrite events_of_snoc, filter_cons, filter_nil. done. Qed.

(** *** A new version of a goal *)

Lemma bump_inv id d d' : inv d → bump id d d' → inv d'.
Proof.
  intros Hinv (row & row' & event & Hr & -> & Hs & Hv & Hid & Hev & Hf).
  assert (∀ i, is_Some (gd_objectives d !! i) → is_Some (<[id := row']> (gd_objectives d) !! i)) as Hsome.
  { intros i Hi. apply lookup_insert_is_Some. destruct (decide (id = i)); auto. }
  split; cbn.
  - intros i r Hi. apply lookup_insert_Some in Hi as [[<- <-]|[Hne Hi]].
    + destruct (inv_goal _ Hinv _ _ Hr) as [Hle (first & init & Hfirst & Hc & Hinit & Hrep)]. split; [done|].
      exists first, init. rewrite events_of_bumped, decide_True, !fmap_app by done. split_and!; [done| |done|].
      * cbn. rewrite Hev, Hv. by apply counts_up_snoc.
      * rewrite history_app, Hrep. cbn. by rewrite Hf.
    + destruct (inv_goal _ Hinv _ _ Hi) as [Hle (first & init & Hfirst & Hc & Hinit & Hrep)]. split; [done|].
      exists first, init. by rewrite events_of_bumped, decide_False, app_nil_r by congruence.
  - intros e [He|He]%elem_of_app; [by apply Hsome, (inv_event _ Hinv)|].
    apply list_elem_of_singleton in He as ->. apply Hsome. rewrite Hid. by eexists.
  - intros k a Ha. destruct (inv_attempt _ Hinv _ _ Ha) as (? & ? & ?). auto.
  - apply (inv_sequence _ Hinv).
Qed.

Lemma bump_evolves id d d' : bump id d d' → evolves d d'.
Proof.
  intros (row & row' & event & Hr & -> & Hs & Hv & Hid & Hev & Hf). split; cbn.
  - intros i r Hi. destruct (decide (id = i)) as [<-|Hne].
    + exists row'. rewrite lookup_insert_eq. replace r with row by congruence.
      split_and!; [done|done|lia|lia|]. intros Ht. apply (follow_terminal _ _ _ Ht) in Hf. congruence.
    + exists r. by rewrite lookup_insert_ne.
  - by eexists.
  - intros k a Ha. by exists a.
Qed.

Lemma sequence_free goal_id sequence d k a :
  sequence_taken goal_id sequence d = false → gd_attempts d !! k = Some a → ga_goal_id a = goal_id →
  ga_sequence a ≠ sequence.
Proof.
  unfold sequence_taken. intros Hf Ha Hg Hs. apply not_true_iff_false in Hf. apply Hf, existsb_exists.
  exists a. split; [|by rewrite Hg, Hs, bool_decide_true, N.eqb_refl].
  apply list_elem_of_In, list_elem_of_fmap. exists (k, a). split; [done|]. by apply elem_of_map_to_list.
Qed.

(** *** Attempts *)

Lemma begin_inv d a :
  inv d → gd_attempts d !! ga_id a = None → sequence_taken (ga_goal_id a) (ga_sequence a) d = false → attempt_ok a →
  is_Some (gd_objectives d !! ga_goal_id a) → inv (with_attempts (<[ga_id a := a]>) d).
Proof.
  intros Hinv Hfresh Hseq Hok Hgoal. split; cbn; [apply Hinv|apply Hinv| |].
  - intros k b Hb. apply lookup_insert_Some in Hb as [[<- <-]|[_ Hb]]; [done|by apply Hinv].
  - intros k k' b b' Hb Hb' Hg Hs.
    apply lookup_insert_Some in Hb as [[<- <-]|[Hk Hb]], Hb' as [[<- <-]|[Hk' Hb']]; [done| | |].
    + by edestruct (sequence_free _ _ _ _ _ Hseq Hb').
    + by edestruct (sequence_free _ _ _ _ _ Hseq Hb).
    + by eapply (inv_sequence _ Hinv).
Qed.

Lemma update_attempt_inv d k a a' :
  inv d → gd_attempts d !! k = Some a → same_attempt a a' → attempt_ok a' → inv (with_attempts (<[k := a']>) d).
Proof.
  intros Hinv Ha (Hid & Hg & Hs & _) Hok. destruct (inv_attempt _ Hinv _ _ Ha) as (? & _ & ?).
  split; cbn; [apply Hinv|apply Hinv| |].
  - intros i b Hb. apply lookup_insert_Some in Hb as [[<- <-]|[_ Hb]]; [|by apply Hinv].
    split_and!; [congruence|done|by rewrite Hg].
  - intros i i' b b' Hb Hb' Hgb Hsb.
    apply lookup_insert_Some in Hb as [[<- <-]|[Hk Hb]], Hb' as [[<- <-]|[Hk' Hb']]; [done| | |].
    + eapply (inv_sequence _ Hinv); [done|done|congruence|congruence].
    + eapply (inv_sequence _ Hinv); [done|done|congruence|congruence].
    + by eapply (inv_sequence _ Hinv).
Qed.

Lemma bump_goal id d d' : bump id d d' → is_Some (gd_objectives d !! id).
Proof. intros (row & _ & _ & Hr & _). by eexists. Qed.

(** *** The other effects *)

Lemma goal_new_inv d row events :
  let id := (gd_last_id d + 1)%Z in
  (events = [] ∨ ∃ e, events = [e] ∧ ge_objective_id e = id ∧ ge_version e = 0 ∧ event_move (ge_event_type e) = Stay) →
  ob_version row = 0 → state_of row ∈ [GoalState.Ready; GoalState.Draft] → inv d →
  inv (with_events (λ es, es ++ events) (with_objectives (<[id := row]>) (with_last_id id d))).
Proof.
  intros id Hev Hv Hst Hinv. pose proof (fresh_id _ Hinv) as Hfresh. fold id in Hfresh. split; cbn.
  - intros i r Hi. unfold goal_ok. rewrite events_of_snoc. change (events_of i (with_objectives _ _)) with (events_of i d).
    apply lookup_insert_Some in Hi as [[<- <-]|[Hne Hi]].
    + split; [lia|]. rewrite (no_events _ _ Hinv Hfresh), Hv. destruct Hev as [->|(e & -> & Hid & Hve & Hm)].
      { exists 1, (state_of row). by split_and!. }
      exists 0, (state_of row). rewrite filter_cons_True, filter_nil by done. cbn. by rewrite Hm.
    + destruct (inv_goal _ Hinv _ _ Hi) as [Hle (first & init & ? & ? & ? & ?)]. split; [lia|].
      exists first, init. replace (filter _ events) with (@nil EventRow); [by rewrite app_nil_r|].
      destruct Hev as [->|(e & -> & Hid & _)]; [done|]. by rewrite filter_cons_False, filter_nil by congruence.
  - intros e [He|He]%elem_of_app; apply lookup_insert_is_Some'; [right; by apply Hinv|left].
    destruct Hev as [->|(e' & -> & Hid & _)]; [by apply elem_of_nil in He|]. by apply list_elem_of_singleton in He as ->.
  - intros k a Ha. destruct (inv_attempt _ Hinv _ _ Ha) as (? & ? & ?). split_and!; [done..|].
    apply lookup_insert_is_Some'. by right.
  - apply Hinv.
Qed.

Lemma goal_status_inv d id row row' :
  gd_objectives d !! id = Some row → ob_version row' = ob_version row → ob_goal_state row' = ob_goal_state row → inv d →
  inv (with_objectives (<[id := row']>) d).
Proof.
  intros Hr Hv Hst Hinv. split; cbn.
  - intros i r Hi. apply lookup_insert_Some in Hi as [[<- <-]|[_ Hi]]; [|by apply (inv_goal _ Hinv)].
    destruct (inv_goal _ Hinv _ _ Hr) as [Hle Hok]. split; [done|]. unfold goal_ok, state_of in *. by rewrite Hv, Hst.
  - intros e He. apply lookup_insert_is_Some'. right. by apply Hinv.
  - intros k a Ha. destruct (inv_attempt _ Hinv _ _ Ha) as (? & ? & ?). split_and!; [done..|].
    apply lookup_insert_is_Some'. by right.
  - apply Hinv.
Qed.

Lemma alter_insert_attempt d k f :
  with_attempts (alter f k) d = match gd_attempts d !! k with Some a => with_attempts (<[k := f a]>) d | None => d end.
Proof.
  destruct (gd_attempts d !! k) as [a|] eqn:Ha; unfold with_attempts.
  - f_equal. apply map_eq. intros i. destruct (decide (k = i)) as [<-|Hne];
      [by rewrite lookup_alter_eq, lookup_insert_eq, Ha|by rewrite lookup_alter_ne, lookup_insert_ne].
  - destruct d. cbn in *. f_equal. apply map_eq. intros i.
    destruct (decide (k = i)) as [<-|Hne]; [by rewrite lookup_alter_eq, Ha|by rewrite lookup_alter_ne].
Qed.

Lemma effect_inv d d' : effect d d' → inv d → inv d'.
Proof.
  intros [d0|d0 id row events -> Hev Hv Hst|d0 id row row' Hr Hs Hv Hst|d0 d1 id Hb|d0 d1 a Hf Hq Hrun Hok Hb
         |d0 d1 k a a' Ha Hrun Hs Hend Hok Hb|d0 k f Hf|d0 d1 Ho Hl He Ha _] Hinv.
  - done.
  - by apply goal_new_inv.
  - by eapply goal_status_inv.
  - by eapply bump_inv.
  - eapply bump_inv; [|exact Hb]. apply begin_inv; try done. by apply bump_goal in Hb.
  - eapply bump_inv; [|exact Hb]. by eapply update_attempt_inv.
  - rewrite alter_insert_attempt. destruct (gd_attempts d0 !! k) as [a|] eqn:Ha; [|done].
    destruct (Hf a) as [Hsame (Hs & Ho & Hfail & _)]. apply (update_attempt_inv d0 k a); try done.
    destruct (inv_attempt _ Hinv _ _ Ha) as (_ & Hok & _). unfold attempt_ok in *. by rewrite Hs, Ho, Hfail.
  - destruct Hinv as [H1 H2 H3 H4]. split; rewrite ?Ho, ?Hl, ?He, ?Ha; try done.
    intros id row Hr. destruct (H1 _ _ Hr) as [? Hok]. split; [done|]. unfold goal_ok, events_of in *. by rewrite He.
Qed.

(** *** What an effect keeps *)

Lemma evolves_objectives d f :
  (∀ id row, gd_objectives d !! id = Some row → ∃ row', f (gd_objectives d) !! id = Some row' ∧ same_goal row row'
     ∧ ob_version row' = ob_version row ∧ ob_goal_state row' = ob_goal_state row) →
  evolves d (with_objectives f d).
Proof.
  intros Hf. split; cbn; [|done|intros k a Ha; by exists a].
  intros id row Hr. destruct (Hf _ _ Hr) as (row' & ? & ? & Hv & ?). exists row'. split_and!; try done; [by rewrite Hv|]. intros _. unfold state_of. congruence.
Qed.

Lemma evolves_attempts d f :
  (∀ k a, gd_attempts d !! k = Some a → ∃ a', f (gd_attempts d) !! k = Some a' ∧ attempt_evolves a a') →
  evolves d (with_attempts f d).
Proof. intros Hf. split; cbn; [intros id row Hr; by exists row|done|done]. Qed.

Lemma effect_evolves d d' : effect d d' → inv d → evolves d d'.
Proof.
  intros [d0|d0 id row events -> Hev Hv Hst|d0 id row row' Hr Hs Hv Hst|d0 d1 id Hb|d0 d1 a Hf Hq Hrun Hok Hb
         |d0 d1 k a a' Ha Hrun Hs Hend Hok Hb|d0 k f Hf|d0 d1 Ho Hl He Ha _] Hinv.
  - done.
  - pose proof (fresh_id _ Hinv) as Hfresh. split; cbn; [|by eexists|intros k a Ha; by exists a].
    intros i r Hi. exists r. rewrite lookup_insert_ne; [done|]. intros Heq. rewrite Heq in Hfresh. congruence.
  - apply evolves_objectives. intros i r Hi. destruct (decide (id = i)) as [<-|Hne].
    + exists row'. rewrite lookup_insert_eq. replace r with row by congruence. done.
    + exists r. by rewrite lookup_insert_ne.
  - by eapply bump_evolves.
  - trans (with_attempts (<[ga_id a := a]>) d0); [|by eapply bump_evolves]. apply evolves_attempts.
    intros k b Hk. exists b. rewrite lookup_insert_ne; [done|congruence].
  - trans (with_attempts (<[k := a']>) d0); [|by eapply bump_evolves]. apply evolves_attempts.
    intros i b Hi. destruct (decide (k = i)) as [<-|Hne]; [|exists b; by rewrite lookup_insert_ne].
    exists a'. rewrite lookup_insert_eq. replace b with a by congruence. by split.
  - apply evolves_attempts. intros i b Hi. destruct (decide (k = i)) as [<-|Hne].
    + exists (f b). rewrite lookup_alter_eq, Hi. split; [done|]. split; [apply Hf|intros _; apply Hf].
    + exists b. by rewrite lookup_alter_ne.
  - split; rewrite ?Ho, ?He, ?Ha; [intros id row Hr; by exists row|done|intros k a Hk; by exists a].
Qed.

(** ** The writes of the store *)

Section Writes.
Context `{Env} `{Sqlite} `{GoalEnv}.

Lemma wp_goal_statement (Q : Result StoreError unit → Db → N → Prop) d n :
  (∀ n', Q (Ok tt) d n') → (∀ e n', Q (Err e) d n') → wp statement Q d n.
Proof. intros. by apply wp_execute. Qed.

Lemma wp_now (Q : Result StoreError string → Db → N → Prop) d n : (∀ s n', Q (Ok s) d n') → wp now Q d n.
Proof. intros HQ. unfold now. wp_step. wp_step. apply wp_ret. auto. Qed.

Lemma wp_u64_param {E} (sql : SqlError unit → E) v (Q : Result E unit → Db → N → Prop) d n :
  (v ≤ i64_max → Q (Ok tt) d n) → (∀ e, Q (Err e) d n) → wp (u64_param sql v) Q d n.
Proof. intros Hok Herr. apply wp_ensure; [intros Hv%N.leb_le; auto|auto]. Qed.

Lemma wp_check {E} (sql : SqlError unit → E) b name (Q : Result E unit → Db → N → Prop) d n :
  (b = true → Q (Ok tt) d n) → (∀ e, Q (Err e) d n) → wp (constraint sql b name) Q d n.
Proof. intros Hok Herr. apply wp_ensure; auto. Qed.

Lemma wp_get_goal id (Q : Result StoreError (option GoalSnapshot) → Db → N → Prop) d n :
  (∀ n', Q (Ok (map_goal_snapshot_row id <$> gd_objectives d !! id)) d n') → (∀ e n', Q (Err e) d n') →
  wp (get_goal id) Q d n.
Proof. intros Hok Herr. unfold get_goal. wp_step. apply wp_goal_statement; [intros n1|auto]. wp_step. apply wp_get, wp_ret. auto. Qed.

Lemma wp_update_goal id expected f (Q : Result StoreError N → Db → N → Prop) d n :
  (∀ at_ row n', gd_objectives d !! id = Some row → (∀ v, expected = Some v → ob_version row = v) →
     Q (Ok 1) (with_objectives (<[id := f at_ row]>) d) n') →
  (∀ n', (∀ row, gd_objectives d !! id = Some row → ∃ v, expected = Some v ∧ ob_version row ≠ v) → Q (Ok 0) d n') →
  (∀ e n', Q (Err e) d n') → wp (update_goal id expected f) Q d n.
Proof.
  intros Hone Hnone Herr. unfold update_goal. wp_step. apply wp_now. intros at_ n1.
  wp_step. apply wp_goal_statement; [intros n2|auto]. wp_step. apply wp_get.
  destruct (gd_objectives d !! id) as [row|] eqn:Hr; [|apply wp_ret, Hnone; done].
  destruct expected as [v|].
  - destruct (N.eqb_spec (ob_version row) v); [|apply wp_ret, Hnone; intros ? [= <-]; eauto].
    wp_step. apply wp_modify, wp_ret, Hone; [done|]. by intros ? [= <-].
  - wp_step. apply wp_modify, wp_ret, Hone; [done|]. done.
Qed.

Lemma wp_insert_event id version event_type payload (Q : Result StoreError unit → Db → N → Prop) d n :
  (∀ at_ n', version ≤ i64_max → existsb (event_key id version) (gd_events d) = false →
     Q (Ok tt) (with_events (λ es, es ++ [{| ge_objective_id := id; ge_version := version; ge_event_type := event_type;
                                             ge_payload := payload; ge_created_at := at_ |}]) d) n') →
  (∀ e d' n', Q (Err e) d' n') → wp (insert_event id version event_type payload) Q d n.
Proof.
  intros Hok Herr. unfold insert_event. wp_step. apply wp_now. intros at_ n1.
  wp_step. apply wp_u64_param; [intros Hv|auto]. wp_step. apply wp_goal_statement; [intros n2|auto].
  wp_step. apply wp_get. wp_step. apply wp_check; [intros _|auto]. wp_step. apply wp_check; [intros Hk|auto].
  apply wp_modify, Hok; [done|]. by apply negb_true_iff.
Qed.

(** The event of a version the goal does not have yet *)
Lemma event_free d id row version :
  inv d → gd_objectives d !! id = Some row → existsb (event_key id version) (gd_events d) = false → 0 < version →
  ob_version row < version.
Proof.
  intros Hinv Hr Hf Hpos. destruct (inv_goal _ Hinv _ _ Hr) as [_ (first & _ & Hfirst & Hc & _)].
  destruct (N.lt_ge_cases (ob_version row) version) as [|Hge]; [done|]. exfalso.
  assert (version ∈ (ge_version <$> events_of id d)) as Hin by (apply (counts_up_elem _ _ _ _ Hc); lia).
  apply list_elem_of_fmap in Hin as (e & -> & [He Hin]%list_elem_of_filter).
  apply not_true_iff_false in Hf. apply Hf, existsb_exists. exists e. split; [by apply list_elem_of_In|].
  unfold event_key. by rewrite He, bool_decide_true, N.eqb_refl.
Qed.

(** A new version of the row that was read, and its event *)
Lemma bump_intro d id row row' event_type payload at_ :
  gd_objectives d !! id = Some row → same_goal row row' → ob_version row' = ob_version row + 1 →
  follow (state_of row) (event_move event_type) = Some (state_of row') →
  bump id d (with_events (λ es, es ++ [{| ge_objective_id := id; ge_version := ob_version row + 1;
    ge_event_type := event_type; ge_payload := payload; ge_created_at := at_ |}]) (with_objectives (<[id := row']>) d)).
Proof. intros Hr Hs Hv Hf. by exists row, row', {| ge_objective_id := id; ge_version := ob_version row + 1;
    ge_event_type := event_type; ge_payload := payload; ge_created_at := at_ |}. Qed.

Lemma state_of_updated state wait process version at_ row :
  state_of (updated (GoalState.as_str state) wait process version at_ row) = state.
Proof. unfold state_of. cbn. by rewrite GoalState.from_as_str. Qed.

Lemma transition_effect id v next wait payload d n :
  wp (persist_transition id v next wait payload) (λ _ d' _, effect d d') d n.
Proof.
  apply wp_transaction; [intros n1|intros; constructor]. wp_step. wp_step. apply wp_get_goal; [intros n2|intros; constructor].
  wp_step. apply wp_ok_or; [|intros; constructor]. intros current (row & Hr & ->)%fmap_Some.
  wp_step. apply wp_ensure; intros Hterm; [|constructor]. wp_step. apply wp_ensure; intros Hcan; [|constructor].
  wp_step. apply wp_ensure; intros Hv; [|constructor]. apply N.eqb_eq in Hv.
  cbv zeta. wp_step. apply wp_u64_param; [intros Hmax|intros; constructor]. wp_step. wp_step. apply wp_update_goal.
  - intros at_ row' n3 Hr' _. replace row' with row by congruence. cbn [N.eqb]. wp_step.
    apply wp_insert_event; [|intros; constructor]. intros at' n4 _ _ n5. apply (effect_bump _ _ id).
    apply bump_intro; [done|done|done|]. rewrite debug_lowercase_move, state_of_updated. cbn in *. by rewrite Hcan.
  - intros n3 _. cbn [N.eqb]. wp_step. wp_step. apply wp_get_goal; [intros n4|intros; constructor]. apply wp_throw. constructor.
  - intros; constructor.
Qed.

Lemma wp_insert_objective row (Q : Result StoreError Z → Db → N → Prop) d n :
  (∀ n', let id := (gd_last_id d + 1)%Z in Q (Ok id) (with_objectives (<[id := row]>) (with_last_id id d)) n') →
  (∀ e n', Q (Err e) d n') → wp (insert_objective row) Q d n.
Proof.
  intros Hok Herr. unfold insert_objective, next_id. wp_step. apply wp_goal_statement; [intros n1|auto].
  wp_step. apply wp_get. wp_step. apply wp_check; [intros _|auto]. wp_step. apply wp_check; [intros _|auto].
  wp_step. wp_step. apply wp_get. cbv zeta. wp_step. apply wp_ensure; intros _; [|auto].
  wp_step. apply wp_modify, wp_ret. wp_step. apply wp_modify, wp_ret, Hok.
Qed.

Lemma effect_new_goal d id row :
  id = (gd_last_id d + 1)%Z → ob_version row = 0 → state_of row ∈ [GoalState.Ready; GoalState.Draft] →
  effect d (with_objectives (<[id := row]>) (with_last_id id d)).
Proof.
  intros Hid Hv Hst. replace (with_objectives (<[id := row]>) (with_last_id id d))
    with (with_events (λ es, es ++ []) (with_objectives (<[id := row]>) (with_last_id id d))).
  - constructor; auto.
  - unfold with_events. cbn. by rewrite app_nil_r.
Qed.

Lemma create_effect description parent session scope d n :
  wp (create description parent session scope) (λ _ d' _, effect d d') d n.
Proof.
  unfold create. wp_step. apply wp_now. intros at_ n1. apply wp_insert_objective; [intros n2|intros; constructor].
  apply effect_new_goal; [done|done|]. cbn. left.
Qed.

Lemma goal_effect owner session scope spec state d n :
  state ∈ [GoalState.Ready; GoalState.Draft] →
  wp (persist_goal owner session scope spec state) (λ _ d' _, effect d d') d n.
Proof.
  intros Hst. apply wp_transaction; [intros n1|intros; constructor]. wp_step. apply wp_now. intros at_ n2.
  wp_step. apply wp_insert_objective; [intros n3; cbv zeta|intros; constructor]. wp_step.
  apply wp_insert_event; [|intros; constructor]. intros at' n4 _ _. apply wp_ret. intros n5.
  constructor; [done|right|done|]; [by eexists|]. unfold state_of. cbn. by rewrite GoalState.from_as_str.
Qed.

Lemma set_status_effect id status d n : wp (set_status id status) (λ _ d' _, effect d d') d n.
Proof.
  unfold set_status. wp_step. apply wp_now. intros at_ n1. wp_step. apply wp_goal_statement; [intros n2|intros; constructor].
  wp_step. apply wp_get. destruct (gd_objectives d !! id) as [row|] eqn:Hr; [|apply wp_ret; constructor].
  wp_step. apply wp_check; [intros _|intros; constructor]. wp_step. apply wp_modify, wp_ret. by econstructor.
Qed.

(** Recovering a goal that was seen running at this version: if it has moved on,
    the event of the next version is there already. *)
Definition seen_running (d : Db) (s : GoalId * N) : Prop :=
  ∃ row, gd_objectives d !! s.1 = Some row ∧ s.2 ≤ ob_version row
    ∧ (ob_version row = s.2 → state_of row = GoalState.Running).

Lemma recovery_effect id v d n :
  inv d → seen_running d (id, v) → wp (persist_recovery id (v + 1)) (λ _ d' _, effect d d') d n.
Proof.
  intros Hinv (row & Hr & Hle & Hrun). cbn in *. apply wp_transaction; [intros n1|intros; constructor].
  wp_step. apply wp_u64_param; [intros Hmax|intros; constructor]. wp_step.
  apply wp_update_goal; [|intros n2 Hno; by destruct (Hno row Hr) as (? & ? & _)|intros; constructor].
  intros at_ row' n2 Hr' _. replace row' with row by congruence.
  apply wp_insert_event; [|intros; constructor]. intros at' n3 _ Hfree n4.
  assert (ob_version row < v + 1) as Hlt by (eapply event_free; [done|done|exact Hfree|lia]).
  assert (ob_version row = v) as Hv by lia. rewrite <-Hv. apply (effect_bump _ _ id), bump_intro; try done.
  rewrite (Hrun Hv). done.
Qed.

Lemma link_effect id v process d n :
  wp (Coordinator.persist_link id v (v + 1) process) (λ _ d' _, effect d d') d n.
Proof.
  apply wp_transaction; [intros n1|intros; constructor]. wp_step. apply wp_u64_param; [intros Hmax|intros; constructor].
  wp_step. wp_step. apply wp_update_goal.
  - intros at_ row n3 Hr Hv. rewrite <-(Hv v eq_refl). cbn [N.eqb]. wp_step.
    apply wp_insert_event; [|intros; constructor]. intros at' n4 _ _ n5. by apply (effect_bump _ _ id), bump_intro.
  - intros n3 _. cbn [N.eqb]. wp_step. wp_step. apply wp_get_goal; [intros n4|intros; constructor]. apply wp_throw. constructor.
  - intros; constructor.
Qed.

(** *** Attempts *)

Lemma next_version v : saturating_add v 1 ≤ i64_max → saturating_add v 1 = v + 1.
Proof. unfold saturating_add, i64_max, u64_max. lia. Qed.

Lemma wp_append_attempt_event id event_type payload (Q : Result StoreError unit → Db → N → Prop) d n :
  event_move event_type = Stay → (∀ d' n', bump id d d' → Q (Ok tt) d' n') → (∀ e d' n', Q (Err e) d' n') →
  wp (append_attempt_event id event_type payload) Q d n.
Proof.
  intros Hm Hok Herr. unfold append_attempt_event. wp_step. apply wp_goal_statement; [intros n1|auto]. wp_step. apply wp_get.
  wp_step. apply wp_ok_or; [intros row Hr|auto]. cbv zeta. wp_step. apply wp_u64_param; [intros Hmax|auto].
  rewrite (next_version _ Hmax). clear Hmax. wp_step. apply wp_update_goal; [|intros n2 Hno|auto].
  - intros at_ row' n2 Hr' _. replace row' with row by congruence. wp_step. apply wp_ensure; [intros _|auto].
    apply wp_insert_event; [|auto]. intros at' n3 _ _. apply Hok, bump_intro; [done|done|done|by rewrite Hm].
  - destruct (Hno row Hr) as (v & [= <-] & ?). done.
Qed.

Lemma wp_stored_attempt id missing (Q : Result StoreError GoalAttempt → Db → N → Prop) d n :
  (∀ a n', gd_attempts d !! id = Some a → Q (Ok a) d n') → (∀ e n', Q (Err e) d n') →
  wp (stored_attempt id missing) Q d n.
Proof.
  intros Hok Herr. unfold stored_attempt, attempt. wp_step. wp_step. apply wp_goal_statement; [intros n1|auto].
  wp_step. apply wp_get, wp_ret, wp_ok_or; auto.
Qed.

Lemma begin_effect id goal_id sequence runtime role input d n :
  wp (persist_attempt id goal_id sequence runtime role input) (λ _ d' _, effect d d') d n.
Proof.
  apply wp_transaction; [intros n1|intros; constructor]. unfold ensure_goal_exists. wp_step. wp_step.
  apply wp_goal_statement; [intros n2|intros; constructor]. wp_step. apply wp_get, wp_ensure; intros Hgoal; [|constructor].
  wp_step. apply wp_now. intros at_ n3. wp_step. unfold insert_attempt. wp_step.
  apply wp_goal_statement; [intros n4|intros; constructor]. wp_step. apply wp_get.
  wp_step. apply wp_check; [intros Hfresh|intros; constructor]. wp_step. apply wp_check; [intros Hseq|intros; constructor].
  wp_step. apply wp_check; [intros _|intros; constructor]. apply wp_modify.
  apply wp_append_attempt_event; [done| |intros; constructor]. intros d' n5 Hb n6.
  apply bool_decide_eq_true in Hfresh. apply negb_true_iff in Hseq. by eapply effect_begin.
Qed.

Lemma end_effect (id : AttemptId) d n status output failure evidence usage event_type payload :
  event_move event_type = Stay → status ≠ AttemptStatus.Running →
  (∀ a at_, attempt_ok {| ga_id := ga_id a; ga_goal_id := ga_goal_id a; ga_sequence := ga_sequence a;
    ga_runtime_id := ga_runtime_id a; ga_role := ga_role a; ga_status := status; ga_input := ga_input a;
    ga_output := output; ga_failure := failure; ga_evidence := evidence; ga_usage := usage;
    ga_started_at := ga_started_at a; ga_ended_at := at_ |}) →
  wp (transaction Sql (
    identity ← attempt_identity id;
    ensure_running identity.2 ;;
    update_terminal_attempt id status output failure evidence usage ;;
    append_attempt_event identity.1 event_type payload)) (λ _ d' _, effect d d') d n.
Proof.
  intros Hm Hst Hok. apply wp_transaction; [intros n1|intros; constructor]. unfold attempt_identity. wp_step. wp_step.
  apply wp_goal_statement; [intros n2|intros; constructor]. wp_step. apply wp_get.
  wp_step. apply wp_ok_or; [intros a Ha|intros; constructor]. apply wp_ret.
  wp_step. apply wp_ensure; intros Hrun; [|constructor]. apply bool_decide_eq_true in Hrun. cbn in Hrun.
  unfold update_terminal_attempt. wp_step. wp_step. apply wp_now. intros at_ n3.
  wp_step. apply wp_goal_statement; [intros n4|intros; constructor]. wp_step. apply wp_get. rewrite Ha.
  wp_step. apply wp_ensure; intros _; [|constructor]. apply wp_modify.
  apply wp_append_attempt_event; [done| |intros; constructor]. intros d' n5 Hb n6.
  eapply effect_end; [exact Ha|done| | | |exact Hb]; done.
Qed.

Lemma outcome_effect id outcome d n : wp (persist_outcome id outcome) (λ _ d' _, effect d d') d n.
Proof. destruct outcome as [failure|result]; apply end_effect; [done|done|by split|done|done|by split]. Qed.

Lemma cancellation_effect id failure d n : wp (persist_cancellation id failure) (λ _ d' _, effect d d') d n.
Proof. apply end_effect; [done|done|by split]. Qed.

Lemma evidence_effect id evidence d n : wp (write_evidence id evidence) (λ _ d' _, effect d d') d n.
Proof.
  unfold write_evidence. wp_step. apply wp_goal_statement; [intros n1|intros; constructor]. apply wp_modify. by constructor.
Qed.

Lemma feedback_effect row d n : wp (insert_feedback row) (λ _ d' _, effect d d') d n.
Proof.
  unfold insert_feedback. wp_step. apply wp_goal_statement; [intros n1|intros; constructor]. wp_step. apply wp_get.
  case_decide; [|apply wp_ret; constructor]. wp_step. apply wp_check; [intros _|intros; constructor].
  wp_step. apply wp_modify, wp_ret. by apply effect_other.
Qed.
End Writes.

(** ** The ledger *)

(** The attempts a goal has reserved or settled *)
Definition charged (id : GoalId) (d : Db) : N :=
  msum (λ _ row, if of_goal id LedgerStatus.Reserved row || of_goal id LedgerStatus.Settled row then lg_attempts row else 0)
       (gd_ledger d).

(** Each reservation is for one attempt of a goal. *)
Definition ledger_inv (d : Db) : Prop := ∀ rid row, gd_ledger d !! rid = Some row →
  lg_attempts row = 1 ∧ is_Some (gd_objectives d !! lg_objective_id row).

(** No goal has more of them than its budget. *)
Definition within (d : Db) : Prop := ∀ id row, gd_objectives d !! id = Some row →
  gb_max_attempts (gs_budget (spec_of row)) < u32_max → charged id d ≤ gb_max_attempts (gs_budget (spec_of row)).

Lemma sum_column (id : GoalId) (status : LedgerStatus.t) (column : LedgerRow → N) (m : gmap text LedgerRow) :
  foldr (λ (row : LedgerRow) n, column row + n) 0 (filter (λ row, of_goal id status row = true) (map_to_list m).*2)
  = msum (λ _ row, if of_goal id status row then column row else 0) m.
Proof.
  unfold msum. rewrite map_fold_foldr. induction (map_to_list m) as [|[k row] l IH]; [done|].
  cbn [fmap list_fmap snd foldr uncurry]. rewrite filter_cons. rewrite <-IH.
  destruct (of_goal id status row); [rewrite decide_True by done|rewrite decide_False by done]; cbn; lia.
Qed.

Lemma of_goal_disjoint id row :
  of_goal id LedgerStatus.Reserved row = true → of_goal id LedgerStatus.Settled row = false.
Proof. unfold of_goal. rewrite andb_true_iff, !bool_decide_eq_true. intros [_ Hs]. rewrite Hs. apply andb_false_r. Qed.

Lemma charged_split id d :
  charged id d = msum (λ _ row, if of_goal id LedgerStatus.Settled row then lg_attempts row else 0) (gd_ledger d)
    + msum (λ _ row, if of_goal id LedgerStatus.Reserved row then lg_attempts row else 0) (gd_ledger d).
Proof.
  unfold charged. rewrite <-msum_add. apply msum_ext. intros k row _.
  destruct (of_goal id LedgerStatus.Reserved row) eqn:Hr; cbn [orb]; [by rewrite (of_goal_disjoint _ _ Hr)|lia].
Qed.

Section Ledger.
Context `{Env} `{Sqlite} `{GoalEnv}.

(** What [SUM] reads *)
Lemma wp_usage_with id status (Q : Result GoalBudgetError GoalBudgetUsage → Db → N → Prop) d n :
  (∀ u n', gu_attempts u = msum (λ _ row, if of_goal id status row then lg_attempts row else 0) (gd_ledger d) →
     gu_attempts u ≤ u32_max → Q (Ok u) d n') →
  (∀ e n', Q (Err e) d n') → wp (usage_with id status) Q d n.
Proof.
  intros Hok Herr. unfold usage_with, sum_integer. wp_step. apply wp_execute; [intros n1|auto]. wp_step. apply wp_get.
  cbv zeta. wp_step. wp_step. apply wp_ensure; intros _; [|auto]. apply wp_ret.
  wp_step. wp_step. apply wp_ensure; intros _; [|auto]. apply wp_ret.
  wp_step. wp_step. apply wp_ensure; intros _; [|auto]. apply wp_ret.
  wp_step. apply wp_ensure; intros Hle; [|auto]. apply N.leb_le in Hle. apply wp_ret, Hok; cbn; [apply sum_column|done].
Qed.

Lemma wp_check_limits budget settled active request (Q : Result GoalBudgetError unit → Db → N → Prop) d n :
  (wrapping_add32 (wrapping_add32 (gu_attempts settled) (gu_attempts active)) (bq_attempts request)
     ≤ gb_max_attempts budget → Q (Ok tt) d n) →
  (∀ e, Q (Err e) d n) → wp (check_limits budget settled active request) Q d n.
Proof.
  intros Hok Herr. unfold check_limits. cbv zeta. wp_step. apply wp_ensure; intros _; [|auto].
  wp_step. apply wp_ensure; intros _; [|auto]. wp_step. case_match.
  - apply wp_ensure; intros _; [|auto]. apply wp_ensure; [intros Hle%N.leb_le; auto|auto].
  - apply wp_ret. apply wp_ensure; [intros Hle%N.leb_le; auto|auto].
Qed.

(** A budget is only granted when an attempt is left. *)
Lemma granted_left id budget settled active d :
  gu_attempts settled = msum (λ _ row, if of_goal id LedgerStatus.Settled row then lg_attempts row else 0) (gd_ledger d) →
  gu_attempts active = msum (λ _ row, if of_goal id LedgerStatus.Reserved row then lg_attempts row else 0) (gd_ledger d) →
  wrapping_add32 (wrapping_add32 (gu_attempts settled) (gu_attempts active)) 1 ≤ gb_max_attempts budget →
  gb_max_attempts budget < u32_max → charged id d ≤ gb_max_attempts budget → charged id d + 1 ≤ gb_max_attempts budget.
Proof.
  intros Hs Ha Hle Hmax Hcur. rewrite charged_split in *. rewrite Hs, Ha in Hle. unfold wrapping_add32, u32_max in *.
  rewrite !N.mod_small in Hle by (rewrite ?N.mod_small; lia). lia.
Qed.

(** What a method of the ledger does to it *)
Inductive ledger_effect (d : Db) : Db → Prop :=
| ledger_none : ledger_effect d d
| ledger_reserve id row rid entry :
    gd_objectives d !! id = Some row → gd_ledger d !! rid = None → lg_objective_id entry = id → lg_attempts entry = 1 →
    ledger_effect d (with_ledger (<[rid := entry]>) d)
| ledger_end rid entry entry' :
    gd_ledger d !! rid = Some entry → lg_status entry = LedgerStatus.Reserved →
    lg_status entry' ≠ LedgerStatus.Reserved →
    lg_objective_id entry' = lg_objective_id entry → lg_attempts entry' = 1 →
    ledger_effect d (with_ledger (<[rid := entry']>) d).

Lemma insertion_effect id rid request d n :
  bq_attempts request = 1 → wp (insert_reservation id rid request) (λ _ d' _,
    d' = d ∨ ∃ row entry, gd_objectives d !! id = Some row ∧ gd_ledger d !! rid = None ∧ lg_objective_id entry = id
      ∧ lg_attempts entry = 1 ∧ d' = with_ledger (<[rid := entry]>) d) d n.
Proof.
  intros Hone. unfold insert_reservation. wp_step. wp_step. apply wp_now. intros at_ n2.
  wp_step. apply wp_u64_param; [intros _|intros; by left]. wp_step. apply wp_u64_param; [intros _|intros; by left].
  wp_step. apply wp_execute; [intros n3|intros; by left]. wp_step. apply wp_get.
  wp_step. apply wp_check; [intros _|intros; by left]. wp_step. apply wp_check; [intros Hfk|intros; by left].
  wp_step. apply wp_ensure; intros Hfresh; [|intros; by left]. apply bool_decide_eq_true in Hfresh, Hfk. destruct Hfk as [row Hr].
  apply wp_modify. right. exists row.
  refine (ex_intro _ _ (conj Hr (conj Hfresh (conj _ (conj _ eq_refl))))); [done|exact Hone].
Qed.

Lemma reserve_effect id rid request d n :
  bq_attempts request = 1 → wp (insert_reservation id rid request) (λ _ d' _, ledger_effect d d') d n.
Proof.
  intros Hone. eapply wp_mono; [by apply insertion_effect|].
  intros r d' n' [->|(row & entry & Hr & Hn & Hid & He & ->)]; [constructor|by eapply ledger_reserve].
Qed.

(** What settling and revoking may do: nothing, or end a reservation. *)
Definition ends (d d' : Db) : Prop :=
  d' = d ∨ ∃ rid entry entry', gd_ledger d !! rid = Some entry ∧ lg_status entry = LedgerStatus.Reserved
    ∧ lg_status entry' ≠ LedgerStatus.Reserved ∧ lg_objective_id entry' = lg_objective_id entry ∧ lg_attempts entry' = 1
    ∧ d' = with_ledger (<[rid := entry']>) d.

Lemma ends_effect d d' : ends d d' → ledger_effect d d'.
Proof. intros [->|(rid & entry & entry' & ? & ? & ? & ? & ? & ->)]; [constructor|by eapply ledger_end]. Qed.

Lemma settle_ends rid usage d n :
  gu_attempts usage = 1 → wp (settle_goal_budget rid usage) (λ _ d' _, ends d d') d n.
Proof.
  intros Hone. unfold settle_goal_budget. wp_step. wp_step. apply wp_now. intros at_ n1.
  wp_step. apply wp_u64_param; [intros _|intros; by left]. wp_step. apply wp_u64_param; [intros _|intros; by left].
  wp_step. apply wp_execute; [intros n2|intros; by left]. wp_step. apply wp_get.
  destruct (gd_ledger d !! rid) as [row|] eqn:Hr.
  - case_decide as Hs.
    + wp_step. apply wp_check; [intros _|intros; by left]. apply wp_modify. right. eexists rid, row, _.
      refine (conj Hr (conj Hs (conj _ (conj _ (conj _ eq_refl))))); [done|done|exact Hone].
    + wp_step. apply wp_execute; [intros n3|intros; by left]. apply wp_ensure; by left.
  - wp_step. apply wp_execute; [intros n3|intros; by left]. apply wp_throw. by left.
Qed.

Lemma revoke_ends rid d n : ledger_inv d → wp (revoke_goal_budget rid) (λ _ d' _, ends d d') d n.
Proof.
  intros Hinv. unfold revoke_goal_budget. wp_step. apply wp_execute; [intros n1|intros; by left]. wp_step. apply wp_get.
  destruct (gd_ledger d !! rid) as [row|] eqn:Hr; [|apply wp_throw; by left].
  case_decide as Hs; [|apply wp_throw; by left]. apply wp_modify. right. eexists rid, row, _.
  refine (conj Hr (conj Hs (conj _ (conj _ (conj _ eq_refl))))); [done|done|]. by apply Hinv in Hr as [? _].
Qed.

End Ledger.

(** *** What keeps the budget *)

Lemma effect_ledger d d' : effect d d' → gd_ledger d' = gd_ledger d.
Proof.
  intros [d0|d0 id row events|d0 id row row'|d0 d1 id (? & ? & ? & _ & -> & _)|d0 d1 a _ _ _ _ (? & ? & ? & _ & -> & _)
         |d0 d1 k a a' _ _ _ _ _ (? & ? & ? & _ & -> & _)|d0 k f|d0 d1 _ _ _ _ ?]; done.
Qed.

Lemma same_goal_spec row row' : same_goal row row' → spec_of row' = spec_of row.
Proof. unfold same_goal, spec_of. intros (_ & Hs & Hd & _). by rewrite Hs, Hd. Qed.

Lemma charged_none id d : ledger_inv d → gd_objectives d !! id = None → charged id d = 0.
Proof.
  intros Hinv Hn. apply msum_zero. intros rid row Hr. destruct (Hinv _ _ Hr) as [_ [r Hg]]. unfold of_goal.
  rewrite bool_decide_false by congruence. done.
Qed.

(** A goal keeps its row, and a new one has charged nothing. *)
Lemma effect_ledger_inv d d' : effect d d' → inv d → ledger_inv d → ledger_inv d'.
Proof.
  intros He Hinv Hl rid row Hr. pose proof (effect_evolves _ _ He Hinv) as Hev. rewrite (effect_ledger _ _ He) in Hr.
  destruct (Hl _ _ Hr) as [? [goal Hg]]. split; [done|]. destruct (ev_goal _ _ Hev _ _ Hg) as (row' & ? & _). by eexists.
Qed.

Lemma effect_within d d' : effect d d' → inv d → ledger_inv d → within d → within d'.
Proof.
  intros He Hinv Hl Hw id row Hr Hmax. pose proof (effect_evolves _ _ He Hinv) as Hev.
  pose proof (effect_ledger _ _ He) as Hled.
  replace (charged id d') with (charged id d) by (unfold charged; by rewrite Hled).
  destruct (gd_objectives d !! id) as [row0|] eqn:Hr0.
  - destruct (ev_goal _ _ Hev _ _ Hr0) as (row' & Hr' & Hs & _ & _). replace row' with row in * by congruence.
    rewrite (same_goal_spec _ _ Hs) in *. by apply Hw.
  - rewrite (charged_none _ _ Hl Hr0). lia.
Qed.

Lemma charged_insert id rid entry d :
  gd_ledger d !! rid = None → lg_attempts entry = 1 →
  charged id (with_ledger (<[rid := entry]>) d) ≤ charged id d + (if decide (lg_objective_id entry = id) then 1 else 0).
Proof.
  intros Hn Hone. unfold charged. cbn. rewrite msum_insert by done. rewrite Hone. unfold of_goal.
  case_decide; [case_match; lia|]. rewrite bool_decide_false by done. cbn. lia.
Qed.

Lemma charged_end id rid entry entry' d :
  gd_ledger d !! rid = Some entry → lg_status entry = LedgerStatus.Reserved → lg_attempts entry = 1 →
  lg_attempts entry' = 1 → lg_objective_id entry' = lg_objective_id entry →
  charged id (with_ledger (<[rid := entry']>) d) ≤ charged id d.
Proof.
  intros Hr Hs Hone Hone' Hid. unfold charged. cbn.
  epose proof (msum_update (λ _ row, if of_goal id LedgerStatus.Reserved row || of_goal id LedgerStatus.Settled row
    then lg_attempts row else 0) _ _ _ entry' Hr) as Hm. cbv beta in Hm. unfold of_goal in *.
  rewrite Hone, Hone', Hid, Hs in Hm. rewrite (bool_decide_true (LedgerStatus.Reserved = _)) in Hm by done.
  destruct (bool_decide (lg_objective_id entry = id)); cbn in Hm; [|lia]. case_match; lia.
Qed.

Lemma ledger_effect_inv d d' : ledger_effect d d' → ledger_inv d → ledger_inv d'.
Proof.
  intros [|id row rid entry Hr Hn Hid Hone|rid entry entry' Hr Hs Hs' Hid Hone] Hinv; [done| |]; intros rid' row' Hr'; cbn in *.
  - apply lookup_insert_Some in Hr' as [[<- <-]|[_ Hr']]; [|by apply Hinv in Hr']. split; [done|]. rewrite Hid. by eexists.
  - destruct (Hinv _ _ Hr) as [_ Hg].
    apply lookup_insert_Some in Hr' as [[<- <-]|[_ Hr']]; [|by apply Hinv in Hr']. split; [done|]. by rewrite Hid.
Qed.

Lemma ended_within d rid entry entry' :
  gd_ledger d !! rid = Some entry → lg_status entry = LedgerStatus.Reserved → lg_objective_id entry' = lg_objective_id entry →
  lg_attempts entry' = 1 → ledger_inv d → within d → within (with_ledger (<[rid := entry']>) d).
Proof.
  intros Hr Hs Hid Hone Hinv Hw i r Hi Hmax. destruct (Hinv _ _ Hr) as [Hone0 _].
  pose proof (charged_end i _ _ _ _ Hr Hs Hone0 Hone Hid) as Hc. pose proof (Hw _ _ Hi Hmax). lia.
Qed.

Lemma reserved_within d id rid row entry :
  gd_objectives d !! id = Some row → gd_ledger d !! rid = None → lg_objective_id entry = id → lg_attempts entry = 1 →
  (gb_max_attempts (gs_budget (spec_of row)) < u32_max → charged id d + 1 ≤ gb_max_attempts (gs_budget (spec_of row))) →
  within d → within (with_ledger (<[rid := entry]>) d).
Proof.
  intros Hr Hn Hid Hone Hleft Hw i r Hi Hmax. pose proof (charged_insert i rid entry d Hn Hone) as Hc.
  pose proof (Hw _ _ Hi Hmax) as Hb. case_decide as Heq; [|lia].
  assert (i = id) as -> by congruence. assert (r = row) as -> by (cbn in Hi; congruence). specialize (Hleft Hmax). lia.
Qed.

(** The ledger has no part in the rest. *)
Lemma ledger_effect_rest d d' :
  ledger_effect d d' → gd_objectives d' = gd_objectives d ∧ gd_last_id d' = gd_last_id d ∧ gd_events d' = gd_events d
    ∧ gd_attempts d' = gd_attempts d.
Proof. by intros []. Qed.

Lemma ledger_effect_keeps d d' : ledger_effect d d' → inv d → inv d' ∧ evolves d d'.
Proof.
  intros (Ho & Hl & He & Ha)%ledger_effect_rest [H1 H2 H3 H4]. split.
  - split; rewrite ?Ho, ?Hl, ?He, ?Ha; try done.
    intros id row Hr. destruct (H1 _ _ Hr) as [? Hok]. split; [done|]. unfold goal_ok, events_of in *. by rewrite He.
  - split; rewrite ?Ho, ?He, ?Ha; [intros id row Hr; by exists row|done|intros k a Hk; by exists a].
Qed.

(** ** Runs

    Several connections to the database, each with its own store, execute
    methods.  A method is a sequence of readings and writes; a transaction is one
    write, and so is the call of a runtime.  Reserving a budget reads the goal and the ledger and then inserts a row,
    each in a statement of its own: here the insertion is a write that needs nothing
    read before, so that the readings of all connections may be stale. *)

Inductive Write :=
| WCreate (description : text) (parent : option Z) (session_id scope : string)
| WGoal (owner : PrincipalId) (session_id scope : string) (spec : GoalSpec) (draft : bool)
| WStatus (id : Z) (status : string)
| WTransition (id : GoalId) (expected : N) (next : GoalState.t) (wait : option GoalWaitReason) (payload : Value)
| WRecover (id : GoalId) (version : N)
| WLink (id : GoalId) (expected : N) (process : option ProcessId)
| WBegin (attempt_id : AttemptId) (id : GoalId) (sequence : N) (runtime_id : RuntimeId) (role : CognitiveRole) (input : Value)
| WOutcome (attempt_id : AttemptId) (outcome : Outcome)
| WCancel (attempt_id : AttemptId) (failure : RuntimeFailure)
| WEvidence (attempt_id : AttemptId) (evidence : list AttemptEvidence)
| WInsert (id : GoalId) (reservation_id : text) (input_tokens output_tokens : N) (cost : F64)
| WSettle (reservation_id : text) (usage : AttemptUsage)
| WRevoke (reservation_id : text)
| WFeedback (row : GoalEvaluationFeedback)
| WInvoke (runtime_id : RuntimeId) (task : text).

Section Runs.
Context `{Env} `{Sqlite} `{GoalEnv}.

Definition after {E A} (m : M Db E A) (d : Db) (n : N) : Db := (m d n).1.2.

Definition one_attempt (input_tokens output_tokens : N) (cost : F64) : GoalBudgetRequest :=
  {| bq_input_tokens := input_tokens; bq_output_tokens := output_tokens; bq_cost_usd := cost; bq_attempts := 1 |}.

Definition perform (w : Write) (d : Db) (n : N) : Db :=
  match w with
  | WCreate description parent session scope => after (create description parent session scope) d n
  | WGoal owner session scope spec draft =>
      after (persist_goal owner session scope spec (if draft then GoalState.Draft else GoalState.Ready)) d n
  | WStatus id status => after (set_status id status) d n
  | WTransition id v next wait payload => after (persist_transition id v next wait payload) d n
  | WRecover id v => after (persist_recovery id (v + 1)) d n
  | WLink id v process => after (Coordinator.persist_link id v (v + 1) process) d n
  | WBegin k id sequence runtime role input => after (persist_attempt k id sequence runtime role input) d n
  | WOutcome k outcome => after (persist_outcome k outcome) d n
  | WCancel k failure => after (persist_cancellation k failure) d n
  | WEvidence k evidence => after (write_evidence k evidence) d n
  | WInsert id rid input output cost => after (insert_reservation id rid (one_attempt input output cost)) d n
  | WSettle rid usage => after (settle_goal_budget rid (Attempts.usage_for_budget usage)) d n
  | WRevoke rid => after (revoke_goal_budget rid) d n
  | WFeedback row => after (insert_feedback row) d n
  | WInvoke runtime_id task => with_invocations (λ calls, calls ++ [(runtime_id, task)]) d
  end.

(** The tables, and the running goals some connection has read with their version
    at that time. *)
Record World := {
  w_db : Db;
  w_seen : list (GoalId * N);
}.

Definition boot : World := {| w_db := empty_db; w_seen := [] |}.

(** A goal is recovered with the version it was read with. *)
Definition allowed (w : Write) (seen : list (GoalId * N)) : Prop :=
  match w with WRecover id v => (id, v) ∈ seen | _ => True end.

Inductive step : World → World → Prop :=
| step_write d seen w n : allowed w seen → step {| w_db := d; w_seen := seen |} {| w_db := perform w d n; w_seen := seen |}
| step_see d seen id row :
    gd_objectives d !! id = Some row → state_of row = GoalState.Running →
    step {| w_db := d; w_seen := seen |} {| w_db := d; w_seen := (id, ob_version row) :: seen |}.

Record world_inv (w : World) : Prop := {
  wi_inv : inv (w_db w);
  wi_ledger : ledger_inv (w_db w);
  wi_seen s : s ∈ w_seen w → seen_running (w_db w) s;
}.

Lemma boot_inv : world_inv boot.
Proof.
  split; cbn; [split| |]; cbn; try (intros; by rewrite lookup_empty in * ).
  - by intros e ?%elem_of_nil.
  - intros rid row Hr. cbn in Hr. by rewrite lookup_empty in Hr.
  - by intros s ?%elem_of_nil.
Qed.

Lemma seen_running_evolves d d' s : evolves d d' → seen_running d s → seen_running d' s.
Proof.
  intros Hev (row & Hr & Hle & Hrun). destruct (ev_goal _ _ Hev _ _ Hr) as (row' & Hr' & _ & Hv & Hst & _).
  exists row'. split_and!; [done|lia|]. intros Heq. unfold state_of in *. rewrite Hst by lia. apply Hrun. lia.
Qed.

Lemma after_wp {E A} (m : M Db E A) (P : Db → Prop) d n : wp m (λ _ d' _, P d') d n → P (after m d n).
Proof. unfold wp, after. by destruct (m d n) as [[r d'] n']. Qed.

Definition writes_ledger (w : Write) : bool :=
  match w with WInsert _ _ _ _ _ | WSettle _ _ | WRevoke _ => true | _ => false end.

(** A write that is not one of the ledger is an effect on the tables. *)
Lemma perform_goal_effect w d n seen :
  writes_ledger w = false → allowed w seen → inv d → (∀ s, s ∈ seen → seen_running d s) → effect d (perform w d n).
Proof.
  intros Hw Hal Hinv Hseen. destruct w; try discriminate; cbn in *; try apply after_wp.
  - apply create_effect.
  - apply goal_effect. destruct draft; set_solver.
  - apply set_status_effect.
  - apply transition_effect.
  - apply recovery_effect; auto.
  - apply link_effect.
  - apply begin_effect.
  - apply outcome_effect.
  - apply cancellation_effect.
  - apply evidence_effect.
  - apply feedback_effect.
  - by apply effect_other.
Qed.

(** Every write is an effect on the tables or on the ledger. *)
Lemma perform_effect w d n seen :
  allowed w seen → inv d → ledger_inv d → (∀ s, s ∈ seen → seen_running d s) →
  effect d (perform w d n) ∨ ledger_effect d (perform w d n).
Proof.
  intros Hal Hinv Hled Hseen. destruct (writes_ledger w) eqn:Hw; [right|left; by eapply perform_goal_effect].
  destruct w; try discriminate; cbn.
  - by apply after_wp, reserve_effect.
  - by apply ends_effect, after_wp, settle_ends.
  - by apply ends_effect, after_wp, revoke_ends.
Qed.

Lemma goal_step_ok w w' : step w w' → world_inv w → world_inv w' ∧ evolves (w_db w) (w_db w').
Proof.
  intros [d seen wr n Hal|d seen id row Hr Hrun] [Hinv Hled Hseen]; cbn in *.
  - destruct (perform_effect wr d n seen Hal Hinv Hled Hseen) as [He|He].
    + pose proof (effect_evolves _ _ He Hinv) as Hev. split; [|done].
      split; cbn; [by eapply effect_inv|by eapply effect_ledger_inv|eauto using seen_running_evolves].
    + destruct (ledger_effect_keeps _ _ He Hinv) as [Hinv' Hev]. split; [|done].
      split; cbn; [done|by eapply ledger_effect_inv|eauto using seen_running_evolves].
  - split; [|done]. split; cbn; [done..|]. intros s [->|Hs]%elem_of_cons; [|auto]. exists row. cbn. split_and!; [done|lia|done].
Qed.

Lemma goal_steps_ok w w' : clos_refl_trans_1n _ step w w' → world_inv w → world_inv w' ∧ evolves (w_db w) (w_db w').
Proof.
  induction 1 as [w|w w1 w2 Hs _ IH]; intros Hw; [done|]. destruct (goal_step_ok _ _ Hs Hw) as [Hw1 He1].
  destruct (IH Hw1) as [Hw2 He2]. split; [done|by trans (w_db w1)].
Qed.

(** C38. The history of a goal.  Over every interleaving of the readings and
    writes of several connections, whatever fails: a goal keeps its owner and its
    specification; the events of a goal are only appended to, and they are
    numbered up to its version without a gap; followed from its first state every
    event is a transition of the table, or the recovery of a running goal, and
    they give the state the goal is in; a terminal state is final. *)
Theorem goal_history w w' id row :
  clos_refl_trans_1n _ step boot w → clos_refl_trans_1n _ step w w' → gd_objectives (w_db w) !! id = Some row →
  ∃ row', gd_objectives (w_db w') !! id = Some row' ∧ same_goal row row'
    ∧ events_of id (w_db w) `prefix_of` events_of id (w_db w')
    ∧ (∃ first init, first ≤ 1 ∧ init ∈ [GoalState.Ready; GoalState.Draft]
         ∧ counts_up first (ge_version <$> events_of id (w_db w')) (ob_version row' + 1)
         ∧ replay init (ge_event_type <$> events_of id (w_db w')) = Some (state_of row'))
    ∧ (GoalState.is_terminal (state_of row) = true → state_of row' = state_of row).
Proof.
  intros Hw Hw' Hr. destruct (goal_steps_ok _ _ Hw boot_inv) as [Hinv _]. destruct (goal_steps_ok _ _ Hw' Hinv) as [Hinv' Hev].
  destruct (ev_goal _ _ Hev _ _ Hr) as (row' & Hr' & Hs & _ & _ & Ht). exists row'. split_and!; [done|done| | |done].
  - destruct (ev_events _ _ Hev) as [es Hes]. unfold events_of. rewrite Hes, filter_app. by eexists.
  - destruct (inv_goal _ (wi_inv _ Hinv') _ _ Hr') as [_ (first & init & ? & ? & ? & ?)]. by exists first, init.
Qed.

(** *** One connection reserves

    The ledger is written by one connection, the one of the scheduler, and goals by
    any number of them.  A reservation under way has read the goal ([Asked]), then
    what is settled ([ReadSettled]), then what is reserved, and with that it is
    granted or refused; the row is inserted last.  Between these statements the other
    connections write what they like but the ledger. *)

Inductive Reserving :=
| Idle
| Asked (id : GoalId) (request : GoalBudgetRequest) (budget : GoalBudget)
| ReadSettled (id : GoalId) (request : GoalBudgetRequest) (budget : GoalBudget) (settled : GoalBudgetUsage)
| Granted (id : GoalId) (request : GoalBudgetRequest).

Record Solo := {
  so_world : World;
  so_reserving : Reserving;
}.

Definition solo_boot : Solo := {| so_world := boot; so_reserving := Idle |}.

Definition in_time (budget : GoalBudget) (now_ms : Z) : bool :=
  match gb_deadline_ms budget with Some deadline => negb (deadline <? now_ms)%Z | None => true end.

Definition on (d : Db) (seen : list (GoalId * N)) (r : Reserving) : Solo :=
  {| so_world := {| w_db := d; w_seen := seen |}; so_reserving := r |}.

Inductive solo_step : Solo → Solo → Prop :=
| solo_write d seen r w n : allowed w seen → writes_ledger w = false →
    solo_step (on d seen r) (on (perform w d n) seen r)
| solo_see d seen r id row : gd_objectives d !! id = Some row → state_of row = GoalState.Running →
    solo_step (on d seen r) (on d ((id, ob_version row) :: seen) r)
| solo_settle d seen rid usage n : solo_step (on d seen Idle) (on (perform (WSettle rid usage) d n) seen Idle)
| solo_revoke d seen rid n : solo_step (on d seen Idle) (on (perform (WRevoke rid) d n) seen Idle)
| solo_ask d seen id input output cost now_ms goal n n' :
    get_goal id d n = (Ok (Some goal), d, n') → in_time (gs_budget (gl_spec goal)) now_ms = true →
    solo_step (on d seen Idle) (on d seen (Asked id (one_attempt input output cost) (gs_budget (gl_spec goal))))
| solo_read_settled d seen id request budget settled n n' : settled_usage id d n = (Ok settled, d, n') →
    solo_step (on d seen (Asked id request budget)) (on d seen (ReadSettled id request budget settled))
| solo_read_active d seen id request budget settled active n n' n2 n2' :
    active_reserved_usage id d n = (Ok active, d, n') → check_limits budget settled active request d n2 = (Ok tt, d, n2') →
    solo_step (on d seen (ReadSettled id request budget settled)) (on d seen (Granted id request))
| solo_insert d seen id rid input output cost n :
    solo_step (on d seen (Granted id (one_attempt input output cost)))
              (on (perform (WInsert id rid input output cost) d n) seen Idle)
| solo_stop d seen r : solo_step (on d seen r) (on d seen Idle).

(** What is known of a reservation under way. *)
Definition reserving_ok (d : Db) (r : Reserving) : Prop :=
  match r with
  | Idle => True
  | Asked id request budget => ∃ row, gd_objectives d !! id = Some row ∧ gs_budget (spec_of row) = budget ∧ bq_attempts request = 1
  | ReadSettled id request budget settled => ∃ row, gd_objectives d !! id = Some row ∧ gs_budget (spec_of row) = budget
      ∧ bq_attempts request = 1 ∧ gu_attempts settled
          = msum (λ _ row, if of_goal id LedgerStatus.Settled row then lg_attempts row else 0) (gd_ledger d)
  | Granted id request => ∃ row, gd_objectives d !! id = Some row ∧ bq_attempts request = 1
      ∧ (gb_max_attempts (gs_budget (spec_of row)) < u32_max → charged id d + 1 ≤ gb_max_attempts (gs_budget (spec_of row)))
  end.

Record solo_inv (s : Solo) : Prop := {
  si_world : world_inv (so_world s);
  si_within : within (w_db (so_world s));
  si_reserving : reserving_ok (w_db (so_world s)) (so_reserving s);
}.

(** Writes to the goals leave a reservation under way as it is. *)
Lemma effect_reserving d d' r : effect d d' → inv d → reserving_ok d r → reserving_ok d' r.
Proof.
  intros He Hinv. pose proof (effect_evolves _ _ He Hinv) as Hev. pose proof (effect_ledger _ _ He) as Hled.
  assert (∀ id row, gd_objectives d !! id = Some row →
    ∃ row', gd_objectives d' !! id = Some row' ∧ spec_of row' = spec_of row) as Hrow.
  { intros id row Hr. destruct (ev_goal _ _ Hev _ _ Hr) as (row' & ? & ?%same_goal_spec & _). eauto. }
  destruct r as [|id request budget|id request budget settled|id request]; cbn; [done|..];
    intros (row & Hr & Hrest); destruct (Hrow _ _ Hr) as (row' & Hr' & Hs); exists row'; rewrite Hs;
    unfold charged in *; rewrite ?Hled; done.
Qed.

Lemma get_goal_ok id d n r d' n' :
  get_goal id d n = (Ok r, d', n') → d' = d ∧ r = map_goal_snapshot_row id <$> (gd_objectives d !! id).
Proof.
  intros Hg. assert (wp (get_goal id) (λ r d' _, ∀ g, r = Ok g → d' = d ∧ g = map_goal_snapshot_row id <$> (gd_objectives d !! id)) d n) as Hw.
  { apply wp_get_goal; [|done]. intros m g [= <-]. done. }
  unfold wp in Hw. rewrite Hg in Hw. by apply Hw.
Qed.

Lemma usage_ok id status d n u d' n' :
  usage_with id status d n = (Ok u, d', n') →
  gu_attempts u = msum (λ _ row, if of_goal id status row then lg_attempts row else 0) (gd_ledger d).
Proof.
  intros Hu. assert (wp (usage_with id status) (λ r _ _, ∀ u, r = Ok u →
    gu_attempts u = msum (λ _ row, if of_goal id status row then lg_attempts row else 0) (gd_ledger d)) d n) as Hw.
  { apply wp_usage_with; [|done]. intros v m Hv _ ? [= <-]. done. }
  unfold wp in Hw. rewrite Hu in Hw. by apply Hw.
Qed.

Lemma limits_ok budget settled active request d n d' n' :
  check_limits budget settled active request d n = (Ok tt, d', n') →
  wrapping_add32 (wrapping_add32 (gu_attempts settled) (gu_attempts active)) (bq_attempts request) ≤ gb_max_attempts budget.
Proof.
  intros Hc. assert (wp (check_limits budget settled active request) (λ r _ _, r = Ok tt →
    wrapping_add32 (wrapping_add32 (gu_attempts settled) (gu_attempts active)) (bq_attempts request)
      ≤ gb_max_attempts budget) d n) as Hw by (by apply wp_check_limits).
  unfold wp in Hw. rewrite Hc in Hw. by apply Hw.
Qed.

(** What ends a reservation. *)
Lemma ended_step d seen w n :
  (∃ rid usage, w = WSettle rid usage) ∨ (∃ rid, w = WRevoke rid) →
  solo_inv (on d seen Idle) → solo_inv (on (perform w d n) seen Idle) ∧ evolves d (perform w d n).
Proof.
  intros Hw [[Hinv Hled Hseen] Hwi _]. cbn in *.
  assert (ends d (perform w d n)) as He.
  { destruct Hw as [(rid & usage & ->)|(rid & ->)]; cbn; apply after_wp; [by apply settle_ends|by apply revoke_ends]. }
  pose proof (ends_effect _ _ He) as Hl. destruct (ledger_effect_keeps _ _ Hl Hinv) as [Hinv' Hev].
  split; [|done]. split; cbn; [split; cbn; [done|by eapply ledger_effect_inv|eauto using seen_running_evolves]| |done].
  destruct He as [->|(rid & entry & entry' & ? & ? & ? & ? & ? & ->)]; [done|by eapply ended_within].
Qed.

Lemma solo_step_ok s s' :
  solo_step s s' → solo_inv s → solo_inv s' ∧ evolves (w_db (so_world s)) (w_db (so_world s')).
Proof.
  intros [d seen r w n Hal Hw|d seen r id row Hr Hrun|d seen rid usage n|d seen rid n
    |d seen id input output cost now_ms goal n n' Hg _|d seen id request budget settled n n' Hs
    |d seen id request budget settled active n n' n2 n2' Ha Hc|d seen id rid input output cost n|d seen r] Hi;
    pose proof Hi as [[Hinv Hled Hseen] Hwi Hres]; cbn in *.
  - pose proof (perform_goal_effect w d n seen Hw Hal Hinv Hseen) as He. pose proof (effect_evolves _ _ He Hinv) as Hev.
    split; [|done]. split; cbn; [split; cbn; [by eapply effect_inv|by eapply effect_ledger_inv|eauto using seen_running_evolves]|..].
    + by eapply effect_within.
    + by eapply effect_reserving.
  - split; [|done]. split; cbn; [|done..]. split; cbn; [done..|].
    intros x [->|Hs]%elem_of_cons; [|auto]. exists row. cbn. split_and!; [done|lia|done].
  - apply (ended_step d seen (WSettle rid usage)); [left; eauto|done].
  - apply (ended_step d seen (WRevoke rid)); [right; eauto|done].
  - split; [|done]. split; [done..|]. cbn. apply get_goal_ok in Hg as [_ Hg]. symmetry in Hg.
    apply fmap_Some in Hg as (row & Hr & ->). by exists row.
  - split; [|done]. split; [done..|]. cbn. destruct Hres as (row & ? & ? & ?). exists row. split_and!; [done..|by eapply usage_ok].
  - split; [|done]. split; [done..|]. cbn. destruct Hres as (row & Hr & <- & Hone & Hset). exists row. split_and!; [done..|].
    intros Hmax. apply limits_ok in Hc. rewrite Hone in Hc. apply usage_ok in Ha.
    eapply granted_left; [exact Hset|exact Ha|exact Hc|done|by apply Hwi].
  - destruct Hres as (row & Hr & Hone & Hleft).
    pose proof (after_wp _ _ _ _ (insertion_effect id rid (one_attempt input output cost) d n eq_refl)) as Hins.
    pose proof (after_wp _ _ _ _ (reserve_effect id rid (one_attempt input output cost) d n eq_refl)) as Hl.
    destruct (ledger_effect_keeps _ _ Hl Hinv) as [Hinv' Hev]. split; [|done].
    split; cbn; [split; cbn; [done|by eapply ledger_effect_inv|eauto using seen_running_evolves]| |done].
    destruct Hins as [->|(row' & entry & Hr' & Hn & Hid & He & ->)]; [done|].
    replace row' with row in * by congruence. by eapply reserved_within.
  - split; [|done]. by split.
Qed.

Lemma solo_steps_ok s s' :
  clos_refl_trans_1n _ solo_step s s' → solo_inv s → solo_inv s' ∧ evolves (w_db (so_world s)) (w_db (so_world s')).
Proof.
  induction 1 as [s|s s1 s2 Hs _ IH]; intros Hi; [done|]. destruct (solo_step_ok _ _ Hs Hi) as [Hi1 He1].
  destruct (IH Hi1) as [Hi2 He2]. split; [done|by trans (w_db (so_world s1))].
Qed.

Lemma solo_boot_inv : solo_inv solo_boot.
Proof. split; [apply boot_inv| |done]. intros id row Hr. cbn in Hr. by rewrite lookup_empty in Hr. Qed.

(** C11. When one connection reserves, settles and revokes budgets, statement by
    statement and for one attempt at a time, while others write goals and attempts in
    between, a goal whose budget is below the largest number of attempts has never
    more attempts reserved or settled than its budget allows; and an attempt that has
    ended keeps its outcome, whatever follows: it has the result or the failure its
    status says, and its number is its own. *)
Theorem attempts_within_budget s s' id row :
  clos_refl_trans_1n _ solo_step solo_boot s → clos_refl_trans_1n _ solo_step s s' →
  let d := w_db (so_world s) in let d' := w_db (so_world s') in
  gd_objectives d' !! id = Some row →
  (gb_max_attempts (gs_budget (spec_of row)) < u32_max → charged id d' ≤ gb_max_attempts (gs_budget (spec_of row)))
  ∧ (∀ k a, gd_attempts d !! k = Some a →
       ∃ a', gd_attempts d' !! k = Some a' ∧ same_attempt a a' ∧ attempt_ok a'
         ∧ (ga_status a ≠ AttemptStatus.Running → same_outcome a a')
         ∧ ∀ k2 b, gd_attempts d' !! k2 = Some b → ga_goal_id b = ga_goal_id a' →
             ga_sequence b = ga_sequence a' → k2 = k).
Proof.
  intros Hs Hs' d d' Hr. destruct (solo_steps_ok _ _ Hs solo_boot_inv) as [Hi _].
  destruct (solo_steps_ok _ _ Hs' Hi) as [[Hw Hwi _] Hev]. split; [by apply Hwi|].
  intros k a Ha. destruct (ev_attempt _ _ Hev _ _ Ha) as (a' & Ha' & Hsame & Hout). exists a'.
  destruct (inv_attempt _ (wi_inv _ Hw) _ _ Ha') as (_ & Hok & _). split_and!; [done..|].
  intros k2 b Hb Hg Hseq. by eapply (inv_sequence _ (wi_inv _ Hw)).
Qed.

End Runs.

(** ** Methods as runs

    Every method is a sequence of steps, from the tables as they are. *)

Section Methods.
Context `{Env} `{Sqlite} `{GoalEnv}.

Abbreviation steps := (clos_refl_trans_1n _ step).

Lemma goal_steps_trans w1 w2 w3 : steps w1 w2 → steps w2 w3 → steps w1 w3.
Proof. induction 1 as [w|w w1' w2' Hs _ IH]; [done|]. intros. econstructor; eauto. Qed.

(** [m] does nothing but steps, whoever else was seen. *)
Definition runs {E A} (m : M Db E A) : Prop := ∀ d n seen,
  ∃ seen', seen ⊆ seen' ∧ steps {| w_db := d; w_seen := seen |} {| w_db := after m d n; w_seen := seen' |}.

Lemma runs_still {E A} (m : M Db E A) : (∀ d n, after m d n = d) → runs m.
Proof. intros Hm d n seen. exists seen. rewrite Hm. split; [done|constructor]. Qed.

Lemma goal_runs_reads {E A} (m : M Db E A) : reads m → runs m.
Proof. intros Hm. apply runs_still. intros d n. unfold after. by destruct (Hm d n) as (r & n' & -> & _). Qed.

Lemma goal_runs_bind {E A B} (m : M Db E A) (k : A → M Db E B) : runs m → (∀ a, runs (k a)) → runs (m ≫= k).
Proof.
  intros Hm Hk d n seen. destruct (Hm d n seen) as (seen1 & Hsub & Hs). unfold after in *. unfold mbind, M_bind.
  destruct (m d n) as [[[a|e|] d1] n1]; cbn in *; [|by exists seen1..].
  destruct (Hk a d1 n1 seen1) as (seen2 & Hsub2 & Hs2). exists seen2. split; [by trans seen1|by eapply goal_steps_trans].
Qed.

Lemma runs_map_err {E F A} (f : E → F) (m : M Db E A) : runs m → runs (map_err f m).
Proof.
  intros Hm d n seen. destruct (Hm d n seen) as (seen1 & Hsub & Hs). exists seen1. split; [done|].
  unfold after, map_err in *. by destruct (m d n) as [[[a|e|] d1] n1].
Qed.

Lemma runs_try {E A} (m : M Db E A) : runs m → runs (try_ m).
Proof.
  intros Hm d n seen. destruct (Hm d n seen) as (seen1 & Hsub & Hs). exists seen1. split; [done|].
  unfold after, try_ in *. by destruct (m d n) as [[[a|e|] d1] n1].
Qed.

Lemma runs_write {E A} (m : M Db E A) (w : Write) :
  (∀ d n, after m d n = perform w d n) → (∀ seen, allowed w seen) → runs m.
Proof.
  intros Hm Hal d n seen. exists seen. rewrite Hm. split; [done|]. econstructor; [by constructor|constructor].
Qed.

Lemma runs_ret {E A} (a : A) : runs (mret a : M Db E A).
Proof. by apply runs_still. Qed.

Lemma runs_throw {E A} (e : E) : runs (throw e : M Db E A).
Proof. by apply runs_still. Qed.

Lemma runs_panic {E A} : runs (panic : M Db E A).
Proof. by apply runs_still. Qed.

Lemma runs_ok_or {E A} (o : option A) (e : E) : runs (ok_or o e).
Proof. apply goal_runs_reads, reads_ok_or. Qed.

Lemma runs_ensure {E} b (e : E) : runs (ensure b e).
Proof. apply goal_runs_reads, reads_ensure. Qed.

Lemma runs_tick {E} : runs (tick : M Db E N).
Proof. by apply runs_still. Qed.

Lemma runs_wall {E} : runs (read_wall : M Db E Z).
Proof. by apply runs_still. Qed.

Lemma runs_uuid {E} : runs (new_uuid : M Db E Uuid).
Proof. by apply runs_still. Qed.

Lemma runs_get_state {E} : runs (get_state : M Db E Db).
Proof. by apply runs_still. Qed.

Lemma runs_execute {E} (sql : SqlError unit → E) : runs (execute sql).
Proof. apply goal_runs_reads, reads_execute. Qed.

Ltac run_step :=
  cbv zeta; lazymatch goal with
  | |- runs (_ ≫= _) => apply goal_runs_bind; [|intros ?]
  | |- runs (map_err _ _) => apply runs_map_err
  | |- runs (try_ _) => apply runs_try
  | |- runs (mret _) => apply runs_ret
  | |- runs (throw _) => apply runs_throw
  | |- runs panic => apply runs_panic
  | |- runs (ok_or _ _) => apply runs_ok_or
  | |- runs (ensure _ _) => apply runs_ensure
  | |- runs (constraint _ _ _) => apply runs_ensure
  | |- runs tick => apply runs_tick
  | |- runs read_wall => apply runs_wall
  | |- runs new_uuid => apply runs_uuid
  | |- runs get_state => apply runs_get_state
  | |- runs statement => apply runs_execute
  | |- runs (execute _) => apply runs_execute
  | |- runs (match ?x with _ => _ end) => destruct x
  | |- runs _ => solve [auto with aletheon]
  end.

Ltac run_steps := repeat run_step.

Lemma create_runs description parent session scope : runs (create description parent session scope).
Proof. by apply (runs_write _ (WCreate description parent session scope)). Qed.

Lemma get_goal_runs id : runs (get_goal id).
Proof. unfold get_goal. run_steps. Qed.

Lemma stored_attempt_runs k missing : runs (stored_attempt k missing).
Proof. unfold stored_attempt, attempt. run_steps. Qed.

Lemma attempts_for_goal_runs id limit : runs (attempts_for_goal id limit).
Proof. unfold attempts_for_goal. run_steps. Qed.

Lemma list_goals_runs states limit : runs (list_goals states limit).
Proof. unfold list_goals. run_steps. Qed.

#[local] Hint Resolve get_goal_runs stored_attempt_runs attempts_for_goal_runs list_goals_runs : aletheon.

Lemma create_goal_runs owner session scope spec : runs (create_goal owner session scope spec).
Proof.
  unfold create_goal, create_goal_with_state. run_step; [|run_steps].
  by apply (runs_write _ (WGoal owner session scope spec false)).
Qed.

Lemma create_draft_goal_runs owner session scope spec : runs (create_draft_goal owner session scope spec).
Proof.
  unfold create_draft_goal, create_goal_with_state. run_step; [|run_steps].
  by apply (runs_write _ (WGoal owner session scope spec true)).
Qed.

Lemma set_status_runs id status : runs (set_status id status).
Proof. by apply (runs_write _ (WStatus id status)). Qed.

Lemma transition_goal_runs id v next wait payload : runs (transition_goal id v next wait payload).
Proof. unfold transition_goal. run_step; [by apply (runs_write _ (WTransition id v next wait payload))|run_steps]. Qed.

Lemma begin_attempt_with_id_runs k id sequence runtime role input :
  runs (begin_attempt_with_id k id sequence runtime role input).
Proof. unfold begin_attempt_with_id. run_step; [by apply (runs_write _ (WBegin k id sequence runtime role input))|run_steps]. Qed.

#[local] Hint Resolve transition_goal_runs begin_attempt_with_id_runs : aletheon.

Lemma begin_attempt_runs id sequence runtime role input : runs (begin_attempt id sequence runtime role input).
Proof. unfold begin_attempt. run_steps. Qed.

Lemma finish_attempt_runs k outcome : runs (finish_attempt k outcome).
Proof. unfold finish_attempt. run_step; [by apply (runs_write _ (WOutcome k outcome))|run_steps]. Qed.

Lemma cancel_attempt_runs k failure : runs (cancel_attempt k failure).
Proof.
  unfold cancel_attempt. run_step; [run_steps|]. run_step; [|run_steps].
  by apply (runs_write _ (WCancel k (failure_bounded MAX_ATTEMPT_FIELD_BYTES failure))).
Qed.

#[local] Hint Resolve begin_attempt_runs finish_attempt_runs cancel_attempt_runs : aletheon.

Lemma recover_stale_attempts_runs : runs recover_stale_attempts.
Proof.
  unfold recover_stale_attempts. run_steps. generalize (ga_id <$> sort_by by_goal_and_sequence
    (filter (λ b, ga_status b = AttemptStatus.Running) (map_to_list (gd_attempts a0)).*2)).
  intros ids. induction ids as [|k ids IH]; cbn [cancel_each]; run_steps.
Qed.

Lemma append_attempt_evidence_runs k additional : runs (append_attempt_evidence k additional).
Proof.
  unfold append_attempt_evidence, evidence_plan. run_step; [run_steps|]. run_step; [|run_steps].
  by eapply (runs_write _ (WEvidence _ _)).
Qed.

Lemma reads_get_goal id : reads (get_goal id).
Proof. unfold get_goal. apply reads_bind; [apply reads_execute|intros ?]. apply reads_bind; [apply reads_get|intros ?]. apply reads_ret. Qed.

Lemma reads_usage id status : reads (usage_with id status).
Proof.
  unfold usage_with, sum_integer. repeat (cbv zeta; first [apply reads_execute | apply reads_bind; [|intros ?] | apply reads_get
    | apply reads_ensure | apply reads_ret]).
Qed.

Lemma reads_limits budget settled active request : reads (check_limits budget settled active request).
Proof.
  unfold check_limits. cbv zeta. do 3 (apply reads_bind; [first [apply reads_ensure|case_match; [apply reads_ensure|apply reads_ret]]|intros ?]).
  apply reads_ensure.
Qed.

Lemma reserve_runs id input output cost now_ms : runs (reserve_goal_budget id (one_attempt input output cost) now_ms).
Proof.
  unfold reserve_goal_budget. run_step.
  { unfold check_budget, settled_usage, active_reserved_usage, usage_with, sum_integer, check_limits. run_steps. }
  run_step; [run_steps|]. cbv zeta. run_step; [by apply (runs_write _ (WInsert id (uuid_text a0) input output cost))|].
  run_steps.
Qed.

(** Alone on the ledger, the method is a run of its statements. *)
Lemma reserve_solo id input output cost now_ms d n seen :
  clos_refl_trans_1n _ solo_step (on d seen Idle)
    (on (after (reserve_goal_budget id (one_attempt input output cost) now_ms) d n) seen Idle).
Proof.
  assert (∀ E A (m : M Db E A), reads m → ∀ n, ∃ r n', m d n = (r, d, n') ∧ r ≠ Panic) as Hreads by (intros E A m Hm n0; apply Hm).
  assert (∀ r, clos_refl_trans_1n _ solo_step (on d seen r) (on d seen Idle)) as Hstop.
  { intros r. econstructor; [apply solo_stop|constructor]. }
  unfold after, reserve_goal_budget, check_budget. set (rq := one_attempt input output cost).
  unfold mbind at 1, M_bind at 1. unfold mbind at 1, M_bind at 1. unfold map_err at 1.
  destruct (Hreads _ _ (get_goal id) (reads_get_goal id) n) as (rg & n1 & Hg & Hgp). rewrite Hg.
  destruct rg as [[goal|]|e|]; [|apply Hstop|apply Hstop|done]. cbn [ok_or].
  unfold mbind at 1, M_bind at 1. cbn [mret M_ret]. unfold mbind at 1, M_bind at 1.
  destruct (in_time (gs_budget (gl_spec goal)) now_ms) eqn:Htime; unfold in_time in Htime.
  2: { destruct (gb_deadline_ms _) as [deadline|]; [|done]. unfold ensure. rewrite Htime. apply Hstop. }
  replace ((match gb_deadline_ms (gs_budget (gl_spec goal)) with
    | Some deadline => ensure (negb (deadline <? now_ms)%Z) (DeadlineExpired deadline now_ms)
    | None => mret tt end : M Db GoalBudgetError unit) d n1) with (Ok tt : Result GoalBudgetError unit, d, n1)
    by (destruct (gb_deadline_ms _); [unfold ensure; by rewrite Htime|done]).
  econstructor; [by eapply (solo_ask d seen id input output cost now_ms)|]. fold rq.
  unfold mbind at 1, M_bind at 1.
  destruct (Hreads _ _ _ (reads_usage id LedgerStatus.Settled) n1) as (rs & n2 & Hs & Hsp). unfold settled_usage. rewrite Hs.
  destruct rs as [settled|e|]; [|apply Hstop|done]. econstructor; [by eapply solo_read_settled|].
  unfold mbind at 1, M_bind at 1.
  destruct (Hreads _ _ _ (reads_usage id LedgerStatus.Reserved) n2) as (ra & n3 & Ha & Hap). unfold active_reserved_usage. rewrite Ha.
  destruct ra as [active|e|]; [|apply Hstop|done].
  destruct (Hreads _ _ _ (reads_limits (gs_budget (gl_spec goal)) settled active rq) n3) as (rl & n4 & Hl & Hlp). rewrite Hl.
  destruct rl as [[]|e|]; [|apply Hstop|done]. econstructor; [by eapply solo_read_active|].
  econstructor; [apply (solo_insert d seen id (uuid_text (uuid_v4 n4)) input output cost (n4 + 1))|]. fold rq.
  match goal with |- clos_refl_trans_1n _ _ (on ?x _ _) (on ?y _ _) => assert (y = x) as ->; [|constructor] end.
  cbn [perform]. fold rq. unfold after, new_uuid, tick, mbind, M_bind, mret, M_ret.
  destruct (insert_reservation id (uuid_text (uuid_v4 n4)) rq d (n4 + 1)) as [[[[]|e|] d5] n5]; cbn; [|done..].
  destruct (reads_execute ledger_sql d5 n5) as (re & n6 & -> & _). destruct re as [[]|e|]; [|done..]. unfold get_state.
  by destruct (gd_ledger d5 !! _).
Qed.

Lemma settle_runs rid usage : runs (settle_goal_budget rid (Attempts.usage_for_budget usage)).
Proof. by apply (runs_write _ (WSettle rid usage)). Qed.

Lemma revoke_runs rid : runs (revoke_goal_budget rid).
Proof. by apply (runs_write _ (WRevoke rid)). Qed.

Lemma record_evaluation_feedback_runs receipt : runs (record_evaluation_feedback receipt).
Proof.
  unfold record_evaluation_feedback. run_steps. by eapply (runs_write _ (WFeedback _)).
Qed.

(** The goals to recover are seen before they are recovered. *)
Lemma recover_each_runs candidates d n seen :
  (∀ goal, goal ∈ candidates → gl_state goal = GoalState.Running → (gl_id goal, gl_version goal) ∈ seen) →
  ∃ seen', seen ⊆ seen' ∧ steps {| w_db := d; w_seen := seen |} {| w_db := after (recover_each candidates) d n; w_seen := seen' |}.
Proof.
  revert d n seen. induction candidates as [|goal rest IH]; intros d n seen Hseen; cbn [recover_each].
  { exists seen. split; [done|constructor]. }
  assert (∀ d n seen, (∀ goal, goal ∈ rest → gl_state goal = GoalState.Running → (gl_id goal, gl_version goal) ∈ seen) →
    ∀ fresh : GoalSnapshot, ∃ seen', seen ⊆ seen' ∧ steps {| w_db := d; w_seen := seen |}
      {| w_db := after (recovered ← recover_each rest; mret (fresh :: recovered)) d n; w_seen := seen' |}) as Hrest.
  { intros d1 n1 seen1 Hs fresh. destruct (IH d1 n1 seen1 Hs) as (seen2 & Hsub & Hst). exists seen2. split; [done|].
    unfold after, mbind, M_bind in *. by destruct (recover_each rest d1 n1) as [[[l|e|] d2] n2]. }
  assert (∀ g, g ∈ rest → gl_state g = GoalState.Running → (gl_id g, gl_version g) ∈ seen) as Hseen'
    by (intros g Hg; apply Hseen; by right).
  destruct (decide (gl_state goal = GoalState.Running)) as [Hrun|Hrun].
  2: { destruct (gl_state goal); try done; apply (Hrest d n seen Hseen' goal). }
  rewrite Hrun. set (fetch := fresh ← get_goal (gl_id goal); ok_or fresh (Message "goal disappeared during recovery")).
  assert (runs fetch) as Hfetch by (unfold fetch; run_steps).
  unfold after, mbind at 1, M_bind at 1. unfold mbind at 1, M_bind at 1.
  assert (step {| w_db := d; w_seen := seen |}
    {| w_db := after (persist_recovery (gl_id goal) (gl_version goal + 1)) d n; w_seen := seen |}) as Hs1.
  { apply (step_write _ _ (WRecover (gl_id goal) (gl_version goal))). apply Hseen; [left|done]. }
  unfold after in Hs1. destruct (persist_recovery _ _ d n) as [[[[]|e|] d1] n1]; cbn in Hs1.
  2, 3: (exists seen; split; [done|]; econstructor; [exact Hs1|constructor]).
  destruct (Hfetch d1 n1 seen) as (seen2 & Hsub2 & Hs2). unfold after in Hs2.
  change (get_goal (gl_id goal) ≫= λ fresh, ok_or fresh (Message "goal disappeared during recovery")) with fetch.
  destruct (fetch d1 n1) as [[[fresh|e|] d2] n2]; cbn in Hs2.
  2, 3: (exists seen2; split; [done|]; econstructor; [exact Hs1|exact Hs2]).
  destruct (Hrest d2 n2 seen2 (λ g Hg Hr, Hsub2 _ (Hseen' g Hg Hr)) fresh) as (seen3 & Hsub3 & Hs3).
  exists seen3. split; [by trans seen2|]. econstructor; [exact Hs1|]. eapply goal_steps_trans; [exact Hs2|exact Hs3].
Qed.

Lemma see_all d seen (goals : list GoalSnapshot) :
  (∀ goal, goal ∈ goals → ∃ row, gd_objectives d !! gl_id goal = Some row ∧ goal = map_goal_snapshot_row (gl_id goal) row) →
  ∃ seen', seen ⊆ seen' ∧ steps {| w_db := d; w_seen := seen |} {| w_db := d; w_seen := seen' |}
    ∧ ∀ goal, goal ∈ goals → gl_state goal = GoalState.Running → (gl_id goal, gl_version goal) ∈ seen'.
Proof.
  revert seen. induction goals as [|goal goals IH]; intros seen Hg.
  { exists seen. split_and!; [done|constructor|]. by intros ? ?%elem_of_nil. }
  destruct (IH seen) as (seen1 & Hsub & Hs & Hin); [intros g Hin; apply Hg; by right|].
  destruct (decide (gl_state goal = GoalState.Running)) as [Hrun|Hrun].
  - destruct (Hg goal) as (row & Hr & Heq); [left|]. rewrite Heq in Hrun. cbn in Hrun.
    exists ((gl_id goal, ob_version row) :: seen1). split_and!.
    + intros x Hx. right. auto.
    + eapply goal_steps_trans; [exact Hs|]. econstructor; [by apply step_see|constructor].
    + intros g [->|Hg']%elem_of_cons Hrun'; [rewrite Heq; left|right; auto].
  - exists seen1. split_and!; [done..|]. intros g [->|Hg']%elem_of_cons Hrun'; [done|auto].
Qed.

Lemma recover_goals_runs : runs recover_goals.
Proof.
  intros d n seen. unfold recover_goals, recoverable_goals, after. unfold mbind at 1, M_bind at 1.
  unfold mbind at 1, M_bind at 1. destruct (reads_execute Sql d n) as (r & n1 & Hex & _). change statement with (execute (S := Db) Sql).
  rewrite Hex. destruct r as [[]|e|]; [|exists seen; split; [done|constructor]..]. cbn.
  unfold mbind at 1, M_bind at 1, get_state at 1, mret at 1, M_ret at 1. cbv beta iota.
  match goal with |- context [recover_each ?l d n1] => set (goals := l) end.
  destruct (see_all d seen goals) as (seen1 & Hsub & Hs & Hin).
  { intros goal ((id & row) & -> & Hmem)%list_elem_of_fmap. rewrite sort_by_perm in Hmem.
    apply list_elem_of_filter in Hmem as [_ Hmem%elem_of_map_to_list]. by exists row. }
  destruct (recover_each_runs goals d n1 seen1 Hin) as (seen2 & Hsub2 & Hs2). exists seen2. split; [by trans seen1|].
  eapply goal_steps_trans; [exact Hs|exact Hs2].
Qed.

#[local] Hint Resolve reserve_runs settle_runs revoke_runs : aletheon.

Lemma tick_runs id now_ms : runs (Coordinator.tick id now_ms).
Proof.
  unfold Coordinator.tick. run_steps. by apply (reserve_runs id 0 0 f64_zero now_ms).
Qed.

Lemma set_process_link_runs id v process : runs (Coordinator.set_process_link id v process).
Proof.
  unfold Coordinator.set_process_link. do 2 (run_step; [run_steps|]).
  intros d n seen. unfold after, mbind at 1, M_bind at 1, ensure. destruct (N.eqb_spec (gl_version a0) v) as [->|Hne]; cbn.
  - match goal with |- context [(?m ≫= ?k) d n] => assert (runs (m ≫= k)) as Hm end; [|exact (Hm d n seen)].
    run_step; [by apply (runs_write _ (WLink id v process))|run_steps].
  - exists seen. split; [done|constructor].
Qed.

Lemma act_runs id a v : runs (Coordinator.act id a v).
Proof. unfold Coordinator.act. run_steps. Qed.

Lemma wake_runs `{!Coordinator.ConditionCodec} principal event : runs (Coordinator.wake_for_external_event principal event).
Proof.
  unfold Coordinator.wake_for_external_event. run_step; [run_steps|].
  induction a as [|goal goals IH]; cbn [Coordinator.wake_each]; run_steps.
Qed.

#[local] Hint Resolve tick_runs : aletheon.

Section Flow.
Context `{!Attempts.AttemptExecutor} (policy : RetryPolicy).
Import Attempts.

Lemma transition_after_runs id state wait payload : runs (transition_after id state wait payload).
Proof. unfold transition_after. run_steps. Qed.

#[local] Hint Resolve transition_after_runs : aletheon.

Lemma finish_runs request outcome a : runs (finish_non_coding_attempt policy request outcome a).
Proof. unfold finish_non_coding_attempt, failure_outcome, persist_decision. run_steps. Qed.

#[local] Hint Resolve finish_runs : aletheon.

Lemma or_revoke_runs {A} rid (m : M Db StoreError A) : runs m → runs (or_revoke rid m).
Proof. intros Hm. unfold or_revoke. run_steps. Qed.

Lemma running_goal_runs request : runs (running_goal request).
Proof. unfold running_goal. run_steps. Qed.

Lemma recover_settlement_runs request a : runs (recover_settlement policy request a).
Proof. unfold recover_settlement, persisted_outcome. run_steps. Qed.

Lemma begin_one_runs request : runs (begin_one request).
Proof.
  unfold begin_one. run_step; [apply running_goal_runs|]. run_steps.
  - apply reserve_runs.
  - apply or_revoke_runs. auto with aletheon.
Qed.

Lemma end_one_runs rid k outcome : runs (end_one rid k outcome).
Proof. unfold end_one. run_step; [apply or_revoke_runs; run_steps|run_steps]. Qed.

Lemma invoke_runs runtime task : runs (invoke runtime task).
Proof. unfold invoke. run_step; [run_steps|]. run_step; [by apply (runs_write _ (WInvoke runtime task))|run_steps]. Qed.

#[local] Hint Resolve running_goal_runs recover_settlement_runs begin_one_runs end_one_runs invoke_runs : aletheon.

Lemma execute_one_runs request : runs (execute_one policy request).
Proof. unfold execute_one. run_steps. Qed.

End Flow.

#[local] Hint Resolve execute_one_runs : aletheon.

Lemma tick_once_runs `{!Attempts.AttemptExecutor} worker reviewer : runs (GoalWorker.tick_once worker reviewer).
Proof.
  unfold GoalWorker.tick_once, GoalWorker.work_on, GoalWorker.wake_blocked, GoalWorker.wake_route, GoalWorker.latest_route.
  run_steps.
Qed.

End Methods.
