(* ===== verification/GoalLive.v ===== *)
(** * An attempt of a goal, carried through; examples

    When the database works, one call of [execute_one] invokes the runtime once,
    records its outcome, settles the budget and leaves the goal where the outcome
    puts it.  Then concrete runs, among them those where the code falls short. *)
From stdpp Require Import pretty.
From S2P Require Import Prelude FabricTypes StdModel Fallible Database StdText AuditLog StdFloat ApprovalTypes GoalTypes GoalStore GoalFlow GoalSpec.
From Stdlib Require Import Relations.
Import GoalStore Attempts.

#[local] Open Scope N_scope.

Section Live.
Context `{Env} `{Sqlite} `{GoalEnv} `{AttemptExecutor} (policy : RetryPolicy).
Context (healthy : ∀ n, sqlite n = None).

Lemma wp_execute_ok {E} (sql : SqlError unit → E) (Q : Result E unit → Db → N → Prop) d n :
  (∀ n', Q (Ok tt) d n') → wp (execute sql) Q d n.
Proof. intros HQ. unfold execute. wp_step. wp_step. rewrite healthy. apply wp_ret. auto. Qed.

Lemma wp_goal_statement_ok (Q : Result StoreError unit → Db → N → Prop) d n : (∀ n', Q (Ok tt) d n') → wp statement Q d n.
Proof. apply wp_execute_ok. Qed.

(** A transaction whose body succeeds *)
Lemma wp_goal_transaction_ok {E A} (sql : SqlError unit → E) (body : M Db E A) (Q : Result E A → Db → N → Prop) d n :
  (∀ n1, wp body (λ r d' _, ∃ a, r = Ok a ∧ ∀ n', Q (Ok a) d' n') d n1) → wp (transaction sql body) Q d n.
Proof.
  intros Hbody. unfold wp, transaction. unfold mbind at 1, M_bind at 1.
  pose proof (wp_execute_ok sql (λ r d' _, r = Ok tt ∧ d' = d) d n ltac:(done)) as He. unfold wp in He.
  destruct (execute sql d n) as [[r d1] n1]. destruct He as [-> ->]. unfold mbind at 1, M_bind at 1.
  specialize (Hbody n1). unfold wp in Hbody. destruct (body d n1) as [[r d2] n2]. destruct Hbody as (a & -> & HQ).
  unfold mbind, M_bind. pose proof (wp_execute_ok sql (λ r d' _, r = Ok tt ∧ d' = d2) d2 n2 ltac:(done)) as He. unfold wp in He.
  destruct (execute sql d2 n2) as [[r d3] n3]. destruct He as [-> ->]. apply HQ.
Qed.

Lemma wp_get_goal_ok id row (Q : Result StoreError (option GoalSnapshot) → Db → N → Prop) d n :
  gd_objectives d !! id = Some row → (∀ n', Q (Ok (Some (map_goal_snapshot_row id row))) d n') → wp (get_goal id) Q d n.
Proof.
  intros Hr HQ. unfold get_goal. wp_step. apply wp_goal_statement_ok. intros n1. wp_step. apply wp_get, wp_ret. rewrite Hr. apply HQ.
Qed.

Lemma wp_update_goal_ok id expected row f (Q : Result StoreError N → Db → N → Prop) d n :
  gd_objectives d !! id = Some row → expected = Some (ob_version row) →
  (∀ at_ n', Q (Ok 1) (with_objectives (<[id := f at_ row]>) d) n') → wp (update_goal id expected f) Q d n.
Proof.
  intros Hr -> HQ. unfold update_goal. wp_step. apply wp_now. intros at_ n1. wp_step. apply wp_goal_statement_ok. intros n2.
  wp_step. apply wp_get. rewrite Hr, N.eqb_refl. wp_step. apply wp_modify, wp_ret, HQ.
Qed.

Lemma wp_insert_event_ok id version event_type payload (Q : Result StoreError unit → Db → N → Prop) d n :
  version ≤ i64_max → is_Some (gd_objectives d !! id) → existsb (event_key id version) (gd_events d) = false →
  (∀ at_ n', Q (Ok tt) (with_events (λ es, es ++ [{| ge_objective_id := id; ge_version := version;
     ge_event_type := event_type; ge_payload := payload; ge_created_at := at_ |}]) d) n') →
  wp (insert_event id version event_type payload) Q d n.
Proof.
  intros Hv Hg Hf HQ. unfold insert_event. wp_step. apply wp_now. intros at_ n1.
  wp_step. apply wp_ensure; [intros _|by rewrite (proj2 (N.leb_le _ _) Hv)]. wp_step. apply wp_goal_statement_ok. intros n2.
  wp_step. apply wp_get. wp_step. apply wp_ensure; [intros _|by rewrite bool_decide_true].
  wp_step. apply wp_ensure; [intros _|by rewrite Hf]. apply wp_modify, HQ.
Qed.

(** The next version of a goal has no event yet. *)
Lemma next_event_free d id row :
  inv d → gd_objectives d !! id = Some row → existsb (event_key id (ob_version row + 1)) (gd_events d) = false.
Proof.
  intros Hinv Hr. destruct (existsb _ _) eqn:Hf; [|done]. exfalso.
  apply existsb_exists in Hf as (e & He%list_elem_of_In & Hk). unfold event_key in Hk.
  apply andb_true_iff in Hk as [Hid%bool_decide_eq_true Hv%N.eqb_eq].
  destruct (inv_goal _ Hinv _ _ Hr) as [_ (first & init & _ & Hc & _)].
  assert (ge_version e ∈ (ge_version <$> events_of id d)) as Hin.
  { apply list_elem_of_fmap. exists e. split; [done|]. by apply list_elem_of_filter. }
  apply (counts_up_elem _ _ _ _ Hc) in Hin. lia.
Qed.

(** The goal has a new row, everything else is as it was. *)
Definition moved (id : GoalId) (row' : ObjectiveRow) (d d' : Db) : Prop :=
  gd_objectives d' = <[id := row']> (gd_objectives d) ∧ gd_ledger d' = gd_ledger d ∧ gd_attempts d' = gd_attempts d
  ∧ gd_invocations d' = gd_invocations d.

Lemma wp_attempt_event_ok id row event_type payload (Q : Result StoreError unit → Db → N → Prop) d n :
  inv d → gd_objectives d !! id = Some row → event_move event_type = Stay → ob_version row + 1 ≤ i64_max →
  (∀ d' row' n', inv d' → moved id row' d d' → same_goal row row' → ob_goal_state row' = ob_goal_state row →
     ob_version row' = ob_version row + 1 → Q (Ok tt) d' n') →
  wp (append_attempt_event id event_type payload) Q d n.
Proof.
  intros Hinv Hr Hm Hv HQ. unfold append_attempt_event. wp_step. apply wp_goal_statement_ok. intros n1. wp_step. apply wp_get.
  wp_step. rewrite Hr. apply wp_ret. cbv zeta.
  assert (saturating_add (ob_version row) 1 = ob_version row + 1) as ->.
  { apply saturating_add_exact. unfold i64_max, u64_max in *. lia. }
  wp_step. apply wp_ensure; [intros _|by rewrite (proj2 (N.leb_le _ _) Hv)].
  wp_step. eapply wp_update_goal_ok; [done|done|]. intros at_ n2. wp_step. apply wp_ensure; [intros _|done].
  apply wp_insert_event_ok; [done|cbn; by rewrite lookup_insert_eq|exact (next_event_free d id row Hinv Hr)|]. intros at' n3.
  eapply HQ; [eapply bump_inv; [exact Hinv|]; apply bump_intro; [exact Hr| | |]|by split_and!| | |]; try done. by rewrite Hm.
Qed.

(** *** The parts of a call *)

Lemma wp_stored_ok k a missing (Q : Result StoreError GoalAttempt → Db → N → Prop) d n :
  gd_attempts d !! k = Some a → (∀ n', Q (Ok a) d n') → wp (stored_attempt k missing) Q d n.
Proof.
  intros Ha HQ. unfold stored_attempt, attempt. wp_step. wp_step. apply wp_goal_statement_ok. intros n1. wp_step. apply wp_get, wp_ret.
  rewrite Ha. apply wp_ret, HQ.
Qed.

Lemma wp_attempts_ok id limit (Q : Result StoreError (list GoalAttempt) → Db → N → Prop) d n :
  (∀ n', Q (Ok (sql_limit limit (sort_by later_sequence (filter (λ a, ga_goal_id a = id) (map_to_list (gd_attempts d)).*2)))) d n') →
  wp (attempts_for_goal id limit) Q d n.
Proof. intros HQ. unfold attempts_for_goal. wp_step. apply wp_goal_statement_ok. intros n1. wp_step. apply wp_get, wp_ret, HQ. Qed.

(** The goal and the attempt have new rows, the ledger is as it was. *)
Definition attempt_moved (id : GoalId) (row' : ObjectiveRow) (k : AttemptId) (a' : GoalAttempt) (d d' : Db) : Prop :=
  gd_objectives d' = <[id := row']> (gd_objectives d) ∧ gd_ledger d' = gd_ledger d
  ∧ gd_attempts d' = <[k := a']> (gd_attempts d) ∧ gd_invocations d' = gd_invocations d.

Lemma wp_begin_ok id row sequence runtime role input (Q : Result StoreError GoalAttempt → Db → N → Prop) d n :
  inv d → gd_objectives d !! id = Some row → ob_version row + 1 ≤ i64_max → sequence_taken id sequence d = false →
  (∀ m, gd_attempts d !! uuid_v4 m = None) →
  (∀ d' row' k at_ n', let a := new_attempt k id sequence runtime role input at_ in
     inv d' → attempt_moved id row' k a d d' → gd_attempts d !! k = None → same_goal row row' →
     ob_goal_state row' = ob_goal_state row → ob_version row' = ob_version row + 1 → Q (Ok a) d' n') →
  wp (begin_attempt id sequence runtime role input) Q d n.
Proof.
  intros Hinv Hr Hv Hseq Hfresh HQ. unfold begin_attempt. wp_step. apply wp_new_uuid. set (k := uuid_v4 n).
  unfold begin_attempt_with_id. wp_step. apply wp_goal_transaction_ok. intros n1. unfold ensure_goal_exists. wp_step. wp_step.
  apply wp_goal_statement_ok. intros n2. wp_step. apply wp_get, wp_ensure; [intros _|by rewrite Hr, bool_decide_true by done].
  wp_step. apply wp_now. intros at_ n3. set (a := new_attempt k id sequence runtime role input at_).
  wp_step. unfold insert_attempt. wp_step. apply wp_goal_statement_ok. intros n4. wp_step. apply wp_get.
  wp_step. apply wp_ensure; [intros _|by rewrite bool_decide_true by apply Hfresh].
  wp_step. apply wp_ensure; [intros _|cbn; by rewrite Hseq].
  wp_step. apply wp_ensure; [intros _|cbn; by rewrite Hr, bool_decide_true by done]. apply wp_modify.
  eapply (wp_attempt_event_ok id row); [|exact Hr|done|done|].
  { apply begin_inv; [done|apply Hfresh|done|done|cbn; by rewrite Hr]. }
  intros d' row' n5 Hinv' (Ho & Hl & Ha & Hin) Hs Hst Hvv. exists tt. split; [done|]. intros n6.
  apply (wp_stored_ok k a); [rewrite Ha; cbn; apply lookup_insert_eq|]. intros n7.
  eapply HQ; try done. apply Hfresh.
Qed.

(** What [finish_attempt] or [cancel_attempt] makes of an attempt *)
Definition outcome_status (outcome : Outcome) : AttemptStatus.t :=
  match outcome with
  | inr _ => AttemptStatus.Succeeded
  | inl failure => if decide (rf_class failure = FailureClass.Cancelled) then AttemptStatus.Cancelled else AttemptStatus.Failed
  end.

Definition outcome_usage (outcome : Outcome) : AttemptUsage :=
  match outcome with inr result => rt_usage result | inl failure => rf_usage failure end.

(** The attempt with its outcome, as it is stored *)
Definition ended (a : GoalAttempt) (outcome : Outcome) (a' : GoalAttempt) : Prop :=
  same_attempt a a' ∧ ga_status a' = outcome_status outcome ∧ ga_usage a' = outcome_usage outcome
  ∧ match outcome with
    | inr result => ga_output a' = Some (result_bounded MAX_ATTEMPT_FIELD_BYTES result) ∧ ga_failure a' = None
    | inl failure => ga_output a' = None ∧ ga_failure a' = Some (failure_bounded MAX_ATTEMPT_FIELD_BYTES failure)
    end.

Lemma wp_end_ok id row k a status output failure evidence usage event_type payload missing
    (Q : Result StoreError GoalAttempt → Db → N → Prop) d n :
  inv d → gd_objectives d !! id = Some row → ob_version row + 1 ≤ i64_max → gd_attempts d !! k = Some a →
  ga_status a = AttemptStatus.Running → ga_goal_id a = id → event_move event_type = Stay →
  (∀ a', ga_status a' = status → ga_output a' = output → ga_failure a' = failure → attempt_ok a') →
  (∀ d' row' a' n', inv d' → attempt_moved id row' k a' d d' → same_attempt a a' → ga_status a' = status →
     ga_output a' = output → ga_failure a' = failure → ga_usage a' = usage → same_goal row row' →
     ob_goal_state row' = ob_goal_state row → ob_version row' = ob_version row + 1 → Q (Ok a') d' n') →
  wp (transaction Sql (
        identity ← attempt_identity k;
        ensure_running identity.2 ;;
        update_terminal_attempt k status output failure evidence usage ;;
        append_attempt_event identity.1 event_type payload) ;; stored_attempt k missing) Q d n.
Proof.
  intros Hinv Hr Hv Ha Hrun Hg Hm Hok HQ. wp_step. apply wp_goal_transaction_ok. intros n1. unfold attempt_identity. wp_step. wp_step.
  apply wp_goal_statement_ok. intros n2. wp_step. apply wp_get. wp_step. rewrite Ha. apply wp_ret, wp_ret.
  wp_step. apply wp_ensure; [intros _|cbn; by rewrite Hrun]. unfold update_terminal_attempt. wp_step. wp_step.
  apply wp_now. intros at_ n3. wp_step. apply wp_goal_statement_ok. intros n4. wp_step. apply wp_get. rewrite Ha.
  wp_step. apply wp_ensure; [intros _|cbn; by rewrite Hrun]. apply wp_modify. cbn [fst]. rewrite Hg.
  match goal with |- context [with_attempts (<[k := ?b]>) d] => set (a' := b) end.
  eapply (wp_attempt_event_ok id row); [|exact Hr|done|done|].
  { eapply update_attempt_inv; [done|done|done|by apply Hok]. }
  intros d' row' n5 Hinv' (Ho & Hl & Hat & Hin) Hs Hst Hvv. exists tt. split; [done|]. intros n6.
  apply (wp_stored_ok k a'); [rewrite Hat; cbn; apply lookup_insert_eq|]. intros n7.
  eapply HQ; done.
Qed.

Lemma wp_record_ok id row k a outcome (Q : Result StoreError GoalAttempt → Db → N → Prop) d n :
  inv d → gd_objectives d !! id = Some row → ob_version row + 1 ≤ i64_max → gd_attempts d !! k = Some a →
  ga_status a = AttemptStatus.Running → ga_goal_id a = id →
  (∀ d' row' a' n', inv d' → attempt_moved id row' k a' d d' → ended a outcome a' → same_goal row row' →
     ob_goal_state row' = ob_goal_state row → ob_version row' = ob_version row + 1 → Q (Ok a') d' n') →
  wp (match outcome with
      | inl failure =>
          if decide (rf_class failure = FailureClass.Cancelled) then cancel_attempt k failure else finish_attempt k outcome
      | inr _ => finish_attempt k outcome
      end) Q d n.
Proof.
  intros Hinv Hr Hv Ha Hrun Hg HQ. destruct outcome as [failure|result].
  - destruct (decide (rf_class failure = FailureClass.Cancelled)) as [Hc|Hc].
    + unfold cancel_attempt. wp_step. apply wp_ensure; [intros _|by rewrite bool_decide_true]. cbv zeta.
      eapply wp_end_ok; try done; [intros a' Hs Ho Hf; unfold attempt_ok; by rewrite Hs, Ho, Hf|].
      intros d' row' a' n' Hi Hmv Hsame Hs Ho Hf Hu. intros. eapply HQ; try done.
      unfold ended, outcome_status. rewrite decide_True by done. by split_and!.
    + eapply wp_end_ok; try done; [intros a' Hs Ho Hf; unfold attempt_ok; by rewrite Hs, Ho, Hf|].
      intros d' row' a' n' Hi Hmv Hsame Hs Ho Hf Hu. intros. eapply HQ; try done.
      unfold ended, outcome_status. rewrite decide_False by done. by split_and!.
  - eapply wp_end_ok; try done; [intros a' Hs Ho Hf; unfold attempt_ok; by rewrite Hs, Ho, Hf|].
    intros d' row' a' n' Hi Hmv Hsame Hs Ho Hf Hu. intros. by eapply HQ.
Qed.

(** *** The ledger *)

Lemma with_ledger_inv f d : inv d → inv (with_ledger f d).
Proof. intros [Hg He Ha Hs]. split; cbn; done. Qed.

(** A usage the ledger can hold *)
Definition usage_fits (usage : AttemptUsage) : Prop :=
  us_input_tokens usage ≤ i64_max ∧ us_output_tokens usage ≤ i64_max ∧ is_nan (default f64_zero (us_cost_usd usage)) = false.

Definition estimate (request : AttemptRequest) : GoalBudgetRequest := {|
  bq_input_tokens := us_input_tokens (rq_estimated_usage request);
  bq_output_tokens := us_output_tokens (rq_estimated_usage request);
  bq_cost_usd := default f64_zero (us_cost_usd (rq_estimated_usage request)); bq_attempts := 1 |}.

Lemma wp_u64_param_ok {E} (sql : SqlError unit → E) v (Q : Result E unit → Db → N → Prop) d n :
  v ≤ i64_max → Q (Ok tt) d n → wp (u64_param sql v) Q d n.
Proof. intros Hv HQ. apply wp_ensure; [done|by rewrite (proj2 (N.leb_le _ _) Hv)]. Qed.

Lemma wp_equal {E A} (m : M Db E A) (Q : Result E A → Db → N → Prop) d n r d' n' : m d n = (r, d', n') → Q r d' n' → wp m Q d n.
Proof. intros Hm HQ. unfold wp. by rewrite Hm. Qed.

Lemma wp_reserve_ok request now_ms (Q : Result GoalBudgetError GoalBudgetReservation → Db → N → Prop) d n :
  (∀ m, ∃ m', check_budget (rq_goal_id request) (estimate request) now_ms d m = (Ok tt, d, m')) →
  is_Some (gd_objectives d !! rq_goal_id request) → usage_fits (rq_estimated_usage request) →
  (∀ m, gd_ledger d !! uuid_text (uuid_v4 m) = None) →
  (∀ rid entry reservation n', bv_reservation_id reservation = rid → gd_ledger d !! rid = None →
     lg_objective_id entry = rq_goal_id request → lg_status entry = LedgerStatus.Reserved →
     Q (Ok reservation) (with_ledger (<[rid := entry]>) d) n') →
  wp (reserve_goal_budget (rq_goal_id request) (estimate request) now_ms) Q d n.
Proof.
  intros Hcheck Hg (Hin & Hout & Hcost) Hfresh HQ. unfold reserve_goal_budget. wp_step. destruct (Hcheck n) as [n1 Hn1].
  eapply wp_equal; [exact Hn1|]. cbv beta iota. wp_step. apply wp_new_uuid. cbv zeta. set (rid := uuid_text (uuid_v4 n1)). unfold insert_reservation.
  wp_step. wp_step. wp_step. apply wp_now. intros at_ n2. wp_step. apply wp_u64_param_ok; [done|].
  wp_step. apply wp_u64_param_ok; [done|]. wp_step. apply wp_execute_ok. intros n3. wp_step. apply wp_get.
  wp_step. apply wp_ensure; [intros _|cbn; by rewrite Hcost]. wp_step. apply wp_ensure; [intros _|by rewrite bool_decide_true].
  wp_step. apply wp_ensure; [intros _|by rewrite bool_decide_true by apply Hfresh]. apply wp_modify.
  wp_step. apply wp_execute_ok. intros n4. wp_step. apply wp_get. cbn [gd_ledger with_ledger]. rewrite lookup_insert_eq.
  wp_step. apply wp_ret, wp_ret, HQ; try done. apply Hfresh.
Qed.

(** The entry of an attempt with its usage *)
Definition settled_with (id : GoalId) (usage : AttemptUsage) (entry : LedgerRow) : Prop :=
  lg_objective_id entry = id ∧ lg_status entry = LedgerStatus.Settled ∧ lg_input_tokens entry = us_input_tokens usage
  ∧ lg_output_tokens entry = us_output_tokens usage ∧ lg_cost_usd entry = default f64_zero (us_cost_usd usage)
  ∧ lg_attempts entry = 1.

Lemma wp_settle_ok rid row usage (Q : Result GoalBudgetError unit → Db → N → Prop) d n :
  gd_ledger d !! rid = Some row → lg_status row = LedgerStatus.Reserved → usage_fits usage →
  (∀ entry n', settled_with (lg_objective_id row) usage entry → Q (Ok tt) (with_ledger (<[rid := entry]>) d) n') →
  wp (settle_goal_budget rid (usage_for_budget usage)) Q d n.
Proof.
  intros Hr Hs (Hin & Hout & Hcost) HQ. unfold settle_goal_budget. wp_step. wp_step. apply wp_now. intros at_ n2.
  wp_step. apply wp_u64_param_ok; [done|]. wp_step. apply wp_u64_param_ok; [done|]. wp_step. apply wp_execute_ok. intros n3.
  wp_step. apply wp_get. rewrite Hr, decide_True by done. wp_step. apply wp_ensure; [intros _|cbn; by rewrite Hcost].
  apply wp_modify, HQ. done.
Qed.

(** *** Where the goal ends up *)

Lemma wp_transition_ok id row next wait payload (Q : Result GoalTransitionError GoalSnapshot → Db → N → Prop) d n :
  inv d → gd_objectives d !! id = Some row → GoalState.can_transition_to (state_of row) next = true →
  ob_version row + 1 ≤ i64_max →
  (∀ d' row' n', moved id row' d d' → same_goal row row' → state_of row' = next → ob_wait row' = wait →
     ob_version row' = ob_version row + 1 → Q (Ok (map_goal_snapshot_row id row')) d' n') →
  wp (transition_goal id (ob_version row) next wait payload) Q d n.
Proof.
  intros Hinv Hr Hcan Hv HQ. unfold transition_goal. wp_step. apply wp_goal_transaction_ok. intros n1.
  wp_step. wp_step. apply (wp_get_goal_ok id row); [done|]. intros n2. wp_step. apply wp_ret.
  assert (GoalState.is_terminal (state_of row) = false) as Hterm.
  { destruct (GoalState.is_terminal (state_of row)) eqn:Ht; [|done]. by rewrite GoalState.terminal_has_no_next in Hcan. }
  wp_step. apply wp_ensure; [intros _|cbn; by rewrite Hterm]. wp_step. apply wp_ensure; [intros _|cbn; by rewrite Hcan].
  wp_step. apply wp_ensure; [intros _|cbn; by rewrite N.eqb_refl]. cbv zeta. cbn [gl_version map_goal_snapshot_row].
  wp_step. apply wp_u64_param_ok; [done|]. wp_step. wp_step. apply (wp_update_goal_ok id (Some (ob_version row)) row); [done|done|].
  intros at_ n3. change (1 =? 0) with false. cbv iota. wp_step.
  apply wp_insert_event_ok; [done|cbn; by rewrite lookup_insert_eq|exact (next_event_free d id row Hinv Hr)|].
  intros at' n4. exists tt. split; [done|]. intros n5. wp_step. wp_step.
  eapply wp_get_goal_ok; [cbn; apply lookup_insert_eq|]. intros n6. apply wp_ret. apply HQ; try done.
  unfold state_of. cbn. by rewrite GoalState.from_as_str.
Qed.

Lemma wp_transition_after_ok id row next wait payload (Q : Result AttemptCoordinatorError GoalSnapshot → Db → N → Prop) d n :
  inv d → gd_objectives d !! id = Some row → GoalState.can_transition_to (state_of row) next = true →
  ob_version row + 1 ≤ i64_max →
  (∀ d' row' n', moved id row' d d' → same_goal row row' → state_of row' = next → ob_wait row' = wait →
     ob_version row' = ob_version row + 1 → Q (Ok (map_goal_snapshot_row id row')) d' n') →
  wp (transition_after id next wait payload) Q d n.
Proof.
  intros Hinv Hr Hcan Hv HQ. unfold transition_after. wp_step. wp_step. apply (wp_get_goal_ok id row); [done|]. intros n1.
  wp_step. apply wp_ret. wp_step. by apply (wp_transition_ok id row).
Qed.

(** The state and the wait reason a decision asks for; a retry waits for some
    time on the clock. *)
Definition decided (decision : RetryDecision) (row : ObjectiveRow) : Prop :=
  match decision with
  | RetrySame after_ms _ => state_of row = GoalState.Blocked
      ∧ ∃ m, ob_wait row = Some (Backoff (i64_saturating_add (wall_now m) (Z.of_N (N.min after_ms i64_max))))
  | Escalate runtime_id _ =>
      state_of row = GoalState.Blocked ∧ ob_wait row = Some (ExternalEvent (lit "runtime:" ++ runtime_id))
  | AwaitHuman reason => state_of row = GoalState.AwaitingHuman ∧ ob_wait row = Some (HumanInput reason)
  | Fail_ _ => state_of row = GoalState.Failed ∧ ob_wait row = None
  | Cancel => state_of row = GoalState.Cancelled ∧ ob_wait row = None
  end.

Lemma wp_decision_ok id row k decision (Q : Result AttemptCoordinatorError GoalSnapshot → Db → N → Prop) d n :
  inv d → gd_objectives d !! id = Some row → state_of row = GoalState.Running → ob_version row + 1 ≤ i64_max →
  (∀ d' row' n', moved id row' d d' → same_goal row row' → decided decision row' → ob_version row' = ob_version row + 1 →
     Q (Ok (map_goal_snapshot_row id row')) d' n') →
  wp (persist_decision id k decision) Q d n.
Proof.
  intros Hinv Hr Hrun Hv HQ. unfold persist_decision. destruct decision; cbv zeta;
    [wp_step; apply wp_read_wall; cbv zeta|..];
    (apply (wp_transition_after_ok id row); [done|done|by rewrite Hrun|done|]; intros d' row' n' Hmv Hs Hst Hw Hvv;
     eapply HQ; [done|done| |done]; split; eauto).
Qed.

(** *** The parts of [execute_one] *)

(** The attempts of a goal, the latest first *)
Definition attempts_of (id : GoalId) (d : Db) : list GoalAttempt :=
  sort_by later_sequence (filter (λ a, ga_goal_id a = id) (map_to_list (gd_attempts d)).*2).

Lemma wp_all_attempts_ok id (Q : Result StoreError (list GoalAttempt) → Db → N → Prop) d n :
  (∀ n', Q (Ok (attempts_of id d)) d n') → wp (attempts_for_goal id usize_max) Q d n.
Proof. intros HQ. apply wp_attempts_ok. intros n'. apply HQ. Qed.

(** The attempts of a goal by one role, counted on 32 bits *)
Definition role_count (id : GoalId) (role : CognitiveRole) (d : Db) : N :=
  N.of_nat (length (filter (λ a, ga_role a = role) (attempts_of id d))) mod (u32_max + 1).

Lemma find_sequence id sequence d :
  sequence_taken id sequence d = false → find (λ a, ga_sequence a =? sequence) (attempts_of id d) = None.
Proof.
  intros Hfree. destruct (find _ _) as [a|] eqn:Hf; [|done]. exfalso.
  apply find_some in Hf as [Ha%list_elem_of_In Hs%N.eqb_eq]. unfold attempts_of in Ha. rewrite sort_by_perm in Ha.
  apply list_elem_of_filter in Ha as [Hg ((k & b) & -> & Hb%elem_of_map_to_list)%list_elem_of_fmap].
  by eapply (sequence_free id sequence d k b).
Qed.

Section Request.
Context (request : AttemptRequest) (row : ObjectiveRow).
Let id := rq_goal_id request.

Lemma wp_running_goal_ok (Q : Result AttemptCoordinatorError GoalSnapshot → Db → N → Prop) d n :
  gd_objectives d !! id = Some row → state_of row = GoalState.Running → ob_version row = rq_expected_version request →
  (∀ n', Q (Ok (map_goal_snapshot_row id row)) d n') → wp (running_goal request) Q d n.
Proof.
  intros Hr Hrun Hv HQ. unfold running_goal. wp_step. wp_step. apply (wp_get_goal_ok _ row); [done|]. intros n1.
  wp_step. apply wp_ret. wp_step. apply wp_ensure; [intros _|cbn; by rewrite Hrun]. wp_step.
  apply wp_ensure; [intros _|cbn; by rewrite Hv, N.eqb_refl]. apply wp_ret, HQ.
Qed.

Lemma wp_or_revoke_ok {A} rid (m : M Db StoreError A) (Q : Result AttemptCoordinatorError A → Db → N → Prop) d n :
  wp m (λ r d' n', ∃ a, r = Ok a ∧ Q (Ok a) d' n') d n → wp (or_revoke rid m) Q d n.
Proof.
  intros Hm. unfold or_revoke. wp_step. wp_step. wp_step. eapply wp_mono; [exact Hm|].
  intros r d' n' (a & -> & HQ). by apply wp_ret.
Qed.

(** The task the runtime is given *)
Definition framed_task (d : Db) : text :=
  GoalFrame.render format_cost (GoalFrame.build (map_goal_snapshot_row id row) (attempts_of id d) (rq_task request)).

Definition of_request (a : GoalAttempt) : Prop :=
  ga_goal_id a = id ∧ ga_sequence a = rq_sequence request ∧ ga_runtime_id a = rq_runtime_id request
  ∧ ga_role a = rq_role request.

Lemma wp_begin_one_ok (Q : Result AttemptCoordinatorError (text * GoalAttempt * text) → Db → N → Prop) d n :
  inv d → gd_objectives d !! id = Some row → state_of row = GoalState.Running → ob_version row = rq_expected_version request →
  ob_version row + 1 ≤ i64_max → sequence_taken id (rq_sequence request) d = false →
  usage_fits (rq_estimated_usage request) →
  (∀ m, gd_attempts d !! uuid_v4 m = None) → (∀ m, gd_ledger d !! uuid_text (uuid_v4 m) = None) →
  (∀ t m, ∃ m', check_budget id (estimate request) (wall_now t) d m = (Ok tt, d, m')) →
  (∀ d' row' k a rid entry n', inv d' → gd_objectives d' = <[id := row']> (gd_objectives d) →
     gd_attempts d' = <[k := a]> (gd_attempts d) → gd_ledger d' = <[rid := entry]> (gd_ledger d) →
     gd_invocations d' = gd_invocations d → gd_attempts d !! k = None → gd_ledger d !! rid = None → ga_id a = k → of_request a → ga_status a = AttemptStatus.Running →
     lg_objective_id entry = id → lg_status entry = LedgerStatus.Reserved →
     same_goal row row' → state_of row' = GoalState.Running → ob_version row' = ob_version row + 1 →
     Q (Ok (rid, a, framed_task d)) d' n') →
  wp (begin_one request) Q d n.
Proof.
  intros Hinv Hr Hrun Hv Hmax Hseq Hfits Hka Hkr Hbudget HQ. unfold begin_one. wp_step. apply wp_running_goal_ok; [done..|].
  intros n1. wp_step. wp_step. apply wp_all_attempts_ok. intros n2. cbv zeta. wp_step. apply wp_read_wall.
  wp_step. wp_step. apply wp_reserve_ok; [apply Hbudget|by rewrite (Hr : gd_objectives d !! rq_goal_id request = Some row)|done|done|].
  intros rid entry reservation n3 -> Hfr Hid Hres. wp_step. apply wp_or_revoke_ok.
  eapply wp_begin_ok; [by apply with_ledger_inv|exact Hr|done|done|done|].
  intros d' row' k at_ n4 a Hinv' (Ho & Hl & Ha & Hin) Hfresh Hs Hst Hvv. exists a. split; [done|].
  apply wp_ret, (HQ d' row' k a _ entry); try done. unfold state_of in *. by rewrite Hst.
Qed.

Lemma wp_end_one_ok row1 rid entry k a outcome (Q : Result AttemptCoordinatorError GoalAttempt → Db → N → Prop) d n :
  inv d → gd_objectives d !! id = Some row1 → ob_version row1 + 1 ≤ i64_max → gd_attempts d !! k = Some a →
  ga_status a = AttemptStatus.Running → ga_goal_id a = id → gd_ledger d !! rid = Some entry →
  lg_status entry = LedgerStatus.Reserved → lg_objective_id entry = id → usage_fits (outcome_usage outcome) →
  (∀ d' row' a' entry' n', inv d' → gd_objectives d' = <[id := row']> (gd_objectives d) →
     gd_attempts d' = <[k := a']> (gd_attempts d) → gd_ledger d' = <[rid := entry']> (gd_ledger d) →
     gd_invocations d' = gd_invocations d → ended a outcome a' → settled_with id (outcome_usage outcome) entry' → same_goal row1 row' →
     state_of row' = state_of row1 → ob_version row' = ob_version row1 + 1 → Q (Ok a') d' n') →
  wp (end_one rid k outcome) Q d n.
Proof.
  intros Hinv Hr Hmax Ha Hrun Hg Hl Hres Hid Hfits HQ. unfold end_one. wp_step. apply wp_or_revoke_ok.
  eapply (wp_record_ok id row1 k a); [done..|]. intros d' row' a' n1 Hinv' (Ho & Hld & Hat & Hin) Hend Hs Hst Hvv.
  exists a'. split; [done|]. pose proof Hend as (_ & _ & Hu & _). wp_step. wp_step. rewrite Hu.
  eapply wp_settle_ok; [by rewrite Hld|done|done|]. intros entry' n2 Hset. rewrite Hid in Hset. apply wp_ret.
  eapply HQ; try done; [by apply with_ledger_inv|by cbn; rewrite Hld|unfold state_of; by rewrite Hst].
Qed.

(** What an attempt leaves behind: its own row with the outcome, its entry in the
    ledger with the usage, the goal where the outcome puts it, and one call of the
    runtime.  Nothing else in the three tables is touched. *)
Definition carried_through (d : Db) (outcome : Outcome) (answer : AttemptCoordinationOutcome) (d' : Db) : Prop :=
  ∃ a a' rid entry row',
    gd_attempts d !! ga_id a = None ∧ of_request a ∧ ended a outcome a' ∧ gd_attempts d' = <[ga_id a := a']> (gd_attempts d)
    ∧ gd_ledger d !! rid = None ∧ settled_with id (outcome_usage outcome) entry
    ∧ gd_ledger d' = <[rid := entry]> (gd_ledger d)
    ∧ gd_invocations d' = gd_invocations d ++ [(rq_runtime_id request, framed_task d)]
    ∧ same_goal row row' ∧ ob_version row' = ob_version row + 3 ∧ gd_objectives d' = <[id := row']> (gd_objectives d)
    ∧ match outcome with
      | inr _ => answer = Succeeded a' (map_goal_snapshot_row id row') ∧ state_of row' = GoalState.Completed ∧ ob_wait row' = None
      | inl failure =>
          let decision := decide_retry policy (rq_role request) (role_count id (rq_role request) d') failure
                            (rq_escalation_runtime_id request) in
          answer = Failed a' decision (map_goal_snapshot_row id row') ∧ decided decision row'
      end.

Lemma wp_finish_ok row2 outcome a' (Q : Result AttemptCoordinatorError AttemptCoordinationOutcome → Db → N → Prop) d n :
  inv d → gd_objectives d !! id = Some row2 → state_of row2 = GoalState.Running → ob_version row2 + 1 ≤ i64_max →
  (∀ answer d' row' n', moved id row' d d' → same_goal row2 row' → ob_version row' = ob_version row2 + 1 →
     match outcome with
     | inr _ => answer = Succeeded a' (map_goal_snapshot_row id row') ∧ state_of row' = GoalState.Completed ∧ ob_wait row' = None
     | inl failure =>
         let decision := decide_retry policy (rq_role request) (role_count id (rq_role request) d) failure
                           (rq_escalation_runtime_id request) in
         answer = Failed a' decision (map_goal_snapshot_row id row') ∧ decided decision row'
     end → Q (Ok answer) d' n') →
  wp (finish_non_coding_attempt policy request outcome a') Q d n.
Proof.
  intros Hinv Hr Hrun Hmax HQ. destruct outcome as [failure|result]; cbn [finish_non_coding_attempt].
  - unfold failure_outcome. wp_step. wp_step. apply wp_all_attempts_ok. intros n1. cbv zeta. wp_step.
    apply (wp_decision_ok id row2); [done..|]. intros d' row' n2 Hmv Hs Hdec Hvv. apply wp_ret. by eapply HQ.
  - wp_step. apply (wp_transition_after_ok id row2); [done|done|by rewrite Hrun|done|].
    intros d' row' n2 Hmv Hs Hst Hw Hvv. apply wp_ret. by eapply HQ.
Qed.


End Request.
End Live.

(** ** Sample runs *)

Module GoalSample.

#[local] Existing Instance sample_env.

#[local] Instance goal_env : GoalEnv := {|
  uuid_text := λ u, lit (pretty u);
  parse_uuid := λ _, None;
  evidence_json_len := λ _, 0;
  datetime_now := λ _, "now";
  sum_real := foldr f64_add f64_zero;
|}.

#[local] Instance working_sqlite : Sqlite := {| sqlite := λ _, None |}.

Definition codex : RuntimeId := lit "codex".
Definition reviewer : RuntimeId := lit "claude".

Definition answer : RuntimeResult :=
  {| rt_output := lit "done"; rt_evidence := [];
     rt_usage := {| us_input_tokens := 120; us_output_tokens := 30; us_cost_usd := None; us_elapsed_ms := 5;
                    us_observability := no_observability |} |}.

#[local] Instance working_runtime : AttemptExecutor := {|
  is_available := λ _ _, true;
  is_cancelled := λ _, false;
  run_once := λ _ _ _, inr answer;
  is_coding := λ _, false;
  parses_as_coding := λ _, false;
  frame_value := λ _, Null;
  format_cost := λ _, lit "0";
|}.

Definition spec (max_attempts : N) : GoalSpec :=
  {| gs_original_intent := lit "tidy the docs"; gs_desired_state := []; gs_constraints := []; gs_acceptance_criteria := [];
     gs_budget := {| gb_max_input_tokens := 1000; gb_max_output_tokens := 1000; gb_max_cost_usd := None;
                     gb_max_attempts := max_attempts; gb_deadline_ms := None |} |}.

Definition owner : PrincipalId := "alice".

(** *** Runs of writes *)

Definition perform_all (writes : list Write) (d : Db) : Db := foldl (λ d w, perform w d (N.of_nat (size (gd_attempts d)))) d writes.

Lemma perform_all_runs writes d :
  Forall (λ w, allowed w []) writes →
  clos_refl_trans_1n _ step {| w_db := d; w_seen := [] |} {| w_db := perform_all writes d; w_seen := [] |}.
Proof.
  intros Hw. revert d. induction Hw as [|w writes Hw _ IH]; intros d; [constructor|].
  econstructor; [by apply step_write|apply IH].
Qed.

Definition started : list Write :=
  [WGoal owner "s" "session" (spec 2) false; WTransition 1 0 GoalState.Running None Null;
   WInsert 1 (lit "4") 10 10 f64_zero; WBegin 7 1 1 codex Worker Null].

Definition finished : list Write :=
  [WOutcome 7 (inr answer); WSettle (lit "4") (rt_usage answer); WTransition 1 3 GoalState.Completed None Null;
   WTransition 1 4 GoalState.Ready None Null].

Definition mid : World := {| w_db := perform_all started empty_db; w_seen := [] |}.
Definition last : World := {| w_db := perform_all finished (w_db mid); w_seen := [] |}.

Lemma mid_reached : clos_refl_trans_1n _ step boot mid.
Proof. apply perform_all_runs. repeat constructor. Qed.

Lemma last_reached : clos_refl_trans_1n _ step mid last.
Proof. apply perform_all_runs. repeat constructor. Qed.

Definition types_of (d : Db) : list string := ge_event_type <$> events_of 1 d.

Example history_of_a_goal :
  types_of (w_db last) = ["created"; "running"; "attempt_started"; "attempt_succeeded"; "completed"]
  ∧ (state_of <$> gd_objectives (w_db last) !! 1%Z) = Some GoalState.Completed
  ∧ (lg_status <$> gd_ledger (w_db last) !! lit "4") = Some LedgerStatus.Settled
  ∧ charged 1 (w_db last) = 1.
Proof. vm_compute. done. Qed.

Lemma goal_history_witness :
  ∃ row row', gd_objectives (w_db mid) !! 1%Z = Some row ∧ gd_objectives (w_db last) !! 1%Z = Some row' ∧ same_goal row row'
    ∧ state_of row' = GoalState.Completed.
Proof.
  destruct (gd_objectives (w_db mid) !! 1%Z) as [row|] eqn:Hr; [|by vm_compute in Hr].
  destruct (goal_history mid last 1 row mid_reached last_reached Hr) as (row' & Hr' & Hs & _). exists row, row'.
  split_and!; [done|done|done|]. vm_compute in Hr'. by injection Hr' as <-.
Defined.

(** *** Reserving, statement by statement *)

Lemma solo_all writes d :
  Forall (λ w, allowed w [] ∧ writes_ledger w = false) writes →
  clos_refl_trans_1n _ solo_step (on d [] Idle) (on (perform_all writes d) [] Idle).
Proof.
  intros Hw. revert d. induction Hw as [|w writes [Ha Hl] _ IH]; intros d; [constructor|].
  econstructor; [by apply solo_write|apply IH].
Qed.

Lemma solo_trans s1 s2 s3 :
  clos_refl_trans_1n _ solo_step s1 s2 → clos_refl_trans_1n _ solo_step s2 s3 → clos_refl_trans_1n _ solo_step s1 s3.
Proof. induction 1 as [s|s s1' s2' Hs _ IH]; [done|]. intros. econstructor; eauto. Qed.

Definition asked : list Write := [WGoal owner "s" "session" (spec 1) false; WTransition 1 0 GoalState.Running None Null].

Definition reserve (n : N) (d : Db) : Db := after (reserve_goal_budget 1 (one_attempt 10 10 f64_zero) 0) d n.

(** One reservation of the only attempt, and a second one that is refused. *)
Definition solo_mid : Db := perform_all [WBegin 7 1 1 codex Worker Null] (reserve 3 (perform_all asked empty_db)).
Definition solo_last : Db := reserve 20 (perform_all [WOutcome 7 (inr answer)] solo_mid).

Lemma solo_mid_reached : clos_refl_trans_1n _ solo_step solo_boot (on solo_mid [] Idle).
Proof.
  eapply solo_trans; [apply (solo_all asked); repeat constructor|].
  eapply solo_trans; [apply (reserve_solo 1 10 10 f64_zero 0 _ 3)|]. apply solo_all. repeat constructor.
Qed.

Lemma solo_last_reached : clos_refl_trans_1n _ solo_step (on solo_mid [] Idle) (on solo_last [] Idle).
Proof.
  eapply solo_trans; [apply (solo_all [WOutcome 7 (inr answer)]); repeat constructor|]. apply (reserve_solo 1 10 10 f64_zero 0 _ 20).
Qed.

Lemma attempts_within_budget_witness :
  charged 1 solo_last ≤ 1 ∧ ∃ a', gd_attempts solo_last !! (7 : Uuid) = Some a' ∧ attempt_ok a'.
Proof.
  destruct (gd_objectives solo_last !! 1%Z) as [row|] eqn:Hr; [|by vm_compute in Hr].
  destruct (gd_attempts solo_mid !! (7 : Uuid)) as [a|] eqn:Ha; [|by vm_compute in Ha].
  destruct (attempts_within_budget _ _ 1 row solo_mid_reached solo_last_reached Hr) as [Hb Hk].
  split.
  - assert (gb_max_attempts (gs_budget (spec_of row)) = 1) as Hm by (vm_compute in Hr; by injection Hr as <-).
    rewrite Hm in Hb. exact (Hb eq_refl).
  - destruct (Hk _ _ Ha) as (a' & ? & _ & ? & _). exists a'. split; assumption.
Defined.

(** Two connections that both check before either inserts reserve the only attempt
    twice. *)
Example two_connections_reserve_the_last_attempt :
  let d := perform_all asked empty_db in
  let request := one_attempt 10 10 f64_zero in
  (check_budget 1 request 0 d 3).1.1 = Ok tt
  ∧ let d1 := reserve 3 d in
    let d2 := perform (WInsert 1 (lit "second") 10 10 f64_zero) d1 20 in
    charged 1 d1 = 1 ∧ (check_budget 1 request 0 d1 20).1.1 = Err (AttemptExhausted 1 1 1) ∧ charged 1 d2 = 2.
Proof. vm_compute. done. Qed.

(** What another connection settles between the two readings of the ledger is
    counted in neither: the only attempt is granted again. *)
Example settled_between_the_readings_is_not_counted :
  let d := reserve 3 (perform_all asked empty_db) in
  let d' := perform (WSettle (lit "7") (rt_usage answer)) d 20 in
  match settled_usage 1 d 10, active_reserved_usage 1 d' 30 with
  | (Ok settled, _, _), (Ok active, _, _) =>
      charged 1 d' = 1 ∧ (check_limits (gs_budget (spec 1)) settled active (one_attempt 10 10 f64_zero) d' 40).1.1 = Ok tt
  | _, _ => False
  end.
Proof. vm_compute. done. Qed.

(** *** A whole attempt *)

Definition ready : Db := perform_all [WGoal owner "s" "session" (spec 2) false; WTransition 1 0 GoalState.Running None Null] empty_db.

Definition request : AttemptRequest :=
  {| rq_goal_id := 1; rq_expected_version := 1; rq_sequence := 1; rq_runtime_id := codex;
     rq_escalation_runtime_id := Some reviewer; rq_role := Worker; rq_task := lit "tidy the docs";
     rq_estimated_usage := default_usage |}.

Lemma working_sqlite_works n : sqlite n = None.
Proof. done. Qed.

Lemma ready_inv : inv ready.
Proof.
  refine (wi_inv _ (proj1 (goal_steps_ok boot {| w_db := ready; w_seen := [] |} _ boot_inv))).
  apply perform_all_runs. repeat constructor.
Qed.


(** *** Where the code falls short *)

(** A goal without attempts left stays running and due, and the newest due goal
    comes first: every turn of the scheduler fails on it, and the other goals
    wait for ever. *)
Definition crowded : Db :=
  perform_all [WGoal owner "s" "session" (spec 2) false; WGoal owner "s" "session" (spec 0) false;
               WTransition 2 0 GoalState.Running None Null] empty_db.

Example exhausted_goal_starves_the_others :
  (GoalWorker.tick_once codex reviewer crowded 0).1
  = (Err (GoalWorker.WorkerAttempt (Budget (AttemptExhausted 0 0 1))), crowded).
Proof. vm_compute. reflexivity. Qed.

(** An attempt that a restart interrupts is cancelled, but its reservation stays:
    the attempt and its tokens are charged to the goal for ever. *)
Example recovered_attempt_keeps_its_reservation :
  let d := after recover_stale_attempts (w_db mid) 0 in
  (ga_status <$> gd_attempts d !! (7 : Uuid)) = Some AttemptStatus.Cancelled
  ∧ (lg_status <$> gd_ledger d !! lit "4") = Some LedgerStatus.Reserved ∧ charged 1 d = 1.
Proof. vm_compute. done. Qed.

(** When the process stops between the outcome and its settlement, the settlement
    is recovered only by a call with the same sequence number.  The scheduler asks
    for the next one: the runtime is invoked again and the first reservation
    stays. *)
Example interrupted_settlement_is_not_recovered :
  let d := perform_all [WOutcome 7 (inr answer)] (w_db mid) in
  let d' := after (GoalWorker.tick_once codex reviewer) d 20 in
  (ga_status <$> gd_attempts d !! (7 : Uuid)) = Some AttemptStatus.Succeeded ∧ size (gd_attempts d') = 2%nat
  ∧ (state_of <$> gd_objectives d' !! 1%Z) = Some GoalState.Completed
  ∧ (lg_status <$> gd_ledger d' !! lit "4") = Some LedgerStatus.Reserved.
Proof. vm_compute. done. Qed.

(** The coordinator's tick on a running goal reserves an attempt and hands the
    reservation to nobody. *)
Example tick_reserves_for_nobody :
  let d' := after (Coordinator.tick 1 0) ready 0 in
  gd_attempts d' = ∅ ∧ (lg_status ∘ snd <$> map_to_list (gd_ledger d')) = [LedgerStatus.Reserved].
Proof. vm_compute. done. Qed.

(** The event of a goal that waits for its user is not named as its state is. *)
Example awaiting_human_has_two_names :
  let d' := perform_all [WTransition 1 1 GoalState.AwaitingHuman None Null] ready in
  types_of d' = ["created"; "running"; "awaitinghuman"]
  ∧ (ob_goal_state <$> gd_objectives d' !! 1%Z) = Some "awaiting_human".
Proof. vm_compute. done. Qed.

(** An objective of the older interface has no event of its creation. *)
Example objective_has_no_first_event :
  let d' := perform_all [WCreate (lit "tidy") None "s" "session"; WTransition 1 0 GoalState.Running None Null] empty_db in
  types_of d' = ["running"] ∧ (ge_version <$> events_of 1 d') = [1].
Proof. vm_compute. done. Qed.

End GoalSample.

(** *** A database that fails once *)

Module GoalFaults.
Import GoalSample.

#[local] Existing Instance sample_env.
#[local] Existing Instance goal_env.
#[local] Existing Instance working_runtime.

#[local] Instance failing_sqlite : Sqlite := {| sqlite := λ n, if n =? 36 then Some "disk I/O error" else None |}.

(** When the outcome is recorded and only reading it back fails, the reservation is
    revoked: the attempt has succeeded, and neither it nor its tokens are charged
    to the goal, which stays running. *)
Example recorded_outcome_is_not_charged :
  let '(r, d', _) := execute_one default_policy request ready 0 in
  r = Err (Persistence (Sql (Database.Failed "disk I/O error"))) ∧ charged 1 d' = 0
  ∧ (ga_status ∘ snd <$> map_to_list (gd_attempts d')) = [AttemptStatus.Succeeded]
  ∧ (us_input_tokens ∘ ga_usage ∘ snd <$> map_to_list (gd_attempts d')) = [120]
  ∧ (state_of <$> gd_objectives d' !! 1%Z) = Some GoalState.Running.
Proof. vm_compute. done. Qed.

End GoalFaults.
