(* ===== verification/Approvals.v ===== *)
(** * The approval repository (executive/src/application/approval/repository.rs)

    The tables of migrations 5 to 7 of
    executive/src/compatibility/persistence_migrations.rs, keyed by their primary
    key, with the columns the repository reads of the goal tables.  A method
    first reads and decides ([*_plan], its SELECTs in one step: whatever they saw is
    checked again where it matters), then writes in one transaction or
    statement ([perform]): several connections may be open to the database, so
    the two are separate steps.  An identifier is stored as its hyphenated text,
    whose order is that of the number. *)
From S2P Require Import Prelude FabricTypes StdModel Fallible Database StdFloat Candidate ApprovalTypes.
Import Approval.

#[local] Open Scope N_scope.

Module Approvals.

Definition MAX_SUMMARY_BYTES : N := 16 * 1024.
Definition MAX_ARTIFACTS_JSON_BYTES : N := 64 * 1024.

Record ApprovalCreate := {
  cr_subject : ApprovalSubject;
  cr_risk : ApprovalRisk.t;
  cr_summary : string;
  cr_artifacts : list ApprovalArtifactRef;
  cr_created_at_ms : Z;
  cr_expires_at_ms : Z;
}.

Record ApprovalResolutionContext := {
  cx_principal_id : string;
  cx_channel : string;
}.

Inductive ApprovalDecision :=
| Approve
| Reject (reason : option string).

Record ApprovalDelivery := {
  dl_approval_id : ApprovalId;
  dl_channel : string;
  dl_conversation_id : string;
  dl_correlation_id : string;
  dl_status : string;
  dl_provider_message_id : option string;
  dl_attempt_count : N;
  dl_last_error : option string;
  dl_created_at_ms : Z;
  dl_updated_at_ms : Z;
}.

Record ApprovalApplyReceipt := {
  rc_approval_id : ApprovalId;
  rc_operation_id : OperationId;
  rc_goal_id : GoalId;
  rc_success : bool;
  rc_applied_head : option string;
  rc_diff_sha256 : string;
  rc_changed_paths : list PathBuf;
  rc_error : option string;
  rc_finished_at_ms : Z;
}.

Record ApprovalApplyOperation := {
  ao_approval_id : ApprovalId;
  ao_operation_id : OperationId;
  ao_status : string;
  ao_started_at_ms : Z;
  ao_finished_at_ms : option Z;
  ao_error : option string;
}.

Inductive ApprovalApplyClaim :=
| Claimed (operation : ApprovalApplyOperation)
| Existing (operation : ApprovalApplyOperation).

(** [ApprovalChannelPolicy] *)
Abbreviation ApprovalChannelPolicy := (list string).

Definition permits (policy : ApprovalChannelPolicy) (channel : string) : bool := bool_decide (channel ∈ policy).

Definition default_channel_policy : ApprovalChannelPolicy := ["telegram"; "local_rpc"].

(** Why a column does not convert. *)
Inductive Cause :=
| InvalidStatus
| InvalidJson (error : string)
| InvalidContent (error : ApprovalContractError).

Inductive ApprovalRepositoryError :=
| NotFound (id : ApprovalId)
| ExternalNotFound (correlation_id : string)
| GoalNotFound (goal : GoalId)
| WrongOwner
| ChannelDenied
| AlreadyDecided
| ActiveSubjectConflict
| ReferenceMismatch
| InvalidRequest
| NotApproved
| ApplyNotClaimed
| VersionConflict (expected actual : N)
| Contract (error : ApprovalContractError)
| Sql (error : SqlError Cause)
| Storage (error : string).

Definition receipt_eqb (a b : ApprovalApplyReceipt) : bool :=
  bool_decide (rc_approval_id a = rc_approval_id b) && bool_decide (rc_operation_id a = rc_operation_id b)
  && bool_decide (rc_goal_id a = rc_goal_id b) && Bool.eqb (rc_success a) (rc_success b)
  && bool_decide (rc_applied_head a = rc_applied_head b) && bool_decide (rc_diff_sha256 a = rc_diff_sha256 b)
  && paths_eqb (rc_changed_paths a) (rc_changed_paths b) && bool_decide (rc_error a = rc_error b)
  && bool_decide (rc_finished_at_ms a = rc_finished_at_ms b).

(** ** The tables *)

(** [approval_requests] without its key *)
Record RequestRow := {
  rq_goal_id : GoalId;
  rq_attempt_id : option AttemptId;
  rq_job_id : option CodingJobId;
  rq_owner_id : string;
  rq_category : string;
  rq_risk : string;
  rq_subject_json : string;
  rq_subject_hash : string;
  rq_summary : string;
  rq_artifacts_json : string;
  rq_created_at_ms : Z;
  rq_expires_at_ms : Z;
  rq_status : string;
  rq_version : N;
  rq_resolution_principal : option string;
  rq_resolution_channel : option string;
  rq_resolution_time_ms : option Z;
  rq_resolution_reason : option string;
}.

Inductive Payload :=
| StatusPayload (status : string)
| AppliedPayload (operation_id : OperationId) (success : bool).

(** [approval_events], in the order of its automatic key *)
Record EventRow := {
  ev_approval_id : ApprovalId;
  ev_version : N;
  ev_event_type : string;
  ev_payload : Payload;
  ev_created_at_ms : Z;
}.

(** [approval_apply_receipts] *)
Record ReceiptRow := {
  rr_operation_id : OperationId;
  rr_receipt_json : string;
  rr_created_at_ms : Z;
}.

(** [external_approval_audit] *)
Record AuditRow := {
  au_source : string;
  au_summary : string;
  au_requested_at_ms : Z;
  au_resolved_at_ms : option Z;
  au_decision : option string;
}.

Record Db := {
  db_requests : gmap Uuid RequestRow;
  db_events : list EventRow;
  db_deliveries : gmap (Uuid * string) ApprovalDelivery;
  db_operations : gmap Uuid ApprovalApplyOperation;
  db_receipts : gmap Uuid ReceiptRow;
  db_audit : gmap string AuditRow;
  db_objectives : gmap Z string;
  db_attempts : gmap Uuid Z;
  db_coding_jobs : gmap Uuid (Z * Uuid);
}.

Definition with_requests (f : gmap Uuid RequestRow → gmap Uuid RequestRow) (s : Db) : Db :=
  {| db_requests := f (db_requests s); db_events := db_events s; db_deliveries := db_deliveries s;
     db_operations := db_operations s; db_receipts := db_receipts s; db_audit := db_audit s;
     db_objectives := db_objectives s; db_attempts := db_attempts s; db_coding_jobs := db_coding_jobs s |}.

Definition with_events (f : list EventRow → list EventRow) (s : Db) : Db :=
  {| db_requests := db_requests s; db_events := f (db_events s); db_deliveries := db_deliveries s;
     db_operations := db_operations s; db_receipts := db_receipts s; db_audit := db_audit s;
     db_objectives := db_objectives s; db_attempts := db_attempts s; db_coding_jobs := db_coding_jobs s |}.

Definition with_deliveries (f : gmap (Uuid * string) ApprovalDelivery → gmap (Uuid * string) ApprovalDelivery) (s : Db) : Db :=
  {| db_requests := db_requests s; db_events := db_events s; db_deliveries := f (db_deliveries s);
     db_operations := db_operations s; db_receipts := db_receipts s; db_audit := db_audit s;
     db_objectives := db_objectives s; db_attempts := db_attempts s; db_coding_jobs := db_coding_jobs s |}.

Definition with_operations (f : gmap Uuid ApprovalApplyOperation → gmap Uuid ApprovalApplyOperation) (s : Db) : Db :=
  {| db_requests := db_requests s; db_events := db_events s; db_deliveries := db_deliveries s;
     db_operations := f (db_operations s); db_receipts := db_receipts s; db_audit := db_audit s;
     db_objectives := db_objectives s; db_attempts := db_attempts s; db_coding_jobs := db_coding_jobs s |}.

Definition with_receipts (f : gmap Uuid ReceiptRow → gmap Uuid ReceiptRow) (s : Db) : Db :=
  {| db_requests := db_requests s; db_events := db_events s; db_deliveries := db_deliveries s;
     db_operations := db_operations s; db_receipts := f (db_receipts s); db_audit := db_audit s;
     db_objectives := db_objectives s; db_attempts := db_attempts s; db_coding_jobs := db_coding_jobs s |}.

Definition with_audit (f : gmap string AuditRow → gmap string AuditRow) (s : Db) : Db :=
  {| db_requests := db_requests s; db_events := db_events s; db_deliveries := db_deliveries s;
     db_operations := db_operations s; db_receipts := db_receipts s; db_audit := f (db_audit s);
     db_objectives := db_objectives s; db_attempts := db_attempts s; db_coding_jobs := db_coding_jobs s |}.

(** The goal tables, which other components write. *)
Definition with_goals (objectives : gmap Z string) (attempts : gmap Uuid Z) (jobs : gmap Uuid (Z * Uuid)) (s : Db) : Db :=
  {| db_requests := db_requests s; db_events := db_events s; db_deliveries := db_deliveries s;
     db_operations := db_operations s; db_receipts := db_receipts s; db_audit := db_audit s;
     db_objectives := objectives; db_attempts := attempts; db_coding_jobs := jobs |}.

(** ** Text forms *)

Definition status_wire (status : ApprovalStatus.t) : string :=
  match status with
  | ApprovalStatus.Pending => "pending"
  | ApprovalStatus.Approved => "approved"
  | ApprovalStatus.Rejected => "rejected"
  | ApprovalStatus.Expired => "expired"
  | ApprovalStatus.Consumed => "consumed"
  end.

Definition parse_status (value : string) : option ApprovalStatus.t :=
  if decide (value = "pending") then Some ApprovalStatus.Pending
  else if decide (value = "approved") then Some ApprovalStatus.Approved
  else if decide (value = "rejected") then Some ApprovalStatus.Rejected
  else if decide (value = "expired") then Some ApprovalStatus.Expired
  else if decide (value = "consumed") then Some ApprovalStatus.Consumed
  else None.

(** A byte that does not continue a character of UTF-8. *)
Definition starts_char (c : Ascii.ascii) : bool :=
  let b := Ascii.N_of_ascii c in (b <? 128) || (192 <=? b).

(** [value.is_char_boundary(end)] for an index within the text *)
Definition is_char_boundary (value : string) (index : nat) : bool :=
  (index =? String.length value)%nat
  || match String.get index value with Some c => starts_char c | None => false end.

Fixpoint boundary_below (value : string) (index : nat) : nat :=
  match index with
  | O => O
  | S below => if is_char_boundary value index then index else boundary_below value below
  end.

(** U+2026 *)
Definition ellipsis : string :=
  String (Ascii.ascii_of_N 226) (String (Ascii.ascii_of_N 128) (String (Ascii.ascii_of_N 166) "")).

Definition bound_text (value : string) (max_bytes : N) : string :=
  if len value <=? max_bytes then value
  else String.substring 0 (boundary_below value (N.to_nat max_bytes)) value +:+ ellipsis.

(** [serde_json] on the other columns. *)
Class ApprovalCodec := {
  parse_subject : string → string + ApprovalSubject;
  artifacts_json : list ApprovalArtifactRef → string + string;
  parse_artifacts : string → string + list ApprovalArtifactRef;
  category_json : ApprovalCategory.t → string + string;
  parse_category : string → string + ApprovalCategory.t;
  risk_json : ApprovalRisk.t → string + string;
  parse_risk : string → string + ApprovalRisk.t;
  receipt_json : ApprovalApplyReceipt → string + string;
  parse_receipt : string → string + ApprovalApplyReceipt;
}.

Section Repository.
Context `{Env} `{Sqlite} `{ApprovalDigest} `{ApprovalCodec} (policy : ApprovalChannelPolicy).

Abbreviation Repo := (M Db ApprovalRepositoryError).

Definition statement : Repo unit := execute Sql.

(** [?] on a result of the contract *)
Definition contract {A} (r : Result ApprovalContractError A) : Repo A :=
  match r with Ok a => mret a | Err e => throw (Contract e) | Panic => panic end.

(** [wire], [from_wire] and [bounded_json] *)
Definition wire (json : string + string) : Repo string :=
  match json with inl error => throw (Storage error) | inr text => mret text end.

Definition bounded_json (json : string + string) (max : N) (label : string) : Repo string :=
  text ← wire json;
  ensure (len text <=? max) (Storage (label +:+ " exceeds bounded size")) ;;
  mret text.

(** ** Reading *)

Definition column {A} (index : N) (r : string + A) : Result (SqlError Cause) A :=
  match r with inl error => Err (ConversionFailure index (InvalidJson error)) | inr a => Ok a end.

Definition row_resolution (row : RequestRow) (status : ApprovalStatus.t) : option ApprovalResolution :=
  (λ resolved_at_ms,
    {| rs_status := if decide (status = ApprovalStatus.Consumed) then ApprovalStatus.Approved else status;
       rs_principal_id := rq_resolution_principal row; rs_channel := rq_resolution_channel row;
       rs_resolved_at_ms := resolved_at_ms; rs_reason := rq_resolution_reason row |})
  <$> rq_resolution_time_ms row.

Definition row_snapshot (id : ApprovalId) (row : RequestRow) (status : ApprovalStatus.t) (category : ApprovalCategory.t)
    (risk : ApprovalRisk.t) (subject : ApprovalSubject) (artifacts : list ApprovalArtifactRef) : ApprovalSnapshot :=
  {| ap_id := id; ap_goal_id := rq_goal_id row; ap_attempt_id := rq_attempt_id row; ap_job_id := rq_job_id row;
     ap_owner_id := rq_owner_id row; ap_category := category; ap_risk := risk; ap_subject := subject;
     ap_subject_hash := rq_subject_hash row; ap_summary := rq_summary row; ap_artifacts := artifacts;
     ap_created_at_ms := rq_created_at_ms row; ap_expires_at_ms := rq_expires_at_ms row; ap_status := status;
     ap_version := rq_version row; ap_resolution := row_resolution row status |}.

Definition map_snapshot (id : ApprovalId) (row : RequestRow) : Result (SqlError Cause) ApprovalSnapshot :=
  status ← some_or (parse_status (rq_status row)) (ConversionFailure 13 InvalidStatus);
  category ← column 5 (parse_category (rq_category row));
  risk ← column 6 (parse_risk (rq_risk row));
  subject ← column 7 (parse_subject (rq_subject_json row));
  artifacts ← column 10 (parse_artifacts (rq_artifacts_json row));
  let snapshot := row_snapshot id row status category risk subject artifacts in
  match validate snapshot with
  | Ok _ => Ok snapshot
  | Err error => Err (ConversionFailure 7 (InvalidContent error))
  | Panic => Panic
  end.

Definition sql {A} (r : Result (SqlError Cause) A) : Repo A :=
  match r with Ok a => mret a | Err e => throw (Sql e) | Panic => panic end.

Definition get (id : ApprovalId) : Repo (option ApprovalSnapshot) :=
  statement ;;
  s ← get_state;
  match db_requests s !! id with
  | None => mret None
  | Some row => snapshot ← sql (map_snapshot id row); mret (Some snapshot)
  end.

(** [self.get(id)?.ok_or(NotFound(id))?] *)
Definition get_known (id : ApprovalId) : Repo ApprovalSnapshot :=
  found ← get id;
  ok_or found (NotFound id).

Definition apply_operation (id : ApprovalId) : Repo (option ApprovalApplyOperation) :=
  statement ;;
  s ← get_state;
  mret (db_operations s !! id).

Definition apply_receipt (id : ApprovalId) : Repo (option ApprovalApplyReceipt) :=
  statement ;;
  s ← get_state;
  match db_receipts s !! id with
  | None => mret None
  | Some row =>
      match parse_receipt (rr_receipt_json row) with
      | inl error => throw (Storage error)
      | inr receipt => mret (Some receipt)
      end
  end.

Definition is_active (status : string) : bool := bool_decide (status = "pending") || bool_decide (status = "approved").

(** The row is active for the subject. *)
Definition active_row (category hash : string) (row : RequestRow) : bool :=
  bool_decide (rq_category row = category) && bool_decide (rq_subject_hash row = hash) && is_active (rq_status row).

Definition active_for_subject (category : ApprovalCategory.t) (hash : string) : Repo (option ApprovalSnapshot) :=
  text ← wire (category_json category);
  statement ;;
  s ← get_state;
  match head (filter (λ kr, active_row text hash kr.2 = true) (map_to_list (db_requests s))) with
  | None => mret None
  | Some (id, row) => snapshot ← sql (map_snapshot id row); mret (Some snapshot)
  end.

Definition owner_for_goal (goal : GoalId) : Repo string :=
  statement ;;
  s ← get_state;
  ok_or (db_objectives s !! goal) (GoalNotFound goal).

Definition validate_subject_refs (subject : ApprovalSubject) : Repo unit :=
  match sj_attempt_id subject with
  | None => mret tt
  | Some attempt =>
      statement ;;
      s ← get_state;
      ensure (bool_decide (db_attempts s !! attempt = Some (sj_goal_id subject))) ReferenceMismatch
  end ;;
  match sj_job_id subject with
  | None => mret tt
  | Some job =>
      statement ;;
      s ← get_state;
      let identity := db_coding_jobs s !! job in
      ensure (bool_decide (fst <$> identity = Some (sj_goal_id subject))
              && bool_decide (sj_attempt_id subject = snd <$> identity)) ReferenceMismatch
  end.

Definition validate_create (create : ApprovalCreate) : Repo unit :=
  ensure (negb (is_blank (cr_summary create) || (MAX_SUMMARY_BYTES <? len (cr_summary create))
                || (cr_expires_at_ms create <=? cr_created_at_ms create)%Z)) InvalidRequest ;;
  contract (each (cr_artifacts create) artifact_validate).

(** ** Writing *)

Definition append_event (id : ApprovalId) (version : N) (event_type : string) (payload : Payload) (now_ms : Z) : Repo unit :=
  u64_param Sql version ;;
  statement ;;
  s ← get_state;
  constraint Sql (bool_decide (is_Some (db_requests s !! id))) "FOREIGN KEY" ;;
  constraint Sql (negb (existsb (λ e, bool_decide (ev_approval_id e = id) && (ev_version e =? version)) (db_events s)))
    "approval_events.approval_id, approval_events.version" ;;
  modify (with_events (λ l, l ++ [{| ev_approval_id := id; ev_version := version; ev_event_type := event_type;
                                     ev_payload := payload; ev_created_at_ms := now_ms |}])).

(** The columns an update of a resolution writes. *)
Definition set_resolution (status : string) (version : N) (resolution : ApprovalResolution) (row : RequestRow) : RequestRow :=
  {| rq_goal_id := rq_goal_id row; rq_attempt_id := rq_attempt_id row; rq_job_id := rq_job_id row;
     rq_owner_id := rq_owner_id row; rq_category := rq_category row; rq_risk := rq_risk row;
     rq_subject_json := rq_subject_json row; rq_subject_hash := rq_subject_hash row; rq_summary := rq_summary row;
     rq_artifacts_json := rq_artifacts_json row; rq_created_at_ms := rq_created_at_ms row;
     rq_expires_at_ms := rq_expires_at_ms row; rq_status := status; rq_version := version;
     rq_resolution_principal := rs_principal_id resolution; rq_resolution_channel := rs_channel resolution;
     rq_resolution_time_ms := Some (rs_resolved_at_ms resolution); rq_resolution_reason := rs_reason resolution |}.

Definition set_consumed (version : N) (row : RequestRow) : RequestRow :=
  {| rq_goal_id := rq_goal_id row; rq_attempt_id := rq_attempt_id row; rq_job_id := rq_job_id row;
     rq_owner_id := rq_owner_id row; rq_category := rq_category row; rq_risk := rq_risk row;
     rq_subject_json := rq_subject_json row; rq_subject_hash := rq_subject_hash row; rq_summary := rq_summary row;
     rq_artifacts_json := rq_artifacts_json row; rq_created_at_ms := rq_created_at_ms row;
     rq_expires_at_ms := rq_expires_at_ms row; rq_status := "consumed"; rq_version := version;
     rq_resolution_principal := rq_resolution_principal row; rq_resolution_channel := rq_resolution_channel row;
     rq_resolution_time_ms := rq_resolution_time_ms row; rq_resolution_reason := rq_resolution_reason row |}.

(** [UPDATE approval_requests SET .. WHERE approval_id AND version AND status]:
    whether a row was changed. *)
Definition update_request (id : ApprovalId) (version : N) (status : string) (f : RequestRow → RequestRow) : Repo bool :=
  statement ;;
  s ← get_state;
  match db_requests s !! id with
  | Some row =>
      if (rq_version row =? version) && bool_decide (rq_status row = status)
      then modify (with_requests (<[id := f row]>)) ;; mret true
      else mret false
  | None => mret false
  end.

(** The conflict of an update that changed nothing. *)
Definition version_conflict (id : ApprovalId) (expected fallback : N) : Repo unit :=
  found ← get id;
  throw (VersionConflict expected (match found with Some a => ap_version a | None => fallback end)).

Definition persist_resolution (current next : ApprovalSnapshot) (resolution : ApprovalResolution) : Repo unit :=
  transaction Sql (
    u64_param Sql (ap_version next) ;;
    u64_param Sql (ap_version current) ;;
    changed ← update_request (ap_id current) (ap_version current) "pending"
      (set_resolution (status_wire (ap_status next)) (ap_version next) resolution);
    (if (changed : bool) then mret tt else version_conflict (ap_id current) (ap_version current) (ap_version current)) ;;
    append_event (ap_id current) (ap_version next) "resolved" (StatusPayload (status_wire (ap_status next)))
      (rs_resolved_at_ms resolution)).

(** The constraints of [approval_requests] and its insertion. *)
Definition known {K V} `{Countable K} (table : gmap K V) (key : option K) : bool :=
  match key with None => true | Some k => bool_decide (is_Some (table !! k)) end.

Definition insert_request (id : ApprovalId) (row : RequestRow) : Repo unit :=
  statement ;;
  s ← get_state;
  constraint Sql (bool_decide (db_requests s !! id = None)) "approval_requests.approval_id" ;;
  constraint Sql (negb (existsb (λ kr, active_row (rq_category row) (rq_subject_hash row) kr.2)
                          (map_to_list (db_requests s))))
    "approval_requests.category, approval_requests.subject_hash" ;;
  constraint Sql (known (db_objectives s) (Some (rq_goal_id row)) && known (db_attempts s) (rq_attempt_id row)
                  && known (db_coding_jobs s) (rq_job_id row)) "FOREIGN KEY" ;;
  modify (with_requests (<[id := row]>)).

(** [INSERT OR IGNORE INTO approval_apply_operations]: whether a row was inserted. *)
Definition claim_operation (id : ApprovalId) (operation_id : OperationId) (now_ms : Z) : Repo bool :=
  statement ;;
  s ← get_state;
  if bool_decide (is_Some (db_operations s !! id))
     || existsb (λ kr, bool_decide (ao_operation_id kr.2 = operation_id)) (map_to_list (db_operations s))
  then mret false
  else
    constraint Sql (bool_decide (is_Some (db_requests s !! id))) "FOREIGN KEY" ;;
    modify (with_operations (<[id := {| ao_approval_id := id; ao_operation_id := operation_id; ao_status := "running";
                                        ao_started_at_ms := now_ms; ao_finished_at_ms := None; ao_error := None |}]>)) ;;
    mret true.

(** The end of an operation, if it is running. *)
Definition finish_operation (receipt : ApprovalApplyReceipt) : Repo unit :=
  statement ;;
  modify (with_operations (alter
    (λ o, if bool_decide (ao_operation_id o = rc_operation_id receipt) && bool_decide (ao_status o = "running")
          then {| ao_approval_id := ao_approval_id o; ao_operation_id := ao_operation_id o;
                  ao_status := if rc_success receipt then "succeeded" else "failed";
                  ao_started_at_ms := ao_started_at_ms o; ao_finished_at_ms := Some (rc_finished_at_ms receipt);
                  ao_error := rc_error receipt |}
          else o) (rc_approval_id receipt))).

Definition insert_receipt (receipt : ApprovalApplyReceipt) (json : string) : Repo unit :=
  statement ;;
  s ← get_state;
  constraint Sql (bool_decide (db_receipts s !! rc_approval_id receipt = None)) "approval_apply_receipts.approval_id" ;;
  constraint Sql (negb (existsb (λ kr, bool_decide (rr_operation_id kr.2 = rc_operation_id receipt))
                          (map_to_list (db_receipts s)))) "approval_apply_receipts.operation_id" ;;
  constraint Sql (bool_decide (is_Some (db_requests s !! rc_approval_id receipt))
                  && existsb (λ kr, bool_decide (ao_operation_id kr.2 = rc_operation_id receipt))
                       (map_to_list (db_operations s))) "FOREIGN KEY" ;;
  modify (with_receipts (<[rc_approval_id receipt :=
    {| rr_operation_id := rc_operation_id receipt; rr_receipt_json := json;
       rr_created_at_ms := rc_finished_at_ms receipt |}]>)).

(** The transactions of [create] and of [finish_apply]. *)
Definition persist_request (id : ApprovalId) (row : RequestRow) : Repo unit :=
  transaction Sql (
    insert_request id row ;;
    append_event id 0 "created" (StatusPayload "pending") (rq_created_at_ms row)).

Definition persist_receipt (receipt : ApprovalApplyReceipt) (current next : ApprovalSnapshot) : Repo unit :=
  let id := rc_approval_id receipt in
  transaction Sql (
    u64_param Sql (ap_version next) ;;
    u64_param Sql (ap_version current) ;;
    changed ← update_request id (ap_version current) "approved" (set_consumed (ap_version next));
    (if (changed : bool) then mret tt else version_conflict id (ap_version current) 0) ;;
    finish_operation receipt ;;
    json ← wire (receipt_json receipt);
    insert_receipt receipt json ;;
    append_event id (ap_version next) "consumed" (AppliedPayload (rc_operation_id receipt) (rc_success receipt))
      (rc_finished_at_ms receipt)).

(** ** What a method writes after it has decided *)

Inductive Intent :=
| InsertRequest (id : ApprovalId) (row : RequestRow)
| PersistResolution (current next : ApprovalSnapshot) (resolution : ApprovalResolution)
| ClaimOperation (id : ApprovalId) (operation_id : OperationId) (now_ms : Z)
| PersistReceipt (receipt : ApprovalApplyReceipt) (current next : ApprovalSnapshot).

(** ** Creating *)

Definition same_request (existing : ApprovalSnapshot) (subject : ApprovalSubject) (create : ApprovalCreate) : bool :=
  subject_eqb (ap_subject existing) subject && bool_decide (ap_risk existing = cr_risk create)
  && bool_decide (ap_summary existing = cr_summary create) && artifacts_eqb (ap_artifacts existing) (cr_artifacts create).

(** The request that stands already, or the row to be inserted. *)
Definition create_plan (create : ApprovalCreate) : Repo (ApprovalSnapshot + ApprovalId * RequestRow) :=
  validate_create create ;;
  subject ← contract (canonicalized (cr_subject create));
  hash ← contract (subject_hash subject);
  category ← wire (category_json (sj_category subject));
  active ← active_for_subject (sj_category subject) hash;
  match active with
  | Some existing =>
      ensure (same_request existing subject create) ActiveSubjectConflict ;;
      mret (inl existing)
  | None =>
      owner_id ← owner_for_goal (sj_goal_id subject);
      validate_subject_refs subject ;;
      id ← new_uuid;
      subject_text ← bounded_json (subject_json subject) MAX_ARTIFACTS_JSON_BYTES "approval subject";
      artifacts_text ← bounded_json (artifacts_json (cr_artifacts create)) MAX_ARTIFACTS_JSON_BYTES "approval artifacts";
      risk ← wire (risk_json (cr_risk create));
      mret (inr (id,
        {| rq_goal_id := sj_goal_id subject; rq_attempt_id := sj_attempt_id subject; rq_job_id := sj_job_id subject;
           rq_owner_id := owner_id; rq_category := category; rq_risk := risk; rq_subject_json := subject_text;
           rq_subject_hash := hash; rq_summary := cr_summary create; rq_artifacts_json := artifacts_text;
           rq_created_at_ms := cr_created_at_ms create; rq_expires_at_ms := cr_expires_at_ms create;
           rq_status := "pending"; rq_version := 0; rq_resolution_principal := None; rq_resolution_channel := None;
           rq_resolution_time_ms := None; rq_resolution_reason := None |}))
  end.

Definition create (request : ApprovalCreate) : Repo ApprovalSnapshot :=
  plan ← create_plan request;
  match plan with
  | inl existing => mret existing
  | inr (id, row) => persist_request id row ;; get_known id
  end.

(** ** Resolving *)

Definition resolution_matches (snapshot : ApprovalSnapshot) (context : ApprovalResolutionContext)
    (decision : ApprovalDecision) : bool :=
  match ap_resolution snapshot with
  | None => false
  | Some resolution =>
      let desired := match decision with Approve => ApprovalStatus.Approved | Reject _ => ApprovalStatus.Rejected end in
      bool_decide (rs_status resolution = desired)
      && bool_decide (rs_principal_id resolution = Some (cx_principal_id context))
      && bool_decide (rs_channel resolution = Some (cx_channel context))
  end.

Definition decided (current : ApprovalSnapshot) (context : ApprovalResolutionContext) (decision : ApprovalDecision)
    (now_ms : Z) : ApprovalResolution :=
  if (ap_expires_at_ms current <=? now_ms)%Z then expired now_ms
  else
    match decision with
    | Approve => approved (cx_principal_id context) (cx_channel context) now_ms
    | Reject reason => rejected (cx_principal_id context) (cx_channel context) now_ms reason
    end.

(** The decision that stands already, or what to persist. *)
Definition resolve_plan (id : ApprovalId) (expected_version : N) (context : ApprovalResolutionContext)
    (decision : ApprovalDecision) (now_ms : Z)
    : Repo (ApprovalSnapshot + ApprovalSnapshot * ApprovalSnapshot * ApprovalResolution) :=
  current ← get_known id;
  if bool_decide (ap_status current ≠ ApprovalStatus.Pending)
  then ensure (resolution_matches current context decision) AlreadyDecided ;; mret (inl current)
  else
    ensure (ap_version current =? expected_version) (VersionConflict expected_version (ap_version current)) ;;
    ensure (bool_decide (ap_owner_id current = cx_principal_id context)) WrongOwner ;;
    ensure (permits policy (cx_channel context)) ChannelDenied ;;
    let resolution := decided current context decision now_ms in
    next ← contract (Approval.resolve current expected_version resolution);
    mret (inr (current, next, resolution)).

Definition resolve (id : ApprovalId) (expected_version : N) (context : ApprovalResolutionContext)
    (decision : ApprovalDecision) (now_ms : Z) : Repo ApprovalSnapshot :=
  plan ← resolve_plan id expected_version context decision now_ms;
  match plan with
  | inl current => mret current
  | inr (current, next, resolution) => persist_resolution current next resolution ;; get_known id
  end.

(** One turn of the loop of [expire]. *)
Definition expire_plan (id : ApprovalId) (now_ms : Z) : Repo (ApprovalSnapshot * ApprovalSnapshot * ApprovalResolution) :=
  current ← get_known id;
  next ← contract (Approval.resolve current (ap_version current) (expired now_ms));
  mret (current, next, expired now_ms).

Fixpoint expire_all (ids : list ApprovalId) (now_ms : Z) : Repo (list ApprovalSnapshot) :=
  match ids with
  | [] => mret []
  | id :: rest =>
      plan ← expire_plan id now_ms;
      let '(current, next, resolution) := plan in
      persist_resolution current next resolution ;;
      expired ← expire_all rest now_ms;
      mret (next :: expired)
  end.

Definition overdue (now_ms : Z) (row : RequestRow) : bool :=
  bool_decide (rq_status row = "pending") && (rq_expires_at_ms row <=? now_ms)%Z.

Definition expire (now_ms : Z) : Repo (list ApprovalSnapshot) :=
  statement ;;
  s ← get_state;
  expire_all (sort_by N.le (filter (λ kr, overdue now_ms kr.2 = true) (map_to_list (db_requests s))).*1) now_ms.

(** [ORDER BY created_at_ms, approval_id] *)
Definition older (a b : Uuid * RequestRow) : Prop :=
  (rq_created_at_ms a.2 < rq_created_at_ms b.2)%Z ∨ rq_created_at_ms a.2 = rq_created_at_ms b.2 ∧ a.1 ≤ b.1.

#[global] Instance older_dec : RelDecision older.
Proof. intros a b. unfold older. apply _. Defined.

Definition pending_of (owner : string) (row : RequestRow) : bool :=
  bool_decide (rq_owner_id row = owner) && bool_decide (rq_status row = "pending").

Fixpoint map_snapshots (rows : list (Uuid * RequestRow)) : Result (SqlError Cause) (list ApprovalSnapshot) :=
  match rows with
  | [] => Ok []
  | (id, row) :: rest => snapshot ← map_snapshot id row; more ← map_snapshots rest; Ok (snapshot :: more)
  end.

Definition list_pending (owner : string) (now_ms : Z) : Repo (list ApprovalSnapshot) :=
  expire now_ms ;;
  statement ;;
  s ← get_state;
  sql (map_snapshots (sort_by older (filter (λ kr, pending_of owner kr.2 = true) (map_to_list (db_requests s))))).

Definition denied (now_ms : Z) (reason : string) : ApprovalResolution :=
  {| rs_status := rs_status (expired now_ms); rs_principal_id := rs_principal_id (expired now_ms);
     rs_channel := rs_channel (expired now_ms); rs_resolved_at_ms := rs_resolved_at_ms (expired now_ms);
     rs_reason := Some ("approval delivery failed and was denied: " +:+ reason) |}.

Definition deny_plan (id : ApprovalId) (expected_version : N) (now_ms : Z) (reason : string)
    : Repo (ApprovalSnapshot * ApprovalSnapshot * ApprovalResolution) :=
  current ← get_known id;
  ensure (ap_version current =? expected_version) (VersionConflict expected_version (ap_version current)) ;;
  ensure (bool_decide (ap_status current = ApprovalStatus.Pending)) AlreadyDecided ;;
  let resolution := denied now_ms reason in
  next ← contract (Approval.resolve current expected_version resolution);
  mret (current, next, resolution).

Definition deny_delivery_failure (id : ApprovalId) (expected_version : N) (now_ms : Z) (reason : string)
    : Repo ApprovalSnapshot :=
  plan ← deny_plan id expected_version now_ms reason;
  let '(current, next, resolution) := plan in
  persist_resolution current next resolution ;;
  get_known id.

(** ** Applying *)

Definition claim_plan (id : ApprovalId) : Repo unit :=
  approval ← get_known id;
  ensure (bool_decide (ap_status approval = ApprovalStatus.Approved)) NotApproved.

Definition claim_apply (id : ApprovalId) (operation_id : OperationId) (now_ms : Z) : Repo ApprovalApplyClaim :=
  claim_plan id ;;
  changed ← claim_operation id operation_id now_ms;
  found ← apply_operation id;
  operation ← ok_or found (Storage "apply claim disappeared");
  mret (if (changed : bool) then Claimed operation else Existing operation).

(** The consumed approval, or what to persist. *)
Definition finish_plan (receipt : ApprovalApplyReceipt) : Repo (ApprovalSnapshot + ApprovalSnapshot * ApprovalSnapshot) :=
  existing ← apply_receipt (rc_approval_id receipt);
  match existing with
  | Some existing =>
      if receipt_eqb existing receipt then a ← get_known (rc_approval_id receipt); mret (inl a)
      else throw AlreadyDecided
  | None =>
      found ← apply_operation (rc_approval_id receipt);
      operation ← ok_or found ApplyNotClaimed;
      ensure (bool_decide (ao_operation_id operation = rc_operation_id receipt)
              && bool_decide (ao_status operation = "running")) AlreadyDecided ;;
      current ← get_known (rc_approval_id receipt);
      next ← contract (consume current (ap_version current));
      mret (inr (current, next))
  end.

Definition finish_apply (receipt : ApprovalApplyReceipt) : Repo ApprovalSnapshot :=
  plan ← finish_plan receipt;
  match plan with
  | inl a => mret a
  | inr (current, next) => persist_receipt receipt current next ;; get_known (rc_approval_id receipt)
  end.

(** A transaction or statement, at the moment it runs. *)
Definition perform (i : Intent) : Repo unit :=
  match i with
  | InsertRequest id row => persist_request id row
  | PersistResolution current next resolution => persist_resolution current next resolution
  | ClaimOperation id operation_id now_ms => claim_operation id operation_id now_ms ;; mret tt
  | PersistReceipt receipt current next => persist_receipt receipt current next
  end.

(** ** Deliveries *)

Definition by_correlation (correlation_id : string) (s : Db) : option ((Uuid * string) * ApprovalDelivery) :=
  head (filter (λ kd, dl_correlation_id kd.2 = correlation_id) (map_to_list (db_deliveries s))).

(** [attempt_count] is read as [u32]. *)
Definition delivery_for_correlation (correlation_id : string) : Repo (option ApprovalDelivery) :=
  statement ;;
  s ← get_state;
  mret ((λ kd,
    {| dl_approval_id := dl_approval_id kd.2; dl_channel := dl_channel kd.2;
       dl_conversation_id := dl_conversation_id kd.2; dl_correlation_id := dl_correlation_id kd.2;
       dl_status := dl_status kd.2; dl_provider_message_id := dl_provider_message_id kd.2;
       dl_attempt_count := dl_attempt_count kd.2 mod 4294967296; dl_last_error := dl_last_error kd.2;
       dl_created_at_ms := dl_created_at_ms kd.2; dl_updated_at_ms := dl_updated_at_ms kd.2 |})
    <$> by_correlation correlation_id s).

Definition insert_delivery (row : ApprovalDelivery) : Repo unit :=
  statement ;;
  s ← get_state;
  if bool_decide (is_Some (db_deliveries s !! (dl_approval_id row, dl_channel row))) then mret tt
  else
    constraint Sql (bool_decide (by_correlation (dl_correlation_id row) s = None)) "approval_deliveries.correlation_id" ;;
    constraint Sql (bool_decide (is_Some (db_requests s !! dl_approval_id row))) "FOREIGN KEY" ;;
    modify (with_deliveries (<[(dl_approval_id row, dl_channel row) := row]>)).

Definition record_delivery_pending (id : ApprovalId) (channel conversation_id correlation_id : string) (now_ms : Z)
    : Repo ApprovalDelivery :=
  approval ← get_known id;
  ensure (bool_decide (ap_status approval = ApprovalStatus.Pending)) AlreadyDecided ;;
  insert_delivery
    {| dl_approval_id := id; dl_channel := channel; dl_conversation_id := conversation_id;
       dl_correlation_id := correlation_id; dl_status := "pending"; dl_provider_message_id := None;
       dl_attempt_count := 0; dl_last_error := None; dl_created_at_ms := now_ms; dl_updated_at_ms := now_ms |} ;;
  found ← delivery_for_correlation correlation_id;
  ok_or found (Storage "approval delivery disappeared").

(** [UPDATE approval_deliveries .. WHERE correlation_id], and its error. *)
Definition update_delivery (correlation_id : string) (f : ApprovalDelivery → ApprovalDelivery) : Repo unit :=
  statement ;;
  s ← get_state;
  match by_correlation correlation_id s with
  | Some (key, row) => modify (with_deliveries (<[key := f row]>))
  | None => throw (Storage "approval delivery correlation not found")
  end.

Definition record_delivery_sent (correlation_id provider_message_id : string) (now_ms : Z) : Repo unit :=
  update_delivery correlation_id (λ d,
    {| dl_approval_id := dl_approval_id d; dl_channel := dl_channel d; dl_conversation_id := dl_conversation_id d;
       dl_correlation_id := dl_correlation_id d; dl_status := "sent";
       dl_provider_message_id := Some provider_message_id; dl_attempt_count := dl_attempt_count d + 1;
       dl_last_error := None; dl_created_at_ms := dl_created_at_ms d; dl_updated_at_ms := now_ms |}).

Definition record_delivery_failed (correlation_id error : string) (now_ms : Z) : Repo unit :=
  update_delivery correlation_id (λ d,
    {| dl_approval_id := dl_approval_id d; dl_channel := dl_channel d; dl_conversation_id := dl_conversation_id d;
       dl_correlation_id := dl_correlation_id d; dl_status := "failed";
       dl_provider_message_id := dl_provider_message_id d; dl_attempt_count := dl_attempt_count d + 1;
       dl_last_error := Some (bound_text error 1024); dl_created_at_ms := dl_created_at_ms d;
       dl_updated_at_ms := now_ms |}).

(** ** The audit of external requests *)

(** On a conflict the row is replaced, its decision reset. *)
Definition record_external_request (correlation_id source summary : string) (requested_at_ms : Z) : Repo unit :=
  statement ;;
  modify (with_audit (<[correlation_id :=
    {| au_source := source; au_summary := summary; au_requested_at_ms := requested_at_ms;
       au_resolved_at_ms := None; au_decision := None |}]>)).

Definition external_decisions : list string := ["approve"; "deny"; "approve_for_session"].

Definition record_external_resolution (correlation_id decision : string) (resolved_at_ms : Z) : Repo unit :=
  statement ;;
  s ← get_state;
  match db_audit s !! correlation_id with
  | Some row =>
      ensure (bool_decide (au_decision row = None)) (ExternalNotFound correlation_id) ;;
      constraint Sql (bool_decide (decision ∈ external_decisions)) "CHECK external_approval_audit.decision" ;;
      modify (with_audit (<[correlation_id :=
        {| au_source := au_source row; au_summary := au_summary row; au_requested_at_ms := au_requested_at_ms row;
           au_resolved_at_ms := Some resolved_at_ms; au_decision := Some decision |}]>))
  | None => throw (ExternalNotFound correlation_id)
  end.

End Repository.

End Approvals.
