(* ===== verification/ApprovalSpec.v ===== *)
(** * The approval repository: its writes and its invariant

    What a transaction does to the tables, the invariant of the tables, the
    order in which they evolve, and that every transaction that follows from a
    reading of an earlier state keeps both. *)
From S2P Require Import Prelude FabricTypes StdModel Fallible Database StdFloat Candidate ApprovalTypes Approvals.
Import Approval Approvals.

#[local] Open Scope N_scope.

(** What is written is read back. *)
Class ApprovalLaws `{ApprovalDigest} `{ApprovalCodec} : Prop := {
  subject_read_back : ∀ a json, subject_json a = inr json → parse_subject json = inr a;
  artifacts_read_back : ∀ a json, artifacts_json a = inr json → parse_artifacts json = inr a;
  category_read_back : ∀ a json, category_json a = inr json → parse_category json = inr a;
  risk_read_back : ∀ a json, risk_json a = inr json → parse_risk json = inr a;
  receipt_read_back : ∀ a json, receipt_json a = inr json → parse_receipt json = inr a;
}.

Section Calm.
Context `{Env} `{Sqlite} `{ApprovalDigest} `{ApprovalCodec}.

Lemma relative_path_calm p : calm (validate_relative_path p).
Proof. apply calm_need. Qed.

Lemma canonicalized_calm subject : calm (canonicalized subject).
Proof. apply calm_bind; [|done]. apply calm_each. apply relative_path_calm. Qed.

Lemma subject_hash_calm subject : calm (subject_hash subject).
Proof. apply calm_bind; [apply canonicalized_calm|]. intros. by case_match. Qed.

Lemma resolution_calm r : calm (resolution_validate r).
Proof. unfold resolution_validate. case_match; auto with aletheon. Qed.

#[local] Hint Resolve subject_hash_calm resolution_calm canonicalized_calm relative_path_calm : aletheon.

Lemma snapshot_calm a : calm (validate a).
Proof. unfold validate. solve_calm. Qed.

Lemma artifact_calm a : calm (artifact_validate a).
Proof. unfold artifact_validate. solve_calm. Qed.

#[local] Hint Resolve snapshot_calm artifact_calm : aletheon.

Lemma resolve_calm a v r : calm (Approval.resolve a v r).
Proof. unfold Approval.resolve. solve_calm. Qed.

Lemma consume_calm a v : calm (consume a v).
Proof. unfold consume, validate_consumed. solve_calm. Qed.

Lemma column_calm {A} i (r : string + A) : calm (column i r).
Proof. by destruct r. Qed.

#[local] Hint Resolve column_calm : aletheon.

Lemma map_snapshot_calm id row : calm (map_snapshot id row).
Proof.
  unfold map_snapshot. solve_calm; try done. intros Hp. by eapply snapshot_calm.
Qed.

(** ** Reading *)

Lemma reads_sql_result {A} (r : Result (SqlError Cause) A) : calm r → reads (sql r).
Proof. intros Hr. destruct r; [apply reads_ret|apply reads_throw|done]. Qed.

Lemma reads_contract {A} (r : Result ApprovalContractError A) : calm r → reads (contract r).
Proof. intros Hr. destruct r; [apply reads_ret|apply reads_throw|done]. Qed.

Lemma reads_wire json : reads (wire json).
Proof. destruct json; [apply reads_throw|apply reads_ret]. Qed.

Lemma reads_request_get id : reads (get id).
Proof.
  apply reads_bind; [apply reads_execute|]. intros _. apply reads_bind; [apply reads_get|]. intros s.
  case_match; [|apply reads_ret]. apply reads_bind; [apply reads_sql_result, map_snapshot_calm|]. intros.
  apply reads_ret.
Qed.

Lemma reads_get_known id : reads (get_known id).
Proof. apply reads_bind; [apply reads_request_get|]. intros. apply reads_ok_or. Qed.

End Calm.

(** ** Snapshots of rows *)

Section Snapshots.
Context `{Env} `{Sqlite} `{ApprovalDigest} `{ApprovalCodec}.

Lemma parse_status_wire status : parse_status (status_wire status) = Some status.
Proof. by destruct status. Qed.

Lemma parse_status_ok text status : parse_status text = Some status → text = status_wire status.
Proof. unfold parse_status. repeat case_decide; naive_solver. Qed.

(** The parsed columns of a row. *)
Definition parsed (row : RequestRow) (c : ApprovalCategory.t) (k : ApprovalRisk.t) (j : ApprovalSubject)
    (f : list ApprovalArtifactRef) : Prop :=
  parse_category (rq_category row) = inr c ∧ parse_risk (rq_risk row) = inr k
  ∧ parse_subject (rq_subject_json row) = inr j ∧ parse_artifacts (rq_artifacts_json row) = inr f.

Lemma column_ok {A} i (r : string + A) a : column i r = Ok a ↔ r = inr a.
Proof. destruct r; cbn; naive_solver. Qed.

Lemma map_snapshot_ok id row a :
  map_snapshot id row = Ok a ↔
  ∃ status c k j f, rq_status row = status_wire status ∧ parsed row c k j f
    ∧ a = row_snapshot id row status c k j f ∧ validate a = Ok tt.
Proof.
  unfold map_snapshot, parsed. split.
  - intros Ha. inv_ok Ha. apply parse_status_ok in Ha0.
    repeat match goal with Hc : column _ _ = Ok _ |- _ => apply column_ok in Hc end.
    destruct (validate _) as [[]|?|] eqn:Hv; [|done..]. injection Ha as <-. eexists _, _, _, _, _. eauto 10.
  - intros (st & c & k & j & f & Hst & (Hc & Hk & Hj & Hf) & -> & Hv).
    rewrite Hst, parse_status_wire, Hc, Hk, Hj, Hf. cbn [some_or column mbind Result_bind]. by rewrite Hv.
Qed.

Lemma map_snapshot_status id row a : map_snapshot id row = Ok a → rq_status row = status_wire (ap_status a).
Proof. by intros (? & ? & ? & ? & ? & ? & _ & -> & _)%map_snapshot_ok. Qed.

Lemma status_wire_inj x y : status_wire x = status_wire y → x = y.
Proof. by destruct x, y. Qed.

(** A decision is a change of status, resolution and version. *)
Lemma resolve_ok a v r next :
  Approval.resolve a v r = Ok next →
  next = moved a (rs_status r) (Some r) ∧ ap_version a = v ∧ ap_status a = ApprovalStatus.Pending
  ∧ ap_resolution a = None ∧ resolution_validate r = Ok tt ∧ validate next = Ok tt
  ∧ ((rs_resolved_at_ms r < ap_expires_at_ms a)%Z ∨ rs_status r = ApprovalStatus.Expired).
Proof.
  unfold Approval.resolve. intros Hr. inv_ok Hr. injection Hr as <-. destruct a2, a4.
  rewrite andb_true_iff in *. destruct Hr1 as [Hp Hn]. rewrite orb_true_iff, Z.ltb_lt in Hr3. checks.
  apply N.eqb_eq in Hr0. by destruct (ap_status a).
Qed.

Lemma consume_ok a v next :
  consume a v = Ok next →
  next = moved a ApprovalStatus.Consumed (ap_resolution a) ∧ ap_version a = v
  ∧ ap_status a = ApprovalStatus.Approved.
Proof.
  unfold consume. intros Hc. inv_ok Hc. injection Hc as <-. checks. by apply N.eqb_eq in Hc0.
Qed.

Lemma validate_ok a :
  validate a = Ok tt ↔
  validate_identity a = true ∧ subject_hash (ap_subject a) = Ok (ap_subject_hash a) ∧ validate_content a = true
  ∧ ∀ r, ap_resolution a = Some r →
      resolution_validate r = Ok tt ∧ status_matches (ap_status a) r = true
      ∧ (ap_created_at_ms a ≤ rs_resolved_at_ms r)%Z.
Proof.
  unfold validate. split.
  - intros Hv. inv_ok Hv. rewrite andb_true_iff in Hv2. destruct Hv2 as [Hh Hc]. checks. subst.
    split_and!; [done..|]. intros r Hr. rewrite Hr in Hv. inv_ok Hv. rewrite andb_true_iff, Z.leb_le in Hv.
    destruct Hv. by destruct a1.
  - intros (Hi & Hh & Hc & Hr). rewrite Hi, Hh, Hc. cbn [need mbind Result_bind].
    rewrite bool_decide_eq_true_2 by done. cbn. destruct (ap_resolution a) as [r|]; [|done].
    destruct (Hr r eq_refl) as (-> & -> & ?). cbn. by rewrite (proj2 (Z.leb_le _ _)).
Qed.

Lemma resolution_status r :
  resolution_validate r = Ok tt →
  rs_status r = ApprovalStatus.Approved ∨ rs_status r = ApprovalStatus.Rejected ∨ rs_status r = ApprovalStatus.Expired.
Proof. unfold resolution_validate. destruct (rs_status r); naive_solver. Qed.

(** The row after a decision is the decided snapshot. *)
Lemma map_resolved id row a v r next :
  map_snapshot id row = Ok a → Approval.resolve a v r = Ok next →
  map_snapshot id (set_resolution (status_wire (ap_status next)) (ap_version next) r row) = Ok next.
Proof.
  intros (st & c & k & j & f & Hst & Hp & -> & Hv)%map_snapshot_ok (-> & _ & _ & _ & Hr & Hn & _)%resolve_ok.
  apply map_snapshot_ok. exists (rs_status r), c, k, j, f. split_and!; [done|done| |done].
  unfold moved, row_snapshot. f_equal. cbn. unfold row_resolution. cbn. f_equal.
  assert (rs_status r ≠ ApprovalStatus.Consumed) by (destruct (resolution_status r Hr) as [?|[?|?]]; congruence).
  rewrite decide_False by done. by destruct r.
Qed.

(** The row after its consumption is the consumed snapshot. *)
Lemma map_consumed id row a v next :
  map_snapshot id row = Ok a → consume a v = Ok next →
  map_snapshot id (set_consumed (ap_version next) row) = Ok next.
Proof.
  intros (st & c & k & j & f & Hst & Hp & -> & Hv)%map_snapshot_ok (-> & _ & Ha)%consume_ok. cbn in Ha. subst st.
  apply map_snapshot_ok. exists ApprovalStatus.Consumed, c, k, j, f. split_and!; [done|done|done|].
  apply validate_ok in Hv as (Hi & Hh & Hc & Hr). apply validate_ok. split_and!; [done|done| |].
  - unfold validate_content in *. cbn in *. rewrite !andb_true_iff in Hc. destruct Hc as [[[-> ->] ->] Hc].
    cbn. destruct (row_resolution row _); done.
  - intros r Hres. destruct (Hr r Hres) as (? & Hm & ?). split_and!; [done| |done].
    unfold row_snapshot, row_resolution in Hres. cbn in Hres.
    apply fmap_Some in Hres as (t & _ & ->). done.
Qed.

End Snapshots.

(** ** What the transactions write *)

Section Writes.
Context `{Env} `{Sqlite} `{ApprovalDigest} `{ApprovalCodec}.
Implicit Types (s : Db) (row : RequestRow).

(** A failed write leaves the tables alone. *)
Definition writes {A} (s : Db) (P : A → Db → Prop) (r : Result ApprovalRepositoryError A) (s' : Db) : Prop :=
  match r with Ok a => P a s' | Err _ => s' = s | Panic => False end.

Lemma writes_mono {A} s (P Q : A → Db → Prop) (r : Result ApprovalRepositoryError A) s' :
  (∀ a t, P a t → Q a t) → writes s P r s' → writes s Q r s'.
Proof. destruct r; cbn; auto. Qed.

(** The event a step appends. *)
Definition event (id : ApprovalId) (version : N) (event_type : string) (payload : Payload) (now_ms : Z) : EventRow :=
  {| ev_approval_id := id; ev_version := version; ev_event_type := event_type; ev_payload := payload;
     ev_created_at_ms := now_ms |}.

Definition logged (e : EventRow) : Db → Db := with_events (λ l, l ++ [e]).

Definition replaced (id : ApprovalId) (row : RequestRow) : Db → Db := with_requests (<[id := row]>).

Lemma wp_sql_statement (Q : Result ApprovalRepositoryError unit → Db → N → Prop) s n :
  (∀ n', Q (Ok tt) s n') → (∀ e n', Q (Err e) s n') → wp statement Q s n.
Proof. apply wp_execute. Qed.

Lemma wp_constraint b name (Q : Result ApprovalRepositoryError unit → Db → N → Prop) s n :
  (b = true → Q (Ok tt) s n) → (∀ e, Q (Err e) s n) → wp (constraint Sql b name) Q s n.
Proof. intros. apply wp_ensure; auto. Qed.

Lemma wp_param v (Q : Result ApprovalRepositoryError unit → Db → N → Prop) s n :
  Q (Ok tt) s n → (∀ e, Q (Err e) s n) → wp (u64_param Sql v) Q s n.
Proof. intros. apply wp_ensure; auto. Qed.

Lemma wp_append_event id version event_type payload now (Q : Result ApprovalRepositoryError unit → Db → N → Prop) s n :
  (∀ n', is_Some (db_requests s !! id) → Q (Ok tt) (logged (event id version event_type payload now) s) n') →
  (∀ e n', Q (Err e) s n') →
  wp (append_event id version event_type payload now) Q s n.
Proof.
  intros Hok Herr. unfold append_event. wp_step. apply wp_param; [|auto].
  wp_step. apply wp_sql_statement; [intros n1|auto]. wp_step. wp_step. wp_step.
  apply wp_constraint; [intros Hk|auto]. wp_step. apply wp_constraint; [intros _|auto].
  wp_step. apply Hok. by apply bool_decide_eq_true in Hk.
Qed.

Lemma wp_update_request id version status f (Q : Result ApprovalRepositoryError bool → Db → N → Prop) s n :
  (∀ row n', db_requests s !! id = Some row → rq_version row = version → rq_status row = status →
     Q (Ok true) (replaced id (f row) s) n') →
  (∀ n', Q (Ok false) s n') → (∀ e n', Q (Err e) s n') →
  wp (update_request id version status f) Q s n.
Proof.
  intros Htrue Hfalse Herr. unfold update_request. wp_step. apply wp_sql_statement; [intros n1|auto].
  wp_step. wp_step. destruct (db_requests s !! id) as [row|] eqn:Hrow; [|apply wp_ret; auto].
  destruct ((rq_version row =? version) && _) eqn:Hc; [|apply wp_ret; auto].
  apply andb_true_iff in Hc as [Hv%N.eqb_eq Hs%bool_decide_eq_true].
  wp_step. wp_step. apply wp_ret. by apply Htrue.
Qed.

Lemma wp_version_conflict id v fallback (Q : Result ApprovalRepositoryError unit → Db → N → Prop) s n :
  (∀ e n', Q (Err e) s n') → wp (version_conflict id v fallback) Q s n.
Proof.
  intros Herr. unfold version_conflict. wp_step. apply wp_reads; [apply reads_request_get|].
  intros [o|e|] n' Hr; [apply wp_throw; auto|auto|done].
Qed.

(** *** A decision *)

Definition resolved_db (current next : ApprovalSnapshot) (r : ApprovalResolution) row s : Db :=
  logged (event (ap_id current) (ap_version next) "resolved" (StatusPayload (status_wire (ap_status next)))
            (rs_resolved_at_ms r))
    (replaced (ap_id current) (set_resolution (status_wire (ap_status next)) (ap_version next) r row) s).

Lemma wp_persist_resolution current next r s n :
  wp (persist_resolution current next r) (λ res s' _,
    writes s (λ _ s', ∃ row, db_requests s !! ap_id current = Some row ∧ rq_version row = ap_version current
                        ∧ rq_status row = "pending" ∧ s' = resolved_db current next r row s) res s') s n.
Proof.
  unfold persist_resolution. apply wp_transaction; [|done]. intros n1.
  wp_step. apply wp_param; [|done]. wp_step. apply wp_param; [|done].
  wp_step. apply wp_update_request; [intros row n2 Hrow Hv Hs|intros n2|done].
  - wp_step. apply wp_ret. apply wp_append_event; [|done]. intros n3 _ _. cbn. eauto 10.
  - wp_step. by apply wp_version_conflict.
Qed.

(** *** A new request *)

Definition inserted_db (id : ApprovalId) row s : Db :=
  logged (event id 0 "created" (StatusPayload "pending") (rq_created_at_ms row)) (replaced id row s).

(** No active row has the subject. *)
Definition vacant (category hash : string) s : Prop :=
  ∀ id row, db_requests s !! id = Some row → active_row category hash row = false.

Lemma existsb_entries {V} (f : V → bool) (m : gmap Uuid V) :
  existsb (λ kr, f kr.2) (map_to_list m) = false ↔ ∀ k v, m !! k = Some v → f v = false.
Proof.
  split.
  - intros He k v Hkv. apply not_true_iff_false. intros Hf. apply not_true_iff_false in He. apply He.
    apply existsb_exists. exists (k, v). split; [|done]. by apply list_elem_of_In, elem_of_map_to_list.
  - intros Hv. apply not_true_iff_false. intros ([k v] & Hin%list_elem_of_In%elem_of_map_to_list & Hf)%existsb_exists.
    cbn in Hf. by rewrite (Hv k v Hin) in Hf.
Qed.

Lemma vacant_iff category hash s :
  existsb (λ kr : Uuid * RequestRow, active_row category hash kr.2) (map_to_list (db_requests s)) = false
  ↔ vacant category hash s.
Proof. apply (existsb_entries (active_row category hash)). Qed.

Lemma wp_persist_request id row s n :
  wp (persist_request id row) (λ res s' _,
    writes s (λ _ s', db_requests s !! id = None ∧ vacant (rq_category row) (rq_subject_hash row) s
                        ∧ s' = inserted_db id row s) res s') s n.
Proof.
  unfold persist_request. apply wp_transaction; [|done]. intros n1.
  unfold insert_request. wp_step. wp_step. apply wp_sql_statement; [intros n2|done]. wp_step. wp_step. wp_step.
  apply wp_constraint; [intros Hid%bool_decide_eq_true|done]. wp_step.
  apply wp_constraint; [intros Hv%negb_true_iff|done]. apply vacant_iff in Hv. wp_step.
  apply wp_constraint; [intros _|done]. wp_step. apply wp_append_event; [|done]. intros n3 _ _. cbn. eauto.
Qed.

(** *** A claim *)

Definition running (id : ApprovalId) (operation_id : OperationId) (now_ms : Z) : ApprovalApplyOperation :=
  {| ao_approval_id := id; ao_operation_id := operation_id; ao_status := "running"; ao_started_at_ms := now_ms;
     ao_finished_at_ms := None; ao_error := None |}.

Lemma wp_claim_operation id op now s n :
  wp (claim_operation id op now) (λ res s' _,
    writes s (λ changed s',
      if (changed : bool)
      then db_operations s !! id = None ∧ is_Some (db_requests s !! id)
           ∧ (∀ k o, db_operations s !! k = Some o → ao_operation_id o ≠ op)
           ∧ s' = with_operations (<[id := running id op now]>) s
      else s' = s) res s') s n.
Proof.
  unfold claim_operation. wp_step. apply wp_sql_statement; [intros n1|done]. wp_step. wp_step.
  destruct (_ || _) eqn:Hc; [by apply wp_ret|]. apply orb_false_iff in Hc as [Hid Hop].
  wp_step. apply wp_constraint; [intros Hk%bool_decide_eq_true|done]. wp_step. wp_step. apply wp_ret. cbn.
  rewrite bool_decide_eq_false, <-eq_None_not_Some in Hid. split_and!; [done..| |done]. intros k o Ho.
  pose proof (proj1 (existsb_entries (λ o, bool_decide (ao_operation_id o = op)) _) Hop k o Ho) as Hne.
  by apply bool_decide_eq_false in Hne.
Qed.

(** *** A receipt *)

Definition ended (receipt : ApprovalApplyReceipt) (o : ApprovalApplyOperation) : ApprovalApplyOperation :=
  if bool_decide (ao_operation_id o = rc_operation_id receipt) && bool_decide (ao_status o = "running")
  then {| ao_approval_id := ao_approval_id o; ao_operation_id := ao_operation_id o;
          ao_status := if rc_success receipt then "succeeded" else "failed";
          ao_started_at_ms := ao_started_at_ms o; ao_finished_at_ms := Some (rc_finished_at_ms receipt);
          ao_error := rc_error receipt |}
  else o.

Definition receipt_row (receipt : ApprovalApplyReceipt) (json : string) : ReceiptRow :=
  {| rr_operation_id := rc_operation_id receipt; rr_receipt_json := json; rr_created_at_ms := rc_finished_at_ms receipt |}.

Definition consumed_db (receipt : ApprovalApplyReceipt) (json : string) (next : ApprovalSnapshot) row s : Db :=
  let id := rc_approval_id receipt in
  logged (event id (ap_version next) "consumed" (AppliedPayload (rc_operation_id receipt) (rc_success receipt))
            (rc_finished_at_ms receipt))
    (with_receipts (<[id := receipt_row receipt json]>)
      (with_operations (alter (ended receipt) id) (replaced id (set_consumed (ap_version next) row) s))).

Lemma wp_persist_receipt receipt current next s n :
  wp (persist_receipt receipt current next) (λ res s' _,
    writes s (λ _ s', ∃ row json, db_requests s !! rc_approval_id receipt = Some row
                        ∧ rq_version row = ap_version current ∧ rq_status row = "approved"
                        ∧ receipt_json receipt = inr json ∧ db_receipts s !! rc_approval_id receipt = None
                        ∧ s' = consumed_db receipt json next row s) res s') s n.
Proof.
  unfold persist_receipt. apply wp_transaction; [|done]. intros n1.
  wp_step. apply wp_param; [|done]. wp_step. apply wp_param; [|done].
  wp_step. apply wp_update_request; [intros row n2 Hrow Hv Hs|intros n2|done].
  2: { wp_step. by apply wp_version_conflict. }
  wp_step. apply wp_ret. unfold finish_operation. wp_step. wp_step. apply wp_sql_statement; [intros n3|done].
  wp_step. wp_step. destruct (receipt_json receipt) as [e|json] eqn:Hj; [by apply wp_throw|]. apply wp_ret.
  unfold insert_receipt. wp_step. wp_step. apply wp_sql_statement; [intros n4|done]. wp_step. wp_step. wp_step.
  apply wp_constraint; [intros Hn%bool_decide_eq_true|done]. wp_step. apply wp_constraint; [intros _|done].
  wp_step. apply wp_constraint; [intros _|done]. wp_step. apply wp_append_event; [|done]. intros n5 _ _.
  cbn. eauto 10.
Qed.

End Writes.

(** ** The approval repository: the invariant and the order of its states

    A row parses and is at a stage of its life; a decision other than expiry was
    taken by the owner on a permitted channel in time; the events of an approval
    tell its life; a receipt exists exactly for a consumed approval and ends the
    operation that claimed it; one active approval per subject. *)

Section Invariant.
Context `{Env} `{Sqlite} `{ApprovalDigest} `{ApprovalCodec} (policy : ApprovalChannelPolicy).
Implicit Types (s : Db) (row : RequestRow) (a : ApprovalSnapshot).

(** The owner decided, on a permitted channel, before the request expired. *)
Definition authorised a : Prop :=
  ∃ r c, ap_resolution a = Some r ∧ rs_principal_id r = Some (ap_owner_id a) ∧ rs_channel r = Some c ∧ c ∈ policy
    ∧ (ap_created_at_ms a ≤ rs_resolved_at_ms r < ap_expires_at_ms a)%Z.

Definition stage a : Prop :=
  match ap_status a with
  | ApprovalStatus.Pending => ap_version a = 0
  | ApprovalStatus.Expired => ap_version a = 1
  | ApprovalStatus.Approved | ApprovalStatus.Rejected => ap_version a = 1 ∧ authorised a
  | ApprovalStatus.Consumed => ap_version a = 2 ∧ authorised a
  end.

Definition receipt_of (rr : ReceiptRow) : option ApprovalApplyReceipt :=
  match parse_receipt (rr_receipt_json rr) with inr rc => Some rc | inl _ => None end.

(** The operation of a receipt, when it has ended. *)
Definition ended_by (rc : ApprovalApplyReceipt) (o : ApprovalApplyOperation) : Prop :=
  ao_operation_id o = rc_operation_id rc ∧ ao_status o = (if rc_success rc then "succeeded" else "failed")
  ∧ ao_finished_at_ms o = Some (rc_finished_at_ms rc) ∧ ao_error o = rc_error rc.

Definition applied s a : Prop :=
  match ap_status a with
  | ApprovalStatus.Consumed => ∃ rr rc o,
      db_receipts s !! ap_id a = Some rr ∧ receipt_of rr = Some rc ∧ rc_approval_id rc = ap_id a
      ∧ rr_operation_id rr = rc_operation_id rc ∧ db_operations s !! ap_id a = Some o ∧ ended_by rc o
  | ApprovalStatus.Approved =>
      db_receipts s !! ap_id a = None ∧ ∀ o, db_operations s !! ap_id a = Some o → ao_status o = "running"
  | _ => db_receipts s !! ap_id a = None ∧ db_operations s !! ap_id a = None
  end.

(** What the events of an approval say. *)
Definition view (e : EventRow) : N * string * Payload := (ev_version e, ev_event_type e, ev_payload e).

Definition events_of (id : ApprovalId) s : list EventRow := filter (λ e, ev_approval_id e = id) (db_events s).

Definition trail s a : list (N * string * Payload) :=
  (0, "created", StatusPayload "pending")
  :: match ap_resolution a with
     | Some r => [(1, "resolved", StatusPayload (status_wire (rs_status r)))]
     | None => []
     end
  ++ match db_receipts s !! ap_id a ≫= receipt_of with
     | Some rc => [(2, "consumed", AppliedPayload (rc_operation_id rc) (rc_success rc))]
     | None => []
     end.

Definition row_ok s (id : ApprovalId) row : Prop :=
  ∃ a, map_snapshot id row = Ok a ∧ stage a ∧ applied s a ∧ view <$> events_of id s = trail s a.

Record inv s : Prop := {
  i_rows : ∀ id row, db_requests s !! id = Some row → row_ok s id row;
  i_events : ∀ e, e ∈ db_events s → is_Some (db_requests s !! ev_approval_id e);
  i_operations : ∀ id o, db_operations s !! id = Some o → is_Some (db_requests s !! id);
  i_receipts : ∀ id rr, db_receipts s !! id = Some rr → is_Some (db_requests s !! id);
  i_active : ∀ id id' row row',
    db_requests s !! id = Some row → db_requests s !! id' = Some row' →
    rq_category row = rq_category row' → rq_subject_hash row = rq_subject_hash row' →
    is_active (rq_status row) = true → is_active (rq_status row') = true → id = id';
  i_unique : ∀ id id' o o',
    db_operations s !! id = Some o → db_operations s !! id' = Some o' → ao_operation_id o = ao_operation_id o' → id = id';
}.

(** ** How states evolve *)

(** What a request asks for, and who owns it. *)
Definition fixed row :=
  (rq_goal_id row, rq_attempt_id row, rq_job_id row, rq_owner_id row, rq_category row, rq_risk row,
   rq_subject_json row, rq_subject_hash row, rq_summary row, rq_artifacts_json row, rq_created_at_ms row,
   rq_expires_at_ms row).

Definition resolution_columns row :=
  (rq_resolution_principal row, rq_resolution_channel row, rq_resolution_time_ms row, rq_resolution_reason row).

(** A row keeps its request; a decision is final, but that an approval may be
    consumed; a version is never reused. *)
Record row_evolves row row' : Prop := {
  re_fixed : fixed row' = fixed row;
  re_decided : rq_status row ≠ "pending" →
    resolution_columns row' = resolution_columns row
    ∧ (rq_status row' = rq_status row ∨ rq_status row = "approved" ∧ rq_status row' = "consumed");
  re_version : rq_version row ≤ rq_version row';
  re_same : rq_version row' = rq_version row → row' = row;
}.

Definition operation_evolves (o o' : ApprovalApplyOperation) : Prop :=
  ao_operation_id o' = ao_operation_id o ∧ (ao_status o ≠ "running" → o' = o).

Record evolves s s' : Prop := {
  ev_requests : ∀ id row, db_requests s !! id = Some row →
    ∃ row', db_requests s' !! id = Some row' ∧ row_evolves row row';
  ev_events : db_events s `prefix_of` db_events s';
  ev_operations : ∀ id o, db_operations s !! id = Some o →
    ∃ o', db_operations s' !! id = Some o' ∧ operation_evolves o o';
  ev_receipts : ∀ id rr, db_receipts s !! id = Some rr → db_receipts s' !! id = Some rr;
}.

#[global] Instance row_evolves_pre : PreOrder row_evolves.
Proof.
  split.
  - intros row. constructor; auto; lia.
  - intros x y z [Hf1 Hd1 Hv1 Hs1] [Hf2 Hd2 Hv2 Hs2]. constructor; [congruence| |lia|].
    + intros Hx. destruct (Hd1 Hx) as [Hc1 Ht1].
      assert (rq_status y ≠ "pending") as Hy by (destruct Ht1 as [->|[_ ->]]; done).
      destruct (Hd2 Hy) as [Hc2 Ht2]. split; [congruence|].
      destruct Ht1 as [Ht1|[? Ht1]], Ht2 as [Ht2|[Ht2' Ht2]]; rewrite Ht2; auto; try (left; congruence); right; split; congruence.
    + intros Hv. assert (y = x) as -> by (apply Hs1; lia). apply Hs2. lia.
Qed.

#[global] Instance operation_evolves_pre : PreOrder operation_evolves.
Proof.
  split; [by intros|]. intros x y z [Hi1 Hs1] [Hi2 Hs2]. split; [congruence|]. intros Hr.
  rewrite (Hs1 Hr) in *. auto.
Qed.

#[global] Instance evolves_pre : PreOrder evolves.
Proof.
  split.
  - intros s. constructor; eauto; [intros; eexists; split; [done|reflexivity]..].
  - intros x y z [R1 E1 O1 C1] [R2 E2 O2 C2]. constructor; [|by etrans| |auto].
    + intros id row (row1 & (row2 & ? & ?)%R2 & ?)%R1. exists row2. split; [done|]. by etrans.
    + intros id o (o1 & (o2 & ? & ?)%O2 & ?)%O1. exists o2. split; [done|]. by etrans.
Qed.

(** ** What a method has read *)

(** [a] was the snapshot of the approval at some point of the past. *)
Definition seen s (id : ApprovalId) a : Prop :=
  ∃ row0 row, map_snapshot id row0 = Ok a ∧ db_requests s !! id = Some row ∧ row_evolves row0 row.

Definition intent_ok s (i : Intent) : Prop :=
  match i with
  | InsertRequest id row =>
      ∃ a, map_snapshot id row = Ok a ∧ ap_status a = ApprovalStatus.Pending ∧ ap_version a = 0
  | PersistResolution current next r =>
      seen s (ap_id current) current ∧ Approval.resolve current (ap_version current) r = Ok next
      ∧ ap_version current = 0
      ∧ (rs_status r = ApprovalStatus.Expired
         ∨ rs_principal_id r = Some (ap_owner_id current) ∧ ∃ c, rs_channel r = Some c ∧ c ∈ policy)
  | ClaimOperation id _ _ =>
      ∃ row, db_requests s !! id = Some row ∧ (rq_status row = "approved" ∨ rq_status row = "consumed")
  | PersistReceipt receipt current next =>
      seen s (rc_approval_id receipt) current ∧ consume current (ap_version current) = Ok next
      ∧ ap_version current = 1
      ∧ ∃ o, db_operations s !! rc_approval_id receipt = Some o ∧ ao_operation_id o = rc_operation_id receipt
  end.

Lemma seen_evolves s s' id a : evolves s s' → seen s id a → seen s' id a.
Proof.
  intros He (row0 & row & Hm & (row' & Hrow & Hr)%(ev_requests _ _ He) & Hr0). exists row0, row'.
  split_and!; [done..|]. by etrans.
Qed.

Lemma intent_evolves s s' i : evolves s s' → intent_ok s i → intent_ok s' i.
Proof.
  intros He. destruct i as [id row|current next r|id op now|receipt current next]; cbn; [done| | |].
  - intros (Hs & ? & ? & ?). split_and!; try done. by eapply seen_evolves.
  - intros (row & (row' & Hrow & Hr)%(ev_requests _ _ He) & Hst). exists row'. split; [done|].
    destruct (re_decided _ _ Hr) as [_ Ht]; [by destruct Hst as [->| ->]|]. destruct Ht as [->|[_ ->]]; auto.
  - intros (Hs & ? & ? & o & (o' & Ho & Hi & _)%(ev_operations _ _ He) & Hop).
    split_and!; try done; [by eapply seen_evolves|]. exists o'. split; [done|]. congruence.
Qed.

(** ** A write to one approval *)

Lemma map_snapshot_id id row a : map_snapshot id row = Ok a → ap_id a = id.
Proof. by intros (? & ? & ? & ? & ? & _ & _ & -> & _)%map_snapshot_ok. Qed.

Lemma row_ok_frame s s' id row :
  db_receipts s' !! id = db_receipts s !! id → db_operations s' !! id = db_operations s !! id →
  events_of id s' = events_of id s → row_ok s id row → row_ok s' id row.
Proof.
  intros Hc Ho He (a & Hm & Hst & Ha & Ht). pose proof (map_snapshot_id _ _ _ Hm) as Hid.
  exists a. split_and!; [done|done| |].
  - unfold applied in *. by rewrite Hid, Hc, Ho in *.
  - unfold trail in *. rewrite He, Ht. by rewrite Hid, Hc.
Qed.

Lemma events_of_logged id e s :
  events_of id (logged e s) = events_of id s ++ (if decide (ev_approval_id e = id) then [e] else []).
Proof. unfold events_of. cbn. rewrite filter_app, filter_cons. by case_decide. Qed.

Lemma events_of_replaced k id row s : events_of k (replaced id row s) = events_of k s.
Proof. done. Qed.

(** [s'] differs from [s] in the rows and events of [id] only. *)
Record touches (id : ApprovalId) row' s s' : Prop := {
  to_requests : db_requests s' = <[id := row']> (db_requests s);
  to_events : ∃ e, db_events s' = db_events s ++ [e] ∧ ev_approval_id e = id;
  to_receipts : ∀ k, k ≠ id → db_receipts s' !! k = db_receipts s !! k;
  to_operations : ∀ k, k ≠ id → db_operations s' !! k = db_operations s !! k;
  to_operation : ∀ o', db_operations s' !! id = Some o' →
    ∃ o, db_operations s !! id = Some o ∧ ao_operation_id o' = ao_operation_id o;
}.

Lemma inv_touch id row' s s' :
  inv s → touches id row' s s' → row_ok s' id row' →
  (is_active (rq_status row') = true → ∀ k row, k ≠ id → db_requests s !! k = Some row →
     rq_category row = rq_category row' → rq_subject_hash row = rq_subject_hash row' → is_active (rq_status row) = false) →
  inv s'.
Proof.
  intros Hi [Hreq (e & He & Hid) Hrec Hop Hop1] Hrow Hact.
  assert (∀ k, is_Some (db_requests s !! k) → is_Some (db_requests s' !! k)) as Hknown.
  { intros k Hk. rewrite Hreq. destruct (decide (k = id)) as [->|]; [rewrite lookup_insert_eq; eauto|].
    by rewrite lookup_insert_ne. }
  assert (is_Some (db_requests s' !! id)) as Hhere by (rewrite Hreq, lookup_insert_eq; eauto).
  constructor.
  - intros k row. rewrite Hreq. intros [[<- <-]|[Hne Hk]]%lookup_insert_Some; [done|].
    eapply (row_ok_frame s); [by apply Hrec|by apply Hop| |by apply (i_rows s)].
    unfold events_of. rewrite He, filter_app, filter_cons. rewrite decide_False by congruence.
    by rewrite filter_nil, app_nil_r.
  - intros e'. rewrite He, elem_of_app, list_elem_of_singleton. intros [Hin| ->]; [|by rewrite Hid].
    by apply Hknown, (i_events s).
  - intros k o Hk. destruct (decide (k = id)) as [->|Hne]; [done|]. rewrite Hop in Hk by done.
    by eapply Hknown, (i_operations s).
  - intros k rr Hk. destruct (decide (k = id)) as [->|Hne]; [done|]. rewrite Hrec in Hk by done.
    by eapply Hknown, (i_receipts s).
  - intros k k' r r'. rewrite Hreq.
    intros [[<- <-]|[Hne Hk]]%lookup_insert_Some [[<- <-]|[Hne' Hk']]%lookup_insert_Some Hc Hh Ha Ha'; [done| | |].
    + by rewrite (Hact Ha k' r') in Ha'.
    + by rewrite (Hact Ha' k r) in Ha.
    + by eapply (i_active s Hi).
  - assert (∀ k o, db_operations s' !! k = Some o →
             ∃ o0, db_operations s !! k = Some o0 ∧ ao_operation_id o = ao_operation_id o0) as Hback.
    { intros k o Hk. destruct (decide (k = id)) as [->|Hne]; [by apply Hop1|]. rewrite Hop in Hk by done. eauto. }
    intros k k' o o' (o0 & Hk & Ho)%Hback (o0' & Hk' & Ho')%Hback Heq. eapply (i_unique s Hi); [done..|]. congruence.
Qed.

Lemma evolves_touch id row' s s' :
  touches id row' s s' →
  (∀ row, db_requests s !! id = Some row → row_evolves row row') →
  (∀ o, db_operations s !! id = Some o → ∃ o', db_operations s' !! id = Some o' ∧ operation_evolves o o') →
  (∀ rr, db_receipts s !! id = Some rr → db_receipts s' !! id = Some rr) →
  evolves s s'.
Proof.
  intros [Hreq (e & He & Hid) Hrec Hop _] Hrow Ho Hr. constructor.
  - intros k row Hk. rewrite Hreq. destruct (decide (k = id)) as [->|].
    + rewrite lookup_insert_eq. eauto.
    + rewrite lookup_insert_ne by done. exists row. split; [done|reflexivity].
  - rewrite He. by apply prefix_app_r.
  - intros k o Hk. destruct (decide (k = id)) as [->|]; [auto|]. rewrite Hop by done. exists o.
    split; [done|reflexivity].
  - intros k rr Hk. destruct (decide (k = id)) as [->|]; [auto|]. by rewrite Hrec.
Qed.

(** The snapshot that was read is that of the row whose version has not changed. *)
Lemma seen_now s id a row :
  seen s id a → db_requests s !! id = Some row → rq_version row = ap_version a → map_snapshot id row = Ok a.
Proof.
  intros (row0 & row1 & Hm & Hrow1 & He) Hrow Hv. simplify_eq.
  assert (rq_version row0 = ap_version a) as Hv0.
  { by apply map_snapshot_ok in Hm as (? & ? & ? & ? & ? & _ & _ & -> & _). }
  rewrite (re_same _ _ He) by lia. done.
Qed.

(** No other active row has the subject of an active one. *)
Lemma active_alone s id row row' :
  inv s → db_requests s !! id = Some row → is_active (rq_status row) = true → fixed row' = fixed row →
  ∀ k other, k ≠ id → db_requests s !! k = Some other → rq_category other = rq_category row' →
    rq_subject_hash other = rq_subject_hash row' → is_active (rq_status other) = false.
Proof.
  intros Hi Hrow Hact [=] k other Hne Hk Hc Hh. apply not_true_iff_false. intros Ho. apply Hne.
  eapply (i_active s Hi k id other row); congruence.
Qed.

Lemma resolved_keeps s current next r row :
  inv s → intent_ok s (PersistResolution current next r) →
  db_requests s !! ap_id current = Some row → rq_version row = ap_version current → rq_status row = "pending" →
  inv (resolved_db current next r row s) ∧ evolves s (resolved_db current next r row s).
Proof.
  intros Hi (Hseen & Hres & Hv0 & Hauth) Hrow Hv Hp. set (id := ap_id current) in *.
  pose proof (seen_now _ _ _ _ Hseen Hrow Hv) as Hm. pose proof (map_resolved _ _ _ _ _ _ Hm Hres) as Hm'.
  destruct (resolve_ok _ _ _ _ Hres) as (Hnext & _ & Hpend & Hnone & Hr & Hval & Hexp).
  set (row' := set_resolution (status_wire (ap_status next)) (ap_version next) r row) in *.
  assert (touches id row' s (resolved_db current next r row s)) as Ht.
  { constructor; [done|by eexists|done..|]. cbn. eauto. }
  destruct (i_rows s Hi _ _ Hrow) as (a & Hma & _ & Happ & Htr). assert (a = current) as -> by congruence.
  unfold applied in Happ. rewrite Hpend in Happ. destruct Happ as [Hrec Hop].
  assert (ap_status next = rs_status r) as Hstat by by rewrite Hnext.
  assert (ap_id next = id) as Hidn by by rewrite Hnext.
  assert (ap_version next = 1) as Hv1.
  { rewrite Hnext. cbn. rewrite Hv0. done. }
  split.
  - eapply inv_touch; [done|done| |intros _; by eapply active_alone; [..|rewrite Hp|]].
    exists next. split_and!; [done| | |].
    + unfold stage, authorised. rewrite Hstat, Hv1. apply validate_ok in Hval as (_ & _ & _ & Hvr).
      specialize (Hvr r). rewrite Hnext in Hvr |- *. cbn in *. destruct Hvr as (_ & _ & Hcr); [done|].
      destruct (resolution_status r Hr) as [E|[E|E]]; rewrite E in *; [..|done];
        (split; [done|]; destruct Hauth as [?|(? & c & ? & ?)], Hexp as [?|?]; try done; by exists r, c).
    + unfold applied. rewrite Hidn, Hstat. cbn. fold id in Hrec, Hop. rewrite Hrec, Hop.
      by destruct (resolution_status r Hr) as [-> |[-> | ->]].
    + unfold resolved_db. rewrite events_of_logged, decide_True by done. fold id. rewrite fmap_app.
      rewrite events_of_replaced, Htr. unfold trail.
      rewrite Hidn. cbn [db_receipts logged with_events replaced with_requests]. fold id in Hrec |- *.
      rewrite Hrec, Hnone. cbn. rewrite Hnext. cbn. rewrite Hv0. done.
  - eapply evolves_touch; [done| | |done].
    + intros row0 Hrow0. assert (row0 = row) as -> by congruence.
      constructor; [done|by rewrite Hp| |]; cbn; rewrite Hv1, Hv, Hv0; lia.
    + cbn. intros o Ho. fold id in Hop. congruence.
Qed.

Lemma inserted_keeps s id row :
  inv s → intent_ok s (InsertRequest id row) → db_requests s !! id = None →
  vacant (rq_category row) (rq_subject_hash row) s →
  inv (inserted_db id row s) ∧ evolves s (inserted_db id row s).
Proof.
  intros Hi (a & Hm & Hp & Hv) Hnone Hvac. pose proof (map_snapshot_id _ _ _ Hm) as Hid.
  assert (db_operations s !! id = None) as Hop.
  { apply eq_None_not_Some. intros [o Ho]. destruct (i_operations s Hi _ _ Ho). congruence. }
  assert (db_receipts s !! id = None) as Hrec.
  { apply eq_None_not_Some. intros [o Ho]. destruct (i_receipts s Hi _ _ Ho). congruence. }
  assert (events_of id s = []) as Hev.
  { destruct (events_of id s) as [|e l] eqn:He; [done|]. exfalso.
    assert (e ∈ events_of id s) as [Heq Hin]%list_elem_of_filter by (rewrite He; left).
    destruct (i_events s Hi e Hin) as [? Hk]. congruence. }
  assert (ap_resolution a = None) as Hres.
  { apply map_snapshot_ok in Hm as (st & ? & ? & ? & ? & _ & _ & -> & Hval). cbn in Hp. subst st.
    apply validate_ok in Hval as (_ & _ & Hc & _). unfold validate_content in Hc. rewrite !andb_true_iff in Hc.
    destruct Hc as [_ Hc]. cbn in *. by destruct (row_resolution row _). }
  assert (touches id row s (inserted_db id row s)) as Ht.
  { constructor; [done|by eexists|done..|]. cbn. eauto. }
  split.
  - eapply inv_touch; [done|done| |].
    + exists a. split_and!; [done| | |].
      * unfold stage. by rewrite Hp.
      * unfold applied. rewrite Hp, Hid. done.
      * unfold inserted_db. rewrite events_of_logged, decide_True by done. rewrite events_of_replaced, Hev.
        unfold trail. rewrite Hres, Hid. cbn. by rewrite Hrec.
    + intros _ k other _ Hk Hc Hh. specialize (Hvac k other Hk). unfold active_row in Hvac.
      rewrite Hc, Hh, !bool_decide_eq_true_2 in Hvac by done. done.
  - eapply evolves_touch; [done|congruence..|done].
Qed.

Lemma claimed_keeps s id op now :
  inv s → intent_ok s (ClaimOperation id op now) → db_operations s !! id = None →
  (∀ k o, db_operations s !! k = Some o → ao_operation_id o ≠ op) →
  let s' := with_operations (<[id := running id op now]>) s in inv s' ∧ evolves s s'.
Proof.
  intros Hi (row & Hrow & Hst) Hnone Hfresh s'. split.
  - constructor; cbn.
    + intros k r Hk. destruct (decide (k = id)) as [->|Hne].
      2: { eapply (row_ok_frame s); [done| |done|by apply (i_rows s)]. cbn. by rewrite lookup_insert_ne. }
      assert (r = row) as -> by congruence.
      destruct (i_rows s Hi _ _ Hrow) as (a & Hm & Hsg & Happ & Htr). exists a. split_and!; [done..| |done].
      pose proof (map_snapshot_status _ _ _ Hm) as Hs. pose proof (map_snapshot_id _ _ _ Hm) as Hid.
      unfold applied in *. rewrite Hid in *. cbn. rewrite lookup_insert_eq.
      destruct (ap_status a); cbn in Hs; rewrite Hs in Hst.
      2: { destruct Happ as [? _]. split; [done|]. by intros o [= <-]. }
      all: destruct Hst as [Hst|Hst]; try discriminate Hst.
      destruct Happ as (rr & rc & o & _ & _ & _ & _ & Ho & _). congruence.
    + apply (i_events s Hi).
    + intros k o [[<- <-]|[? Hk]]%lookup_insert_Some; [eauto|]. by eapply (i_operations s Hi).
    + apply (i_receipts s Hi).
    + apply (i_active s Hi).
    + intros k k' o o' [[<- <-]|[? Hk]]%lookup_insert_Some [[<- <-]|[? Hk']]%lookup_insert_Some; [done| | |].
      * cbn. intros Heq. by destruct (Hfresh k' o').
      * cbn. intros Heq. by destruct (Hfresh k o).
      * by apply (i_unique s Hi).
  - constructor; cbn; [|done| |done].
    + intros k r Hk. exists r. split; [done|reflexivity].
    + intros k o Hk. rewrite lookup_insert_ne by congruence. exists o. split; [done|reflexivity].
Qed.

Lemma consumed_keeps `{!ApprovalLaws} s receipt json current next row :
  inv s → intent_ok s (PersistReceipt receipt current next) → let id := rc_approval_id receipt in
  db_requests s !! id = Some row → rq_version row = ap_version current → rq_status row = "approved" →
  receipt_json receipt = inr json →
  inv (consumed_db receipt json next row s) ∧ evolves s (consumed_db receipt json next row s).
Proof.
  intros Hi (Hseen & Hcon & Hv1 & o & Ho & Hoid) id Hrow Hv Hap Hj. fold id in Hseen, Ho.
  pose proof (seen_now _ _ _ _ Hseen Hrow Hv) as Hm. pose proof (map_consumed _ _ _ _ _ Hm Hcon) as Hm'.
  destruct (consume_ok _ _ _ Hcon) as (Hnext & _ & Happr).
  set (row' := set_consumed (ap_version next) row) in *.
  destruct (i_rows s Hi _ _ Hrow) as (a & Hma & Hsg & Happ & Htr). assert (a = current) as -> by congruence.
  pose proof (map_snapshot_id _ _ _ Hm) as Hid.
  unfold applied in Happ. rewrite Happr, Hid in Happ. destruct Happ as [Hrec Hrun]. specialize (Hrun o Ho).
  assert (ended receipt o = {| ao_approval_id := ao_approval_id o; ao_operation_id := ao_operation_id o;
          ao_status := if rc_success receipt then "succeeded" else "failed";
          ao_started_at_ms := ao_started_at_ms o; ao_finished_at_ms := Some (rc_finished_at_ms receipt);
          ao_error := rc_error receipt |}) as Hend.
  { unfold ended. by rewrite !bool_decide_eq_true_2. }
  assert (touches id row' s (consumed_db receipt json next row s)) as Ht.
  { constructor; [done|by eexists| | |]; cbn.
    - intros k Hk. by rewrite lookup_insert_ne.
    - intros k Hk. by rewrite lookup_alter_ne.
    - intros o'. fold id. rewrite lookup_alter_eq, Ho. cbn. rewrite Hend. intros [= <-]. by exists o. }
  assert (ap_id next = id) as Hidn by by rewrite Hnext.
  assert (ap_status next = ApprovalStatus.Consumed) as Hst by by rewrite Hnext.
  assert (ap_version next = 2) as Hv2 by by rewrite Hnext; cbn; rewrite Hv1.
  assert (receipt_of (receipt_row receipt json) = Some receipt) as Hrc.
  { unfold receipt_of. cbn. by rewrite (receipt_read_back receipt). }
  split.
  - eapply inv_touch; [done|done| |intros [=]].
    exists next. split_and!; [done| | |].
    + unfold stage. rewrite Hst, Hv2. unfold stage in Hsg. rewrite Happr in Hsg. destruct Hsg as [_ Hsg].
      unfold authorised in *. rewrite Hnext. cbn. done.
    + unfold applied. rewrite Hst, Hidn. cbn. fold id.
      rewrite lookup_insert_eq, lookup_alter_eq, Ho. cbn. rewrite Hend. by eexists _, receipt, _.
    + unfold consumed_db. rewrite events_of_logged, decide_True by done. rewrite fmap_app.
      change (events_of _ _) with (events_of id s) at 1. rewrite Htr. unfold trail.
      rewrite Hidn, Hid. cbn. fold id. rewrite Hrec, lookup_insert_eq. cbn. rewrite Hrc, Hnext. cbn. rewrite Hv1.
      by rewrite app_nil_r.
  - eapply evolves_touch; [done| | |congruence].
    + intros row0 Hrow0. assert (row0 = row) as -> by congruence.
      constructor; [done| | |]; cbn; [|rewrite Hv2, Hv, Hv1; lia..]. intros _. split; [done|]. by right.
    + intros o0 Ho0. cbn. fold id. rewrite lookup_alter_eq, Ho0. cbn. assert (o0 = o) as -> by congruence.
      eexists. split; [done|]. rewrite Hend. by split.
Qed.

End Invariant.
