(* ===== verification/ApprovalRun.v ===== *)
(** * Runs of the approval repository

    Several connections read and write the database.  A step is one of: a
    method reads and decides; a transaction that was decided earlier runs; a
    delivery or an external request is recorded; the goal tables change.  A
    process that dies leaves its transactions undone, which needs no step of its
    own.  Every method of the repository is a sequence of steps. *)
From S2P Require Import Prelude FabricTypes StdModel Fallible Database StdFloat Candidate ApprovalTypes Approvals ApprovalSpec.
From Stdlib Require Import Relations.
Import Approval Approvals.

#[local] Open Scope N_scope.

Record World := {
  w_db : Db;
  w_calls : N;
  w_intents : list Intent;
}.

(** What a method is asked for. *)
Inductive Request :=
| AskCreate (create : ApprovalCreate)
| AskResolve (id : ApprovalId) (expected_version : N) (context : ApprovalResolutionContext)
    (decision : ApprovalDecision) (now_ms : Z)
| AskExpire (id : ApprovalId) (now_ms : Z)
| AskDeny (id : ApprovalId) (expected_version : N) (now_ms : Z) (reason : string)
| AskClaim (id : ApprovalId) (operation_id : OperationId) (now_ms : Z)
| AskFinish (receipt : ApprovalApplyReceipt).

(** The methods that do not write approvals. *)
Inductive Note :=
| NotePending (id : ApprovalId) (channel conversation_id correlation_id : string) (now_ms : Z)
| NoteSent (correlation_id provider_message_id : string) (now_ms : Z)
| NoteFailed (correlation_id error : string) (now_ms : Z)
| NoteExternal (correlation_id source summary : string) (requested_at_ms : Z)
| NoteResolution (correlation_id decision : string) (resolved_at_ms : Z).

Section Steps.
Context `{Env} `{Sqlite} `{ApprovalDigest} `{ApprovalCodec} (policy : ApprovalChannelPolicy).

Abbreviation Repo := (M Db ApprovalRepositoryError).

Definition persisting (p : ApprovalSnapshot * ApprovalSnapshot * ApprovalResolution) : Intent :=
  let '(current, next, resolution) := p in PersistResolution current next resolution.

Definition inserting (p : ApprovalSnapshot + ApprovalId * RequestRow) : option Intent :=
  match p with inl _ => None | inr (id, row) => Some (InsertRequest id row) end.

Definition resolving (p : ApprovalSnapshot + ApprovalSnapshot * ApprovalSnapshot * ApprovalResolution) : option Intent :=
  match p with inl _ => None | inr p => Some (persisting p) end.

Definition finishing (receipt : ApprovalApplyReceipt) (p : ApprovalSnapshot + ApprovalSnapshot * ApprovalSnapshot)
    : option Intent :=
  match p with inl _ => None | inr (current, next) => Some (PersistReceipt receipt current next) end.

Definition plan (q : Request) : Repo (option Intent) :=
  match q with
  | AskCreate c => p ← create_plan c; mret (inserting p)
  | AskResolve id v context decision now => p ← resolve_plan policy id v context decision now; mret (resolving p)
  | AskExpire id now => p ← expire_plan id now; mret (Some (persisting p))
  | AskDeny id v now reason => p ← deny_plan id v now reason; mret (Some (persisting p))
  | AskClaim id op now => _ ← claim_plan id; mret (Some (ClaimOperation id op now))
  | AskFinish receipt => p ← finish_plan receipt; mret (finishing receipt p)
  end.

Definition note (c : Note) : Repo unit :=
  match c with
  | NotePending id channel conversation correlation now =>
      record_delivery_pending id channel conversation correlation now ;; mret tt
  | NoteSent correlation message now => record_delivery_sent correlation message now
  | NoteFailed correlation error now => record_delivery_failed correlation error now
  | NoteExternal correlation source summary at_ms => record_external_request correlation source summary at_ms
  | NoteResolution correlation decision at_ms => record_external_resolution correlation decision at_ms
  end.

(** The intent a reading ends with joins those that are under way. *)
Definition join (r : Result ApprovalRepositoryError (option Intent)) (l : list Intent) : list Intent :=
  match r with Ok (Some i) => i :: l | _ => l end.

Inductive step : World → World → Prop :=
| step_plan q s n l r s' n' :
    plan q s n = (r, s', n') →
    step {| w_db := s; w_calls := n; w_intents := l |} {| w_db := s'; w_calls := n'; w_intents := join r l |}
| step_perform i s n l r s' n' :
    i ∈ l → perform i s n = (r, s', n') →
    step {| w_db := s; w_calls := n; w_intents := l |} {| w_db := s'; w_calls := n'; w_intents := l |}
| step_note c s n l r s' n' :
    note c s n = (r, s', n') →
    step {| w_db := s; w_calls := n; w_intents := l |} {| w_db := s'; w_calls := n'; w_intents := l |}
| step_goals o a j s n n' l :
    step {| w_db := s; w_calls := n; w_intents := l |}
         {| w_db := with_goals o a j s; w_calls := n'; w_intents := l |}.

Abbreviation steps := (clos_refl_trans_1n World step).

(** A database without approvals. *)
Definition fresh (w : World) : Prop :=
  db_requests (w_db w) = ∅ ∧ db_events (w_db w) = [] ∧ db_operations (w_db w) = ∅ ∧ db_receipts (w_db w) = ∅
  ∧ w_intents w = [].

Definition reachable (w : World) : Prop := ∃ w0, fresh w0 ∧ steps w0 w.

Lemma steps_trans w1 w2 w3 : steps w1 w2 → steps w2 w3 → steps w1 w3.
Proof. intros H12 H23. induction H12; [done|]. econstructor; [done|auto]. Qed.

(** ** Readings *)

Lemma wp_get_known id (Q : Result ApprovalRepositoryError ApprovalSnapshot → Db → N → Prop) s n :
  (∀ a row n', db_requests s !! id = Some row → map_snapshot id row = Ok a → Q (Ok a) s n') →
  (∀ e n', Q (Err e) s n') → wp (get_known id) Q s n.
Proof.
  intros Hok Herr. unfold get_known, get. wp_step. wp_step. apply wp_sql_statement; [intros n1|auto].
  wp_step. wp_step. destruct (db_requests s !! id) as [row|] eqn:Hrow.
  - wp_step. pose proof (map_snapshot_calm id row) as Hc. destruct (map_snapshot id row) as [a|e|] eqn:Hm; [| |done].
    + apply wp_ret, wp_ret. wp_step; [|done]. intros ? [= <-]. by eapply Hok.
    + apply wp_throw. auto.
  - apply wp_ret. wp_step; auto. done.
Qed.

Lemma wp_contract {A} (r : Result ApprovalContractError A) (Q : Result ApprovalRepositoryError A → Db → N → Prop) s n :
  calm r → (∀ a, r = Ok a → Q (Ok a) s n) → (∀ e, Q (Err e) s n) → wp (contract r) Q s n.
Proof. intros Hc Hok Herr. destruct r; [apply wp_ret; auto|apply wp_throw; auto|done]. Qed.

(** A reading leaves the tables alone, and its answer is justified by them. *)
Abbreviation learns s P := (λ r s' _, writes s (λ a s', s' = s ∧ P a) r s').

Lemma row_stage s id row a :
  inv policy s → db_requests s !! id = Some row → map_snapshot id row = Ok a → stage policy a ∧ ap_id a = id.
Proof.
  intros Hi Hrow Hm. destruct (i_rows _ s Hi _ _ Hrow) as (a' & Hm' & Hs & _). assert (a' = a) as -> by congruence.
  split; [done|]. by eapply map_snapshot_id.
Qed.

Lemma seen_row s id row a : db_requests s !! id = Some row → map_snapshot id row = Ok a → seen s id a.
Proof. intros Hrow Hm. by exists row, row. Qed.

(** A decision read from a pending row may be persisted. *)
Lemma decision_ok s id row a v r next :
  inv policy s → db_requests s !! id = Some row → map_snapshot id row = Ok a → Approval.resolve a v r = Ok next →
  (rs_status r = ApprovalStatus.Expired
   ∨ rs_principal_id r = Some (ap_owner_id a) ∧ ∃ c, rs_channel r = Some c ∧ c ∈ policy) →
  intent_ok policy s (PersistResolution a next r).
Proof.
  intros Hi Hrow Hm Hr Hauth. destruct (resolve_ok _ _ _ _ Hr) as (_ & Hv & Hp & _).
  destruct (row_stage _ _ _ _ Hi Hrow Hm) as [Hs Hid]. unfold stage in Hs. rewrite Hp in Hs.
  split_and!; [by rewrite Hid; eapply seen_row|by rewrite Hv|done|done].
Qed.

Lemma resolve_plan_ok id v context decision now s n :
  inv policy s →
  wp (resolve_plan policy id v context decision now)
    (learns s (λ p, ∀ i, resolving p = Some i → intent_ok policy s i)) s n.
Proof.
  intros Hi. unfold resolve_plan. wp_step. apply wp_get_known; [|done]. intros a row n1 Hrow Hm.
  case_bool_decide as Hp.
  { wp_step. wp_step; [|done]. intros _. by apply wp_ret. }
  wp_step. wp_step; [|done]. intros _. wp_step. wp_step; [|done]. intros Ho%bool_decide_eq_true.
  wp_step. wp_step; [|done]. intros Hc%bool_decide_eq_true. wp_step. apply wp_contract; [apply resolve_calm| |done].
  intros next Hr. apply wp_ret. split; [done|]. intros i [= <-]. eapply decision_ok; [done..|].
  unfold decided. case_match; [by left|]. right. rewrite Ho. destruct decision; cbn; eauto.
Qed.

Lemma expire_plan_ok id now s n :
  inv policy s → wp (expire_plan id now) (learns s (λ p, intent_ok policy s (persisting p))) s n.
Proof.
  intros Hi. unfold expire_plan. wp_step. apply wp_get_known; [|done]. intros a row n1 Hrow Hm.
  wp_step. apply wp_contract; [apply resolve_calm| |done]. intros next Hr. apply wp_ret. split; [done|].
  eapply decision_ok; [done..|]. by left.
Qed.

Lemma deny_plan_ok id v now reason s n :
  inv policy s → wp (deny_plan id v now reason) (learns s (λ p, intent_ok policy s (persisting p))) s n.
Proof.
  intros Hi. unfold deny_plan. wp_step. apply wp_get_known; [|done]. intros a row n1 Hrow Hm.
  wp_step. wp_step; [|done]. intros _. wp_step. wp_step; [|done]. intros _.
  wp_step. apply wp_contract; [apply resolve_calm| |done]. intros next Hr. apply wp_ret. split; [done|].
  eapply decision_ok; [done..|]. by left.
Qed.

Lemma claim_plan_ok id op now s n :
  wp (claim_plan id) (learns s (λ _, intent_ok policy s (ClaimOperation id op now))) s n.
Proof.
  unfold claim_plan. wp_step. apply wp_get_known; [|done]. intros a row n1 Hrow Hm. wp_step; [|done].
  intros Ha%bool_decide_eq_true. split; [done|]. exists row. split; [done|]. left.
  by rewrite (map_snapshot_status _ _ _ Hm), Ha.
Qed.

Lemma finish_plan_ok receipt s n :
  inv policy s →
  wp (finish_plan receipt) (learns s (λ p, ∀ i, finishing receipt p = Some i → intent_ok policy s i)) s n.
Proof.
  intros Hi. unfold finish_plan, apply_receipt. wp_step. wp_step. apply wp_sql_statement; [intros n1|done].
  wp_step. wp_step. destruct (db_receipts s !! rc_approval_id receipt) as [rr|] eqn:Hrr.
  { case_match; [by apply wp_throw|]. apply wp_ret. case_match; [|by apply wp_throw].
    wp_step. apply wp_get_known; [|done]. intros. by apply wp_ret. }
  apply wp_ret. unfold apply_operation. wp_step. wp_step. apply wp_sql_statement; [intros n2|done]. wp_step. wp_step.
  apply wp_ret. wp_step. wp_step; [|done]. intros o Ho. wp_step. wp_step; [|done].
  intros [Hop%bool_decide_eq_true _]%andb_true_iff. wp_step. apply wp_get_known; [|done]. intros a row n3 Hrow Hm.
  wp_step. apply wp_contract; [apply consume_calm| |done]. intros next Hc. apply wp_ret. split; [done|].
  intros i [= <-]. cbn. destruct (consume_ok _ _ _ Hc) as (_ & _ & Ha).
  destruct (row_stage _ _ _ _ Hi Hrow Hm) as [Hs Hid]. unfold stage in Hs. rewrite Ha in Hs.
  split_and!; [by eapply seen_row|done|by destruct Hs|eauto].
Qed.

(** ** Creating *)

Lemma wp_wire json (Q : Result ApprovalRepositoryError string → Db → N → Prop) s n :
  (∀ text, json = inr text → Q (Ok text) s n) → (∀ e, Q (Err e) s n) → wp (wire json) Q s n.
Proof. intros Hok Herr. destruct json; [apply wp_throw; auto|apply wp_ret; auto]. Qed.

Lemma wp_bounded_json json max label (Q : Result ApprovalRepositoryError string → Db → N → Prop) s n :
  (∀ text, json = inr text → Q (Ok text) s n) → (∀ e, Q (Err e) s n) → wp (bounded_json json max label) Q s n.
Proof.
  intros Hok Herr. unfold bounded_json. wp_step. apply wp_wire; [|auto]. intros text Ht.
  wp_step. wp_step; [|auto]. intros _. apply wp_ret. auto.
Qed.

Lemma reads_active category hash : reads (active_for_subject category hash).
Proof.
  unfold active_for_subject. apply reads_bind; [apply reads_wire|]. intros text.
  apply reads_bind; [apply reads_execute|]. intros _. apply reads_bind; [apply reads_get|]. intros s.
  destruct (head _) as [[id row]|]; [|apply reads_ret].
  apply reads_bind; [apply reads_sql_result, map_snapshot_calm|]. intros. apply reads_ret.
Qed.

Lemma reads_owner goal : reads (owner_for_goal goal).
Proof.
  unfold owner_for_goal. apply reads_bind; [apply reads_execute|]. intros _.
  apply reads_bind; [apply reads_get|]. intros s. apply reads_ok_or.
Qed.

Lemma reads_refs subject : reads (validate_subject_refs subject).
Proof.
  unfold validate_subject_refs. apply reads_bind; [|intros _]; (case_match; [|apply reads_ret]);
    (apply reads_bind; [apply reads_execute|intros _]; apply reads_bind; [apply reads_get|intros; apply reads_ensure]).
Qed.

Lemma wp_validate_create create (Q : Result ApprovalRepositoryError unit → Db → N → Prop) s n :
  (is_blank (cr_summary create) = false → (cr_created_at_ms create < cr_expires_at_ms create)%Z →
   Forall (λ a, artifact_validate a = Ok tt) (cr_artifacts create) → Q (Ok tt) s n) →
  (∀ e, Q (Err e) s n) → wp (validate_create create) Q s n.
Proof.
  intros Hok Herr. unfold validate_create. wp_step. wp_step; [|auto]. rewrite negb_true_iff, !orb_false_iff.
  intros [[Hb _] Ht%Z.leb_gt]. apply wp_contract; [apply calm_each, artifact_calm| |auto]. intros u Hu.
  apply each_ok in Hu. destruct u. by apply Hok.
Qed.

(** The row of a valid request parses as a pending approval. *)
Definition new_row (subject : ApprovalSubject) (owner category risk hash subject_text artifacts_text : string)
    (create : ApprovalCreate) : RequestRow :=
  {| rq_goal_id := sj_goal_id subject; rq_attempt_id := sj_attempt_id subject; rq_job_id := sj_job_id subject;
     rq_owner_id := owner; rq_category := category; rq_risk := risk; rq_subject_json := subject_text;
     rq_subject_hash := hash; rq_summary := cr_summary create; rq_artifacts_json := artifacts_text;
     rq_created_at_ms := cr_created_at_ms create; rq_expires_at_ms := cr_expires_at_ms create;
     rq_status := "pending"; rq_version := 0; rq_resolution_principal := None; rq_resolution_channel := None;
     rq_resolution_time_ms := None; rq_resolution_reason := None |}.

Lemma new_row_ok `{!ApprovalLaws} id subject owner category risk hash subject_text artifacts_text create :
  is_blank (cr_summary create) = false → (cr_created_at_ms create < cr_expires_at_ms create)%Z →
  Forall (λ a, artifact_validate a = Ok tt) (cr_artifacts create) →
  subject_hash subject = Ok hash → category_json (sj_category subject) = inr category →
  risk_json (cr_risk create) = inr risk → subject_json subject = inr subject_text →
  artifacts_json (cr_artifacts create) = inr artifacts_text →
  ∃ a, map_snapshot id (new_row subject owner category risk hash subject_text artifacts_text create) = Ok a
    ∧ ap_status a = ApprovalStatus.Pending ∧ ap_version a = 0.
Proof.
  intros Hb Ht Hart Hh Hc Hr Hs Hf.
  exists (row_snapshot id (new_row subject owner category risk hash subject_text artifacts_text create)
            ApprovalStatus.Pending (sj_category subject) (cr_risk create) subject (cr_artifacts create)).
  split; [|done]. apply map_snapshot_ok.
  exists ApprovalStatus.Pending, (sj_category subject), (cr_risk create), subject, (cr_artifacts create).
  split_and!; [done| |done|].
  - split_and!; cbn; [by apply category_read_back|by apply risk_read_back|by apply subject_read_back|
                      by apply artifacts_read_back].
  - apply validate_ok. split_and!; [|done| |done].
    + unfold validate_identity. cbn. by rewrite !bool_decide_eq_true_2.
    + unfold validate_content. cbn. rewrite Hb, (proj2 (Z.ltb_lt _ _) Ht). cbn. rewrite andb_true_r.
      apply forallb_forall. intros a Ha%list_elem_of_In. rewrite Forall_forall in Hart. unfold artifact_valid.
      by rewrite Hart.
Qed.

Lemma create_plan_ok `{!ApprovalLaws} create s n :
  wp (create_plan create) (learns s (λ p, ∀ i, inserting p = Some i → intent_ok policy s i)) s n.
Proof.
  unfold create_plan. wp_step. apply wp_validate_create; [|done]. intros Hb Ht Hart.
  wp_step. apply wp_contract; [apply canonicalized_calm| |done]. intros subject _.
  wp_step. apply wp_contract; [apply subject_hash_calm| |done]. intros hash Hh.
  wp_step. apply wp_wire; [|done]. intros category Hc.
  wp_step. apply wp_reads; [apply reads_active|]. intros [[existing|]|e|] n1 Hn1; try done.
  { wp_step. wp_step; [|done]. intros _. by apply wp_ret. }
  wp_step. apply wp_reads; [apply reads_owner|]. intros [owner|e|] n2 Hn2; try done.
  wp_step. apply wp_reads; [apply reads_refs|]. intros [[]|e|] n3 Hn3; try done.
  wp_step. wp_step. wp_step. apply wp_bounded_json; [|done]. intros st Hs.
  wp_step. apply wp_bounded_json; [|done]. intros af Hf. wp_step. apply wp_wire; [|done]. intros risk Hr.
  apply wp_ret. split; [done|]. intros i [= <-]. by eapply new_row_ok.
Qed.

Lemma plan_ok `{!ApprovalLaws} q s n :
  inv policy s → wp (plan q) (learns s (λ o, ∀ i, o = Some i → intent_ok policy s i)) s n.
Proof.
  intros Hi. destruct q; cbn [plan]; wp_step; (eapply wp_mono; [
    first [by apply create_plan_ok|by apply resolve_plan_ok|by apply expire_plan_ok|by apply deny_plan_ok
          |by apply claim_plan_ok|by apply finish_plan_ok]|]);
    (intros [p|e|] s' n' Hp; [destruct Hp as [-> Hp]; apply wp_ret; split; [done|]|exact Hp|done]); auto;
    intros i [= <-]; done.
Qed.

(** ** The invariant of a run *)

(** The same approvals. *)
Definition same_core s s' : Prop :=
  db_requests s' = db_requests s ∧ db_events s' = db_events s ∧ db_operations s' = db_operations s
  ∧ db_receipts s' = db_receipts s.

Lemma same_core_keeps s s' : same_core s s' → inv policy s → inv policy s' ∧ evolves s s'.
Proof.
  intros (Hr & He & Ho & Hc) [I1 I2 I3 I4 I5 I6]. split.
  - constructor; rewrite ?Hr, ?He, ?Ho, ?Hc; try done. intros id row Hrow.
    eapply (row_ok_frame _ s); [by rewrite Hc|by rewrite Ho| |auto]. unfold events_of. by rewrite He.
  - constructor; rewrite ?Hr, ?He, ?Ho, ?Hc; [|done| |done]; intros; eexists; (split; [done|reflexivity]).
Qed.

Abbreviation notes := (λ s (r : Result ApprovalRepositoryError unit) s' (_ : N), r ≠ Panic ∧ same_core s s').

Lemma insert_delivery_core d s n : wp (insert_delivery d) (notes s) s n.
Proof.
  unfold insert_delivery. wp_step. apply wp_sql_statement; [intros n1|done]. wp_step. wp_step.
  case_match; [by apply wp_ret|]. wp_step. apply wp_constraint; [intros _|done].
  wp_step. apply wp_constraint; [intros _|done]. by wp_step.
Qed.

Lemma update_delivery_core correlation f s n : wp (update_delivery correlation f) (notes s) s n.
Proof.
  unfold update_delivery. wp_step. apply wp_sql_statement; [intros n1|done]. wp_step. wp_step.
  destruct (by_correlation _ _) as [[key row]|]; by wp_step.
Qed.

Lemma note_core c s n : wp (note c) (notes s) s n.
Proof.
  destruct c; cbn [note]; [|apply update_delivery_core..| |].
  - unfold record_delivery_pending. wp_step. wp_step. apply wp_get_known; [|done]. intros a row n1 _ _.
    wp_step. wp_step; [|done]. intros _. wp_step. eapply wp_mono; [apply insert_delivery_core|].
    intros [u|e|] s' n' [Hp Hc]; [|done..]. wp_step. unfold delivery_for_correlation. wp_step.
    apply wp_sql_statement; [intros n2|done]. wp_step. wp_step. apply wp_ret. wp_step; [|done]. intros d _. by apply wp_ret.
  - unfold record_external_request. wp_step. apply wp_sql_statement; [intros n1|done]. by wp_step.
  - unfold record_external_resolution. wp_step. apply wp_sql_statement; [intros n1|done]. wp_step. wp_step.
    case_match; [|by wp_step]. wp_step. wp_step; [|done]. intros _. wp_step. apply wp_constraint; [intros _|done].
    by wp_step.
Qed.

Lemma perform_ok `{!ApprovalLaws} i s n :
  inv policy s → intent_ok policy s i →
  wp (perform i) (λ r s' _, r ≠ Panic ∧ inv policy s' ∧ evolves s s') s n.
Proof.
  intros Hi Hok. assert (inv policy s ∧ evolves s s) as Hsame by by split.
  assert (∀ (P : unit → Db → Prop) r s', writes s P r s' → (∀ s', P tt s' → inv policy s' ∧ evolves s s') →
            r ≠ Panic ∧ inv policy s' ∧ evolves s s') as Hw.
  { intros P [[]|e|] s' Hw HP; cbn in Hw; [|by subst|done]. split; [done|auto]. }
  destruct i as [id row|current next r|id op now|receipt current next]; cbn [perform].
  - eapply wp_mono; [apply wp_persist_request|]. intros r s' n' Hr. eapply Hw; [exact Hr|].
    intros t (? & ? & ->). by apply inserted_keeps.
  - eapply wp_mono; [apply wp_persist_resolution|]. intros res s' n' Hr. eapply Hw; [exact Hr|].
    intros t (row & ? & ? & ? & ->). by apply resolved_keeps.
  - wp_step. eapply wp_mono; [apply wp_claim_operation|]. intros [changed|e|] s' n' Hr; cbn in Hr; [|by subst|done].
    apply wp_ret. split; [done|]. destruct changed; [|by subst]. destruct Hr as (? & _ & ? & ->). by apply claimed_keeps.
  - eapply wp_mono; [apply wp_persist_receipt|]. intros res s' n' Hr. eapply Hw; [exact Hr|].
    intros t (row & json & ? & ? & ? & ? & ? & ->). by eapply consumed_keeps.
Qed.

Record world_ok (w : World) : Prop := {
  wo_db : inv policy (w_db w);
  wo_intents : Forall (intent_ok policy (w_db w)) (w_intents w);
}.

Lemma intents_evolve s s' l : evolves s s' → Forall (intent_ok policy s) l → Forall (intent_ok policy s') l.
Proof. intros He Hl. eapply Forall_impl; [done|]. intros i. by apply intent_evolves. Qed.

Lemma wp_outcome {A} (m : Repo A) Q s n r s' n' : m s n = (r, s', n') → wp m Q s n → Q r s' n'.
Proof. unfold wp. by intros ->. Qed.

Lemma world_step_ok `{!ApprovalLaws} w w' : step w w' → world_ok w → world_ok w' ∧ evolves (w_db w) (w_db w').
Proof.
  intros Hstep [Hi Hl]. destruct Hstep as [q s n l r s' n' Hp|i s n l r s' n' Hin Hp|c s n l r s' n' Hp|o a j s n n' l];
    cbn in *.
  - pose proof (wp_outcome _ _ _ _ _ _ _ Hp (plan_ok q s n Hi)) as Hr. cbn in Hr.
    destruct r as [oi|e|]; cbn in Hr; [|subst s'; by split; [constructor|]|done].
    destruct Hr as [-> Hr]. split; [|done]. constructor; cbn; [done|]. destruct oi as [i|]; [|done].
    constructor; auto.
  - rewrite Forall_forall in Hl. pose proof (wp_outcome _ _ _ _ _ _ _ Hp (perform_ok i s n Hi (Hl i Hin))) as (_ & ? & ?).
    split; [|done]. constructor; [done|]. eapply intents_evolve; [done|]. by apply Forall_forall.
  - pose proof (wp_outcome _ _ _ _ _ _ _ Hp (note_core c s n)) as [_ Hc].
    destruct (same_core_keeps _ _ Hc Hi) as [? He]. split; [|done]. constructor; [done|]. by eapply intents_evolve.
  - destruct (same_core_keeps s (with_goals o a j s)) as [? He]; [done..|]. split; [|done]. constructor; [done|].
    by eapply intents_evolve.
Qed.

Lemma world_steps_ok `{!ApprovalLaws} w w' : steps w w' → world_ok w → world_ok w' ∧ evolves (w_db w) (w_db w').
Proof.
  induction 1 as [|w1 w2 w3 Hstep Hsteps IH]; intros Hok; [by split|].
  destruct (world_step_ok _ _ Hstep Hok) as [Hok2 He]. destruct (IH Hok2) as [Hok3 He']. split; [done|]. by etrans.
Qed.

Lemma fresh_ok w : fresh w → world_ok w.
Proof.
  intros (Hr & He & Ho & Hc & Hl). constructor; [|by rewrite Hl].
  constructor; rewrite ?Hr, ?He, ?Ho, ?Hc; try (intros *; rewrite lookup_empty; discriminate).
  intros e Hin. by apply elem_of_nil in Hin.
Qed.

Lemma reachable_ok `{!ApprovalLaws} w : reachable w → world_ok w.
Proof. intros (w0 & Hf & Hs). by apply (world_steps_ok _ _ Hs), fresh_ok. Qed.

End Steps.
