(* ===== verification/ApprovalSafety.v ===== *)
(** * Approvals: what holds over every run

    The methods of the repository as sequences of steps, and the theorems: a
    decision is taken once, by the owner, in time; an approval is consumed once;
    the audit events are the history of the tables; the listing of pending
    approvals; the hash of a subject does not depend on how its scope is
    listed. *)
From Stdlib Require Import Relations.
From S2P Require Import Prelude FabricTypes StdModel Fallible Database StdFloat Candidate ApprovalTypes Approvals ApprovalSpec ApprovalRun.
Import Approval Approvals.

#[local] Open Scope N_scope.

(** ** Methods as sequences of steps *)

Section Methods.
Context `{Env} `{Sqlite} `{ApprovalDigest} `{ApprovalCodec} (policy : ApprovalChannelPolicy).

Abbreviation Repo := (M Db ApprovalRepositoryError).
Abbreviation steps := (clos_refl_trans_1n World (step policy)).

Definition world (s : Db) (n : N) (l : list Intent) : World := {| w_db := s; w_calls := n; w_intents := l |}.

(** The method, alone, is a sequence of steps. *)
Definition runs {A} (m : Repo A) : Prop :=
  ∀ s n l, ∃ l', wp m (λ _ s' n', steps (world s n l) (world s' n' l')) s n.

Lemma runs_bind {A B} (m : Repo A) (k : A → Repo B) : runs m → (∀ a, runs (k a)) → runs (m ≫= k).
Proof.
  intros Hm Hk s n l. destruct (Hm s n l) as [l1 Hl1]. unfold wp in *. unfold mbind, M_bind.
  destruct (m s n) as [[[a|e|] s1] n1]; [|by exists l1..].
  destruct (Hk a s1 n1 l1) as [l2 Hl2]. exists l2. unfold wp in Hl2. destruct (k a s1 n1) as [[r s2] n2]. by eapply steps_trans.
Qed.

Lemma step_look s n n' l : step policy (world s n l) (world s n' l).
Proof.
  replace s with (with_goals (db_objectives s) (db_attempts s) (db_coding_jobs s) s) at 2 by by destruct s.
  constructor.
Qed.

Lemma runs_reads {A} (m : Repo A) : reads m → runs m.
Proof.
  intros Hm s n l. exists l. apply wp_reads; [done|]. intros r n' _. econstructor; [apply step_look|constructor].
Qed.

(** A reading, and the transaction it decided on with the same effect as [m']. *)
Lemma runs_planned {A B C} (q : Request) (m : Repo A) (f : A → option Intent) (k : A → Repo C) :
  plan policy q = (a ← m; mret (f a)) →
  (∀ a, match f a with
        | None => runs (k a)
        | Some i => ∃ (m' : Repo B) (k' : B → Repo C), k a = m' ≫= k'
            ∧ (∀ s n, (perform i s n).1.2 = (m' s n).1.2 ∧ (perform i s n).2 = (m' s n).2) ∧ ∀ b, runs (k' b)
        end) →
  runs (m ≫= k).
Proof.
  intros Hq Hk s n l. unfold wp. unfold mbind at 1, M_bind at 1.
  destruct (m s n) as [[r s1] n1] eqn:Hm.
  assert (plan policy q s n = (match r with Ok a => Ok (f a) | Err e => Err e | Panic => Panic end, s1, n1)) as Hplan.
  { rewrite Hq. unfold mbind, M_bind. rewrite Hm. by destruct r. }
  pose proof (step_plan policy q s n l _ _ _ Hplan) as Hstep.
  destruct r as [a|e|]; [|eexists; econstructor; [done|constructor]..]. cbn [join] in Hstep.
  specialize (Hk a). destruct (f a) as [i|].
  - destruct Hk as (m' & k' & Hka & Hp & Hk'). rewrite Hka. unfold mbind, M_bind. specialize (Hp s1 n1).
    destruct (perform i s1 n1) as [[rp sp] np] eqn:Hpi. destruct (m' s1 n1) as [[r2 s2] n2]. cbn in Hp.
    destruct Hp as [-> ->].
    assert (steps (world s n l) (world s2 n2 (i :: l))) as Hl2.
    { econstructor; [done|]. econstructor; [|constructor]. eapply step_perform; [left|done]. }
    destruct r2 as [b|e|]; [|by eexists..]. destruct (Hk' b s2 n2 (i :: l)) as [l3 Hl3]. exists l3.
    unfold wp in Hl3. destruct (k' b s2 n2) as [[r3 s3] n3]. by eapply steps_trans.
  - destruct (Hk s1 n1 l) as [l2 Hl2]. exists l2. unfold wp in Hl2. destruct (k a s1 n1) as [[r2 s2] n2].
    econstructor; [done|]. done.
Qed.

Lemma runs_create create : runs (Approvals.create create).
Proof.
  eapply (runs_planned (AskCreate create)); [done|]. intros [existing|[id row]]; cbn.
  - apply runs_reads, reads_ret.
  - exists (persist_request id row), (λ _, get_known id). split_and!; [done..|]. intros _.
    apply runs_reads, reads_get_known.
Qed.

Lemma runs_resolve id v context decision now : runs (Approvals.resolve policy id v context decision now).
Proof.
  eapply (runs_planned (AskResolve id v context decision now)); [done|]. intros [a|[[a next] r]]; cbn.
  - apply runs_reads, reads_ret.
  - exists (persist_resolution a next r), (λ _, get_known id). split_and!; [done..|]. intros _.
    apply runs_reads, reads_get_known.
Qed.

Lemma runs_deny id v now reason : runs (deny_delivery_failure id v now reason).
Proof.
  eapply (runs_planned (AskDeny id v now reason)); [done|]. intros [[a next] r]; cbn.
  exists (persist_resolution a next r), (λ _, get_known id). split_and!; [done..|]. intros _.
  apply runs_reads, reads_get_known.
Qed.

Lemma runs_expire_all ids now : runs (expire_all ids now).
Proof.
  induction ids as [|id ids IH]; [apply runs_reads, reads_ret|]. cbn [expire_all].
  eapply (runs_planned (AskExpire id now)); [done|]. intros [[a next] r]; cbn.
  exists (persist_resolution a next r), (λ _, expired ← expire_all ids now; mret (next :: expired)).
  split_and!; [done..|]. intros _. apply runs_bind; [done|]. intros. apply runs_reads, reads_ret.
Qed.

Lemma runs_list_pending owner now : runs (list_pending owner now).
Proof.
  unfold list_pending, expire. apply runs_bind.
  - apply runs_bind; [apply runs_reads, reads_execute|]. intros _. apply runs_bind; [apply runs_reads, reads_get|].
    intros s. apply runs_expire_all.
  - intros _. apply runs_reads. apply reads_bind; [apply reads_execute|]. intros _.
    apply reads_bind; [apply reads_get|]. intros s. apply reads_sql_result.
    induction (sort_by older _) as [|[id row] rows IH]; [done|]. cbn [map_snapshots].
    apply calm_bind; [apply map_snapshot_calm|]. intros. apply calm_bind; [done|]. done.
Qed.

Lemma runs_claim id op now : runs (claim_apply id op now).
Proof.
  eapply (runs_planned (AskClaim id op now)); [done|]. intros []; cbn.
  eexists (claim_operation id op now), _. split_and!; [done| |].
  - intros s n. unfold mbind, M_bind. by destruct (claim_operation id op now s n) as [[[]]].
  - intros changed. apply runs_reads. apply reads_bind.
    { unfold apply_operation. apply reads_bind; [apply reads_execute|]. intros _.
      apply reads_bind; [apply reads_get|]. intros. apply reads_ret. }
    intros found. apply reads_bind; [apply reads_ok_or|]. intros. apply reads_ret.
Qed.

Lemma runs_finish receipt : runs (finish_apply receipt).
Proof.
  eapply (runs_planned (AskFinish receipt)); [done|]. intros [a|[a next]]; cbn.
  - apply runs_reads, reads_ret.
  - exists (persist_receipt receipt a next), (λ _, get_known (rc_approval_id receipt)). split_and!; [done..|].
    intros _. apply runs_reads, reads_get_known.
Qed.

End Methods.

(** ** Safety *)

Section Safety.
Context `{Env} `{Sqlite} `{ApprovalDigest} `{ApprovalCodec} `{!ApprovalLaws} (policy : ApprovalChannelPolicy).

Abbreviation steps := (clos_refl_trans_1n World (step policy)).

(** The snapshot of an approval in a state. *)
Definition snapshot_in (s : Db) (id : ApprovalId) (a : ApprovalSnapshot) : Prop :=
  ∃ row, db_requests s !! id = Some row ∧ map_snapshot id row = Ok a.

(** What was asked for, of whom and until when. *)
Definition request_of (a : ApprovalSnapshot) :=
  (ap_id a, ap_goal_id a, ap_attempt_id a, ap_job_id a, ap_owner_id a, ap_category a, ap_risk a, ap_subject a,
   ap_subject_hash a, ap_summary a, ap_artifacts a, ap_created_at_ms a, ap_expires_at_ms a).

Lemma snapshot_row s id row : inv policy s → db_requests s !! id = Some row → ∃ a, map_snapshot id row = Ok a ∧ snapshot_in s id a.
Proof. intros Hi Hrow. destruct (i_rows _ s Hi _ _ Hrow) as (a & Hm & _). exists a. split; [done|]. by exists row. Qed.

Lemma snapshot_ok s id a :
  inv policy s → snapshot_in s id a →
  stage policy a ∧ applied s a ∧ view <$> events_of id s = trail s a ∧ ap_id a = id.
Proof.
  intros Hi (row & Hrow & Hm). destruct (i_rows _ s Hi _ _ Hrow) as (a' & Hm' & ? & ? & ?).
  assert (a' = a) as -> by congruence. split_and!; [done..|]. by eapply map_snapshot_id.
Qed.

(** Rows that evolve are snapshots that evolve. *)
Lemma snapshot_evolves id row row' a a' :
  row_evolves row row' → map_snapshot id row = Ok a → map_snapshot id row' = Ok a' →
  request_of a' = request_of a
  ∧ (ap_status a ≠ ApprovalStatus.Pending → ap_resolution a' = ap_resolution a
      ∧ (ap_status a' = ap_status a ∨ ap_status a = ApprovalStatus.Approved ∧ ap_status a' = ApprovalStatus.Consumed)).
Proof.
  intros [Hf Hd _ _] (st & c & k & j & f & Hst & (Hc & Hk & Hj & Hp) & -> & _)%map_snapshot_ok
    (st' & c' & k' & j' & f' & Hst' & (Hc' & Hk' & Hj' & Hp') & -> & _)%map_snapshot_ok.
  unfold fixed in Hf. injection Hf as F1 F2 F3 F4 F5 F6 F7 F8 F9 F10 F11 F12.
  rewrite F5 in Hc'. rewrite F6 in Hk'. rewrite F7 in Hj'. rewrite F10 in Hp'. rewrite Hc in Hc'. rewrite Hk in Hk'.
  rewrite Hj in Hj'. rewrite Hp in Hp'. injection Hc' as <-. injection Hk' as <-. injection Hj' as <-. injection Hp' as <-.
  split; [unfold request_of; cbn; congruence|]. cbn. intros Hne. destruct Hd as [Hcol Hs].
  { rewrite Hst. intros Heq. by apply Hne, status_wire_inj. }
  unfold resolution_columns in Hcol. injection Hcol as C1 C2 C3 C4.
  rewrite Hst, Hst' in Hs. assert (st' = st ∨ st = ApprovalStatus.Approved ∧ st' = ApprovalStatus.Consumed) as Hcase.
  { destruct Hs as [Hs|[Hs Hs']]; [left; by apply status_wire_inj|right].
    split; apply status_wire_inj; [by rewrite Hs|by rewrite Hs']. }
  split; [|done]. unfold row_resolution. rewrite C1, C2, C3, C4. destruct Hcase as [->|[-> ->]]; done.
Qed.

(** C12. Whatever connections read and write the database, and in whatever
    order their transactions run, fail or are lost: an approval keeps what was
    asked for and its owner; once it is decided the decision stays, and only an
    approved one changes again, to consumed; and who approved or rejected it is
    its owner, on a permitted channel, between its creation and its expiry. *)
Theorem approval_decided_once w w' id row :
  reachable policy w → steps w w' → db_requests (w_db w) !! id = Some row →
  ∃ a a', map_snapshot id row = Ok a ∧ snapshot_in (w_db w') id a' ∧ request_of a' = request_of a
    ∧ (ap_status a ≠ ApprovalStatus.Pending → ap_resolution a' = ap_resolution a
        ∧ (ap_status a' = ap_status a ∨ ap_status a = ApprovalStatus.Approved ∧ ap_status a' = ApprovalStatus.Consumed))
    ∧ (ap_status a' ≠ ApprovalStatus.Pending → ap_status a' ≠ ApprovalStatus.Expired → authorised policy a').
Proof.
  intros Hreach Hsteps Hrow. pose proof (reachable_ok policy w Hreach) as Hok.
  destruct (world_steps_ok policy w w' Hsteps Hok) as [[Hi' _] He]. destruct Hok as [Hi _].
  destruct (ev_requests _ _ He _ _ Hrow) as (row' & Hrow' & Hev).
  destruct (snapshot_row _ _ _ Hi Hrow) as (a & Hm & _). destruct (snapshot_row _ _ _ Hi' Hrow') as (a' & Hm' & Hin').
  destruct (snapshot_evolves _ _ _ _ _ Hev Hm Hm') as [Hreq Hdec]. exists a, a'. split_and!; [done..|].
  destruct (snapshot_ok _ _ _ Hi' Hin') as (Hs & _). unfold stage in Hs. by destruct (ap_status a'); try destruct Hs.
Qed.

(** C26. An approval is consumed once.  A receipt exists exactly for a consumed
    approval, which its owner had approved; the receipt is that of the one
    operation that ever claimed the approval, and the operation has ended as the
    receipt says; neither the receipt nor the operation changes again in any
    run, and to finish the approval with another receipt is refused. *)
Theorem approval_consumed_once w id a :
  reachable policy w → snapshot_in (w_db w) id a →
  (ap_status a = ApprovalStatus.Consumed ↔ is_Some (db_receipts (w_db w) !! id)) ∧
  ∀ rr, db_receipts (w_db w) !! id = Some rr →
    authorised policy a ∧
    ∃ rc o, receipt_of rr = Some rc ∧ rc_approval_id rc = id ∧ db_operations (w_db w) !! id = Some o ∧ ended_by rc o ∧
      (∀ id' o', db_operations (w_db w) !! id' = Some o' → ao_operation_id o' = rc_operation_id rc → id' = id) ∧
      (∀ w', steps w w' →
        db_receipts (w_db w') !! id = Some rr ∧ db_operations (w_db w') !! id = Some o) ∧
      ∀ rc' n, rc_approval_id rc' = id → receipt_eqb rc rc' = false →
        wp (finish_apply rc') (λ r s' _, s' = w_db w ∧ ∀ b, r ≠ Ok b) (w_db w) n.
Proof.
  intros Hreach Hin. pose proof (reachable_ok policy w Hreach) as Hok. pose proof (wo_db _ _ Hok) as Hi.
  destruct (snapshot_ok _ _ _ Hi Hin) as (Hs & Happ & _ & Hid).
  unfold applied in Happ. rewrite Hid in Happ. split.
  - destruct (ap_status a); split; try done; try (destruct Happ as [-> _]; by intros []).
    intros _. destruct Happ as (rr & ? & ? & -> & _). eauto.
  - intros rr Hrr. assert (ap_status a = ApprovalStatus.Consumed) as Hst.
    { destruct (ap_status a); try done; destruct Happ as [Hn _]; congruence. }
    rewrite Hst in Happ. unfold stage in Hs. rewrite Hst in Hs. destruct Hs as [_ Hauth]. split; [done|].
    destruct Happ as (rr0 & rc & o & Hrr0 & Hrc & Hrid & Hrop & Ho & Hend). assert (rr0 = rr) as -> by congruence.
    exists rc, o. split_and!; try done.
    + intros id' o' Ho' Hop. eapply i_unique; [done..|]. destruct Hend as [-> _]. done.
    + intros w' Hsteps. destruct (world_steps_ok policy w w' Hsteps Hok) as [_ He]. split; [by eapply ev_receipts|].
      destruct (ev_operations _ _ He _ _ Ho) as (o' & Ho' & _ & Hsame). rewrite Ho'. f_equal. apply Hsame.
      destruct Hend as (_ & -> & _). by destruct (rc_success rc).
    + intros rc' n Hid' Hne. unfold finish_apply, finish_plan, apply_receipt. wp_step. wp_step. wp_step.
      apply wp_sql_statement; [intros n1|done]. wp_step. wp_step. rewrite Hid', Hrr. unfold receipt_of in Hrc.
      destruct (parse_receipt _) as [e|rc0]; [by apply wp_throw|]. injection Hrc as ->. apply wp_ret. rewrite Hne.
      by apply wp_throw.
Qed.

(** ** The events as the history *)

(** What the events say of each approval: its status and version. *)
Definition event_status (e : EventRow) : string :=
  match ev_payload e with StatusPayload status => status | AppliedPayload _ _ => "consumed" end.

Definition replay (events : list EventRow) : gmap Uuid (string * N) :=
  foldl (λ m e, <[ev_approval_id e := (event_status e, ev_version e)]> m) ∅ events.

Lemma replay_lookup events id :
  replay events !! id = (λ e, (event_status e, ev_version e)) <$> last (filter (λ e, ev_approval_id e = id) events).
Proof.
  induction events as [|e events IH] using rev_ind; [done|]. unfold replay. rewrite foldl_snoc. fold (replay events).
  rewrite filter_app, filter_cons, filter_nil. case_decide as He.
  - by rewrite He, lookup_insert_eq, last_snoc.
  - by rewrite lookup_insert_ne, app_nil_r.
Qed.

Lemma last_view l e : last (view <$> l) = Some e → (λ e, (event_status e, ev_version e)) <$> last l
  = Some (match e.2 with StatusPayload st => st | AppliedPayload _ _ => "consumed" end, e.1.1).
Proof. rewrite fmap_last. destruct (last l) as [e'|]; [|done]. by intros [= <-]. Qed.

(** A parsed row has a resolution exactly when it is decided, with its status. *)
Lemma snapshot_resolution id row a :
  map_snapshot id row = Ok a →
  match ap_resolution a with
  | None => ap_status a = ApprovalStatus.Pending
  | Some r => ap_status a ≠ ApprovalStatus.Pending
      ∧ (rs_status r = ap_status a ∨ ap_status a = ApprovalStatus.Consumed ∧ rs_status r = ApprovalStatus.Approved)
  end.
Proof.
  intros (? & ? & ? & ? & ? & _ & _ & _ & Hv)%map_snapshot_ok. apply validate_ok in Hv as (_ & _ & Hc & Hr).
  unfold validate_content in Hc. rewrite !andb_true_iff in Hc. destruct Hc as [_ Hc%eqb_prop].
  destruct (ap_resolution a) as [r|].
  - rewrite (bool_decide_eq_false_2 (Some r = None)) in Hc by done. checks. split; [done|].
    destruct (Hr r eq_refl) as (_ & Hm & _). unfold status_matches in Hm.
    rewrite orb_true_iff, andb_true_iff in Hm. checks. tauto.
  - rewrite (bool_decide_eq_true_2 (None = None)) in Hc by done. by checks.
Qed.

(** The last event of an approval tells its status and version. *)
Lemma trail_tells s id row :
  inv policy s → db_requests s !! id = Some row →
  last (view <$> events_of id s) ≫= (λ v, Some (match v.2 with StatusPayload st => st | _ => "consumed" end, v.1.1))
    = Some (rq_status row, rq_version row)
  ∧ (λ v, v.1.1) <$> (view <$> events_of id s) = N.of_nat <$> seq 0 (S (N.to_nat (rq_version row))).
Proof.
  intros Hi Hrow. destruct (snapshot_row _ _ _ Hi Hrow) as (a & Hm & Hin).
  destruct (snapshot_ok _ _ _ Hi Hin) as (Hs & Happ & Htr & Hid). rewrite Htr.
  rewrite (map_snapshot_status _ _ _ Hm).
  replace (rq_version row) with (ap_version a) by by apply map_snapshot_ok in Hm as (? & ? & ? & ? & ? & _ & _ & -> & _).
  pose proof (snapshot_resolution _ _ _ Hm) as Hr. unfold trail, stage, applied in *. rewrite Hid in *.
  assert (ap_status a = ApprovalStatus.Consumed ∨ db_receipts s !! id = None) as Hrec.
  { destruct (ap_status a); [right; by destruct Happ..|by left]. }
  destruct (ap_resolution a) as [r|] eqn:Hres.
  2: { rewrite Hr in *. destruct Hrec as [?|Hrec]; [done|]. by rewrite Hrec, Hs. }
  destruct Hr as [Hne Hr]. destruct (decide (ap_status a = ApprovalStatus.Consumed)) as [Hc|Hc].
  - rewrite Hc in *. destruct Happ as (rr & rc & o & -> & Hrc & _). destruct Hs as [-> _]. cbn. by rewrite Hrc.
  - destruct Hrec as [?|Hrec]; [done|]. rewrite Hrec. destruct Hr as [->|[? _]]; [|done]. cbn.
    assert (ap_version a = 1) as -> by (by destruct (ap_status a); try destruct Hs). done.
Qed.

(** C9. The audit events are the history of the approvals: in every reachable
    state, replaying them gives every approval of the table with its status and
    its version, and no other; the events of an approval are numbered without a
    gap from its creation; and events are only ever appended. *)
Theorem audit_is_the_history w :
  reachable policy w →
  replay (db_events (w_db w)) = (λ row, (rq_status row, rq_version row)) <$> db_requests (w_db w)
  ∧ (∀ id row, db_requests (w_db w) !! id = Some row →
       ev_version <$> events_of id (w_db w) = N.of_nat <$> seq 0 (S (N.to_nat (rq_version row))))
  ∧ ∀ w', steps w w' → db_events (w_db w) `prefix_of` db_events (w_db w').
Proof.
  intros Hreach. pose proof (reachable_ok policy w Hreach) as Hok. pose proof (wo_db _ _ Hok) as Hi.
  split_and!.
  - apply map_eq. intros id. rewrite replay_lookup, lookup_fmap. change (filter _ _) with (events_of id (w_db w)).
    destruct (db_requests (w_db w) !! id) as [row|] eqn:Hrow.
    + destruct (trail_tells _ _ _ Hi Hrow) as [Hl _]. destruct (last (view <$> _)) as [v|] eqn:Hv; [|done].
      by rewrite (last_view _ _ Hv).
    + destruct (last (events_of id (w_db w))) as [e|] eqn:Hl; [|done]. exfalso.
      apply last_Some_elem_of, list_elem_of_filter in Hl as [<- Hin]. destruct (i_events _ _ Hi e Hin). congruence.
  - intros id row Hrow. destruct (trail_tells _ _ _ Hi Hrow) as [_ <-]. by rewrite <-list_fmap_compose.
  - intros w' Hsteps. by destruct (world_steps_ok policy w w' Hsteps Hok) as [_ []].
Qed.

End Safety.

(** ** Approvals: expiry and the listing of what is pending

    When the database works, [expire] ends every overdue request and
    [list_pending] answers exactly the owner's requests that are pending and not
    overdue. *)

Section Pending.
Context `{Env} `{Sqlite} `{ApprovalDigest} `{ApprovalCodec} `{!ApprovalLaws} (policy : ApprovalChannelPolicy).
Context (healthy : ∀ n, sqlite n = None).
Implicit Types (s : Db) (row : RequestRow).

Lemma wp_statement_ok (Q : Result ApprovalRepositoryError unit → Db → N → Prop) s n :
  Q (Ok tt) s (n + 1) → wp statement Q s n.
Proof. intros HQ. unfold wp, statement, execute, mbind, M_bind, tick. cbn. by rewrite healthy. Qed.

Lemma wp_transaction_ok {A} (body : M Db ApprovalRepositoryError A) (Q : Result ApprovalRepositoryError A → Db → N → Prop) s n :
  (∀ n1, wp body (λ r s' _, ∃ a, r = Ok a ∧ ∀ n', Q (Ok a) s' n') s n1) → wp (transaction Sql body) Q s n.
Proof.
  intros Hb. unfold wp, transaction, execute, mbind, M_bind, tick. cbn. rewrite healthy. cbn.
  specialize (Hb (n + 1)). unfold wp in Hb. destruct (body s (n + 1)) as [[r s'] n'].
  destruct Hb as (a & -> & HQ). rewrite healthy. cbn. apply HQ.
Qed.

Lemma wp_param_ok v (Q : Result ApprovalRepositoryError unit → Db → N → Prop) s n :
  v ≤ 2 → Q (Ok tt) s n → wp (u64_param Sql v) Q s n.
Proof.
  intros Hv HQ. unfold u64_param. rewrite (proj2 (N.leb_le v i64_max)); [done|]. unfold i64_max. lia.
Qed.

Lemma wp_constraint_ok b name (Q : Result ApprovalRepositoryError unit → Db → N → Prop) s n :
  b = true → Q (Ok tt) s n → wp (constraint Sql b name) Q s n.
Proof. by intros ->. Qed.

(** An overdue request. *)
Definition due (now : Z) s (id : ApprovalId) : Prop :=
  ∃ row, db_requests s !! id = Some row ∧ overdue now row = true.

Lemma overdue_true now row : overdue now row = true ↔ rq_status row = "pending" ∧ (rq_expires_at_ms row ≤ now)%Z.
Proof. unfold overdue. rewrite andb_true_iff, bool_decide_eq_true, Z.leb_le. done. Qed.

(** The expiry of an overdue request is a valid decision. *)
Lemma expiry_valid now s id row a :
  inv policy s → db_requests s !! id = Some row → map_snapshot id row = Ok a → overdue now row = true →
  Approval.resolve a (ap_version a) (expired now) = Ok (moved a ApprovalStatus.Expired (Some (expired now))).
Proof.
  intros Hi Hrow Hm [Hp Hnow]%overdue_true. pose proof (map_snapshot_status _ _ _ Hm) as Hst. rewrite Hp in Hst.
  assert (ap_status a = ApprovalStatus.Pending) as Hpa by by apply status_wire_inj.
  pose proof (snapshot_resolution _ _ _ Hm) as Hr. rewrite Hpa in Hr.
  destruct (ap_resolution a) as [r|] eqn:Hres; [by destruct Hr|].
  pose proof Hm as (? & ? & ? & ? & ? & _ & _ & Ha & Hv)%map_snapshot_ok.
  apply validate_ok in Hv as (Hid & Hh & Hc & _). unfold validate_content in Hc. rewrite !andb_true_iff, Z.ltb_lt in Hc.
  destruct Hc as [[[Hsum Htime] Hart] _].
  assert (ap_expires_at_ms a = rq_expires_at_ms row) as Hexp by by rewrite Ha.
  unfold Approval.resolve. rewrite N.eqb_refl, Hpa, Hres. cbn [need mbind Result_bind ApprovalStatus.can_resolve].
  rewrite (bool_decide_eq_true_2 (None = None)) by done. cbn [andb need mbind Result_bind]. cbn [expired rs_status].
  assert (resolution_validate (expired now) = Ok tt) as -> by done. rewrite (bool_decide_eq_true_2 (_ = _)) by done.
  rewrite orb_true_r. cbn [need mbind Result_bind].
  assert (validate (moved a ApprovalStatus.Expired (Some (expired now))) = Ok tt) as ->; [|done].
  apply validate_ok. split_and!; [done|done| |].
  - unfold validate_content. cbn. rewrite Hsum, Hart, (proj2 (Z.ltb_lt _ _) Htime). done.
  - cbn. intros r [= <-]. split_and!; [done|done|]. cbn. lia.
Qed.

(** A pending request has only the event of its creation. *)
Lemma pending_events s id row :
  inv policy s → db_requests s !! id = Some row → rq_status row = "pending" →
  rq_version row = 0 ∧ ∀ e, e ∈ db_events s → ev_approval_id e = id → ev_version e = 0.
Proof.
  intros Hi Hrow Hp. destruct (snapshot_row _ _ _ _ Hi Hrow) as (a & Hm & Hin).
  destruct (snapshot_ok _ _ _ _ Hi Hin) as (Hs & _). pose proof (map_snapshot_status _ _ _ Hm) as Hst. rewrite Hp in Hst.
  assert (ap_status a = ApprovalStatus.Pending) as Hpa by by apply status_wire_inj.
  unfold stage in Hs. rewrite Hpa in Hs.
  assert (rq_version row = 0) as Hv by by apply map_snapshot_ok in Hm as (? & ? & ? & ? & ? & _ & _ & -> & _).
  split; [done|]. destruct (trail_tells _ _ _ _ Hi Hrow) as [_ Ht]. rewrite Hv in Ht. intros e Hin' He.
  assert (ev_version e ∈ ((λ v : N * string * Payload, v.1.1) <$> (view <$> events_of id s))) as Hx.
  { rewrite <-list_fmap_compose. apply (list_elem_of_fmap_2 (λ e, (view e).1.1)). by apply list_elem_of_filter. }
  rewrite Ht in Hx. cbn in Hx. by apply list_elem_of_singleton in Hx.
Qed.

(** One turn of [expire]. *)
Lemma expire_one now s id n (k : ApprovalSnapshot → M Db ApprovalRepositoryError (list ApprovalSnapshot)) Q :
  inv policy s → due now s id →
  (∀ next row r n', inv policy (resolved_db next (moved next ApprovalStatus.Expired (Some r)) r row s) →
     ap_id next = id → db_requests s !! id = Some row → rs_status r = ApprovalStatus.Expired →
     wp (k (moved next ApprovalStatus.Expired (Some r))) Q
       (resolved_db next (moved next ApprovalStatus.Expired (Some r)) r row s) n') →
  wp (plan ← expire_plan id now;
      let '(current, next, resolution) := plan in persist_resolution current next resolution ;; k next) Q s n.
Proof.
  intros Hi (row & Hrow & Hdue) Hk. destruct (snapshot_row _ _ _ _ Hi Hrow) as (a & Hm & Hin).
  pose proof (map_snapshot_id _ _ _ Hm) as Hid. pose proof (expiry_valid _ _ _ _ _ Hi Hrow Hm Hdue) as Hres.
  pose proof Hdue as [Hp _]%overdue_true. destruct (pending_events _ _ _ Hi Hrow Hp) as [Hv0 Hev].
  assert (ap_version a = 0) as Hva by by apply map_snapshot_ok in Hm as (? & ? & ? & ? & ? & _ & _ & -> & _).
  wp_step. unfold expire_plan. wp_step. unfold get_known, get. wp_step. wp_step. apply wp_statement_ok. wp_step. wp_step.
  rewrite Hrow. wp_step. rewrite Hm. apply wp_ret, wp_ret. wp_step; [|done]. intros ? [= <-].
  wp_step. rewrite Hres. apply wp_ret, wp_ret. wp_step. unfold persist_resolution. apply wp_transaction_ok. intros n1.
  wp_step. apply wp_param_ok; [cbn; by rewrite Hva|]. wp_step. apply wp_param_ok; [by rewrite Hva|].
  wp_step. unfold update_request. wp_step. apply wp_statement_ok. wp_step. wp_step. rewrite Hid, Hrow, Hva, Hv0, Hp.
  cbn [N.eqb andb]. rewrite bool_decide_eq_true_2 by done. wp_step. wp_step. apply wp_ret. wp_step. apply wp_ret.
  unfold append_event. wp_step. apply wp_param_ok; [cbn; by rewrite Hva|].
  wp_step. apply wp_statement_ok. wp_step. wp_step. wp_step. apply wp_constraint_ok.
  { cbn. rewrite lookup_insert_eq. by apply bool_decide_eq_true_2. }
  wp_step. apply wp_constraint_ok.
  { apply negb_true_iff, not_true_iff_false.
    intros (e & Hin'%list_elem_of_In & [He%bool_decide_eq_true Hve%N.eqb_eq]%andb_true_iff)%existsb_exists.
    cbn in Hin'. rewrite (Hev e Hin' He) in Hve. cbn in Hve. by rewrite Hva in Hve. }
  wp_step. exists tt. split; [done|]. intros n'.
  assert (∀ n, wp (k (moved a ApprovalStatus.Expired (Some (expired now)))) Q
                 (resolved_db a (moved a ApprovalStatus.Expired (Some (expired now))) (expired now) row s) n) as Hk'.
  { intros n0. apply Hk; [|done..]. eapply resolved_keeps; [done| |by rewrite Hid|by rewrite Hva|done].
    eapply decision_ok; [done..|]. by left. }
  specialize (Hk' n'). unfold resolved_db in Hk'. rewrite Hid in Hk'. exact Hk'.
Qed.

(** The requests [ids] are expired, the others as they were. *)
Definition expired_only (ids : list ApprovalId) s s' : Prop :=
  (∀ k, k ∉ ids → db_requests s' !! k = db_requests s !! k)
  ∧ ∀ k, k ∈ ids → ∃ row', db_requests s' !! k = Some row' ∧ rq_status row' = "expired".

Lemma expire_all_ok now ids s n :
  inv policy s → NoDup ids → (∀ id, id ∈ ids → due now s id) →
  wp (expire_all ids now) (λ r s' _, ∃ l, r = Ok l ∧ inv policy s' ∧ expired_only ids s s') s n.
Proof.
  revert s n. induction ids as [|id ids IH]; intros s n Hi Hnd Hdue.
  { apply wp_ret. exists []. split_and!; [done..|]. split; [done|]. intros k Hk. by apply elem_of_nil in Hk. }
  apply NoDup_cons in Hnd as [Hfresh Hnd]. cbn [expire_all].
  apply (expire_one now s id n (λ next, expired ← expire_all ids now; mret (next :: expired))); [done|by apply Hdue; left|].
  intros a row r n' Hi' Hid Hrow Hr. set (s1 := resolved_db _ _ _ _ _) in *.
  assert (∀ k, k ≠ id → db_requests s1 !! k = db_requests s !! k) as Hother.
  { intros k Hk. cbn. rewrite Hid. by rewrite lookup_insert_ne. }
  assert (∃ row', db_requests s1 !! id = Some row' ∧ rq_status row' = "expired") as Hhere.
  { cbn. rewrite Hid, lookup_insert_eq. eauto. }
  wp_step. eapply wp_mono.
  { apply IH; [done|done|]. intros k Hk. destruct (Hdue k) as (row' & ? & ?); [by right|]. exists row'.
    by rewrite Hother by (by intros ->). }
  intros res s2 n2 (l & -> & Hi2 & Hkeep & Hexp). apply wp_ret. eexists. split_and!; [done|done|]. split.
  - intros k Hk. rewrite not_elem_of_cons in Hk. destruct Hk. rewrite Hkeep by done. by apply Hother.
  - intros k Hk. destruct (decide (k ∈ ids)) as [?|Hn]; [by apply Hexp|]. rewrite Hkeep by done.
    apply elem_of_cons in Hk as [->|?]; [done|by destruct Hn].
Qed.

(** The overdue requests, in the order of their identifiers. *)
Definition due_ids now s : list ApprovalId :=
  sort_by N.le (filter (λ kr, overdue now kr.2 = true) (map_to_list (db_requests s))).*1.

Lemma elem_of_due_ids now s id : id ∈ due_ids now s ↔ due now s id.
Proof.
  unfold due_ids, due. rewrite sort_by_perm, list_elem_of_fmap. split.
  - intros ([k row] & -> & [Hd Hin%elem_of_map_to_list]%list_elem_of_filter). eauto.
  - intros (row & Hrow & Hd). exists (id, row). split; [done|]. apply list_elem_of_filter. split; [done|].
    by apply elem_of_map_to_list.
Qed.

Lemma NoDup_due_ids now s : NoDup (due_ids now s).
Proof.
  unfold due_ids. rewrite sort_by_perm. eapply (NoDup_fmap_fst (filter _ _)).
  - intros x y1 y2 [_ Hx1%elem_of_map_to_list]%list_elem_of_filter [_ Hx2%elem_of_map_to_list]%list_elem_of_filter. congruence.
  - apply NoDup_filter, NoDup_map_to_list.
Qed.

Lemma expire_ok now s n :
  inv policy s →
  wp (expire now) (λ r s' _, ∃ l, r = Ok l ∧ inv policy s' ∧ expired_only (due_ids now s) s s') s n.
Proof.
  intros Hi. unfold expire. wp_step. apply wp_statement_ok. wp_step. wp_step. fold (due_ids now s).
  apply expire_all_ok; [done|apply NoDup_due_ids|]. intros id. by rewrite elem_of_due_ids.
Qed.

Lemma map_snapshots_ok rows :
  (∀ id row, (id, row) ∈ rows → ∃ a, map_snapshot id row = Ok a) →
  ∃ l, map_snapshots rows = Ok l ∧ Forall2 (λ kr a, map_snapshot kr.1 kr.2 = Ok a) rows l.
Proof.
  induction rows as [|[id row] rows IH]; intros Hrows; [by exists []|].
  destruct (Hrows id row) as [a Ha]; [left|]. destruct IH as (l & Hl & HF). { intros. apply Hrows. by right. }
  exists (a :: l). cbn. rewrite Ha. cbn. rewrite Hl. cbn. split; [done|]. by constructor.
Qed.

(** Snapshots in the order of the listing. *)
Definition listed_before (a b : ApprovalSnapshot) : Prop :=
  (ap_created_at_ms a < ap_created_at_ms b)%Z ∨ ap_created_at_ms a = ap_created_at_ms b ∧ ap_id a ≤ ap_id b.

Lemma older_trans : Transitive older.
Proof. intros a b c. unfold older. lia. Qed.

Lemma older_total : Total older.
Proof. intros a b. unfold older. lia. Qed.

Lemma listed_sorted rows l :
  Forall2 (λ kr a, map_snapshot kr.1 kr.2 = Ok a) rows l → StronglySorted older rows → StronglySorted listed_before l.
Proof.
  induction 1 as [|[id row] a rows l Ha HF IH]; intros Hs; [constructor|]. apply StronglySorted_inv in Hs as [Hs Hall].
  constructor; [auto|]. apply Forall_forall. intros b Hb. apply list_elem_of_lookup in Hb as [i Hi].
  destruct (Forall2_lookup_r _ _ _ _ _ HF Hi) as ([id' row'] & Hi' & Hb). rewrite Forall_forall in Hall.
  assert (older (id, row) (id', row')) as Ho by (by eapply Hall, list_elem_of_lookup_2).
  apply map_snapshot_ok in Ha as (? & ? & ? & ? & ? & _ & _ & -> & _).
  apply map_snapshot_ok in Hb as (? & ? & ? & ? & ? & _ & _ & -> & _). exact Ho.
Qed.

Lemma pending_snapshot id row a owner :
  map_snapshot id row = Ok a →
  pending_of owner row = true ↔ ap_owner_id a = owner ∧ ap_status a = ApprovalStatus.Pending.
Proof.
  intros Hm. unfold pending_of. rewrite andb_true_iff, !bool_decide_eq_true, (map_snapshot_status _ _ _ Hm).
  assert (ap_owner_id a = rq_owner_id row) as -> by by apply map_snapshot_ok in Hm as (? & ? & ? & ? & ? & _ & _ & -> & _).
  split; intros [? Hs]; (split; [done|]); [by apply status_wire_inj|by rewrite Hs].
Qed.

(** A pending row that expiry has spared was pending and is not overdue. *)
Lemma spared now s s' id row a :
  expired_only (due_ids now s) s s' → map_snapshot id row = Ok a → ap_status a = ApprovalStatus.Pending →
  db_requests s' !! id = Some row ↔ db_requests s !! id = Some row ∧ (now < ap_expires_at_ms a)%Z.
Proof.
  intros [Hkeep Hexp] Hm Hp. pose proof (map_snapshot_status _ _ _ Hm) as Hst. rewrite Hp in Hst.
  assert (ap_expires_at_ms a = rq_expires_at_ms row) as -> by by apply map_snapshot_ok in Hm as (? & ? & ? & ? & ? & _ & _ & -> & _).
  destruct (decide (id ∈ due_ids now s)) as [Hd|Hd].
  - destruct (Hexp id Hd) as (row' & -> & Hs). apply elem_of_due_ids in Hd as (row0 & -> & [_ ?]%overdue_true).
    split; [intros [= ->]; rewrite Hst in Hs; discriminate Hs|]. intros [[= ->] ?]. lia.
  - rewrite Hkeep by done. split; [|by intros []]. intros Hrow. split; [done|]. apply Z.nle_gt. intros Hle. apply Hd.
    apply elem_of_due_ids. exists row. split; [done|]. by apply overdue_true.
Qed.

(** When the database works, the listing answers exactly the requests of the
    owner that are pending and not overdue, oldest first, and every overdue
    request of anyone is expired. *)
Theorem list_pending_exact owner now w n :
  reachable policy w →
  wp (list_pending owner now) (λ r s' _, ∃ l, r = Ok l
    ∧ (∀ a, a ∈ l ↔ snapshot_in (w_db w) (ap_id a) a ∧ ap_owner_id a = owner
                    ∧ ap_status a = ApprovalStatus.Pending ∧ (now < ap_expires_at_ms a)%Z)
    ∧ StronglySorted listed_before l
    ∧ ∀ id, due now (w_db w) id → ∃ a, snapshot_in s' id a ∧ ap_status a = ApprovalStatus.Expired) (w_db w) n.
Proof.
  intros Hreach. pose proof (wo_db _ _ (reachable_ok policy w Hreach)) as Hi. set (s := w_db w) in *.
  unfold list_pending. wp_step. eapply wp_mono; [by apply expire_ok|]. intros r s' n' (le & -> & Hi' & Honly).
  wp_step. apply wp_statement_ok. wp_step. wp_step. set (rows := sort_by older _).
  assert (∀ id row, (id, row) ∈ rows ↔ pending_of owner row = true ∧ db_requests s' !! id = Some row) as Hrows.
  { intros id row. unfold rows. by rewrite sort_by_perm, list_elem_of_filter, elem_of_map_to_list. }
  destruct (map_snapshots_ok rows) as (l & Hl & HF).
  { intros id row [_ Hrow]%Hrows. destruct (snapshot_row _ _ _ _ Hi' Hrow) as (a & ? & _). eauto. }
  rewrite Hl. apply wp_ret. exists l. split_and!; [done| | |].
  - intros a. split.
    + intros [i Hia]%list_elem_of_lookup. destruct (Forall2_lookup_r _ _ _ _ _ HF Hia) as ([id row] & Hir & Hm).
      cbn in Hm. apply list_elem_of_lookup_2, Hrows in Hir as [Hp Hrow].
      apply (pending_snapshot _ _ _ _ Hm) in Hp as [Ho Hp]. apply (spared now s s' id row a Honly Hm Hp) in Hrow as [Hrow Hnow].
      rewrite (map_snapshot_id _ _ _ Hm). split_and!; [by exists row|done..].
    + intros ((row & Hrow & Hm) & Ho & Hp & Hnow). assert (db_requests s' !! ap_id a = Some row) as Hrow'.
      { by apply (spared now s s' _ _ a). }
      assert ((ap_id a, row) ∈ rows) as [i Hir]%list_elem_of_lookup.
      { apply Hrows. split; [|done]. by apply (pending_snapshot _ _ _ _ Hm). }
      destruct (Forall2_lookup_l _ _ _ _ _ HF Hir) as (a' & Hia & Hm'). cbn in Hm'.
      assert (a' = a) as -> by congruence. by eapply list_elem_of_lookup_2.
  - eapply listed_sorted; [done|]. apply sort_by_sorted; [apply older_trans|apply older_total].
  - intros id Hd. destruct Honly as [_ Hexp]. destruct (Hexp id) as (row' & Hrow' & Hs); [by apply elem_of_due_ids|].
    destruct (snapshot_row _ _ _ _ Hi' Hrow') as (a & Hm & Hin). exists a. split; [done|].
    apply status_wire_inj. by rewrite <-(map_snapshot_status _ _ _ Hm).
Qed.

End Pending.

(** ** Approvals: witnesses and examples

    A codec, a run through the whole life of an approval, the witnesses of the
    theorems, and runs where the repository falls short of what one would
    expect. *)

#[local] Existing Instance sample_env.

#[global] Instance ApprovalSubject_eq_dec : EqDecision ApprovalSubject.
Proof. solve_decision. Defined.

#[global] Instance ApprovalArtifactRef_eq_dec : EqDecision ApprovalArtifactRef.
Proof. solve_decision. Defined.

#[global] Instance ApprovalApplyReceipt_eq_dec : EqDecision ApprovalApplyReceipt.
Proof. solve_decision. Defined.

(** ** A codec of a few documents *)

Section Documents.
Context {A : Type} `{!EqDecision A} (documents : list (A * string)).

Definition print_document (a : A) : string + string :=
  match head (filter (λ d, d.1 = a) documents) with Some d => inr d.2 | None => inl "unsupported" end.

Definition parse_document (text : string) : string + A :=
  match head (filter (λ d, d.2 = text) documents) with Some d => inr d.1 | None => inl "malformed" end.

Lemma head_filter (P : A * string → Prop) `{!∀ d, Decision (P d)} d :
  head (filter P documents) = Some d → d ∈ documents ∧ P d.
Proof.
  intros Hd. assert (d ∈ filter P documents) as Hin; [|by apply list_elem_of_filter in Hin as []].
  destruct (filter P documents); [done|]. injection Hd as ->. left.
Qed.

Lemma document_read_back a text :
  NoDup documents.*2 → print_document a = inr text → parse_document text = inr a.
Proof.
  unfold print_document, parse_document. intros Hnd Hp.
  destruct (head (filter (λ d, d.1 = a) documents)) as [[a' t']|] eqn:H1; [|done]. injection Hp as ->.
  apply head_filter in H1 as [Hin Ha]. cbn in Ha. subst a'.
  destruct (head (filter (λ d, d.2 = text) documents)) as [[a' t']|] eqn:H2.
  - apply head_filter in H2 as [Hin' Ht]. cbn in *. subst t'. f_equal.
    apply list_elem_of_lookup in Hin as [i Hi]. apply list_elem_of_lookup in Hin' as [j Hj].
    assert (i = j) as ->; [|congruence]. eapply (NoDup_lookup documents.*2 i j text Hnd); by rewrite list_lookup_fmap, ?Hi, ?Hj.
  - assert ((a, text) ∈ filter (λ d, d.2 = text) documents) as Hin2 by by apply list_elem_of_filter.
    destruct (filter _ documents); [by apply elem_of_nil in Hin2|done].
Qed.

End Documents.

Definition patch : ApprovalSubject :=
  {| sj_category := ApprovalCategory.ApplyCode; sj_goal_id := 7; sj_attempt_id := None; sj_job_id := None;
     sj_attributes := {[ "base_commit" := "c0ffee" ]}; sj_allowed_scope := ["crates/kernel"; "docs"];
     sj_apply_target := Some "." |}.

Definition receipt_1 : ApprovalApplyReceipt :=
  {| rc_approval_id := 3; rc_operation_id := 77; rc_goal_id := 7; rc_success := true; rc_applied_head := Some "beef";
     rc_diff_sha256 := "d1ff"; rc_changed_paths := ["docs/a.md"]; rc_error := None; rc_finished_at_ms := 40 |}.

Definition receipt_2 : ApprovalApplyReceipt :=
  {| rc_approval_id := 3; rc_operation_id := 77; rc_goal_id := 7; rc_success := false; rc_applied_head := None;
     rc_diff_sha256 := "d1ff"; rc_changed_paths := []; rc_error := Some "again"; rc_finished_at_ms := 41 |}.

Definition subjects : list (ApprovalSubject * string) := [(patch, "patch")].
Definition artifact_lists : list (list ApprovalArtifactRef * string) := [([], "none")].
Definition categories : list (ApprovalCategory.t * string) := [(ApprovalCategory.ApplyCode, "apply_code")].
Definition risks : list (ApprovalRisk.t * string) := [(ApprovalRisk.High, "high")].
Definition receipts : list (ApprovalApplyReceipt * string) := [(receipt_1, "receipt 1"); (receipt_2, "receipt 2")].

#[local] Instance sample_digest : ApprovalDigest := {|
  subject_json := print_document subjects;
  sha256_of := λ text, "#" +:+ text;
|}.

#[local] Instance sample_codec : ApprovalCodec := {|
  parse_subject := parse_document subjects;
  artifacts_json := print_document artifact_lists;
  parse_artifacts := parse_document artifact_lists;
  category_json := print_document categories;
  parse_category := parse_document categories;
  risk_json := print_document risks;
  parse_risk := parse_document risks;
  receipt_json := print_document receipts;
  parse_receipt := parse_document receipts;
|}.

#[local] Instance sample_sqlite : Sqlite := {| sqlite := λ _, None |}.

Lemma sample_approval_laws : ApprovalLaws.
Proof.
  split; intros a json; apply document_read_back; apply (bool_decide_unpack _); vm_compute; exact I.
Qed.

#[local] Existing Instance sample_approval_laws.

(** ** The life of an approval *)

Definition policy : ApprovalChannelPolicy := default_channel_policy.

(** Plans a request, and performs what was planned last. *)
Definition do_plan (q : Request) (w : World) : World :=
  let '(r, s, n) := plan policy q (w_db w) (w_calls w) in
  {| w_db := s; w_calls := n; w_intents := join r (w_intents w) |}.

Definition do_perform (w : World) : World :=
  match w_intents w with
  | [] => w
  | i :: l =>
      let '(_, s, n) := perform i (w_db w) (w_calls w) in {| w_db := s; w_calls := n; w_intents := i :: l |}
  end.

Lemma do_plan_step q w : step policy w (do_plan q w).
Proof.
  unfold do_plan. destruct w as [s n l]. cbn. destruct (plan policy q s n) as [[r s'] n'] eqn:Hp. by eapply step_plan.
Qed.

Lemma do_perform_steps w : clos_refl_trans_1n _ (step policy) w (do_perform w).
Proof.
  destruct w as [s n [|i l]]; unfold do_perform; cbn; [apply Relation_Operators.rt1n_refl|].
  destruct (perform i s n) as [[r s'] n'] eqn:Hp. eapply Relation_Operators.rt1n_trans; [|apply Relation_Operators.rt1n_refl].
  eapply step_perform; [left|done].
Qed.

Lemma do_steps q w : clos_refl_trans_1n _ (step policy) w (do_perform (do_plan q w)).
Proof. eapply Relation_Operators.rt1n_trans; [apply do_plan_step|apply do_perform_steps]. Qed.

Definition empty_db : Db :=
  {| db_requests := ∅; db_events := []; db_deliveries := ∅; db_operations := ∅; db_receipts := ∅; db_audit := ∅;
     db_objectives := {[ 7%Z := "owner" ]}; db_attempts := ∅; db_coding_jobs := ∅ |}.

Definition w0 : World := {| w_db := empty_db; w_calls := 0; w_intents := [] |}.

Definition ask : ApprovalCreate :=
  {| cr_subject := patch; cr_risk := ApprovalRisk.High; cr_summary := "apply the patch"; cr_artifacts := [];
     cr_created_at_ms := 10; cr_expires_at_ms := 100 |}.

Definition owner_on_telegram : ApprovalResolutionContext := {| cx_principal_id := "owner"; cx_channel := "telegram" |}.

(** Requested, approved, claimed, consumed. *)
Definition w1 : World := do_perform (do_plan (AskCreate ask) w0).
Definition w2 : World := do_perform (do_plan (AskResolve 3 0 owner_on_telegram Approve 20) w1).
Definition w3 : World := do_perform (do_plan (AskClaim 3 77 30) w2).
Definition w4 : World := do_perform (do_plan (AskFinish receipt_1) w3).

Lemma w2_reachable : reachable policy w2.
Proof. exists w0. split; [done|]. eapply steps_trans; [apply do_steps|apply do_steps]. Qed.

Lemma w2_w4 : clos_refl_trans_1n _ (step policy) w2 w4.
Proof. eapply steps_trans; [apply do_steps|apply do_steps]. Qed.

Lemma w4_reachable : reachable policy w4.
Proof. destruct w2_reachable as (w & Hf & Hs). exists w. split; [done|]. eapply steps_trans; [done|apply w2_w4]. Qed.

(** The status of the approval in a state. *)
Definition status_in (w : World) : option string := rq_status <$> db_requests (w_db w) !! 3.

Example the_life_of_an_approval :
  status_in <$> [w0; w1; w2; w3; w4]
  = [None; Some "pending"; Some "approved"; Some "approved"; Some "consumed"].
Proof. vm_compute. reflexivity. Qed.

Lemma approval_decided_once_witness :
  reachable policy w2 ∧ clos_refl_trans_1n _ (step policy) w2 w4 ∧
  ∃ row a a', db_requests (w_db w2) !! 3 = Some row ∧ map_snapshot 3 row = Ok a ∧ snapshot_in (w_db w4) 3 a'
    ∧ request_of a' = request_of a ∧ ap_status a' ≠ ApprovalStatus.Pending.
Proof.
  split; [apply w2_reachable|]. split; [apply w2_w4|].
  destruct (db_requests (w_db w2) !! 3) as [row|] eqn:Hrow; [|vm_compute in Hrow; discriminate Hrow].
  destruct (approval_decided_once policy w2 w4 3 row w2_reachable w2_w4 Hrow) as (a & a' & Hm & Hin & Hreq & Hdec & _).
  exists row, a, a'. split_and!; [done..|].
  assert (ap_status a ≠ ApprovalStatus.Pending) as Ha.
  { intros Hp. pose proof (map_snapshot_status _ _ _ Hm) as Hs. rewrite Hp in Hs. vm_compute in Hrow.
    injection Hrow as <-. vm_compute in Hs. discriminate Hs. }
  destruct (Hdec Ha) as [_ [->|[_ ->]]]; done.
Defined.

Lemma w4_snapshot : ∃ a, snapshot_in (w_db w4) 3 a ∧ ap_status a = ApprovalStatus.Consumed.
Proof.
  destruct (db_requests (w_db w4) !! 3) as [row|] eqn:Hrow; [|vm_compute in Hrow; discriminate Hrow].
  destruct (snapshot_row policy (w_db w4) 3 row) as (a & Hm & Hin); [apply (wo_db _ _ (reachable_ok policy w4 w4_reachable))|done|].
  exists a. split; [done|]. apply status_wire_inj. rewrite <-(map_snapshot_status _ _ _ Hm). vm_compute in Hrow.
  by injection Hrow as <-.
Qed.

Lemma approval_consumed_once_witness :
  ∃ a rr, snapshot_in (w_db w4) 3 a ∧ db_receipts (w_db w4) !! 3 = Some rr ∧ authorised policy a
    ∧ wp (finish_apply receipt_2) (λ r s' _, s' = w_db w4 ∧ ∀ b, r ≠ Ok b) (w_db w4) 0.
Proof.
  destruct w4_snapshot as (a & Hin & Hst).
  destruct (approval_consumed_once policy w4 3 a w4_reachable Hin) as [[Hrec _] Honce].
  destruct (Hrec Hst) as [rr Hrr]. exists a, rr. split; [done|]. split; [done|].
  destruct (Honce rr Hrr) as (Hauth & rc & o & Hrc & _ & _ & _ & _ & _ & Hfin). split; [done|].
  apply Hfin; [done|]. assert (rc = receipt_1) as ->; [|done]. vm_compute in Hrr. injection Hrr as <-.
  vm_compute in Hrc. by injection Hrc as <-.
Defined.

Lemma audit_is_the_history_witness :
  reachable policy w4 ∧ replay (db_events (w_db w4)) !! 3 = Some ("consumed", 2).
Proof.
  split; [apply w4_reachable|]. destruct (audit_is_the_history policy w4 w4_reachable) as [-> _].
  vm_compute. reflexivity.
Defined.

(** ** Listing *)

Example nothing_is_pending_after_expiry :
  (λ r, match r with Ok l => Some (ap_id <$> l) | _ => None end) ∘ (λ t, (list_pending "owner" t (w_db w1) 7).1.1)
    <$> [99%Z; 100%Z] = [Some [3]; Some []].
Proof. vm_compute. reflexivity. Qed.

(** ** Shortfalls *)

(** What a method answers, and the state it leaves. *)
Definition answer {A} (m : M Db ApprovalRepositoryError A) (w : World) : Result ApprovalRepositoryError A :=
  (m (w_db w) (w_calls w)).1.1.

Definition after {A} (m : M Db ApprovalRepositoryError A) (w : World) : World :=
  let '(_, s, n) := m (w_db w) (w_calls w) in {| w_db := s; w_calls := n; w_intents := w_intents w |}.

Definition ok {A} (r : Result ApprovalRepositoryError A) : option A := match r with Ok a => Some a | _ => None end.

(** The expiry bounds the decision, not the use of an approval: one that was
    given in time is claimed at any later time. *)
Example approval_is_used_after_its_expiry :
  ap_expires_at_ms <$> ok (answer (get_known 3) w2) = Some 100%Z
  ∧ (λ c, match c with Claimed o => ao_started_at_ms o | Existing _ => 0%Z end)
      <$> ok (answer (claim_apply 3 77 1000000000) w2) = Some 1000000000%Z.
Proof. split; vm_compute; reflexivity. Qed.

(** A request that repeats an overdue one is answered with the overdue one: it
    is pending, but its owner can only expire it. *)
Definition ask_again : ApprovalCreate :=
  {| cr_subject := patch; cr_risk := ApprovalRisk.High; cr_summary := "apply the patch"; cr_artifacts := [];
     cr_created_at_ms := 200; cr_expires_at_ms := 300 |}.

Example overdue_request_is_answered :
  (λ a, (ap_id a, ap_status a, ap_expires_at_ms a)) <$> ok (answer (create ask_again) w1)
    = Some (3, ApprovalStatus.Pending, 100%Z)
  ∧ ap_status <$> ok (answer (Approvals.resolve policy 3 0 owner_on_telegram Approve 210) w1)
    = Some ApprovalStatus.Expired.
Proof. split; vm_compute; reflexivity. Qed.

(** Two connections that ask for the same subject: the second insertion fails
    with an error of the database, where a repeated request is otherwise answered
    with the one that stands. *)
Example concurrent_requests_collide :
  match w_intents (do_plan (AskCreate ask) (do_plan (AskCreate ask) w0)) with
  | [second; first] =>
      answer (perform first ;; perform second) w0
        = Err (Sql (ConstraintViolation "approval_requests.category, approval_requests.subject_hash"))
  | _ => False
  end
  ∧ ap_id <$> ok (answer (create ask) w1) = Some 3.
Proof. split; vm_compute; reflexivity. Qed.

(** The delivery of a request on a channel is recorded once.  A second attempt
    under another correlation is ignored by the insertion, and the lookup by the
    correlation then fails. *)
Example second_delivery_disappears :
  answer (record_delivery_pending 3 "telegram" "chat" "c2" 12)
    (after (record_delivery_pending 3 "telegram" "chat" "c1" 11) w1)
  = Err (Storage "approval delivery disappeared").
Proof. vm_compute. reflexivity. Qed.

(** A rejection that repeats an earlier one with another reason succeeds, and
    the reason is dropped. *)
Example second_reason_is_dropped :
  let rejected := after (Approvals.resolve policy 3 0 owner_on_telegram (Reject (Some "too risky")) 20) w1 in
  (λ a, rs_reason <$> ap_resolution a)
    <$> ok (answer (Approvals.resolve policy 3 0 owner_on_telegram (Reject (Some "owner requested revision")) 21) rejected)
  = Some (Some (Some "too risky")).
Proof. vm_compute. reflexivity. Qed.

(** Recording an external request again erases the decision on record. *)
Example decision_on_record_is_erased :
  let asked := after (record_external_request "c" "mcp" "read a file" 1) w0 in
  let decided := after (record_external_resolution "c" "deny" 2) asked in
  let again := after (record_external_request "c" "mcp" "read a file" 3) decided in
  (λ w, au_decision <$> db_audit (w_db w) !! "c") <$> [decided; again] = [Some (Some "deny"); Some None].
Proof. vm_compute. reflexivity. Qed.

(** A text cut to its bound is longer than the bound. *)
Example bounded_text_exceeds_its_bound : len (bound_text "abcdefgh" 4) = 7.
Proof. vm_compute. reflexivity. Qed.

(** The same scope in two spellings: which of them is kept, and with it the hash,
    depends on the order of the list. *)
Definition scope_digest : ApprovalDigest :=
  {| subject_json := λ s, inr (String.concat "," (sj_allowed_scope s)); sha256_of := λ text, text |}.

Example hash_depends_on_the_order_of_spellings :
  paths_eqb ["docs//a"; "docs/a"] ["docs/a"; "docs//a"] = true
  ∧ @subject_hash scope_digest (with_scope ["docs//a"; "docs/a"] patch) = Ok "docs//a"
  ∧ @subject_hash scope_digest (with_scope ["docs/a"; "docs//a"] patch) = Ok "docs/a".
Proof. split_and!; vm_compute; reflexivity. Qed.
