(* ===== verification/Genome.v ===== *)
(** * Genomes and candidates (fabric/src/types/genome.rs, metacog/src/evolution)

    The genome is the agent's description of itself.  A mutation of it is proposed
    as an intent; [CandidateGenerator] applies the intent to the genome,
    [SandboxRunner] checks the candidate against the genome it came from and
    [Evaluator] turns the outcome of the checks into a recommendation.  JSON
    numbers and the formatting of values are parameters. *)
From S2P Require Import Prelude StdModel Fallible StdFloat Candidate StdText AuditLog.

#[local] Open Scope N_scope.

(** [serde_json::Number] *)
Class JsonNumbers := {
  JsonNumber : Type;
  number_as_f64 : JsonNumber → option F64;
}.

(** A JSON number is finite. *)
Class JsonNumbersOk `{JsonNumbers} : Prop :=
  number_finite : ∀ n x, number_as_f64 n = Some x → is_finite x = true.

(** How a value is spelled: [{}] and [{:.2}] of an [f64]. *)
Class TextFormat := {
  f64_display : F64 → text;
  f64_fixed2 : F64 → text;
}.

Abbreviation em_dash := 0x2014.

Definition display_N (n : N) : text := lit (pretty n).

(** [f64::clamp(0.0, 1.0)] and [f64::min] *)
Definition clamp_unit (x : F64) : F64 :=
  if SFltb x (S754_zero false) then S754_zero false else if SFltb f64_one x then f64_one else x.

Definition f64_min (x y : F64) : F64 :=
  if is_nan x then y else if is_nan y then x else if SFltb y x then y else x.

Section Genome.
Context `{JsonNumbers}.

Abbreviation Value := (Json JsonNumber).

(** ** fabric/src/types/genome.rs *)

Inductive SubsystemType := Policy | Cognitive | Execution | Storage | Infrastructure | Evolution.

Record SubsystemSpec := {
  sp_name : text;
  sp_subsystem_type : SubsystemType;
  sp_version : text;
  sp_dependencies : list text;
  sp_config : Value;
}.

Record Topology := { tp_subsystems : list SubsystemSpec }.

Record IdentitySpec := { id_name : text; id_description : text; id_self_model : text }.

Record BoundaryRuleSpec := { br_id : text; br_condition : text; br_action : text; br_priority : N }.

Record BoundarySpec := { bn_rules : list BoundaryRuleSpec }.

Record CarePriority := { cp_topic : text; cp_weight : F64 }.

Record CareSpec := { cs_priorities : list CarePriority }.

Record MemorySpec := { ms_backends : list text; ms_compaction_strategy : text }.

Record MutationSpec := {
  mu_allowed_targets : list text;
  mu_require_sandbox : bool;
  mu_require_self_field_approval : bool;
}.

Record LifecycleSpec := {
  lc_auto_compact : bool;
  lc_health_check_interval_secs : N;
  lc_max_idle_time_secs : N;
}.

Record Genome := {
  gn_topology : Topology;
  gn_identity : IdentitySpec;
  gn_boundary : BoundarySpec;
  gn_care : CareSpec;
  gn_memory : MemorySpec;
  gn_mutation : MutationSpec;
  gn_lifecycle : LifecycleSpec;
}.

(** [GenomeLoader::default_genome] *)
Definition default_genome : Genome := {|
  gn_topology := {| tp_subsystems := [] |};
  gn_identity := {| id_name := lit "aletheon-default"; id_description := lit "Default genome " ++ [em_dash] ++ lit " first-run fallback";
                    id_self_model := lit "self-0.1.0" |};
  gn_boundary := {| bn_rules :=
    [{| br_id := lit "default-safety"; br_condition := lit "safety >= 0.8"; br_action := lit "allow";
        br_priority := 100 |};
     {| br_id := lit "immutable-core"; br_condition := lit "mutates core identity"; br_action := lit "deny";
        br_priority := 200 |}] |};
  gn_care := {| cs_priorities := [{| cp_topic := lit "safety"; cp_weight := f64_one |};
                                  {| cp_topic := lit "helpfulness"; cp_weight := f64_lit 9 10 |}] |};
  gn_memory := {| ms_backends := [lit "default"]; ms_compaction_strategy := lit "lru" |};
  gn_mutation := {| mu_allowed_targets := [lit "care.priorities"; lit "boundary.rules"]; mu_require_sandbox := true;
                    mu_require_self_field_approval := true |};
  gn_lifecycle := {| lc_auto_compact := true; lc_health_check_interval_secs := 60; lc_max_idle_time_secs := 3600 |};
|}.

(** ** fabric/src/include/self_field.rs and meta.rs *)

Record MutationIntent := {
  mi_target : text;
  mi_change : Value;
  mi_reason : text;
  mi_reversible : bool;
}.

Record RuntimeCandidate := {
  rc_id : Uuid;
  rc_genome : Genome;
  rc_changes : list text;
  rc_generated_at : Z;
}.

Record TestResult := {
  tr_passed : bool;
  tr_tests_run : N;
  tr_tests_passed : N;
  tr_tests_failed : N;
  tr_failures : list text;
  tr_elapsed_ms : N;
}.

Inductive Recommendation := Adopt | Reject | NeedsMoreTesting | PartialAdopt (changes : list text).

Record Evaluation := {
  ev_score : F64;
  ev_strengths : list text;
  ev_weaknesses : list text;
  ev_recommendation : Recommendation;
}.

Record MigrationResult := {
  mg_success : bool;
  mg_from_version : string;
  mg_to_version : string;
  mg_memories_migrated : N;
  mg_identity_preserved : bool;
  mg_message : text;
}.

(** ** evolution/candidate.rs *)

(** [value.get(key)], [as_str] and [as_f64] *)
Definition json_get (value : Value) (key : text) : option Value :=
  match value with
  | Object fields => snd <$> list_find (λ field, field.1 = key) fields ≫= λ found, Some found.2
  | _ => None
  end.

Definition as_str (value : Value) : option text := match value with String_ t => Some t | _ => None end.

Definition as_f64 (value : Value) : option F64 := match value with Number_ n => number_as_f64 n | _ => None end.

Context `{TextFormat}.

(** [serde_json::to_string(&value).unwrap_or_default()] *)
Class ValueText := value_text : Value → text.

Context `{ValueText}.

Definition with_weight (priority : CarePriority) (weight : F64) : CarePriority :=
  {| cp_topic := cp_topic priority; cp_weight := weight |}.

Definition with_priorities (genome : Genome) (priorities : list CarePriority) : Genome :=
  {| gn_topology := gn_topology genome; gn_identity := gn_identity genome; gn_boundary := gn_boundary genome;
     gn_care := {| cs_priorities := priorities |}; gn_memory := gn_memory genome;
     gn_mutation := gn_mutation genome; gn_lifecycle := gn_lifecycle genome |}.

Definition reason_note (intent : MutationIntent) : text := lit " (reason: " ++ mi_reason intent ++ lit ")".

(** The arm for [care.priorities]: the priorities and the changes. *)
Definition adjust_care (genome : Genome) (intent : MutationIntent) : Genome * list text :=
  match json_get (mi_change intent) (lit "topic") ≫= as_str with
  | None => (genome, [])
  | Some topic =>
      match json_get (mi_change intent) (lit "weight_delta") ≫= as_f64 with
      | None => (genome, [])
      | Some delta =>
          let priorities := cs_priorities (gn_care genome) in
          match list_find (λ p, cp_topic p = topic) priorities with
          | Some (i, priority) =>
              let old_weight := cp_weight priority in
              let weight := clamp_unit (f64_add old_weight delta) in
              (with_priorities genome (<[i := with_weight priority weight]> priorities),
               [lit "care." ++ topic ++ lit ".weight: " ++ f64_display old_weight ++ lit " -> "
                ++ f64_display weight ++ reason_note intent])
          | None =>
              (with_priorities genome (priorities ++ [{| cp_topic := topic; cp_weight := clamp_unit delta |}]),
               [lit "care." ++ topic ++ lit ".weight: new = " ++ f64_display delta ++ reason_note intent])
          end
      end
  end.

Definition proposed (what : text) (intent : MutationIntent) : list text :=
  [what ++ value_text (mi_change intent) ++ reason_note intent].

Definition apply_intent (genome : Genome) (intent : MutationIntent) : Genome * list text :=
  if bool_decide (mi_target intent = lit "care.priorities") then adjust_care genome intent
  else if bool_decide (mi_target intent = lit "boundary.rules") then
    (genome, proposed (lit "boundary.rules: proposed change " ++ [em_dash; space]) intent)
  else if bool_decide (mi_target intent = lit "mutation.config") then
    (genome, proposed (lit "mutation.config: proposed change " ++ [em_dash; space]) intent)
  else (genome, proposed (lit "unknown target '" ++ mi_target intent ++ lit "': ") intent).

Definition generate `{Env} {S E} (genome : Genome) (intent : MutationIntent) : M S E RuntimeCandidate :=
  let '(candidate_genome, changes) := apply_intent genome intent in
  id ← new_uuid;
  now ← read_wall;
  mret {| rc_id := id; rc_genome := candidate_genome; rc_changes := changes; rc_generated_at := now |}.

(** ** evolution/sandbox_runner.rs *)

Definition MAX_CASES : N := 32.

(** The closure [check] on the names that passed and failed so far. *)
Definition check (so_far : list text * list text) (case : string * bool) : list text * list text :=
  let '(passed, failed) := so_far in
  if MAX_CASES <=? count passed + count failed then so_far
  else if case.2 then (passed ++ [lit case.1], failed) else (passed, failed ++ [lit case.1]).

Definition blank (t : text) : bool := is_empty (trim t).

Definition genome_only : list text :=
  lit <$> ["care.priorities"; "boundary.rules"; "identity.name"; "identity.description"].

Definition mandatory (base : Genome) : list BoundaryRuleSpec :=
  filter (λ r, eq_ignore_ascii_case (br_action r) (lit "deny") || contains (br_id r) (lit "immutable"))
    (bn_rules (gn_boundary base)).

Definition keeps_rule (rule r : BoundaryRuleSpec) : bool :=
  bool_decide (br_id r = br_id rule) && bool_decide (br_condition r = br_condition rule)
  && bool_decide (br_action r = br_action rule) && (br_priority rule <=? br_priority r).

Definition own_cases (g : Genome) : list (string * bool) :=
  let rules := bn_rules (gn_boundary g) in
  [("identity.name.non_empty", negb (blank (id_name (gn_identity g))));
   ("identity.self_model.non_empty", negb (blank (id_self_model (gn_identity g))));
   ("boundary.ids.unique", N.of_nat (size (list_to_set (C := gset text) (br_id <$> rules))) =? count rules);
   ("boundary.fields.valid",
      forallb (λ r, negb (blank (br_id r)) && negb (blank (br_condition r)) && negb (blank (br_action r))) rules);
   ("care.weights.finite_range",
      forallb (λ p, is_finite (cp_weight p) && in_unit f64_one (cp_weight p)) (cs_priorities (gn_care g)));
   ("mutation.sandbox.required", mu_require_sandbox (gn_mutation g));
   ("mutation.approval.required", mu_require_self_field_approval (gn_mutation g));
   ("lifecycle.intervals.nonzero",
      (0 <? lc_health_check_interval_secs (gn_lifecycle g)) && (0 <? lc_max_idle_time_secs (gn_lifecycle g)));
   ("mutation.targets.genome_only",
      forallb (λ t, bool_decide (t ∈ genome_only)) (mu_allowed_targets (gn_mutation g)))].

Definition baseline_cases (g base : Genome) : list (string * bool) :=
  [("identity.self_model.immutable", bool_decide (id_self_model (gn_identity g) = id_self_model (gn_identity base)));
   ("mandatory.boundaries.no_regression",
      forallb (λ rule, existsb (keeps_rule rule) (bn_rules (gn_boundary g))) (mandatory base))].

Definition cases (g : Genome) (baseline : option Genome) : list (string * bool) :=
  own_cases g ++ match baseline with Some base => baseline_cases g base | None => [] end.

Definition test_result (outcome : list text * list text) (elapsed_ms : N) : TestResult :=
  let '(passed, failed) := outcome in
  {| tr_passed := is_nil failed; tr_tests_run := count passed + count failed; tr_tests_passed := count passed;
     tr_tests_failed := count failed; tr_failures := failed; tr_elapsed_ms := elapsed_ms |}.

(** ** evolution/candidate_evaluator.rs *)

Definition SAFETY_THRESHOLD : F64 := f64_lit 8 10.

Definition MAX_ADJUSTMENT_MAGNITUDE : F64 := f64_lit 2 10.

Context `{UnicodeCase}.

Definition safety_score (test : TestResult) : F64 :=
  if tr_tests_run test =? 0 then S754_zero false
  else f64_div (f64_of_N (tr_tests_passed test)) (f64_of_N (tr_tests_run test)).

Definition immutable_violated (test : TestResult) : bool :=
  existsb (λ f, let lower := to_lowercase f in
                contains lower (lit "immutable") || contains lower (lit "identity") || contains lower (lit "core"))
    (tr_failures test).

Definition adjustment_magnitude (candidate : RuntimeCandidate) : F64 :=
  f64_min (f64_div (f64_of_N (count (rc_changes candidate))) (f64_of_N 5)) f64_one.

Definition overall_score (safety magnitude : F64) (violated : bool) : F64 :=
  let score := f64_mul safety (f64_lit 6 10) in
  let score := if negb violated then f64_add score (f64_lit 2 10) else f64_sub score (f64_lit 3 10) in
  clamp_unit (f64_add score (f64_mul (f64_sub f64_one magnitude) (f64_lit 2 10))).

Definition recommend (score magnitude : F64) (violated : bool) : Recommendation :=
  if violated then Reject
  else if SFleb SAFETY_THRESHOLD score && SFleb magnitude MAX_ADJUSTMENT_MAGNITUDE then Adopt
  else if SFleb (f64_lit 5 10) score then NeedsMoreTesting
  else Reject.

Definition note (b : bool) (t : text) : list text := if b then [t] else [].

Definition weaknesses (test : TestResult) (safety magnitude : F64) (violated : bool) : list text :=
  note violated (lit "Immutable rule violation detected in test failures")
  ++ note (SFltb MAX_ADJUSTMENT_MAGNITUDE magnitude)
       (lit "Adjustment magnitude " ++ f64_fixed2 magnitude ++ lit " exceeds limit "
        ++ f64_fixed2 MAX_ADJUSTMENT_MAGNITUDE)
  ++ note (negb (tr_passed test)) (display_N (tr_tests_failed test) ++ lit " test(s) failed")
  ++ note (SFltb safety SAFETY_THRESHOLD)
       (lit "Safety score " ++ f64_fixed2 safety ++ lit " below threshold " ++ f64_fixed2 SAFETY_THRESHOLD).

Definition strengths (test : TestResult) (safety : F64) : list text :=
  note (SFleb SAFETY_THRESHOLD safety) (lit "Safety score " ++ f64_fixed2 safety ++ lit " meets threshold")
  ++ note (0 <? tr_tests_passed test) (display_N (tr_tests_passed test) ++ lit " tests passed")
  ++ note (tr_elapsed_ms test <? 5000) (lit "Completed in " ++ display_N (tr_elapsed_ms test) ++ lit "ms").

Definition evaluate (candidate : RuntimeCandidate) (test : TestResult) : Evaluation :=
  let safety := safety_score test in
  let violated := immutable_violated test in
  let magnitude := adjustment_magnitude candidate in
  let score := overall_score safety magnitude violated in
  {| ev_score := score; ev_strengths := strengths test safety;
     ev_weaknesses := weaknesses test safety magnitude violated;
     ev_recommendation := recommend score magnitude violated |}.

End Genome.

(** ** Lemmas on floats: finite numbers add up to a number *)

Section Floats.
#[local] Open Scope Z_scope.

Lemma shr_fexp_nonneg m e l : 0 ≤ m → 0 ≤ shr_m (shr_fexp 53 1024 m e l).1.
Proof.
  intros Hm. unfold shr_fexp, shr. case_match; cbn [fst]; rewrite ?shr_record_m; try done.
  rewrite iter_shr_m; rewrite shr_record_m; [|done]. apply Z.div_pos; [done|]. lia.
Qed.

Lemma round_aux_number s m e l : 0 ≤ m → is_nan (binary_round_aux 53 1024 s m e l) = false.
Proof.
  intros Hm. unfold binary_round_aux. pose proof (shr_fexp_nonneg m e l Hm) as H1.
  destruct (shr_fexp 53 1024 m e l) as [r e1]. cbn [fst] in H1.
  assert (0 ≤ round_nearest_even (shr_m r) (loc_of_shr_record r)) as H2.
  { destruct (round_even_cases (shr_m r) (loc_of_shr_record r)) as [->| ->]; lia. }
  pose proof (shr_fexp_nonneg _ e1 loc_Exact H2) as H3.
  destruct (shr_fexp 53 1024 (round_nearest_even _ _) _ _) as [r2 e2]. cbn [fst] in H3.
  destruct (shr_m r2); [done| |lia]. by case_match.
Qed.

Lemma normalize_number m e s : is_nan (binary_normalize 53 1024 m e s) = false.
Proof.
  unfold binary_normalize, binary_round. destruct m; [done|..]; case_match; by apply round_aux_number.
Qed.

Lemma add_number x y : is_finite x = true → is_finite y = true → is_nan (f64_add x y) = false.
Proof.
  unfold f64_add, SFadd. destruct x as [[]| | |], y as [[]| | |]; try done; intros _ _; try by case_match.
  apply normalize_number.
Qed.

Lemma finite_number x : is_finite x = true → is_nan x = false.
Proof. by destruct x. Qed.

Lemma clamp_unit_ok x :
  is_nan x = false → is_finite (clamp_unit x) = true ∧ in_unit f64_one (clamp_unit x) = true.
Proof.
  intros Hx. unfold clamp_unit. destruct (SFltb x _) eqn:Hlo; [done|]. destruct (SFltb _ x) eqn:Hhi; [by vm_compute|].
  destruct x as [s|[]| |s m e]; try done. split; [done|]. unfold in_unit. apply andb_true_iff.
  unfold SFltb, SFleb in *. change f64_one with (S754_finite false 4503599627370496 (-52)) in *.
  unfold SFcompare in *. destruct s; [done|]. split; [done|].
  destruct (Z.compare_spec e (-52)); destruct (Z.compare_spec (-52) e); try lia; try done.
  match goal with |- context [Pos.compare_cont Eq m ?one] =>
    pose proof (Pos.compare_cont_antisym m one Eq) as Hanti end.
  cbn [CompOpp] in Hanti. rewrite <-Hanti in Hhi. by destruct (Pos.compare_cont Eq m _).
Qed.

End Floats.

(** ** What the sandbox accepts *)

Section Evolves.
Context {HN : JsonNumbers} {HOk : JsonNumbersOk} {HT : TextFormat} {HV : ValueText} {HU : UnicodeCase}.

(** A genome that passes the checks on its own. *)
Definition sound (g : Genome) : bool := forallb snd (own_cases g).

Definition outcome (g : Genome) (baseline : option Genome) : list text * list text :=
  foldl check ([], []) (cases g baseline).

(** The limit on the cases is out of reach: every case is recorded. *)
Lemma check_all l passed failed :
  count passed + count failed + count l ≤ MAX_CASES →
  foldl check (passed, failed) l
  = (passed ++ ((λ c, lit c.1) <$> filter (λ c, c.2 = true) l),
     failed ++ ((λ c, lit c.1) <$> filter (λ c, c.2 = false) l)).
Proof.
  revert passed failed. induction l as [|[name ok] l IH]; intros passed failed Hle; [by rewrite !app_nil_r|].
  unfold count, MAX_CASES in *. cbn [length foldl] in *. unfold check at 2. unfold count, MAX_CASES in *.
  destruct (N.leb_spec 32 (N.of_nat (length passed) + N.of_nat (length failed))); [lia|]. cbn [fst snd].
  rewrite !filter_cons. cbn [snd].
  destruct ok; cbn; rewrite IH by (rewrite ?length_app; cbn [length]; lia); by rewrite <-app_assoc.
Qed.

Lemma outcome_eq g baseline :
  outcome g baseline
  = ((λ c, lit c.1) <$> filter (λ c, c.2 = true) (cases g baseline),
     (λ c, lit c.1) <$> filter (λ c, c.2 = false) (cases g baseline)).
Proof. unfold outcome. rewrite check_all; [done|]. by destruct baseline. Qed.

(** The sandbox passes a candidate iff every case holds of it. *)
Lemma sandbox_passes g baseline elapsed :
  tr_passed (test_result (outcome g baseline) elapsed) = forallb snd (cases g baseline).
Proof.
  rewrite outcome_eq. cbn [test_result tr_passed]. induction (cases g baseline) as [|[name ok] l IH]; [done|].
  rewrite filter_cons. cbn [snd forallb]. by destruct ok.
Qed.

Lemma outcome_passed g baseline :
  forallb snd (cases g baseline) = true → outcome g baseline = ((λ c, lit c.1) <$> cases g baseline, []).
Proof.
  intros Hall. rewrite outcome_eq. revert Hall. induction (cases g baseline) as [|[name ok] l IH]; [done|].
  rewrite !filter_cons. cbn [snd forallb]. intros [-> Hl]%andb_true_iff.
  rewrite decide_True, decide_False by done. rewrite !fmap_cons. by injection (IH Hl) as -> ->.
Qed.

(** Applying an intent keeps everything but the care priorities. *)
Definition same_but_care (g g' : Genome) : Prop := g' = with_priorities g (cs_priorities (gn_care g')).

Definition weights_ok (g : Genome) : Prop :=
  Forall (λ p, is_finite (cp_weight p) = true ∧ in_unit f64_one (cp_weight p) = true) (cs_priorities (gn_care g)).

Lemma weights_ok_iff g :
  forallb (λ p, is_finite (cp_weight p) && in_unit f64_one (cp_weight p)) (cs_priorities (gn_care g)) = true
  ↔ weights_ok g.
Proof.
  unfold weights_ok. induction (cs_priorities (gn_care g)) as [|p l IH]; [done|].
  cbn [forallb]. rewrite Forall_cons, !andb_true_iff, IH. done.
Qed.

Lemma with_own_priorities g : with_priorities g (cs_priorities (gn_care g)) = g.
Proof. by destruct g as [? ? ? [?]]. Qed.

Lemma unchanged_ok g (changes : list text) :
  weights_ok g → count changes ≤ 1 → g = with_priorities g (cs_priorities (gn_care g)) ∧ weights_ok g ∧ count changes ≤ 1.
Proof. by rewrite with_own_priorities. Qed.

Lemma adjust_care_ok g intent :
  weights_ok g →
  let '(g', changes) := adjust_care g intent in
  same_but_care g g' ∧ weights_ok g' ∧ count changes ≤ 1.
Proof.
  intros Hw. unfold adjust_care, same_but_care. destruct (json_get _ _ ≫= as_str) as [topic|].
  2: by apply unchanged_ok.
  destruct (json_get _ (lit "weight_delta") ≫= as_f64) as [delta|] eqn:Hd; [|by apply unchanged_ok].
  assert (is_finite delta = true) as Hfin.
  { destruct (json_get _ _) as [[]|]; try done. by eapply number_finite. }
  unfold weights_ok in *. destruct (list_find _ _) as [[i p]|] eqn:Hf; cbn [gn_care with_priorities cs_priorities].
  - split_and!; [done| |done]. apply list_find_Some in Hf as (Hi & _ & _). rewrite Forall_lookup in Hw.
    apply Forall_insert; [by apply Forall_lookup|]. apply clamp_unit_ok, add_number; [|done]. by eapply Hw.
  - split_and!; [done| |done]. apply Forall_app_2; [done|]. apply Forall_singleton, clamp_unit_ok.
    by apply finite_number.
Qed.

Lemma apply_intent_ok g intent :
  weights_ok g →
  let '(g', changes) := apply_intent g intent in
  same_but_care g g' ∧ weights_ok g' ∧ count changes ≤ 1.
Proof.
  intros Hw. unfold apply_intent, same_but_care. case_bool_decide; [by apply adjust_care_ok|].
  repeat case_bool_decide; by apply unchanged_ok.
Qed.

Lemma keeps_rule_refl rules rule : rule ∈ rules → existsb (keeps_rule rule) rules = true.
Proof.
  intros Hin. apply existsb_exists. exists rule. split; [by apply list_elem_of_In|].
  unfold keeps_rule. rewrite !bool_decide_eq_true_2 by done. cbn. by apply N.leb_le.
Qed.

Lemma sound_cases g g' :
  sound g = true → same_but_care g g' → weights_ok g' → forallb snd (cases g' (Some g)) = true.
Proof.
  intros Hs Hg Hw%weights_ok_iff. unfold cases. rewrite forallb_app. apply andb_true_iff. split.
  - rewrite Hg in *. unfold sound, own_cases in *. cbn in *. rewrite Hw. cbn. repeat rewrite andb_true_iff in *. tauto.
  - rewrite Hg. cbn. rewrite bool_decide_eq_true_2 by done. cbn. rewrite andb_true_r. apply forallb_forall.
    intros rule Hin. apply keeps_rule_refl. apply list_elem_of_In in Hin. by apply list_elem_of_filter in Hin as [_ ?].
Qed.

Lemma sound_weights g : sound g = true → weights_ok g.
Proof. intros Hs. apply weights_ok_iff. unfold sound, own_cases in Hs. cbn in Hs. repeat rewrite andb_true_iff in Hs. tauto. Qed.

Lemma adopted id g changes at_ elapsed (names : list text) :
  count changes ≤ 1 → length names = 11%nat →
  ev_recommendation (evaluate {| rc_id := id; rc_genome := g; rc_changes := changes; rc_generated_at := at_ |}
                       (test_result (names, []) elapsed)) = Adopt.
Proof.
  intros Hc Hn. unfold evaluate, adjustment_magnitude, safety_score, immutable_violated, count in *. cbn -[f64_div f64_lit].
  unfold count. rewrite Hn. destruct changes as [|c [|]]; cbn [length] in *; [by vm_compute..|lia].
Qed.

(** The topic an intent names. *)
Definition intent_topic (intent : MutationIntent) : option text := json_get (mi_change intent) (lit "topic") ≫= as_str.

(** An intent within the limits that are documented for a change: the genome allows
    its target, no weight moves by more than 0.2, and the weight of safety does not
    end below the threshold of 0.8. *)
Definition modest (g : Genome) (intent : MutationIntent) : bool :=
  bool_decide (mi_target intent ∈ mu_allowed_targets (gn_mutation g))
  && match json_get (mi_change intent) (lit "weight_delta") ≫= as_f64 with
     | Some delta => negb (SFltb (f64_lit 2 10) (SFabs delta))
     | None => true
     end
  && forallb (λ p, negb (bool_decide (cp_topic p = lit "safety")) || SFleb (f64_lit 8 10) (cp_weight p))
       (cs_priorities (gn_care (apply_intent g intent).1)).

(** Only the topic that is named gets another weight. *)
Lemma apply_intent_topic g intent p :
  p ∈ cs_priorities (gn_care (apply_intent g intent).1) →
  p ∈ cs_priorities (gn_care g) ∨ intent_topic intent = Some (cp_topic p).
Proof.
  unfold apply_intent, intent_topic. case_bool_decide; [|repeat case_bool_decide; by left].
  unfold adjust_care. destruct (json_get _ (lit "topic") ≫= as_str) as [topic|]; [|by left].
  destruct (json_get _ (lit "weight_delta") ≫= as_f64) as [delta|]; [|by left].
  destruct (list_find _ _) as [[i q]|] eqn:Hf; cbn.
  - apply list_find_Some in Hf as (Hi & <- & _). intros [k Hk]%list_elem_of_lookup.
    destruct (decide (k = i)) as [->|Hne].
    + rewrite list_lookup_insert_eq in Hk by (by eapply lookup_lt_Some). simplify_eq. by right.
    + rewrite list_lookup_insert_ne in Hk by done. left. by eapply list_elem_of_lookup_2.
  - rewrite elem_of_app, list_elem_of_singleton. intros [?| ->]; [by left|by right].
Qed.


End Evolves.
