(* ===== verification/MetaRuntime.v ===== *)
(** * The meta-runtime (metacog/src/governance/runtime.rs and metacog/src/evolution)

    [MetaRuntimeOps] is the interface of fabric/src/include/meta.rs, and
    [DefaultMetaRuntime] its implementation: the loader of the genome file, the
    rollback manager with its durable store of snapshots, the lineage of versions,
    the migration manager and the sandbox; and the morphogenesis pipeline, which
    runs over the interface.  Encodings are parameters; each reading and writing of
    a file may fail. *)
From S2P Require Import Prelude StdModel Fallible StdFloat Candidate StdText AuditLog Genome.

#[local] Open Scope N_scope.

(** fabric/src/include/subsystem.rs *)
Record Version := { vs_major : N; vs_minor : N; vs_patch : N }.

Definition version_to_string (v : Version) : string :=
  pretty (vs_major v) +:+ "." +:+ pretty (vs_minor v) +:+ "." +:+ pretty (vs_patch v).

(** ** The interface *)

Class MetaRuntimeOps `{JsonNumbers} (R : Type) := {
  read_genome : M R text Genome;
  generate_candidate : MutationIntent → M R text RuntimeCandidate;
  sandbox_test : RuntimeCandidate → M R text TestResult;
  evaluate_candidate : RuntimeCandidate → TestResult → M R text Evaluation;
  migrate : RuntimeCandidate → M R text MigrationResult;
  rollback : M R text unit;
  current_version : R → Version;
}.

(** ** evolution/pipeline.rs *)

Module Pipeline.
Section Pipeline.
Context `{JsonNumbers} {HT : TextFormat} {R : Type} `{!MetaRuntimeOps R}.

Record PipelineResult := {
  pr_success : bool;
  pr_candidate : option RuntimeCandidate;
  pr_evaluation : option Evaluation;
  pr_migration : option MigrationResult;
  pr_message : text;
  pr_rolled_back : bool;
}.

(** The texts of [{:?}] of a recommendation and of [{}] of an identifier. *)
Class PipelineText := {
  recommendation_debug : Recommendation → text;
  uuid_text : Uuid → text;
}.

Context `{PipelineText}.

(** A fallible stage: on an error the runtime is rolled back and the error kept. *)
Definition or_rollback {A} (stage : M R text A) : M R text A :=
  r ← try_ stage;
  match r with
  | inr a => mret a
  | inl e => ignore rollback ;; throw e
  end.

Definition adopt_or_roll_back (candidate : RuntimeCandidate) (recommendation : Recommendation)
    : M R text (option MigrationResult * bool) :=
  match recommendation with
  | Adopt | PartialAdopt _ => result ← migrate candidate; mret (Some result, false)
  | Reject | NeedsMoreTesting =>
      r ← try_ rollback;
      mret (None, match r with inr _ => true | inl _ => false end)
  end.

Definition message (candidate : RuntimeCandidate) (evaluation : Evaluation) (success : bool) : text :=
  if success then
    lit "Pipeline complete. Candidate " ++ uuid_text (rc_id candidate) ++ lit " adopted with score "
    ++ f64_fixed2 (ev_score evaluation) ++ lit "."
  else
    lit "Pipeline complete. Candidate " ++ uuid_text (rc_id candidate) ++ lit " not adopted. Recommendation: "
    ++ recommendation_debug (ev_recommendation evaluation).

Definition run (intent : MutationIntent) : M R text PipelineResult :=
  candidate ← generate_candidate intent;
  test ← or_rollback (sandbox_test candidate);
  evaluation ← or_rollback (evaluate_candidate candidate test);
  outcome ← adopt_or_roll_back candidate (ev_recommendation evaluation);
  let '(migration, rolled_back) := outcome in
  let success := bool_decide (is_Some migration) in
  mret {| pr_success := success; pr_candidate := Some candidate; pr_evaluation := Some evaluation;
          pr_migration := migration; pr_message := message candidate evaluation success;
          pr_rolled_back := rolled_back |}.

End Pipeline.
End Pipeline.

(** ** The default implementation *)

Module DefaultMetaRuntime.

Section Runtime.
Context `{HE : Env} {HN : JsonNumbers} {HT : TextFormat} {HV : ValueText} {HU : UnicodeCase}.

(** *** Data *)

(** evolution/rollback.rs *)
Record GenomeSnapshot := { sn_version : string; sn_digest : string; sn_genome : Genome }.

Record GenomeStore := {
  gs_current_version : option string;
  gs_current_digest : option string;
  gs_snapshots : list GenomeSnapshot;
}.

Definition default_store : GenomeStore :=
  {| gs_current_version := None; gs_current_digest := None; gs_snapshots := [] |}.

(** evolution/lineage.rs *)
Record LineageEntry := {
  le_version : string;
  le_parent_version : option string;
  le_description : text;
  le_timestamp : Z;
}.

(** How appending a line ends: written, not written, or cut off, so that the next
    line continues it. *)
Inductive AppendIo := Appended | NotAppended | Torn.

(** The lines of the lineage file that parse; [lf_torn] when the last line is
    incomplete. *)
Record LineageFile := { lf_entries : list LineageEntry; lf_torn : bool }.

(** Encodings, digests and the outcome of each access to a file.  The sandbox
    writes its receipts once per candidate and nothing reads them. *)
Class MetaFiles := {
  File : Type;
  genome_yaml : Genome → text + File;
  parse_genome_yaml : File → text + Genome;
  store_json : GenomeStore → text + File;
  parse_store : File → text + GenomeStore;
  genome_json : Genome → text + text;
  sha256_hex : text → string;
  read_error : N → option text;
  append_io : N → AppendIo;
}.

Context `{MetaFiles}.

Record Runtime := {
  rt_version : Version;
  rt_genome_path : option text;
  rt_receipt_dir : option text;
  rt_lineage_path : option text;
  rt_store : GenomeStore;
  rt_previous_version : option string;
  rt_lineage : list LineageEntry;
  rt_current_genome : option Genome;
  rt_genome_file : option File;
  rt_store_file : option File;
  rt_lineage_file : LineageFile;
}.

Abbreviation Run := (M Runtime text).

Definition set_store (store : GenomeStore) (r : Runtime) : Runtime :=
  {| rt_version := rt_version r; rt_genome_path := rt_genome_path r; rt_receipt_dir := rt_receipt_dir r;
     rt_lineage_path := rt_lineage_path r; rt_store := store; rt_previous_version := rt_previous_version r;
     rt_lineage := rt_lineage r; rt_current_genome := rt_current_genome r; rt_genome_file := rt_genome_file r;
     rt_store_file := rt_store_file r; rt_lineage_file := rt_lineage_file r |}.

Definition set_cached (genome : Genome) (r : Runtime) : Runtime :=
  {| rt_version := rt_version r; rt_genome_path := rt_genome_path r; rt_receipt_dir := rt_receipt_dir r;
     rt_lineage_path := rt_lineage_path r; rt_store := rt_store r; rt_previous_version := rt_previous_version r;
     rt_lineage := rt_lineage r; rt_current_genome := Some genome; rt_genome_file := rt_genome_file r;
     rt_store_file := rt_store_file r; rt_lineage_file := rt_lineage_file r |}.

Definition set_genome_file (file : File) (r : Runtime) : Runtime :=
  {| rt_version := rt_version r; rt_genome_path := rt_genome_path r; rt_receipt_dir := rt_receipt_dir r;
     rt_lineage_path := rt_lineage_path r; rt_store := rt_store r; rt_previous_version := rt_previous_version r;
     rt_lineage := rt_lineage r; rt_current_genome := rt_current_genome r; rt_genome_file := Some file;
     rt_store_file := rt_store_file r; rt_lineage_file := rt_lineage_file r |}.

Definition set_store_file (file : File) (r : Runtime) : Runtime :=
  {| rt_version := rt_version r; rt_genome_path := rt_genome_path r; rt_receipt_dir := rt_receipt_dir r;
     rt_lineage_path := rt_lineage_path r; rt_store := rt_store r; rt_previous_version := rt_previous_version r;
     rt_lineage := rt_lineage r; rt_current_genome := rt_current_genome r; rt_genome_file := rt_genome_file r;
     rt_store_file := Some file; rt_lineage_file := rt_lineage_file r |}.

Definition set_lineage (entries : list LineageEntry) (file : LineageFile) (r : Runtime) : Runtime :=
  {| rt_version := rt_version r; rt_genome_path := rt_genome_path r; rt_receipt_dir := rt_receipt_dir r;
     rt_lineage_path := rt_lineage_path r; rt_store := rt_store r; rt_previous_version := rt_previous_version r;
     rt_lineage := entries; rt_current_genome := rt_current_genome r; rt_genome_file := rt_genome_file r;
     rt_store_file := rt_store_file r; rt_lineage_file := file |}.

Definition set_previous (version : string) (r : Runtime) : Runtime :=
  {| rt_version := rt_version r; rt_genome_path := rt_genome_path r; rt_receipt_dir := rt_receipt_dir r;
     rt_lineage_path := rt_lineage_path r; rt_store := rt_store r; rt_previous_version := Some version;
     rt_lineage := rt_lineage r; rt_current_genome := rt_current_genome r; rt_genome_file := rt_genome_file r;
     rt_store_file := rt_store_file r; rt_lineage_file := rt_lineage_file r |}.

(** [serde_json::to_vec(..)?] and the like *)
Definition encoded {A} (result : text + A) : Run A :=
  match result with inr a => mret a | inl e => throw e end.

(** [with_context]: the context is the message of the error. *)
Definition with_context {A} (result : text + A) (context : text) : Run A :=
  match result with inr a => mret a | inl _ => throw context end.

Definition read_file (file : File) : Run File :=
  n ← tick;
  match read_error n with Some e => throw e | None => mret file end.

(** *** genome/loader.rs: [GenomeLoader::load] *)

Definition load (path : text) : Run Genome :=
  r ← get_state;
  match rt_genome_file r with
  | None => mret default_genome
  | Some file =>
      content ← map_err (λ _, lit "Failed to read genome file: " ++ path) (read_file file);
      with_context (parse_genome_yaml content) (lit "Failed to parse genome YAML: " ++ path)
  end.

(** [atomic_save_genome]; after the rename only the reading back can fail. *)
Definition atomic_save_genome (path : text) (genome : Genome) : Run unit :=
  bytes ← encoded (genome_yaml genome);
  io ← read_io;
  match io with
  | IoFailBeforeRename e => throw (lit e)
  | IoOk | IoFailAfterRename _ =>
      modify (set_genome_file bytes) ;;
      readback ← load path;
      found ← encoded (genome_json readback);
      wanted ← encoded (genome_json genome);
      ensure (bool_decide (found = wanted)) (lit "durable genome read-back mismatch")
  end.

(** *** evolution/rollback.rs *)

Definition digest (genome : Genome) : text + string :=
  match genome_json genome with inr json => inr (sha256_hex json) | inl e => inl e end.

(** The store file lies beside the genome file: there is one when there is a
    genome path. *)
Definition persist (store : GenomeStore) : Run unit :=
  r ← get_state;
  match rt_genome_path r with
  | None => mret tt
  | Some _ =>
      bytes ← encoded (store_json store);
      io ← read_io;
      match io with
      | IoFailBeforeRename e => throw (lit e)
      | IoFailAfterRename e => modify (set_store_file bytes) ;; throw (lit e)
      | IoOk =>
          modify (set_store_file bytes) ;;
          content ← read_file bytes;
          readback ← encoded (parse_store content);
          ensure (bool_decide (gs_current_digest readback = gs_current_digest store)
                  && bool_decide (gs_current_version readback = gs_current_version store))
            (lit "genome store read-back mismatch")
      end
  end.

Definition save_snapshot (version : string) (genome : Genome) : Run unit :=
  digest ← encoded (digest genome);
  r ← get_state;
  let store := {| gs_current_version := Some version; gs_current_digest := Some digest;
                  gs_snapshots := gs_snapshots (rt_store r)
                    ++ [{| sn_version := version; sn_digest := digest; sn_genome := genome |}] |} in
  modify (set_store store) ;;
  persist store.

(** [store.current_version] is set before the digest may fail. *)
Definition record_current (version : string) (genome : Genome) : Run unit :=
  r ← get_state;
  modify (set_store {| gs_current_version := Some version; gs_current_digest := gs_current_digest (rt_store r);
                       gs_snapshots := gs_snapshots (rt_store r) |}) ;;
  digest ← encoded (digest genome);
  let store := {| gs_current_version := Some version; gs_current_digest := Some digest;
                  gs_snapshots := gs_snapshots (rt_store r) |} in
  modify (set_store store) ;;
  persist store.

(** [Vec::pop] *)
Definition pop {A} (l : list A) : option (list A * A) :=
  match reverse l with [] => None | x :: r => Some (reverse r, x) end.

Definition roll_back_store : Run Genome :=
  r ← get_state;
  let store := rt_store r in
  popped ← ok_or (pop (gs_snapshots store)) (lit "No previous genome version to roll back to");
  let '(rest, snapshot) := popped in
  modify (set_store {| gs_current_version := gs_current_version store; gs_current_digest := gs_current_digest store;
                       gs_snapshots := rest |}) ;;
  found ← encoded (digest (sn_genome snapshot));
  ensure (bool_decide (found = sn_digest snapshot)) (lit "rollback snapshot digest mismatch") ;;
  let store := {| gs_current_version := Some (sn_version snapshot); gs_current_digest := Some (sn_digest snapshot);
                  gs_snapshots := rest |} in
  modify (set_store store) ;;
  persist store ;;
  mret (sn_genome snapshot).

(** [RollbackManager::with_path] *)
Definition open_store (file : option File) : Run GenomeStore :=
  match file with
  | None => mret default_store
  | Some file =>
      content ← map_err (λ _, lit "read store") (read_file file);
      with_context (parse_store content) (lit "parse store")
  end.

(** *** evolution/lineage.rs *)

Definition append_to_file (entry : LineageEntry) : Run unit :=
  r ← get_state;
  match rt_lineage_path r with
  | None => mret tt
  | Some _ =>
      n ← tick;
      let file := rt_lineage_file r in
      let written := match append_io n with
        | NotAppended => file
        | Torn => {| lf_entries := lf_entries file; lf_torn := true |}
        | Appended =>
            if lf_torn file then {| lf_entries := lf_entries file; lf_torn := false |}
            else {| lf_entries := lf_entries file ++ [entry]; lf_torn := false |}
        end in
      modify (set_lineage (rt_lineage r) written)
  end.

Definition record (version : string) (parent_version : option string) (description : text) : Run unit :=
  now ← read_wall;
  let entry := {| le_version := version; le_parent_version := parent_version; le_description := description;
                  le_timestamp := now |} in
  append_to_file entry ;;
  modify (λ r, set_lineage (rt_lineage r ++ [entry]) (rt_lineage_file r) r).

(** *** evolution/migration.rs: [MigrationManager::migrate] *)

Definition migrated_version (candidate : RuntimeCandidate) : string :=
  pretty (lc_health_check_interval_secs (gn_lifecycle (rc_genome candidate)) / 100) +:+ "."
  +:+ pretty (count (rc_changes candidate)) +:+ "." +:+ "0".

Definition record_migration (candidate : RuntimeCandidate) : Run MigrationResult :=
  r ← get_state;
  let from_version := default "0.0.0" (rt_previous_version r) in
  let to_version := migrated_version candidate in
  let changes := display_N (count (rc_changes candidate)) in
  record to_version (Some from_version) (lit "Runtime migration: " ++ changes ++ lit " changes") ;;
  modify (set_previous to_version) ;;
  mret {| mg_success := true; mg_from_version := from_version; mg_to_version := to_version;
          mg_memories_migrated := 0; mg_identity_preserved := true;
          mg_message := lit "Migration successful. " ++ changes ++ lit " change(s) applied." |}.

(** *** evolution/sandbox_runner.rs: [run_tests_against] *)

(** A receipt that cannot be written is an error; the rename is the last step. *)
Definition write_receipt : Run unit :=
  r ← get_state;
  match rt_receipt_dir r with
  | None => mret tt
  | Some _ =>
      io ← read_io;
      match io with IoFailBeforeRename e => throw (lit e) | IoOk | IoFailAfterRename _ => mret tt end
  end.

Definition run_tests_against (candidate : RuntimeCandidate) (baseline : option Genome) : Run TestResult :=
  start ← read_mono;
  encoded_genome ← map_err (λ _, lit "serialize candidate genome") (encoded (genome_json (rc_genome candidate)));
  let outcome := foldl check ([], []) (cases (rc_genome candidate) baseline) in
  stop ← read_mono;
  let elapsed_ms := saturating_sub stop start in
  write_receipt ;;
  mret (test_result outcome elapsed_ms).

(** *** governance/runtime.rs *)

Definition read_genome_ : Run Genome :=
  r ← get_state;
  match rt_genome_path r with
  | Some path => genome ← load path; modify (set_cached genome) ;; mret genome
  | None =>
      match rt_current_genome r with
      | Some genome => mret genome
      | None => mret default_genome
      end
  end.

Definition save_if_configured (genome : Genome) : Run unit :=
  r ← get_state;
  match rt_genome_path r with Some path => atomic_save_genome path genome | None => mret tt end.

Definition generate_candidate_ (intent : MutationIntent) : Run RuntimeCandidate :=
  genome ← read_genome_;
  generate genome intent.

Definition sandbox_test_ (candidate : RuntimeCandidate) : Run TestResult :=
  baseline ← read_genome_;
  run_tests_against candidate (Some baseline).

Definition migrate_ (candidate : RuntimeCandidate) : Run MigrationResult :=
  current ← read_genome_;
  r ← get_state;
  save_snapshot (version_to_string (rt_version r)) current ;;
  result ← record_migration candidate;
  save_if_configured (rc_genome candidate) ;;
  record_current (mg_to_version result) (rc_genome candidate) ;;
  modify (set_cached (rc_genome candidate)) ;;
  mret result.

Definition rollback_ : Run unit :=
  genome ← roll_back_store;
  save_if_configured genome ;;
  modify (set_cached genome).

#[global] Instance runtime_ops : MetaRuntimeOps Runtime := {|
  read_genome := read_genome_;
  generate_candidate := generate_candidate_;
  sandbox_test := sandbox_test_;
  evaluate_candidate candidate test := mret (evaluate candidate test);
  migrate := migrate_;
  rollback := rollback_;
  current_version := rt_version;
|}.

(** [DefaultMetaRuntime::new(..).with_genome_path(..).with_work_dir(..)
    .with_lineage_path(..)] over the files a previous process left: a store that
    cannot be loaded panics. *)
Definition fresh (r : Runtime) (store : GenomeStore) : Runtime :=
  {| rt_version := rt_version r; rt_genome_path := rt_genome_path r; rt_receipt_dir := rt_receipt_dir r;
     rt_lineage_path := rt_lineage_path r; rt_store := store; rt_previous_version := None;
     rt_lineage := match rt_lineage_path r with Some _ => lf_entries (rt_lineage_file r) | None => [] end;
     rt_current_genome := None; rt_genome_file := rt_genome_file r;
     rt_store_file := rt_store_file r; rt_lineage_file := rt_lineage_file r |}.

Definition restart : Run unit :=
  r ← get_state;
  store ← try_ (match rt_genome_path r with Some _ => open_store (rt_store_file r) | None => mret default_store end);
  match store with
  | inl _ => panic
  | inr store => put_state (fresh r store)
  end.

End Runtime.

(** *** Migrations can be undone *)

Section Undo.
Context `{HE : Env} {HN : JsonNumbers} {HT : TextFormat} {HV : ValueText} {HU : UnicodeCase} {HF : MetaFiles}.

(** What the encodings promise.  JSON numbers are parsed with best effort, so a
    store that is read back has its texts, and its genomes as far as their numbers
    survive. *)
Class MetaFilesOk := {
  exact_json : Genome → Prop;
  yaml_roundtrip : ∀ g file, genome_yaml g = inr file → parse_genome_yaml file = inr g;
  store_texts : ∀ s file s', store_json s = inr file → parse_store file = inr s' →
    gs_current_version s' = gs_current_version s ∧ gs_current_digest s' = gs_current_digest s;
  store_roundtrip : ∀ s file,
    Forall (λ snapshot, exact_json (sn_genome snapshot)) (gs_snapshots s) →
    store_json s = inr file → parse_store file = inr s;
}.

Context {HFok : MetaFilesOk}.

(** The genome the file of the runtime holds. *)
Definition holds (r : Runtime) (g : Genome) : Prop :=
  match rt_genome_file r with None => g = default_genome | Some file => parse_genome_yaml file = inr g end.

Definition exact_store (s : GenomeStore) : Prop :=
  Forall (λ snapshot, exact_json (sn_genome snapshot)) (gs_snapshots s).

(** The last snapshot is of [g]. *)
Definition last_is (g : Genome) (s : GenomeStore) : Prop :=
  ∃ before version json, genome_json g = inr json
    ∧ gs_snapshots s = before ++ [{| sn_version := version; sn_digest := sha256_hex json; sn_genome := g |}].

(** The genome [g] can be put back; if the numbers are [exact], the file of the store
    has the snapshots too. *)
Definition undo_ready (exact : Prop) (g : Genome) (r : Runtime) : Prop :=
  is_Some (rt_genome_path r) ∧ last_is g (rt_store r)
  ∧ (exact → exact_store (rt_store r)
      ∧ ∃ file durable, rt_store_file r = Some file ∧ parse_store file = inr durable
                        ∧ gs_snapshots durable = gs_snapshots (rt_store r)).

(** The external world lets every access succeed. *)
Definition quiet : Prop :=
  (∀ n, persist_io n = IoOk) ∧ (∀ n, read_error n = None)
  ∧ (∀ g, ∃ file, genome_yaml g = inr file) ∧ (∀ s, ∃ file s', store_json s = inr file ∧ parse_store file = inr s')
  ∧ ∀ g, ∃ json, genome_json g = inr json.

Lemma wp_encoded {A} (result : text + A) Q (r : Runtime) n :
  (∀ a, result = inr a → Q (Ok a) r n) → (∀ e, result = inl e → Q (Err e) r n) → wp (encoded result) Q r n.
Proof. destruct result; cbn; auto. Qed.

Lemma wp_read_file file Q (r : Runtime) n :
  (read_error n = None → Q (Ok file) r (n + 1)) → (∀ e, read_error n = Some e → Q (Err e) r (n + 1)) →
  wp (read_file file) Q r n.
Proof. intros H1 H2. unfold read_file. wp_steps. destruct (read_error n); [by apply H2|by apply H1]. Qed.

(** Loading a held genome gives it, if it gives anything. *)
Lemma load_genome_spec path g r n :
  holds r g → wp (load path) (λ res r' _, r' = r ∧ res ≠ Panic ∧ (∀ g', res = Ok g' → g' = g)
                                          ∧ (quiet → res = Ok g)) r n.
Proof.
  intros Hg. unfold load, holds in *. wp_steps. destruct (rt_genome_file r) as [file|].
  2: { subst g. wp_steps. naive_solver. }
  wp_steps. apply wp_read_file; intros.
  - rewrite Hg. cbn. wp_steps. naive_solver.
  - split_and!; try done. intros (_ & Hq & _). by rewrite Hq in H.
Qed.

(** Saving a genome leaves the file alone or holding it. *)
Lemma save_spec path g r n :
  wp (atomic_save_genome path g)
    (λ res r' _, res ≠ Panic
       ∧ (r' = r ∨ ∃ file, genome_yaml g = inr file ∧ r' = set_genome_file file r)
       ∧ (res = Ok tt → ∃ file, genome_yaml g = inr file ∧ r' = set_genome_file file r)
       ∧ (quiet → res = Ok tt)) r n.
Proof.
  unfold atomic_save_genome. wp_steps. apply wp_encoded.
  2: { intros e He. split_and!; [done|by left|done|]. intros (_ & _ & Hq & _). destruct (Hq g). congruence. }
  intros file Hf. wp_steps. destruct (persist_io n) as [|e|e] eqn:Hio; wp_steps.
  2: { split_and!; [done|by left|done|]. intros [Hq _]. by rewrite Hq in Hio. }
  all: eapply wp_mono; [apply (load_genome_spec path g); by apply (yaml_roundtrip g file)|].
  all: intros res r' n' (-> & Hp & Hok & Hq).
  all: destruct res as [g'|e'|]; [|split_and!; eauto; intros Hqu; by specialize (Hq Hqu)|done].
  all: rewrite (Hok g') by done; wp_steps; apply wp_encoded; intros json Hj; cbn beta iota.
  all: try (split_and!; eauto; intros (_ & _ & _ & _ & Hq'); destruct (Hq' g); congruence).
  all: wp_steps; apply wp_encoded; intros json' Hj'; [|congruence].
  all: rewrite Hj in Hj'; simplify_eq; wp_steps; split_and!; eauto; by rewrite bool_decide_eq_true_2 in *.
Qed.

(** Persisting a store writes it or leaves the file alone. *)
Lemma persist_spec s r n :
  is_Some (rt_genome_path r) →
  wp (persist s)
    (λ res r' _, res ≠ Panic
       ∧ (r' = r ∨ ∃ file, (exact_store s → parse_store file = inr s) ∧ r' = set_store_file file r)
       ∧ (res = Ok tt → ∃ file, (exact_store s → parse_store file = inr s) ∧ r' = set_store_file file r)
       ∧ (quiet → res = Ok tt)) r n.
Proof.
  intros [path Hp]. unfold persist. wp_steps. rewrite Hp. wp_steps. apply wp_encoded.
  2: { intros e He. split_and!; [done|by left|done|]. intros (_ & _ & _ & Hq & _). destruct (Hq s) as (? & ? & ? & _). congruence. }
  intros file Hf. pose proof (store_roundtrip s file) as Hrt.
  wp_steps. destruct (persist_io n) as [|e|e] eqn:Hio; wp_steps.
  2: { split_and!; [done|by left|done|]. intros [Hq _]. by rewrite Hq in Hio. }
  2: { split_and!; [done|eauto|done|]. intros [Hq _]. by rewrite Hq in Hio. }
  apply wp_read_file; intros.
  2: { split_and!; eauto. intros (_ & Hq & _). by rewrite Hq in H. }
  wp_steps. apply wp_encoded; intros s' Hs'.
  - destruct (store_texts s file s' Hf Hs') as [Hv Hd]. wp_steps; split_and!; eauto.
    all: rewrite ?Hv, ?Hd in *; rewrite ?bool_decide_eq_true_2 in * by done; done.
  - split_and!; eauto. intros (_ & _ & _ & Hq & _). destruct (Hq s) as (? & ? & ? & ?). congruence.
Qed.

(** The parts of the runtime an undo depends on. *)
Definition same_files (r r' : Runtime) : Prop :=
  rt_genome_path r' = rt_genome_path r ∧ rt_store r' = rt_store r ∧ rt_genome_file r' = rt_genome_file r
  ∧ rt_store_file r' = rt_store_file r.

Lemma undo_ready_same exact g r r' :
  rt_genome_path r' = rt_genome_path r → rt_store r' = rt_store r → rt_store_file r' = rt_store_file r →
  undo_ready exact g r → undo_ready exact g r'.
Proof. unfold undo_ready. by intros -> -> ->. Qed.

Lemma digest_inr g d : digest g = inr d → ∃ json, genome_json g = inr json ∧ d = sha256_hex json.
Proof. unfold digest. destruct (genome_json g) as [|json]; [done|]. intros [= <-]. eauto. Qed.

Lemma save_snapshot_spec exact v g r n :
  is_Some (rt_genome_path r) → (exact → exact_store (rt_store r) ∧ exact_json g) →
  wp (save_snapshot v g)
    (λ res r' _, res ≠ Panic ∧ rt_genome_file r' = rt_genome_file r
       ∧ (res = Ok tt → undo_ready exact g r') ∧ (quiet → res = Ok tt)) r n.
Proof.
  intros Hp Hex. unfold save_snapshot. wp_steps. apply wp_encoded.
  2: { intros e He. split_and!; try done. intros (_ & _ & _ & _ & Hq). destruct (Hq g) as [json Hj].
       unfold digest in He. by rewrite Hj in He. }
  intros d (json & Hj & ->)%digest_inr. wp_steps. cbv zeta. wp_steps.
  set (store := {| gs_current_version := _; gs_snapshots := _ ++ _ |}).
  assert (exact → exact_store store) as Hst.
  { intros [Hs Hg]%Hex. apply Forall_app_2; [done|]. by apply Forall_singleton. }
  eapply wp_mono; [by apply persist_spec|]. intros res r' n' (? & Hr & Hok & Hq). split_and!; [done| | |done].
  - destruct Hr as [->|(file & _ & ->)]; done.
  - intros (file & Hf & ->)%Hok. split_and!; [done|by eexists _, _, _|]. intros He%Hst. split; [done|].
    exists file, store. auto.
Qed.

Lemma record_migration_spec candidate r n :
  wp (record_migration candidate)
    (λ res r' _, same_files r r' ∧ ∃ result, res = Ok result) r n.
Proof.
  unfold record_migration, record, append_to_file. wp_steps. cbv zeta. wp_steps. cbv zeta. wp_steps.
  destruct (rt_lineage_path r); wp_steps; cbv zeta; wp_steps; split; eauto; done.
Qed.

Lemma record_current_spec exact v g old r n :
  undo_ready exact old r →
  wp (record_current v g)
    (λ res r' _, res ≠ Panic ∧ rt_genome_file r' = rt_genome_file r ∧ undo_ready exact old r' ∧ (quiet → res = Ok tt)) r n.
Proof.
  intros Hu. pose proof Hu as (Hp & Hl & Hd). unfold record_current. wp_steps. apply wp_encoded.
  2: { intros e He. split_and!; try done. intros (_ & _ & _ & _ & Hq).
       destruct (Hq g) as [json Hj]. unfold digest in He. by rewrite Hj in He. }
  intros d Hg. wp_steps. cbv zeta. wp_steps. eapply wp_mono; [by apply persist_spec|].
  intros res r' n' (? & Hr & _ & Hq). split_and!; [done| | |done].
  - destruct Hr as [->|(? & _ & ->)]; done.
  - destruct Hr as [->|(file' & Hf' & ->)]; (split_and!; [done|done|]); intros He; destruct (Hd He) as [Hs Hfile];
      (split; [exact Hs|]); [exact Hfile|]. by eexists file', _; split_and!; [|apply Hf', Hs|].
Qed.

Lemma read_genome_spec g r n :
  is_Some (rt_genome_path r) → holds r g →
  wp read_genome_
    (λ res r' _, res ≠ Panic ∧ same_files r r' ∧ (∀ g', res = Ok g' → g' = g) ∧ (quiet → res = Ok g)) r n.
Proof.
  intros [path Hp] Hg. unfold read_genome_. wp_steps. rewrite Hp. wp_steps.
  eapply wp_mono; [by apply load_genome_spec|]. intros res r' n' (-> & Hnp & Hok & Hq). destruct res as [g'|e|]; wp_steps.
  - rewrite (Hok g') by done. split_and!; try done. intros ? [= <-]. done.
  - split_and!; done.
  - done.
Qed.

(** Whatever fails, a migration that changed the genome file left the candidate
    in it and a snapshot of the genome before. *)
Lemma migrate_spec exact candidate g r n :
  is_Some (rt_genome_path r) → (exact → exact_store (rt_store r) ∧ exact_json g) → holds r g →
  wp (migrate_ candidate)
    (λ res r' _, res ≠ Panic
       ∧ (rt_genome_file r' = rt_genome_file r ∨ holds r' (rc_genome candidate) ∧ undo_ready exact g r')
       ∧ ((∃ result, res = Ok result) → holds r' (rc_genome candidate) ∧ undo_ready exact g r')
       ∧ (quiet → ∃ result, res = Ok result)) r n.
Proof.
  intros Hp Hex Hg. unfold migrate_. wp_steps.
  eapply wp_mono; [by apply read_genome_spec|]. intros res r1 n1 (Hnp & (P1 & S1 & G1 & F1) & Hok & Hq).
  destruct res as [g'|e|]; [|split_and!; auto; [naive_solver|intros Hqu; by specialize (Hq Hqu)]|done].
  rewrite (Hok g' eq_refl). clear Hok. wp_steps.
  eapply wp_mono; [apply (save_snapshot_spec exact); [by rewrite P1|by rewrite S1]|].
  intros res r2 n2 (Hnp2 & G2 & Hu2 & Hq2).
  destruct res as [[]|e|]; [|split_and!; auto; [left; congruence|naive_solver|intros Hqu; by specialize (Hq2 Hqu)]|done].
  specialize (Hu2 eq_refl). wp_steps. eapply wp_mono; [apply record_migration_spec|].
  intros ? r3 n3 ((P3 & S3 & G3 & F3) & result & ->). apply (undo_ready_same exact g r2 r3) in Hu2; [|done..].
  wp_steps. unfold save_if_configured. wp_steps. destruct Hu2 as ([path Hpath] & Hu2). rewrite Hpath.
  eapply wp_mono; [apply save_spec|]. intros res r4 n4 (Hnp4 & Hr4 & Hok4 & Hq4).
  assert (∀ file, genome_yaml (rc_genome candidate) = inr file →
            holds (set_genome_file file r3) (rc_genome candidate) ∧ undo_ready exact g (set_genome_file file r3)) as Hset.
  { intros file Hf. split; [by apply (yaml_roundtrip _ file)|]. split; [by exists path|done]. }
  destruct res as [[]|e|]; [| |done].
  2: { split_and!; [done| |naive_solver|intros Hqu; by specialize (Hq4 Hqu)].
       destruct Hr4 as [->|(file & Hf & ->)]; [left; congruence|right; auto]. }
  destruct (Hok4 eq_refl) as (file & Hf & ->). destruct (Hset file Hf) as [Hh Hu]. wp_steps.
  eapply wp_mono; [by apply record_current_spec|]. intros res r5 n5 (Hnp5 & G5 & Hu5 & Hq5).
  assert (holds r5 (rc_genome candidate)) as Hh5 by (unfold holds in *; by rewrite G5).
  destruct res as [[]|e|]; [|split_and!; auto; naive_solver|done]. wp_steps. split_and!; eauto.
Qed.

Lemma restart_spec (exact : Prop) g r n :
  exact → undo_ready exact g r →
  wp restart (λ res r' _, rt_genome_file r' = rt_genome_file r
                ∧ (res = Ok tt → undo_ready exact g r') ∧ (quiet → res = Ok tt)) r n.
Proof.
  intros He ([path Hp] & Hl & Hdur). destruct (Hdur He) as (Hs & file & durable & Hf & Hd & Hsn). unfold restart, open_store. wp_steps. rewrite Hp, Hf.
  wp_steps. apply wp_read_file; intros.
  2: { wp_steps. split_and!; try done. intros (_ & Hq & _). by rewrite Hq in H. }
  rewrite Hd. cbn [with_context]. wp_steps. split_and!; try done. intros _. unfold undo_ready, exact_store, last_is in *.
  cbn. rewrite Hsn, Hp. split_and!; [by exists path|done|]. intros _. split; [done|]. by exists file, durable.
Qed.

Lemma pop_app {A} (l : list A) x : pop (l ++ [x]) = Some (l, x).
Proof. unfold pop. rewrite reverse_snoc. by rewrite reverse_involutive. Qed.

Lemma rollback_spec exact g r n :
  undo_ready exact g r →
  wp rollback_ (λ res r' _, res ≠ Panic ∧ (res = Ok tt → holds r' g) ∧ (quiet → res = Ok tt)) r n.
Proof.
  intros (Hp & (before & v & json & Hj & Hsn) & _). unfold rollback_, roll_back_store. wp_steps.
  all: match goal with Hpop : pop _ = _ |- _ => rewrite Hsn, pop_app in Hpop; simplify_eq end.
  wp_steps. cbn [sn_genome sn_digest]. unfold digest at 1. rewrite Hj.
  cbn [encoded]. wp_steps. cbv zeta. wp_steps.
  2: { by rewrite bool_decide_eq_true_2 in *. }
  eapply wp_mono; [by apply persist_spec|]. intros res r' n' (Hnp & Hr & _ & Hq).
  destruct res as [[]|e|]; [|by split_and!|done]. wp_steps. unfold save_if_configured. wp_steps.
  destruct Hp as [path Hp]. replace (rt_genome_path r') with (Some path) by (by destruct Hr as [->|(? & _ & ->)]).
  eapply wp_mono; [apply save_spec|]. intros res r'' n'' (Hnp' & _ & Hok & Hq').
  destruct res as [[]|e|]; [|by split_and!|done]. wp_steps. destruct (Hok eq_refl) as (file & Hf & ->).
  split_and!; try done. intros _. by apply (yaml_roundtrip _ file).
Qed.

(** C31. Migrations can be undone, with a genome path configured and whatever read,
    write or encoding fails.  A migration does not panic; one that returns has put
    the candidate in the genome file; one that fails has left the file alone or put
    the candidate in it.  Whenever the file has changed, a rollback by the same
    process that returns puts the genome back that was there before; and when
    nothing fails, the migration and the rollback return.  The genome is read from
    and written to a YAML file, which keeps it; nothing is assumed of the numbers in
    the JSON file of the snapshots. *)
Theorem migration_can_be_undone candidate g r n :
  is_Some (rt_genome_path r) → holds r g →
  wp (migrate_ candidate)
    (λ res r' n', res ≠ Panic ∧ ((∃ result, res = Ok result) → holds r' (rc_genome candidate))
       ∧ (quiet → ∃ result, res = Ok result)
       ∧ (rt_genome_file r' = rt_genome_file r
          ∨ holds r' (rc_genome candidate)
            ∧ wp rollback_ (λ res' r'' _, res' ≠ Panic ∧ (res' = Ok tt → holds r'' g) ∧ (quiet → res' = Ok tt)) r' n')) r n.
Proof.
  intros Hp Hg. eapply wp_mono; [by apply (migrate_spec False)|].
  intros res r' n' (Hnp & [?|[Hh Hu]] & Hok & Hq); (split_and!; [done|naive_solver|done|]); [by left|right].
  split; [done|]. by eapply rollback_spec.
Qed.

(** A rollback after any number of restarts. *)
Definition later_rollback (restarts : nat) : M Runtime text unit := Nat.iter restarts (λ m, restart ;; m) rollback_.

Lemma later_rollback_spec (exact : Prop) k g r n :
  exact → undo_ready exact g r →
  wp (later_rollback k) (λ res r' _, (res = Ok tt → holds r' g) ∧ (quiet → res = Ok tt)) r n.
Proof.
  intros He. revert r n. induction k as [|k IH]; intros r n Hu.
  { eapply wp_mono; [by eapply rollback_spec|]. naive_solver. }
  cbn. apply wp_bind. eapply wp_mono; [by apply (restart_spec exact)|]. intros res r' n' (_ & Hok & Hq).
  destruct res as [[]|e|]; [by apply IH, Hok|..]; (split; [done|]); intros Hqu; by specialize (Hq Hqu).
Qed.

(** When the numbers of the genomes survive their JSON text, the rollback may also be
    the work of a later process, as rollback.rs says of its snapshots. *)
Theorem migration_can_be_undone_after_restarts candidate g r n k :
  is_Some (rt_genome_path r) → exact_store (rt_store r) → exact_json g → holds r g →
  wp (migrate_ candidate)
    (λ res r' n', rt_genome_file r' = rt_genome_file r
       ∨ wp (later_rollback k) (λ res' r'' _, (res' = Ok tt → holds r'' g) ∧ (quiet → res' = Ok tt)) r' n') r n.
Proof.
  intros Hp Hs Hex Hg. eapply wp_mono; [by apply (migrate_spec True)|].
  intros res r' n' (_ & [?|[_ Hu]] & _); [by left|right]. by apply (later_rollback_spec True).
Qed.

End Undo.

End DefaultMetaRuntime.
