(* ===== verification/Governance.v ===== *)
(** * Governed mutations (metacog/src/governance/service.rs)

    [DefaultMetacogService] verifies a proposed mutation of the runtime, applies it
    under a permit and an approval, and rolls it back, over any implementation of
    [MetaRuntimeOps].  Its records are kept in memory and in a state file that is
    replaced as a whole.  One asynchronous mutex serialises the operations. *)
From S2P Require Import Prelude FabricTypes StdModel Fallible StdFloat Candidate StdText AuditLog ApprovalTypes Genome MetaRuntime.

#[local] Open Scope N_scope.

Module Governance.

(** ** Errors *)

Inductive RetryDisposition := Never | AfterBackoff.

Inductive MetacogError :=
| InvalidRequest (message : text)
| Unauthorized (message : text)
| Conflict (message : text)
| NotFound
| NotAdoptable (message : text)
| RuntimeFailed (stage : string) (message : text)
| ReconciliationRequired (message : text)
| PersistenceFailed (message : text).

Definition retry_disposition (e : MetacogError) : RetryDisposition :=
  match e with RuntimeFailed _ _ | PersistenceFailed _ => AfterBackoff | _ => Never end.

(** [message.chars().filter(|c| !c.is_control()).take(512).collect()] *)
Definition bounded_error (message : text) : text := take 512 (filter (λ c, Audit.is_control c = false) message).

Definition runtime_error (stage : string) (error : text) : MetacogError := RuntimeFailed stage (bounded_error error).

Definition persistence_error (error : text) : MetacogError := PersistenceFailed (bounded_error error).

(** ** Data *)

Inductive VerificationDecision := DecideAdopt | DecidePartialAdopt | DecideReject | DecideNeedsMoreTesting.

#[global] Instance VerificationDecision_eq_dec : EqDecision VerificationDecision.
Proof. solve_decision. Defined.

Record VerificationReceipt := {
  vr_mutation_id : Uuid;
  vr_candidate_id : Uuid;
  vr_base_version : string;
  vr_decision : VerificationDecision;
  vr_score : F64;
  vr_verification_hash : string;
  vr_verified_at_ms : Z;
}.

(** [PartialEq]: a score that is not a number equals nothing. *)
Definition verification_eqb (a b : VerificationReceipt) : bool :=
  (vr_mutation_id a =? vr_mutation_id b) && (vr_candidate_id a =? vr_candidate_id b)
  && bool_decide (vr_base_version a = vr_base_version b) && bool_decide (vr_decision a = vr_decision b)
  && SFeqb (vr_score a) (vr_score b) && bool_decide (vr_verification_hash a = vr_verification_hash b)
  && (vr_verified_at_ms a =? vr_verified_at_ms b)%Z.

Record GovernedMutationEvidence := { ge_permit : ExecutionPermit; ge_approval : ApprovalSnapshot }.

Record ApplyMutation := { am_verification : VerificationReceipt; am_evidence : GovernedMutationEvidence }.

Record RollbackMutation := {
  rm_mutation_id : Uuid;
  rm_applied_receipt_hash : string;
  rm_evidence : GovernedMutationEvidence;
}.

Inductive MutationOperation := OpApply | OpRollback.

Record MutationReceipt := {
  mr_mutation_id : Uuid;
  mr_operation : MutationOperation;
  mr_from_version : string;
  mr_to_version : string;
  mr_verification_hash : string;
  mr_permit_id : PermitId;
  mr_approval_id : ApprovalId;
  mr_receipt_hash : string;
  mr_recorded_at_ms : Z;
}.

Inductive MutationLifecycle := Verified | Rejected | Applying | Applied | RollbackInProgress | RolledBack.

#[global] Instance MutationLifecycle_eq_dec : EqDecision MutationLifecycle.
Proof. solve_decision. Defined.

Definition lifecycle_debug (l : MutationLifecycle) : text :=
  lit match l with
      | Verified => "Verified" | Rejected => "Rejected" | Applying => "Applying" | Applied => "Applied"
      | RollbackInProgress => "RollbackInProgress" | RolledBack => "RolledBack"
      end.

Definition STATE_SCHEMA_VERSION : N := 1.

Definition APPLY_CAPABILITY : string := "metacog.apply".

Definition ROLLBACK_CAPABILITY : string := "metacog.rollback".

Section Service.
Context `{HE : Env} {HN : JsonNumbers} {HT : TextFormat} {HV : ValueText} {HA : ApprovalDigest}.

Record VerifyMutation := { vm_mutation_id : Uuid; vm_intent : MutationIntent }.

Record StoredMutation := {
  st_request_hash : string;
  st_verification : VerificationReceipt;
  st_candidate : RuntimeCandidate;
  st_evaluation : Evaluation;
  st_lifecycle : MutationLifecycle;
  st_apply_receipt : option MutationReceipt;
  st_rollback_receipt : option MutationReceipt;
}.

Record MutationStatus := {
  ms_mutation_id : Uuid;
  ms_lifecycle : MutationLifecycle;
  ms_verification : VerificationReceipt;
  ms_receipt : option MutationReceipt;
}.

Definition status_of (m : StoredMutation) : MutationStatus := {|
  ms_mutation_id := vr_mutation_id (st_verification m);
  ms_lifecycle := st_lifecycle m;
  ms_verification := st_verification m;
  ms_receipt := match st_rollback_receipt m with Some r => Some r | None => st_apply_receipt m end;
|}.

Record MetacogStatus := { mc_current_version : string; mc_lineage : list MutationStatus }.

Record PersistedMutationState := { ps_schema_version : N; ps_mutations : list StoredMutation }.

Definition default_state : PersistedMutationState :=
  {| ps_schema_version := STATE_SCHEMA_VERSION; ps_mutations := [] |}.

Record VerificationHashMaterial := {
  vh_mutation_id : Uuid;
  vh_request_hash : string;
  vh_base_version : string;
  vh_candidate : RuntimeCandidate;
  vh_evaluation : Evaluation;
  vh_verified_at_ms : Z;
}.

Record ReceiptHashMaterial := {
  rh_mutation_id : Uuid;
  rh_operation : MutationOperation;
  rh_from_version : string;
  rh_to_version : string;
  rh_verification_hash : string;
  rh_permit_id : PermitId;
  rh_approval_id : ApprovalId;
  rh_recorded_at_ms : Z;
}.

(** [serde_json] on the records of this file, [Sha256], and reading the state
    file. *)
Class GovernanceCodec := {
  StateFile : Type;
  state_json : PersistedMutationState → text + StateFile;
  parse_state : StateFile → text + PersistedMutationState;
  request_json : VerifyMutation → text + text;
  verification_json : VerificationHashMaterial → text + text;
  receipt_json : ReceiptHashMaterial → text + text;
  sha256_text : text → string;
  state_read_error : N → option text;
}.

Context `{HC : GovernanceCodec} {R : Type} {HR : MetaRuntimeOps R}.

(** The service with its store, in memory and in the file ([sv_path] when there is
    one), and the runtime. *)
Record Service := {
  sv_path : bool;
  sv_mutations : list StoredMutation;
  sv_file : option StateFile;
  sv_runtime : R;
}.

Abbreviation Serve := (M Service MetacogError).

Definition set_mutations (mutations : list StoredMutation) (s : Service) : Service :=
  {| sv_path := sv_path s; sv_mutations := mutations; sv_file := sv_file s; sv_runtime := sv_runtime s |}.

Definition set_file (file : StateFile) (s : Service) : Service :=
  {| sv_path := sv_path s; sv_mutations := sv_mutations s; sv_file := Some file; sv_runtime := sv_runtime s |}.

Definition set_runtime (r : R) (s : Service) : Service :=
  {| sv_path := sv_path s; sv_mutations := sv_mutations s; sv_file := sv_file s; sv_runtime := r |}.

(** A call of the runtime whose error becomes one of the service. *)
Definition on_runtime {A} (f : text → MetacogError) (m : M R text A) : Serve A :=
  map_err f (zoom sv_runtime set_runtime m).

(** [let _ = self.runtime.rollback().await;] *)
Definition undo : Serve unit := ignore (on_runtime (runtime_error "rollback") rollback).

(** ** The store *)

Definition persist_ : Serve unit :=
  s ← get_state;
  if sv_path s then
    match state_json {| ps_schema_version := STATE_SCHEMA_VERSION; ps_mutations := sv_mutations s |} with
    | inl e => throw (persistence_error e)
    | inr bytes =>
        io ← read_io;
        match io with
        | IoFailBeforeRename e => throw (persistence_error (lit e))
        | IoOk | IoFailAfterRename _ => modify (set_file bytes)
        end
    end
  else mret tt.

Definition update_and_persist (index : nat) (update : StoredMutation → StoredMutation) : Serve unit :=
  s ← get_state;
  previous ← expect (sv_mutations s !! index);
  modify (set_mutations (<[index := update previous]> (sv_mutations s))) ;;
  r ← try_ persist_;
  match r with
  | inr _ => mret tt
  | inl e => modify (λ s, set_mutations (<[index := previous]> (sv_mutations s)) s) ;; throw e
  end.

(** [MutationStore::open], with [Path::exists] taken to see the file that is there
    (it is also false when the metadata cannot be read) and the directory there. *)
Definition open_state (file : option StateFile) : Serve (list StoredMutation) :=
  match file with
  | None => mret []
  | Some file =>
      n ← tick;
      match state_read_error n with
      | Some e => throw (persistence_error e)
      | None =>
          match parse_state file with
          | inl e => throw (persistence_error e)
          | inr state =>
              ensure (ps_schema_version state =? STATE_SCHEMA_VERSION)
                (PersistenceFailed (lit "unsupported mutation state schema " ++ display_N (ps_schema_version state))) ;;
              mret (ps_mutations state)
          end
      end
  end.

(** [with_state_path] over the file a previous process left *)
Definition open_service (runtime : R) : Serve unit :=
  s ← get_state;
  mutations ← open_state (sv_file s);
  put_state {| sv_path := true; sv_mutations := mutations; sv_file := sv_file s; sv_runtime := runtime |}.

(** ** Evidence *)

Definition stable_hash (json : text + text) : Serve string :=
  match json with inr bytes => mret (sha256_text bytes) | inl e => throw (persistence_error e) end.

Definition bound (attributes : gmap string string) (mutation_id : Uuid) (operation binding_name binding_value : string)
    : bool :=
  bool_decide (attributes !! "mutation_id" = Some (uuid_display mutation_id))
  && bool_decide (attributes !! "operation" = Some operation)
  && bool_decide (attributes !! binding_name = Some binding_value).

Definition active_approval (approval : ApprovalSnapshot) : bool :=
  bool_decide (ap_category approval = ApprovalCategory.DaseinModification)
  && (bool_decide (ap_status approval = ApprovalStatus.Approved)
      || bool_decide (ap_status approval = ApprovalStatus.Consumed)).

Definition no_permit : MetacogError := Unauthorized (lit "missing, expired or mismatched execution permit").

Definition no_approval : MetacogError := Unauthorized (lit "approval is not active for runtime mutation").

Definition expected_capability (operation : string) : Serve string :=
  if bool_decide (operation = "apply") then mret APPLY_CAPABILITY
  else if bool_decide (operation = "rollback") then mret ROLLBACK_CAPABILITY
  else throw (InvalidRequest (lit "unknown mutation operation")).

Definition validate_evidence (evidence : GovernedMutationEvidence) (mutation_id : Uuid)
    (operation binding_name binding_value : string) : Serve unit :=
  capability ← expected_capability operation;
  ensure (bool_decide (ep_capability (ge_permit evidence) = capability)) no_permit ;;
  now ← read_mono;
  ensure (permit_is_valid_at (ge_permit evidence) now) no_permit ;;
  (match Approval.validate (ge_approval evidence) with
   | Ok _ => mret tt
   | Err _ => throw (Unauthorized (lit "invalid approval snapshot"))
   | Panic => panic
   end) ;;
  ensure (active_approval (ge_approval evidence)) no_approval ;;
  now_ms ← read_wall;
  ensure (now_ms <? ap_expires_at_ms (ge_approval evidence))%Z no_approval ;;
  ensure (bound (sj_attributes (ap_subject (ge_approval evidence))) mutation_id operation binding_name binding_value)
    (Unauthorized (lit "approval subject is not bound to this mutation")).

Definition receipt_uses (permit_id : PermitId) (receipt : option MutationReceipt) : bool :=
  match receipt with Some r => mr_permit_id r =? permit_id | None => false end.

Definition ensure_unused_permit (permit_id : PermitId) : Serve unit :=
  s ← get_state;
  ensure (negb (existsb (λ m, receipt_uses permit_id (st_apply_receipt m)
                              || receipt_uses permit_id (st_rollback_receipt m)) (sv_mutations s)))
    (Unauthorized (lit "execution permit was already consumed")).

Definition mutation_receipt (mutation_id : Uuid) (operation : MutationOperation) (migration : MigrationResult)
    (verification_hash : string) (evidence : GovernedMutationEvidence) (recorded_at_ms : Z) : Serve MutationReceipt :=
  receipt_hash ← stable_hash (receipt_json
    {| rh_mutation_id := mutation_id; rh_operation := operation; rh_from_version := mg_from_version migration;
       rh_to_version := mg_to_version migration; rh_verification_hash := verification_hash;
       rh_permit_id := ep_id (ge_permit evidence); rh_approval_id := ap_id (ge_approval evidence);
       rh_recorded_at_ms := recorded_at_ms |});
  mret {| mr_mutation_id := mutation_id; mr_operation := operation; mr_from_version := mg_from_version migration;
          mr_to_version := mg_to_version migration; mr_verification_hash := verification_hash;
          mr_permit_id := ep_id (ge_permit evidence); mr_approval_id := ap_id (ge_approval evidence);
          mr_receipt_hash := receipt_hash; mr_recorded_at_ms := recorded_at_ms |}.

(** ** [verify] *)

Definition validate_verify_request (request : VerifyMutation) : Serve unit :=
  let intent := vm_intent request in
  ensure (negb ((vm_mutation_id request =? 0) || blank (mi_target intent) || blank (mi_reason intent)
                || (256 <? Audit.byte_len (mi_target intent)) || (4 * 1024 <? Audit.byte_len (mi_reason intent))))
    (InvalidRequest (lit "mutation id, target and bounded reason are required")).

Definition is_mutation (mutation_id : Uuid) (m : StoredMutation) : Prop :=
  vr_mutation_id (st_verification m) = mutation_id.

#[global] Instance is_mutation_dec mutation_id m : Decision (is_mutation mutation_id m).
Proof. unfold is_mutation. apply _. Defined.

(** [position(..)] and [find(..)] *)
Definition position (mutation_id : Uuid) (mutations : list StoredMutation) : option (nat * StoredMutation) :=
  list_find (is_mutation mutation_id) mutations.

Definition decision (recommendation : Recommendation) : VerificationDecision :=
  match recommendation with
  | Adopt => DecideAdopt
  | PartialAdopt _ => DecidePartialAdopt
  | Reject => DecideReject
  | NeedsMoreTesting => DecideNeedsMoreTesting
  end.

Definition adoptable (d : VerificationDecision) : bool :=
  match d with DecideAdopt | DecidePartialAdopt => true | DecideReject | DecideNeedsMoreTesting => false end.

(** A stage of the examination: on an error the runtime is rolled back. *)
Definition stage {A} (name : string) (m : M R text A) : Serve A :=
  r ← try_ (on_runtime (runtime_error name) m);
  match r with
  | inr a => mret a
  | inl e => undo ;; throw e
  end.

(** The candidate, tested in the sandbox and evaluated. *)
Definition tested (intent : MutationIntent) : Serve (RuntimeCandidate * TestResult) :=
  candidate ← on_runtime (runtime_error "candidate") (generate_candidate intent);
  test ← stage "sandbox" (sandbox_test candidate);
  (if negb (tr_passed test) || (0 <? tr_tests_failed test) then
     undo ;; throw (NotAdoptable (lit "sandbox verification did not pass"))
   else mret tt) ;;
  mret (candidate, test).

Definition examined (intent : MutationIntent) : Serve (RuntimeCandidate * Evaluation) :=
  r ← tested intent;
  let '(candidate, test) := r in
  evaluation ← stage "evaluation" (evaluate_candidate candidate test);
  mret (candidate, evaluation).

(** The mutation as it is stored; a rejected candidate is rolled back. *)
Definition judged (request : VerifyMutation) (request_hash base_version : string) (candidate : RuntimeCandidate)
    (evaluation : Evaluation) : Serve StoredMutation :=
  let decision := decision (ev_recommendation evaluation) in
  verified_at_ms ← read_wall;
  verification_hash ← stable_hash (verification_json
    {| vh_mutation_id := vm_mutation_id request; vh_request_hash := request_hash; vh_base_version := base_version;
       vh_candidate := candidate; vh_evaluation := evaluation; vh_verified_at_ms := verified_at_ms |});
  let verification :=
    {| vr_mutation_id := vm_mutation_id request; vr_candidate_id := rc_id candidate; vr_base_version := base_version;
       vr_decision := decision; vr_score := ev_score evaluation; vr_verification_hash := verification_hash;
       vr_verified_at_ms := verified_at_ms |} in
  lifecycle ← (if adoptable decision then mret Verified else undo ;; mret Rejected);
  mret {| st_request_hash := request_hash; st_verification := verification; st_candidate := candidate;
          st_evaluation := evaluation; st_lifecycle := lifecycle; st_apply_receipt := None;
          st_rollback_receipt := None |}.

Definition verify (request : VerifyMutation) : Serve VerificationReceipt :=
  validate_verify_request request ;;
  request_hash ← stable_hash (request_json request);
  s ← get_state;
  match position (vm_mutation_id request) (sv_mutations s) with
  | Some (_, existing) =>
      if bool_decide (st_request_hash existing = request_hash) then mret (st_verification existing)
      else throw (Conflict (lit "mutation id already identifies different input"))
  | None =>
      let base_version := version_to_string (current_version (sv_runtime s)) in
      r ← examined (vm_intent request);
      mutation ← judged request request_hash base_version r.1 r.2;
      modify (λ s, set_mutations (sv_mutations s ++ [mutation]) s) ;;
      persist_ ;;
      mret (st_verification mutation)
  end.

(** ** [apply] *)

Definition set_lifecycle (lifecycle : MutationLifecycle) (m : StoredMutation) : StoredMutation :=
  {| st_request_hash := st_request_hash m; st_verification := st_verification m; st_candidate := st_candidate m;
     st_evaluation := st_evaluation m; st_lifecycle := lifecycle; st_apply_receipt := st_apply_receipt m;
     st_rollback_receipt := st_rollback_receipt m |}.

Definition set_applied (receipt : MutationReceipt) (m : StoredMutation) : StoredMutation :=
  {| st_request_hash := st_request_hash m; st_verification := st_verification m; st_candidate := st_candidate m;
     st_evaluation := st_evaluation m; st_lifecycle := Applied; st_apply_receipt := Some receipt;
     st_rollback_receipt := st_rollback_receipt m |}.

Definition set_rolled_back (receipt : MutationReceipt) (m : StoredMutation) : StoredMutation :=
  {| st_request_hash := st_request_hash m; st_verification := st_verification m; st_candidate := st_candidate m;
     st_evaluation := st_evaluation m; st_lifecycle := RolledBack; st_apply_receipt := st_apply_receipt m;
     st_rollback_receipt := Some receipt |}.

Definition same_evidence (receipt : MutationReceipt) (evidence : GovernedMutationEvidence) : bool :=
  (mr_permit_id receipt =? ep_id (ge_permit evidence)) && (mr_approval_id receipt =? ap_id (ge_approval evidence)).

(** The checks under the store's lock: [Some] a receipt to repeat. *)
Definition apply_check (item : StoredMutation) (request : ApplyMutation) : Serve (option MutationReceipt) :=
  ensure (verification_eqb (st_verification item) (am_verification request))
    (Conflict (lit "verification receipt does not match durable state")) ;;
  match st_apply_receipt item with
  | Some receipt =>
      if same_evidence receipt (am_evidence request) then mret (Some receipt)
      else throw (Unauthorized (lit "idempotent apply evidence does not match the durable receipt"))
  | None =>
      ensure (bool_decide (st_lifecycle item ≠ Applying))
        (ReconciliationRequired (lit "a prior apply started without a durable terminal receipt")) ;;
      ensure (bool_decide (st_lifecycle item = Verified))
        (NotAdoptable (lit "mutation is in " ++ lifecycle_debug (st_lifecycle item) ++ lit " state")) ;;
      mret None
  end.

(** Everything before the runtime is called: a receipt to repeat, or the index
    and the candidate, recorded as being applied. *)
Definition apply_begin (request : ApplyMutation) : Serve (MutationReceipt + nat * RuntimeCandidate) :=
  s ← get_state;
  found ← ok_or (position (vr_mutation_id (am_verification request)) (sv_mutations s)) NotFound;
  let '(index, item) := found in
  repeated ← apply_check item request;
  match repeated with
  | Some receipt => mret (inl receipt)
  | None =>
      validate_evidence (am_evidence request) (vr_mutation_id (am_verification request)) "apply" "verification_hash"
        (vr_verification_hash (am_verification request)) ;;
      ensure_unused_permit (ep_id (ge_permit (am_evidence request))) ;;
      update_and_persist index (set_lifecycle Applying) ;;
      s ← get_state;
      item ← expect (sv_mutations s !! index);
      mret (inr (index, st_candidate item))
  end.

Definition apply_migrate (candidate : RuntimeCandidate) : Serve MigrationResult :=
  on_runtime (λ e, ReconciliationRequired (lit "apply runtime outcome is uncertain: " ++ bounded_error e))
    (migrate candidate).

Definition apply_finish (request : ApplyMutation) (index : nat) (migration : MigrationResult) : Serve MutationReceipt :=
  ensure (mg_success migration)
    (ReconciliationRequired (lit "runtime returned a non-successful migration after apply started")) ;;
  now_ms ← read_wall;
  receipt ← mutation_receipt (vr_mutation_id (am_verification request)) OpApply migration
    (vr_verification_hash (am_verification request)) (am_evidence request) now_ms;
  update_and_persist index (set_applied receipt) ;;
  mret receipt.

Definition apply (request : ApplyMutation) : Serve MutationReceipt :=
  begun ← apply_begin request;
  match begun with
  | inl receipt => mret receipt
  | inr (index, candidate) =>
      migration ← apply_migrate candidate;
      apply_finish request index migration
  end.

(** ** [rollback] *)

Definition rollback_check (item : StoredMutation) (request : RollbackMutation)
    : Serve (MutationReceipt + MutationReceipt) :=
  applied ← ok_or (st_apply_receipt item) (Conflict (lit "mutation has not been applied"));
  ensure (bool_decide (mr_receipt_hash applied = rm_applied_receipt_hash request))
    (Conflict (lit "applied receipt hash does not match durable state")) ;;
  match st_rollback_receipt item with
  | Some receipt =>
      if same_evidence receipt (rm_evidence request) then mret (inl receipt)
      else throw (Unauthorized (lit "idempotent rollback evidence does not match the durable receipt"))
  | None =>
      ensure (bool_decide (st_lifecycle item ≠ RollbackInProgress))
        (ReconciliationRequired (lit "a prior rollback started without a durable terminal receipt")) ;;
      mret (inr applied)
  end.

Definition rollback_begin (request : RollbackMutation) : Serve (MutationReceipt + nat * MutationReceipt) :=
  s ← get_state;
  found ← ok_or (position (rm_mutation_id request) (sv_mutations s)) NotFound;
  let '(index, item) := found in
  checked ← rollback_check item request;
  match checked with
  | inl receipt => mret (inl receipt)
  | inr applied =>
      validate_evidence (rm_evidence request) (rm_mutation_id request) "rollback" "applied_receipt_hash"
        (rm_applied_receipt_hash request) ;;
      ensure_unused_permit (ep_id (ge_permit (rm_evidence request))) ;;
      update_and_persist index (set_lifecycle RollbackInProgress) ;;
      mret (inr (index, applied))
  end.

Definition rollback_run : Serve unit :=
  on_runtime (λ e, ReconciliationRequired (lit "rollback runtime outcome is uncertain: " ++ bounded_error e)) rollback.

Definition rollback_finish (request : RollbackMutation) (index : nat) (applied : MutationReceipt)
    : Serve MutationReceipt :=
  now_ms ← read_wall;
  receipt ← mutation_receipt (rm_mutation_id request) OpRollback
    {| mg_success := true; mg_from_version := mr_to_version applied; mg_to_version := mr_from_version applied;
       mg_memories_migrated := 0; mg_identity_preserved := true; mg_message := lit "governed rollback completed" |}
    (mr_verification_hash applied) (rm_evidence request) now_ms;
  update_and_persist index (set_rolled_back receipt) ;;
  mret receipt.

Definition roll_back (request : RollbackMutation) : Serve MutationReceipt :=
  begun ← rollback_begin request;
  match begun with
  | inl receipt => mret receipt
  | inr (index, applied) => rollback_run ;; rollback_finish request index applied
  end.

(** ** [genome] and [status] *)

Definition genome : Serve Genome := on_runtime (runtime_error "read_genome") read_genome.

Definition status (s : Service) : MetacogStatus :=
  {| mc_current_version := version_to_string (current_version (sv_runtime s));
     mc_lineage := status_of <$> sv_mutations s |}.

End Service.

End Governance.
