(* ===== verification/GovernanceSpec.v ===== *)
(** * Governed mutations: what holds over calls, failures and crashes

    The calls of the runtime are made visible by wrapping it: [logged_ops] records
    the candidates it is asked to migrate to.  A step is a call that runs to its
    end, whatever it answers, or a call cut off between two of its effects and
    followed by a restart over the state file. *)
From S2P Require Import Prelude FabricTypes StdModel Fallible StdFloat Candidate StdText AuditLog ApprovalTypes Genome MetaRuntime Governance.
Import Governance.

#[local] Open Scope N_scope.

Module GovernanceSpec.

(** ** A runtime that records its migrations *)

Section Logged.
Context `{HN : JsonNumbers} {R : Type} {HR : MetaRuntimeOps R}.

Definition Logged : Type := R * list RuntimeCandidate.

Definition unlogged {A} (m : M R text A) : M Logged text A := zoom fst (λ r l, (r, l.2)) m.

Definition logged_migrate (candidate : RuntimeCandidate) : M Logged text MigrationResult :=
  modify (λ l, (l.1, l.2 ++ [candidate])) ;; unlogged (migrate candidate).

#[global] Instance logged_ops : MetaRuntimeOps Logged := {|
  read_genome := unlogged read_genome;
  generate_candidate intent := unlogged (generate_candidate intent);
  sandbox_test candidate := unlogged (sandbox_test candidate);
  evaluate_candidate candidate test := unlogged (evaluate_candidate candidate test);
  migrate := logged_migrate;
  rollback := unlogged rollback;
  current_version l := current_version l.1;
|}.

End Logged.

Section Steps.
Context `{HE : Env} {HN : JsonNumbers} {HA : ApprovalDigest} {HC : GovernanceCodec} {R : Type} {HR : MetaRuntimeOps R}.

Abbreviation World := (Service (R := Logged (R := R))).
Abbreviation Act := (M World MetacogError).

Definition log (s : World) : list RuntimeCandidate := (sv_runtime s).2.

(** ** Calls, and where they can be cut off *)

Inductive Call :=
| CallVerify (request : VerifyMutation)
| CallApply (request : ApplyMutation)
| CallRollback (request : RollbackMutation)
| CallGenome.

Definition run_call (c : Call) : Act unit :=
  match c with
  | CallVerify request => verify request ;; mret tt
  | CallApply request => apply request ;; mret tt
  | CallRollback request => roll_back request ;; mret tt
  | CallGenome => genome ;; mret tt
  end.

(** The beginning of [verify] up to the examination, of which [part] is run. *)
Definition verify_until (request : VerifyMutation) (part : string → Act unit) : Act unit :=
  validate_verify_request request ;;
  request_hash ← stable_hash (request_json request);
  s ← get_state;
  match position (vm_mutation_id request) (sv_mutations s) with
  | Some _ => mret tt
  | None => part request_hash
  end.

Definition cut_off (c : Call) : list (Act unit) :=
  mret tt ::
  match c with
  | CallVerify request =>
      let intent := vm_intent request in
      verify_until request <$>
        [λ _, on_runtime (runtime_error "candidate") (generate_candidate intent) ;; mret tt;
         λ _, candidate ← on_runtime (runtime_error "candidate") (generate_candidate intent);
              on_runtime (runtime_error "sandbox") (sandbox_test candidate) ;; mret tt;
         λ _, tested intent ;; mret tt;
         λ _, r ← tested intent; on_runtime (runtime_error "evaluation") (evaluate_candidate r.1 r.2) ;; mret tt;
         λ _, examined intent ;; mret tt;
         λ hash, s ← get_state;
                 r ← examined intent;
                 judged request hash (version_to_string (current_version (sv_runtime s))) r.1 r.2 ;; mret tt]
  | CallApply request =>
      [apply_begin request ;; mret tt;
       begun ← apply_begin request;
       match begun with inl _ => mret tt | inr (_, candidate) => apply_migrate candidate ;; mret tt end]
  | CallRollback request =>
      [rollback_begin request ;; mret tt;
       begun ← rollback_begin request;
       match begun with inl _ => mret tt | inr _ => rollback_run end]
  | CallGenome => [genome ;; mret tt]
  end.

(** A new process opens the state file; its runtime is any that has the same
    migrations behind it. *)
Inductive step : World * N → World * N → Prop :=
| step_call c s n r s' n' : run_call c s n = (r, s', n') → step (s, n) (s', n')
| step_crash c m s n r s1 n1 runtime s' n' :
    m ∈ cut_off c → m s n = (r, s1, n1) → runtime.2 = log s1 →
    open_service runtime s1 n1 = (Ok tt, s', n') → step (s, n) (s', n').

Definition boot (r : R) : World := {| sv_path := true; sv_mutations := []; sv_file := None; sv_runtime := (r, []) |}.

(** ** What survives the state file

    Numbers are read back with best effort, everything else exactly. *)

Record Essence := {
  es_request_hash : string;
  es_mutation_id : Uuid;
  es_candidate : Uuid;
  es_decision : VerificationDecision;
  es_verification_hash : string;
  es_lifecycle : MutationLifecycle;
  es_apply : option MutationReceipt;
  es_rollback : option MutationReceipt;
}.

Definition essence (m : StoredMutation) : Essence := {|
  es_request_hash := st_request_hash m;
  es_mutation_id := vr_mutation_id (st_verification m);
  es_candidate := rc_id (st_candidate m);
  es_decision := vr_decision (st_verification m);
  es_verification_hash := vr_verification_hash (st_verification m);
  es_lifecycle := st_lifecycle m;
  es_apply := st_apply_receipt m;
  es_rollback := st_rollback_receipt m;
|}.

Definition of_mutations (mutations : list StoredMutation) : PersistedMutationState :=
  {| ps_schema_version := STATE_SCHEMA_VERSION; ps_mutations := mutations |}.

Class GovernanceLaws : Prop :=
  state_essence : ∀ mutations file state,
    state_json (of_mutations mutations) = inr file → parse_state file = inr state →
    essence <$> ps_mutations state = essence <$> mutations.

(** What the file holds. *)
Definition durable (file : option StateFile) (d : list Essence) : Prop :=
  match file with
  | None => d = []
  | Some f => ∃ mutations, state_json (of_mutations mutations) = inr f ∧ d = essence <$> mutations
  end.

Definition started (l : MutationLifecycle) : bool :=
  match l with Verified | Rejected => false | _ => true end.

(** The mutation [e] stands for the migration to [c]. *)
Definition accounts_for (e : Essence) (c : RuntimeCandidate) : Prop :=
  started (es_lifecycle e) = true ∧ es_candidate e = rc_id c ∧ adoptable (es_decision e) = true.

Definition wf_essence (e : Essence) : Prop :=
  es_lifecycle e = Rejected ∧ es_apply e = None ∨ adoptable (es_decision e) = true.

(** The file [d], the memory [s], and the mutations [who] behind each migration. *)
Record Inv (who : list nat) (d : list Essence) (s : World) : Prop := {
  inv_path : sv_path s = true;
  inv_file : durable (sv_file s) d;
  inv_prefix : d `prefix_of` (essence <$> sv_mutations s);
  inv_tail : ∀ i e, (essence <$> sv_mutations s) !! i = Some e → (length d ≤ i)%nat → es_apply e = None;
  inv_ids : NoDup (es_mutation_id <$> (essence <$> sv_mutations s));
  inv_wf : Forall wf_essence (essence <$> sv_mutations s);
  inv_nodup : NoDup who;
  inv_log : Forall2 (λ i c, ∃ e, d !! i = Some e ∧ accounts_for e c) who (log s);
}.

(** A mutation keeps its identity, and a receipt once it has one. *)
Definition follows (e e' : Essence) : Prop :=
  es_mutation_id e' = es_mutation_id e ∧ es_candidate e' = es_candidate e ∧ es_decision e' = es_decision e
  ∧ es_verification_hash e' = es_verification_hash e
  ∧ (started (es_lifecycle e) = true → started (es_lifecycle e') = true)
  ∧ (∀ r, es_apply e = Some r → es_apply e' = Some r) ∧ (∀ r, es_rollback e = Some r → es_rollback e' = Some r).

Definition grows (d d' : list Essence) : Prop := ∀ i e, d !! i = Some e → ∃ e', d' !! i = Some e' ∧ follows e e'.

#[global] Instance follows_preorder : PreOrder follows.
Proof. unfold follows. split; [intros ?; naive_solver|intros ???; naive_solver congruence]. Qed.

#[global] Instance grows_preorder : PreOrder grows.
Proof.
  split.
  - intros d i e He. exists e. split; [done|reflexivity].
  - intros d1 d2 d3 H1 H2 i e He. destruct (H1 i e He) as (e2 & He2 & ?).
    destruct (H2 i e2 He2) as (e3 & He3 & ?). exists e3. split; [done|by etrans].
Qed.

Lemma grows_prefix d d' : d `prefix_of` d' → grows d d'.
Proof. intros Hp i e He. exists e. split; [by eapply prefix_lookup_Some|reflexivity]. Qed.

(** ** Actions that leave the records alone *)

Definition untouched (s s' : World) : Prop :=
  sv_path s' = sv_path s ∧ sv_mutations s' = sv_mutations s ∧ sv_file s' = sv_file s ∧ log s' = log s.

#[global] Instance untouched_preorder : PreOrder untouched.
Proof. unfold untouched. split; [done|intros ???; naive_solver congruence]. Qed.

Definition harmless {A} (m : Act A) : Prop := ∀ s n, wp m (λ _ s' _, untouched s s') s n.

Lemma harmless_ret {A} (a : A) : harmless (mret a).
Proof. intros s n. by apply wp_ret. Qed.

Lemma harmless_bind {A B} (m : Act A) (k : A → Act B) :
  harmless m → (∀ a, harmless (k a)) → harmless (m ≫= k).
Proof.
  intros Hm Hk s n. apply wp_bind. eapply wp_mono; [apply Hm|]. intros [a|e|] s' n' Hs; [|done..].
  eapply wp_mono; [apply Hk|]. intros. by etrans.
Qed.

Lemma harmless_get : harmless get_state.
Proof. intros s n. by apply wp_get. Qed.

Lemma harmless_throw {A} e : harmless (A := A) (throw e).
Proof. intros s n. by apply wp_throw. Qed.

Lemma harmless_panic {A} : harmless (A := A) panic.
Proof. intros s n. by apply wp_panic. Qed.

Lemma harmless_ensure b e : harmless (ensure b e).
Proof. intros s n. by apply wp_ensure. Qed.

Lemma harmless_ok_or {A} (o : option A) e : harmless (ok_or o e).
Proof. intros s n. by apply wp_ok_or. Qed.

Lemma harmless_wall : harmless read_wall.
Proof. intros s n. by apply wp_read_wall. Qed.

Lemma harmless_mono : harmless read_mono.
Proof. intros s n. by apply wp_read_mono. Qed.

Lemma harmless_try {A} (m : Act A) : harmless m → harmless (try_ m).
Proof. intros Hm s n. apply wp_try. eapply wp_mono; [apply Hm|]. by intros []. Qed.

Lemma harmless_ignore {A} (m : Act A) : harmless m → harmless (ignore m).
Proof. intros Hm s n. apply wp_ignore. eapply wp_mono; [apply Hm|]. by intros []. Qed.

(** The calls of the runtime other than [migrate] are not recorded. *)
Lemma harmless_runtime {A} f (m : M R text A) : harmless (on_runtime f (unlogged m)).
Proof.
  intros s n. unfold on_runtime. apply wp_map_err, wp_zoom. unfold unlogged. apply wp_zoom.
  unfold wp. destruct (m _ n) as [[[a|e|] r] n']; done.
Qed.

End Steps.

#[export] Hint Resolve harmless_ret harmless_get harmless_throw harmless_panic harmless_ensure harmless_ok_or
  harmless_wall harmless_mono harmless_runtime : aletheon.

(** Shows that an action made of harmless parts is harmless. *)
Ltac solve_harmless :=
  repeat first
    [ solve [auto with aletheon nocore]
    | apply harmless_bind; [|intros ?] | apply harmless_try | apply harmless_ignore | case_match ].

Section Harmless.
Context `{HE : Env} {HN : JsonNumbers} {HA : ApprovalDigest} {HC : GovernanceCodec} {R : Type} {HR : MetaRuntimeOps R}.

Abbreviation World := (Service (R := Logged (R := R))).
Abbreviation Act := (M World MetacogError).

Lemma harmless_undo : harmless (R := R) undo.
Proof. unfold undo. cbn [rollback logged_ops]. solve_harmless. Qed.
#[local] Hint Resolve harmless_undo : aletheon.

Lemma harmless_stage {A} name (m : M R text A) : harmless (stage name (unlogged m)).
Proof. unfold stage. solve_harmless. Qed.
#[local] Hint Resolve harmless_stage : aletheon.

Lemma harmless_tested intent : harmless (R := R) (tested intent).
Proof. unfold tested. cbn [generate_candidate sandbox_test logged_ops]. solve_harmless. Qed.
#[local] Hint Resolve harmless_tested : aletheon.

Lemma harmless_examined intent : harmless (R := R) (examined intent).
Proof. unfold examined. cbn [evaluate_candidate logged_ops]. solve_harmless. Qed.

Lemma harmless_hash json : harmless (R := R) (stable_hash json).
Proof. unfold stable_hash. solve_harmless. Qed.
#[local] Hint Resolve harmless_hash : aletheon.

Lemma harmless_judged request hash version candidate evaluation :
  harmless (R := R) (judged request hash version candidate evaluation).
Proof. unfold judged. cbv zeta. solve_harmless. Qed.

Lemma harmless_evidence evidence id op name value : harmless (R := R) (validate_evidence evidence id op name value).
Proof. unfold validate_evidence, expected_capability. solve_harmless. Qed.

Lemma harmless_permit id : harmless (R := R) (ensure_unused_permit id).
Proof. unfold ensure_unused_permit. solve_harmless. Qed.

Lemma harmless_apply_check item request : harmless (R := R) (apply_check item request).
Proof. unfold apply_check. solve_harmless. Qed.

Lemma harmless_rollback_check item request : harmless (R := R) (rollback_check item request).
Proof. unfold rollback_check. solve_harmless. Qed.

Lemma harmless_receipt id op migration hash evidence now :
  harmless (R := R) (mutation_receipt id op migration hash evidence now).
Proof. unfold mutation_receipt. solve_harmless. Qed.

Lemma harmless_rollback_run : harmless (R := R) rollback_run.
Proof. unfold rollback_run. cbn [rollback logged_ops]. solve_harmless. Qed.

Lemma harmless_validate request : harmless (R := R) (validate_verify_request request).
Proof. unfold validate_verify_request. cbv zeta. solve_harmless. Qed.

Lemma harmless_genome : harmless (R := R) genome.
Proof. unfold genome. cbn [read_genome logged_ops]. solve_harmless. Qed.

End Harmless.

#[export] Hint Resolve harmless_undo harmless_stage harmless_tested harmless_examined harmless_hash harmless_judged
  harmless_evidence harmless_permit harmless_apply_check harmless_rollback_check harmless_receipt harmless_rollback_run
  harmless_validate harmless_genome : aletheon.

Section Invariant.
Context `{HE : Env} {HN : JsonNumbers} {HA : ApprovalDigest} {HC : GovernanceCodec} {R : Type} {HR : MetaRuntimeOps R}.

Abbreviation World := (Service (R := Logged (R := R))).
Abbreviation Act := (M World MetacogError).
Implicit Types (s : World) (who : list nat) (d : list Essence).

(** ** The store *)

(** The memory and the file hold [mutations]. *)
Definition stored mutations (s : World) : World → Prop := λ s',
  ∃ file, state_json (of_mutations mutations) = inr file
    ∧ s' = {| sv_path := true; sv_mutations := mutations; sv_file := Some file; sv_runtime := sv_runtime s |}.

Lemma persist_stored s n :
  sv_path s = true →
  wp persist_ (λ res s' n', n ≤ n' ∧ (res = Ok tt ∧ stored (sv_mutations s) s s' ∨ (∃ e, res = Err e) ∧ s' = s)) s n.
Proof.
  intros Hp. unfold persist_. wp_steps. rewrite Hp.
  destruct (state_json _) as [e|file] eqn:Hj; wp_steps; [split; [lia|right; eauto]|].
  destruct (persist_io n); wp_steps; (split; [lia|]); [left|right; eauto|left].
  all: split; [done|]; exists file; split; [done|]; unfold set_file; by rewrite Hp.
Qed.

Lemma update_stored index update m s n :
  sv_path s = true → sv_mutations s !! index = Some m →
  wp (update_and_persist index update)
    (λ res s' n', n ≤ n' ∧ (res = Ok tt ∧ stored (<[index := update m]> (sv_mutations s)) s s'
                             ∨ (∃ e, res = Err e) ∧ s' = s)) s n.
Proof.
  intros Hp Hm. unfold update_and_persist. wp_steps. rewrite Hm. cbn [expect]. wp_steps.
  eapply wp_mono; [by apply persist_stored|].
  intros res s' n' [Hn [[-> Hs]|[[e ->] ->]]]; wp_steps; (split; [lia|]); [by left|]. right. split; [eauto|].
  destruct s as [p ms f r]. unfold set_mutations. cbn in *. by rewrite list_insert_insert_eq, list_insert_id.
Qed.

(** ** The invariant *)

Lemma inv_untouched who d s s' : Inv who d s → untouched s s' → Inv who d s'.
Proof. intros [] (Hp & Hm & Hf & Hl). split; by rewrite ?Hp, ?Hm, ?Hf, ?Hl. Qed.

Lemma inv_lookup who d s i e m :
  Inv who d s → d !! i = Some e → sv_mutations s !! i = Some m → e = essence m.
Proof.
  intros HI He Hm. eapply prefix_lookup_Some in He; [|apply HI].
  rewrite list_lookup_fmap, Hm in He. by simplify_eq/=.
Qed.

Lemma inv_wf_lookup who d s i m : Inv who d s → sv_mutations s !! i = Some m → wf_essence (essence m).
Proof.
  intros HI Hm. pose proof (inv_wf _ _ _ HI) as Hw. rewrite Forall_lookup in Hw. apply (Hw i).
  by rewrite list_lookup_fmap, Hm.
Qed.

(** A receipt is in the file. *)
Lemma inv_receipt who d s i m receipt :
  Inv who d s → sv_mutations s !! i = Some m → st_apply_receipt m = Some receipt → d !! i = Some (essence m).
Proof.
  intros HI Hm Hr. assert ((essence <$> sv_mutations s) !! i = Some (essence m)) as He by (by rewrite list_lookup_fmap, Hm).
  destruct (decide (length d ≤ i)%nat) as [Hle|Hlt].
  - pose proof (inv_tail _ _ _ HI i _ He Hle) as Hn. cbn in Hn. congruence.
  - destruct (lookup_lt_is_Some_2 d i) as [e Hd]; [lia|]. by rewrite Hd, (inv_lookup who d s i e m).
Qed.

(** A mutation that is not under way accounts for no migration. *)
Lemma inv_fresh who d s i m :
  Inv who d s → sv_mutations s !! i = Some m → started (st_lifecycle m) = false → i ∉ who.
Proof.
  intros HI Hm Hs Hin. apply list_elem_of_lookup in Hin as [k Hk].
  destruct (Forall2_lookup_l _ _ _ _ _ (inv_log _ _ _ HI) Hk) as (c & _ & e & He & Hst & _).
  rewrite (inv_lookup who d s i e m) in Hst by done. cbn in Hst. congruence.
Qed.

Lemma inv_log_grows who d d' (l : list RuntimeCandidate) :
  grows d d' →
  Forall2 (λ i c, ∃ e, d !! i = Some e ∧ accounts_for e c) who l →
  Forall2 (λ i c, ∃ e, d' !! i = Some e ∧ accounts_for e c) who l.
Proof.
  intros Hg Hl. eapply Forall2_impl; [exact Hl|]. intros i c (e & He & Hst & Hc & Hd). destruct (Hg i e He) as (e' & He' & F).
  destruct F as (_ & F2 & F3 & _ & F5 & _). exists e'. split; [done|]. unfold accounts_for. rewrite F2, F3. auto.
Qed.

(** Replacing one mutation, in memory and in the file. *)
Lemma inv_update who d s s' i m m' :
  Inv who d s → sv_mutations s !! i = Some m → follows (essence m) (essence m') →
  wf_essence (essence m') → stored (<[i := m']> (sv_mutations s)) s s' →
  Inv who (essence <$> sv_mutations s') s' ∧ grows d (essence <$> sv_mutations s').
Proof.
  intros HI Hm Hf Hwf (file & Hj & ->). cbn [sv_mutations].
  assert (grows (essence <$> sv_mutations s) (essence <$> <[i := m']> (sv_mutations s))) as Hg.
  { intros j e. rewrite !list_lookup_fmap. destruct (decide (i = j)) as [->|Hne].
    - rewrite Hm, list_lookup_insert_eq by (by eapply lookup_lt_Some). intros [= <-]. by eexists.
    - rewrite list_lookup_insert_ne by done. intros He. exists e. split; [done|reflexivity]. }
  assert (grows d (essence <$> <[i := m']> (sv_mutations s))) as Hg'.
  { etrans; [|exact Hg]. apply grows_prefix, HI. }
  split; [|done]. split; cbn; try done; try apply HI.
  - by exists (<[i := m']> (sv_mutations s)).
  - intros j e He Hj'. apply lookup_lt_Some in He. lia.
  - rewrite !list_fmap_insert. destruct Hf as (-> & _). rewrite list_insert_id; [apply HI|].
    by rewrite !list_lookup_fmap, Hm.
  - rewrite list_fmap_insert. apply Forall_insert; [apply HI|done].
  - eapply inv_log_grows; [exact Hg'|apply HI].
Qed.

(** Adding a mutation, in memory only or also in the file. *)
Lemma inv_push who d s m :
  Inv who d s → position (vr_mutation_id (st_verification m)) (sv_mutations s) = None → wf_essence (essence m) →
  st_apply_receipt m = None → Inv who d (set_mutations (sv_mutations s ++ [m]) s).
Proof.
  intros HI Hpos Hwf Hnone. split; cbn; try apply HI.
  - rewrite fmap_app. apply prefix_app_r, HI.
  - intros i e. rewrite fmap_app. intros [He|[_ He]]%lookup_app_Some; [by eapply HI|].
    apply list_lookup_singleton_Some in He as [_ <-]. done.
  - rewrite !fmap_app. apply NoDup_app. split_and!; [apply HI| |apply NoDup_singleton].
    intros id Hid ->%list_elem_of_singleton. apply list_find_None in Hpos. rewrite Forall_forall in Hpos.
    rewrite <-list_fmap_compose in Hid. apply list_elem_of_fmap in Hid as (m' & Heq & Hin). by eapply Hpos.
  - rewrite fmap_app. apply Forall_app_2; [apply HI|]. by apply Forall_singleton.
Qed.

Lemma inv_stored who d s s' :
  Inv who d s → stored (sv_mutations s) s s' →
  Inv who (essence <$> sv_mutations s') s' ∧ grows d (essence <$> sv_mutations s').
Proof.
  intros HI (file & Hj & ->). cbn. assert (grows d (essence <$> sv_mutations s)) as Hg by apply grows_prefix, HI.
  split; [|done]. split; cbn; try done; try apply HI; [by exists (sv_mutations s)| |].
  { intros j e He Hj'. apply lookup_lt_Some in He. lia. }
  eapply inv_log_grows; [exact Hg|apply HI].
Qed.

(** What every action leaves behind. *)
Definition kept who d s : Prop := ∃ who' d', who `prefix_of` who' ∧ Inv who' d' s ∧ grows d d'.

Lemma inv_kept who d s : Inv who d s → kept who d s.
Proof. intros HI. exists who, d. split_and!; [done|done|reflexivity]. Qed.

Lemma kept_untouched who d s s' : Inv who d s → untouched s s' → kept who d s'.
Proof. intros HI Hu. eapply inv_kept, inv_untouched; eauto. Qed.

Lemma kept_grows who d d' s : grows d d' → kept who d' s → kept who d s.
Proof. intros Hg (w & d2 & ? & ? & ?). exists w, d2. split_and!; [done|done|by etrans]. Qed.

Lemma harmless_kept {A} (m : Act A) who d s n :
  harmless m → Inv who d s → wp m (λ _ s' _, kept who d s') s n.
Proof. intros Hm HI. eapply wp_mono; [apply Hm|]. intros. by eapply kept_untouched. Qed.

(** A harmless action before another one. *)
Lemma wp_harmless {A B} (m : Act A) (k : A → Act B) (Q : Result MetacogError B → World → N → Prop) who d s n :
  harmless m → Inv who d s →
  (∀ a s' n', m s n = (Ok a, s', n') → untouched s s' → Inv who d s' → wp (k a) Q s' n') →
  (∀ e s' n', untouched s s' → Inv who d s' → Q (Err e) s' n') →
  (∀ s' n', untouched s s' → Inv who d s' → Q Panic s' n') →
  wp (m ≫= k) Q s n.
Proof.
  intros Hm HI Hok Herr Hpanic. apply wp_bind. pose proof (Hm s n) as Hu. unfold wp in *.
  destruct (m s n) as [[[a|e|] s'] n'] eqn:Heq; eauto using inv_untouched.
  - eapply Hok; eauto using inv_untouched.
Qed.

(** ** Evidence *)

(** The permit and the approval were valid at some moment of the call and the
    approval names the mutation, the operation and what is approved. *)
Definition evidence_ok (evidence : GovernedMutationEvidence) (capability : string) (mutation_id : Uuid)
    (operation name value : string) (n n' : N) : Prop :=
  ep_capability (ge_permit evidence) = capability
  ∧ (∃ t, n ≤ t < n' ∧ permit_is_valid_at (ge_permit evidence) (mono_now t) = true)
  ∧ Approval.validate (ge_approval evidence) = Ok tt
  ∧ active_approval (ge_approval evidence) = true
  ∧ (∃ t, n ≤ t < n' ∧ (wall_now t < ap_expires_at_ms (ge_approval evidence))%Z)
  ∧ bound (sj_attributes (ap_subject (ge_approval evidence))) mutation_id operation name value = true.

Lemma evidence_spec evidence capability id operation name value s n :
  (∀ s n, expected_capability operation s n = (Ok capability, s, n)) →
  wp (validate_evidence evidence id operation name value)
    (λ res s' n', s' = s ∧ n ≤ n' ∧ (res = Ok tt → evidence_ok evidence capability id operation name value n n')) s n.
Proof.
  intros Hcap. unfold validate_evidence. wp_step. unfold wp at 1. rewrite Hcap.
  wp_steps; try by (split_and!; [done|lia|done]).
  destruct (Approval.validate _) as [[]|e|] eqn:Hv; wp_steps; split_and!; try done; try lia.
  intros _. checks. split_and!; try done.
  - exists n. split; [lia|done].
  - exists (n + 1). split; [lia|]. by apply Z.ltb_lt.
Qed.

Lemma evidence_later evidence capability id operation name value n n1 n2 :
  evidence_ok evidence capability id operation name value n n1 → n1 ≤ n2 →
  evidence_ok evidence capability id operation name value n n2.
Proof. intros (? & (t & ? & ?) & ? & ? & (t' & ? & ?) & ?) Hn. split_and!; try done; [exists t|exists t']; split; done || lia. Qed.

Definition permit_unused (id : PermitId) s : Prop :=
  Forall (λ m, receipt_uses id (st_apply_receipt m) = false ∧ receipt_uses id (st_rollback_receipt m) = false)
    (sv_mutations s).

Lemma permit_spec id s n :
  wp (ensure_unused_permit id) (λ res s' n', s' = s ∧ n' = n ∧ (res = Ok tt → permit_unused id s)) s n.
Proof.
  unfold ensure_unused_permit. wp_steps; split_and!; try done. intros _. checks. unfold permit_unused.
  induction (sv_mutations s) as [|m l IH]; [done|]. cbn in *. rewrite !orb_false_iff in *. constructor; [tauto|].
  apply IH. tauto.
Qed.

(** What [apply] has established when it calls the runtime. *)
Definition authorized (request : ApplyMutation) (i : nat) (c : RuntimeCandidate) s (n n' : N) : Prop :=
  ∃ item, position (vr_mutation_id (am_verification request)) (sv_mutations s) = Some (i, item)
    ∧ st_candidate item = c ∧ st_lifecycle item = Verified ∧ st_apply_receipt item = None
    ∧ verification_eqb (st_verification item) (am_verification request) = true
    ∧ evidence_ok (am_evidence request) APPLY_CAPABILITY (vr_mutation_id (am_verification request)) "apply"
        "verification_hash" (vr_verification_hash (am_verification request)) n n'
    ∧ permit_unused (ep_id (ge_permit (am_evidence request))) s.

Lemma follows_lifecycle l m : started l = true → follows (essence m) (essence (set_lifecycle l m)).
Proof. intros Hl. unfold follows. cbn. naive_solver. Qed.

(** The mutation [id] has the durable receipt of its application. *)
Definition has_receipt (id : Uuid) (receipt : MutationReceipt) d : Prop :=
  ∃ i e, d !! i = Some e ∧ es_mutation_id e = id ∧ es_apply e = Some receipt.

Lemma has_receipt_grows id receipt d d' : grows d d' → has_receipt id receipt d → has_receipt id receipt d'.
Proof.
  intros Hg (i & e & He & Hid & Hr). destruct (Hg i e He) as (e' & He' & F1 & _ & _ & _ & _ & F6 & _).
  exists i, e'. split_and!; [done|congruence|auto].
Qed.

Lemma position_id id l i item : position id l = Some (i, item) → l !! i = Some item ∧ vr_mutation_id (st_verification item) = id.
Proof. intros (? & ? & _)%list_find_Some. done. Qed.

(** ** [apply] *)

Lemma apply_check_spec item request s n :
  wp (apply_check item request)
    (λ res s' n', s' = s ∧ n' = n
       ∧ (res = Ok None → verification_eqb (st_verification item) (am_verification request) = true
                          ∧ st_apply_receipt item = None ∧ st_lifecycle item = Verified)
       ∧ (∀ receipt, res = Ok (Some receipt) → st_apply_receipt item = Some receipt)) s n.
Proof.
  unfold apply_check. wp_steps; [|done]. destruct (st_apply_receipt item); [case_match; wp_steps; naive_solver|].
  wp_steps; split_and!; try done. intros _. by checks.
Qed.

Lemma apply_begin_spec request who d s n :
  Inv who d s →
  wp (apply_begin request)
    (λ res s' n',
       match res with
       | Ok (inr (i, c)) =>
           authorized request i c s n n' ∧ log s' = log s
           ∧ ∃ d' m, Inv who d' s' ∧ grows d d' ∧ i ∉ who ∧ d' !! i = Some (essence m) ∧ accounts_for (essence m) c
               ∧ sv_mutations s' !! i = Some m ∧ st_apply_receipt m = None
               ∧ vr_mutation_id (st_verification m) = vr_mutation_id (am_verification request)
       | Ok (inl receipt) => s' = s ∧ has_receipt (vr_mutation_id (am_verification request)) receipt d
       | _ => kept who d s' ∧ log s' = log s
       end) s n.
Proof.
  intros HI. unfold apply_begin. wp_steps; [|split; [by apply inv_kept|done]].
  match goal with Hpos : position _ _ = Some ?a |- _ => rename Hpos into Hfound; destruct a as [i item] end.
  wp_steps. eapply wp_mono; [apply apply_check_spec|]. intros res ? ? (-> & -> & Hck & Hrep).
  destruct res as [[receipt|]|e|]; wp_steps; try (split; [by apply inv_kept|done]).
  { split; [done|]. specialize (Hrep receipt eq_refl). apply position_id in Hfound as [Hi Hid].
    exists i, (essence item). split_and!; [by eapply inv_receipt|done|done]. }
  clear Hrep. destruct (Hck eq_refl) as (Hver & Happ & Hlc). clear Hck.
  eapply wp_mono; [by apply (evidence_spec _ APPLY_CAPABILITY)|]. intros res ? n1 (-> & Hn1 & Hev).
  destruct res as [[]|e|]; wp_steps; try (split; [by apply inv_kept|done]).
  eapply wp_mono; [apply permit_spec|]. intros res ? ? (-> & -> & Hper).
  destruct res as [[]|e|]; wp_steps; try (split; [by apply inv_kept|done]).
  apply list_find_Some in Hfound as Hf. destruct Hf as (Hi & _ & _).
  eapply wp_mono; [apply update_stored; [apply HI|exact Hi]|].
  intros res s' n2 [Hn2 [[-> Hst]|[[e ->] ->]]]; wp_steps; [|split; [by apply inv_kept|done]].
  pose proof (inv_wf_lookup who d s i item HI Hi) as Hw.
  assert (adoptable (vr_decision (st_verification item)) = true) as Hd by (destruct Hw as [[Hrej _]|?]; [cbn in Hrej; congruence|done]).
  destruct (inv_update who d s s' i item (set_lifecycle Applying item)) as [HI' Hg]; auto; [by apply follows_lifecycle|by right|].
  destruct Hst as (file & Hj & ->). cbn [sv_mutations] in *.
  assert (<[i := set_lifecycle Applying item]> (sv_mutations s) !! i = Some (set_lifecycle Applying item)) as Hat
    by (apply list_lookup_insert_eq; by eapply lookup_lt_Some).
  rewrite Hat. cbn [expect]. wp_steps. split; [|split; [done|]].
  - exists item. split_and!; try done; [|by apply Hper]. eapply evidence_later; [by apply Hev|done].
  - exists (essence <$> <[i := set_lifecycle Applying item]> (sv_mutations s)), (set_lifecycle Applying item).
    split_and!; [exact HI'|exact Hg| |by rewrite list_lookup_fmap, Hat|by split_and!|done|done|].
    2: by apply position_id in Hfound as [_ ?].
    eapply (inv_fresh who d s i item); [done|done|by rewrite Hlc].
Qed.

Lemma apply_migrate_spec candidate i e who d s n :
  Inv who d s → i ∉ who → d !! i = Some e → accounts_for e candidate →
  wp (apply_migrate candidate)
    (λ _ s' _, Inv (who ++ [i]) d s' ∧ sv_mutations s' = sv_mutations s ∧ log s' = log s ++ [candidate]) s n.
Proof.
  intros HI Hi He Hacc. unfold apply_migrate, on_runtime. cbn [migrate logged_ops]. unfold logged_migrate.
  apply wp_map_err, wp_zoom. wp_steps. unfold unlogged. apply wp_zoom. cbn [fst snd].
  assert (∀ r, Inv (who ++ [i]) d (set_runtime (r, log s ++ [candidate]) s)) as HI'.
  { intros r. split; cbn; try apply HI.
    - apply NoDup_app. split_and!; [apply HI| |apply NoDup_singleton]. by intros ? ? ->%list_elem_of_singleton.
    - apply Forall2_app; [apply HI|]. constructor; [|done]. eauto. }
  unfold wp. destruct (migrate candidate _ n) as [[[]]]; split_and!; try done; apply HI'.
Qed.

Lemma follows_applied receipt m :
  st_apply_receipt m = None → follows (essence m) (essence (set_applied receipt m)).
Proof. intros Hm. unfold follows. cbn. naive_solver. Qed.

Lemma apply_finish_spec request index migration m who d s n :
  Inv who d s → sv_mutations s !! index = Some m → st_apply_receipt m = None →
  adoptable (vr_decision (st_verification m)) = true →
  wp (apply_finish request index migration)
    (λ res s' _, log s' = log s ∧ ∃ d', Inv who d' s' ∧ grows d d'
       ∧ ∀ receipt, res = Ok receipt → d' !! index = Some (essence (set_applied receipt m))) s n.
Proof.
  intros HI Hm Hnone Hd. unfold apply_finish.
  assert (∀ s' , untouched s s' → Inv who d s' → ∀ res : Result MetacogError MutationReceipt,
            (∀ a, res ≠ Ok a) → log s' = log s ∧ ∃ d', Inv who d' s' ∧ grows d d'
              ∧ ∀ receipt, res = Ok receipt → d' !! index = Some (essence (set_applied receipt m))) as Hfail.
  { intros s' Hu HI' res Hres. split; [apply Hu|]. exists d. split_and!; [done|reflexivity|]. intros ? ->. by destruct (Hres receipt). }
  apply (wp_harmless _ _ _ who d); auto with aletheon; [|by intros; apply Hfail..].
  intros _ s1 n1 _ H1 I1. apply (wp_harmless _ _ _ who d); auto with aletheon; [|by intros; apply Hfail; [etrans|..]..].
  intros now s2 n2 _ H2 I2. apply (wp_harmless _ _ _ who d); auto with aletheon;
    [|by intros; apply Hfail; [etrans; [|etrans]|..]..].
  intros receipt s3 n3 _ H3 I3. assert (untouched s s3) as Hu by (by do 2 (etrans; [eassumption|])).
  apply wp_bind. eapply wp_mono; [apply update_stored; [apply I3|]|].
  { destruct Hu as (_ & -> & _). exact Hm. }
  intros res s' n' [_ [[-> Hst]|[[e ->] ->]]]; [|by apply Hfail]. apply wp_ret.
  destruct (inv_update who d s3 s' index m (set_applied receipt m)) as [HI' Hg]; auto.
  { destruct Hu as (_ & -> & _). exact Hm. }
  { by apply follows_applied. }
  { by right. }
  destruct Hst as (file & Hj & ->). split; [apply Hu|]. eexists. split_and!; [exact HI'|exact Hg|].
  intros ? [= <-]. cbn. rewrite list_lookup_fmap, list_lookup_insert_eq; [done|].
  destruct Hu as (_ & -> & _). by eapply lookup_lt_Some.
Qed.

Lemma wp_eqn {A} (m : Act A) Q s n : wp m Q s n → wp m (λ r s' n', m s n = (r, s', n') ∧ Q r s' n') s n.
Proof. unfold wp. by destruct (m s n) as [[r s'] n']. Qed.

(** How the log may change. *)
Definition logged_by (request : option ApplyMutation) s (n : N) s' : Prop :=
  log s' = log s
  ∨ ∃ q i c s1 n1, request = Some q ∧ apply_begin q s n = (Ok (inr (i, c)), s1, n1)
      ∧ log s' = log s ++ [c] ∧ authorized q i c s n n1.

(** What a call leaves behind. *)
Definition call_ok (request : option ApplyMutation) who d s (n : N) s' : Prop :=
  kept who d s' ∧ logged_by request s n s'.

Lemma apply_spec request who d s n :
  Inv who d s →
  wp (apply request)
    (λ res s' _, logged_by (Some request) s n s' ∧ ∃ who' d', who `prefix_of` who' ∧ Inv who' d' s' ∧ grows d d'
       ∧ ∀ receipt, res = Ok receipt → has_receipt (vr_mutation_id (am_verification request)) receipt d') s n.
Proof.
  intros HI. unfold apply. apply wp_bind. eapply wp_mono; [by apply wp_eqn, apply_begin_spec|].
  intros [[receipt|[i c]]|e|] s1 n1 [Hbegin H1]; [apply wp_ret| | |].
  - destruct H1 as (-> & Hr). split; [by left|]. exists who, d. split_and!; [done|done|reflexivity|]. by intros ? [= <-].
  - destruct H1 as (Hauth & Hlog & d1 & m & I1 & G1 & Hi & Hd1 & Hacc & Hm & Hnone & Hid).
    apply wp_bind. eapply wp_mono; [by apply (apply_migrate_spec c i (essence m) who d1)|]. intros res s2 n2 (I2 & Hm2 & Hlog2).
    assert (logged_by (Some request) s n s2) as Hl2.
    { right. exists request, i, c, s1, n1. split_and!; [done|done|by rewrite Hlog2, Hlog|done]. }
    assert (who `prefix_of` who ++ [i]) as Hw by by apply prefix_app_r.
    destruct res as [migration|e|]; [|split; [done|]; exists (who ++ [i]), d1; by split_and!..].
    eapply wp_mono; [apply (apply_finish_spec _ _ _ m); [done|by rewrite Hm2|done|by destruct Hacc as (_ & _ & ?)]|].
    intros res s3 n3 (Hlog3 & d3 & I3 & G3 & Hres). split.
    { destruct Hl2 as [Hl2|(q & i' & c' & s' & n' & ? & ? & Hl2 & ?)]; [left; congruence|right].
      exists q, i', c', s', n'. split_and!; [done|done|congruence|done]. }
    exists (who ++ [i]), d3. split_and!; [done|done|by etrans|]. intros receipt Hok. specialize (Hres receipt Hok).
    exists i, (essence (set_applied receipt m)). split_and!; done.
  - destruct H1 as [(w & d' & ? & ? & ?) Hl]. split; [by left|]. by exists w, d'.
  - destruct H1 as [(w & d' & ? & ? & ?) Hl]. split; [by left|]. by exists w, d'.
Qed.

(** ** [rollback] *)

Lemma rollback_check_spec item request s n :
  wp (rollback_check item request)
    (λ res s' n', s' = s ∧ n' = n ∧ ∀ applied, res = Ok (inr applied) →
       st_apply_receipt item = Some applied ∧ st_rollback_receipt item = None) s n.
Proof.
  unfold rollback_check. wp_steps; try done. destruct (st_rollback_receipt item); [case_match; wp_steps; done|].
  wp_steps; split_and!; try done. naive_solver.
Qed.

Lemma rollback_begin_spec request who d s n :
  Inv who d s →
  wp (rollback_begin request)
    (λ res s' _, log s' = log s ∧ ∃ d', Inv who d' s' ∧ grows d d'
       ∧ ∀ i applied, res = Ok (inr (i, applied)) → ∃ m, sv_mutations s' !! i = Some m ∧ st_rollback_receipt m = None
           ∧ adoptable (vr_decision (st_verification m)) = true) s n.
Proof.
  intros HI. unfold rollback_begin.
  assert (∀ res : Result MetacogError (MutationReceipt + nat * MutationReceipt), (∀ a, res ≠ Ok (inr a)) → log s = log s ∧ ∃ d', Inv who d' s ∧ grows d d'
       ∧ ∀ i applied, res = Ok (inr (i, applied)) → ∃ m, sv_mutations s !! i = Some m ∧ st_rollback_receipt m = None
           ∧ adoptable (vr_decision (st_verification m)) = true) as Hsame.
  { intros res Hres. split; [done|]. exists d. split_and!; [done|reflexivity|]. intros ?? ->. by edestruct Hres. }
  wp_steps; [|by apply Hsame].
  match goal with Hpos : position _ _ = Some ?a |- _ => destruct a as [i item]; apply position_id in Hpos as [Hi _] end.
  wp_steps. eapply wp_mono; [apply rollback_check_spec|]. intros res ? ? (-> & -> & Hck).
  destruct res as [[receipt|applied]|e|]; wp_steps; try by apply Hsame.
  destruct (Hck applied eq_refl) as [Happ Hroll]. clear Hck.
  eapply wp_mono; [by apply (evidence_spec _ ROLLBACK_CAPABILITY)|]. intros res ? n1 (-> & _ & _).
  destruct res as [[]|e|]; wp_steps; try by apply Hsame.
  eapply wp_mono; [apply permit_spec|]. intros res ? ? (-> & -> & _).
  destruct res as [[]|e|]; wp_steps; try by apply Hsame.
  eapply wp_mono; [apply update_stored; [apply HI|exact Hi]|].
  intros res s' n2 [_ [[-> Hst]|[[e ->] ->]]]; wp_steps; [|by apply Hsame].
  pose proof (inv_wf_lookup who d s i item HI Hi) as Hw.
  assert (adoptable (vr_decision (st_verification item)) = true) as Hd by (destruct Hw as [[_ Hrej]|?]; [cbn in Hrej; congruence|done]).
  destruct (inv_update who d s s' i item (set_lifecycle RollbackInProgress item)) as [HI' Hg]; auto;
    [by apply follows_lifecycle|by right|].
  split; [by destruct Hst as (? & _ & ->)|]. eexists. split_and!; [exact HI'|exact Hg|].
  intros ?? [= <- <-]. exists (set_lifecycle RollbackInProgress item). destruct Hst as (? & _ & ->). cbn.
  rewrite list_lookup_insert_eq by (by eapply lookup_lt_Some). done.
Qed.

Lemma rollback_finish_spec request index applied m who d s n :
  Inv who d s → sv_mutations s !! index = Some m → st_rollback_receipt m = None →
  adoptable (vr_decision (st_verification m)) = true →
  wp (rollback_finish request index applied) (λ _ s' _, log s' = log s ∧ ∃ d', Inv who d' s' ∧ grows d d') s n.
Proof.
  intros HI Hm Hnone Hd. unfold rollback_finish.
  assert (∀ s', untouched s s' → Inv who d s' → log s' = log s ∧ ∃ d', Inv who d' s' ∧ grows d d') as Hfail.
  { intros s' Hu HI'. split; [apply Hu|]. exists d. split; [done|reflexivity]. }
  apply (wp_harmless _ _ _ who d); auto with aletheon. intros now s1 n1 _ H1 I1.
  apply (wp_harmless _ _ _ who d); auto with aletheon; [|by intros; apply Hfail; [etrans|]..].
  intros receipt s2 n2 _ H2 I2. assert (untouched s s2) as Hu by by etrans.
  apply wp_bind. eapply wp_mono; [apply update_stored; [apply I2|]|].
  { destruct Hu as (_ & -> & _). exact Hm. }
  intros res s' n' [_ [[-> Hst]|[[e ->] ->]]]; [|by apply Hfail]. apply wp_ret.
  destruct (inv_update who d s2 s' index m (set_rolled_back receipt m)) as [HI' Hg]; auto.
  { destruct Hu as (_ & -> & _). exact Hm. }
  { unfold follows. cbn. naive_solver. }
  { by right. }
  destruct Hst as (file & Hj & ->). split; [apply Hu|]. eexists. split; [exact HI'|exact Hg].
Qed.

Lemma rollback_spec_ request who d s n :
  Inv who d s → wp (roll_back request) (λ _ s' _, call_ok None who d s n s') s n.
Proof.
  intros HI. unfold roll_back. apply wp_bind. eapply wp_mono; [by apply rollback_begin_spec|].
  intros res s1 n1 (Hl & d1 & I1 & G1 & Hres).
  assert (∀ s2, untouched s1 s2 → call_ok None who d s n s2) as Hu.
  { intros s2 Hu. split; [|left; destruct Hu as (_ & _ & _ & ->); done]. exists who, d1. split_and!; [done| |done].
    by eapply inv_untouched. }
  destruct res as [[receipt|[i applied]]|e|]; try by apply Hu. destruct (Hres i applied eq_refl) as (m & Hm & Hn & Hd).
  apply (wp_harmless _ _ _ who d1); auto with aletheon. intros _ s2 n2 _ U2 I2.
  eapply wp_mono; [apply (rollback_finish_spec _ _ _ m who d1); try done; destruct U2 as (_ & -> & _); done|].
  intros _ s3 n3 (Hl3 & d3 & I3 & G3). split; [exists who, d3; split_and!; [done|done|by etrans]|left].
  destruct U2 as (_ & _ & _ & Hl2). congruence.
Qed.

(** ** [verify] *)

Lemma judged_spec request hash version candidate evaluation s n :
  wp (judged request hash version candidate evaluation)
    (λ res s' _, untouched s s' ∧ ∀ m, res = Ok m →
       vr_mutation_id (st_verification m) = vm_mutation_id request ∧ wf_essence (essence m)
       ∧ st_apply_receipt m = None) s n.
Proof.
  assert (wp (judged (R := Logged (R := R)) request hash version candidate evaluation)
    (λ res s' _, ∀ m, res = Ok m → vr_mutation_id (st_verification m) = vm_mutation_id request
       ∧ wf_essence (essence m) ∧ st_apply_receipt m = None) s n) as Hm.
  2: { pose proof (harmless_judged request hash version candidate evaluation s n) as Hu. unfold wp in *.
       destruct (judged _ _ _ _ _ _ _) as [[res s'] n']. auto. }
  unfold judged. cbv zeta. wp_steps. unfold stable_hash. destruct (verification_json _); wp_steps; [done|].
  destruct (adoptable _) eqn:Had; wp_steps.
  { match goal with Heq : Ok _ = Ok _ |- _ => injection Heq as <- end. split_and!; [done|by right|done]. }
  unfold undo. wp_steps. unfold wp. destruct (on_runtime _ _ _ _) as [[[]]]; try done; cbn;
    intros m [= <-]; (split_and!; [done|by left|done]).
Qed.

Lemma verify_spec request who d s n :
  Inv who d s → wp (verify request) (λ _ s' _, call_ok None who d s n s') s n.
Proof.
  intros HI. unfold verify.
  assert (∀ s2, untouched s s2 → call_ok None who d s n s2) as Hu.
  { intros s2 Hu. split; [by eapply kept_untouched|left; apply Hu]. }
  apply (wp_harmless _ _ _ who d); auto with aletheon. intros _ s1 n1 _ U1 I1.
  apply (wp_harmless _ _ _ who d); auto with aletheon; [|by intros; apply Hu; etrans..].
  intros hash s2 n2 _ U2 I2. assert (untouched s s2) as U by by etrans. apply wp_bind, wp_get.
  destruct (position _ _) as [[i existing]|] eqn:Hpos; [case_match; [by apply wp_ret, Hu|by apply wp_throw, Hu]|].
  cbv zeta. apply (wp_harmless _ _ _ who d); auto with aletheon; [|by intros; apply Hu; etrans..].
  intros r s3 n3 _ U3 I3. apply wp_bind. eapply wp_mono; [apply judged_spec|]. intros res s4 n4 [U4 Hm].
  assert (untouched s s4) as U' by by (etrans; [exact U|etrans]).
  destruct res as [m|e|]; [|by apply Hu..]. destruct (Hm m eq_refl) as (Hid & Hwf & Hnone).
  assert (Inv who d (set_mutations (sv_mutations s4 ++ [m]) s4)) as I4.
  { apply inv_push; try done; [by eapply inv_untouched|]. destruct U' as (_ & -> & _), U as (_ & HU & _).
    by rewrite Hid, <-HU. }
  apply wp_bind, wp_modify, wp_bind. eapply wp_mono; [by apply persist_stored; apply I4|].
  intros res s5 n5 [_ [[-> Hst]|[[e ->] ->]]].
  - apply wp_ret. destruct (inv_stored _ _ _ _ I4 Hst) as [I5 G5].
    split; [eexists who, _; split_and!; [done|exact I5|exact G5]|]. destruct Hst as (? & _ & ->). left. apply U'.
  - split; [by apply inv_kept|left; apply U'].
Qed.

(** ** Steps *)

Definition request_of (c : Call) : option ApplyMutation := match c with CallApply q => Some q | _ => None end.

Lemma call_harmless {A} request (m : Act A) who d s n :
  harmless m → Inv who d s → wp m (λ _ s' _, call_ok request who d s n s') s n.
Proof.
  intros Hm HI. eapply wp_mono; [apply Hm|]. intros ? s' ? Hu. split; [by eapply kept_untouched|left; apply Hu].
Qed.

Lemma wp_end {A} (m : Act A) (P : World → Prop) s n :
  wp m (λ _ s' _, P s') s n → wp (m ;; mret tt) (λ _ s' _, P s') s n.
Proof. intros Hm. apply wp_bind. eapply wp_mono; [apply Hm|]. by intros []. Qed.

Lemma run_call_spec c who d s n :
  Inv who d s → wp (run_call c) (λ _ s' _, call_ok (request_of c) who d s n s') s n.
Proof.
  intros HI. destruct c as [q|q|q|]; apply wp_end; cbn [request_of].
  - by apply verify_spec.
  - eapply wp_mono; [by apply apply_spec|]. intros ? s' ? (Hl & w & d' & ? & ? & ? & _). split; [by exists w, d'|done].
  - by apply rollback_spec_.
  - apply call_harmless; auto with aletheon.
Qed.

Lemma verify_until_harmless request (part : string → Act unit) :
  (∀ hash, harmless (part hash)) → harmless (verify_until request part).
Proof. intros Hp. unfold verify_until. solve_harmless. Qed.

Lemma apply_cut_spec request (k : RuntimeCandidate → Act unit) who d s n :
  Inv who d s →
  (∀ i c m d1 s1 n1, Inv who d1 s1 → grows d d1 → i ∉ who → d1 !! i = Some (essence m) → accounts_for (essence m) c →
     apply_begin request s n = (Ok (inr (i, c)), s1, n1) → authorized request i c s n n1 → log s1 = log s →
     wp (k c) (λ _ s' _, call_ok (Some request) who d s n s') s1 n1) →
  wp (begun ← apply_begin request; match begun with inl _ => mret tt | inr (_, c) => k c end)
    (λ _ s' _, call_ok (Some request) who d s n s') s n.
Proof.
  intros HI Hk. apply wp_bind. eapply wp_mono; [by apply wp_eqn, apply_begin_spec|].
  intros [[receipt|[i c]]|e|] s1 n1 [Hbegin H1]; [apply wp_ret| | |].
  - destruct H1 as [-> _]. split; [by apply inv_kept|by left].
  - destruct H1 as (? & ? & d1 & m & ? & ? & ? & ? & ? & _). by eapply Hk.
  - destruct H1. split; [done|by left].
  - destruct H1. split; [done|by left].
Qed.

Lemma cut_off_spec c m who d s n :
  m ∈ cut_off c → Inv who d s → wp m (λ _ s' _, call_ok (request_of c) who d s n s') s n.
Proof.
  intros Hm HI. revert m Hm. apply Forall_forall. unfold cut_off. constructor; [apply call_harmless; auto with aletheon|].
  destruct c as [q|q|q|]; cbn [request_of].
  - cbv zeta. apply Forall_fmap. unfold compose. repeat (apply Forall_cons; split); [..|apply Forall_nil; done].
    all: apply call_harmless; [apply verify_until_harmless; intros hash|done].
    all: cbn [generate_candidate sandbox_test evaluate_candidate logged_ops]; solve_harmless.
  - repeat (apply Forall_cons; split); [| |by apply Forall_nil].
    + apply wp_end. eapply wp_mono; [by apply apply_begin_spec|].
      intros [[receipt|[i c]]|e|] s1 n1 H1.
      * destruct H1 as [-> _]. split; [by apply inv_kept|by left].
      * destruct H1 as (_ & Hl & d1 & m & ? & ? & _). split; [by exists who, d1|by left].
      * destruct H1. split; [done|by left].
      * destruct H1. split; [done|by left].
    + apply (apply_cut_spec q (λ c, apply_migrate c ;; mret tt)); [done|].
      intros i c m d1 s1 n1 I1 G1 Hi Hd1 Hacc Hbegin Hauth Hl. apply wp_end.
      eapply wp_mono; [by apply (apply_migrate_spec c i (essence m) who d1)|]. intros ? s2 ? (I2 & _ & Hl2).
      split; [exists (who ++ [i]), d1; split_and!; [by apply prefix_app_r|done|done]|right].
      exists q, i, c, s1, n1. split_and!; [done|done|congruence|done].
  - repeat (apply Forall_cons; split); [| |by apply Forall_nil].
    + apply wp_end. eapply wp_mono; [by apply rollback_begin_spec|].
      intros res s1 n1 (Hl & d1 & I1 & G1 & _). split; [by exists who, d1|by left].
    + apply wp_bind. eapply wp_mono; [by apply rollback_begin_spec|].
      intros res s1 n1 (Hl & d1 & I1 & G1 & _).
      assert (call_ok None who d s n s1) as Hok by (split; [by exists who, d1|by left]).
      destruct res as [[receipt|[i applied]]|e|]; [done| |done..].
      eapply wp_mono; [apply harmless_rollback_run|]. intros ? s2 ? Hu. split.
      * exists who, d1. split_and!; [done|by eapply inv_untouched|done].
      * left. destruct Hu as (_ & _ & _ & ->). done.
  - repeat (apply Forall_cons; split); [|by apply Forall_nil]. apply wp_end, call_harmless; auto with aletheon.
Qed.

Context {HL : GovernanceLaws}.

Lemma open_service_spec runtime who d s n s' n' :
  Inv who d s → runtime.2 = log s → open_service runtime s n = (Ok tt, s', n') → Inv who d s' ∧ log s' = log s.
Proof.
  intros HI Hr Hopen.
  enough (wp (open_service runtime) (λ res s' _, res = Ok tt → Inv who d s' ∧ log s' = log s) s n) as Hw
    by (unfold wp in Hw; rewrite Hopen in Hw; auto).
  unfold open_service, open_state. wp_steps.
  assert (∀ mutations, essence <$> mutations = d →
    Inv who d {| sv_path := true; sv_mutations := mutations; sv_file := sv_file s; sv_runtime := runtime |}) as Hnew.
  { intros mutations Hd. pose proof (inv_prefix _ _ _ HI) as [rest Hpre]. pose proof (inv_ids _ _ _ HI) as Hids.
    pose proof (inv_wf _ _ _ HI) as Hwf. rewrite Hpre in Hids, Hwf. rewrite fmap_app in Hids.
    split; cbn; try done; try apply HI; rewrite ?Hd; try done.
    - intros i e He Hi. apply lookup_lt_Some in He. lia.
    - by apply NoDup_app in Hids as (? & _ & _).
    - by apply Forall_app in Hwf as [? _].
    - unfold log. cbn. rewrite Hr. apply HI. }
  pose proof (inv_file _ _ _ HI) as Hf. destruct s as [p ms [file|] rt]; cbn [sv_file] in *.
  - destruct Hf as (mutations & Hj & ->). wp_steps. destruct (state_read_error n); [by wp_steps|].
    destruct (parse_state file) as [e|state] eqn:Hp; [by wp_steps|]. wp_steps; [|done].
    split; [|exact Hr]. apply Hnew. by eapply state_essence.
  - cbn in Hf. subst d. wp_steps. split; [|exact Hr]. by apply Hnew.
Qed.

(** A step and the call it makes, in full or cut off. *)
Inductive step_of : Call → World * N → World * N → Prop :=
| step_of_call c s n r s' n' : run_call c s n = (r, s', n') → step_of c (s, n) (s', n')
| step_of_crash c m s n r s1 n1 runtime s' n' :
    m ∈ cut_off c → m s n = (r, s1, n1) → runtime.2 = log s1 →
    open_service runtime s1 n1 = (Ok tt, s', n') → step_of c (s, n) (s', n').

Lemma step_has_call x y : step x y → ∃ c, step_of c x y.
Proof. intros [c s n r s' n' Hrun|c m s n r s1 n1 runtime s' n' Hm Hrun Hr Hopen]; exists c; by econstructor. Qed.

Lemma step_spec c x y who d :
  step_of c x y → Inv who d x.1 → kept who d y.1 ∧ logged_by (request_of c) x.1 x.2 y.1.
Proof.
  intros [c0 s n r s' n' Hrun|c0 m s n r s1 n1 runtime s' n' Hm Hrun Hr Hopen] HI; cbn [fst snd] in *.
  - pose proof (run_call_spec c0 who d s n HI) as Hw. unfold wp in Hw. rewrite Hrun in Hw. destruct Hw. eauto.
  - pose proof (cut_off_spec c0 m who d s n Hm HI) as Hw. unfold wp in Hw. rewrite Hrun in Hw.
    destruct Hw as [(w & d1 & Hpre & I1 & G1) Hl].
    destruct (open_service_spec runtime w d1 s1 n1 s' n' I1 Hr Hopen) as [I2 Hl2].
    split; [by exists w, d1|]. unfold logged_by in *. by rewrite Hl2.
Qed.

Lemma steps_spec x y who d : rtc step x y → Inv who d x.1 → kept who d y.1.
Proof.
  intros Hs. revert who d. induction Hs as [x|x y z Hxy Hyz IH]; intros who d HI; [by apply inv_kept|].
  destruct (step_has_call x y Hxy) as [c Hc]. destruct (step_spec c x y who d Hc HI) as [(w & d1 & Hpre & I1 & G1) _].
  destruct (IH w d1 I1) as (w2 & d2 & ? & ? & ?). exists w2, d2. split_and!; [by etrans|done|by etrans].
Qed.

Lemma boot_world_inv (r : R) : Inv [] [] (boot r).
Proof. split; try done; cbn; try constructor. Qed.

(** C10. Each mutation is migrated once.  Over every run of calls, failures, crashes and
    restarts from the start, each migration the runtime was asked for belongs to a
    mutation of its own: one that was verified as adoptable, is recorded as being
    applied or further, and is told apart by its identifier. *)
Theorem each_mutation_is_migrated_once (r : R) s n :
  rtc step (boot r, 0) (s, n) →
  ∃ who : list nat, NoDup who
    ∧ Forall2 (λ i c, ∃ m, sv_mutations s !! i = Some m ∧ started (st_lifecycle m) = true
                          ∧ rc_id (st_candidate m) = rc_id c
                          ∧ adoptable (vr_decision (st_verification m)) = true) who (log s)
    ∧ NoDup ((λ m, vr_mutation_id (st_verification m)) <$> sv_mutations s).
Proof.
  intros Hs. destruct (steps_spec _ _ [] [] Hs (boot_world_inv r)) as (who & d & _ & HI & _). cbn in HI.
  exists who. split_and!; [apply HI| |].
  - eapply Forall2_impl; [apply HI|]. intros i c (e & He & Hacc).
    eapply prefix_lookup_Some in He; [|apply HI]. rewrite list_lookup_fmap in He.
    destruct (sv_mutations s !! i) as [m|]; simplify_eq/=. exists m. split; [done|exact Hacc].
  - pose proof (inv_ids _ _ _ HI) as Hids. by rewrite <-list_fmap_compose in Hids.
Qed.

(** C14. A migration is authorized.  From every reachable state a call [c], in full or
    cut off, asks the runtime for at most one migration.  If it does, the call is an
    application, and what was asked for is the candidate of the mutation its request
    names: one that is verified as the request says and has no receipt.  At that point
    the checks of this very call have passed, in which the permit and the approval of
    its request were found valid, bound to that mutation and to what was verified of
    it, and the permit was in no receipt. *)
Theorem migrations_are_authorized (r : R) c s n s' n' :
  rtc step (boot r, 0) (s, n) → step_of c (s, n) (s', n') →
  log s' = log s
  ∨ ∃ request i candidate s1 n1, c = CallApply request
      ∧ apply_begin request s n = (Ok (inr (i, candidate)), s1, n1)
      ∧ log s' = log s ++ [candidate] ∧ authorized request i candidate s n n1.
Proof.
  intros Hs Hst. destruct (steps_spec _ _ [] [] Hs (boot_world_inv r)) as (who & d & _ & HI & _).
  destruct (step_spec _ _ _ who d Hst HI) as [_ [Hl|(q & i & cand & s1 & n1 & Hq & Hb & Hl & Ha)]]; [by left|right].
  exists q, i, cand, s1, n1. split_and!; [|done..]. destruct c; cbn in Hq; by simplify_eq.
Qed.

Lemma apply_repeats request s n i m receipt :
  position (vr_mutation_id (am_verification request)) (sv_mutations s) = Some (i, m) →
  verification_eqb (st_verification m) (am_verification request) = true →
  st_apply_receipt m = Some receipt → same_evidence receipt (am_evidence request) = true →
  apply request s n = (Ok receipt, s, n).
Proof.
  intros Hpos Hver Hr He. unfold apply, apply_begin, apply_check, mbind, M_bind, get_state, ok_or, ensure.
  rewrite Hpos. cbn. rewrite Hver. cbn. by rewrite Hr, He.
Qed.

(** C2. A receipt is final.  Once an application has answered with a receipt, the
    mutation has it in every later state, and applying the mutation again with the
    same evidence answers with it and changes nothing. *)
Theorem receipts_are_final (r : R) s n request receipt s1 n1 s2 n2 :
  rtc step (boot r, 0) (s, n) → apply request s n = (Ok receipt, s1, n1) → rtc step (s1, n1) (s2, n2) →
  ∃ i m, position (vr_mutation_id (am_verification request)) (sv_mutations s2) = Some (i, m)
    ∧ st_apply_receipt m = Some receipt
    ∧ ∀ again n', vr_mutation_id (am_verification again) = vr_mutation_id (am_verification request) →
        verification_eqb (st_verification m) (am_verification again) = true →
        same_evidence receipt (am_evidence again) = true → apply again s2 n' = (Ok receipt, s2, n').
Proof.
  intros Hs Happ Hlater. destruct (steps_spec _ _ [] [] Hs (boot_world_inv r)) as (who & d & _ & HI & _). cbn in HI.
  pose proof (apply_spec request who d s n HI) as Hw. unfold wp in Hw. rewrite Happ in Hw.
  destruct Hw as (_ & w1 & d1 & _ & I1 & _ & Hrec). specialize (Hrec receipt eq_refl).
  destruct (steps_spec _ _ w1 d1 Hlater I1) as (w2 & d2 & _ & I2 & G2). cbn in I2.
  destruct (has_receipt_grows _ _ _ _ G2 Hrec) as (i & e & He & Hid & Hr).
  eapply prefix_lookup_Some in He; [|apply I2]. rewrite list_lookup_fmap in He.
  destruct (sv_mutations s2 !! i) as [m|] eqn:Hm; simplify_eq/=.
  assert (position (vr_mutation_id (am_verification request)) (sv_mutations s2) = Some (i, m)) as Hpos.
  { apply list_find_Some. split_and!; [done|done|]. intros j y Hj Hlt Hy.
    pose proof (inv_ids _ _ _ I2) as Hids. rewrite NoDup_alt in Hids. unfold is_mutation in Hy.
    enough (j = i) by lia. apply (Hids j i (vr_mutation_id (st_verification m))); rewrite !list_lookup_fmap.
    - by rewrite Hj; cbn; rewrite Hy, Hid.
    - by rewrite Hm. }
  exists i, m. split_and!; [done|done|]. intros again n' Heq Hver Hev. rewrite <-Heq in Hpos.
  by eapply (apply_repeats _ _ _ i m).
Qed.

End Invariant.

End GovernanceSpec.

(** ** Runs of the service over the default runtime *)

Module GovernanceSample.
Import DefaultMetaRuntime GovernanceSpec.

#[local] Instance sample_numbers : JsonNumbers :=
  {| JsonNumber := F64; number_as_f64 x := if is_finite x then Some x else None |}.

#[local] Instance sample_numbers_ok : JsonNumbersOk.
Proof. intros x y. cbn. by destruct (is_finite x) eqn:E; intros [= <-]. Qed.

#[local] Instance sample_format : TextFormat := {| f64_display _ := []; f64_fixed2 _ := [] |}.

#[local] Instance sample_value_text : ValueText := λ _, [].

#[local] Instance sample_case : UnicodeCase := ascii_case.

#[local] Instance sample_digest : ApprovalDigest := {| subject_json _ := inr ""; sha256_of _ := "h" |}.

(** The care priorities as a text. *)
Definition weight_text (w : F64) : text :=
  match w with S754_finite false m e => [Npos m; Z.to_N (e + 2000)] | _ => [] end.

Definition care_text (g : Genome) : text :=
  concat ((λ p, cp_topic p ++ weight_text (cp_weight p)) <$> cs_priorities (gn_care g)).

Definition sample_hash (t : text) : string := pretty (foldl (λ h c, (h * 31 + c) mod 1000003) 7 t).

#[local] Instance sample_files : MetaFiles := {|
  File := Genome + GenomeStore;
  genome_yaml g := inr (inl g);
  parse_genome_yaml f := match f with inl g => inr g | inr _ => inl [] end;
  store_json s := inr (inr s);
  parse_store f := match f with inr s => inr s | inl _ => inl [] end;
  genome_json g := inr (care_text g);
  sha256_hex := sample_hash;
  read_error _ := None;
  append_io _ := Appended;
|}.

#[local] Instance sample_files_ok : MetaFilesOk.
Proof. exists (λ _, True); cbn; [by intros ? ? [= <-]|by intros ? ? ? [= <-] [= <-]|by intros ? ? _ [= <-]]. Defined.

#[local] Instance sample_codec : GovernanceCodec := {|
  StateFile := PersistedMutationState;
  state_json s := inr s;
  parse_state s := inr s;
  request_json q := inr (vm_mutation_id q :: mi_reason (vm_intent q));
  verification_json v := inr [vh_mutation_id v; 1];
  receipt_json r := inr [rh_mutation_id r; rh_permit_id r; 2];
  sha256_text := sample_hash;
  state_read_error _ := None;
|}.

#[local] Instance sample_laws : GovernanceLaws.
Proof. intros mutations file state [= <-] [= <-]. done. Qed.

(** A disk that fails at the given external calls. *)
Definition env_failing (at_ : list N) : Env := {|
  uuid_v4 := N.succ;
  uuid_display := λ u, pretty u;
  mono_now := λ _, 1000;
  wall_now := λ _, 0%Z;
  persist_io := λ n, if bool_decide (n ∈ at_) then IoFailBeforeRename "disk full" else IoOk;
  hash_order := λ _ _ l, l;
|}.

Definition sample_runtime : Runtime := {|
  rt_version := {| vs_major := 0; vs_minor := 1; vs_patch := 0 |};
  rt_genome_path := Some (lit "genome.yaml");
  rt_receipt_dir := Some (lit "receipts");
  rt_lineage_path := None;
  rt_store := default_store;
  rt_previous_version := None;
  rt_lineage := [];
  rt_current_genome := None;
  rt_genome_file := None;
  rt_store_file := None;
  rt_lineage_file := {| lf_entries := []; lf_torn := false |};
|}.

Definition care_intent (weight : F64) : MutationIntent := {|
  mi_target := lit "care.priorities";
  mi_change := Object [(lit "topic", String_ (lit "curiosity")); (lit "weight_delta", Number_ weight)];
  mi_reason := lit "learn";
  mi_reversible := true;
|}.

Definition verify_request (id : Uuid) (weight : F64) : VerifyMutation :=
  {| vm_mutation_id := id; vm_intent := care_intent weight |}.

Definition permit (id : PermitId) (capability : string) : ExecutionPermit := {|
  ep_id := id; ep_operation_id := 1; ep_process_id := 1; ep_capability := capability;
  ep_granted_scope := {| cs_allowed_paths := []; cs_allowed_targets := []; cs_max_runtime_ms := None;
                         cs_max_output_bytes := None |};
  ep_expires_at := 5000; ep_sandbox := SandboxDecision.NotApplicable; ep_budget_reservation := None;
  ep_lease := None;
|}.

Definition approval (id : ApprovalId) (mutation_id : Uuid) (operation name value : string) : ApprovalSnapshot :=
  let attributes : gmap string string :=
    <["mutation_id" := pretty mutation_id]> (<["operation" := operation]> {[name := value]}) in
  {| ap_id := id; ap_goal_id := 1%Z; ap_attempt_id := None; ap_job_id := None; ap_owner_id := "owner";
     ap_category := ApprovalCategory.DaseinModification; ap_risk := ApprovalRisk.High;
     ap_subject := {| sj_category := ApprovalCategory.DaseinModification; sj_goal_id := 1%Z; sj_attempt_id := None;
                      sj_job_id := None; sj_attributes := attributes; sj_allowed_scope := [];
                      sj_apply_target := None |};
     ap_subject_hash := "h"; ap_summary := "mutate"; ap_artifacts := []; ap_created_at_ms := (-10)%Z;
     ap_expires_at_ms := 100%Z; ap_status := ApprovalStatus.Approved; ap_version := 2;
     ap_resolution := Some (Approval.approved "owner" "cli" (-5)%Z) |}.

(** The verification the service recorded for a mutation. *)
Definition recorded {R} (id : Uuid) (s : Service (R := R)) : VerificationReceipt :=
  match position id (sv_mutations s) with
  | Some (_, m) => st_verification m
  | None => {| vr_mutation_id := id; vr_candidate_id := 0; vr_base_version := ""; vr_decision := DecideReject;
               vr_score := S754_nan; vr_verification_hash := ""; vr_verified_at_ms := 0 |}
  end.

Definition apply_request {R} (id : Uuid) (permit_id : PermitId) (s : Service (R := R)) : ApplyMutation :=
  let v := recorded id s in
  {| am_verification := v;
     am_evidence := {| ge_permit := permit permit_id APPLY_CAPABILITY;
                       ge_approval := approval (100 + id) id "apply" "verification_hash" (vr_verification_hash v) |} |}.

Definition applied_hash {R} (id : Uuid) (s : Service (R := R)) : string :=
  match position id (sv_mutations s) with
  | Some (_, m) => default "" (mr_receipt_hash <$> st_apply_receipt m)
  | None => ""
  end.

Definition rollback_request {R} (id : Uuid) (permit_id : PermitId) (s : Service (R := R)) : RollbackMutation :=
  {| rm_mutation_id := id; rm_applied_receipt_hash := applied_hash id s;
     rm_evidence := {| ge_permit := permit permit_id ROLLBACK_CAPABILITY;
                       ge_approval := approval (200 + id) id "rollback" "applied_receipt_hash" (applied_hash id s) |} |}.

(** One call after another, each built from the state it meets; the answers are
    kept. *)
Definition World_ := (Service (R := Logged (R := Runtime))).

Definition ask {E : Env} (c : World_ → Call) (x : list bool * World_ * N) : list bool * World_ * N :=
  let '(answers, s, n) := x in
  let '(r, s', n') := run_call (HE := E) (HR := runtime_ops (HE := E)) (c s) s n in
  (answers ++ [match r with Ok _ => true | _ => false end], s', n').

Definition start : list bool * World_ * N := ([], boot sample_runtime, 0).

Definition do_verify id weight : World_ → Call := λ _, CallVerify (verify_request id weight).

Definition do_apply id permit_id : World_ → Call := λ s, CallApply (apply_request id permit_id s).

Definition do_rollback id permit_id : World_ → Call := λ s, CallRollback (rollback_request id permit_id s).

(** A call cut off at the [k]-th place, and the process started again. *)
Definition crash {E : Env} (k : nat) (c : World_ → Call) (x : list bool * World_ * N) : list bool * World_ * N :=
  let '(answers, s, n) := x in
  match cut_off (HE := E) (HR := runtime_ops (HE := E)) (c s) !! k with
  | None => x
  | Some m =>
      let '(_, s1, n1) := m s n in
      match open_service (sv_runtime s1) s1 n1 with
      | (Ok _, s', n') => (answers, s', n')
      | _ => x
      end
  end.

Inductive Do := Ask (c : World_ → Call) | Crash (k : nat) (c : World_ → Call).

Definition act {E : Env} (x : list bool * World_ * N) (todo : Do) : list bool * World_ * N :=
  match todo with Ask c => ask c x | Crash k c => crash k c x end.

Definition run_all {E : Env} (todo : list Do) : list bool * World_ * N := foldl act start todo.

Definition at_ (x : list bool * World_ * N) : World_ * N := (x.1.2, x.2).

Lemma act_steps {E : Env} x todo :
  rtc (step (HE := E) (HR := runtime_ops (HE := E))) (at_ x) (at_ (act x todo)).
Proof.
  destruct x as [[answers s] n], todo as [c|k c]; cbn [act ask crash].
  - destruct (run_call (c s) s n) as [[r s'] n'] eqn:Hr. apply rtc_once. by eapply step_call.
  - destruct (cut_off (c s) !! k) as [m|] eqn:Hk; [|done]. destruct (m s n) as [[r s1] n1] eqn:Hm.
    destruct (open_service _ s1 n1) as [[[[]|e|] s'] n'] eqn:Ho; try done. apply rtc_once.
    eapply step_crash; [by eapply list_elem_of_lookup_2|exact Hm|done|exact Ho].
Qed.

Lemma run_all_steps {E : Env} todo :
  rtc (step (HE := E) (HR := runtime_ops (HE := E))) (boot sample_runtime, 0) (at_ (run_all todo)).
Proof.
  unfold run_all. change (boot sample_runtime, 0) with (at_ start). generalize start. induction todo as [|c todo IH]; intros x; [done|].
  cbn [foldl]. etrans; [apply act_steps|apply IH].
Qed.

(** The weight of curiosity in the genome file. *)
Definition curiosity (s : World_) : option F64 :=
  match rt_genome_file (sv_runtime s).1 with
  | Some (inl g) =>
      cp_weight <$> (snd <$> list_find (λ p, cp_topic p = lit "curiosity") (cs_priorities (gn_care g)))
  | _ => None
  end.

Definition lifecycles (s : World_) : list MutationLifecycle := st_lifecycle <$> sv_mutations s.

Definition half : F64 := f64_lit 1 2.

Definition quarter : F64 := f64_lit 1 4.

Definition quiet_env : Env := env_failing [].

(** A mutation is verified, applied and rolled back. *)
Definition cycle : list bool * World_ * N :=
  run_all (E := quiet_env) [Ask (do_verify 1 half); Ask (do_apply 1 11); Ask (do_rollback 1 12)].

Example cycle_runs :
  let '(answers, s, _) := cycle in
  answers = [true; true; true] ∧ lifecycles s = [RolledBack] ∧ length (log s) = 1%nat ∧ curiosity s = None.
Proof. vm_compute. done. Qed.

(** A crash between the migration and its receipt: the mutation is not migrated a
    second time. *)
Definition crashed : list bool * World_ * N :=
  run_all (E := quiet_env) [Ask (do_verify 1 half); Crash 2 (do_apply 1 11); Ask (do_apply 1 12)].

Lemma each_mutation_is_migrated_once_witness :
  let '(answers, s, _) := crashed in
  answers = [true; false] ∧ lifecycles s = [Applying] ∧ length (log s) = 1%nat
  ∧ ∃ who : list nat, NoDup who
    ∧ Forall2 (λ i c, ∃ m, sv_mutations s !! i = Some m ∧ started (st_lifecycle m) = true
                          ∧ rc_id (st_candidate m) = rc_id c
                          ∧ adoptable (vr_decision (st_verification m)) = true) who (log s)
    ∧ NoDup ((λ m, vr_mutation_id (st_verification m)) <$> sv_mutations s).
Proof.
  pose proof (each_mutation_is_migrated_once (HE := quiet_env) (HR := runtime_ops (HE := quiet_env)) sample_runtime _ _
    (run_all_steps (E := quiet_env) [Ask (do_verify 1 half); Crash 2 (do_apply 1 11); Ask (do_apply 1 12)])) as Hw.
  change (run_all _) with crashed in Hw. assert (let '(answers, s, _) := crashed in
    answers = [true; false] ∧ lifecycles s = [Applying] ∧ length (log s) = 1%nat) as Hc by (vm_compute; done).
  destruct crashed as [[answers s] n]. destruct Hc as (H1 & H2 & H3). exact (conj H1 (conj H2 (conj H3 Hw))).
Defined.

(** The call that applies a verified mutation. *)
Definition before_apply : list bool * World_ * N := run_all (E := quiet_env) [Ask (do_verify 1 half)].

Lemma migrations_are_authorized_witness :
  let s := before_apply.1.2 in
  let '(_, s', n') := run_call (HE := quiet_env) (HR := runtime_ops (HE := quiet_env)) (do_apply 1 11 s) s before_apply.2 in
  length (log s) = 0%nat ∧ length (log s') = 1%nat
  ∧ (log s' = log s ∨ ∃ request i candidate s1 n1, do_apply 1 11 s = CallApply request
      ∧ apply_begin (HE := quiet_env) request s before_apply.2 = (Ok (inr (i, candidate)), s1, n1)
      ∧ log s' = log s ++ [candidate] ∧ authorized (HE := quiet_env) request i candidate s before_apply.2 n1).
Proof.
  cbv zeta.
  assert (length (log before_apply.1.2) = 0%nat ∧ length (log (run_call (HE := quiet_env) (HR := runtime_ops (HE := quiet_env))
    (do_apply 1 11 before_apply.1.2) before_apply.1.2 before_apply.2).1.2) = 1%nat) as [H1 H2] by (split; vm_compute; reflexivity).
  destruct (run_call _ _ _) as [[r s'] n'] eqn:Hrun. split; [exact H1|]. split; [exact H2|].
  exact (migrations_are_authorized (HE := quiet_env) (HR := runtime_ops (HE := quiet_env)) sample_runtime _ _ _ s' n'
    (run_all_steps (E := quiet_env) [Ask (do_verify 1 half)]) (step_of_call _ _ _ _ _ _ Hrun)).
Defined.

Lemma receipts_are_final_witness :
  let s := before_apply.1.2 in
  let request := apply_request 1 11 s in
  ∃ receipt s1 n1, apply (HE := quiet_env) (HR := logged_ops (HR := runtime_ops (HE := quiet_env))) request s before_apply.2
                   = (Ok receipt, s1, n1)
    ∧ ∃ i m, position 1 (sv_mutations s1) = Some (i, m) ∧ st_apply_receipt m = Some receipt.
Proof.
  cbv zeta.
  assert (∃ receipt s1 n1, apply (HE := quiet_env) (HR := logged_ops (HR := runtime_ops (HE := quiet_env)))
            (apply_request 1 11 before_apply.1.2) before_apply.1.2 before_apply.2 = (Ok receipt, s1, n1)) as (receipt & s1 & n1 & Happ).
  { eexists _, _, _. vm_compute. reflexivity. }
  exists receipt, s1, n1. split; [exact Happ|].
  destruct (receipts_are_final (HE := quiet_env) (HR := runtime_ops (HE := quiet_env)) sample_runtime _ _ _ _ _ _ _ _
    (run_all_steps (E := quiet_env) [Ask (do_verify 1 half)]) Happ (rtc_refl _ _)) as (i & m & Hpos & Hr & _).
  exists i, m. split; [exact Hpos|exact Hr].
Defined.

(** ** Where the service falls short *)

(** A verification that fails rolls the runtime back although nothing was migrated
    for it: the receipt of the sandbox cannot be written, and the genome of the
    mutation applied before is gone while its record says applied. *)
Example failed_verification_reverts_the_genome :
  let '(answers, s, _) :=
    run_all (E := env_failing [25]) [Ask (do_verify 1 half); Ask (do_apply 1 11); Ask (do_verify 2 quarter)] in
  answers = [true; true; false] ∧ lifecycles s = [Applied] ∧ curiosity s = None.
Proof. vm_compute. done. Qed.

(** A permit is looked for in the receipts only: when the receipt of one mutation
    could not be stored, its permit serves for the migration of another. *)
Example one_permit_serves_two_migrations :
  let '(answers, s, _) :=
    run_all (E := env_failing [25])
      [Ask (do_verify 1 half); Ask (do_verify 2 quarter); Ask (do_apply 1 11); Ask (do_apply 2 11)] in
  answers = [true; true; false; true] ∧ lifecycles s = [Applying; Applied] ∧ length (log s) = 2%nat.
Proof. vm_compute. done. Qed.

(** A verification whose record could not be written is reported as failed, and as
    done when it is tried again, while no file holds it. *)
Example retried_verification_is_not_durable :
  let '(answers, s, _) := run_all (E := env_failing [6]) [Ask (do_verify 1 half); Ask (do_verify 1 half)] in
  answers = [false; true] ∧ lifecycles s = [Verified] ∧ sv_file s = None.
Proof. vm_compute. done. Qed.

(** Rolling back the older of two mutations undoes the younger one. *)
Example rollback_undoes_the_last_mutation :
  let '(answers, s, _) :=
    run_all (E := quiet_env) [Ask (do_verify 1 half); Ask (do_apply 1 11); Ask (do_verify 2 quarter);
                              Ask (do_apply 2 13); Ask (do_rollback 1 12)] in
  answers = [true; true; true; true; true] ∧ lifecycles s = [RolledBack; Applied] ∧ curiosity s = Some half.
Proof. vm_compute. done. Qed.

(** A candidate is a whole genome, and the version it was made from is recorded but
    not compared: applying one that was verified before another was applied drops
    what the other changed. *)
Example stale_verification_drops_a_mutation :
  let '(answers, s, _) :=
    run_all (E := quiet_env) [Ask (do_verify 1 half); Ask (do_verify 2 quarter); Ask (do_apply 1 11);
                              Ask (do_apply 2 13)] in
  answers = [true; true; true; true] ∧ lifecycles s = [Applied; Applied] ∧ curiosity s = Some quarter.
Proof. vm_compute. done. Qed.

(** The targets a genome allows are not consulted. *)
Example disallowed_target_is_adopted :
  let intent := {| mi_target := lit "mutation.config"; mi_change := Null; mi_reason := lit "r"; mi_reversible := true |} in
  lit "mutation.config" ∉ mu_allowed_targets (gn_mutation default_genome)
  ∧ ev_recommendation (evaluate {| rc_id := 1; rc_genome := (apply_intent default_genome intent).1;
                                   rc_changes := (apply_intent default_genome intent).2; rc_generated_at := 0 |}
      (test_result (outcome (apply_intent default_genome intent).1 (Some default_genome)) 0)) = Adopt.
Proof. split; [by apply (bool_decide_unpack _)|by vm_compute]. Qed.

(** The evaluator counts changes; it looks neither at how far a weight moves nor at
    the weight of safety: an intent that sets it to zero is adopted. *)
Example bold_intent_is_adopted :
  let intent := {| mi_target := lit "care.priorities";
                   mi_change := Object [(lit "topic", String_ (lit "safety")); (lit "weight_delta", Number_ (S754_finite true 1 0))];
                   mi_reason := lit "r"; mi_reversible := true |} in
  let '(g', changes) := apply_intent default_genome intent in
  list_find (λ p, cp_topic p = lit "safety") (cs_priorities (gn_care g'))
    = Some (0%nat, {| cp_topic := lit "safety"; cp_weight := S754_zero false |})
  ∧ ev_recommendation (evaluate {| rc_id := 1; rc_genome := g'; rc_changes := changes; rc_generated_at := 0 |}
      (test_result (outcome g' (Some default_genome)) 0)) = Adopt.
Proof. vm_compute. done. Qed.

(** Further witnesses. *)

Definition small : F64 := f64_lit 1 10.


Definition sample_candidate : RuntimeCandidate :=
  {| rc_id := 1; rc_genome := (apply_intent default_genome (care_intent half)).1; rc_changes := [[]]; rc_generated_at := 0 |}.

Lemma migration_can_be_undone_witness :
  wp (migrate_ (HE := quiet_env) sample_candidate)
    (λ res r' n', (∃ result, res = Ok result) ∧ holds r' (rc_genome sample_candidate)
       ∧ (rt_genome_file r' = None
          ∨ wp (rollback_ (HE := quiet_env)) (λ res' r'' _, res' = Ok tt ∧ holds r'' default_genome) r' n')) sample_runtime 0.
Proof.
  assert (quiet (HE := quiet_env)) as Hq.
  { split; [intros n; reflexivity|]. split; [intros n; reflexivity|]. split; [intros g; exists (inl g); reflexivity|].
    split; [intros st; exists (inr st), st; split; reflexivity|]. intros g. exists (care_text g). reflexivity. }
  eapply wp_mono.
  - apply (migration_can_be_undone (HE := quiet_env) sample_candidate default_genome sample_runtime 0).
    + exists (lit "genome.yaml"). reflexivity.
    + reflexivity.
  - intros res r' n' (_ & Hok & Hgo & Hund). specialize (Hgo Hq). split; [exact Hgo|]. split; [exact (Hok Hgo)|].
    destruct Hund as [Hsame|[_ Hund]]; [left; exact Hsame|right]. eapply wp_mono; [exact Hund|].
    intros res' r'' n'' (_ & H1 & H2). split; [exact (H2 Hq)|exact (H1 (H2 Hq))].
Defined.

End GovernanceSample.
