(* ===== verification/ProblemLedger.v ===== *)
(** * The ledger of problems (metacog/src/problem)

    Findings and transitions are events, one JSON line each, appended to a file;
    the records of the problems are a projection of the events, rebuilt when the
    ledger is opened.  A finding with the fingerprint of a known problem counts as
    another occurrence of it.  serde_json, SHA-256 and the file system are
    parameters. *)
From S2P Require Import Prelude StdModel Fallible StdText FabricPolicy LoopGuard AuditLog.

#[local] Open Scope N_scope.

Module Problems.

(** ** model.rs *)

Inductive ProblemState :=
| Observed | Confirmed | Active | Mitigated | Resolved | Disputed | AcceptedRisk | Regressed.

#[global] Instance ProblemState_eq_dec : EqDecision ProblemState.
Proof. solve_decision. Defined.

Inductive ProblemSeverity := Info | Low | Medium | High | Critical.

Record ProblemRecord := {
  pr_problem_id : text;
  pr_category : text;
  pr_subtype : text;
  pr_domain : text;
  pr_subject : text;
  pr_severity : ProblemSeverity;
  pr_confidence_millis : N;
  pr_state : ProblemState;
  pr_first_seen_at_ms : Z;
  pr_last_seen_at_ms : Z;
  pr_occurrence_count : N;
  pr_affected_versions : list text;
  pr_expected_summary : text;
  pr_observed_summary : text;
  pr_failure_signature : text;
  pr_evidence_ids : list text;
  pr_causal_hypotheses : list text;
  pr_related_problem_ids : list text;
  pr_proposed_mitigations : list text;
  pr_resolution_evidence : list text;
  pr_regression_evidence : list text;
}.

Record ProblemTransition := {
  pt_problem_id : text;
  pt_event_id : text;
  pt_old_state : ProblemState;
  pt_new_state : ProblemState;
  pt_reason : text;
  pt_evidence_ids : list text;
  pt_timestamp_ms : Z;
}.

Definition is_valid_transition (from to : ProblemState) : bool :=
  match from, to with
  | Observed, Confirmed | Observed, Disputed | Confirmed, Active | Confirmed, Disputed | Active, Mitigated
  | Active, AcceptedRisk | Mitigated, Resolved | Mitigated, Regressed | Resolved, Regressed | Disputed, Confirmed
  | Disputed, Resolved | AcceptedRisk, Regressed | Regressed, Active => true
  | _, _ => false
  end.

(** ** fingerprint.rs *)

(** [u32::to_le_bytes] *)
Definition le_bytes32 (n : N) : list N := [n mod 256; n / 256 mod 256; n / 65536 mod 256; n / 16777216 mod 256].

(** The bytes that are hashed: the components, each ended by a zero byte, and
    the version. *)
Definition fingerprint_input (domain subject category failure_signature : text) (rubric_version : N) : list N :=
  Audit.as_bytes domain ++ [0] ++ Audit.as_bytes subject ++ [0] ++ Audit.as_bytes category ++ [0]
  ++ Audit.as_bytes failure_signature ++ [0] ++ le_bytes32 rubric_version.

(** ** ledger.rs: data *)

Inductive ProblemError :=
| InvalidTransition (from to : ProblemState)
| NotFound (id : text)
| AlreadyExists (id : text)
| Persistence (error : text)
| Lock (error : text).

Record ProblemFinding := {
  pf_problem_id : text;
  pf_category : text;
  pf_subtype : text;
  pf_domain : text;
  pf_subject : text;
  pf_severity : ProblemSeverity;
  pf_confidence_millis : N;
  pf_observed_at_ms : Z;
  pf_affected_versions : list text;
  pf_expected_summary : text;
  pf_observed_summary : text;
  pf_failure_signature : text;
  pf_evidence_ids : list text;
  pf_rubric_version : N;
}.

Inductive LedgerEvent :=
| ProblemObserved (event_id : text) (finding : ProblemFinding) (fingerprint : text) (timestamp_ms : Z)
| ProblemTransitioned (event_id : text) (transition : ProblemTransition) (timestamp_ms : Z).

Definition PROBLEM_EVENT_SCHEMA_V1 : N := 1.

Record LedgerEnvelope := { le_schema_version : N; le_event : LedgerEvent }.

(** ** projection.rs *)

Record Projection := { pj_records : gmap text ProblemRecord; pj_fingerprints : gmap text text }.

Definition new_projection : Projection := {| pj_records := ∅; pj_fingerprints := ∅ |}.

(** [for x in more { if !list.contains(x) { list.push(x.clone()) } }] *)
Definition push_new (more list : list text) : Datatypes.list text :=
  foldl (λ acc x, if bool_decide (x ∈ acc) then acc else acc ++ [x]) list more.

Definition seen_again (finding : ProblemFinding) (r : ProblemRecord) : ProblemRecord := {|
  pr_problem_id := pr_problem_id r;
  pr_category := pr_category r;
  pr_subtype := pr_subtype r;
  pr_domain := pr_domain r;
  pr_subject := pr_subject r;
  pr_severity := pr_severity r;
  pr_confidence_millis := N.max (pr_confidence_millis r) (pf_confidence_millis finding);
  pr_state := pr_state r;
  pr_first_seen_at_ms := pr_first_seen_at_ms r;
  pr_last_seen_at_ms := Z.max (pr_last_seen_at_ms r) (pf_observed_at_ms finding);
  pr_occurrence_count := saturating_add (pr_occurrence_count r) 1;
  pr_affected_versions := push_new (pf_affected_versions finding) (pr_affected_versions r);
  pr_expected_summary := pr_expected_summary r;
  pr_observed_summary := pr_observed_summary r;
  pr_failure_signature := pr_failure_signature r;
  pr_evidence_ids := push_new (pf_evidence_ids finding) (pr_evidence_ids r);
  pr_causal_hypotheses := pr_causal_hypotheses r;
  pr_related_problem_ids := pr_related_problem_ids r;
  pr_proposed_mitigations := pr_proposed_mitigations r;
  pr_resolution_evidence := pr_resolution_evidence r;
  pr_regression_evidence := pr_regression_evidence r;
|}.

Definition first_record (finding : ProblemFinding) : ProblemRecord := {|
  pr_problem_id := pf_problem_id finding;
  pr_category := pf_category finding;
  pr_subtype := pf_subtype finding;
  pr_domain := pf_domain finding;
  pr_subject := pf_subject finding;
  pr_severity := pf_severity finding;
  pr_confidence_millis := pf_confidence_millis finding;
  pr_state := Observed;
  pr_first_seen_at_ms := pf_observed_at_ms finding;
  pr_last_seen_at_ms := pf_observed_at_ms finding;
  pr_occurrence_count := 1;
  pr_affected_versions := pf_affected_versions finding;
  pr_expected_summary := pf_expected_summary finding;
  pr_observed_summary := pf_observed_summary finding;
  pr_failure_signature := pf_failure_signature finding;
  pr_evidence_ids := pf_evidence_ids finding;
  pr_causal_hypotheses := [];
  pr_related_problem_ids := [];
  pr_proposed_mitigations := [];
  pr_resolution_evidence := [];
  pr_regression_evidence := [];
|}.

Definition resolves (state : ProblemState) : bool := match state with Mitigated | Resolved => true | _ => false end.

Definition moved (transition : ProblemTransition) (r : ProblemRecord) : ProblemRecord := {|
  pr_problem_id := pr_problem_id r;
  pr_category := pr_category r;
  pr_subtype := pr_subtype r;
  pr_domain := pr_domain r;
  pr_subject := pr_subject r;
  pr_severity := pr_severity r;
  pr_confidence_millis := pr_confidence_millis r;
  pr_state := pt_new_state transition;
  pr_first_seen_at_ms := pr_first_seen_at_ms r;
  pr_last_seen_at_ms := pt_timestamp_ms transition;
  pr_occurrence_count := pr_occurrence_count r;
  pr_affected_versions := pr_affected_versions r;
  pr_expected_summary := pr_expected_summary r;
  pr_observed_summary := pr_observed_summary r;
  pr_failure_signature := pr_failure_signature r;
  pr_evidence_ids := push_new (pt_evidence_ids transition) (pr_evidence_ids r);
  pr_causal_hypotheses := pr_causal_hypotheses r;
  pr_related_problem_ids := pr_related_problem_ids r;
  pr_proposed_mitigations := pr_proposed_mitigations r;
  pr_resolution_evidence :=
    if resolves (pt_new_state transition) then push_new (pt_evidence_ids transition) (pr_resolution_evidence r)
    else pr_resolution_evidence r;
  pr_regression_evidence :=
    if bool_decide (pt_new_state transition = Regressed) then push_new (pt_evidence_ids transition) (pr_regression_evidence r)
    else pr_regression_evidence r;
|}.

Definition apply_event (p : Projection) (event : LedgerEvent) : Projection :=
  match event with
  | ProblemObserved _ finding fingerprint _ =>
      match pj_fingerprints p !! fingerprint with
      | Some existing_id =>
          {| pj_records := alter (seen_again finding) existing_id (pj_records p); pj_fingerprints := pj_fingerprints p |}
      | None =>
          if bool_decide (pj_records p !! pf_problem_id finding = None) then
            {| pj_records := <[pf_problem_id finding := first_record finding]> (pj_records p);
               pj_fingerprints := <[fingerprint := pf_problem_id finding]> (pj_fingerprints p) |}
          else p
      end
  | ProblemTransitioned _ transition _ =>
      {| pj_records := alter (moved transition) (pt_problem_id transition) (pj_records p);
         pj_fingerprints := pj_fingerprints p |}
  end.

Definition pj_get (p : Projection) (id : text) : option ProblemRecord := pj_records p !! id.

Definition pj_contains (p : Projection) (id : text) : bool := bool_decide (is_Some (pj_records p !! id)).

Definition contains_fingerprint (p : Projection) (fingerprint : text) : bool :=
  bool_decide (is_Some (pj_fingerprints p !! fingerprint)).

Definition is_active (state : ProblemState) : bool :=
  match state with Observed | Confirmed | Active | Mitigated | Regressed => true | _ => false end.

Section Ledger.
Context {HE : Env}.

Definition pj_active (i : N) (p : Projection) : list ProblemRecord :=
  List.filter (λ r, is_active (pr_state r)) (hash_values i (pj_records p)).

(** serde_json on an envelope, and SHA-256 in hexadecimal. *)
Class LedgerCodec := {
  envelope_json : LedgerEnvelope → text + text;
  parse_envelope : text → text + LedgerEnvelope;
  sha256_hex : list N → text;
}.

(** The file system, at the [n]-th external call.  A failed write or flush leaves
    a prefix of what was written. *)
Class LedgerFile := {
  stat_failure : N → bool;
  read_failure : N → option text;
  open_failure : N → option text;
  write_failure : N → option (nat * text);
  flush_failure : N → option (nat * text);
}.

Context {HC : LedgerCodec} {HF : LedgerFile}.

Definition problem_fingerprint (domain subject category failure_signature : text) (rubric_version : N) : text :=
  sha256_hex (fingerprint_input domain subject category failure_signature rubric_version).

(** ** ledger.rs: [JsonlProblemLedger] *)

(** The ledger with the file at its path. *)
Record Ledger := { lg_file : option text; lg_projection : Projection }.

Abbreviation Led := (M Ledger ProblemError).

Definition set_projection (p : Projection) (l : Ledger) : Ledger := {| lg_file := lg_file l; lg_projection := p |}.

Definition append_text (t : text) (l : Ledger) : Ledger :=
  {| lg_file := Some (default [] (lg_file l) ++ t); lg_projection := lg_projection l |}.

(** The loop of [new] over the lines of the file. *)
Fixpoint replay_lines (p : Projection) (lines : list text) : Result ProblemError Projection :=
  match lines with
  | [] => Ok p
  | line :: rest =>
      let line := trim line in
      if is_empty line then replay_lines p rest
      else match parse_envelope line with
           | inl e => Err (Persistence (lit "corrupt ledger line: " ++ e))
           | inr envelope =>
               need (le_schema_version envelope =? PROBLEM_EVENT_SCHEMA_V1)
                 (Persistence (lit "unsupported problem event schema version " ++ lit (pretty (le_schema_version envelope)))) ;;
               replay_lines (apply_event p (le_event envelope)) rest
           end
  end.

(** [new] on the file as it is *)
Definition new : Led unit :=
  n ← tick;
  l ← get_state;
  match (if stat_failure n then None else lg_file l) with
  | None => modify (set_projection new_projection)
  | Some contents =>
      n ← tick;
      match open_failure n with
      | Some e => throw (Persistence (lit "cannot open ledger: " ++ e))
      | None =>
          n ← tick;
          match read_failure n with
          | Some e => throw (Persistence (lit "cannot read ledger: " ++ e))
          | None =>
              match replay_lines new_projection (lines contents) with
              | Ok p => modify (set_projection p)
              | Err e => throw e
              | Panic => panic
              end
          end
      end
  end.

Definition append_event (event : LedgerEvent) : Led unit :=
  match envelope_json {| le_schema_version := PROBLEM_EVENT_SCHEMA_V1; le_event := event |} with
  | inl e => throw (Persistence (lit "serialization error: " ++ e))
  | inr json =>
      let line := json ++ [newline] in
      n ← tick;
      match open_failure n with
      | Some e => throw (Persistence (lit "cannot open ledger for append: " ++ e))
      | None =>
          modify (append_text []) ;;
          n ← tick;
          match write_failure n with
          | Some (k, e) => modify (append_text (take k line)) ;; throw (Persistence (lit "cannot write to ledger: " ++ e))
          | None =>
              n ← tick;
              match flush_failure n with
              | Some (k, e) => modify (append_text (take k line)) ;; throw (Persistence (lit "cannot flush ledger: " ++ e))
              | None => modify (append_text line)
              end
          end
      end
  end.

(** [self.append_event(&event).await?; proj.apply_event(&event);] *)
Definition record_event (event : LedgerEvent) : Led unit :=
  append_event event ;;
  modify (λ l, set_projection (apply_event (lg_projection l) event) l).

Definition fingerprint_of (finding : ProblemFinding) : text :=
  problem_fingerprint (pf_domain finding) (pf_subject finding) (pf_category finding) (pf_failure_signature finding)
    (pf_rubric_version finding).

Definition observe (finding : ProblemFinding) : Led unit :=
  l ← get_state;
  ensure (negb (pj_contains (lg_projection l) (pf_problem_id finding))) (AlreadyExists (pf_problem_id finding)) ;;
  id ← new_uuid;
  record_event (ProblemObserved (lit "evt-" ++ lit (uuid_display id)) finding (fingerprint_of finding)
    (pf_observed_at_ms finding)).

Definition transition (event : ProblemTransition) : Led unit :=
  ensure (is_valid_transition (pt_old_state event) (pt_new_state event))
    (InvalidTransition (pt_old_state event) (pt_new_state event)) ;;
  l ← get_state;
  current ← ok_or (pj_get (lg_projection l) (pt_problem_id event)) (NotFound (pt_problem_id event));
  ensure (bool_decide (pr_state current = pt_old_state event))
    (InvalidTransition (pr_state current) (pt_new_state event)) ;;
  record_event (ProblemTransitioned (pt_event_id event) event (pt_timestamp_ms event)).

Definition get (id : text) : Led (option ProblemRecord) :=
  l ← get_state;
  mret (pj_get (lg_projection l) id).

Definition active : Led (list ProblemRecord) :=
  l ← get_state;
  n ← tick;
  mret (pj_active n (lg_projection l)).

End Ledger.

(** ** Fingerprints tell problems apart *)

(** A text of Unicode scalar values without NUL. *)
Definition plain (t : text) : Prop := Forall (λ c, 0 < c < 1114112) t.

#[local] Ltac Zify.zify_post_hook ::= Z.to_euclidean_division_equations.

Lemma utf8_inj c c' r r' :
  0 < c < 1114112 → 0 < c' < 1114112 → Audit.utf8 c ++ r = Audit.utf8 c' ++ r' → c = c' ∧ r = r'.
Proof.
  intros Hc Hc'. unfold Audit.utf8.
  repeat match goal with |- context [?a <? ?b] => destruct (N.ltb_spec a b) end; cbn; intros [=]; (split; [|done || lia]); lia.
Qed.

Lemma utf8_nonzero c : 0 < c < 1114112 → Forall (λ b, b ≠ 0) (Audit.utf8 c) ∧ Audit.utf8 c ≠ [].
Proof.
  intros Hc. unfold Audit.utf8. repeat match goal with |- context [?a <? ?b] => destruct (N.ltb_spec a b) end;
    (split; [repeat constructor; lia|done]).
Qed.

Lemma le_bytes32_value n :
  n < 4294967296 →
  n = n mod 256 + 256 * (n / 256 mod 256) + 65536 * (n / 65536 mod 256) + 16777216 * (n / 16777216 mod 256).
Proof.
  intros Hn. change 65536 with (256 * 256). change 16777216 with (256 * 256 * 256).
  rewrite <-!N.Div0.div_div. lia.
Qed.

Lemma le_bytes32_inj n n' : n < 4294967296 → n' < 4294967296 → le_bytes32 n = le_bytes32 n' → n = n'.
Proof.
  unfold le_bytes32. intros Hn Hn' [=]. rewrite (le_bytes32_value n Hn), (le_bytes32_value n' Hn'). congruence.
Qed.

Lemma as_bytes_inj t t' : plain t → plain t' → Audit.as_bytes t = Audit.as_bytes t' → t = t'.
Proof.
  unfold Audit.as_bytes. intros Ht. revert t'. induction Ht as [|c t Hc _ IH]; intros t' Ht'; destruct Ht' as [|c' t' Hc' Ht']; cbn.
  - done.
  - intros Heq. destruct (utf8_nonzero c' Hc') as [_ Hne]. by destruct (Audit.utf8 c').
  - intros Heq. destruct (utf8_nonzero c Hc) as [_ Hne]. by destruct (Audit.utf8 c).
  - intros [-> Heq]%utf8_inj; [|done..]. f_equal. auto.
Qed.

Lemma as_bytes_nonzero t : plain t → Forall (λ b, b ≠ 0) (Audit.as_bytes t).
Proof.
  unfold Audit.as_bytes. induction 1 as [|c t Hc _ IH]; [constructor|]. cbn. apply Forall_app. split; [|done].
  by apply utf8_nonzero.
Qed.

(** The first zero byte ends the component. *)
Lemma until_zero (a a' r r' : list N) :
  Forall (λ b, b ≠ 0) a → Forall (λ b, b ≠ 0) a' → a ++ [0] ++ r = a' ++ [0] ++ r' → a = a' ∧ r = r'.
Proof.
  intros Ha. revert a'. induction Ha as [|b a Hb _ IH]; intros a' Ha'; destruct Ha' as [|b' a' Hb' Ha']; cbn; intros [=].
  - done.
  - by subst.
  - by subst.
  - destruct (IH a') as [-> ->]; [done|done|]. by subst.
Qed.

Lemma component_inj t t' (r r' : list N) :
  plain t → plain t' → Audit.as_bytes t ++ [0] ++ r = Audit.as_bytes t' ++ [0] ++ r' → t = t' ∧ r = r'.
Proof.
  intros Ht Ht' [Heq ->]%until_zero; [|by apply as_bytes_nonzero..]. split; [|done]. by apply as_bytes_inj.
Qed.

(** When SHA-256 has no collision among the inputs, the fingerprint of a
    problem determines its domain, subject, category, failure signature and rubric
    version, for texts that hold no NUL: changing any of them gives another
    fingerprint. *)
Theorem fingerprint_separates_problems {HC : LedgerCodec} d s c f v d' s' c' f' v' :
  (∀ a b, sha256_hex a = sha256_hex b → a = b) →
  plain d → plain s → plain c → plain f → v < 4294967296 →
  plain d' → plain s' → plain c' → plain f' → v' < 4294967296 →
  problem_fingerprint d s c f v = problem_fingerprint d' s' c' f' v' ↔
  d = d' ∧ s = s' ∧ c = c' ∧ f = f' ∧ v = v'.
Proof.
  intros Hinj Hd Hs Hc Hf Hv Hd' Hs' Hc' Hf' Hv'. split; [|by intros (-> & -> & -> & -> & ->)].
  intros Heq%Hinj. unfold fingerprint_input in Heq. apply component_inj in Heq as [-> Heq]; [|done..].
  apply component_inj in Heq as [-> Heq]; [|done..]. apply component_inj in Heq as [-> Heq]; [|done..].
  apply component_inj in Heq as [-> Heq]; [|done..]. by apply le_bytes32_inj in Heq as ->.
Qed.

(** ** What the records say of the history

    A history is the list of the recorded events. *)

(** The findings with a fingerprint, the first one first. *)
Definition finding_with (fingerprint : text) (event : LedgerEvent) : option ProblemFinding :=
  match event with
  | ProblemObserved _ finding fingerprint' _ => if bool_decide (fingerprint' = fingerprint) then Some finding else None
  | ProblemTransitioned _ _ _ => None
  end.

Definition findings (fingerprint : text) (history : list LedgerEvent) : list ProblemFinding :=
  omap (finding_with fingerprint) history.

(** The transitions of a problem. *)
Definition move_of (id : text) (event : LedgerEvent) : option ProblemTransition :=
  match event with
  | ProblemObserved _ _ _ _ => None
  | ProblemTransitioned _ t _ => if bool_decide (pt_problem_id t = id) then Some t else None
  end.

Definition moves (id : text) (history : list LedgerEvent) : list ProblemTransition := omap (move_of id) history.

(** The state after transitions that are allowed and start where the one before
    ended. *)
Fixpoint lifecycle (state : ProblemState) (ts : list ProblemTransition) : option ProblemState :=
  match ts with
  | [] => Some state
  | t :: ts =>
      if bool_decide (pt_old_state t = state) && is_valid_transition (pt_old_state t) (pt_new_state t)
      then lifecycle (pt_new_state t) ts else None
  end.

(** The fields that never change. *)
Definition identity (r : ProblemRecord) :=
  (pr_problem_id r, pr_category r, pr_subtype r, pr_domain r, pr_subject r, pr_severity r, pr_first_seen_at_ms r,
   (pr_expected_summary r, pr_observed_summary r, pr_failure_signature r)).

Record tells (history : list LedgerEvent) (fingerprint : text) (r : ProblemRecord) : Prop := {
  tl_identity : ∃ first, head (findings fingerprint history) = Some first ∧ identity r = identity (first_record first);
  tl_state : lifecycle Observed (moves (pr_problem_id r) history) = Some (pr_state r);
  tl_count : pr_occurrence_count r = N.min (N.of_nat (length (findings fingerprint history))) u64_max;
  tl_confidence : pr_confidence_millis r = foldr N.max 0 (pf_confidence_millis <$> findings fingerprint history);
  tl_evidence : ∀ e, e ∈ pr_evidence_ids r ↔
    (∃ f, f ∈ findings fingerprint history ∧ e ∈ pf_evidence_ids f)
    ∨ ∃ t, t ∈ moves (pr_problem_id r) history ∧ e ∈ pt_evidence_ids t;
  tl_versions : ∀ v, v ∈ pr_affected_versions r ↔ ∃ f, f ∈ findings fingerprint history ∧ v ∈ pf_affected_versions f;
  tl_resolution : ∀ e, e ∈ pr_resolution_evidence r ↔
    ∃ t, t ∈ moves (pr_problem_id r) history ∧ resolves (pt_new_state t) = true ∧ e ∈ pt_evidence_ids t;
  tl_regression : ∀ e, e ∈ pr_regression_evidence r ↔
    ∃ t, t ∈ moves (pr_problem_id r) history ∧ pt_new_state t = Regressed ∧ e ∈ pt_evidence_ids t;
}.

Record projects (history : list LedgerEvent) (p : Projection) : Prop := {
  pj_known : ∀ fp id, pj_fingerprints p !! fp = Some id ↔
    ∃ first, head (findings fp history) = Some first ∧ pf_problem_id first = id;
  pj_tells : ∀ fp id, pj_fingerprints p !! fp = Some id → ∃ r, pj_records p !! id = Some r ∧ tells history fp r;
  pj_total : ∀ id r, pj_records p !! id = Some r → pr_problem_id r = id ∧ ∃ fp, pj_fingerprints p !! fp = Some id;
  pj_unique : ∀ fp fp' id, pj_fingerprints p !! fp = Some id → pj_fingerprints p !! fp' = Some id → fp = fp';
  pj_unmoved : ∀ id, pj_records p !! id = None → moves id history = [];
}.

(** The guards of [observe] and [transition]. *)
Definition accepted (p : Projection) (event : LedgerEvent) : Prop :=
  match event with
  | ProblemObserved _ finding _ _ => pj_records p !! pf_problem_id finding = None
  | ProblemTransitioned _ t _ =>
      is_valid_transition (pt_old_state t) (pt_new_state t) = true
      ∧ ∃ r, pj_records p !! pt_problem_id t = Some r ∧ pr_state r = pt_old_state t
  end.

Lemma elem_of_push_new more l x : x ∈ push_new more l ↔ x ∈ l ∨ x ∈ more.
Proof.
  unfold push_new. revert l. induction more as [|y more IH]; intros l; cbn; [set_solver|]. rewrite IH.
  case_bool_decide; set_solver.
Qed.

Lemma findings_snoc fp history event :
  findings fp (history ++ [event]) =
  findings fp history ++ match finding_with fp event with Some f => [f] | None => [] end.
Proof. unfold findings. rewrite omap_app. cbn. by destruct (finding_with fp event). Qed.

Lemma moves_snoc id history event :
  moves id (history ++ [event]) = moves id history ++ match move_of id event with Some t => [t] | None => [] end.
Proof. unfold moves. rewrite omap_app. cbn. by destruct (move_of id event). Qed.

Lemma lifecycle_snoc state ts s t :
  lifecycle state ts = Some s → pt_old_state t = s → is_valid_transition (pt_old_state t) (pt_new_state t) = true →
  lifecycle state (ts ++ [t]) = Some (pt_new_state t).
Proof.
  revert state. induction ts as [|t' ts IH]; intros state; cbn.
  - intros [= ->] -> ->. by rewrite bool_decide_eq_true_2.
  - case_match; [|done]. eauto.
Qed.

Lemma head_snoc {A} (l : list A) x y : head l = Some x → head (l ++ [y]) = Some x.
Proof. by destruct l. Qed.

Lemma exists_snoc {A} (P : A → Prop) l x : (∃ y, y ∈ l ++ [x] ∧ P y) ↔ (∃ y, y ∈ l ∧ P y) ∨ P x.
Proof. setoid_rewrite elem_of_app. setoid_rewrite list_elem_of_singleton. naive_solver. Qed.

Lemma tells_unchanged history event fp r :
  finding_with fp event = None → move_of (pr_problem_id r) event = None →
  tells history fp r → tells (history ++ [event]) fp r.
Proof. intros Hf Hm []. split; by rewrite ?findings_snoc, ?moves_snoc, ?Hf, ?Hm, ?app_nil_r. Qed.

Lemma tells_seen_again history event_id f fp ts r :
  tells history fp r → tells (history ++ [ProblemObserved event_id f fp ts]) fp (seen_again f r).
Proof.
  intros [(first & Hfirst & Hid) Hstate Hcount Hconf Hev Hvs Hres Hreg].
  split; rewrite ?findings_snoc, ?moves_snoc; cbn [finding_with move_of]; rewrite ?bool_decide_eq_true_2, ?app_nil_r by done;
    cbn [seen_again pr_problem_id pr_state pr_occurrence_count pr_confidence_millis pr_evidence_ids pr_affected_versions
         pr_resolution_evidence pr_regression_evidence]; try done.
  - exists first. split; [by apply head_snoc|done].
  - rewrite Hcount. unfold saturating_add. rewrite length_app. cbn. lia.
  - rewrite Hconf, fmap_app, foldr_app. cbn. generalize (pf_confidence_millis <$> findings fp history). intros l.
    induction l; cbn; lia.
  - intros e. rewrite elem_of_push_new, Hev, exists_snoc. tauto.
  - intros v. by rewrite elem_of_push_new, Hvs, exists_snoc.
Qed.

Lemma tells_first_record history event_id f fp ts :
  findings fp history = [] → moves (pf_problem_id f) history = [] →
  tells (history ++ [ProblemObserved event_id f fp ts]) fp (first_record f).
Proof.
  intros Hf Hm. split; rewrite ?findings_snoc, ?moves_snoc, ?Hf; cbn [finding_with move_of first_record pr_problem_id];
    rewrite ?bool_decide_eq_true_2, ?Hm by done; cbn; first [lia | set_solver].
Qed.

Lemma tells_moved history event_id t ts fp r :
  pr_problem_id r = pt_problem_id t → is_valid_transition (pt_old_state t) (pt_new_state t) = true →
  pr_state r = pt_old_state t → tells history fp r →
  tells (history ++ [ProblemTransitioned event_id t ts]) fp (moved t r).
Proof.
  intros Hid Hvalid Hold [Hfirst Hstate Hcount Hconf Hev Hvs Hres Hreg].
  split; rewrite ?findings_snoc, ?moves_snoc; cbn [finding_with move_of moved pr_problem_id pr_state pr_occurrence_count
    pr_confidence_millis pr_evidence_ids pr_affected_versions pr_resolution_evidence pr_regression_evidence];
    rewrite ?app_nil_r, ?bool_decide_eq_true_2 by done; try done.
  - by eapply lifecycle_snoc.
  - intros e. rewrite elem_of_push_new, Hev, exists_snoc. tauto.
  - intros e. rewrite exists_snoc. destruct (resolves (pt_new_state t)); rewrite ?elem_of_push_new, Hres; intuition congruence.
  - intros e. rewrite (bool_decide_eq_true_2 (pt_problem_id t = _)), exists_snoc by done.
    case_bool_decide; rewrite ?elem_of_push_new, Hreg; tauto.
Qed.

Lemma projects_nil : projects [] new_projection.
Proof. split; cbn; [|set_solver..]. intros fp id. rewrite lookup_empty. split; [done|]. by intros (first & ? & _). Qed.

Lemma unknown_findings history p fp : projects history p → pj_fingerprints p !! fp = None → findings fp history = [].
Proof.
  intros Hp Hnone. destruct (findings fp history) as [|f l] eqn:Hf; [done|]. exfalso.
  assert (pj_fingerprints p !! fp = Some (pf_problem_id f)) as Hs; [|congruence].
  apply (pj_known _ _ Hp). exists f. by rewrite Hf.
Qed.

Lemma head_findings_snoc fp history event :
  findings fp history ≠ [] ∨ finding_with fp event = None →
  head (findings fp (history ++ [event])) = head (findings fp history).
Proof.
  rewrite findings_snoc. intros [Hne| ->]; [by destruct (findings fp history)|by rewrite app_nil_r].
Qed.

(** A finding with a known fingerprint. *)
Lemma projects_seen_again history p event_id f fp ts id :
  projects history p → pj_fingerprints p !! fp = Some id →
  projects (history ++ [ProblemObserved event_id f fp ts])
    {| pj_records := alter (seen_again f) id (pj_records p); pj_fingerprints := pj_fingerprints p |}.
Proof.
  intros Hp Hfp. destruct (pj_tells _ _ Hp _ _ Hfp) as (r & Hr & Htells). split; cbn [pj_records pj_fingerprints].
  - intros fp' id'. rewrite (pj_known _ _ Hp), head_findings_snoc; [done|]. cbn. case_bool_decide; [|by right]. subst fp'.
    left. intros Hnil. apply (pj_known _ _ Hp) in Hfp as (first & Hfirst & _). by rewrite Hnil in Hfirst.
  - intros fp' id' Hfp'. destruct (decide (fp' = fp)) as [->|Hne].
    + assert (id' = id) as -> by congruence. rewrite lookup_alter_eq, Hr. cbn. eexists. split; [done|].
      by apply tells_seen_again.
    + assert (id ≠ id') by (intros ->; by apply Hne, (pj_unique _ _ Hp fp' fp id')).
      rewrite lookup_alter_ne by done. destruct (pj_tells _ _ Hp _ _ Hfp') as (r' & Hr' & Ht'). exists r'. split; [done|].
      apply tells_unchanged; [cbn; by rewrite bool_decide_eq_false_2 by congruence|done|done].
  - intros id' r'. rewrite lookup_alter_Some. intros [(-> & r0 & Hr0 & ->)|[_ Hr']]; [|by apply (pj_total _ _ Hp)].
    by apply (pj_total _ _ Hp) in Hr0.
  - apply (pj_unique _ _ Hp).
  - intros id'. rewrite lookup_alter_None, moves_snoc. cbn. rewrite app_nil_r. apply (pj_unmoved _ _ Hp).
Qed.

(** The first finding of a problem. *)
Lemma projects_first history p event_id f fp ts :
  projects history p → pj_fingerprints p !! fp = None → pj_records p !! pf_problem_id f = None →
  projects (history ++ [ProblemObserved event_id f fp ts])
    {| pj_records := <[pf_problem_id f := first_record f]> (pj_records p);
       pj_fingerprints := <[fp := pf_problem_id f]> (pj_fingerprints p) |}.
Proof.
  intros Hp Hfp Hr. pose proof (unknown_findings _ _ _ Hp Hfp) as Hnil. split; cbn [pj_records pj_fingerprints].
  - intros fp' id'. destruct (decide (fp' = fp)) as [->|Hne].
    + rewrite lookup_insert_eq, findings_snoc, Hnil. cbn. rewrite bool_decide_eq_true_2 by done. cbn. naive_solver.
    + rewrite lookup_insert_ne by done. rewrite (pj_known _ _ Hp), head_findings_snoc; [done|]. right. cbn.
      by rewrite bool_decide_eq_false_2.
  - intros fp' id'. rewrite lookup_insert_Some. intros [[<- <-]|[Hne Hfp']].
    + rewrite lookup_insert_eq. eexists. split; [done|]. apply tells_first_record; [done|]. by apply (pj_unmoved _ _ Hp).
    + destruct (pj_tells _ _ Hp _ _ Hfp') as (r' & Hr' & Ht'). exists r'. split.
      * rewrite lookup_insert_ne; [done|]. congruence.
      * apply tells_unchanged; [cbn; by rewrite bool_decide_eq_false_2|done|done].
  - intros id' r'. rewrite lookup_insert_Some. intros [[<- <-]|[Hne Hr']].
    + split; [done|]. exists fp. apply lookup_insert_eq.
    + destruct (pj_total _ _ Hp _ _ Hr') as (Hid & fp' & Hfp'). split; [done|]. exists fp'.
      rewrite lookup_insert_ne; [done|]. congruence.
  - intros fp1 fp2 id'. rewrite !lookup_insert_Some. intros [[<- <-]|[H1 H1']] [[<- Heq]|[H2 H2']]; try done.
    + destruct (pj_tells _ _ Hp _ _ H2') as (? & ? & _). congruence.
    + destruct (pj_tells _ _ Hp _ _ H1') as (? & ? & _). congruence.
    + by apply (pj_unique _ _ Hp fp1 fp2 id').
  - intros id'. rewrite lookup_insert_None, moves_snoc. cbn. rewrite app_nil_r. intros [? _]. by apply (pj_unmoved _ _ Hp).
Qed.

Lemma projects_moved history p event_id t ts r :
  projects history p → is_valid_transition (pt_old_state t) (pt_new_state t) = true →
  pj_records p !! pt_problem_id t = Some r → pr_state r = pt_old_state t →
  projects (history ++ [ProblemTransitioned event_id t ts])
    {| pj_records := alter (moved t) (pt_problem_id t) (pj_records p); pj_fingerprints := pj_fingerprints p |}.
Proof.
  intros Hp Hvalid Hr Hold. destruct (pj_total _ _ Hp _ _ Hr) as (Hid & _). split; cbn [pj_records pj_fingerprints].
  - intros fp id. rewrite (pj_known _ _ Hp), head_findings_snoc; [done|]. by right.
  - intros fp id Hfp. destruct (pj_tells _ _ Hp _ _ Hfp) as (r' & Hr' & Ht').
    destruct (decide (id = pt_problem_id t)) as [->|Hne].
    + rewrite lookup_alter_eq, Hr'. cbn. eexists. split; [done|]. assert (r' = r) as -> by congruence.
      by apply tells_moved.
    + rewrite lookup_alter_ne by done. exists r'. split; [done|]. apply tells_unchanged; [done| |done]. cbn.
      destruct (pj_total _ _ Hp _ _ Hr') as [-> _]. by rewrite bool_decide_eq_false_2.
  - intros id' r'. rewrite lookup_alter_Some. intros [(<- & r0 & Hr0 & ->)|[_ Hr']]; [|by apply (pj_total _ _ Hp)].
    by apply (pj_total _ _ Hp) in Hr0.
  - apply (pj_unique _ _ Hp).
  - intros id'. rewrite lookup_alter_None, moves_snoc. cbn. intros Hnone. rewrite bool_decide_eq_false_2 by congruence.
    rewrite app_nil_r. by apply (pj_unmoved _ _ Hp).
Qed.

Lemma projects_step history p event :
  projects history p → accepted p event → projects (history ++ [event]) (apply_event p event).
Proof.
  intros Hp. destruct event as [event_id f fp ts|event_id t ts]; cbn.
  - intros Hnone. destruct (pj_fingerprints p !! fp) as [id|] eqn:Hfp; [by apply projects_seen_again|].
    rewrite bool_decide_eq_true_2 by done. by apply projects_first.
  - intros (Hvalid & r & Hr & Hold). by eapply projects_moved.
Qed.

Lemma tells_same history fp r r' : tells history fp r → tells history fp r' → pr_problem_id r = pr_problem_id r'.
Proof.
  intros H1 H2. destruct (tl_identity _ _ _ H1) as (f & Hf & Hid), (tl_identity _ _ _ H2) as (f' & Hf' & Hid').
  assert (f' = f) as -> by congruence. unfold identity in *. congruence.
Qed.

Lemma observed_is_told history p event_id f fp ts :
  projects history p → ProblemObserved event_id f fp ts ∈ history →
  ∃ r, pj_records p !! pr_problem_id r = Some r ∧ tells history fp r.
Proof.
  intros Hp Hin. destruct (pj_fingerprints p !! fp) as [id|] eqn:Hfp.
  - destruct (pj_tells _ _ Hp _ _ Hfp) as (r & Hr & Ht). destruct (pj_total _ _ Hp _ _ Hr) as [Hid _].
    exists r. by rewrite Hid.
  - pose proof (unknown_findings _ _ _ Hp Hfp) as Hnil. exfalso.
    assert (f ∈ findings fp history) as Hf; [|rewrite Hnil in Hf; by apply elem_of_nil in Hf].
    apply list_elem_of_omap. eexists. split; [done|]. cbn. by rewrite bool_decide_eq_true_2.
Qed.

(** ** Runs of the ledger *)

(** A JSON object on one line is read back. *)
Class LedgerLaws `{HC : LedgerCodec} : Prop :=
  envelope_line : ∀ envelope line, envelope_json envelope = inr line →
    parse_envelope line = inr envelope ∧ Forall (λ c, c ≠ newline) line ∧ last line ≠ Some return_
    ∧ trim line = line ∧ line ≠ [].

Section Runs.
Context {HE : Env} {HC : LedgerCodec} {HF : LedgerFile} {HL : LedgerLaws}.

(** The file is found when it is there, and a line is written whole or not at
    all.  Opening and reading may fail. *)
Definition whole_lines : Prop :=
  (∀ n, stat_failure n = false)
  ∧ (∀ n k e, write_failure n = Some (k, e) → k = 0%nat) ∧ (∀ n k e, flush_failure n = Some (k, e) → k = 0%nat).

(** [ls] are the lines of the events. *)
Definition written (event : LedgerEvent) (line : text) : Prop :=
  envelope_json {| le_schema_version := PROBLEM_EVENT_SCHEMA_V1; le_event := event |} = inr line.

Definition holds (history : list LedgerEvent) (file : option text) : Prop :=
  ∃ ls, Forall2 written history ls ∧ default [] file = Audit.log_text ls.

Definition replay (history : list LedgerEvent) : Projection := foldl apply_event new_projection history.

Lemma replay_snoc history event : replay (history ++ [event]) = apply_event (replay history) event.
Proof. unfold replay. by rewrite foldl_app. Qed.

Lemma replay_lines_ok history ls p :
  Forall2 written history ls → replay_lines p ls = Ok (foldl apply_event p history).
Proof.
  intros Hall. revert p. induction Hall as [|event line history ls Hw _ IH]; intros p; cbn [replay_lines]; [done|].
  destruct (envelope_line _ _ Hw) as (Hparse & _ & _ & Htrim & Hne). cbv zeta. rewrite Htrim.
  destruct line as [|c line]; [done|]. cbn [is_empty]. rewrite Hparse. cbn. apply IH.
Qed.

Lemma lines_of_events history ls : Forall2 written history ls → lines (Audit.log_text ls) = ls.
Proof.
  intros Hall. apply Audit.audit_lines_terminated. induction Hall as [|event line history ls Hw _ IH]; constructor; [|done].
  destruct (envelope_line _ _ Hw) as (_ & Hnl & Hcr & _). done.
Qed.

(** Opening the ledger rebuilds the projection of the history. *)
Lemma new_replays history l n :
  whole_lines → holds history (lg_file l) →
  wp new (λ r l' _, lg_file l' = lg_file l ∧ match r with
    | Ok _ => lg_projection l' = replay history
    | Err _ => True
    | Panic => False
    end) l n.
Proof.
  intros (Hstat & _) (ls & Hls & Hfile). unfold new. apply wp_bind, wp_tick, wp_bind, wp_get. rewrite Hstat.
  destruct (lg_file l) as [contents|] eqn:Hf; cbn in Hfile.
  - apply wp_bind, wp_tick. destruct (open_failure _); [by apply wp_throw|].
    apply wp_bind, wp_tick. destruct (read_failure _); [by apply wp_throw|].
    subst contents. rewrite (lines_of_events _ _ Hls), (replay_lines_ok _ _ _ Hls). by apply wp_modify.
  - apply wp_modify. split; [done|]. destruct Hls as [|event line ? ? ? ?]; [done|]. by destruct line.
Qed.

(** An event goes to the file and the projection, or to neither. *)
Lemma record_event_holds history event l n :
  whole_lines → holds history (lg_file l) →
  wp (record_event event) (λ r l' _, match r with
    | Ok _ => holds (history ++ [event]) (lg_file l') ∧ lg_projection l' = apply_event (lg_projection l) event
    | Err _ => holds history (lg_file l') ∧ lg_projection l' = lg_projection l
    | Panic => False
    end) l n.
Proof.
  intros (_ & Hwrite & Hflush) (ls & Hls & Hfile). unfold record_event, append_event. apply wp_bind.
  destruct (envelope_json _) as [e|line] eqn:Hjson; [apply wp_throw; by split; [exists ls|]|]. cbv zeta.
  assert (Hnone : ∀ f, f = default [] (lg_file l) → holds history (Some (f ++ take 0 (line ++ [newline])))).
  { intros f ->. exists ls. cbn. by rewrite app_nil_r. }
  apply wp_bind, wp_tick. destruct (open_failure _); [apply wp_throw; by split; [exists ls|]|].
  apply wp_bind, wp_modify, wp_bind, wp_tick. destruct (write_failure _) as [[k e]|] eqn:Hw.
  { apply Hwrite in Hw as ->. apply wp_bind, wp_modify, wp_throw. split; [|done]. cbn. apply Hnone. by rewrite app_nil_r. }
  apply wp_bind, wp_tick. destruct (flush_failure _) as [[k e]|] eqn:Hfl.
  { apply Hflush in Hfl as ->. apply wp_bind, wp_modify, wp_throw. split; [|done]. cbn. apply Hnone. by rewrite app_nil_r. }
  apply wp_modify, wp_modify. cbn. split; [|done]. exists (ls ++ [line]). split; [by apply Forall2_app, Forall2_cons_2|].
  cbn. rewrite app_nil_r, Hfile. unfold Audit.log_text. by rewrite bind_app, bind_singleton.
Qed.

(** What the ledger is asked; [Reopen] starts another process on the file. *)
Inductive Call :=
| Observe (finding : ProblemFinding)
| Move (event : ProblemTransition)
| Get (id : text)
| ListActive
| Reopen.

Definition call (c : Call) : M Ledger ProblemError unit :=
  match c with
  | Observe finding => observe finding
  | Move event => transition event
  | Get id => get id ;; mret tt
  | ListActive => active ;; mret tt
  | Reopen => new
  end.

(** The event of a call that succeeds, the [n]-th external call being its first. *)
Definition event_of (n : N) (c : Call) : list LedgerEvent :=
  match c with
  | Observe finding =>
      [ProblemObserved (lit "evt-" ++ lit (uuid_display (uuid_v4 n))) finding (fingerprint_of finding)
         (pf_observed_at_ms finding)]
  | Move event => [ProblemTransitioned (pt_event_id event) event (pt_timestamp_ms event)]
  | Get _ | ListActive | Reopen => []
  end.

(** The events of the calls that succeeded, in order.  A process whose ledger did
    not open makes no calls. *)
Fixpoint run (calls : list Call) (opened : bool) (l : Ledger) (n : N) : list LedgerEvent * bool * Ledger * N :=
  match calls with
  | [] => ([], opened, l, n)
  | c :: calls =>
      if opened || match c with Reopen => true | _ => false end then
        let '(r, l, n') := call c l n in
        let success := match r with Ok _ => true | _ => false end in
        let '(events, opened, l, n'') := run calls (match c with Reopen => success | _ => true end) l n' in
        ((if success then event_of n c else []) ++ events, opened, l, n'')
      else run calls opened l n
  end.

(** An observed finding has its own fingerprint. *)
Definition printed (event : LedgerEvent) : Prop :=
  match event with ProblemObserved _ finding fingerprint _ => fingerprint = fingerprint_of finding | _ => True end.

Lemma event_of_printed n c : Forall printed (event_of n c).
Proof. destruct c; repeat constructor. Qed.

(** The file holds the history, and an open ledger has its projection. *)
Record keeps (history : list LedgerEvent) (opened : bool) (l : Ledger) : Prop := {
  kp_file : holds history (lg_file l);
  kp_projects : projects history (replay history);
  kp_projection : opened = true → lg_projection l = replay history;
}.

Lemma keeps_event history event l n :
  whole_lines → keeps history true l → accepted (replay history) event →
  wp (record_event event) (λ r l' _, match r with
    | Ok _ => keeps (history ++ [event]) true l'
    | Err _ => keeps history true l'
    | Panic => False
    end) l n.
Proof.
  intros Hio [Hfile Hproj Hlp] Hacc. eapply wp_mono; [by apply record_event_holds|]. cbn.
  intros [[]|e|] l' n'; [|intros [? Heq]; split; [done|done|by rewrite Heq]|done]. intros [Hf Hp].
  split; [done|rewrite replay_snoc; by apply projects_step|]. intros _. by rewrite replay_snoc, Hp, Hlp.
Qed.

Lemma call_keeps history opened c l n :
  whole_lines → keeps history opened l → opened = true ∨ c = Reopen →
  let '(r, l', n') := call c l n in
  r ≠ Panic ∧ match r with
  | Ok _ => keeps (history ++ event_of n c) true l'
  | _ => keeps history (match c with Reopen => false | _ => true end) l'
  end.
Proof.
  intros Hio Hk Hopen. change (wp (call c) (λ r l' _, r ≠ Panic ∧ match r with
    | Ok _ => keeps (history ++ event_of n c) true l'
    | _ => keeps history (match c with Reopen => false | _ => true end) l'
    end) l n).
  destruct c as [f|t|id| |]; cbn [call event_of]; rewrite ?app_nil_r;
    [destruct Hopen as [->|]; [|done]..|].
  - unfold observe. apply wp_bind, wp_get, wp_bind, wp_ensure; [|done]. intros Hnew%negb_true_iff%bool_decide_eq_false.
    apply wp_bind, wp_new_uuid. eapply wp_mono; [apply (keeps_event history); [done|done|]|].
    + cbn. rewrite (kp_projection _ _ _ Hk eq_refl) in Hnew. by apply eq_None_not_Some.
    + by intros [[]|e|].
  - unfold transition. apply wp_bind, wp_ensure; [|done]. intros Hvalid. apply wp_bind, wp_get, wp_bind, wp_ok_or; [|done].
    intros r Hr. apply wp_bind, wp_ensure; [|done]. intros Hold%bool_decide_eq_true.
    eapply wp_mono; [apply (keeps_event history); [done|done|]|].
    + cbn. rewrite (kp_projection _ _ _ Hk eq_refl) in Hr. split; [done|]. by exists r.
    + by intros [[]|e|].
  - unfold get. by wp_steps.
  - unfold active. by wp_steps.
  - destruct Hk as [Hfile Hproj _]. eapply wp_mono; [by apply new_replays|]. cbn.
    intros [[]|e|] l' n'; [|intros [Hf _]; split; [done|]; split; [by rewrite Hf|done|done]|by intros [_ ?]]. intros [Hf Hp]. split; [done|]. split; [by rewrite Hf|done|done].
Qed.

Lemma run_keeps calls history opened l n :
  whole_lines → keeps history opened l → Forall printed history →
  let '(events, opened', l', n') := run calls opened l n in
  keeps (history ++ events) opened' l' ∧ Forall printed (history ++ events).
Proof.
  intros Hio. revert history opened l n. induction calls as [|c calls IH]; intros history opened l n Hk Hp; cbn [run].
  { by rewrite app_nil_r. }
  destruct (opened || _) eqn:Hopen; [|by apply IH].
  assert (opened = true ∨ c = Reopen) as Hor by (destruct opened, c; auto).
  pose proof (call_keeps history opened c l n Hio Hk Hor) as Hc. destruct (call c l n) as [[r l1] n1].
  destruct Hc as [Hpanic Hc]. assert (∃ success, match r with Ok _ => true | _ => false end = success
    ∧ keeps (history ++ if success then event_of n c else []) (match c with Reopen => success | _ => true end) l1)
    as (success & -> & Hk1).
  { destruct r; [exists true|exists false..]; (split; [done|]); rewrite ?app_nil_r; [|done..]. destruct c; exact Hc. }
  assert (Forall printed (history ++ if success then event_of n c else [])) as Hp1.
  { apply Forall_app. split; [done|]. destruct success; [apply event_of_printed|constructor]. }
  specialize (IH _ _ l1 n1 Hk1 Hp1). destruct (run calls _ l1 n1) as [[[events opened'] l'] n'].
  by rewrite <-!app_assoc in IH.
Qed.

Definition no_ledger : Ledger := {| lg_file := None; lg_projection := new_projection |}.

Lemma no_ledger_keeps : keeps [] false no_ledger.
Proof. split; [by exists []|apply projects_nil|done]. Qed.

(** C35. The ledger of problems is durable as long as the file system neither tears
    a line nor hides the file ([whole_lines]: a write or a flush that fails leaves
    nothing of its line behind, and whether the file exists can be found out).  Over
    any calls, with the failures to open, read, write and flush the file that are left
    and restarts of the process, an open ledger has
    exactly the projection of the acknowledged events in their order; and whenever
    the file can be opened and read, a new process finds that projection again and
    leaves the file as it is. *)
Theorem problem_ledger_is_durable calls n :
  whole_lines →
  let '(history, opened, l, _) := run calls false no_ledger n in
  (opened = true → lg_projection l = replay history)
  ∧ ∀ m, (∀ i, open_failure i = None) → (∀ i, read_failure i = None) →
      let '(r, l', _) := new l m in
      r = Ok tt ∧ lg_projection l' = replay history ∧ lg_file l' = lg_file l.
Proof.
  intros Hio. pose proof (run_keeps calls [] false no_ledger n Hio no_ledger_keeps (Forall_nil_2 _)) as Hrun.
  destruct (run calls false no_ledger n) as [[[history opened] l] n']. cbn [app] in Hrun.
  destruct Hrun as [[Hfile Hproj Hlp] _]. split; [done|]. intros m Hopen Hread.
  pose proof (new_replays history l m Hio Hfile) as Hnew. unfold wp in Hnew.
  assert (Hok : match new l m with (Err _, _, _) => False | _ => True end).
  { destruct Hio as (Hstat & _), Hfile as (ls & Hls & Hfile). unfold new, mbind, M_bind, tick, get_state. cbn.
    rewrite Hstat. destruct (lg_file l) as [contents|]; cbn in *; [|done]. rewrite Hopen. cbn. rewrite Hread, Hfile.
    by rewrite (lines_of_events _ _ Hls), (replay_lines_ok _ _ _ Hls). }
  destruct (new l m) as [[[[]|e|] l'] m']; [|done|by destruct Hnew]. destruct Hnew as [Hf Hp]. done.
Qed.

(** C3. The records tell the history, over any calls, restarts and failures of the
    file that tear no line and do not hide the file ([whole_lines]); what a torn line
    and a failed flush that wrote its line do is [torn_line_blocks_the_ledger] and
    [refused_event_comes_back] below.  In an open ledger every record is filed
    under its identifier and speaks for one fingerprint of its own: its fixed fields
    are those of the first finding with the fingerprint, its occurrences count all
    of them, its confidence is their largest, its evidence and versions are all of
    theirs with the evidence of the transitions, and its state is where the
    transitions lead, each allowed and starting where the one before ended.  Every
    acknowledged finding is counted in such a record, and [active] lists the records
    in an active state. *)
Theorem problem_records_tell_the_history {HOk : EnvOk} calls n :
  whole_lines →
  let '(history, opened, l, _) := run calls false no_ledger n in
  opened = true →
  (∀ id r, pj_get (lg_projection l) id = Some r → pr_problem_id r = id
    ∧ ∃ fp, tells history fp r
      ∧ ∀ id' r', pj_get (lg_projection l) id' = Some r' → tells history fp r' → id' = id)
  ∧ (∀ event_id f fp ts, ProblemObserved event_id f fp ts ∈ history →
      fp = fingerprint_of f ∧ ∃ r, pj_get (lg_projection l) (pr_problem_id r) = Some r ∧ tells history fp r)
  ∧ ∀ i r, r ∈ pj_active i (lg_projection l) ↔
      pj_get (lg_projection l) (pr_problem_id r) = Some r ∧ is_active (pr_state r) = true.
Proof.
  intros Hio. pose proof (run_keeps calls [] false no_ledger n Hio no_ledger_keeps (Forall_nil_2 _)) as Hrun.
  destruct (run calls false no_ledger n) as [[[history opened] l] n']. cbn [app] in Hrun.
  destruct Hrun as [[_ Hproj Hlp] Hprint]. intros Hopen. rewrite (Hlp Hopen). clear Hlp. unfold pj_get. split_and!.
  - intros id r Hr. destruct (pj_total _ _ Hproj _ _ Hr) as (Hid & fp & Hfp). split; [done|]. exists fp.
    destruct (pj_tells _ _ Hproj _ _ Hfp) as (r0 & Hr0 & Ht). assert (r0 = r) as -> by congruence. split; [done|].
    intros id' r' Hr' Ht'. apply (pj_total _ _ Hproj) in Hr' as (<- & _).
    by rewrite (tells_same _ _ _ _ Ht' Ht).
  - intros event_id f fp ts Hin. rewrite Forall_forall in Hprint. split; [by apply (Hprint _ Hin)|].
    by eapply observed_is_told.
  - intros i r. unfold pj_active. rewrite list_elem_of_In, filter_In, <-list_elem_of_In, elem_of_hash_values.
    split; [|naive_solver]. intros [(k & Hk) Ha]. by destruct (pj_total _ _ Hproj _ _ Hk) as [-> _].
Qed.

End Runs.

End Problems.

(** ** A ledger at work *)
Module ProblemSample.
Import Problems.

#[local] Instance ProblemSeverity_eq_dec : EqDecision ProblemSeverity.
Proof. solve_decision. Defined.

#[local] Instance ProblemFinding_eq_dec : EqDecision ProblemFinding.
Proof. solve_decision. Defined.

#[local] Instance ProblemTransition_eq_dec : EqDecision ProblemTransition.
Proof. solve_decision. Defined.

#[local] Instance LedgerEvent_eq_dec : EqDecision LedgerEvent.
Proof. solve_decision. Defined.

#[local] Instance LedgerEnvelope_eq_dec : EqDecision LedgerEnvelope.
Proof. solve_decision. Defined.

(** A codec for the envelopes of a table: [{0}], [{1}] and so on. *)
Definition numbered (i : nat) : text := lit "{" ++ lit (pretty (N.of_nat i)) ++ lit "}".

Definition table_json (table : list LedgerEnvelope) (e : LedgerEnvelope) : text + text :=
  match list_find (λ e', e' = e) table with Some (i, _) => inr (numbered i) | None => inl (lit "unknown") end.

Definition table_parse (table : list LedgerEnvelope) (line : text) : text + LedgerEnvelope :=
  match list_find (λ i, numbered i = line) (seq 0 (length table)) ≫= (λ found, table !! found.2) with
  | Some e => inr e
  | None => inl (lit "not an event")
  end.

Definition table_codec (table : list LedgerEnvelope) : LedgerCodec :=
  {| envelope_json := table_json table; parse_envelope := table_parse table; sha256_hex bytes := bytes |}.

Definition table_checks (table : list LedgerEnvelope) : bool :=
  forallb (λ e, match table_json table e with
    | inr line => bool_decide (table_parse table line = inr e ∧ Forall (λ c, c ≠ newline) line
                               ∧ last line ≠ Some return_ ∧ trim line = line ∧ line ≠ [])
    | inl _ => false
    end) table.

Lemma table_laws table : table_checks table = true → LedgerLaws (HC := table_codec table).
Proof.
  intros Hall e line Hjson. cbn in *. unfold table_checks in Hall. rewrite forallb_forall in Hall.
  assert (In e table) as Hin.
  { unfold table_json in Hjson. destruct (list_find _ table) as [[i e']|] eqn:Hfind; [|done].
    apply list_find_Some in Hfind as (Hlook & -> & _). by apply list_elem_of_In, list_elem_of_lookup_2 with i. }
  specialize (Hall e Hin). rewrite Hjson in Hall. by apply bool_decide_eq_true in Hall.
Qed.

Definition quiet_env : Env := {|
  uuid_v4 := N.succ;
  uuid_display := λ _, "0"%string;
  mono_now := λ _, 1000;
  wall_now := λ _, 0%Z;
  persist_io := λ _, IoOk;
  hash_order := λ _ _ l, l;
|}.

#[local] Existing Instance quiet_env.

#[local] Instance quiet_env_ok : EnvOk.
Proof. split; cbn; intros; [lia|lia|lia|done]. Qed.

(** Nothing fails. *)
Definition sound_file : LedgerFile := {|
  stat_failure _ := false; read_failure _ := None; open_failure _ := None; write_failure _ := None; flush_failure _ := None;
|}.

Definition finding (id signature : string) (at_ms : Z) : ProblemFinding := {|
  pf_problem_id := lit id; pf_category := lit "correctness"; pf_subtype := lit "type_error"; pf_domain := lit "coding";
  pf_subject := lit "rustc"; pf_severity := Medium; pf_confidence_millis := 800; pf_observed_at_ms := at_ms;
  pf_affected_versions := [lit "v1"]; pf_expected_summary := []; pf_observed_summary := [];
  pf_failure_signature := lit signature; pf_evidence_ids := [lit "ev-1"]; pf_rubric_version := 1;
|}.

Definition step (from to : ProblemState) (at_ms : Z) : ProblemTransition := {|
  pt_problem_id := lit "p1"; pt_event_id := lit "evt"; pt_old_state := from; pt_new_state := to; pt_reason := [];
  pt_evidence_ids := [lit "ev-2"]; pt_timestamp_ms := at_ms;
|}.

Definition fingerprinted (f : ProblemFinding) : text :=
  fingerprint_input (pf_domain f) (pf_subject f) (pf_category f) (pf_failure_signature f) (pf_rubric_version f).

Definition seen (f : ProblemFinding) : LedgerEvent :=
  ProblemObserved (lit "evt-0") f (fingerprinted f) (pf_observed_at_ms f).

Definition went (t : ProblemTransition) : LedgerEvent := ProblemTransitioned (lit "evt") t (pt_timestamp_ms t).

(** A problem, seen twice, disputed and resolved, and seen again. *)
Definition first_seen := finding "p1" "E0308" 100.
Definition again := finding "p2" "E0308" 110.
Definition disputed := step Observed Disputed 120.
Definition resolved := step Disputed Resolved 90.
Definition reappeared := finding "p3" "E0308" 200.

Definition sample_events : list LedgerEvent := [seen first_seen; seen again; went disputed; went resolved; seen reappeared].

Definition sample_table : list LedgerEnvelope :=
  (λ e, {| le_schema_version := 1; le_event := e |}) <$> sample_events.

#[local] Instance sample_codec : LedgerCodec := table_codec sample_table.

#[local] Instance sample_laws : LedgerLaws.
Proof. apply table_laws. vm_compute. reflexivity. Qed.

Definition sample_calls : list Call :=
  [Reopen; Observe first_seen; Observe again; Move disputed; Move resolved; ListActive; Reopen; Observe reappeared; Get (lit "p1")].

Definition after (calls : list Call) (io : LedgerFile) : list LedgerEvent * bool * Ledger * N := run calls false no_ledger 0.

Definition record_after (calls : list Call) (io : LedgerFile) (id : string) : option ProblemRecord :=
  let '(_, _, l, _) := after calls io in pj_get (lg_projection l) (lit id).

Lemma sound_whole : whole_lines (HF := sound_file).
Proof. by split_and!. Qed.

(** What the sample leaves, computed. *)
Lemma sample_run : (run (HF := sound_file) sample_calls false no_ledger 0).1.1 = (sample_events, true).
Proof. vm_compute. reflexivity. Qed.

(** The theorems at the sample. *)
Lemma problem_ledger_is_durable_witness :
  lg_projection (after sample_calls sound_file).1.2 = replay sample_events.
Proof.
  pose proof (problem_ledger_is_durable (HF := sound_file) sample_calls 0 sound_whole) as H.
  pose proof sample_run as Hrun. unfold after. destruct (run _ _ _ _) as [[[history opened] l] n'].
  injection Hrun as -> ->. cbn. by apply H.
Defined.

Lemma problem_records_tell_the_history_witness :
  ∃ r, pj_get (lg_projection (after sample_calls sound_file).1.2) (pr_problem_id r) = Some r
       ∧ tells sample_events (fingerprinted again) r.
Proof.
  pose proof (problem_records_tell_the_history (HF := sound_file) sample_calls 0 sound_whole) as H.
  pose proof sample_run as Hrun. unfold after. destruct (run _ _ _ _) as [[[history opened] l] n'].
  injection Hrun as -> ->. cbn. destruct (H eq_refl) as (_ & Hall & _).
  apply (Hall (lit "evt-0") again (fingerprinted again) 110%Z). right. left.
Defined.

Lemma plain_check t : forallb (λ c, (0 <? c) && (c <? 1114112)) t = true → plain t.
Proof.
  rewrite forallb_forall. intros Hall. apply Forall_forall. intros c Hin%list_elem_of_In.
  specialize (Hall c Hin). by rewrite andb_true_iff, !N.ltb_lt in Hall.
Qed.

Lemma fingerprint_separates_problems_witness :
  problem_fingerprint (lit "coding") (lit "rustc") (lit "correctness") (lit "E0308") 1
  ≠ problem_fingerprint (lit "coding") (lit "clippy") (lit "correctness") (lit "E0308") 1.
Proof.
  intros Heq. apply (fingerprint_separates_problems (lit "coding") (lit "rustc") (lit "correctness") (lit "E0308") 1
    (lit "coding") (lit "clippy") (lit "correctness") (lit "E0308") 1) in Heq;
    [by destruct Heq as (_ & ? & _)|intros a b Hab; exact Hab|..]; first [by apply plain_check|done].
Defined.

(** *** Where the ledger falls short *)

(** A problem that was resolved and reappears is counted, but keeps its state and
    is not listed as active: no finding makes a problem [Regressed]. *)
Example reappearing_problem_stays_resolved :
  (λ r, (pr_state r, pr_occurrence_count r)) <$> record_after sample_calls sound_file "p1" = Some (Resolved, 3)
  ∧ pj_active 0 (lg_projection (after sample_calls sound_file).1.2) = [].
Proof. vm_compute. done. Qed.

(** A transition sets the time a problem was last seen, also to an earlier one. *)
Example last_seen_goes_back :
  (λ r, (pr_first_seen_at_ms r, pr_last_seen_at_ms r))
    <$> record_after [Reopen; Observe first_seen; Move disputed; Move resolved] sound_file "p1" = Some (100%Z, 90%Z).
Proof. vm_compute. done. Qed.

(** The components of the fingerprint are not separated when they hold NUL. *)
Example nul_confuses_fingerprints :
  problem_fingerprint (lit "a" ++ [0] ++ lit "b") (lit "c") (lit "d") (lit "e") 1
  = problem_fingerprint (lit "a") (lit "b" ++ [0] ++ lit "c") (lit "d") (lit "e") 1.
Proof. vm_compute. done. Qed.

(** The second write fails after two characters. *)
Definition full_disk : LedgerFile := {|
  stat_failure _ := false; read_failure _ := None; open_failure _ := None;
  write_failure n := if n =? 7 then Some (2%nat, lit "disk full") else None; flush_failure _ := None;
|}.

(** A write that is cut short leaves half a line, and the ledger cannot be opened
    again: the next event is appended to the half line. *)
Example torn_line_blocks_the_ledger :
  let '(_, opened, l, _) := after [Reopen; Observe first_seen; Observe again; Move disputed; Reopen] full_disk in
  opened = false ∧ lg_file l = Some (lit "{0}" ++ [newline] ++ lit "{1{2}" ++ [newline])
  ∧ (new (HF := sound_file) l 100).1.1 = Err (Persistence (lit "corrupt ledger line: not an event")).
Proof. vm_compute. done. Qed.

(** The flush of the second event fails when its line is in the file. *)
Definition failing_flush : LedgerFile := {|
  stat_failure _ := false; read_failure _ := None; open_failure _ := None; write_failure _ := None;
  flush_failure n := if n =? 8 then Some (4%nat, lit "input/output error") else None;
|}.

(** An event whose flush fails is refused but may be in the file: another process
    counts it. *)
Example refused_event_comes_back :
  pr_occurrence_count <$> record_after [Reopen; Observe first_seen; Observe again] failing_flush "p1" = Some 1
  ∧ pr_occurrence_count <$> record_after [Reopen; Observe first_seen; Observe again; Reopen] failing_flush "p1" = Some 2.
Proof. vm_compute. done. Qed.

End ProblemSample.
