(* ===== verification/Evaluation.v ===== *)
(** * Evaluation of experiences and experiments (metacog/src/evaluation, evolution/experiment.rs)

    [DeterministicEvaluator] turns the scores of the dimensions and the results of
    the gates of a rubric into a report, in integers of fixed width, and holds it
    against the evidence; [decide_experiment] compares the reports before and after
    a change.  The payloads of evidence and their digests are parameters. *)
From S2P Require Import Prelude StdModel Fallible StdFloat Candidate StdText ProblemLedger.

#[local] Open Scope N_scope.

Module Evaluator.

(** ** Integers of 32 bits *)

Definition u32_max : N := 4294967295.

Definition wrap32 (n : N) : N := n mod 4294967296.

Definition wrap16 (n : N) : N := n mod 65536.

Definition checked_add32 (a b : N) : option N := if a + b <=? u32_max then Some (a + b) else None.

Definition checked_mul32 (a b : N) : option N := if a * b <=? u32_max then Some (a * b) else None.

Definition checked_add64 (a b : N) : option N := if a + b <=? u64_max then Some (a + b) else None.

(** ** Data *)

Abbreviation EvidenceId := text (only parsing).

Inductive DimensionValue := Scored (score : N) | Unknown.

Record DimensionScore := {
  ds_name : text;
  ds_value : DimensionValue;
  ds_weight_millis : N;
  ds_evidence : list EvidenceId;
  ds_reasons : list text;
}.

Record GateResult := { gr_name : text; gr_passed : bool; gr_evidence : list EvidenceId }.

Record RubricDimension := { rd_name : text; rd_weight_millis : N; rd_mandatory : bool }.

Record RubricGate := { rg_name : text; rg_description : text }.

Record Rubric := {
  rb_id : text;
  rb_version : N;
  rb_dimensions : list RubricDimension;
  rb_gates : list RubricGate;
}.

Record EvaluationReport := {
  er_rubric : text;
  er_rubric_version : N;
  er_dimensions : list DimensionScore;
  er_gates : list GateResult;
  er_weighted_total_millis : option N;
  er_evidence_coverage_millis : N;
  er_confidence_millis : N;
  er_eligible : bool;
}.

Inductive EvidenceTrust := Authoritative | Corroborated | Unverified.

Inductive EvidenceKind :=
| Assertion | Observation | ActionResult | VerificationResult | Metric | Artifact | HumanFeedback | PolicyDecision
| RuntimeFault.

Record EvaluationThresholds := {
  th_min_score_millis : N;
  th_min_evidence_coverage_millis : N;
  th_min_confidence_millis : N;
}.

Inductive EvaluationError :=
| WeightOverflow
| UnknownDimension (name : text)
| MissingDimension (name : text)
| DuplicateDimension (name : text)
| DimensionWeightMismatch (name : text)
| InvalidScore (name : text)
| UnknownGate (name : text)
| MissingGate (name : text)
| DuplicateGate (name : text)
| MissingEvidence (name : text)
| MissingGateEvidence (name : text)
| UnknownEvidenceReference (id : text)
| UnsupportedEvidenceTrust (id : text)
| EvidenceDigestMismatch (id : text)
| DuplicateEvidence (id : text)
| InvalidThreshold (what : text)
| Internal (error : text).

Abbreviation Eval := (Result EvaluationError).

(** ** [evaluate] *)

(** The loop that inserts the names in a set. *)
Fixpoint insert_names (error : text → EvaluationError) (seen : gset text) (names : list text) : Eval unit :=
  match names with
  | [] => Ok tt
  | name :: rest =>
      need (bool_decide (name ∉ seen)) (error name) ;;
      insert_names error ({[name]} ∪ seen) rest
  end.

Definition declared (rubric : Rubric) (name : text) : option RubricDimension :=
  find (λ rd, bool_decide (rd_name rd = name)) (rb_dimensions rubric).

Definition valid_score (value : DimensionValue) : bool := match value with Scored score => score <=? 100 | Unknown => true end.

Definition is_scored (ds : DimensionScore) : bool := match ds_value ds with Scored _ => true | Unknown => false end.

Fixpoint check_dimensions (rubric : Rubric) (seen : gset text) (scores : list DimensionScore) : Eval unit :=
  match scores with
  | [] => Ok tt
  | ds :: rest =>
      let name := ds_name ds in
      need (bool_decide (name ∉ seen)) (DuplicateDimension name) ;;
      need (existsb (λ rd, bool_decide (rd_name rd = name)) (rb_dimensions rubric)) (UnknownDimension name) ;;
      rd ← must (declared rubric name);
      need (ds_weight_millis ds =? rd_weight_millis rd) (DimensionWeightMismatch name) ;;
      need (valid_score (ds_value ds)) (InvalidScore name) ;;
      check_dimensions rubric ({[name]} ∪ seen) rest
  end.

Fixpoint check_gates (rubric : Rubric) (seen : gset text) (gates : list GateResult) : Eval unit :=
  match gates with
  | [] => Ok tt
  | gr :: rest =>
      let name := gr_name gr in
      need (bool_decide (name ∉ seen)) (DuplicateGate name) ;;
      need (existsb (λ rg, bool_decide (rg_name rg = name)) (rb_gates rubric)) (UnknownGate name) ;;
      check_gates rubric ({[name]} ∪ seen) rest
  end.

Definition check_complete (rubric : Rubric) (scores : list DimensionScore) : Eval unit :=
  each (rb_dimensions rubric) (λ rd,
    need (existsb (λ ds, bool_decide (ds_name ds = rd_name rd)) scores) (MissingDimension (rd_name rd))).

Definition check_all_gates (rubric : Rubric) (gates : list GateResult) : Eval unit :=
  each (rb_gates rubric) (λ rg,
    need (existsb (λ gr, bool_decide (gr_name gr = rg_name rg)) gates) (MissingGate (rg_name rg))).

(** The loop over the scores: the weighted sum and the sum of the weights. *)
Fixpoint weigh (rubric : Rubric) (sums : N * N) (scores : list DimensionScore) : Eval (N * N) :=
  match scores with
  | [] => Ok sums
  | ds :: rest =>
      rd ← must (declared rubric (ds_name ds));
      match ds_value ds with
      | Scored score =>
          product ← some_or (checked_mul32 score (rd_weight_millis rd)) WeightOverflow;
          weighted ← some_or (checked_add32 sums.1 product) WeightOverflow;
          applicable ← some_or (checked_add32 sums.2 (rd_weight_millis rd)) WeightOverflow;
          weigh rubric (weighted, applicable) rest
      | Unknown => weigh rubric sums rest
      end
  end.

Definition weighted_total (sums : N * N) : option N :=
  if sums.2 =? 0 then None else Some (wrap32 (sums.1 * 1000 / sums.2)).

(** [((applicable_dims as u32 * 1000) / total_dims as u32) as u16] *)
Definition coverage (applicable total : N) : Eval N :=
  if total =? 0 then Ok 0
  else if wrap32 total =? 0 then Panic
  else Ok (wrap16 (wrap32 (wrap32 applicable * 1000) / wrap32 total)).

Definition mandatory_scored (rubric : Rubric) (scores : list DimensionScore) : bool :=
  forallb (λ rd, existsb (λ ds, bool_decide (ds_name ds = rd_name rd) && is_scored ds) scores)
    (List.filter rd_mandatory (rb_dimensions rubric)).

Definition evaluate (rubric : Rubric) (scores : list DimensionScore) (gates : list GateResult) : Eval EvaluationReport :=
  insert_names DuplicateDimension ∅ (rd_name <$> rb_dimensions rubric) ;;
  insert_names DuplicateGate ∅ (rg_name <$> rb_gates rubric) ;;
  check_dimensions rubric ∅ scores ;;
  check_complete rubric scores ;;
  check_gates rubric ∅ gates ;;
  check_all_gates rubric gates ;;
  sums ← weigh rubric (0, 0) scores;
  let total := weighted_total sums in
  covered ← coverage (count (List.filter is_scored scores)) (count (rb_dimensions rubric));
  Ok {| er_rubric := rb_id rubric; er_rubric_version := rb_version rubric; er_dimensions := scores; er_gates := gates;
        er_weighted_total_millis := total; er_evidence_coverage_millis := covered; er_confidence_millis := covered;
        er_eligible := mandatory_scored rubric scores && forallb gr_passed gates && bool_decide (is_Some total) |}.

(** ** [evaluate_evidence_backed] *)

Section Evidence.
Context {Payload : Type}.

Record EvidenceItem := {
  ei_schema_version : N;
  ei_evidence_id : EvidenceId;
  ei_experience_id : text;
  ei_kind : EvidenceKind;
  ei_source : text;
  ei_producer : text;
  ei_captured_at_ms : Z;
  ei_payload : Payload;
  ei_sha256 : text;
  ei_trust : EvidenceTrust;
  ei_freshness_ms : option N;
  ei_redacted : bool;
}.

(** [serde_json::to_vec] and the digest of a payload *)
Class PayloadDigest := payload_sha256 : Payload → text + text.

Context `{PayloadDigest}.

(** The text of [EvaluationContractError::InvalidThreshold]. *)
Definition out_of_range (field : string) : text := lit "evaluation threshold is out of range: " ++ lit field.

Definition thresholds_validate (t : EvaluationThresholds) : Eval unit :=
  need (th_min_score_millis t <=? 100000) (InvalidThreshold (out_of_range "min_score_millis")) ;;
  need (th_min_evidence_coverage_millis t <=? 1000) (InvalidThreshold (out_of_range "min_evidence_coverage_millis")) ;;
  need (th_min_confidence_millis t <=? 1000) (InvalidThreshold (out_of_range "min_confidence_millis")).

Fixpoint validate_evidence_from (by_id : gmap EvidenceId EvidenceItem) (evidence : list EvidenceItem)
    : Eval (gmap EvidenceId EvidenceItem) :=
  match evidence with
  | [] => Ok by_id
  | item :: rest =>
      need (bool_decide (by_id !! ei_evidence_id item = None)) (DuplicateEvidence (ei_evidence_id item)) ;;
      match payload_sha256 (ei_payload item) with
      | inl error => Err (Internal error)
      | inr digest =>
          need (bool_decide (digest = ei_sha256 item)) (EvidenceDigestMismatch (ei_evidence_id item)) ;;
          validate_evidence_from (<[ei_evidence_id item := item]> by_id) rest
      end
  end.

Definition validate_evidence_set (evidence : list EvidenceItem) : Eval (gmap EvidenceId EvidenceItem) :=
  validate_evidence_from ∅ evidence.

Definition trust_millis (reference : EvidenceId) (trust : EvidenceTrust) : Eval N :=
  match trust with
  | Authoritative => Ok 1000
  | Corroborated => Ok 700
  | Unverified => Err (UnsupportedEvidenceTrust reference)
  end.

Fixpoint sum_trust (by_id : gmap EvidenceId EvidenceItem) (sum : N) (references : list EvidenceId) : Eval N :=
  match references with
  | [] => Ok sum
  | reference :: rest =>
      item ← some_or (by_id !! reference) (UnknownEvidenceReference reference);
      trust ← trust_millis reference (ei_trust item);
      sum ← some_or (checked_add32 sum trust) WeightOverflow;
      sum_trust by_id sum rest
  end.

Definition resolve_reference_trust (references : list EvidenceId) (by_id : gmap EvidenceId EvidenceItem) : Eval N :=
  sum ← sum_trust by_id 0 references;
  if wrap32 (count references) =? 0 then Panic else Ok (wrap16 (sum / wrap32 (count references))).

Fixpoint total_weight (sum : N) (dimensions : list RubricDimension) : Eval N :=
  match dimensions with
  | [] => Ok sum
  | rd :: rest => sum ← some_or (checked_add32 sum (rd_weight_millis rd)) WeightOverflow; total_weight sum rest
  end.

(** The loop over the scored dimensions: the covered weight and the sum of the
    weighted trust. *)
Fixpoint cover (rubric : Rubric) (by_id : gmap EvidenceId EvidenceItem) (sums : N * N) (scores : list DimensionScore)
    : Eval (N * N) :=
  match scores with
  | [] => Ok sums
  | ds :: rest =>
      need (negb (is_nil (ds_evidence ds))) (MissingEvidence (ds_name ds)) ;;
      trust ← resolve_reference_trust (ds_evidence ds) by_id;
      rd ← must (declared rubric (ds_name ds));
      covered ← some_or (checked_add32 sums.1 (rd_weight_millis rd)) WeightOverflow;
      confidence ← some_or (checked_add64 sums.2 (rd_weight_millis rd * trust)) WeightOverflow;
      cover rubric by_id (covered, confidence) rest
  end.

Definition back_gates (by_id : gmap EvidenceId EvidenceItem) (gates : list GateResult) : Eval unit :=
  each gates (λ gate,
    need (negb (is_nil (gr_evidence gate))) (MissingGateEvidence (gr_name gate)) ;;
    resolve_reference_trust (gr_evidence gate) by_id ;;
    Ok tt).

Definition evaluate_evidence_backed (rubric : Rubric) (scores : list DimensionScore) (gates : list GateResult)
    (evidence : list EvidenceItem) (thresholds : EvaluationThresholds) : Eval EvaluationReport :=
  thresholds_validate thresholds ;;
  report ← evaluate rubric scores gates;
  by_id ← validate_evidence_set evidence;
  weight ← total_weight 0 (rb_dimensions rubric);
  sums ← cover rubric by_id (0, 0) (List.filter is_scored (er_dimensions report));
  back_gates by_id (er_gates report) ;;
  let covered := if weight =? 0 then 0 else wrap16 (sums.1 * 1000 / weight) in
  let confidence := if sums.1 =? 0 then 0 else wrap16 (sums.2 / sums.1) in
  let score_eligible :=
    match er_weighted_total_millis report with Some score => th_min_score_millis thresholds <=? score | None => false end in
  Ok {| er_rubric := er_rubric report; er_rubric_version := er_rubric_version report;
        er_dimensions := er_dimensions report; er_gates := er_gates report;
        er_weighted_total_millis := er_weighted_total_millis report; er_evidence_coverage_millis := covered;
        er_confidence_millis := confidence;
        er_eligible := er_eligible report
          && (score_eligible && (th_min_evidence_coverage_millis thresholds <=? covered)
              && (th_min_confidence_millis thresholds <=? confidence)) |}.

End Evidence.

(** ** evolution/experiment.rs *)

Inductive ExperimentDecision := Promote | Retain | Rollback | Reject | Inconclusive.

#[global] Instance ExperimentDecision_eq_dec : EqDecision ExperimentDecision.
Proof. solve_decision. Defined.

Record EvolutionExperiment := {
  ex_baseline_version : text;
  ex_candidate_version : text;
  ex_target_problem_ids : list text;
  ex_baseline_score_distribution : list F64;
  ex_success_threshold : N;
  ex_rollback_threshold : N;
  ex_observation_window_ms : N;
  ex_observed_duration_ms : N;
}.

Record ExperimentOutcome := {
  eo_pre_reports : list EvaluationReport;
  eo_post_reports : list EvaluationReport;
  eo_regressions : list Problems.ProblemRecord;
  eo_new_problems : list Problems.ProblemRecord;
  eo_decision : ExperimentDecision;
}.

Definition median_millis (reports : list EvaluationReport) : option N :=
  match sort_by N.le (omap er_weighted_total_millis reports) with
  | [] => None
  | values =>
      let mid := (length values / 2)%nat in
      if Nat.odd (length values) then values !! mid else values !! (mid - 1)%nat
  end.

Section Decide.
Context `{UnicodeCase}.

Definition safety_failed (report : EvaluationReport) : bool :=
  existsb (λ gate, negb (gr_passed gate) && starts_with (to_lowercase (gr_name gate)) (lit "safety"))
    (er_gates report).

Definition decision_of (baseline candidate : list EvaluationReport) (experiment : EvolutionExperiment)
    : ExperimentDecision :=
  if existsb safety_failed candidate then Rollback
  else if is_nil baseline || is_nil candidate then Inconclusive
  else match median_millis baseline, median_millis candidate with
       | None, _ | _, None => Inconclusive
       | Some pre, Some post =>
           let delta := (Z.of_N post - Z.of_N pre)%Z in
           if (delta <=? - Z.of_N (ex_rollback_threshold experiment))%Z then Rollback
           else if ex_observed_duration_ms experiment <? ex_observation_window_ms experiment then Retain
           else if (Z.of_N (ex_success_threshold experiment) <=? delta)%Z && forallb er_eligible candidate then Promote
           else if (delta <? 0)%Z || existsb (λ r, negb (er_eligible r)) candidate then Reject
           else Retain
       end.

Definition decide_experiment (baseline candidate : list EvaluationReport) (experiment : EvolutionExperiment)
    : ExperimentOutcome := {|
  eo_pre_reports := baseline;
  eo_post_reports := candidate;
  eo_regressions := [];
  eo_new_problems := [];
  eo_decision := decision_of baseline candidate experiment;
|}.

End Decide.

(** ** The evaluation and its reference

    The reference has no loops that fail: sums over the scored dimensions, and
    what a well-formed input is. *)

Definition sum_over {A} (f : A → N) (l : list A) : N := foldr (λ x sum, f x + sum) 0 l.

Definition score_weight (ds : DimensionScore) : N :=
  match ds_value ds with Scored score => score * ds_weight_millis ds | Unknown => 0 end.

Definition applicable_weight (ds : DimensionScore) : N := if is_scored ds then ds_weight_millis ds else 0.

(** Every dimension and gate of the rubric is answered once, with its weight. *)
Definition well_formed (rubric : Rubric) (scores : list DimensionScore) (gates : list GateResult) : Prop :=
  NoDup (rd_name <$> rb_dimensions rubric) ∧ NoDup (rg_name <$> rb_gates rubric)
  ∧ (ds_name <$> scores) ≡ₚ (rd_name <$> rb_dimensions rubric)
  ∧ (gr_name <$> gates) ≡ₚ (rg_name <$> rb_gates rubric)
  ∧ Forall (λ ds, valid_score (ds_value ds) = true
                  ∧ ∃ rd, rd ∈ rb_dimensions rubric ∧ rd_name rd = ds_name ds
                          ∧ rd_weight_millis rd = ds_weight_millis ds) scores.

Definition fits (scores : list DimensionScore) : Prop :=
  sum_over score_weight scores ≤ u32_max ∧ sum_over applicable_weight scores ≤ u32_max.

Definition reference (rubric : Rubric) (scores : list DimensionScore) (gates : list GateResult) : EvaluationReport :=
  let weight := sum_over applicable_weight scores in
  let total := if weight =? 0 then None else Some (sum_over score_weight scores * 1000 / weight) in
  let covered := if is_nil (rb_dimensions rubric) then 0
                 else count (List.filter is_scored scores) * 1000 / count (rb_dimensions rubric) in
  {| er_rubric := rb_id rubric; er_rubric_version := rb_version rubric; er_dimensions := scores; er_gates := gates;
     er_weighted_total_millis := total; er_evidence_coverage_millis := covered; er_confidence_millis := covered;
     er_eligible := mandatory_scored rubric scores && forallb gr_passed gates && negb (weight =? 0) |}.

Lemma insert_names_ok error seen names u :
  insert_names error seen names = Ok u ↔ NoDup names ∧ ∀ name, name ∈ names → name ∉ seen.
Proof.
  destruct u. revert seen. induction names as [|name names IH]; intros seen; cbn [insert_names].
  { split; [|done]. intros _. split; [constructor|]. intros ? Hin. by apply elem_of_nil in Hin. }
  rewrite bind_ok. setoid_rewrite need_ok. setoid_rewrite bool_decide_eq_true. setoid_rewrite IH.
  rewrite NoDup_cons. setoid_rewrite elem_of_cons. split.
  - intros (_ & Hn & Hd & Hs). split_and!; [|done|]; [intros Hin; set_solver|]. intros x [->|Hx]; set_solver.
  - intros ([Hn Hd] & Hs). exists tt. split_and!; [auto|done|]. intros x Hx. specialize (Hs x (or_intror Hx)). set_solver.
Qed.

Lemma existsb_name {A} (f : A → text) (name : text) (l : list A) :
  existsb (λ x, bool_decide (f x = name)) l = true ↔ name ∈ f <$> l.
Proof.
  rewrite existsb_exists, list_elem_of_fmap. setoid_rewrite bool_decide_eq_true. setoid_rewrite list_elem_of_In. naive_solver.
Qed.

Lemma declared_Some rubric name rd :
  declared rubric name = Some rd → rd ∈ rb_dimensions rubric ∧ rd_name rd = name.
Proof. intros [Hin Hn]%find_some. rewrite bool_decide_eq_true in Hn. by rewrite list_elem_of_In. Qed.

Lemma declared_unique rubric rd :
  NoDup (rd_name <$> rb_dimensions rubric) → rd ∈ rb_dimensions rubric → declared rubric (rd_name rd) = Some rd.
Proof.
  unfold declared. induction (rb_dimensions rubric) as [|x l IH]; intros Hnd Hin; [by apply elem_of_nil in Hin|].
  cbn [fmap list_fmap] in Hnd. apply NoDup_cons in Hnd as [Hx Hnd]. cbn [find]. apply elem_of_cons in Hin as [->|Hin].
  - by rewrite bool_decide_eq_true_2.
  - rewrite bool_decide_eq_false_2; [by apply IH|]. intros Heq. apply Hx. rewrite Heq. by apply list_elem_of_fmap_2.
Qed.

(** A score of a declared dimension with its weight. *)
Definition matches_rubric (rubric : Rubric) (ds : DimensionScore) : Prop :=
  valid_score (ds_value ds) = true
  ∧ ∃ rd, declared rubric (ds_name ds) = Some rd ∧ rd_weight_millis rd = ds_weight_millis ds.

Lemma check_dimensions_ok rubric seen scores u :
  check_dimensions rubric seen scores = Ok u ↔
  NoDup (ds_name <$> scores) ∧ (∀ ds, ds ∈ scores → ds_name ds ∉ seen) ∧ Forall (matches_rubric rubric) scores.
Proof.
  destruct u. revert seen. induction scores as [|ds scores IH]; intros seen; cbn [check_dimensions].
  { split; [|done]. intros _. split_and!; [constructor| |constructor]. intros ? Hin. by apply elem_of_nil in Hin. }
  cbv zeta. cbn [fmap list_fmap]. rewrite NoDup_cons, Forall_cons, list_elem_of_fmap. split.
  - intros H. inv_ok H. apply IH in H as (Hnd & Hseen & Hall). checks. split_and!; [|done| | |done].
    + intros (ds' & Heq & Hin). specialize (Hseen ds' Hin). set_solver.
    + intros ds' [->|Hin]%elem_of_cons; [done|]. specialize (Hseen ds' Hin). set_solver.
    + split; [done|]. eexists. split; [done|]. symmetry. by apply N.eqb_eq.
  - intros ([Hn Hnd] & Hseen & [Hv (rd & Hd & Hw)] & Hall). pass; [by rewrite bool_decide_eq_true; apply Hseen; left|].
    pass. { apply existsb_name. apply declared_Some in Hd as [Hin <-]. by apply list_elem_of_fmap_2. }
    rewrite Hd. cbn [must mbind Result_bind]. pass; [by rewrite Hw, N.eqb_refl|]. pass; [done|].
    apply IH. split_and!; [done| |done]. intros ds' Hin. apply not_elem_of_union. split.
    + apply not_elem_of_singleton. intros Heq. apply Hn. eauto.
    + apply Hseen. by right.
Qed.

Lemma check_gates_ok rubric seen gates u :
  check_gates rubric seen gates = Ok u ↔
  NoDup (gr_name <$> gates) ∧ (∀ gr, gr ∈ gates → gr_name gr ∉ seen)
  ∧ ∀ gr, gr ∈ gates → gr_name gr ∈ rg_name <$> rb_gates rubric.
Proof.
  destruct u. revert seen. induction gates as [|gr gates IH]; intros seen; cbn [check_gates].
  { split; [|done]. intros _. split_and!; [constructor|..]; intros ? Hin; by apply elem_of_nil in Hin. }
  cbv zeta. cbn [fmap list_fmap]. rewrite NoDup_cons, list_elem_of_fmap. split.
  - intros H. inv_ok H. apply IH in H as (Hnd & Hseen & Hall). checks. split_and!; [|done|..].
    + intros (gr' & Heq & Hin). specialize (Hseen gr' Hin). set_solver.
    + intros gr' [->|Hin]%elem_of_cons; [done|]. specialize (Hseen gr' Hin). set_solver.
    + intros gr' [->|Hin]%elem_of_cons; [by apply existsb_name|auto].
  - intros ([Hn Hnd] & Hseen & Hall). pass; [by rewrite bool_decide_eq_true; apply Hseen; left|].
    pass; [apply existsb_name, Hall; by left|]. apply IH. split_and!; [done|..].
    + intros gr' Hin. apply not_elem_of_union. split; [|apply Hseen; by right].
      apply not_elem_of_singleton. intros Heq. apply Hn. eauto.
    + intros. apply Hall. by right.
Qed.

Lemma checked_add32_Some a b c : checked_add32 a b = Some c ↔ c = a + b ∧ a + b ≤ u32_max.
Proof. unfold checked_add32. destruct (N.leb_spec (a + b) u32_max); split; intros; simplify_eq; try lia; by split || destruct_and?; subst. Qed.

Lemma checked_mul32_Some a b c : checked_mul32 a b = Some c ↔ c = a * b ∧ a * b ≤ u32_max.
Proof. unfold checked_mul32. destruct (N.leb_spec (a * b) u32_max); split; intros; simplify_eq; try lia; by split || destruct_and?; subst. Qed.

Lemma sum_over_cons {A} (f : A → N) x l : sum_over f (x :: l) = f x + sum_over f l.
Proof. done. Qed.

Lemma sum_over_perm {A} (f : A → N) l l' : l ≡ₚ l' → sum_over f l = sum_over f l'.
Proof. induction 1; rewrite ?sum_over_cons; lia. Qed.

Lemma sum_over_le {A} (f g : A → N) l : Forall (λ x, f x ≤ g x) l → sum_over f l ≤ sum_over g l.
Proof. induction 1; rewrite ?sum_over_cons; [done|lia]. Qed.

Lemma weigh_ok rubric a b scores r :
  Forall (matches_rubric rubric) scores → a ≤ u32_max → b ≤ u32_max →
  weigh rubric (a, b) scores = Ok r ↔
  r = (a + sum_over score_weight scores, b + sum_over applicable_weight scores)
  ∧ a + sum_over score_weight scores ≤ u32_max ∧ b + sum_over applicable_weight scores ≤ u32_max.
Proof.
  intros Hall. revert a b. induction Hall as [|ds scores (_ & rd & Hd & Hw) _ IH]; intros a b Ha Hb; cbn [weigh].
  { cbn. rewrite !N.add_0_r. split; [intros [= <-]; done|by intros (-> & _)]. }
  rewrite Hd. cbn [must mbind Result_bind]. rewrite !sum_over_cons.
  assert (Hds : score_weight ds = match ds_value ds with Scored score => score * ds_weight_millis ds | Unknown => 0 end
                ∧ applicable_weight ds = match ds_value ds with Scored _ => ds_weight_millis ds | Unknown => 0 end).
  { unfold score_weight, applicable_weight, is_scored. by destruct (ds_value ds). }
  destruct Hds as [-> ->]. destruct (ds_value ds) as [score|]; [|rewrite !N.add_0_l; by apply IH].
  cbn [fst snd]. rewrite Hw. setoid_rewrite bind_ok. setoid_rewrite bind_ok. setoid_rewrite bind_ok.
  setoid_rewrite some_or_ok. setoid_rewrite checked_mul32_Some. setoid_rewrite checked_add32_Some. split.
  - intros (? & [-> Hm] & ? & [-> H1] & ? & [-> H2] & H). apply IH in H as (-> & ? & ?); [|lia..].
    rewrite <-!N.add_assoc in *. done.
  - intros (-> & H1 & H2). do 2 (eexists; split; [split; [done|lia]|]). eexists. split; [split; [done|lia]|].
    apply IH; [lia..|]. rewrite !N.add_assoc. split_and!; [done|lia..].
Qed.

Lemma weigh_from_zero rubric scores r :
  Forall (matches_rubric rubric) scores →
  weigh rubric (0, 0) scores = Ok r ↔
  r = (sum_over score_weight scores, sum_over applicable_weight scores) ∧ fits scores.
Proof. intros Hall. rewrite weigh_ok by done. by rewrite !N.add_0_l. Qed.

Lemma sum_over_scale {A} (f : A → N) k l : sum_over (λ x, k * f x) l = k * sum_over f l.
Proof. induction l; rewrite ?sum_over_cons; [by cbn; lia|lia]. Qed.

Lemma score_weight_bound scores :
  Forall (λ ds, valid_score (ds_value ds) = true) scores →
  sum_over score_weight scores ≤ 100 * sum_over applicable_weight scores.
Proof.
  intros Hall. rewrite <-sum_over_scale. apply sum_over_le. eapply Forall_impl; [exact Hall|]. intros ds Hv. cbn beta in *.
  unfold score_weight, applicable_weight, is_scored. destruct (ds_value ds) as [score|]; [|lia].
  cbn in Hv. apply N.leb_le in Hv. nia.
Qed.

Lemma weighted_total_bounded sums :
  sums.1 ≤ 100 * sums.2 →
  weighted_total sums = if sums.2 =? 0 then None else Some (sums.1 * 1000 / sums.2).
Proof.
  intros Hle. unfold weighted_total. destruct (N.eqb_spec (sums.2) 0); [done|]. f_equal. apply N.mod_small.
  apply (N.le_lt_trans _ 100000); [|done]. apply N.Div0.div_le_upper_bound. nia.
Qed.

Lemma coverage_bounded applicable total :
  applicable ≤ total → total * 1000 ≤ u32_max →
  coverage applicable total = Ok (if total =? 0 then 0 else applicable * 1000 / total).
Proof.
  intros Hle Hmax. unfold coverage, wrap32, wrap16, u32_max in *. destruct (N.eqb_spec total 0); [done|].
  rewrite !(N.mod_small total), !(N.mod_small applicable) by lia.
  destruct (N.eqb_spec total 0); [done|]. f_equal. rewrite (N.mod_small (applicable * 1000)) by lia.
  apply N.mod_small, (N.le_lt_trans _ 1000); [|done]. apply N.Div0.div_le_upper_bound. nia.
Qed.

Lemma matches_rubric_spec rubric scores :
  NoDup (rd_name <$> rb_dimensions rubric) →
  Forall (matches_rubric rubric) scores ↔
  Forall (λ ds, valid_score (ds_value ds) = true
                ∧ ∃ rd, rd ∈ rb_dimensions rubric ∧ rd_name rd = ds_name ds
                        ∧ rd_weight_millis rd = ds_weight_millis ds) scores.
Proof.
  intros Hnd. apply Forall_iff. intros ds. split; intros (Hv & rd & H); (split; [done|]); exists rd.
  - destruct H as [[Hin Hname]%declared_Some Hw]. done.
  - destruct H as (Hin & Hname & Hw). split; [|done]. rewrite <-Hname. by apply declared_unique.
Qed.

Lemma check_complete_ok rubric scores u :
  check_complete rubric scores = Ok u ↔ ∀ name, name ∈ rd_name <$> rb_dimensions rubric → name ∈ ds_name <$> scores.
Proof.
  unfold check_complete. rewrite each_ok, Forall_forall. setoid_rewrite need_ok. setoid_rewrite existsb_name.
  setoid_rewrite (list_elem_of_fmap rd_name). naive_solver.
Qed.

Lemma check_all_gates_ok rubric gates u :
  check_all_gates rubric gates = Ok u ↔ ∀ name, name ∈ rg_name <$> rb_gates rubric → name ∈ gr_name <$> gates.
Proof.
  unfold check_all_gates. rewrite each_ok, Forall_forall. setoid_rewrite need_ok. setoid_rewrite existsb_name.
  setoid_rewrite (list_elem_of_fmap rg_name). naive_solver.
Qed.

(** The checks, as a whole. *)
Definition checked (rubric : Rubric) (scores : list DimensionScore) (gates : list GateResult) : Eval unit :=
  insert_names DuplicateDimension ∅ (rd_name <$> rb_dimensions rubric) ;;
  insert_names DuplicateGate ∅ (rg_name <$> rb_gates rubric) ;;
  check_dimensions rubric ∅ scores ;;
  check_complete rubric scores ;;
  check_gates rubric ∅ gates ;;
  check_all_gates rubric gates.

Lemma checked_ok rubric scores gates u : checked rubric scores gates = Ok u ↔ well_formed rubric scores gates.
Proof.
  unfold checked, well_formed. split.
  - intros H. inv_ok H. apply insert_names_ok in H0 as [Hd _]. apply insert_names_ok in H1 as [Hg _].
    apply check_dimensions_ok in H2 as (Hds & _ & Hall). pose proof (proj1 (check_complete_ok _ _ _) H3).
    apply check_gates_ok in H4 as (Hgs & _ & Hknown). pose proof (proj1 (check_all_gates_ok _ _ _) H).
    split_and!; [done|done| | |by apply matches_rubric_spec].
    + apply NoDup_Permutation; [done|done|]. intros name. split; [|auto]. intros (ds & -> & Hin)%list_elem_of_fmap.
      rewrite Forall_forall in Hall. destruct (Hall ds Hin) as (_ & rd & [Hrd <-]%declared_Some & _).
      by apply list_elem_of_fmap_2.
    + apply NoDup_Permutation; [done|done|]. intros name. split; [|auto].
      intros (gr & -> & Hin)%list_elem_of_fmap. auto.
  - intros (Hd & Hg & Hds & Hgs & Hall). destruct u.
    repeat (apply bind_ok; exists tt; split); cycle 5.
    + apply check_all_gates_ok. intros name. by rewrite Hgs.
    + apply insert_names_ok. split; [done|]. set_solver.
    + apply insert_names_ok. split; [done|]. set_solver.
    + apply check_dimensions_ok. split_and!; [by rewrite Hds|set_solver|by apply matches_rubric_spec].
    + apply check_complete_ok. intros name. by rewrite Hds.
    + apply check_gates_ok. split_and!; [by rewrite Hgs|set_solver|]. intros gr Hin. rewrite <-Hgs.
      by apply list_elem_of_fmap_2.
Qed.

(** What [evaluate] does after the checks. *)
Definition tally (rubric : Rubric) (scores : list DimensionScore) (gates : list GateResult) : Eval EvaluationReport :=
  sums ← weigh rubric (0, 0) scores;
  covered ← coverage (count (List.filter is_scored scores)) (count (rb_dimensions rubric));
  Ok {| er_rubric := rb_id rubric; er_rubric_version := rb_version rubric; er_dimensions := scores; er_gates := gates;
        er_weighted_total_millis := weighted_total sums; er_evidence_coverage_millis := covered;
        er_confidence_millis := covered;
        er_eligible := mandatory_scored rubric scores && forallb gr_passed gates
                       && bool_decide (is_Some (weighted_total sums)) |}.

Lemma evaluate_tally rubric scores gates :
  evaluate rubric scores gates = (checked rubric scores gates ;; tally rubric scores gates).
Proof.
  assert (Hassoc : ∀ A B C (m : Eval A) (k : A → Eval B) (k' : B → Eval C), ((m ≫= k) ≫= k') = (m ≫= λ a, k a ≫= k')).
  { intros. by destruct m. }
  unfold checked. by rewrite !Hassoc.
Qed.

Lemma count_le_perm {A B C} (f : A → C) (g : B → C) (p : A → bool) (l : list A) (l' : list B) :
  f <$> l ≡ₚ g <$> l' → count (List.filter p l) ≤ count l'.
Proof.
  intros Hlen%Permutation_length. rewrite !length_fmap in Hlen. unfold count. pose proof (List.filter_length_le p l). lia.
Qed.

Lemma well_formed_scored rubric scores gates :
  well_formed rubric scores gates →
  Forall (matches_rubric rubric) scores ∧ sum_over score_weight scores ≤ 100 * sum_over applicable_weight scores
  ∧ count (List.filter is_scored scores) ≤ count (rb_dimensions rubric).
Proof.
  intros (Hd & _ & Hds & _ & Hall). split_and!; [by apply matches_rubric_spec| |by eapply count_le_perm].
  apply score_weight_bound. eapply Forall_impl; [exact Hall|]. by intros ? [].
Qed.

(** The count of the dimensions fits the arithmetic of the coverage. *)
Definition small (rubric : Rubric) : Prop := count (rb_dimensions rubric) * 1000 ≤ u32_max.

Lemma tally_ok rubric scores gates report :
  small rubric → well_formed rubric scores gates →
  tally rubric scores gates = Ok report ↔ fits scores ∧ report = reference rubric scores gates.
Proof.
  intros Hsmall (Hall & Hsum & Hcount)%well_formed_scored. unfold tally. rewrite bind_ok.
  setoid_rewrite (weigh_from_zero _ _ _ Hall). rewrite coverage_bounded; [|exact Hcount|exact Hsmall].
  cbn [mbind Result_bind]. unfold reference. cbv zeta.
  set (total := count (rb_dimensions rubric)). assert (is_nil (rb_dimensions rubric) = (total =? 0)) as ->.
  { subst total. by destruct (rb_dimensions rubric). }
  assert (bool_decide (is_Some (weighted_total (sum_over score_weight scores, sum_over applicable_weight scores)))
          = negb (sum_over applicable_weight scores =? 0)) as Hsome.
  { rewrite weighted_total_bounded by done. cbn [snd]. by destruct (_ =? 0). }
  split.
  - intros (? & (-> & ?) & [= <-]). split; [done|]. by rewrite Hsome, weighted_total_bounded.
  - intros (? & ->). eexists. split; [done|]. by rewrite Hsome, weighted_total_bounded.
Qed.

Lemma evaluate_ok rubric scores gates report :
  small rubric →
  evaluate rubric scores gates = Ok report ↔
  well_formed rubric scores gates ∧ fits scores ∧ report = reference rubric scores gates.
Proof.
  intros Hsmall. rewrite evaluate_tally, bind_ok. split.
  - intros (u & Hwf%checked_ok & Ht). split; [done|]. by apply tally_ok.
  - intros (Hwf & H). exists tt. split; [by apply checked_ok|by apply tally_ok].
Qed.

Lemma declared_found rubric name :
  existsb (λ rd, bool_decide (rd_name rd = name)) (rb_dimensions rubric) = true → is_Some (declared rubric name).
Proof.
  unfold declared. induction (rb_dimensions rubric) as [|rd l IH]; cbn; [done|].
  destruct (bool_decide (rd_name rd = name)); [by eexists|apply IH].
Qed.

Lemma insert_names_calm error seen names : calm (insert_names error seen names).
Proof. revert seen. induction names; intros; cbn [insert_names]; solve_calm. Qed.

Lemma check_dimensions_calm rubric seen scores : calm (check_dimensions rubric seen scores).
Proof.
  revert seen. induction scores as [|ds scores IH]; intros seen; cbn [check_dimensions]; cbv zeta; [done|].
  apply calm_bind; [apply calm_need|intros _ _]. apply calm_bind; [apply calm_need|intros _ Hex%need_ok].
  destruct (declared_found _ _ Hex) as [rd ->]. cbn [must]. solve_calm.
Qed.

Lemma check_gates_calm rubric seen gates : calm (check_gates rubric seen gates).
Proof. revert seen. induction gates; intros; cbn [check_gates]; cbv zeta; solve_calm. Qed.

Lemma weigh_calm rubric sums scores : Forall (matches_rubric rubric) scores → calm (weigh rubric sums scores).
Proof.
  intros Hall. revert sums. induction Hall as [|ds scores (_ & rd & Hd & _) _ IH]; intros sums; cbn [weigh]; [done|].
  rewrite Hd. cbn [must mbind Result_bind]. solve_calm.
Qed.

Lemma evaluate_calm rubric scores gates : small rubric → calm (evaluate rubric scores gates).
Proof.
  intros Hsmall. rewrite evaluate_tally. apply calm_bind.
  - unfold checked, check_complete, check_all_gates.
    repeat first [apply insert_names_calm | apply check_dimensions_calm | apply check_gates_calm
                 | apply calm_each; intros ?; apply calm_need | apply calm_bind; [|intros ? _]].
  - intros u Hwf%checked_ok. apply well_formed_scored in Hwf as (Hall & _ & Hcount). unfold tally.
    apply calm_bind; [by apply weigh_calm|]. intros sums _.
    rewrite coverage_bounded; [|exact Hcount|exact Hsmall]. done.
Qed.

Lemma well_formed_perm rubric scores scores' gates gates' :
  scores ≡ₚ scores' → gates ≡ₚ gates' → well_formed rubric scores gates → well_formed rubric scores' gates'.
Proof.
  intros Hs Hg (Hd & Hgt & Hds & Hgs & Hall). split_and!; [done|done|by rewrite <-Hs|by rewrite <-Hg|by rewrite <-Hs].
Qed.

Lemma fits_perm scores scores' : scores ≡ₚ scores' → fits scores → fits scores'.
Proof. intros Hs. unfold fits. by rewrite !(sum_over_perm _ _ _ Hs). Qed.

Lemma existsb_perm {A} (p : A → bool) l l' : l ≡ₚ l' → existsb p l = existsb p l'.
Proof. induction 1; cbn; [done|congruence| |congruence]. by destruct (p x), (p y). Qed.

Lemma forallb_perm {A} (p : A → bool) l l' : l ≡ₚ l' → forallb p l = forallb p l'.
Proof. induction 1; cbn; [done|congruence| |congruence]. by destruct (p x), (p y). Qed.

Lemma filter_perm {A} (p : A → bool) l l' : l ≡ₚ l' → List.filter p l ≡ₚ List.filter p l'.
Proof. induction 1; cbn; repeat case_match; [done|by constructor|done|constructor|done..|by etrans]. Qed.

Lemma mandatory_scored_perm rubric scores scores' :
  scores ≡ₚ scores' → mandatory_scored rubric scores = mandatory_scored rubric scores'.
Proof. intros Hs. unfold mandatory_scored. induction (List.filter _ _); cbn; [done|]. f_equal; [by apply existsb_perm|done]. Qed.

Lemma reference_bounds rubric scores gates :
  well_formed rubric scores gates →
  er_evidence_coverage_millis (reference rubric scores gates) ≤ 1000
  ∧ ∀ total, er_weighted_total_millis (reference rubric scores gates) = Some total → total ≤ 100000.
Proof.
  intros (_ & Hsum & Hcount)%well_formed_scored. cbn. split.
  - destruct (rb_dimensions rubric) eqn:Hd; cbn [is_nil]; [lia|]. apply N.Div0.div_le_upper_bound. lia.
  - intros total. case_match; [done|]. intros [= <-]. apply N.Div0.div_le_upper_bound. lia.
Qed.

(** C37. The deterministic evaluator computes its reference.  When the coverage of
    the rubric can be computed in 32 bits, [evaluate] answers with a report exactly
    on the inputs that answer every dimension and gate of the rubric once, with the
    declared weights, valid scores and sums that fit 32 bits, and the report is the
    reference: it holds the scores and gates as they were given, the weighted mean
    of the scored dimensions and the share of them, and is eligible when every
    mandatory dimension is scored, every gate passed and some weight applies.  It
    never panics; the total is at most 100,000 and the coverage at most 1,000, and
    no figure depends on the order of the scores and gates. *)
Theorem evaluation_matches_reference rubric scores gates :
  small rubric →
  (∀ report, evaluate rubric scores gates = Ok report ↔
    well_formed rubric scores gates ∧ fits scores ∧ report = reference rubric scores gates)
  ∧ evaluate rubric scores gates ≠ Panic
  ∧ ∀ report, evaluate rubric scores gates = Ok report →
      er_evidence_coverage_millis report ≤ 1000
      ∧ (∀ total, er_weighted_total_millis report = Some total → total ≤ 100000)
      ∧ ∀ scores' gates', scores ≡ₚ scores' → gates ≡ₚ gates' → ∃ report',
          evaluate rubric scores' gates' = Ok report'
          ∧ er_weighted_total_millis report' = er_weighted_total_millis report
          ∧ er_evidence_coverage_millis report' = er_evidence_coverage_millis report
          ∧ er_eligible report' = er_eligible report.
Proof.
  intros Hsmall. split_and!; [by intros; apply evaluate_ok|by apply evaluate_calm|].
  intros report (Hwf & Hfits & ->)%evaluate_ok; [|done]. destruct (reference_bounds _ _ _ Hwf) as [Hcov Htot].
  split_and!; [done|done|]. intros scores' gates' Hs Hg. exists (reference rubric scores' gates').
  split. { apply evaluate_ok; [done|]. split_and!; [by eapply well_formed_perm|by eapply fits_perm|done]. }
  unfold reference. cbn. rewrite <-!(sum_over_perm _ _ _ Hs). split_and!; [done| |].
  - case_match; [done|]. unfold count. by rewrite (Permutation_length (filter_perm _ _ _ Hs)).
  - f_equal. f_equal; [by apply mandatory_scored_perm|by apply forallb_perm].
Qed.

(** ** Evidence *)

Section Backed.
Context {Payload : Type} `{!PayloadDigest (Payload := Payload)}.
Implicit Types (evidence : list (@EvidenceItem Payload)) (rubric : Rubric).

(** The payload of the item has the digest the item names. *)
Definition authentic (item : @EvidenceItem Payload) : Prop := payload_sha256 (ei_payload item) = inr (ei_sha256 item).

(** A reference to evidence that was supplied and is not unverified. *)
Definition backed evidence (reference : EvidenceId) : Prop :=
  ∃ item, item ∈ evidence ∧ ei_evidence_id item = reference ∧ ei_trust item ≠ Unverified.

Definition all_backed evidence (references : list EvidenceId) : Prop :=
  references ≠ [] ∧ Forall (backed evidence) references.

Lemma validate_evidence_from_ok (by_id : gmap EvidenceId (@EvidenceItem Payload)) evidence by_id' :
  validate_evidence_from by_id evidence = Ok by_id' →
  NoDup (ei_evidence_id <$> evidence) ∧ (∀ item, item ∈ evidence → by_id !! ei_evidence_id item = None)
  ∧ Forall authentic evidence
  ∧ ∀ id item, by_id' !! id = Some item ↔ by_id !! id = Some item ∨ (item ∈ evidence ∧ ei_evidence_id item = id).
Proof.
  revert by_id. induction evidence as [|item evidence IH]; intros by_id; cbn [validate_evidence_from].
  { intros [= ->]. split_and!; [constructor|set_solver|constructor|set_solver]. }
  intros H. apply bind_ok in H as (u & Hnew%need_ok & H). checks.
  destruct (payload_sha256 (ei_payload item)) as [|digest] eqn:Hdigest; [done|].
  apply bind_ok in H as (u' & Hd%need_ok & H). checks. subst digest.
  destruct (IH _ H) as (Hnd & Hfresh & Hauth & Hget). rewrite fmap_cons, NoDup_cons, Forall_cons. split_and!; [| | |done|done|].
  - intros (item' & Heq & Hin)%list_elem_of_fmap. specialize (Hfresh item' Hin). rewrite Heq, lookup_insert_eq in Hfresh. done.
  - done.
  - intros item' [->|Hin]%elem_of_cons; [done|]. specialize (Hfresh item' Hin). by apply lookup_insert_None in Hfresh as [].
  - intros id item'. rewrite Hget, lookup_insert_Some, elem_of_cons. split; [naive_solver|].
    intros [Hold|[[->|Hin] <-]]; [|naive_solver..]. left. right. split; [|done]. intros <-. congruence.
Qed.

Lemma validate_evidence_set_ok evidence by_id :
  validate_evidence_set evidence = Ok by_id →
  NoDup (ei_evidence_id <$> evidence) ∧ Forall authentic evidence
  ∧ ∀ id item, by_id !! id = Some item ↔ item ∈ evidence ∧ ei_evidence_id item = id.
Proof.
  intros (Hnd & _ & Hauth & Hget)%validate_evidence_from_ok. split_and!; [done|done|]. intros id item.
  rewrite Hget, lookup_empty. naive_solver.
Qed.

Lemma sum_trust_ok evidence (by_id : gmap EvidenceId (@EvidenceItem Payload)) sum references sum' :
  (∀ id item, by_id !! id = Some item → item ∈ evidence ∧ ei_evidence_id item = id) →
  sum_trust by_id sum references = Ok sum' →
  Forall (backed evidence) references
  ∧ sum + 700 * count references ≤ sum' ≤ sum + 1000 * count references ∧ (sum ≤ u32_max → sum' ≤ u32_max).
Proof.
  intros Hget. revert sum. induction references as [|reference references IH]; intros sum; cbn [sum_trust].
  { intros [= ->]. split_and!; [constructor|unfold count; cbn; lia..|done]. }
  intros H. inv_ok H. apply checked_add32_Some in H2 as [-> H2]. apply IH in H as (Hall & [Hlo Hhi] & Hmax).
  destruct (Hget _ _ H0) as [Hin Hid]. unfold count in *. cbn [length].
  assert (ei_trust a ≠ Unverified ∧ 700 ≤ a0 ≤ 1000) as [Htrust Ha0].
  { destruct (ei_trust a); cbn in H1; [injection H1 as <-|injection H1 as <-|]; [by split; [done|lia]..|done]. }
  split_and!; [constructor; [by exists a|done]|lia|lia|]. intros _. by apply Hmax.
Qed.

Lemma resolve_reference_trust_ok evidence (by_id : gmap EvidenceId (@EvidenceItem Payload)) references trust :
  (∀ id item, by_id !! id = Some item → item ∈ evidence ∧ ei_evidence_id item = id) →
  resolve_reference_trust references by_id = Ok trust →
  all_backed evidence references ∧ 700 ≤ trust ≤ 1000.
Proof.
  intros Hget H. unfold resolve_reference_trust in H. apply bind_ok in H as (sum & Hsum & H).
  apply (sum_trust_ok evidence) in Hsum as (Hall & [Hlo Hhi] & Hmax); [|done]. specialize (Hmax ltac:(done)).
  rewrite !N.add_0_l in *. unfold u32_max in *. assert (wrap32 (count references) = count references) as Hw.
  { apply N.mod_small. lia. }
  rewrite Hw in H. destruct (N.eqb_spec (count references) 0) as [|Hne]; [done|].
  assert (700 ≤ sum / count references ≤ 1000) as Hmean.
  { split; [apply N.div_le_lower_bound; lia|apply N.Div0.div_le_upper_bound; lia]. }
  injection H as <-. unfold wrap16. rewrite N.mod_small by lia. split; [|done]. split; [|done]. by intros ->.
Qed.

Lemma cover_ok (rubric : Rubric) evidence (by_id : gmap EvidenceId (@EvidenceItem Payload)) a b scores a' b' :
  (∀ id item, by_id !! id = Some item → item ∈ evidence ∧ ei_evidence_id item = id) →
  Forall (matches_rubric rubric) scores →
  cover rubric by_id (a, b) scores = Ok (a', b') →
  Forall (λ ds, all_backed evidence (ds_evidence ds)) scores ∧ a' = a + sum_over ds_weight_millis scores
  ∧ b + 700 * sum_over ds_weight_millis scores ≤ b' ≤ b + 1000 * sum_over ds_weight_millis scores.
Proof.
  intros Hget Hall. revert a b. induction Hall as [|ds scores (_ & rd & Hd & Hw) _ IH]; intros a b; cbn [cover].
  { intros [= <- <-]. split_and!; [constructor|cbn; lia..]. }
  intros H. inv_ok H. apply (resolve_reference_trust_ok evidence) in H1 as [Hback [Hlo Hhi]]; [|done].
  cbn [fst snd] in *. rewrite Hd in H2. injection H2 as <-. rewrite Hw in *.
  apply checked_add32_Some in H3 as [-> _]. unfold checked_add64 in H4. case_match; [|done]. injection H4 as <-.
  apply IH in H as (Hrest & -> & Hb). rewrite sum_over_cons. split_and!; [by constructor|lia|nia|nia].
Qed.

Lemma total_weight_ok sum dimensions weight :
  total_weight sum dimensions = Ok weight → weight = sum + sum_over rd_weight_millis dimensions.
Proof.
  revert sum. induction dimensions as [|rd dimensions IH]; intros sum; cbn [total_weight].
  { intros [= ->]. cbn. lia. }
  intros H. inv_ok H. apply checked_add32_Some in H0 as [-> _]. apply IH in H as ->. rewrite sum_over_cons. lia.
Qed.

Lemma sum_over_scored scores :
  sum_over ds_weight_millis (List.filter is_scored scores) = sum_over applicable_weight scores.
Proof.
  induction scores as [|ds scores IH]; [done|]. rewrite sum_over_cons. cbn [List.filter]. unfold applicable_weight at 1.
  destruct (is_scored ds); rewrite ?sum_over_cons, ?IH; lia.
Qed.

Lemma applicable_weight_le scores : sum_over applicable_weight scores ≤ sum_over ds_weight_millis scores.
Proof. apply sum_over_le, Forall_true. intros ds. unfold applicable_weight. case_match; lia. Qed.

Lemma sum_over_fmap {A B} (f : B → N) (g : A → B) l : sum_over f (g <$> l) = sum_over (λ x, f (g x)) l.
Proof. induction l; [done|]. rewrite fmap_cons, !sum_over_cons. congruence. Qed.

(** The weights of the scores are those of the rubric. *)
Lemma well_formed_weight rubric scores gates :
  well_formed rubric scores gates →
  sum_over ds_weight_millis scores = sum_over rd_weight_millis (rb_dimensions rubric).
Proof.
  intros (Hd & _ & Hds & _ & Hall). rewrite Forall_forall in Hall.
  transitivity (sum_over snd ((λ ds, (ds_name ds, ds_weight_millis ds)) <$> scores)); [by rewrite sum_over_fmap|].
  transitivity (sum_over snd ((λ rd, (rd_name rd, rd_weight_millis rd)) <$> rb_dimensions rubric)); [|by rewrite sum_over_fmap].
  apply sum_over_perm, submseteq_length_Permutation.
  - apply NoDup_submseteq.
    + apply (NoDup_fmap_1 fst). rewrite <-list_fmap_compose. by rewrite Hds.
    + intros [name weight] (ds & [= -> ->] & Hin)%list_elem_of_fmap.
      destruct (Hall ds Hin) as (_ & rd & Hrd & <- & <-). apply list_elem_of_fmap. eauto.
  - rewrite !length_fmap. apply Permutation_length in Hds. rewrite !length_fmap in Hds. lia.
Qed.

(** What an evidence-backed report says of its input. *)
Record backs rubric scores gates evidence thresholds (report : EvaluationReport) : Prop := {
  bk_well_formed : well_formed rubric scores gates;
  bk_dimensions : er_dimensions report = scores;
  bk_gates : er_gates report = gates;
  bk_unique : NoDup (ei_evidence_id <$> evidence);
  bk_authentic : Forall authentic evidence;
  bk_scores : ∀ ds, ds ∈ scores → is_scored ds = true → all_backed evidence (ds_evidence ds);
  bk_gate_results : ∀ gr, gr ∈ gates → all_backed evidence (gr_evidence gr);
  bk_total : er_weighted_total_millis report = er_weighted_total_millis (reference rubric scores gates);
  bk_coverage : er_evidence_coverage_millis report =
    (let weight := sum_over rd_weight_millis (rb_dimensions rubric) in
     if weight =? 0 then 0 else sum_over applicable_weight scores * 1000 / weight)
    ∧ er_evidence_coverage_millis report ≤ 1000;
  bk_confidence : sum_over applicable_weight scores ≠ 0 → 700 ≤ er_confidence_millis report ≤ 1000;
  bk_eligible : er_eligible report = true ↔
    mandatory_scored rubric scores = true ∧ Forall (λ gr, gr_passed gr = true) gates
    ∧ (∃ total, er_weighted_total_millis report = Some total ∧ th_min_score_millis thresholds ≤ total)
    ∧ th_min_evidence_coverage_millis thresholds ≤ er_evidence_coverage_millis report
    ∧ th_min_confidence_millis thresholds ≤ er_confidence_millis report;
}.

Lemma back_gates_ok evidence (by_id : gmap EvidenceId (@EvidenceItem Payload)) gates u :
  (∀ id item, by_id !! id = Some item → item ∈ evidence ∧ ei_evidence_id item = id) →
  back_gates by_id gates = Ok u → ∀ gr, gr ∈ gates → all_backed evidence (gr_evidence gr).
Proof.
  intros Hget Hall%each_ok gr Hin. rewrite Forall_forall in Hall. specialize (Hall gr Hin). inv_ok Hall.
  by eapply resolve_reference_trust_ok.
Qed.

Lemma coverage_value covered weight :
  covered ≤ weight →
  (if weight =? 0 then 0 else wrap16 (covered * 1000 / weight)) = (if weight =? 0 then 0 else covered * 1000 / weight)
  ∧ (if weight =? 0 then 0 else covered * 1000 / weight) ≤ 1000.
Proof.
  intros Hle. destruct (N.eqb_spec weight 0); [done|]. assert (covered * 1000 / weight ≤ 1000) as Hmax.
  { apply N.Div0.div_le_upper_bound. lia. }
  split; [apply N.mod_small; lia|done].
Qed.

Lemma confidence_value covered sum :
  700 * covered ≤ sum ≤ 1000 * covered → covered ≠ 0 →
  700 ≤ (if covered =? 0 then 0 else wrap16 (sum / covered)) ≤ 1000.
Proof.
  intros [Hlo Hhi] Hne. destruct (N.eqb_spec covered 0); [done|].
  assert (700 ≤ sum / covered ≤ 1000) as Hmean.
  { split; [apply N.div_le_lower_bound; lia|apply N.Div0.div_le_upper_bound; lia]. }
  unfold wrap16. rewrite N.mod_small; lia.
Qed.

(** The boolean expression of [eligible]. *)
Lemma eligible_iff mandatory gates weight total least (coverage_ok confidence_ok : bool) :
  (mandatory && forallb gr_passed gates && negb (weight =? 0)
   && (match (if weight =? 0 then None else Some total) with Some score => least <=? score | None => false end
       && coverage_ok && confidence_ok)) = true ↔
  mandatory = true ∧ Forall (λ gr, gr_passed gr = true) gates
  ∧ (∃ score, (if weight =? 0 then None else Some total) = Some score ∧ least ≤ score)
  ∧ coverage_ok = true ∧ confidence_ok = true.
Proof.
  rewrite !andb_true_iff, forallb_forall, List.Forall_forall. destruct (weight =? 0); cbn.
  - split; [by intros ((_ & ?) & _)|by intros (_ & _ & (? & ? & _) & _)].
  - rewrite N.leb_le. split; [intros (((? & ?) & _) & (? & ?) & ?)|intros (? & ? & (? & [= <-] & ?) & ? & ?)]; split_and!; eauto.
Qed.

Lemma evidence_backed_ok rubric scores gates evidence thresholds report :
  small rubric →
  evaluate_evidence_backed rubric scores gates evidence thresholds = Ok report →
  backs rubric scores gates evidence thresholds report.
Proof.
  intros Hsmall H. unfold evaluate_evidence_backed in H. apply bind_ok in H as (u & _ & H).
  apply bind_ok in H as (base & Hbase & H). apply bind_ok in H as (by_id & Hev & H).
  apply bind_ok in H as (weight & Hweight & H). apply bind_ok in H as ([covered sum] & Hcover & H).
  apply bind_ok in H as (u' & Hgates & H). cbn [fst snd] in H. cbv zeta in H.
  apply evaluate_ok in Hbase as (Hwf & Hfits & ->); [|done]. cbn [reference er_dimensions er_gates] in Hcover, Hgates.
  apply validate_evidence_set_ok in Hev as (Hnd & Hauth & Hget).
  assert (Hget' : ∀ id item, by_id !! id = Some item → item ∈ evidence ∧ ei_evidence_id item = id) by (intros; by apply Hget).
  apply total_weight_ok in Hweight as ->. rewrite N.add_0_l in H.
  apply (cover_ok _ evidence) in Hcover as (Hback & -> & Hsum); [|done|]; cycle 1.
  { apply well_formed_scored in Hwf as (Hall & _). rewrite Forall_forall in *. intros ds Hin. apply Hall.
    apply list_elem_of_In, filter_In in Hin as [Hin _]. by apply list_elem_of_In. }
  rewrite sum_over_scored, !N.add_0_l in *.
  pose proof (applicable_weight_le scores) as Hle. rewrite (well_formed_weight _ _ _ Hwf) in Hle.
  destruct (coverage_value _ _ Hle) as [Hcov Hmax]. pose proof (confidence_value _ _ Hsum) as Hconf.
  injection H as <-. split; cbn [er_dimensions er_gates er_weighted_total_millis er_evidence_coverage_millis
    er_confidence_millis er_eligible reference]; try done.
  - intros ds Hin Hs. rewrite Forall_forall in Hback. apply Hback. apply list_elem_of_In, filter_In. by rewrite <-list_elem_of_In.
  - by eapply back_gates_ok.
  - cbv zeta. rewrite Hcov. done.
  - by rewrite eligible_iff, !N.leb_le.
Qed.

End Backed.

(** ** Experiments *)

Section Experiments.
Context `{UnicodeCase}.

(** The lower median: fewer than half of the values are below it, and at most half
    above. *)
Definition lower_median (values : list N) (v : N) : Prop :=
  v ∈ values ∧ (2 * length (List.filter (λ x, (x <? v)%N) values) < length values)%nat
  ∧ (2 * length (List.filter (λ x, (v <? x)%N) values) ≤ length values)%nat.

Definition totals (reports : list EvaluationReport) : list N := omap er_weighted_total_millis reports.

Lemma filter_all_false {A} (p : A → bool) l : Forall (λ x, p x = false) l → List.filter p l = [].
Proof. induction 1 as [|x l Hx _ IH]; cbn; [done|]. by rewrite Hx. Qed.

Lemma lower_median_perm values values' v : values ≡ₚ values' → lower_median values v → lower_median values' v.
Proof.
  intros Hp (Hin & Hlo & Hhi). split_and!; [by rewrite <-Hp|..].
  - by rewrite <-(Permutation_length (filter_perm _ _ _ Hp)), <-(Permutation_length Hp).
  - by rewrite <-(Permutation_length (filter_perm _ _ _ Hp)), <-(Permutation_length Hp).
Qed.

(** Before and after an element of a sorted list. *)
Lemma sorted_split (l : list N) k v :
  StronglySorted N.le l → l !! k = Some v → Forall (λ x, x ≤ v) (take (S k) l) ∧ Forall (λ x, v ≤ x) (drop k l).
Proof.
  intros Hs. revert k. induction Hs as [|x l Hs IH Hx]; intros k Hk; [done|]. destruct k as [|k]; cbn in *.
  - injection Hk as ->. split; [by repeat constructor|]. by constructor.
  - destruct (IH k Hk) as [Ht Hd]. split; [|done]. constructor; [|done]. rewrite Forall_forall in Hx. apply Hx.
    by apply list_elem_of_lookup_2 with k.
Qed.

Lemma sorted_median (l : list N) v :
  StronglySorted N.le l → l !! ((length l - 1) / 2)%nat = Some v → lower_median l v.
Proof.
  intros Hs Hk. set (k := ((length l - 1) / 2)%nat) in *. destruct (sorted_split l k v Hs Hk) as [Ht Hd].
  pose proof (lookup_lt_Some _ _ _ Hk) as Hlt. pose proof (Nat.div_mod_eq (length l - 1) 2) as Hdm.
  pose proof (Nat.mod_upper_bound (length l - 1) 2 ltac:(done)) as Hmod. fold k in Hdm.
  split_and!; [by apply list_elem_of_lookup_2 with k|..].
  - rewrite <-(take_drop k l) at 1. rewrite List.filter_app, (filter_all_false _ (drop k l)), app_nil_r.
    + pose proof (List.filter_length_le (λ x, x <? v) (take k l)) as Hle. rewrite length_take in Hle. lia.
    + eapply Forall_impl; [exact Hd|]. intros x. apply N.ltb_ge.
  - rewrite <-(take_drop (S k) l) at 1. rewrite List.filter_app, (filter_all_false _ (take (S k) l)).
    + pose proof (List.filter_length_le (λ x, v <? x) (drop (S k) l)) as Hle. rewrite length_drop in Hle. cbn [app]. lia.
    + eapply Forall_impl; [exact Ht|]. intros x. apply N.ltb_ge.
Qed.

Lemma filter_split (l : list N) (v : N) :
  (length (List.filter (λ x, (x <=? v)%N) l) + length (List.filter (λ x, (v <? x)%N) l) = length l)%nat.
Proof.
  induction l as [|x l IH]; [done|]. cbn [List.filter length]. destruct (N.leb_spec x v), (N.ltb_spec v x); cbn [length]; lia.
Qed.

Lemma filter_mono {A} (p q : A → bool) l :
  (∀ x, p x = true → q x = true) → (length (List.filter p l) ≤ length (List.filter q l))%nat.
Proof.
  intros Hpq. induction l as [|x l IH]; [done|]. cbn. specialize (Hpq x).
  destruct (p x), (q x); cbn; try lia; by specialize (Hpq eq_refl).
Qed.

Lemma lower_median_unique values v w : lower_median values v → lower_median values w → v = w.
Proof.
  assert (Hlt : ∀ v w, lower_median values v → lower_median values w → ¬ v < w).
  { clear. intros v w (_ & _ & Hv) (_ & Hw & _) Hvw. pose proof (filter_split values v) as Hs.
    pose proof (filter_mono (λ x, x <=? v) (λ x, x <? w) values) as Hm.
    assert (∀ x, (x <=? v) = true → (x <? w) = true) as Hi by (intros x; rewrite N.leb_le, N.ltb_lt; lia).
    specialize (Hm Hi). lia. }
  intros Hv Hw. pose proof (Hlt v w Hv Hw). pose proof (Hlt w v Hw Hv). lia.
Qed.

Lemma middle_index n :
  (if Nat.odd n then n / 2 else n / 2 - 1)%nat = ((n - 1) / 2)%nat.
Proof.
  pose proof (Nat.div_mod_eq n 2) as Hn. pose proof (Nat.div_mod_eq (n - 1) 2) as Hm.
  pose proof (Nat.mod_upper_bound n 2 ltac:(done)). pose proof (Nat.mod_upper_bound (n - 1) 2 ltac:(done)).
  destruct (Nat.odd n) eqn:Hodd; [apply Nat.odd_spec in Hodd as [m ->]|]; [lia|].
  apply (f_equal negb) in Hodd. rewrite Nat.negb_odd in Hodd. apply Nat.even_spec in Hodd as [m ->]. lia.
Qed.

Lemma median_millis_index reports :
  median_millis reports =
  let values := sort_by N.le (totals reports) in values !! ((length values - 1) / 2)%nat.
Proof.
  unfold median_millis, totals. cbv zeta. generalize (sort_by N.le (omap er_weighted_total_millis reports)). intros [|x l]; [done|].
  rewrite <-(middle_index (length (x :: l))). by destruct (Nat.odd _).
Qed.

Lemma median_millis_spec reports v : median_millis reports = Some v ↔ lower_median (totals reports) v.
Proof.
  rewrite median_millis_index. cbv zeta. pose proof (sort_by_perm N.le (totals reports)) as Hp.
  assert (Hs : StronglySorted N.le (sort_by N.le (totals reports))) by (apply sort_by_sorted; apply _).
  set (l := sort_by N.le (totals reports)) in *. split.
  - intros Hk. eapply lower_median_perm; [exact Hp|]. by apply sorted_median.
  - intros Hv. apply (lower_median_perm _ _ _ (symmetry Hp)) in Hv.
    destruct (l !! ((length l - 1) / 2)%nat) as [w|] eqn:Hk.
    + f_equal. by apply (lower_median_unique l); [apply sorted_median|].
    + destruct Hv as (Hin & _). apply lookup_ge_None in Hk. pose proof (Nat.Div0.div_le_mono (length l - 1) (length l - 1) 2).
      destruct l as [|x l]; [by apply elem_of_nil in Hin|]. cbn [length] in *.
      pose proof (Nat.Div0.div_le_upper_bound (S (length l) - 1) 2 (length l)). lia.
Qed.

(** A safety gate of the candidate failed. *)
Definition unsafe (candidate : list EvaluationReport) : Prop :=
  ∃ report gate, report ∈ candidate ∧ gate ∈ er_gates report ∧ gr_passed gate = false
    ∧ starts_with (to_lowercase (gr_name gate)) (lit "safety") = true.

(** The change of the lower median. *)
Definition changed (baseline candidate : list EvaluationReport) (delta : Z) : Prop :=
  ∃ pre post, lower_median (totals baseline) pre ∧ lower_median (totals candidate) post
    ∧ delta = (Z.of_N post - Z.of_N pre)%Z.

Lemma safety_failed_spec candidate : existsb safety_failed candidate = true ↔ unsafe candidate.
Proof.
  rewrite existsb_exists. unfold safety_failed. setoid_rewrite existsb_exists. setoid_rewrite andb_true_iff.
  setoid_rewrite negb_true_iff. setoid_rewrite <-list_elem_of_In. unfold unsafe. naive_solver.
Qed.

(** The decision, by the change of the median. *)
Lemma decision_cases baseline candidate experiment :
  (unsafe candidate ∧ decision_of baseline candidate experiment = Rollback)
  ∨ (¬ unsafe candidate ∧ (∀ delta, ¬ changed baseline candidate delta)
     ∧ decision_of baseline candidate experiment = Inconclusive)
  ∨ ¬ unsafe candidate ∧ ∃ delta, changed baseline candidate delta
     ∧ (∀ delta', changed baseline candidate delta' → delta' = delta)
     ∧ decision_of baseline candidate experiment =
         if (delta <=? - Z.of_N (ex_rollback_threshold experiment))%Z then Rollback
         else if ex_observed_duration_ms experiment <? ex_observation_window_ms experiment then Retain
         else if (Z.of_N (ex_success_threshold experiment) <=? delta)%Z && forallb er_eligible candidate then Promote
         else if (delta <? 0)%Z || existsb (λ r, negb (er_eligible r)) candidate then Reject
         else Retain.
Proof.
  unfold decision_of. destruct (existsb safety_failed candidate) eqn:Hsafe.
  { left. split; [by apply safety_failed_spec|done]. }
  right. assert (¬ unsafe candidate) as Hu by (rewrite <-safety_failed_spec; congruence).
  destruct (is_nil baseline || is_nil candidate) eqn:Hnil.
  { left. split_and!; [done| |done]. intros delta (pre & post & (Hpre & _) & (Hpost & _) & _).
    destruct baseline, candidate; cbn in *; try done; by apply elem_of_nil in Hpre || by apply elem_of_nil in Hpost. }
  destruct (median_millis baseline) as [pre|] eqn:Hpre, (median_millis candidate) as [post|] eqn:Hpost.
  - right. split; [done|]. apply median_millis_spec in Hpre, Hpost. eexists. split_and!; [by exists pre, post| |done].
    intros delta' (pre' & post' & Hpre' & Hpost' & ->).
    by rewrite (lower_median_unique _ _ _ Hpre' Hpre), (lower_median_unique _ _ _ Hpost' Hpost).
  - left. split_and!; [done| |done]. intros delta (? & post & _ & Hp%median_millis_spec & _). congruence.
  - left. split_and!; [done| |done]. intros delta (pre & ? & Hp%median_millis_spec & _). congruence.
  - left. split_and!; [done| |done]. intros delta (pre & ? & Hp%median_millis_spec & _). congruence.
Qed.

Lemma median_millis_perm reports reports' : reports ≡ₚ reports' → median_millis reports = median_millis reports'.
Proof.
  intros Hp. apply option_eq. intros v. rewrite !median_millis_spec.
  assert (totals reports ≡ₚ totals reports') as Ht by (unfold totals; by rewrite Hp).
  split; apply lower_median_perm; [done|by symmetry].
Qed.

Lemma is_nil_perm {A} (l l' : list A) : l ≡ₚ l' → is_nil l = is_nil l'.
Proof. intros Hp%Permutation_length. by destruct l, l'. Qed.

Lemma decision_perm baseline baseline' candidate candidate' experiment :
  baseline ≡ₚ baseline' → candidate ≡ₚ candidate' →
  decision_of baseline candidate experiment = decision_of baseline' candidate' experiment.
Proof.
  intros Hb Hc. unfold decision_of. rewrite (existsb_perm safety_failed _ _ Hc), (is_nil_perm _ _ Hb), (is_nil_perm _ _ Hc),
    (median_millis_perm _ _ Hb), (median_millis_perm _ _ Hc), (forallb_perm er_eligible _ _ Hc).
  by rewrite (existsb_perm (λ r, negb (er_eligible r)) _ _ Hc).
Qed.

Lemma promote_iff baseline candidate experiment :
  decision_of baseline candidate experiment = Promote ↔
  ¬ unsafe candidate ∧ ex_observation_window_ms experiment ≤ ex_observed_duration_ms experiment
  ∧ Forall (λ r, er_eligible r = true) candidate
  ∧ ∃ delta, changed baseline candidate delta ∧ (- Z.of_N (ex_rollback_threshold experiment) < delta)%Z
      ∧ (Z.of_N (ex_success_threshold experiment) ≤ delta)%Z.
Proof.
  rewrite List.Forall_forall, <-forallb_forall.
  destruct (decision_cases baseline candidate experiment) as [[Hu ->]|[(Hu & Hnone & ->)|(Hu & delta & Hd & Huniq & ->)]].
  - split; [done|]. by intros [? _].
  - split; [done|]. intros (_ & _ & _ & delta & Hd & _). by destruct (Hnone delta).
  - split.
    + destruct (Z.leb_spec delta (- Z.of_N (ex_rollback_threshold experiment))); [done|].
      destruct (N.ltb_spec (ex_observed_duration_ms experiment) (ex_observation_window_ms experiment)); [done|].
      destruct (Z.leb_spec (Z.of_N (ex_success_threshold experiment)) delta), (forallb er_eligible candidate); cbn [andb];
        try (by destruct (_ || _)). intros _. split_and!; [done|done|done|by exists delta].
    + intros (_ & Hw & He & delta' & Hd' & Hr & Hs). apply Huniq in Hd' as ->. rewrite He.
      destruct (Z.leb_spec delta (- Z.of_N (ex_rollback_threshold experiment))); [lia|].
      destruct (N.ltb_spec (ex_observed_duration_ms experiment) (ex_observation_window_ms experiment)); [lia|].
      by destruct (Z.leb_spec (Z.of_N (ex_success_threshold experiment)) delta); [|lia].
Qed.

Lemma rollback_iff baseline candidate experiment :
  decision_of baseline candidate experiment = Rollback ↔
  unsafe candidate ∨ ∃ delta, changed baseline candidate delta ∧ (delta ≤ - Z.of_N (ex_rollback_threshold experiment))%Z.
Proof.
  destruct (decision_cases baseline candidate experiment) as [[Hu ->]|[(Hu & Hnone & ->)|(Hu & delta & Hd & Huniq & ->)]].
  - split; [by left|done].
  - split; [done|]. intros [?|(delta & Hd & _)]; [done|]. by destruct (Hnone delta).
  - destruct (Z.leb_spec delta (- Z.of_N (ex_rollback_threshold experiment))) as [Hle|Hgt].
    + split; [|done]. intros _. right. by exists delta.
    + split; [by repeat case_match|]. intros [?|(delta' & Hd' & Hle)]; [done|]. apply Huniq in Hd' as ->. lia.
Qed.

Context {Payload : Type} `{!PayloadDigest (Payload := Payload)}.

(** What evidence says of a report that takes part in a promotion. *)
Definition vouched (rubric : Rubric) (scores : list DimensionScore) (gates : list GateResult)
    (evidence : list (@EvidenceItem Payload)) (thresholds : EvaluationThresholds) (report : EvaluationReport) : Prop :=
  Forall authentic evidence
  ∧ (∀ gr, gr ∈ gates → gr_passed gr = true ∧ all_backed evidence (gr_evidence gr))
  ∧ (∀ rd, rd ∈ rb_dimensions rubric → rd_mandatory rd = true →
      ∃ ds, ds ∈ scores ∧ ds_name ds = rd_name rd ∧ is_scored ds = true ∧ all_backed evidence (ds_evidence ds))
  ∧ (∃ total, er_weighted_total_millis report = Some total ∧ th_min_score_millis thresholds ≤ total ≤ 100000)
  ∧ th_min_evidence_coverage_millis thresholds ≤ er_evidence_coverage_millis report ≤ 1000
  ∧ th_min_confidence_millis thresholds ≤ er_confidence_millis report ∧ 700 ≤ er_confidence_millis report ≤ 1000.

Lemma eligible_vouched rubric scores gates (evidence : list (@EvidenceItem Payload)) thresholds report :
  backs rubric scores gates evidence thresholds report → er_eligible report = true →
  vouched rubric scores gates evidence thresholds report.
Proof.
  intros Hb He. apply (bk_eligible _ _ _ _ _ _ Hb) in He as (Hmand & Hpass & (total & Ht & Hmin) & Hcov & Hconf).
  pose proof Ht as Hsome. rewrite (bk_total _ _ _ _ _ _ Hb) in Hsome.
  pose proof (reference_bounds _ _ _ (bk_well_formed _ _ _ _ _ _ Hb)) as [_ Hmax].
  split_and!; [apply (bk_authentic _ _ _ _ _ _ Hb)|..].
  - intros gr Hin. rewrite Forall_forall in Hpass. split; [by apply Hpass|]. by apply (bk_gate_results _ _ _ _ _ _ Hb).
  - intros rd Hin Hm. unfold mandatory_scored in Hmand. rewrite forallb_forall in Hmand.
    assert (In rd (List.filter rd_mandatory (rb_dimensions rubric))) as Hf by (apply filter_In; by rewrite <-list_elem_of_In).
    apply Hmand, existsb_exists in Hf as (ds & Hds%list_elem_of_In & [Hname Hs]%andb_true_iff).
    exists ds. rewrite bool_decide_eq_true in Hname. split_and!; [done|done|done|]. by apply (bk_scores _ _ _ _ _ _ Hb).
  - exists total. split; [done|]. split; [done|]. by apply Hmax.
  - done.
  - apply (bk_coverage _ _ _ _ _ _ Hb).
  - done.
  - apply (bk_confidence _ _ _ _ _ _ Hb). intros Hz. cbn in Hsome. by rewrite Hz in Hsome.
  - apply (bk_confidence _ _ _ _ _ _ Hb). intros Hz. cbn in Hsome. by rewrite Hz in Hsome.
Qed.


End Experiments.

End Evaluator.

(** ** A candidate at work *)
Module EvaluationSample.
Import Evaluator.

#[local] Existing Instance ascii_case.

(** A payload that is its own digest. *)
#[local] Instance own_digest : PayloadDigest (Payload := text) := λ payload, inr payload.

Definition sample_rubric : Rubric := {|
  rb_id := lit "coding"; rb_version := 1;
  rb_dimensions := [ {| rd_name := lit "goal"; rd_weight_millis := 500000; rd_mandatory := true |};
                     {| rd_name := lit "quality"; rd_weight_millis := 300000; rd_mandatory := false |};
                     {| rd_name := lit "cost"; rd_weight_millis := 200000; rd_mandatory := false |} ];
  rb_gates := [ {| rg_name := lit "Safety boundary"; rg_description := [] |} ];
|}.

Definition score (name : string) (value : DimensionValue) (weight : N) : DimensionScore := {|
  ds_name := lit name; ds_value := value; ds_weight_millis := weight; ds_evidence := [lit "ev"; lit "log"]; ds_reasons := [];
|}.

(** The cost is unknown. *)
Definition sample_scores (goal : N) : list DimensionScore :=
  [score "cost" Unknown 200000; score "goal" (Scored goal) 500000; score "quality" (Scored 60) 300000].

Definition sample_gates (passed : bool) : list GateResult :=
  [ {| gr_name := lit "Safety boundary"; gr_passed := passed; gr_evidence := [lit "ev"] |} ].

Definition item (id : string) (trust : EvidenceTrust) : @EvidenceItem text := {|
  ei_schema_version := 1; ei_evidence_id := lit id; ei_experience_id := lit "x"; ei_kind := VerificationResult;
  ei_source := []; ei_producer := []; ei_captured_at_ms := 0%Z; ei_payload := lit id; ei_sha256 := lit id; ei_trust := trust;
  ei_freshness_ms := None; ei_redacted := false;
|}.

Definition sample_evidence : list (@EvidenceItem text) := [item "ev" Authoritative; item "log" Corroborated].

Definition sample_thresholds : EvaluationThresholds :=
  {| th_min_score_millis := 70000; th_min_evidence_coverage_millis := 750; th_min_confidence_millis := 800 |}.

Definition sample_report (goal : N) (passed : bool) : EvaluationReport :=
  match evaluate_evidence_backed sample_rubric (sample_scores goal) (sample_gates passed) sample_evidence sample_thresholds with
  | Ok report => report
  | _ => reference sample_rubric [] []
  end.

Definition sample_experiment (observed_ms : N) : EvolutionExperiment := {|
  ex_baseline_version := lit "1"; ex_candidate_version := lit "2"; ex_target_problem_ids := [];
  ex_baseline_score_distribution := []; ex_success_threshold := 5000; ex_rollback_threshold := 3000;
  ex_observation_window_ms := 60000; ex_observed_duration_ms := observed_ms;
|}.

Definition sample_decision (goals : list N) (passed : bool) (observed_ms : N) : ExperimentDecision :=
  eo_decision (decide_experiment [sample_report 80 true; sample_report 70 true]
    ((λ goal, sample_report goal passed) <$> goals) (sample_experiment observed_ms)).

(** The figures of one report. *)
Example sample_report_figures :
  (λ r, (er_weighted_total_millis r, er_evidence_coverage_millis r, er_confidence_millis r, er_eligible r)) (sample_report 80 true)
  = (Some 72500, 800, 850, true).
Proof. vm_compute. done. Qed.

(** Each decision is taken. *)
Example sample_decisions :
  sample_decision [90; 85] true 60000 = Promote ∧ sample_decision [75; 70] true 60000 = Reject
  ∧ sample_decision [80; 80] true 60000 = Promote ∧ sample_decision [60; 60] true 0 = Rollback
  ∧ sample_decision [90; 95] false 60000 = Rollback ∧ sample_decision [] true 60000 = Inconclusive.
Proof. vm_compute. done. Qed.

(** The theorems at the sample. *)
Lemma evaluation_matches_reference_witness :
  evaluate sample_rubric (sample_scores 80) (sample_gates true) = Ok (reference sample_rubric (sample_scores 80) (sample_gates true))
  ∧ well_formed sample_rubric (sample_scores 80) (sample_gates true).
Proof.
  assert (small sample_rubric) as Hsmall by (vm_compute; discriminate).
  assert (evaluate sample_rubric (sample_scores 80) (sample_gates true)
          = Ok (reference sample_rubric (sample_scores 80) (sample_gates true))) as Heq by (vm_compute; reflexivity).
  split; [exact Heq|].
  destruct (evaluation_matches_reference sample_rubric (sample_scores 80) (sample_gates true) Hsmall) as (Hiff & _).
  by apply Hiff in Heq as (? & _).
Defined.


(** A candidate that improves before its window is over is retained, although the
    rule for promotion is the earlier one in the documentation. *)
Example window_before_promotion : sample_decision [90; 85] true 59999 = Retain.
Proof. vm_compute. done. Qed.

End EvaluationSample.
