(* ===== verification/ChangeTransaction.v ===== *)
(** * Change transactions (corpus/src/tools/tools/change_transaction.rs)

    An agent edits a workspace inside a transaction: the host captures a baseline,
    records what is applied, derives the validations the change needs
    (change_transaction/validation.rs), has the difference reviewed and the
    validations run on exactly the reviewed version, and then accepts the change or
    restores the baseline.  The types are those of
    fabric/src/types/change_transaction.rs and repository.rs.

    The workspace itself (git, the files, the capture of a version and the restoring
    of a baseline) answers as a parameter at every external call, so anything may
    write to it at any time. *)
From S2P Require Import Prelude StdModel Fallible StdText.

#[local] Open Scope N_scope.

Module ChangeTransactions.

(** ** fabric/src/types/repository.rs *)

Record RepositoryFileEvidence := {
  rf_path : text;
  rf_sha256 : text;
  rf_size_bytes : N;
  rf_artifact_ref : text;
  rf_preview : text;
  rf_preview_truncated : bool;
}.

Record InstructionSource := { is_file_ : RepositoryFileEvidence; is_precedence : N }.

Record ManifestRef := { mr_file : RepositoryFileEvidence; mr_kind : text }.

Record VcsSnapshot := {
  vc_kind : option text;
  vc_head : option text;
  vc_branch : option text;
  vc_dirty : option bool;
  vc_status_artifact_ref : option text;
}.

Record ValidationSpec := { vs_kind : text; vs_command : text; vs_source_path : text; vs_source_line : N }.

Record DeploymentPolicy := {
  dp_source_path : text;
  dp_requires_installed_runtime : bool;
  dp_command : option text;
  dp_affected_path_prefixes : list text;
}.

Record RepositoryContext := {
  rc_root : text;
  rc_version : text;
  rc_instructions : list InstructionSource;
  rc_manifests : list ManifestRef;
  rc_entry_files : list RepositoryFileEvidence;
  rc_evidence_constraints : list text;
  rc_exact_follow_up_paths : list text;
  rc_missing_candidates : list text;
  rc_vcs_state : VcsSnapshot;
  rc_validation_commands : list ValidationSpec;
  rc_protected_paths : list text;
  rc_deployment_policy : option DeploymentPolicy;
}.

(** ** fabric/src/types/change_transaction.rs *)

Inductive WorkspaceVersionBasis := GitWorktree | BoundedTree.

Record WorkspaceVersion := {
  wv_digest : text;
  wv_basis : WorkspaceVersionBasis;
  wv_root : text;
  wv_head : option text;
  wv_changed_paths : list text;
}.

Record ChangedRange := { cr_path : text; cr_start_line : N; cr_end_line : N }.

Inductive ChangeTransactionPhase :=
| Baseline | Applied | DiffReviewed | Validated | Repair | Accepted | RolledBack | Conflicted.

#[global] Instance ChangeTransactionPhase_eq_dec : EqDecision ChangeTransactionPhase.
Proof. solve_decision. Defined.

Record ActiveCommandLease := { al_session_id : text; al_purpose : text; al_workspace_version : text }.

Record ValidationPlanStep := {
  ps_id : text;
  ps_validation_kind : text;
  ps_command : text;
  ps_reason : text;
  ps_source : text;
  ps_required : bool;
}.

Record ValidationPlanOmission := { po_validation_kind : text; po_reason : text }.

Inductive ValidationImpact := NonCode | PackageLocal | WorkspaceDependency.

#[global] Instance ValidationImpact_eq_dec : EqDecision ValidationImpact.
Proof. solve_decision. Defined.

Inductive ValidationRisk := Low | Moderate | High | DeploymentCritical.

Record VersionedValidationReceipt := {
  vr_validation_kind : text;
  vr_command : text;
  vr_workspace_version : text;
  vr_terminal_status : text;
  vr_output_ref : option text;
}.

Inductive WorkFailureClass :=
| Implementation | TestExpectation | Environment | Dependency | Permission | Provider | Timeout
| ConcurrentModification | InvalidToolRequest | UnknownFailure.

Record WorkFailure := { wf_class : WorkFailureClass; wf_summary : text; wf_retryable : bool }.

Inductive WorkRecoveryDirective :=
| RepairImplementation | ReviewTestExpectation | CollectEnvironmentEvidence | InspectDependency | RequestAuthority
| HonorProviderBackpressure | AdjustBoundedExecution | ReinspectWorkspace | CorrectArguments | BroadenDiagnosis.

Definition recovery (failure : WorkFailure) : WorkRecoveryDirective :=
  match wf_class failure with
  | Implementation => RepairImplementation
  | TestExpectation => ReviewTestExpectation
  | Environment => CollectEnvironmentEvidence
  | Dependency => InspectDependency
  | Permission => RequestAuthority
  | Provider => HonorProviderBackpressure
  | Timeout => AdjustBoundedExecution
  | ConcurrentModification => ReinspectWorkspace
  | InvalidToolRequest => CorrectArguments
  | UnknownFailure => BroadenDiagnosis
  end.

(** ** validation.rs *)

(** [toml::Value], as far as the manifests are read. *)
Inductive Toml :=
| TomlString (s : text)
| TomlTable (entries : list (text * Toml))
| TomlOther.

(** The files of a repository at the [i]-th external call, below a root; [toml]'s
    parser; the entries of the directory of crates. *)
Class RepositoryFiles := {
  repo_is_file : N → text → list text → bool;
  repo_is_dir : N → text → list text → bool;
  repo_read : N → text → list text → option text;
  repo_crates : N → text → option (list text);
  parse_toml : text → option Toml;
}.

Record ValidationProjection := {
  vp_steps : list ValidationPlanStep;
  vp_omissions : list ValidationPlanOmission;
  vp_impact : ValidationImpact;
  vp_risk : ValidationRisk;
}.

Definition default_projection : ValidationProjection :=
  {| vp_steps := []; vp_omissions := []; vp_impact := NonCode; vp_risk := Low |}.

Definition toml_get (key : string) (value : Toml) : option Toml :=
  match value with TomlTable entries => snd <$> find (λ e, bool_decide (e.1 = lit key)) entries | _ => None end.

Definition toml_str (value : Toml) : option text := match value with TomlString s => Some s | _ => None end.

Definition slash : N := 47.

(** The second part of a path whose first is [crates]. *)
Definition crate_dir (path : text) : option text :=
  match split (λ c, c =? slash) path with
  | first :: second :: _ => if bool_decide (first = lit "crates") then Some second else None
  | _ => None
  end.

(** [collect::<BTreeSet<_>>()] *)
Definition btree_set (l : list text) : list text := dedup (sort_by (lex N.le) l).

Definition kind_rank (step : ValidationPlanStep) : N :=
  let kind := ps_validation_kind step in
  if bool_decide (kind = lit "format") then 0
  else if bool_decide (kind = lit "check") then 1
  else if bool_decide (kind = lit "test") then 2
  else if bool_decide (kind = lit "lint") then 3
  else if bool_decide (kind = lit "build") then 4
  else if bool_decide (kind = lit "deploy") then 5
  else 6.

Definition rank_le (a b : ValidationPlanStep) : Prop := kind_rank a ≤ kind_rank b.

#[global] Instance rank_le_dec : RelDecision rank_le.
Proof. intros a b. apply N.le_dec. Defined.

Definition has_step (plan : list ValidationPlanStep) (kind command : text) : bool :=
  existsb (λ step, bool_decide (ps_command step = command) && bool_decide (ps_validation_kind step = kind)) plan.

Definition deployment_required (context : RepositoryContext) (changed_paths : list text) : bool :=
  match rc_deployment_policy context with
  | None => false
  | Some policy =>
      dp_requires_installed_runtime policy
      && (match dp_affected_path_prefixes policy with [] => true | _ => false end
          || existsb (λ path, existsb (λ prefix, bool_decide (path = prefix) || starts_with path (prefix ++ [slash]))
                                (dp_affected_path_prefixes policy)) changed_paths)
  end.

(** A command of the repository's instructions. *)
Definition add_rule (deploys : bool) (plan : list ValidationPlanStep) (spec : ValidationSpec) : list ValidationPlanStep :=
  if bool_decide (vs_kind spec = lit "deploy") && negb deploys then plan
  else if is_empty (vs_command spec) || contains_char (vs_command spec) 60 || contains_char (vs_command spec) 62
          || contains_char (vs_command spec) 36 then plan
  else if has_step plan (vs_kind spec) (vs_command spec) then plan
  else plan ++ [{|
    ps_id := lit "repository-rule-" ++ lit (pretty (vs_source_line spec)) ++ lit "-" ++ lit (pretty (N.of_nat (length plan + 1)));
    ps_validation_kind := vs_kind spec;
    ps_command := vs_command spec;
    ps_reason := lit "required by repository instruction evidence";
    ps_source := vs_source_path spec ++ lit ":" ++ lit (pretty (vs_source_line spec));
    ps_required := true;
  |}].

Definition add_deployment (deploys : bool) (context : RepositoryContext) (plan : list ValidationPlanStep)
    : list ValidationPlanStep :=
  if deploys then
    match rc_deployment_policy context with
    | Some policy =>
        match dp_command policy with
        | Some command =>
            if is_empty command || existsb (λ step, bool_decide (ps_command step = command)) plan then plan
            else plan ++ [{|
              ps_id := lit "installed-runtime-acceptance";
              ps_validation_kind := lit "deploy";
              ps_command := command;
              ps_reason := lit "typed repository deployment policy applies to the changed paths";
              ps_source := dp_source_path policy;
              ps_required := true;
            |}]
        | None => plan
        end
    | None => plan
    end
  else plan.

Section Plan.
Context `{RepositoryFiles}.

Definition cargo_package_name (i : N) (root crate : text) : option text :=
  content ← repo_read i root [lit "crates"; crate; lit "Cargo.toml"];
  value ← parse_toml content;
  package ← toml_get "package" value;
  name ← toml_get "name" package;
  toml_str name.

(** The keys of a table of dependencies and the packages they rename. *)
Definition table_dependencies (value : Toml) (table : string) : list text :=
  match toml_get table value with
  | Some (TomlTable entries) =>
      entries.*1 ++ omap (λ e, toml_get "package" e.2 ≫= toml_str) entries
  | _ => []
  end.

Definition package_of (i : N) (root entry : text) : option (text * list text) :=
  manifest ← repo_read i root [lit "crates"; entry; lit "Cargo.toml"];
  value ← parse_toml manifest;
  package ← toml_get "package" value;
  name ← toml_get "name" package;
  name ← toml_str name;
  Some (name, ["dependencies"; "dev-dependencies"; "build-dependencies"]%string ≫= table_dependencies value).

Definition cargo_workspace_packages (i : N) (root : text) : list (text * list text) :=
  match repo_crates i root with None => [] | Some entries => omap (package_of i root) entries end.

(** [cargo check] or [cargo test] of a changed package *)
Definition add_cargo (prefix name : text) (plan : list ValidationPlanStep) (kind : string) (suffix reason : text)
    : list ValidationPlanStep :=
  let command := prefix ++ lit " " ++ suffix in
  if has_step plan (lit kind) command then plan
  else plan ++ [{|
    ps_id := lit "cargo-" ++ lit kind ++ lit "-" ++ name;
    ps_validation_kind := lit kind;
    ps_command := command;
    ps_reason := reason;
    ps_source := lit "manifest:Cargo.toml";
    ps_required := true;
  |}].

Definition package (i : N) (root crate : text) : text := default crate (cargo_package_name i root crate).

(** One turn of the loop over the changed crates. *)
Definition add_crate (i : N) (root prefix : text) (packages : list (text * list text)) (changed_paths : list text)
    (acc : list ValidationPlanStep * list text) (crate : text) : list ValidationPlanStep * list text :=
  let '(plan, dependents) := acc in
  let name := package i root crate in
  let plan := add_cargo prefix name plan "check" (lit "check -p " ++ name)
    (lit "changed Rust package `" ++ name ++ lit "` requires a target check") in
  let plan := add_cargo prefix name plan "test" (lit "test -p " ++ name ++ lit " --lib")
    (lit "changed Rust package `" ++ name ++ lit "` requires focused unit tests") in
  let plan :=
    if repo_is_dir i root [lit "crates"; crate; lit "tests"]
       || existsb (λ path, starts_with path (lit "crates/" ++ crate ++ lit "/tests/")) changed_paths
    then plan ++ [{|
      ps_id := lit "cargo-integration-" ++ name;
      ps_validation_kind := lit "test";
      ps_command := prefix ++ lit " test -p " ++ name ++ lit " --tests";
      ps_reason := lit "changed Rust package `" ++ name ++ lit "` has relevant integration-test targets";
      ps_source := lit "manifest:crates/" ++ crate ++ lit "/Cargo.toml";
      ps_required := true;
    |}]
    else plan in
  (plan, dependents ++ omap (λ p, if bool_decide (p.1 ≠ name ∧ name ∈ p.2) then Some p.1 else None) packages).

Definition dependent_step (prefix dependent : text) : ValidationPlanStep := {|
  ps_id := lit "cargo-dependent-check-" ++ dependent;
  ps_validation_kind := lit "check";
  ps_command := prefix ++ lit " check -p " ++ dependent;
  ps_reason := lit "direct workspace dependent `" ++ dependent ++ lit "` must compile against the changed package";
  ps_source := lit "workspace dependency graph";
  ps_required := true;
|}.

Definition cargo_prefix (i : N) (root : text) : text :=
  if repo_is_file i root [lit "scripts"; lit "cargo-agent.sh"] then lit "bash scripts/cargo-agent.sh" else lit "cargo".

Definition is_cargo (context : RepositoryContext) : bool :=
  existsb (λ m, bool_decide (mr_kind m = lit "cargo")) (rc_manifests context).

(** The steps of the changed crates and of what depends on them. *)
Definition add_crates (i : N) (context : RepositoryContext) (changed_paths crates : list text) (plan : list ValidationPlanStep)
    : list ValidationPlanStep * list text :=
  if is_cargo context then
    let prefix := cargo_prefix i (rc_root context) in
    let packages := cargo_workspace_packages i (rc_root context) in
    let '(plan, dependents) :=
      foldl (add_crate i (rc_root context) prefix packages changed_paths) (plan, []) crates in
    let dependents := btree_set dependents in
    (plan ++ (dependent_step prefix <$> dependents), dependents)
  else (plan, []).

Definition lacks_kind (plan : list ValidationPlanStep) (kind : string) : bool :=
  negb (existsb (λ step, bool_decide (ps_validation_kind step = lit kind)) plan).

Definition omissions_of (plan : list ValidationPlanStep) (deploys : bool) : list ValidationPlanOmission :=
  (if lacks_kind plan "format" then
     [{| po_validation_kind := lit "format"; po_reason := lit "no applicable repository format command was found" |}] else [])
  ++ (if negb (existsb (λ step, bool_decide (ps_validation_kind step = lit "test") && contains (ps_command step) (lit "--tests")) plan)
      then [{| po_validation_kind := lit "integration_test";
               po_reason := lit "no changed package exposed a relevant integration-test target" |}] else [])
  ++ (if negb deploys then
        [{| po_validation_kind := lit "installed_runtime";
            po_reason := lit "typed repository metadata does not require installed-runtime acceptance" |}] else [])
  ++ (if lacks_kind plan "build" then
        [{| po_validation_kind := lit "workspace_build";
            po_reason := lit "targeted package checks cover the derived dependency impact; no workspace-wide build was selected" |}]
      else []).

Definition derive_validation_plan (i : N) (context : RepositoryContext) (changed_paths : list text) : ValidationProjection :=
  let deploys := deployment_required context changed_paths in
  let plan := foldl (add_rule deploys) [] (rc_validation_commands context) in
  let plan := add_deployment deploys context plan in
  let crates := btree_set (omap crate_dir changed_paths) in
  let impact := match crates with [] => NonCode | _ => PackageLocal end in
  let manifest_changed :=
    existsb (λ path, bool_decide (path = lit "Cargo.toml") || ends_with path (lit "/Cargo.toml")) changed_paths in
  let '(plan, dependents) := add_crates i context changed_paths crates plan in
  let impact := match dependents with [] => impact | _ => WorkspaceDependency end in
  let plan := sort_by rank_le plan in
  {| vp_steps := plan;
     vp_omissions := omissions_of plan deploys;
     vp_impact := impact;
     vp_risk :=
       if deploys then DeploymentCritical
       else if manifest_changed || bool_decide (impact = WorkspaceDependency) then High
       else if bool_decide (impact = PackageLocal) then Moderate
       else Low |}.

End Plan.

(** ** change_transaction.rs *)

Abbreviation ChangeTransactionId := Uuid (only parsing).

Section Registry.
(** [AgentToolContext], of which equality is used *)
Context {AgentToolContext : Type} `{!EqDecision AgentToolContext}.

Record ChangeTransactionSnapshot := {
  ct_transaction_id : ChangeTransactionId;
  ct_owner_session_id : text;
  ct_owner_agent : option AgentToolContext;
  ct_root : text;
  ct_baseline : WorkspaceVersion;
  ct_current : WorkspaceVersion;
  ct_phase : ChangeTransactionPhase;
  ct_changed_paths : list text;
  ct_changed_ranges : list ChangedRange;
  ct_diff_artifact_ref : option text;
  ct_validation_plan : list ValidationPlanStep;
  ct_validation_omissions : list ValidationPlanOmission;
  ct_validation_impact : ValidationImpact;
  ct_validation_risk : ValidationRisk;
  ct_validation_receipts : list VersionedValidationReceipt;
  ct_accepted_workspace_version : option text;
  ct_active_command : option ActiveCommandLease;
  ct_failure : option WorkFailure;
}.

(** The workspace at the [i]-th external call: [Path::canonicalize],
    [workspace_version::capture] and the methods of [BaselineRestore]. *)
Class Workspace := {
  BaselineRestore : Type;
  canonicalize : N → text → text + text;
  capture : N → text → text + WorkspaceVersion;
  capture_restore : N → text → WorkspaceVersion → text + BaselineRestore;
  restore_baseline : N → BaselineRestore → ChangeTransactionSnapshot → option text;
  restore_changed_paths : N → BaselineRestore → WorkspaceVersion → text + list text;
}.

Context `{Env} {HR : RepositoryFiles} {HW : Workspace}.

Record ChangeTransactionRegistry := {
  cg_transactions : gmap ChangeTransactionId ChangeTransactionSnapshot;
  cg_repository_contexts : gmap ChangeTransactionId RepositoryContext;
  cg_restore_points : gmap ChangeTransactionId BaselineRestore;
}.

Definition no_transactions : ChangeTransactionRegistry :=
  {| cg_transactions := ∅; cg_repository_contexts := ∅; cg_restore_points := ∅ |}.

(** Methods that fail with a [WorkFailure], and with [anyhow::Error]. *)
Abbreviation Work := (M ChangeTransactionRegistry WorkFailure).
Abbreviation Reg := (M ChangeTransactionRegistry text).

Definition invalid_request (summary : text) : WorkFailure :=
  {| wf_class := InvalidToolRequest; wf_summary := summary; wf_retryable := true |}.

Definition environment_failure (summary : text) : WorkFailure :=
  {| wf_class := Environment; wf_summary := summary; wf_retryable := true |}.

Definition unknown_transaction : text := lit "unknown change transaction".

Definition set_transaction (id : ChangeTransactionId) (s : ChangeTransactionSnapshot) (g : ChangeTransactionRegistry)
    : ChangeTransactionRegistry :=
  {| cg_transactions := <[id := s]> (cg_transactions g); cg_repository_contexts := cg_repository_contexts g;
     cg_restore_points := cg_restore_points g |}.

(** [*snapshot = ..; Ok(snapshot.clone())] under the lock *)
Definition store {E} (id : ChangeTransactionId) (s : ChangeTransactionSnapshot)
    : M ChangeTransactionRegistry E ChangeTransactionSnapshot :=
  modify (set_transaction id s) ;; mret s.

(** [get_mut(&transaction_id)], or an error *)
Definition find_transaction {E} (error : E) (id : ChangeTransactionId) : M ChangeTransactionRegistry E ChangeTransactionSnapshot :=
  g ← get_state;
  ok_or (cg_transactions g !! id) error.

(** [owner_agent] and what follows the capture of the baseline *)
Definition fresh_snapshot (id : ChangeTransactionId) (owner_session_id : text) (owner_agent : option AgentToolContext)
    (baseline : WorkspaceVersion) : ChangeTransactionSnapshot := {|
  ct_transaction_id := id;
  ct_owner_session_id := owner_session_id;
  ct_owner_agent := owner_agent;
  ct_root := wv_root baseline;
  ct_baseline := baseline;
  ct_current := baseline;
  ct_phase := Baseline;
  ct_changed_paths := [];
  ct_changed_ranges := [];
  ct_diff_artifact_ref := None;
  ct_validation_plan := [];
  ct_validation_omissions := [];
  ct_validation_impact := NonCode;
  ct_validation_risk := Low;
  ct_validation_receipts := [];
  ct_accepted_workspace_version := None;
  ct_active_command := None;
  ct_failure := None;
|}.

Definition begin_for_agent (owner_session_id : text) (owner_agent : option AgentToolContext) (root : text)
    : Reg ChangeTransactionSnapshot :=
  i ← tick;
  match capture i root with
  | inl e => throw e
  | inr baseline =>
      i ← tick;
      match capture_restore i (wv_root baseline) baseline with
      | inl e => throw e
      | inr restore =>
          id ← new_uuid;
          let snapshot := fresh_snapshot id owner_session_id owner_agent baseline in
          modify (set_transaction id snapshot) ;;
          modify (λ g, {| cg_transactions := cg_transactions g; cg_repository_contexts := cg_repository_contexts g;
                          cg_restore_points := <[id := restore]> (cg_restore_points g) |}) ;;
          mret snapshot
      end
  end.

Definition begin (owner_session_id root : text) : Reg ChangeTransactionSnapshot :=
  begin_for_agent owner_session_id None root.

Definition begin_with_context (owner_session_id : text) (owner_agent : option AgentToolContext) (context : RepositoryContext)
    : Reg ChangeTransactionSnapshot :=
  snapshot ← begin_for_agent owner_session_id owner_agent (rc_root context);
  modify (λ g, {| cg_transactions := cg_transactions g;
                  cg_repository_contexts := <[ct_transaction_id snapshot := context]> (cg_repository_contexts g);
                  cg_restore_points := cg_restore_points g |}) ;;
  mret snapshot.

(** [snapshot.phase = phase; snapshot.failure = failure;] *)
Definition set_phase (phase : ChangeTransactionPhase) (failure : option WorkFailure) (s : ChangeTransactionSnapshot)
    : ChangeTransactionSnapshot := {|
  ct_transaction_id := ct_transaction_id s; ct_owner_session_id := ct_owner_session_id s;
  ct_owner_agent := ct_owner_agent s; ct_root := ct_root s; ct_baseline := ct_baseline s; ct_current := ct_current s;
  ct_phase := phase;
  ct_changed_paths := ct_changed_paths s; ct_changed_ranges := ct_changed_ranges s;
  ct_diff_artifact_ref := ct_diff_artifact_ref s; ct_validation_plan := ct_validation_plan s;
  ct_validation_omissions := ct_validation_omissions s; ct_validation_impact := ct_validation_impact s;
  ct_validation_risk := ct_validation_risk s; ct_validation_receipts := ct_validation_receipts s;
  ct_accepted_workspace_version := ct_accepted_workspace_version s; ct_active_command := ct_active_command s;
  ct_failure := failure;
|}.

(** [snapshot.active_command = lease;] *)
Definition set_lease (lease : option ActiveCommandLease) (s : ChangeTransactionSnapshot) : ChangeTransactionSnapshot := {|
  ct_transaction_id := ct_transaction_id s; ct_owner_session_id := ct_owner_session_id s;
  ct_owner_agent := ct_owner_agent s; ct_root := ct_root s; ct_baseline := ct_baseline s; ct_current := ct_current s;
  ct_phase := ct_phase s; ct_changed_paths := ct_changed_paths s; ct_changed_ranges := ct_changed_ranges s;
  ct_diff_artifact_ref := ct_diff_artifact_ref s; ct_validation_plan := ct_validation_plan s;
  ct_validation_omissions := ct_validation_omissions s; ct_validation_impact := ct_validation_impact s;
  ct_validation_risk := ct_validation_risk s; ct_validation_receipts := ct_validation_receipts s;
  ct_accepted_workspace_version := ct_accepted_workspace_version s;
  ct_active_command := lease;
  ct_failure := ct_failure s;
|}.

Definition mark_conflicted (id : ChangeTransactionId) (failure : WorkFailure) : Work unit :=
  modify (λ g, match cg_transactions g !! id with
               | Some s => set_transaction id (set_phase Conflicted (Some failure) s) g
               | None => g
               end).

Definition verify_current (id : ChangeTransactionId) (owner_session_id : text) (owner_agent : option AgentToolContext)
    (root : text) : Work ChangeTransactionSnapshot :=
  snapshot ← find_transaction (invalid_request unknown_transaction) id;
  ensure (bool_decide (ct_owner_session_id snapshot = owner_session_id))
    {| wf_class := Permission; wf_summary := lit "change transaction belongs to another authenticated session";
       wf_retryable := false |} ;;
  ensure (bool_decide (ct_owner_agent snapshot = owner_agent))
    {| wf_class := Permission; wf_summary := lit "change transaction belongs to a different Agent runtime owner";
       wf_retryable := false |} ;;
  match ct_active_command snapshot with
  | Some active =>
      throw {| wf_class := ConcurrentModification;
               wf_summary := lit "managed command session " ++ al_session_id active
                               ++ lit " still owns the transaction workspace lease";
               wf_retryable := true |}
  | None => mret tt
  end ;;
  i ← tick;
  match canonicalize i root with
  | inl e => throw (invalid_request (lit "invalid transaction root: " ++ e))
  | inr root =>
      ensure (bool_decide (ct_root snapshot = root)) (invalid_request (lit "change transaction root does not match tool root")) ;;
      i ← tick;
      match capture i root with
      | inl e => throw (environment_failure (lit "workspace version capture failed: " ++ e))
      | inr observed =>
          if bool_decide (wv_digest observed = wv_digest (ct_current snapshot)) then mret snapshot
          else
            let failure := {|
              wf_class := ConcurrentModification;
              wf_summary := lit "workspace changed outside transaction: expected " ++ wv_digest (ct_current snapshot)
                              ++ lit ", observed " ++ wv_digest observed;
              wf_retryable := true |} in
            mark_conflicted id failure ;; throw failure
      end
  end.

(** What [reserve_command] does under the lock, after the verification *)
Definition reserve_verified (id : ChangeTransactionId) (verified : ChangeTransactionSnapshot)
    (command_session_id purpose : text) : Work ChangeTransactionSnapshot :=
  snapshot ← find_transaction (invalid_request unknown_transaction) id;
  ensure (match ct_active_command snapshot with None => true | Some _ => false end)
    {| wf_class := ConcurrentModification;
       wf_summary := lit "another managed command already owns the transaction workspace lease"; wf_retryable := true |} ;;
  ensure (negb (bool_decide (purpose = lit "validation") && negb (bool_decide (ct_phase snapshot = DiffReviewed))))
    (invalid_request (lit "validation command lease requires a reviewed transaction diff")) ;;
  ensure (match ct_phase snapshot with Accepted | RolledBack | Conflicted => false | _ => true end)
    (invalid_request (lit "terminal or conflicted transaction cannot start a managed command")) ;;
  store id (set_lease (Some {| al_session_id := command_session_id; al_purpose := purpose;
                               al_workspace_version := wv_digest (ct_current verified) |}) snapshot).

Definition reserve_command (id : ChangeTransactionId) (owner_session_id : text) (owner_agent : option AgentToolContext)
    (root command_session_id purpose : text) : Work ChangeTransactionSnapshot :=
  verified ← verify_current id owner_session_id owner_agent root;
  reserve_verified id verified command_session_id purpose.

Definition require_command_lease (snapshot : ChangeTransactionSnapshot) (command_session_id : text) : Reg unit :=
  match ct_active_command snapshot with
  | Some lease =>
      ensure (bool_decide (al_session_id lease = command_session_id))
        (lit "transaction command lease belongs to session " ++ al_session_id lease)
  | None => throw (lit "transaction has no active managed-command lease")
  end.

Definition release_command (id : ChangeTransactionId) (command_session_id : text) : Reg ChangeTransactionSnapshot :=
  snapshot ← find_transaction unknown_transaction id;
  require_command_lease snapshot command_session_id ;;
  store id (set_lease None snapshot).

(** The snapshot after a change, with the validations it needs *)
Definition applied (current : WorkspaceVersion) (validation : ValidationProjection) (s : ChangeTransactionSnapshot)
    : ChangeTransactionSnapshot := {|
  ct_transaction_id := ct_transaction_id s; ct_owner_session_id := ct_owner_session_id s;
  ct_owner_agent := ct_owner_agent s; ct_root := ct_root s; ct_baseline := ct_baseline s;
  ct_current := current;
  ct_phase := Applied;
  ct_changed_paths := wv_changed_paths current;
  ct_changed_ranges := [];
  ct_diff_artifact_ref := None;
  ct_validation_plan := vp_steps validation;
  ct_validation_omissions := vp_omissions validation;
  ct_validation_impact := vp_impact validation;
  ct_validation_risk := vp_risk validation;
  ct_validation_receipts := [];
  ct_accepted_workspace_version := None;
  ct_active_command := None;
  ct_failure := None;
|}.

Definition with_changed_paths (paths : list text) (v : WorkspaceVersion) : WorkspaceVersion := {|
  wv_digest := wv_digest v; wv_basis := wv_basis v; wv_root := wv_root v; wv_head := wv_head v; wv_changed_paths := paths;
|}.

(** The changed paths of a tree without git are found by comparison. *)
Definition compared (id : ChangeTransactionId) (current : WorkspaceVersion) : Reg WorkspaceVersion :=
  match wv_basis current with
  | GitWorktree => mret current
  | BoundedTree =>
      g ← get_state;
      match cg_restore_points g !! id with
      | None => mret current
      | Some restore =>
          i ← tick;
          match restore_changed_paths i restore current with
          | inl e => throw e
          | inr paths => mret (with_changed_paths paths current)
          end
      end
  end.

Definition record_apply (id : ChangeTransactionId) (current : WorkspaceVersion) : Reg ChangeTransactionSnapshot :=
  current ← compared id current;
  snapshot ← find_transaction unknown_transaction id;
  g ← get_state;
  i ← tick;
  let validation :=
    match cg_repository_contexts g !! id with
    | Some context => derive_validation_plan i context (wv_changed_paths current)
    | None => default_projection
    end in
  store id (applied current validation snapshot).

(** The three sections of [record_shell_terminal]: the lease is checked, the change is
    recorded, and a command that failed is marked. *)
Definition check_lease (id : ChangeTransactionId) (command_session_id : text) : Reg unit :=
  stored ← find_transaction unknown_transaction id;
  require_command_lease stored command_session_id.

Definition record_shell_failure (id : ChangeTransactionId) (terminal_status : text) : Reg ChangeTransactionSnapshot :=
  stored ← find_transaction unknown_transaction id;
  store id (set_phase Repair (Some {|
    wf_class := if bool_decide (terminal_status = lit "timed_out") then Timeout
                else if bool_decide (terminal_status = lit "cancelled") then Environment
                else UnknownFailure;
    wf_summary := lit "workspace-changing managed command ended with " ++ terminal_status
                    ++ lit "; inspect terminal artifact before recovery";
    wf_retryable := true |}) stored).

Definition record_shell_terminal (id : ChangeTransactionId) (command_session_id : text) (current : WorkspaceVersion)
    (terminal_status : text) : Reg ChangeTransactionSnapshot :=
  check_lease id command_session_id ;;
  snapshot ← record_apply id current;
  if bool_decide (terminal_status = lit "succeeded") then mret snapshot
  else record_shell_failure id terminal_status.

Definition reviewed (artifact_ref : text) (changed_ranges : list ChangedRange) (s : ChangeTransactionSnapshot)
    : ChangeTransactionSnapshot := {|
  ct_transaction_id := ct_transaction_id s; ct_owner_session_id := ct_owner_session_id s;
  ct_owner_agent := ct_owner_agent s; ct_root := ct_root s; ct_baseline := ct_baseline s; ct_current := ct_current s;
  ct_phase := if existsb ps_required (ct_validation_plan s) then DiffReviewed else Validated;
  ct_changed_paths := ct_changed_paths s;
  ct_changed_ranges := changed_ranges;
  ct_diff_artifact_ref := Some artifact_ref;
  ct_validation_plan := ct_validation_plan s; ct_validation_omissions := ct_validation_omissions s;
  ct_validation_impact := ct_validation_impact s; ct_validation_risk := ct_validation_risk s;
  ct_validation_receipts := ct_validation_receipts s; ct_accepted_workspace_version := ct_accepted_workspace_version s;
  ct_active_command := ct_active_command s; ct_failure := ct_failure s;
|}.

Definition record_diff_review (id : ChangeTransactionId) (artifact_ref : text) (changed_ranges : list ChangedRange)
    : Reg ChangeTransactionSnapshot :=
  snapshot ← find_transaction unknown_transaction id;
  ensure (match ct_phase snapshot with Applied | Repair => true | _ => false end)
    (lit "diff review requires an applied or repair transaction") ;;
  store id (reviewed artifact_ref changed_ranges snapshot).

Definition snapshot (id : ChangeTransactionId) : Reg (option ChangeTransactionSnapshot) :=
  g ← get_state;
  mret (cg_transactions g !! id).

Definition accepted (s : ChangeTransactionSnapshot) : ChangeTransactionSnapshot := {|
  ct_transaction_id := ct_transaction_id s; ct_owner_session_id := ct_owner_session_id s;
  ct_owner_agent := ct_owner_agent s; ct_root := ct_root s; ct_baseline := ct_baseline s; ct_current := ct_current s;
  ct_phase := Accepted;
  ct_changed_paths := ct_changed_paths s; ct_changed_ranges := ct_changed_ranges s;
  ct_diff_artifact_ref := ct_diff_artifact_ref s; ct_validation_plan := ct_validation_plan s;
  ct_validation_omissions := ct_validation_omissions s; ct_validation_impact := ct_validation_impact s;
  ct_validation_risk := ct_validation_risk s; ct_validation_receipts := ct_validation_receipts s;
  ct_accepted_workspace_version := Some (wv_digest (ct_current s));
  ct_active_command := ct_active_command s;
  ct_failure := None;
|}.

(** The two sections of [accept]: the lock is free between them. *)
Definition accept_check (id : ChangeTransactionId) (owner_session_id : text) (owner_agent : option AgentToolContext)
    (root : text) : Work unit :=
  verified ← verify_current id owner_session_id owner_agent root;
  ensure (bool_decide (ct_phase verified = Validated))
    (invalid_request (lit "change acceptance requires successful validation of the reviewed version")).

Definition accept_verified (id : ChangeTransactionId) : Work ChangeTransactionSnapshot :=
  snapshot ← find_transaction (invalid_request unknown_transaction) id;
  store id (accepted snapshot).

Definition accept (id : ChangeTransactionId) (owner_session_id : text) (owner_agent : option AgentToolContext) (root : text)
    : Work ChangeTransactionSnapshot :=
  accept_check id owner_session_id owner_agent root ;;
  accept_verified id.

Definition rolled_back (observed : WorkspaceVersion) (s : ChangeTransactionSnapshot) : ChangeTransactionSnapshot := {|
  ct_transaction_id := ct_transaction_id s; ct_owner_session_id := ct_owner_session_id s;
  ct_owner_agent := ct_owner_agent s; ct_root := ct_root s; ct_baseline := ct_baseline s;
  ct_current := observed;
  ct_phase := RolledBack;
  ct_changed_paths := wv_changed_paths (ct_baseline s);
  ct_changed_ranges := [];
  ct_diff_artifact_ref := None;
  ct_validation_plan := [];
  ct_validation_omissions := [];
  ct_validation_impact := NonCode;
  ct_validation_risk := Low;
  ct_validation_receipts := [];
  ct_accepted_workspace_version := None;
  ct_active_command := None;
  ct_failure := None;
|}.

(** The two sections of [rollback]: the workspace is verified, restored and found in
    the baseline; then that is recorded. *)
Definition rollback_check (id : ChangeTransactionId) (owner_session_id : text) (owner_agent : option AgentToolContext)
    (root : text) : Work WorkspaceVersion :=
  verified ← verify_current id owner_session_id owner_agent root;
  ensure (match ct_phase verified with Accepted | RolledBack => false | _ => true end)
    (invalid_request (lit "accepted or already rolled-back transactions cannot be rolled back")) ;;
  g ← get_state;
  restore ← ok_or (cg_restore_points g !! id) (invalid_request (lit "transaction restore point is unavailable"));
  i ← tick;
  match restore_baseline i restore verified with
  | Some e => throw (environment_failure (lit "transaction rollback failed: " ++ e))
  | None =>
      i ← tick;
      match capture i (ct_root verified) with
      | inl e => throw (environment_failure (lit "post-rollback workspace capture failed: " ++ e))
      | inr observed =>
          ensure (bool_decide (wv_digest observed = wv_digest (ct_baseline verified)))
            {| wf_class := UnknownFailure;
               wf_summary := lit "rollback did not reproduce baseline: expected " ++ wv_digest (ct_baseline verified)
                               ++ lit ", observed " ++ wv_digest observed;
               wf_retryable := false |} ;;
          mret observed
      end
  end.

Definition rollback_record (id : ChangeTransactionId) (observed : WorkspaceVersion) : Work ChangeTransactionSnapshot :=
  snapshot ← find_transaction (invalid_request unknown_transaction) id;
  store id (rolled_back observed snapshot).

Definition rollback (id : ChangeTransactionId) (owner_session_id : text) (owner_agent : option AgentToolContext) (root : text)
    : Work ChangeTransactionSnapshot :=
  observed ← rollback_check id owner_session_id owner_agent root;
  rollback_record id observed.

(** [snapshot.validation_receipts.push(receipt)] *)
Definition push_receipt (receipt : VersionedValidationReceipt) (s : ChangeTransactionSnapshot) : ChangeTransactionSnapshot := {|
  ct_transaction_id := ct_transaction_id s; ct_owner_session_id := ct_owner_session_id s;
  ct_owner_agent := ct_owner_agent s; ct_root := ct_root s; ct_baseline := ct_baseline s; ct_current := ct_current s;
  ct_phase := ct_phase s; ct_changed_paths := ct_changed_paths s; ct_changed_ranges := ct_changed_ranges s;
  ct_diff_artifact_ref := ct_diff_artifact_ref s; ct_validation_plan := ct_validation_plan s;
  ct_validation_omissions := ct_validation_omissions s; ct_validation_impact := ct_validation_impact s;
  ct_validation_risk := ct_validation_risk s;
  ct_validation_receipts := ct_validation_receipts s ++ [receipt];
  ct_accepted_workspace_version := ct_accepted_workspace_version s; ct_active_command := ct_active_command s;
  ct_failure := ct_failure s;
|}.

(** A step has a successful receipt for the current version. *)
Definition step_passed (s : ChangeTransactionSnapshot) (step : ValidationPlanStep) : bool :=
  existsb (λ receipt,
    bool_decide (vr_command receipt = ps_command step)
    && bool_decide (vr_validation_kind receipt = ps_validation_kind step)
    && bool_decide (vr_workspace_version receipt = wv_digest (ct_current s))
    && bool_decide (vr_terminal_status receipt = lit "succeeded")) (ct_validation_receipts s).

Definition all_required_passed (s : ChangeTransactionSnapshot) : bool :=
  forallb (step_passed s) (List.filter ps_required (ct_validation_plan s)).

Definition find_step (plan : list ValidationPlanStep) (kind command : text) : option ValidationPlanStep :=
  find (λ step, bool_decide (ps_command step = command) && bool_decide (ps_validation_kind step = kind)) plan.

Definition record_validation (id : ChangeTransactionId) (validation_kind command workspace_version : text)
    (observed_workspace : WorkspaceVersion) (terminal_status : text) (output_ref : option text) (command_session_id : text)
    : Reg ChangeTransactionSnapshot :=
  snapshot ← find_transaction unknown_transaction id;
  require_command_lease snapshot command_session_id ;;
  let snapshot := set_lease None snapshot in
  modify (set_transaction id snapshot) ;;
  ensure (bool_decide (ct_phase snapshot = DiffReviewed)) (lit "validation requires a reviewed diff") ;;
  if negb (bool_decide (wv_digest (ct_current snapshot) = workspace_version))
     || negb (bool_decide (wv_digest observed_workspace = workspace_version)) then
    store id (set_phase Conflicted (Some {|
      wf_class := ConcurrentModification;
      wf_summary := lit "validation workspace version mismatch: expected " ++ workspace_version ++ lit ", observed "
                      ++ wv_digest observed_workspace;
      wf_retryable := true |}) snapshot)
  else
    match find_step (ct_validation_plan snapshot) validation_kind command with
    | None =>
        store id (set_phase Repair
          (Some (invalid_request (lit "validation command is not part of the host-derived validation plan"))) snapshot)
    | Some step =>
        let snapshot := push_receipt {| vr_validation_kind := validation_kind; vr_command := command;
                                        vr_workspace_version := workspace_version; vr_terminal_status := terminal_status;
                                        vr_output_ref := output_ref |} snapshot in
        let succeeded := bool_decide (terminal_status = lit "succeeded") in
        if succeeded && all_required_passed snapshot then store id (set_phase Validated None snapshot)
        else if succeeded then store id (set_phase DiffReviewed None snapshot)
        else
          store id (set_phase Repair (Some {|
            wf_class := if bool_decide (terminal_status = lit "timed_out") then Timeout
                        else if bool_decide (terminal_status = lit "cancelled") || bool_decide (terminal_status = lit "truncated")
                        then Environment
                        else UnknownFailure;
            wf_summary := lit "validation step " ++ ps_id step ++ lit " ended with " ++ terminal_status;
            wf_retryable := true |}) snapshot)
    end.

End Registry.

(** ** The plan covers the change *)

Section Coverage.
Context `{RepositoryFiles}.

Lemma elem_of_btree_set x l : x ∈ btree_set l ↔ x ∈ l.
Proof. unfold btree_set. by rewrite elem_of_dedup, sort_by_perm. Qed.

Lemma has_step_spec plan kind command :
  has_step plan kind command = true ↔
  ∃ step, step ∈ plan ∧ ps_validation_kind step = kind ∧ ps_command step = command.
Proof.
  unfold has_step. rewrite existsb_exists. setoid_rewrite andb_true_iff. setoid_rewrite bool_decide_eq_true.
  setoid_rewrite list_elem_of_In. naive_solver.
Qed.

Lemma has_step_mono plan plan' kind command : plan ⊆ plan' → has_step plan kind command = true → has_step plan' kind command = true.
Proof. rewrite !has_step_spec. set_solver. Qed.

Lemma add_cargo_has prefix name plan kind suffix reason :
  has_step (add_cargo prefix name plan kind suffix reason) (lit kind) (prefix ++ lit " " ++ suffix) = true
  ∧ plan ⊆ add_cargo prefix name plan kind suffix reason.
Proof.
  unfold add_cargo. cbv zeta. destruct (has_step plan (lit kind) _) eqn:Hh; [done|]. split; [|set_solver].
  apply has_step_spec. eexists. split; [apply elem_of_app; right; by apply list_elem_of_singleton|done].
Qed.

(** The steps a changed crate needs. *)
Definition crate_checked (i : N) (root crate : text) (plan : list ValidationPlanStep) : Prop :=
  has_step plan (lit "check") (cargo_prefix i root ++ lit " check -p " ++ package i root crate) = true
  ∧ has_step plan (lit "test") (cargo_prefix i root ++ lit " test -p " ++ package i root crate ++ lit " --lib") = true.

Lemma crate_checked_mono i root crate plan plan' :
  plan ⊆ plan' → crate_checked i root crate plan → crate_checked i root crate plan'.
Proof. intros Hsub [H1 H2]. split; by eapply has_step_mono. Qed.

Lemma add_crate_checked i root packages paths acc crate :
  let acc' := add_crate i root (cargo_prefix i root) packages paths acc crate in
  crate_checked i root crate acc'.1 ∧ acc.1 ⊆ acc'.1.
Proof.
  destruct acc as [plan dependents]. unfold add_crate. cbv zeta. cbn [fst].
  set (name := package i root crate). set (prefix := cargo_prefix i root).
  destruct (add_cargo_has prefix name plan "check" (lit "check -p " ++ name)
    (lit "changed Rust package `" ++ name ++ lit "` requires a target check")) as [H1 Hs1].
  set (plan1 := add_cargo prefix name plan "check" _ _) in *.
  destruct (add_cargo_has prefix name plan1 "test" (lit "test -p " ++ name ++ lit " --lib")
    (lit "changed Rust package `" ++ name ++ lit "` requires focused unit tests")) as [H2 Hs2].
  set (plan2 := add_cargo prefix name plan1 "test" _ _) in *.
  assert (crate_checked i root crate plan2) as Hc.
  { split; [by eapply has_step_mono|done]. }
  destruct (_ || _); [|split; [done|set_solver]]. split; [|set_solver].
  eapply crate_checked_mono; [|exact Hc]. set_solver.
Qed.

Lemma add_crates_fold i root packages paths crates acc crate :
  crate ∈ crates → crate_checked i root crate (foldl (add_crate i root (cargo_prefix i root) packages paths) acc crates).1.
Proof.
  assert (Hmono : ∀ crates acc, acc.1 ⊆ (foldl (add_crate i root (cargo_prefix i root) packages paths) acc crates).1).
  { clear. intros crates. induction crates as [|c crates IH]; intros acc; cbn; [done|].
    pose proof (add_crate_checked i root packages paths acc c) as [_ Hs]. etrans; [exact Hs|apply IH]. }
  revert acc. induction crates as [|c crates IH]; intros acc Hin; [by apply elem_of_nil in Hin|]. cbn.
  apply elem_of_cons in Hin as [->|Hin]; [|by apply IH].
  pose proof (add_crate_checked i root packages paths acc c) as [Hc _]. eapply crate_checked_mono; [apply Hmono|exact Hc].
Qed.

Definition plan_of (i : N) (context : RepositoryContext) (changed_paths : list text) : list ValidationPlanStep :=
  vp_steps (derive_validation_plan i context changed_paths).

(** Every changed crate of a cargo repository is checked and tested. *)
Lemma plan_covers i context changed_paths path crate :
  is_cargo context = true → path ∈ changed_paths → crate_dir path = Some crate →
  crate_checked i (rc_root context) crate (plan_of i context changed_paths).
Proof.
  intros Hcargo Hin Hcrate. unfold plan_of, derive_validation_plan, add_crates. cbv zeta. rewrite Hcargo.
  set (plan := add_deployment _ _ _). set (crates := btree_set (omap crate_dir changed_paths)).
  assert (crate ∈ crates) as Hc.
  { apply elem_of_btree_set, list_elem_of_omap. by exists path. }
  pose proof (add_crates_fold i (rc_root context) (cargo_workspace_packages i (rc_root context)) changed_paths crates
    (plan, []) crate Hc) as Hchecked.
  destruct (foldl _ (plan, []) crates) as [plan' dependents]. cbn [fst] in Hchecked. cbn [vp_steps].
  eapply crate_checked_mono; [|exact Hchecked]. intros step Hstep. rewrite sort_by_perm. set_solver.
Qed.

(** Every step of a derived plan is required. *)
Lemma add_rule_required deploys plan spec :
  Forall (λ step, ps_required step = true) plan → Forall (λ step, ps_required step = true) (add_rule deploys plan spec).
Proof. intros Hp. unfold add_rule. repeat case_match; try done. apply Forall_app. split; [done|by repeat constructor]. Qed.

Lemma add_deployment_required deploys context plan :
  Forall (λ step, ps_required step = true) plan →
  Forall (λ step, ps_required step = true) (add_deployment deploys context plan).
Proof. intros Hp. unfold add_deployment. repeat case_match; try done. apply Forall_app. split; [done|by repeat constructor]. Qed.

Lemma add_cargo_required prefix name plan kind suffix reason :
  Forall (λ step, ps_required step = true) plan →
  Forall (λ step, ps_required step = true) (add_cargo prefix name plan kind suffix reason).
Proof. intros Hp. unfold add_cargo. cbv zeta. case_match; [done|]. apply Forall_app. split; [done|by repeat constructor]. Qed.

Lemma add_crate_required i root prefix packages paths acc crate :
  Forall (λ step, ps_required step = true) acc.1 →
  Forall (λ step, ps_required step = true) (add_crate i root prefix packages paths acc crate).1.
Proof.
  destruct acc as [plan dependents]. intros Hp. unfold add_crate. cbv zeta. cbn [fst] in *.
  case_match; [apply Forall_app; split; [|by repeat constructor]|]; by repeat apply add_cargo_required.
Qed.

Lemma foldl_keeps {A B} (f : B → A → B) (Q : B → Prop) l b :
  (∀ b a, Q b → Q (f b a)) → Q b → Q (foldl f b l).
Proof. intros Hf. revert b. induction l; cbn; auto. Qed.

Lemma plan_required i context changed_paths : Forall (λ step, ps_required step = true) (plan_of i context changed_paths).
Proof.
  unfold plan_of, derive_validation_plan, add_crates. cbv zeta. set (plan := add_deployment _ _ _).
  assert (Forall (λ step, ps_required step = true) plan) as Hp.
  { apply add_deployment_required. apply foldl_keeps; [|constructor]. intros. by apply add_rule_required. }
  destruct (is_cargo context); cbn [vp_steps]; [|by rewrite sort_by_perm].
  destruct (foldl (add_crate _ _ _ _ _) _ _) as [plan' dependents] eqn:Hfold. cbn [vp_steps]. rewrite sort_by_perm. apply Forall_app. split.
  - apply (f_equal fst) in Hfold. cbn in Hfold. subst plan'.
    apply (foldl_keeps _ (λ acc, Forall (λ step, ps_required step = true) acc.1)); [|done].
    intros. by apply add_crate_required.
  - rewrite Forall_fmap. apply Forall_true. done.
Qed.

End Coverage.

(** ** Accepted changes *)

Section Safety.
Context {AgentToolContext : Type} `{!EqDecision AgentToolContext} `{Env} {HR : RepositoryFiles}
  {HW : Workspace (AgentToolContext := AgentToolContext)}.

(** A change was applied and not undone. *)
Definition judged (phase : ChangeTransactionPhase) : Prop :=
  match phase with Applied | DiffReviewed | Validated | Repair | Accepted => True | _ => False end.

Definition is_reviewed (phase : ChangeTransactionPhase) : Prop :=
  match phase with DiffReviewed | Validated | Accepted => True | _ => False end.

Definition is_validated (phase : ChangeTransactionPhase) : Prop :=
  match phase with Validated | Accepted => True | _ => False end.

Record sound_transaction (context : option RepositoryContext) (s : ChangeTransactionSnapshot (AgentToolContext := AgentToolContext)) : Prop := {
  st_derived : judged (ct_phase s) → ∀ c, context = Some c →
    ∃ i, ct_validation_plan s = plan_of i c (wv_changed_paths (ct_current s));
  st_reviewed : is_reviewed (ct_phase s) → is_Some (ct_diff_artifact_ref s);
  st_validated : is_validated (ct_phase s) → all_required_passed s = true;
  st_accepted : ct_phase s = Accepted → ct_accepted_workspace_version s = Some (wv_digest (ct_current s));
  st_rolled_back : ct_phase s = RolledBack → wv_digest (ct_current s) = wv_digest (ct_baseline s);
}.

Definition sound (g : ChangeTransactionRegistry) : Prop :=
  ∀ id s, cg_transactions g !! id = Some s → sound_transaction (cg_repository_contexts g !! id) s.

Lemma sound_set id s g :
  sound g → sound_transaction (cg_repository_contexts g !! id) s → sound (set_transaction id s g).
Proof. intros Hg Hs id' s'. cbn. rewrite lookup_insert_Some. intros [[<- <-]|[_ Hl]]; [done|by apply Hg]. Qed.

Lemma sound_lease context lease s : sound_transaction context s → sound_transaction context (set_lease lease s).
Proof. by intros []. Qed.

(** A failed transaction that has not been judged, or is in repair. *)
Lemma sound_failed context phase failure s :
  sound_transaction context s → phase = Conflicted ∨ phase = Repair ∧ judged (ct_phase s) →
  sound_transaction context (set_phase phase failure s).
Proof. intros [Hd _ _ _ _] [->|[-> Hj]]; split; cbn; try done. intros _. by apply Hd. Qed.

Lemma sound_fresh context id session agent baseline : sound_transaction context (fresh_snapshot id session agent baseline).
Proof. by split. Qed.

Lemma sound_rolled_back context observed s :
  wv_digest observed = wv_digest (ct_baseline s) → sound_transaction context (rolled_back observed s).
Proof. intros Hd. by split. Qed.

Lemma sound_accepted context s :
  sound_transaction context s → ct_phase s = Validated → sound_transaction context (accepted s).
Proof.
  intros [Hd Hr Hv _ _] Hp. rewrite Hp in *. split; cbn; [by intros _; apply Hd|by intros _; apply Hr| |done|done].
  intros _. by apply Hv.
Qed.

Lemma no_required_passed s : existsb ps_required (ct_validation_plan s) = false →
  all_required_passed (AgentToolContext := AgentToolContext) s = true.
Proof.
  unfold all_required_passed. induction (ct_validation_plan s) as [|step plan IH]; cbn; [done|].
  intros [-> Hp]%orb_false_iff. by apply IH.
Qed.

Lemma sound_reviewed context artifact ranges s :
  sound_transaction context s → judged (ct_phase s) → sound_transaction context (reviewed artifact ranges s).
Proof.
  intros [Hd _ _ _ _] Hj. split; cbn.
  - intros _. by apply Hd.
  - done.
  - destruct (existsb ps_required (ct_validation_plan s)) eqn:Hreq; [done|]. intros _. by apply (no_required_passed s).
  - by destruct (existsb _ _).
  - by destruct (existsb _ _).
Qed.

Lemma sound_applied i context current s :
  sound_transaction context (applied current
    match context with Some c => derive_validation_plan i c (wv_changed_paths current) | None => default_projection end s).
Proof. split; cbn; try done. intros _ c ->. by exists i. Qed.

(** *** Every method keeps the registry sound *)

Lemma verify_current_spec id session agent root g n :
  wp (verify_current id session agent root) (λ r g' _, match r with
    | Ok s => g' = g ∧ cg_transactions g !! id = Some s ∧ ct_owner_session_id s = session ∧ ct_owner_agent s = agent
        ∧ ct_active_command s = None
        ∧ ∃ i observed, canonicalize i root = inr (ct_root s) ∧ capture (i + 1) (ct_root s) = inr observed
            ∧ wv_digest observed = wv_digest (ct_current s)
    | Err _ => g' = g ∨ ∃ s failure, cg_transactions g !! id = Some s
                         ∧ g' = set_transaction id (set_phase Conflicted (Some failure) s) g
    | Panic => False
    end) g n.
Proof.
  unfold verify_current, find_transaction. wp_steps; try by left. checks.
  destruct (ct_active_command a) eqn:Hactive; wp_steps; [by left|].
  destruct (canonicalize _ root) as [e|root'] eqn:Hcanon; wp_steps; [by left| |by left]. checks. subst root'.
  destruct (capture _ (ct_root a)) as [e|observed] eqn:Hcapture; wp_steps; [by left|].
  case_bool_decide; wp_steps.
  - split_and!; try done. eexists _, observed. done.
  - unfold mark_conflicted. wp_steps. right. rewrite H0. by eexists _, _.
Qed.

(** What every method keeps, whatever it answers. *)
Definition keeps {E A} (m : M ChangeTransactionRegistry E A) : Prop :=
  ∀ g n, sound g → wp m (λ r g' _, r ≠ Panic ∧ sound g') g n.

Lemma verify_current_keeps id session agent root : keeps (verify_current id session agent root).
Proof.
  intros g n Hg. eapply wp_mono; [apply verify_current_spec|]. cbn. intros [s|e|] g' _; [by intros (-> & _)| |done].
  intros [->|(s & failure & Hs & ->)]; (split; [done|]); [done|]. apply sound_set; [done|]. apply sound_failed; [by apply Hg|by left].
Qed.

(** Methods that start with the verification of the workspace. *)
Lemma after_verify {A} id session agent root (k : ChangeTransactionSnapshot → M ChangeTransactionRegistry WorkFailure A) g n
    (Q : Result WorkFailure A → ChangeTransactionRegistry → N → Prop) :
  (∀ s i observed n', cg_transactions g !! id = Some s → ct_owner_session_id s = session → ct_owner_agent s = agent →
    ct_active_command s = None → canonicalize i root = inr (ct_root s) → capture (i + 1) (ct_root s) = inr observed →
    wv_digest observed = wv_digest (ct_current s) → wp (k s) Q g n') →
  (∀ e g' n', g' = g ∨ (∃ s failure, cg_transactions g !! id = Some s
      ∧ g' = set_transaction id (set_phase Conflicted (Some failure) s) g) → Q (Err e) g' n') →
  wp (verify_current id session agent root ≫= k) Q g n.
Proof.
  intros Hok Herr. apply wp_bind. eapply wp_mono; [apply verify_current_spec|]. cbn.
  intros [s|e|] g' n'; [|by apply Herr|done].
  intros (-> & Hs & Hsession & Hagent & Hactive & i & observed & Hc & Hcap & Hd). by eapply Hok.
Qed.

Lemma sound_conflicted id g g' :
  sound g → g' = g ∨ (∃ s failure, cg_transactions g !! id = Some s
    ∧ g' = set_transaction id (set_phase Conflicted (Some failure) s) g) → sound g'.
Proof.
  intros Hg [->|(s & failure & Hs & ->)]; [done|]. apply sound_set; [done|]. apply sound_failed; [by apply Hg|by left].
Qed.

Lemma begin_for_agent_keeps session agent root : keeps (begin_for_agent session agent root).
Proof.
  intros g n Hg. unfold begin_for_agent. wp_steps. destruct (capture n root) as [e|baseline]; wp_steps; [done|].
  destruct (capture_restore _ _ _) as [e|restore]; wp_steps; [done|]. split; [done|]. intros id s Hs. cbn in *.
  apply lookup_insert_Some in Hs as [[<- <-]|[_ Hs]]; [apply sound_fresh|by apply Hg].
Qed.

Lemma begin_with_context_keeps session agent context : keeps (begin_with_context session agent context).
Proof.
  intros g n Hg. unfold begin_with_context, begin_for_agent. wp_steps.
  destruct (capture n _) as [e|baseline]; wp_steps; [done|].
  destruct (capture_restore _ _ _) as [e|restore]; wp_steps; [done|]. split; [done|]. intros id s Hs. cbn in *.
  apply lookup_insert_Some in Hs as [[<- <-]|[Hne Hs]]; [apply sound_fresh|]. rewrite lookup_insert_ne by done. by apply Hg.
Qed.

Lemma reserve_command_keeps id session agent root command purpose : keeps (reserve_command id session agent root command purpose).
Proof.
  intros g n Hg. unfold reserve_command. apply after_verify; [|intros; split; [done|by eapply sound_conflicted]].
  intros s i observed n' Hs _ _ _ _ _ _. unfold reserve_verified, find_transaction, store. wp_steps; try done.
  split; [done|]. apply sound_set; [done|]. apply sound_lease. by apply Hg.
Qed.

Lemma require_lease_pure s command g n (Q : Result text unit → ChangeTransactionRegistry → N → Prop) :
  (∀ lease, ct_active_command s = Some lease → al_session_id lease = command → Q (Ok tt) g n) → (∀ e, Q (Err e) g n) →
  wp (require_command_lease s command) Q g n.
Proof.
  intros Hok Herr. unfold require_command_lease. destruct (ct_active_command s) as [lease|] eqn:Hl; wp_steps; [|done..].
  checks. by eapply Hok.
Qed.

Lemma release_command_keeps id command : keeps (release_command id command).
Proof.
  intros g n Hg. unfold release_command, find_transaction, store. wp_steps; [|done]. apply require_lease_pure; [|done].
  intros lease _ _. wp_steps. split; [done|]. apply sound_set; [done|]. apply sound_lease. by apply Hg.
Qed.

Lemma compared_pure id current g n (Q : Result text WorkspaceVersion → ChangeTransactionRegistry → N → Prop) :
  (∀ r n', r ≠ Panic → Q r g n') → wp (compared id current) Q g n.
Proof.
  intros HQ. unfold compared. destruct (wv_basis current); wp_steps; [by apply HQ|].
  destruct (cg_restore_points g !! id); wp_steps; [|by apply HQ]. destruct (restore_changed_paths _ _ _); wp_steps; by apply HQ.
Qed.

(** A recorded change is in phase [Applied]. *)
Lemma record_apply_spec id current g n :
  sound g → wp (record_apply id current) (λ r g' _, r ≠ Panic ∧ sound g' ∧ match r with
    | Ok s => cg_transactions g' !! id = Some s ∧ ct_phase s = Applied
    | _ => True
    end) g n.
Proof.
  intros Hg. unfold record_apply, find_transaction, store. apply wp_bind, compared_pure. intros [v|e|] n' Hr; [|done..].
  wp_steps; [|done]. split; [done|]. split; [|split; [apply lookup_insert_eq|done]]. apply sound_set; [done|]. apply sound_applied.
Qed.

Lemma record_shell_terminal_keeps id command current status : keeps (record_shell_terminal id command current status).
Proof.
  intros g n Hg. unfold record_shell_terminal, check_lease, record_shell_failure, find_transaction. wp_steps; [|done].
  apply require_lease_pure; [|done]. intros lease _ _. apply wp_bind. eapply wp_mono; [by apply record_apply_spec|]. cbn.
  intros [s|e|] g' n' (Hr & Hg' & Hs); [|done..]. case_bool_decide; unfold store; wp_steps; [done| |done].
  split; [done|]. destruct Hs as [Hs Hp]. apply sound_set; [done|]. apply sound_failed; [by apply Hg'|].
  right. split; [done|]. assert (a0 = s) as -> by congruence. by rewrite Hp.
Qed.

Lemma record_diff_review_keeps id artifact ranges : keeps (record_diff_review id artifact ranges).
Proof.
  intros g n Hg. unfold record_diff_review, find_transaction, store. wp_steps; [|done..]. split; [done|].
  apply sound_set; [done|]. apply sound_reviewed; [by apply Hg|]. by destruct (ct_phase a).
Qed.

(** What a check has established, on the transaction as it is stored. *)
Definition verified_for (session : text) (agent : option AgentToolContext) (root : text)
    (s : ChangeTransactionSnapshot (AgentToolContext := AgentToolContext)) : Prop :=
  ct_owner_session_id s = session ∧ ct_owner_agent s = agent ∧ ct_active_command s = None
  ∧ ∃ i observed, canonicalize i root = inr (ct_root s) ∧ capture (i + 1) (ct_root s) = inr observed
      ∧ wv_digest observed = wv_digest (ct_current s).

Definition back_in_baseline (observed : WorkspaceVersion) (s : ChangeTransactionSnapshot (AgentToolContext := AgentToolContext)) : Prop :=
  ct_phase s ≠ Accepted ∧ ct_phase s ≠ RolledBack ∧ wv_digest observed = wv_digest (ct_baseline s)
  ∧ ∃ i, capture i (ct_root s) = inr observed.

(** A check changes nothing, or marks the transaction as conflicted and fails. *)
Definition checks_only {A} (id : ChangeTransactionId) (P : A → ChangeTransactionSnapshot → Prop)
    (m : M ChangeTransactionRegistry WorkFailure A) : Prop := ∀ g n,
  wp m (λ r g' _, match r with
    | Ok a => g' = g ∧ ∃ s, cg_transactions g !! id = Some s ∧ P a s
    | Err _ => g' = g ∨ ∃ s failure, cg_transactions g !! id = Some s
                         ∧ g' = set_transaction id (set_phase Conflicted (Some failure) s) g
    | Panic => False
    end) g n.

Lemma accept_check_spec id session agent root :
  checks_only id (λ _ s, verified_for session agent root s ∧ ct_phase s = Validated) (accept_check id session agent root).
Proof.
  intros g n. unfold accept_check. apply after_verify; [|done]. intros s i observed n' Hs ? ? ? ? ? ?.
  wp_steps; [|by left]. checks. split; [done|]. exists s. split; [done|]. split; [|done].
  unfold verified_for. split_and!; try done. by exists i, observed.
Qed.

Lemma rollback_checked id session agent root :
  checks_only id (λ observed s, verified_for session agent root s ∧ back_in_baseline observed s)
    (rollback_check id session agent root).
Proof.
  intros g n. unfold rollback_check. apply after_verify; [|done]. intros s i observed n' Hs ? ? ? ? ? ?.
  wp_steps; [|by left..]. destruct (restore_baseline _ _ _); wp_steps; [by left|].
  destruct (capture (n' + 1) (ct_root s)) as [e|observed'] eqn:Hcap; wp_steps; [by left| |by left..]. checks.
  split; [done|]. exists s. split; [done|]. split; [unfold verified_for; split_and!; try done; by exists i, observed|].
  unfold back_in_baseline.
  split_and!; [by destruct (ct_phase s)|by destruct (ct_phase s)|done|by eexists].
Qed.

(** The write that follows. *)
Lemma accept_verified_run id s g n :
  cg_transactions g !! id = Some s →
  accept_verified id g n = (Ok (accepted s), set_transaction id (accepted s) g, n).
Proof. intros Hs. unfold accept_verified, find_transaction, store, mbind, M_bind, get_state, ok_or. by rewrite Hs. Qed.

Lemma rollback_record_run id observed s g n :
  cg_transactions g !! id = Some s →
  rollback_record id observed g n = (Ok (rolled_back observed s), set_transaction id (rolled_back observed s) g, n).
Proof. intros Hs. unfold rollback_record, find_transaction, store, mbind, M_bind, get_state, ok_or. by rewrite Hs. Qed.

Lemma accept_keeps id session agent root : keeps (accept id session agent root).
Proof.
  intros g n Hg. unfold accept. apply wp_bind. eapply wp_mono; [apply accept_check_spec|]. cbn.
  intros [[]|e|] g' n'; [|intros Hc; split; [done|by eapply sound_conflicted]|done].
  intros (-> & s & Hs & _ & Hp). unfold wp. rewrite (accept_verified_run _ s) by done. split; [done|].
  apply sound_set; [done|]. apply sound_accepted; [by apply Hg|done].
Qed.

Lemma rollback_keeps id session agent root : keeps (rollback id session agent root).
Proof.
  intros g n Hg. unfold rollback. apply wp_bind. eapply wp_mono; [apply rollback_checked|]. cbn.
  intros [observed|e|] g' n'; [|intros Hc; split; [done|by eapply sound_conflicted]|done].
  intros (-> & s & Hs & _ & Hb). unfold wp. rewrite (rollback_record_run _ _ s) by done. split; [done|].
  apply sound_set; [done|]. apply sound_rolled_back, Hb.
Qed.

Lemma sound_receipt context receipt phase failure s :
  sound_transaction context s → ct_phase s = DiffReviewed →
  phase = DiffReviewed ∨ phase = Repair ∨ phase = Validated ∧ all_required_passed (push_receipt receipt s) = true →
  sound_transaction context (set_phase phase failure (push_receipt receipt s)).
Proof.
  intros [Hd Hr _ _ _] Hp Hphase. rewrite Hp in *.
  destruct Hphase as [->|[->|[-> Hall]]]; split; cbn; try done; intros _; first [by apply Hd|by apply Hr].
Qed.

Lemma record_validation_keeps id kind command version observed status output session :
  keeps (record_validation id kind command version observed status output session).
Proof.
  intros g n Hg. unfold record_validation, find_transaction. wp_steps; [|done]. apply require_lease_pure; [|done].
  intros lease _ _. cbv zeta. apply wp_bind, wp_modify.
  assert (sound_transaction (cg_repository_contexts g !! id) (set_lease None a)) as Hs by (apply sound_lease; by apply Hg).
  assert (Hset : ∀ s, sound_transaction (cg_repository_contexts g !! id) s →
    sound (set_transaction id s (set_transaction id (set_lease None a) g))).
  { intros s Hss. apply sound_set; [by apply sound_set|done]. }
  set (s := set_lease None a) in *. unfold store. wp_steps; [|split; [done|by apply sound_set]]. checks.
  destruct (_ || _); wp_steps; [split; [done|]; apply Hset, sound_failed; [done|by left]|].
  destruct (find_step _ _ _) as [step|]; wp_steps.
  - case_bool_decide; cbn [andb]; [destruct (all_required_passed _) eqn:Hall|]; wp_steps;
      (split; [done|]); apply Hset, sound_receipt; auto.
  - split; [done|]. apply Hset, sound_failed; [done|]. right. split; [done|]. by rewrite H1.
Qed.

(** *** Runs *)

Inductive Call :=
| Begin (session root : text)
| BeginWithContext (session : text) (agent : option AgentToolContext) (context : RepositoryContext)
| Verify (id : ChangeTransactionId) (session : text) (agent : option AgentToolContext) (root : text)
| Reserve (id : ChangeTransactionId) (session : text) (agent : option AgentToolContext) (root command purpose : text)
| Release (id : ChangeTransactionId) (command : text)
| Apply (id : ChangeTransactionId) (current : WorkspaceVersion)
| ShellTerminal (id : ChangeTransactionId) (command : text) (current : WorkspaceVersion) (status : text)
| DiffReview (id : ChangeTransactionId) (artifact : text) (ranges : list ChangedRange)
| Accept (id : ChangeTransactionId) (session : text) (agent : option AgentToolContext) (root : text)
| Rollback (id : ChangeTransactionId) (session : text) (agent : option AgentToolContext) (root : text)
| Validation (id : ChangeTransactionId) (kind command version : text) (observed : WorkspaceVersion) (status : text)
    (output : option text) (session : text).

(** The registry after a method, whatever it answers. *)
Definition after {E A} (m : M ChangeTransactionRegistry E A) (gn : ChangeTransactionRegistry * N)
    : ChangeTransactionRegistry * N :=
  let '(_, g, n) := m gn.1 gn.2 in (g, n).

Definition step (gn : ChangeTransactionRegistry * N) (c : Call) : ChangeTransactionRegistry * N :=
  match c with
  | Begin session root => after (begin session root) gn
  | BeginWithContext session agent context => after (begin_with_context session agent context) gn
  | Verify id session agent root => after (verify_current id session agent root) gn
  | Reserve id session agent root command purpose => after (reserve_command id session agent root command purpose) gn
  | Release id command => after (release_command id command) gn
  | Apply id current => after (record_apply id current) gn
  | ShellTerminal id command current status => after (record_shell_terminal id command current status) gn
  | DiffReview id artifact ranges => after (record_diff_review id artifact ranges) gn
  | Accept id session agent root => after (accept id session agent root) gn
  | Rollback id session agent root => after (rollback id session agent root) gn
  | Validation id kind command version observed status output session =>
      after (record_validation id kind command version observed status output session) gn
  end.

Definition run (calls : list Call) (n : N) : ChangeTransactionRegistry * N := foldl step (no_transactions, n) calls.

Lemma after_sound {E A} (m : M ChangeTransactionRegistry E A) gn : keeps m → sound gn.1 → sound (after m gn).1.
Proof.
  intros Hm Hg. specialize (Hm gn.1 gn.2 Hg). unfold wp in Hm. unfold after. destruct (m gn.1 gn.2) as [[r g'] n'].
  by destruct Hm.
Qed.

Lemma step_sound gn c : sound gn.1 → sound (step gn c).1.
Proof.
  intros Hg. destruct c; cbn [step]; (apply after_sound; [|done]);
    eauto using begin_with_context_keeps, verify_current_keeps, reserve_command_keeps, release_command_keeps,
      record_shell_terminal_keeps, record_diff_review_keeps, accept_keeps, rollback_keeps, record_validation_keeps.
  - apply begin_for_agent_keeps.
  - intros g n Hs. eapply wp_mono; [by apply record_apply_spec|]. by cbn; intros r g' n' (? & ? & _).
Qed.

Lemma run_sound calls n : sound (run calls n).1.
Proof. unfold run. apply (foldl_keeps _ (λ gn, sound gn.1)); [apply step_sound|]. by intros id s. Qed.

(** A command ran with success on the current version. *)
Definition ran (s : ChangeTransactionSnapshot (AgentToolContext := AgentToolContext)) (kind command : text) : Prop :=
  ∃ receipt, receipt ∈ ct_validation_receipts s ∧ vr_validation_kind receipt = kind ∧ vr_command receipt = command
    ∧ vr_workspace_version receipt = wv_digest (ct_current s) ∧ vr_terminal_status receipt = lit "succeeded".

Lemma step_passed_spec s p : step_passed s p = true ↔ ran s (ps_validation_kind p) (ps_command p).
Proof.
  unfold step_passed, ran. rewrite existsb_exists. setoid_rewrite andb_true_iff. setoid_rewrite andb_true_iff.
  setoid_rewrite andb_true_iff. setoid_rewrite bool_decide_eq_true. setoid_rewrite list_elem_of_In. naive_solver.
Qed.

Lemma required_ran s p : all_required_passed s = true → p ∈ ct_validation_plan s → ps_required p = true →
  ran s (ps_validation_kind p) (ps_command p).
Proof.
  unfold all_required_passed. rewrite forallb_forall. intros Hall Hin Hreq. apply step_passed_spec, Hall, filter_In.
  by rewrite <-list_elem_of_In.
Qed.

(** A step of a derived plan was required, so it ran. *)
Lemma has_step_ran s i context paths kind command :
  all_required_passed s = true → ct_validation_plan s = plan_of i context paths →
  has_step (plan_of i context paths) kind command = true → ran s kind command.
Proof.
  intros Hall Hplan (p & Hp & <- & <-)%has_step_spec. apply required_ran; [done|by rewrite Hplan|].
  pose proof (plan_required i context paths) as Hreq. rewrite Forall_forall in Hreq. by apply Hreq.
Qed.

(** *** Sections

    [accept], [rollback], [reserve_command] and [record_shell_terminal] let go of the
    lock between what they check and what they write.  A call that is between two
    sections is pending.  Sections of calls on different transactions come in any
    order; a section that changes a transaction does not come between those of a
    pending call on it. *)

Inductive Pending :=
| Accepting (session : text) (agent : option AgentToolContext) (root : text)
| RollingBack (session : text) (agent : option AgentToolContext) (root : text) (observed : WorkspaceVersion)
| Reserving (verified : ChangeTransactionSnapshot (AgentToolContext := AgentToolContext)) (command purpose : text)
| CommandEnded (current : WorkspaceVersion) (status : text)
| CommandFailed (status : text).

Record Desk := {
  dk_registry : ChangeTransactionRegistry;
  dk_pending : gmap ChangeTransactionId Pending;
}.

Definition desk (g : ChangeTransactionRegistry) (p : gmap ChangeTransactionId Pending) : Desk :=
  {| dk_registry := g; dk_pending := p |}.

(** [g'] leaves the transactions with a pending call as they are in [g]. *)
Definition apart (p : gmap ChangeTransactionId Pending) (g g' : ChangeTransactionRegistry) : Prop :=
  ∀ id, is_Some (p !! id) → cg_transactions g' !! id = cg_transactions g !! id.

(** What is pending after the change of a command that ended is recorded. *)
Definition after_apply {A} (id : ChangeTransactionId) (status : text) (r : Result text A) (p : gmap ChangeTransactionId Pending)
    : gmap ChangeTransactionId Pending :=
  match r with
  | Ok _ => if bool_decide (status = lit "succeeded") then delete id p else <[id := CommandFailed status]> p
  | _ => delete id p
  end.

Inductive section : Desk * N → Desk * N → Prop :=
| section_call c g p n g' n' : step (g, n) c = (g', n') → apart p g g' → section (desk g p, n) (desk g' p, n')
| section_accept_check id session agent root g p n g' n' :
    p !! id = None → accept_check id session agent root g n = (Ok tt, g', n') →
    section (desk g p, n) (desk g' (<[id := Accepting session agent root]> p), n')
| section_accept_write id session agent root g p n r g' n' :
    p !! id = Some (Accepting session agent root) → accept_verified id g n = (r, g', n') →
    section (desk g p, n) (desk g' (delete id p), n')
| section_rollback_check id session agent root observed g p n g' n' :
    p !! id = None → rollback_check id session agent root g n = (Ok observed, g', n') →
    section (desk g p, n) (desk g' (<[id := RollingBack session agent root observed]> p), n')
| section_rollback_write id session agent root observed g p n r g' n' :
    p !! id = Some (RollingBack session agent root observed) → rollback_record id observed g n = (r, g', n') →
    section (desk g p, n) (desk g' (delete id p), n')
| section_reserve_check id session agent root verified command purpose g p n g' n' :
    p !! id = None → verify_current id session agent root g n = (Ok verified, g', n') →
    section (desk g p, n) (desk g' (<[id := Reserving verified command purpose]> p), n')
| section_reserve_write id verified command purpose g p n r g' n' :
    p !! id = Some (Reserving verified command purpose) → reserve_verified id verified command purpose g n = (r, g', n') →
    section (desk g p, n) (desk g' (delete id p), n')
| section_lease id command current status g p n g' n' :
    p !! id = None → check_lease id command g n = (Ok tt, g', n') →
    section (desk g p, n) (desk g' (<[id := CommandEnded current status]> p), n')
| section_apply id current status g p n r g' n' :
    p !! id = Some (CommandEnded current status) → record_apply id current g n = (r, g', n') →
    section (desk g p, n) (desk g' (after_apply id status r p), n')
| section_failure id status g p n r g' n' :
    p !! id = Some (CommandFailed status) → record_shell_failure id status g n = (r, g', n') →
    section (desk g p, n) (desk g' (delete id p), n')
| section_dropped id g p n : section (desk g p, n) (desk g (delete id p), n).

Definition empty_desk (n : N) : Desk * N := (desk no_transactions ∅, n).

(** What is known of a pending call. *)
Definition pending_ok (p : Pending) (s : ChangeTransactionSnapshot (AgentToolContext := AgentToolContext)) : Prop :=
  match p with
  | Accepting session agent root => verified_for session agent root s ∧ ct_phase s = Validated
  | RollingBack session agent root observed => verified_for session agent root s ∧ back_in_baseline observed s
  | Reserving _ _ _ | CommandEnded _ _ => True
  | CommandFailed _ => ct_phase s = Applied
  end.

Definition desk_ok (k : Desk) : Prop :=
  sound (dk_registry k)
  ∧ ∀ id p, dk_pending k !! id = Some p → ∃ s, cg_transactions (dk_registry k) !! id = Some s ∧ pending_ok p s.

(** The transaction [id] may be another one, the others are as they were. *)
Definition only (id : ChangeTransactionId) (g g' : ChangeTransactionRegistry) : Prop :=
  ∀ id', id' ≠ id → cg_transactions g' !! id' = cg_transactions g !! id'.

Lemma only_set id s g : only id g (set_transaction id s g).
Proof. intros id' Hne. cbn. by rewrite lookup_insert_ne. Qed.

(** The call on [id] has come to its end, or to its next section. *)
Lemma desk_next id g g' p (next : option Pending) :
  desk_ok (desk g p) → sound g' → only id g g' →
  (∀ q, next = Some q → ∃ s, cg_transactions g' !! id = Some s ∧ pending_ok q s) →
  desk_ok (desk g' (partial_alter (λ _, next) id p)).
Proof.
  intros [_ Hp] Hg Ho Hnext. split; [done|]. intros id' q. cbn. destruct (decide (id' = id)) as [->|Hne].
  - rewrite lookup_partial_alter_eq. apply Hnext.
  - rewrite lookup_partial_alter_ne by done. rewrite Ho by done. apply Hp.
Qed.

Lemma desk_done id g g' p : desk_ok (desk g p) → sound g' → only id g g' → desk_ok (desk g' (delete id p)).
Proof. intros Hk Hg Ho. by apply (desk_next id g g' p None). Qed.

Lemma desk_waits id g p q s :
  desk_ok (desk g p) → cg_transactions g !! id = Some s → pending_ok q s → desk_ok (desk g (<[id := q]> p)).
Proof. intros Hk Hs Hq. apply (desk_next id g g p (Some q)); [done|apply Hk|done|]. intros ? [= <-]. eauto. Qed.

Lemma record_apply_only id current g n : wp (record_apply id current) (λ _ g' _, only id g g') g n.
Proof.
  unfold record_apply, find_transaction, store. apply wp_bind, compared_pure. intros [v|e|] n' Hr; [|done..].
  wp_steps; [|done]. apply only_set.
Qed.

Lemma section_apply_ok id current status g p n r g' n' :
  desk_ok (desk g p) → record_apply id current g n = (r, g', n') → desk_ok (desk g' (after_apply id status r p)).
Proof.
  intros Hk Hrun. pose proof (record_apply_spec id current g n (proj1 Hk)) as Hs. pose proof (record_apply_only id current g n) as Ho.
  unfold wp in Hs, Ho. rewrite Hrun in Hs, Ho. destruct Hs as (_ & Hg & Hs). unfold after_apply.
  destruct r as [s|e|]; [case_bool_decide|..]; try by eapply desk_done.
  apply (desk_next id g g' p (Some (CommandFailed status))); [done..|]. intros ? [= <-]. destruct Hs as [Hs Hph]. by exists s.
Qed.

Lemma reserve_verified_only id verified command purpose g n :
  sound g → wp (reserve_verified id verified command purpose) (λ _ g' _, sound g' ∧ only id g g') g n.
Proof.
  intros Hg. unfold reserve_verified, find_transaction, store. wp_steps; try done.
  split; [|apply only_set]. apply sound_set; [done|]. apply sound_lease. by apply Hg.
Qed.

Lemma check_lease_spec id command g n :
  wp (check_lease id command) (λ r g' _, g' = g ∧ (r = Ok tt → is_Some (cg_transactions g !! id))) g n.
Proof.
  unfold check_lease, find_transaction. wp_steps; [|done]. apply require_lease_pure; [|done]. intros lease _ _. split; [done|].
  intros _. by eexists.
Qed.

Lemma shell_failure_only id status s g n :
  sound g → cg_transactions g !! id = Some s → ct_phase s = Applied →
  wp (record_shell_failure id status) (λ _ g' _, sound g' ∧ only id g g') g n.
Proof.
  intros Hg Hs Hp. unfold record_shell_failure, find_transaction, store. wp_steps; [|done].
  split; [|apply only_set]. apply sound_set; [done|]. assert (a = s) as -> by congruence.
  apply sound_failed; [by apply Hg|]. right. split; [done|]. by rewrite Hp.
Qed.

Lemma section_ok x y : section x y → desk_ok x.1 → desk_ok y.1.
Proof.
  intros [c g p n g' n' Hrun Ha|id session agent root g p n g' n' _ Hrun|id session agent root g p n r g' n' Hp Hrun
    |id session agent root observed g p n g' n' _ Hrun|id session agent root observed g p n r g' n' Hp Hrun
    |id session agent root verified command purpose g p n g' n' _ Hrun|id verified command purpose g p n r g' n' Hp Hrun
    |id command current status g p n g' n' _ Hrun|id current status g p n r g' n' Hp Hrun|id status g p n r g' n' Hp Hrun
    |id g p n] Hk; cbn [fst] in *.
  - split; [|intros id q Hq; cbn in *; rewrite Ha by eauto; by apply (proj2 Hk)].
    pose proof (step_sound (g, n) c (proj1 Hk)) as Hs. by rewrite Hrun in Hs.
  - pose proof (accept_check_spec id session agent root g n) as Hs. unfold wp in Hs. rewrite Hrun in Hs.
    destruct Hs as (-> & s & Hs & Hq). by eapply desk_waits.
  - destruct (proj2 Hk _ _ Hp) as (s & Hs & Hq & Hph). cbn in Hs. rewrite (accept_verified_run _ s) in Hrun by done.
    injection Hrun as _ <- _. eapply desk_done; [done| |apply only_set]. apply sound_set; [apply Hk|].
    apply sound_accepted; [by apply (proj1 Hk)|done].
  - pose proof (rollback_checked id session agent root g n) as Hs. unfold wp in Hs. rewrite Hrun in Hs.
    destruct Hs as (-> & s & Hs & Hq). by eapply desk_waits.
  - destruct (proj2 Hk _ _ Hp) as (s & Hs & Hq & Hb). cbn in Hs. rewrite (rollback_record_run _ _ s) in Hrun by done.
    injection Hrun as _ <- _. eapply desk_done; [done| |apply only_set]. apply sound_set; [apply Hk|]. apply sound_rolled_back, Hb.
  - pose proof (verify_current_spec id session agent root g n) as Hs. unfold wp in Hs. rewrite Hrun in Hs.
    destruct Hs as (-> & Hs & _). by eapply desk_waits.
  - pose proof (reserve_verified_only id verified command purpose g n (proj1 Hk)) as Hs. unfold wp in Hs. rewrite Hrun in Hs.
    destruct Hs. by eapply desk_done.
  - pose proof (check_lease_spec id command g n) as Hs. unfold wp in Hs. rewrite Hrun in Hs.
    destruct Hs as [-> [s Hs]]; [done|]. by eapply desk_waits.
  - by eapply section_apply_ok.
  - destruct (proj2 Hk _ _ Hp) as (s & Hs & Hph).
    pose proof (shell_failure_only id status s g n (proj1 Hk) Hs Hph) as Hw. unfold wp in Hw. rewrite Hrun in Hw.
    destruct Hw. by eapply desk_done.
  - by eapply desk_done; [done|apply Hk|].
Qed.

Lemma sections_ok x y : rtc section x y → desk_ok x.1 → desk_ok y.1.
Proof. induction 1; eauto using section_ok. Qed.

Lemma empty_desk_ok n : desk_ok (empty_desk n).1.
Proof. by split. Qed.

(** A transaction whose acceptance is sound: what [C21] says of it. *)
Definition validated (context : option RepositoryContext) (s : ChangeTransactionSnapshot (AgentToolContext := AgentToolContext)) : Prop :=
  is_Some (ct_diff_artifact_ref s)
  ∧ (∀ p, p ∈ ct_validation_plan s → ps_required p = true → ran s (ps_validation_kind p) (ps_command p))
  ∧ ∀ c, context = Some c → ∃ i,
      ct_validation_plan s = plan_of i c (wv_changed_paths (ct_current s))
      ∧ ∀ path crate, is_cargo c = true → path ∈ wv_changed_paths (ct_current s) → crate_dir path = Some crate →
          let cargo := cargo_prefix i (rc_root c) in
          let name := package i (rc_root c) crate in
          ran s (lit "check") (cargo ++ lit " check -p " ++ name)
          ∧ ran s (lit "test") (cargo ++ lit " test -p " ++ name ++ lit " --lib").

Lemma sound_is_validated context s : sound_transaction context s → is_validated (ct_phase s) → validated context s.
Proof.
  intros [Hd Hr Hv _ _] Hp. assert (judged (ct_phase s) ∧ is_reviewed (ct_phase s)) as [Hj Hrev] by by destruct (ct_phase s).
  split_and!; [by apply Hr|intros p; by apply required_ran, Hv|]. intros c Hc. destruct (Hd Hj c Hc) as [i Hplan].
  exists i. split; [done|]. intros path crate Hcargo Hin Hcrate. cbv zeta.
  destruct (plan_covers i c _ _ _ Hcargo Hin Hcrate) as [H1 H2]. split; (eapply has_step_ran; [by apply Hv|done|done]).
Qed.

(** C21. Accepted changes are validated.  Calls on the registry are made with any
    outcome of git and the file system, section by section: calls on different
    transactions interleave in any way, and none changes a transaction between the
    sections of a pending call on it ([unvalidated_change_is_accepted] shows what
    happens otherwise).  Then the accepted version of a transaction is its current
    one, its difference was reviewed, and every required step of its plan ran with
    success on exactly that version; when the transaction knows its repository the
    plan is the one derived from the paths of that version, and every changed crate of
    a cargo repository was checked and tested on it.  A pending acceptance is one of
    the owner, without a running command, of a validated transaction whose workspace
    was observed in the current version, and its write succeeds and accepts that; a
    pending rollback is one of the owner, without a running command, of a transaction
    that is neither accepted nor rolled back and whose workspace was observed in the
    baseline, and its write succeeds and records that. *)
Theorem accepted_changes_are_validated n k n' :
  rtc section (empty_desk n) (k, n') →
  let g := dk_registry k in
  (∀ id s, cg_transactions g !! id = Some s → ct_phase s = Accepted →
    ct_accepted_workspace_version s = Some (wv_digest (ct_current s)) ∧ validated (cg_repository_contexts g !! id) s)
  ∧ (∀ id session agent root, dk_pending k !! id = Some (Accepting session agent root) →
      ∃ s, cg_transactions g !! id = Some s ∧ verified_for session agent root s ∧ ct_phase s = Validated
        ∧ validated (cg_repository_contexts g !! id) s
        ∧ accept_verified id g n' = (Ok (accepted s), set_transaction id (accepted s) g, n'))
  ∧ ∀ id session agent root observed, dk_pending k !! id = Some (RollingBack session agent root observed) →
      ∃ s, cg_transactions g !! id = Some s ∧ verified_for session agent root s ∧ back_in_baseline observed s
        ∧ rollback_record id observed g n' = (Ok (rolled_back observed s), set_transaction id (rolled_back observed s) g, n').
Proof.
  intros Hrun. destruct (sections_ok _ _ Hrun (empty_desk_ok n)) as [Hg Hp]. cbn [fst] in *. split_and!.
  - intros id s Hs Hph. pose proof (Hg id s Hs) as Hss. split; [by apply Hss|].
    apply sound_is_validated; [done|]. by rewrite Hph.
  - intros id session agent root Hq. destruct (Hp _ _ Hq) as (s & Hs & Hv & Hph). exists s.
    split_and!; [done..|apply sound_is_validated; [by apply Hg|by rewrite Hph]|by apply accept_verified_run].
  - intros id session agent root observed Hq. destruct (Hp _ _ Hq) as (s & Hs & Hv & Hb). exists s.
    split_and!; [done..|by apply rollback_record_run].
Qed.

End Safety.

End ChangeTransactions.

(** ** A transaction at work *)
Module TransactionSample.
Import ChangeTransactions.

#[local] Existing Instance sample_env.

#[local] Instance sample_files : RepositoryFiles := {|
  repo_is_file _ _ _ := false; repo_is_dir _ _ _ := false; repo_read _ _ _ := None; repo_crates _ _ := None;
  parse_toml _ := None;
|}.

Definition version (digest : string) (paths : list text) : WorkspaceVersion := {|
  wv_digest := lit digest; wv_basis := GitWorktree; wv_root := lit "/w"; wv_head := None; wv_changed_paths := paths;
|}.

Definition edited : WorkspaceVersion := version "v1" [lit "crates/foo/src/lib.rs"].

(** The workspace holds the baseline until the change is applied. *)
#[local] Instance sample_workspace : Workspace (AgentToolContext := unit) := {|
  BaselineRestore := unit;
  canonicalize _ root := inr root;
  capture i _ := inr (if i <? 4 then version "v0" [] else edited);
  capture_restore _ _ _ := inr tt;
  restore_baseline _ _ _ := None;
  restore_changed_paths _ _ _ := inr [];
|}.

Definition evidence (path : string) : RepositoryFileEvidence := {|
  rf_path := lit path; rf_sha256 := []; rf_size_bytes := 0; rf_artifact_ref := []; rf_preview := []; rf_preview_truncated := false;
|}.

Definition sample_context : RepositoryContext := {|
  rc_root := lit "/w"; rc_version := []; rc_instructions := [];
  rc_manifests := [{| mr_file := evidence "Cargo.toml"; mr_kind := lit "cargo" |}]; rc_entry_files := [];
  rc_evidence_constraints := []; rc_exact_follow_up_paths := []; rc_missing_candidates := [];
  rc_vcs_state := {| vc_kind := None; vc_head := None; vc_branch := None; vc_dirty := None; vc_status_artifact_ref := None |};
  rc_validation_commands := []; rc_protected_paths := []; rc_deployment_policy := None;
|}.

(** The identifier of the transaction of the sample. *)
Definition tx : Uuid := 3.

Definition validate (kind command status : string) : list (Call (AgentToolContext := unit)) :=
  [Reserve tx (lit "s") None (lit "/w") (lit "c") (lit "validation");
   Validation tx (lit kind) (lit command) (lit "v1") edited (lit status) None (lit "c")].

Definition change : list (Call (AgentToolContext := unit)) :=
  [BeginWithContext (lit "s") None sample_context; Apply tx edited; DiffReview tx (lit "diff") []].

Definition validated_calls : list (Call (AgentToolContext := unit)) :=
  change ++ validate "check" "cargo check -p foo" "succeeded" ++ validate "test" "cargo test -p foo --lib" "succeeded".

Definition accept_call : Call (AgentToolContext := unit) := Accept tx (lit "s") None (lit "/w").

Definition phase_after (calls : list (Call (AgentToolContext := unit))) : option ChangeTransactionPhase :=
  ct_phase <$> cg_transactions (run calls 0).1 !! tx.

(** The plan and the phases of the sample. *)
Example sample_phases :
  ps_command <$> plan_of 0 sample_context [lit "crates/foo/src/lib.rs"] = [lit "cargo check -p foo"; lit "cargo test -p foo --lib"]
  ∧ phase_after change = Some DiffReviewed
  ∧ phase_after (change ++ [accept_call]) = Some DiffReviewed
  ∧ phase_after (change ++ validate "check" "cargo check -p foo" "failed") = Some Repair
  ∧ phase_after validated_calls = Some Validated
  ∧ phase_after (validated_calls ++ [accept_call]) = Some Accepted.
Proof. vm_compute. done. Qed.

(** Calls one after the other are sections of their own. *)
Lemma run_sections calls g n :
  rtc section (desk g ∅, n) (desk (foldl step (g, n) calls).1 ∅, (foldl step (g, n) calls).2).
Proof.
  revert g n. induction calls as [|c calls IH]; intros g n; [done|]. cbn. destruct (step (g, n) c) as [g' n'] eqn:Hs.
  eapply rtc_l; [|apply IH]. eapply section_call; [exact Hs|]. intros id [q Hq]. by rewrite lookup_empty in Hq.
Qed.

Definition accepted_sample := run (validated_calls ++ [accept_call]) 0.

(** The theorem at the sample. *)
Lemma accepted_changes_are_validated_witness :
  ∃ s, cg_transactions accepted_sample.1 !! tx = Some s ∧ ran s (lit "test") (lit "cargo test -p foo --lib").
Proof.
  pose proof (accepted_changes_are_validated 0 (desk accepted_sample.1 ∅) accepted_sample.2
    (run_sections (validated_calls ++ [accept_call]) no_transactions 0)) as [H _]. cbn [dk_registry desk] in H.
  assert (ct_phase <$> cg_transactions accepted_sample.1 !! tx = Some Accepted) as Hp by (vm_compute; reflexivity).
  assert (cg_repository_contexts accepted_sample.1 !! tx = Some sample_context) as Hc by (vm_compute; reflexivity).
  assert (wv_changed_paths ∘ ct_current <$> cg_transactions accepted_sample.1 !! tx
          = Some [lit "crates/foo/src/lib.rs"]) as Hw by (vm_compute; reflexivity).
  destruct (cg_transactions accepted_sample.1 !! tx) as [s|] eqn:Hs; [|done].
  injection Hp as Hp. injection Hw as Hw. exists s. split; [done|].
  destruct (H tx s Hs Hp) as (_ & _ & _ & Hctx). destruct (Hctx _ Hc) as (i & _ & Hran).
  destruct (Hran (lit "crates/foo/src/lib.rs") (lit "foo")) as [_ Htest]; [done| |done|exact Htest].
  rewrite Hw. left.
Defined.

(** *** Where the registry falls short *)

(** [verify_current] and what follows it are separate sections: a change recorded in
    between is accepted without being reviewed or validated. *)
Example unvalidated_change_is_accepted :
  let '(g, n) := run validated_calls 0 in
  let '(verified, g, n) := verify_current tx (lit "s") None (lit "/w") g n in
  let '(g, n) := after (record_apply tx (version "v2" [lit "crates/foo/build.rs"])) (g, n) in
  let '(r, g, n) := accept_verified tx g n in
  match verified, r with
  | Ok verified, Ok s =>
      ct_phase verified = Validated ∧ ct_phase s = Accepted ∧ ct_accepted_workspace_version s = Some (lit "v2")
      ∧ ct_diff_artifact_ref s = None ∧ all_required_passed s = false
  | _, _ => False
  end.
Proof. vm_compute. done. Qed.

(** A change recorded by a tool that verified before drops the lease of a command
    that was reserved meanwhile. *)
Example running_command_loses_its_lease :
  let '(g, n) := run change 0 in
  let '(verified, g, n) := verify_current tx (lit "s") None (lit "/w") g n in
  let '(g, n) := step (g, n) (Reserve tx (lit "s") None (lit "/w") (lit "c") (lit "shell")) in
  let leased := cg_transactions g !! tx ≫= ct_active_command in
  let '(g, n) := after (record_apply tx edited) (g, n) in
  is_Some leased ∧ (cg_transactions g !! tx ≫= ct_active_command) = None.
Proof. vm_compute. split; [by eexists|done]. Qed.

(** An accepted transaction takes further changes, and is then not accepted any
    more. *)
Example accepted_is_not_final : phase_after (validated_calls ++ [accept_call; Apply tx edited]) = Some Applied.
Proof. vm_compute. done. Qed.

(** A step that failed after it succeeded counts as passed: another review and the
    success of the other step validate the change. *)
Example later_failure_is_forgotten :
  phase_after (change ++ validate "check" "cargo check -p foo" "succeeded" ++ validate "check" "cargo check -p foo" "failed"
    ++ [DiffReview tx (lit "diff") []] ++ validate "test" "cargo test -p foo --lib" "succeeded" ++ [accept_call]) = Some Accepted.
Proof. vm_compute. done. Qed.

End TransactionSample.
