(* ===== verification/AgentAdmission.v ===== *)
(** * Admission of agents (crates/executive/src/application/agent_control/admission.rs)

    [BoundedAgentAdmission] lets agents into the trees of their root agents: it
    bounds how many are resident, queued and running, what storage they reserve
    and how deep a tree is, and gives each a share of the rollout budget of its
    root, a scope of the kernel's [Budget].  [reserve] is an asynchronous
    function: it enters the queue, waits for its turn and a free slot, takes the
    reservation lock, opens the scope of the root when it is the first and
    reserves the share.  Here it is a task that is resumed section by section,
    [Point] says where it stands, and any number of tasks, leases and other
    callers of the budget controller are interleaved.  A task that waits may time
    out or be cancelled at any time; it may not between two sections under the
    reservation lock, where the code does not wait. *)
From Stdlib Require Import Sorted.
From S2P Require Import Prelude FabricTypes Budget BudgetInv BudgetSpec BudgetGrow Fallible StdText StdFloat GoalTypes.

#[local] Open Scope N_scope.

(** ** Contracts *)

Module AgentControlErrorKind.
Inductive t :=
| InvalidRequest | NotFound | Forbidden | Capacity | Conflict | Timeout | Terminal | Persistence | Runtime.
End AgentControlErrorKind.

Record AgentControlError := {
  ae_kind : AgentControlErrorKind.t;
  ae_message : string;
}.

Definition invalid (message : string) : AgentControlError :=
  {| ae_kind := AgentControlErrorKind.InvalidRequest; ae_message := message |}.

Definition capacity (message : string) : AgentControlError :=
  {| ae_kind := AgentControlErrorKind.Capacity; ae_message := message |}.

Definition forbidden (message : string) : AgentControlError :=
  {| ae_kind := AgentControlErrorKind.Forbidden; ae_message := message |}.

Definition conflict (message : string) : AgentControlError :=
  {| ae_kind := AgentControlErrorKind.Conflict; ae_message := message |}.

Definition timeout_error (message : string) : AgentControlError :=
  {| ae_kind := AgentControlErrorKind.Timeout; ae_message := message |}.

Record AgentBudget := {
  max_input_tokens : N;
  max_output_tokens : N;
  max_tool_calls : N;
  max_elapsed_ms : N;
  max_cost_usd : option F64;
  ab_max_depth : N;
}.

(** The fields of [AgentSpawnRequest] that admission reads. *)
Record AgentSpawnRequest := {
  sp_root_agent_id : AgentId;
  sp_budget : AgentBudget;
}.

Record AgentStorageRequest := {
  as_bytes : N;
  as_items : N;
}.

Record AgentAdmissionRequest := {
  aq_agent_id : AgentId;
  aq_spawn : AgentSpawnRequest;
  aq_depth : N;
  aq_parent_profile : option text;
  aq_storage : AgentStorageRequest;
}.

(** ** The configuration (crates/cognit/src/config/mod.rs) *)

Record AgentAdmissionConfig := {
  max_agents_per_root : N;
  max_running_agents : N;
  max_depth : N;
  max_queued_per_root : N;
  sibling_fairness_quantum : N;
  root_max_tokens : N;
  root_max_cost_micro : option N;
  max_child_tokens : N;
  max_child_cost_micro : option N;
  max_storage_bytes : N;
  max_storage_items : N;
}.

Definition default_config : AgentAdmissionConfig :=
  {| max_agents_per_root := 64; max_running_agents := 16; max_depth := 4; max_queued_per_root := 32;
     sibling_fairness_quantum := 1; root_max_tokens := 2000000; root_max_cost_micro := None;
     max_child_tokens := 200000; max_child_cost_micro := None;
     max_storage_bytes := 4 * 1024 * 1024 * 1024; max_storage_items := 128 |}.

Definition validate_config (c : AgentAdmissionConfig) : Result string unit :=
  need ((0 <? max_agents_per_root c) && (0 <? max_running_agents c) && (0 <? max_depth c)
        && (0 <? max_queued_per_root c) && (0 <? sibling_fairness_quantum c) && (0 <? root_max_tokens c)
        && (0 <? max_child_tokens c) && (0 <? max_storage_bytes c) && (0 <? max_storage_items c))
    "Agent admission bounds must be nonzero" ;;
  need ((max_running_agents c <=? max_agents_per_root c) && (max_queued_per_root c <=? max_agents_per_root c))
    "Agent running/queued bounds exceed the root tree bound" ;;
  need (max_child_tokens c <=? root_max_tokens c)
    "Agent child token allowance exceeds root rollout allowance" ;;
  match max_child_cost_micro c with
  | Some child =>
      root ← some_or (root_max_cost_micro c)
        "finite child cost allowance requires a finite root rollout allowance";
      need (child <=? root) "Agent child cost allowance exceeds root rollout allowance"
  | None => Ok tt
  end.

(** ** Policy *)

(** [u64::checked_add] *)
Definition checked_add (a b : N) : option N := if a + b <=? u64_max then Some (a + b) else None.

(** [x.ceil() as u64]: below [2^53] the ceiling is exact, above it the number is
    an integer; the cast saturates. *)
Definition ceil_as_u64 (x : F64) : N :=
  match x with
  | S754_finite false m e =>
      N.min u64_max
        (match e with
         | Zneg p => (Npos m + (2 ^ Npos p - 1)) / 2 ^ Npos p
         | _ => Npos m * 2 ^ Z.to_N e
         end)
  | S754_infinity false => u64_max
  | _ => 0
  end.

Definition million : F64 := f64_of_N 1000000.

Definition cost_micro (cost_usd : option F64) : Result AgentControlError (option N) :=
  match cost_usd with
  | Some cost =>
      if negb (is_finite cost) || SFltb cost (S754_zero false)
         || SFltb (f64_div (f64_of_N u64_max) million) cost
      then Err (invalid "Agent cost budget is invalid")
      else Ok (Some (ceil_as_u64 (f64_mul cost million)))
  | None => Ok None
  end.

Definition exceeds_optional (requested limit : option N) : bool :=
  match requested, limit with
  | Some _, None => false
  | Some requested, Some limit => limit <? requested
  | None, Some _ => true
  | None, None => false
  end.

Definition is_non_delegating_role (profile : text) : bool :=
  existsb (λ role, contains (to_ascii_lowercase profile) (lit role))
    ["memory"; "mnemosyne"; "consolidat"; "internal-recall"]%string.

Definition validate_policy (c : AgentAdmissionConfig) (request : AgentAdmissionRequest)
    : Result AgentControlError unit :=
  let budget := sp_budget (aq_spawn request) in
  requested_tokens ← some_or (checked_add (max_input_tokens budget) (max_output_tokens budget))
    (invalid "Agent token request overflow");
  if (max_depth c <? aq_depth request) || (ab_max_depth budget <? aq_depth request)
  then Err (capacity "Agent tree depth is exhausted")
  else if max_child_tokens c <? requested_tokens
  then Err (capacity "Agent child token allowance is exhausted")
  else
    requested_cost ← cost_micro (max_cost_usd budget);
    if exceeds_optional requested_cost (max_child_cost_micro c)
    then Err (capacity "Agent child cost allowance is exhausted")
    else if (max_storage_bytes c <? as_bytes (aq_storage request))
            || (max_storage_items c <? as_items (aq_storage request))
    then Err (capacity "Agent storage request exceeds policy")
    else if match aq_parent_profile request with Some profile => is_non_delegating_role profile | None => false end
    then Err (forbidden "internal memory/consolidation Agent roles cannot delegate")
    else Ok tt.

(** ** The state behind the mutex *)

Record RootAdmissionState := {
  budget_scope : option BudgetScopeId;
  resident : N;
  queued : N;
  running : N;
  storage_bytes : N;
  storage_items : N;
  next_ticket : N;
}.

Definition default_root : RootAdmissionState :=
  {| budget_scope := None; resident := 0; queued := 0; running := 0; storage_bytes := 0; storage_items := 0;
     next_ticket := 0 |}.

Record AdmissionState := {
  roots : gmap AgentId RootAdmissionState;
  running_slots : N;
  waiters : list N;
  next_waiter : N;
  agent_reservations : gmap AgentId BudgetReservationId;
}.

Definition default_state : AdmissionState :=
  {| roots := ∅; running_slots := 0; waiters := []; next_waiter := 0; agent_reservations := ∅ |}.

Definition with_roots (f : gmap AgentId RootAdmissionState → gmap AgentId RootAdmissionState) (s : AdmissionState)
    : AdmissionState :=
  {| roots := f (roots s); running_slots := running_slots s; waiters := waiters s; next_waiter := next_waiter s;
     agent_reservations := agent_reservations s |}.

Definition with_slots (f : N → N) (s : AdmissionState) : AdmissionState :=
  {| roots := roots s; running_slots := f (running_slots s); waiters := waiters s; next_waiter := next_waiter s;
     agent_reservations := agent_reservations s |}.

Definition with_waiters (f : list N → list N) (s : AdmissionState) : AdmissionState :=
  {| roots := roots s; running_slots := running_slots s; waiters := f (waiters s); next_waiter := next_waiter s;
     agent_reservations := agent_reservations s |}.

Definition with_agents (f : gmap AgentId BudgetReservationId → gmap AgentId BudgetReservationId)
    (s : AdmissionState) : AdmissionState :=
  {| roots := roots s; running_slots := running_slots s; waiters := waiters s; next_waiter := next_waiter s;
     agent_reservations := f (agent_reservations s) |}.

Definition set_scope (o : option BudgetScopeId) (r : RootAdmissionState) : RootAdmissionState :=
  {| budget_scope := o; resident := resident r; queued := queued r; running := running r;
     storage_bytes := storage_bytes r; storage_items := storage_items r; next_ticket := next_ticket r |}.

Module AgentAdmission.

(** The first section of [reserve]: the request joins its root and the queue. *)
Definition enqueue (c : AgentAdmissionConfig) (request : AgentAdmissionRequest) : M AdmissionState AgentControlError N :=
  let root := sp_root_agent_id (aq_spawn request) in
  let storage := aq_storage request in
  modify (with_roots (λ m, <[root := default default_root (m !! root)]> m)) ;;
  s ← get_state;
  let root_state := default default_root (roots s !! root) in
  if max_agents_per_root c <=? resident root_state
  then throw (capacity "Agent root tree capacity is exhausted")
  else if max_queued_per_root c <=? queued root_state
  then throw (capacity "Agent root queue capacity is exhausted")
  else
    let over used wanted limit :=
      match checked_add used wanted with Some value => limit <? value | None => true end in
    if over (storage_bytes root_state) (as_bytes storage) (max_storage_bytes c)
       || over (storage_items root_state) (as_items storage) (max_storage_items c)
    then throw (capacity "Agent root storage capacity is exhausted")
    else
      put_state
        {| roots := <[root :=
             {| budget_scope := budget_scope root_state;
                resident := resident root_state + 1;
                queued := queued root_state + 1;
                running := running root_state;
                storage_bytes := storage_bytes root_state + as_bytes storage;
                storage_items := storage_items root_state + as_items storage;
                next_ticket := saturating_add (next_ticket root_state) (sibling_fairness_quantum c) |}]> (roots s);
           running_slots := running_slots s;
           waiters := waiters s ++ [next_waiter s];
           next_waiter := saturating_add (next_waiter s) 1;
           agent_reservations := agent_reservations s |} ;;
      mret (next_waiter s).

(** The section of the loop under the reservation lock. *)
Definition try_admit (c : AgentAdmissionConfig) (waiter_id : N) (s : AdmissionState) : bool * AdmissionState :=
  if bool_decide (head (waiters s) = Some waiter_id) && (running_slots s <? max_running_agents c)
  then (true, with_slots N.succ (with_waiters tail s))
  else (false, s).

Inductive PendingPhase := PendingWaiting | PendingAdmitted | PendingClosed.

Record PendingAdmission := {
  pd_waiter_id : N;
  pd_root : AgentId;
  pd_storage : AgentStorageRequest;
  pd_phase : PendingPhase;
}.

Definition new_pending (waiter_id : N) (root : AgentId) (storage : AgentStorageRequest) : PendingAdmission :=
  {| pd_waiter_id := waiter_id; pd_root := root; pd_storage := storage; pd_phase := PendingWaiting |}.

Definition mark_admitted (p : PendingAdmission) : PendingAdmission :=
  {| pd_waiter_id := pd_waiter_id p; pd_root := pd_root p; pd_storage := pd_storage p; pd_phase := PendingAdmitted |}.

Definition disarm (p : PendingAdmission) : PendingAdmission :=
  {| pd_waiter_id := pd_waiter_id p; pd_root := pd_root p; pd_storage := pd_storage p; pd_phase := PendingClosed |}.

(** One agent less in a root; [q] and [r] are taken from the queued and running. *)
Definition leave (storage : AgentStorageRequest) (q r : N) (root : RootAdmissionState) : RootAdmissionState :=
  {| budget_scope := budget_scope root;
     resident := saturating_sub (resident root) 1;
     queued := saturating_sub (queued root) q;
     running := saturating_sub (running root) r;
     storage_bytes := saturating_sub (storage_bytes root) (as_bytes storage);
     storage_items := saturating_sub (storage_items root) (as_items storage);
     next_ticket := next_ticket root |}.

Definition drop_pending (p : PendingAdmission) (s : AdmissionState) : AdmissionState :=
  match pd_phase p with
  | PendingClosed => s
  | phase =>
      let s1 := match phase with
                | PendingWaiting => with_waiters (filter (λ waiter, waiter ≠ pd_waiter_id p)) s
                | _ => with_slots (λ slots, saturating_sub slots 1) s
                end in
      with_roots (alter (leave (pd_storage p) 1 0) (pd_root p)) s1
  end.

(** ** Leases *)

Inductive LeasePhase := Queued | Running | Closed.

#[global] Instance LeasePhase_eq_dec : EqDecision LeasePhase.
Proof. solve_decision. Defined.

Record BoundedAdmissionLease := {
  ls_root : AgentId;
  ls_storage : AgentStorageRequest;
  ls_reservation : option BudgetReservationId;
  ls_agent_id : AgentId;
  ls_phase : LeasePhase;
}.

Definition set_phase (phase : LeasePhase) (l : BoundedAdmissionLease) : BoundedAdmissionLease :=
  {| ls_root := ls_root l; ls_storage := ls_storage l; ls_reservation := ls_reservation l;
     ls_agent_id := ls_agent_id l; ls_phase := phase |}.

Definition take_reservation (l : BoundedAdmissionLease) : BoundedAdmissionLease :=
  {| ls_root := ls_root l; ls_storage := ls_storage l; ls_reservation := None;
     ls_agent_id := ls_agent_id l; ls_phase := ls_phase l |}.

Definition release_topology (root_id : AgentId) (storage : AgentStorageRequest) (phase : LeasePhase)
    (s : AdmissionState) : AdmissionState :=
  with_slots (λ slots, saturating_sub slots 1)
    (with_roots (alter (match phase with
                        | Queued => leave storage 1 0
                        | Running => leave storage 0 1
                        | Closed => leave storage 0 0
                        end) root_id) s).

(** What a method of a lease works on: the two shared states, the number of times
    [capacity_changed] was notified, and the lease. *)
Record LeaseView := {
  lv_state : AdmissionState;
  lv_budget : Controller;
  lv_notified : N;
  lv_lease : BoundedAdmissionLease;
}.

Abbreviation L := (M LeaseView AgentControlError).

Definition on_state (f : AdmissionState → AdmissionState) (v : LeaseView) : LeaseView :=
  {| lv_state := f (lv_state v); lv_budget := lv_budget v; lv_notified := lv_notified v; lv_lease := lv_lease v |}.

Definition on_lease (f : BoundedAdmissionLease → BoundedAdmissionLease) (v : LeaseView) : LeaseView :=
  {| lv_state := lv_state v; lv_budget := lv_budget v; lv_notified := lv_notified v; lv_lease := f (lv_lease v) |}.

Definition notify_waiters (v : LeaseView) : LeaseView :=
  {| lv_state := lv_state v; lv_budget := lv_budget v; lv_notified := lv_notified v + 1; lv_lease := lv_lease v |}.

Definition set_budget (b : Controller) (v : LeaseView) : LeaseView :=
  {| lv_state := lv_state v; lv_budget := b; lv_notified := lv_notified v; lv_lease := lv_lease v |}.

Definition lift {S A} (r : Result AgentControlError A) : M S AgentControlError A := λ s n, (r, s, n).

Section Env.
Context `{Env}.

Definition mark_running : L unit :=
  v ← get_state;
  if negb (bool_decide (ls_phase (lv_lease v) = Queued))
  then throw (conflict "Agent admission lease is not queued")
  else
    root ← expect (roots (lv_state v) !! ls_root (lv_lease v));
    modify (on_state (with_roots (insert (ls_root (lv_lease v))
      {| budget_scope := budget_scope root; resident := resident root;
         queued := saturating_sub (queued root) 1; running := running root + 1;
         storage_bytes := storage_bytes root; storage_items := storage_items root;
         next_ticket := next_ticket root |}))) ;;
    modify (on_lease (set_phase Running)).

(** A call of the budget controller, with its error as a conflict; the text of
    that error, which the source appends, is left out. *)
Definition call_budget {A} (message : string) (m : M Controller AdmissionError.t A) : L A :=
  map_err (λ _, conflict message) (zoom lv_budget set_budget m).

Definition usage_report (usage : AttemptUsage) : Result AgentControlError UsageReport :=
  cost ← cost_micro (us_cost_usd usage);
  Ok {| ur_permit_id := ur_permit_id UsageReport_default;
        ur_tokens_used := saturating_add (us_input_tokens usage) (us_output_tokens usage);
        ur_cost_micro := default 0 cost;
        ur_wall_time_ms := us_elapsed_ms usage;
        ur_output_bytes := ur_output_bytes UsageReport_default;
        ur_exit_code := ur_exit_code UsageReport_default |}.

(** The last lines of the closing methods. *)
Definition close_lease : L unit :=
  modify (λ v, on_state (with_agents (delete (ls_agent_id (lv_lease v)))) v) ;;
  modify (λ v, on_state (release_topology (ls_root (lv_lease v)) (ls_storage (lv_lease v)) (ls_phase (lv_lease v))) v) ;;
  modify notify_waiters ;;
  modify (on_lease (set_phase Closed)).

(** [settle] up to the call of the budget controller and with it. *)
Definition settle_budget (usage : AttemptUsage) : L unit :=
  v ← get_state;
  if bool_decide (ls_phase (lv_lease v) = Closed)
  then throw (conflict "Agent admission lease is already closed")
  else
    reservation ← ok_or (ls_reservation (lv_lease v)) (conflict "Agent admission lease has no live budget reservation");
    report ← lift (usage_report usage);
    call_budget "Agent budget settlement failed" (settle_reservation reservation report) ;;
    modify (on_lease take_reservation).

Definition settle (usage : AttemptUsage) : L unit := settle_budget usage ;; close_lease.

Definition revoke_budget : L unit :=
  v ← get_state;
  match ls_reservation (lv_lease v) with
  | Some reservation =>
      modify (on_lease take_reservation) ;;
      call_budget "Agent budget revoke failed" (revoke_reservation reservation)
  | None => mret tt
  end.

Definition revoke : L unit :=
  v ← get_state;
  if bool_decide (ls_phase (lv_lease v) = Closed) then mret tt else revoke_budget ;; close_lease.

Definition transfer_budget (parent : AgentId) (usage : AttemptUsage) : L BudgetTransferReceipt :=
  v ← get_state;
  if bool_decide (ls_phase (lv_lease v) = Closed)
  then throw (conflict "Agent admission lease is already closed")
  else
    child ← ok_or (ls_reservation (lv_lease v)) (conflict "Agent admission lease has no live budget reservation");
    parent ← ok_or (agent_reservations (lv_state v) !! parent) (conflict "parent Agent has no live budget reservation");
    report ← lift (usage_report usage);
    receipt ← call_budget "Agent budget transfer failed" (transfer_remaining_reservation child parent report);
    modify (on_lease take_reservation) ;;
    mret receipt.

Definition transfer_remaining_to (parent : AgentId) (usage : AttemptUsage) : L BudgetTransferReceipt :=
  receipt ← transfer_budget parent usage;
  close_lease ;;
  mret receipt.

(** [Drop]: the revocation of the reservation is left to a task of the runtime,
    if there is one. *)
Definition drop_lease (runtime : bool) (v : LeaseView) : LeaseView * list BudgetReservationId :=
  let l := lv_lease v in
  if bool_decide (ls_phase l = Closed) then (v, [])
  else (on_lease (take_reservation ∘ set_phase Closed)
          (notify_waiters (on_state (release_topology (ls_root l) (ls_storage l) (ls_phase l)) v)),
        if runtime then option_list (ls_reservation l) else []).

End Env.

(** ** The tasks *)

(** Where a call of [reserve] stands: waiting for its turn, for the reservation
    lock, and under the lock with the scope of the root it has read, the scope
    it has created, the scope in which it reserves, and its reservation. *)
Inductive Point :=
| AtQueue
| AtLock
| Locked (root_scope : option BudgetScopeId)
| Created (scope : BudgetScopeId)
| Scoped (scope : BudgetScopeId)
| Reserved (reservation : BudgetReservationId).

Definition holds_lock (p : Point) : bool :=
  match p with AtQueue | AtLock => false | _ => true end.

(** A task is a call of [reserve] in progress, or a lease with the request it
    was given for; [Closing] is one whose budget call has succeeded and which
    has not yet released its place. *)
Inductive Task :=
| Reserving (request : AgentAdmissionRequest) (pending : PendingAdmission) (point : Point)
| Leased (request : AgentAdmissionRequest) (lease : BoundedAdmissionLease)
| Closing (request : AgentAdmissionRequest) (lease : BoundedAdmissionLease).

Record System := {
  sy_state : AdmissionState;
  sy_budget : Controller;
  sy_lock : option N;
  sy_tasks : gmap N Task;
  sy_spawned : list BudgetReservationId;
  sy_notified : N;
}.

Definition set_state (a : AdmissionState) (s : System) : System :=
  {| sy_state := a; sy_budget := sy_budget s; sy_lock := sy_lock s; sy_tasks := sy_tasks s;
     sy_spawned := sy_spawned s; sy_notified := sy_notified s |}.

Definition set_controller (b : Controller) (s : System) : System :=
  {| sy_state := sy_state s; sy_budget := b; sy_lock := sy_lock s; sy_tasks := sy_tasks s;
     sy_spawned := sy_spawned s; sy_notified := sy_notified s |}.

Definition set_lock (o : option N) (s : System) : System :=
  {| sy_state := sy_state s; sy_budget := sy_budget s; sy_lock := o; sy_tasks := sy_tasks s;
     sy_spawned := sy_spawned s; sy_notified := sy_notified s |}.

Definition with_tasks (f : gmap N Task → gmap N Task) (s : System) : System :=
  {| sy_state := sy_state s; sy_budget := sy_budget s; sy_lock := sy_lock s; sy_tasks := f (sy_tasks s);
     sy_spawned := sy_spawned s; sy_notified := sy_notified s |}.

Definition with_spawned (f : list BudgetReservationId → list BudgetReservationId) (s : System) : System :=
  {| sy_state := sy_state s; sy_budget := sy_budget s; sy_lock := sy_lock s; sy_tasks := sy_tasks s;
     sy_spawned := f (sy_spawned s); sy_notified := sy_notified s |}.

(** [capacity_changed.notify_waiters()] has been called [k] times. *)
Definition set_notified (k : N) (s : System) : System :=
  {| sy_state := sy_state s; sy_budget := sy_budget s; sy_lock := sy_lock s; sy_tasks := sy_tasks s;
     sy_spawned := sy_spawned s; sy_notified := k |}.

(** A new admission over a budget controller. *)
Definition new_system (budget : Controller) : System :=
  {| sy_state := default_state; sy_budget := budget; sy_lock := None; sy_tasks := ∅; sy_spawned := [];
     sy_notified := 0 |}.

(** [BoundedAgentAdmission::with_budget], and [new], which the tests use. *)
Definition with_budget (c : AgentAdmissionConfig) (budget : Controller) : Result AgentControlError System :=
  match validate_config c with
  | Ok _ => Ok (new_system budget)
  | Err error => Err (invalid error)
  | Panic => Panic
  end.

Definition new (max_concurrent : N) : Result AgentControlError System :=
  with_budget
    {| max_agents_per_root := max_concurrent; max_running_agents := max_concurrent;
       max_depth := max_depth default_config; max_queued_per_root := max_concurrent;
       sibling_fairness_quantum := sibling_fairness_quantum default_config;
       root_max_tokens := root_max_tokens default_config; root_max_cost_micro := root_max_cost_micro default_config;
       max_child_tokens := max_child_tokens default_config;
       max_child_cost_micro := max_child_cost_micro default_config;
       max_storage_bytes := max_storage_bytes default_config; max_storage_items := max_storage_items default_config |}
    new_controller.

Definition request_root (request : AgentAdmissionRequest) : AgentId := sp_root_agent_id (aq_spawn request).

Definition root_request (c : AgentAdmissionConfig) : BudgetRequest :=
  {| max_tokens := Some (root_max_tokens c); max_cost_micro := root_max_cost_micro c |}.

Definition child_request (request : AgentAdmissionRequest) : Result AgentControlError BudgetRequest :=
  let budget := sp_budget (aq_spawn request) in
  requested_tokens ← must (checked_add (max_input_tokens budget) (max_output_tokens budget));
  cost ← cost_micro (max_cost_usd budget);
  Ok {| max_tokens := Some requested_tokens; max_cost_micro := cost |}.

Section System.
Context `{Env} (c : AgentAdmissionConfig).

Abbreviation Y := (M System AgentControlError).

(** [reserve] up to its first wait. *)
Definition begin_reserve (h : N) (request : AgentAdmissionRequest) : Y unit :=
  lift (validate_policy c request) ;;
  waiter_id ← zoom sy_state set_state (enqueue c request);
  modify (with_tasks (insert h
    (Reserving request (new_pending waiter_id (request_root request) (aq_storage request)) AtQueue))).

(** The section of [reserve] at a point; the value is the task afterwards. *)
Definition resume (h : N) (request : AgentAdmissionRequest) (pending : PendingAdmission) (point : Point) : Y Task :=
  let root := request_root request in
  match point with
  | AtQueue =>
      s ← get_state;
      let '(admitted, a) := try_admit c (pd_waiter_id pending) (sy_state s) in
      modify (set_state a) ;;
      mret (if admitted then Reserving request (mark_admitted pending) AtLock else Reserving request pending AtQueue)
  | AtLock =>
      modify (set_lock (Some h)) ;;
      s ← get_state;
      mret (Reserving request pending (Locked (roots (sy_state s) !! root ≫= budget_scope)))
  | Locked (Some scope) => mret (Reserving request pending (Scoped scope))
  | Locked None =>
      scope ← map_err (λ _, capacity "") (zoom sy_budget set_controller
        (create_root ("agent-root:" ++ uuid_display root) (root_request c)));
      mret (Reserving request pending (Created scope))
  | Created scope =>
      s ← get_state;
      root_state ← expect (roots (sy_state s) !! root);
      let inserted := default scope (budget_scope root_state) in
      modify (set_state (with_roots (insert root (set_scope (Some inserted) root_state)) (sy_state s))) ;;
      mret (Reserving request pending (Scoped inserted))
  | Scoped scope =>
      share ← lift (child_request request);
      receipt ← map_err (λ _, capacity "Agent root rollout budget is exhausted")
        (zoom sy_budget set_controller
          (reserve_child scope BudgetScopeKind.Process ("agent:" ++ uuid_display (aq_agent_id request)) share));
      mret (Reserving request pending (Reserved (br_reservation_id receipt)))
  | Reserved reservation =>
      s ← get_state;
      modify (set_state (drop_pending (disarm pending)
        (with_agents (insert (aq_agent_id request) reservation) (sy_state s)))) ;;
      modify (set_lock None) ;;
      mret (Leased request {| ls_root := root; ls_storage := aq_storage request; ls_reservation := Some reservation;
                              ls_agent_id := aq_agent_id request; ls_phase := Queued |})
  end.

(** Leaving [reserve] with an error, a panic, at the timeout or by cancellation:
    the locals are dropped, the guard of the lock among them. *)
Definition abandon (h : N) (pending : PendingAdmission) (point : Point) (s : System) : System :=
  with_tasks (delete h)
    (set_lock (if holds_lock point then None else sy_lock s)
      (set_notified (sy_notified s + 1) (set_state (drop_pending pending (sy_state s)) s))).

Definition poll (h : N) : Y unit := λ s n,
  match sy_tasks s !! h with
  | Some (Reserving request pending point) =>
      if negb (holds_lock point) && bool_decide (is_Some (sy_lock s)) then (Ok tt, s, n)
      else match resume h request pending point s n with
           | (Ok task, s', n') => (Ok tt, with_tasks (insert h task) s', n')
           | (Err e, s', n') => (Err e, abandon h pending point s', n')
           | (Panic, s', n') => (Panic, abandon h pending point s', n')
           end
  | _ => (Ok tt, s, n)
  end.

(** The timeout is heard in the queue and before the reservation lock. *)
Definition time_out (h : N) : Y unit := λ s n,
  match sy_tasks s !! h with
  | Some (Reserving request pending point) =>
      if holds_lock point then (Ok tt, s, n)
      else (Err (timeout_error "Agent admission wait timed out"), abandon h pending point s, n)
  | _ => (Ok tt, s, n)
  end.

(** The points at which [reserve] waits: for its turn, for the reservation lock,
    and for the lock of the budget controller in [create_root] and in
    [reserve_child].  The caller may drop the future at any of them. *)
Definition waits (p : Point) : bool :=
  match p with AtQueue | AtLock | Locked None | Scoped _ => true | _ => false end.

Definition cancel (h : N) : Y unit := λ s n,
  match sy_tasks s !! h with
  | Some (Reserving request pending point) => (Ok tt, if waits point then abandon h pending point s else s, n)
  | _ => (Ok tt, s, n)
  end.

(** What a method of a lease sees of the system, and what it leaves. *)
Definition view (s : System) (lease : BoundedAdmissionLease) : LeaseView :=
  {| lv_state := sy_state s; lv_budget := sy_budget s; lv_notified := sy_notified s; lv_lease := lease |}.

Definition leave_view (v : LeaseView) (s : System) : System :=
  set_notified (lv_notified v) (set_controller (lv_budget v) (set_state (lv_state v) s)).

(** A method of the lease [h]; [closes] if its success is followed by [Close]. *)
Definition lease_call (h : N) (closes : bool) (m : L unit) : Y unit := λ s n,
  match sy_tasks s !! h with
  | Some (Leased request lease) =>
      match m (view s lease) n with
      | (r, v, n') =>
          let task := match r with
                      | Ok _ => if closes then Closing request (lv_lease v) else Leased request (lv_lease v)
                      | _ => Leased request (lv_lease v)
                      end in
          (r, with_tasks (insert h task) (leave_view v s), n')
      end
  | _ => (Ok tt, s, n)
  end.

Definition is_closed (h : N) (s : System) : bool :=
  match sy_tasks s !! h with
  | Some (Leased _ lease) => bool_decide (ls_phase lease = Closed)
  | _ => false
  end.

(** [revoke] dropped while it waits for the lock of the budget controller: the
    reservation is taken and nothing else is done.  [settle] and
    [transfer_remaining_to] have changed nothing when they wait there. *)
Definition drop_revoke : L unit := modify (on_lease take_reservation).

Definition close (h : N) : Y unit := λ s n,
  match sy_tasks s !! h with
  | Some (Closing request lease) =>
      match close_lease (view s lease) n with
      | (r, v, n') => (r, with_tasks (insert h (Leased request (lv_lease v))) (leave_view v s), n')
      end
  | _ => (Ok tt, s, n)
  end.

Definition drop_task (h : N) (runtime : bool) : Y unit := λ s n,
  match sy_tasks s !! h with
  | Some (Leased request lease) =>
      let '(v, spawned) := drop_lease runtime (view s lease) in
      (Ok tt, with_tasks (delete h) (with_spawned (λ l, l ++ spawned) (leave_view v s)), n)
  | _ => (Ok tt, s, n)
  end.

(** Another user of the controller, and the task a dropped lease has spawned. *)
Definition other (call : BudgetCall) : Y unit := λ s n,
  match run_call call (sy_budget s) n with (_, b, n') => (Ok tt, set_controller b s, n') end.

Definition revoke_spawned : Y unit := λ s n,
  match sy_spawned s with
  | [] => (Ok tt, s, n)
  | reservation :: rest => other (RevokeReservation reservation) (with_spawned (λ _, rest) s) n
  end.

Inductive Action :=
| Begin (h : N) (request : AgentAdmissionRequest)
| Poll (h : N)
| GiveUp (h : N)
| Cancel (h : N)
| MarkRunning (h : N)
| Settle (h : N) (usage : AttemptUsage)
| Revoke (h : N)
| CancelRevoke (h : N)
| Transfer (h : N) (parent : AgentId) (usage : AttemptUsage)
| Close (h : N)
| DropLease (h : N) (runtime : bool)
| RevokeSpawned
| Other (call : BudgetCall).

Definition act (a : Action) : Y unit := λ s n,
  match a with
  | Begin h request =>
      if bool_decide (is_Some (sy_tasks s !! h)) then (Ok tt, s, n) else begin_reserve h request s n
  | Poll h => poll h s n
  | GiveUp h => time_out h s n
  | Cancel h => cancel h s n
  | MarkRunning h => lease_call h false mark_running s n
  | Settle h usage => lease_call h true (settle_budget usage) s n
  | Revoke h => if is_closed h s then (Ok tt, s, n) else lease_call h true revoke_budget s n
  | CancelRevoke h => if is_closed h s then (Ok tt, s, n) else lease_call h false drop_revoke s n
  | Transfer h parent usage => lease_call h true (void (transfer_budget parent usage)) s n
  | Close h => close h s n
  | DropLease h runtime => drop_task h runtime s n
  | RevokeSpawned => revoke_spawned s n
  | Other call => other call s n
  end.

Fixpoint run (actions : list Action) (s : System) (n : N) : System * N :=
  match actions with
  | [] => (s, n)
  | a :: rest => match act a s n with (_, s', n') => run rest s' n' end
  end.

End System.

(** ** Metrics *)

Record AgentAdmissionMetrics := {
  am_roots : N;
  am_resident_agents : N;
  am_queued_agents : N;
  am_running_agents : N;
  am_resident_idle_agents : N;
  am_reserved_storage_bytes : N;
  am_reserved_storage_items : N;
}.

Definition metrics (s : AdmissionState) : AgentAdmissionMetrics :=
  {| am_roots := N.of_nat (size (roots s));
     am_resident_agents := msum (λ _ root, resident root) (roots s);
     am_queued_agents := msum (λ _ root, queued root) (roots s);
     am_running_agents := msum (λ _ root, running root) (roots s);
     am_resident_idle_agents := msum (λ _ root, saturating_sub (resident root) (queued root + running root)) (roots s);
     am_reserved_storage_bytes := msum (λ _ root, storage_bytes root) (roots s);
     am_reserved_storage_items := msum (λ _ root, storage_items root) (roots s) |}.

Definition available_permits (c : AgentAdmissionConfig) (s : AdmissionState) : N :=
  saturating_sub (max_running_agents c) (running_slots s).

(** ** What the tasks account for *)

Definition task_root (t : Task) : AgentId :=
  match t with
  | Reserving request _ _ => request_root request
  | Leased _ lease | Closing _ lease => ls_root lease
  end.

Definition task_storage (t : Task) : AgentStorageRequest :=
  match t with
  | Reserving request _ _ => aq_storage request
  | Leased _ lease | Closing _ lease => ls_storage lease
  end.

(** Is the task in its tree, in the queue of it, running, in a slot? *)
Definition is_live (t : Task) : N :=
  match t with
  | Reserving _ _ _ => 1
  | Leased _ lease | Closing _ lease => if decide (ls_phase lease = Closed) then 0 else 1
  end.

Definition is_queued (t : Task) : N :=
  match t with
  | Reserving _ _ _ => 1
  | Leased _ lease | Closing _ lease => if decide (ls_phase lease = Queued) then 1 else 0
  end.

Definition is_running (t : Task) : N :=
  match t with
  | Reserving _ _ _ => 0
  | Leased _ lease | Closing _ lease => if decide (ls_phase lease = Running) then 1 else 0
  end.

Definition in_slot (t : Task) : N :=
  match t with
  | Reserving _ _ AtQueue => 0
  | _ => is_live t
  end.

Definition task_bytes (t : Task) : N := is_live t * as_bytes (task_storage t).

Definition task_items (t : Task) : N := is_live t * as_items (task_storage t).

(** The sum of [f] over the tasks of a root. *)
Definition tally (f : Task → N) (root : AgentId) (tasks : gmap N Task) : N :=
  msum (λ _ t, if decide (task_root t = root) then f t else 0) tasks.

Definition total (f : Task → N) (tasks : gmap N Task) : N := msum (λ _ t, f t) tasks.

(** The identifier under which a task waits, the reservation it holds, and
    whether it has the reservation lock. *)
Definition waiting (o : option Task) : option N :=
  match o with Some (Reserving _ pending AtQueue) => Some (pd_waiter_id pending) | _ => None end.

Definition held_by (o : option Task) : option BudgetReservationId :=
  match o with
  | Some (Reserving _ _ (Reserved r)) => Some r
  | Some (Leased _ lease) | Some (Closing _ lease) => ls_reservation lease
  | _ => None
  end.

Definition has_lock (o : option Task) : bool :=
  match o with Some (Reserving _ _ point) => holds_lock point | _ => false end.

(** The limits of a root. *)
Record within (c : AgentAdmissionConfig) (r : RootAdmissionState) : Prop := {
  wi_resident : resident r ≤ max_agents_per_root c;
  wi_queued : queued r ≤ max_queued_per_root c;
  wi_bytes : storage_bytes r ≤ max_storage_bytes c;
  wi_items : storage_items r ≤ max_storage_items c;
}.

(** The counters of a root are those of its tasks. *)
Record counted (tasks : gmap N Task) (id : AgentId) (r : RootAdmissionState) : Prop := {
  ct_resident : resident r = tally is_live id tasks;
  ct_queued : queued r = tally is_queued id tasks;
  ct_running : running r = tally is_running id tasks;
  ct_bytes : storage_bytes r = tally task_bytes id tasks;
  ct_items : storage_items r = tally task_items id tasks;
}.

(** A reservation in progress has passed the policy, and its guard is in the
    phase of its point. *)
Definition task_ok (c : AgentAdmissionConfig) (t : Task) : Prop :=
  match t with
  | Reserving request p point =>
      validate_policy c request = Ok tt ∧ pd_root p = request_root request ∧ pd_storage p = aq_storage request
      ∧ pd_phase p = (match point with AtQueue => PendingWaiting | _ => PendingAdmitted end)
  | Leased _ _ => True
  | Closing _ lease => ls_phase lease ≠ Closed
  end.

(** The books after [m] actions. *)
Record accounts (c : AgentAdmissionConfig) (m : N) (a : AdmissionState) (tasks : gmap N Task) : Prop := {
  ac_counted : ∀ id r, roots a !! id = Some r → counted tasks id r ∧ within c r;
  ac_known : ∀ h t, tasks !! h = Some t → is_Some (roots a !! task_root t) ∧ task_ok c t;
  ac_slots : running_slots a = total in_slot tasks ∧ running_slots a ≤ max_running_agents c;
  ac_sorted : StronglySorted N.lt (waiters a);
  ac_waiters : ∀ w, w ∈ waiters a ↔ ∃ h, waiting (tasks !! h) = Some w;
  ac_unique : ∀ h h' w, waiting (tasks !! h) = Some w → waiting (tasks !! h') = Some w → h = h';
  ac_next : ∀ w, w ∈ waiters a → w < next_waiter a;
  ac_next_le : next_waiter a ≤ m;
}.

(** The scope of a root. *)
Definition scope_of (a : AdmissionState) (root : AgentId) : option BudgetScopeId := roots a !! root ≫= budget_scope.

Definition root_scope (c : AgentAdmissionConfig) (b : BudgetState) (s : BudgetScopeId) : Prop :=
  ∃ sc, scopes b !! s = Some sc ∧ limit_of sc = root_request c ∧ sc_reservation_id sc = None.

(** [r] was reserved in [s] for what [request] asked. *)
Definition allotted (b : BudgetState) (s : BudgetScopeId) (r : BudgetReservationId) (request : AgentAdmissionRequest)
    : Prop :=
  ∃ k sc, scopes b !! k = Some sc ∧ sc_reservation_id sc = Some r ∧ parent_of sc = Some s
          ∧ child_request request = Ok (limit_of sc).

Definition funded_task (c : AgentAdmissionConfig) (a : AdmissionState) (b : BudgetState) (t : Task) : Prop :=
  match t with
  | Reserving request _ point =>
      let root := request_root request in
      match point with
      | AtQueue | AtLock => True
      | Locked o => scope_of a root = o
      | Created s => scope_of a root = None ∧ root_scope c b s
      | Scoped s => scope_of a root = Some s
      | Reserved r => ∃ s, scope_of a root = Some s ∧ allotted b s r request
      end
  | Leased request lease | Closing request lease =>
      ls_root lease = request_root request
      ∧ ∀ r, ls_reservation lease = Some r → ∃ s, scope_of a (ls_root lease) = Some s ∧ allotted b s r request
  end.

(** The agents are paid from the scopes of their roots. *)
Record funded `{Env} (c : AgentAdmissionConfig) (lock : option N) (a : AdmissionState) (tasks : gmap N Task)
    (b : BudgetState) (n : N) : Prop := {
  fd_inv : inv no_fate false b n;
  fd_scope : ∀ id s, scope_of a id = Some s → root_scope c b s;
  fd_task : ∀ h t, tasks !! h = Some t → funded_task c a b t;
  fd_lock : ∀ h, lock = Some h ↔ has_lock (tasks !! h) = true;
  fd_held : ∀ h h' r, held_by (tasks !! h) = Some r → held_by (tasks !! h') = Some r → h = h';
}.

(** What a live reservation of a task takes from the budget of its root. *)
Definition task_request (t : Task) : AgentAdmissionRequest :=
  match t with Reserving request _ _ | Leased request _ | Closing request _ => request end.

Definition share (d : Dim) (b : BudgetState) (t : Task) : N :=
  match held_by (Some t), child_request (task_request t) with
  | Some r, Ok request => if decide (is_Some (reservations b !! r)) then amount (req_dim d request) else 0
  | _, _ => 0
  end.

(** ** The books are kept *)

Definition weigh (f : Task → N) (id : AgentId) (o : option Task) : N :=
  match o with Some t => if decide (task_root t = id) then f t else 0 | None => 0 end.

(** The tasks with [h] replaced. *)
Abbreviation change h o := (partial_alter (λ _, o) h) (only parsing).

Lemma msum_change {V} (f : N → V → N) (m : gmap N V) h o :
  msum f (change h o m) + from_option (f h) 0 (m !! h) = msum f m + from_option (f h) 0 o.
Proof.
  destruct (m !! h) as [v|] eqn:Hh, o as [w|]; cbn.
  - by apply msum_update.
  - rewrite (msum_delete f m h v Hh). change (change h None m) with (delete h m). lia.
  - change (change h (Some w) m) with (<[h := w]> m). rewrite msum_insert by done. lia.
  - change (change h None m) with (delete h m). by rewrite delete_id.
Qed.

Lemma tally_change f id tasks h o :
  tally f id (change h o tasks) + weigh f id (tasks !! h) = tally f id tasks + weigh f id o.
Proof. unfold tally. pose proof (msum_change (λ _ t, if decide (task_root t = id) then f t else 0) tasks h o) as Hm.
  by destruct (tasks !! h), o. Qed.

Lemma tally_at f id tasks h : weigh f id (tasks !! h) ≤ tally f id tasks.
Proof.
  unfold tally. destruct (tasks !! h) as [t|] eqn:Hh; cbn; [|lia].
  by apply (msum_elem_le (λ _ t, if decide (task_root t = id) then f t else 0) tasks h t).
Qed.

Record moves (o o' : option Task) (id : AgentId) (r r' : RootAdmissionState) : Prop := {
  mv_resident : resident r' + weigh is_live id o = resident r + weigh is_live id o';
  mv_queued : queued r' + weigh is_queued id o = queued r + weigh is_queued id o';
  mv_running : running r' + weigh is_running id o = running r + weigh is_running id o';
  mv_bytes : storage_bytes r' + weigh task_bytes id o = storage_bytes r + weigh task_bytes id o';
  mv_items : storage_items r' + weigh task_items id o = storage_items r + weigh task_items id o';
}.

Record requeued (o o' : option Task) (a a' : AdmissionState) (m : N) : Prop := {
  rq_sorted : StronglySorted N.lt (waiters a');
  rq_waiters : ∀ w, w ∈ waiters a' ↔ w ∈ waiters a ∧ waiting o ≠ Some w ∨ waiting o' = Some w;
  rq_fresh : ∀ w, waiting o' = Some w → waiting o = Some w ∨ w ∉ waiters a;
  rq_next : ∀ w, w ∈ waiters a' → w < next_waiter a';
  rq_next_le : next_waiter a' ≤ m;
}.

Lemma counted_change tasks id r r' h o :
  counted tasks id r → moves (tasks !! h) o id r r' → counted (change h o tasks) id r'.
Proof.
  intros [H1 H2 H3 H4 H5] [M1 M2 M3 M4 M5].
  pose proof (tally_change is_live id tasks h o). pose proof (tally_change is_queued id tasks h o).
  pose proof (tally_change is_running id tasks h o). pose proof (tally_change task_bytes id tasks h o).
  pose proof (tally_change task_items id tasks h o). split; lia.
Qed.

Lemma tally_unknown f id tasks :
  (∀ h t, tasks !! h = Some t → task_root t ≠ id) → tally f id tasks = 0.
Proof. intros Hn. apply msum_zero. intros h t Ht. rewrite decide_False; [done|]. by eapply Hn. Qed.

Lemma counted_default c m a tasks id :
  accounts c m a tasks → counted tasks id (default default_root (roots a !! id)).
Proof.
  intros Ha. destruct (roots a !! id) as [r|] eqn:Hr; cbn; [by apply (ac_counted _ _ _ _ Ha)|].
  assert (∀ h t, tasks !! h = Some t → task_root t ≠ id) as Hn.
  { intros h t Ht <-. destruct (ac_known _ _ _ _ Ha _ _ Ht) as [[r Hr'] _]. congruence. }
  split; cbn; by rewrite tally_unknown.
Qed.

Lemma accounts_change c m m' a a' tasks h o :
  accounts c m a tasks →
  (∀ id r', roots a' !! id = Some r' → moves (tasks !! h) o id (default default_root (roots a !! id)) r' ∧ within c r') →
  (∀ id, is_Some (roots a !! id) → is_Some (roots a' !! id)) →
  (∀ t, o = Some t → is_Some (roots a' !! task_root t) ∧ task_ok c t) →
  running_slots a' + from_option in_slot 0 (tasks !! h) = running_slots a + from_option in_slot 0 o →
  running_slots a' ≤ max_running_agents c →
  requeued (tasks !! h) o a a' m' →
  accounts c m' a' (change h o tasks).
Proof.
  intros Ha Hroots Hgrow Hnew Hslots Hle [Q1 Q2 Q3 Q4 Q5].
  assert (∀ h' w, waiting (change h o tasks !! h') = Some w ↔
            h' = h ∧ waiting o = Some w ∨ h' ≠ h ∧ waiting (tasks !! h') = Some w) as Hw.
  { intros h' w. destruct (decide (h' = h)) as [->|Hne];
      [rewrite lookup_partial_alter_eq|rewrite lookup_partial_alter_ne by done]; naive_solver. }
  split; [..|done|done].
  - intros id r' Hr'. destruct (Hroots _ _ Hr') as [Hm Hwi]. split; [|done].
    eapply counted_change; [|done]. by eapply counted_default.
  - intros h' t. destruct (decide (h' = h)) as [->|Hne];
      [rewrite lookup_partial_alter_eq; intros ->; by apply Hnew|rewrite lookup_partial_alter_ne by done].
    intros Ht. destruct (ac_known _ _ _ _ Ha _ _ Ht). auto.
  - split; [|done]. pose proof (msum_change (λ _ t, in_slot t) tasks h o) as Hs. fold (total in_slot tasks) in Hs.
    pose proof (proj1 (ac_slots _ _ _ _ Ha)). unfold total in *. cbn in Hs. destruct (tasks !! h), o; cbn in *; lia.
  - done.
  - intros w. rewrite Q2, (ac_waiters _ _ _ _ Ha). split.
    + intros [[[h' Hh'] Hne]|Ho]; [|exists h; apply Hw; by left]. exists h'. apply Hw. right. split; [|done].
      intros ->. done.
    + intros [h' [[-> Ho]|[Hne Hh']]%Hw]; [by right|left]. split; [by exists h'|].
      intros Ho. by apply Hne, (ac_unique _ _ _ _ Ha _ _ w).
  - intros h1 h2 w [[-> H1]|[N1 H1]]%Hw [[-> H2]|[N2 H2]]%Hw; [done|exfalso..|by eapply ac_unique].
    + destruct (Q3 _ H1) as [Ho|Hn]; [by apply N2, (ac_unique _ _ _ _ Ha _ _ w)|].
      apply Hn, (ac_waiters _ _ _ _ Ha). eauto.
    + destruct (Q3 _ H2) as [Ho|Hn]; [by apply N1, (ac_unique _ _ _ _ Ha _ _ w)|].
      apply Hn, (ac_waiters _ _ _ _ Ha). eauto.
Qed.

(** *** The queue *)

Lemma requeued_same c m m' a a' tasks h o :
  accounts c m a tasks → waiters a' = waiters a → next_waiter a' = next_waiter a → m ≤ m' →
  waiting o = waiting (tasks !! h) → requeued (tasks !! h) o a a' m'.
Proof.
  intros Ha Hw Hn Hm Ho. split; rewrite ?Hw, ?Hn, ?Ho; [apply Ha|..|apply Ha|pose proof (ac_next_le _ _ _ _ Ha); lia].
  - intros w. destruct (decide (waiting (tasks !! h) = Some w)) as [Heq|Hne]; [|naive_solver].
    split; [by right|]. intros _. apply (ac_waiters _ _ _ _ Ha). eauto.
  - by left.
Qed.

Lemma requeued_leave c m m' a a' tasks h o w :
  accounts c m a tasks → waiting (tasks !! h) = Some w → waiting o = None →
  waiters a' = filter (λ x, x ≠ w) (waiters a) → next_waiter a' = next_waiter a → m ≤ m' →
  requeued (tasks !! h) o a a' m'.
Proof.
  intros Ha Ht Ho Hw Hn Hm. split; rewrite ?Hw, ?Hn, ?Ho, ?Ht.
  - pose proof (ac_sorted _ _ _ _ Ha) as Hs. clear -Hs. induction Hs as [|x l Hl IH Hx]; [constructor|].
    rewrite filter_cons. case_decide; [|done]. constructor; [done|]. rewrite Forall_forall in *.
    intros y [_ Hy]%list_elem_of_filter. auto.
  - intros x. rewrite list_elem_of_filter. naive_solver.
  - done.
  - intros x [_ Hx]%list_elem_of_filter. by apply (ac_next _ _ _ _ Ha).
  - pose proof (ac_next_le _ _ _ _ Ha). lia.
Qed.

Lemma requeued_join c m a a' tasks h o :
  accounts c m a tasks → tasks !! h = None → waiting o = Some (next_waiter a) →
  waiters a' = waiters a ++ [next_waiter a] → next_waiter a' = next_waiter a + 1 →
  requeued (tasks !! h) o a a' (m + 1).
Proof.
  intros Ha Ht Ho Hw Hn. pose proof (ac_next _ _ _ _ Ha) as Hnext. split; rewrite ?Hw, ?Hn, ?Ho, ?Ht; cbn.
  - pose proof (ac_sorted _ _ _ _ Ha) as Hs. clear -Hs Hnext. induction Hs as [|x l Hl IH Hx]; cbn.
    { by repeat constructor. }
    constructor; [apply IH; intros w Hw; apply Hnext; set_solver|]. apply Forall_app. split; [done|].
    apply Forall_singleton, Hnext. set_solver.
  - intros w. rewrite elem_of_app, list_elem_of_singleton. naive_solver.
  - intros w [= <-]. right. intros Hin. specialize (Hnext _ Hin). lia.
  - intros w [Hin| ->%list_elem_of_singleton]%elem_of_app; [specialize (Hnext _ Hin)|]; lia.
  - pose proof (ac_next_le _ _ _ _ Ha). lia.
Qed.

(** *** The roots *)

Definition at_root (root : AgentId) (o : option Task) : Prop := ∀ t, o = Some t → task_root t = root.

Lemma weigh_at f root t : task_root t = root → weigh f root (Some t) = f t.
Proof. intros <-. cbn. by rewrite decide_True. Qed.

Lemma weigh_off f root id o : at_root root o → id ≠ root → weigh f id o = 0.
Proof. intros Ho Hne. destruct o as [t|]; [|done]. cbn. rewrite decide_False; [done|]. specialize (Ho _ eq_refl). congruence. Qed.

Lemma moves_off root o o' id r : at_root root o → at_root root o' → id ≠ root → moves o o' id r r.
Proof. intros Ho Ho' Hne. split; by rewrite !(weigh_off _ root). Qed.

(** The root of a task is altered. *)
Lemma roots_alter c m a a' tasks h o root f :
  accounts c m a tasks → roots a' = alter f root (roots a) → at_root root (tasks !! h) → at_root root o →
  (∀ r, roots a !! root = Some r → counted tasks root r → within c r → moves (tasks !! h) o root r (f r) ∧ within c (f r)) →
  ∀ id r', roots a' !! id = Some r' → moves (tasks !! h) o id (default default_root (roots a !! id)) r' ∧ within c r'.
Proof.
  intros Ha Hr Hh Ho Hf id r'. rewrite Hr. destruct (decide (id = root)) as [->|Hne].
  - rewrite lookup_alter_eq. destruct (roots a !! root) as [r|] eqn:Er; [|done]. intros [= <-]. cbn.
    destruct (ac_counted _ _ _ _ Ha _ _ Er). by apply Hf.
  - rewrite lookup_alter_ne by done. intros Hr'. rewrite Hr'. cbn. split; [by apply (moves_off root)|].
    by apply (ac_counted _ _ _ _ Ha id).
Qed.

Lemma alter_known (f : RootAdmissionState → RootAdmissionState) root (m : gmap AgentId RootAdmissionState) id :
  is_Some (m !! id) → is_Some (alter f root m !! id).
Proof. by rewrite lookup_alter_is_Some. Qed.

(** A task replaced by one that weighs the same. *)
Definition same_weight (t t' : Task) : Prop :=
  task_root t' = task_root t ∧ task_storage t' = task_storage t ∧ is_live t' = is_live t
  ∧ is_queued t' = is_queued t ∧ is_running t' = is_running t.

Lemma moves_same t t' id r : same_weight t t' → moves (Some t) (Some t') id r r.
Proof. intros (Hr & Hs & H1 & H2 & H3). split; cbn; unfold task_bytes, task_items; by rewrite Hr, ?Hs, ?H1, ?H2, ?H3. Qed.

Lemma accounts_same c m m' a a' tasks h t t' :
  accounts c m a tasks → tasks !! h = Some t → m ≤ m' → same_weight t t' → in_slot t' = in_slot t → task_ok c t' →
  waiting (Some t') = waiting (Some t) →
  (∀ id r', roots a' !! id = Some r' → ∃ r, roots a !! id = Some r ∧ r' = set_scope (budget_scope r') r) →
  (∀ id, is_Some (roots a !! id) → is_Some (roots a' !! id)) →
  running_slots a' = running_slots a → waiters a' = waiters a → next_waiter a' = next_waiter a →
  accounts c m' a' (<[h := t']> tasks).
Proof.
  intros Ha Ht Hm Hsame Hslot Hok Hwait Hroots Hgrow Hs Hw Hn.
  apply (accounts_change c m m' a a' tasks h (Some t')); rewrite ?Ht; [done|..].
  - intros id r' (r & Hr & ->)%Hroots. rewrite Hr. cbn.
    destruct (ac_counted _ _ _ _ Ha _ _ Hr) as [_ [W1 W2 W3 W4]]. split; [|by split].
    destruct (moves_same t t' id r Hsame). by split.
  - done.
  - intros t1 [= <-]. split; [|done]. rewrite (proj1 Hsame). apply Hgrow, (ac_known _ _ _ _ Ha _ _ Ht).
  - cbn. rewrite Hs, Hslot. done.
  - rewrite Hs. apply Ha.
  - rewrite <-Ht. eapply requeued_same; [done..|]. by rewrite Ht.
Qed.

Definition weightless (id : AgentId) (o : option Task) : Prop :=
  weigh is_live id o = 0 ∧ weigh is_queued id o = 0 ∧ weigh is_running id o = 0.

Lemma weightless_storage id o : weightless id o → weigh task_bytes id o = 0 ∧ weigh task_items id o = 0.
Proof.
  intros (H1 & _). destruct o as [t|]; [|done]. cbn in *. unfold task_bytes, task_items.
  destruct (decide _); [rewrite H1|]; lia.
Qed.

(** A live task leaves its root. *)
Lemma leave_moves c tasks h t o r q ru :
  tasks !! h = Some t → counted tasks (task_root t) r → within c r →
  is_live t = 1 → is_queued t = q → is_running t = ru → weightless (task_root t) o →
  moves (Some t) o (task_root t) r (leave (task_storage t) q ru r) ∧ within c (leave (task_storage t) q ru r).
Proof.
  intros Ht [C1 C2 C3 C4 C5] [W1 W2 W3 W4] Hl Hq Hru Hgone.
  destruct (weightless_storage _ _ Hgone) as [G4 G5]. destruct Hgone as (G1 & G2 & G3).
  pose proof (tally_at is_live (task_root t) tasks h) as T1. pose proof (tally_at is_queued (task_root t) tasks h) as T2.
  pose proof (tally_at is_running (task_root t) tasks h) as T3. pose proof (tally_at task_bytes (task_root t) tasks h) as T4.
  pose proof (tally_at task_items (task_root t) tasks h) as T5. rewrite Ht in T1, T2, T3, T4, T5.
  rewrite !weigh_at in T1, T2, T3, T4, T5 by done.
  split; split; cbn [leave resident queued running storage_bytes storage_items]; rewrite ?weigh_at by done;
    rewrite ?G1, ?G2, ?G3, ?G4, ?G5; unfold saturating_sub, task_bytes, task_items in *; rewrite ?Hl in *; lia.
Qed.

(** *** The operations *)

Lemma drop_pending_accounts c m m' a tasks h request p point :
  accounts c m a tasks → tasks !! h = Some (Reserving request p point) → m ≤ m' →
  accounts c m' (drop_pending p a) (delete h tasks).
Proof.
  intros Ha Ht Hm. destruct (ac_known _ _ _ _ Ha _ _ Ht) as [_ (_ & Hroot & Hsto & Hph)].
  pose proof (proj1 (ac_slots _ _ _ _ Ha)) as Hslots. pose proof (proj2 (ac_slots _ _ _ _ Ha)) as Hle.
  assert (roots (drop_pending p a) = alter (leave (aq_storage request) 1 0) (request_root request) (roots a)) as Hr.
  { unfold drop_pending. rewrite Hph, Hroot, Hsto. by destruct point. }
  apply (accounts_change c m m' a _ tasks h None); rewrite ?Ht; [done|..].
  - rewrite <-Ht. eapply roots_alter; [done|exact Hr|..].
    + intros t. rewrite Ht. by intros [= <-].
    + done.
    + intros r Hr' Hc Hw. rewrite Ht. by apply (leave_moves c tasks h (Reserving request p point)).
  - intros id. rewrite Hr. apply alter_known.
  - done.
  - pose proof (msum_elem_le (λ _ t, in_slot t) tasks h _ Ht) as Hin. unfold total in Hslots.
    unfold drop_pending. rewrite Hph. destruct point; cbn in *; unfold saturating_sub; lia.
  - unfold drop_pending. rewrite Hph. destruct point; cbn; unfold saturating_sub; lia.
  - rewrite <-Ht. unfold drop_pending. rewrite Hph. destruct point.
    1: { eapply requeued_leave; [done|by rewrite Ht|done|done|done|done]. }
    all: eapply requeued_same; [done..|by rewrite Ht].
Qed.

Lemma try_admit_accounts c m m' a tasks h request p :
  accounts c m a tasks → tasks !! h = Some (Reserving request p AtQueue) → m ≤ m' →
  match try_admit c (pd_waiter_id p) a with
  | (true, a') => accounts c m' a' (<[h := Reserving request (mark_admitted p) AtLock]> tasks)
  | (false, a') => accounts c m' a' tasks
  end.
Proof.
  intros Ha Ht Hm. destruct (ac_known _ _ _ _ Ha _ _ Ht) as [Hk (Hv & Hroot & Hsto & Hph)].
  unfold try_admit. destruct (bool_decide _ && _) eqn:Ead.
  2: { destruct Ha. split; try done. lia. }
  apply andb_true_iff in Ead as [Hhead%bool_decide_eq_true Hfree%N.ltb_lt].
  apply (accounts_change c m m' a _ tasks h (Some (Reserving request (mark_admitted p) AtLock))); rewrite ?Ht; [done|..].
  - intros id r' Hr'. cbn in Hr'. rewrite Hr'. cbn. split; [by apply moves_same|]. by apply (ac_counted _ _ _ _ Ha id).
  - done.
  - intros t [= <-]. done.
  - cbn. lia.
  - cbn. lia.
  - rewrite <-Ht. apply (requeued_leave c m m' a _ tasks h _ (pd_waiter_id p)); [done|by rewrite Ht|done| |done|done].
    cbn. pose proof (ac_sorted _ _ _ _ Ha) as Hs. destruct (waiters a) as [|w l]; [done|]. injection Hhead as ->.
    rewrite filter_cons. rewrite decide_False by (by intros []). apply StronglySorted_inv in Hs as [_ Hs].
    cbn. symmetry. clear -Hs. induction l as [|x l IH]; [done|]. apply Forall_cons in Hs as [Hx Hs].
    rewrite filter_cons, decide_True by lia. f_equal. by apply IH.
Qed.

Lemma release_accounts c m m' a tasks h request lease :
  accounts c m a tasks → ls_phase lease ≠ Closed → m ≤ m' →
  tasks !! h = Some (Leased request lease) ∨ tasks !! h = Some (Closing request lease) → ∀ o,
  at_root (ls_root lease) o → weightless (ls_root lease) o → waiting o = None → from_option in_slot 0 o = 0 →
  (∀ t, o = Some t → task_ok c t) →
  accounts c m' (release_topology (ls_root lease) (ls_storage lease) (ls_phase lease) a) (change h o tasks).
Proof.
  intros Ha Hph Hm Hin o Ho Hgone Hwait Hslot Hok.
  assert (∃ t, tasks !! h = Some t ∧ (t = Leased request lease ∨ t = Closing request lease)) as (t & Ht & Et).
  { destruct Hin; eauto. }
  pose proof (proj1 (ac_slots _ _ _ _ Ha)) as Hslots. pose proof (proj2 (ac_slots _ _ _ _ Ha)) as Hle.
  assert (task_root t = ls_root lease ∧ task_storage t = ls_storage lease ∧ is_live t = 1 ∧ waiting (Some t) = None)
    as (Hr & Hs & Hl & Hw) by (destruct Et as [-> | ->]; cbn; by rewrite decide_False).
  apply (accounts_change c m m' a _ tasks h o); [done|..].
  - eapply roots_alter; [done|done|..].
    + intros t1. rewrite Ht. intros [= <-]. done.
    + done.
    + intros r _ Hc Hwi. rewrite Ht. rewrite <-Hr, <-Hs in *.
      destruct (ls_phase lease) eqn:Ep; [| |done];
        (apply (leave_moves c tasks h t); [done..| | |done]); destruct Et as [-> | ->]; cbn; by rewrite Ep.
  - intros id. apply alter_known.
  - intros t1 Ht1. split; [|by apply Hok]. cbn. apply alter_known. rewrite (Ho _ Ht1), <-Hr.
    by apply (ac_known _ _ _ _ Ha h).
  - pose proof (msum_elem_le (λ _ t, in_slot t) tasks h _ Ht) as Hin'. unfold total in Hslots. rewrite Ht, Hslot.
    assert (in_slot t = 1) as Hi by (destruct Et as [-> | ->]; done). cbn in *. rewrite Hi in *.
    unfold saturating_sub. lia.
  - cbn. unfold saturating_sub. lia.
  - eapply requeued_same; [done..|]. by rewrite Ht, Hw, Hwait.
Qed.

Lemma enqueue_accounts c m a tasks h request n :
  accounts c m a tasks → tasks !! h = None → m < u64_max → validate_policy c request = Ok tt →
  wp (enqueue c request) (λ r a' _,
    match r with
    | Ok w => accounts c (m + 1) a'
        (<[h := Reserving request (new_pending w (request_root request) (aq_storage request)) AtQueue]> tasks)
    | Err _ => accounts c (m + 1) a' tasks
    | Panic => False
    end ∧ ∀ id, scope_of a' id = scope_of a id) a n.
Proof.
  intros Ha Ht Hm Hv. unfold enqueue. fold (request_root request). set (root := request_root request).
  apply wp_bind. wp_step. cbv beta iota. apply wp_bind. wp_step. cbv beta iota. cbn [with_roots roots].
  rewrite lookup_insert_eq. cbv zeta. cbn [default from_option id].
  set (r := default default_root (roots a !! root)). set (a1 := with_roots _ a).
  pose proof (counted_default c m a tasks root Ha) as Hc. fold r in Hc.
  assert (within c r) as Hwi.
  { subst r. destruct (roots a !! root) as [r|] eqn:Er; cbn; [by eapply ac_counted|]. split; cbn; lia. }
  assert (∀ id o, scope_of (with_roots (λ m1, <[root := set_scope (budget_scope r) o]> m1) a1) id = scope_of a id) as Hscope.
  { intros id o. unfold scope_of, a1, r. cbn. destruct (decide (id = root)) as [->|Hne].
    - rewrite lookup_insert_eq. cbn. by destruct (roots a !! root).
    - by rewrite !lookup_insert_ne by done. }
  assert (∀ id, scope_of a1 id = scope_of a id) as Hscope1.
  { intros id. rewrite <-(Hscope id r). unfold scope_of. subst a1 r. cbn.
    destruct (decide (id = root)) as [->|Hne]; [rewrite !lookup_insert_eq|rewrite !lookup_insert_ne by done; done].
    cbn. done. }
  assert (accounts c (m + 1) a1 tasks) as Herr.
  { replace tasks with (delete h tasks) by by apply delete_id.
    apply (accounts_change c m (m + 1) a a1 tasks h None); rewrite ?Ht; try done; [|..].
    - intros id r'. change (roots a1) with (<[root := r]> (roots a)).
      intros [[<- <-]|[Hne Hr']]%lookup_insert_Some; [split; [by split|done]|]. rewrite Hr'. cbn. split; [by split|]. by apply (ac_counted _ _ _ _ Ha id).
    - intros id Hid. change (roots a1) with (<[root := r]> (roots a)).
      rewrite lookup_insert_is_Some. destruct (decide (root = id)); auto.
    - apply (ac_slots _ _ _ _ Ha).
    - rewrite <-Ht. eapply requeued_same; [done|done|done|lia|by rewrite Ht]. }
  assert (∀ used wanted limit, (match checked_add used wanted with Some value => limit <? value | None => true end) = false →
            used + wanted ≤ limit) as Hover.
  { intros used wanted limit. unfold checked_add. destruct (_ <=? _); [|done]. rewrite N.ltb_ge. done. }
  destruct (max_agents_per_root c <=? resident r) eqn:E1; [wp_step; by split|].
  destruct (max_queued_per_root c <=? queued r) eqn:E2; [wp_step; by split|].
  destruct (_ || _) eqn:E3; [wp_step; by split|]. apply orb_false_iff in E3 as [E3%Hover E4%Hover].
  apply N.leb_gt in E1, E2. apply wp_bind. wp_step. cbv beta iota. wp_step. cbn [next_waiter with_roots].
  split; [|intros id; apply (Hscope id (Build_RootAdmissionState None _ _ _ _ _ _))].
  eapply (accounts_change c m (m + 1) a _ tasks h (Some _)); rewrite ?Ht; [done|..].
  - cbn. rewrite insert_insert_eq. intros id r' [[<- <-]|[Hne Hr']]%lookup_insert_Some.
    + fold r. split; [split; cbn; rewrite decide_True by done; unfold task_bytes, task_items; cbn; lia|]. split; cbn; lia.
    + rewrite Hr'. cbn. split; [|by apply (ac_counted _ _ _ _ Ha id)].
      split; cbn; rewrite decide_False by done; lia.
  - intros id Hid. cbn. rewrite insert_insert_eq, lookup_insert_is_Some. destruct (decide (root = id)); auto.
  - intros t [= <-]. cbn. rewrite lookup_insert_is_Some. auto.
  - cbn. lia.
  - apply (ac_slots _ _ _ _ Ha).
  - rewrite <-Ht. pose proof (ac_next_le _ _ _ _ Ha). eapply requeued_join; [done..|]. cbn. unfold saturating_add. lia.
Qed.

Lemma mark_running_accounts c m m' a tasks h request lease r :
  accounts c m a tasks → tasks !! h = Some (Leased request lease) → m ≤ m' → ls_phase lease = Queued →
  roots a !! ls_root lease = Some r →
  accounts c m' (with_roots (insert (ls_root lease)
      {| budget_scope := budget_scope r; resident := resident r;
         queued := saturating_sub (queued r) 1; running := running r + 1;
         storage_bytes := storage_bytes r; storage_items := storage_items r;
         next_ticket := next_ticket r |}) a) (<[h := Leased request (set_phase Running lease)]> tasks).
Proof.
  intros Ha Ht Hm Hph Hr. destruct (ac_counted _ _ _ _ Ha _ _ Hr) as [Hc Hwi].
  apply (accounts_change c m m' a _ tasks h (Some (Leased request (set_phase Running lease)))); rewrite ?Ht; [done|..].
  - intros id r'. cbn [roots with_roots]. intros [[<- <-]|[Hne Hr']]%lookup_insert_Some.
    + rewrite Hr. cbn [default from_option].
      pose proof (tally_at is_queued (ls_root lease) tasks h) as T2. rewrite Ht, weigh_at in T2 by done.
      destruct Hc as [C1 C2 C3 C4 C5], Hwi as [W1 W2 W3 W4]. cbn [is_queued] in T2. rewrite decide_True in T2 by done.
      split; split; cbn [resident queued running storage_bytes storage_items]; rewrite ?weigh_at by done;
        unfold task_bytes, task_items, saturating_sub; cbn; rewrite ?Hph; repeat case_decide; try done; lia.
    + rewrite Hr'. cbn [default from_option]. split; [|by apply (ac_counted _ _ _ _ Ha id)].
      apply (moves_off (ls_root lease)); [by intros ? [= <-]..|done].
  - intros id Hid. cbn. rewrite lookup_insert_is_Some. destruct (decide (ls_root lease = id)); auto.
  - intros t [= <-]. cbn. rewrite lookup_insert_is_Some. auto.
  - cbn. rewrite Hph. repeat case_decide; try done; lia.
  - apply (ac_slots _ _ _ _ Ha).
  - rewrite <-Ht. eapply requeued_same; [done..|]. by rewrite Ht.
Qed.

(** ** The agents are paid from the scopes of their roots *)

Lemma root_scope_grows c b b' s : grows b b' → root_scope c b s → root_scope c b' s.
Proof.
  intros Hg (sc & Hs & Hl & Hr). destruct (Hg _ _ Hs) as (sc' & Hs' & Hv & Hr' & _). exists sc'.
  unfold limit_of in *. rewrite Hv, Hr'. done.
Qed.

Lemma allotted_grows b b' s r request : grows b b' → allotted b s r request → allotted b' s r request.
Proof.
  intros Hg (k & sc & Hk & Hr & Hp & Hc). destruct (Hg _ _ Hk) as (sc' & Hk' & Hv & Hr' & _). exists k, sc'.
  unfold limit_of, parent_of in *. rewrite Hv, Hr'. done.
Qed.

Lemma funded_task_grows c a a' b b' t :
  (∀ id, scope_of a' id = scope_of a id) → grows b b' → funded_task c a b t → funded_task c a' b' t.
Proof.
  intros Hs Hg. destruct t as [request p []|request lease|request lease]; cbn; rewrite ?Hs; try done.
  - intros [? ?]. split; [done|]. by eapply root_scope_grows.
  - intros (s & ? & ?). eauto using allotted_grows.
  - intros [? Hl]. split; [done|]. intros r (s & ? & ?)%Hl. eauto using allotted_grows.
  - intros [? Hl]. split; [done|]. intros r (s & ? & ?)%Hl. eauto using allotted_grows.
Qed.

Lemma child_request_ok c request :
  validate_policy c request = Ok tt → ∃ share, child_request request = Ok share ∧ u64_request share.
Proof.
  unfold validate_policy, child_request. set (budget := sp_budget _). unfold checked_add. cbn.
  destruct (_ <=? u64_max) eqn:Hle; [|done]. cbn. repeat (destruct (_ || _); [done|]).
  destruct (_ <? _); [done|]. destruct (cost_micro (max_cost_usd budget)) as [cost| |] eqn:Hc; [|done..]. intros _. cbn.
  eexists. split; [done|]. intros d x. destruct d; cbn; [intros [= <-]; by apply N.leb_le|]. intros ->.
  unfold cost_micro in Hc. destruct (max_cost_usd budget) as [f|]; [|done]. destruct (_ || _); [done|].
  injection Hc as <-. unfold ceil_as_u64, is_u64. destruct (f64_mul f million) as [[]|[]| |[] m e]; unfold u64_max; lia.
Qed.

Section Funded.
Context `{HEnv : Env} {HOk : EnvOk} (c : AgentAdmissionConfig).

Lemma held_drawn lock a tasks b n h r :
  funded c lock a tasks b n → held_by (tasks !! h) = Some r → drawn n r.
Proof.
  intros Hf Hh.
  assert (∀ s request, allotted b s r request → drawn n r) as Hd.
  { intros s request (k & sc & Hk & Hr & _). eapply lk_res_drawn; [|done|done]. apply (fd_inv _ _ _ _ _ _ Hf). }
  destruct (tasks !! h) as [t|] eqn:Ht; [|done]. pose proof (fd_task _ _ _ _ _ _ Hf _ _ Ht) as Hft.
  destruct t as [request p []|request lease|request lease]; cbn in *; try done; simplify_eq.
  - destruct Hft as (s & _ & Ha). by eapply Hd.
  - destruct (proj2 Hft _ Hh) as (s & _ & Ha). by eapply Hd.
  - destruct (proj2 Hft _ Hh) as (s & _ & Ha). by eapply Hd.
Qed.

Lemma funded_change lock lock' a a' tasks b b' n n' h o :
  funded c lock a tasks b n → inv no_fate false b' n' → grows b b' → (∀ id, scope_of a' id = scope_of a id) →
  (∀ t, o = Some t → funded_task c a' b' t) →
  (lock' = Some h ↔ has_lock o = true) → (∀ h', h' ≠ h → lock' = Some h' ↔ lock = Some h') →
  (∀ r, held_by o = Some r → held_by (tasks !! h) = Some r ∨ ¬ drawn n r) →
  funded c lock' a' (change h o tasks) b' n'.
Proof.
  intros Hf Hi Hg Hs Ho Hl Hl' Hh. split; [done|..].
  - intros id s. rewrite Hs. intros Hid%(fd_scope _ _ _ _ _ _ Hf). by eapply root_scope_grows.
  - intros h' t. destruct (decide (h' = h)) as [->|Hne];
      [rewrite lookup_partial_alter_eq; by apply Ho|rewrite lookup_partial_alter_ne by done].
    intros Ht%(fd_task _ _ _ _ _ _ Hf). by eapply funded_task_grows.
  - intros h'. destruct (decide (h' = h)) as [->|Hne];
      [by rewrite lookup_partial_alter_eq|rewrite lookup_partial_alter_ne by done].
    rewrite Hl' by done. apply (fd_lock _ _ _ _ _ _ Hf).
  - assert (∀ h' r, held_by (change h o tasks !! h') = Some r →
              held_by (tasks !! h') = Some r ∨ h' = h ∧ ¬ drawn n r) as Hcases.
    { intros h' r. destruct (decide (h' = h)) as [->|Hne];
        [rewrite lookup_partial_alter_eq; intros [?|?]%Hh|rewrite lookup_partial_alter_ne by done]; eauto. }
    intros h1 h2 r [H1|[-> N1]]%Hcases [H2|[-> N2]]%Hcases; [|exfalso..|done].
    + by eapply (fd_held _ _ _ _ _ _ Hf).
    + by eapply N2, held_drawn.
    + by eapply N1, held_drawn.
Qed.

(** The budget alone has moved. *)
Lemma funded_budget lock a tasks b b' n n' :
  funded c lock a tasks b n → inv no_fate false b' n' → grows b b' → funded c lock a tasks b' n'.
Proof.
  intros Hf Hi Hg. split; [done|..|apply Hf|apply Hf].
  - intros id s Hid%(fd_scope _ _ _ _ _ _ Hf). by eapply root_scope_grows.
  - intros h' t Ht%(fd_task _ _ _ _ _ _ Hf). by eapply funded_task_grows.
Qed.

(** The task that has created the scope of its root stores it. *)
Lemma funded_created lock a tasks b n h request p s r :
  funded c lock a tasks b n → tasks !! h = Some (Reserving request p (Created s)) →
  roots a !! request_root request = Some r →
  budget_scope r = None
  ∧ funded c lock (with_roots (insert (request_root request) (set_scope (Some s) r)) a)
      (<[h := Reserving request p (Scoped s)]> tasks) b n.
Proof.
  intros Hf Ht Hr. destruct (fd_task _ _ _ _ _ _ Hf _ _ Ht) as [Hnone Hroot].
  assert (budget_scope r = None) as Hb by (unfold scope_of in Hnone; by rewrite Hr in Hnone). split; [done|].
  set (a' := with_roots _ a).
  assert (∀ id, scope_of a' id = if decide (id = request_root request) then Some s else scope_of a id) as Hs.
  { intros id. unfold scope_of, a'. cbn. case_decide; [subst; by rewrite lookup_insert_eq|by rewrite lookup_insert_ne]. }
  assert (lock = Some h) as Hlock by (apply (fd_lock _ _ _ _ _ _ Hf); by rewrite Ht).
  split; [apply Hf|..].
  - intros id s'. rewrite Hs. case_decide; [intros [= <-]; done|apply Hf].
  - intros h' t [[<- <-]|[Hne Ht']]%lookup_insert_Some; cbn; [by rewrite Hs, decide_True|].
    pose proof (fd_task _ _ _ _ _ _ Hf _ _ Ht') as Hft.
    assert (has_lock (Some t) = false) as Hfree.
    { apply not_true_iff_false. intros Hh. apply Hne. rewrite <-Ht' in Hh. apply (fd_lock _ _ _ _ _ _ Hf) in Hh. congruence. }
    assert (∀ id s', scope_of a id = Some s' → scope_of a' id = Some s') as Hkeep.
    { intros id s' Hid. rewrite Hs. case_decide; [|done]. subst. congruence. }
    destruct t as [request' p' []|request' lease|request' lease]; cbn in *; try done; destruct Hft as [? Hl]; (split; [done|]);
      intros x (s' & ? & ?)%Hl; eauto.
  - intros h'. rewrite (fd_lock _ _ _ _ _ _ Hf). destruct (decide (h' = h)) as [->|];
      [rewrite Ht, lookup_insert_eq|rewrite lookup_insert_ne]; done.
  - intros h1 h2 x.
    destruct (decide (h1 = h)) as [->|]; [by rewrite lookup_insert_eq|rewrite lookup_insert_ne by done].
    destruct (decide (h2 = h)) as [->|]; [by rewrite lookup_insert_eq|rewrite lookup_insert_ne by done].
    apply Hf.
Qed.

(** A reservation in the scope of the root. *)
Lemma reserve_child_allots b n s owner request share :
  inv no_fate false (ct_state b) n → child_request request = Ok share → u64_request share →
  wp (reserve_child s BudgetScopeKind.Process owner share) (λ r b' n',
    inv no_fate false (ct_state b') n' ∧ n ≤ n' ∧ grows (ct_state b) (ct_state b') ∧ r ≠ Panic
    ∧ ∀ receipt, r = Ok receipt → ¬ drawn n (br_reservation_id receipt)
        ∧ allotted (ct_state b') s (br_reservation_id receipt) request) b n.
Proof.
  intros Hi Hc Hu. pose proof (reserve_child_grows no_fate false s BudgetScopeKind.Process owner share b n Hi Hu) as Hg.
  revert Hg. unfold wp. destruct (reserve_child _ _ _ _ b n) as [[r b'] n'] eqn:Hrun. intros (Hi' & Hn & [Hg _] & Hres).
  split_and!; [done..|by intros ->|]. intros receipt ->. revert Hrun. unfold reserve_child, mbind, M_bind, get_state, locked, zoom.
  destruct (reserve_child_locked_cases (ct_state b) n s BudgetScopeKind.Process owner share)
    as [(psc & _ & _ & _ & _ & ->)| ->]; [|done].
  set (b1 := Budget.set_state _ b). pose proof (wp_persist_or_restore (ct_state b) b1 (n + 1 + 1)
    (λ r b2 _, ∀ u, r = Ok u → ct_state b2 = ct_state b1)) as Hp. unfold wp in Hp.
  destruct (persist_or_restore _ _ _) as [[[[]| |] b2] n2]; [|done..]. intros [= <- <- <-]. cbn.
  assert (ct_state b2 = ct_state b1) as ->.
  { eapply Hp; [|done]. intros [[]| |] d st2 n3 _ Hst; [|done..]. intros _ _. by destruct Hst as [-> _]. }
  split.
  - intros (i & Hlt & Heq%uuid_v4_inj). lia.
  - eexists _, _. cbn. split; [apply lookup_insert_eq|]. done.
Qed.

(** ** Every action keeps the books *)

Definition good (m : N) (s : System) (n : N) : Prop :=
  accounts c m (sy_state s) (sy_tasks s)
  ∧ funded c (sy_lock s) (sy_state s) (sy_tasks s) (ct_state (sy_budget s)) n.

Lemma accounts_mono m m' a a' tasks :
  accounts c m a tasks → m ≤ m' → roots a' = roots a → running_slots a' = running_slots a →
  waiters a' = waiters a → next_waiter a' = next_waiter a → accounts c m' a' tasks.
Proof. intros [] Hm Hr Hs Hw Hn. split; rewrite ?Hr, ?Hs, ?Hw, ?Hn; try done. lia. Qed.

Lemma funded_state lock a a' tasks b n :
  funded c lock a tasks b n → (∀ id, scope_of a' id = scope_of a id) → funded c lock a' tasks b n.
Proof.
  intros Hf Hs. split; [apply Hf|..|apply Hf|apply Hf].
  - intros id s. rewrite Hs. apply Hf.
  - intros h t Ht%(fd_task _ _ _ _ _ _ Hf). eapply funded_task_grows; [done|apply grows_refl|done].
Qed.

Lemma good_mono m m' s n n' : good m s n → m ≤ m' → n ≤ n' → good m' s n'.
Proof.
  intros [Ha Hf] Hm Hn. split; [by eapply accounts_mono|].
  eapply funded_budget; [done| |apply grows_refl]. eapply inv_mono; [done|apply Hf].
Qed.

Lemma scope_of_alter (f : RootAdmissionState → RootAdmissionState) root a id :
  (∀ r, budget_scope (f r) = budget_scope r) → scope_of (with_roots (alter f root) a) id = scope_of a id.
Proof.
  intros Hf. unfold scope_of. cbn. destruct (decide (id = root)) as [->|];
    [rewrite lookup_alter_eq; destruct (roots a !! root); cbn; auto|by rewrite lookup_alter_ne].
Qed.

Lemma scope_of_drop p a id : scope_of (drop_pending p a) id = scope_of a id.
Proof. unfold drop_pending. destruct (pd_phase p); [| |done]; by rewrite scope_of_alter. Qed.

Lemma scope_of_release root storage phase a id : scope_of (release_topology root storage phase a) id = scope_of a id.
Proof.
  change (scope_of (release_topology root storage phase a) id) with (scope_of (with_roots (alter (match phase with
    | Queued => leave storage 1 0 | Running => leave storage 0 1 | Closed => leave storage 0 0 end) root) a) id).
  apply scope_of_alter. by destruct phase.
Qed.

Lemma abandon_good m m' s n h request p point :
  good m s n → m ≤ m' → sy_tasks s !! h = Some (Reserving request p point) → good m' (abandon h p point s) n.
Proof.
  intros [Ha Hf] Hm Ht. split; [by eapply drop_pending_accounts|]. cbn.
  pose proof (fd_lock _ _ _ _ _ _ Hf h) as Hl. rewrite Ht in Hl. cbn in Hl.
  apply (funded_change (sy_lock s) _ (sy_state s) _ (sy_tasks s) (ct_state (sy_budget s)) _ n n h None); try done.
  - apply Hf.
  - apply grows_refl.
  - intros id. apply scope_of_drop.
  - destruct (holds_lock point); [done|]. naive_solver.
  - intros h' Hne. destruct (holds_lock point); [|done]. destruct Hl as [_ Hl]. specialize (Hl eq_refl). split; congruence.
Qed.

(** A reservation in progress takes a step that leaves the counters alone. *)
Lemma advance_good m m' s s' n n' h request p point t :
  good m s n → m ≤ m' → sy_tasks s !! h = Some (Reserving request p point) →
  sy_state s' = sy_state s → sy_tasks s' = <[h := t]> (sy_tasks s) →
  inv no_fate false (ct_state (sy_budget s')) n' → grows (ct_state (sy_budget s)) (ct_state (sy_budget s')) →
  same_weight (Reserving request p point) t → in_slot t = in_slot (Reserving request p point) → task_ok c t →
  waiting (Some t) = waiting (Some (Reserving request p point)) →
  funded_task c (sy_state s) (ct_state (sy_budget s')) t →
  (sy_lock s' = Some h ↔ has_lock (Some t) = true) → (∀ h', h' ≠ h → sy_lock s' = Some h' ↔ sy_lock s = Some h') →
  (∀ r, held_by (Some t) = Some r → held_by (sy_tasks s !! h) = Some r ∨ ¬ drawn n r) →
  good m' s' n'.
Proof.
  intros [Ha Hf] Hm Ht Hs Htasks Hi Hg Hsame Hslot Hok Hwait Hfund Hl Hl' Hh. unfold good. rewrite Hs, Htasks. split.
  - eapply (accounts_same c m m' _ _ _ h); try done. intros id r' Hr'. exists r'. by destruct r'.
  - apply (funded_change (sy_lock s) _ (sy_state s) _ (sy_tasks s) (ct_state (sy_budget s)) _ n _ h (Some t)); try done.
    by intros ? [= <-].
Qed.

(** What a section of [reserve] leaves: the next task, or the error at which the
    locals are dropped; it panics only where the durable budget file fails. *)
Definition resumed (m : N) (s : System) (n : N) (h : N) (r : Result AgentControlError Task) (s' : System) (n' : N) : Prop :=
  n ≤ n' ∧ match r with
           | Ok t => good m (with_tasks (insert h t) s') n'
           | Err _ => good m s' n' ∧ sy_tasks s' !! h = sy_tasks s !! h
           | Panic => good m s' n' ∧ sy_tasks s' !! h = sy_tasks s !! h ∧ ct_durable (sy_budget s) = true
           end.

Section Resume.
Context (m m' : N) (s : System) (n h : N) (request : AgentAdmissionRequest) (p : PendingAdmission) (point : Point).
Hypothesis Hgood : good m s n.
Hypothesis Hm : m ≤ m'.
Hypothesis Htask : sy_tasks s !! h = Some (Reserving request p point).
Hypothesis Hfree : holds_lock point = false → sy_lock s = None.

Lemma resume_ok : task_ok c (Reserving request p point).
Proof using Hgood Htask. apply (ac_known _ _ _ _ (proj1 Hgood) h). done. Qed.

Lemma resume_lock_iff : sy_lock s = Some h ↔ holds_lock point = true.
Proof using Hgood Htask. rewrite (fd_lock _ _ _ _ _ _ (proj2 Hgood)), Htask. done. Qed.

Lemma resume_queue : point = AtQueue → wp (resume c h request p point) (resumed m' s n h) s n.
Proof using All.
  intros Hp. pose proof resume_ok as Hok. destruct Hgood as [Ha Hf]. rewrite Hp in Htask |- *.
  unfold resume. apply wp_bind. wp_step. cbv beta iota.
  pose proof (try_admit_accounts c m m' _ _ _ _ _ Ha Htask Hm) as Htry.
  assert (∀ b a, try_admit c (pd_waiter_id p) (sy_state s) = (b, a) → ∀ id, scope_of a id = scope_of (sy_state s) id) as Hs.
  { unfold try_admit. intros b a. destruct (_ && _); by intros [= <- <-]. }
  destruct (try_admit c (pd_waiter_id p) (sy_state s)) as [admitted a] eqn:Etry. wp_steps. split; [done|].
  specialize (Hs _ _ eq_refl). unfold good. destruct admitted; cbn.
  - split; [done|].
    apply (funded_change (sy_lock s) _ (sy_state s) _ (sy_tasks s) (ct_state (sy_budget s)) _ n _ h (Some _)); try done.
    + apply Hf.
    + apply grows_refl.
    + by intros ? [= <-].
    + cbn. rewrite (Hfree ltac:(by rewrite Hp)). done.
  - rewrite insert_id by done. split; [done|]. by eapply funded_state.
Qed.

Lemma resume_lock : point = AtLock → wp (resume c h request p point) (resumed m' s n h) s n.
Proof using All.
  intros Hp. pose proof resume_ok as Hok. unfold resume. rewrite Hp in Htask, Hok |- *. wp_steps. split; [done|].
  eapply (advance_good m m' s); [done..| |apply grows_refl|done|done| | | | | |]; try done.
  - apply (proj2 Hgood).
  - intros h' Hne. cbn. rewrite (Hfree ltac:(by rewrite Hp)). split; congruence.
Qed.

Lemma resume_locked scope : point = Locked (Some scope) → wp (resume c h request p point) (resumed m' s n h) s n.
Proof using All.
  intros Hp. pose proof resume_ok as Hok. pose proof resume_lock_iff as Hl. unfold resume. rewrite Hp in Htask, Hok, Hl |- *.
  wp_steps. split; [done|].
  eapply (advance_good m m' s); [done..| |apply grows_refl|done|done| | | | | |]; try done.
  - apply (proj2 Hgood).
  - apply (fd_task _ _ _ _ _ _ (proj2 Hgood) _ _ Htask).
Qed.

Lemma resume_create :
  point = Locked None → u64_request (root_request c) → wp (resume c h request p point) (resumed m' s n h) s n.
Proof using All.
  intros Hp Hu. pose proof resume_ok as Hok. pose proof resume_lock_iff as Hl. unfold resume. rewrite Hp in Htask, Hok, Hl |- *.
  apply wp_bind, wp_map_err, wp_zoom.
  eapply wp_mono; [apply create_root_adds; [apply (proj2 Hgood)|exact Hu]|].
  intros [id|e|] b' n' (Hi & Hn & [Hg _] & Herr & Hdur & Hadd); [|by destruct (Herr e)|].
  - wp_steps. split; [done|]. eapply (advance_good m m' s); [done..| | | | | | | | | |]; try done.
    split; [exact (fd_task _ _ _ _ _ _ (proj2 Hgood) _ _ Htask)|]. eexists. split; [by apply Hadd|done].
  - split; [done|]. split_and!; [|done|by apply Hdur]. destruct Hgood as [Ha Hf].
    split; [by eapply accounts_mono|]. by eapply funded_budget.
Qed.

Lemma resume_store scope : point = Created scope → wp (resume c h request p point) (resumed m' s n h) s n.
Proof using All.
  intros Hp. pose proof resume_ok as Hok. unfold resume. rewrite Hp in Htask, Hok |- *. destruct Hgood as [Ha Hf].
  apply wp_bind. wp_step. cbv beta iota. destruct (ac_known _ _ _ _ Ha _ _ Htask) as [[r Hr] _]. cbn in Hr.
  unfold expect. rewrite Hr. destruct (funded_created _ _ _ _ _ _ _ _ _ _ Hf Htask Hr) as [Hb Hf'].
  wp_steps. rewrite Hb. cbn. split; [done|]. split; [|done].
  eapply (accounts_same c m m' (sy_state s)); [done|done|done|..]; try done.
  - cbn. intros id r' [[<- <-]|[Hne Hr']]%lookup_insert_Some; [by exists r|]. exists r'. by destruct r'.
  - cbn. intros id Hid. rewrite lookup_insert_is_Some. destruct (decide (request_root request = id)); auto.
Qed.

Lemma resume_reserve scope : point = Scoped scope → wp (resume c h request p point) (resumed m' s n h) s n.
Proof using All.
  intros Hp. pose proof resume_ok as Hok. pose proof resume_lock_iff as Hl. unfold resume. rewrite Hp in Htask, Hok, Hl |- *.
  destruct (child_request_ok c request (proj1 Hok)) as (share & Hshare & Hu). apply wp_bind. unfold lift, wp at 1.
  rewrite Hshare. apply wp_bind, wp_map_err, wp_zoom.
  eapply wp_mono; [by apply (reserve_child_allots _ _ _ _ request); [apply (proj2 Hgood)|..]|].
  intros [receipt|e|] b' n' (Hi & Hn & Hg & Hnp & Hadd); [| |done].
  - destruct (Hadd _ eq_refl) as [Hfresh Hal]. wp_steps. split; [done|].
    eapply (advance_good m m' s); [done..| | | | | | | | | |]; try done.
    + exists scope. split; [exact (fd_task _ _ _ _ _ _ (proj2 Hgood) _ _ Htask)|done].
    + intros r. cbn. intros [= <-]. by right.
  - split; [done|]. split; [|done]. destruct Hgood as [Ha Hf].
    split; [by eapply accounts_mono|]. by eapply funded_budget.
Qed.

Lemma resume_record r : point = Reserved r → wp (resume c h request p point) (resumed m' s n h) s n.
Proof using All.
  intros Hp. pose proof resume_lock_iff as Hl. unfold resume. rewrite Hp in Htask, Hl |- *. destruct Hgood as [Ha Hf].
  wp_steps. split; [done|]. cbn. split.
  - eapply (accounts_same c m m' (sy_state s)); [done|done|done|..]; try done.
    cbn. intros id r' Hr'. exists r'. by destruct r'.
  - apply (funded_change (sy_lock s) _ (sy_state s) _ (sy_tasks s) (ct_state (sy_budget s)) _ n _ h (Some _)); try done.
    + apply Hf.
    + apply grows_refl.
    + intros t [= <-]. cbn. split; [done|]. intros r' [= <-]. exact (fd_task _ _ _ _ _ _ Hf _ _ Htask).
    + intros h' Hne. destruct Hl as [_ Hl]. specialize (Hl eq_refl). cbn. split; congruence.
    + rewrite Htask. cbn. auto.
Qed.

End Resume.

Lemma poll_good m m' s n h :
  good m s n → m ≤ m' → u64_request (root_request c) →
  wp (poll c h) (λ r s' n', good m' s' n' ∧ n ≤ n' ∧ (r = Panic → ct_durable (sy_budget s) = true)) s n.
Proof.
  intros Hgood Hm Hu. unfold wp, poll.
  assert (good m' s n) as Hsame by by eapply good_mono.
  destruct (sy_tasks s !! h) as [[request p point|request lease|request lease]|] eqn:Ht; [|by split_and!..].
  destruct (negb (holds_lock point) && bool_decide (is_Some (sy_lock s))) eqn:Hblocked; [by split_and!|].
  assert (holds_lock point = false → sy_lock s = None) as Hfree.
  { intros Hp. rewrite Hp in Hblocked. cbn in Hblocked. apply bool_decide_eq_false, eq_None_not_Some in Hblocked. done. }
  assert (wp (resume c h request p point) (resumed m' s n h) s n) as Hres.
  { destruct point as [| |[scope|]|scope|scope|r] eqn:Hp; [eapply resume_queue|eapply resume_lock|eapply resume_locked
      |eapply resume_create|eapply resume_store|eapply resume_reserve|eapply resume_record]; eauto. }
  unfold wp in Hres. destruct (resume _ _ _ _ _ s n) as [[[t|e|] s'] n']; destruct Hres as [Hn Hres].
  - by split_and!.
  - destruct Hres as [Hg Hh]. split_and!; [|done|done]. eapply abandon_good; [done|done|by rewrite Hh].
  - destruct Hres as (Hg & Hh & Hd). split_and!; [|done|done]. eapply abandon_good; [done|done|by rewrite Hh].
Qed.

Lemma validate_policy_calm request : validate_policy c request ≠ Panic.
Proof.
  assert (∀ o, cost_micro o ≠ Panic) as Hc by (intros o; unfold cost_micro; by repeat case_match).
  unfold validate_policy. specialize (Hc (max_cost_usd (sp_budget (aq_spawn request)))).
  destruct (cost_micro _), (checked_add _ _); try done; cbn; by repeat case_match.
Qed.

Lemma begin_good m s n h request :
  good m s n → m < u64_max → sy_tasks s !! h = None →
  wp (begin_reserve c h request) (λ r s' n', good (m + 1) s' n' ∧ n ≤ n' ∧ r ≠ Panic) s n.
Proof.
  intros Hgood Hm Ht. assert (good (m + 1) s n) as Hsame by (eapply good_mono; [done|lia|lia]). destruct Hgood as [Ha Hf].
  unfold begin_reserve. apply wp_bind. unfold lift, wp at 1. pose proof (validate_policy_calm request) as Hcalm.
  destruct (validate_policy c request) as [[]|e|] eqn:Hv; [|by split_and!|done]. apply wp_bind, wp_zoom.
  pose proof (enqueue_accounts c m _ _ h request n Ha Ht Hm Hv) as Hq. unfold wp in Hq |- *.
  assert (∀ r a' n', enqueue c request (sy_state s) n = (r, a', n') → n' = n) as Hn.
  { intros r a' n'. unfold enqueue, mbind, M_bind, modify, get_state, put_state, throw, mret, M_ret.
    repeat (case_match; try congruence). }
  destruct (enqueue c request (sy_state s) n) as [[[w|e|] a'] n'] eqn:Eq; destruct Hq as [Hq Hs]; [| |done];
    rewrite (Hn _ _ _ eq_refl); (split_and!; [|done|done]); (split; [done|]); cbn.
  - apply (funded_change (sy_lock s) _ (sy_state s) _ (sy_tasks s) (ct_state (sy_budget s)) _ n _ h (Some _)); try done.
    + apply Hf.
    + apply grows_refl.
    + by intros ? [= <-].
    + cbn. rewrite (fd_lock _ _ _ _ _ _ Hf), Ht. done.
  - by eapply funded_state.
Qed.

(** The budget half of a closing method: the admission state stays, the lease may
    have given its reservation away. *)
Definition lease_half (v : LeaseView) (n : N) (r : Result AgentControlError unit) (v' : LeaseView) (n' : N) : Prop :=
  lv_state v' = lv_state v ∧ (lv_lease v' = lv_lease v ∨ lv_lease v' = take_reservation (lv_lease v))
  ∧ inv no_fate false (ct_state (lv_budget v')) n' ∧ grows (ct_state (lv_budget v)) (ct_state (lv_budget v'))
  ∧ n ≤ n' ∧ r ≠ Panic ∧ (r = Ok tt → ls_phase (lv_lease v) ≠ Closed).

Lemma settle_half usage v n :
  inv no_fate false (ct_state (lv_budget v)) n → wp (settle_budget usage) (lease_half v n) v n.
Proof.
  intros Hi. assert (∀ e, lease_half v n (Err e) v n) as Herr by (intros e; split_and!; auto using grows_refl; done).
  unfold settle_budget. apply wp_bind. wp_step. cbv beta iota. case_bool_decide as Hph; [wp_step; apply Herr|].
  apply wp_bind. wp_step; [|intros _; apply Herr]. intros reservation Hr. apply wp_bind. unfold lift, wp at 1.
  unfold usage_report, cost_micro. destruct (us_cost_usd usage) as [f|]; cbn; [destruct (_ || _); [apply Herr|]; cbn|].
  all: apply wp_bind, wp_map_err, wp_zoom; eapply wp_mono; [apply (close_reservation_grows no_fate false); exact Hi|].
  all: intros [[]|e|] b' n' (Hi' & Hn & [Hg _] & Hp); [wp_steps; split_and!; cbn; auto|split_and!; cbn; auto; done|done].
Qed.

Lemma revoke_half v n :
  inv no_fate false (ct_state (lv_budget v)) n → ls_phase (lv_lease v) ≠ Closed → wp revoke_budget (lease_half v n) v n.
Proof.
  intros Hi Hph. unfold revoke_budget. apply wp_bind. wp_step. cbv beta iota.
  destruct (ls_reservation (lv_lease v)) as [reservation|] eqn:Hr.
  2: { wp_step. split_and!; auto using grows_refl; done. }
  apply wp_bind. wp_step. cbv beta iota. apply wp_map_err, wp_zoom.
  eapply wp_mono; [apply (close_reservation_grows no_fate false); exact Hi|].
  intros [[]|e|] b' n' (Hi' & Hn & [Hg _] & Hp); [| |done]; split_and!; cbn; auto; done.
Qed.

Lemma drop_revoke_half v n :
  inv no_fate false (ct_state (lv_budget v)) n → ls_phase (lv_lease v) ≠ Closed → wp drop_revoke (lease_half v n) v n.
Proof. intros Hi Hph. split_and!; cbn; auto using grows_refl; done. Qed.

Lemma transfer_half parent usage v n :
  inv no_fate false (ct_state (lv_budget v)) n → wp (void (transfer_budget parent usage)) (lease_half v n) v n.
Proof.
  intros Hi. assert (∀ e, lease_half v n (Err e) v n) as Herr by (intros e; split_and!; auto using grows_refl; done).
  unfold void. apply wp_bind. unfold transfer_budget. apply wp_bind. wp_step. cbv beta iota.
  case_bool_decide as Hph; [wp_step; apply Herr|].
  apply wp_bind. wp_step; [|intros _; apply Herr]. intros child Hr.
  apply wp_bind. wp_step; [|intros _; apply Herr]. intros target Ht. apply wp_bind. unfold lift, wp at 1.
  unfold usage_report, cost_micro. destruct (us_cost_usd usage) as [f|]; cbn; [destruct (_ || _); [apply Herr|]; cbn|].
  all: apply wp_bind, wp_map_err, wp_zoom; eapply wp_mono; [apply (transfer_grows no_fate false); [exact Hi|done]|].
  all: intros [receipt|e|] b' n' (Hi' & Hn & [Hg _] & Hp); [wp_steps; split_and!; cbn; auto|split_and!; cbn; auto; done|done].
Qed.

Lemma lease_half_good m m' s n h request lease closes mth :
  good m s n → m ≤ m' → sy_tasks s !! h = Some (Leased request lease) →
  wp mth (lease_half (view s lease) n) (view s lease) n →
  wp (lease_call h closes mth) (λ r s' n', good m' s' n' ∧ n ≤ n' ∧ r ≠ Panic) s n.
Proof.
  intros [Ha Hf] Hm Ht Hh. unfold wp, lease_call. rewrite Ht. unfold wp in Hh.
  destruct (mth _ n) as [[r v] n']. destruct Hh as (Hs & Hl & Hi & Hg & Hn & Hp & Hph). cbn in *.
  split_and!; [|done|done].
  set (t := match r with
            | Ok _ => if closes then Closing request (lv_lease v) else Leased request (lv_lease v)
            | _ => Leased request (lv_lease v)
            end).
  assert (same_weight (Leased request lease) t ∧ in_slot t = in_slot (Leased request lease)
          ∧ waiting (Some t) = None ∧ has_lock (Some t) = false) as (Hsame & Hslot & Hw & Hlk).
  { subst t. destruct Hl as [-> | ->], r, closes; by split_and!. }
  assert (task_ok c t) as Hok.
  { subst t. destruct r as [[]| |]; [|done..]. specialize (Hph eq_refl). by destruct closes, Hl as [-> | ->]. }
  split; cbn; rewrite Hs.
  - eapply (accounts_same c m m' (sy_state s)); try done. intros id r' Hr'. exists r'. by destruct r'.
  - apply (funded_change (sy_lock s) _ (sy_state s) _ (sy_tasks s) (ct_state (sy_budget s)) _ n _ h (Some t)); try done.
    + intros t1 [= <-]. pose proof (fd_task _ _ _ _ _ _ Hf _ _ Ht) as Hft.
      assert (funded_task c (sy_state s) (ct_state (lv_budget v)) (Leased request lease)) as [Hroot Hres]
        by (eapply funded_task_grows; done).
      subst t. destruct Hl as [-> | ->], r, closes; cbn; (split; [done|]); try exact Hres; done.
    + rewrite Hlk, (fd_lock _ _ _ _ _ _ Hf), Ht. done.
    + intros x Hx. left. rewrite Ht. subst t. cbn. destruct Hl as [Hl|Hl], r, closes; cbn in Hx; rewrite Hl in Hx; done.
Qed.

Lemma mark_running_good m m' s n h :
  good m s n → m ≤ m' →
  wp (lease_call h false mark_running) (λ r s' n', good m' s' n' ∧ n ≤ n' ∧ r ≠ Panic) s n.
Proof.
  intros Hgood Hm. assert (good m' s n) as Hsame by by eapply good_mono. unfold wp, lease_call.
  destruct (sy_tasks s !! h) as [[request p point|request lease|request lease]|] eqn:Ht; [by split_and!| |by split_and!..].
  destruct Hgood as [Ha Hf]. destruct (ac_known _ _ _ _ Ha _ _ Ht) as [[r Hr] _]. cbn in Hr.
  unfold mark_running, mbind, M_bind, get_state. cbn [lv_lease lv_state].
  case_bool_decide as Hph; cbn.
  2: { split_and!; [|done|done]. unfold good. cbn. by rewrite insert_id. }
  unfold expect. rewrite Hr. cbn. split_and!; [|done|done]. split; cbn.
  - by apply (mark_running_accounts c m m' _ _ h request lease r).
  - apply (funded_change (sy_lock s) _ (sy_state s) _ (sy_tasks s) (ct_state (sy_budget s)) _ n _ h (Some _)); try done.
    + apply Hf.
    + apply grows_refl.
    + intros id. unfold scope_of. cbn. destruct (decide (id = ls_root lease)) as [->|];
        [by rewrite lookup_insert_eq, Hr|by rewrite lookup_insert_ne].
    + intros t [= <-]. eapply (funded_task_grows c (sy_state s)); [|apply grows_refl|exact (fd_task _ _ _ _ _ _ Hf _ _ Ht)].
      intros id. unfold scope_of. cbn. destruct (decide (id = ls_root lease)) as [->|];
        [by rewrite lookup_insert_eq, Hr|by rewrite lookup_insert_ne].
    + rewrite (fd_lock _ _ _ _ _ _ Hf), Ht. done.
    + rewrite Ht. cbn. auto.
Qed.

Lemma held_leased lock a tasks b n h request lease :
  funded c lock a tasks b n → tasks !! h = Some (Leased request lease) ∨ tasks !! h = Some (Closing request lease) →
  funded_task c a b (Leased request lease) ∧ held_by (tasks !! h) = ls_reservation lease ∧ lock ≠ Some h.
Proof.
  intros Hf [Ht|Ht]; (split_and!; [exact (fd_task _ _ _ _ _ _ Hf _ _ Ht)|by rewrite Ht|]);
    by rewrite (fd_lock _ _ _ _ _ _ Hf), Ht.
Qed.

Lemma close_good m m' s n h :
  good m s n → m ≤ m' → wp (close h) (λ r s' n', good m' s' n' ∧ n ≤ n' ∧ r ≠ Panic) s n.
Proof.
  intros Hgood Hm. assert (good m' s n) as Hsame by by eapply good_mono. unfold wp, close.
  destruct (sy_tasks s !! h) as [[request p point|request lease|request lease]|] eqn:Ht; [by split_and!..| |by split_and!].
  destruct Hgood as [Ha Hf]. destruct (ac_known _ _ _ _ Ha _ _ Ht) as [_ Hph]. cbn in Hph. cbn. split_and!; [|done|done].
  destruct (held_leased _ _ _ _ _ _ _ _ Hf (or_intror Ht)) as ([Hroot Hres] & Hheld & Hlock).
  set (a := with_agents (delete (ls_agent_id lease)) (sy_state s)).
  assert (accounts c m a (sy_tasks s)) as Ha1 by by eapply accounts_mono.
  split; cbn.
  - apply (release_accounts c m m' a (sy_tasks s) h request lease Ha1 Hph Hm (or_intror Ht) (Some _)); try done.
    + by intros t [= <-].
    + unfold weightless. rewrite !weigh_at by done. done.
    + by intros t [= <-].
  - apply (funded_change (sy_lock s) _ (sy_state s) _ (sy_tasks s) (ct_state (sy_budget s)) _ n _ h (Some _)); try done.
    + apply Hf.
    + apply grows_refl.
    + intros id. by rewrite scope_of_release.
    + intros t [= <-]. cbn. split; [done|]. intros r (s' & Hs' & Hal)%Hres. rewrite scope_of_release. eauto.
    + rewrite Hheld. cbn. auto.
Qed.

Lemma drop_good m m' s n h runtime :
  good m s n → m ≤ m' → wp (drop_task h runtime) (λ r s' n', good m' s' n' ∧ n ≤ n' ∧ r ≠ Panic) s n.
Proof.
  intros Hgood Hm. assert (good m' s n) as Hsame by by eapply good_mono. unfold wp, drop_task.
  destruct (sy_tasks s !! h) as [[request p point|request lease|request lease]|] eqn:Ht; [by split_and!| |by split_and!..].
  destruct Hgood as [Ha Hf]. destruct (held_leased _ _ _ _ _ _ _ _ Hf (or_introl Ht)) as (_ & _ & Hlock).
  assert (∀ a, (∀ id, scope_of a id = scope_of (sy_state s) id) →
            funded c (sy_lock s) a (delete h (sy_tasks s)) (ct_state (sy_budget s)) n) as Hfund.
  { intros a Hs. apply (funded_change (sy_lock s) _ (sy_state s) _ (sy_tasks s) (ct_state (sy_budget s)) _ n _ h None); try done.
    - apply Hf.
    - apply grows_refl. }
  unfold drop_lease. cbn [lv_lease view]. case_bool_decide as Hph; (split_and!; [|done|done]); split; cbn.
  - apply (accounts_change c m m' (sy_state s) _ (sy_tasks s) h None); rewrite ?Ht; try done.
    + intros id r' Hr'. cbn in Hr'. rewrite Hr'. cbn [default from_option]. split; [|by apply (ac_counted _ _ _ _ Ha id)].
      split; cbn; unfold task_bytes, task_items; cbn; repeat case_decide; try done; congruence || lia.
    + cbn. by rewrite decide_True.
    + apply (ac_slots _ _ _ _ Ha).
    + rewrite <-Ht. eapply requeued_same; [done..|]. by rewrite Ht.
  - by apply Hfund.
  - by apply (release_accounts c m m' _ _ h request lease Ha Hph Hm (or_introl Ht) None).
  - apply Hfund. intros id. apply scope_of_release.
Qed.

Lemma other_good m m' s n call :
  good m s n → m ≤ m' → u64_request (call_request call) →
  wp (other call) (λ r s' n', good m' s' n' ∧ n ≤ n' ∧ r ≠ Panic) s n.
Proof.
  intros [Ha Hf] Hm Hu. unfold wp, other.
  pose proof (run_call_keeps no_fate false call _ n (fd_inv _ _ _ _ _ _ Hf) Hu (λ _, eq_refl)) as Hk.
  pose proof (run_call_grows no_fate false call _ n (fd_inv _ _ _ _ _ _ Hf) Hu (λ _, eq_refl)) as Hg.
  unfold wp in Hk, Hg. destruct (run_call call (sy_budget s) n) as [[r b] n']. destruct Hk as [Hi Hn].
  split_and!; [|done|done]. split; [by eapply accounts_mono|]. by eapply funded_budget.
Qed.

(** The amounts of a call are [u64] values. *)
Definition action_ok (a : Action) : Prop :=
  match a with Other call => u64_request (call_request call) | _ => True end.

Lemma act_good m s n a :
  good m s n → m < u64_max → u64_request (root_request c) → action_ok a →
  wp (act c a) (λ r s' n', good (m + 1) s' n' ∧ n ≤ n' ∧ (r = Panic → ct_durable (sy_budget s) = true)) s n.
Proof.
  intros Hgood Hm Hu Hok. assert (m ≤ m + 1) as Hle by lia.
  assert (good (m + 1) s n) as Hsame by by eapply good_mono.
  assert (∀ (mth : M System AgentControlError unit) n0 s0,
            wp mth (λ r s' n', good (m + 1) s' n' ∧ n ≤ n' ∧ r ≠ Panic) s0 n0 →
            wp mth (λ r s' n', good (m + 1) s' n' ∧ n ≤ n' ∧ (r = Panic → ct_durable (sy_budget s) = true)) s0 n0) as Hcalm.
  { intros mth n0 s0 Hw. eapply wp_mono; [exact Hw|]. intros r s' n' (? & ? & ?). by split_and!. }
  pose proof (fd_inv _ _ _ _ _ _ (proj2 Hgood)) as Hi.
  unfold wp, act. destruct a as [h request|h|h|h|h|h usage|h|h|h parent usage|h|h runtime| |call].
  - case_bool_decide as Hh; [by split_and!|]. apply Hcalm, begin_good; [done|done|]. by apply eq_None_not_Some.
  - by apply (poll_good m).
  - apply Hcalm. unfold wp, time_out.
    destruct (sy_tasks s !! h) as [[request p point|request lease|request lease]|] eqn:Ht; [|by split_and!..].
    destruct (holds_lock point); [by split_and!|]. split_and!; [|done|done]. by eapply abandon_good.
  - apply Hcalm. unfold wp, cancel.
    destruct (sy_tasks s !! h) as [[request p point|request lease|request lease]|] eqn:Ht; [|by split_and!..].
    destruct (waits point); [|by split_and!]. split_and!; [|done|done]. by eapply abandon_good.
  - by apply Hcalm, (mark_running_good m).
  - apply Hcalm. destruct (sy_tasks s !! h) as [[request p point|request lease|request lease]|] eqn:Ht;
      [|eapply lease_half_good; [done..|by apply settle_half]| |]; unfold wp, lease_call; rewrite Ht; by split_and!.
  - destruct (is_closed h s) eqn:Hcl; [by split_and!|]. unfold is_closed in Hcl. apply Hcalm.
    destruct (sy_tasks s !! h) as [[request p point|request lease|request lease]|] eqn:Ht;
      [|eapply lease_half_good; [done..|apply revoke_half; [done|by apply bool_decide_eq_false in Hcl]]| |];
      unfold wp, lease_call; rewrite Ht; by split_and!.
  - destruct (is_closed h s) eqn:Hcl; [by split_and!|]. unfold is_closed in Hcl. apply Hcalm.
    destruct (sy_tasks s !! h) as [[request p point|request lease|request lease]|] eqn:Ht;
      [|eapply lease_half_good; [done..|apply drop_revoke_half; [done|by apply bool_decide_eq_false in Hcl]]| |];
      unfold wp, lease_call; rewrite Ht; by split_and!.
  - apply Hcalm. destruct (sy_tasks s !! h) as [[request p point|request lease|request lease]|] eqn:Ht;
      [|eapply lease_half_good; [done..|by apply transfer_half]| |]; unfold wp, lease_call; rewrite Ht; by split_and!.
  - by apply Hcalm, (close_good m).
  - by apply Hcalm, (drop_good m).
  - apply Hcalm. unfold wp, revoke_spawned. destruct (sy_spawned s) as [|r rest]; [by split_and!|].
    apply (other_good m); [exact Hgood|done|]. apply unlimited_u64.
  - by apply Hcalm, (other_good m).
Qed.

Lemma run_good actions : ∀ m s n,
  good m s n → m + N.of_nat (length actions) ≤ u64_max → u64_request (root_request c) → Forall action_ok actions →
  good (m + N.of_nat (length actions)) (run c actions s n).1 (run c actions s n).2.
Proof.
  induction actions as [|a actions IH]; intros m s n Hg Hm Hu Hok; cbn; [by rewrite N.add_0_r|].
  apply Forall_cons in Hok as [Hok Hoks]. cbn [length] in *. pose proof (act_good m s n a Hg ltac:(lia) Hu Hok) as Ha.
  unfold wp in Ha. destruct (act c a s n) as [[r s'] n']. destruct Ha as (Hg' & _ & _).
  replace (m + N.of_nat (S (length actions))) with (m + 1 + N.of_nat (length actions)) by lia.
  apply IH; [done|lia|done|done].
Qed.

Lemma new_good budget n : wf (ct_state budget) n → good 0 (new_system budget) n.
Proof.
  intros Hw. split; split; cbn; try done.
  - split; [unfold total; by rewrite msum_empty|lia].
  - constructor.
  - intros w. split; [by intros ?%elem_of_nil|]. by intros [h ?].
  - by intros w ?%elem_of_nil.
Qed.

End Funded.

(** ** Sums *)

Lemma msum_inject {V W} (f : N → V → N) (g : N → W → N) (R : N → N → Prop) :
  (∀ k1 k2 k', R k1 k' → R k2 k' → k1 = k2) → ∀ (m : gmap N V) (m' : gmap N W),
  (∀ k v, m !! k = Some v → f k v ≠ 0 → ∃ k' w, m' !! k' = Some w ∧ R k k' ∧ f k v ≤ g k' w) →
  msum f m ≤ msum g m'.
Proof.
  intros Hinj m. induction m as [|k v m Hk IH] using map_ind; intros m' Hm; [rewrite msum_empty; lia|].
  rewrite msum_insert by done. destruct (decide (f k v = 0)) as [->|Hne].
  - rewrite N.add_0_l. apply IH. intros k2 v2 Hk2. apply Hm. rewrite lookup_insert_ne; [done|congruence].
  - destruct (Hm k v) as (k' & w & Hk' & HR & Hle); [apply lookup_insert_eq|done|].
    rewrite (msum_delete g m' k' w Hk'). apply N.add_le_mono; [done|]. apply IH. intros k2 v2 Hk2 Hne2.
    destruct (Hm k2 v2) as (k2' & w2 & Hk2' & HR2 & Hle2); [rewrite lookup_insert_ne; [done|congruence]|done|].
    exists k2', w2. rewrite lookup_delete_ne; [done|]. intros <-. rewrite (Hinj k2 k k') in Hk2 by done. congruence.
Qed.

(** Every task belongs to one root. *)
Lemma msum_tally f (m : gmap AgentId RootAdmissionState) tasks :
  (∀ h t, tasks !! h = Some t → is_Some (m !! task_root t)) → msum (λ id _, tally f id tasks) m = total f tasks.
Proof.
  unfold tally, total. induction tasks as [|h t tasks Hh IH] using map_ind; intros Hknown.
  { rewrite msum_empty. apply msum_zero. intros. by rewrite msum_empty. }
  rewrite msum_insert by done. rewrite <-IH.
  2: { intros h' t' Ht'. apply (Hknown h'). rewrite lookup_insert_ne; [done|congruence]. }
  destruct (Hknown h t) as [r Hr]; [apply lookup_insert_eq|].
  transitivity (msum (λ id _, (if decide (task_root t = id) then f t else 0)
                              + msum (λ _ t, if decide (task_root t = id) then f t else 0) tasks) m).
  { apply msum_ext. intros id _ _. by rewrite msum_insert. }
  rewrite (msum_add (λ id _, if decide (task_root t = id) then f t else 0)). f_equal.
  rewrite (msum_delete _ _ _ _ Hr), decide_True by done. rewrite msum_zero; [lia|].
  intros id r' [Hne _]%lookup_delete_Some. by rewrite decide_False.
Qed.

Lemma resident_split c m a tasks id r :
  accounts c m a tasks → roots a !! id = Some r → resident r = queued r + running r.
Proof.
  intros Ha Hr. destruct (ac_counted _ _ _ _ Ha _ _ Hr) as [[H1 H2 H3 _ _] _]. rewrite H1, H2, H3. unfold tally.
  rewrite <-msum_add. apply msum_ext. intros h t _. case_decide; [|done].
  destruct t as [| |]; cbn; [done|..]; destruct (ls_phase _); repeat case_decide; done.
Qed.

Lemma metrics_exact c m a tasks :
  accounts c m a tasks →
  am_resident_agents (metrics a) = total is_live tasks ∧ am_queued_agents (metrics a) = total is_queued tasks
  ∧ am_running_agents (metrics a) = total is_running tasks ∧ am_resident_idle_agents (metrics a) = 0.
Proof.
  intros Ha. assert (∀ h t, tasks !! h = Some t → is_Some (roots a !! task_root t)) as Hk.
  { intros h t Ht. by apply (ac_known _ _ _ _ Ha h). }
  cbn. split_and!; [rewrite <-(msum_tally is_live (roots a)) by done|rewrite <-(msum_tally is_queued (roots a)) by done
    |rewrite <-(msum_tally is_running (roots a)) by done|].
  1-3: apply msum_ext; intros id r Hr; by apply (ac_counted _ _ _ _ Ha).
  apply msum_zero. intros id r Hr. rewrite (resident_split c m a tasks id r) by done. unfold saturating_sub. lia.
Qed.

Section Properties.
Context `{HEnv : Env} {HOk : EnvOk} (c : AgentAdmissionConfig).

(** A step that frees a slot notifies the requests that wait. *)
Definition notifies (s s' : System) : Prop :=
  running_slots (sy_state s) ≤ running_slots (sy_state s') ∨ sy_notified s < sy_notified s'.

Lemma abandon_notifies h p point s s' :
  sy_notified s' = sy_notified s → notifies s (abandon h p point s').
Proof. intros Hn. right. cbn. lia. Qed.

Lemma enqueue_slots request a n : running_slots (enqueue c request a n).1.2 = running_slots a.
Proof. unfold enqueue, mbind, M_bind, modify, get_state, put_state, throw, mret, M_ret. by repeat case_match. Qed.

Lemma resume_slots h request p point s n r s' n' :
  resume c h request p point s n = (r, s', n') →
  running_slots (sy_state s) ≤ running_slots (sy_state s') ∧ sy_notified s' = sy_notified s.
Proof.
  unfold resume, mbind, M_bind, modify, get_state, mret, M_ret, map_err, zoom, lift, expect, try_admit. intros Hr.
  destruct point as [| |[scope|]|scope|scope|reservation].
  { destruct (_ && _); injection Hr as <- <- <-; cbn; lia. }
  all: repeat case_match; unfold mret, M_ret, panic in *; simplify_eq; cbn; split; lia || done.
Qed.

Lemma lease_half_slots s n h mth :
  (∀ lease, wp mth (lease_half (view s lease) n) (view s lease) n) → notifies s (lease_call h true mth s n).1.2.
Proof.
  intros Hm. left. unfold lease_call.
  destruct (sy_tasks s !! h) as [[request p point|request lease|request lease]|]; try done.
  specialize (Hm lease). unfold wp in Hm. destruct (mth _ n) as [[r v] n']. destruct Hm as (Hs & _). cbn. by rewrite Hs.
Qed.

Lemma act_notifies m s n a : good c m s n → notifies s (act c a s n).1.2.
Proof.
  intros Hg. pose proof (fd_inv _ _ _ _ _ _ (proj2 Hg)) as Hi. assert (notifies s s) as Hsame by (left; done).
  unfold act. destruct a as [h request|h|h|h|h|h usage|h|h|h parent usage|h|h runtime| |call].
  - case_bool_decide; [done|]. left. unfold begin_reserve, mbind, M_bind, lift, zoom.
    destruct (validate_policy c request); [|done..]. pose proof (enqueue_slots request (sy_state s) n) as Hq.
    destruct (enqueue _ _ _ _) as [[[]] n']; cbn in *; by rewrite Hq.
  - unfold poll. destruct (sy_tasks s !! h) as [[request p point| |]|]; [|done..]. destruct (_ && _); [done|].
    destruct (resume _ _ _ _ _ _ _) as [[r s'] n'] eqn:Hr. apply resume_slots in Hr as [Hs Hn].
    destruct r; [by left|by apply abandon_notifies..].
  - unfold time_out. destruct (sy_tasks s !! h) as [[request p point| |]|]; [|done..].
    destruct (holds_lock point); [done|]. by apply abandon_notifies.
  - unfold cancel. destruct (sy_tasks s !! h) as [[request p point| |]|]; [|done..].
    destruct (waits point); [by apply abandon_notifies|done].
  - left. unfold lease_call. destruct (sy_tasks s !! h) as [[|request lease|]|]; try done.
    unfold mark_running, mbind, M_bind, get_state, expect, throw. cbn [view lv_lease lv_state].
    case_bool_decide; [|done]. by destruct (roots (sy_state s) !! ls_root lease).
  - apply lease_half_slots. intros lease. by apply settle_half.
  - destruct (is_closed h s) eqn:Hcl; [done|]. unfold is_closed in Hcl. left. unfold lease_call.
    destruct (sy_tasks s !! h) as [[|request lease|]|]; try done. apply bool_decide_eq_false in Hcl.
    pose proof (revoke_half (view s lease) n Hi Hcl) as Hh. unfold wp in Hh.
    destruct (revoke_budget _ n) as [[r v] n']. destruct Hh as (Hs & _). cbn. by rewrite Hs.
  - destruct (is_closed h s); [done|]. left. unfold lease_call. by destruct (sy_tasks s !! h) as [[|request lease|]|].
  - apply lease_half_slots. intros lease. by apply transfer_half.
  - unfold close. destruct (sy_tasks s !! h) as [[| |request lease]|]; try done. right.
    unfold close_lease, mbind, M_bind, modify. cbn. lia.
  - unfold drop_task. destruct (sy_tasks s !! h) as [[|request lease|]|]; try done.
    unfold drop_lease. case_bool_decide; [left; done|right; cbn; lia].
  - left. unfold revoke_spawned, other. destruct (sy_spawned s); [done|]. by destruct (run_call _ _ _) as [[]].
  - left. unfold other. by destruct (run_call _ _ _) as [[]].
Qed.

(** The longest waiting request enters when it is resumed with a slot free. *)
Lemma front_is_admitted m s n h w rest :
  good c m s n → sy_lock s = None → waiters (sy_state s) = w :: rest →
  running_slots (sy_state s) < max_running_agents c → waiting (sy_tasks s !! h) = Some w →
  ∃ request p, sy_tasks (act c (Poll h) s n).1.2 !! h = Some (Reserving request p AtLock).
Proof.
  intros Hg Hl Hw Hs Hwait. unfold act, poll.
  destruct (sy_tasks s !! h) as [[request p []| |]|] eqn:Ht; try done. injection Hwait as <-.
  rewrite Hl. cbn. unfold mbind, M_bind, get_state, try_admit. rewrite Hw. cbn. rewrite bool_decide_true by done.
  rewrite (proj2 (N.ltb_lt _ _) Hs). cbn. rewrite lookup_insert_eq. eauto.
Qed.

Lemma held_allotted lock a tasks b n h t r :
  funded c lock a tasks b n → tasks !! h = Some t → held_by (Some t) = Some r →
  ∃ s, scope_of a (task_root t) = Some s ∧ allotted b s r (task_request t).
Proof.
  intros Hf Ht Hr. pose proof (fd_task _ _ _ _ _ _ Hf _ _ Ht) as Hft.
  destruct t as [request p []|request lease|request lease]; cbn in *; try done; simplify_eq; [done|by apply Hft..].
Qed.

(** What the live reservations of a root take is held in its scope. *)
Lemma shares_held lock a tasks b n d root s :
  funded c lock a tasks b n → scope_of a root = Some s → tally (share d b) root tasks ≤ held d b s.
Proof.
  intros Hf Hs. pose proof (wf_linked _ _ (inv_wf _ _ _ _ (fd_inv _ _ _ _ _ _ Hf))) as Hl.
  unfold tally, held.
  apply (msum_inject _ _ (λ h k, ∃ r, held_by (tasks !! h) = Some r ∧ reservations b !! r = Some k)).
  - intros h1 h2 k (r1 & H1 & K1) (r2 & H2 & K2).
    apply (lk_live _ _ Hl) in K1 as (sc1 & S1 & R1 & _). apply (lk_live _ _ Hl) in K2 as (sc2 & S2 & R2 & _).
    simplify_eq. by eapply (fd_held _ _ _ _ _ _ Hf).
  - intros h t Ht. case_decide as Hroot; [|done]. unfold share.
    destruct (held_by (Some t)) as [r|] eqn:Hr; [|done]. destruct (child_request (task_request t)) as [request| |] eqn:Hc; [|done..].
    case_decide as Hlive; [|done]. destruct Hlive as [k Hk]. intros _.
    destruct (proj1 (lk_live _ _ Hl _ _) Hk) as (sc & Hsc & Hrsc & Hopen). exists k, sc.
    split; [done|]. split; [rewrite Ht; eauto|].
    destruct (held_allotted _ _ _ _ _ _ _ _ Hf Ht Hr) as (s' & Hs' & k' & sc' & A1 & A2 & A3 & A4).
    rewrite Hroot, Hs in Hs'. injection Hs' as <-.
    assert (k' = k) as -> by by eapply (lk_res_inj _ _ Hl). simplify_eq. rewrite Hc in A4. injection A4 as <-.
    unfold open_child_of. rewrite Hopen, A3. by rewrite bool_decide_true.
Qed.

Lemma scope_bounds lock a tasks b n d root limit :
  funded c lock a tasks b n → req_dim d (root_request c) = Some limit → tally (share d b) root tasks ≤ limit.
Proof.
  intros Hf Hlim. destruct (scope_of a root) as [s|] eqn:Hs.
  - etrans; [by eapply shares_held|]. destruct (fd_scope _ _ _ _ _ _ Hf _ _ Hs) as (sc & Hsc & Hl & Hr).
    pose proof (wf_conserved _ _ (inv_wf _ _ _ _ (fd_inv _ _ _ _ _ _ Hf)) d s sc Hsc) as Hc.
    unfold conserved in Hc. rewrite Hl, Hlim, Hr, credit_None in Hc. destruct (am_dim d (sc_remaining sc)); [lia|done].
  - enough (tally (share d b) root tasks = 0) by lia. apply msum_zero. intros h t Ht. case_decide as Hroot; [|done].
    unfold share. destruct (held_by (Some t)) as [r|] eqn:Hr; [|done]. exfalso.
    destruct (held_allotted _ _ _ _ _ _ _ _ Hf Ht Hr) as (s & Hs' & _). congruence.
Qed.

(** C24. The books of admission are exact, over every interleaving of requests,
    time-outs, cancellations at every point where a call waits, methods and drops of
    leases and calls of other users of the budget controller, whatever the durable
    file of the budget does.  For
    every root the counters of resident, queued and running agents and of reserved
    storage are the sums over its tasks, so no place is lost or freed twice, and
    they are within the configured limits; a root that is not listed has no task.
    As many slots are taken as there are admitted tasks, never more than the
    configured number.  The queue holds the identifiers of exactly the waiting
    requests in the order of their arrival, and the reservation lock belongs to a
    request that is past the queue.  If the head of the queue is resumed while the
    lock and a slot are free, it is admitted; that it is resumed is not claimed
    ([AdmissionSample.admitted_request_wakes_nobody] has it asleep with slots
    free), only that every step that frees a slot notifies those that wait.  The
    metrics report these numbers.  No step panics unless the budget is durable.
    The run has fewer than 2^64 steps and the amounts are [u64] values. *)
Theorem agents_are_accounted_for budget n actions :
  wf (ct_state budget) n → u64_request (root_request c) →
  N.of_nat (length actions) < u64_max → Forall action_ok actions →
  let '(s, n') := run c actions (new_system budget) n in
  let a := sy_state s in
  (∀ id r, roots a !! id = Some r → counted (sy_tasks s) id r ∧ within c r)
  ∧ (∀ id h t, roots a !! id = None → sy_tasks s !! h = Some t → task_root t ≠ id)
  ∧ (running_slots a = total in_slot (sy_tasks s) ∧ running_slots a ≤ max_running_agents c)
  ∧ (StronglySorted N.lt (waiters a) ∧ (∀ w, w ∈ waiters a ↔ ∃ h, waiting (sy_tasks s !! h) = Some w))
  ∧ (∀ h, sy_lock s = Some h ↔ has_lock (sy_tasks s !! h) = true)
  ∧ (∀ h w rest, sy_lock s = None → waiters a = w :: rest → running_slots a < max_running_agents c →
       waiting (sy_tasks s !! h) = Some w →
       ∃ request p, sy_tasks (act c (Poll h) s n').1.2 !! h = Some (Reserving request p AtLock))
  ∧ (am_resident_agents (metrics a) = total is_live (sy_tasks s)
     ∧ am_queued_agents (metrics a) = total is_queued (sy_tasks s)
     ∧ am_running_agents (metrics a) = total is_running (sy_tasks s) ∧ am_resident_idle_agents (metrics a) = 0)
  ∧ (∀ action, action_ok action → notifies s (act c action s n').1.2
       ∧ ((act c action s n').1.1 = Panic → ct_durable (sy_budget s) = true)).
Proof.
  intros Hw Hu Hlen Hok. pose proof (run_good c actions 0 _ n (new_good c budget n Hw) ltac:(lia) Hu Hok) as Hg.
  destruct (run c actions (new_system budget) n) as [s n']. cbn in Hg |- *. pose proof Hg as [Ha Hf].
  split_and!.
  - apply (ac_counted _ _ _ _ Ha).
  - intros id h t Hid Ht <-. destruct (ac_known _ _ _ _ Ha _ _ Ht) as [[r Hr] _]. congruence.
  - apply (ac_slots _ _ _ _ Ha).
  - apply (ac_slots _ _ _ _ Ha).
  - apply (ac_sorted _ _ _ _ Ha).
  - apply (ac_waiters _ _ _ _ Ha).
  - apply (fd_lock _ _ _ _ _ _ Hf).
  - intros h w rest. by eapply front_is_admitted.
  - by eapply metrics_exact.
  - by eapply metrics_exact.
  - by eapply metrics_exact.
  - by eapply metrics_exact.
  - intros action Hact. split; [by eapply act_notifies|]. intros Hp. pose proof (act_good c _ s n' action Hg ltac:(lia) Hu Hact) as Hstep. unfold wp in Hstep.
    destruct (act c action s n') as [[r s'] n'']. by apply Hstep.
Qed.

(** C34. The agents of a root share one rollout budget, over the same runs: every
    live reservation of a task lies in the one scope of its root, for exactly what
    the request of the task asked, and in each limited dimension what the live
    reservations of all the tasks of a root were given is together at most the
    configured budget of a root, also while other users of the controller create,
    settle, revoke and transfer what they like. *)
Theorem rollout_budget_is_shared budget n actions :
  wf (ct_state budget) n → u64_request (root_request c) →
  N.of_nat (length actions) < u64_max → Forall action_ok actions →
  let s := (run c actions (new_system budget) n).1 in
  let b := ct_state (sy_budget s) in
  (∀ root d limit, req_dim d (root_request c) = Some limit → tally (share d b) root (sy_tasks s) ≤ limit)
  ∧ ∀ h t r k, sy_tasks s !! h = Some t → held_by (Some t) = Some r → reservations b !! r = Some k →
      ∃ scope sc, scope_of (sy_state s) (task_root t) = Some scope ∧ root_scope c b scope
        ∧ scopes b !! k = Some sc ∧ parent_of sc = Some scope ∧ sc_closed sc = false
        ∧ child_request (task_request t) = Ok (limit_of sc).
Proof.
  intros Hw Hu Hlen Hok. pose proof (run_good c actions 0 _ n (new_good c budget n Hw) ltac:(lia) Hu Hok) as [_ Hf].
  intros s b. split; [intros root d limit; by eapply scope_bounds|]. intros h t r k Ht Hr Hk.
  destruct (held_allotted _ _ _ _ _ _ _ _ Hf Ht Hr) as (scope & Hs & k' & sc & H1 & H2 & H3 & H4).
  pose proof (wf_linked _ _ (inv_wf _ _ _ _ (fd_inv _ _ _ _ _ _ Hf))) as Hl.
  destruct (proj1 (lk_live _ _ Hl _ _) Hk) as (sc' & Hsc & Hrsc & Hopen).
  assert (k' = k) as -> by by eapply (lk_res_inj _ _ Hl). fold s b in Hf. assert (sc' = sc) as -> by congruence.
  exists scope, sc. split_and!; try done. by eapply (fd_scope _ _ _ _ _ _ Hf).
Qed.

End Properties.

End AgentAdmission.

(** ** Examples *)

Module AdmissionSample.
Import AgentAdmission.

#[local] Existing Instance sample_env.

#[local] Existing Instance sample_env_ok.

(** An agent below the root 7 that asks for 100 tokens. *)
Definition request (agent : AgentId) : AgentAdmissionRequest :=
  {| aq_agent_id := agent;
     aq_spawn := {| sp_root_agent_id := 7;
                    sp_budget := {| max_input_tokens := 60; max_output_tokens := 40; max_tool_calls := 8;
                                    max_elapsed_ms := 1000; max_cost_usd := None; ab_max_depth := 4 |} |};
     aq_depth := 1; aq_parent_profile := None; aq_storage := {| as_bytes := 10; as_items := 1 |} |}.

(** A request is resumed until it has its lease. *)
Definition admission (h : N) (agent : AgentId) (resumptions : nat) : list Action :=
  Begin h (request agent) :: replicate resumptions (Poll h).

(** The first agent opens the scope of the root and runs, the second gives up,
    the third is admitted and the fourth waits. *)
Definition sample_actions : list Action :=
  admission 1 101 6 ++ [MarkRunning 1] ++ admission 2 102 0 ++ [GiveUp 2] ++ admission 3 103 5 ++ admission 4 104 0.

Definition after (c : AgentAdmissionConfig) (actions : list Action) : System * N :=
  run c actions (new_system new_controller) 0.

Lemma sample_actions_ok : Forall action_ok sample_actions.
Proof. by repeat constructor. Qed.

Lemma default_root_u64 : u64_request (root_request default_config).
Proof. intros [] x [= <-]. done. Qed.

Lemma agents_are_accounted_for_witness :
  (let s := (after default_config sample_actions).1 in
   (λ r, (resident r, queued r, running r, storage_bytes r)) <$> roots (sy_state s) !! 7 = Some (3, 2, 1, 30)
   ∧ running_slots (sy_state s) = 2 ∧ waiters (sy_state s) = [3])
  ∧ ∃ request p, sy_tasks (act default_config (Poll 4) (after default_config sample_actions).1
                             (after default_config sample_actions).2).1.2 !! 4 = Some (Reserving request p AtLock).
Proof.
  split; [vm_compute; by split_and!|].
  pose proof (agents_are_accounted_for default_config new_controller 0 sample_actions (wf_default _) default_root_u64
    ltac:(vm_compute; reflexivity) sample_actions_ok) as Hall.
  unfold after. destruct (run _ _ _ _) as [s n] eqn:Hrun. destruct Hall as (_ & _ & _ & _ & _ & Hfront & _).
  eapply Hfront.
  all: replace s with (after default_config sample_actions).1 by (unfold after; by rewrite Hrun); vm_compute; reflexivity.
Defined.

Lemma rollout_budget_is_shared_witness :
  let s := (after default_config sample_actions).1 in
  tally (share Tokens (ct_state (sy_budget s))) 7 (sy_tasks s) = 200
  ∧ tally (share Tokens (ct_state (sy_budget s))) 7 (sy_tasks s) ≤ 2000000.
Proof.
  split; [vm_compute; reflexivity|].
  apply (rollout_budget_is_shared default_config new_controller 0 sample_actions (wf_default _) default_root_u64
    ltac:(vm_compute; reflexivity) sample_actions_ok) with (d := Tokens). reflexivity.
Defined.

(** The agent of task 1 has the scope 2 and the reservation 3, below the scope 1
    of its root; an operation of it is open under the reservation 5. *)
Definition busy : list Action :=
  admission 1 101 6 ++ [MarkRunning 1; Other (ReserveChild 2 BudgetScopeKind.Operation "op" unlimited)].

Definition answers (c : AgentAdmissionConfig) (actions : list Action) (s : System * N) : list bool :=
  (fix go actions s n := match actions with
                         | [] => []
                         | a :: rest => match act c a s n with
                                        | (r, s', n') => match r with Ok _ => true | _ => false end :: go rest s' n'
                                        end
                         end) actions s.1 s.2.

(** Two requests arrive, the second is resumed first, finds itself behind and goes
    to sleep; the first is admitted, which notifies nobody: the second sleeps on at
    the head of the queue with fifteen slots free. *)
Example admitted_request_wakes_nobody :
  let s := (after default_config (admission 1 101 0 ++ admission 2 102 1 ++ [Poll 1])).1 in
  waiting (sy_tasks s !! 2) = head (waiters (sy_state s)) ∧ waiters (sy_state s) = [1]
  ∧ sy_lock s = None ∧ available_permits default_config (sy_state s) = 15 ∧ sy_notified s = 0.
Proof. vm_compute. by split_and!. Qed.

(** A revocation that fails has given up the reservation: the second one
    succeeds without the budget, which the root never gets back. *)
Example second_revoke_loses_the_budget :
  let s := after default_config busy in
  let last := (after default_config (busy ++ [Revoke 1; Other (SettleReservation 5 UsageReport_default); Revoke 1; Close 1])).1 in
  answers default_config [Revoke 1; Other (SettleReservation 5 UsageReport_default); Revoke 1; Close 1] s = [false; true; true; true]
  ∧ held_by (sy_tasks last !! 1) = None ∧ resident <$> roots (sy_state last) !! 7 = Some 0
  ∧ reservations (ct_state (sy_budget last)) !! 3 = Some 2
  ∧ held Tokens (ct_state (sy_budget last)) 1 = 100.
Proof. vm_compute. by split_and!. Qed.

(** A dropped lease stays in the table of reservations, where a child that hands
    back what it has left finds it. *)
Example dropped_agent_stays_listed :
  let last := (after default_config (admission 1 101 6 ++ [DropLease 1 true; RevokeSpawned])).1 in
  sy_tasks last !! 1 = None ∧ agent_reservations (sy_state last) !! 101 = Some 3
  ∧ reservations (ct_state (sy_budget last)) !! 3 = None.
Proof. vm_compute. by split_and!. Qed.

(** A root may spend 100 millionths of a dollar, and an agent without a cost
    limit of its own spends five dollars below it. *)
Definition frugal : AgentAdmissionConfig :=
  {| max_agents_per_root := 64; max_running_agents := 16; max_depth := 4; max_queued_per_root := 32;
     sibling_fairness_quantum := 1; root_max_tokens := 2000000; root_max_cost_micro := Some 100;
     max_child_tokens := 200000; max_child_cost_micro := None;
     max_storage_bytes := 1024; max_storage_items := 128 |}.

Definition five_dollars : AttemptUsage :=
  {| us_input_tokens := 10; us_output_tokens := 10; us_cost_usd := Some (f64_of_N 5); us_elapsed_ms := 1;
     us_observability := no_observability |}.

Example root_cost_is_not_enforced :
  validate_config frugal = Ok tt
  ∧ ur_cost_micro <$> (match usage_report five_dollars with Ok r => Some r | _ => None end) = Some 5000000
  ∧ answers frugal [Settle 1 five_dollars; Close 1] (after frugal (admission 1 101 6)) = [true; true]
  ∧ let last := (after frugal (admission 1 101 6 ++ [Settle 1 five_dollars; Close 1])).1 in
    max_cost_micro <$> remaining (ct_state (sy_budget last)) 1 = Some (Some 100).
Proof. vm_compute. by split_and!. Qed.

End AdmissionSample.
